(* ===== verification/_CoqProject ===== *)
-Q . S2P
Prelude.v
ArithUint256.v
Serialize.v
Compressor.v
Transaction.v
Block.v
Script.v
ConsensusParams.v
WitnessUtil.v
Chain.v
DiffDelta.v
BestChain.v
BestChainSpec.v
BestChainOps.v
Merkle.v
MerkleUnique.v
TxCheck.v
BlockCheck.v
WitnessBundles.v
WitnessDelta.v
WitnessDeltaUndo.v
WitnessDeltaBlock.v
WitnessDeltaAccepted.v
WitnessSelect.v
WitnessDraw.v
WitnessAgree.v
VersionBits.v
Coins.v
CoinsRefine.v
CoinsSpec.v
CoinsBlock.v
Interpreter.v
SigCheck.v
InterpreterSpec.v
StandardScripts.v
Standard.v
Policy.v
CheckInputs.v
BlockEffect.v
ConnectBlock.v
SigEncoding.v
Hashers.v
Sha2.v
Ripemd.v
Hash.v
Bloom.v
Mempool.v
MempoolGraph.v
MempoolInvariant.v
MempoolAdd.v
MempoolRemove.v
MempoolSpec.v
MempoolOps.v
MempoolCheck.v
MempoolClaims.v
MempoolAccept.v
