(* ===== verification/Prelude.v ===== *)
(** * Munt consensus core: a verification development

    Munt is a node for a proof-of-work chain whose blocks are also signed by
    witnesses: holders of coins locked in witness outputs. The development
    models the parts of the C++ source that decide what is valid: number and
    byte encodings, transactions and scripts, the block tree, difficulty,
    merkle trees, the checks of a transaction against the coins it spends, the
    rules that bind witness outputs, the choice of the witness, the witness
    set that headers carry, deployments, the cache of unspent outputs, the
    effect of blocks on it, the checks of a block, the choice of the best chain,
    the evaluation of scripts and signatures, the hash functions, bloom filters, and the memory
    pool.
    Every definition is a shallow embedding of the function of the same name;
    names that differ are given in the manifest beside the development.

    ** Parts, in dependency order

    - [Prelude]: machine integers ([u8] ... [u64], [i32], [i64] write the
      wrap-around out), the error type [res] with its [let!]/[guard!] notation,
      stream readers, and the tactics of the development ([zdm], [zbool],
      [zcase]). The hint database [munt] holds the shared round-trip lemmas.
    - [ArithUint256]: arith_uint256.{h,cpp}. A number is its list of eight
      limbs; [val] is what it denotes. [C] theorems: every operator is
      arithmetic modulo [2^256], division is exact, compact targets round-trip.
    - [Serialize]: serialize.h. Writers are functions to bytes, readers are
      partial; the classes [RoundTrip] and [Canonical] are the interface the
      other codecs are proved against.
    - [Compressor]: compressor.{h,cpp} and the two functions of pubkey.cpp it
      calls; the secp256k1 point parser is an argument.
    - [Transaction]: primitives/transaction.{h,cpp}: outpoints that are a hash or
      a block position, inputs with their flag byte, the output union, the old
      and the new wire format.
    - [Block]: primitives/block.{h,cpp}: headers with their witness fields, the
      formats under the version flags, the two hashes and the weight.
    - [Script]: script/script.{h,cpp}: script numbers, pushes, decoding, the
      scanners and recognisers.
    - [ConsensusParams]: consensus/params.h, chainparams.cpp (main network),
      the phase functions of witnessutil.cpp and the subsidy schedule of
      validation/validation_misc.cpp.
    - [WitnessUtil]: witnessutil.{h,cpp}: access to witness outputs, lock
      lengths and weights.
    - [Chain]: chain.{h,cpp}. Block index entries live in a heap ([ptr] to
      record) because the source follows and assigns pointers; [CChain] and
      [CCloneChain] are the functions on the vector of pointers.
    - [DiffDelta]: pow/: the Delta retarget with its windows, limits and three
      exceptions, and [CheckProofOfWork].
    - [BestChain], [BestChainSpec], [BestChainOps]: the part of
      validation/validation.cpp that chooses the active chain: the index of the
      blocks, the candidates and their order, activation, precious, invalidated
      and received blocks. What a block does to the coins is the class
      [ChainState], which may refuse blocks for any reason, fail to undo them and
      fail to write the coins; its one law, [ChainStateLaws], says that an undo
      that works gives the coins from before. The second file has the
      invariants and one lemma per step, the third the calls from outside.
    - [Merkle], [MerkleUnique]: consensus/merkle.cpp and merkleblock.{h,cpp}, for
      any hash; the second file proves that a root that is not mutated
      determines its leaves or a collision.
    - [TxCheck]: consensus/tx_verify.cpp: finality, sequence locks, context-free
      and contextual checks, input checks; coins are a function from outpoints.
    - [BlockCheck]: the checks of a block and of a header on their own and on
      their place in validation/validation.cpp, with the cache of
      LRUCache/LRUCache11.hpp.
    - [WitnessBundles]: the rest of consensus/tx_verify.cpp: witness inputs and
      outputs sorted into bundles and the rule of every kind of bundle.
    - [WitnessDelta], [WitnessDeltaUndo], [WitnessDeltaBlock],
      [WitnessDeltaAccepted]: the simplified witness set of
      validation/witnessvalidation.cpp. The sorted container is the class
      [FlatSet] with laws [FlatSetLaws] and a sorted list as its instance. The
      first file has the data, the changes of a block and their replay from a
      header; the others prove that undo restores the set, that the set follows
      the coins, and that the bundles [WitnessBundles] accepts are the ones the
      set expects.
    - [WitnessSelect], [WitnessDraw], [WitnessAgree]: the choice of the witness
      of a block (same source): participation, expiry, weights, the draw; its
      specification; the agreement of the choice from the set with the choice
      from the coins.
    - [VersionBits]: versionbits.{h,cpp}: the state machine of a deployment
      with its cache, against the class [ThresholdChecker].
    - [Coins], [CoinsRefine], [CoinsSpec], [CoinsBlock]: coins.{h,cpp}, the view
      in txdb.cpp, and the part of validation/validation.cpp that applies a
      block to the coins and undoes it. A view is an instance of [CoinsView]; its
      contract is [CoinsViewLaws], which the cache proves from the view below it
      and the database view proves for itself. [MemoryUsage] and [Placement] are
      the estimate of memory and the positions of outputs.
    - [Interpreter]: script/interpreter.cpp, the machine: [eval_step] is one
      round of the loop of [EvalScript], [execute] its [switch]. Signatures and
      locks are the class [BaseSignatureChecker], the hashes the class
      [ScriptHashes].
    - [SigCheck]: the rest of interpreter.cpp, the signature hashes and
      [transaction_checker], an instance of [BaseSignatureChecker]; and the
      parser of signatures of pubkey.cpp. The curve is the class [Secp256k1].
    - [InterpreterSpec], [StandardScripts], [SigEncoding]: limits, termination,
      the meaning of the standard scripts, and signature encodings.
    - [Standard]: script/standard.{h,cpp}: the recogniser of standard scripts,
      destinations and the scripts for them.
    - [CheckInputs]: the inputs of a transaction against their coins in
      validation/validation.cpp, with the keys of script/sign.cpp; every
      signature is that of [SigCheck], every script run by [Interpreter].
    - [BlockEffect]: when the transactions of a block apply to the coins: what a
      block brings along, apart from the coins that it spends.
    - [ConnectBlock]: the function of that name: the checks of [BlockCheck], the
      witness, the loop over the transactions with [CheckInputs] and
      [WitnessBundles], and the rewards. The coins are the class [CoinsStore]
      with laws [CoinsStoreLaws], which the views of [Coins] implement.
    - [Hashers], [Sha2], [Ripemd], [Hash]: crypto/: the streaming hash classes
      against the class [HashFunction] with its laws [HashLaws] (a stream of any
      chunks is the standard padding of the whole), SHA-1, SHA-256, SHA-512 and
      RIPEMD-160 as instances, each compared with a transcription of its
      standard, HMAC, and the hashes of hash.{h,cpp}. [Hash.crypto_hashes] is the
      instance of [ScriptHashes] that the interpreter takes.
    - [Bloom]: bloom.{h,cpp}: both filters.
    - [Mempool]: txmempool.{h,cpp}, with rbf.cpp and feerate.cpp. Iterators are
      hashes, so a use after erasure is an error value; what the pool asks of
      others is the class [PoolEnv]. [MempoolGraph] has ancestors and
      descendants, [MempoolInvariant] the consistency of links, statistics and
      books, [MempoolAdd], [MempoolRemove], [MempoolSpec], [MempoolOps] that the
      operations keep it, [MempoolCheck] the listing and the pool's own check,
      [MempoolClaims] the theorems. [UpdateTransactionsFromBlock] is modelled
      but nothing is proved of it.
    - [Policy]: policy/policy.cpp: what a node relays.
    - [MempoolAccept]: validation/validation_mempool.cpp: how a transaction joins
      the pool and what it replaces, the pool after a reorganisation, and
      its limits. It joins the checks of [TxCheck], [Policy], [WitnessBundles] and
      [CheckInputs] with the operations of [Mempool].
    ** What the theorems show

    - Money: an accepted transaction spends existing, mature, in-range coins and
      creates no value ([TxCheck]); the value locked in a witness output stays
      locked through rearrangements and increases ([WitnessBundles]); the
      subsidies of the main network add up to a fixed supply ([ConsensusParams]);
      a connected block adds at most the subsidy of its height to the value of
      all coins ([ConnectBlock]), if it has no coinbase but its first transaction
      and the first witness coinbase: [extra_coinbase_connects] shows a block
      with another one, which the source connects, and if no transaction names a
      coin both by hash and by position: [one_coin_counts_twice] connects one that does.
      Three theorems of [WitnessBundles] are counterexamples: transactions the
      rules for renewals, key changes and shared inputs accept although value
      leaves the lock.
    - The chain: activation returns, whatever fails, unless a block is rejected as
      perhaps corrupt: [corrupt_block_never_ends]. When it reports success, index,
      candidates, chain and coins are consistent, and no usable block exceeds the
      tip in work; when it fails, the chain is still one of usable blocks and the
      coins are its coins, unless they could not be written. An invalidated block
      and its descendants leave the chain for good ([BestChainOps]). The order of the candidates is shown to have cycles.
    - Blocks: a header commits to the list of transactions, the checks find the
      proof of work, and the witness hash covers all but the signature
      ([BlockCheck], [Block]). An accepted input is authorised by the owner of
      its coin, if all inputs before it have scripts ([CheckInputs]):
      [later_inputs_unchecked] is a transaction without that, whose second input
      the source does not look at.
    - The memory pool: every operation keeps links, statistics, sizes and fees
      exact; a removal takes exactly the descendants; limits on ancestors are
      decided exactly; a block leaves no conflict behind except a spend written
      by position (a counterexample); trimming reaches its limit. An accepted
      transaction is the only spender of its inputs and has paid for all that
      it replaces ([MempoolAccept]), which fails while only headers are
      checked ([partial_keeps_conflict]).
    - Refinement: the stack of coin caches is a finite map of unspent outputs,
      whatever is cached, and a flush makes the database equal to it
      ([CoinsSpec]); undoing a block restores the map ([CoinsBlock]); the witness
      set computed from blocks is the set of witness coins
      ([WitnessDeltaBlock]); the deployment cache computes the recursive
      definition of the state ([VersionBits]).
    - Equivalence of optimised code with a reference: the constant-space merkle
      calculator with the recursive tree, the skip list with parent steps, the
      chunked vector readers with a plain read, limb arithmetic with [Z], the
      replay of a header with the changes of its block, the choice of the witness
      from the set with the choice from the coins, the single pass of
      [OP_CHECKMULTISIG] with the existence of an ordered match.
    - Round trips: transactions, compressed outputs, numbers, scripts, compact
      targets, partial merkle trees, coins, headers, standard scripts, the undo of headers
      and blocks.
    - Scripts: evaluation ends, keeps the limits of the machine, and accepts a
      spend of a key hash or script hash exactly when the checker accepts the
      signature or the script accepts its arguments. A defect of the source is that
      an output that demands a lock time can never be spent
      ([locked_output_is_unspendable]). The check of signature encodings is exact
      ([SigEncoding]).
    - Hashes and filters: each streaming hash is its standard for any chunking;
      a bloom filter has no false negatives and contains exactly what its bits
      say; the rolling filter keeps the last half generation.
    - Soundness against an adversary: an accepted partial merkle tree with the
      right root proves its matches or exhibits a hash collision; a header that
      passes the proof-of-work check meets its target.
    - Bounds: retarget limits, lock times, weights, fail counts, penalties, with
      the points where the source's integers wrap.

    ** Conventions

    A loop whose recursion is not structural takes fuel: the number of levels of
    a merkle tree, the height of a block, the number of limbs or bits, the
    length of a script (each round of [EvalScript] reads at least one byte), the
    number of entries of the pool, and for the activation the number of blocks
    times the height (a round marks a block or moves the tip up). The
    theorems are stated for the fuel that the definition itself computes, so
    running out is never a hypothesis. Host byte order is little-endian. An
    assertion, a thrown exception or a null dereference is an explicit failure
    value ([None], [Err code_failure]). Code outside the repository's own C++
    (secp256k1) and the hashes are arguments of the definitions that use them;
    the few properties that depend on them say what they assume. Logging, locks
    and statistics are left out.

    ** Not modelled

    Signing, the comparison of the witness delta in [ConnectBlock] (the source
    switches it off), partial sync and the block files, fee estimates with the
    decay of the minimum fee, block generation, the wallet,
    storage, networking, RPC and the user interfaces: they are threads,
    containers of other libraries, floating point statistics, input and output,
    or depend on private keys. *)

From Stdlib Require Export ZArith Lia List Bool.
From stdpp Require Export prelude.
Open Scope Z_scope.

(** ** Machine integers

    A C++ unsigned integer of width [w] is a [Z] in [[0, 2^w)]; a result that
    the language reduces modulo [2^w] is written with one of the wrappers
    below, so that an overflow of the source is an overflow of the model. *)

Definition uwrap (w z : Z) : Z := z mod 2 ^ w.
Definition u8 (z : Z) : Z := uwrap 8 z.
Definition u16 (z : Z) : Z := uwrap 16 z.
Definition u32 (z : Z) : Z := uwrap 32 z.
Definition u64 (z : Z) : Z := uwrap 64 z.

(** Conversion to a signed integer of width [w] (two's complement). *)
Definition swrap (w z : Z) : Z := (z + 2 ^ (w - 1)) mod 2 ^ w - 2 ^ (w - 1).
Definition i32 (z : Z) : Z := swrap 32 z.
Definition i64 (z : Z) : Z := swrap 64 z.

Definition is_u8 (z : Z) : Prop := 0 <= z < 2 ^ 8.
Definition is_u32 (z : Z) : Prop := 0 <= z < 2 ^ 32.
Definition is_u64 (z : Z) : Prop := 0 <= z < 2 ^ 64.
Definition is_i64 (z : Z) : Prop := - 2 ^ 63 <= z < 2 ^ 63.

Definition UINT32_MAX : Z := 2 ^ 32 - 1.
Definition UINT64_MAX : Z := 2 ^ 64 - 1.
Definition INT64_MAX : Z := 2 ^ 63 - 1.

(** ** Errors

    [res E A]: a computation of the source that either returns a value or
    leaves through an error path ([throw], [assert], a rejected state). *)

Inductive res (E A : Type) : Type :=
| Ok (a : A)
| Err (e : E).
Arguments Ok {E A} a.
Arguments Err {E A} e.

Definition res_bind {E A B : Type} (m : res E A) (f : A -> res E B) : res E B :=
  match m with Ok a => f a | Err e => Err e end.

Declare Scope munt_scope.
Delimit Scope munt_scope with munt.
Notation "'let!' x ':=' m 'in' k" := (res_bind m (fun x => k))
  (at level 10, x pattern, m at level 100, k at level 200) : munt_scope.
Notation "'guard!' b 'or' e 'in' k" := (if b then k else Err e)
  (at level 10, b at level 100, e at level 100, k at level 200) : munt_scope.
Open Scope munt_scope.

(** ** Byte streams

    A serialisation stream of the source is the list of its bytes; reading
    consumes a prefix, and reading past the end throws, which is [None]. *)

Definition reader (A : Type) : Type := list Z -> option (A * list Z).

Definition rd_ret {A} (a : A) : reader A := fun s => Some (a, s).
Definition rd_bind {A B} (m : reader A) (f : A -> reader B) : reader B :=
  fun s => match m s with Some (a, s') => f a s' | None => None end.
Definition rd_fail {A} : reader A := fun _ => None.

Notation "x '<~' m ';;;' k" := (rd_bind m (fun x => k))
  (at level 100, m at next level, right associativity) : munt_scope.

(** Run a reader [n] times. *)
Fixpoint rd_times {A} (n : nat) (m : reader A) : reader (list A) :=
  match n with
  | O => rd_ret []
  | S n' => x <~ m ;;; l <~ rd_times n' m ;;; rd_ret (x :: l)
  end.

(** ** Automation *)

Create HintDb munt.

(** Destruct every [if]/[match] scrutinee on a boolean comparison, keeping the
    proposition it decides. *)
Ltac zbool :=
  repeat match goal with
  | H : (_ && _) = true |- _ => apply andb_true_iff in H; destruct H
  | H : (_ || _) = false |- _ => apply orb_false_iff in H; destruct H
  | H : negb _ = true |- _ => apply negb_true_iff in H
  | H : negb _ = false |- _ => apply negb_false_iff in H
  | H : (_ =? _) = true |- _ => apply Z.eqb_eq in H
  | H : (_ =? _) = false |- _ => apply Z.eqb_neq in H
  | H : (_ <? _) = true |- _ => apply Z.ltb_lt in H
  | H : (_ <? _) = false |- _ => apply Z.ltb_ge in H
  | H : (_ <=? _) = true |- _ => apply Z.leb_le in H
  | H : (_ <=? _) = false |- _ => apply Z.leb_gt in H
  | H : (_ >? _) = true |- _ => rewrite Z.gtb_ltb in H; apply Z.ltb_lt in H
  | H : (_ >? _) = false |- _ => rewrite Z.gtb_ltb in H; apply Z.ltb_ge in H
  | H : (_ >=? _) = true |- _ => rewrite Z.geb_leb in H; apply Z.leb_le in H
  | H : (_ >=? _) = false |- _ => rewrite Z.geb_leb in H; apply Z.leb_gt in H
  end.

Ltac zcase :=
  match goal with
  | |- context [if ?b then _ else _] => destruct b eqn:?; zbool
  | H : context [if ?b then _ else _] |- _ => destruct b eqn:?; zbool
  end.

Ltac zdm := Z.div_mod_to_equations.

(** Invert an equation between results. *)
Ltac inv_res :=
  repeat match goal with
  | H : Ok _ = Ok _ |- _ => injection H; clear H; intros; subst
  | H : Err _ = Err _ |- _ => injection H; clear H; intros; subst
  | H : Ok _ = Err _ |- _ => discriminate H
  | H : Err _ = Ok _ |- _ => discriminate H
  end.

(** ** Lemmas on machine integers *)

Lemma uwrap_small w z : 0 <= z < 2 ^ w -> uwrap w z = z.
Proof. intros; apply Z.mod_small; lia. Qed.

Lemma uwrap_range w z : 0 <= w -> 0 <= uwrap w z < 2 ^ w.
Proof. intros; apply Z.mod_pos_bound; apply Z.pow_pos_nonneg; lia. Qed.

Lemma u8_range z : 0 <= u8 z < 256.
Proof. apply (uwrap_range 8); lia. Qed.
Lemma u32_range z : 0 <= u32 z < 2 ^ 32.
Proof. apply uwrap_range; lia. Qed.
Lemma u64_range z : 0 <= u64 z < 2 ^ 64.
Proof. apply uwrap_range; lia. Qed.

Lemma u8_small z : 0 <= z < 2 ^ 8 -> u8 z = z.
Proof. apply uwrap_small. Qed.
Lemma u32_small z : 0 <= z < 2 ^ 32 -> u32 z = z.
Proof. apply uwrap_small. Qed.
Lemma u64_small z : 0 <= z < 2 ^ 64 -> u64 z = z.
Proof. apply uwrap_small. Qed.

Lemma swrap_small w z : 0 < w -> - 2 ^ (w - 1) <= z < 2 ^ (w - 1) -> swrap w z = z.
Proof.
  intros Hw Hz; unfold swrap.
  assert (2 ^ w = 2 * 2 ^ (w - 1)) by (rewrite <- Z.pow_succ_r by lia; f_equal; lia).
  rewrite Z.mod_small; lia.
Qed.

Lemma i64_small z : - 2 ^ 63 <= z < 2 ^ 63 -> i64 z = z.
Proof. intros; apply (swrap_small 64); [lia|]. change (64 - 1) with 63; lia. Qed.
Lemma i32_small z : - 2 ^ 31 <= z < 2 ^ 31 -> i32 z = z.
Proof. intros; apply (swrap_small 32); [lia|]. change (32 - 1) with 31; lia. Qed.

Lemma i64_range z : - 2 ^ 63 <= i64 z < 2 ^ 63.
Proof.
  unfold i64, swrap. pose proof (Z.mod_pos_bound (z + 2 ^ (64 - 1)) (2 ^ 64) ltac:(lia)).
  change (64 - 1) with 63 in *. lia.
Qed.

(** ** Lemmas on bit operations *)

(** [x & (2^n - 1)] keeps the low bits. *)
Lemma land_mask n x : 0 <= n -> Z.land x (2 ^ n - 1) = x mod 2 ^ n.
Proof. intros; rewrite <- Z.land_ones by lia; f_equal; rewrite Z.ones_equiv; lia. Qed.

Lemma shiftr_div n x : 0 <= n -> Z.shiftr x n = x / 2 ^ n.
Proof. apply Z.shiftr_div_pow2. Qed.

Lemma shiftl_mul n x : 0 <= n -> Z.shiftl x n = x * 2 ^ n.
Proof. apply Z.shiftl_mul_pow2. Qed.

(** A value below [2^n] has no bit at or above [n]. *)
Lemma testbit_above n a i : 0 <= a < 2 ^ n -> n <= i -> Z.testbit a i = false.
Proof.
  intros Ha Hi. destruct (Z.lt_ge_cases n 0) as [Hn|Hn].
  { rewrite Z.pow_neg_r in Ha by lia. lia. }
  rewrite <- (Z.mod_small a (2 ^ n)) by lia. apply Z.mod_pow2_bits_high; lia.
Qed.

Lemma land_disjoint n a b : 0 <= n -> 0 <= a < 2 ^ n -> Z.land a (b * 2 ^ n) = 0.
Proof.
  intros Hn Ha. rewrite <- Z.shiftl_mul_pow2 by lia.
  apply Z.bits_inj'; intros i Hi. rewrite Z.land_spec, Z.bits_0.
  destruct (Z.lt_ge_cases i n).
  - rewrite Z.shiftl_spec_low by lia. apply andb_false_r.
  - by rewrite (testbit_above n a i).
Qed.

(** [|] of a value below [2^n] and a multiple of [2^n] is their sum. *)
Lemma lor_disjoint n a b : 0 <= n -> 0 <= a < 2 ^ n -> Z.lor a (b * 2 ^ n) = a + b * 2 ^ n.
Proof.
  intros Hn Ha. pose proof (land_disjoint n a b Hn Ha) as Hd.
  rewrite <- Z.lxor_lor by done. symmetry; by apply Z.add_nocarry_lxor.
Qed.

(** Testing one bit with a mask. *)
Lemma land_pow2 x r : 0 <= r -> (Z.land x (2 ^ r) =? 0) = negb (Z.testbit x r).
Proof.
  intros Hr. destruct (Z.testbit x r) eqn:E; cbn [negb].
  - apply Z.eqb_neq. intros H. assert (Z.testbit (Z.land x (2 ^ r)) r = true)
      by (rewrite Z.land_spec, E, Z.pow2_bits_true by lia; done).
    rewrite H, Z.bits_0 in *. done.
  - apply Z.eqb_eq. apply Z.bits_inj'; intros i Hi. rewrite Z.land_spec, Z.bits_0.
    destruct (Z.eq_dec i r) as [->|]; [by rewrite E|].
    rewrite Z.pow2_bits_false by lia. apply andb_false_r.
Qed.

(** The mask of the top bit of a value below [2^(r+1)] compares it with [2^r]. *)
Lemma land_topbit r m : 0 <= r -> 0 <= m < 2 ^ (r + 1) -> (Z.land m (2 ^ r) =? 0) = (m <? 2 ^ r).
Proof.
  intros Hr Hm. rewrite land_pow2 by lia. rewrite Z.pow_add_r in Hm by lia.
  destruct (m <? 2 ^ r) eqn:E; zbool.
  - rewrite (testbit_above r); [done|lia|lia].
  - rewrite (proj2 (Z.testbit_true m r ltac:(lia))); [done|].
    assert (m / 2 ^ r = 1) as ->; [|done]. symmetry. apply Z.div_unique with (m - 2 ^ r); lia.
Qed.

(** A non-negative value without bits from [n] on is below [2^n]. *)
Lemma bits_lt_pow2 n x : 0 <= n -> 0 <= x -> (forall i, n <= i -> Z.testbit x i = false) -> x < 2 ^ n.
Proof.
  intros Hn Hx Hb. assert (x = x mod 2 ^ n) as ->; [|apply Z.mod_pos_bound, Z.pow_pos_nonneg; lia].
  apply Z.bits_inj'; intros i Hi. destruct (Z.lt_ge_cases i n).
  - by rewrite Z.mod_pow2_bits_low.
  - rewrite Z.mod_pow2_bits_high by lia. by apply Hb.
Qed.
