(* ===== verification/ArithUint256.v ===== *)
(** * The 256-bit unsigned integer of the consensus code

    Models src/src/arith_uint256.h and src/src/arith_uint256.cpp: [base_uint<256>]
    as its eight 32-bit limbs (least significant first), every operator with the
    loops, the carries and the 32/64-bit truncations of the source, and the
    "compact" floating format of difficulty targets.

    The reference is [val : base_uint -> Z]; the theorems show that each operator
    computes the arithmetic operation modulo [2^256] and keeps the limbs in range. *)

From S2P Require Import Prelude.

Definition WIDTH : nat := 8.
Abbreviation base_uint := (list Z).

(** [pn[i]] *)
Definition pn (a : base_uint) (i : nat) : Z := nth i a 0.

(** The constructors and the assignment from [uint64_t]. *)
Definition bu_zero : base_uint := repeat 0 WIDTH.
Definition of_u64 (b : Z) : base_uint := u32 b :: u32 (Z.shiftr b 32) :: repeat 0 (WIDTH - 2).

(** [operator<<=]: one iteration of the loop over [i], then the loop. *)
Definition shl_step (k : nat) (shift : Z) (a : base_uint) (p : base_uint) (i : nat) : base_uint :=
  let p := if (i + k + 1 <? WIDTH)%nat && negb (shift =? 0)
           then <[(i + k + 1)%nat := Z.lor (pn p (i + k + 1)) (Z.shiftr (pn a i) (32 - shift))]> p
           else p in
  if (i + k <? WIDTH)%nat
  then <[(i + k)%nat := Z.lor (pn p (i + k)) (u32 (Z.shiftl (pn a i) shift))]> p
  else p.

Definition shl (a : base_uint) (shift : Z) : base_uint :=
  fold_left (shl_step (Z.to_nat (shift / 32)) (shift mod 32) a) (seq 0 WIDTH) bu_zero.

(** [operator>>=] *)
Definition shr_step (k : nat) (shift : Z) (a : base_uint) (p : base_uint) (i : nat) : base_uint :=
  let p := if (k + 1 <=? i)%nat && negb (shift =? 0)
           then <[(i - k - 1)%nat := Z.lor (pn p (i - k - 1)) (u32 (Z.shiftl (pn a i) (32 - shift)))]> p
           else p in
  if (k <=? i)%nat
  then <[(i - k)%nat := Z.lor (pn p (i - k)) (Z.shiftr (pn a i) shift)]> p
  else p.

Definition shr (a : base_uint) (shift : Z) : base_uint :=
  fold_left (shr_step (Z.to_nat (shift / 32)) (shift mod 32) a) (seq 0 WIDTH) bu_zero.

(** [operator*=(uint32_t)]: the loop over the limbs with its 64-bit carry. *)
Fixpoint mul32_loop (carry b32 : Z) (p : list Z) : list Z :=
  match p with
  | [] => []
  | x :: p' => let n := u64 (carry + u64 (b32 * x)) in
               Z.land n 0xffffffff :: mul32_loop (Z.shiftr n 32) b32 p'
  end.
Definition mul32 (a : base_uint) (b32 : Z) : base_uint := mul32_loop 0 b32 a.

(** [operator*=(const base_uint&)]: the inner loop over [i] runs on the suffix
    [pn[j..WIDTH)], the outer one over [j]. *)
Fixpoint mul_row (carry aj : Z) (p b : list Z) : list Z :=
  match p, b with
  | x :: p', y :: b' => let n := u64 (carry + x + u64 (aj * y)) in
                        Z.land n 0xffffffff :: mul_row (Z.shiftr n 32) aj p' b'
  | _, _ => p
  end.
Definition mul_step (a b : base_uint) (p : base_uint) (j : nat) : base_uint :=
  firstn j p ++ mul_row 0 (pn a j) (skipn j p) b.
Definition mul (a b : base_uint) : base_uint :=
  fold_left (mul_step a b) (seq 0 WIDTH) (of_u64 0).

(** [operator+=] *)
Fixpoint add_loop (carry : Z) (p b : list Z) : list Z :=
  match p, b with
  | x :: p', y :: b' => let n := u64 (carry + x + y) in
                        Z.land n 0xffffffff :: add_loop (Z.shiftr n 32) p' b'
  | _, _ => []
  end.
Definition add (a b : base_uint) : base_uint := add_loop 0 a b.

(** [operator~], prefix [operator++] and [operator--], unary [operator-],
    [operator-=]. *)
Definition bnot (a : base_uint) : base_uint := map (fun x => u32 (Z.lnot x)) a.

Fixpoint incr (a : list Z) : list Z :=
  match a with
  | [] => []
  | x :: a' => let x' := u32 (x + 1) in if x' =? 0 then x' :: incr a' else x' :: a'
  end.
Fixpoint decr (a : list Z) : list Z :=
  match a with
  | [] => []
  | x :: a' => let x' := u32 (x - 1) in if x' =? UINT32_MAX then x' :: decr a' else x' :: a'
  end.
Definition neg (a : base_uint) : base_uint := incr (bnot a).
Definition sub (a b : base_uint) : base_uint := add a (neg b).

(** [operator^=], [operator&=], [operator|=] *)
Definition bxor (a b : base_uint) : base_uint := zip_with Z.lxor a b.
Definition band (a b : base_uint) : base_uint := zip_with Z.land a b.
Definition bor (a b : base_uint) : base_uint := zip_with Z.lor a b.

(** [CompareTo]: from the most significant limb down. *)
Fixpoint compare_from (i : nat) (a b : base_uint) : Z :=
  match i with
  | O => 0
  | S i' => if pn a i' <? pn b i' then -1
            else if pn a i' >? pn b i' then 1
            else compare_from i' a b
  end.
Definition CompareTo (a b : base_uint) : Z := compare_from WIDTH a b.
Definition bu_gt (a b : base_uint) : bool := CompareTo a b >? 0.
Definition bu_lt (a b : base_uint) : bool := CompareTo a b <? 0.
Definition bu_ge (a b : base_uint) : bool := CompareTo a b >=? 0.

(** [EqualTo(uint64_t)] *)
Definition EqualTo (a : base_uint) (b : Z) : bool :=
  forallb (fun i => pn a i =? 0) (seq 2 (WIDTH - 2)) &&
  (pn a 1 =? Z.shiftr b 32) && (pn a 0 =? Z.land b 0xffffffff).

(** [bits()]: position of the highest set bit plus one. *)
Fixpoint bits_limb (nbits : nat) (x : Z) : Z :=
  match nbits with
  | O => 0
  | S n' => if negb (Z.land x (u32 (Z.shiftl 1 (Z.of_nat nbits))) =? 0) then Z.of_nat nbits
            else bits_limb n' x
  end.
Fixpoint bits_from (pos : nat) (a : base_uint) : Z :=
  match pos with
  | O => 0
  | S p => if negb (pn a p =? 0) then 32 * Z.of_nat p + bits_limb 31 (pn a p) + 1
           else bits_from p a
  end.
Definition bits (a : base_uint) : Z := bits_from WIDTH a.

(** [operator/=]: [None] is the thrown [uint_error("Division by zero")]. The
    loop runs for [shift] down to 0, so [S shift] iterations. *)
Definition set_bit (q : base_uint) (shift : nat) : base_uint :=
  let w := (shift / 32)%nat in
  <[w := Z.lor (pn q w) (u32 (Z.shiftl 1 (Z.land (Z.of_nat shift) 31)))]> q.

Fixpoint div_loop (iters : nat) (num dv q : base_uint) : base_uint * base_uint :=
  match iters with
  | O => (q, num)
  | S shift =>
      if bu_ge num dv
      then div_loop shift (sub num dv) (shr dv 1) (set_bit q shift)
      else div_loop shift num (shr dv 1) q
  end.

Definition div (a b : base_uint) : option base_uint :=
  let num_bits := bits a in
  let div_bits := bits b in
  if div_bits =? 0 then None
  else if div_bits >? num_bits then Some (of_u64 0)
  else let shift := num_bits - div_bits in
       Some (fst (div_loop (Z.to_nat (shift + 1)) a (shl b shift) (of_u64 0))).

(** [GetLow64()] *)
Definition GetLow64 (a : base_uint) : Z := Z.lor (pn a 0) (u64 (Z.shiftl (pn a 1) 32)).

(** [SetCompact(nCompact, pfNegative, pfOverflow)]: the value and the two flags. *)
Definition SetCompact (nCompact : Z) : base_uint * bool * bool :=
  let nSize := Z.shiftr nCompact 24 in
  let nWord := Z.land nCompact 0x007fffff in
  let '(v, nWord) :=
    if nSize <=? 3 then let nWord := Z.shiftr nWord (8 * (3 - nSize)) in (of_u64 nWord, nWord)
    else (shl (of_u64 nWord) (8 * (nSize - 3)), nWord) in
  let fNegative := negb (nWord =? 0) && negb (Z.land nCompact 0x00800000 =? 0) in
  let fOverflow := negb (nWord =? 0) && ((nSize >? 34) || ((nWord >? 0xff) && (nSize >? 33))
                                        || ((nWord >? 0xffff) && (nSize >? 32))) in
  (v, fNegative, fOverflow).
Definition SetCompact_val (nCompact : Z) : base_uint := fst (fst (SetCompact nCompact)).

(** [GetCompact(fNegative)] *)
Definition GetCompact (a : base_uint) (fNegative : bool) : Z :=
  let nSize := (bits a + 7) / 8 in
  let nCompact := if nSize <=? 3 then u32 (u64 (Z.shiftl (GetLow64 a) (8 * (3 - nSize))))
                  else u32 (GetLow64 (shr a (8 * (nSize - 3)))) in
  let '(nCompact, nSize) :=
    if negb (Z.land nCompact 0x00800000 =? 0) then (Z.shiftr nCompact 8, nSize + 1)
    else (nCompact, nSize) in
  let nCompact := Z.lor nCompact (u32 (Z.shiftl nSize 24)) in
  Z.lor nCompact (if fNegative && negb (Z.land nCompact 0x007fffff =? 0) then 0x00800000 else 0).

(** [ArithToUint256] / [UintToArith256] with [WriteLE32] / [ReadLE32]: a
    [uint256] is its 32 bytes. *)
Definition WriteLE32 (x : Z) : list Z :=
  [u8 x; u8 (Z.shiftr x 8); u8 (Z.shiftr x 16); u8 (Z.shiftr x 24)].
Definition ReadLE32 (l : list Z) : Z :=
  nth 0 l 0 + 2 ^ 8 * nth 1 l 0 + 2 ^ 16 * nth 2 l 0 + 2 ^ 24 * nth 3 l 0.
Definition ArithToUint256 (a : base_uint) : list Z := flat_map WriteLE32 a.
Definition UintToArith256 (l : list Z) : base_uint :=
  map (fun x => ReadLE32 (skipn (x * 4) l)) (seq 0 WIDTH).

(** ** Reference *)

Fixpoint val (a : list Z) : Z :=
  match a with [] => 0 | x :: a' => x + 2 ^ 32 * val a' end.
Definition limbs_ok (a : list Z) : Prop := Forall (fun x => 0 <= x < 2 ^ 32) a.
Definition wf (a : base_uint) : Prop := length a = WIDTH /\ limbs_ok a.

(** ** Limb arithmetic *)

Lemma mod_limb M r t : 0 < M -> 0 <= r < 2 ^ 32 -> (r + 2 ^ 32 * t) mod (2 ^ 32 * M) = r + 2 ^ 32 * (t mod M).
Proof.
  intros HM Hr. rewrite Z.rem_mul_r by lia.
  rewrite (Z.mul_comm (2 ^ 32) t), Z.mod_add, Z.mod_small by lia.
  rewrite Z.div_add, Z.div_small by lia. by rewrite Z.add_0_l.
Qed.

Lemma low_limb n : Z.land n 0xffffffff = n mod 2 ^ 32.
Proof. apply (land_mask 32); lia. Qed.

Lemma high_limb n : Z.shiftr n 32 = n / 2 ^ 32.
Proof. apply shiftr_div; lia. Qed.

Lemma pow_limbs (n : nat) : 2 ^ (32 * Z.of_nat (S n)) = 2 ^ 32 * 2 ^ (32 * Z.of_nat n).
Proof. rewrite <- Z.pow_add_r by lia. f_equal; lia. Qed.

Lemma pow_limbs_pos (n : nat) : 0 < 2 ^ (32 * Z.of_nat n).
Proof. apply Z.pow_pos_nonneg; lia. Qed.

Lemma limbs_ok_cons x a : limbs_ok (x :: a) <-> 0 <= x < 2 ^ 32 /\ limbs_ok a.
Proof. apply Forall_cons_iff. Qed.

Lemma limbs_ok_app a b : limbs_ok (a ++ b) <-> limbs_ok a /\ limbs_ok b.
Proof. apply Forall_app. Qed.

Lemma val_range a : limbs_ok a -> 0 <= val a < 2 ^ (32 * Z.of_nat (length a)).
Proof.
  induction a as [|x a IH]; intros H; [simpl; lia|].
  apply limbs_ok_cons in H as [Hx Ha]. specialize (IH Ha).
  cbn [val length]. rewrite pow_limbs. nia.
Qed.

Lemma val_app a b : val (a ++ b) = val a + 2 ^ (32 * Z.of_nat (length a)) * val b.
Proof.
  induction a as [|x a IH]; [simpl; lia|].
  cbn [val length app]. rewrite pow_limbs, IH. ring.
Qed.

Lemma val_repeat0 n : val (repeat 0 n) = 0.
Proof. induction n; cbn [repeat val]; lia. Qed.

Lemma limbs_ok_repeat0 n : limbs_ok (repeat 0 n).
Proof. induction n; constructor; [lia|done]. Qed.

(** Equal-length limb lists are determined by their value. *)
Lemma val_inj a b : length a = length b -> limbs_ok a -> limbs_ok b -> val a = val b -> a = b.
Proof.
  revert b; induction a as [|x a IH]; intros [|y b]; try done.
  intros [= Hl] Ha Hb Hv. apply limbs_ok_cons in Ha as [Hx Ha]. apply limbs_ok_cons in Hb as [Hy Hb].
  cbn [val] in Hv.
  assert (x = y) as -> by (apply (f_equal (fun z => z mod 2 ^ 32)) in Hv;
    rewrite !(Z.mul_comm (2 ^ 32)), !Z.mod_add, !Z.mod_small in Hv by lia; done).
  f_equal. apply IH; [done..|]. lia.
Qed.

Lemma wf_range a : wf a -> 0 <= val a < 2 ^ 256.
Proof. intros [Hl Ha]. pose proof (val_range a Ha) as H. rewrite Hl in H. done. Qed.

Lemma wf_inj a b : wf a -> wf b -> val a = val b -> a = b.
Proof. intros [? ?] [? ?] ?. apply val_inj; congruence. Qed.

(** [operator+=] *)
Lemma add_loop_spec p : forall b carry, length b = length p -> limbs_ok p -> limbs_ok b -> 0 <= carry <= 1 ->
  length (add_loop carry p b) = length p /\ limbs_ok (add_loop carry p b) /\
  val (add_loop carry p b) = (carry + val p + val b) mod 2 ^ (32 * Z.of_nat (length p)).
Proof.
  induction p as [|x p IH]; intros [|y b] carry [=] Hp Hb Hc.
  - split_and!; [done|constructor|]. cbn [val length]. by rewrite Z.mod_1_r.
  - apply limbs_ok_cons in Hp as [Hx Hp]. apply limbs_ok_cons in Hb as [Hy Hb].
    cbn [add_loop length val]. rewrite u64_small, low_limb, high_limb by lia.
    destruct (IH b ((carry + x + y) / 2 ^ 32)) as (Hl & Hok & Hv); [done..|zdm; lia|].
    split_and!.
    + by rewrite Hl.
    + apply limbs_ok_cons; split; [apply Z.mod_pos_bound; lia|done].
    + rewrite pow_limbs, Hv.
      replace (carry + (x + 2 ^ 32 * val p) + (y + 2 ^ 32 * val b))
        with ((carry + x + y) mod 2 ^ 32 + 2 ^ 32 * ((carry + x + y) / 2 ^ 32 + val p + val b))
        by (zdm; lia).
      rewrite mod_limb; [done|apply pow_limbs_pos|apply Z.mod_pos_bound; lia].
Qed.

Lemma add_spec a b : wf a -> wf b -> wf (add a b) /\ val (add a b) = (val a + val b) mod 2 ^ 256.
Proof.
  intros [Hla Ha] [Hlb Hb]. unfold add.
  destruct (add_loop_spec a b 0) as (Hl & Hok & Hv); [congruence|done..|lia|].
  rewrite Hla in Hl, Hv. split; [by split|]. rewrite Hv. f_equal; lia.
Qed.

(** [operator++] and [operator--] *)
Lemma incr_spec a : limbs_ok a -> length (incr a) = length a /\ limbs_ok (incr a) /\
  val (incr a) = (val a + 1) mod 2 ^ (32 * Z.of_nat (length a)).
Proof.
  induction a as [|x a IH]; intros H; [split_and!; [done|constructor|reflexivity]|].
  pose proof (val_range _ H) as Hr.
  apply limbs_ok_cons in H as [Hx Ha]. destruct (IH Ha) as (Hl & Hok & Hv).
  cbn [incr]. destruct (u32 (x + 1) =? 0) eqn:E; zbool.
  - assert (x = 2 ^ 32 - 1) as -> by (unfold u32, uwrap in E; zdm; lia). rewrite E.
    cbn [length val]. rewrite Hl, Hv. split_and!; [done|apply limbs_ok_cons; split; [lia|done]|].
    rewrite pow_limbs. replace (2 ^ 32 - 1 + 2 ^ 32 * val a + 1) with (0 + 2 ^ 32 * (val a + 1)) by lia.
    rewrite mod_limb; [done|apply pow_limbs_pos|lia].
  - assert (u32 (x + 1) = x + 1) as ->
      by (destruct (Z.eq_dec x (2 ^ 32 - 1)) as [->|]; [done|apply u32_small; lia]).
    assert (x + 1 < 2 ^ 32) by (unfold u32, uwrap in E; zdm; lia).
    split_and!; [done|apply limbs_ok_cons; split; [lia|done]|].
    cbn [val length] in *. rewrite pow_limbs in *. rewrite Z.mod_small; [lia|].
    pose proof (val_range a Ha). nia.
Qed.

Lemma decr_spec a : limbs_ok a -> length (decr a) = length a /\ limbs_ok (decr a) /\
  val (decr a) = (val a - 1) mod 2 ^ (32 * Z.of_nat (length a)).
Proof.
  induction a as [|x a IH]; intros H; [split_and!; [done|constructor|reflexivity]|].
  apply limbs_ok_cons in H as [Hx Ha]. destruct (IH Ha) as (Hl & Hok & Hv).
  cbn [decr]. destruct (u32 (x - 1) =? UINT32_MAX) eqn:E; zbool.
  - assert (x = 0) as -> by (unfold u32, uwrap, UINT32_MAX in E; zdm; lia). rewrite E.
    cbn [length val]. rewrite Hl, Hv. unfold UINT32_MAX.
    split_and!; [done|apply limbs_ok_cons; split; [lia|done]|].
    rewrite pow_limbs. replace (0 + 2 ^ 32 * val a - 1) with (2 ^ 32 - 1 + 2 ^ 32 * (val a - 1)) by lia.
    rewrite mod_limb; [done|apply pow_limbs_pos|lia].
  - assert (x <> 0) by (intros ->; apply E; reflexivity).
    rewrite u32_small in * by lia.
    split_and!; [done|apply limbs_ok_cons; split; [lia|done]|].
    cbn [val length]. rewrite pow_limbs. pose proof (val_range a Ha). rewrite Z.mod_small; nia.
Qed.

(** [operator~] and unary minus *)
Lemma bnot_spec a : limbs_ok a -> length (bnot a) = length a /\ limbs_ok (bnot a) /\
  val (bnot a) = 2 ^ (32 * Z.of_nat (length a)) - 1 - val a.
Proof.
  induction a as [|x a IH]; intros H; [split_and!; [done|constructor|reflexivity]|].
  apply limbs_ok_cons in H as [Hx Ha]. destruct (IH Ha) as (Hl & Hok & Hv).
  assert (Hn : u32 (Z.lnot x) = 2 ^ 32 - 1 - x).
  { unfold u32, uwrap.
    replace (Z.lnot x) with (2 ^ 32 - 1 - x + (-1) * 2 ^ 32) by (pose proof (Z.add_lnot_diag x); lia).
    rewrite Z.mod_add, Z.mod_small by lia. done. }
  cbn [bnot map length val]. fold (bnot a). rewrite Hl, Hv, Hn, pow_limbs.
  split_and!; [done|apply limbs_ok_cons; split; [lia|done]|lia].
Qed.

Lemma neg_spec a : wf a -> wf (neg a) /\ val (neg a) = (- val a) mod 2 ^ 256.
Proof.
  intros [Hla Ha]. destruct (bnot_spec a Ha) as (Hl & Hok & Hv).
  destruct (incr_spec (bnot a) Hok) as (Hl' & Hok' & Hv'). unfold neg.
  rewrite Hl, Hla in Hl'. split; [by split|]. rewrite Hv', Hv, Hl, Hla.
  change (2 ^ (32 * Z.of_nat WIDTH)) with (2 ^ 256).
  replace (2 ^ 256 - 1 - val a + 1) with (- val a + 1 * 2 ^ 256) by lia.
  by rewrite Z.mod_add by lia.
Qed.

Lemma sub_spec a b : wf a -> wf b -> wf (sub a b) /\ val (sub a b) = (val a - val b) mod 2 ^ 256.
Proof.
  intros Ha Hb. destruct (neg_spec b Hb) as [Hn Hv].
  destruct (add_spec a (neg b) Ha Hn) as [Hs Hsv]. split; [done|].
  unfold sub. rewrite Hsv, Hv, Zplus_mod_idemp_r. f_equal; lia.
Qed.

(** Assignment from [uint64_t] *)
Lemma of_u64_spec b : 0 <= b < 2 ^ 64 -> wf (of_u64 b) /\ val (of_u64 b) = b.
Proof.
  intros Hb. unfold of_u64. rewrite high_limb.
  assert (0 <= b / 2 ^ 32 < 2 ^ 32) by (zdm; lia).
  pose proof (u32_range b). rewrite (u32_small (b / _)) by done. split.
  - split; [done|]. repeat (apply limbs_ok_cons; split; [lia|]). constructor.
  - cbn [repeat WIDTH Nat.sub val]. unfold u32, uwrap. zdm; lia.
Qed.

(** [operator*=(uint32_t)] *)
Lemma mul32_loop_spec b32 p : forall carry, limbs_ok p -> 0 <= b32 < 2 ^ 32 -> 0 <= carry < 2 ^ 32 ->
  length (mul32_loop carry b32 p) = length p /\ limbs_ok (mul32_loop carry b32 p) /\
  val (mul32_loop carry b32 p) = (carry + b32 * val p) mod 2 ^ (32 * Z.of_nat (length p)).
Proof.
  induction p as [|x p IH]; intros carry Hp Hb Hc.
  - split_and!; [done|constructor|]. cbn [val length mul32_loop]. by rewrite Z.mod_1_r.
  - apply limbs_ok_cons in Hp as [Hx Hp].
    cbn [mul32_loop length val]. assert (0 <= b32 * x <= (2 ^ 32 - 1) * (2 ^ 32 - 1)) by nia.
    rewrite (u64_small (b32 * x)), u64_small, low_limb, high_limb by lia.
    destruct (IH ((carry + b32 * x) / 2 ^ 32)) as (Hl & Hok & Hv); [done..|zdm; lia|].
    split_and!.
    + by rewrite Hl.
    + apply limbs_ok_cons; split; [apply Z.mod_pos_bound; lia|done].
    + rewrite pow_limbs, Hv.
      replace (carry + b32 * (x + 2 ^ 32 * val p))
        with ((carry + b32 * x) mod 2 ^ 32 + 2 ^ 32 * ((carry + b32 * x) / 2 ^ 32 + b32 * val p))
        by (zdm; lia).
      rewrite mod_limb; [done|apply pow_limbs_pos|apply Z.mod_pos_bound; lia].
Qed.

Lemma mul32_spec a b32 : wf a -> 0 <= b32 < 2 ^ 32 ->
  wf (mul32 a b32) /\ val (mul32 a b32) = (val a * b32) mod 2 ^ 256.
Proof.
  intros [Hla Ha] Hb. destruct (mul32_loop_spec b32 a 0) as (Hl & Hok & Hv); [done..|lia|].
  rewrite Hla in Hl, Hv. split; [by split|]. unfold mul32. rewrite Hv. f_equal; lia.
Qed.

(** [operator*=]: one row adds [a.pn[j] * b] to the suffix. *)
Lemma mul_row_spec aj p : forall b carry, (length p <= length b)%nat -> limbs_ok p -> limbs_ok b ->
  0 <= aj < 2 ^ 32 -> 0 <= carry < 2 ^ 32 ->
  length (mul_row carry aj p b) = length p /\ limbs_ok (mul_row carry aj p b) /\
  val (mul_row carry aj p b) = (carry + val p + aj * val b) mod 2 ^ (32 * Z.of_nat (length p)).
Proof.
  induction p as [|x p IH]; intros [|y b] carry Hlen Hp Hb Haj Hc; try (simpl in Hlen; lia).
  1, 2: split_and!; [done|constructor|]; cbn [val length mul_row]; by rewrite Z.mod_1_r.
  apply limbs_ok_cons in Hp as [Hx Hp]. apply limbs_ok_cons in Hb as [Hy Hb]. simpl in Hlen.
  cbn [mul_row length val]. assert (0 <= aj * y <= (2 ^ 32 - 1) * (2 ^ 32 - 1)) by nia.
  rewrite (u64_small (aj * y)), u64_small, low_limb, high_limb by lia.
  destruct (IH b ((carry + x + aj * y) / 2 ^ 32)) as (Hl & Hok & Hv); [lia|done..|zdm; lia|].
  split_and!.
  - by rewrite Hl.
  - apply limbs_ok_cons; split; [apply Z.mod_pos_bound; lia|done].
  - rewrite pow_limbs, Hv.
    replace (carry + (x + 2 ^ 32 * val p) + aj * (y + 2 ^ 32 * val b))
      with ((carry + x + aj * y) mod 2 ^ 32 + 2 ^ 32 * ((carry + x + aj * y) / 2 ^ 32 + val p + aj * val b))
      by (zdm; lia).
    rewrite mod_limb; [done|apply pow_limbs_pos|apply Z.mod_pos_bound; lia].
Qed.

Lemma val_firstn_skipn (a : list Z) j : (j <= length a)%nat ->
  val a = val (firstn j a) + 2 ^ (32 * Z.of_nat j) * val (skipn j a).
Proof.
  intros Hj. rewrite <- (firstn_skipn j a) at 1. rewrite val_app, firstn_length_le by done. done.
Qed.

Lemma limbs_ok_firstn j a : limbs_ok a -> limbs_ok (firstn j a).
Proof. intros H; apply Forall_take; done. Qed.
Lemma limbs_ok_skipn j a : limbs_ok a -> limbs_ok (skipn j a).
Proof. intros H; apply Forall_drop; done. Qed.
Lemma limbs_ok_pn a i : limbs_ok a -> 0 <= pn a i < 2 ^ 32.
Proof.
  intros H. unfold pn. destruct (decide (i < length a)%nat).
  - apply (proj1 (List.Forall_forall _ _) H). by apply nth_In.
  - rewrite nth_overflow by lia. lia.
Qed.

Lemma val_firstn_S a j : (j < length a)%nat ->
  val (firstn (S j) a) = val (firstn j a) + 2 ^ (32 * Z.of_nat j) * pn a j.
Proof.
  intros Hj. rewrite (take_S_r _ _ (pn a j)).
  - rewrite val_app, firstn_length_le by lia. cbn [val]. lia.
  - unfold pn. rewrite nth_lookup. by destruct (lookup_lt_is_Some_2 a j Hj) as [? ->].
Qed.

Lemma mul_step_spec a b p j : wf a -> wf b -> wf p -> (j < WIDTH)%nat ->
  wf (mul_step a b p j) /\
  val (mul_step a b p j) = (val p + 2 ^ (32 * Z.of_nat j) * pn a j * val b) mod 2 ^ 256.
Proof.
  intros [Hla Ha] [Hlb Hb] [Hlp Hp] Hj. unfold mul_step.
  destruct (mul_row_spec (pn a j) (skipn j p) b 0) as (Hl & Hok & Hv);
    [rewrite length_skipn; lia|by apply limbs_ok_skipn|done|by apply limbs_ok_pn|lia|].
  rewrite length_skipn, Hlp in Hl, Hv. split.
  - split; [rewrite length_app, firstn_length_le by lia; lia|].
    apply limbs_ok_app; split; [by apply limbs_ok_firstn|done].
  - rewrite val_app, firstn_length_le by lia. rewrite Hv.
    rewrite (val_firstn_skipn p j) by lia.
    set (M := 2 ^ (32 * Z.of_nat j)). set (N := 2 ^ (32 * Z.of_nat (WIDTH - j))).
    assert (HMN : 2 ^ 256 = M * N).
    { unfold M, N. rewrite <- Z.pow_add_r by lia. f_equal. unfold WIDTH in *; lia. }
    assert (0 < M) by apply pow_limbs_pos. assert (0 < N) by apply pow_limbs_pos.
    pose proof (val_range (firstn j p) (limbs_ok_firstn _ _ Hp)) as Hr.
    rewrite firstn_length_le in Hr by lia. fold M in Hr.
    rewrite HMN. set (t := 0 + val (skipn j p) + pn a j * val b).
    replace (val (firstn j p) + M * val (skipn j p) + M * pn a j * val b)
      with (val (firstn j p) + M * t) by (unfold t; ring).
    rewrite Z.rem_mul_r by lia.
    rewrite (Z.mul_comm M t), Z.mod_add, (Z.mod_small (val (firstn j p))) by lia.
    rewrite Z.div_add, Z.div_small by lia. f_equal.
Qed.

Lemma mul_loop_spec a b n : wf a -> wf b -> (n <= WIDTH)%nat ->
  let p := fold_left (mul_step a b) (seq 0 n) (of_u64 0) in
  wf p /\ val p = (val (firstn n a) * val b) mod 2 ^ 256.
Proof.
  intros Ha Hb. induction n as [|n IH]; intros Hn.
  - cbn [seq fold_left firstn val]. destruct (of_u64_spec 0) as [Hw Hv]; [lia|]. split; [done|].
    by rewrite Hv.
  - rewrite seq_S, fold_left_app. cbn [fold_left Nat.add]. destruct IH as [Hw Hv]; [lia|].
    destruct (mul_step_spec a b (fold_left (mul_step a b) (seq 0 n) (of_u64 0)) n) as [Hw' Hv']; [done..|lia|].
    split; [done|]. rewrite Hv', Hv, Zplus_mod_idemp_l. rewrite val_firstn_S by (destruct Ha; lia).
    f_equal. ring.
Qed.

Lemma mul_spec a b : wf a -> wf b -> wf (mul a b) /\ val (mul a b) = (val a * val b) mod 2 ^ 256.
Proof.
  intros Ha Hb. destruct (mul_loop_spec a b WIDTH) as [Hw Hv]; [done..|].
  rewrite firstn_all2 in Hv by (destruct Ha; lia). by split.
Qed.

(** [operator<<=]: the array loop is the limb-by-limb shift with carry. *)
Fixpoint shl_small (s c : Z) (l : list Z) : list Z :=
  match l with
  | [] => []
  | x :: l' => Z.lor c (u32 (Z.shiftl x s)) :: shl_small s (Z.shiftr x (32 - s)) l'
  end.

Lemma pow2_split s : 0 <= s <= 32 -> 2 ^ 32 = 2 ^ (32 - s) * 2 ^ s.
Proof. intros; rewrite <- Z.pow_add_r by lia. f_equal; lia. Qed.

Lemma shl_small_spec s l : forall c, 0 <= s < 32 -> limbs_ok l -> 0 <= c < 2 ^ s ->
  length (shl_small s c l) = length l /\ limbs_ok (shl_small s c l) /\
  val (shl_small s c l) = (c + val l * 2 ^ s) mod 2 ^ (32 * Z.of_nat (length l)).
Proof.
  induction l as [|x l IH]; intros c Hs Hl Hc.
  - split_and!; [done|constructor|]. cbn [val length shl_small]. by rewrite Z.mod_1_r.
  - apply limbs_ok_cons in Hl as [Hx Hl]. pose proof (pow2_split s ltac:(lia)) as Hp.
    assert (0 < 2 ^ s) by (apply Z.pow_pos_nonneg; lia).
    assert (0 < 2 ^ (32 - s)) by (apply Z.pow_pos_nonneg; lia).
    assert (Hq : 0 <= Z.shiftr x (32 - s) < 2 ^ s) by (rewrite shiftr_div by lia; zdm; nia).
    destruct (IH (Z.shiftr x (32 - s)) Hs Hl Hq) as (Hlen & Hok & Hv).
    assert (Hlow : u32 (Z.shiftl x s) = (x mod 2 ^ (32 - s)) * 2 ^ s).
    { unfold u32, uwrap. rewrite shiftl_mul, Hp by lia. rewrite Zmult_mod_distr_r. done. }
    cbn [shl_small length val]. rewrite Hlow, lor_disjoint, Hlen by lia.
    pose proof (Z.mod_pos_bound x (2 ^ (32 - s)) ltac:(lia)).
    assert (Hb : 0 <= c + x mod 2 ^ (32 - s) * 2 ^ s < 2 ^ 32) by nia.
    split_and!; [done|apply limbs_ok_cons; split; [lia|done]|].
    rewrite pow_limbs, Hv.
    replace (c + (x + 2 ^ 32 * val l) * 2 ^ s)
      with (c + x mod 2 ^ (32 - s) * 2 ^ s + 2 ^ 32 * (Z.shiftr x (32 - s) + val l * 2 ^ s)).
    + rewrite mod_limb; [done|apply pow_limbs_pos|done].
    + rewrite shiftr_div by lia. rewrite (Z.div_mod x (2 ^ (32 - s))) at 3 by lia. rewrite Hp. ring.
Qed.

Ltac limbs8 a H :=
  destruct a as [|x0 [|x1 [|x2 [|x3 [|x4 [|x5 [|x6 [|x7 [|x8 a]]]]]]]]]; try discriminate H; clear H;
  repeat match goal with Hl : limbs_ok (_ :: _) |- _ => apply limbs_ok_cons in Hl as [? Hl] end.

Lemma shl_loop_eq k s a : length a = WIDTH -> limbs_ok a -> 0 <= s < 32 -> (k < WIDTH)%nat ->
  fold_left (shl_step k s a) (seq 0 WIDTH) bu_zero = repeat 0 k ++ firstn (WIDTH - k) (shl_small s 0 a).
Proof.
  intros Hl Ha Hs Hk. limbs8 a Hl.
  assert (forall x, 0 <= x < 2 ^ 32 -> Z.shiftr x 32 = 0) as Hz
    by (intros; rewrite high_limb; apply Z.div_small; lia).
  unfold shl_step, bu_zero, WIDTH in *. destruct (s =? 0) eqn:E; zbool.
  - subst s. change (32 - 0) with 32.
    do 8 (destruct k as [|k]; [cbn -[Z.lor u32 Z.shiftl Z.shiftr];
      rewrite ?Hz by done; rewrite ?Z.lor_0_l; done|]). lia.
  - do 8 (destruct k as [|k]; [cbn -[Z.lor u32 Z.shiftl Z.shiftr Z.sub]; rewrite ?Z.lor_0_l; done|]). lia.
Qed.

Lemma shl_loop_out k s a : (WIDTH <= k)%nat -> fold_left (shl_step k s a) (seq 0 WIDTH) bu_zero = bu_zero.
Proof.
  intros Hk. assert (forall l p, fold_left (shl_step k s a) l p = p) as ->; [|done].
  induction l as [|i l IH]; intros p; [done|]. cbn [fold_left].
  assert (shl_step k s a p i = p) as ->; [|apply IH].
  unfold shl_step. rewrite (proj2 (Nat.ltb_ge _ _)), (proj2 (Nat.ltb_ge _ _)); [done|lia|lia].
Qed.

Lemma wf_zero : wf bu_zero.
Proof. split; [done|apply limbs_ok_repeat0]. Qed.

Lemma shl_spec a shift : wf a -> 0 <= shift ->
  wf (shl a shift) /\ val (shl a shift) = (val a * 2 ^ shift) mod 2 ^ 256.
Proof.
  intros Hw Hs. pose proof Hw as [Hl Ha]. unfold shl.
  pose proof (Z.div_mod shift 32 ltac:(lia)) as Hdm. pose proof (Z.mod_pos_bound shift 32 ltac:(lia)).
  set (k := Z.to_nat (shift / 32)). set (s := shift mod 32) in *.
  assert (Hk : shift = 32 * Z.of_nat k + s) by (unfold k; rewrite Z2Nat.id; [lia|apply Z.div_pos; lia]).
  assert (Hpow : 2 ^ shift = 2 ^ (32 * Z.of_nat k) * 2 ^ s) by (rewrite <- Z.pow_add_r by lia; f_equal; lia).
  destruct (decide (k < WIDTH)%nat) as [Hlt|Hge].
  - rewrite shl_loop_eq by done.
    destruct (shl_small_spec s a 0) as (Hlen & Hok & Hv); [lia|done|split; [lia|apply Z.pow_pos_nonneg; lia]|].
    split.
    + split; [rewrite length_app, repeat_length, firstn_length_le; [lia|rewrite Hlen, Hl; lia]|].
      apply limbs_ok_app; split; [apply limbs_ok_repeat0|by apply limbs_ok_firstn].
    + rewrite val_app, val_repeat0, repeat_length, Hpow, Z.add_0_l.
      pose proof (val_firstn_skipn (shl_small s 0 a) (WIDTH - k) ltac:(lia)) as Hf.
      rewrite Hv, Hl in Hf.
      set (M := 2 ^ (32 * Z.of_nat k)) in *. set (N := 2 ^ (32 * Z.of_nat (WIDTH - k))) in *.
      assert (HMN : 2 ^ 256 = N * M).
      { unfold M, N. rewrite <- Z.pow_add_r by lia. f_equal. unfold WIDTH in *; lia. }
      change (2 ^ (32 * Z.of_nat WIDTH)) with (2 ^ 256) in Hf.
      assert (0 < M) by apply pow_limbs_pos. assert (0 < N) by apply pow_limbs_pos.
      pose proof (val_range _ (limbs_ok_firstn (WIDTH - k) _ Hok)) as Hr.
      rewrite firstn_length_le in Hr by lia. fold N in Hr.
      replace (val a * (M * 2 ^ s)) with (M * (val a * 2 ^ s)) by ring.
      rewrite HMN, (Z.mul_comm N M), Zmult_mod_distr_l. f_equal.
      rewrite HMN, Z.add_0_l in Hf.
      assert (val a * 2 ^ s mod N = (val a * 2 ^ s mod (N * M)) mod N) as ->.
      { rewrite Z.rem_mul_r by lia. rewrite (Z.mul_comm N), Z.mod_add, Z.mod_mod by lia. done. }
      rewrite Hf, (Z.mul_comm N), Z.mod_add, Z.mod_small by lia. done.
  - rewrite shl_loop_out by lia. split; [apply wf_zero|].
    unfold bu_zero. rewrite val_repeat0, Hpow.
    replace (32 * Z.of_nat k) with (256 + (32 * Z.of_nat k - 256)) by lia.
    rewrite Z.pow_add_r by (unfold WIDTH in *; lia).
    symmetry. apply Z.mod_divide; [lia|].
    exists (val a * (2 ^ (32 * Z.of_nat k - 256) * 2 ^ s)); ring.
Qed.

(** [operator>>=] *)
Fixpoint shr_small (s : Z) (l : list Z) : list Z :=
  match l with
  | [] => []
  | x :: l' => Z.lor (Z.shiftr x s) (u32 (Z.shiftl (hd 0 l') (32 - s))) :: shr_small s l'
  end.

Lemma shr_small_spec s l : 0 <= s < 32 -> limbs_ok l ->
  length (shr_small s l) = length l /\ limbs_ok (shr_small s l) /\
  val (shr_small s l) = val l / 2 ^ s.
Proof.
  intros Hs. pose proof (pow2_split s ltac:(lia)) as Hp.
  assert (0 < 2 ^ s) by (apply Z.pow_pos_nonneg; lia).
  assert (0 < 2 ^ (32 - s)) by (apply Z.pow_pos_nonneg; lia).
  induction l as [|x l IH]; intros Hl.
  { split_and!; [done|constructor|]. cbn [val shr_small]. by rewrite Z.div_0_l by lia. }
  apply limbs_ok_cons in Hl as [Hx Hl]. destruct (IH Hl) as (Hlen & Hok & Hv).
  assert (Hh : 0 <= hd 0 l < 2 ^ 32).
  { destruct l; [simpl; lia|]. by apply limbs_ok_cons in Hl as [? ?]. }
  assert (Hhv : hd 0 l mod 2 ^ s = val l mod 2 ^ s).
  { destruct l as [|y l]; [done|]. cbn [hd val].
    rewrite Hp, (Z.mul_comm (2 ^ (32 - s))), <- Z.mul_assoc, (Z.mul_comm (2 ^ s)), Z.mod_add by lia. done. }
  assert (Hq : 0 <= Z.shiftr x s < 2 ^ (32 - s)) by (rewrite shiftr_div by lia; zdm; nia).
  assert (Hhigh : u32 (Z.shiftl (hd 0 l) (32 - s)) = (hd 0 l mod 2 ^ s) * 2 ^ (32 - s)).
  { unfold u32, uwrap. rewrite shiftl_mul, Hp by lia.
    rewrite (Z.mul_comm (2 ^ (32 - s))), Zmult_mod_distr_r. done. }
  cbn [shr_small length val]. rewrite Hhigh, lor_disjoint, Hlen, Hhv by lia.
  pose proof (Z.mod_pos_bound (val l) (2 ^ s) ltac:(lia)).
  split_and!; [done|apply limbs_ok_cons; split; [nia|done]|].
  rewrite Hv, shiftr_div, Hp by lia.
  transitivity ((x + (2 ^ (32 - s) * val l) * 2 ^ s) / 2 ^ s); [|f_equal; ring].
  rewrite Z.div_add by lia. rewrite (Z.div_mod (val l) (2 ^ s)) at 3 by lia. ring.
Qed.

Lemma shr_loop_eq k s a : length a = WIDTH -> limbs_ok a -> 0 <= s < 32 -> (k < WIDTH)%nat ->
  fold_left (shr_step k s a) (seq 0 WIDTH) bu_zero = shr_small s (skipn k a) ++ repeat 0 k.
Proof.
  intros Hl Ha Hs Hk. limbs8 a Hl.
  assert (forall x, u32 (Z.shiftl x 32) = 0) as Hz
    by (intros; unfold u32, uwrap; rewrite shiftl_mul by lia; apply Z.mod_mul; lia).
  assert (forall n, u32 (Z.shiftl 0 n) = 0) as Hz' by (intros; rewrite Z.shiftl_0_l; done).
  unfold shr_step, bu_zero, WIDTH in *. destruct (s =? 0) eqn:E; zbool.
  - subst s. change (32 - 0) with 32.
    do 8 (destruct k as [|k]; [cbn -[Z.lor u32 Z.shiftl Z.shiftr];
      rewrite ?Hz; rewrite ?Z.lor_0_l, ?Z.lor_0_r; done|]). lia.
  - do 8 (destruct k as [|k]; [cbn -[Z.lor u32 Z.shiftl Z.shiftr Z.sub];
      rewrite ?Hz', ?Z.lor_0_l, ?Z.lor_0_r; done|]). lia.
Qed.

Lemma shr_loop_out k s a : (WIDTH <= k)%nat -> fold_left (shr_step k s a) (seq 0 WIDTH) bu_zero = bu_zero.
Proof.
  intros Hk. unfold WIDTH in *.
  assert (forall p i, (i < 8)%nat -> shr_step k s a p i = p) as E.
  { intros p i Hi. unfold shr_step. by rewrite !(proj2 (Nat.leb_gt _ _)) by lia. }
  cbn [seq fold_left]. rewrite !E by lia. done.
Qed.

Lemma shr_spec a shift : wf a -> 0 <= shift -> wf (shr a shift) /\ val (shr a shift) = val a / 2 ^ shift.
Proof.
  intros Hw Hs. pose proof Hw as [Hl Ha]. unfold shr.
  pose proof (Z.div_mod shift 32 ltac:(lia)) as Hdm. pose proof (Z.mod_pos_bound shift 32 ltac:(lia)).
  set (k := Z.to_nat (shift / 32)). set (s := shift mod 32) in *.
  assert (Hk : shift = 32 * Z.of_nat k + s) by (unfold k; rewrite Z2Nat.id; [lia|apply Z.div_pos; lia]).
  assert (Hpow : 2 ^ shift = 2 ^ (32 * Z.of_nat k) * 2 ^ s) by (rewrite <- Z.pow_add_r by lia; f_equal; lia).
  assert (0 < 2 ^ s) by (apply Z.pow_pos_nonneg; lia). pose proof (pow_limbs_pos k).
  destruct (decide (k < WIDTH)%nat) as [Hlt|Hge].
  - rewrite shr_loop_eq by done.
    destruct (shr_small_spec s (skipn k a)) as (Hlen & Hok & Hv); [lia|by apply limbs_ok_skipn|].
    rewrite length_skipn in Hlen. split.
    + split; [rewrite length_app, repeat_length; lia|].
      apply limbs_ok_app; split; [done|apply limbs_ok_repeat0].
    + rewrite val_app, val_repeat0, Hv, Hpow, Z.mul_0_r, Z.add_0_r, <- Z.div_div by lia.
      rewrite (val_firstn_skipn a k) by lia.
      pose proof (val_range _ (limbs_ok_firstn k _ Ha)) as Hr. rewrite firstn_length_le in Hr by lia.
      rewrite (Z.mul_comm (2 ^ _) (val (skipn _ _))), Z.div_add, (Z.div_small (val (firstn k a))) by lia.
      done.
  - rewrite shr_loop_out by lia. split; [apply wf_zero|]. unfold bu_zero. rewrite val_repeat0.
    symmetry. apply Z.div_small. pose proof (wf_range a Hw). split; [lia|].
    apply Z.lt_le_trans with (2 ^ 256); [lia|]. apply Z.pow_le_mono_r; unfold WIDTH in *; lia.
Qed.

(** [CompareTo] *)
Lemma val_firstn_range j a : limbs_ok a -> (j <= length a)%nat ->
  0 <= val (firstn j a) < 2 ^ (32 * Z.of_nat j).
Proof.
  intros Ha Hj. pose proof (val_range _ (limbs_ok_firstn j _ Ha)) as Hr.
  by rewrite firstn_length_le in Hr by lia.
Qed.

Lemma compare_from_spec i a b : wf a -> wf b -> (i <= WIDTH)%nat ->
  compare_from i a b = match Z.compare (val (firstn i a)) (val (firstn i b)) with
                       | Lt => -1 | Gt => 1 | Eq => 0 end.
Proof.
  intros [Hla Ha] [Hlb Hb]. induction i as [|i IH]; intros Hi; [done|].
  cbn [compare_from]. rewrite !val_firstn_S by lia. rewrite IH by lia.
  pose proof (val_firstn_range i a Ha ltac:(lia)). pose proof (val_firstn_range i b Hb ltac:(lia)).
  pose proof (limbs_ok_pn a i Ha). pose proof (limbs_ok_pn b i Hb).
  set (M := 2 ^ (32 * Z.of_nat i)) in *. repeat zcase.
  - rewrite (proj2 (Z.compare_lt_iff _ _)); [done|nia].
  - rewrite (proj2 (Z.compare_gt_iff _ _)); [done|nia].
  - replace (pn b i) with (pn a i) by lia.
    destruct (Z.compare_spec (val (firstn i a)) (val (firstn i b)));
      destruct (Z.compare_spec (val (firstn i a) + M * pn a i) (val (firstn i b) + M * pn a i)); lia.
Qed.

Lemma CompareTo_spec a b : wf a -> wf b ->
  CompareTo a b = match Z.compare (val a) (val b) with Lt => -1 | Gt => 1 | Eq => 0 end.
Proof.
  intros Ha Hb. unfold CompareTo. rewrite compare_from_spec by done.
  by rewrite !firstn_all2 by (destruct Ha, Hb; lia).
Qed.

Lemma bu_gt_spec a b : wf a -> wf b -> bu_gt a b = (val a >? val b).
Proof.
  intros. unfold bu_gt, Z.gtb at 2. rewrite CompareTo_spec by done. by destruct (val a ?= val b).
Qed.
Lemma bu_lt_spec a b : wf a -> wf b -> bu_lt a b = (val a <? val b).
Proof.
  intros. unfold bu_lt, Z.ltb at 2. rewrite CompareTo_spec by done. by destruct (val a ?= val b).
Qed.
Lemma bu_ge_spec a b : wf a -> wf b -> bu_ge a b = (val a >=? val b).
Proof.
  intros. unfold bu_ge, Z.geb at 2. rewrite CompareTo_spec by done. by destruct (val a ?= val b).
Qed.

(** Bit [i] of the value is bit [i % 32] of limb [i / 32]. *)
Lemma testbit_val a : forall i, limbs_ok a -> 0 <= i ->
  Z.testbit (val a) i = Z.testbit (pn a (Z.to_nat (i / 32))) (i mod 32).
Proof.
  induction a as [|x a IH]; intros i Ha Hi.
  { unfold pn. cbn [val]. by rewrite nth_overflow, !Z.bits_0 by (simpl; lia). }
  apply limbs_ok_cons in Ha as [Hx Ha]. cbn [val].
  rewrite (Z.mul_comm (2 ^ 32)), <- (lor_disjoint 32), Z.lor_spec by lia.
  destruct (Z.lt_ge_cases i 32).
  - rewrite Z.mul_pow2_bits_low, orb_false_r by lia.
    rewrite (Z.div_small i), (Z.mod_small i) by lia. done.
  - rewrite (testbit_above 32 x) by lia. rewrite Z.mul_pow2_bits by lia. cbn [orb].
    rewrite IH by (done || lia).
    replace (i - 32) with (i + (-1) * 32) by lia. rewrite Z.mod_add, Z.div_add by lia.
    assert (1 <= i / 32) by (apply Z.div_le_lower_bound; lia).
    replace (Z.to_nat (i / 32)) with (S (Z.to_nat (i / 32 + -1))) by lia. done.
Qed.

Lemma lor_pow2 x r : 0 <= r -> Z.testbit x r = false -> Z.lor x (2 ^ r) = x + 2 ^ r.
Proof.
  intros Hr Hb. assert (Z.land x (2 ^ r) = 0).
  { apply Z.bits_inj'; intros i Hi. rewrite Z.land_spec, Z.bits_0.
    destruct (Z.eq_dec i r) as [->|]; [by rewrite Hb|].
    rewrite Z.pow2_bits_false by lia. apply andb_false_r. }
  rewrite <- Z.lxor_lor by done. symmetry; by apply Z.add_nocarry_lxor.
Qed.

Lemma u32_pow2 r : 0 <= r < 32 -> u32 (Z.shiftl 1 r) = 2 ^ r.
Proof.
  intros Hr. rewrite shiftl_mul by lia. rewrite Z.mul_1_l. apply u32_small.
  split; [apply Z.pow_nonneg; lia|]. apply Z.pow_lt_mono_r; lia.
Qed.

(** [bits()] is [log2 + 1]. *)
Lemma bits_limb_spec n x : (n <= 31)%nat -> 0 < x < 2 ^ (Z.of_nat n + 1) -> bits_limb n x = Z.log2 x.
Proof.
  induction n as [|n IH]; intros Hn Hx.
  { assert (x = 1) as -> by (change (2 ^ (Z.of_nat 0 + 1)) with 2 in Hx; lia). done. }
  cbn [bits_limb]. rewrite u32_pow2, land_pow2, negb_involutive by lia.
  assert (E : Z.testbit x (Z.of_nat (S n)) = negb (x <? 2 ^ Z.of_nat (S n))).
  { destruct (x <? 2 ^ Z.of_nat (S n)) eqn:E; zbool; cbn [negb].
    - apply (testbit_above (Z.of_nat (S n))); lia.
    - rewrite Z.pow_add_r in Hx by lia. apply Z.testbit_true; [lia|].
      assert (x / 2 ^ Z.of_nat (S n) = 1) as ->; [|done].
      symmetry. apply Z.div_unique with (x - 2 ^ Z.of_nat (S n)); [|lia].
      left. change (2 ^ 1) with 2 in Hx. lia. }
  rewrite E. destruct (x <? 2 ^ Z.of_nat (S n)) eqn:E'; zbool; cbn [negb].
  - apply IH; [lia|]. replace (Z.of_nat n + 1) with (Z.of_nat (S n)) by lia. lia.
  - symmetry. apply Z.log2_unique; [lia|]. rewrite Z.add_1_r in Hx. lia.
Qed.

Definition bitlen (x : Z) : Z := if x =? 0 then 0 else Z.log2 x + 1.

Lemma bits_from_spec p a : wf a -> (p <= WIDTH)%nat -> bits_from p a = bitlen (val (firstn p a)).
Proof.
  intros [Hl Ha]. induction p as [|p IH]; intros Hp; [done|].
  cbn [bits_from]. rewrite val_firstn_S by lia.
  pose proof (limbs_ok_pn a p Ha) as Hx. pose proof (val_firstn_range p a Ha ltac:(lia)) as Hlo.
  destruct (pn a p =? 0) eqn:E; zbool; cbn [negb].
  - rewrite E, Z.mul_0_r, Z.add_0_r. apply IH; lia.
  - rewrite bits_limb_spec by (simpl; lia). unfold bitlen.
    pose proof (pow_limbs_pos p) as HM. set (M := 2 ^ (32 * Z.of_nat p)) in *.
    rewrite (proj2 (Z.eqb_neq _ _)) by nia. f_equal. symmetry.
    pose proof (Z.log2_spec (pn a p) ltac:(lia)) as Hlog. pose proof (Z.log2_nonneg (pn a p)).
    apply Z.log2_unique; [lia|].
    rewrite Z.pow_succ_r, Z.pow_add_r by lia. fold M.
    rewrite Z.pow_succ_r in Hlog by lia. nia.
Qed.

Lemma bits_spec a : wf a -> bits a = bitlen (val a).
Proof. intros Ha. unfold bits. rewrite bits_from_spec, firstn_all2 by (done || destruct Ha; lia). done. Qed.

Lemma bitlen_range x : 0 <= x -> 0 <= bitlen x /\ x < 2 ^ bitlen x /\ (0 < x -> 2 ^ (bitlen x - 1) <= x).
Proof.
  intros Hx. unfold bitlen. zcase; [subst; simpl; lia|].
  pose proof (Z.log2_spec x ltac:(lia)). pose proof (Z.log2_nonneg x).
  rewrite Z.add_simpl_r, Z.add_1_r. lia.
Qed.

Lemma bitlen_le x n : 0 <= x < 2 ^ n -> 0 <= n -> bitlen x <= n.
Proof.
  intros Hx Hn. unfold bitlen. zcase; [lia|].
  assert (Z.log2 x < n); [apply Z.log2_lt_pow2; lia|lia].
Qed.

(** Updating one limb. *)
Lemma val_insert a i y : (i < length a)%nat -> val (<[i:=y]> a) = val a + 2 ^ (32 * Z.of_nat i) * (y - pn a i).
Proof.
  revert i; induction a as [|x a IH]; intros i Hi; [simpl in Hi; lia|].
  destruct i as [|i]; cbn [insert list_insert val].
  - unfold pn. cbn [nth]. change (2 ^ (32 * Z.of_nat 0)) with 1. lia.
  - simpl in Hi. change (list_insert i y a) with (<[i:=y]> a).
    rewrite IH by lia. rewrite pow_limbs. unfold pn. cbn [nth]. ring.
Qed.

Lemma limbs_ok_insert a i y : limbs_ok a -> 0 <= y < 2 ^ 32 -> limbs_ok (<[i:=y]> a).
Proof. intros Ha Hy. apply Forall_insert; done. Qed.

Lemma set_bit_spec q shift : wf q -> (shift < 256)%nat -> Z.testbit (val q) (Z.of_nat shift) = false ->
  wf (set_bit q shift) /\ val (set_bit q shift) = val q + 2 ^ Z.of_nat shift.
Proof.
  intros [Hl Hq] Hs Hb. unfold set_bit.
  assert (Hw : (shift / 32 < WIDTH)%nat) by (apply Nat.Div0.div_lt_upper_bound; unfold WIDTH; lia).
  change 31 with (2 ^ 5 - 1). rewrite land_mask by lia. change (2 ^ 5) with 32.
  pose proof (Z.mod_pos_bound (Z.of_nat shift) 32 ltac:(lia)) as Hr.
  rewrite u32_pow2 by lia. rewrite testbit_val in Hb by (done || lia).
  replace (Z.to_nat (Z.of_nat shift / 32)) with (shift / 32)%nat in Hb
    by (change 32 with (Z.of_nat 32); rewrite <- (Nat2Z.inj_div shift 32), Nat2Z.id; done).
  assert (Hp : 2 ^ Z.of_nat shift = 2 ^ (32 * Z.of_nat (shift / 32)) * 2 ^ (Z.of_nat shift mod 32)).
  { rewrite <- Z.pow_add_r by lia. f_equal. rewrite Nat2Z.inj_div. apply Z.div_mod; lia. }
  rewrite lor_pow2 by (done || lia). split.
  - split; [by rewrite length_insert|]. apply limbs_ok_insert; [done|].
    rewrite <- lor_pow2 by (done || lia).
    pose proof (limbs_ok_pn q (shift / 32) Hq). split; [apply Z.lor_nonneg; lia|].
    assert (Z.log2 (Z.lor (pn q (shift / 32)) (2 ^ (Z.of_nat shift mod 32))) < 32).
    { rewrite Z.log2_lor by lia. rewrite Z.log2_pow2 by lia.
      apply Z.max_lub_lt; [|lia]. destruct (Z.eq_dec (pn q (shift / 32)) 0) as [->|]; [simpl; lia|].
      apply Z.log2_lt_pow2; lia. }
    apply Z.log2_lt_cancel. rewrite Z.log2_pow2; lia.
  - rewrite val_insert by lia. rewrite Hp. ring.
Qed.

(** [operator/=]: the shift-subtract loop, by its invariant: before the
    iteration for [shift], [dv = D * 2^shift], [num < D * 2^(shift+1)] and the
    quotient so far is a multiple of [2^(shift+1)]. *)
Lemma div_loop_spec D iters : forall num dv q Q, 0 < D -> wf num -> wf dv -> wf q -> (iters <= 256)%nat ->
  match iters with S s => val dv = D * 2 ^ Z.of_nat s | O => True end ->
  val num < D * 2 ^ Z.of_nat iters -> val q = Q * 2 ^ Z.of_nat iters ->
  let '(q', num') := div_loop iters num dv q in
  wf q' /\ val q' = val q + val num / D /\ wf num' /\ val num' = val num mod D.
Proof.
  induction iters as [|s IH]; intros num dv q Q HD Hnum Hdv Hq Hi Hd Hlt Hm.
  { cbn [div_loop]. rewrite Z.mul_1_r in Hlt. pose proof (wf_range num Hnum).
    rewrite Z.div_small, Z.mod_small by lia. split_and!; [done|lia|done|done]. }
  cbn [div_loop]. rewrite bu_ge_spec by done.
  destruct (shr_spec dv 1 Hdv ltac:(lia)) as [Hw Hv].
  assert (Hnext : match s with S s' => val (shr dv 1) = D * 2 ^ Z.of_nat s' | O => True end).
  { destruct s as [|s']; [done|]. rewrite Hv, Hd, Nat2Z.inj_succ, Z.pow_succ_r by lia.
    change (2 ^ 1) with 2. replace (D * (2 * 2 ^ Z.of_nat s')) with (D * 2 ^ Z.of_nat s' * 2) by ring.
    apply Z.div_mul; lia. }
  rewrite Nat2Z.inj_succ, Z.pow_succ_r in Hlt, Hm by lia.
  pose proof (wf_range num Hnum). assert (0 < 2 ^ Z.of_nat s) by (apply Z.pow_pos_nonneg; lia).
  destruct (val num >=? val dv) eqn:E; zbool.
  - destruct (sub_spec num dv Hnum Hdv) as [Hws Hvs]. pose proof (wf_range dv Hdv).
    rewrite Z.mod_small in Hvs by lia.
    destruct (set_bit_spec q s Hq ltac:(lia)) as [Hwq Hvq].
    { rewrite Hm, Z.mul_assoc, Z.mul_pow2_bits, Z.sub_diag, Z.bit0_odd, Z.odd_mul by lia.
      apply andb_false_r. }
    specialize (IH (sub num dv) (shr dv 1) (set_bit q s) (2 * Q + 1) HD Hws Hw Hwq ltac:(lia) Hnext).
    destruct (div_loop s _ _ _) as [q' num'].
    destruct IH as (? & Hq' & ? & Hn'); [rewrite Hvs, Hd; lia|rewrite Hvq, Hm; ring|].
    split_and!; [done| |done|].
    + rewrite Hq', Hvq, Hvs, Hd.
      replace (val num - D * 2 ^ Z.of_nat s) with (val num + (- 2 ^ Z.of_nat s) * D) by ring.
      rewrite Z.div_add by lia. lia.
    + rewrite Hn', Hvs, Hd.
      replace (val num - D * 2 ^ Z.of_nat s) with (val num + (- 2 ^ Z.of_nat s) * D) by ring.
      by rewrite Z.mod_add by lia.
  - apply (IH num (shr dv 1) q (2 * Q)); [done|done|done|done|lia|done|lia|]. rewrite Hm; ring.
Qed.

Lemma div_spec a b : wf a -> wf b ->
  (val b = 0 -> div a b = None) /\
  (0 < val b -> exists q, div a b = Some q /\ wf q /\ val q = val a / val b).
Proof.
  intros Ha Hb. unfold div. rewrite !bits_spec by done.
  pose proof (wf_range a Ha) as Hra. pose proof (wf_range b Hb) as Hrb. split; intros Hz.
  { rewrite Hz. done. }
  destruct (bitlen_range (val b)) as (Hb0 & Hb1 & Hb2); [lia|].
  destruct (bitlen_range (val a)) as (Ha0 & Ha1 & Ha2); [lia|]. specialize (Hb2 Hz).
  assert (0 < bitlen (val b)) by (unfold bitlen; zcase; [lia|pose proof (Z.log2_nonneg (val b)); lia]).
  rewrite (proj2 (Z.eqb_neq _ 0)) by lia.
  destruct (of_u64_spec 0 ltac:(lia)) as [Hz0 Hz1].
  zcase.
  - eexists; split_and!; [done|done|]. rewrite Hz1. symmetry. apply Z.div_small. split; [lia|].
    apply Z.lt_le_trans with (2 ^ bitlen (val a)); [lia|].
    apply Z.le_trans with (2 ^ (bitlen (val b) - 1)); [apply Z.pow_le_mono_r; lia|lia].
  - set (sh := bitlen (val a) - bitlen (val b)).
    pose proof (bitlen_le (val a) 256 Hra ltac:(lia)).
    destruct (shl_spec b sh Hb ltac:(lia)) as [Hws Hvs].
    assert (Hbig : val b * 2 ^ sh < 2 ^ 256).
    { apply Z.lt_le_trans with (2 ^ bitlen (val b) * 2 ^ sh).
      - apply Z.mul_lt_mono_pos_r; [apply Z.pow_pos_nonneg; lia|lia].
      - rewrite <- Z.pow_add_r by lia. apply Z.pow_le_mono_r; lia. }
    rewrite Z.mod_small in Hvs by (split; [apply Z.mul_nonneg_nonneg; [lia|apply Z.pow_nonneg; lia]|done]).
    replace (Z.to_nat (sh + 1)) with (S (Z.to_nat sh)) by lia.
    pose proof (div_loop_spec (val b) (S (Z.to_nat sh)) a (shl b sh) (of_u64 0) 0 Hz Ha Hws Hz0) as Hd.
    destruct (div_loop _ _ _ _) as [q r]. destruct Hd as (? & Hq & _); [lia| | |by rewrite Hz1|].
    + by rewrite Z2Nat.id by lia.
    + rewrite Nat2Z.inj_succ, Z2Nat.id, Z.pow_succ_r by lia.
      apply Z.lt_le_trans with (2 ^ bitlen (val a)); [lia|].
      replace (bitlen (val a)) with (bitlen (val b) - 1 + (1 + sh)) by lia.
      rewrite !Z.pow_add_r by lia. change (2 ^ 1) with 2.
      apply Z.mul_le_mono_nonneg_r; [|lia]. apply Z.mul_nonneg_nonneg; [lia|apply Z.pow_nonneg; lia].
    + exists q; split_and!; [done|done|]. rewrite Hq, Hz1. lia.
Qed.

(** [GetLow64()] and [EqualTo] *)
Lemma GetLow64_spec a : wf a -> GetLow64 a = val a mod 2 ^ 64.
Proof.
  intros [Hl Ha]. unfold GetLow64.
  pose proof (limbs_ok_pn a 0 Ha) as H0. pose proof (limbs_ok_pn a 1 Ha) as H1.
  rewrite shiftl_mul, u64_small, lor_disjoint by lia.
  rewrite (val_firstn_skipn a 2) by (rewrite Hl; unfold WIDTH; lia).
  rewrite !val_firstn_S by (rewrite Hl; unfold WIDTH; lia). cbn [firstn val].
  change (2 ^ (32 * Z.of_nat 2)) with (2 ^ 64). rewrite (Z.mul_comm (2 ^ 64)), Z.mod_add by lia.
  change (2 ^ (32 * Z.of_nat 0)) with 1. change (2 ^ (32 * Z.of_nat 1)) with (2 ^ 32).
  change (val (firstn 0 a)) with 0. rewrite Z.mod_small; lia.
Qed.

Lemma EqualTo_spec a b : wf a -> is_u64 b -> EqualTo a b = (val a =? b).
Proof.
  intros Hw Hb. pose proof Hw as [Hl Ha]. limbs8 a Hl. unfold EqualTo, pn, WIDTH, is_u64 in *.
  cbn [seq Nat.sub forallb nth]. rewrite low_limb, high_limb, andb_true_r. cbn [val].
  apply eq_true_iff_eq. rewrite !andb_true_iff, !Z.eqb_eq. zdm; lia.
Qed.

(** ** The compact format *)

(** Reference: mantissa and byte exponent of a value. *)
Definition compact_parts (v : Z) : Z * Z :=
  let n := (bitlen v + 7) / 8 in
  let m := if n <=? 3 then v * 2 ^ (8 * (3 - n)) else v / 2 ^ (8 * (n - 3)) in
  if m >=? 2 ^ 23 then (m / 256, n + 1) else (m, n).

(** Reference: the number a compact encoding denotes, before reduction to 256 bits. *)
Definition compact_value (m n : Z) : Z :=
  if n <=? 3 then m / 2 ^ (8 * (3 - n)) else m * 2 ^ (8 * (n - 3)).

Lemma bytelen_range v : 0 < v < 2 ^ 256 -> let n := (bitlen v + 7) / 8 in
  1 <= n <= 32 /\ v < 2 ^ (8 * n) /\ 2 ^ (8 * (n - 1)) <= v.
Proof.
  intros Hv n. destruct (bitlen_range v) as (H0 & H1 & H2); [lia|]. specialize (H2 ltac:(lia)).
  pose proof (bitlen_le v 256 ltac:(lia) ltac:(lia)).
  assert (0 < bitlen v) by (unfold bitlen; zcase; [lia|pose proof (Z.log2_nonneg v); lia]).
  assert (8 * n >= bitlen v /\ 8 * (n - 1) <= bitlen v - 1) as [? ?] by (unfold n; zdm; lia).
  split_and!; [unfold n; zdm; lia|unfold n; zdm; lia| |].
  - apply Z.lt_le_trans with (2 ^ bitlen v); [done|apply Z.pow_le_mono_r; lia].
  - apply Z.le_trans with (2 ^ (bitlen v - 1)); [apply Z.pow_le_mono_r; lia|done].
Qed.

Lemma compact_parts_spec v m n : 0 <= v < 2 ^ 256 -> compact_parts v = (m, n) ->
  0 <= m < 2 ^ 23 /\ 0 <= n <= 33 /\ (0 < v -> 2 ^ 15 <= m) /\
  m = (if n <=? 3 then v * 2 ^ (8 * (3 - n)) else v / 2 ^ (8 * (n - 3))).
Proof.
  intros Hv. destruct (Z.eq_dec v 0) as [->|Hnz].
  { change (compact_parts 0) with (0, 0). intros [= <- <-]. split_and!; try lia; reflexivity. }
  unfold compact_parts. destruct (bytelen_range v ltac:(lia)) as (Hn & Hlt & Hge).
  set (k := (bitlen v + 7) / 8) in *. clearbody k.
  set (m0 := if k <=? 3 then v * 2 ^ (8 * (3 - k)) else v / 2 ^ (8 * (k - 3))).
  assert (Hm0 : 2 ^ 16 <= m0 < 2 ^ 24).
  { unfold m0. zcase.
    - assert (0 < 2 ^ (8 * (3 - k))) by (apply Z.pow_pos_nonneg; lia).
      replace (2 ^ 16) with (2 ^ (8 * (k - 1)) * 2 ^ (8 * (3 - k)))
        by (rewrite <- Z.pow_add_r by lia; f_equal; lia).
      replace (2 ^ 24) with (2 ^ (8 * k) * 2 ^ (8 * (3 - k)))
        by (rewrite <- Z.pow_add_r by lia; f_equal; lia). nia.
    - assert (0 < 2 ^ (8 * (k - 3))) by (apply Z.pow_pos_nonneg; lia). split.
      + apply Z.div_le_lower_bound; [lia|]. rewrite <- Z.pow_add_r by lia.
        replace (8 * (k - 3) + 16) with (8 * (k - 1)) by lia. done.
      + apply Z.div_lt_upper_bound; [lia|]. rewrite <- Z.pow_add_r by lia.
        replace (8 * (k - 3) + 24) with (8 * k) by lia. done. }
  zcase; intros [= <- <-].
  - split_and!; try (zdm; lia). unfold m0 in *.
    destruct (k <=? 3) eqn:Ek; destruct (k + 1 <=? 3) eqn:Ek'; zbool; try lia.
    + replace (8 * (3 - k)) with (8 * (3 - (k + 1)) + 8) by lia. rewrite Z.pow_add_r by lia.
      rewrite Z.mul_assoc. apply Z.div_mul; lia.
    + assert (k = 3) as -> by lia. change (8 * (3 - 3)) with 0. change (8 * (3 + 1 - 3)) with 8.
      rewrite Z.mul_1_r. done.
    + rewrite Z.div_div by (try lia; apply Z.pow_pos_nonneg; lia). f_equal.
      change 256 with (2 ^ 8). rewrite <- Z.pow_add_r by lia. f_equal; lia.
  - split_and!; (lia || done).
Qed.

(** Decoding what was encoded drops the bits below the mantissa. *)
Lemma compact_value_parts v m n : 0 <= v < 2 ^ 256 -> compact_parts v = (m, n) ->
  compact_value m n <= v /\ v - v / 2 ^ 15 <= compact_value m n /\ (n <= 3 -> compact_value m n = v).
Proof.
  intros Hv Hp. destruct (compact_parts_spec v m n Hv Hp) as (Hm & Hn & Hnz & Hmv).
  unfold compact_value. zcase.
  - assert (0 < 2 ^ (8 * (3 - n))) by (apply Z.pow_pos_nonneg; lia).
    rewrite Hmv, Z.div_mul by lia. split_and!; [lia|zdm; lia|done].
  - set (P := 2 ^ (8 * (n - 3))) in *. assert (0 < P) by (apply Z.pow_pos_nonneg; lia).
    pose proof (Z.div_mod v P ltac:(lia)). pose proof (Z.mod_pos_bound v P ltac:(lia)).
    split_and!; [rewrite Hmv; lia| |lia].
    destruct (Z.eq_dec v 0) as [->|]; [rewrite Hmv; rewrite Z.div_0_l by lia; done|].
    specialize (Hnz ltac:(lia)). assert (v mod P < v / 2 ^ 15 + 1); [|rewrite Hmv; lia].
    assert (P <= v / 2 ^ 15) by (apply Z.div_le_lower_bound; [lia|]; nia). lia.
Qed.

Lemma compact_parts_value v m n : 0 <= v < 2 ^ 256 -> compact_parts v = (m, n) ->
  compact_parts (compact_value m n) = (m, n).
Proof.
  intros Hv Hp. destruct (compact_value_parts v m n Hv Hp) as (Hle & _ & Hsmall).
  destruct (Z.le_gt_cases n 3) as [H3|H3]; [by rewrite Hsmall|].
  destruct (compact_parts_spec v m n Hv Hp) as (Hm & Hn & Hnz & Hmv).
  assert (0 < v).
  { destruct (Z.eq_dec v 0) as [->|]; [|lia]. change (compact_parts 0) with (0, 0) in Hp. injection Hp as <- <-. lia. }
  specialize (Hnz ltac:(lia)). unfold compact_value in *. rewrite (proj2 (Z.leb_gt n 3)) in * by lia.
  set (r := m * 2 ^ (8 * (n - 3))) in *. assert (0 < 2 ^ (8 * (n - 3))) by (apply Z.pow_pos_nonneg; lia).
  assert (Hr : 0 < r < 2 ^ 256) by (unfold r in *; nia).
  destruct (bytelen_range r Hr) as (Hk & Hlt & Hge). unfold compact_parts.
  set (k := (bitlen r + 7) / 8) in *. clearbody k.
  assert (Hcases : (k = n - 1 /\ m < 2 ^ 16) \/ (k = n /\ 2 ^ 16 <= m)).
  { destruct (Z.lt_ge_cases m (2 ^ 16)) as [Hm16|Hm16].
    - left. split; [|done].
      assert (2 ^ (8 * (k - 1)) < 2 ^ (8 * (n - 1))).
      { apply Z.le_lt_trans with r; [done|]. replace (8 * (n - 1)) with (16 + 8 * (n - 3)) by lia.
        rewrite Z.pow_add_r by lia. unfold r. nia. }
      assert (2 ^ (8 * (n - 2)) < 2 ^ (8 * k)).
      { apply Z.le_lt_trans with r; [|done].
        apply Z.le_trans with (2 ^ 15 * 2 ^ (8 * (n - 3))); [|unfold r; nia].
        rewrite <- Z.pow_add_r by lia. apply Z.pow_le_mono_r; lia. }
      apply Z.pow_lt_mono_r_iff in H1; [|lia|lia]. apply Z.pow_lt_mono_r_iff in H2; [|lia|lia]. lia.
    - right. split; [|done].
      assert (2 ^ (8 * (k - 1)) < 2 ^ (8 * n)).
      { apply Z.le_lt_trans with r; [done|]. apply Z.lt_trans with (2 ^ 23 * 2 ^ (8 * (n - 3))); [unfold r; nia|].
        rewrite <- Z.pow_add_r by lia. apply Z.pow_lt_mono_r; lia. }
      assert (2 ^ (8 * (n - 1)) < 2 ^ (8 * k)).
      { apply Z.le_lt_trans with r; [|done]. replace (8 * (n - 1)) with (16 + 8 * (n - 3)) by lia.
        rewrite Z.pow_add_r by lia. unfold r. nia. }
      apply Z.pow_lt_mono_r_iff in H1; [|lia|lia]. apply Z.pow_lt_mono_r_iff in H2; [|lia|lia]. lia. }
  destruct Hcases as [[-> Hm16]|[-> Hm16]].
  - assert (Hm0 : (if n - 1 <=? 3 then r * 2 ^ (8 * (3 - (n - 1))) else r / 2 ^ (8 * (n - 1 - 3))) = m * 256).
    { unfold r. zcase.
      - assert (n = 4) as -> by lia. change (8 * (3 - (4 - 1))) with 0. change (8 * (4 - 3)) with 8. lia.
      - replace (8 * (n - 3)) with (8 + 8 * (n - 1 - 3)) by lia. rewrite Z.pow_add_r by lia.
        rewrite Z.mul_assoc. apply Z.div_mul. apply Z.pow_nonzero; lia. }
    rewrite Hm0. rewrite (proj2 (Z.geb_le _ _)) by lia. rewrite Z.div_mul by lia. f_equal; lia.
  - rewrite (proj2 (Z.leb_gt n 3)) by lia. unfold r. rewrite Z.div_mul by lia.
    rewrite Z.geb_leb, (proj2 (Z.leb_gt _ _)) by lia. done.
Qed.

Lemma testbit23 m : 0 <= m < 2 ^ 24 -> (Z.land m 0x00800000 =? 0) = (m <? 2 ^ 23).
Proof. apply (land_topbit 23); lia. Qed.

Lemma GetCompact_spec a : wf a -> forall m n, compact_parts (val a) = (m, n) ->
  GetCompact a false = m + n * 2 ^ 24.
Proof.
  intros Hw m n Hp. pose proof (wf_range a Hw) as Hv. unfold GetCompact. rewrite bits_spec by done.
  destruct (compact_parts_spec (val a) m n Hv Hp) as (Hm & Hn & _).
  unfold compact_parts in Hp. set (k := (bitlen (val a) + 7) / 8) in *.
  pose proof (bitlen_le (val a) 256 Hv ltac:(lia)) as Hbl.
  destruct (bitlen_range (val a)) as (Hb0 & Hb1 & _); [lia|].
  assert (Hk : 0 <= k <= 32) by (unfold k; zdm; lia).
  assert (Hvk : val a < 2 ^ (8 * k))
    by (apply Z.lt_le_trans with (2 ^ bitlen (val a)); [done|apply Z.pow_le_mono_r; [lia|unfold k; zdm; lia]]).
  set (m0 := if k <=? 3 then val a * 2 ^ (8 * (3 - k)) else val a / 2 ^ (8 * (k - 3))) in *.
  assert (Hm0 : 0 <= m0 < 2 ^ 24).
  { unfold m0. zcase.
    - assert (0 < 2 ^ (8 * (3 - k))) by (apply Z.pow_pos_nonneg; lia).
      replace (2 ^ 24) with (2 ^ (8 * k) * 2 ^ (8 * (3 - k)))
        by (rewrite <- Z.pow_add_r by lia; f_equal; lia). nia.
    - assert (0 < 2 ^ (8 * (k - 3))) by (apply Z.pow_pos_nonneg; lia). split; [apply Z.div_pos; lia|].
      apply Z.div_lt_upper_bound; [lia|]. rewrite <- Z.pow_add_r by lia.
      replace (8 * (k - 3) + 24) with (8 * k) by lia. done. }
  assert (Hc : (if k <=? 3 then u32 (u64 (Z.shiftl (GetLow64 a) (8 * (3 - k))))
                else u32 (GetLow64 (shr a (8 * (k - 3))))) = m0).
  { unfold m0 in *. zcase.
    - rewrite GetLow64_spec, shiftl_mul by (done || lia).
      assert (val a < 2 ^ 24) by (apply Z.lt_le_trans with (2 ^ (8 * k)); [done|apply Z.pow_le_mono_r; lia]).
      rewrite (Z.mod_small (val a)) by lia.
      rewrite u64_small by lia. by rewrite u32_small by lia.
    - destruct (shr_spec a (8 * (k - 3)) Hw ltac:(lia)) as [Hws Hvs].
      rewrite GetLow64_spec, Hvs by done. rewrite Z.mod_small by lia. by rewrite u32_small by lia. }
  rewrite Hc, testbit23 by done. rewrite Z.geb_leb, Z.leb_antisym in Hp.
  assert (Hfin : forall m n, 0 <= m < 2 ^ 23 -> 0 <= n <= 33 ->
    Z.lor (Z.lor m (u32 (Z.shiftl n 24))) (if false && negb (Z.land (Z.lor m (u32 (Z.shiftl n 24))) 0x007fffff =? 0)
      then 0x00800000 else 0) = m + n * 2 ^ 24).
  { intros m' n' ? ?. cbn [andb]. rewrite Z.lor_0_r, shiftl_mul, u32_small, lor_disjoint by lia. done. }
  destruct (m0 <? 2 ^ 23); cbn [negb] in *; injection Hp as Hp1 Hp2.
  - subst m n. apply Hfin; done.
  - rewrite shiftr_div by lia. change (2 ^ 8) with 256. subst m n. apply Hfin; done.
Qed.

Lemma compact_fields c : is_u32 c -> Z.land c 0x007fffff = c mod 2 ^ 23 /\ Z.shiftr c 24 = c / 2 ^ 24 /\
  0 <= c mod 2 ^ 23 < 2 ^ 23 /\ 0 <= c / 2 ^ 24 <= 255.
Proof.
  unfold is_u32; intros Hc. split_and!; try (zdm; lia).
  - apply (land_mask 23); lia.
  - apply shiftr_div; lia.
Qed.

(** The overflow test of [SetCompact] on the fields, against the denoted number. *)
Lemma overflow_exact m n : 0 <= m < 2 ^ 23 -> 3 < n <= 255 ->
  negb (m =? 0) && ((n >? 34) || ((m >? 0xff) && (n >? 33)) || ((m >? 0xffff) && (n >? 32)))
  = (m * 2 ^ (8 * (n - 3)) >=? 2 ^ 256).
Proof.
  intros Hm Hn. apply eq_true_iff_eq.
  rewrite andb_true_iff, !orb_true_iff, !andb_true_iff, negb_true_iff, Z.eqb_neq, Z.geb_le, !Z.gtb_lt.
  assert (Hmono : forall k, k <= n - 3 -> 0 <= k -> 2 ^ (8 * k) <= 2 ^ (8 * (n - 3)))
    by (intros; apply Z.pow_le_mono_r; lia).
  assert (Hmono' : forall k, n - 3 <= k -> 2 ^ (8 * (n - 3)) <= 2 ^ (8 * k))
    by (intros; apply Z.pow_le_mono_r; lia).
  split.
  - intros [Hz [[H|[H1 H2]]|[H1 H2]]].
    + specialize (Hmono 32 ltac:(lia) ltac:(lia)). change (8 * 32) with 256 in Hmono. nia.
    + specialize (Hmono 31 ltac:(lia) ltac:(lia)). change (2 ^ 256) with (2 ^ 8 * 2 ^ (8 * 31)). nia.
    + specialize (Hmono 30 ltac:(lia) ltac:(lia)). change (2 ^ 256) with (2 ^ 16 * 2 ^ (8 * 30)). nia.
  - intros Hge. split; [intros ->; lia|].
    destruct (Z.lt_ge_cases 34 n); [by left; left|].
    destruct (Z.lt_ge_cases 33 n).
    + left; right. assert (n = 34) as -> by lia. split; [|lia].
      change (8 * (34 - 3)) with 248 in Hge. lia.
    + right. destruct (Z.lt_ge_cases 32 n).
      * assert (n = 33) as -> by lia. split; [|lia]. change (8 * (33 - 3)) with 240 in Hge. lia.
      * specialize (Hmono' 29 ltac:(lia)). change (8 * 29) with 232 in Hmono'. nia.
Qed.

Lemma SetCompact_spec c v fNeg fOvf : is_u32 c -> SetCompact c = (v, fNeg, fOvf) ->
  let d := compact_value (c mod 2 ^ 23) (c / 2 ^ 24) in
  wf v /\ val v = d mod 2 ^ 256 /\ fNeg = negb (d =? 0) && Z.testbit c 23 /\ fOvf = (d >=? 2 ^ 256).
Proof.
  intros Hc. destruct (compact_fields c Hc) as (Hm & Hn & Hrm & Hrn).
  unfold SetCompact. rewrite Hm, Hn. change 0x00800000 with (2 ^ 23).
  rewrite !land_pow2, !negb_involutive by lia.
  set (m := c mod 2 ^ 23) in *. set (n := c / 2 ^ 24) in *. unfold compact_value.
  zcase; intros [= <- <- <-].
  - rewrite shiftr_div by lia. assert (0 < 2 ^ (8 * (3 - n))) by (apply Z.pow_pos_nonneg; lia).
    assert (0 <= m / 2 ^ (8 * (3 - n)) < 2 ^ 23)
      by (split; [apply Z.div_pos; lia|apply Z.div_lt_upper_bound; nia]).
    destruct (of_u64_spec (m / 2 ^ (8 * (3 - n)))) as [Hw Hv]; [lia|].
    split_and!; [done|rewrite Hv, Z.mod_small by lia; done|done|].
    rewrite !(Z.gtb_ltb n), !(proj2 (Z.ltb_ge _ n)) by lia. rewrite !andb_false_r. cbn [orb].
    rewrite Z.geb_leb. symmetry. apply Z.leb_gt. lia.
  - destruct (of_u64_spec m) as [Hw Hv]; [lia|].
    destruct (shl_spec (of_u64 m) (8 * (n - 3)) Hw ltac:(lia)) as [Hw' Hv'].
    assert (0 < 2 ^ (8 * (n - 3))) by (apply Z.pow_pos_nonneg; lia).
    split_and!; [done|by rewrite Hv', Hv| |apply overflow_exact; lia].
    f_equal. f_equal. apply eq_true_iff_eq. rewrite !Z.eqb_eq. nia.
Qed.

Lemma SetCompact_val_wf c : is_u32 c -> wf (SetCompact_val c).
Proof.
  intros Hc. unfold SetCompact_val. destruct (SetCompact c) as [[v f1] f2] eqn:E.
  by destruct (SetCompact_spec c v f1 f2 Hc E).
Qed.

(** [UintToArith256] inverts [ArithToUint256]. *)
Lemma ReadLE32_WriteLE32 x l : 0 <= x < 2 ^ 32 -> ReadLE32 (WriteLE32 x ++ l) = x.
Proof.
  intros Hx. unfold ReadLE32, WriteLE32, u8, uwrap. cbn [app nth].
  rewrite !shiftr_div by lia. zdm; lia.
Qed.

Lemma ReadLE32_bytes x l : 0 <= x < 2 ^ 32 ->
  ReadLE32 (u8 x :: u8 (Z.shiftr x 8) :: u8 (Z.shiftr x 16) :: u8 (Z.shiftr x 24) :: l) = x.
Proof. apply ReadLE32_WriteLE32. Qed.

Lemma UintToArith256_ArithToUint256 a : wf a -> UintToArith256 (ArithToUint256 a) = a.
Proof.
  intros [Hl Ha]. limbs8 a Hl. unfold UintToArith256, ArithToUint256, WIDTH. cbn [seq map flat_map Nat.mul Nat.add].
  unfold WriteLE32. cbn [app drop].
  by rewrite !ReadLE32_bytes.
Qed.

(** ** Theorems *)

(** on well-formed operands every operator of [base_uint<256>] (addition,
    subtraction, negation, complement, multiplication by a 256-bit and by a
    32-bit number, left and right shift, comparison, [bits]) returns a
    well-formed number whose value is the arithmetic result reduced modulo
    [2^256]: the 64-bit intermediates and the carries never lose a bit. *)
Theorem uint256_ops_correct a b n32 shift : wf a -> wf b -> is_u32 n32 -> 0 <= shift ->
  (wf (add a b) /\ val (add a b) = (val a + val b) mod 2 ^ 256) /\
  (wf (sub a b) /\ val (sub a b) = (val a - val b) mod 2 ^ 256) /\
  (wf (neg a) /\ val (neg a) = (- val a) mod 2 ^ 256) /\
  (wf (mul a b) /\ val (mul a b) = (val a * val b) mod 2 ^ 256) /\
  (wf (mul32 a n32) /\ val (mul32 a n32) = (val a * n32) mod 2 ^ 256) /\
  (wf (shl a shift) /\ val (shl a shift) = (val a * 2 ^ shift) mod 2 ^ 256) /\
  (wf (shr a shift) /\ val (shr a shift) = val a / 2 ^ shift) /\
  CompareTo a b = (match Z.compare (val a) (val b) with Lt => -1 | Gt => 1 | Eq => 0 end) /\
  bits a = (if val a =? 0 then 0 else Z.log2 (val a) + 1).
Proof.
  intros. split_and!; first [by apply add_spec|by apply sub_spec|by apply neg_spec|by apply mul_spec
    |by apply mul32_spec|by apply shl_spec|by apply shr_spec|by apply CompareTo_spec|by apply bits_spec].
Qed.

Lemma wf_sample : wf (of_u64 0xfedcba9876543210).
Proof. apply of_u64_spec; lia. Qed.

Lemma uint256_ops_correct_witness :
  val (mul (of_u64 0xfedcba9876543210) (of_u64 0xfedcba9876543210))
  = (0xfedcba9876543210 * 0xfedcba9876543210) mod 2 ^ 256.
Proof.
  destruct (uint256_ops_correct (of_u64 0xfedcba9876543210) (of_u64 0xfedcba9876543210) 7 33)
    as (_ & _ & _ & [_ H] & _); [apply wf_sample|apply wf_sample|split; reflexivity || discriminate|discriminate|].
  rewrite H. reflexivity.
Defined.

(** [operator/=] throws exactly on a zero divisor and otherwise returns the
    floor of the quotient: the shift-subtract loop, started at the difference
    of the bit lengths, never drops a quotient bit. *)
Theorem uint256_division_correct a b : wf a -> wf b ->
  (div a b = None <-> val b = 0) /\
  (forall q, div a b = Some q -> wf q /\ val q = val a / val b).
Proof.
  intros Ha Hb. destruct (div_spec a b Ha Hb) as [H0 H1]. pose proof (wf_range b Hb).
  split.
  - split; [|done]. intros E. destruct (Z.eq_dec (val b) 0); [done|].
    destruct H1 as (q & Hq & _); [lia|]. congruence.
  - intros q E. destruct (Z.eq_dec (val b) 0) as [Hz|]; [rewrite H0 in E by done; done|].
    destruct H1 as (q' & Hq & ? & ?); [lia|]. rewrite Hq in E. injection E as <-. done.
Qed.

Lemma uint256_division_correct_witness :
  exists q, div (of_u64 0xfedcba9876543210) (of_u64 1000) = Some q /\ val q = 0xfedcba9876543210 / 1000.
Proof.
  destruct (uint256_division_correct (of_u64 0xfedcba9876543210) (of_u64 1000)) as [_ H];
    [apply wf_sample|apply of_u64_spec; split; reflexivity || discriminate|].
  eexists. split; [reflexivity|]. destruct (H _ eq_refl) as [_ ->]. reflexivity.
Defined.

(** encoding a 256-bit number as a compact target and decoding it again
    raises neither flag, gives a target that is never larger (never easier) and
    smaller by less than one part in [2^15], and is stable: encoding the decoded
    target gives the same compact word. *)
Theorem compact_roundtrip a : wf a ->
  let c := GetCompact a false in
  is_u32 c /\
  exists a', SetCompact c = (a', false, false) /\ wf a' /\
    val a - val a / 2 ^ 15 <= val a' <= val a /\ GetCompact a' false = c.
Proof.
  intros Hw c. pose proof (wf_range a Hw) as Hv. unfold c.
  destruct (compact_parts (val a)) as [m n] eqn:Hp.
  rewrite (GetCompact_spec a Hw m n Hp).
  destruct (compact_parts_spec _ _ _ Hv Hp) as (Hm & Hn & _).
  destruct (compact_value_parts _ _ _ Hv Hp) as (Hle & Hlo & _).
  assert (Hc : is_u32 (m + n * 2 ^ 24)) by (unfold is_u32; lia). split; [done|].
  destruct (SetCompact (m + n * 2 ^ 24)) as [[v f1] f2] eqn:E.
  destruct (SetCompact_spec _ _ _ _ Hc E) as (Hwv & Hvv & Hf1 & Hf2).
  assert ((m + n * 2 ^ 24) mod 2 ^ 23 = m) as Em.
  { change (2 ^ 24) with (2 * 2 ^ 23). rewrite Z.mul_assoc, Z.mod_add, Z.mod_small by lia. done. }
  assert ((m + n * 2 ^ 24) / 2 ^ 24 = n) as En by (rewrite Z.div_add, Z.div_small by lia; done).
  rewrite Em, En in *.
  assert (0 <= compact_value m n).
  { unfold compact_value. zcase; [apply Z_div_nonneg_nonneg|apply Z.mul_nonneg_nonneg];
      try apply Z.pow_nonneg; lia. }
  rewrite Z.mod_small in Hvv by lia.
  rewrite Z.geb_leb, (proj2 (Z.leb_gt _ _)) in Hf2 by lia.
  assert (Z.testbit (m + n * 2 ^ 24) 23 = false) as Eb.
  { apply Z.testbit_false; [lia|]. change (2 ^ 24) with (2 * 2 ^ 23).
    rewrite Z.mul_assoc, Z.div_add, Z.div_small by lia. rewrite Z.add_0_l. apply Z.mod_mul; lia. }
  rewrite Eb, andb_false_r in Hf1. subst f1 f2.
  exists v. split_and!; [done|done|lia|lia|].
  apply GetCompact_spec; [done|]. rewrite Hvv. by apply compact_parts_value with (val a).
Qed.

Lemma compact_roundtrip_witness :
  val (SetCompact_val (GetCompact (of_u64 0xfedcba9876543210) false)) <= 0xfedcba9876543210.
Proof.
  destruct (compact_roundtrip (of_u64 0xfedcba9876543210) wf_sample) as [_ (a' & E & _ & [_ H] & _)].
  unfold SetCompact_val. rewrite E. exact H.
Defined.

(** [SetCompact] decodes every 32-bit word: the number is the mantissa times
    [256^(size-3)] reduced modulo [2^256], the overflow flag is raised exactly
    when that reduction loses bits, and the negative flag exactly when the sign
    bit is set on a non-zero number. *)
Theorem SetCompact_decodes c : is_u32 c ->
  let d := compact_value (c mod 2 ^ 23) (c / 2 ^ 24) in
  exists v, SetCompact c = (v, negb (d =? 0) && Z.testbit c 23, d >=? 2 ^ 256) /\
            wf v /\ val v = d mod 2 ^ 256.
Proof.
  intros Hc d. destruct (SetCompact c) as [[v f1] f2] eqn:E.
  destruct (SetCompact_spec c v f1 f2 Hc E) as (Hw & Hv & -> & ->). by exists v.
Qed.

Lemma SetCompact_decodes_witness : exists v, SetCompact 0x1d00ffff = (v, false, false) /\ val v = 0xffff * 2 ^ 208.
Proof.
  destruct (SetCompact_decodes 0x1d00ffff) as (v & E & _ & Hv); [split; reflexivity || discriminate|].
  exists v. split; [exact E|]. rewrite Hv. reflexivity.
Defined.
