(* ===== verification/Serialize.v ===== *)
(** * Serialize: the stream encodings of [src/src/serialize.h]

    Little-endian integers, CompactSize, VarInt and the three vector wrappers
    ([compactsizevectorwrapper], [varintvectorwrapper], [nosizevectorwrapper]).
    A writer is a function to the bytes it appends, a reader consumes a prefix
    of the stream and is [None] where the source throws [ios_base::failure]
    (end of data, non-canonical or oversized number). The interface other
    components use is the pair of classes [RoundTrip] and [Canonical]. *)

From S2P Require Import Prelude.

(** ** Definitions *)

Definition MAX_SIZE : Z := 0x02000000.

(** [s.read] of [n] bytes. *)
Fixpoint rd_bytes (n : nat) : reader (list Z) :=
  match n with
  | O => rd_ret []
  | S n' => fun s => match s with [] => None | b :: s' => (l <~ rd_bytes n' ;;; rd_ret (b :: l)) s' end
  end.

(** [n] bytes of an integer, least significant first, and back. *)
Fixpoint le_bytes (n : nat) (x : Z) : list Z :=
  match n with O => [] | S n' => u8 x :: le_bytes n' (Z.shiftr x 8) end.
Fixpoint le_val (l : list Z) : Z :=
  match l with [] => 0 | b :: l' => b + 2 ^ 8 * le_val l' end.

Definition ser_writedata8 (obj : Z) : list Z := le_bytes 1 obj.
Definition ser_writedata16 (obj : Z) : list Z := le_bytes 2 obj.
Definition ser_writedata16be (obj : Z) : list Z := rev (le_bytes 2 obj).
Definition ser_writedata32 (obj : Z) : list Z := le_bytes 4 obj.
Definition ser_writedata32be (obj : Z) : list Z := rev (le_bytes 4 obj).
Definition ser_writedata64 (obj : Z) : list Z := le_bytes 8 obj.
Definition ser_readdata8 : reader Z := l <~ rd_bytes 1 ;;; rd_ret (le_val l).
Definition ser_readdata16 : reader Z := l <~ rd_bytes 2 ;;; rd_ret (le_val l).
Definition ser_readdata16be : reader Z := l <~ rd_bytes 2 ;;; rd_ret (le_val (rev l)).
Definition ser_readdata32 : reader Z := l <~ rd_bytes 4 ;;; rd_ret (le_val l).
Definition ser_readdata32be : reader Z := l <~ rd_bytes 4 ;;; rd_ret (le_val (rev l)).
Definition ser_readdata64 : reader Z := l <~ rd_bytes 8 ;;; rd_ret (le_val l).

(** Signed integers are written as the unsigned integer of the same width and
    converted back on assignment. *)
Definition Serialize_int32 (a : Z) : list Z := ser_writedata32 (u32 a).
Definition Unserialize_int32 : reader Z := n <~ ser_readdata32 ;;; rd_ret (i32 n).
Definition Serialize_int64 (a : Z) : list Z := ser_writedata64 (u64 a).
Definition Unserialize_int64 : reader Z := n <~ ser_readdata64 ;;; rd_ret (i64 n).

(** *** CompactSize *)

Definition GetSizeOfCompactSize (nSize : Z) : Z :=
  if nSize <? 253 then 1
  else if nSize <=? 2 ^ 16 - 1 then 1 + 2
  else if nSize <=? UINT32_MAX then 1 + 4
  else 1 + 8.

Definition WriteCompactSize (nSize : Z) : list Z :=
  if nSize <? 253 then ser_writedata8 nSize
  else if nSize <=? 2 ^ 16 - 1 then ser_writedata8 253 ++ ser_writedata16 nSize
  else if nSize <=? UINT32_MAX then ser_writedata8 254 ++ ser_writedata32 nSize
  else ser_writedata8 255 ++ ser_writedata64 nSize.

Definition ReadCompactSize (range_check : bool) : reader Z :=
  chSize <~ ser_readdata8 ;;;
  nSizeRet <~
    (if chSize <? 253 then rd_ret chSize
     else if chSize =? 253 then
       n <~ ser_readdata16 ;;; if n <? 253 then rd_fail else rd_ret n
     else if chSize =? 254 then
       n <~ ser_readdata32 ;;; if n <? 0x10000 then rd_fail else rd_ret n
     else
       n <~ ser_readdata64 ;;; if n <? 0x100000000 then rd_fail else rd_ret n) ;;;
  if range_check && (nSizeRet >? MAX_SIZE) then rd_fail else rd_ret nSizeRet.

(** *** VarInt

    [WriteVarInt] fills [tmp] from the least significant group and writes it
    back to front, so the digit of the first iteration is the last byte. The
    loop runs at most ten times on a 64-bit number ([varint_fuel]). A negative
    number of a signed type leaves the loop at once. *)

Definition varint_fuel : nat := 10.

Fixpoint GetSizeOfVarInt_loop (fuel : nat) (n : Z) : Z :=
  match fuel with
  | O => 0
  | S f => if n <=? 0x7F then 1 else 1 + GetSizeOfVarInt_loop f (Z.shiftr n 7 - 1)
  end.
Definition GetSizeOfVarInt (n : Z) : Z := GetSizeOfVarInt_loop varint_fuel n.

Fixpoint WriteVarInt_loop (fuel : nat) (first : bool) (n : Z) (tmp : list Z) : list Z :=
  match fuel with
  | O => tmp
  | S f =>
      let tmp' := Z.lor (Z.land n 0x7F) (if first then 0 else 0x80) :: tmp in
      if n <=? 0x7F then tmp' else WriteVarInt_loop f false (Z.shiftr n 7 - 1) tmp'
  end.
Definition WriteVarInt (n : Z) : list Z := WriteVarInt_loop varint_fuel true n [].

(** [ReadVarInt<Stream, I>] with [maxI = numeric_limits<I>::max()]. Every
    iteration consumes a byte, so the length of the stream is enough fuel. *)
Fixpoint ReadVarInt_loop (fuel : nat) (maxI n : Z) : reader Z :=
  match fuel with
  | O => rd_fail
  | S f =>
      chData <~ ser_readdata8 ;;;
      if n >? Z.shiftr maxI 7 then rd_fail
      else
        let n := Z.lor (Z.shiftl n 7) (Z.land chData 0x7F) in
        if negb (Z.land chData 0x80 =? 0) then
          if n =? maxI then rd_fail else ReadVarInt_loop f maxI (n + 1)
        else rd_ret n
  end.
Definition ReadVarInt (maxI : Z) : reader Z := fun s => ReadVarInt_loop (S (length s)) maxI 0 s.

Definition INT32_MAX : Z := 2 ^ 31 - 1.

(** *** Vectors *)

Definition Serialize_compactsizevector {A} (w : A -> list Z) (v : list A) : list Z :=
  WriteCompactSize (Z.of_nat (length v)) ++ flat_map w v.
Definition Serialize_varintvector {A} (w : A -> list Z) (v : list A) : list Z :=
  WriteVarInt (Z.of_nat (length v)) ++ flat_map w v.
Definition Serialize_nosizevector {A} (w : A -> list Z) (v : list A) : list Z := flat_map w v.

(** [v.resize(n)]: truncate, or extend with default elements. *)
Definition vresize {A} (d : A) (v : list A) (n : Z) : list A :=
  firstn (Z.to_nat n) (v ++ repeat d (Z.to_nat n - length v)).

(** The element loop shared by the vector readers: the vector grows by
    [5000000 / sizeof(K)] elements at a time; [nMid] is an [unsigned int]. *)
Fixpoint vector_chunks {A} (fuel : nat) (d : A) (r : reader A) (chunk nSize nMid i : Z) (v : list A)
  : reader (list A) :=
  match fuel with
  | O => rd_fail
  | S f =>
      if nMid <? nSize then
        let nMid := u32 (nMid + chunk) in
        let nMid := if nMid >? nSize then nSize else nMid in
        let v := vresize d v nMid in
        if i <? nMid then
          l <~ rd_times (Z.to_nat (nMid - i)) r ;;;
          vector_chunks f d r chunk nSize nMid nMid (firstn (Z.to_nat i) v ++ l)
        else vector_chunks f d r chunk nSize nMid i v
      else rd_ret v
  end.
Definition Unserialize_vector_loop {A} (d : A) (r : reader A) (sizeofK nSize : Z) : reader (list A) :=
  vector_chunks (S (Z.to_nat nSize)) d r (5000000 / sizeofK) nSize 0 0 [].

Definition Unserialize_compactsizevector {A} (d : A) (r : reader A) (sizeofK : Z) : reader (list A) :=
  nSize <~ ReadCompactSize true ;;; Unserialize_vector_loop d r sizeofK nSize.
Definition Unserialize_varintvector {A} (d : A) (r : reader A) (sizeofK : Z) : reader (list A) :=
  nSize <~ ReadVarInt UINT32_MAX ;;; Unserialize_vector_loop d r sizeofK nSize.
Definition Unserialize_nosizevector {A} (d : A) (r : reader A) (sizeofK nSize : Z) : reader (list A) :=
  Unserialize_vector_loop d r sizeofK nSize.

(** Byte vectors and [prevector<N, unsigned char>] (scripts): blocks of at most
    [1 + 4999999] bytes read in one go. *)
Fixpoint byte_blocks (fuel : nat) (nSize i : Z) : reader (list Z) :=
  match fuel with
  | O => rd_fail
  | S f =>
      if i <? nSize then
        let blk := Z.min (nSize - i) (1 + 4999999) in
        v <~ rd_bytes (Z.to_nat blk) ;;;
        vs <~ byte_blocks f nSize (i + blk) ;;;
        rd_ret (v ++ vs)
      else rd_ret []
  end.
Definition Serialize_bytes (v : list Z) : list Z :=
  WriteCompactSize (Z.of_nat (length v)) ++ v.
Definition Unserialize_bytes : reader (list Z) :=
  nSize <~ ReadCompactSize true ;;; byte_blocks (S (Z.to_nat nSize)) nSize 0.

(** [CFlatData]: a fixed number of raw bytes. *)
Definition CFlatData_Serialize (v : list Z) : list Z := v.
Definition CFlatData_Unserialize (n : nat) : reader (list Z) := rd_bytes n.

(** ** Interface *)

Definition bytes_ok (s : list Z) : Prop := Forall (fun b => 0 <= b < 256) s.

(** Reading what was written gives the value back and leaves the rest. *)
Class RoundTrip {A} (w : A -> list Z) (r : reader A) (ok : A -> Prop) : Prop :=
  round_trip : forall a s, ok a -> r (w a ++ s) = Some (a, s).

(** Whatever the reader accepts is exactly what the writer produces. *)
Class Canonical {A} (w : A -> list Z) (r : reader A) (ok : A -> Prop) : Prop :=
  canonical : forall s a s', bytes_ok s -> r s = Some (a, s') -> s = w a ++ s' /\ ok a.

(** The numbers each encoding represents. *)
Definition fits (n : nat) (x : Z) : Prop := 0 <= x < 2 ^ (8 * Z.of_nat n).

(** ** Lemmas: raw bytes and little-endian integers *)

Lemma rd_bytes_spec n s : rd_bytes n s =
  if (n <=? length s)%nat then Some (firstn n s, skipn n s) else None.
Proof.
  revert s; induction n as [|n IH]; intros [|b s]; try done.
  cbn [rd_bytes]. unfold rd_bind. rewrite IH. cbn [length Nat.leb firstn skipn].
  by destruct (n <=? length s)%nat.
Qed.

Lemma rd_bytes_app n l s : length l = n -> rd_bytes n (l ++ s) = Some (l, s).
Proof.
  intros <-. rewrite rd_bytes_spec, length_app, (proj2 (Nat.leb_le _ _)) by lia.
  by rewrite take_app_length, drop_app_length.
Qed.

Lemma rd_bytes_inv n s l s' : rd_bytes n s = Some (l, s') -> s = l ++ s' /\ length l = n.
Proof.
  rewrite rd_bytes_spec. destruct (Nat.leb_spec n (length s)); intros [= <- <-].
  rewrite firstn_skipn, length_firstn. split; [done|lia].
Qed.

Lemma length_le_bytes n x : length (le_bytes n x) = n.
Proof. revert x; induction n as [|n IH]; intros x; cbn; [done|by rewrite IH]. Qed.

Lemma le_bytes_ok n x : bytes_ok (le_bytes n x).
Proof. revert x; induction n as [|n IH]; intros x; constructor; [apply u8_range|apply IH]. Qed.

Lemma le_val_bytes n x : fits n x -> le_val (le_bytes n x) = x.
Proof.
  unfold fits. revert x; induction n as [|n IH]; intros x Hx; [cbn in *; lia|].
  cbn [le_bytes le_val]. replace (8 * Z.of_nat (S n)) with (8 + 8 * Z.of_nat n) in Hx by lia.
  rewrite Z.pow_add_r in Hx by lia.
  rewrite IH; rewrite shiftr_div by lia; unfold u8, uwrap; [zdm; lia|].
  split; [apply Z.div_pos; lia|apply Z.div_lt_upper_bound; lia].
Qed.

Lemma le_val_fits l : bytes_ok l -> fits (length l) (le_val l).
Proof.
  unfold fits. induction 1 as [|b l Hb Hl IH]; [cbn; lia|]. cbn [length le_val].
  replace (8 * Z.of_nat (S (length l))) with (8 + 8 * Z.of_nat (length l)) by lia.
  rewrite Z.pow_add_r by lia. lia.
Qed.

Lemma le_bytes_val l : bytes_ok l -> le_bytes (length l) (le_val l) = l.
Proof.
  induction 1 as [|b l Hb Hl IH]; [done|]. cbn [length le_bytes le_val].
  rewrite shiftr_div by lia. unfold u8, uwrap. change (2 ^ 8) with 256.
  rewrite (Z.add_comm b), (Z.mul_comm 256), Z.div_add_l, (Z.div_small b), Z.add_0_r, IH by lia.
  f_equal. rewrite Z.add_comm, Z.mod_add, Z.mod_small by lia. done.
Qed.

Lemma bytes_ok_app l s : bytes_ok (l ++ s) <-> bytes_ok l /\ bytes_ok s.
Proof. apply Forall_app. Qed.

(** The [n]-byte little-endian reader. *)
Definition rd_le (n : nat) : reader Z := l <~ rd_bytes n ;;; rd_ret (le_val l).

#[export] Instance le_RoundTrip n : RoundTrip (le_bytes n) (rd_le n) (fits n).
Proof.
  intros x s Hx. unfold rd_le, rd_bind. rewrite rd_bytes_app by apply length_le_bytes.
  by rewrite le_val_bytes.
Qed.

#[export] Instance le_Canonical n : Canonical (le_bytes n) (rd_le n) (fits n).
Proof.
  intros s a s' Hs. unfold rd_le, rd_bind. destruct (rd_bytes n s) as [[l t]|] eqn:E; [|done].
  intros [= <- <-]. apply rd_bytes_inv in E as [-> <-]. apply bytes_ok_app in Hs as [Hl _].
  split; [by rewrite le_bytes_val|by apply le_val_fits].
Qed.

(** ** Lemmas: VarInt *)

(** The bytes [WriteVarInt] writes, as a recursion from the last byte. *)
Fixpoint vi_enc (fuel : nat) (first : bool) (n : Z) : list Z :=
  match fuel with
  | O => []
  | S f =>
      let fl := if first then 0 else 128 in
      if n <=? 127 then [n + fl] else vi_enc f false (n / 128 - 1) ++ [n mod 128 + fl]
  end.

Lemma vi_digit (first : bool) n : 0 <= n ->
  Z.lor (Z.land n 0x7F) (if first then 0 else 0x80) = n mod 128 + (if first then 0 else 128).
Proof.
  intros Hn. change (Z.land n 127) with (Z.land n (2 ^ 7 - 1)). rewrite land_mask by lia. destruct first.
  - rewrite Z.lor_0_r. change (2 ^ 7) with 128. lia.
  - apply (lor_disjoint 7 (n mod 2 ^ 7) 1); [lia|]. apply Z.mod_pos_bound; lia.
Qed.

Lemma vi_next n : Z.shiftr n 7 - 1 = n / 128 - 1.
Proof. by rewrite shiftr_div. Qed.

Lemma WriteVarInt_loop_enc f first n tmp : 0 <= n ->
  WriteVarInt_loop f first n tmp = vi_enc f first n ++ tmp.
Proof.
  revert first n tmp; induction f as [|f IH]; intros first n tmp Hn; [done|].
  cbn [WriteVarInt_loop vi_enc]. rewrite vi_digit, vi_next by done. zcase.
  - by rewrite Z.mod_small by lia.
  - rewrite IH by (zdm; lia). by rewrite <- app_assoc.
Qed.

(** Enough fuel: one iteration per 7 bits. *)
Lemma vi_fuel_step f n : 0 <= n < 128 ^ Z.of_nat (S f) -> 127 < n -> 0 <= n / 128 - 1 < 128 ^ Z.of_nat f.
Proof.
  rewrite Nat2Z.inj_succ, Z.pow_succ_r by lia. intros.
  assert (n / 128 < 128 ^ Z.of_nat f) by (apply Z.div_lt_upper_bound; lia). zdm; lia.
Qed.

Lemma vi_fuel_irrel f f' first n : 0 <= n < 128 ^ Z.of_nat (S f) -> n < 128 ^ Z.of_nat (S f') ->
  vi_enc (S f) first n = vi_enc (S f') first n.
Proof.
  revert f' first n; induction f as [|f IH]; intros [|f'] first n Hn Hn';
    try (cbn [vi_enc]; rewrite (proj2 (Z.leb_le n 127)) by (cbn in *; lia); done).
  cbn [vi_enc] in *. zcase; [done|].
  destruct (vi_fuel_step (S f) n Hn) as [? ?]; [done|].
  destruct (vi_fuel_step (S f') n) as [_ ?]; [lia|done|]. by rewrite (IH f' false).
Qed.

Definition vi_bytes (first : bool) (n : Z) : list Z := vi_enc varint_fuel first n.

Lemma vi_bytes_eq first n : 0 <= n < 2 ^ 64 ->
  vi_bytes first n = (if n <=? 127 then [n + (if first then 0 else 128)]
                      else vi_bytes false (n / 128 - 1) ++ [n mod 128 + (if first then 0 else 128)]).
Proof.
  intros Hn. unfold vi_bytes. change varint_fuel with (S 9).
  change (vi_enc (S 9) first n) with
    (let fl := if first then 0 else 128 in
     if n <=? 127 then [n + fl] else vi_enc 9 false (n / 128 - 1) ++ [n mod 128 + fl]).
  cbv zeta. zcase; [done|]. rewrite (vi_fuel_irrel 8 9); [done| |].
  - change (128 ^ Z.of_nat 9) with (2 ^ 63). zdm; lia.
  - change (128 ^ Z.of_nat 10) with (2 ^ 70). zdm; lia.
Qed.

Lemma WriteVarInt_bytes n : 0 <= n -> WriteVarInt n = vi_bytes true n.
Proof. intros Hn. unfold WriteVarInt. by rewrite WriteVarInt_loop_enc, app_nil_r. Qed.

(** One iteration of the reader on a byte. *)
Lemma ReadVarInt_step f maxI acc b s : 0 <= acc -> 0 <= b < 256 ->
  ReadVarInt_loop (S f) maxI acc (b :: s) =
  (if acc >? maxI / 128 then None
   else let n := acc * 128 + b mod 128 in
        if b <? 128 then Some (n, s) else if n =? maxI then None else ReadVarInt_loop f maxI (n + 1) s).
Proof.
  intros Ha Hb. cbn [ReadVarInt_loop].
  unfold ser_readdata8, rd_bind, rd_ret, rd_fail. cbn [rd_bytes].
  unfold rd_bind, rd_ret. cbn [le_val]. rewrite Z.mul_0_r, Z.add_0_r.
  change (Z.land b 127) with (Z.land b (2 ^ 7 - 1)). change (Z.land b 128) with (Z.land b (2 ^ 7)).
  rewrite (shiftr_div 7), land_mask, shiftl_mul, Z.lor_comm, lor_disjoint by (try apply Z.mod_pos_bound; lia).
  rewrite (land_topbit 7) by lia. change (2 ^ 7) with 128. rewrite (Z.add_comm (b mod 128)).
  destruct (acc >? maxI / 128); [done|]. destruct (b <? 128); cbn [negb]; [done|]. by destruct (_ =? maxI).
Qed.

Opaque vi_bytes.

Lemma vi_bytes_len_ind (P : Z -> Prop) :
  (forall n, 0 <= n < 2 ^ 64 -> (127 < n -> P (n / 128 - 1)) -> P n) -> forall n, 0 <= n < 2 ^ 64 -> P n.
Proof.
  intros H n Hn. destruct Hn as [Hn0 Hn1]. revert n Hn0 Hn1.
  refine (Zlt_0_ind _ _). intros n IH Hn0 Hn1. apply H; [done|]. intros. apply IH; zdm; lia.
Qed.

(** Reading the continuation bytes of [m] leaves the accumulator at [m + 1]. *)
Lemma ReadVarInt_cont maxI m k s : 0 <= m < maxI -> maxI < 2 ^ 64 ->
  ReadVarInt_loop (length (vi_bytes false m) + k) maxI 0 (vi_bytes false m ++ s) = ReadVarInt_loop k maxI (m + 1) s.
Proof.
  intros Hm Hmax. revert k s. assert (Hm' : 0 <= m < 2 ^ 64) by lia. revert m Hm' Hm.
  refine (vi_bytes_len_ind _ _). intros m Hm' IH Hm k s. rewrite vi_bytes_eq by done. zcase.
  - cbn [length app Nat.add]. rewrite ReadVarInt_step by lia.
    rewrite Z.gtb_ltb, (proj2 (Z.ltb_ge _ _)) by (apply Z.div_pos; lia).
    rewrite (proj2 (Z.ltb_ge _ 128)) by lia. cbv zeta.
    replace ((m + 128) mod 128) with m by (zdm; lia).
    rewrite (proj2 (Z.eqb_neq _ _)) by lia. done.
  - assert (0 <= m / 128 - 1 < maxI) by (zdm; lia).
    rewrite length_app, <- app_assoc, <- Nat.add_assoc. cbn [length Nat.add app].
    rewrite IH by done. rewrite ReadVarInt_step by (zdm; lia).
    rewrite Z.gtb_ltb, (proj2 (Z.ltb_ge _ _)) by (zdm; lia).
    rewrite (proj2 (Z.ltb_ge _ 128)) by (zdm; lia). cbv zeta.
    replace ((m / 128 - 1 + 1) * 128 + (m mod 128 + 128) mod 128) with m by (zdm; lia).
    rewrite (proj2 (Z.eqb_neq _ _)) by lia. done.
Qed.

#[export] Instance VarInt_RoundTrip maxI : maxI < 2 ^ 64 ->
  RoundTrip WriteVarInt (ReadVarInt maxI) (fun n => 0 <= n <= maxI).
Proof.
  intros Hmax n s Hn. unfold ReadVarInt. rewrite WriteVarInt_bytes, vi_bytes_eq by lia. zcase.
  - cbn [app length]. rewrite ReadVarInt_step by lia.
    rewrite Z.gtb_ltb, (proj2 (Z.ltb_ge _ _)) by (apply Z.div_pos; lia).
    rewrite (proj2 (Z.ltb_lt _ _)) by lia. cbv zeta. rewrite Z.add_0_r, Z.mod_small by lia. done.
  - rewrite !length_app, <- app_assoc, <- Nat.add_assoc, <- Nat.add_succ_r.
    rewrite ReadVarInt_cont by (zdm; lia). cbn [length Nat.add app].
    rewrite ReadVarInt_step by (zdm; lia).
    rewrite Z.gtb_ltb, (proj2 (Z.ltb_ge _ _)) by (zdm; lia).
    rewrite (proj2 (Z.ltb_lt _ _)) by (zdm; lia). cbv zeta. f_equal. f_equal. zdm; lia.
Qed.

(** What the accumulator [acc] has consumed so far. *)
Definition vi_prefix (acc : Z) (pre : list Z) : Prop :=
  acc = 0 /\ pre = [] \/ 0 < acc < 2 ^ 64 /\ pre = vi_bytes false (acc - 1).

Lemma vi_prefix_extend acc pre b (first : bool) : vi_prefix acc pre -> 0 <= b < 128 -> acc * 128 + b < 2 ^ 64 ->
  pre ++ [b + (if first then 0 else 128)] = vi_bytes first (acc * 128 + b).
Proof.
  intros [[-> ->]|[Ha ->]] Hb Hn; rewrite (vi_bytes_eq first) by lia.
  - rewrite (proj2 (Z.leb_le _ _)) by lia. done.
  - rewrite (proj2 (Z.leb_gt _ _)) by lia.
    replace ((acc * 128 + b) / 128) with acc by (zdm; lia).
    replace ((acc * 128 + b) mod 128) with b by (zdm; lia). done.
Qed.

Lemma ReadVarInt_canon_loop maxI : 0 <= maxI < 2 ^ 64 -> forall f acc pre s n s', bytes_ok s -> vi_prefix acc pre ->
  ReadVarInt_loop f maxI acc s = Some (n, s') -> pre ++ s = vi_bytes true n ++ s' /\ 0 <= n <= maxI \/ maxI mod 128 <> 127.
Proof.
  intros Hmax f. induction f as [|f IH]; intros acc pre s n s' Hs Hp; [done|].
  destruct s as [|b s]; [done|].
  pose proof (Forall_inv Hs) as Hb. pose proof (Forall_inv_tail Hs) as Hs'. cbv beta in Hb.
  assert (0 <= acc) by (destruct Hp as [[-> _]|[? _]]; lia).
  rewrite ReadVarInt_step by done. cbv zeta. repeat zcase; intros E; try done.
  - injection E as <- <-. destruct (Z.eq_dec (maxI mod 128) 127); [left|by right]. rewrite Z.mod_small by lia.
    assert (acc * 128 + b <= maxI) by (zdm; lia).
    rewrite <- (vi_prefix_extend acc pre b true), <- app_assoc, Z.add_0_r by (done || lia).
    split; [done|lia].
  - destruct (Z.eq_dec (maxI mod 128) 127); [|by right].
    assert (acc * 128 + b mod 128 <= maxI) by (zdm; lia).
    assert (b = b mod 128 + 128) as Eb by (zdm; lia).
    rewrite Eb, cons_middle, app_assoc.
    rewrite (vi_prefix_extend acc pre (b mod 128) false) by (done || (zdm; lia)).
    eapply IH; [done| |exact E]. right. split; [zdm; lia|]. f_equal. lia.
Qed.

(** For the integer types, whose maximum has all low bits set. *)
#[export] Instance VarInt_Canonical maxI : 0 <= maxI < 2 ^ 64 -> maxI mod 128 = 127 ->
  Canonical WriteVarInt (ReadVarInt maxI) (fun n => 0 <= n <= maxI).
Proof.
  intros Hmax Hm s n s' Hs E. unfold ReadVarInt in E.
  destruct (ReadVarInt_canon_loop maxI Hmax _ 0 [] s n s' Hs (or_introl (conj eq_refl eq_refl)) E) as [[H1 H2]|]; [|done].
  rewrite WriteVarInt_bytes by lia. done.
Qed.

Lemma GetSizeOfVarInt_length n : 0 <= n -> GetSizeOfVarInt n = Z.of_nat (length (WriteVarInt n)).
Proof.
  intros Hn. unfold GetSizeOfVarInt, WriteVarInt. rewrite WriteVarInt_loop_enc, app_nil_r by done.
  generalize true. revert n Hn. induction varint_fuel as [|f IH]; intros n Hn b; [done|].
  cbn [GetSizeOfVarInt_loop vi_enc]. zcase; [done|].
  rewrite length_app, vi_next, (IH (n / 128 - 1) ltac:(zdm; lia) false). cbn [length]. lia.
Qed.

(** ** Lemmas: CompactSize *)

Lemma ReadCompactSize_byte rc b s : 0 <= b < 256 -> ReadCompactSize rc (b :: s) =
  (nSizeRet <~ (if b <? 253 then rd_ret b
     else if b =? 253 then n <~ rd_le 2 ;;; if n <? 253 then rd_fail else rd_ret n
     else if b =? 254 then n <~ rd_le 4 ;;; if n <? 0x10000 then rd_fail else rd_ret n
     else n <~ rd_le 8 ;;; if n <? 0x100000000 then rd_fail else rd_ret n) ;;;
   if rc && (nSizeRet >? MAX_SIZE) then rd_fail else rd_ret nSizeRet) s.
Proof.
  intros Hb. unfold ReadCompactSize at 1, ser_readdata8, rd_bind at 1 2. cbn [rd_bytes].
  unfold rd_bind at 1, rd_ret at 1 2. cbn [le_val]. by rewrite Z.mul_0_r, Z.add_0_r.
Qed.

(** A number after its tag byte: the reader of its width, then the check that
    it needed that width. *)
Lemma rd_le_checked k lo n s : fits k n -> lo <= n ->
  (n <~ rd_le k ;;; if n <? lo then rd_fail else rd_ret n) (le_bytes k n ++ s) = Some (n, s).
Proof.
  intros Hn Hlo. unfold rd_bind. rewrite (le_RoundTrip k n s Hn), (proj2 (Z.ltb_ge _ _)) by done. done.
Qed.

Lemma rd_le_checked_inv k lo n s s' : bytes_ok s ->
  (n <~ rd_le k ;;; if n <? lo then rd_fail else rd_ret n) s = Some (n, s') ->
  s = le_bytes k n ++ s' /\ fits k n /\ lo <= n.
Proof.
  intros Hs. unfold rd_bind. destruct (rd_le k s) as [[m t]|] eqn:E; [|done].
  apply le_Canonical in E as [-> Hm]; [|done]. zcase; [done|]. intros [= <- <-]. done.
Qed.

Lemma write8_byte b : 0 <= b < 256 -> ser_writedata8 b = [b].
Proof. intros. unfold ser_writedata8. cbn [le_bytes]. by rewrite u8_small by lia. Qed.

#[export] Instance CompactSize_RoundTrip rc :
  RoundTrip WriteCompactSize (ReadCompactSize rc) (fun n => 0 <= n < 2 ^ 64 /\ (rc = true -> n <= MAX_SIZE)).
Proof.
  intros n s [Hn Hrc]. unfold WriteCompactSize, UINT32_MAX.
  assert (Hchk : rc && (n >? MAX_SIZE) = false).
  { destruct rc; [|done]. cbn [andb]. rewrite Z.gtb_ltb. apply Z.ltb_ge. by apply Hrc. }
  repeat zcase; rewrite write8_byte by lia; cbn [app]; rewrite ReadCompactSize_byte by lia;
    unfold rd_bind at 1, ser_writedata16, ser_writedata32, ser_writedata64.
  - rewrite (proj2 (Z.ltb_lt _ _)) by lia. unfold rd_ret. by rewrite Hchk.
  - change (253 <? 253) with false. change (253 =? 253) with true. cbv iota.
    rewrite (rd_le_checked 2 253 n s) by (unfold fits; cbn; lia). by rewrite Hchk.
  - change (254 <? 253) with false. change (254 =? 253) with false. change (254 =? 254) with true. cbv iota.
    rewrite (rd_le_checked 4 0x10000 n s) by (unfold fits; cbn; lia). by rewrite Hchk.
  - change (255 <? 253) with false. change (255 =? 253) with false. change (255 =? 254) with false. cbv iota.
    rewrite (rd_le_checked 8 0x100000000 n s) by (unfold fits; cbn; lia). by rewrite Hchk.
Qed.

#[export] Instance CompactSize_Canonical rc :
  Canonical WriteCompactSize (ReadCompactSize rc) (fun n => 0 <= n < 2 ^ 64 /\ (rc = true -> n <= MAX_SIZE)).
Proof.
  intros [|b s] n s' Hs; [done|]. pose proof (Forall_inv Hs) as Hb. apply Forall_inv_tail in Hs. cbv beta in Hb.
  rewrite ReadCompactSize_byte by done. unfold rd_bind at 1.
  match goal with |- match ?m s with _ => _ end = _ -> _ => destruct (m s) as [[n' t]|] eqn:E end; [|done].
  destruct (rc && (n' >? MAX_SIZE)) eqn:Hchk; [done|]. intros [= <- <-].
  assert (Hrc : rc = true -> n' <= MAX_SIZE).
  { intros ->. cbn [andb] in Hchk. rewrite Z.gtb_ltb in Hchk. by apply Z.ltb_ge in Hchk. }
  unfold WriteCompactSize, UINT32_MAX.
  repeat match type of E with context [if ?c then _ else _] => destruct c eqn:?; zbool end.
  - injection E as <- <-. rewrite (proj2 (Z.ltb_lt _ _)) by lia. rewrite write8_byte by lia. split; [done|split; [lia|done]].
  - subst b. apply rd_le_checked_inv in E as (-> & Hf & Hlo); [|done]. unfold fits in Hf. cbn in Hf.
    rewrite (proj2 (Z.ltb_ge _ _)), (proj2 (Z.leb_le _ _)) by lia. split; [done|split; [lia|done]].
  - subst b. apply rd_le_checked_inv in E as (-> & Hf & Hlo); [|done]. unfold fits in Hf. cbn in Hf.
    rewrite (proj2 (Z.ltb_ge _ _)), (proj2 (Z.leb_gt _ _)), (proj2 (Z.leb_le _ _)) by lia. split; [done|split; [lia|done]].
  - assert (b = 255) as -> by lia. apply rd_le_checked_inv in E as (-> & Hf & Hlo); [|done]. unfold fits in Hf. cbn in Hf.
    rewrite (proj2 (Z.ltb_ge _ _)), !(proj2 (Z.leb_gt _ _)) by lia. split; [done|split; [lia|done]].
Qed.

Lemma GetSizeOfCompactSize_length n : GetSizeOfCompactSize n = Z.of_nat (length (WriteCompactSize n)).
Proof. unfold GetSizeOfCompactSize, WriteCompactSize. by repeat zcase. Qed.

(** ** Lemmas: vectors *)

Lemma rd_times_app {A} n m (r : reader A) s :
  rd_times (n + m) r s = (l <~ rd_times n r ;;; l' <~ rd_times m r ;;; rd_ret (l ++ l')) s.
Proof.
  revert s; induction n as [|n IH]; intros s; cbn [rd_times Nat.add].
  - unfold rd_bind, rd_ret. by destruct (rd_times m r s) as [[? ?]|].
  - unfold rd_bind in *. destruct (r s) as [[x t]|]; [|done]. rewrite IH.
    destruct (rd_times n r t) as [[l t']|]; [|done]. unfold rd_ret.
    by destruct (rd_times m r t') as [[? ?]|].
Qed.

Lemma rd_times_length {A} n (r : reader A) s l s' : rd_times n r s = Some (l, s') -> length l = n.
Proof.
  revert s l; induction n as [|n IH]; intros s l; cbn [rd_times].
  - by intros [= <- <-].
  - unfold rd_bind. destruct (r s) as [[x t]|]; [|done].
    destruct (rd_times n r t) as [[l' t']|] eqn:E; [|done]. intros [= <- <-]. cbn. by rewrite (IH _ _ E).
Qed.

Lemma rd_times_RoundTrip {A} (w : A -> list Z) r ok `{RT : RoundTrip A w r ok} v s : Forall ok v ->
  rd_times (length v) r (flat_map w v ++ s) = Some (v, s).
Proof.
  induction 1 as [|a v Ha Hv IH]; [done|]. cbn [rd_times length flat_map]. unfold rd_bind.
  rewrite <- app_assoc, (RT a _ Ha), IH. done.
Qed.

Lemma vresize_grow {A} (d : A) v n : (length v <= Z.to_nat n)%nat -> firstn (length v) (vresize d v n) = v.
Proof.
  intros Hn. unfold vresize. rewrite firstn_firstn, Nat.min_l by done.
  by rewrite take_app_length.
Qed.

(** The chunked loop reads [nSize] elements, whatever the chunk: it needs only
    that the [unsigned int] counter does not wrap. *)
Lemma vector_chunks_eq {A} (d : A) r chunk nSize : 0 < chunk -> nSize + chunk < 2 ^ 32 ->
  forall fuel i v s, 0 <= i <= nSize -> (Z.to_nat (nSize - i) < fuel)%nat -> length v = Z.to_nat i ->
  vector_chunks fuel d r chunk nSize i i v s =
  (l <~ rd_times (Z.to_nat (nSize - i)) r ;;; rd_ret (v ++ l)) s.
Proof.
  intros Hc Hw fuel. induction fuel as [|f IH]; intros i v s Hi Hf Hv; [lia|].
  cbn [vector_chunks]. cbv zeta. destruct (i <? nSize) eqn:E; zbool.
  2:{ replace (nSize - i) with 0 by lia. change (Z.to_nat 0) with O.
      unfold rd_bind. cbn [rd_times]. unfold rd_ret. by rewrite app_nil_r. }
  rewrite u32_small by lia.
  set (j := if i + chunk >? nSize then nSize else i + chunk).
  assert (Hj : i < j <= nSize) by (unfold j; zcase; lia).
  rewrite (proj2 (Z.ltb_lt i j)) by lia. rewrite <- Hv, vresize_grow by lia.
  replace (Z.to_nat (nSize - i)) with (Z.to_nat (j - i) + Z.to_nat (nSize - j))%nat by lia.
  unfold rd_bind. rewrite rd_times_app. unfold rd_bind.
  destruct (rd_times (Z.to_nat (j - i)) r s) as [[l t]|] eqn:El; [|done].
  apply rd_times_length in El. rewrite IH by (rewrite ?length_app; lia).
  unfold rd_bind, rd_ret. destruct (rd_times _ r t) as [[l' t']|]; [|done]. by rewrite app_assoc.
Qed.

Lemma Unserialize_vector_loop_eq {A} (d : A) r sizeofK nSize s :
  0 < sizeofK <= 5000000 -> 0 <= nSize -> nSize + 5000000 < 2 ^ 32 ->
  Unserialize_vector_loop d r sizeofK nSize s = rd_times (Z.to_nat nSize) r s.
Proof.
  intros Hk Hn Hw. unfold Unserialize_vector_loop.
  assert (0 < 5000000 / sizeofK) by (apply Z.div_str_pos; lia).
  assert (5000000 / sizeofK <= 5000000) by (apply Z.div_le_upper_bound; nia).
  rewrite vector_chunks_eq by (cbn; lia). rewrite Z.sub_0_r. unfold rd_bind, rd_ret.
  by destruct (rd_times (Z.to_nat nSize) r s) as [[l t]|].
Qed.

Lemma byte_blocks_eq nSize : forall fuel i s, 0 <= i <= nSize -> (Z.to_nat (nSize - i) < fuel)%nat ->
  byte_blocks fuel nSize i s = rd_bytes (Z.to_nat (nSize - i)) s.
Proof.
  induction fuel as [|f IH]; intros i s Hi Hf; [lia|]. cbn [byte_blocks]. cbv zeta.
  destruct (i <? nSize) eqn:E; zbool; [|by replace (nSize - i) with 0 by lia].
  set (blk := Z.min (nSize - i) (1 + 4999999)). assert (0 < blk <= nSize - i) by lia.
  unfold rd_bind. rewrite !rd_bytes_spec. destruct (Nat.leb_spec (Z.to_nat blk) (length s)).
  - rewrite IH by lia. rewrite rd_bytes_spec, length_skipn. unfold rd_ret.
    destruct (Nat.leb_spec (Z.to_nat (nSize - (i + blk))) (length s - Z.to_nat blk));
      destruct (Nat.leb_spec (Z.to_nat (nSize - i)) (length s)); try lia; [|done].
    f_equal. f_equal; [|rewrite drop_drop; f_equal; lia].
    rewrite <- (firstn_skipn (Z.to_nat blk) (firstn (Z.to_nat (nSize - i)) s)).
    rewrite firstn_firstn, Nat.min_l by lia. f_equal. rewrite skipn_firstn_comm. f_equal. lia.
  - destruct (Nat.leb_spec (Z.to_nat (nSize - i)) (length s)); [lia|done].
Qed.

#[export] Instance compactsizevector_RoundTrip {A} (w : A -> list Z) r ok (d : A) sizeofK :
  RoundTrip w r ok -> 0 < sizeofK <= 5000000 ->
  RoundTrip (Serialize_compactsizevector w) (Unserialize_compactsizevector d r sizeofK)
            (fun v => Z.of_nat (length v) <= MAX_SIZE /\ Forall ok v).
Proof.
  intros RT Hk v s [Hn Hv]. unfold Serialize_compactsizevector, Unserialize_compactsizevector, rd_bind, MAX_SIZE in *.
  rewrite <- app_assoc, (CompactSize_RoundTrip true) by (unfold MAX_SIZE; lia).
  rewrite Unserialize_vector_loop_eq, Nat2Z.id by lia. by apply (rd_times_RoundTrip w r ok).
Qed.

#[export] Instance varintvector_RoundTrip {A} (w : A -> list Z) r ok (d : A) sizeofK :
  RoundTrip w r ok -> 0 < sizeofK <= 5000000 ->
  RoundTrip (Serialize_varintvector w) (Unserialize_varintvector d r sizeofK)
            (fun v => Z.of_nat (length v) + 5000000 < 2 ^ 32 /\ Forall ok v).
Proof.
  intros RT Hk v s [Hn Hv]. unfold Serialize_varintvector, Unserialize_varintvector, rd_bind.
  rewrite <- app_assoc, (VarInt_RoundTrip UINT32_MAX) by (unfold UINT32_MAX; lia).
  rewrite Unserialize_vector_loop_eq, Nat2Z.id by lia. by apply (rd_times_RoundTrip w r ok).
Qed.

#[export] Instance bytes_RoundTrip :
  RoundTrip Serialize_bytes Unserialize_bytes (fun v => Z.of_nat (length v) <= MAX_SIZE).
Proof.
  intros v s Hn. unfold Serialize_bytes, Unserialize_bytes, rd_bind, MAX_SIZE in *.
  rewrite <- app_assoc, (CompactSize_RoundTrip true) by (unfold MAX_SIZE; lia).
  rewrite byte_blocks_eq, Z.sub_0_r, Nat2Z.id by lia. by apply rd_bytes_app.
Qed.

#[export] Instance flatdata_RoundTrip n :
  RoundTrip CFlatData_Serialize (CFlatData_Unserialize n) (fun v => length v = n).
Proof. intros v s Hv. by apply rd_bytes_app. Qed.

#[export] Instance byte_RoundTrip : RoundTrip ser_writedata8 ser_readdata8 (fun b => 0 <= b < 256).
Proof. exact (le_RoundTrip 1). Qed.
#[export] Instance uint32_RoundTrip : RoundTrip ser_writedata32 ser_readdata32 is_u32.
Proof. exact (le_RoundTrip 4). Qed.
#[export] Instance uint64_RoundTrip : RoundTrip ser_writedata64 ser_readdata64 is_u64.
Proof. exact (le_RoundTrip 8). Qed.

#[export] Instance int32_RoundTrip : RoundTrip Serialize_int32 Unserialize_int32 (fun a => - 2 ^ 31 <= a < 2 ^ 31).
Proof.
  intros a s Ha. unfold Serialize_int32, Unserialize_int32, rd_bind. rewrite uint32_RoundTrip by apply u32_range.
  unfold rd_ret, i32, swrap, u32, uwrap. change (32 - 1) with 31. f_equal. f_equal. zdm; lia.
Qed.
#[export] Instance int64_RoundTrip : RoundTrip Serialize_int64 Unserialize_int64 is_i64.
Proof.
  intros a s Ha. unfold Serialize_int64, Unserialize_int64, rd_bind. rewrite uint64_RoundTrip by apply u64_range.
  unfold rd_ret, i64, swrap, u64, uwrap, is_i64 in *. change (64 - 1) with 63. f_equal. f_equal. zdm; lia.
Qed.

#[export] Instance uint32_Canonical : Canonical ser_writedata32 ser_readdata32 is_u32.
Proof. exact (le_Canonical 4). Qed.
#[export] Instance int32_Canonical : Canonical Serialize_int32 Unserialize_int32 (fun a => - 2 ^ 31 <= a < 2 ^ 31).
Proof.
  intros s a s' Hs. unfold Serialize_int32, Unserialize_int32, rd_bind. destruct (ser_readdata32 s) as [[n t]|] eqn:E; [|done].
  intros [= <- <-]. apply (canonical (Canonical := uint32_Canonical)) in E as [-> Hn]; [|done].
  assert (u32 (i32 n) = n) as -> by (unfold i32, swrap, u32, uwrap, is_u32 in *; change (32 - 1) with 31; zdm; lia). split; [done|].
  unfold i32, swrap. change (32 - 1) with 31. zdm; lia.
Qed.
#[export] Instance bytes_Canonical : Canonical Serialize_bytes Unserialize_bytes (fun v => bytes_ok v /\ Z.of_nat (length v) <= MAX_SIZE).
Proof.
  intros s a s' Hs. unfold Serialize_bytes, Unserialize_bytes, rd_bind. destruct (ReadCompactSize true s) as [[n t]|] eqn:E; [|done].
  apply (canonical (Canonical := CompactSize_Canonical true)) in E as [-> [Hn Hm]]; [|done]. specialize (Hm eq_refl).
  rewrite byte_blocks_eq, Z.sub_0_r by lia. intros R. apply rd_bytes_inv in R as [-> L]. rewrite L, Z2Nat.id by lia.
  rewrite <- app_assoc. split; [done|]. apply bytes_ok_app in Hs as [_ Hs]. apply bytes_ok_app in Hs as [Hs _]. split; [done|lia].
Qed.

(** The VarInt types of the source. *)
#[export] Instance varint_i32_RoundTrip : RoundTrip WriteVarInt (ReadVarInt INT32_MAX) (fun n => 0 <= n <= INT32_MAX).
Proof. by apply VarInt_RoundTrip. Qed.
#[export] Instance varint_u32_RoundTrip : RoundTrip WriteVarInt (ReadVarInt UINT32_MAX) (fun n => 0 <= n <= UINT32_MAX).
Proof. by apply VarInt_RoundTrip. Qed.
#[export] Instance varint_i64_RoundTrip : RoundTrip WriteVarInt (ReadVarInt INT64_MAX) (fun n => 0 <= n <= INT64_MAX).
Proof. by apply VarInt_RoundTrip. Qed.
#[export] Instance varint_u64_RoundTrip : RoundTrip WriteVarInt (ReadVarInt UINT64_MAX) (fun n => 0 <= n <= UINT64_MAX).
Proof. by apply VarInt_RoundTrip. Qed.

(** How a client consumes the interface: one rewrite per field. *)
Lemma rd_bind_rt {A B} (w : A -> list Z) (r : reader A) (ok : A -> Prop) `{RT : RoundTrip A w r ok}
  (k : A -> reader B) a s : ok a -> rd_bind r k (w a ++ s) = k a s.
Proof. intros Ha. unfold rd_bind. by rewrite (RT a s Ha). Qed.

Lemma rd_bind_bytes {B} n (k : list Z -> reader B) l s : length l = n -> rd_bind (rd_bytes n) k (l ++ s) = k l s.
Proof. intros Hl. unfold rd_bind. by rewrite rd_bytes_app. Qed.

(** Taking a successful read apart, one field at a time. *)
Lemma rd_bind_Some {A B} (m : reader A) (k : A -> reader B) s b s' : rd_bind m k s = Some (b, s') -> exists a t, m s = Some (a, t) /\ k a t = Some (b, s').
Proof. unfold rd_bind. destruct (m s) as [[a t]|]; [|done]. intros E. by exists a, t. Qed.
Lemma rd_bind_canonical {A B} (w : A -> list Z) (r : reader A) (ok : A -> Prop) `{C : Canonical A w r ok} (k : A -> reader B) s b s' : bytes_ok s ->
  rd_bind r k s = Some (b, s') -> exists a t, s = w a ++ t /\ ok a /\ bytes_ok t /\ k a t = Some (b, s').
Proof.
  intros Hs (a & t & E & K)%rd_bind_Some. apply (C s a t Hs) in E as [-> Ha]. exists a, t. apply bytes_ok_app in Hs as [_ Hs]. by split_and!.
Qed.
Lemma rd_bytes_canonical {B} n (k : list Z -> reader B) s b s' : bytes_ok s -> rd_bind (rd_bytes n) k s = Some (b, s') ->
  exists l t, s = l ++ t /\ length l = n /\ bytes_ok l /\ bytes_ok t /\ k l t = Some (b, s').
Proof. intros Hs (l & t & [-> L]%rd_bytes_inv & K)%rd_bind_Some. apply bytes_ok_app in Hs as [Hl Hs]. exists l, t. by split_and!. Qed.

Lemma rd_bind_ret {A B} (a : A) (k : A -> reader B) s : rd_bind (rd_ret a) k s = k a s.
Proof. done. Qed.

Lemma rd_bind_assoc {A B C} (m : reader A) (f : A -> reader B) (g : B -> reader C) s :
  rd_bind (rd_bind m f) g s = rd_bind m (fun a => rd_bind (f a) g) s.
Proof. unfold rd_bind. by destruct (m s) as [[a t]|]. Qed.

(** The first byte [WriteVarInt] writes for a number from 5 on. *)
Lemma vi_bytes_head first n : 0 <= n < 2 ^ 64 -> (first = true -> 5 <= n) ->
  exists b t, vi_bytes first n = b :: t /\ 5 <= b < 256.
Proof.
  intros Hn. revert first. revert n Hn. refine (vi_bytes_len_ind _ _).
  intros n Hn IH first Hf. rewrite vi_bytes_eq by done. zcase.
  - eexists _, _. split; [done|]. destruct first; [specialize (Hf eq_refl)|]; lia.
  - destruct (IH ltac:(done) false ltac:(done)) as (b & t & -> & Hb). by eexists b, _.
Qed.

(** ** Theorems *)

(** CompactSize and VarInt are bijective encodings of the numbers their
    types hold: reading what was written gives the number back and leaves the
    rest of the stream, and any stream the reader accepts starts with exactly
    the bytes the writer produces for the number returned ("every integer has
    exactly one encoding"). *)
Theorem number_encodings_bijective maxI rc : 0 <= maxI < 2 ^ 64 -> maxI mod 128 = 127 ->
  (forall n s, 0 <= n < 2 ^ 64 -> (rc = true -> n <= MAX_SIZE) ->
     ReadCompactSize rc (WriteCompactSize n ++ s) = Some (n, s)) /\
  (forall n s s', bytes_ok s -> ReadCompactSize rc s = Some (n, s') -> s = WriteCompactSize n ++ s' /\ 0 <= n < 2 ^ 64) /\
  (forall n s, 0 <= n <= maxI -> ReadVarInt maxI (WriteVarInt n ++ s) = Some (n, s)) /\
  (forall n s s', bytes_ok s -> ReadVarInt maxI s = Some (n, s') -> s = WriteVarInt n ++ s' /\ 0 <= n <= maxI).
Proof.
  intros Hmax Hm. split_and!; intros n s.
  - intros. by apply (CompactSize_RoundTrip rc).
  - intros s' Hs E. destruct (CompactSize_Canonical rc s n s' Hs E) as [? [? _]]. done.
  - intros. apply (VarInt_RoundTrip maxI); [lia|done].
  - intros s' Hs E. by apply (VarInt_Canonical maxI).
Qed.

Lemma number_encodings_bijective_witness : ReadVarInt UINT32_MAX (WriteVarInt (2 ^ 32 - 1) ++ [7]) = Some (2 ^ 32 - 1, [7]).
Proof.
  apply (number_encodings_bijective UINT32_MAX true); [split; reflexivity || discriminate|reflexivity|split; discriminate].
Defined.

(** the sizes [GetSizeOfCompactSize] and [GetSizeOfVarInt] predict, which the
    size computer uses in place of writing, are the numbers of bytes written. *)
Theorem predicted_sizes_exact n : 0 <= n ->
  GetSizeOfCompactSize n = Z.of_nat (length (WriteCompactSize n)) /\
  GetSizeOfVarInt n = Z.of_nat (length (WriteVarInt n)).
Proof. intros Hn. split; [apply GetSizeOfCompactSize_length|by apply GetSizeOfVarInt_length]. Qed.

Lemma predicted_sizes_exact_witness : GetSizeOfVarInt 16512 = Z.of_nat (length (WriteVarInt 16512)).
Proof. apply (predicted_sizes_exact 16512). discriminate. Defined.

(** The memory-bounded vector readers are equivalent to reading the announced
    number of elements one after the other: growing the vector in chunks of
    [5000000 / sizeof(K)] elements, or in blocks of at most 5000000 bytes,
    changes neither the result nor the bytes consumed, and the loop ends. *)
Theorem chunked_vector_read_equiv {A} (d : A) (r : reader A) sizeofK nSize s :
  0 < sizeofK <= 5000000 -> 0 <= nSize <= MAX_SIZE ->
  Unserialize_vector_loop d r sizeofK nSize s = rd_times (Z.to_nat nSize) r s /\
  byte_blocks (S (Z.to_nat nSize)) nSize 0 s = rd_bytes (Z.to_nat nSize) s.
Proof.
  unfold MAX_SIZE. intros Hk Hn. split; [apply Unserialize_vector_loop_eq; lia|].
  rewrite byte_blocks_eq by lia. by rewrite Z.sub_0_r.
Qed.

Lemma chunked_vector_read_equiv_witness :
  Unserialize_vector_loop 0 ser_readdata16 2500000 3 [1; 0; 2; 0; 3; 0; 9] = Some ([1; 2; 3], [9]).
Proof.
  destruct (chunked_vector_read_equiv 0 ser_readdata16 2500000 3 [1; 0; 2; 0; 3; 0; 9]) as [H _];
    [split; reflexivity || discriminate|split; discriminate|].
  rewrite H. reflexivity.
Defined.
