(* ===== verification/Compressor.v ===== *)
(** * Compressor: amount and script compression of [src/src/compressor.{h,cpp}]

    [CompressAmount]/[DecompressAmount] at their 64-bit width, the special
    script forms of [CScriptCompressor] and the stream codecs built on them.
    Elliptic-curve point parsing is the vendored library [secp256k1]: its parser
    and its uncompressed serialiser are variables of the section that needs them. *)

From S2P Require Import Prelude Serialize.

(** ** Definitions *)

Definition COIN : Z := 100000000.
Definition MAX_MONEY : Z := 1680000000 * COIN.
Definition MoneyRange (nValue : Z) : bool := (nValue >=? 0) && (nValue <=? MAX_MONEY).

(** *** Amounts *)

(** The loop that strips trailing decimal zeros, at most nine times. *)
Fixpoint strip_zeros (fuel : nat) (n e : Z) : Z * Z :=
  match fuel with
  | O => (n, e)
  | S f => if (n mod 10 =? 0) && (e <? 9) then strip_zeros f (n / 10) (e + 1) else (n, e)
  end.

Definition CompressAmount (n : Z) : Z :=
  if n =? 0 then 0
  else
    let '(n, e) := strip_zeros 9 n 0 in
    if e <? 9 then
      let d := n mod 10 in
      let n := n / 10 in
      u64 (1 + (n * 9 + d - 1) * 10 + e)
    else u64 (1 + (n - 1) * 10 + 9).

Fixpoint mul10 (e : nat) (n : Z) : Z :=
  match e with O => n | S e' => mul10 e' (u64 (n * 10)) end.

Definition DecompressAmount (x : Z) : Z :=
  if x =? 0 then 0
  else
    let x := x - 1 in
    let e := x mod 10 in
    let x := x / 10 in
    let n := if e <? 9 then let d := x mod 9 + 1 in u64 (x / 9 * 10 + d) else u64 (x + 1) in
    mul10 (Z.to_nat e) n.

(** [CAmountCompressor]: the amount is converted to [uint64_t] before compression
    and back to [int64_t] on reading. *)
Definition CAmountCompressor_Serialize (amount : Z) : list Z := WriteVarInt (CompressAmount (u64 amount)).
Definition CAmountCompressor_Unserialize : reader Z :=
  nVal <~ ReadVarInt UINT64_MAX ;;; rd_ret (i64 (DecompressAmount nVal)).

(** *** Scripts *)

Definition OP_DUP : Z := 0x76.
Definition OP_HASH160 : Z := 0xa9.
Definition OP_EQUAL : Z := 0x87.
Definition OP_EQUALVERIFY : Z := 0x88.
Definition OP_CHECKSIG : Z := 0xac.
Definition OP_RETURN : Z := 0x6a.
Definition MAX_SCRIPT_SIZE : Z := 10000.
Definition nSpecialScripts : Z := 6.

Definition byte_at (l : list Z) (i : nat) : Z := nth i l 0.
(** [memcpy] out of [&l[i]] of [n] bytes. *)
Definition slice (l : list Z) (i n : nat) : list Z := firstn n (skipn i l).

Definition IsToKeyID (script : list Z) : option (list Z) :=
  if (length script =? 25)%nat && (byte_at script 0 =? OP_DUP) && (byte_at script 1 =? OP_HASH160)
     && (byte_at script 2 =? 20) && (byte_at script 23 =? OP_EQUALVERIFY) && (byte_at script 24 =? OP_CHECKSIG)
  then Some (slice script 3 20) else None.

Definition IsToScriptID (script : list Z) : option (list Z) :=
  if (length script =? 23)%nat && (byte_at script 0 =? OP_HASH160) && (byte_at script 1 =? 20)
     && (byte_at script 22 =? OP_EQUAL)
  then Some (slice script 2 20) else None.

Definition GetSpecialSize (nSize : Z) : Z :=
  if (nSize =? 0) || (nSize =? 1) then 20
  else if (nSize =? 2) || (nSize =? 3) || (nSize =? 4) || (nSize =? 5) then 32
  else 0.

Section ScriptCompressor.

(** [secp256k1_ec_pubkey_parse] on a serialised key and
    [secp256k1_ec_pubkey_serialize] with [SECP256K1_EC_UNCOMPRESSED]. *)
Context {point : Type}.
Variable ec_pubkey_parse : list Z -> option point.
Variable ec_serialize_uncompressed : point -> list Z.

(** [CPubKey] holding a 33-byte key (header 2 or 3) or a 65-byte key (header 4). *)
Definition CPubKey_IsFullyValid (pubkey : list Z) : bool :=
  match ec_pubkey_parse pubkey with Some _ => true | None => false end.
Definition CPubKey_Decompress (pubkey : list Z) : option (list Z) :=
  match ec_pubkey_parse pubkey with Some p => Some (ec_serialize_uncompressed p) | None => None end.

Definition IsToPubKey (script : list Z) : option (list Z) :=
  if (length script =? 35)%nat && (byte_at script 0 =? 33) && (byte_at script 34 =? OP_CHECKSIG)
     && ((byte_at script 1 =? 2) || (byte_at script 1 =? 3))
  then Some (slice script 1 33)
  else if (length script =? 67)%nat && (byte_at script 0 =? 65) && (byte_at script 66 =? OP_CHECKSIG)
     && (byte_at script 1 =? 4)
  then if CPubKey_IsFullyValid (slice script 1 65) then Some (slice script 1 65) else None
  else None.

Definition Compress (script : list Z) : option (list Z) :=
  match IsToKeyID script with
  | Some keyID => Some (0 :: keyID)
  | None =>
  match IsToScriptID script with
  | Some scriptID => Some (1 :: scriptID)
  | None =>
  match IsToPubKey script with
  | Some pubkey =>
      if (byte_at pubkey 0 =? 2) || (byte_at pubkey 0 =? 3) then Some (byte_at pubkey 0 :: slice pubkey 1 32)
      else if byte_at pubkey 0 =? 4 then Some (Z.lor 4 (Z.land (byte_at pubkey 64) 1) :: slice pubkey 1 32)
      else None
  | None => None
  end end end.

(** [Decompress] into [script]; a failure leaves it as it was. *)
Definition Decompress (nSize : Z) (vin script : list Z) : list Z :=
  if nSize =? 0 then [OP_DUP; OP_HASH160; 20] ++ slice vin 0 20 ++ [OP_EQUALVERIFY; OP_CHECKSIG]
  else if nSize =? 1 then [OP_HASH160; 20] ++ slice vin 0 20 ++ [OP_EQUAL]
  else if (nSize =? 2) || (nSize =? 3) then [33; nSize] ++ slice vin 0 32 ++ [OP_CHECKSIG]
  else if (nSize =? 4) || (nSize =? 5) then
    match CPubKey_Decompress ((nSize - 2) :: slice vin 0 32) with
    | Some pubkey => [65] ++ slice pubkey 0 65 ++ [OP_CHECKSIG]
    | None => script
    end
  else script.

Definition CScriptCompressor_Serialize (script : list Z) : list Z :=
  match Compress script with
  | Some compr => CFlatData_Serialize compr
  | None => WriteVarInt (u32 (Z.of_nat (length script) + nSpecialScripts)) ++ CFlatData_Serialize script
  end.

(** Reads into an object whose script is [script]. *)
Definition CScriptCompressor_Unserialize (script : list Z) : reader (list Z) :=
  nSize <~ ReadVarInt UINT32_MAX ;;;
  if nSize <? nSpecialScripts then
    vch <~ CFlatData_Unserialize (Z.to_nat (GetSpecialSize nSize)) ;;;
    rd_ret (Decompress nSize vch script)
  else
    let nSize := nSize - nSpecialScripts in
    if nSize >? MAX_SCRIPT_SIZE then
      _ <~ rd_bytes (Z.to_nat nSize) ;;; rd_ret (script ++ [OP_RETURN])
    else CFlatData_Unserialize (Z.to_nat nSize).

(** [CTxOutCompressorLegacy] on an amount and a script. *)
Definition CTxOutCompressorLegacy_Serialize (txout : Z * list Z) : list Z :=
  WriteVarInt (CompressAmount (u64 (fst txout))) ++ CScriptCompressor_Serialize (snd txout).
Definition CTxOutCompressorLegacy_Unserialize (script : list Z) : reader (Z * list Z) :=
  nVal <~ ReadVarInt UINT64_MAX ;;;
  s <~ CScriptCompressor_Unserialize script ;;;
  rd_ret (i64 (DecompressAmount nVal), s).

End ScriptCompressor.

(** ** Lemmas: amounts *)

Lemma strip_zeros_spec fuel n e m e' : 0 < n -> 0 <= e <= 9 -> 9 - e <= Z.of_nat fuel ->
  strip_zeros fuel n e = (m, e') ->
  n = m * 10 ^ (e' - e) /\ e <= e' <= 9 /\ 0 < m /\ (e' < 9 -> m mod 10 <> 0).
Proof.
  revert n e. induction fuel as [|f IH]; intros n e Hn He Hf; cbn [strip_zeros].
  - intros [= <- <-]. rewrite Z.sub_diag. lia.
  - destruct ((n mod 10 =? 0) && (e <? 9)) eqn:E.
    + zbool. intros Hs. apply IH in Hs as (H1 & H2 & H3 & H4); [|zdm; lia|lia|lia].
      split_and!; try lia. assert (n = 10 * (n / 10)) by (zdm; lia).
      replace (e' - e) with (Z.succ (e' - (e + 1))) by lia. rewrite Z.pow_succ_r by lia. lia.
    + intros [= <- <-]. rewrite Z.sub_diag. split_and!; lia.
Qed.

Lemma mul10_exact k n : 0 <= n -> n * 10 ^ Z.of_nat k < 2 ^ 64 -> mul10 k n = n * 10 ^ Z.of_nat k.
Proof.
  revert n. induction k as [|k IH]; intros n Hn Hb; cbn [mul10]; [cbn; lia|].
  rewrite Nat2Z.inj_succ, Z.pow_succ_r in * by lia.
  assert (0 < 10 ^ Z.of_nat k) by (apply Z.pow_pos_nonneg; lia).
  rewrite u64_small by nia. rewrite IH; nia.
Qed.

(** The compressed form without the reduction modulo [2^64]. *)
Lemma CompressAmount_exact n : 0 < n < 2 ^ 60 ->
  exists m e, n = m * 10 ^ e /\ 0 <= e <= 9 /\ 0 < m /\ (e < 9 -> m mod 10 <> 0) /\
    CompressAmount n = (if e <? 9 then 1 + (m / 10 * 9 + m mod 10 - 1) * 10 + e else 1 + (m - 1) * 10 + 9).
Proof.
  intros Hn. unfold CompressAmount. rewrite (proj2 (Z.eqb_neq n 0)) by lia.
  destruct (strip_zeros 9 n 0) as [m e] eqn:E.
  apply strip_zeros_spec in E as (H1 & H2 & H3 & H4); try lia. rewrite Z.sub_0_r in H1.
  exists m, e. split_and!; try lia.
  assert (0 < 10 ^ e) by (apply Z.pow_pos_nonneg; lia). assert (m <= n) by nia.
  zcase; rewrite u64_small; try done; [zdm; lia|lia].
Qed.

Lemma DecompressAmount_Compress n : 0 <= n < 2 ^ 60 -> DecompressAmount (CompressAmount n) = n.
Proof.
  intros Hn. destruct (Z.eq_dec n 0) as [->|]; [done|].
  destruct (CompressAmount_exact n ltac:(lia)) as (m & e & H1 & He & Hm & Hd & ->).
  assert (0 < 10 ^ e) by (apply Z.pow_pos_nonneg; lia). assert (m <= n) by nia.
  unfold DecompressAmount. destruct (e <? 9) eqn:He9; zbool.
  - specialize (Hd ltac:(lia)).
    set (q := m / 10) in *. set (d := m mod 10) in *.
    assert (0 <= q /\ 1 <= d <= 9 /\ m = 10 * q + d) as (Hq & Hdr & Hmq) by (unfold q, d in *; zdm; lia).
    rewrite (proj2 (Z.eqb_neq _ 0)) by lia.
    replace (1 + (q * 9 + d - 1) * 10 + e - 1) with (e + (q * 9 + d - 1) * 10) by lia.
    rewrite Z.mod_add, (Z.mod_small e), Z.div_add, (Z.div_small e), Z.add_0_l by lia.
    rewrite (proj2 (Z.ltb_lt e 9)) by lia.
    replace (q * 9 + d - 1) with ((d - 1) + q * 9) by lia.
    rewrite Z.mod_add, (Z.mod_small (d - 1)), Z.div_add, (Z.div_small (d - 1)) by lia.
    rewrite u64_small by lia. rewrite mul10_exact; rewrite ?Z2Nat.id; nia.
  - rewrite (proj2 (Z.eqb_neq _ 0)) by lia.
    replace (1 + (m - 1) * 10 + 9 - 1) with (9 + (m - 1) * 10) by lia.
    rewrite Z.mod_add, (Z.mod_small 9), Z.div_add, (Z.div_small 9), Z.add_0_l by lia.
    change (9 <? 9) with false. cbv iota. replace (m - 1 + 1) with m by lia. rewrite u64_small by lia.
    assert (e = 9) as -> by lia. rewrite mul10_exact; change (Z.of_nat (Z.to_nat 9)) with 9; lia.
Qed.

Lemma CompressAmount_range n : 0 <= CompressAmount n < 2 ^ 64.
Proof.
  unfold CompressAmount. zcase; [lia|]. destruct (strip_zeros 9 n 0) as [m e]. zcase; apply u64_range.
Qed.

Lemma MoneyRange_true n : MoneyRange n = true <-> 0 <= n <= MAX_MONEY.
Proof. unfold MoneyRange. rewrite andb_true_iff, Z.geb_leb, !Z.leb_le. done. Qed.

#[export] Instance CAmountCompressor_RoundTrip :
  RoundTrip CAmountCompressor_Serialize CAmountCompressor_Unserialize (fun n => 0 <= n < 2 ^ 60).
Proof.
  intros n s Hn. unfold CAmountCompressor_Serialize, CAmountCompressor_Unserialize, rd_bind.
  rewrite u64_small by lia. pose proof (CompressAmount_range n).
  rewrite (VarInt_RoundTrip UINT64_MAX) by (unfold UINT64_MAX; lia).
  rewrite DecompressAmount_Compress by done. unfold rd_ret. by rewrite i64_small by lia.
Qed.

(** ** Lemmas: scripts *)

Ltac fixed_bytes l H :=
  apply Nat.eqb_eq in H; repeat (destruct l as [|? l]; [discriminate H|try (injection H as H)]);
  destruct l; [|discriminate H]; unfold byte_at, slice in *; cbn [nth skipn firstn] in *; zbool; subst.

Lemma IsToKeyID_inv script k : IsToKeyID script = Some k ->
  script = [OP_DUP; OP_HASH160; 20] ++ k ++ [OP_EQUALVERIFY; OP_CHECKSIG] /\ length k = 20%nat.
Proof.
  unfold IsToKeyID. zcase; [|done]. intros [= <-].
  match goal with H : (length script =? 25)%nat = true |- _ => fixed_bytes script H end. done.
Qed.

Lemma IsToScriptID_inv script k : IsToScriptID script = Some k ->
  script = [OP_HASH160; 20] ++ k ++ [OP_EQUAL] /\ length k = 20%nat.
Proof.
  unfold IsToScriptID. zcase; [|done]. intros [= <-].
  match goal with H : (length script =? 23)%nat = true |- _ => fixed_bytes script H end. done.
Qed.

Lemma IsToPubKey_inv {point} (parse : list Z -> option point) script k : IsToPubKey parse script = Some k ->
  (exists x, (byte_at k 0 = 2 \/ byte_at k 0 = 3) /\ k = byte_at k 0 :: x /\ length x = 32%nat /\
             script = [33; byte_at k 0] ++ x ++ [OP_CHECKSIG]) \/
  (exists x y p, k = 4 :: x ++ y /\ length x = 32%nat /\ length y = 32%nat /\ parse k = Some p /\
             script = [65] ++ k ++ [OP_CHECKSIG]).
Proof.
  unfold IsToPubKey, CPubKey_IsFullyValid. zcase.
  - intros [= <-]. left. match goal with H : (length script =? 35)%nat = true |- _ => fixed_bytes script H end.
    match goal with H : (_ || _) = true |- _ => apply orb_true_iff in H as [H|H]; zbool; subst end;
      eexists; (split; [first [left; reflexivity|right; reflexivity]|]); split_and!; reflexivity.
  - zcase; [|done]. destruct (parse (slice script 1 65)) as [p|] eqn:Ep; [|done]. intros [= <-]. right.
    match goal with H : (length script =? 67)%nat = true |- _ => fixed_bytes script H end.
    match type of Ep with parse (_ :: ?l) = _ => exists (firstn 32 l), (skipn 32 l), p end. done.
Qed.

Section ScriptRoundTrip.

Context {point : Type}.
Variable parse : list Z -> option point.
Variable serialize_uncompressed : point -> list Z.
(** A parsed uncompressed key serialises to itself, and the compressed form of
    a point (the abscissa under a header with the parity of the ordinate) parses
    to the same point. *)
Hypothesis parse_serialize : forall k p, byte_at k 0 = 4 -> parse k = Some p -> serialize_uncompressed p = k.
Hypothesis parse_compressed : forall x y p, length x = 32%nat -> length y = 32%nat ->
  parse (4 :: x ++ y) = Some p -> parse (2 + byte_at y 31 mod 2 :: x) = Some p.

Lemma slice_all n l : length l = n -> slice l 0 n = l.
Proof. intros <-. unfold slice. cbn [skipn]. apply firstn_all. Qed.

Lemma parity_tag y : Z.lor 4 (Z.land y 1) = 4 + y mod 2.
Proof.
  change (Z.land y 1) with (Z.land y (2 ^ 1 - 1)). rewrite land_mask by lia. change (2 ^ 1) with 2.
  assert (y mod 2 = 0 \/ y mod 2 = 1) as [-> | ->] by (zdm; lia); done.
Qed.

(** [Compress] gives a tag below [nSpecialScripts] and the bytes it announces,
    from which [Decompress] rebuilds the script. *)
Lemma Compress_Decompress script scr0 out : Compress parse script = Some out ->
  exists tag rest, out = tag :: rest /\ 0 <= tag < nSpecialScripts /\
    length rest = Z.to_nat (GetSpecialSize tag) /\ Decompress parse serialize_uncompressed tag rest scr0 = script.
Proof.
  unfold Compress. destruct (IsToKeyID script) as [k|] eqn:E1.
  { intros [= <-]. apply IsToKeyID_inv in E1 as [-> Hk]. exists 0, k. split_and!; try done.
    unfold Decompress. cbn [Z.eqb]. by rewrite slice_all. }
  destruct (IsToScriptID script) as [k|] eqn:E2.
  { intros [= <-]. apply IsToScriptID_inv in E2 as [-> Hk]. exists 1, k. split_and!; try done.
    unfold Decompress. cbn [Z.eqb]. by rewrite slice_all. }
  destruct (IsToPubKey parse script) as [k|] eqn:E3; [|done].
  apply IsToPubKey_inv in E3 as [(x & Ht & Hk & Hx & ->)|(x & y & p & -> & Hx & Hy & Hp & ->)].
  - assert (Hsl : slice k 1 32 = x) by (rewrite Hk; unfold slice; cbn [skipn]; rewrite <- Hx; apply firstn_all).
    rewrite Hsl. unfold Decompress.
    destruct Ht as [Ht|Ht]; rewrite Ht; cbn [Z.eqb orb Pos.eqb]; intros [= <-]; eexists _, x;
      (split; [done|]); cbn [Z.eqb orb Pos.eqb]; rewrite (slice_all 32 x) by done;
      unfold nSpecialScripts; split_and!; first [lia|done].
  - cbn [byte_at nth Z.eqb orb Pos.eqb]. intros [= <-].
    assert (Hb : nth 63 (x ++ y) 0 = byte_at y 31) by (rewrite app_nth2, Hx by lia; done).
    assert (Hsl : slice (4 :: x ++ y) 1 32 = x)
      by (unfold slice; cbn [skipn]; rewrite <- Hx; apply take_app_length).
    rewrite Hsl, Hb, parity_tag. eexists _, x. split; [done|].
    pose proof (parse_compressed x y p Hx Hy Hp) as Hc.
    pose proof (parse_serialize (4 :: x ++ y) p eq_refl Hp) as Hs.
    assert (byte_at y 31 mod 2 = 0 \/ byte_at y 31 mod 2 = 1) as [E|E] by (zdm; lia); rewrite E in *;
      [change (4 + 0) with 4; change (2 + 0) with (4 - 2) in Hc|change (4 + 1) with 5; change (2 + 1) with (5 - 2) in Hc];
      unfold Decompress, CPubKey_Decompress; cbn [Z.eqb orb Pos.eqb];
      rewrite (slice_all 32 x) by done; rewrite Hc, Hs;
      rewrite (slice_all 65) by (cbn [length]; rewrite length_app, Hx, Hy; done);
      unfold nSpecialScripts; split_and!; first [lia|done].
Qed.

Lemma script_roundtrip scr0 script s : Z.of_nat (length script) <= MAX_SCRIPT_SIZE ->
  CScriptCompressor_Unserialize parse serialize_uncompressed scr0 (CScriptCompressor_Serialize parse script ++ s)
  = Some (script, s).
Proof.
  unfold MAX_SCRIPT_SIZE. intros Hlen. unfold CScriptCompressor_Serialize, CScriptCompressor_Unserialize, rd_bind.
  destruct (Compress parse script) as [out|] eqn:E.
  - apply (Compress_Decompress script scr0) in E as (tag & rest & -> & Ht & Hr & Hd).
    unfold nSpecialScripts in Ht. unfold CFlatData_Serialize. cbn [app].
    assert (Hv : ReadVarInt UINT32_MAX (tag :: rest ++ s) = Some (tag, rest ++ s)).
    { assert (WriteVarInt tag = [tag]) as Hw.
      { rewrite WriteVarInt_bytes, vi_bytes_eq, (proj2 (Z.leb_le _ _)), Z.add_0_r by lia. done. }
      rewrite <- (VarInt_RoundTrip UINT32_MAX ltac:(done) tag (rest ++ s)) by (unfold UINT32_MAX; lia). by rewrite Hw. }
    rewrite Hv, (proj2 (Z.ltb_lt _ _)) by (unfold nSpecialScripts; lia).
    unfold CFlatData_Unserialize. rewrite rd_bytes_app by done. unfold rd_ret. by rewrite Hd.
  - unfold nSpecialScripts. rewrite u32_small by lia. rewrite <- app_assoc.
    rewrite (VarInt_RoundTrip UINT32_MAX) by (unfold UINT32_MAX; lia).
    rewrite (proj2 (Z.ltb_ge _ _)) by lia. cbv zeta. rewrite Z.add_simpl_r.
    rewrite Z.gtb_ltb, (proj2 (Z.ltb_ge _ _)) by (unfold MAX_SCRIPT_SIZE; lia).
    rewrite Nat2Z.id. by apply flatdata_RoundTrip.
Qed.

(** ** Theorems *)

(** a compressed output (amount and script) decompresses to itself, for every
    amount in the money range and every script of at most [MAX_SCRIPT_SIZE]
    bytes, whichever of the six special forms or the raw form is chosen. The
    elliptic-curve library is used only through the two facts on point
    compression assumed in this section. *)
Theorem txout_compression_roundtrip scr0 nValue script s :
  MoneyRange nValue = true -> Z.of_nat (length script) <= MAX_SCRIPT_SIZE ->
  CTxOutCompressorLegacy_Unserialize parse serialize_uncompressed scr0
    (CTxOutCompressorLegacy_Serialize parse (nValue, script) ++ s) = Some ((nValue, script), s).
Proof.
  rewrite MoneyRange_true. unfold MAX_MONEY, COIN. intros Hv Hlen.
  unfold CTxOutCompressorLegacy_Unserialize, CTxOutCompressorLegacy_Serialize, rd_bind. cbn [fst snd].
  rewrite <- app_assoc, u64_small by lia. pose proof (CompressAmount_range nValue).
  rewrite (VarInt_RoundTrip UINT64_MAX) by (unfold UINT64_MAX; lia).
  rewrite script_roundtrip by done. rewrite DecompressAmount_Compress by lia.
  unfold rd_ret. by rewrite i64_small by lia.
Qed.

End ScriptRoundTrip.

(** A curve with the single point of abscissa and ordinate zero bytes. *)
Definition toy_parse (k : list Z) : option unit :=
  if decide (k = 4 :: repeat 0 64 \/ k = 2 :: repeat 0 32) then Some tt else None.
Definition toy_serialize (p : unit) : list Z := 4 :: repeat 0 64.

Lemma txout_compression_roundtrip_witness :
  CTxOutCompressorLegacy_Unserialize toy_parse toy_serialize []
    (CTxOutCompressorLegacy_Serialize toy_parse (5 * COIN, 65 :: 4 :: repeat 0 64 ++ [OP_CHECKSIG]) ++ [1; 2])
  = Some ((5 * COIN, 65 :: 4 :: repeat 0 64 ++ [OP_CHECKSIG]), [1; 2]).
Proof.
  apply txout_compression_roundtrip.
  - intros k p Hk. unfold toy_parse. destruct (decide _) as [[-> | ->]|]; [|discriminate Hk|discriminate].
    intros _. reflexivity.
  - intros x y p Hx Hy. unfold toy_parse. destruct (decide (4 :: x ++ y = _ \/ _)) as [[E|E]|]; [|discriminate E|discriminate].
    intros [= <-]. assert (x = repeat 0 32 /\ y = repeat 0 32) as [-> ->].
    { injection E as E. apply (app_inj_1 x (repeat 0 32) y (repeat 0 32)); [exact Hx|exact E]. }
    reflexivity.
  - reflexivity.
  - vm_compute. discriminate.
Defined.

(** [DecompressAmount] inverts [CompressAmount] below [2^60] base units, which
    includes [MAX_MONEY], and the compressed form of such an amount is exact (it
    does not wrap and is less than nine times the amount plus one). *)
Theorem amount_compression_roundtrip n : 0 <= n < 2 ^ 60 ->
  DecompressAmount (CompressAmount n) = n /\ CompressAmount n <= 9 * n + 1.
Proof.
  intros Hn. split; [by apply DecompressAmount_Compress|].
  destruct (Z.eq_dec n 0) as [->|]; [done|].
  destruct (CompressAmount_exact n ltac:(lia)) as (m & e & H1 & He & Hm & Hd & ->).
  assert (1 <= 10 ^ e) by (apply Z.lt_pred_le; cbn; apply Z.pow_pos_nonneg; lia).
  destruct (e <? 9) eqn:E; zbool.
  - assert (e = 0 \/ 10 <= 10 ^ e) as [->|].
    { destruct (Z.eq_dec e 0); [by left|right]. change 10 with (10 ^ 1) at 1. apply Z.pow_le_mono_r; lia. }
    + cbn in H1. zdm; lia.
    + assert (m * 10 <= n) by nia. zdm; lia.
  - assert (e = 9) as -> by lia. lia.
Qed.

Lemma amount_compression_roundtrip_witness : DecompressAmount (CompressAmount MAX_MONEY) = MAX_MONEY.
Proof. apply (amount_compression_roundtrip MAX_MONEY). vm_compute. split; [discriminate|reflexivity]. Defined.
