(* ===== verification/Transaction.v ===== *)
(** * Transaction: the transaction data model of [src/src/primitives/transaction.h]

    Outpoints (a tagged union of a hash and a block position that share their
    storage), inputs with their packed type and flag byte, outputs (script,
    witness and key-hash forms), transactions, and both stream formats: the
    old one (versions below 5) and the flag-byte format. Host byte order is
    little-endian, as on every platform the program is built for. *)

From S2P Require Import Prelude Serialize Compressor.

(** ** Definitions *)

(** [base_blob<BITS>]: a fixed number of bytes. *)
Definition blob_null (n : nat) : list Z := repeat 0 n.
Definition blob_IsNull (b : list Z) : bool := forallb (fun x => x =? 0) b.
(** [memcmp] of two blobs of the same size, as its sign. *)
Fixpoint blob_Compare (a b : list Z) : Z :=
  match a, b with
  | x :: a', y :: b' => if x <? y then -1 else if x >? y then 1 else blob_Compare a' b'
  | _, _ => 0
  end.
Definition blob_eqb (a b : list Z) : bool := blob_Compare a b =? 0.

Definition SEGSIG_ACTIVATION_VERSION : Z := 5.
Definition IsOldTransactionVersion (nVersion : Z) : bool :=
  (u32 nVersion <? 5) || (u32 nVersion =? 536870912).

(** *** Outpoints *)

Definition UINT31_MAX : Z := 2147483647.

Record COutPoint := mkOutPoint {
  op_hash : list Z;   (** the union: 32 bytes, of which [prevBlock] is the first 16 *)
  isHash : bool;
  op_n : Z            (** 31-bit field *)
}.

Definition COutPoint_default : COutPoint := mkOutPoint (blob_null 32) true UINT31_MAX.
Definition COutPoint_ofHash (hashIn : list Z) (nIn : Z) : COutPoint :=
  mkOutPoint hashIn true (uwrap 31 nIn).
(** [prevBlock] as the union member over the bytes of a [COutPoint]. *)
Definition prevBlock_blockNumber (o : COutPoint) : Z := le_val (slice (op_hash o) 0 8).
Definition prevBlock_transactionIndex (o : COutPoint) : Z := le_val (slice (op_hash o) 8 8).
Definition set_prevBlock (o : COutPoint) (blockNumber transactionIndex : Z) : COutPoint :=
  mkOutPoint (le_bytes 8 blockNumber ++ le_bytes 8 transactionIndex ++ skipn 16 (op_hash o)) (isHash o) (op_n o).
Definition COutPoint_ofPosition (blockNumber transactionIndex nIn : Z) : COutPoint :=
  set_prevBlock (mkOutPoint (blob_null 32) false (uwrap 31 nIn)) blockNumber transactionIndex.
Definition setHash (o : COutPoint) (hash_ : list Z) : COutPoint := mkOutPoint hash_ true (op_n o).
Definition COutPoint_SetNull (o : COutPoint) : COutPoint := mkOutPoint (blob_null 32) (isHash o) UINT31_MAX.
Definition COutPoint_IsNull (o : COutPoint) : bool := blob_IsNull (op_hash o) && (op_n o =? UINT31_MAX).

Definition prevBlock_eqb (a b : COutPoint) : bool :=
  (prevBlock_blockNumber a =? prevBlock_blockNumber b) &&
  (prevBlock_transactionIndex a =? prevBlock_transactionIndex b).
Definition prevBlock_ltb (a b : COutPoint) : bool :=
  if negb (prevBlock_blockNumber a =? prevBlock_blockNumber b)
  then prevBlock_blockNumber a <? prevBlock_blockNumber b
  else prevBlock_transactionIndex a <? prevBlock_transactionIndex b.

Definition COutPoint_ltb (a b : COutPoint) : bool :=
  if eqb (isHash a) (isHash b) then
    if isHash a then
      if blob_eqb (op_hash a) (op_hash b) then op_n a <? op_n b else blob_Compare (op_hash a) (op_hash b) <? 0
    else
      if prevBlock_eqb a b then op_n a <? op_n b else prevBlock_ltb a b
  else negb (isHash a) && isHash b.

Definition COutPoint_eqb (a b : COutPoint) : bool :=
  eqb (isHash a) (isHash b) &&
  ((isHash a && blob_eqb (op_hash a) (op_hash b)) || (negb (isHash a) && prevBlock_eqb a b)) &&
  (op_n a =? op_n b).

(** *** Inputs *)

Definition IndexBasedOutpoint : Z := 1.
Definition OptInRBF : Z := 2.
Definition HasAbsoluteLock : Z := 4.
Definition HasTimeBasedRelativeLock : Z := 8.
Definition HasBlockBasedRelativeLock : Z := 16.
Definition HasRelativeLock : Z := Z.lor HasTimeBasedRelativeLock HasBlockBasedRelativeLock.
Definition HasLock : Z := Z.lor HasRelativeLock HasAbsoluteLock.
Definition SEQUENCE_FINAL : Z := 0xffffffff.

(** [COutPoint::ReadFromStream] into [o] and [COutPoint::WriteToStream]. *)
Definition COutPoint_ReadFromStream (o : COutPoint) (nFlags nTransactionVersion : Z) : reader COutPoint :=
  if IsOldTransactionVersion nTransactionVersion then
    hash <~ rd_bytes 32 ;;;
    n_ <~ ser_readdata32 ;;;
    rd_ret (mkOutPoint hash true (uwrap 31 n_))
  else
    o <~ (if Z.land nFlags IndexBasedOutpoint =? 0 then
            hash <~ rd_bytes 32 ;;; rd_ret (mkOutPoint hash true (op_n o))
          else
            blockNumber <~ ReadVarInt UINT64_MAX ;;;
            transactionIndex <~ ReadVarInt UINT64_MAX ;;;
            rd_ret (set_prevBlock (mkOutPoint (op_hash o) false (op_n o)) blockNumber transactionIndex)) ;;;
    n_ <~ ReadVarInt UINT32_MAX ;;;
    rd_ret (mkOutPoint (op_hash o) (isHash o) (uwrap 31 n_)).

Definition COutPoint_WriteToStream (o : COutPoint) (nFlags nTransactionVersion : Z) : list Z :=
  if IsOldTransactionVersion nTransactionVersion then
    op_hash o ++ ser_writedata32 (if op_n o =? UINT31_MAX then UINT32_MAX else op_n o)
  else
    (if Z.land nFlags IndexBasedOutpoint =? 0 then op_hash o
     else WriteVarInt (prevBlock_blockNumber o) ++ WriteVarInt (prevBlock_transactionIndex o))
    ++ WriteVarInt (op_n o).

Record CTxIn := mkTxIn {
  nTypeAndFlags : Z;           (** 3 bits of type, 5 bits of flags *)
  scriptSig : list Z;
  prevout : COutPoint;
  nSequence : Z;
  segregatedSignatureData : list (list Z)  (** the stack *)
}.

Definition CTxIn_default : CTxIn := mkTxIn 0 [] COutPoint_default SEQUENCE_FINAL [].

Definition CTxIn_GetType (i : CTxIn) : Z := Z.shiftr (Z.land (nTypeAndFlags i) 224) 5.
Definition CTxIn_GetFlags (i : CTxIn) : Z := Z.land (nTypeAndFlags i) 31.
Definition FlagIsSet (i : CTxIn) (flag : Z) : bool := negb (Z.land (CTxIn_GetFlags i) flag =? 0).

Definition reset_sequence (i : CTxIn) : CTxIn :=
  if negb (FlagIsSet i HasRelativeLock)
  then mkTxIn (nTypeAndFlags i) (scriptSig i) (prevout i) 0 (segregatedSignatureData i) else i.
Definition with_typeAndFlags (i : CTxIn) (v : Z) : CTxIn :=
  mkTxIn v (scriptSig i) (prevout i) (nSequence i) (segregatedSignatureData i).
Definition SetFlag (i : CTxIn) (flag : Z) : CTxIn :=
  reset_sequence (with_typeAndFlags i (u8 (Z.lor (nTypeAndFlags i) flag))).
Definition UnsetFlag (i : CTxIn) (flag : Z) : CTxIn :=
  reset_sequence (with_typeAndFlags i (u8 (Z.land (nTypeAndFlags i) (Z.lnot flag)))).
Definition GetSequence (i : CTxIn) (nTransactionVersion : Z) : Z :=
  if IsOldTransactionVersion nTransactionVersion || FlagIsSet i HasRelativeLock then nSequence i else 0.
Definition with_sequence (i : CTxIn) (v : Z) : CTxIn :=
  mkTxIn (nTypeAndFlags i) (scriptSig i) (prevout i) v (segregatedSignatureData i).
Definition SetSequence (i : CTxIn) (nSequence_ nTransactionVersion sequenceType : Z) : CTxIn :=
  if IsOldTransactionVersion nTransactionVersion then with_sequence i nSequence_
  else
    let i := SetFlag i sequenceType in
    if FlagIsSet i HasRelativeLock then with_sequence i nSequence_ else i.
Definition with_prevout (i : CTxIn) (o : COutPoint) : CTxIn :=
  mkTxIn (nTypeAndFlags i) (scriptSig i) o (nSequence i) (segregatedSignatureData i).
Definition SetPrevOut (i : CTxIn) (prevout_ : COutPoint) : CTxIn :=
  let i := with_prevout i prevout_ in
  if negb (isHash (prevout i)) then SetFlag i IndexBasedOutpoint else i.
Definition SetPrevOutNull (i : CTxIn) : CTxIn := with_prevout i (COutPoint_SetNull (prevout i)).

(** Scripts are [prevector<28, unsigned char>]. *)
Definition Serialize_script (v : list Z) : list Z := Serialize_bytes v.
Definition Unserialize_script : reader (list Z) := Unserialize_bytes.

(** [CTxIn::ReadFromStream] into the default input. *)
Definition CTxIn_ReadFromStream (nTransactionVersion : Z) : reader CTxIn :=
  let i := CTxIn_default in
  if negb (IsOldTransactionVersion nTransactionVersion) then
    tf <~ ser_readdata8 ;;;
    let i := with_typeAndFlags i tf in
    o <~ COutPoint_ReadFromStream (prevout i) (CTxIn_GetFlags i) nTransactionVersion ;;;
    let i := with_prevout i o in
    if FlagIsSet i HasRelativeLock
    then q <~ ReadVarInt UINT32_MAX ;;; rd_ret (with_sequence i q)
    else rd_ret i
  else
    o <~ COutPoint_ReadFromStream (prevout i) (CTxIn_GetFlags i) nTransactionVersion ;;;
    sc <~ Unserialize_script ;;;
    q <~ ser_readdata32 ;;;
    rd_ret (mkTxIn (nTypeAndFlags i) sc o q (segregatedSignatureData i)).

Definition CTxIn_WriteToStream (nTransactionVersion : Z) (i : CTxIn) : list Z :=
  if negb (IsOldTransactionVersion nTransactionVersion) then
    ser_writedata8 (nTypeAndFlags i)
    ++ COutPoint_WriteToStream (prevout i) (CTxIn_GetFlags i) nTransactionVersion
    ++ (if FlagIsSet i HasRelativeLock then WriteVarInt (nSequence i) else [])
  else
    COutPoint_WriteToStream (prevout i) (CTxIn_GetFlags i) nTransactionVersion
    ++ Serialize_script (scriptSig i) ++ ser_writedata32 (nSequence i).

(** *** Outputs *)

Record CTxOutPoW2Witness := mkWitnessDetails {
  spendingKeyID : list Z;    (** 20 bytes *)
  witnessKeyID : list Z;     (** 20 bytes *)
  lockFromBlock : Z;
  lockUntilBlock : Z;
  failCount : Z;
  actionNonce : Z
}.

Definition CTxOutPoW2Witness_clear : CTxOutPoW2Witness :=
  mkWitnessDetails (blob_null 20) (blob_null 20) 0 0 0 0.

Definition CTxOutPoW2Witness_eqb (a b : CTxOutPoW2Witness) : bool :=
  blob_eqb (spendingKeyID a) (spendingKeyID b) && blob_eqb (witnessKeyID a) (witnessKeyID b) &&
  (lockFromBlock a =? lockFromBlock b) && (lockUntilBlock a =? lockUntilBlock b) &&
  (failCount a =? failCount b) && (actionNonce a =? actionNonce b).

Definition CTxOutPoW2Witness_Serialize (w : CTxOutPoW2Witness) : list Z :=
  spendingKeyID w ++ witnessKeyID w ++ ser_writedata64 (lockFromBlock w) ++ ser_writedata64 (lockUntilBlock w)
  ++ WriteVarInt (failCount w) ++ WriteVarInt (actionNonce w).
Definition CTxOutPoW2Witness_Unserialize : reader CTxOutPoW2Witness :=
  sk <~ rd_bytes 20 ;;; wk <~ rd_bytes 20 ;;; lf <~ ser_readdata64 ;;; lu <~ ser_readdata64 ;;;
  fc <~ ReadVarInt UINT64_MAX ;;; an <~ ReadVarInt UINT64_MAX ;;;
  rd_ret (mkWitnessDetails sk wk lf lu fc an).

(** The tagged union [CTxOut::output]: the three types the source knows, and
    the 5-bit type numbers it has no payload for. *)
Inductive txout_output :=
| ScriptLegacyOutput (scriptPubKey : list Z)
| PoW2WitnessOutput (witnessDetails : CTxOutPoW2Witness)
| StandardKeyHashOutput (keyID : list Z)
| UnknownOutput (nType : Z).

Record CTxOut := mkTxOut { nValue : Z; nValueBase : Z; output : txout_output }.

Definition output_nType (o : txout_output) : Z :=
  match o with
  | ScriptLegacyOutput _ => 0 | PoW2WitnessOutput _ => 31 | StandardKeyHashOutput _ => 30
  | UnknownOutput t => t
  end.
(** [SetType]: delete the payload, set the type, allocate a default payload. *)
Definition output_SetType (t : Z) : txout_output :=
  if t =? 0 then ScriptLegacyOutput []
  else if t =? 31 then PoW2WitnessOutput CTxOutPoW2Witness_clear
  else if t =? 30 then StandardKeyHashOutput (blob_null 20)
  else UnknownOutput t.
Definition CTxOut_default : CTxOut := mkTxOut (-1) 0 (ScriptLegacyOutput []).
Definition CTxOut_IsNull (o : CTxOut) : bool := nValue o =? -1.
Definition script_IsUnspendable (s : list Z) : bool :=
  ((0 <? Z.of_nat (length s)) && (byte_at s 0 =? OP_RETURN)) || (Z.of_nat (length s) >? MAX_SCRIPT_SIZE).
Definition CTxOut_IsUnspendable (o : CTxOut) : bool :=
  match output o with ScriptLegacyOutput s => script_IsUnspendable s | _ => false end.

Definition output_eqb (a b : txout_output) : bool :=
  match a, b with
  | ScriptLegacyOutput x, ScriptLegacyOutput y => bool_decide (x = y)
  | PoW2WitnessOutput x, PoW2WitnessOutput y => CTxOutPoW2Witness_eqb x y
  | StandardKeyHashOutput x, StandardKeyHashOutput y => blob_eqb x y
  | _, _ => false
  end.
Definition CTxOut_eqb (a b : CTxOut) : bool := (nValue a =? nValue b) && output_eqb (output a) (output b).

Definition output_WriteToStream (o : txout_output) : list Z :=
  match o with
  | ScriptLegacyOutput s => Serialize_script s
  | PoW2WitnessOutput w => CTxOutPoW2Witness_Serialize w
  | StandardKeyHashOutput k => k
  | UnknownOutput _ => []
  end.
(** Reads the payload of the type already set in [o]. *)
Definition output_ReadFromStream (o : txout_output) : reader txout_output :=
  match o with
  | ScriptLegacyOutput _ => s <~ Unserialize_script ;;; rd_ret (ScriptLegacyOutput s)
  | PoW2WitnessOutput _ => w <~ CTxOutPoW2Witness_Unserialize ;;; rd_ret (PoW2WitnessOutput w)
  | StandardKeyHashOutput _ => k <~ rd_bytes 20 ;;; rd_ret (StandardKeyHashOutput k)
  | UnknownOutput t => rd_ret (UnknownOutput t)
  end.

(** The decimal base chosen for a value, and the factor each base stands for. *)
Definition value_base (nValue : Z) : Z :=
  if Z.rem nValue 1000000000000 =? 0 then 7
  else if Z.rem nValue 10000000000 =? 0 then 6
  else if Z.rem nValue 100000000 =? 0 then 5
  else if Z.rem nValue 10000000 =? 0 then 4
  else if Z.rem nValue 1000000 =? 0 then 3
  else if Z.rem nValue 10000 =? 0 then 2
  else if Z.rem nValue 100 =? 0 then 1
  else 0.
Definition base_factor (b : Z) : Z :=
  if b =? 7 then 1000000000000 else if b =? 6 then 10000000000 else if b =? 5 then 100000000
  else if b =? 4 then 10000000 else if b =? 3 then 1000000 else if b =? 2 then 10000
  else if b =? 1 then 100 else 1.

(** [None]: the assertion that an old-format output has a script. *)
Definition CTxOut_WriteToStream (nTransactionVersion : Z) (o : CTxOut) : option (list Z) :=
  if IsOldTransactionVersion nTransactionVersion then
    if output_nType (output o) =? 0
    then Some (Serialize_int64 (nValue o) ++ output_WriteToStream (output o)) else None
  else
    let b := value_base (nValue o) in
    let nValueWrite := Z.quot (nValue o) (base_factor b) in
    let nTypeAndValueBase := Z.lor (u8 (Z.shiftl (output_nType (output o)) 3)) b in
    Some (ser_writedata8 nTypeAndValueBase ++ WriteVarInt nValueWrite ++ output_WriteToStream (output o)).

(** Reads into the default output; the multiplication is on [int64_t]. *)
Definition CTxOut_ReadFromStream (nTransactionVersion : Z) : reader CTxOut :=
  if IsOldTransactionVersion nTransactionVersion then
    v <~ Unserialize_int64 ;;;
    o <~ output_ReadFromStream (output CTxOut_default) ;;;
    rd_ret (mkTxOut v 0 o)
  else
    tb <~ ser_readdata8 ;;;
    let base := Z.land tb 7 in
    let o := output_SetType (Z.shiftr (Z.land tb 248) 3) in
    v <~ ReadVarInt INT64_MAX ;;;
    let v := i64 (v * base_factor base) in
    o <~ output_ReadFromStream o ;;;
    rd_ret (mkTxOut v base o).

(** *** Transactions *)

Record CTransaction := mkTx {
  nVersion : Z;
  vin : list CTxIn;
  vout : list CTxOut;
  nLockTime : Z;
  flags : Z;        (** [std::bitset<8>] *)
  extraFlags : Z
}.

Definition HasOneInput : Z := 0.
Definition HasTwoInputs : Z := 1.
Definition HasThreeInputs : Z := 2.
Definition HasOneOutput : Z := 3.
Definition HasTwoOutputs : Z := 4.
Definition HasThreeOutputs : Z := 5.
Definition HasLockTime : Z := 6.
Definition HasExtraFlags : Z := 7.

(** [bitset::set(pos, b)] *)
Definition bitset_set (pos : Z) (b : bool) (f : Z) : Z :=
  if b then Z.lor f (2 ^ pos) else Z.land f (Z.lnot (2 ^ pos)).

(** The flags [SerializeTransaction] stores in the transaction before writing. *)
Definition setup_flags (tx : CTransaction) : Z :=
  let ni := Z.of_nat (length (vin tx)) in
  let no := Z.of_nat (length (vout tx)) in
  let f := flags tx in
  let f := bitset_set HasThreeInputs (ni =? 3) (bitset_set HasTwoInputs (ni =? 2) (bitset_set HasOneInput (ni =? 1) f)) in
  let f := bitset_set HasThreeOutputs (no =? 3) (bitset_set HasTwoOutputs (no =? 2) (bitset_set HasOneOutput (no =? 1) f)) in
  let f := bitset_set HasLockTime false f in
  if nLockTime tx >? 0 then bitset_set HasLockTime true f else f.

(** Concatenation of fallible writers. *)
Fixpoint opt_flat_map {A} (w : A -> option (list Z)) (l : list A) : option (list Z) :=
  match l with
  | [] => Some []
  | a :: l' => match w a, opt_flat_map w l' with Some x, Some y => Some (x ++ y) | _, _ => None end
  end.

Definition SerializeTransactionOld (tx : CTransaction) : option (list Z) :=
  match opt_flat_map (CTxOut_WriteToStream (nVersion tx)) (vout tx) with
  | Some outs =>
      Some (Serialize_int32 (nVersion tx)
            ++ WriteCompactSize (Z.of_nat (length (vin tx))) ++ flat_map (CTxIn_WriteToStream (nVersion tx)) (vin tx)
            ++ WriteCompactSize (Z.of_nat (length (vout tx))) ++ outs
            ++ ser_writedata32 (nLockTime tx))
  | None => None
  end.

Definition Serialize_stack (st : list (list Z)) : list Z := Serialize_varintvector (Serialize_varintvector ser_writedata8) st.
Definition Unserialize_stack : reader (list (list Z)) :=
  Unserialize_varintvector [] (Unserialize_varintvector 0 ser_readdata8 1) 1.

(** [segsig]: the stream version lacks [SERIALIZE_TRANSACTION_NO_SEGREGATED_SIGNATURES]. *)
Definition SerializeTransaction (segsig : bool) (tx : CTransaction) : option (list Z) :=
  if IsOldTransactionVersion (nVersion tx) then SerializeTransactionOld tx
  else
    let f := setup_flags tx in
    let flag := Z.testbit f in
    match opt_flat_map (CTxOut_WriteToStream (nVersion tx)) (vout tx) with
    | Some outs =>
        Some (WriteVarInt (nVersion tx)
              ++ ser_writedata8 f
              ++ (if flag HasExtraFlags then ser_writedata8 (extraFlags tx) else [])
              ++ (if negb (flag HasOneInput || flag HasTwoInputs || flag HasThreeInputs)
                  then WriteVarInt (Z.of_nat (length (vin tx))) else [])
              ++ flat_map (CTxIn_WriteToStream (nVersion tx)) (vin tx)
              ++ (if negb (flag HasOneOutput) && negb (flag HasTwoOutputs) && negb (flag HasThreeOutputs)
                  then WriteVarInt (Z.of_nat (length (vout tx))) else [])
              ++ outs
              ++ (if segsig then flat_map (fun i => Serialize_stack (segregatedSignatureData i)) (vin tx) else [])
              ++ (if flag HasLockTime then WriteVarInt (nLockTime tx) else []))
    | None => None
    end.

(** Reading into a freshly constructed transaction. *)
Definition UnserializeTransactionOld : reader CTransaction :=
  v <~ Unserialize_int32 ;;;
  ni <~ ReadCompactSize true ;;;
  ins <~ rd_times (Z.to_nat ni) (CTxIn_ReadFromStream v) ;;;
  no <~ ReadCompactSize true ;;;
  outs <~ rd_times (Z.to_nat no) (CTxOut_ReadFromStream v) ;;;
  lt <~ ser_readdata32 ;;;
  rd_ret (mkTx v ins outs lt 0 0).

(** [STRPEEK] of a 4-byte integer: the stream is left unchanged. *)
Definition peek_int32 : reader Z :=
  fun s => match Unserialize_int32 s with Some (v, _) => Some (v, s) | None => None end.

Fixpoint read_stacks (ins : list CTxIn) : reader (list CTxIn) :=
  match ins with
  | [] => rd_ret []
  | i :: ins' =>
      st <~ Unserialize_stack ;;;
      l <~ read_stacks ins' ;;;
      rd_ret (mkTxIn (nTypeAndFlags i) (scriptSig i) (prevout i) (nSequence i) st :: l)
  end.

Definition UnserializeTransactionNew (segsig : bool) : reader CTransaction :=
  v <~ ReadVarInt INT32_MAX ;;;
  f <~ ser_readdata8 ;;;
  let flag := Z.testbit f in
  ef <~ (if flag HasExtraFlags then ser_readdata8 else rd_ret 0) ;;;
  ni <~ (if flag HasOneInput then rd_ret 1 else if flag HasTwoInputs then rd_ret 2
         else if flag HasThreeInputs then rd_ret 3 else ReadVarInt INT32_MAX) ;;;
  ins <~ rd_times (Z.to_nat ni) (CTxIn_ReadFromStream v) ;;;
  no <~ (if flag HasOneOutput then rd_ret 1 else if flag HasTwoOutputs then rd_ret 2
         else if flag HasThreeOutputs then rd_ret 3 else ReadVarInt UINT64_MAX) ;;;
  outs <~ rd_times (Z.to_nat no) (CTxOut_ReadFromStream v) ;;;
  ins <~ (if segsig then read_stacks ins else rd_ret ins) ;;;
  lt <~ (if flag HasLockTime then ReadVarInt UINT32_MAX else rd_ret 0) ;;;
  rd_ret (mkTx v ins outs lt f ef).

Definition UnserializeTransaction (segsig : bool) : reader CTransaction :=
  v <~ peek_int32 ;;;
  if IsOldTransactionVersion v then UnserializeTransactionOld else UnserializeTransactionNew segsig.

Definition IsPoW2WitnessCoinBase (tx : CTransaction) : bool :=
  (length (vin tx) =? 2)%nat && match vin tx with i :: _ => COutPoint_IsNull (prevout i) | [] => false end.
Definition IsCoinBase (tx : CTransaction) : bool :=
  ((length (vin tx) =? 1)%nat && match vin tx with i :: _ => COutPoint_IsNull (prevout i) | [] => false end)
  || IsPoW2WitnessCoinBase tx.
Definition IsNull_tx (tx : CTransaction) : bool :=
  match vin tx, vout tx with [], [] => true | _, _ => false end.
Definition HasSegregatedSignatures (tx : CTransaction) : bool :=
  existsb (fun i => negb (match segregatedSignatureData i with [] => true | _ => false end)) (vin tx).

(** [GetValueOut]: [None] is the thrown "value out of range". *)
Fixpoint GetValueOut_loop (outs : list CTxOut) (nValueOut : Z) : option Z :=
  match outs with
  | [] => Some nValueOut
  | o :: outs' =>
      if nValue o >? 0 then
        let nValueOut := i64 (nValueOut + nValue o) in
        if negb (MoneyRange (nValue o)) || negb (MoneyRange nValueOut) then None
        else GetValueOut_loop outs' nValueOut
      else GetValueOut_loop outs' nValueOut
  end.
Definition GetValueOut (tx : CTransaction) : option Z := GetValueOut_loop (vout tx) 0.

(** ** What the formats carry *)

(** The object a fresh parse of the written bytes yields: the fields the format
    does not carry have their default values. *)
Definition canon_outpoint (ver fl : Z) (o : COutPoint) : COutPoint :=
  if IsOldTransactionVersion ver || (Z.land fl IndexBasedOutpoint =? 0) then mkOutPoint (op_hash o) true (op_n o)
  else mkOutPoint (firstn 16 (op_hash o) ++ repeat 0 16) false (op_n o).
Definition canon_in (segsig : bool) (ver : Z) (i : CTxIn) : CTxIn :=
  if IsOldTransactionVersion ver then
    mkTxIn 0 (scriptSig i) (canon_outpoint ver 0 (prevout i)) (nSequence i) []
  else
    mkTxIn (nTypeAndFlags i) [] (canon_outpoint ver (CTxIn_GetFlags i) (prevout i))
      (if FlagIsSet i HasRelativeLock then nSequence i else SEQUENCE_FINAL)
      (if segsig then segregatedSignatureData i else []).
Definition canon_out (ver : Z) (o : CTxOut) : CTxOut :=
  mkTxOut (nValue o) (if IsOldTransactionVersion ver then 0 else value_base (nValue o)) (output o).
Definition canon_tx (segsig : bool) (tx : CTransaction) : CTransaction :=
  let old := IsOldTransactionVersion (nVersion tx) in
  mkTx (nVersion tx) (map (canon_in segsig (nVersion tx)) (vin tx)) (map (canon_out (nVersion tx)) (vout tx))
       (nLockTime tx) (if old then 0 else setup_flags tx)
       (if old then 0 else if Z.testbit (setup_flags tx) HasExtraFlags then extraFlags tx else 0).

(** The ranges of the C++ types, and the size limits of the readers. *)
Definition outpoint_ok (o : COutPoint) : Prop :=
  length (op_hash o) = 32%nat /\ bytes_ok (op_hash o) /\ 0 <= op_n o < 2 ^ 31.
Definition stack_ok (st : list (list Z)) : Prop :=
  Z.of_nat (length st) + 5000000 < 2 ^ 32 /\
  Forall (fun e => Z.of_nat (length e) + 5000000 < 2 ^ 32 /\ Forall (fun b => 0 <= b < 256) e) st.
Definition in_ok (i : CTxIn) : Prop :=
  is_u8 (nTypeAndFlags i) /\ Z.of_nat (length (scriptSig i)) <= MAX_SIZE /\ outpoint_ok (prevout i) /\
  is_u32 (nSequence i) /\ stack_ok (segregatedSignatureData i).
Definition witness_ok (w : CTxOutPoW2Witness) : Prop :=
  length (spendingKeyID w) = 20%nat /\ length (witnessKeyID w) = 20%nat /\ is_u64 (lockFromBlock w) /\
  is_u64 (lockUntilBlock w) /\ is_u64 (failCount w) /\ is_u64 (actionNonce w).
Definition payload_ok (o : txout_output) : Prop :=
  match o with
  | ScriptLegacyOutput s => Z.of_nat (length s) <= MAX_SIZE
  | PoW2WitnessOutput w => witness_ok w
  | StandardKeyHashOutput k => length k = 20%nat
  | UnknownOutput t => 0 < t < 30
  end.
Definition out_ok (ver : Z) (o : CTxOut) : Prop :=
  payload_ok (output o) /\
  (if IsOldTransactionVersion ver then is_i64 (nValue o) /\ output_nType (output o) = 0 else 0 <= nValue o < 2 ^ 63).
Definition tx_ok (tx : CTransaction) : Prop :=
  - 2 ^ 31 <= nVersion tx < 2 ^ 31 /\ (IsOldTransactionVersion (nVersion tx) = false -> 0 <= nVersion tx) /\
  Z.of_nat (length (vin tx)) <= MAX_SIZE /\ Forall in_ok (vin tx) /\
  Z.of_nat (length (vout tx)) <= MAX_SIZE /\ Forall (out_ok (nVersion tx)) (vout tx) /\
  is_u32 (nLockTime tx) /\ is_u8 (flags tx) /\ is_u8 (extraFlags tx).

(** ** Lemmas: outpoints and inputs *)

Lemma length_slice h i n : (i + n <= length h)%nat -> length (slice h i n) = n.
Proof. intros. unfold slice. rewrite length_firstn, length_skipn. lia. Qed.

Lemma slice_bytes_ok h i n : bytes_ok h -> bytes_ok (slice h i n).
Proof. intros. unfold slice. by apply Forall_take, Forall_drop. Qed.

Lemma slice_le_bytes h i : bytes_ok h -> (i + 8 <= length h)%nat -> le_bytes 8 (le_val (slice h i 8)) = slice h i 8.
Proof.
  intros Hb Hl. rewrite <- (le_bytes_val (slice h i 8)) at 2 by (by apply slice_bytes_ok).
  by rewrite length_slice.
Qed.

Lemma slice_u64 h i : bytes_ok h -> (i + 8 <= length h)%nat -> 0 <= le_val (slice h i 8) <= UINT64_MAX.
Proof.
  intros Hb Hl. pose proof (le_val_fits _ (slice_bytes_ok h i 8 Hb)) as Hs. rewrite length_slice in Hs by done.
  unfold fits in Hs. unfold UINT64_MAX. cbn in *. lia.
Qed.

Lemma outpoint_roundtrip ver fl o s : outpoint_ok o ->
  COutPoint_ReadFromStream COutPoint_default fl ver (COutPoint_WriteToStream o fl ver ++ s)
  = Some (canon_outpoint ver fl o, s).
Proof.
  intros (Hl & Hb & Hn). unfold COutPoint_ReadFromStream, COutPoint_WriteToStream, canon_outpoint.
  assert (Hw : uwrap 31 (op_n o) = op_n o) by (apply uwrap_small; lia).
  destruct (IsOldTransactionVersion ver); cbn [orb].
  - rewrite <- app_assoc, rd_bind_bytes by done. rewrite (rd_bind_rt ser_writedata32 ser_readdata32 is_u32)
      by (unfold is_u32, UINT32_MAX; zcase; lia).
    unfold rd_ret. zcase; [|by rewrite Hw]. rewrite Heqb. done.
  - destruct (Z.land fl IndexBasedOutpoint =? 0).
    + rewrite <- app_assoc, rd_bind_assoc, rd_bind_bytes, rd_bind_ret by done.
      rewrite (rd_bind_rt WriteVarInt (ReadVarInt UINT32_MAX) _) by (unfold UINT32_MAX; lia).
      cbn [op_hash isHash op_n]. by rewrite Hw.
    + rewrite <- !app_assoc. rewrite rd_bind_assoc.
      rewrite (rd_bind_rt WriteVarInt (ReadVarInt UINT64_MAX) _) by (apply slice_u64; [done|lia]).
      rewrite rd_bind_assoc.
      rewrite (rd_bind_rt WriteVarInt (ReadVarInt UINT64_MAX) _) by (apply slice_u64; [done|lia]).
      rewrite rd_bind_ret, (rd_bind_rt WriteVarInt (ReadVarInt UINT32_MAX) _) by (unfold UINT32_MAX; lia).
      unfold rd_ret, set_prevBlock, prevBlock_blockNumber, prevBlock_transactionIndex. cbn [op_hash isHash op_n].
      rewrite Hw, !slice_le_bytes by (done || lia). f_equal. f_equal. f_equal.
      rewrite app_assoc. f_equal. unfold slice. cbn [skipn].
      rewrite <- (firstn_skipn 8 (firstn 16 (op_hash o))), firstn_firstn, skipn_firstn_comm. done.
Qed.

(** Reading a written list through a reader that normalises its elements. *)
Lemma rd_times_canon {A} (w : A -> list Z) (r : reader A) (c : A -> A) (ok : A -> Prop) v s :
  (forall a s, ok a -> r (w a ++ s) = Some (c a, s)) -> Forall ok v ->
  rd_times (length v) r (flat_map w v ++ s) = Some (map c v, s).
Proof.
  intros H. induction 1 as [|a v Ha Hv IH]; [done|].
  cbn [rd_times length flat_map map]. unfold rd_bind. by rewrite <- app_assoc, H, IH.
Qed.

Lemma in_roundtrip ver i s : in_ok i ->
  CTxIn_ReadFromStream ver (CTxIn_WriteToStream ver i ++ s) = Some (canon_in false ver i, s).
Proof.
  intros (Htf & Hsc & Ho & Hq & _). unfold CTxIn_ReadFromStream, CTxIn_WriteToStream, canon_in.
  destruct (IsOldTransactionVersion ver) eqn:Hv; cbn [negb].
  - rewrite <- !app_assoc. unfold rd_bind at 1.
    assert (Hf : CTxIn_GetFlags CTxIn_default = 0) by done.
    assert (Hw : COutPoint_WriteToStream (prevout i) (CTxIn_GetFlags i) ver = COutPoint_WriteToStream (prevout i) 0 ver)
      by (unfold COutPoint_WriteToStream; by rewrite Hv).
    rewrite Hf, Hw. change (prevout CTxIn_default) with COutPoint_default. rewrite outpoint_roundtrip by done.
    unfold Unserialize_script, Serialize_script.
    rewrite (rd_bind_rt Serialize_bytes Unserialize_bytes _) by done.
    by rewrite (rd_bind_rt ser_writedata32 ser_readdata32 _).
  - rewrite <- !app_assoc. rewrite (rd_bind_rt ser_writedata8 ser_readdata8 _) by exact Htf. cbv zeta.
    assert (Hf : CTxIn_GetFlags (with_typeAndFlags CTxIn_default (nTypeAndFlags i)) = CTxIn_GetFlags i) by done.
    rewrite Hf. change (prevout (with_typeAndFlags _ _)) with COutPoint_default.
    unfold rd_bind at 1. rewrite outpoint_roundtrip by done.
    match goal with |- context [FlagIsSet (with_prevout ?a ?b) HasRelativeLock] =>
      change (FlagIsSet (with_prevout a b) HasRelativeLock) with (FlagIsSet i HasRelativeLock) end.
    destruct (FlagIsSet i HasRelativeLock); [|done].
    rewrite (rd_bind_rt WriteVarInt (ReadVarInt UINT32_MAX) _) by (unfold is_u32, UINT32_MAX in *; lia). done.
Qed.

Lemma stack_roundtrip st s : stack_ok st -> Unserialize_stack (Serialize_stack st ++ s) = Some (st, s).
Proof.
  intros Hst. unfold Unserialize_stack, Serialize_stack.
  exact (varintvector_RoundTrip _ _ _ [] 1 (varintvector_RoundTrip _ _ _ 0 1 byte_RoundTrip ltac:(lia)) ltac:(lia) st s Hst).
Qed.

Lemma stacks_roundtrip ver ins s : IsOldTransactionVersion ver = false -> Forall in_ok ins ->
  read_stacks (map (canon_in false ver) ins) (flat_map (fun i => Serialize_stack (segregatedSignatureData i)) ins ++ s)
  = Some (map (canon_in true ver) ins, s).
Proof.
  intros Hv. induction 1 as [|i ins (_ & _ & _ & _ & Hst) Hins IH]; [done|].
  cbn [read_stacks map flat_map]. rewrite <- app_assoc. unfold rd_bind. rewrite stack_roundtrip, IH by done.
  unfold rd_ret, canon_in. by rewrite Hv.
Qed.

(** ** Lemmas: outputs *)

#[export] Instance witness_RoundTrip :
  RoundTrip CTxOutPoW2Witness_Serialize CTxOutPoW2Witness_Unserialize witness_ok.
Proof.
  intros w s (H1 & H2 & H3 & H4 & H5 & H6). unfold CTxOutPoW2Witness_Serialize, CTxOutPoW2Witness_Unserialize, is_u64 in *.
  rewrite <- !app_assoc, !rd_bind_bytes by done.
  rewrite !(rd_bind_rt ser_writedata64 ser_readdata64 _) by done.
  rewrite !(rd_bind_rt WriteVarInt (ReadVarInt UINT64_MAX) _) by (unfold UINT64_MAX; lia). by destruct w.
Qed.

Lemma payload_roundtrip o s : payload_ok o ->
  output_ReadFromStream (output_SetType (output_nType o)) (output_WriteToStream o ++ s) = Some (o, s).
Proof.
  destruct o as [sc|w|k|t]; cbn [payload_ok output_nType output_WriteToStream]; intros H.
  - change (output_SetType 0) with (ScriptLegacyOutput []). cbn [output_ReadFromStream].
    unfold Unserialize_script, Serialize_script. by rewrite (rd_bind_rt Serialize_bytes Unserialize_bytes _).
  - change (output_SetType 31) with (PoW2WitnessOutput CTxOutPoW2Witness_clear). cbn [output_ReadFromStream].
    by rewrite (rd_bind_rt CTxOutPoW2Witness_Serialize CTxOutPoW2Witness_Unserialize _).
  - change (output_SetType 30) with (StandardKeyHashOutput (blob_null 20)). cbn [output_ReadFromStream].
    by rewrite rd_bind_bytes.
  - unfold output_SetType. by rewrite !(proj2 (Z.eqb_neq t _)) by lia.
Qed.

Lemma value_base_range v : 0 <= value_base v <= 7.
Proof. unfold value_base. repeat zcase; lia. Qed.

Lemma value_base_exact v : 0 <= v ->
  Z.quot v (base_factor (value_base v)) * base_factor (value_base v) = v /\
  0 <= Z.quot v (base_factor (value_base v)) <= v.
Proof.
  intros Hv. pose proof (Z.rem_1_r v). unfold value_base. repeat zcase; cbn [base_factor Z.eqb Pos.eqb];
    match goal with |- context [Z.quot v ?k] =>
      pose proof (Z.quot_rem' v k); pose proof (Z.quot_pos v k Hv ltac:(lia)) end; lia.
Qed.

(** The packed type and value-base byte. *)
Lemma type_base_byte t b : 0 <= t < 32 -> 0 <= b <= 7 ->
  Z.lor (u8 (Z.shiftl t 3)) b = t * 8 + b /\
  Z.land (t * 8 + b) 7 = b /\ Z.shiftr (Z.land (t * 8 + b) 248) 3 = t.
Proof.
  intros Ht Hb. rewrite shiftl_mul, u8_small, Z.lor_comm by lia. change 8 with (2 ^ 3).
  rewrite lor_disjoint by lia. split; [lia|]. change 7 with (2 ^ 3 - 1). rewrite land_mask by lia.
  split; [rewrite Z.add_comm, Z.mod_add, Z.mod_small by lia; done|].
  rewrite Z.shiftr_land. change (Z.shiftr 248 3) with (2 ^ 5 - 1). rewrite land_mask, shiftr_div by lia.
  rewrite Z.div_add_l, (Z.div_small b), Z.add_0_r, Z.mod_small by lia. done.
Qed.

Lemma payload_type o : payload_ok o -> 0 <= output_nType o < 32.
Proof. destruct o; cbn; lia. Qed.

Lemma out_roundtrip ver o : out_ok ver o ->
  exists bs, CTxOut_WriteToStream ver o = Some bs /\ (2 <= length bs)%nat /\
             forall s, CTxOut_ReadFromStream ver (bs ++ s) = Some (canon_out ver o, s).
Proof.
  intros [Hp Hv]. unfold CTxOut_WriteToStream, CTxOut_ReadFromStream, canon_out.
  destruct (IsOldTransactionVersion ver).
  - destruct Hv as [Hv Ht]. rewrite Ht. cbn [Z.eqb]. eexists. split; [done|]. split.
    { rewrite length_app. unfold Serialize_int64, ser_writedata64. rewrite length_le_bytes. lia. }
    intros s. rewrite <- app_assoc, (rd_bind_rt Serialize_int64 Unserialize_int64 _) by done.
    pose proof (payload_roundtrip (output o) s Hp) as Hr. rewrite Ht in Hr.
    unfold rd_bind. change (output CTxOut_default) with (output_SetType 0). by rewrite Hr.
  - eexists. split; [done|]. pose proof (payload_type _ Hp) as Ht. pose proof (value_base_range (nValue o)) as Hb.
    destruct (type_base_byte _ _ Ht Hb) as (E1 & E2 & E3). destruct (value_base_exact (nValue o)) as [Ev Hq]; [lia|].
    rewrite E1. split.
    { rewrite !length_app. unfold ser_writedata8. rewrite length_le_bytes.
      rewrite WriteVarInt_bytes by lia. destruct (vi_bytes true _) eqn:E; cbn [length]; [|lia].
      rewrite vi_bytes_eq in E by lia. zcase; [done|]. by destruct (vi_bytes false _). }
    intros s. rewrite <- !app_assoc, (rd_bind_rt ser_writedata8 ser_readdata8 _) by lia. cbv zeta.
    rewrite E2, E3. rewrite (rd_bind_rt WriteVarInt (ReadVarInt INT64_MAX) _) by (unfold INT64_MAX; lia).
    rewrite Ev, i64_small by lia. unfold rd_bind. by rewrite payload_roundtrip.
Qed.

Lemma outs_roundtrip ver outs : Forall (out_ok ver) outs ->
  exists bs, opt_flat_map (CTxOut_WriteToStream ver) outs = Some bs /\ (2 * length outs <= length bs)%nat /\
             forall s, rd_times (length outs) (CTxOut_ReadFromStream ver) (bs ++ s) = Some (map (canon_out ver) outs, s).
Proof.
  induction 1 as [|o outs Ho Houts (bs & E & Hl & IH)]; [by exists []|].
  destruct (out_roundtrip ver o Ho) as (b & Eb & Hlb & Hr). exists (b ++ bs). cbn [opt_flat_map length map rd_times].
  rewrite Eb, E. split; [done|]. split; [rewrite length_app; lia|].
  intros s. unfold rd_bind. by rewrite <- app_assoc, Hr, IH.
Qed.

(** ** Lemmas: flags and transactions *)

Lemma testbit_set p b f q : 0 <= p -> 0 <= q ->
  Z.testbit (bitset_set p b f) q = if p =? q then b else Z.testbit f q.
Proof.
  intros Hp Hq. unfold bitset_set. destruct b.
  - rewrite Z.lor_spec, Z.pow2_bits_eqb by done. destruct (p =? q); [apply orb_true_r|apply orb_false_r].
  - rewrite Z.land_spec, Z.lnot_spec, Z.pow2_bits_eqb by done.
    destruct (p =? q); [apply andb_false_r|apply andb_true_r].
Qed.

Lemma bitset_set_u8 p b f : 0 <= p < 8 -> is_u8 f -> is_u8 (bitset_set p b f).
Proof.
  unfold is_u8. intros Hp Hf. assert (0 <= bitset_set p b f).
  { unfold bitset_set. destruct b; [apply Z.lor_nonneg; split; [lia|apply Z.pow_nonneg; lia]|apply Z.land_nonneg; lia]. }
  split; [done|]. apply bits_lt_pow2; try lia. intros i Hi. rewrite testbit_set by lia.
  rewrite (proj2 (Z.eqb_neq p i)) by lia. by apply (testbit_above 8).
Qed.

Lemma setup_flags_bits tx :
  Z.testbit (setup_flags tx) HasOneInput = (Z.of_nat (length (vin tx)) =? 1) /\
  Z.testbit (setup_flags tx) HasTwoInputs = (Z.of_nat (length (vin tx)) =? 2) /\
  Z.testbit (setup_flags tx) HasThreeInputs = (Z.of_nat (length (vin tx)) =? 3) /\
  Z.testbit (setup_flags tx) HasOneOutput = (Z.of_nat (length (vout tx)) =? 1) /\
  Z.testbit (setup_flags tx) HasTwoOutputs = (Z.of_nat (length (vout tx)) =? 2) /\
  Z.testbit (setup_flags tx) HasThreeOutputs = (Z.of_nat (length (vout tx)) =? 3) /\
  Z.testbit (setup_flags tx) HasLockTime = (nLockTime tx >? 0) /\
  Z.testbit (setup_flags tx) HasExtraFlags = Z.testbit (flags tx) HasExtraFlags.
Proof.
  unfold setup_flags, HasOneInput, HasTwoInputs, HasThreeInputs, HasOneOutput, HasTwoOutputs, HasThreeOutputs,
    HasLockTime, HasExtraFlags. destruct (nLockTime tx >? 0); rewrite !testbit_set by lia; done.
Qed.

Lemma setup_flags_u8 tx : is_u8 (flags tx) -> is_u8 (setup_flags tx).
Proof.
  intros Hf. unfold setup_flags. destruct (nLockTime tx >? 0); repeat (apply bitset_set_u8; [done|]); done.
Qed.

(** Reading back a count that the flags or a VarInt announce. *)
Lemma count_roundtrip maxI (b1 b2 b3 : bool) n s : maxI < 2 ^ 64 -> 0 <= n <= maxI ->
  b1 = (n =? 1) -> b2 = (n =? 2) -> b3 = (n =? 3) ->
  (if b1 then rd_ret 1 else if b2 then rd_ret 2 else if b3 then rd_ret 3 else ReadVarInt maxI)
    ((if negb (b1 || b2 || b3) then WriteVarInt n else []) ++ s) = Some (n, s).
Proof.
  intros Hm Hn -> -> ->. destruct (n =? 1) eqn:E1; zbool; [by subst|]. destruct (n =? 2) eqn:E2; zbool; [by subst|].
  destruct (n =? 3) eqn:E3; zbool; [by subst|]. by apply VarInt_RoundTrip.
Qed.

Lemma UnserializeOld_roundtrip tx bs s : tx_ok tx -> IsOldTransactionVersion (nVersion tx) = true ->
  SerializeTransactionOld tx = Some bs -> forall segsig,
  UnserializeTransactionOld (bs ++ s) = Some (canon_tx segsig tx, s) /\
  exists t, bs = Serialize_int32 (nVersion tx) ++ t.
Proof.
  intros (Hv & _ & Hni & Hins & Hno & Houts & Hlt & Hf & Hef) Hold Hs segsig. unfold SerializeTransactionOld in Hs.
  destruct (outs_roundtrip _ _ Houts) as (ob & Eo & _ & Hro). rewrite Eo in Hs. apply (inj Some) in Hs. subst bs.
  split; [|by eexists]. unfold UnserializeTransactionOld. rewrite <- !app_assoc. unfold MAX_SIZE in *.
  rewrite (rd_bind_rt Serialize_int32 Unserialize_int32 _) by done.
  rewrite (rd_bind_rt WriteCompactSize (ReadCompactSize true) _) by (unfold MAX_SIZE; lia).
  rewrite Nat2Z.id. unfold rd_bind at 1.
  rewrite (rd_times_canon _ _ (canon_in false (nVersion tx)) in_ok) by (done || intros; by apply in_roundtrip).
  rewrite (rd_bind_rt WriteCompactSize (ReadCompactSize true) _) by (unfold MAX_SIZE; lia).
  rewrite Nat2Z.id. unfold rd_bind at 1. rewrite Hro.
  rewrite (rd_bind_rt ser_writedata32 ser_readdata32 _) by done.
  unfold rd_ret, canon_tx, canon_in. by rewrite Hold.
Qed.

Lemma UnserializeNew_roundtrip segsig tx bs s : tx_ok tx -> IsOldTransactionVersion (nVersion tx) = false ->
  SerializeTransaction segsig tx = Some bs ->
  UnserializeTransactionNew segsig (bs ++ s) = Some (canon_tx segsig tx, s).
Proof.
  intros (Hv & Hv0 & Hni & Hins & Hno & Houts & Hlt & Hf & Hef) Hold Hs. specialize (Hv0 Hold).
  unfold SerializeTransaction in Hs. rewrite Hold in Hs.
  destruct (outs_roundtrip _ _ Houts) as (ob & Eo & _ & Hro). rewrite Eo in Hs. apply (inj Some) in Hs. subst bs.
  destruct (setup_flags_bits tx) as (F0 & F1 & F2 & F3 & F4 & F5 & F6 & F7).
  pose proof (setup_flags_u8 tx Hf) as Hsf. unfold MAX_SIZE in *.
  unfold UnserializeTransactionNew. rewrite <- !app_assoc.
  rewrite (rd_bind_rt WriteVarInt (ReadVarInt INT32_MAX) _) by (unfold INT32_MAX; lia).
  rewrite (rd_bind_rt ser_writedata8 ser_readdata8 _) by exact Hsf. cbv zeta.
  set (f := setup_flags tx) in *.
  assert (Eef : forall t, (if Z.testbit f HasExtraFlags then ser_readdata8 else rd_ret 0)
            ((if Z.testbit f HasExtraFlags then ser_writedata8 (extraFlags tx) else []) ++ t)
            = Some (if Z.testbit f HasExtraFlags then extraFlags tx else 0, t)).
  { intros t. destruct (Z.testbit f HasExtraFlags); [|done]. by apply byte_RoundTrip. }
  unfold rd_bind at 1. rewrite Eef. unfold rd_bind at 1.
  rewrite count_roundtrip, Nat2Z.id by (done || unfold INT32_MAX; lia).
  unfold rd_bind at 1.
  rewrite (rd_times_canon _ _ (canon_in false (nVersion tx)) in_ok) by (done || intros; by apply in_roundtrip).
  unfold rd_bind at 1. rewrite <- !negb_orb.
  rewrite count_roundtrip, Nat2Z.id by (done || unfold UINT64_MAX; lia).
  unfold rd_bind at 1. rewrite Hro. unfold rd_bind at 1.
  assert (Est : forall t, (if segsig then read_stacks (map (canon_in false (nVersion tx)) (vin tx))
                           else rd_ret (map (canon_in false (nVersion tx)) (vin tx)))
            ((if segsig then flat_map (fun i => Serialize_stack (segregatedSignatureData i)) (vin tx) else []) ++ t)
            = Some (map (canon_in segsig (nVersion tx)) (vin tx), t)).
  { intros t. destruct segsig; [by apply stacks_roundtrip|done]. }
  rewrite Est. unfold rd_bind. rewrite F6. unfold canon_tx. rewrite Hold. fold f.
  destruct (nLockTime tx >? 0) eqn:El; zbool.
  - rewrite (varint_u32_RoundTrip (nLockTime tx) s) by (unfold is_u32, UINT32_MAX in *; lia). done.
  - unfold is_u32 in Hlt. assert (nLockTime tx = 0) as -> by lia. done.
Qed.

(** The version peek tells the formats apart: a new-format stream starts with a
    byte from 5 on, which no old version number has as its low byte. *)
Lemma peek_new b t : 5 <= b < 256 -> (3 <= length t)%nat ->
  exists v, peek_int32 (b :: t) = Some (v, b :: t) /\ IsOldTransactionVersion v = false.
Proof.
  intros Hb Hl. destruct t as [|b1 [|b2 [|b3 t]]]; cbn [length] in Hl; try lia.
  eexists. split; [done|]. unfold IsOldTransactionVersion, i32, swrap, u32, uwrap. cbn [le_val].
  change (32 - 1) with 31.
  apply orb_false_iff. rewrite Z.ltb_ge, Z.eqb_neq. zdm; lia.
Qed.

Lemma WriteVarInt_nonempty n : 0 <= n < 2 ^ 64 -> (1 <= length (WriteVarInt n))%nat.
Proof.
  intros Hn. rewrite WriteVarInt_bytes, vi_bytes_eq by lia. zcase; [done|]. rewrite length_app. cbn. lia.
Qed.

Lemma new_bytes_head segsig tx bs : tx_ok tx -> IsOldTransactionVersion (nVersion tx) = false ->
  SerializeTransaction segsig tx = Some bs -> exists b t, bs = b :: t /\ 5 <= b < 256 /\ (3 <= length t)%nat.
Proof.
  intros (Hv & Hv0 & Hni & Hins & Hno & Houts & _) Hold Hs. specialize (Hv0 Hold).
  unfold SerializeTransaction in Hs. rewrite Hold in Hs.
  destruct (outs_roundtrip _ _ Houts) as (ob & Eo & Hlo & _). rewrite Eo in Hs. apply (inj Some) in Hs. subst bs.
  assert (5 <= nVersion tx).
  { unfold IsOldTransactionVersion in Hold. rewrite u32_small in Hold by lia. apply orb_false_iff in Hold as [H5 _]. by apply Z.ltb_ge. }
  rewrite WriteVarInt_bytes by lia. destruct (vi_bytes_head true (nVersion tx) ltac:(lia) ltac:(done)) as (b & t & -> & Hb).
  eexists b, _. split; [done|]. split; [done|]. rewrite !length_app.
  destruct (setup_flags_bits tx) as (F0 & F1 & F2 & F3 & F4 & F5 & _). rewrite F0, F1, F2, F3, F4, F5. cbn [length].
  match goal with |- context [if ?c then WriteVarInt (Z.of_nat (length (vin tx))) else []] => set (ci := c) end.
  match goal with |- context [if ?c then WriteVarInt (Z.of_nat (length (vout tx))) else []] => set (co := c) end.
  assert (A1 : (1 <= length (if ci then WriteVarInt (Z.of_nat (length (vin tx))) else [])
                   + length (flat_map (CTxIn_WriteToStream (nVersion tx)) (vin tx)))%nat).
  { destruct (vin tx) as [|i ins]; [subst ci; apply Nat.le_add_r|]. cbn [flat_map]. rewrite length_app.
    unfold CTxIn_WriteToStream at 1. rewrite Hold. cbn [negb]. rewrite length_app. unfold ser_writedata8.
    rewrite length_le_bytes. lia. }
  assert (A2 : (1 <= length (if co then WriteVarInt (Z.of_nat (length (vout tx))) else []) + length ob)%nat).
  { destruct (vout tx) as [|o outs]; [subst co; apply Nat.le_add_r|]. cbn [length] in Hlo. lia. }
  unfold ser_writedata8 at 1. rewrite length_le_bytes. lia.
Qed.

Lemma setup_flags_idem tx v i o lt ef : length i = length (vin tx) -> length o = length (vout tx) -> lt = nLockTime tx ->
  setup_flags (mkTx v i o lt (setup_flags tx) ef) = setup_flags tx.
Proof.
  intros Hi Ho ->. apply Z.bits_inj'. intros q Hq. unfold setup_flags. cbn [vin vout nLockTime flags].
  rewrite Hi, Ho. unfold HasOneInput, HasTwoInputs, HasThreeInputs, HasOneOutput, HasTwoOutputs, HasThreeOutputs, HasLockTime.
  destruct (nLockTime tx >? 0); rewrite !testbit_set by lia; repeat (destruct (_ =? q); [done|]); done.
Qed.

Lemma canon_outpoint_write ver fl o : outpoint_ok o ->
  COutPoint_WriteToStream (canon_outpoint ver fl o) fl ver = COutPoint_WriteToStream o fl ver.
Proof.
  intros (Hl & _ & _). unfold COutPoint_WriteToStream, canon_outpoint. destruct (IsOldTransactionVersion ver); [done|]. cbn [orb].
  destruct (Z.land fl IndexBasedOutpoint =? 0); [done|].
  unfold prevBlock_blockNumber, prevBlock_transactionIndex, slice. cbn [op_hash op_n skipn].
  rewrite !drop_0, (take_app_le _ _ 8), firstn_firstn by (rewrite length_firstn; lia).
  rewrite drop_app_le, take_app_le by (rewrite ?length_skipn, ?length_firstn; lia).
  by rewrite skipn_firstn_comm, firstn_firstn.
Qed.

Lemma canon_in_write segsig ver i : in_ok i -> CTxIn_WriteToStream ver (canon_in segsig ver i) = CTxIn_WriteToStream ver i.
Proof.
  intros (_ & _ & Ho & _). unfold CTxIn_WriteToStream, canon_in. destruct (IsOldTransactionVersion ver) eqn:Hold; cbn [negb].
  - cbn [prevout scriptSig nSequence]. unfold COutPoint_WriteToStream, canon_outpoint. by rewrite Hold.
  - cbn [prevout nTypeAndFlags]. unfold FlagIsSet, CTxIn_GetFlags. cbn [nTypeAndFlags nSequence].
    rewrite canon_outpoint_write by done. by destruct (negb _).
Qed.

Lemma flat_map_ext_ok {A} (f g : A -> list Z) (c : A -> A) (ok : A -> Prop) l :
  (forall a, ok a -> f (c a) = g a) -> Forall ok l -> flat_map f (map c l) = flat_map g l.
Proof. intros H. induction 1 as [|a l Ha Hl IH]; cbn; [done|]. by rewrite H, IH. Qed.

Lemma opt_flat_map_canon ver outs :
  opt_flat_map (CTxOut_WriteToStream ver) (map (canon_out ver) outs) = opt_flat_map (CTxOut_WriteToStream ver) outs.
Proof. induction outs as [|o outs IH]; cbn; [done|]. by rewrite IH. Qed.

Lemma canon_tx_serialize segsig tx : tx_ok tx ->
  SerializeTransaction segsig (canon_tx segsig tx) = SerializeTransaction segsig tx.
Proof.
  intros (_ & _ & _ & Hins & _). unfold SerializeTransaction, SerializeTransactionOld.
  change (nVersion (canon_tx segsig tx)) with (nVersion tx).
  change (vout (canon_tx segsig tx)) with (map (canon_out (nVersion tx)) (vout tx)).
  change (vin (canon_tx segsig tx)) with (map (canon_in segsig (nVersion tx)) (vin tx)).
  change (nLockTime (canon_tx segsig tx)) with (nLockTime tx).
  rewrite opt_flat_map_canon, !length_map.
  rewrite (flat_map_ext_ok _ (CTxIn_WriteToStream (nVersion tx)) _ in_ok) by (done || intros; by apply canon_in_write).
  destruct (IsOldTransactionVersion (nVersion tx)) eqn:Hold; [done|].
  assert (Hf : setup_flags (canon_tx segsig tx) = setup_flags tx).
  { unfold canon_tx. rewrite Hold. apply setup_flags_idem; by rewrite ?length_map. }
  rewrite Hf. unfold canon_tx at 1. rewrite Hold. cbn [extraFlags].
  assert (Hst : (if segsig then flat_map (fun i => Serialize_stack (segregatedSignatureData i)) (map (canon_in segsig (nVersion tx)) (vin tx)) else [])
    = (if segsig then flat_map (fun i => Serialize_stack (segregatedSignatureData i)) (vin tx) else [])).
  { destruct segsig; [|done]. apply (flat_map_ext_ok _ _ _ in_ok); [|done]. intros i _. unfold canon_in. by rewrite Hold. }
  rewrite Hst. by destruct (Z.testbit (setup_flags tx) HasExtraFlags).
Qed.

Lemma tx_roundtrip segsig tx s : tx_ok tx ->
  exists bs, SerializeTransaction segsig tx = Some bs /\
    UnserializeTransaction segsig (bs ++ s) = Some (canon_tx segsig tx, s) /\
    SerializeTransaction segsig (canon_tx segsig tx) = Some bs.
Proof.
  intros Hok. rewrite canon_tx_serialize by done.
  assert (exists bs, SerializeTransaction segsig tx = Some bs) as [bs Hs].
  { destruct Hok as (_ & _ & _ & _ & _ & Houts & _). destruct (outs_roundtrip _ _ Houts) as (ob & Eo & _).
    unfold SerializeTransaction, SerializeTransactionOld. rewrite Eo. destruct (IsOldTransactionVersion _); by eexists. }
  exists bs. split_and!; try done. unfold UnserializeTransaction, rd_bind.
  destruct (IsOldTransactionVersion (nVersion tx)) eqn:Hold.
  - unfold SerializeTransaction in Hs. rewrite Hold in Hs.
    destruct (UnserializeOld_roundtrip tx bs s Hok Hold Hs segsig) as [Hr [t Ht]].
    assert (peek_int32 (bs ++ s) = Some (nVersion tx, bs ++ s)) as ->; [|by rewrite Hold, Hr].
    unfold peek_int32. rewrite Ht, <- app_assoc. rewrite int32_RoundTrip by apply Hok. done.
  - destruct (new_bytes_head segsig tx bs Hok Hold Hs) as (b & t & -> & Hb & Hl). cbn [app].
    destruct (peek_new b (t ++ s) Hb) as (v & -> & ->); [rewrite length_app; lia|].
    change (b :: t ++ s) with ((b :: t) ++ s). by apply UnserializeNew_roundtrip.
Qed.

(** ** Theorems *)

(** C36: writing a transaction and parsing the bytes gives the transaction back
    (up to the in-memory fields its format does not carry), consumes exactly
    the written bytes, and the parsed transaction serialises to the same bytes,
    so it has the same hash. It holds for both formats: the version peek never
    confuses a flag-byte stream with an old-format one. *)
Theorem transaction_roundtrip segsig tx s : tx_ok tx ->
  exists bs, SerializeTransaction segsig tx = Some bs /\
    UnserializeTransaction segsig (bs ++ s) = Some (canon_tx segsig tx, s) /\
    SerializeTransaction segsig (canon_tx segsig tx) = Some bs.
Proof. apply tx_roundtrip. Qed.

(** A two-input, one-output transaction with an index outpoint and a witness output. *)
Definition sample_tx : CTransaction :=
  mkTx 5
    [mkTxIn 17 [] (COutPoint_ofPosition 1000 3 1) 144 [[1; 2]; []];
     mkTxIn 0 [] (COutPoint_ofHash (repeat 7 32) 0) SEQUENCE_FINAL [[9]]]
    [mkTxOut 500000000000 5 (PoW2WitnessOutput (mkWitnessDetails (repeat 1 20) (repeat 2 20) 10 20000 0 1))]
    77 0 0.

Lemma transaction_roundtrip_witness :
  exists bs, SerializeTransaction true sample_tx = Some bs /\
    UnserializeTransaction true (bs ++ [42]) = Some (canon_tx true sample_tx, [42]) /\
    SerializeTransaction true (canon_tx true sample_tx) = Some bs.
Proof.
  apply transaction_roundtrip.
  repeat split; try discriminate; try reflexivity; repeat constructor; try discriminate; try reflexivity.
Defined.

(** *** Outpoint ordering *)

Lemma blob_Compare_antisym a b : length a = length b -> blob_Compare b a = - blob_Compare a b.
Proof.
  revert b; induction a as [|x a IH]; intros [|y b] Hl; try done. cbn [blob_Compare length] in *.
  injection Hl as Hl. repeat zcase; try lia. by apply IH.
Qed.

Lemma blob_Compare_range a b : blob_Compare a b = -1 \/ blob_Compare a b = 0 \/ blob_Compare a b = 1.
Proof. revert b; induction a as [|x a IH]; intros [|y b]; cbn; auto. repeat zcase; auto. Qed.

Lemma blob_Compare_eq a b : length a = length b -> blob_Compare a b = 0 <-> a = b.
Proof.
  revert b; induction a as [|x a IH]; intros [|y b] Hl; try done. cbn [blob_Compare length] in *.
  injection Hl as Hl. repeat zcase.
  - split; [lia|intros [= -> _]; lia].
  - split; [lia|intros [= -> _]; lia].
  - rewrite IH by done. split; [intros ->; f_equal; lia|by intros [= _ ->]].
Qed.

Lemma blob_Compare_trans a b c : length a = length b -> length b = length c ->
  blob_Compare a b = -1 -> blob_Compare b c = -1 -> blob_Compare a c = -1.
Proof.
  revert b c; induction a as [|x a IH]; intros [|y b] [|z c] H1 H2; try done. cbn [blob_Compare length] in *.
  injection H1 as H1. injection H2 as H2. repeat zcase; try lia. by apply IH.
Qed.

Lemma blob_eqb_eq a b : length a = length b -> blob_eqb a b = true <-> a = b.
Proof. intros Hl. unfold blob_eqb. rewrite Z.eqb_eq. by apply blob_Compare_eq. Qed.

(** The order on the parts an outpoint compares: the tag, then the position or
    the hash, then the index. *)
Definition prevBlock_lt (a b : COutPoint) : Prop :=
  prevBlock_blockNumber a < prevBlock_blockNumber b \/
  prevBlock_blockNumber a = prevBlock_blockNumber b /\
    (prevBlock_transactionIndex a < prevBlock_transactionIndex b \/
     prevBlock_transactionIndex a = prevBlock_transactionIndex b /\ op_n a < op_n b).
Definition hash_lt (a b : COutPoint) : Prop :=
  blob_Compare (op_hash a) (op_hash b) = -1 \/ blob_Compare (op_hash a) (op_hash b) = 0 /\ op_n a < op_n b.

Lemma COutPoint_ltb_cases a b : COutPoint_ltb a b = true <->
  match isHash a, isHash b with
  | false, true => True | true, false => False | true, true => hash_lt a b | false, false => prevBlock_lt a b
  end.
Proof.
  unfold COutPoint_ltb, hash_lt, prevBlock_lt, blob_eqb, prevBlock_eqb, prevBlock_ltb.
  pose proof (blob_Compare_range (op_hash a) (op_hash b)).
  destruct (isHash a), (isHash b); cbn [eqb negb andb]; try (split; done); repeat zcase; rewrite ?Z.ltb_lt; lia.
Qed.

Lemma COutPoint_eqb_cases a b : COutPoint_eqb a b = true <->
  match isHash a, isHash b with
  | true, true => blob_Compare (op_hash a) (op_hash b) = 0 /\ op_n a = op_n b
  | false, false => prevBlock_blockNumber a = prevBlock_blockNumber b /\
                    prevBlock_transactionIndex a = prevBlock_transactionIndex b /\ op_n a = op_n b
  | _, _ => False
  end.
Proof.
  unfold COutPoint_eqb, blob_eqb, prevBlock_eqb. destruct (isHash a), (isHash b); cbn [eqb negb andb orb]; try done.
  - rewrite orb_false_r. lia.
  - lia.
Qed.

Lemma COutPoint_eqb_incomparable a b : outpoint_ok a -> outpoint_ok b ->
  COutPoint_eqb a b = true <-> COutPoint_ltb a b = false /\ COutPoint_ltb b a = false.
Proof.
  intros (Ha & _ & _) (Hb & _ & _).
  assert (Hanti := blob_Compare_antisym (op_hash a) (op_hash b) ltac:(congruence)).
  assert (Hrng := blob_Compare_range (op_hash a) (op_hash b)).
  rewrite <- !not_true_iff_false, !COutPoint_ltb_cases, COutPoint_eqb_cases. unfold hash_lt, prevBlock_lt.
  destruct (isHash a), (isHash b); [lia|tauto|tauto|lia].
Qed.

Lemma COutPoint_ltb_irrefl a : outpoint_ok a -> COutPoint_ltb a a = false.
Proof.
  intros (Ha & _). assert (Haa : blob_Compare (op_hash a) (op_hash a) = 0) by (by apply blob_Compare_eq).
  apply not_true_iff_false. rewrite COutPoint_ltb_cases. unfold hash_lt, prevBlock_lt. destruct (isHash a); lia.
Qed.

Lemma COutPoint_ltb_trans a b c : outpoint_ok a -> outpoint_ok b -> outpoint_ok c ->
  COutPoint_ltb a b = true -> COutPoint_ltb b c = true -> COutPoint_ltb a c = true.
Proof.
  intros (Ha & _) (Hb & _) (Hc & _). rewrite !COutPoint_ltb_cases.
  pose proof (blob_Compare_trans (op_hash a) (op_hash b) (op_hash c) ltac:(congruence) ltac:(congruence)) as Ht.
  pose proof (proj1 (blob_Compare_eq (op_hash a) (op_hash b) ltac:(congruence))) as Eab.
  pose proof (proj1 (blob_Compare_eq (op_hash b) (op_hash c) ltac:(congruence))) as Ebc.
  unfold hash_lt, prevBlock_lt. destruct (isHash a), (isHash b), (isHash c); try done; [|lia].
  intros [Hx|[Hx Hx']] [Hy|[Hy Hy']]; [by left; apply Ht|rewrite <- (Ebc Hy); by left|rewrite (Eab Hx); by left|].
  rewrite (Eab Hx). right. lia.
Qed.

Lemma ofPosition_blockNumber b t n : 0 <= b < 2 ^ 64 -> prevBlock_blockNumber (COutPoint_ofPosition b t n) = b.
Proof.
  intros Hb. unfold prevBlock_blockNumber, COutPoint_ofPosition, set_prevBlock. cbn [op_hash]. unfold slice.
  rewrite skipn_O, take_app_le, take_ge by (rewrite length_le_bytes; lia). apply le_val_bytes. unfold fits. cbn. lia.
Qed.

Lemma ofPosition_transactionIndex b t n : 0 <= t < 2 ^ 64 -> prevBlock_transactionIndex (COutPoint_ofPosition b t n) = t.
Proof.
  intros Ht. unfold prevBlock_transactionIndex, COutPoint_ofPosition, set_prevBlock. cbn [op_hash]. unfold slice.
  rewrite drop_app_le, drop_ge by (rewrite length_le_bytes; lia). cbn [app].
  rewrite take_app_le, take_ge by (rewrite length_le_bytes; lia). apply le_val_bytes. unfold fits. cbn. lia.
Qed.

Lemma ofPosition_ok b t n : outpoint_ok (COutPoint_ofPosition b t n).
Proof.
  split_and!; [reflexivity| |apply (uwrap_range 31); lia..]. unfold COutPoint_ofPosition, set_prevBlock. cbn [op_hash].
  unfold bytes_ok. rewrite !Forall_app. split_and!; [apply le_bytes_ok..|]. repeat constructor; discriminate.
Qed.

Lemma le_val_zero l : blob_IsNull l = true -> le_val l = 0.
Proof. induction l as [|b l IH]; [done|]. cbn. intros H. zbool. rewrite IH by done. lia. Qed.

Lemma ofPosition_not_null b t n : 0 < b < 2 ^ 64 -> COutPoint_IsNull (COutPoint_ofPosition b t n) = false.
Proof.
  intros Hb. unfold COutPoint_IsNull. destruct (blob_IsNull _) eqn:E; [|done]. exfalso.
  pose proof (ofPosition_blockNumber b t n ltac:(lia)) as Hn. unfold prevBlock_blockNumber, slice in Hn.
  rewrite le_val_zero in Hn; [lia|]. unfold blob_IsNull in *. rewrite skipn_O. apply forallb_forall. intros x Hx.
  apply (proj1 (forallb_forall _ _) E x). rewrite <- (firstn_skipn 8). apply in_app_iff. by left.
Qed.

(** [operator<] on outpoints is a strict order whose incomparability is
    exactly [operator==], as the ordered containers keyed by outpoints need:
    it is irreflexive and transitive, and of two outpoints exactly one of [<],
    [>] and [==] holds, although hash and block position share their storage. *)
Theorem outpoint_order_strict_total a b c : outpoint_ok a -> outpoint_ok b -> outpoint_ok c ->
  COutPoint_ltb a a = false /\
  (COutPoint_ltb a b = true -> COutPoint_ltb b c = true -> COutPoint_ltb a c = true) /\
  (COutPoint_eqb a b = true <-> COutPoint_ltb a b = false /\ COutPoint_ltb b a = false).
Proof.
  intros Oa Ob Oc. split_and!; [by apply COutPoint_ltb_irrefl|by apply COutPoint_ltb_trans|by apply COutPoint_eqb_incomparable].
Qed.

Lemma outpoint_order_strict_total_witness :
  COutPoint_ltb (COutPoint_ofPosition 5 0 1) (COutPoint_ofHash (repeat 3 32) 2) = true /\
  COutPoint_ltb (COutPoint_ofPosition 4 9 1) (COutPoint_ofHash (repeat 3 32) 2) = true.
Proof.
  split; [reflexivity|].
  refine (proj1 (proj2 (outpoint_order_strict_total (COutPoint_ofPosition 4 9 1) (COutPoint_ofPosition 5 0 1)
            (COutPoint_ofHash (repeat 3 32) 2) _ _ _)) _ _); try reflexivity.
  all: repeat split; try reflexivity; try discriminate; repeat constructor; discriminate.
Defined.

(** *** Value of the outputs *)

Definition positive_sum (outs : list CTxOut) : Z := fold_right (fun o acc => Z.max 0 (nValue o) + acc) 0 outs.

Lemma positive_sum_nonneg outs : 0 <= positive_sum outs.
Proof. unfold positive_sum. induction outs as [|o outs IH]; cbn [fold_right]; lia. Qed.

Lemma GetValueOut_loop_spec outs acc : Forall (fun o => is_i64 (nValue o)) outs -> 0 <= acc <= MAX_MONEY ->
  GetValueOut_loop outs acc = (if acc + positive_sum outs <=? MAX_MONEY then Some (acc + positive_sum outs) else None).
Proof.
  intros Hv. revert acc. induction Hv as [|o outs Ho Houts IH]; intros acc Ha; cbn [GetValueOut_loop].
  { change (positive_sum []) with 0. rewrite Z.add_0_r, (proj2 (Z.leb_le _ _)) by lia. done. }
  change (positive_sum (o :: outs)) with (Z.max 0 (nValue o) + positive_sum outs).
  pose proof (positive_sum_nonneg outs). unfold is_i64 in Ho. cbv beta in Ho.
  destruct (nValue o >? 0) eqn:E; zbool; cbv zeta.
  - destruct (Z.le_gt_cases (acc + nValue o) MAX_MONEY) as [Hle|Hgt].
    + assert (MAX_MONEY < 2 ^ 63) by done. rewrite i64_small by lia.
      rewrite !(proj2 (MoneyRange_true _)) by lia. cbn [negb orb]. rewrite IH by lia.
      by replace (acc + nValue o + positive_sum outs) with (acc + (Z.max 0 (nValue o) + positive_sum outs)) by lia.
    + rewrite (proj2 (Z.leb_gt _ _)) by lia.
      destruct (MoneyRange (nValue o)) eqn:E1; [|done]. destruct (MoneyRange (i64 (acc + nValue o))) eqn:E2; [|done].
      rewrite MoneyRange_true in *. rewrite i64_small in E2; unfold MAX_MONEY, COIN in *; lia.
  - rewrite IH by lia. by replace (Z.max 0 (nValue o) + positive_sum outs) with (positive_sum outs) by lia.
Qed.

(** [GetValueOut] returns the sum of the positive output values when that
    sum is at most [MAX_MONEY] and throws otherwise; the running sum is range
    checked before a 64-bit overflow could go unnoticed. *)
Theorem GetValueOut_exact tx : Forall (fun o => is_i64 (nValue o)) (vout tx) ->
  GetValueOut tx = (if positive_sum (vout tx) <=? MAX_MONEY then Some (positive_sum (vout tx)) else None).
Proof. intros Hv. unfold GetValueOut. by rewrite GetValueOut_loop_spec. Qed.

Lemma GetValueOut_exact_witness : GetValueOut sample_tx = Some 500000000000.
Proof.
  rewrite (GetValueOut_exact sample_tx); [reflexivity|].
  repeat constructor; discriminate.
Defined.

(** *** Malleability *)

(** An input and an output in the old format inside the flag-byte container. *)
Definition disguised_stream : list Z :=
  [3; 9] ++ (repeat 7 32 ++ [0; 0; 0; 0] ++ [1; 81] ++ [255; 255; 255; 255])
         ++ ([0; 225; 245; 5; 0; 0; 0; 0] ++ [1; 82]) ++ [0].

(** the transaction parser is not injective on version numbers below 5: the
    peek takes a stream whose second byte is not zero for the flag-byte format,
    and the VarInt version read there may still be an old one, so a version 3
    transaction has a second encoding; both encodings give a transaction that
    serialises to the same bytes. *)
Theorem old_version_has_two_encodings :
  exists tx bs tx', UnserializeTransaction true disguised_stream = Some (tx, []) /\
    IsOldTransactionVersion (nVersion tx) = true /\
    SerializeTransaction true tx = Some bs /\ bs <> disguised_stream /\
    UnserializeTransaction true bs = Some (tx', []) /\ SerializeTransaction true tx' = Some bs.
Proof. do 3 eexists. split_and!; [vm_compute; reflexivity|reflexivity|vm_compute; reflexivity|discriminate|vm_compute; reflexivity|reflexivity]. Qed.

(** [SetPrevOut] marks an input as index-based when the new outpoint is a
    block position and never clears the mark: an input whose outpoint is
    replaced by a hash outpoint is still written as a block position, and what
    is read back is not the outpoint that was set. *)
Theorem SetPrevOut_stale_index_mark i p o : isHash p = false -> isHash o = true -> is_u8 (nTypeAndFlags i) ->
  let i' := SetPrevOut (SetPrevOut i p) o in
  prevout i' = o /\ FlagIsSet i' IndexBasedOutpoint = true /\
  isHash (prevout (canon_in true 5 i')) = false.
Proof.
  intros Hp Ho Hu i'. unfold i'. clear i'.
  assert (Hb : (Z.land (Z.land (u8 (Z.lor (nTypeAndFlags i) IndexBasedOutpoint)) 31) IndexBasedOutpoint =? 0) = false).
  { change IndexBasedOutpoint with (2 ^ 0) at 2. rewrite land_pow2 by lia. rewrite Z.land_spec.
    unfold u8, uwrap. rewrite Z.mod_pow2_bits_low by lia. unfold IndexBasedOutpoint. rewrite Z.lor_spec.
    change (Z.testbit 1 0) with true. rewrite orb_true_r. done. }
  assert (Hpre : forall i0 : CTxIn, prevout (SetFlag i0 IndexBasedOutpoint) = prevout i0).
  { intros i0. unfold SetFlag, reset_sequence. by destruct (negb _). }
  assert (Htf : nTypeAndFlags (SetFlag (with_prevout i p) IndexBasedOutpoint) = u8 (Z.lor (nTypeAndFlags i) IndexBasedOutpoint)).
  { unfold SetFlag, reset_sequence. by destruct (negb _). }
  unfold SetPrevOut. cbn [prevout with_prevout]. rewrite Hp. cbn [negb]. rewrite Ho. cbn [negb].
  unfold FlagIsSet, CTxIn_GetFlags. cbn [nTypeAndFlags with_prevout]. rewrite Htf, Hb. split_and!; try done.
  unfold canon_in, canon_outpoint, CTxIn_GetFlags. cbn [IsOldTransactionVersion nTypeAndFlags with_prevout prevout].
  rewrite Htf. change (IsOldTransactionVersion 5) with false. cbn [orb]. by rewrite Hb.
Qed.

Lemma SetPrevOut_stale_index_mark_witness :
  isHash (prevout (canon_in true 5 (SetPrevOut (SetPrevOut CTxIn_default (COutPoint_ofPosition 9 1 0))
                                      (COutPoint_ofHash (repeat 3 32) 0)))) = false.
Proof.
  destruct (SetPrevOut_stale_index_mark CTxIn_default (COutPoint_ofPosition 9 1 0) (COutPoint_ofHash (repeat 3 32) 0))
    as (_ & _ & H); [reflexivity|reflexivity|split; [discriminate|reflexivity]|exact H].
Defined.
