(* ===== verification/Block.v ===== *)
(** * Blocks: [src/src/primitives/block.h] and [block.cpp]

    The header with its witness part, the block, their stream formats under every version
    flag, the bytes that are hashed, and the weight of a block. *)

From stdpp Require Import prelude.
From S2P Require Import Prelude Serialize Transaction.

(** ** Definitions *)

Abbreviation uint256 := (list Z).

Record CBlockHeader := mkHeader {
  bh_nVersionPoW2Witness : Z;
  bh_nTimePoW2Witness : Z;
  hashMerkleRootPoW2Witness : uint256;
  witnessHeaderPoW2Sig : list Z;
  witnessUTXODelta : list Z;
  bh_nVersion : Z;
  hashPrevBlock : uint256;
  hashMerkleRoot : uint256;
  bh_nTime : Z;
  bh_nBits : Z;
  nNonce : Z
}.
(** Each transaction with its hash, which the source computes when it is constructed. *)
Record CBlock := mkBlock {
  block_header : CBlockHeader;
  vtx : list (uint256 * CTransaction);
  fChecked : bool;
  fPOWChecked : bool
}.

Definition null_hash : uint256 := repeat 0 32.
Definition CBlockHeader_null : CBlockHeader := mkHeader 0 0 null_hash [] [] 0 null_hash null_hash 0 0 0.

(** *** Stream attributes *)

Definition SER_NETWORK : Z := 1.
Definition SER_DISK : Z := 2.
Definition SER_GETHASH : Z := 4.
Definition PROTOCOL_VERSION : Z := 70020.
Definition WITNESS_SYNC_VERSION : Z := 70020.
Definition SERIALIZE_BLOCK_HEADER_NO_WITNESS_DELTA : Z := 0x10000000.
Definition SERIALIZE_BLOCK_HEADER_NO_POW2_WITNESS : Z := 0x20000000.
Definition SERIALIZE_BLOCK_HEADER_NO_POW2_WITNESS_SIG : Z := 0x40000000.
Definition SERIALIZE_TRANSACTION_NO_SEGREGATED_SIGNATURES : Z := 0x40000000.
Definition has_flag (version flag : Z) : bool := negb (Z.land version flag =? 0).

(** Which optional parts a stream has. *)
Definition with_witness (version : Z) : bool := negb (has_flag version SERIALIZE_BLOCK_HEADER_NO_POW2_WITNESS).
Definition with_signature (version : Z) : bool := negb (has_flag version SERIALIZE_BLOCK_HEADER_NO_POW2_WITNESS_SIG).
Definition with_delta (nType version : Z) (delta : list Z) : bool :=
  negb (has_flag version SERIALIZE_BLOCK_HEADER_NO_WITNESS_DELTA) &&
  ((nType =? SER_DISK) || ((nType =? SER_NETWORK) && (Z.rem version 80000 >=? WITNESS_SYNC_VERSION)) ||
   ((nType =? SER_GETHASH) && (Z.of_nat (length delta) >? 0))).

(** [None] is the failed assertion on the size of the signature. *)
Definition SerializeHeader (nType version : Z) (b : CBlockHeader) : option (list Z) :=
  let fixed :=
    (if with_witness version then Serialize_int32 (bh_nVersionPoW2Witness b) ++ ser_writedata32 (bh_nTimePoW2Witness b) ++ hashMerkleRootPoW2Witness b else [])
    ++ Serialize_int32 (bh_nVersion b) ++ hashPrevBlock b ++ hashMerkleRoot b ++ ser_writedata32 (bh_nTime b) ++ ser_writedata32 (bh_nBits b)
    ++ ser_writedata32 (nNonce b) in
  if negb (bh_nVersionPoW2Witness b =? 0) && with_witness version then
    if with_signature version && negb (length (witnessHeaderPoW2Sig b) =? 65)%nat then None
    else Some (fixed ++ (if with_signature version then witnessHeaderPoW2Sig b else [])
                     ++ (if with_delta nType version (witnessUTXODelta b) then Serialize_bytes (witnessUTXODelta b) else []))
  else Some fixed.
(** Into a new header. *)
Definition UnserializeHeader (nType version : Z) : reader CBlockHeader :=
  v <~ (if with_witness version then Unserialize_int32 else rd_ret 0) ;;;
  t <~ (if with_witness version then ser_readdata32 else rd_ret 0) ;;;
  r <~ (if with_witness version then rd_bytes 32 else rd_ret null_hash) ;;;
  ver <~ Unserialize_int32 ;;;
  prev <~ rd_bytes 32 ;;;
  root <~ rd_bytes 32 ;;;
  time <~ ser_readdata32 ;;;
  bits <~ ser_readdata32 ;;;
  nonce <~ ser_readdata32 ;;;
  let more := negb (v =? 0) && with_witness version in
  sig <~ (if more && with_signature version then rd_bytes 65 else rd_ret []) ;;;
  delta <~ (if more && with_delta nType version [] then Unserialize_bytes else rd_ret []) ;;;
  rd_ret (mkHeader v t r sig delta ver prev root time bits nonce).

Definition SerializeBlock (nType version : Z) (b : CBlock) : option (list Z) :=
  match SerializeHeader nType version (block_header b),
        opt_flat_map (SerializeTransaction (negb (has_flag version SERIALIZE_TRANSACTION_NO_SEGREGATED_SIGNATURES))) (map snd (vtx b)) with
  | Some h, Some txs => Some (h ++ WriteCompactSize (Z.of_nat (length (vtx b))) ++ txs)
  | _, _ => None
  end.
(** [hash_of] computes the hash of a transaction. *)
Definition UnserializeBlock (hash_of : CTransaction -> uint256) (nType version : Z) : reader CBlock :=
  h <~ UnserializeHeader nType version ;;;
  n <~ ReadCompactSize true ;;;
  txs <~ rd_times (Z.to_nat n) (UnserializeTransaction (negb (has_flag version SERIALIZE_TRANSACTION_NO_SEGREGATED_SIGNATURES))) ;;;
  rd_ret (mkBlock h (map (fun tx => (hash_of tx, tx)) txs) false false).

Definition GetSerializeSize (nType version : Z) (b : CBlock) : option Z := (fun l => Z.of_nat (length l)) <$> SerializeBlock nType version b.
Definition GetBlockWeight (b : CBlock) : option Z := GetSerializeSize SER_NETWORK PROTOCOL_VERSION b.

(** *** Hashes *)

Section Hashes.
(** [SerializeHash] of the bytes. *)
Variable SerializeHash : list Z -> uint256.
Definition legacy_preimage (b : CBlockHeader) : option (list Z) := SerializeHeader SER_GETHASH SERIALIZE_BLOCK_HEADER_NO_POW2_WITNESS b.
Definition pow2_preimage (b : CBlockHeader) : option (list Z) :=
  if (bh_nVersionPoW2Witness b =? 0) || (bh_nTimePoW2Witness b =? 0) then legacy_preimage b
  else SerializeHeader SER_GETHASH SERIALIZE_BLOCK_HEADER_NO_POW2_WITNESS_SIG b.
Definition GetHashLegacy (b : CBlockHeader) : option uint256 := SerializeHash <$> legacy_preimage b.
Definition GetHashPoW2 (b : CBlockHeader) : option uint256 := SerializeHash <$> pow2_preimage b.
End Hashes.

(** The fields of a header that is written out. *)
Ltac header_fields :=
  cbn [bh_nVersionPoW2Witness bh_nTimePoW2Witness hashMerkleRootPoW2Witness witnessHeaderPoW2Sig witnessUTXODelta bh_nVersion hashPrevBlock hashMerkleRoot bh_nTime bh_nBits nNonce].

(** ** Lemmas *)

Definition is_hash (h : list Z) : Prop := length h = 32%nat /\ bytes_ok h.
(** What a header that was read satisfies. *)
Definition header_typed (b : CBlockHeader) : Prop :=
  - 2 ^ 31 <= bh_nVersionPoW2Witness b < 2 ^ 31 /\ is_u32 (bh_nTimePoW2Witness b) /\ is_hash (hashMerkleRootPoW2Witness b) /\
  - 2 ^ 31 <= bh_nVersion b < 2 ^ 31 /\ is_hash (hashPrevBlock b) /\ is_hash (hashMerkleRoot b) /\
  is_u32 (bh_nTime b) /\ is_u32 (bh_nBits b) /\ is_u32 (nNonce b) /\
  bytes_ok (witnessHeaderPoW2Sig b) /\ bytes_ok (witnessUTXODelta b) /\ Z.of_nat (length (witnessUTXODelta b)) <= MAX_SIZE.
(** The values that the formats carry. *)
Definition header_ok (b : CBlockHeader) : Prop :=
  - 2 ^ 31 <= bh_nVersionPoW2Witness b < 2 ^ 31 /\ is_u32 (bh_nTimePoW2Witness b) /\ length (hashMerkleRootPoW2Witness b) = 32%nat /\
  - 2 ^ 31 <= bh_nVersion b < 2 ^ 31 /\ length (hashPrevBlock b) = 32%nat /\ length (hashMerkleRoot b) = 32%nat /\
  is_u32 (bh_nTime b) /\ is_u32 (bh_nBits b) /\ is_u32 (nNonce b) /\
  bytes_ok (witnessUTXODelta b) /\ Z.of_nat (length (witnessUTXODelta b)) <= MAX_SIZE /\
  (if bh_nVersionPoW2Witness b =? 0 then witnessHeaderPoW2Sig b = [] /\ witnessUTXODelta b = [] else length (witnessHeaderPoW2Sig b) = 65%nat).

Lemma with_delta_stored nType version delta : nType <> SER_GETHASH -> with_delta nType version delta = with_delta nType version [].
Proof. intros Hn. unfold with_delta. rewrite (proj2 (Z.eqb_neq nType SER_GETHASH)) by done. by rewrite !andb_false_l. Qed.

(** What a reader of a stream with these attributes gets. *)
Definition carried_header (nType version : Z) (b : CBlockHeader) : CBlockHeader :=
  let more := negb (bh_nVersionPoW2Witness b =? 0) && with_witness version in
  mkHeader (if with_witness version then bh_nVersionPoW2Witness b else 0) (if with_witness version then bh_nTimePoW2Witness b else 0)
    (if with_witness version then hashMerkleRootPoW2Witness b else null_hash)
    (if more && with_signature version then witnessHeaderPoW2Sig b else []) (if more && with_delta nType version [] then witnessUTXODelta b else [])
    (bh_nVersion b) (hashPrevBlock b) (hashMerkleRoot b) (bh_nTime b) (bh_nBits b) (nNonce b).

Lemma header_roundtrip nType version b s : header_ok b -> nType <> SER_GETHASH ->
  exists bs, SerializeHeader nType version b = Some bs /\ UnserializeHeader nType version (bs ++ s) = Some (carried_header nType version b, s).
Proof.
  intros (Hv & Ht & Hr & Hver & Hp & Hm & Htm & Hb & Hn & Hd & Hdl & Hsig) Hty. unfold SerializeHeader, UnserializeHeader, carried_header.
  rewrite with_delta_stored by done. destruct (with_witness version) eqn:Ew.
  - destruct (bh_nVersionPoW2Witness b =? 0) eqn:E0; cbn [negb andb].
    + eexists. split; [done|]. rewrite <- !app_assoc.
      rewrite (rd_bind_rt Serialize_int32 Unserialize_int32 _) by done. rewrite (rd_bind_rt ser_writedata32 ser_readdata32 _) by done. rewrite rd_bind_bytes by done.
      rewrite (rd_bind_rt Serialize_int32 Unserialize_int32 _) by done. rewrite !rd_bind_bytes by done.
      rewrite !(rd_bind_rt ser_writedata32 ser_readdata32 _) by done. rewrite E0. by cbn [negb andb].
    + replace (length (witnessHeaderPoW2Sig b) =? 65)%nat with true by (symmetry; by apply Nat.eqb_eq). rewrite andb_false_r.
      eexists. split; [done|]. rewrite <- !app_assoc.
      rewrite (rd_bind_rt Serialize_int32 Unserialize_int32 _) by done. rewrite (rd_bind_rt ser_writedata32 ser_readdata32 _) by done. rewrite rd_bind_bytes by done.
      rewrite (rd_bind_rt Serialize_int32 Unserialize_int32 _) by done. rewrite !rd_bind_bytes by done.
      rewrite !(rd_bind_rt ser_writedata32 ser_readdata32 _) by done. rewrite E0. cbn [negb andb].
      destruct (with_signature version), (with_delta nType version []); rewrite ?app_nil_l, ?rd_bind_bytes by done;
        rewrite ?rd_bind_ret; rewrite ?(rd_bind_rt Serialize_bytes Unserialize_bytes _) by done; done.
  - rewrite andb_false_r. eexists. split; [done|]. cbn [app]. rewrite <- !app_assoc. rewrite !rd_bind_ret.
    rewrite (rd_bind_rt Serialize_int32 Unserialize_int32 _) by done. rewrite !rd_bind_bytes by done.
    rewrite !(rd_bind_rt ser_writedata32 ser_readdata32 _) by done. by cbn [negb andb].
Qed.

(** The fields that every form has. *)
Lemma core_canonical {B} (k : Z -> uint256 -> uint256 -> Z -> Z -> Z -> reader B) s b s' : bytes_ok s ->
  (ver <~ Unserialize_int32 ;;; prev <~ rd_bytes 32 ;;; root <~ rd_bytes 32 ;;; time <~ ser_readdata32 ;;; bits <~ ser_readdata32 ;;;
   nonce <~ ser_readdata32 ;;; k ver prev root time bits nonce) s = Some (b, s') ->
  exists ver prev root time bits nonce t,
    s = Serialize_int32 ver ++ prev ++ root ++ ser_writedata32 time ++ ser_writedata32 bits ++ ser_writedata32 nonce ++ t /\
    - 2 ^ 31 <= ver < 2 ^ 31 /\ is_hash prev /\ is_hash root /\ is_u32 time /\ is_u32 bits /\ is_u32 nonce /\ bytes_ok t /\
    k ver prev root time bits nonce t = Some (b, s').
Proof.
  intros Hs E. apply (rd_bind_canonical Serialize_int32 Unserialize_int32 _) in E as (ver & s4 & -> & Hver & Hs4 & E); [|done].
  apply rd_bytes_canonical in E as (prev & s5 & -> & Lp & Hp & Hs5 & E); [|done].
  apply rd_bytes_canonical in E as (root & s6 & -> & Lm & Hm & Hs6 & E); [|done].
  apply (rd_bind_canonical ser_writedata32 ser_readdata32 _) in E as (time & s7 & -> & Htm & Hs7 & E); [|done].
  apply (rd_bind_canonical ser_writedata32 ser_readdata32 _) in E as (bits & s8 & -> & Hb & Hs8 & E); [|done].
  apply (rd_bind_canonical ser_writedata32 ser_readdata32 _) in E as (nonce & s9 & -> & Hn & Hs9 & E); [|done].
  by exists ver, prev, root, time, bits, nonce, s9.
Qed.
(** The part of the witness, where it is there. *)
Lemma tail_canonical {B} (more sig delta : bool) (k : list Z -> list Z -> reader B) s b s' : bytes_ok s ->
  (sg <~ (if more && sig then rd_bytes 65 else rd_ret []) ;;; d <~ (if more && delta then Unserialize_bytes else rd_ret []) ;;; k sg d) s = Some (b, s') ->
  exists sg d t, s = (if more && sig then sg else []) ++ (if more && delta then Serialize_bytes d else []) ++ t /\
    (if more && sig then length sg = 65%nat else sg = []) /\ bytes_ok sg /\ bytes_ok d /\ Z.of_nat (length d) <= MAX_SIZE /\
    (more && delta = false -> d = []) /\ k sg d t = Some (b, s').
Proof.
  intros Hs E. assert (D : forall s, bytes_ok s -> forall k' : list Z -> reader B, (d <~ (if more && delta then Unserialize_bytes else rd_ret []) ;;; k' d) s = Some (b, s') ->
    exists d t, s = (if more && delta then Serialize_bytes d else []) ++ t /\ bytes_ok d /\ Z.of_nat (length d) <= MAX_SIZE /\
      (more && delta = false -> d = []) /\ k' d t = Some (b, s')).
  { intros s1 Hs1 k' E1. destruct (more && delta).
    - apply (rd_bind_canonical Serialize_bytes Unserialize_bytes _) in E1 as (d & t & -> & [Hd Ld] & _ & E1); [|done]. by exists d, t.
    - rewrite rd_bind_ret in E1. exists [], s1. split_and!; try done. constructor. }
  destruct (more && sig).
  - apply rd_bytes_canonical in E as (sg & s1 & -> & L & Hsg & Hs1 & E); [|done]. apply D in E as (d & t & -> & Hd & Ld & N & E); [|done]. by exists sg, d, t.
  - rewrite rd_bind_ret in E. apply D in E as (d & t & -> & Hd & Ld & N & E); [|done]. exists [], d, t. split_and!; try done. constructor.
Qed.

Lemma with_delta_hash d : with_delta SER_GETHASH SERIALIZE_BLOCK_HEADER_NO_POW2_WITNESS_SIG d = (Z.of_nat (length d) >? 0).
Proof. done. Qed.

(** What a reader of a block gets. *)
Definition carried_block (hash_of : CTransaction -> uint256) (nType version : Z) (b : CBlock) : CBlock :=
  let segsig := negb (has_flag version SERIALIZE_TRANSACTION_NO_SEGREGATED_SIGNATURES) in
  mkBlock (carried_header nType version (block_header b))
    (map (fun x => (hash_of (canon_tx segsig (snd x)), canon_tx segsig (snd x))) (vtx b)) false false.

Lemma txs_roundtrip segsig txs s : Forall tx_ok txs ->
  exists bs, opt_flat_map (SerializeTransaction segsig) txs = Some bs /\ rd_times (length txs) (UnserializeTransaction segsig) (bs ++ s) = Some (map (canon_tx segsig) txs, s).
Proof.
  intros Hok; revert s; induction Hok as [|tx txs Htx _ IH]; intros s; cbn [opt_flat_map length rd_times map]; [by exists []|].
  destruct (IH s) as (bs & E & R). destruct (tx_roundtrip segsig tx (bs ++ s) Htx) as (b & Eb & Rb & _). exists (b ++ bs). rewrite Eb, E. split; [done|].
  rewrite <- app_assoc. unfold rd_bind at 1. rewrite Rb. unfold rd_bind. by rewrite R.
Qed.

(** Two headers that agree on everything but the signature. *)
Definition unsigned (b : CBlockHeader) : CBlockHeader :=
  mkHeader (bh_nVersionPoW2Witness b) (bh_nTimePoW2Witness b) (hashMerkleRootPoW2Witness b) [] (witnessUTXODelta b) (bh_nVersion b) (hashPrevBlock b) (hashMerkleRoot b)
    (bh_nTime b) (bh_nBits b) (nNonce b).
Lemma rt_inj {A} (w : A -> list Z) (r : reader A) (ok : A -> Prop) `{RT : RoundTrip A w r ok} a a' s s' : ok a -> ok a' -> w a ++ s = w a' ++ s' -> a = a' /\ s = s'.
Proof. intros Ha Ha' E. pose proof (RT a s Ha) as R. rewrite E, (RT a' s' Ha') in R. by injection R as -> ->. Qed.
Lemma delta_inj d d' : bytes_ok d -> bytes_ok d' -> Z.of_nat (length d) <= MAX_SIZE -> Z.of_nat (length d') <= MAX_SIZE ->
  (if Z.of_nat (length d) >? 0 then Serialize_bytes d else []) = (if Z.of_nat (length d') >? 0 then Serialize_bytes d' else []) -> d = d'.
Proof.
  intros Hd Hd' Hl Hl'. assert (forall x, bytes_ok x -> Z.of_nat (length x) <= MAX_SIZE -> Serialize_bytes x <> []) as Hne.
  { intros x Hx Hlx E. pose proof (bytes_RoundTrip x [] Hlx) as R. rewrite E in R. by vm_compute in R. }
  destruct (_ >? 0) eqn:E1, (Z.of_nat (length d') >? 0) eqn:E2; zbool; intros E.
  - rewrite <- (app_nil_r (Serialize_bytes d)), <- (app_nil_r (Serialize_bytes d')) in E. by destruct (rt_inj Serialize_bytes Unserialize_bytes (fun v => Z.of_nat (length v) <= MAX_SIZE) d d' [] [] Hl Hl' E).
  - by apply Hne in E.
  - symmetry in E. by apply Hne in E.
  - destruct d; [|cbn in *; lia]. by destruct d'; [|cbn in *; lia].
Qed.

(** ** Theorems *)

(** A block written to disk or to a peer, under any of the version flags, is read back
    as exactly the parts that the flags let through, with all its transactions in order and
    nothing of the stream after it consumed. *)
Theorem block_roundtrip hash_of nType version b s : header_ok (block_header b) -> Forall (fun x => tx_ok (snd x)) (vtx b) ->
  Z.of_nat (length (vtx b)) <= MAX_SIZE -> nType <> SER_GETHASH ->
  exists bs, SerializeBlock nType version b = Some bs /\ UnserializeBlock hash_of nType version (bs ++ s) = Some (carried_block hash_of nType version b, s).
Proof.
  intros Hh Ht Hn Hty. unfold SerializeBlock, UnserializeBlock, carried_block. set (segsig := negb _).
  destruct (txs_roundtrip segsig (map snd (vtx b)) s ltac:(by apply Forall_map)) as (tb & Et & Rt). rewrite length_map in Rt.
  destruct (header_roundtrip nType version (block_header b) (WriteCompactSize (Z.of_nat (length (vtx b))) ++ tb ++ s) Hh Hty) as (hb & Eh & Rh).
  rewrite Eh, Et. eexists. split; [done|]. rewrite <- !app_assoc. unfold rd_bind at 1. rewrite Rh.
  rewrite (rd_bind_rt WriteCompactSize (ReadCompactSize true) _) by (unfold MAX_SIZE in *; lia). rewrite Nat2Z.id. unfold rd_bind. rewrite Rt. unfold rd_ret. by rewrite !map_map.
Qed.

(** C26: Whatever bytes a header is read from, under any version flags and from disk or a
    peer, what is read has the types of its fields and, written again, is exactly the
    bytes that were consumed: the format has one encoding of each header. *)
Theorem header_read_back nType version s b s' : bytes_ok s -> nType <> SER_GETHASH -> UnserializeHeader nType version s = Some (b, s') ->
  header_typed b /\ exists bs, SerializeHeader nType version b = Some bs /\ s = bs ++ s'.
Proof.
  intros Hs Hty. unfold UnserializeHeader, SerializeHeader, header_typed. destruct (with_witness version) eqn:Ew.
  - intros (v & s1 & -> & Hv & Hs1 & E)%(rd_bind_canonical Serialize_int32 Unserialize_int32 _); [|done].
    apply (rd_bind_canonical ser_writedata32 ser_readdata32 _) in E as (t & s2 & -> & Ht & Hs2 & E); [|done].
    apply rd_bytes_canonical in E as (r & s3 & -> & Lr & Hr & Hs3 & E); [|done].
    apply core_canonical in E as (ver & prev & root & time & bits & nonce & s4 & -> & Hver & Hp & Hm & Htm & Hb & Hn & Hs4 & E); [|done].
    apply tail_canonical in E as (sg & d & s5 & -> & Lsg & Hsg & Hd & Ld & N & E); [|done]. injection E as <- <-. header_fields.
    split; [split_and!; try assumption; try lia; by split|]. rewrite !andb_true_r in *. destruct (negb (v =? 0)); cbn [andb] in *.
    + destruct (with_signature version); cbn [andb] in *.
      * rewrite Lsg. cbn [negb Nat.eqb]. eexists. split; [done|]. by rewrite (with_delta_stored _ _ d), <- ?app_assoc by done.
      * eexists. split; [done|]. by rewrite (with_delta_stored _ _ d), <- ?app_assoc by done.
    + eexists. split; [done|]. by rewrite <- !app_assoc.
  - rewrite !rd_bind_ret. intros E.
    apply core_canonical in E as (ver & prev & root & time & bits & nonce & s4 & -> & Hver & Hp & Hm & Htm & Hb & Hn & Hs4 & E); [|done].
    apply tail_canonical in E as (sg & d & s5 & -> & Lsg & Hsg & Hd & Ld & N & E); [|done]. injection E as <- <-. header_fields.
    split; [split_and!; try assumption; try (split; [done|]); try lia; apply Forall_forall; intros x Hx; apply list_elem_of_In in Hx; apply repeat_spec in Hx as ->; lia|]. eexists. split; [done|]. by rewrite <- !app_assoc.
Qed.

(** C25: The hash of a header with a witness version and a witness time other than 0 commits to the whole header but
    the signature: two such headers, with fields in their ranges, and with the same hashed bytes agree on everything else. The time is needed: of
    a header with a witness version and the time 0 the hash leaves the witness out, [timeless_witness_not_hashed]. *)
Theorem witness_hash_commits b b' x : header_ok b -> header_ok b' ->
  bh_nVersionPoW2Witness b <> 0 -> bh_nTimePoW2Witness b <> 0 -> bh_nVersionPoW2Witness b' <> 0 -> bh_nTimePoW2Witness b' <> 0 ->
  pow2_preimage b = Some x -> pow2_preimage b' = Some x -> unsigned b = unsigned b'.
Proof.
  intros (Hv & Ht & Hr & Hver & Hp & Hm & Htm & Hb & Hn & Hd & Hdl & _) (Hv' & Ht' & Hr' & Hver' & Hp' & Hm' & Htm' & Hb' & Hn' & Hd' & Hdl' & _) V T V' T'.
  unfold pow2_preimage, SerializeHeader. rewrite !(proj2 (Z.eqb_neq _ _)) by done. rewrite !with_delta_hash.
  change (with_signature SERIALIZE_BLOCK_HEADER_NO_POW2_WITNESS_SIG) with false. change (with_witness SERIALIZE_BLOCK_HEADER_NO_POW2_WITNESS_SIG) with true.
  cbn [negb andb orb app]. intros E1 E2. rewrite <- E2 in E1. apply (inj Some) in E1 as E. clear E1 E2. rewrite <- !app_assoc in E.
  apply (rt_inj Serialize_int32 Unserialize_int32 _) in E as [E1 E]; [|done..]. apply (rt_inj ser_writedata32 ser_readdata32 _) in E as [E3 E]; [|done..].
  apply app_inj_1 in E as [E4 E]; [|congruence]. apply (rt_inj Serialize_int32 Unserialize_int32 _) in E as [E5 E]; [|done..].
  apply app_inj_1 in E as [E6 E]; [|congruence]. apply app_inj_1 in E as [E7 E]; [|congruence].
  apply (rt_inj ser_writedata32 ser_readdata32 _) in E as [E8 E]; [|done..]. apply (rt_inj ser_writedata32 ser_readdata32 _) in E as [E9 E]; [|done..].
  apply (rt_inj ser_writedata32 ser_readdata32 _) in E as [E10 E]; [|done..]. apply delta_inj in E; [|done..]. unfold unsigned. congruence.
Qed.

Definition sample_header : CBlockHeader := mkHeader 3 1600000000 (repeat 1 32) (repeat 9 65) [1; 2; 3] 4 (repeat 2 32) (repeat 3 32) 1599999999 0x1d00ffff 7.
Lemma sample_header_ok : header_ok sample_header.
Proof. repeat split; try (vm_compute; congruence); repeat constructor; vm_compute; congruence. Qed.

Lemma block_roundtrip_witness : exists bs, SerializeBlock SER_DISK 0 (mkBlock sample_header [] false false) = Some bs /\
  UnserializeBlock (fun _ => null_hash) SER_DISK 0 (bs ++ [5]) = Some (mkBlock sample_header [] false false, [5]).
Proof.
  apply (block_roundtrip (fun _ => null_hash) SER_DISK 0 (mkBlock sample_header [] false false) [5]); [apply sample_header_ok|constructor|vm_compute; congruence|vm_compute; congruence].
Defined.

Definition sample_bytes : list Z := match SerializeHeader SER_DISK 0 sample_header with Some bs => bs | None => [] end.
Lemma header_read_back_witness : length (sample_bytes ++ [5]) = 190%nat /\ exists bs, SerializeHeader SER_DISK 0 sample_header = Some bs /\ sample_bytes ++ [5] = bs ++ [5].
Proof.
  split; [vm_compute; reflexivity|]. apply (fun B N E => proj2 (header_read_back SER_DISK 0 (sample_bytes ++ [5]) sample_header [5] B N E)); [|discriminate|vm_compute; reflexivity].
  repeat constructor; vm_compute; congruence.
Defined.

Lemma witness_hash_commits_witness : unsigned sample_header = unsigned sample_header /\ exists x, pow2_preimage sample_header = Some x.
Proof.
  assert (exists x, pow2_preimage sample_header = Some x) as [x Ex] by (eexists; vm_compute; reflexivity). split; [|by exists x].
  apply (witness_hash_commits sample_header sample_header x); try (apply sample_header_ok); try exact Ex; vm_compute; congruence.
Defined.

(** The hash of a header with a witness version and no witness time is the hash without the
    witness part. *)
Lemma timeless_witness_not_hashed b : bh_nTimePoW2Witness b = 0 -> pow2_preimage b = legacy_preimage b.
Proof. intros E. unfold pow2_preimage. rewrite E. by rewrite orb_true_r. Qed.

(** Without the signatures of the transactions the size of a block leaves out the signature
    of the witness, whose flag is the same bit, and the delta, since the flag changes the
    remainder that stands for the version. *)
Lemma base_size_leaves_out_witness : exists n,
  GetSerializeSize SER_NETWORK (Z.lor PROTOCOL_VERSION SERIALIZE_TRANSACTION_NO_SEGREGATED_SIGNATURES) (mkBlock sample_header [] false false) = Some n /\
  GetBlockWeight (mkBlock sample_header [] false false) = Some (n + 65 + 4).
Proof. eexists. split; vm_compute; reflexivity. Qed.
