(* ===== verification/Script.v ===== *)
(** * Script: script bytes of [src/src/script/script.{h,cpp}]

    Script numbers ([CScriptNum], [CScriptUInt64]), the push operators that
    build a script, the instruction decoder [GetOp2] and the scanners built on
    it: signature operation counting, [FindAndDelete], push-only and
    valid-opcode tests, and the recognisers of the standard forms, among them
    the 74-byte witness script. A position in a script is the rest of its bytes. *)

From S2P Require Import Prelude ArithUint256 Serialize Compressor Transaction.

(** ** Definitions *)

Definition OP_0 : Z := 0x00.
Definition OP_PUSHDATA1 : Z := 0x4c.
Definition OP_PUSHDATA2 : Z := 0x4d.
Definition OP_PUSHDATA4 : Z := 0x4e.
Definition OP_1 : Z := 0x51.
Definition OP_16 : Z := 0x60.
Definition OP_CHECKSIGVERIFY : Z := 0xad.
Definition OP_CHECKMULTISIG : Z := 0xae.
Definition OP_CHECKMULTISIGVERIFY : Z := 0xaf.
Definition OP_INVALIDOPCODE : Z := 0xff.
Definition MAX_OPCODE : Z := 0xb9.
Definition MAX_SCRIPT_ELEMENT_SIZE : Z := 520.
Definition MAX_PUBKEYS_PER_MULTISIG : Z := 20.
Definition LOCKTIME_THRESHOLD : Z := 500000000.

(** *** Numbers *)

(** The [while (absvalue)] loop of [serialize]; eight bytes are enough. *)
Fixpoint abs_bytes (fuel : nat) (absvalue : Z) : list Z :=
  match fuel with
  | O => []
  | S f => if absvalue =? 0 then [] else Z.land absvalue 0xff :: abs_bytes f (Z.shiftr absvalue 8)
  end.

(** Replace the last element. *)
Definition set_back (l : list Z) (x : Z) : list Z := removelast l ++ [x].

Definition CScriptNum_serialize (value : Z) : list Z :=
  if value =? 0 then []
  else
    let neg := value <? 0 in
    let absvalue := u64 (if neg then - value else value) in
    let result := abs_bytes 8 absvalue in
    if negb (Z.land (List.last result 0) 0x80 =? 0) then result ++ [if neg then 0x80 else 0]
    else if neg then set_back result (Z.lor (List.last result 0) 0x80)
    else result.

(** The loop [result |= vch[i] << 8*i]. *)
Fixpoint or_bytes (i : Z) (vch : list Z) (result : Z) : Z :=
  match vch with [] => result | b :: vch' => or_bytes (i + 1) vch' (Z.lor result (Z.shiftl b (8 * i))) end.

Definition CScriptNum_set_vch (vch : list Z) : Z :=
  match vch with
  | [] => 0
  | _ =>
      let result := i64 (or_bytes 0 vch 0) in
      if negb (Z.land (List.last vch 0) 0x80 =? 0)
      then - i64 (Z.land (u64 result) (Z.lnot (Z.shiftl 0x80 (8 * (Z.of_nat (length vch) - 1)))))
      else result
  end.

(** The constructor from bytes; [None] is the thrown [scriptnum_error]. *)
Definition CScriptNum_ofBytes (vch : list Z) (fRequireMinimal : bool) (nMaxNumSize : Z) : option Z :=
  if Z.of_nat (length vch) >? nMaxNumSize then None
  else if fRequireMinimal && (0 <? Z.of_nat (length vch)) && (Z.land (List.last vch 0) 0x7f =? 0)
          && ((Z.of_nat (length vch) <=? 1) || (Z.land (nth (length vch - 2) vch 0) 0x80 =? 0))
  then None
  else Some (CScriptNum_set_vch vch).

Definition CScriptNum_getint (m_value : Z) : Z :=
  if m_value >? 2 ^ 31 - 1 then 2 ^ 31 - 1 else if m_value <? - 2 ^ 31 then - 2 ^ 31 else m_value.

Definition CScriptUInt64_bytes (nNumber : Z) : list Z := le_bytes 8 nNumber.
Definition CScriptUInt64_number (vchNumber : list Z) : Z := or_bytes 0 vchNumber 0.

(** *** Building a script *)

Definition push_data (b : list Z) : list Z :=
  let n := Z.of_nat (length b) in
  (if n <? OP_PUSHDATA1 then [u8 n]
   else if n <=? 0xff then [OP_PUSHDATA1; u8 n]
   else if n <=? 0xffff then OP_PUSHDATA2 :: le_bytes 2 n
   else OP_PUSHDATA4 :: le_bytes 4 n) ++ b.

Definition push_int64 (n : Z) : list Z :=
  if (n =? -1) || ((n >=? 1) && (n <=? 16)) then [n + (OP_1 - 1)]
  else if n =? 0 then [OP_0]
  else push_data (CScriptNum_serialize n).

(** *** Decoding *)

(** [GetOp2] at the rest of a script: opcode, pushed data and the new rest. *)
Definition GetOp2 (pc : list Z) : option (Z * list Z * list Z) :=
  match pc with
  | [] => None
  | opcode :: pc =>
      if opcode <=? OP_PUSHDATA4 then
        let sized :=
          if opcode <? OP_PUSHDATA1 then Some (opcode, pc)
          else if opcode =? OP_PUSHDATA1 then
            if Z.of_nat (length pc) <? 1 then None else Some (byte_at pc 0, skipn 1 pc)
          else if opcode =? OP_PUSHDATA2 then
            if Z.of_nat (length pc) <? 2 then None else Some (le_val (firstn 2 pc), skipn 2 pc)
          else
            if Z.of_nat (length pc) <? 4 then None else Some (le_val (firstn 4 pc), skipn 4 pc) in
        match sized with
        | Some (nSize, pc) =>
            if Z.of_nat (length pc) <? nSize then None
            else Some (opcode, firstn (Z.to_nat nSize) pc, skipn (Z.to_nat nSize) pc)
        | None => None
        end
      else Some (opcode, [], pc)
  end.

(** [None]: the assertion of the source. *)
Definition DecodeOP_N (opcode : Z) : option Z :=
  if opcode =? OP_0 then Some 0
  else if (opcode >=? OP_1) && (opcode <=? OP_16) then Some (opcode - (OP_1 - 1)) else None.
Definition EncodeOP_N (n : Z) : option Z :=
  if (n >=? 0) && (n <=? 16) then Some (if n =? 0 then OP_0 else OP_1 + n - 1) else None.

(** Every iteration of the scanners consumes a byte: the length is enough fuel. *)
Fixpoint GetSigOpCount_loop (fuel : nat) (fAccurate : bool) (pc : list Z) (lastOpcode n : Z) : Z :=
  match fuel with
  | O => n
  | S f =>
      match GetOp2 pc with
      | None => n
      | Some (opcode, _, pc') =>
          let n :=
            if (opcode =? OP_CHECKSIG) || (opcode =? OP_CHECKSIGVERIFY) then u32 (n + 1)
            else if (opcode =? OP_CHECKMULTISIG) || (opcode =? OP_CHECKMULTISIGVERIFY) then
              if fAccurate && (lastOpcode >=? OP_1) && (lastOpcode <=? OP_16)
              then u32 (n + (lastOpcode - (OP_1 - 1)))
              else u32 (n + MAX_PUBKEYS_PER_MULTISIG)
            else n in
          GetSigOpCount_loop f fAccurate pc' opcode n
      end
  end.
Definition GetSigOpCount (script : list Z) (fAccurate : bool) : Z :=
  GetSigOpCount_loop (length script) fAccurate script OP_INVALIDOPCODE 0.

Definition IsPayToScriptHash (script : list Z) : bool :=
  (length script =? 23)%nat && (byte_at script 0 =? OP_HASH160) && (byte_at script 1 =? 0x14)
  && (byte_at script 22 =? OP_EQUAL).

Definition IsPayToPubkeyHash (script : list Z) : option (list Z) :=
  if (length script =? 25)%nat && (byte_at script 0 =? OP_DUP) && (byte_at script 1 =? OP_HASH160)
     && (byte_at script 2 =? 20) && (byte_at script 23 =? OP_EQUALVERIFY) && (byte_at script 24 =? OP_CHECKSIG)
  then Some (slice script 3 20) else None.

(** The last item a push-only script pushes; [None] where the source returns 0. *)
Fixpoint last_push (fuel : nat) (pc vData : list Z) : option (list Z) :=
  match pc with
  | [] => Some vData
  | _ =>
      match fuel with
      | O => None
      | S f =>
          match GetOp2 pc with
          | None => None
          | Some (opcode, v, pc') => if opcode >? OP_16 then None else last_push f pc' v
          end
      end
  end.
Definition GetSigOpCount_p2sh (script scriptSig : list Z) : Z :=
  if negb (IsPayToScriptHash script) then GetSigOpCount script true
  else match last_push (length scriptSig) scriptSig [] with
       | None => 0
       | Some vData => GetSigOpCount vData true
       end.

Fixpoint IsPushOnly_loop (fuel : nat) (pc : list Z) : bool :=
  match pc with
  | [] => true
  | _ =>
      match fuel with
      | O => false
      | S f => match GetOp2 pc with
               | None => false
               | Some (opcode, _, pc') => if opcode >? OP_16 then false else IsPushOnly_loop f pc'
               end
      end
  end.
Definition IsPushOnly (script : list Z) : bool := IsPushOnly_loop (length script) script.

Fixpoint HasValidOps_loop (fuel : nat) (pc : list Z) : bool :=
  match pc with
  | [] => true
  | _ =>
      match fuel with
      | O => false
      | S f => match GetOp2 pc with
               | None => false
               | Some (opcode, item, pc') =>
                   if (opcode >? MAX_OPCODE) || (Z.of_nat (length item) >? MAX_SCRIPT_ELEMENT_SIZE) then false
                   else HasValidOps_loop f pc'
               end
      end
  end.
Definition HasValidOps (script : list Z) : bool := HasValidOps_loop (length script) script.

(** [Find]: the number of instructions with opcode [op] before a decoding error. *)
Fixpoint Find_loop (fuel : nat) (op : Z) (pc : list Z) (nFound : Z) : Z :=
  match fuel with
  | O => nFound
  | S f => match GetOp2 pc with
           | None => nFound
           | Some (opcode, _, pc') => Find_loop f op pc' (if opcode =? op then nFound + 1 else nFound)
           end
  end.
Definition Find (script : list Z) (op : Z) : Z := Find_loop (length script) op script 0.

(** *** FindAndDelete *)

(** The inner loop: skip every copy of [b] at the position. *)
Fixpoint skip_copies (fuel : nat) (b pc : list Z) (nFound : Z) : list Z * Z :=
  match fuel with
  | O => (pc, nFound)
  | S f => if (length b <=? length pc)%nat && bool_decide (firstn (length b) pc = b)
           then skip_copies f b (skipn (length b) pc) (nFound + 1) else (pc, nFound)
  end.
(** One round: [pre] is the instruction passed over since the last round. *)
Fixpoint FindAndDelete_loop (fuel : nat) (b pre pc result : list Z) (nFound : Z) : list Z * Z :=
  let result := result ++ pre in
  let '(pc2, nFound) := skip_copies (length pc) b pc nFound in
  match fuel with
  | O => (result ++ pc2, nFound)
  | S f =>
      match GetOp2 pc2 with
      | None => (result ++ pc2, nFound)
      | Some (_, _, pc') => FindAndDelete_loop f b (firstn (length pc2 - length pc') pc2) pc' result nFound
      end
  end.
Definition FindAndDelete (script b : list Z) : list Z * Z :=
  match b with
  | [] => (script, 0)
  | _ => let '(result, nFound) := FindAndDelete_loop (length script) b [] script [] 0 in
         if nFound >? 0 then (result, nFound) else (script, nFound)
  end.

(** *** Witness script *)

Definition ExtractPoW2WitnessFromScript (script : list Z) : option CTxOutPoW2Witness :=
  if negb (length script =? 74)%nat then None
  else
    match GetOp2 script with
    | Some (opcode, _, it) =>
        if negb (opcode =? OP_0) then None
        else match GetOp2 it with
             | Some (opcode, _, _) =>
                 if negb (opcode =? 72) then None
                 else Some (mkWitnessDetails (slice script 2 20) (slice script 22 20)
                              (CScriptUInt64_number (slice script 42 8)) (CScriptUInt64_number (slice script 50 8))
                              (CScriptUInt64_number (slice script 58 8)) (CScriptUInt64_number (slice script 66 8)))
             | None => None
             end
    | None => None
    end.

(** ** Lemmas: numbers *)

Lemma last_app_one (l : list Z) x : List.last (l ++ [x]) 0 = x.
Proof. apply last_last. Qed.

Lemma abs_bytes_spec f a : 0 <= a < 2 ^ (8 * Z.of_nat f) ->
  bytes_ok (abs_bytes f a) /\ le_val (abs_bytes f a) = a /\
  (0 < a -> abs_bytes f a <> [] /\ 0 < List.last (abs_bytes f a) 0).
Proof.
  revert a; induction f as [|f IH]; intros a Ha; [cbn in Ha; assert (a = 0) by lia; subst; repeat split; lia || constructor|].
  cbn [abs_bytes]. zcase; [subst; repeat split; lia || constructor|].
  change 0xff with (2 ^ 8 - 1). rewrite land_mask, shiftr_div by lia.
  replace (8 * Z.of_nat (S f)) with (8 + 8 * Z.of_nat f) in Ha by lia. rewrite Z.pow_add_r in Ha by lia.
  assert (Ha' : 0 <= a / 2 ^ 8 < 2 ^ (8 * Z.of_nat f))
    by (split; [apply Z.div_pos; lia|apply Z.div_lt_upper_bound; lia]).
  destruct (IH (a / 2 ^ 8) Ha') as (IH1 & IH2 & IH3).
  pose proof (Z.mod_pos_bound a (2 ^ 8) ltac:(lia)). pose proof (Z.div_mod a (2 ^ 8) ltac:(lia)).
  split; [by constructor|]. split; [cbn [le_val]; lia|]. intros _. split; [done|].
  destruct (Z.eq_dec (a / 2 ^ 8) 0) as [Hz|Hz].
  - rewrite Hz in *. destruct f; cbn; lia.
  - destruct (IH3 ltac:(lia)) as [Hne Hl]. destruct (abs_bytes f (a / 2 ^ 8)) as [|x l]; [done|]. exact Hl.
Qed.

Lemma length_abs_bytes f a : (length (abs_bytes f a) <= f)%nat.
Proof. revert a; induction f as [|f IH]; intros a; cbn; [lia|]. zcase; cbn; [lia|]. specialize (IH (Z.shiftr a 8)). lia. Qed.

Lemma le_val_app l l' : le_val (l ++ l') = le_val l + 2 ^ (8 * Z.of_nat (length l)) * le_val l'.
Proof.
  induction l as [|b l IH]; cbn [app le_val length]; [cbn; lia|].
  rewrite IH. replace (8 * Z.of_nat (S (length l))) with (8 + 8 * Z.of_nat (length l)) by lia.
  rewrite Z.pow_add_r by lia. lia.
Qed.

(** The or-accumulating loop is the little-endian value. *)
Lemma or_bytes_val l : forall i r, bytes_ok l -> 0 <= i -> 0 <= r < 2 ^ (8 * i) ->
  or_bytes i l r = r + 2 ^ (8 * i) * le_val l.
Proof.
  induction l as [|b l IH]; intros i r Hl Hi Hr; cbn [or_bytes le_val]; [lia|].
  apply Forall_cons_iff in Hl as [Hb Hl].
  rewrite shiftl_mul, lor_disjoint by lia.
  assert (2 ^ (8 * (i + 1)) = 2 ^ (8 * i) * 2 ^ 8) by (rewrite <- Z.pow_add_r by lia; f_equal; lia).
  rewrite IH; [nia|done|lia|nia].
Qed.

Lemma or_bytes_le l : bytes_ok l -> or_bytes 0 l 0 = le_val l.
Proof. intros. rewrite or_bytes_val by (done || lia). cbn; lia. Qed.

Lemma split_last (l : list Z) : l <> [] -> l = removelast l ++ [List.last l 0].
Proof. apply app_removelast_last. Qed.

(** Clearing the sign bit of the top byte. *)
Lemma clear_sign n v b : 0 <= n -> 0 <= v < 2 ^ (8 * n) -> 0 <= b < 128 ->
  Z.land (v + 2 ^ (8 * n) * (b + 128)) (Z.lnot (Z.shiftl 0x80 (8 * n))) = v + 2 ^ (8 * n) * b.
Proof.
  intros Hn Hv Hb. change (Z.shiftl 0x80 (8 * n)) with (Z.shiftl (2 ^ 7) (8 * n)).
  rewrite shiftl_mul, <- Z.pow_add_r by lia.
  assert (Hp : 2 ^ (7 + 8 * n) = 128 * 2 ^ (8 * n)) by (rewrite Z.pow_add_r by lia; done).
  set (x := v + 2 ^ (8 * n) * b). assert (Hx : 0 <= x < 2 ^ (7 + 8 * n)) by (unfold x; nia).
  replace (v + 2 ^ (8 * n) * (b + 128)) with (x + 1 * 2 ^ (7 + 8 * n)) by (unfold x; lia).
  rewrite <- lor_disjoint by lia. rewrite Z.mul_1_l.
  apply Z.bits_inj'; intros i Hi. rewrite Z.land_spec, Z.lor_spec, Z.lnot_spec, Z.pow2_bits_eqb by lia.
  destruct (Z.eqb_spec (7 + 8 * n) i) as [<-|]; [|by rewrite orb_false_r, andb_true_r].
  rewrite andb_false_r. symmetry. by apply (testbit_above (7 + 8 * n)).
Qed.

(** [set_vch] on at most eight bytes: magnitude with the sign in the top bit. *)
Lemma set_vch_spec l b : bytes_ok l -> 0 <= b < 256 -> (length l <= 7)%nat ->
  CScriptNum_set_vch (l ++ [b]) =
  (if b <? 128 then le_val l + 2 ^ (8 * Z.of_nat (length l)) * b
   else - (le_val l + 2 ^ (8 * Z.of_nat (length l)) * (b - 128))).
Proof.
  intros Hl Hb Hlen. set (n := Z.of_nat (length l)).
  assert (Hne : exists x t, l ++ [b] = x :: t) by (destruct l; by eexists _, _). destruct Hne as (x & t & E).
  unfold CScriptNum_set_vch. rewrite E, <- E. rewrite last_app_one.
  change (Z.land b 0x80) with (Z.land b (2 ^ 7)). rewrite (land_topbit 7) by lia. change (2 ^ 7) with 128.
  rewrite or_bytes_le by (apply Forall_app; split; [done|by apply Forall_singleton]).
  rewrite le_val_app. cbn [le_val]. rewrite Z.mul_0_r, Z.add_0_r.
  pose proof (le_val_fits l Hl) as Hf. unfold fits in Hf. fold n in Hf |- *.
  assert (Hp : 1 <= 2 ^ (8 * n) <= 2 ^ 56).
  { split; [apply Z.lt_pred_le; cbn; apply Z.pow_pos_nonneg; lia|apply Z.pow_le_mono_r; lia]. }
  rewrite length_app, Nat2Z.inj_add. change (Z.of_nat (length [b])) with 1. rewrite Z.add_simpl_r. fold n.
  destruct (b <? 128) eqn:Eb; zbool; cbn [negb].
  - apply i64_small. nia.
  - assert (Hu : u64 (i64 (le_val l + 2 ^ (8 * n) * b)) = le_val l + 2 ^ (8 * n) * b).
    { unfold u64, i64, uwrap, swrap. change (64 - 1) with 63. rewrite Zminus_mod_idemp_l.
      rewrite Z.add_simpl_r. apply Z.mod_small. nia. }
    rewrite Hu. replace b with ((b - 128) + 128) at 1 by lia. rewrite clear_sign by lia.
    rewrite i64_small; nia.
Qed.

(** A magnitude splits into its top byte and the rest. *)
Lemma abs_bytes_split a : 0 < a < 2 ^ 63 -> exists l b, abs_bytes 8 a = l ++ [b] /\ bytes_ok l /\ 0 < b < 256 /\
  (length l <= 7)%nat /\ a = le_val l + 2 ^ (8 * Z.of_nat (length l)) * b /\ (length l = 7%nat -> b < 128).
Proof.
  intros Ha. destruct (abs_bytes_spec 8 a ltac:(cbn; lia)) as (Hok & Hv & Hne).
  destruct (Hne ltac:(lia)) as [Hnil Hlast]. pose proof (length_abs_bytes 8 a) as Hlen.
  rewrite (split_last _ Hnil) in Hok, Hv, Hlen. exists (removelast (abs_bytes 8 a)), (List.last (abs_bytes 8 a) 0).
  rewrite length_app in Hlen. cbn [length] in Hlen. apply Forall_app in Hok as [Hok Hb]. apply Forall_inv in Hb.
  rewrite le_val_app in Hv. cbn [le_val] in Hv. rewrite Z.mul_0_r, Z.add_0_r in Hv.
  pose proof (le_val_fits _ Hok) as Hf. unfold fits in Hf.
  split_and!; try done; try lia; [by apply split_last|].
  intros E7. rewrite E7 in *. change (2 ^ (8 * Z.of_nat 7)) with (2 ^ 56) in *. lia.
Qed.

Lemma abs_bytes_inv f l b : bytes_ok l -> 0 < b < 256 -> (length l < f)%nat ->
  abs_bytes f (le_val (l ++ [b])) = l ++ [b].
Proof.
  revert f; induction l as [|x l IH]; intros [|f] Hl Hb Hf; cbn [length] in Hf; try lia.
  - cbn [app le_val abs_bytes]. rewrite Z.mul_0_r, Z.add_0_r, (proj2 (Z.eqb_neq b 0)) by lia.
    change 0xff with (2 ^ 8 - 1). rewrite land_mask, shiftr_div, Z.mod_small, Z.div_small by lia. by destruct f.
  - apply Forall_cons_iff in Hl as [Hx Hl]. cbn [app le_val abs_bytes].
    assert (0 < le_val (l ++ [b])).
    { rewrite le_val_app. cbn [le_val]. pose proof (le_val_fits l Hl) as Hv. unfold fits in Hv.
      assert (0 < 2 ^ (8 * Z.of_nat (length l))) by (apply Z.pow_pos_nonneg; lia). nia. }
    rewrite (proj2 (Z.eqb_neq _ 0)) by lia. change 0xff with (2 ^ 8 - 1). rewrite land_mask, shiftr_div by lia.
    rewrite (Z.mul_comm (2 ^ 8)), Z.mod_add, Z.mod_small, Z.div_add, (Z.div_small x), Z.add_0_l by lia.
    by rewrite IH by (done || lia).
Qed.

(** [serialize] from the bytes of the magnitude. *)
Lemma serialize_spec n l b : n <> 0 -> - 2 ^ 63 < n < 2 ^ 63 -> abs_bytes 8 (Z.abs n) = l ++ [b] -> 0 <= b < 256 ->
  CScriptNum_serialize n =
  (if b <? 128 then l ++ [if n <? 0 then b + 128 else b] else l ++ [b] ++ [if n <? 0 then 128 else 0]).
Proof.
  intros Hn Hr E Hb. unfold CScriptNum_serialize. rewrite (proj2 (Z.eqb_neq n 0)) by lia.
  assert (u64 (if n <? 0 then - n else n) = Z.abs n) as -> by (zcase; rewrite u64_small; lia).
  rewrite E, last_app_one. change (Z.land b 0x80) with (Z.land b (2 ^ 7)). rewrite (land_topbit 7) by lia.
  change (2 ^ 7) with 128. destruct (b <? 128) eqn:Eb; zbool; cbn [negb].
  - unfold set_back. rewrite removelast_last. change (Z.lor b 128) with (Z.lor b (1 * 2 ^ 7)). rewrite lor_disjoint by lia.
    by destruct (n <? 0).
  - by rewrite <- app_assoc.
Qed.

Lemma scriptnum_value n : - 2 ^ 63 < n < 2 ^ 63 -> CScriptNum_set_vch (CScriptNum_serialize n) = n.
Proof.
  intros Hn. destruct (Z.eq_dec n 0) as [->|Hz]; [done|].
  destruct (abs_bytes_split (Z.abs n) ltac:(lia)) as (l & b & E & Hl & Hb & Hlen & Hv & H7).
  rewrite (serialize_spec n l b Hz Hn E) by lia.
  destruct (b <? 128) eqn:Eb; zbool.
  - rewrite set_vch_spec by (try zcase; done || lia). destruct (n <? 0) eqn:En; zbool.
    + rewrite (proj2 (Z.ltb_ge _ _)), Z.add_simpl_r by lia. lia.
    + rewrite (proj2 (Z.ltb_lt _ _)) by lia. lia.
  - rewrite app_assoc. assert (length l <= 6)%nat by (destruct (decide (length l = 7%nat)); lia).
    rewrite set_vch_spec; [|apply Forall_app; split; [done|apply Forall_singleton; lia]|zcase; lia|rewrite length_app; cbn; lia].
    rewrite le_val_app. cbn [le_val]. destruct (n <? 0) eqn:En; zbool; cbn [Z.ltb Z.compare Pos.compare Pos.compare_cont]; lia.
Qed.

Lemma and7f b : 0 <= b < 256 -> Z.land b 0x7f = b mod 128.
Proof. intros. change 0x7f with (2 ^ 7 - 1). by rewrite land_mask. Qed.

Lemma nth_length_last x (l : list Z) : nth (length l) (x :: l) 0 = List.last (x :: l) 0.
Proof. revert x; induction l as [|y l IH]; intros x; [done|]. apply IH. Qed.

(** The minimality test of the constructor on the last two bytes. *)
Lemma ofBytes_last l b mx : 0 <= b < 256 -> CScriptNum_ofBytes (l ++ [b]) true mx =
  (if Z.of_nat (length l) + 1 >? mx then None
   else if (b mod 128 =? 0) && ((length l =? 0)%nat || (Z.land (List.last l 0) 0x80 =? 0)) then None
   else Some (CScriptNum_set_vch (l ++ [b]))).
Proof.
  intros Hb. unfold CScriptNum_ofBytes. rewrite length_app, Nat2Z.inj_add, last_app_one, and7f by done.
  change (Z.of_nat (length [b])) with 1. zcase; [done|]. rewrite (proj2 (Z.ltb_lt 0 _)) by lia. cbn [andb].
  assert ((length l + length [b] - 2 = length l - 1)%nat) as -> by (cbn; lia).
  replace (Z.of_nat (length l) + 1 <=? 1) with (length l =? 0)%nat
    by (apply eq_true_iff_eq; rewrite Nat.eqb_eq, Z.leb_le; lia).
  destruct l as [|x l]; [done|]. cbn [length Nat.eqb orb].
  assert (nth (S (length l) - 1) ((x :: l) ++ [b]) 0 = List.last (x :: l) 0) as ->; [|done].
  rewrite app_nth1 by (cbn; lia). cbn [Nat.sub]. rewrite Nat.sub_0_r. apply nth_length_last.
Qed.

Lemma scriptnum_minimal n mx : - 2 ^ 63 < n < 2 ^ 63 -> Z.of_nat (length (CScriptNum_serialize n)) <= mx ->
  CScriptNum_ofBytes (CScriptNum_serialize n) true mx = Some n.
Proof.
  intros Hn Hmx. pose proof (scriptnum_value n Hn) as Hval. destruct (Z.eq_dec n 0) as [->|Hz].
  { cbn in *. unfold CScriptNum_ofBytes. cbn [length]. rewrite Z.gtb_ltb, (proj2 (Z.ltb_ge _ _)) by (cbn; lia). done. }
  destruct (abs_bytes_split (Z.abs n) ltac:(lia)) as (l & b & E & Hl & Hb & Hlen & Hv & H7).
  rewrite (serialize_spec n l b Hz Hn E) in * by lia. destruct (b <? 128) eqn:Eb; zbool.
  - rewrite length_app in Hmx. cbn [length] in Hmx. rewrite ofBytes_last by (zcase; lia).
    rewrite Z.gtb_ltb, (proj2 (Z.ltb_ge _ _)) by lia. rewrite (proj2 (Z.eqb_neq _ 0)); [cbn [andb]; by rewrite Hval|].
    zcase; zdm; lia.
  - rewrite app_assoc in *. rewrite length_app in Hmx. cbn [length] in Hmx. rewrite ofBytes_last by (zcase; lia).
    rewrite Z.gtb_ltb, (proj2 (Z.ltb_ge _ _)) by lia. rewrite last_app_one.
    change (Z.land b 0x80) with (Z.land b (2 ^ 7)). rewrite (land_topbit 7) by lia. change (2 ^ 7) with 128.
    rewrite (proj2 (Z.ltb_ge b 128)), length_app by lia. cbn [length]. rewrite Nat.add_1_r. cbn [Nat.eqb orb].
    rewrite andb_false_r. by rewrite Hval.
Qed.

Lemma scriptnum_canonical vch mx n : bytes_ok vch -> mx <= 8 -> CScriptNum_ofBytes vch true mx = Some n ->
  CScriptNum_serialize n = vch /\ - 2 ^ 63 < n < 2 ^ 63.
Proof.
  intros Hok Hmx. destruct (decide (vch = [])) as [->|Hne].
  { unfold CScriptNum_ofBytes. cbn [length]. zcase; [done|]. intros [= <-]. done. }
  rewrite (split_last vch Hne) in *. set (l := removelast vch) in *. set (b := List.last vch 0) in *.
  clearbody l b. apply Forall_app in Hok as [Hl Hb]. apply Forall_inv in Hb.
  rewrite ofBytes_last by done. destruct (_ >? mx) eqn:Esz; [done|]. zbool.
  destruct ((b mod 128 =? 0) && _) eqn:Emin; [done|]. intros [= <-].
  rewrite set_vch_spec by (done || lia). pose proof (le_val_fits l Hl) as Hf. unfold fits in Hf.
  assert (Hp : 1 <= 2 ^ (8 * Z.of_nat (length l)) <= 2 ^ 56).
  { split; [apply Z.lt_pred_le; cbn; apply Z.pow_pos_nonneg; lia|apply Z.pow_le_mono_r; lia]. }
  set (P := 2 ^ (8 * Z.of_nat (length l))) in *.
  set (v := if b <? 128 then le_val l + P * b else - (le_val l + P * (b - 128))).
  assert (Habs : Z.abs v = le_val l + P * (b mod 128)).
  { unfold v. destruct (b <? 128) eqn:Eb; zbool; [rewrite Z.mod_small by lia|replace (b mod 128) with (b - 128) by (zdm; lia)]; nia. }
  assert (Hrange : 0 <= Z.abs v < 2 ^ 63) by (rewrite Habs; pose proof (Z.mod_pos_bound b 128 ltac:(lia)); nia).
  split; [|lia]. destruct (Z.eq_dec (b mod 128) 0) as [Hb0|Hb0].
  - rewrite Hb0 in *. rewrite Z.eqb_refl in Emin. cbn [andb] in Emin. apply orb_false_iff in Emin as [El Ec].
    assert (Hlne : l <> []) by (intros ->; done).
    destruct (exists_last Hlne) as [l2 [c ->]]. rewrite last_app_one in Ec. apply Forall_app in Hl as [Hl2 Hc]. apply Forall_inv in Hc.
    change (Z.land c 0x80) with (Z.land c (2 ^ 7)) in Ec. rewrite (land_topbit 7) in Ec by (cbn; lia). change (2 ^ 7) with 128 in Ec. zbool.
    rewrite length_app in *. cbn [length] in *.
    assert (0 < Z.abs v) by (rewrite Habs, le_val_app; cbn [le_val]; pose proof (le_val_fits l2 Hl2) as Hf2; unfold fits in Hf2;
      assert (0 < 2 ^ (8 * Z.of_nat (length l2))) by (apply Z.pow_pos_nonneg; lia); nia).
    rewrite (serialize_spec v l2 c); [|lia|lia| |lia].
    + rewrite (proj2 (Z.ltb_ge c 128)), app_assoc by lia. f_equal. f_equal.
      assert (b = 0 \/ b = 128) as [Eb|Eb] by (zdm; lia).
      * assert (v = le_val (l2 ++ [c])) by (unfold v; rewrite (proj2 (Z.ltb_lt b 128)), Eb by lia; lia).
        rewrite (proj2 (Z.ltb_ge v 0)) by lia. done.
      * assert (v = - le_val (l2 ++ [c])) by (unfold v; rewrite (proj2 (Z.ltb_ge b 128)), Eb by lia; lia).
        rewrite (proj2 (Z.ltb_lt v 0)) by lia. done.
    + rewrite Habs, Z.mul_0_r, Z.add_0_r. apply abs_bytes_inv; [done|lia|lia].
  - rewrite (serialize_spec v l (b mod 128)); [| | |rewrite Habs|]; pose proof (Z.mod_pos_bound b 128 ltac:(lia)); try lia; try nia.
    + rewrite (proj2 (Z.ltb_lt _ 128)) by lia. f_equal. f_equal. unfold v. destruct (b <? 128) eqn:Eb; zbool.
      * rewrite (proj2 (Z.ltb_ge _ 0)), Z.mod_small by nia. done.
      * rewrite (proj2 (Z.ltb_lt _ 0)); [zdm; lia|]. assert (b mod 128 = b - 128) by (zdm; lia). nia.
    + replace (le_val l + P * (b mod 128)) with (le_val (l ++ [b mod 128])) by (rewrite le_val_app; cbn [le_val]; fold P; lia).
      apply abs_bytes_inv; [done|lia|lia].
Qed.

(** ** Lemmas: decoding *)

Lemma GetOp2_consumes pc op v pc' : GetOp2 pc = Some (op, v, pc') ->
  (length pc' < length pc)%nat /\ (length v <= length pc)%nat /\ op = byte_at pc 0.
Proof.
  destruct pc as [|opcode pc]; [done|]. cbn [GetOp2 byte_at nth].
  destruct (opcode <=? OP_PUSHDATA4); [|intros [= <- <- <-]; cbn; lia].
  match goal with |- context [match ?s with Some _ => _ | None => _ end] =>
    assert (Hs : forall n q, s = Some (n, q) -> (length q <= length pc)%nat) end.
  { intros n q. repeat zcase; intros [= <- <-]; rewrite ?length_skipn; lia. }
  match goal with |- match ?s with Some _ => _ | None => _ end = _ -> _ => destruct s as [[n q]|] end; [|done].
  specialize (Hs n q eq_refl). zcase; [done|]. intros [= <- <- <-]. rewrite length_firstn, length_skipn. cbn. lia.
Qed.

(** A pushed item is decoded back. *)
(** The opcode [push_data] chooses for so many bytes. *)
Definition push_opcode (n : Z) : Z :=
  if n <? OP_PUSHDATA1 then n else if n <=? 0xff then OP_PUSHDATA1 else if n <=? 0xffff then OP_PUSHDATA2 else OP_PUSHDATA4.

Lemma GetOp2_push_opcode b rest : Z.of_nat (length b) < 2 ^ 32 ->
  GetOp2 (push_data b ++ rest) = Some (push_opcode (Z.of_nat (length b)), b, rest) /\ 0 <= push_opcode (Z.of_nat (length b)) <= OP_PUSHDATA4.
Proof.
  intros Hb. unfold push_data, push_opcode. set (n := Z.of_nat (length b)) in *.
  assert (Hn : 0 <= n) by lia.
  assert (Hfin : forall op, 0 <= op <= OP_PUSHDATA4 ->
     (if Z.of_nat (length (b ++ rest)) <? n then None
      else Some (op, firstn (Z.to_nat n) (b ++ rest), skipn (Z.to_nat n) (b ++ rest))) = Some (op, b, rest)).
  { intros op _. rewrite length_app, (proj2 (Z.ltb_ge _ _)) by lia. unfold n. rewrite Nat2Z.id.
    by rewrite take_app_length, drop_app_length. }
  unfold OP_PUSHDATA1, OP_PUSHDATA2, OP_PUSHDATA4 in *.
  destruct (n <? 76) eqn:E1; zbool; [|destruct (n <=? 255) eqn:E2; zbool; [|destruct (n <=? 65535) eqn:E3; zbool]];
    rewrite <- app_assoc.
  - rewrite u8_small by lia. cbn [app GetOp2]. unfold OP_PUSHDATA1, OP_PUSHDATA4.
    rewrite (proj2 (Z.leb_le _ _)), (proj2 (Z.ltb_lt _ _)) by lia. split; [apply Hfin|]; lia.
  - cbn [app GetOp2 byte_at nth skipn length]. unfold OP_PUSHDATA1, OP_PUSHDATA4.
    cbn [Z.leb Z.ltb Z.eqb Z.compare Pos.compare Pos.compare_cont Pos.eqb].
    rewrite (proj2 (Z.ltb_ge _ _)) by lia. rewrite u8_small by lia. split; [apply Hfin|]; lia.
  - cbn [app GetOp2]. unfold OP_PUSHDATA1, OP_PUSHDATA2, OP_PUSHDATA4.
    cbn [Z.leb Z.ltb Z.eqb Z.compare Pos.compare Pos.compare_cont Pos.eqb].
    rewrite length_app, length_le_bytes. rewrite (proj2 (Z.ltb_ge _ _)) by lia.
    rewrite (take_app_length' (le_bytes 2 n)), (drop_app_length' (le_bytes 2 n)) by (by rewrite length_le_bytes).
    rewrite le_val_bytes by (unfold fits; cbn; lia). split; [apply Hfin|]; lia.
  - cbn [app GetOp2]. unfold OP_PUSHDATA1, OP_PUSHDATA2, OP_PUSHDATA4.
    cbn [Z.leb Z.ltb Z.eqb Z.compare Pos.compare Pos.compare_cont Pos.eqb].
    rewrite length_app, length_le_bytes. rewrite (proj2 (Z.ltb_ge _ _)) by lia.
    rewrite (take_app_length' (le_bytes 4 n)), (drop_app_length' (le_bytes 4 n)) by (by rewrite length_le_bytes).
    rewrite le_val_bytes by (unfold fits; cbn; lia). split; [apply Hfin|]; lia.
Qed.

Lemma GetOp2_push b rest : Z.of_nat (length b) < 2 ^ 32 ->
  exists op, GetOp2 (push_data b ++ rest) = Some (op, b, rest) /\ 0 <= op <= OP_PUSHDATA4.
Proof. intros Hb. eexists. by apply GetOp2_push_opcode. Qed.

Lemma GetSigOpCount_loop_bound f fAccurate : forall pc lastOp n, (length pc <= f)%nat -> 0 <= n ->
  n + 20 * Z.of_nat (length pc) < 2 ^ 32 ->
  n <= GetSigOpCount_loop f fAccurate pc lastOp n <= n + 20 * Z.of_nat (length pc).
Proof.
  induction f as [|f IH]; intros pc lastOp n Hf Hn Hb; cbn [GetSigOpCount_loop]; [lia|].
  destruct (GetOp2 pc) as [[[op v] pc']|] eqn:E; [|lia]. apply GetOp2_consumes in E as (Hl & _ & _).
  match goal with |- context [GetSigOpCount_loop f fAccurate pc' op ?m] => assert (Hm : n <= m <= n + 20) end.
  { unfold MAX_PUBKEYS_PER_MULTISIG, OP_1, OP_16.
    destruct ((op =? OP_CHECKSIG) || (op =? OP_CHECKSIGVERIFY)); [rewrite u32_small; lia|].
    destruct ((op =? OP_CHECKMULTISIG) || (op =? OP_CHECKMULTISIGVERIFY)); [|lia].
    destruct (fAccurate && (lastOp >=? 81) && (lastOp <=? 96)) eqn:Ea; zbool; rewrite u32_small; lia. }
  specialize (IH pc' op _ ltac:(lia) (proj1 (conj (Z.le_trans _ _ _ Hn (proj1 Hm)) I))). lia.
Qed.

(** Push-only scripts: the scanner accepts exactly the sequences of pushes. *)
Lemma IsPushOnly_push f b rest : Z.of_nat (length b) < 2 ^ 32 -> (length (push_data b ++ rest) <= f)%nat ->
  IsPushOnly_loop f (push_data b ++ rest) = IsPushOnly_loop (f - 1) rest.
Proof.
  intros Hb Hf. destruct (GetOp2_push b rest Hb) as (op & E & Hop).
  destruct (push_data b ++ rest) as [|x t] eqn:Ept; [done|]. destruct f as [|f]; [cbn in Hf; lia|].
  cbn [IsPushOnly_loop]. rewrite E. unfold OP_PUSHDATA4, OP_16 in *.
  rewrite Z.gtb_ltb, (proj2 (Z.ltb_ge _ _)) by lia. cbn [Nat.sub]. by rewrite Nat.sub_0_r.
Qed.

Lemma IsPushOnly_fuel f f' pc : (length pc <= f)%nat -> (length pc <= f')%nat -> IsPushOnly_loop f pc = IsPushOnly_loop f' pc.
Proof.
  revert f' pc; induction f as [|f IH]; intros [|f'] [|x pc] Hf Hf'; cbn [length] in *; try lia; try done.
  cbn [IsPushOnly_loop]. destruct (GetOp2 (x :: pc)) as [[[op v] pc']|] eqn:E; [|done].
  apply GetOp2_consumes in E as (Hl & _ & _). cbn [length] in Hl. destruct (op >? OP_16); [done|]. apply IH; lia.
Qed.

(** ** Theorems *)

(** script numbers: [serialize] and the byte constructor with minimal encoding
    required are inverse of each other. Every 64-bit number but the smallest
    is read back from its bytes, and every byte string the constructor accepts
    is the encoding of the number it returns, so a number has one encoding. *)
Theorem scriptnum_bijective mx : mx <= 8 ->
  (forall n, - 2 ^ 63 < n < 2 ^ 63 -> Z.of_nat (length (CScriptNum_serialize n)) <= mx ->
     CScriptNum_ofBytes (CScriptNum_serialize n) true mx = Some n) /\
  (forall vch n, bytes_ok vch -> CScriptNum_ofBytes vch true mx = Some n -> CScriptNum_serialize n = vch).
Proof.
  intros Hmx. split.
  - intros n Hn Hl. by apply scriptnum_minimal.
  - intros vch n Hok E. by apply (scriptnum_canonical vch mx n Hok Hmx).
Qed.

Lemma scriptnum_bijective_witness : CScriptNum_ofBytes (CScriptNum_serialize (-255)) true 4 = Some (-255).
Proof.
  destruct (scriptnum_bijective 4) as [H _]; [discriminate|]. apply H; [split; reflexivity|discriminate].
Defined.

(** pushing items onto a script with [operator<<] and decoding it with [GetOp]
    gives the items back one by one, whichever of the four push forms their
    length selects, and the script built is push-only. *)
Theorem pushes_decode items rest : Forall (fun b => Z.of_nat (length b) < 2 ^ 32) items ->
  (forall b items', items = b :: items' ->
     exists op, GetOp2 (flat_map push_data items ++ rest) = Some (op, b, flat_map push_data items' ++ rest)) /\
  IsPushOnly (flat_map push_data items) = true.
Proof.
  intros Hall. split.
  - intros b items' ->. apply Forall_inv in Hall. cbn [flat_map]. rewrite <- app_assoc.
    destruct (GetOp2_push b (flat_map push_data items' ++ rest) Hall) as (op & E & _). by exists op.
  - unfold IsPushOnly. induction Hall as [|b items Hb Hitems IH]; [done|]. cbn [flat_map].
    rewrite IsPushOnly_push by done. rewrite <- IH. apply IsPushOnly_fuel; [|done].
    rewrite length_app. unfold push_data. rewrite length_app.
    match goal with |- context [length (if ?c then _ else _)] => destruct c; [cbn [length]; lia|] end.
    repeat zcase; cbn [length]; lia.
Qed.

Lemma pushes_decode_witness : exists op, GetOp2 (flat_map push_data [repeat 1 80; [2]] ++ [9]) = Some (op, repeat 1 80, [1; 2; 9]).
Proof.
  destruct (pushes_decode [repeat 1 80; [2]] [9]) as [H _]; [repeat constructor|].
  destruct (H (repeat 1 80) [[2]] eq_refl) as [op E]. exists op. exact E.
Defined.

(** the number of signature operations counted for a script is at most 20 per
    script byte and the 32-bit counter does not wrap, for any script that fits
    in a block (below 200 MB); the scan always ends. *)
Theorem sigop_count_bounded script fAccurate : 20 * Z.of_nat (length script) < 2 ^ 32 ->
  0 <= GetSigOpCount script fAccurate <= 20 * Z.of_nat (length script).
Proof.
  intros H. unfold GetSigOpCount.
  pose proof (GetSigOpCount_loop_bound (length script) fAccurate script OP_INVALIDOPCODE 0 ltac:(lia) ltac:(lia) ltac:(lia)). lia.
Qed.

Lemma sigop_count_bounded_witness : GetSigOpCount [OP_CHECKSIG; 82; OP_CHECKMULTISIG] true <= 60.
Proof. apply (sigop_count_bounded [OP_CHECKSIG; 82; OP_CHECKMULTISIG] true). reflexivity. Defined.
