(* ===== verification/ConsensusParams.v ===== *)
(** * ConsensusParams: network parameters, PoW2 phases and the block subsidy

    [Consensus::Params] and the network kind as records ([consensus/params.h],
    [chainparams.{h,cpp}]), the phase predicates and lock limits of
    [witnessutil.cpp] and the subsidy table of [validation/validation_misc.cpp]. *)

From S2P Require Import Prelude Compressor.

(** ** Definitions *)

Record ConsensusParams := mkConsensus {
  fixedRewardReductionHeight : Z;
  pow2Phase2FirstBlockHeight : Z;
  pow2Phase3FirstBlockHeight : Z;
  devBlockSubsidyActivationHeight : Z;
  pow2Phase4FirstBlockHeight : Z;
  pow2Phase5FirstBlockHeight : Z;
  pow2WitnessSyncHeight : Z;
  halvingIntroductionHeight : Z;
  finalSubsidyBlockHeight : Z;
  fPowNoRetargeting : bool;
  nPowTargetSpacing : Z
}.

Record ChainParams := mkChainParams {
  fIsOfficialTestnetV1 : bool;
  fIsTestnet : bool;
  fIsRegtest : bool;
  fIsRegtestLegacy : bool;
  consensus : ConsensusParams
}.

(** [CMainParams] *)
Definition main_consensus : ConsensusParams :=
  mkConsensus 250001 778177 778301 1030001 1131652 1140958 1400000 1400000 433009988 false 150.
Definition CMainParams : ChainParams := mkChainParams false false false false main_consensus.

(** *** Phases; a block index is given by its height, a null pointer is [None]. *)

Section Phases.
Variable p : ChainParams.

Definition IsPow2Phase2Active (pindexPrev : option Z) : bool :=
  match pindexPrev with Some h => u64 h >=? pow2Phase2FirstBlockHeight (consensus p) | None => false end.
Definition IsPow2Phase3Active (nHeight : Z) : bool := nHeight >=? pow2Phase3FirstBlockHeight (consensus p).
Definition IsPow2Phase4Active (pindexPrev : option Z) : bool :=
  match pindexPrev with Some h => u64 h >=? pow2Phase4FirstBlockHeight (consensus p) | None => false end.
Definition IsPow2Phase5Active (nHeight : Z) : bool := nHeight >=? pow2Phase5FirstBlockHeight (consensus p).
Definition IsPow2Phase5Active_index (pIndex : option Z) : bool :=
  match pIndex with Some h => IsPow2Phase5Active (u64 h) | None => false end.
Definition IsPow2WitnessingActive (nHeight : Z) : bool := IsPow2Phase3Active nHeight.

Definition GetPoW2Phase (pindexPrev : option Z) : Z :=
  if IsPow2Phase2Active pindexPrev then
    if IsPow2Phase3Active (match pindexPrev with Some h => u64 h | None => 0 end) then
      if IsPow2Phase4Active pindexPrev then 4 else 3
    else 2
  else 1.

(** *** Lock limits *)

Definition gRefactorDailyBlocksUsage : Z := 576.
Definition gMinimumWitnessLockDays : Z := 30.
Definition gMaximumWitnessLockDays : Z := 3 * 365.

Definition DailyBlocksTarget : Z := Z.quot (24 * 60 * 60) (nPowTargetSpacing (consensus p)).
Definition MinimumWitnessLockLength : Z :=
  if fIsOfficialTestnetV1 p then gMinimumWitnessLockDays * gRefactorDailyBlocksUsage
  else if fIsTestnet p then 50
  else gMinimumWitnessLockDays * DailyBlocksTarget.
Definition MaximumWitnessLockLength : Z :=
  if fIsTestnet p then gMaximumWitnessLockDays * gRefactorDailyBlocksUsage
  else gMaximumWitnessLockDays * DailyBlocksTarget.

(** *** Subsidy *)

Definition MILLICENT : Z := 1000.

Record BlockSubsidy := mkSubsidy { mining : Z; witness : Z; dev : Z }.
Definition total (s : BlockSubsidy) : Z := mining s + witness s + dev s.

(** The table of the [switch] over the halvings. *)
Definition halving_table (nHalvings : Z) : option (Z * Z) :=
  match nHalvings with
  | 0 => Some (1000000 * MILLICENT, 1500000 * MILLICENT)
  | 1 => Some (500000 * MILLICENT, 750000 * MILLICENT)
  | 2 => Some (200000 * MILLICENT, 400000 * MILLICENT)
  | 3 => Some (100000 * MILLICENT, 200000 * MILLICENT)
  | 4 => Some (50000 * MILLICENT, 100000 * MILLICENT)
  | 5 => Some (20000 * MILLICENT, 50000 * MILLICENT)
  | 6 => Some (10000 * MILLICENT, 20000 * MILLICENT)
  | 7 => Some (5000 * MILLICENT, 10000 * MILLICENT)
  | 8 => Some (2000 * MILLICENT, 5000 * MILLICENT)
  | 9 => Some (1000 * MILLICENT, 2000 * MILLICENT)
  | 10 => Some (500 * MILLICENT, 1000 * MILLICENT)
  | 11 => Some (200 * MILLICENT, 500 * MILLICENT)
  | 12 => Some (100 * MILLICENT, 200 * MILLICENT)
  | 13 => Some (50 * MILLICENT, 100 * MILLICENT)
  | 14 => Some (20 * MILLICENT, 50 * MILLICENT)
  | 15 => Some (10 * MILLICENT, 20 * MILLICENT)
  | 16 => Some (5 * MILLICENT, 10 * MILLICENT)
  | 17 => Some (2 * MILLICENT, 5 * MILLICENT)
  | 18 => Some (1 * MILLICENT, 2 * MILLICENT)
  | 19 => Some (500, 1 * MILLICENT)
  | 20 => Some (200, 500)
  | 21 => Some (100, 200)
  | 22 => Some (50, 100)
  | 23 => Some (20, 50)
  | 24 => Some (10, 20)
  | 25 => Some (5, 10)
  | 26 => Some (2, 5)
  | _ => None
  end.

Definition GetBlockSubsidy (nHeight : Z) : BlockSubsidy :=
  let c := consensus p in
  if fIsRegtestLegacy p then mkSubsidy (50 * COIN) 0 0
  else if fIsRegtest p then
    if nHeight =? 0 then mkSubsidy (50 * COIN) (50 * COIN) (0 * COIN)
    else mkSubsidy (50 * COIN) (50 * COIN) (50 * COIN)
  else if nHeight =? 1 then mkSubsidy (170000000 * COIN) (if fIsTestnet p then 30 * COIN else 0) 0
  else if nHeight <? fixedRewardReductionHeight c then mkSubsidy (1000 * COIN) 0 0
  else if nHeight <? devBlockSubsidyActivationHeight c then mkSubsidy (100 * COIN) 0 0
  else if nHeight <? pow2Phase4FirstBlockHeight c + 1 then mkSubsidy (50 * COIN) (20 * COIN) (40 * COIN)
  else if nHeight <=? 1226651 then mkSubsidy (50 * COIN) (30 * COIN) (40 * COIN)
  else if nHeight <=? 1228003 then mkSubsidy (90 * COIN) (30 * COIN) (80 * COIN)
  else if nHeight <=? halvingIntroductionHeight c then mkSubsidy (50 * COIN) (30 * COIN) (80 * COIN)
  else if nHeight <? 1619997 then mkSubsidy (1000000 * MILLICENT) (1500000 * MILLICENT) (6500000 * MILLICENT)
  else if nHeight =? 1619997 then mkSubsidy (1000000 * MILLICENT) (1500000 * MILLICENT) (100000000 * COIN)
  else
    let nHalvings := i32 (u64 (nHeight - 1 - u64 (halvingIntroductionHeight c - 167512)) / 842500) in
    match halving_table nHalvings with
    | Some (m, w) => mkSubsidy m w 0
    | None => if nHeight <=? finalSubsidyBlockHeight c then mkSubsidy 1 2 0 else mkSubsidy 0 0 0
    end.

End Phases.

(** ** Reference: the coins issued below a height *)

Fixpoint sum_below (f : Z -> Z) (n : nat) : Z :=
  match n with O => 0 | S n' => sum_below f n' + f (Z.of_nat n') end.
Definition issued (p : ChainParams) (height : Z) : Z :=
  sum_below (fun h => total (GetBlockSubsidy p h)) (Z.to_nat height).

(** ** Lemmas *)

(** Phases follow each other when their start heights do. *)
Definition phases_ordered (c : ConsensusParams) : Prop :=
  0 <= pow2Phase2FirstBlockHeight c <= pow2Phase3FirstBlockHeight c /\
  pow2Phase3FirstBlockHeight c <= pow2Phase4FirstBlockHeight c <= pow2Phase5FirstBlockHeight c.

Lemma sum_below_segment f v a b : 0 <= a <= b -> (forall h, a <= h < b -> f h = v) ->
  sum_below f (Z.to_nat b) = sum_below f (Z.to_nat a) + (b - a) * v.
Proof.
  intros Hab Hf. replace b with (a + Z.of_nat (Z.to_nat (b - a))) in * by lia.
  set (k := Z.to_nat (b - a)) in *. clearbody k. induction k as [|k IH]; [rewrite Z.add_0_r; lia|].
  replace (Z.to_nat (a + Z.of_nat (S k))) with (S (Z.to_nat (a + Z.of_nat k))) by lia.
  cbn [sum_below]. rewrite IH by (intros; try apply Hf; lia). rewrite Hf by lia. lia.
Qed.

Lemma issued_segment p v a b : 0 <= a <= b -> (forall h, a <= h < b -> total (GetBlockSubsidy p h) = v) ->
  issued p b = issued p a + (b - a) * v.
Proof. apply sum_below_segment. Qed.

(** The halving epoch of a height on the main network. *)
Lemma main_halving h k : 1619998 <= h < 2 ^ 32 -> 0 <= k -> 1232488 + 842500 * k < h <= 1232488 + 842500 * (k + 1) ->
  i32 (u64 (h - 1 - u64 (halvingIntroductionHeight main_consensus - 167512)) / 842500) = k.
Proof.
  intros Hh Hk0 Hk. change (u64 (halvingIntroductionHeight main_consensus - 167512)) with 1232488.
  rewrite u64_small by lia.
  assert ((h - 1 - 1232488) / 842500 = k) as -> by (symmetry; apply Z.div_unique with (h - 1 - 1232488 - 842500 * k); lia).
  apply i32_small. nia.
Qed.

(** The subsidy of the halving epochs. *)
Lemma main_epoch_subsidy h k m w : 0 <= k -> halving_table k = Some (m, w) -> 1619998 <= h < 2 ^ 32 ->
  1232488 + 842500 * k < h <= 1232488 + 842500 * (k + 1) -> GetBlockSubsidy CMainParams h = mkSubsidy m w 0.
Proof.
  intros Hk0 Ht Hh Hk. unfold GetBlockSubsidy. cbn [fIsRegtestLegacy fIsRegtest CMainParams consensus].
  rewrite (main_halving h k) by done. rewrite Ht.
  cbn [fixedRewardReductionHeight devBlockSubsidyActivationHeight pow2Phase4FirstBlockHeight halvingIntroductionHeight main_consensus].
  repeat (zcase; [lia|]). done.
Qed.

Lemma main_tail_subsidy h : 23979989 <= h < 2 ^ 32 ->
  GetBlockSubsidy CMainParams h = (if h <=? 433009988 then mkSubsidy 1 2 0 else mkSubsidy 0 0 0).
Proof.
  intros Hh. unfold GetBlockSubsidy. cbn [fIsRegtestLegacy fIsRegtest CMainParams consensus].
  assert (Hd : exists k, 27 <= k /\ i32 (u64 (h - 1 - u64 (halvingIntroductionHeight main_consensus - 167512)) / 842500) = k).
  { exists ((h - 1232489) / 842500). split; [apply Z.div_le_lower_bound; lia|].
    assert (0 <= (h - 1232489) / 842500) by (apply Z.div_pos; lia).
    apply main_halving; [lia|done|]. zdm; lia. }
  destruct Hd as (k & Hk & ->).
  assert (halving_table k = None) as ->.
  { destruct k as [|k|k]; try lia. do 5 (destruct k as [k|k|]; try reflexivity; try lia). }
  cbn [fixedRewardReductionHeight devBlockSubsidyActivationHeight pow2Phase4FirstBlockHeight halvingIntroductionHeight
       finalSubsidyBlockHeight main_consensus].
  repeat match goal with |- (if ?b then _ else _) = if h <=? 433009988 then _ else _ =>
    lazymatch b with h <=? 433009988 => fail | _ => destruct b eqn:?; zbool; [lia|] end end. done.
Qed.

(** A height before the halvings, by computation on its bounds. *)
Ltac early_segment :=
  let h := fresh "h" in let Hh := fresh "Hh" in
  intros h Hh; unfold GetBlockSubsidy;
  cbn [fIsRegtestLegacy fIsRegtest fIsTestnet CMainParams consensus fixedRewardReductionHeight
       devBlockSubsidyActivationHeight pow2Phase4FirstBlockHeight halvingIntroductionHeight main_consensus];
  repeat (zcase; [first [lia|reflexivity]|]); try lia.

Lemma issued_before_halvings : issued CMainParams 1619998 = 66817118500000000.
Proof.
  rewrite (issued_segment CMainParams (100000025 * COIN) 1619997 1619998) by first [lia|early_segment].
  rewrite (issued_segment CMainParams (90 * COIN) 1400001 1619997) by first [lia|early_segment].
  rewrite (issued_segment CMainParams (160 * COIN) 1228004 1400001) by first [lia|early_segment].
  rewrite (issued_segment CMainParams (200 * COIN) 1226652 1228004) by first [lia|early_segment].
  rewrite (issued_segment CMainParams (120 * COIN) 1131653 1226652) by first [lia|early_segment].
  rewrite (issued_segment CMainParams (110 * COIN) 1030001 1131653) by first [lia|early_segment].
  rewrite (issued_segment CMainParams (100 * COIN) 250001 1030001) by first [lia|early_segment].
  rewrite (issued_segment CMainParams (1000 * COIN) 2 250001) by first [lia|early_segment].
  rewrite (issued_segment CMainParams (170000000 * COIN) 1 2) by first [lia|early_segment].
  rewrite (issued_segment CMainParams (1000 * COIN) 0 1) by first [lia|early_segment].
  reflexivity.
Qed.

Lemma issued_epoch a k m w : 0 <= k -> halving_table k = Some (m, w) ->
  1619998 <= a -> 1232488 + 842500 * k < a -> a <= 1232489 + 842500 * (k + 1) -> k <= 26 ->
  issued CMainParams (1232489 + 842500 * (k + 1)) = issued CMainParams a + (1232489 + 842500 * (k + 1) - a) * (m + w).
Proof.
  intros Hk Ht Ha1 Ha2 Hb Hk2. apply issued_segment; [lia|]. intros h Hh.
  rewrite (main_epoch_subsidy h k m w) by (done || lia). unfold total. cbn [mining witness dev]. lia.
Qed.

(** The coins of the first [n] epochs; the first one starts late, at height 1619998. *)
Fixpoint epochs_issued (n : nat) : Z :=
  match n with
  | O => 0
  | S n' =>
      epochs_issued n' +
      match halving_table (Z.of_nat n') with
      | Some (m, w) => (842500 - if (n' =? 0)%nat then 387509 else 0) * (m + w)
      | None => 0
      end
  end.

Lemma halving_table_some k : 0 <= k <= 26 -> exists m w, halving_table k = Some (m, w).
Proof.
  intros Hk. destruct k as [|k|k]; [by eexists _, _| |lia].
  do 5 (destruct k as [k|k|]; try (by eexists _, _); try lia).
Qed.

Lemma issued_epochs n : (n < 27)%nat ->
  issued CMainParams (1232489 + 842500 * (Z.of_nat n + 1)) = issued CMainParams 1619998 + epochs_issued (S n).
Proof.
  induction n as [|n IH]; intros Hn.
  - change (Z.of_nat 0) with 0. rewrite (issued_epoch 1619998 0 _ _ ltac:(lia) eq_refl) by lia. done.
  - destruct (halving_table_some (Z.of_nat (S n)) ltac:(lia)) as (m & w & Ht).
    rewrite (issued_epoch (1232489 + 842500 * (Z.of_nat n + 1)) (Z.of_nat (S n)) m w ltac:(lia) Ht) by lia.
    rewrite IH by lia. change (epochs_issued (S (S n))) with
      (epochs_issued (S n) + match halving_table (Z.of_nat (S n)) with
        Some (m, w) => (842500 - if (S n =? 0)%nat then 387509 else 0) * (m + w) | None => 0 end).
    rewrite Ht. cbn [Nat.eqb]. lia.
Qed.

Lemma issued_main_final : issued CMainParams 433009989 = 700000000 * COIN.
Proof.
  rewrite (issued_segment CMainParams 3 23979989 433009989); [|lia|].
  - change 23979989 with (1232489 + 842500 * (Z.of_nat 26 + 1)) at 1. rewrite issued_epochs by lia.
    rewrite issued_before_halvings. reflexivity.
  - intros h Hh. rewrite main_tail_subsidy by lia. zcase; [done|lia].
Qed.

Lemma halving_table_nonneg k m w : halving_table k = Some (m, w) -> 0 <= m /\ 0 <= w.
Proof.
  unfold halving_table. intros E. repeat (case_match; try discriminate E); injection E as <- <-; done.
Qed.

Lemma subsidy_nonneg p h : 0 <= total (GetBlockSubsidy p h).
Proof.
  unfold GetBlockSubsidy. cbv zeta.
  match goal with |- context [halving_table ?k] => destruct (halving_table k) as [[m w]|] eqn:E end;
    repeat match goal with |- context [if ?b then _ else _] => destruct b end;
    try (apply halving_table_nonneg in E); unfold total; cbn [mining witness dev]; unfold COIN, MILLICENT; lia.
Qed.

Lemma sum_below_mono f a b : (forall h, 0 <= f h) -> (a <= b)%nat -> sum_below f a <= sum_below f b.
Proof.
  intros Hf. induction 1 as [|b _ IH]; [lia|]. cbn [sum_below]. specialize (Hf (Z.of_nat b)). lia.
Qed.

(** The reward of an epoch. *)
Definition epoch_reward (k : Z) : Z * Z := default (1, 2) (halving_table k).

Lemma halving_table_none k : 27 <= k -> halving_table k = None.
Proof. intros Hk. destruct k as [|k|k]; try lia. do 5 (destruct k as [k|k|]; try reflexivity; try lia). Qed.

Lemma epoch_reward_step k : 0 <= k ->
  fst (epoch_reward (k + 1)) <= fst (epoch_reward k) /\ snd (epoch_reward (k + 1)) <= snd (epoch_reward k).
Proof.
  intros Hk. unfold epoch_reward. destruct (Z.le_gt_cases 27 k) as [H|H].
  - rewrite !halving_table_none by lia. done.
  - destruct k as [|k|k]; [vm_compute; split; discriminate| |lia].
    do 5 (destruct k as [k|k|]; try lia; try (vm_compute; split; discriminate)).
Qed.

Lemma epoch_reward_mono k k' : 0 <= k <= k' ->
  fst (epoch_reward k') <= fst (epoch_reward k) /\ snd (epoch_reward k') <= snd (epoch_reward k).
Proof.
  intros Hk. replace k' with (k + Z.of_nat (Z.to_nat (k' - k))) by lia.
  induction (Z.to_nat (k' - k)) as [|d IH]; [rewrite Z.add_0_r; lia|].
  destruct (epoch_reward_step (k + Z.of_nat d)); [lia|].
  replace (k + Z.of_nat (S d)) with (k + Z.of_nat d + 1) by lia. lia.
Qed.

(** The main network subsidy from the first halving epoch on. *)
Lemma main_late_subsidy h : 1619998 <= h < 2 ^ 32 ->
  GetBlockSubsidy CMainParams h =
  (if h <=? 433009988 then mkSubsidy (fst (epoch_reward ((h - 1232489) / 842500))) (snd (epoch_reward ((h - 1232489) / 842500))) 0
   else mkSubsidy 0 0 0).
Proof.
  intros Hh. destruct (Z.le_gt_cases 23979989 h) as [Ht|Ht].
  - rewrite main_tail_subsidy by lia. zcase; [|done]. unfold epoch_reward.
    rewrite halving_table_none by (apply Z.div_le_lower_bound; lia). done.
  - rewrite (proj2 (Z.leb_le h _)) by lia.
    assert (0 <= (h - 1232489) / 842500 <= 26) by (zdm; lia).
    destruct (halving_table_some ((h - 1232489) / 842500)) as (m & w & E); [done|].
    unfold epoch_reward. rewrite E. apply (main_epoch_subsidy h ((h - 1232489) / 842500)); [lia|done|lia|zdm; lia].
Qed.

(** ** Theorems *)

(** C38: on the main network the subsidies of all blocks add up to exactly
    700,000,000 coins: that is the amount issued up to the final subsidy block,
    every later block (heights are 32-bit) pays nothing, and the amount issued
    before any height is within that supply, hence within [MAX_MONEY]. *)
Theorem main_supply_is_capped :
  issued CMainParams (finalSubsidyBlockHeight main_consensus + 1) = 700000000 * COIN /\
  (forall h, finalSubsidyBlockHeight main_consensus < h < 2 ^ 32 -> total (GetBlockSubsidy CMainParams h) = 0) /\
  (forall h, 0 <= h <= finalSubsidyBlockHeight main_consensus + 1 ->
     0 <= issued CMainParams h <= 700000000 * COIN) /\
  700000000 * COIN <= MAX_MONEY.
Proof.
  change (finalSubsidyBlockHeight main_consensus) with 433009988.
  split_and!; [exact issued_main_final| | |done].
  - intros h Hh. rewrite main_tail_subsidy by lia. zcase; [lia|done].
  - intros h Hh. rewrite <- issued_main_final. unfold issued. split.
    + apply (sum_below_mono _ 0); [apply subsidy_nonneg|lia].
    + apply sum_below_mono; [apply subsidy_nonneg|lia].
Qed.

(** once the halvings run, the subsidy of a main network block never grows
    with its height, for the miner and for the witness alike, and there is no
    further development subsidy. *)
Theorem main_subsidy_decreases h h' : 1619998 <= h -> h <= h' -> h' < 2 ^ 32 ->
  mining (GetBlockSubsidy CMainParams h') <= mining (GetBlockSubsidy CMainParams h) /\
  witness (GetBlockSubsidy CMainParams h') <= witness (GetBlockSubsidy CMainParams h) /\
  dev (GetBlockSubsidy CMainParams h') = 0.
Proof.
  intros H1 H2 H3. rewrite !main_late_subsidy by lia.
  pose proof (epoch_reward_mono ((h - 1232489) / 842500) ((h' - 1232489) / 842500)) as Hm.
  pose proof (Z.div_le_mono (h - 1232489) (h' - 1232489) 842500).
  assert (0 <= (h - 1232489) / 842500) by (apply Z.div_pos; lia).
  assert (0 <= fst (epoch_reward ((h - 1232489) / 842500)) /\ 0 <= snd (epoch_reward ((h - 1232489) / 842500))) as [? ?].
  { destruct (epoch_reward_mono ((h - 1232489) / 842500) (((h - 1232489) / 842500) + 27)) as [A B]; [lia|].
    assert (epoch_reward ((h - 1232489) / 842500 + 27) = (1, 2)) as E27
      by (unfold epoch_reward; rewrite halving_table_none by lia; done).
    rewrite E27 in A, B. cbn [fst snd] in *. lia. }
  repeat zcase; cbn [mining witness dev]; lia.
Qed.

Lemma main_subsidy_decreases_witness :
  witness (GetBlockSubsidy CMainParams 3000000) <= witness (GetBlockSubsidy CMainParams 2000000).
Proof. apply (main_subsidy_decreases 2000000 3000000); [discriminate|discriminate|reflexivity]. Defined.

(** The phase reported for a block index is between 1 and 4 and never goes
    back as the chain grows, and witnessing is active exactly from phase 3 on,
    for parameters whose activation heights are in order. *)
Theorem phase_is_monotone p h h' : phases_ordered (consensus p) -> 0 <= h <= h' -> h' < 2 ^ 64 ->
  1 <= GetPoW2Phase p (Some h) <= GetPoW2Phase p (Some h') /\ GetPoW2Phase p (Some h') <= 4 /\
  (IsPow2WitnessingActive p h = true <-> 3 <= GetPoW2Phase p (Some h)).
Proof.
  unfold phases_ordered. intros Hp Hh Hw.
  unfold GetPoW2Phase, IsPow2WitnessingActive, IsPow2Phase2Active, IsPow2Phase3Active, IsPow2Phase4Active.
  rewrite !u64_small by lia. split_and!; repeat zcase; lia.
Qed.

Lemma phase_is_monotone_witness : GetPoW2Phase CMainParams (Some 778301) <= GetPoW2Phase CMainParams (Some 1131652).
Proof. apply (phase_is_monotone CMainParams 778301 1131652); repeat split; discriminate. Defined.
