(* ===== verification/WitnessUtil.v ===== *)
(** * WitnessUtil: witness weights and lock periods of [src/src/witnessutil.{h,cpp}]

    The raw weight of a locked amount, computed on 256-bit fixed-point numbers,
    the lock length helpers and the total weight of a set of witness coins. *)

From S2P Require Import Prelude ArithUint256 Serialize Compressor Transaction Script.

(** ** Definitions *)

(** [arith_uint256(x)] of a 64-bit integer. *)
Definition arith (x : Z) : base_uint := of_u64 (u64 x).

Definition weight_base : base_uint := arith COIN.
Definition weight_base3 : base_uint := mul (mul weight_base weight_base) weight_base.
Definition BlocksPerYear : base_uint := arith (365 * 576).

(** [None]: a division by zero, which the constants exclude. *)
Definition GetPoW2RawWeightForAmount (nAmount nLockLengthInBlocks : Z) : option Z :=
  let Quantity := arith nAmount in
  match div (mul Quantity Quantity) (arith 100000), div (mul (arith nLockLengthInBlocks) weight_base) BlocksPerYear with
  | Some q, Some l =>
      let nWeight := mul (add (mul Quantity weight_base) q) (add (mul (arith 1) weight_base) l) in
      match div nWeight weight_base3 with
      | Some w => Some (i64 (GetLow64 w))
      | None => None
      end
  | _, _ => None
  end.

(** Lock length of an output confirmed at [txBlockNumber], with its first and last
    block; [None] is the assertion on other output types. *)
Definition GetPoW2LockLengthInBlocksFromOutput (out : CTxOut) (txBlockNumber : Z) : option (Z * Z * Z) :=
  let from_until w :=
    let nFromBlockOut := if lockFromBlock w =? 0 then txBlockNumber else lockFromBlock w in
    let nUntilBlockOut := lockUntilBlock w in
    Some (u64 (nUntilBlockOut - nFromBlockOut + 1), nFromBlockOut, nUntilBlockOut) in
  match output out with
  | PoW2WitnessOutput w => from_until w
  | ScriptLegacyOutput s =>
      from_until (match ExtractPoW2WitnessFromScript s with Some w => w | None => CTxOutPoW2Witness_clear end)
  | _ => None
  end.

Definition GetPoW2RemainingLockLengthInBlocks (lockUntilBlock tipHeight : Z) : Z :=
  if lockUntilBlock <? tipHeight then 0 else u64 (lockUntilBlock - tipHeight + 1).

Definition IsPow2WitnessOutput (out : CTxOut) : bool :=
  match output out with PoW2WitnessOutput _ => true | _ => false end.
Definition GetPow2WitnessOutput (out : CTxOut) : option CTxOutPoW2Witness :=
  match output out with PoW2WitnessOutput w => Some w | _ => None end.
Definition IsPoW2WitnessLocked_details (w : CTxOutPoW2Witness) (nTipHeight : Z) : bool :=
  lockUntilBlock w >=? nTipHeight.
Definition IsPoW2WitnessLocked (out : CTxOut) (nTipHeight : Z) : bool :=
  match GetPow2WitnessOutput out with Some w => IsPoW2WitnessLocked_details w nTipHeight | None => false end.

(** The loop of [GetPow2NetworkWeight] over the witness coins, given as output
    and height: number of addresses and total weight. *)
Fixpoint network_weight (coins : list (CTxOut * Z)) (height nNum nTotal : Z) : option (Z * Z) :=
  match coins with
  | [] => Some (nNum, nTotal)
  | (out, h) :: coins' =>
      if h <=? height then
        match GetPoW2LockLengthInBlocksFromOutput out h with
        | Some (len, _, _) =>
            match GetPoW2RawWeightForAmount (nValue out) len with
            | Some w => network_weight coins' height (nNum + 1) (i64 (nTotal + w))
            | None => None
            end
        | None => None
        end
      else network_weight coins' height nNum nTotal
  end.

(** ** Reference *)

(** The weight formula on integers: amount and lock length are scaled by [COIN],
    the divisions round down. *)
Definition raw_weight (a l : Z) : Z :=
  (a * COIN + a * a / 100000) * (COIN + l * COIN / 210240) / COIN ^ 3.

(** ** Lemmas *)

Lemma arith_spec x : 0 <= x < 2 ^ 64 -> wf (arith x) /\ val (arith x) = x.
Proof.
  intros Hx. unfold arith. rewrite u64_small by lia. destruct (of_u64_spec x Hx) as [? Hv]. done.
Qed.

Lemma mul_exact a b : wf a -> wf b -> val a * val b < 2 ^ 256 -> wf (mul a b) /\ val (mul a b) = val a * val b.
Proof.
  intros Ha Hb Hlt. destruct (mul_spec a b Ha Hb) as [Hw Hv]. split; [done|]. rewrite Hv. apply Z.mod_small.
  pose proof (wf_range a Ha). pose proof (wf_range b Hb). nia.
Qed.

Lemma add_exact a b : wf a -> wf b -> val a + val b < 2 ^ 256 -> wf (add a b) /\ val (add a b) = val a + val b.
Proof.
  intros Ha Hb Hlt. destruct (add_spec a b Ha Hb) as [Hw Hv]. split; [done|]. rewrite Hv. apply Z.mod_small.
  pose proof (wf_range a Ha). pose proof (wf_range b Hb). lia.
Qed.

Lemma div_exact a b : wf a -> wf b -> 0 < val b -> exists q, div a b = Some q /\ wf q /\ val q = val a / val b.
Proof. intros Ha Hb Hp. by apply div_spec. Qed.

Lemma weight_base_spec : wf weight_base /\ val weight_base = COIN.
Proof. by apply arith_spec. Qed.
Lemma weight_base3_spec : wf weight_base3 /\ val weight_base3 = COIN ^ 3.
Proof.
  destruct weight_base_spec as [Hb Vb]. unfold weight_base3.
  destruct (mul_exact weight_base weight_base Hb Hb) as [H1 V1]; [by rewrite Vb|].
  destruct (mul_exact _ weight_base H1 Hb) as [H2 V2]; [by rewrite V1, Vb|].
  split; [done|]. by rewrite V2, V1, Vb.
Qed.

Definition weight_args_ok (a l : Z) : Prop := 0 <= a <= MAX_MONEY /\ 0 <= l < 2 ^ 32.

Lemma raw_weight_bounds a l : weight_args_ok a l -> 0 <= raw_weight a l < 2 ^ 63 /\
  0 <= a * COIN + a * a / 100000 < 2 ^ 100 /\ 0 <= COIN + l * COIN / 210240 < 2 ^ 60.
Proof.
  unfold weight_args_ok, MAX_MONEY, COIN. intros [Ha Hl].
  assert (H1 : 0 <= a * a / 100000 <= 2 ^ 99).
  { split; [apply Z.div_pos; nia|]. apply Z.div_le_upper_bound; nia. }
  assert (H2 : 0 <= l * 100000000 / 210240 <= 2 ^ 42).
  { split; [apply Z.div_pos; lia|]. apply Z.div_le_upper_bound; lia. }
  split; [|lia]. unfold raw_weight, COIN. split.
  - apply Z.div_pos; [|lia]. nia.
  - apply Z.div_lt_upper_bound; [lia|].
    assert (a * 100000000 + a * a / 100000 <= 2 ^ 99 + 2 ^ 84) by lia.
    assert (100000000 + l * 100000000 / 210240 <= 2 ^ 43) by lia.
    apply Z.le_lt_trans with ((2 ^ 99 + 2 ^ 84) * 2 ^ 43); [|reflexivity].
    apply Z.mul_le_mono_nonneg; lia.
Qed.

Lemma raw_weight_exact a l : weight_args_ok a l -> GetPoW2RawWeightForAmount a l = Some (raw_weight a l).
Proof.
  intros Hok. destruct (raw_weight_bounds a l Hok) as (Hw & HA & HL).
  destruct Hok as [Ha Hl]. unfold MAX_MONEY, COIN in Ha.
  destruct (arith_spec a ltac:(lia)) as [Wa Va]. destruct (arith_spec l ltac:(lia)) as [Wl Vl].
  destruct weight_base_spec as [Wb Vb]. destruct weight_base3_spec as [Wb3 Vb3].
  destruct (arith_spec 100000 ltac:(lia)) as [Wc Vc]. destruct (arith_spec (365 * 576) ltac:(lia)) as [Wy Vy].
  destruct (arith_spec 1 ltac:(lia)) as [W1 V1].
  unfold GetPoW2RawWeightForAmount. unfold COIN in *.
  destruct (mul_exact _ _ Wa Wa) as [Waa Vaa]; [rewrite Va; nia|]. rewrite Va in Vaa.
  destruct (div_exact _ _ Waa Wc) as (q & -> & Wq & Vq); [lia|]. rewrite Vaa, Vc in Vq.
  destruct (mul_exact _ _ Wl Wb) as [Wlb Vlb]; [rewrite Vl, Vb; lia|]. rewrite Vl, Vb in Vlb.
  destruct (div_exact _ _ Wlb Wy) as (ll & Ell & Wll & Vll); [lia|].
  unfold BlocksPerYear. rewrite Ell. rewrite Vlb, Vy in Vll. change (365 * 576) with 210240 in Vll. cbv zeta.
  destruct (mul_exact _ _ Wa Wb) as [Wab Vab]; [rewrite Va, Vb; lia|]. rewrite Va, Vb in Vab.
  destruct (add_exact _ _ Wab Wq) as [WA VA]; [rewrite Vab, Vq; lia|]. rewrite Vab, Vq in VA.
  destruct (mul_exact _ _ W1 Wb) as [W1b V1b]; [rewrite V1, Vb; lia|]. rewrite V1, Vb, Z.mul_1_l in V1b.
  destruct (add_exact _ _ W1b Wll) as [WL VL]; [rewrite V1b, Vll; lia|]. rewrite V1b, Vll in VL.
  destruct (mul_exact _ _ WA WL) as [WP VP].
  { rewrite VA, VL. apply Z.lt_le_trans with (2 ^ 100 * 2 ^ 60); [nia|done]. }
  rewrite VA, VL in VP.
  destruct (div_exact _ _ WP Wb3) as (w & -> & Ww & Vw); [rewrite Vb3; done|]. rewrite VP, Vb3 in Vw.
  rewrite GetLow64_spec by done. unfold raw_weight, COIN in *. rewrite Vw, Z.mod_small, i64_small by lia. done.
Qed.

Lemma raw_weight_mono a a' l l' : 0 <= a <= a' -> 0 <= l <= l' -> raw_weight a l <= raw_weight a' l'.
Proof.
  intros Ha Hl. unfold raw_weight, COIN. apply Z.div_le_mono; [lia|].
  assert (a * a / 100000 <= a' * a' / 100000) by (apply Z.div_le_mono; nia).
  assert (l * 100000000 / 210240 <= l' * 100000000 / 210240) by (apply Z.div_le_mono; nia).
  assert (0 <= a * a / 100000) by (apply Z.div_pos; nia).
  assert (0 <= l * 100000000 / 210240) by (apply Z.div_pos; nia).
  apply Z.mul_le_mono_nonneg; lia.
Qed.

(** ** Theorems *)

(** the fixed-point weight computation is exact: for any amount in the money
    range and any lock length, no 256-bit intermediate overflows, no division
    fails, the result fits the signed 64-bit type and equals the weight formula
    on integers; and more coins or a longer lock never weigh less. *)
Theorem raw_weight_correct a l a' l' : weight_args_ok a l -> weight_args_ok a' l' ->
  GetPoW2RawWeightForAmount a l = Some (raw_weight a l) /\ 0 <= raw_weight a l < 2 ^ 63 /\
  (a <= a' -> l <= l' -> exists w w', GetPoW2RawWeightForAmount a l = Some w /\
     GetPoW2RawWeightForAmount a' l' = Some w' /\ w <= w').
Proof.
  intros H H'. split; [by apply raw_weight_exact|]. split; [apply raw_weight_bounds; done|].
  intros Ha Hl. exists (raw_weight a l), (raw_weight a' l'). destruct H as [? ?], H' as [? ?].
  split; [by apply raw_weight_exact|]. split; [by apply raw_weight_exact|]. apply raw_weight_mono; lia.
Qed.

Lemma raw_weight_correct_witness : GetPoW2RawWeightForAmount (5000 * COIN) (30 * 576) = Some 5681.
Proof.
  rewrite (proj1 (raw_weight_correct (5000 * COIN) (30 * 576) (5000 * COIN) (30 * 576)
            ltac:(split; split; first [discriminate|reflexivity]) ltac:(split; split; first [discriminate|reflexivity]))).
  vm_compute. reflexivity.
Defined.

(** The lock length of a witness output counts both its first and its last
    block, and what remains of it is consistent with the locked test: an output
    is locked exactly when the remaining length is positive, and the remaining
    length at the first block is the whole length. *)
Theorem lock_lengths_consistent out w h : output out = PoW2WitnessOutput w ->
  0 < lockFromBlock w <= lockUntilBlock w -> lockUntilBlock w < 2 ^ 63 -> 0 <= h < 2 ^ 63 ->
  GetPoW2LockLengthInBlocksFromOutput out h = Some (lockUntilBlock w - lockFromBlock w + 1, lockFromBlock w, lockUntilBlock w) /\
  GetPoW2RemainingLockLengthInBlocks (lockUntilBlock w) (lockFromBlock w) = lockUntilBlock w - lockFromBlock w + 1 /\
  (IsPoW2WitnessLocked out h = true <-> 0 < GetPoW2RemainingLockLengthInBlocks (lockUntilBlock w) h).
Proof.
  intros Ho Hw Hu Hh. unfold GetPoW2LockLengthInBlocksFromOutput, GetPoW2RemainingLockLengthInBlocks,
    IsPoW2WitnessLocked, GetPow2WitnessOutput, IsPoW2WitnessLocked_details. rewrite Ho.
  rewrite (proj2 (Z.eqb_neq (lockFromBlock w) 0)) by lia. rewrite (proj2 (Z.ltb_ge _ (lockFromBlock w))) by lia.
  rewrite u64_small by lia. split; [done|]. split; [done|].
  rewrite Z.geb_leb, Z.leb_le. zcase; [lia|]. rewrite u64_small by lia. lia.
Qed.

Definition sample_witness_out : CTxOut :=
  mkTxOut (5000 * COIN) 0 (PoW2WitnessOutput (mkWitnessDetails (repeat 1 20) (repeat 2 20) 1000 18280 0 0)).

Lemma lock_lengths_consistent_witness : IsPoW2WitnessLocked sample_witness_out 18280 = true.
Proof.
  apply (lock_lengths_consistent sample_witness_out
           (mkWitnessDetails (repeat 1 20) (repeat 2 20) 1000 18280 0 0) 18280);
    first [reflexivity|split; first [discriminate|reflexivity]].
Defined.
