(* ===== verification/Chain.v ===== *)
(** * Chain: the block tree and the active chain of [src/src/chain.{h,cpp}]

    A block index entry is a node of a store ([heap]) addressed by pointers, so
    that the parent and skip pointers of the source are pointers here and
    [pskip] can be assigned after the node exists. [up] follows parent pointers
    and is the reference all the optimised walks are compared with. *)

From stdpp Require Import gmap sorting.
From S2P Require Import Prelude ArithUint256.

(** ** Definitions *)

Abbreviation ptr := positive.

Record CBlockIndex := mkIndex {
  nHeight : Z;
  pprev : option ptr;
  pskip : option ptr;
  nTime : Z;
  nTimePoW2Witness : Z;
  nBits : Z;
  nStatus : Z;
  nChainWork : base_uint
}.

Abbreviation heap := (gmap ptr CBlockIndex).

(** *** Status bits *)

Definition BLOCK_VALID_MASK : Z := Z.lor (Z.lor (Z.lor (Z.lor 1 2) 3) 4) 5.
Definition BLOCK_FAILED_MASK : Z := Z.lor 32 64.

Definition IsValid (nStatus nUpTo : Z) : bool :=
  if negb (Z.land nStatus BLOCK_FAILED_MASK =? 0) then false
  else Z.land nStatus BLOCK_VALID_MASK >=? nUpTo.
(** The new status and whether it was changed. *)
Definition RaiseValidity (nStatus nUpTo : Z) : Z * bool :=
  if negb (Z.land nStatus BLOCK_FAILED_MASK =? 0) then (nStatus, false)
  else if Z.land nStatus BLOCK_VALID_MASK <? nUpTo
  then (Z.lor (Z.land nStatus (Z.lnot BLOCK_VALID_MASK)) nUpTo, true)
  else (nStatus, false).

(** *** Skip list *)

Definition InvertLowestOne (n : Z) : Z := Z.land n (n - 1).
Definition GetSkipHeight (height : Z) : Z :=
  if height <? 2 then 0
  else if negb (Z.land height 1 =? 0) then InvertLowestOne (InvertLowestOne (height - 1)) + 1
  else InvertLowestOne height.

Section Tree.
Variable H : heap.

Definition prev_of (p : ptr) : option ptr := H !! p ≫= pprev.
Definition skip_of (p : ptr) : option ptr := H !! p ≫= pskip.
Definition height_of (p : ptr) : Z := match H !! p with Some b => nHeight b | None => 0 end.

(** Each round lowers [heightWalk], so the difference of heights is enough fuel. *)
Fixpoint ancestor_walk (fuel : nat) (pindexWalk : ptr) (heightWalk height : Z) : option ptr :=
  if heightWalk >? height then
    match fuel with
    | O => None
    | S f =>
        let heightSkip := GetSkipHeight heightWalk in
        let heightSkipPrev := GetSkipHeight (heightWalk - 1) in
        match skip_of pindexWalk with
        | Some q =>
            if (heightSkip =? height)
               || ((heightSkip >? height) && negb ((heightSkipPrev <? heightSkip - 2) && (heightSkipPrev >=? height)))
            then ancestor_walk f q heightSkip height
            else match prev_of pindexWalk with
                 | Some q' => ancestor_walk f q' (heightWalk - 1) height
                 | None => None
                 end
        | None => match prev_of pindexWalk with
                  | Some q' => ancestor_walk f q' (heightWalk - 1) height
                  | None => None
                  end
        end
    end
  else Some pindexWalk.
Definition GetAncestor (p : ptr) (height : Z) : option ptr :=
  if (height >? height_of p) || (height <? 0) then None
  else ancestor_walk (Z.to_nat (height_of p - height)) p (height_of p) height.

(** [BuildSkip] on node [p]. *)
Definition BuildSkip (p : ptr) : heap :=
  match H !! p with
  | Some b =>
      match pprev b with
      | Some q => <[p := mkIndex (nHeight b) (pprev b) (GetAncestor q (GetSkipHeight (nHeight b)))
                           (nTime b) (nTimePoW2Witness b) (nBits b) (nStatus b) (nChainWork b)]> H
      | None => H
      end
  | None => H
  end.

(** [LastCommonAncestor]; [None] is the failed assertion (or a null ancestor). *)
Fixpoint common_walk (fuel : nat) (pa pb : option ptr) : option ptr :=
  if decide (pa = pb) then pa
  else match pa, pb, fuel with
       | Some a, Some b, S f => common_walk f (prev_of a) (prev_of b)
       | _, _, _ => None
       end.
Definition LastCommonAncestor (pa pb : ptr) : option ptr :=
  let a := if height_of pa >? height_of pb then GetAncestor pa (height_of pb) else Some pa in
  let b := if height_of pa >? height_of pb then Some pb
           else if height_of pb >? height_of pa then GetAncestor pb (height_of pa) else Some pb in
  common_walk (S (Z.to_nat (Z.min (height_of pa) (height_of pb)))) a b.

(** *** [CChain]: the chain is a vector of pointers, null where [resize] made room *)

Definition chain_get (vChain : list (option ptr)) (nHeight : Z) : option ptr :=
  if (nHeight <? 0) || (nHeight >=? Z.of_nat (length vChain)) then None
  else nth (Z.to_nat nHeight) vChain None.
Definition chain_Height (vChain : list (option ptr)) : Z := Z.of_nat (length vChain) - 1.
Definition Tip (vChain : list (option ptr)) : option ptr :=
  if chain_Height vChain >=? 0 then chain_get vChain (chain_Height vChain) else None.
Definition Genesis (vChain : list (option ptr)) : option ptr :=
  if chain_Height vChain >=? 0 then chain_get vChain 0 else None.
Definition Contains (vChain : list (option ptr)) (p : ptr) : bool :=
  bool_decide (chain_get vChain (height_of p) = Some p).
Definition Next (vChain : list (option ptr)) (p : ptr) : option ptr :=
  if Contains vChain p then chain_get vChain (height_of p + 1) else None.
Definition Prev (vChain : list (option ptr)) (p : ptr) : option ptr :=
  if Contains vChain p && (height_of p >? 0) then chain_get vChain (height_of p - 1) else None.

Definition chain_resize (vChain : list (option ptr)) (n : Z) : list (option ptr) :=
  firstn (Z.to_nat n) (vChain ++ replicate (Z.to_nat n - length vChain) None).

(** The loop of [SetTip]: the heights fall, the height of the tip is enough fuel. *)
Fixpoint set_tip_loop (fuel : nat) (vChain : list (option ptr)) (pindex : option ptr) : list (option ptr) :=
  match pindex, fuel with
  | Some p, S f =>
      if bool_decide (nth (Z.to_nat (height_of p)) vChain None = Some p) then vChain
      else set_tip_loop f (<[Z.to_nat (height_of p) := Some p]> vChain) (prev_of p)
  | _, _ => vChain
  end.
Definition SetTip (vChain : list (option ptr)) (pindex : option ptr) : list (option ptr) :=
  match pindex with
  | None => []
  | Some p => set_tip_loop (S (Z.to_nat (height_of p))) (chain_resize vChain (height_of p + 1)) (Some p)
  end.

(** [FindFork] walks down from the block until it meets the chain. *)
Fixpoint fork_walk (fuel : nat) (vChain : list (option ptr)) (pindex : option ptr) : option ptr :=
  match pindex, fuel with
  | Some p, S f => if Contains vChain p then Some p else fork_walk f vChain (prev_of p)
  | _, _ => None
  end.
Definition FindFork (vChain : list (option ptr)) (pindex : option ptr) : option ptr :=
  match pindex with
  | None => None
  | Some p =>
      let q := if height_of p >? chain_Height vChain then GetAncestor p (chain_Height vChain) else Some p in
      fork_walk (S (Z.to_nat (height_of p))) vChain q
  end.

(** [GetLocatorPoW2]: the blocks whose hashes make the locator; [low] is the
    lowest height of the chain (0, or the offset of a partial chain). *)
Fixpoint locator_walk (fuel : nat) (get : Z -> option ptr) (contains : ptr -> bool) (low : Z)
    (pindex : option ptr) (nStep : Z) (vHave : list ptr) : list ptr :=
  match pindex, fuel with
  | Some p, S f =>
      let vHave := vHave ++ [p] in
      if height_of p =? low then vHave
      else
        let h := Z.max (height_of p - nStep) low in
        let next := if contains p then get h else GetAncestor p h in
        locator_walk f get contains low next (if 10 <? Z.of_nat (length vHave) then nStep * 2 else nStep) vHave
  | _, _ => vHave
  end.
Definition GetLocatorPoW2 (vChain : list (option ptr)) (pindex : option ptr) : list ptr :=
  let p := match pindex with Some _ => pindex | None => Tip vChain end in
  locator_walk (S (Z.to_nat (match p with Some q => height_of q | None => 0 end)))
    (chain_get vChain) (Contains vChain) 0 p 1 [].

(** *** [CPartialChain]: the chain from a height offset on *)

Definition partial_Height (vChain : list (option ptr)) (nHeightOffset : Z) : Z :=
  Z.of_nat (length vChain) + nHeightOffset - 1.
Definition partial_get (vChain : list (option ptr)) (nHeightOffset nHeight : Z) : option ptr :=
  if (nHeight >=? nHeightOffset) && (nHeight <=? partial_Height vChain nHeightOffset)
  then nth (Z.to_nat (nHeight - nHeightOffset)) vChain None else None.
Fixpoint partial_set_tip_loop (fuel : nat) (nHeightOffset : Z) (vChain : list (option ptr)) (pindex : option ptr)
  : list (option ptr) :=
  match pindex, fuel with
  | Some p, S f =>
      if (height_of p >=? nHeightOffset)
         && negb (bool_decide (nth (Z.to_nat (height_of p - nHeightOffset)) vChain None = Some p))
      then partial_set_tip_loop f nHeightOffset (<[Z.to_nat (height_of p - nHeightOffset) := Some p]> vChain) (prev_of p)
      else vChain
  | _, _ => vChain
  end.
(** [None]: the assertion that the tip is not below the offset. *)
Definition partial_SetTip (nHeightOffset : Z) (vChain : list (option ptr)) (pindex : option ptr)
  : option (list (option ptr)) :=
  match pindex with
  | None => Some []
  | Some p =>
      if height_of p >=? nHeightOffset
      then Some (partial_set_tip_loop (S (Z.to_nat (height_of p - nHeightOffset))) nHeightOffset
                   (chain_resize vChain (height_of p - nHeightOffset + 1)) (Some p))
      else None
  end.

(** *** Times *)

(** The times of up to [n] blocks from [pindex] back. *)
Fixpoint times_back (n : nat) (pindex : option ptr) (tm : CBlockIndex -> list Z) : list Z :=
  match n, pindex with
  | S n', Some p => match H !! p with Some b => tm b ++ times_back n' (pprev b) tm | None => [] end
  | _, _ => []
  end.
Definition GetBlockTime (b : CBlockIndex) : Z := nTime b.
Definition witness_time (b : CBlockIndex) : Z :=
  if nTimePoW2Witness b =? 0 then GetBlockTime b else nTimePoW2Witness b.

Definition nMedianTimeSpan (testnet : bool) (p : ptr) : Z :=
  if (height_of p >? 437500) || testnet then 3 else 11.

(** The end of the median functions on the collected times: sort, then the
    comparison [pbegin-pend < nMedianTimeSpan] of the source. *)
Definition median_select (times : list Z) (span : Z) (full : list Z -> Z) : Z :=
  let sorted := merge_sort Z.le times in
  if - Z.of_nat (length sorted) <? span then nth 0 sorted 0 else full sorted.

Definition GetMedianTimePast (testnet : bool) (p : ptr) : Z :=
  let span := nMedianTimeSpan testnet p in
  match H !! p with
  | Some b =>
      if negb (nTimePoW2Witness b =? 0) then
        let span := span * 2 in
        let nMid := span / 2 in
        median_select (times_back (Z.to_nat (span / 2)) (Some p) (fun b => [witness_time b; GetBlockTime b])) span
          (fun s => (nth (Z.to_nat (nMid - 1)) s 0 + nth (Z.to_nat nMid) s 0) / 2)
      else
        median_select (times_back (Z.to_nat span) (Some p) (fun b => [GetBlockTime b])) span
          (fun s => nth (length s / 2) s 0)
  | None => 0
  end.
Definition GetMedianTimePastPoW (testnet : bool) (p : ptr) : Z :=
  let span := nMedianTimeSpan testnet p in
  median_select (times_back (Z.to_nat span) (Some p) (fun b => [GetBlockTime b])) span (fun s => nth (length s / 2) s 0).
Definition GetMedianTimePastWitness (testnet : bool) (p : ptr) : Z :=
  let span := nMedianTimeSpan testnet p in
  median_select (times_back (Z.to_nat span) (Some p) (fun b => [witness_time b])) span (fun s => nth (length s / 2) s 0).

End Tree.

(** *** Work *)

(** [None]: a division by zero. *)
Definition GetBlockProof (nBits : Z) : option base_uint :=
  let '(bnTarget, fNegative, fOverflow) := SetCompact nBits in
  if fNegative || fOverflow || EqualTo bnTarget 0 then Some bu_zero
  else match div (bnot bnTarget) (add bnTarget (of_u64 1)) with
       | Some q => Some (add q (of_u64 1))
       | None => None
       end.

Definition GetBlockProofEquivalentTime (toWork fromWork : base_uint) (tipBits nPowTargetSpacing : Z) : option Z :=
  let '(r, sign) := if bu_gt toWork fromWork then (sub toWork fromWork, 1) else (sub fromWork toWork, -1) in
  match GetBlockProof tipBits with
  | None => None
  | Some proof =>
      match div (mul r (of_u64 (u64 nPowTargetSpacing))) proof with
      | None => None
      | Some r => if bits r >? 63 then Some (sign * INT64_MAX) else Some (i64 (sign * GetLow64 r))
      end
  end.

(** ** Reference *)

(** The ancestor [k] generations up. *)
Fixpoint up (H : heap) (k : nat) (p : ptr) : option ptr :=
  match k with O => Some p | S k' => prev_of H p ≫= up H k' end.

(** A consistent tree: parents are one lower, skip pointers are the ancestors at
    the skip height. *)
Record wf_heap (H : heap) : Prop := {
  wf_height : forall p b, H !! p = Some b -> 0 <= nHeight b < 2 ^ 31;
  wf_prev : forall p b q, H !! p = Some b -> pprev b = Some q ->
              exists c, H !! q = Some c /\ nHeight c = nHeight b - 1;
  wf_skip : forall p b q, H !! p = Some b -> pskip b = Some q ->
              up H (Z.to_nat (nHeight b - GetSkipHeight (nHeight b))) p = Some q
}.
(** Every block that is not at height 0 has a parent. *)
Definition rooted (H : heap) : Prop := forall p b, H !! p = Some b -> 0 < nHeight b -> pprev b <> None.

(** The vector [v] is the branch that ends in [tip]. *)
Definition chain_of (H : heap) (tip : ptr) (v : list (option ptr)) : Prop :=
  is_Some (H !! tip) /\ Z.of_nat (length v) = height_of H tip + 1 /\
  forall k, (k < length v)%nat -> v !! (length v - 1 - k)%nat = Some (up H k tip).
Definition chain_ok (H : heap) (v : list (option ptr)) : Prop := v = [] \/ exists tip, chain_of H tip v.

(** ** Lemmas: skip heights *)

Lemma land_le_r a b : 0 <= b -> 0 <= Z.land a b <= b.
Proof.
  intros Hb. split; [apply Z.land_nonneg; lia|].
  assert (Hd : Z.ldiff (Z.land a b) b = 0).
  { apply Z.bits_inj'; intros i Hi. rewrite Z.ldiff_spec, Z.land_spec, Z.bits_0.
    destruct (Z.testbit a i), (Z.testbit b i); done. }
  pose proof (Z.sub_nocarry_ldiff b (Z.land a b) Hd) as Hs.
  assert (0 <= Z.ldiff b (Z.land a b)) by (apply Z.ldiff_nonneg; lia). lia.
Qed.

Lemma InvertLowestOne_range n : 0 < n -> 0 <= InvertLowestOne n < n.
Proof. intros Hn. unfold InvertLowestOne. pose proof (land_le_r n (n - 1) ltac:(lia)). lia. Qed.

Lemma GetSkipHeight_range h : 1 <= h -> 0 <= GetSkipHeight h < h.
Proof.
  intros Hh. unfold GetSkipHeight. zcase; [lia|]. zcase.
  - destruct (InvertLowestOne_range (h - 1)) as [H1 H2]; [lia|].
    destruct (Z.eq_dec (InvertLowestOne (h - 1)) 0) as [E|]; [rewrite E; change (InvertLowestOne 0) with 0; lia|].
    pose proof (InvertLowestOne_range (InvertLowestOne (h - 1)) ltac:(lia)). lia.
  - apply InvertLowestOne_range. lia.
Qed.

(** ** Lemmas: walking up *)

Lemma up_add H a b p : up H (a + b) p = up H a p ≫= up H b.
Proof. revert p; induction a as [|a IH]; intros p; cbn; [done|]. destruct (prev_of H p); cbn; [apply IH|done]. Qed.

Lemma prev_of_Some H p q : prev_of H p = Some q <-> exists b, H !! p = Some b /\ pprev b = Some q.
Proof. unfold prev_of. rewrite bind_Some. done. Qed.

Lemma prev_height H p q : wf_heap H -> prev_of H p = Some q -> is_Some (H !! q) /\ height_of H q = height_of H p - 1.
Proof.
  intros W Hq. apply prev_of_Some in Hq as (b & Hp & Hb). destruct (wf_prev H W p b q Hp Hb) as (c & Hc & Hh).
  unfold height_of. rewrite Hp, Hc. done.
Qed.

Lemma up_height H k p q : wf_heap H -> is_Some (H !! p) -> up H k p = Some q ->
  is_Some (H !! q) /\ height_of H q = height_of H p - Z.of_nat k.
Proof.
  intros W. revert p; induction k as [|k IH]; intros p Hp E; cbn in E; [injection E as <-; split; [done|lia]|].
  destruct (prev_of H p) as [r|] eqn:Er; [|done]. destruct (prev_height H p r W Er) as [Hr Hh].
  destruct (IH r Hr E) as [? ->]. split; [done|lia].
Qed.

Lemma height_range H p : wf_heap H -> is_Some (H !! p) -> 0 <= height_of H p < 2 ^ 31.
Proof. intros W [b Hb]. unfold height_of. rewrite Hb. by apply (wf_height H W p). Qed.

Lemma up_Some H k p : wf_heap H -> rooted H -> is_Some (H !! p) -> Z.of_nat k <= height_of H p -> exists q, up H k p = Some q.
Proof.
  intros W R. revert p; induction k as [|k IH]; intros p [b Hb] Hk; [by exists p|]. cbn.
  destruct (prev_of H p) as [q|] eqn:Eq.
  - destruct (prev_height H p q W Eq) as [Hq Hh]. apply IH; [done|lia].
  - exfalso. unfold prev_of in Eq. rewrite Hb in Eq. cbn in Eq. unfold height_of in Hk. rewrite Hb in Hk.
    apply (R p b Hb); [lia|done].
Qed.

Lemma up_below_root H k p : wf_heap H -> is_Some (H !! p) -> height_of H p < Z.of_nat k -> up H k p = None.
Proof.
  intros W Hp Hk. destruct (up H k p) as [q|] eqn:E; [|done].
  destruct (up_height H k p q W Hp E) as [Hq Hh]. pose proof (height_range H q W Hq). lia.
Qed.

Lemma ancestor_walk_eq H : wf_heap H -> forall fuel p hw height, is_Some (H !! p) -> height_of H p = hw ->
  0 <= height <= hw -> (Z.to_nat (hw - height) <= fuel)%nat ->
  ancestor_walk H fuel p hw height = up H (Z.to_nat (hw - height)) p.
Proof.
  intros W. induction fuel as [|f IH]; intros p hw height Hp Hw Hh Hf; cbn [ancestor_walk].
  { replace hw with height by lia. rewrite Z.sub_diag, Z.gtb_ltb, Z.ltb_irrefl. done. }
  destruct (hw >? height) eqn:E; zbool; [|by replace (hw - height) with 0 by lia].
  assert (Hprev : match prev_of H p with Some q' => ancestor_walk H f q' (hw - 1) height | None => None end
                  = up H (Z.to_nat (hw - height)) p).
  { replace (Z.to_nat (hw - height)) with (S (Z.to_nat (hw - 1 - height))) by lia. cbn [up].
    destruct (prev_of H p) as [q'|] eqn:Eq; [|done]. destruct (prev_height H p q' W Eq) as [Hq Hq'].
    cbn. apply IH; (done || lia). }
  destruct (skip_of H p) as [q|] eqn:Es; [|done].
  match goal with |- context [if ?c then _ else _] => destruct c eqn:Ec end; [|done].
  unfold skip_of in Es. apply bind_Some in Es as (b & Hb & Hs).
  assert (Hhb : nHeight b = hw) by (unfold height_of in Hw; rewrite Hb in Hw; done).
  pose proof (wf_skip H W p b q Hb Hs) as Hup. rewrite Hhb in Hup.
  pose proof (GetSkipHeight_range hw ltac:(lia)) as Hr.
  assert (height <= GetSkipHeight hw).
  { apply orb_true_iff in Ec as [Ec|Ec]; zbool; lia. }
  destruct (up_height H _ p q W Hp Hup) as [Hq Hqh].
  rewrite IH by (done || lia).
  replace (Z.to_nat (hw - height)) with (Z.to_nat (hw - GetSkipHeight hw) + Z.to_nat (GetSkipHeight hw - height))%nat by lia.
  by rewrite up_add, Hup.
Qed.

Lemma GetAncestor_eq H p height : wf_heap H -> is_Some (H !! p) ->
  GetAncestor H p height = if (0 <=? height) && (height <=? height_of H p)
                           then up H (Z.to_nat (height_of H p - height)) p else None.
Proof.
  intros W Hp. unfold GetAncestor. destruct ((height >? height_of H p) || (height <? 0)) eqn:E.
  - destruct ((0 <=? height) && (height <=? height_of H p)) eqn:E'; [|done]. zbool.
    apply orb_true_iff in E as [E|E]; zbool; lia.
  - zbool. rewrite !(proj2 (Z.leb_le _ _)) by lia. cbn [andb]. apply ancestor_walk_eq; (done || lia).
Qed.

(** [BuildSkip] changes no parent pointer and no height. *)
Lemma BuildSkip_lookup H p x : BuildSkip H p !! x = H !! x \/
  exists b sk, H !! x = Some b /\ x = p /\ BuildSkip H p !! x =
    Some (mkIndex (nHeight b) (pprev b) sk (nTime b) (nTimePoW2Witness b) (nBits b) (nStatus b) (nChainWork b)) /\
    exists q, pprev b = Some q /\ sk = GetAncestor H q (GetSkipHeight (nHeight b)).
Proof.
  unfold BuildSkip. destruct (H !! p) as [b|] eqn:Hp; [|by left]. destruct (pprev b) as [q|] eqn:Hq; [|by left].
  destruct (decide (x = p)) as [->|Hne]; [right|left; by rewrite lookup_insert_ne].
  eexists b, _. split_and!; [done|done|rewrite lookup_insert_eq, Hq; done|by exists q].
Qed.

Lemma BuildSkip_prev H p x : prev_of (BuildSkip H p) x = prev_of H x.
Proof.
  unfold prev_of. destruct (BuildSkip_lookup H p x) as [->|(b & sk & Hb & _ & -> & _)]; [done|]. by rewrite Hb.
Qed.

Lemma up_BuildSkip H p k x : up (BuildSkip H p) k x = up H k x.
Proof.
  revert x; induction k as [|k IH]; intros x; cbn; [done|]. rewrite BuildSkip_prev. by destruct (prev_of H x); cbn.
Qed.

Lemma BuildSkip_wf H p : wf_heap H -> wf_heap (BuildSkip H p).
Proof.
  intros W. split.
  - intros x b Hx. destruct (BuildSkip_lookup H p x) as [E|(b' & sk & Hb & _ & E & _)]; rewrite E in Hx.
    + by apply (wf_height H W x).
    + injection Hx as <-. apply (wf_height H W x b' Hb).
  - intros x b q Hx Hq. assert (exists c, H !! q = Some c /\ nHeight c = nHeight b - 1) as (c & Hc & Hh).
    { destruct (BuildSkip_lookup H p x) as [E|(b' & sk & Hb & _ & E & _)]; rewrite E in Hx.
      - by apply (wf_prev H W x b q).
      - injection Hx as <-. apply (wf_prev H W x b' q Hb Hq). }
    destruct (BuildSkip_lookup H p q) as [E|(c' & sk & Hc' & _ & E & _)]; rewrite E; [by exists c|].
    rewrite Hc in Hc'. injection Hc' as <-. by eexists.
  - intros x b q Hx Hq. rewrite up_BuildSkip.
    destruct (BuildSkip_lookup H p x) as [E|(b' & sk & Hb & _ & E & r & Hr & Hsk)]; rewrite E in Hx.
    + by apply (wf_skip H W x).
    + injection Hx as <-. cbn [pskip nHeight] in *. rewrite Hsk in Hq. clear Hsk sk E.
      destruct (wf_prev H W x b' r Hb Hr) as (c & Hc & Hch).
      rewrite GetAncestor_eq in Hq by (done || by exists c). unfold height_of in Hq. rewrite Hc, Hch in Hq.
      destruct ((0 <=? _) && _) eqn:Er; [|done]. zbool.
      replace (Z.to_nat (nHeight b' - GetSkipHeight (nHeight b')))
        with (S (Z.to_nat (nHeight b' - 1 - GetSkipHeight (nHeight b')))) by lia.
      cbn [up]. unfold prev_of. rewrite Hb. cbn. rewrite Hr. done.
Qed.

(** ** Lemmas: the active chain *)

Lemma nth_lookup_None (v : list (option ptr)) i : nth i v None = default None (v !! i).
Proof. revert i; induction v as [|x v IH]; intros [|i]; cbn; done || apply IH. Qed.

Lemma chain_of_lookup H tip v i : chain_of H tip v -> (i < length v)%nat -> v !! i = Some (up H (length v - 1 - i) tip).
Proof.
  intros (_ & _ & Hv) Hi. specialize (Hv (length v - 1 - i)%nat ltac:(lia)).
  by replace (length v - 1 - (length v - 1 - i))%nat with i in Hv by lia.
Qed.

Lemma chain_resize_lookup v n i : (i < Z.to_nat n)%nat ->
  chain_resize v n !! i = Some (default None (v !! i)).
Proof.
  intros Hi. unfold chain_resize. rewrite lookup_take_lt by lia.
  destruct (v !! i) as [x|] eqn:E.
  - by rewrite (lookup_app_l_Some _ _ _ _ E).
  - apply lookup_ge_None in E. rewrite lookup_app_r by done. cbn. apply lookup_replicate_2. lia.
Qed.

Lemma length_chain_resize v n : length (chain_resize v n) = Z.to_nat n.
Proof. unfold chain_resize. rewrite length_take, length_app, length_replicate. lia. Qed.

(** Where the old chain already holds the right block, it holds the whole branch
    below it. *)
Lemma chain_ok_below H v i i' q : chain_ok H v -> v !! i = Some (Some q) -> (i' <= i)%nat ->
  v !! i' = Some (up H (i - i') q).
Proof.
  intros [->|[tip Hc]] Hq Hi; [done|]. assert (Hlt : (i < length v)%nat) by (by eapply lookup_lt_Some).
  rewrite (chain_of_lookup H tip v i Hc Hlt) in Hq. injection Hq as Hq.
  rewrite (chain_of_lookup H tip v i' Hc) by lia.
  replace (length v - 1 - i')%nat with (length v - 1 - i + (i - i'))%nat by lia. by rewrite up_add, Hq.
Qed.

Lemma set_tip_loop_spec H p h : wf_heap H -> rooted H -> is_Some (H !! p) -> height_of H p = Z.of_nat h ->
  forall v0, chain_ok H v0 -> forall fuel j w q, (j <= h)%nat -> up H j p = Some q -> (h - j < fuel)%nat ->
  length w = S h ->
  (forall i, (i <= h)%nat -> w !! i = if decide (i <= h - j)%nat then Some (default None (v0 !! i)) else Some (up H (h - i) p)) ->
  length (set_tip_loop H fuel w (Some q)) = S h /\
  (forall i, (i <= h)%nat -> set_tip_loop H fuel w (Some q) !! i = Some (up H (h - i) p)).
Proof.
  intros W R Hp Hh v0 Hv0. induction fuel as [|f IH]; intros j w q Hj Hq Hf Hl Hw; [lia|].
  destruct (up_height H j p q W Hp Hq) as [Hqs Hqh]. cbn [set_tip_loop].
  replace (Z.to_nat (height_of H q)) with (h - j)%nat by lia.
  destruct (decide (nth (h - j) w None = Some q)) as [E|E].
  - rewrite bool_decide_eq_true_2 by done. split; [done|]. intros i Hi. rewrite Hw by done.
    case_decide; [|done]. rewrite nth_lookup_None, (Hw (h - j)%nat), decide_True in E by lia. cbn in E.
    destruct (v0 !! (h - j)%nat) as [x|] eqn:Ex; [cbn in E; subst x|done].
    rewrite (chain_ok_below H v0 (h - j) i q Hv0 Ex) by lia. cbn. f_equal.
    replace (h - i)%nat with (j + (h - j - i))%nat by lia. by rewrite up_add, Hq.
  - rewrite bool_decide_eq_false_2 by done. set (w' := <[(h - j)%nat := Some q]> w).
    assert (Hw' : forall i, (i <= h)%nat -> w' !! i = if decide (i < h - j)%nat then Some (default None (v0 !! i)) else Some (up H (h - i) p)).
    { intros i Hi. unfold w'. destruct (decide (i = h - j)%nat) as [->|Hne].
      - rewrite list_lookup_insert_eq, decide_False by lia. replace (h - (h - j))%nat with j by lia. by rewrite Hq.
      - rewrite list_lookup_insert_ne, Hw by lia. repeat case_decide; done || lia. }
    destruct (prev_of H q) as [r|] eqn:Er.
    + destruct (prev_height H q r W Er) as [Hr Hrh]. pose proof (height_range H r W Hr).
      apply (IH (S j)); [lia| |lia|unfold w'; by rewrite length_insert|].
      * replace (S j) with (j + 1)%nat by lia. rewrite up_add, Hq. cbn. by rewrite Er.
      * intros i Hi. rewrite Hw' by done. repeat case_decide; done || lia.
    + assert (Heq : set_tip_loop H f w' None = w') by (by destruct f). rewrite Heq.
      split; [unfold w'; by rewrite length_insert|]. intros i Hi. rewrite Hw' by done. case_decide; [|done].
      destruct Hqs as [b Hb]. unfold prev_of in Er. rewrite Hb in Er. cbn in Er.
      assert (height_of H q = nHeight b) by (unfold height_of; by rewrite Hb). exfalso. apply (R q b Hb); [lia|done].
Qed.

(** [SetTip] makes the chain the branch of the new tip. *)
Lemma SetTip_chain H v p : wf_heap H -> rooted H -> chain_ok H v -> is_Some (H !! p) -> chain_of H p (SetTip H v (Some p)).
Proof.
  intros W R Hv Hp. pose proof (height_range H p W Hp) as Hr.
  set (h := Z.to_nat (height_of H p)). assert (Hh : height_of H p = Z.of_nat h) by lia.
  cbn [SetTip]. fold h.
  destruct (set_tip_loop_spec H p h W R Hp Hh v Hv (S h) 0 (chain_resize v (height_of H p + 1)) p) as [Hl Hi];
    [lia|done|lia|rewrite length_chain_resize; lia| |].
  - intros i Hi. rewrite chain_resize_lookup, decide_True by lia. done.
  - split; [done|]. split; [lia|]. intros k Hk. rewrite Hi by lia. f_equal. f_equal. lia.
Qed.

Lemma chain_get_spec H tip v i : chain_of H tip v -> 0 <= i < Z.of_nat (length v) ->
  chain_get v i = up H (length v - 1 - Z.to_nat i) tip.
Proof.
  intros Hc Hi. unfold chain_get. rewrite (proj2 (Z.ltb_ge _ _)) by lia.
  rewrite Z.geb_leb, (proj2 (Z.leb_gt _ _)) by lia. cbn [orb].
  rewrite nth_lookup_None, (chain_of_lookup H tip v) by (done || lia). done.
Qed.

(** Being contained in the chain is being an ancestor of its tip. *)
Lemma Contains_spec H tip v q : wf_heap H -> chain_of H tip v -> is_Some (H !! q) ->
  Contains H v q = true <-> exists k, up H k tip = Some q.
Proof.
  intros W Hc Hq. pose proof Hc as (Ht & Hl & _). pose proof (height_range H q W Hq) as Hr.
  unfold Contains. rewrite bool_decide_eq_true. split.
  - intros E. unfold chain_get in E. destruct (_ || _) eqn:Er; [done|]. zbool.
    rewrite nth_lookup_None, (chain_of_lookup H tip v) in E by (done || lia). cbn in E. by eexists.
  - intros [k Hk]. destruct (up_height H k tip q W Ht Hk) as [_ Hqh].
    rewrite (chain_get_spec H tip v) by (done || lia). rewrite <- Hk. f_equal. lia.
Qed.

(** ** Lemmas: forks *)

Lemma fork_walk_spec H tip v : wf_heap H -> rooted H -> chain_of H tip v -> forall fuel p, is_Some (H !! p) ->
  (Z.to_nat (height_of H p) < fuel)%nat ->
  match fork_walk H fuel v (Some p) with
  | Some f => exists k, up H k p = Some f /\ Contains H v f = true /\
                forall k' g, (k' < k)%nat -> up H k' p = Some g -> Contains H v g = false
  | None => forall k g, up H k p = Some g -> Contains H v g = false
  end.
Proof.
  intros W R Hc. induction fuel as [|f IH]; intros p Hp Hf; [lia|]. cbn [fork_walk].
  destruct (Contains H v p) eqn:Ec; [exists 0%nat; split_and!; [done|done|lia]|].
  destruct (prev_of H p) as [r|] eqn:Er.
  - destruct (prev_height H p r W Er) as [Hr Hh]. pose proof (height_range H r W Hr).
    specialize (IH r Hr ltac:(lia)). destruct (fork_walk H f v (Some r)) as [fk|].
    + destruct IH as (k & Hk & Hcf & Hmin). exists (S k). split_and!; [cbn; by rewrite Er|done|].
      intros [|k'] g Hk' Hg; [by injection Hg as <-|]. cbn in Hg. rewrite Er in Hg. apply (Hmin k'); [lia|done].
    + intros [|k] g Hg; [by injection Hg as <-|]. cbn in Hg. rewrite Er in Hg. by apply (IH k).
  - assert (fork_walk H f v None = None) as -> by (by destruct f).
    intros [|k] g Hg; [by injection Hg as <-|]. cbn in Hg. by rewrite Er in Hg.
Qed.

Lemma Contains_height H v q : Contains H v q = true -> 0 <= height_of H q <= chain_Height v.
Proof.
  unfold Contains, chain_get, chain_Height. rewrite bool_decide_eq_true. destruct (_ || _) eqn:E; [done|]. zbool. lia.
Qed.

Lemma FindFork_spec H tip v p : wf_heap H -> rooted H -> chain_of H tip v -> is_Some (H !! p) ->
  match FindFork H v (Some p) with
  | Some f => exists k, up H k p = Some f /\ Contains H v f = true /\
                forall k' g, (k' < k)%nat -> up H k' p = Some g -> Contains H v g = false
  | None => forall k g, up H k p = Some g -> Contains H v g = false
  end.
Proof.
  intros W R Hc Hp. unfold FindFork. pose proof Hc as (Ht & Hl & _).
  pose proof (height_range H tip W Ht) as Hrt. pose proof (height_range H p W Hp) as Hrp.
  destruct (height_of H p >? chain_Height v) eqn:E; zbool.
  2:{ apply (fork_walk_spec H tip v W R Hc); [done|lia]. }
  unfold chain_Height in *. rewrite GetAncestor_eq by done. rewrite !(proj2 (Z.leb_le _ _)) by lia. cbn [andb].
  set (d := Z.to_nat (height_of H p - (Z.of_nat (length v) - 1))).
  destruct (up_Some H d p W R Hp ltac:(lia)) as [q Hq]. rewrite Hq.
  destruct (up_height H d p q W Hp Hq) as [Hqs Hqh].
  assert (Hhigh : forall k g, (k < d)%nat -> up H k p = Some g -> Contains H v g = false).
  { intros k g Hk Hg. destruct (up_height H k p g W Hp Hg) as [_ Hgh]. apply not_true_iff_false. intros Hcg.
    apply Contains_height in Hcg. unfold chain_Height in Hcg. lia. }
  pose proof (fork_walk_spec H tip v W R Hc (S (Z.to_nat (height_of H p))) q Hqs ltac:(lia)) as Hw.
  assert (Hsplit : forall k g, up H k p = Some g -> (k < d)%nat \/ (d <= k)%nat /\ up H (k - d) q = Some g).
  { intros k g Hg. destruct (decide (k < d)%nat); [by left|right]. split; [lia|]. replace k with (d + (k - d))%nat in Hg by lia.
    by rewrite up_add, Hq in Hg. }
  destruct (fork_walk _ _ _ _) as [f|].
  - destruct Hw as (k & Hk & Hcf & Hmin). exists (d + k)%nat. split_and!; [by rewrite up_add, Hq|done|].
    intros k' g Hk' Hg. destruct (Hsplit k' g Hg) as [?|[? ?]]; [by apply (Hhigh k')|]. apply (Hmin (k' - d)%nat); [lia|done].
  - intros k g Hg. destruct (Hsplit k g Hg) as [?|[? ?]]; [by apply (Hhigh k)|]. by apply (Hw (k - d)%nat).
Qed.

(** ** Lemmas: work *)

Lemma compact_target_gap c : is_u32 c -> let d := compact_value (c mod 2 ^ 23) (c / 2 ^ 24) in d < 2 ^ 256 -> d + 1 < 2 ^ 256.
Proof.
  intros Hc d Hd. destruct (compact_fields c Hc) as (_ & _ & Hm & Hn). unfold d, compact_value in *. zcase.
  - assert (c mod 2 ^ 23 / 2 ^ (8 * (3 - c / 2 ^ 24)) <= c mod 2 ^ 23); [|lia].
    apply Z.div_le_upper_bound; [apply Z.pow_pos_nonneg; lia|].
    assert (0 < 2 ^ (8 * (3 - c / 2 ^ 24))) by (apply Z.pow_pos_nonneg; lia). nia.
  - set (e := c / 2 ^ 24) in *. assert (2 ^ (8 * (e - 3)) = 2 * 2 ^ (8 * (e - 3) - 1)) as E.
    { rewrite <- Z.pow_succ_r by lia. f_equal. lia. }
    rewrite E in *. lia.
Qed.

Lemma work_quotient T : 0 <= T -> T + 1 < 2 ^ 256 -> (2 ^ 256 - 1 - T) / (T + 1) + 1 = 2 ^ 256 / (T + 1).
Proof.
  intros H1 H2. replace (2 ^ 256) with (2 ^ 256 - 1 - T + 1 * (T + 1)) at 2 by lia. rewrite Z.div_add by lia. lia.
Qed.

(** ** Lemmas: common ancestors *)

Lemma common_walk_spec H : wf_heap H -> rooted H -> forall fuel a b, is_Some (H !! a) -> is_Some (H !! b) ->
  height_of H a = height_of H b -> (Z.to_nat (height_of H a) < fuel)%nat ->
  match common_walk H fuel (Some a) (Some b) with
  | Some c => exists k, up H k a = Some c /\ up H k b = Some c /\
                forall k' d, (k' < k)%nat -> up H k' a = Some d -> up H k' b <> Some d
  | None => forall k d, up H k a = Some d -> up H k b <> Some d
  end.
Proof.
  intros W R. induction fuel as [|f IH]; intros a b Ha Hb Hh Hf; [lia|]. cbn [common_walk].
  destruct (decide (Some a = Some b)) as [E|E]; [injection E as ->; exists 0%nat; split_and!; [done|done|lia]|].
  assert (E0 : forall d, up H 0 a = Some d -> up H 0 b <> Some d) by (cbn; congruence).
  destruct (prev_of H a) as [a'|] eqn:Ea, (prev_of H b) as [b'|] eqn:Eb.
  - destruct (prev_height H a a' W Ea) as [Ha' Hha]. destruct (prev_height H b b' W Eb) as [Hb' Hhb].
    pose proof (height_range H a' W Ha'). specialize (IH a' b' Ha' Hb' ltac:(lia) ltac:(lia)).
    destruct (common_walk H f (Some a') (Some b')) as [c|].
    + destruct IH as (k & H1 & H2 & H3). exists (S k). split_and!; [cbn; by rewrite Ea|cbn; by rewrite Eb|].
      intros [|k'] d Hk; [apply E0|]. cbn. rewrite Ea, Eb. cbn. apply H3. lia.
    + intros [|k] d; [apply E0|]. cbn. rewrite Ea, Eb. cbn. apply IH.
  - assert (common_walk H f (Some a') None = None) as -> by (by destruct f).
    intros [|k] d; [apply E0|]. cbn. by rewrite Eb.
  - assert (common_walk H f None (Some b') = None) as -> by (by destruct f).
    intros [|k] d; [apply E0|]. cbn. by rewrite Ea.
  - assert (common_walk H f None None = None) as -> by (by destruct f).
    intros [|k] d; [apply E0|]. cbn. by rewrite Ea.
Qed.

(** Levelling the two blocks loses no common ancestor. *)
Lemma level_down H p q : wf_heap H -> rooted H -> is_Some (H !! p) -> is_Some (H !! q) -> height_of H q <= height_of H p ->
  exists a, GetAncestor H p (height_of H q) = Some a /\ is_Some (H !! a) /\ height_of H a = height_of H q /\
    (forall k c, up H k a = Some c -> up H (Z.to_nat (height_of H p - height_of H q) + k) p = Some c) /\
    (forall k k' c, up H k p = Some c -> up H k' q = Some c -> up H k' a = Some c).
Proof.
  intros W R Hp Hq Hle. pose proof (height_range H q W Hq).
  rewrite GetAncestor_eq by done. rewrite !(proj2 (Z.leb_le _ _)) by lia. cbn [andb].
  set (d := Z.to_nat (height_of H p - height_of H q)).
  destruct (up_Some H d p W R Hp ltac:(lia)) as [a Ea]. destruct (up_height H d p a W Hp Ea) as [Ha Hh].
  exists a. split_and!; [done|done|lia| |].
  - intros k c Hc. by rewrite up_add, Ea.
  - intros k k' c Hk Hk'. destruct (up_height H k p c W Hp Hk) as [_ E1]. destruct (up_height H k' q c W Hq Hk') as [_ E2].
    replace k with (d + k')%nat in Hk by lia. by rewrite up_add, Ea in Hk.
Qed.

(** [c] is a common ancestor of [a] and [b]. *)
Definition common_ancestor (H : heap) (a b c : ptr) : Prop := exists k k', up H k a = Some c /\ up H k' b = Some c.

Lemma LastCommonAncestor_level H a b : wf_heap H -> rooted H -> is_Some (H !! a) -> is_Some (H !! b) ->
  exists a' b', LastCommonAncestor H a b = common_walk H (S (Z.to_nat (height_of H a'))) (Some a') (Some b') /\
    is_Some (H !! a') /\ is_Some (H !! b') /\ height_of H a' = height_of H b' /\
    (forall c, common_ancestor H a b c -> exists k, up H k a' = Some c /\ up H k b' = Some c) /\
    (forall k c, up H k a' = Some c -> up H k b' = Some c -> common_ancestor H a b c).
Proof.
  intros W R Ha Hb. unfold LastCommonAncestor.
  assert (Hsame : forall x y k k' c, is_Some (H !! x) -> is_Some (H !! y) -> height_of H x = height_of H y ->
     up H k x = Some c -> up H k' y = Some c -> k = k').
  { intros x y k k' c Hx Hy Hxy E1 E2. destruct (up_height H k x c W Hx E1) as [_ ?].
    destruct (up_height H k' y c W Hy E2) as [_ ?]. lia. }
  destruct (height_of H a >? height_of H b) eqn:E1; zbool.
  { destruct (level_down H a b W R Ha Hb ltac:(lia)) as (a' & -> & Ha' & Hh & Hup & Hdown).
    exists a', b. split_and!; try done; [do 2 f_equal; lia| |].
    - intros c (k & k' & Hk & Hk'). exists k'. split; [by apply (Hdown k)|done].
    - intros k c Hk Hk'. eexists _, k. split; [by apply Hup|done]. }
  destruct (height_of H b >? height_of H a) eqn:E2; zbool.
  { destruct (level_down H b a W R Hb Ha ltac:(lia)) as (b' & -> & Hb' & Hh & Hup & Hdown).
    exists a, b'. split_and!; try done; [do 2 f_equal; lia| |].
    - intros c (k & k' & Hk & Hk'). exists k. split; [done|by apply (Hdown k')].
    - intros k c Hk Hk'. eexists k, _. split; [done|by apply Hup]. }
  exists a, b. split_and!; try done; [do 2 f_equal; lia|lia| |].
  - intros c (k & k' & Hk & Hk'). exists k. split; [done|].
    by rewrite (Hsame a b k k' c Ha Hb ltac:(lia) Hk Hk').
  - intros k c Hk Hk'. by exists k, k.
Qed.

(** ** Lemmas: times *)

Lemma merge_sort_head_min (l : list Z) x : x ∈ l -> nth 0 (merge_sort Z.le l) 0 <= x.
Proof.
  intros Hx. pose proof (merge_sort_Permutation Z.le l) as Hp. pose proof (Sorted_merge_sort Z.le l) as Hs.
  assert (Hin : x ∈ merge_sort Z.le l) by (by rewrite Hp). destruct (merge_sort Z.le l) as [|y s]; [by apply not_elem_of_nil in Hin|].
  cbn. apply elem_of_cons in Hin as [->|Hin]; [lia|].
  apply Sorted_StronglySorted in Hs; [|typeclasses eauto]. inversion Hs as [|? ? _ Hall]; subst.
  by apply (proj1 (Forall_forall _ _) Hall).
Qed.

Lemma median_select_min times span full : 0 < span -> times <> [] ->
  median_select times span full ∈ times /\ forall t, t ∈ times -> median_select times span full <= t.
Proof.
  intros Hs Hne. unfold median_select. rewrite (proj2 (Z.ltb_lt _ _)) by lia. split.
  - rewrite <- (merge_sort_Permutation Z.le times) at 2.
    destruct (merge_sort Z.le times) as [|y s] eqn:E; [|apply elem_of_cons; by left].
    pose proof (merge_sort_Permutation Z.le times) as Hp. rewrite E in Hp. by apply Permutation_nil in Hp.
  - intros t Ht. by apply merge_sort_head_min.
Qed.

(** ** Theorems *)

(** the skip-list search [GetAncestor] returns exactly the ancestor that
    following parent pointers would reach, at any height of a consistent tree
    (full or partial), and null outside the block's heights; the walk ends. *)
Theorem GetAncestor_correct H p height : wf_heap H -> is_Some (H !! p) ->
  GetAncestor H p height =
  (if (0 <=? height) && (height <=? height_of H p) then up H (Z.to_nat (height_of H p - height)) p else None).
Proof. apply GetAncestor_eq. Qed.

(** A fork: blocks 1-2-3 at heights 0-2 and block 4 at height 2 on top of 2. *)
Definition sample_block (h : Z) (pr sk : option ptr) (t : Z) : CBlockIndex := mkIndex h pr sk t 0 0 0 bu_zero.
Definition sample_heap : heap :=
  <[1%positive := sample_block 0 None None 100]> (<[2%positive := sample_block 1 (Some 1%positive) (Some 1%positive) 300]>
  (<[3%positive := sample_block 2 (Some 2%positive) (Some 1%positive) 200]>
  (<[4%positive := sample_block 2 (Some 2%positive) None 250]> ∅))).

Lemma sample_cases p b : sample_heap !! p = Some b ->
  (p = 1%positive /\ b = sample_block 0 None None 100) \/
  (p = 2%positive /\ b = sample_block 1 (Some 1%positive) (Some 1%positive) 300) \/
  (p = 3%positive /\ b = sample_block 2 (Some 2%positive) (Some 1%positive) 200) \/
  (p = 4%positive /\ b = sample_block 2 (Some 2%positive) None 250).
Proof. unfold sample_heap. rewrite !lookup_insert_Some, lookup_empty. intuition congruence. Qed.

Lemma sample_wf : wf_heap sample_heap.
Proof.
  split.
  - intros p b Hb. destruct (sample_cases p b Hb) as [[_ ->]|[[_ ->]|[[_ ->]|[_ ->]]]]; cbn; lia.
  - intros p b q Hb. destruct (sample_cases p b Hb) as [[_ ->]|[[_ ->]|[[_ ->]|[_ ->]]]]; cbn; intros [= <-]; by eexists.
  - intros p b q Hb. destruct (sample_cases p b Hb) as [[-> ->]|[[-> ->]|[[-> ->]|[-> ->]]]]; cbn; intros [= <-]; done.
Qed.

Lemma sample_rooted : rooted sample_heap.
Proof. intros p b Hb. destruct (sample_cases p b Hb) as [[_ ->]|[[_ ->]|[[_ ->]|[_ ->]]]]; cbn; (lia || done). Qed.

Lemma GetAncestor_correct_witness : GetAncestor sample_heap 3 0 = Some 1%positive.
Proof. rewrite (GetAncestor_correct sample_heap 3 0 sample_wf); [reflexivity|by eexists]. Defined.

(** [BuildSkip] keeps the tree consistent: the pointer it stores is the
    ancestor at the skip height, and no ancestry relation changes. *)
Theorem BuildSkip_preserves_tree H p : wf_heap H ->
  wf_heap (BuildSkip H p) /\ (forall k x, up (BuildSkip H p) k x = up H k x).
Proof. intros W. split; [by apply BuildSkip_wf|]. intros k x. apply up_BuildSkip. Qed.

Lemma BuildSkip_preserves_tree_witness : skip_of (BuildSkip sample_heap 4) 4 = Some 1%positive /\ wf_heap (BuildSkip sample_heap 4).
Proof. split; [reflexivity|]. apply (BuildSkip_preserves_tree sample_heap 4 sample_wf). Defined.

(** [SetTip] turns any earlier state of the active chain into the branch of
    the new tip although it stops at the first entry that is already right:
    every height holds the ancestor of the tip, [Contains] is exactly being an
    ancestor of the tip, and [Tip] is the new tip. *)
Theorem SetTip_correct H v p : wf_heap H -> rooted H -> chain_ok H v -> is_Some (H !! p) ->
  chain_of H p (SetTip H v (Some p)) /\ Tip (SetTip H v (Some p)) = Some p /\
  (forall q, is_Some (H !! q) -> Contains H (SetTip H v (Some p)) q = true <-> exists k, up H k p = Some q).
Proof.
  intros W R Hv Hp. pose proof (SetTip_chain H v p W R Hv Hp) as Hc. split; [done|]. split.
  - pose proof Hc as (_ & Hl & _). pose proof (height_range H p W Hp). unfold Tip, chain_Height.
    rewrite Z.geb_leb, (proj2 (Z.leb_le _ _)) by lia. rewrite (chain_get_spec H p) by (done || lia).
    replace (length (SetTip H v (Some p)) - 1 - Z.to_nat (Z.of_nat (length (SetTip H v (Some p))) - 1))%nat with 0%nat by lia.
    done.
  - intros q Hq. by apply Contains_spec.
Qed.

Lemma SetTip_correct_witness : Tip (SetTip sample_heap (SetTip sample_heap [] (Some 3%positive)) (Some 4%positive)) = Some 4%positive.
Proof.
  apply (SetTip_correct sample_heap (SetTip sample_heap [] (Some 3%positive)) 4 sample_wf sample_rooted); [|by eexists].
  right. exists 3%positive. apply SetTip_chain; [exact sample_wf|exact sample_rooted|by left|by eexists].
Defined.

(** [FindFork] returns the last block a branch shares with the active chain:
    the returned block is on the branch and in the chain and no later block of
    the branch is; it returns null only when the branch shares no block with
    the chain. *)
Theorem FindFork_correct H tip v p : wf_heap H -> rooted H -> chain_of H tip v -> is_Some (H !! p) ->
  match FindFork H v (Some p) with
  | Some f => exists k, up H k p = Some f /\ Contains H v f = true /\
                forall k' g, (k' < k)%nat -> up H k' p = Some g -> Contains H v g = false
  | None => forall k g, up H k p = Some g -> Contains H v g = false
  end.
Proof. apply FindFork_spec. Qed.

Lemma FindFork_correct_witness : exists k, up sample_heap k 4 = Some 2%positive.
Proof.
  pose proof (FindFork_correct sample_heap 3 (SetTip sample_heap [] (Some 3%positive)) 4 sample_wf sample_rooted) as Hf.
  assert (E : FindFork sample_heap (SetTip sample_heap [] (Some 3%positive)) (Some 4%positive) = Some 2%positive) by reflexivity.
  rewrite E in Hf. destruct Hf as (k & Hk & _); [|by eexists|by exists k].
  apply SetTip_chain; [exact sample_wf|exact sample_rooted|by left|by eexists].
Defined.

(** [LastCommonAncestor] finds the highest common ancestor of two blocks
    whenever they have one. *)
Theorem LastCommonAncestor_correct H a b : wf_heap H -> rooted H -> is_Some (H !! a) -> is_Some (H !! b) ->
  match LastCommonAncestor H a b with
  | Some c => common_ancestor H a b c /\ forall d, common_ancestor H a b d -> height_of H d <= height_of H c
  | None => forall d, ~ common_ancestor H a b d
  end.
Proof.
  intros W R Ha Hb. destruct (LastCommonAncestor_level H a b W R Ha Hb) as (a' & b' & -> & Ha' & Hb' & Hh & Hdown & Hup).
  pose proof (common_walk_spec H W R (S (Z.to_nat (height_of H a'))) a' b' Ha' Hb' Hh ltac:(lia)) as Hw.
  destruct (common_walk _ _ _ _) as [c|].
  - destruct Hw as (k & H1 & H2 & Hmin). split; [by apply (Hup k)|]. intros d Hd.
    destruct (Hdown d Hd) as (k' & H3 & H4). destruct (decide (k' < k)%nat) as [Hlt|]; [by destruct (Hmin k' d Hlt H3)|].
    destruct (up_height H k a' c W Ha' H1) as [_ ->]. destruct (up_height H k' a' d W Ha' H3) as [_ ->]. lia.
  - intros d Hd. destruct (Hdown d Hd) as (k & H1 & H2). by apply (Hw k d).
Qed.

Lemma LastCommonAncestor_correct_witness : common_ancestor sample_heap 3 4 2.
Proof.
  pose proof (LastCommonAncestor_correct sample_heap 3 4 sample_wf sample_rooted) as Hc.
  assert (E : LastCommonAncestor sample_heap 3 4 = Some 2%positive) by reflexivity. rewrite E in Hc.
  apply Hc; by eexists.
Defined.

(** the work credited for a block is exactly [2^256 / (target + 1)] rounded
    down, computed without overflow or division by zero for every compact
    target, and zero for negative, overflowing or zero targets. *)
Theorem GetBlockProof_exact c : is_u32 c ->
  let d := compact_value (c mod 2 ^ 23) (c / 2 ^ 24) in
  exists w, GetBlockProof c = Some w /\ wf w /\
    val w = if (negb (d =? 0) && Z.testbit c 23) || (d >=? 2 ^ 256) || (d =? 0) then 0 else 2 ^ 256 / (d + 1).
Proof.
  intros Hc d. unfold GetBlockProof. destruct (SetCompact c) as [[t f1] f2] eqn:E.
  destruct (SetCompact_spec c t f1 f2 Hc E) as (Hw & Hv & -> & ->). fold d in Hv |- *.
  rewrite EqualTo_spec by (done || lia). destruct (d >=? 2 ^ 256) eqn:Eo; zbool.
  { rewrite orb_true_r. cbn [orb]. exists bu_zero. split_and!; [done|apply wf_zero|done]. }
  assert (Hd0 : 0 <= d).
  { unfold d, compact_value. destruct (compact_fields c Hc) as (_ & _ & Hm & Hn).
    zcase; [apply Z_div_nonneg_nonneg|apply Z.mul_nonneg_nonneg]; try apply Z.pow_nonneg; lia. }
  rewrite Z.mod_small in Hv by lia. rewrite Hv, orb_false_r.
  destruct ((negb (d =? 0) && Z.testbit c 23) || (d =? 0)) eqn:Ez.
  { exists bu_zero. split_and!; [done|apply wf_zero|done]. }
  zbool. pose proof (compact_target_gap c Hc) as Hgap. fold d in Hgap. cbv zeta in Hgap. specialize (Hgap ltac:(lia)).
  destruct (of_u64_spec 1 ltac:(lia)) as [W1 V1]. destruct Hw as [Lt Ot].
  destruct (bnot_spec t Ot) as (Ln & On & Vn). rewrite Lt in Ln, Vn.
  change (2 ^ (32 * Z.of_nat WIDTH)) with (2 ^ 256) in Vn.
  assert (Hw : wf t) by done. assert (Wn : wf (bnot t)) by done.
  destruct (add_spec t (of_u64 1) Hw W1) as [Wa Va]. rewrite Hv, V1, Z.mod_small in Va by lia.
  destruct (div_spec (bnot t) (add t (of_u64 1)) Wn Wa) as [_ Hdiv].
  destruct Hdiv as (q & -> & Wq & Vq); [lia|]. rewrite Va, Vn, Hv in Vq.
  destruct (add_spec q (of_u64 1) Wq W1) as [Wr Vr]. eexists. split_and!; [done|done|].
  rewrite Vr, V1, Vq. rewrite <- (work_quotient d) by lia.
  apply Z.mod_small. rewrite work_quotient by lia. split; [apply Z.div_pos; lia|]. apply Z.div_lt_upper_bound; lia.
Qed.

Lemma GetBlockProof_exact_witness : exists w, GetBlockProof 0x1d00ffff = Some w /\ val w = 4295032833.
Proof.
  destruct (GetBlockProof_exact 0x1d00ffff) as (w & E & _ & V); [split; [discriminate|reflexivity]|].
  exists w. split; [exact E|]. rewrite V. vm_compute. reflexivity.
Defined.

(** [GetMedianTimePast] and its PoW and witness variants return the minimum of
    the times they collect, never their median: the comparison that should
    detect a short window subtracts the pointers in the wrong order and is
    always true. *)
Theorem median_time_past_is_minimum H testnet p b : H !! p = Some b ->
  let n := Z.to_nat (nMedianTimeSpan H testnet p) in
  let pow := times_back H n (Some p) (fun b => [GetBlockTime b]) in
  let wit := times_back H n (Some p) (fun b => [witness_time b]) in
  let both := if nTimePoW2Witness b =? 0 then pow
              else times_back H n (Some p) (fun b => [witness_time b; GetBlockTime b]) in
  (GetMedianTimePastPoW H testnet p ∈ pow /\ forall t, t ∈ pow -> GetMedianTimePastPoW H testnet p <= t) /\
  (GetMedianTimePastWitness H testnet p ∈ wit /\ forall t, t ∈ wit -> GetMedianTimePastWitness H testnet p <= t) /\
  (GetMedianTimePast H testnet p ∈ both /\ forall t, t ∈ both -> GetMedianTimePast H testnet p <= t).
Proof.
  intros Hb n pow wit both.
  assert (Hspan : 0 < nMedianTimeSpan H testnet p) by (unfold nMedianTimeSpan; zcase; lia).
  assert (Hne : forall tm : CBlockIndex -> list Z, tm b <> [] -> times_back H n (Some p) tm <> []).
  { intros tm Htm. unfold n. destruct (Z.to_nat (nMedianTimeSpan H testnet p)) eqn:E; [lia|]. cbn. rewrite Hb.
    by destruct (tm b). }
  assert (Hmin : forall times span full, 0 < span -> times <> [] ->
    median_select times span full ∈ times /\ forall t, t ∈ times -> median_select times span full <= t).
  { intros times span full Hs Ht. split; by apply median_select_min. }
  split; [by apply Hmin; [|apply Hne]|split; [by apply Hmin; [|apply Hne]|]].
  unfold GetMedianTimePast, both. rewrite Hb. destruct (nTimePoW2Witness b =? 0); cbn [negb]; [by apply Hmin; [|apply Hne]|].
  rewrite Z.div_mul by lia. apply Hmin; [lia|by apply Hne].
Qed.

Lemma median_time_past_is_minimum_witness : GetMedianTimePast sample_heap true 3 <= 200 /\ GetMedianTimePast sample_heap true 3 <= 100.
Proof.
  destruct (median_time_past_is_minimum sample_heap true 3 (sample_block 2 (Some 2%positive) (Some 1%positive) 200) eq_refl)
    as (_ & _ & _ & Hm).
  assert (E : times_back sample_heap (Z.to_nat (nMedianTimeSpan sample_heap true 3)) (Some 3%positive) (fun b => [GetBlockTime b])
              = [200; 300; 100]) by (vm_compute; reflexivity).
  split; apply Hm; cbn [nTimePoW2Witness sample_block Z.eqb]; rewrite E; [left|right; right; left].
Defined.
