(* ===== verification/DiffDelta.v ===== *)
(** * DiffDelta: the difficulty algorithm of [src/src/pow/]

    [GetNextWorkRequired_DELTA] ([diff_delta.cpp]), its dispatcher
    ([diff_common.cpp]), the static table it replaces ([diff_old.cpp]) and the
    proof-of-work range check ([pow.cpp]). [None] is undefined behaviour of the
    source: a null parent that is dereferenced or a division by zero. The times
    are 32-bit values held in [int64_t], so sums of at most 576 of their
    differences are far from the limits of that type and are plain integers
    here; the unsigned products of the adjustment limits and the 256-bit products
    wrap as they do in the source. *)

From stdpp Require Import gmap.
From S2P Require Import Prelude ArithUint256 Chain.

(** ** Definitions *)

Definition PERCENT_FACTOR : Z := 100.
Definition nLastBlock : Z := 1.
Definition nShortFrame : Z := 3.
Definition nMiddleFrame : Z := 24.
Definition nLongFrame : Z := 576.
Definition nLBWeight : Z := 64.
Definition nShortWeight : Z := 8.
Definition nQBFrame : Z := nShortFrame + 1.
Definition nBadTimeLimit : Z := 0.
Definition nDrift : Z := 60.
Definition nLongTimeLimit : Z := 3 * nDrift.
Definition nLongTimeStep : Z := nDrift.
Definition nDeltaDropPerStep : Z := 110.

(** [0x003f...ff], the limit that applies after 17 October 2019. *)
Definition sigma_limit : base_uint := repeat 0xffffffff 7 ++ [0x003fffff].

(** A window's block time: bad times are replaced, and a block that was mined
    after a long-block reduction counts with the rest of its last step only. *)
Definition window_time (nRetargetTimespan nTimespan nTimespanPoW : Z) : Z * Z :=
  let d := if nTimespan <=? nBadTimeLimit then nRetargetTimespan ÷ 10 else nTimespan in
  if nTimespanPoW >? nLongTimeLimit + nLongTimeStep then
    let r := Z.rem (nTimespanPoW - nLongTimeLimit) nLongTimeStep in (Z.min d r, r)
  else (d, nTimespanPoW).

Section Delta.
Variable H : heap.

(** [p] and its parent, both dereferenced. *)
Definition with_parent (p : ptr) : option (CBlockIndex * CBlockIndex * ptr) :=
  b ← H !! p; q ← pprev b; c ← H !! q; Some (b, c, q).

(** The loop of the short window from iteration [i]: the sums so far are
    [nShortTimespan] and [nQBTimespan]. *)
Fixpoint short_loop (n : nat) (i : Z) (p : option ptr) (nRetargetTimespan short qb : Z) : option (Z * Z) :=
  match n, p with
  | S n', Some x =>
      '(b, c, q) ← with_parent x;
      let d := fst (window_time nRetargetTimespan (witness_time b - witness_time c) (GetBlockTime b - GetBlockTime c)) in
      short_loop n' (i + 1) (Some q) nRetargetTimespan (if i <=? nShortFrame then short + d else short) (qb + d)
  | _, _ => Some (short, qb)
  end.

(** The loop of the middle window; [pow] is [nDeltaTimespanPoW], which the loop
    reads and reduces but never sets from a block. *)
Fixpoint middle_loop (n : nat) (p : option ptr) (nRetargetTimespan pow acc : Z) : option Z :=
  match n, p with
  | S n', Some x =>
      '(b, c, q) ← with_parent x;
      let '(d, pow') := window_time nRetargetTimespan (witness_time b - witness_time c) pow in
      middle_loop n' (Some q) nRetargetTimespan pow' (acc + d)
  | _, _ => Some acc
  end.

Fixpoint long_loop (n : nat) (p : option ptr) : option ptr :=
  match n, p with
  | S n', Some x => match H !! x with Some b => long_loop n' (pprev b) | None => None end
  | _, _ => p
  end.

(** The middle window's weight and time. *)
Definition middle_window (p : ptr) (b : CBlockIndex) (nRetargetTimespan nFirstDeltaBlock : Z) : option (Z * Z) :=
  if nHeight b - i32 nFirstDeltaBlock <=? nMiddleFrame then Some (0, 0)
  else t ← middle_loop (Z.to_nat nMiddleFrame) (Some p) nRetargetTimespan 0 0; Some (2, t).
(** The long window's weight and time. *)
Definition long_window (p : ptr) (b : CBlockIndex) (nFirstDeltaBlock : Z) : option (Z * Z) :=
  if nHeight b - i32 nFirstDeltaBlock <=? nLongFrame then Some (0, 0)
  else q ← long_loop (Z.to_nat nLongFrame) (Some p); c ← H !! q; Some (1, witness_time b - witness_time c).

(** The last block's time and the weighted time over all windows. *)
Definition weighted_timespan (p : ptr) (nRetargetTimespan nFirstDeltaBlock : Z) : option (Z * Z) :=
  '(b, c, _) ← with_parent p;
  let nLBTimespan := fst (window_time nRetargetTimespan (witness_time b - witness_time c) (GetBlockTime b - GetBlockTime c)) in
  '(nShortTimespan, _) ← short_loop (Z.to_nat nQBFrame) 1 (Some p) nRetargetTimespan 0 0;
  '(nMiddleWeight, nMiddleTimespan) ← middle_window p b nRetargetTimespan nFirstDeltaBlock;
  '(nLongWeight, nLongTimespan) ← long_window p b nFirstDeltaBlock;
  let nWeightedSum := nLBTimespan * nLBWeight + nShortTimespan * nShortWeight
                      + (nMiddleTimespan * nMiddleWeight + nLongTimespan * nLongWeight) in
  let nWeightedDiv := nLastBlock * nLBWeight + nShortFrame * nShortWeight
                      + (nMiddleFrame * nMiddleWeight + nLongFrame * nLongWeight) in
  Some (nLBTimespan, nWeightedSum ÷ nWeightedDiv).

End Delta.

(** [(unsigned int)nRetargetTimespan * pct / PERCENT_FACTOR] *)
Definition pct_limit (nRetargetTimespan pct : Z) : Z := u32 (u32 nRetargetTimespan * pct) / PERCENT_FACTOR.

(** [nMinimumAdjustLimit] and [nMaximumAdjustLimit]. *)
Definition adjust_limits (nLBTimespan nRetargetTimespan : Z) : Z * Z :=
  if Z.abs (nLBTimespan - nRetargetTimespan) <? (nRetargetTimespan * 20) ÷ PERCENT_FACTOR
  then (pct_limit nRetargetTimespan 90, pct_limit nRetargetTimespan 110)
  else if Z.abs (nLBTimespan - nRetargetTimespan) <? (nRetargetTimespan * 30) ÷ PERCENT_FACTOR
  then (pct_limit nRetargetTimespan 80, pct_limit nRetargetTimespan 120)
  else (pct_limit nRetargetTimespan 75, pct_limit nRetargetTimespan 150).

Definition apply_limits (nWeightedTimespan nMin nMax : Z) : Z :=
  let w := if nWeightedTimespan <? nMin then nMin else nWeightedTimespan in
  if w >? nMax then nMax else w.

(** [bn * x / y] on 256-bit numbers. *)
Definition scale (bn : base_uint) (x y : Z) : option base_uint := div (mul bn (of_u64 (u64 x))) (of_u64 (u64 y)).

(** Exception 1: no decrease of the difficulty after a quick block. *)
Definition exception1 (nBits nLBTimespan nRetargetTimespan : Z) (bnNew : base_uint) : option base_uint :=
  let nLowTimeLimit := (nRetargetTimespan * 90) ÷ PERCENT_FACTOR in
  let nFloorTimeLimit := (nRetargetTimespan * 65) ÷ PERCENT_FACTOR in
  if (nLBTimespan >? 0) && (nLBTimespan <? nLowTimeLimit) && bu_gt bnNew (SetCompact_val nBits) then
    if nLBTimespan <? nFloorTimeLimit then scale (SetCompact_val nBits) 95 PERCENT_FACTOR
    else Some (SetCompact_val nBits)
  else Some bnNew.

(** Exception 2: one reduction of the difficulty per missed step. *)
Fixpoint drop_loop (n : nat) (bnNew : base_uint) : option base_uint :=
  match n with
  | O => Some bnNew
  | S n' => scale bnNew nDeltaDropPerStep PERCENT_FACTOR ≫= drop_loop n'
  end.
Definition missed_steps (late : Z) : Z :=
  if late >? nLongTimeLimit then (late - nLongTimeLimit) ÷ nLongTimeStep + 1 else 0.
Definition exception2 (late : Z) (bnNew : base_uint) : option base_uint := drop_loop (Z.to_nat (missed_steps late)) bnNew.

(** Exception 3: the limit of the algorithm. *)
Definition limit_compact (blockTime nProofOfWorkLimit : Z) : Z :=
  if blockTime >? 1571320800 then GetCompact sigma_limit false else nProofOfWorkLimit.
Definition exception3 (blockTime nProofOfWorkLimit : Z) (bnNew : base_uint) : base_uint :=
  if bu_gt bnNew (SetCompact_val (limit_compact blockTime nProofOfWorkLimit))
  then SetCompact_val (limit_compact blockTime nProofOfWorkLimit) else bnNew.

(** [bnNew] as [GetNextWorkRequired_DELTA] computes it above the first blocks. *)
Definition delta_target (H : heap) (p : ptr) (blockTime nPowTargetSpacing nPowLimit nFirstDeltaBlock : Z) : option base_uint :=
  '(b, c, _) ← with_parent H p;
  '(nLBTimespan, nWeightedTimespan) ← weighted_timespan H p nPowTargetSpacing nFirstDeltaBlock;
  let '(nMin, nMax) := adjust_limits nLBTimespan nPowTargetSpacing in
  bn ← scale (SetCompact_val (nBits b)) (apply_limits nWeightedTimespan nMin nMax) nPowTargetSpacing;
  bn1 ← exception1 (nBits b) (witness_time b - witness_time c) nPowTargetSpacing bn;
  bn2 ← exception2 (blockTime - witness_time b) bn1;
  Some (exception3 blockTime nPowLimit bn2).

Definition GetNextWorkRequired_DELTA (H : heap) (pindexLast : option ptr)
    (blockTime nPowTargetSpacing nPowLimit nFirstDeltaBlock : Z) : option Z :=
  match pindexLast with
  | None => Some nPowLimit
  | Some p =>
      b ← H !! p;
      if nHeight b <=? nQBFrame then Some nPowLimit
      else bn ← delta_target H p blockTime nPowTargetSpacing nPowLimit nFirstDeltaBlock; Some (GetCompact bn false)
  end.

(** The table of past difficulties; [udiff] is the generated array. *)
Definition nMaxHeight : Z := 1831778.
Definition diff_old (udiff : Z -> Z) (nHeight : Z) : Z :=
  if (nHeight <? 0) || (nHeight >? nMaxHeight) then 0 else u32 (udiff nHeight).

(** [GetNextWorkRequired]; [noRetarget] is [fPowNoRetargeting]. *)
Definition GetNextWorkRequired (udiff : Z -> Z) (noRetarget testnet : bool) (H : heap) (indexLast : ptr)
    (blockTime nPowTargetSpacing nPowLimit : Z) : option Z :=
  b ← H !! indexLast;
  if noRetarget then Some (nBits b)
  else
    let nDeltaSwitchoverBlock := if testnet then 10 else 250000 in
    let nOldDiffSwitchoverBlock := if testnet then 0 else 1831778 in
    if nHeight b + 1 >=? nOldDiffSwitchoverBlock then
      if (nPowTargetSpacing >? 1) && (nHeight b + 1 >=? nDeltaSwitchoverBlock)
      then GetNextWorkRequired_DELTA H (Some indexLast) blockTime (i32 nPowTargetSpacing) nPowLimit nDeltaSwitchoverBlock
      else Some 524287999
    else Some (diff_old udiff (nHeight b + 1)).

(** [CheckProofOfWork]: the range of the claimed target and, before the SIGMA
    activation, the hash against it. [sigma] is the verdict of the SIGMA
    verifier, which this model does not enter. *)
Definition CheckProofOfWork (regtest : bool) (powLimit : base_uint) (activationDate blockTime nBits : Z)
    (sigma : bool) (powHash : base_uint) : bool :=
  let '(bnTarget, fNegative, fOverflow) := SetCompact nBits in
  let limit := if negb regtest && (blockTime >? 1571320800) then sigma_limit else powLimit in
  if fNegative || EqualTo bnTarget 0 || fOverflow || bu_gt bnTarget limit then false
  else if blockTime >? activationDate then sigma
  else if bu_gt powHash bnTarget then false else true.

(** ** Lemmas *)

Lemma with_parent_Some H p : wf_heap H -> rooted H -> is_Some (H !! p) -> 0 < height_of H p ->
  exists b c q, with_parent H p = Some (b, c, q) /\ H !! p = Some b /\ is_Some (H !! q) /\ height_of H q = height_of H p - 1.
Proof.
  intros W R [b Hb] Hh. unfold with_parent. rewrite Hb. cbn.
  destruct (pprev b) as [q|] eqn:Eq; [|exfalso; apply (R p b Hb); [unfold height_of in Hh; rewrite Hb in Hh; lia|done]].
  destruct (wf_prev H W p b q Hb Eq) as (c & Hc & Hhc). cbn. rewrite Hc. cbn. exists b, c, q.
  split_and!; [done..|by eexists|]. unfold height_of. rewrite Hb, Hc. lia.
Qed.

Lemma short_loop_Some H n : wf_heap H -> rooted H -> forall i p s short qb, is_Some (H !! p) -> Z.of_nat n <= height_of H p ->
  is_Some (short_loop H n i (Some p) s short qb).
Proof.
  intros W R. induction n as [|n IH]; intros i p s short qb Hp Hn; [by eexists|]. cbn [short_loop].
  destruct (with_parent_Some H p W R Hp) as (b & c & q & -> & _ & Hq & Hh); [lia|]. cbn. apply IH; [done|lia].
Qed.

Lemma middle_loop_Some H n : wf_heap H -> rooted H -> forall p s pow acc, is_Some (H !! p) -> Z.of_nat n <= height_of H p ->
  is_Some (middle_loop H n (Some p) s pow acc).
Proof.
  intros W R. induction n as [|n IH]; intros p s pow acc Hp Hn; [by eexists|]. cbn [middle_loop].
  destruct (with_parent_Some H p W R Hp) as (b & c & q & -> & _ & Hq & Hh); [lia|]. cbn.
  destruct (window_time s _ pow) as [d pow']. apply IH; [done|lia].
Qed.

Lemma long_loop_up H n : wf_heap H -> rooted H -> forall p, is_Some (H !! p) -> Z.of_nat n <= height_of H p ->
  long_loop H n (Some p) = up H n p.
Proof.
  intros W R. induction n as [|n IH]; intros p Hp Hn; [done|]. cbn [long_loop up].
  destruct (with_parent_Some H p W R Hp) as (b & c & q & E & Hb & Hq & Hh); [lia|].
  unfold with_parent in E. unfold prev_of. rewrite Hb in *. cbn in *.
  destruct (pprev b) as [q'|]; [|done]. cbn in E |- *. destruct (H !! q') as [c'|]; [|done]. cbn in E.
  injection E as -> ->. apply IH; [done|lia].
Qed.

Lemma weighted_timespan_Some H p s first : wf_heap H -> rooted H -> is_Some (H !! p) -> nQBFrame < height_of H p ->
  0 <= first < 2 ^ 31 -> exists lb w, weighted_timespan H p s first = Some (lb, w).
Proof.
  intros W R Hp Hh Hf. unfold nQBFrame, nShortFrame in Hh. unfold weighted_timespan, middle_window, long_window.
  destruct (with_parent_Some H p W R Hp) as (b & c & q & -> & Hb & Hq & Hhq); [lia|]. cbn.
  destruct (short_loop_Some H 4 W R 1 p s 0 0 Hp) as [[sh qb] Es]; [lia|].
  change (Z.to_nat nQBFrame) with 4%nat. rewrite Es. cbn. rewrite i32_small by lia.
  assert (Ehb : nHeight b = height_of H p) by (unfold height_of; by rewrite Hb).
  assert (Em : exists wt t, (if nHeight b - first <=? nMiddleFrame then Some (0, 0)
     else t ← middle_loop H (Z.to_nat nMiddleFrame) (Some p) s 0 0; Some (2, t)) = Some (wt, t)).
  { destruct (_ <=? nMiddleFrame) eqn:El; zbool; [by do 2 eexists|]. unfold nMiddleFrame in *.
    destruct (middle_loop_Some H 24 W R p s 0 0 Hp) as [t Et]; [lia|]. change (Z.to_nat 24) with 24%nat. rewrite Et.
    by do 2 eexists. }
  destruct Em as (mw & mt & ->). cbn.
  destruct (nHeight b - first <=? nLongFrame) eqn:El; zbool; [by do 2 eexists|]. unfold nLongFrame in *.
  rewrite (long_loop_up H (Z.to_nat 576) W R p Hp) by lia.
  destruct (up_Some H (Z.to_nat 576) p W R Hp) as [r Er]; [lia|]. rewrite Er. cbn.
  destruct (up_height H _ p r W Hp Er) as [[cr Hr] _]. rewrite Hr. by do 2 eexists.
Qed.

Lemma pct_limit_eq s pct : 0 < s <= 28633115 -> 0 <= pct <= 150 -> pct_limit s pct = s * pct / 100.
Proof. intros. unfold pct_limit. rewrite (u32_small s), u32_small by nia. done. Qed.

Lemma adjust_limits_range lb s lo hi : 0 < s <= 28633115 -> adjust_limits lb s = (lo, hi) ->
  s * 75 / 100 <= lo <= hi /\ hi <= s * 150 / 100.
Proof.
  intros Hs. unfold adjust_limits. rewrite !pct_limit_eq by lia.
  zcase; [intros [= <- <-]; zdm; lia|]. zcase; intros [= <- <-]; zdm; lia.
Qed.

Lemma apply_limits_range w lo hi : lo <= hi -> lo <= apply_limits w lo hi <= hi.
Proof. intros. unfold apply_limits. destruct (w <? lo) eqn:?; zbool; destruct (_ >? hi) eqn:?; zbool; lia. Qed.

Lemma scale_spec bn x y : wf bn -> 0 <= x < 2 ^ 64 -> 0 < y < 2 ^ 64 ->
  exists r, scale bn x y = Some r /\ wf r /\ val r = (val bn * x) mod 2 ^ 256 / y.
Proof.
  intros Hw Hx Hy. unfold scale. rewrite !u64_small by lia.
  destruct (of_u64_spec x Hx) as [Wx Vx]. destruct (of_u64_spec y) as [Wy Vy]; [lia|].
  destruct (mul_spec bn (of_u64 x) Hw Wx) as [Wm Vm].
  destruct (div_spec _ _ Wm Wy) as [_ Hd]. destruct Hd as (q & Eq & Wq & Vq); [lia|].
  exists q. by rewrite Vq, Vm, Vx, Vy.
Qed.

Lemma scale_exact bn x y : wf bn -> 0 <= x < 2 ^ 64 -> 0 < y < 2 ^ 64 -> val bn * x < 2 ^ 256 ->
  exists r, scale bn x y = Some r /\ wf r /\ val r = val bn * x / y.
Proof.
  intros Hw Hx Hy Hs. destruct (scale_spec bn x y Hw Hx Hy) as (r & E & Wr & V).
  exists r. split_and!; [done|done|]. pose proof (wf_range bn Hw). rewrite V, Z.mod_small by nia. done.
Qed.

(** The target before the late-block rule, on integers. *)
Definition base_target (T lb s w : Z) : Z :=
  let n := T * w / s in
  if (lb >? 0) && (lb <? (s * 90) ÷ 100) && (n >? T) then (if lb <? (s * 65) ÷ 100 then T * 95 / 100 else T) else n.
(** [k] reductions of the difficulty, on integers. *)
Fixpoint drops (k : nat) (x : Z) : Z := match k with O => x | S k' => drops k' (x * 110 / 100) end.

Lemma exception1_spec bits lb s w bn : is_u32 bits -> wf bn ->
  let T := val (SetCompact_val bits) in val bn = T * w / s -> T * 95 < 2 ^ 256 ->
  exists r, exception1 bits lb s bn = Some r /\ wf r /\ val r = base_target T lb s w.
Proof.
  intros Hb Hw T Hv HT. pose proof (SetCompact_val_wf bits Hb) as WT. unfold exception1, base_target, PERCENT_FACTOR.
  rewrite bu_gt_spec by done. fold T. rewrite Hv. zcase; [|by exists bn].
  destruct (lb <? (s * 65) ÷ 100); [|by exists (SetCompact_val bits)].
  apply scale_exact; [done|lia|lia|done].
Qed.

Lemma drop_loop_spec n : forall bn, wf bn -> val bn * 110 * 11 ^ Z.of_nat n < 2 ^ 256 * 10 ^ Z.of_nat n ->
  exists r, drop_loop n bn = Some r /\ wf r /\ val r = drops n (val bn).
Proof.
  induction n as [|n IH]; intros bn Hw Hb; [by exists bn|]. cbn [drop_loop drops].
  pose proof (wf_range bn Hw) as Hr. rewrite Nat2Z.inj_succ, !Z.pow_succ_r in Hb by lia.
  assert (H10 : 0 < 10 ^ Z.of_nat n) by (apply Z.pow_pos_nonneg; lia).
  assert (H1011 : 10 ^ Z.of_nat n <= 11 ^ Z.of_nat n) by (apply Z.pow_le_mono_l; lia).
  assert (Hv : val bn * 110 < 2 ^ 256).
  { assert (val bn * 110 * 11 < 2 ^ 256 * 10); [|lia]. apply (Z.mul_lt_mono_pos_r (10 ^ Z.of_nat n)); [done|].
    apply Z.le_lt_trans with (val bn * 110 * (11 * 11 ^ Z.of_nat n)); [|lia].
    rewrite <- Z.mul_assoc. apply Z.mul_le_mono_nonneg_l; lia. }
  destruct (scale_exact bn nDeltaDropPerStep PERCENT_FACTOR Hw) as (r & E & Wr & V); [done..|].
  rewrite E. cbn. unfold nDeltaDropPerStep, PERCENT_FACTOR in V.
  destruct (IH r Wr) as (r' & E' & Wr' & V'); [|exists r'; rewrite <- V; done].
  assert (10 * val r <= 11 * val bn) by (rewrite V; zdm; lia).
  assert (10 * val r * (110 * 11 ^ Z.of_nat n) <= 11 * val bn * (110 * 11 ^ Z.of_nat n))
    by (apply Z.mul_le_mono_nonneg_r; nia). lia.
Qed.

Lemma drops_mono_k k : forall j x, 0 <= x -> x <= drops k x /\ (drops j x <= drops (j + k) x).
Proof.
  assert (Hle : forall k x, 0 <= x -> x <= drops k x).
  { intros k'. induction k' as [|k' IH]; intros x Hx; [cbn; lia|]. cbn [drops].
    assert (x <= x * 110 / 100) by (zdm; lia). pose proof (IH (x * 110 / 100) ltac:(lia)). lia. }
  intros j. induction j as [|j IH]; intros x Hx; [split; [by apply Hle|by apply Hle]|].
  split; [by apply Hle|]. cbn [drops Nat.add]. apply IH. zdm; lia.
Qed.

Lemma base_target_range T lb s w : 0 <= T -> 0 < s <= 28633115 -> s * 75 / 100 <= w <= s * 150 / 100 ->
  T * (s * 75 / 100) / s <= base_target T lb s w <= T * (s * 150 / 100) / s /\
  (0 < lb < s * 90 / 100 -> base_target T lb s w <= T) /\ 2 * base_target T lb s w <= 3 * T.
Proof.
  intros HT Hs Hw. unfold base_target. rewrite (Z.quot_div_nonneg (s * 90)) by lia.
  assert (H1 : T * (s * 75 / 100) / s <= T * w / s) by (apply Z.div_le_mono; nia).
  assert (H2 : T * w / s <= T * (s * 150 / 100) / s) by (apply Z.div_le_mono; nia).
  assert (H3 : T * (s * 75 / 100) / s <= T * 75 / 100).
  { apply Z.div_le_lower_bound; [lia|]. pose proof (Z.mul_div_le (T * (s * 75 / 100)) s ltac:(lia)).
    assert (100 * (s * 75 / 100) <= s * 75) by (zdm; lia). nia. }
  assert (H4 : 2 * (T * (s * 150 / 100) / s) <= 3 * T).
  { pose proof (Z.mul_div_le (T * (s * 150 / 100)) s ltac:(lia)). assert (100 * (s * 150 / 100) <= s * 150) by (zdm; lia). nia. }
  assert (H5 : T * 75 / 100 <= T * 95 / 100 <= T) by (zdm; lia).
  destruct ((lb >? 0) && (lb <? s * 90 / 100) && (T * w / s >? T)) eqn:E; [zbool; zcase; split_and!; lia|].
  split_and!; [lia|lia| |lia]. intros Hlb. apply andb_false_iff in E as [E|E]; [|zbool; lia].
  apply andb_false_iff in E as [E|E]; zbool; lia.
Qed.

(** A block with enough ancestors, a usable spacing and a target whose scaling fits in 256 bits. *)
Record delta_ready (H : heap) (p : ptr) (b c : CBlockIndex) (s limit first : Z) : Prop := {
  dr_wf : wf_heap H;
  dr_rooted : rooted H;
  dr_block : H !! p = Some b;
  dr_parent : (q ← pprev b; H !! q) = Some c;
  dr_height : nQBFrame < nHeight b;
  dr_bits : is_u32 (nBits b);
  dr_limit : is_u32 limit;
  dr_first : 0 <= first < 2 ^ 31;
  dr_spacing : 0 < s <= 28633115;
  dr_target : val (SetCompact_val (nBits b)) * (s * 150 / 100) < 2 ^ 256;
  dr_small : val (SetCompact_val (nBits b)) * 165 < 2 ^ 256;
}.

Definition late_steps_fit (T late : Z) : Prop :=
  T * 165 * 11 ^ missed_steps late < 2 ^ 256 * 10 ^ missed_steps late.

Lemma sigma_limit_compact : GetCompact sigma_limit false = 0x1f3fffff.
Proof. vm_compute. reflexivity. Qed.

Lemma delta_target_eq H p b c s limit first : delta_ready H p b c s limit first ->
  let T := val (SetCompact_val (nBits b)) in let lb := witness_time b - witness_time c in
  exists w, s * 75 / 100 <= w <= s * 150 / 100 /\
  forall t, late_steps_fit T (t - witness_time b) ->
  exists bn, delta_target H p t s limit first = Some bn /\ wf bn /\
    val bn = Z.min (val (SetCompact_val (limit_compact t limit)))
                   (drops (Z.to_nat (missed_steps (t - witness_time b))) (base_target T lb s w)).
Proof.
  intros [W R Hb Hc Hh Hbits Hlim Hf Hs HT HT1] T lb.
  destruct (weighted_timespan_Some H p s first W R) as (lb' & w' & Ew); [by eexists|unfold height_of; by rewrite Hb|done|].
  destruct (adjust_limits lb' s) as [lo hi] eqn:El. destruct (adjust_limits_range lb' s lo hi Hs El) as [Hlo Hhi].
  pose proof (apply_limits_range w' lo hi ltac:(lia)) as Hw. set (w := apply_limits w' lo hi) in *.
  exists w. split; [lia|]. intros t Hfit. pose proof (SetCompact_val_wf _ Hbits) as WT. pose proof (wf_range _ WT) as RT.
  fold T in RT. unfold delta_target, with_parent. rewrite Hb. cbn.
  destruct (pprev b) as [q|]; [|done]. cbn in Hc |- *. rewrite Hc. cbn. rewrite Ew. cbn. rewrite El. fold w.
  assert (Hww : s * 150 / 100 < 2 ^ 64) by (zdm; lia). assert (Hw0 : 0 <= s * 75 / 100) by (apply Z.div_pos; lia).
  destruct (scale_exact (SetCompact_val (nBits b)) w s WT) as (bn0 & E0 & W0 & V0); [lia|lia|fold T in HT |- *; nia|].
  rewrite E0. cbn. fold T in V0. fold lb. unfold late_steps_fit in Hfit.
  set (n := missed_steps (t - witness_time b)) in *.
  assert (Hn : 0 <= n) by (unfold n, missed_steps, nLongTimeLimit, nLongTimeStep, nDrift; zcase; [|lia];
    rewrite Z.quot_div_nonneg by lia; zdm; lia).
  assert (H10 : 0 < 10 ^ n) by (apply Z.pow_pos_nonneg; lia).
  assert (H1011 : 10 ^ n <= 11 ^ n) by (apply Z.pow_le_mono_l; lia).
  destruct (exception1_spec (nBits b) lb s w bn0 Hbits W0 V0) as (bn1 & E1 & W1 & V1); [fold T in HT1 |- *; lia|].
  rewrite E1. cbn. fold T in V1. unfold exception2. fold n.
  destruct (base_target_range T lb s w ltac:(lia) Hs ltac:(lia)) as (_ & _ & H2).
  destruct (drop_loop_spec (Z.to_nat n) bn1 W1) as (bn2 & E2 & W2 & V2).
  { rewrite Z2Nat.id by lia. rewrite V1. nia. }
  rewrite E2. cbn. eexists. split; [done|]. unfold exception3.
  assert (HL : is_u32 (limit_compact t limit)) by (unfold limit_compact; zcase; [rewrite sigma_limit_compact; unfold is_u32; lia|done]).
  pose proof (SetCompact_val_wf _ HL) as WL. rewrite bu_gt_spec by done. rewrite <- V1, <- V2. zcase; split; (done || lia).
Qed.

Lemma missed_steps_le l1 l2 : l1 <= l2 -> 0 <= missed_steps l1 <= missed_steps l2.
Proof.
  intros Hl. unfold missed_steps, nLongTimeLimit, nLongTimeStep, nDrift.
  destruct (l1 >? _) eqn:E1; destruct (l2 >? _) eqn:E2; zbool; rewrite ?Z.quot_div_nonneg by lia; zdm; lia.
Qed.

Lemma late_steps_fit_le T l1 l2 : 0 <= T -> l1 <= l2 -> late_steps_fit T l2 -> late_steps_fit T l1.
Proof.
  intros HT Hl Hf. unfold late_steps_fit in *.
  pose proof (missed_steps_le l1 l2 Hl) as Hm.
  replace (missed_steps l2) with (missed_steps l1 + (missed_steps l2 - missed_steps l1)) in Hf by lia.
  set (d := missed_steps l2 - missed_steps l1) in *. rewrite !Z.pow_add_r in Hf by lia.
  assert (0 < 10 ^ d <= 11 ^ d) by (split; [apply Z.pow_pos_nonneg; lia|apply Z.pow_le_mono_l; lia]).
  assert (0 < 10 ^ missed_steps l1) by (apply Z.pow_pos_nonneg; lia).
  apply (Z.mul_lt_mono_pos_r (11 ^ d)); [lia|].
  apply Z.lt_le_trans with (2 ^ 256 * (10 ^ missed_steps l1 * 10 ^ d)); [lia|].
  rewrite <- Z.mul_assoc. apply Z.mul_le_mono_nonneg_l; [lia|]. apply Z.mul_le_mono_nonneg_l; lia.
Qed.

(** ** Properties *)

(** a block that comes in time gets a target between 75% and 150% of the
    previous one (and never above the limit), and one that is not easier than
    the previous target when the last block was itself quicker than 90% of the
    target spacing. No step of the computation overflows or divides by zero. *)
Theorem delta_retarget_bounded H p b c s limit first t : delta_ready H p b c s limit first ->
  t - witness_time b <= nLongTimeLimit ->
  let T := val (SetCompact_val (nBits b)) in let L := val (SetCompact_val (limit_compact t limit)) in
  exists bn, GetNextWorkRequired_DELTA H (Some p) t s limit first = Some (GetCompact bn false) /\ wf bn /\
    Z.min L (T * (s * 75 / 100) / s) <= val bn <= Z.min L (T * (s * 150 / 100) / s) /\
    (0 < witness_time b - witness_time c < s * 90 / 100 -> val bn <= T).
Proof.
  intros D Ht T L. destruct (delta_target_eq _ _ _ _ _ _ _ D) as (w & Hw & Hall). destruct D.
  pose proof (wf_range _ (SetCompact_val_wf _ dr_bits0)) as RT. fold T in RT, Hall, dr_target0.
  assert (Hm : missed_steps (t - witness_time b) = 0) by (unfold missed_steps; zcase; lia).
  destruct (Hall t) as (bn & E & Wb & V).
  { unfold late_steps_fit. rewrite Hm, !Z.pow_0_r. fold T in dr_small0. lia. }
  exists bn. unfold GetNextWorkRequired_DELTA. rewrite dr_block0. cbn [mbind option_bind].
  rewrite (proj2 (Z.leb_gt _ _) dr_height0), E. split_and!; [done|done|..].
  all: rewrite Hm in V; cbn [drops Z.to_nat] in V; fold L in V; rewrite V.
  all: destruct (base_target_range T (witness_time b - witness_time c) s w ltac:(lia) dr_spacing0 Hw) as ([H1 H1'] & H2 & _).
  - by apply Z.min_le_compat_l.
  - by apply Z.min_le_compat_l.
  - intros Hq. etransitivity; [apply Z.le_min_r|by apply H2].
Qed.

(** Six blocks, one every 150 seconds, at the easiest allowed target. *)
Definition sample_line (i : positive) (bits : Z) : CBlockIndex :=
  mkIndex (Z.pos i - 1) (if decide (i = 1%positive) then None else Some (Pos.pred i)) None (2000000000 + 150 * Z.pos i) 0 bits 0 bu_zero.
Definition sample_delta_heap (bits : Z) : heap :=
  list_to_map (map (fun i => (i, sample_line i bits)) [1; 2; 3; 4; 5; 6]%positive).

Lemma sample_delta_cases bits (P : ptr -> CBlockIndex -> Prop) :
  (forall i, i ∈ [1; 2; 3; 4; 5; 6]%positive -> P i (sample_line i bits)) ->
  forall p b, sample_delta_heap bits !! p = Some b -> P p b.
Proof.
  intros HP p b Hp. apply elem_of_list_to_map_2, list_elem_of_fmap in Hp as (i & [= -> ->] & Hi). by apply HP.
Qed.

Ltac six_cases := intros i Hi; repeat (apply elem_of_cons in Hi as [Hi|Hi]; [subst i|]); [..|by apply not_elem_of_nil in Hi].

Lemma sample_delta_ready bits limit : is_u32 bits -> is_u32 limit ->
  val (SetCompact_val bits) * 225 < 2 ^ 256 ->
  delta_ready (sample_delta_heap bits) 6 (sample_line 6 bits) (sample_line 5 bits) 150 limit 0.
Proof.
  intros Hb Hl HT. constructor; try done; try lia.
  - constructor; intros p b; [|intros q Hp; revert Hp q..]; revert p b.
    + apply (sample_delta_cases bits (fun _ b => 0 <= nHeight b < 2 ^ 31)). six_cases; cbn; lia.
    + apply (sample_delta_cases bits (fun _ b => forall q, pprev b = Some q ->
        exists c, sample_delta_heap bits !! q = Some c /\ nHeight c = nHeight b - 1)).
      six_cases; intros q; cbn; try done; intros [= <-]; by eexists.
    + apply (sample_delta_cases bits (fun p b => forall q, pskip b = Some q -> _ )). six_cases; done.
  - intros p b. apply (sample_delta_cases bits (fun _ b => 0 < nHeight b -> pprev b <> None)). six_cases; cbn; (lia || done).
  - cbn [nBits sample_line]. pose proof (wf_range _ (SetCompact_val_wf _ Hb)). lia.
Qed.

Lemma delta_retarget_bounded_witness : exists bn,
  GetNextWorkRequired_DELTA (sample_delta_heap 0x1d00ffff) (Some 6%positive) 2000001050 150 0x1f3fffff 0 = Some (GetCompact bn false) /\
  val bn <= val (SetCompact_val 0x1f3fffff).
Proof.
  destruct (delta_retarget_bounded (sample_delta_heap 0x1d00ffff) 6 (sample_line 6 0x1d00ffff) (sample_line 5 0x1d00ffff)
              150 0x1f3fffff 0 2000001050) as (bn & E & _ & Hb & _).
  - apply sample_delta_ready; [unfold is_u32; lia|unfold is_u32; lia|vm_compute; reflexivity].
  - cbn. unfold nLongTimeLimit, nDrift. lia.
  - exists bn. split; [exact E|]. destruct Hb as [_ Hb]. cbn in Hb |- *.
    etransitivity; [exact Hb|]. etransitivity; [apply Z.le_min_l|]. vm_compute. discriminate.
Defined.

(** once a block is late by more than the drift limit, every further minute
    makes its target easier, by a tenth per step and never past the limit, as long
    as the product fits in 256 bits. *)
Theorem late_block_eases_target H p b c s limit first : delta_ready H p b c s limit first ->
  let T := val (SetCompact_val (nBits b)) in
  exists B, T * (s * 75 / 100) / s <= B <= T * (s * 150 / 100) / s /\
  forall t1 t2, t1 <= t2 -> late_steps_fit T (t2 - witness_time b) -> limit_compact t1 limit = limit_compact t2 limit ->
  exists bn1 bn2,
    GetNextWorkRequired_DELTA H (Some p) t1 s limit first = Some (GetCompact bn1 false) /\
    GetNextWorkRequired_DELTA H (Some p) t2 s limit first = Some (GetCompact bn2 false) /\
    val bn2 = Z.min (val (SetCompact_val (limit_compact t2 limit))) (drops (Z.to_nat (missed_steps (t2 - witness_time b))) B) /\
    val bn1 <= val bn2.
Proof.
  intros D T. destruct (delta_target_eq _ _ _ _ _ _ _ D) as (w & Hw & Hall). destruct D.
  pose proof (wf_range _ (SetCompact_val_wf _ dr_bits0)) as RT. fold T in RT, Hall.
  set (B := base_target T (witness_time b - witness_time c) s w) in *.
  destruct (base_target_range T (witness_time b - witness_time c) s w ltac:(lia) dr_spacing0 Hw) as (HB & _ & _).
  fold B in HB. exists B. split; [done|]. intros t1 t2 Ht Hfit Hlim.
  destruct (Hall t1) as (bn1 & E1 & _ & V1); [apply late_steps_fit_le with (t2 - witness_time b); (done || lia)|].
  destruct (Hall t2 Hfit) as (bn2 & E2 & _ & V2). exists bn1, bn2. unfold GetNextWorkRequired_DELTA.
  rewrite dr_block0. cbn [mbind option_bind]. rewrite (proj2 (Z.leb_gt _ _) dr_height0), E1, E2.
  split_and!; [done..|]. rewrite V1, V2, Hlim. apply Z.min_le_compat_l.
  destruct (missed_steps_le (t1 - witness_time b) (t2 - witness_time b)) as [Hm1 Hm2]; [lia|].
  replace (Z.to_nat (missed_steps (t2 - witness_time b))) with
    (Z.to_nat (missed_steps (t1 - witness_time b)) + (Z.to_nat (missed_steps (t2 - witness_time b)) - Z.to_nat (missed_steps (t1 - witness_time b))))%nat by lia.
  apply drops_mono_k. etransitivity; [|apply HB]. apply Z.div_pos; [|lia].
  apply Z.mul_nonneg_nonneg; [lia|apply Z.div_pos; lia].
Qed.

Lemma late_block_eases_target_witness : exists bn1 bn2,
  GetNextWorkRequired_DELTA (sample_delta_heap 0x1d00ffff) (Some 6%positive) 2000001000 150 0x1f3fffff 0 = Some (GetCompact bn1 false) /\
  GetNextWorkRequired_DELTA (sample_delta_heap 0x1d00ffff) (Some 6%positive) 2000001200 150 0x1f3fffff 0 = Some (GetCompact bn2 false) /\
  val bn1 <= val bn2.
Proof.
  destruct (late_block_eases_target (sample_delta_heap 0x1d00ffff) 6 (sample_line 6 0x1d00ffff) (sample_line 5 0x1d00ffff)
              150 0x1f3fffff 0) as (B & _ & Hall).
  - apply sample_delta_ready; [unfold is_u32; lia|unfold is_u32; lia|vm_compute; reflexivity].
  - destruct (Hall 2000001000 2000001200) as (bn1 & bn2 & E1 & E2 & _ & Hle); [lia|vm_compute; reflexivity|vm_compute; reflexivity|].
    exists bn1, bn2. split; [exact E1|split; [exact E2|exact Hle]].
Defined.

(** past that point the product wraps around: at the easiest target, a block
    that is three minutes late may use the limit, while one that is 27 minutes late
    must meet a target below six tenths of it. *)
Theorem late_block_target_wraps :
  exists c1 c2,
    GetNextWorkRequired_DELTA (sample_delta_heap 0x1f3fffff) (Some 6%positive) (2000000900 + 181) 150 0x1f3fffff 0 = Some c1 /\
    GetNextWorkRequired_DELTA (sample_delta_heap 0x1f3fffff) (Some 6%positive) (2000000900 + 1620) 150 0x1f3fffff 0 = Some c2 /\
    10 * val (SetCompact_val c2) < 6 * val (SetCompact_val c1).
Proof. do 2 eexists. split_and!; [vm_compute; reflexivity..|vm_compute; reflexivity]. Qed.

(** a header that passes the proof-of-work check claims a positive target that
    raises no flag and does not exceed the limit in force; before the SIGMA
    activation its hash meets that target. *)
Theorem CheckProofOfWork_sound regtest powLimit activation t bits sigma powHash :
  is_u32 bits -> wf powLimit -> wf powHash ->
  CheckProofOfWork regtest powLimit activation t bits sigma powHash = true ->
  exists v, SetCompact bits = (v, false, false) /\ 0 < val v /\
    (regtest = false -> t > 1571320800 -> val v <= 2 ^ 246 - 1) /\
    (regtest = true \/ t <= 1571320800 -> val v <= val powLimit) /\
    (if t >? activation then sigma = true else val powHash <= val v).
Proof.
  intros Hb WL WH. unfold CheckProofOfWork. destruct (SetCompact bits) as [[v fn] fo] eqn:E.
  assert (Wv : wf v) by (pose proof (SetCompact_val_wf bits Hb) as W; unfold SetCompact_val in W; by rewrite E in W).
  pose proof (wf_range v Wv). rewrite EqualTo_spec by (done || lia).
  assert (WS : wf sigma_limit) by (split; [done|]; repeat (constructor; [lia|]); constructor).
  assert (VS : val sigma_limit = 2 ^ 246 - 1) by (vm_compute; reflexivity).
  rewrite !bu_gt_spec by (done || by zcase). destruct fn, fo; rewrite ?orb_true_r; cbn [orb]; try done.
  destruct ((val v =? 0) || false || _) eqn:El; [done|]. zbool. intros Hacc. exists v. split_and!; [done|lia|..].
  - intros -> Ht. assert (Et : (t >? 1571320800) = true) by (rewrite Z.gtb_ltb; apply Z.ltb_lt; lia).
    match goal with Hq : _ <= val _ |- _ => rewrite Et in Hq; cbn [negb andb] in Hq; lia | Hq : val _ <= val _ |- _ => rewrite Et in Hq; cbn [negb andb] in Hq; lia end.
  - intros Hr. assert (Ef : negb regtest && (t >? 1571320800) = false).
    { destruct Hr as [-> | Hr]; [done|]. rewrite Z.gtb_ltb, (proj2 (Z.ltb_ge _ _)) by lia. apply andb_false_r. }
    match goal with Hq : val _ <= val _ |- _ => rewrite Ef in Hq; lia end.
  - destruct (t >? activation); [done|]. destruct (val powHash >? val v) eqn:Eh; zbool; [done|lia].
Qed.

Lemma CheckProofOfWork_sound_witness : 0x1234 <= val (SetCompact_val 0x1d00ffff).
Proof.
  destruct (CheckProofOfWork_sound false (SetCompact_val 0x1e0fffff) 1571320800 1400000000 0x1d00ffff false (of_u64 0x1234))
    as (v & E & _ & _ & _ & Hv); [unfold is_u32; lia|apply SetCompact_val_wf; unfold is_u32; lia|apply of_u64_spec; lia|vm_compute; reflexivity|].
  unfold SetCompact_val. rewrite E. exact Hv.
Defined.
