(* ===== verification/BestChain.v ===== *)
(** * The best chain

    validation/validation.cpp: the index of the known blocks, the set of the candidates
    for the tip with its order, the search for the chain with the most work, and the
    operations that move the active chain. What a block does to the coins is a class:
    [CoinsBlock] has the part of it that this development models. The headers of the
    partial chain, the block files, the callbacks and the memory pool are left out. *)

From stdpp Require Import gmap sorting.
From S2P Require Import Prelude ArithUint256 Chain.

(** ** Definitions *)

Inductive tree_error := assertion_failed | null_pointer | no_fuel | division_by_zero.

(** An entry with the fields that the choice of the chain uses; [node] has the others. *)
Record IndexEntry := mkIdx {
  node : CBlockIndex;
  nVersionPoW2Witness : Z;
  nSequenceId : Z;
  nTx : Z;
  nChainTx : Z;
  nTimeMax : Z
}.
Definition BLOCK_VALID_HEADER : Z := 1.
Definition BLOCK_VALID_TREE : Z := 2.
Definition BLOCK_VALID_TRANSACTIONS : Z := 3.
Definition BLOCK_HAVE_DATA : Z := 8.
Definition BLOCK_FAILED_VALID : Z := 32.
Definition BLOCK_FAILED_CHILD : Z := 64.
Definition BLOCK_OPT_WITNESS : Z := 128.

(** What connecting a block can do to the state of the coins: succeed, break a rule, with
    the mark that the data may be corrupt, or fail for a reason of the system. *)
Inductive connect_result (C : Type) :=
| connected (c : C)
| rejected (corruptionPossible : bool)
| system_error.
Arguments connected {C} c.
Arguments rejected {C} corruptionPossible.
Arguments system_error {C}.
Class ChainState (C : Type) := {
  ConnectBlock : ptr -> C -> connect_result C;
  DisconnectBlock_ : ptr -> C -> option C;
  (** Whether the coins could be written when they had to be. *)
  FlushStateToDisk : C -> bool
}.

Record BlockTree (C : Type) := mkTree {
  mapBlockIndex : gmap ptr IndexEntry;
  setBlockIndexCandidates : gset ptr;
  chainActive : list (option ptr);
  coinsTip : C;
  pindexBestHeader : option ptr;
  pindexBestInvalid : option ptr;
  mapBlocksUnlinked : list (ptr * ptr);
  nBlockSequenceId : Z;
  nBlockReverseSequenceId : Z;
  nLastPreciousChainwork : base_uint
}.
Arguments mkTree {C}.
Arguments mapBlockIndex {C}.
Arguments setBlockIndexCandidates {C}.
Arguments chainActive {C}.
Arguments coinsTip {C}.
Arguments pindexBestHeader {C}.
Arguments pindexBestInvalid {C}.
Arguments mapBlocksUnlinked {C}.
Arguments nBlockSequenceId {C}.
Arguments nBlockReverseSequenceId {C}.
Arguments nLastPreciousChainwork {C}.

Section Tree.
Context {C : Type}.

Definition with_index (t : BlockTree C) m : BlockTree C :=
  mkTree m (setBlockIndexCandidates t) (chainActive t) (coinsTip t) (pindexBestHeader t) (pindexBestInvalid t) (mapBlocksUnlinked t)
    (nBlockSequenceId t) (nBlockReverseSequenceId t) (nLastPreciousChainwork t).
Definition with_candidates (t : BlockTree C) s : BlockTree C :=
  mkTree (mapBlockIndex t) s (chainActive t) (coinsTip t) (pindexBestHeader t) (pindexBestInvalid t) (mapBlocksUnlinked t)
    (nBlockSequenceId t) (nBlockReverseSequenceId t) (nLastPreciousChainwork t).
Definition with_chain (t : BlockTree C) v c : BlockTree C :=
  mkTree (mapBlockIndex t) (setBlockIndexCandidates t) v c (pindexBestHeader t) (pindexBestInvalid t) (mapBlocksUnlinked t)
    (nBlockSequenceId t) (nBlockReverseSequenceId t) (nLastPreciousChainwork t).
Definition with_best (t : BlockTree C) h i : BlockTree C :=
  mkTree (mapBlockIndex t) (setBlockIndexCandidates t) (chainActive t) (coinsTip t) h i (mapBlocksUnlinked t)
    (nBlockSequenceId t) (nBlockReverseSequenceId t) (nLastPreciousChainwork t).
Definition with_unlinked (t : BlockTree C) u : BlockTree C :=
  mkTree (mapBlockIndex t) (setBlockIndexCandidates t) (chainActive t) (coinsTip t) (pindexBestHeader t) (pindexBestInvalid t) u
    (nBlockSequenceId t) (nBlockReverseSequenceId t) (nLastPreciousChainwork t).
Definition with_ids (t : BlockTree C) s r w : BlockTree C :=
  mkTree (mapBlockIndex t) (setBlockIndexCandidates t) (chainActive t) (coinsTip t) (pindexBestHeader t) (pindexBestInvalid t) (mapBlocksUnlinked t) s r w.

(** *** Fields of an entry *)

Definition heap_of (t : BlockTree C) : heap := node <$> mapBlockIndex t.
Definition field {A} (t : BlockTree C) (f : IndexEntry -> A) (d : A) (p : ptr) : A := match mapBlockIndex t !! p with Some e => f e | None => d end.
Definition status_of (t : BlockTree C) (p : ptr) : Z := field t (fun e => nStatus (node e)) 0 p.
Definition work_of (t : BlockTree C) (p : ptr) : base_uint := field t (fun e => nChainWork (node e)) bu_zero p.
Definition tree_height (t : BlockTree C) (p : ptr) : Z := field t (fun e => nHeight (node e)) 0 p.
Definition tree_prev (t : BlockTree C) (p : ptr) : option ptr := mapBlockIndex t !! p ≫= fun e => pprev (node e).
Definition active (t : BlockTree C) (p : ptr) : bool := Contains (heap_of t) (chainActive t) p.
Definition active_tip (t : BlockTree C) : option ptr := Tip (chainActive t).

Definition set_status (e : IndexEntry) (s : Z) : IndexEntry :=
  let b := node e in
  mkIdx (mkIndex (nHeight b) (pprev b) (pskip b) (nTime b) (nTimePoW2Witness b) (nBits b) s (nChainWork b))
    (nVersionPoW2Witness e) (nSequenceId e) (nTx e) (nChainTx e) (nTimeMax e).
Definition set_sequence (e : IndexEntry) (s : Z) : IndexEntry := mkIdx (node e) (nVersionPoW2Witness e) s (nTx e) (nChainTx e) (nTimeMax e).
Definition set_txs (e : IndexEntry) (n c : Z) : IndexEntry := mkIdx (node e) (nVersionPoW2Witness e) (nSequenceId e) n c (nTimeMax e).
Definition update (t : BlockTree C) (p : ptr) (f : IndexEntry -> IndexEntry) : BlockTree C := with_index t (alter f p (mapBlockIndex t)).
Definition add_status (t : BlockTree C) (p : ptr) (bits : Z) : BlockTree C := update t p (fun e => set_status e (Z.lor (nStatus (node e)) bits)).
Definition erase_candidate (t : BlockTree C) (p : ptr) : BlockTree C := with_candidates t (setBlockIndexCandidates t ∖ {[p]}).
Definition insert_candidate (t : BlockTree C) (p : ptr) : BlockTree C := with_candidates t ({[p]} ∪ setBlockIndexCandidates t).

(** *** The order of the candidates *)

Definition CBlockIndexWorkComparator (t : BlockTree C) (pa pb : ptr) : bool :=
  if bu_gt (work_of t pa) (work_of t pb) then false
  else if bu_lt (work_of t pa) (work_of t pb) then true
  else
    let same := tree_height t pa =? tree_height t pb in
    let wa := field t nVersionPoW2Witness 0 pa in
    let wb := field t nVersionPoW2Witness 0 pb in
    if same && ((wa =? 0) && negb (wb =? 0)) then false
    else if same && (negb (wa =? 0) && (wb =? 0)) then true
    else
      let sa := field t nSequenceId 0 pa in
      let sb := field t nSequenceId 0 pb in
      if sa <? sb then false
      else if sa >? sb then true
      else if (pa <? pb)%positive then false
      else (pb <? pa)%positive.
(** The last candidate. *)
Definition best_candidate (t : BlockTree C) : option ptr :=
  match elements (setBlockIndexCandidates t) with
  | [] => None
  | x :: l => Some (fold_left (fun b y => if CBlockIndexWorkComparator t b y then y else b) l x)
  end.
Definition sorts_before (t : BlockTree C) (a b : ptr) : Prop := CBlockIndexWorkComparator t b a = false.
#[export] Instance sorts_before_dec t a b : Decision (sorts_before t a b).
Proof. unfold sorts_before. apply _. Defined.

(** *** The chain with the most work *)

(** The first block on the way to the active chain that failed or has no data. *)
Fixpoint find_unusable (fuel : nat) (t : BlockTree C) (pindexTest : option ptr) : res tree_error (option ptr) :=
  match pindexTest with
  | None => Ok None
  | Some p =>
      if active t p then Ok None
      else match fuel with
      | O => Err no_fuel
      | S fuel =>
          guard! negb (field t nChainTx 0 p =? 0) || (tree_height t p =? 0) or assertion_failed in
          if negb (Z.land (status_of t p) BLOCK_FAILED_MASK =? 0) || (Z.land (status_of t p) BLOCK_HAVE_DATA =? 0) then Ok (Some p)
          else find_unusable fuel t (tree_prev t p)
      end
  end.
(** The blocks above it leave the set, marked or put back among the unlinked ones. *)
Fixpoint drop_unusable (fuel : nat) (t : BlockTree C) (failed : bool) (pindexTest pindexFailed : ptr) : res tree_error (BlockTree C) :=
  if bool_decide (pindexFailed = pindexTest) then Ok t
  else match fuel with
  | O => Err no_fuel
  | S fuel =>
      match tree_prev t pindexFailed with
      | None => Err null_pointer
      | Some q =>
          let t := if failed then add_status t pindexFailed BLOCK_FAILED_CHILD else with_unlinked t (mapBlocksUnlinked t ++ [(q, pindexFailed)]) in
          drop_unusable fuel (erase_candidate t pindexFailed) failed pindexTest q
      end
  end.
Definition best_invalid (t : BlockTree C) (p : ptr) : BlockTree C :=
  if match pindexBestInvalid t with None => true | Some i => bu_gt (work_of t p) (work_of t i) end then with_best t (pindexBestHeader t) (Some p) else t.
Fixpoint most_work_loop (fuel : nat) (t : BlockTree C) : res tree_error (BlockTree C * option ptr) :=
  match best_candidate t with
  | None => Ok (t, None)
  | Some pindexNew =>
      match fuel with
      | O => Err no_fuel
      | S fuel =>
          let levels := S (Z.to_nat (tree_height t pindexNew)) in
          let! bad := find_unusable levels t (Some pindexNew) in
          match bad with
          | None => Ok (t, Some pindexNew)
          | Some pindexTest =>
              let failed := negb (Z.land (status_of t pindexTest) BLOCK_FAILED_MASK =? 0) in
              let t := if failed then best_invalid t pindexNew else t in
              let! t := drop_unusable levels t failed pindexTest pindexNew in
              most_work_loop fuel (erase_candidate t pindexTest)
          end
      end
  end.
(** Each round erases the best candidate. *)
Definition FindMostWorkChain (t : BlockTree C) : res tree_error (BlockTree C * option ptr) := most_work_loop (size (setBlockIndexCandidates t)) t.

(** The worst candidates leave, as long as they have less work and less height than the tip. *)
Fixpoint prune_loop (t : BlockTree C) (tip : ptr) (l : list ptr) (s : gset ptr) : gset ptr :=
  match l with
  | [] => s
  | p :: l =>
      if bu_lt (work_of t p) (work_of t tip) && (tree_height t p <? tree_height t tip) then prune_loop t tip l (s ∖ {[p]}) else s
  end.
Definition PruneBlockIndexCandidates (t : BlockTree C) : res tree_error (BlockTree C) :=
  match active_tip t with
  | None => if bool_decide (setBlockIndexCandidates t = ∅) then Err assertion_failed else Err null_pointer
  | Some tip =>
      let s := prune_loop t tip (merge_sort (sorts_before t) (elements (setBlockIndexCandidates t))) (setBlockIndexCandidates t) in
      if bool_decide (s = ∅) then Err assertion_failed else Ok (with_candidates t s)
  end.

Definition InvalidChainFound (t : BlockTree C) (p : ptr) : res tree_error (BlockTree C) :=
  match active_tip t with Some _ => Ok (best_invalid t p) | None => Err assertion_failed end.
Definition InvalidBlockFound (t : BlockTree C) (p : ptr) (corruptionPossible : bool) : res tree_error (BlockTree C) :=
  if corruptionPossible then Ok t else InvalidChainFound (erase_candidate (add_status t p BLOCK_FAILED_VALID) p) p.

(** *** Moving the tip *)

Context `{ChainState C}.

Definition UpdateTip (t : BlockTree C) (pindexNew : option ptr) (c : C) : BlockTree C := with_chain t (SetTip (heap_of t) (chainActive t) pindexNew) c.
(** With what the function returns. *)
Definition DisconnectTip (t : BlockTree C) : res tree_error (BlockTree C * bool) :=
  match active_tip t with
  | None => Err assertion_failed
  | Some pindexDelete =>
      match DisconnectBlock_ pindexDelete (coinsTip t) with
      | None => Ok (t, false)
      | Some c =>
          if negb (FlushStateToDisk c) then Ok (with_chain t (chainActive t) c, false)
          else Ok (UpdateTip t (tree_prev t pindexDelete) c, true)
      end
  end.
Inductive tip_result := tip_connected | tip_invalid (corruptionPossible : bool) | tip_error.
Definition ConnectTip (t : BlockTree C) (pindexNew : ptr) : res tree_error (BlockTree C * tip_result) :=
  guard! bool_decide (tree_prev t pindexNew = active_tip t) or assertion_failed in
  match ConnectBlock pindexNew (coinsTip t) with
  | connected c =>
      if negb (FlushStateToDisk c) then Ok (with_chain t (chainActive t) c, tip_error)
      else Ok (UpdateTip t (Some pindexNew) c, tip_connected)
  | rejected corruption => let! t := InvalidBlockFound t pindexNew corruption in Ok (t, tip_invalid corruption)
  | system_error => Ok (t, tip_error)
  end.

Fixpoint disconnect_loop (fuel : nat) (t : BlockTree C) (pindexFork : option ptr) : res tree_error (BlockTree C * bool) :=
  match active_tip t with
  | None => Ok (t, true)
  | Some p =>
      if bool_decide (Some p = pindexFork) then Ok (t, true)
      else match fuel with
      | O => Err no_fuel
      | S fuel => let! r := DisconnectTip t in if snd r then disconnect_loop fuel (fst r) pindexFork else Ok r
      end
  end.
(** The blocks from [pindexIter] down to the height [nHeight], in the order of the vector. *)
Fixpoint collect_blocks (fuel : nat) (t : BlockTree C) (pindexIter : option ptr) (nHeight : Z) : list ptr :=
  match pindexIter, fuel with
  | Some p, S fuel => if tree_height t p =? nHeight then [] else p :: collect_blocks fuel t (tree_prev t p) nHeight
  | _, _ => []
  end.
(** How the loop over one list of blocks ends. *)
Inductive step_outcome := batch_done | better_tip | invalid_found | step_failed.
Fixpoint connect_blocks (t : BlockTree C) (oldWork : option base_uint) (first : ptr) (l : list ptr) : res tree_error (BlockTree C * step_outcome) :=
  match l with
  | [] => Ok (t, batch_done)
  | p :: l =>
      let! r := ConnectTip t p in
      let t := fst r in
      match snd r with
      | tip_invalid corruption =>
          let! t := (if corruption then Ok t else InvalidChainFound t first) in Ok (t, invalid_found)
      | tip_error => Ok (t, step_failed)
      | tip_connected =>
          let! t := PruneBlockIndexCandidates t in
          match active_tip t with
          | None => Err null_pointer
          | Some tip =>
              if match oldWork with None => true | Some w => bu_gt (work_of t tip) w end then Ok (t, better_tip) else connect_blocks t oldWork first l
          end
      end
  end.
Fixpoint connect_batches (fuel : nat) (t : BlockTree C) (oldWork : option base_uint) (pindexMostWork : ptr) (nHeight : Z) : res tree_error (BlockTree C * step_outcome) :=
  if nHeight =? tree_height t pindexMostWork then Ok (t, batch_done)
  else match fuel with
  | O => Err no_fuel
  | S fuel =>
      let nTargetHeight := Z.min (nHeight + 32) (tree_height t pindexMostWork) in
      let vpindexToConnect := collect_blocks 33 t (GetAncestor (heap_of t) pindexMostWork nTargetHeight) nHeight in
      match rev vpindexToConnect with
      | [] => connect_batches fuel t oldWork pindexMostWork nTargetHeight
      | first :: rest =>
          let! r := connect_blocks t oldWork first (first :: rest) in
          match snd r with
          | batch_done => connect_batches fuel (fst r) oldWork pindexMostWork nTargetHeight
          | _ => Ok r
          end
      end
  end.
(** The result, and [fInvalidFound]. *)
Definition ActivateBestChainStep (t : BlockTree C) (pindexMostWork : ptr) : res tree_error (BlockTree C * bool * bool) :=
  let oldWork := work_of t <$> active_tip t in
  let pindexFork := FindFork (heap_of t) (chainActive t) (Some pindexMostWork) in
  let! r := disconnect_loop (length (chainActive t)) t pindexFork in
  if negb (snd r) then Ok (fst r, false, false)
  else
    let t := fst r in
    let nHeight := match pindexFork with Some f => tree_height t f | None => -1 end in
    let! r := connect_batches (S (Z.to_nat (tree_height t pindexMostWork))) t oldWork pindexMostWork nHeight in
    match snd r with
    | step_failed => Ok (fst r, false, false)
    | invalid_found => Ok (fst r, true, true)
    | _ => Ok (fst r, true, false)
    end.
Fixpoint activate_loop (fuel : nat) (t : BlockTree C) (pindexMostWork : option ptr) : res tree_error (BlockTree C * bool) :=
  let! r := match pindexMostWork with None => FindMostWorkChain t | Some p => Ok (t, Some p) end in
  let t := fst r in
  let pindexMostWork :=
    match snd r with
    | None => None
    | Some p => match tree_prev t p with
                | Some q => if CompareTo (work_of t p) (work_of t q) =? 0 then Some q else Some p
                | None => Some p
                end
    end in
  match pindexMostWork with
  | None => Ok (t, true)
  | Some p =>
      if bool_decide (Some p = active_tip t) then Ok (t, true)
      else
        let! (t, ok, fInvalidFound) := ActivateBestChainStep t p in
        if negb ok then Ok (t, false)
        else
          let pindexMostWork := if fInvalidFound then None else Some p in
          if bool_decide (active_tip t = pindexMostWork) then Ok (t, FlushStateToDisk (coinsTip t))
          else match fuel with
          | O => Err no_fuel
          | S fuel => activate_loop fuel t pindexMostWork
          end
  end.
Definition max_height (t : BlockTree C) : Z := map_fold (fun _ e acc => Z.max acc (nHeight (node e))) 0 (mapBlockIndex t).
(** A round marks a block as failed or moves the tip up. *)
Definition ActivateBestChain (t : BlockTree C) : res tree_error (BlockTree C * bool) :=
  activate_loop (S (size (mapBlockIndex t)) * S (S (Z.to_nat (max_height t))))%nat t None.

Definition PreciousBlock (t : BlockTree C) (pindex : ptr) : res tree_error (BlockTree C * bool) :=
  match active_tip t with
  | None => Err null_pointer
  | Some tip =>
      if bu_lt (work_of t pindex) (work_of t tip) then Ok (t, true)
      else
        let r := if bu_gt (work_of t tip) (nLastPreciousChainwork t) then -1 else nBlockReverseSequenceId t in
        let t := erase_candidate t pindex in
        let t := update t pindex (fun e => set_sequence e r) in
        let t := with_ids t (nBlockSequenceId t) (if r >? - 2 ^ 31 then r - 1 else r) (work_of t tip) in
        let! t := (if IsValid (status_of t pindex) BLOCK_VALID_TRANSACTIONS && negb (field t nChainTx 0 pindex =? 0)
                   then PruneBlockIndexCandidates (insert_candidate t pindex) else Ok t) in
        ActivateBestChain t
  end.

(** *** Marks of failure *)

Fixpoint invalidate_loop (fuel : nat) (t : BlockTree C) (pindex : ptr) : res tree_error (BlockTree C * bool) :=
  if active t pindex then
    match fuel, active_tip t with
    | O, _ => Err no_fuel
    | _, None => Err null_pointer
    | S fuel, Some walk =>
        let! r := DisconnectTip (erase_candidate (add_status t walk BLOCK_FAILED_CHILD) walk) in
        if snd r then invalidate_loop fuel (fst r) pindex else Ok r
    end
  else Ok (t, true).
Definition candidate_again (t : BlockTree C) (p : ptr) : bool := IsValid (status_of t p) BLOCK_VALID_TRANSACTIONS && negb (field t nChainTx 0 p =? 0).
Definition InvalidateBlock (t : BlockTree C) (pindex : ptr) : res tree_error (BlockTree C * bool) :=
  let t := erase_candidate (add_status t pindex BLOCK_FAILED_VALID) pindex in
  if active t pindex then
    let! r := invalidate_loop (length (chainActive t)) t pindex in
    if negb (snd r) then Ok r
    else
      let t := fst r in
      match active_tip t with
      | None => Err null_pointer
      | Some tip =>
          let back := filter (fun p => candidate_again t p && negb (CBlockIndexWorkComparator t p tip)) (dom (mapBlockIndex t)) in
          let! t := InvalidChainFound (with_candidates t (back ∪ setBlockIndexCandidates t)) pindex in
          Ok (t, true)
      end
  else let! t := InvalidChainFound t pindex in Ok (t, true).

Definition clear_failure (e : IndexEntry) : IndexEntry := set_status e (Z.land (nStatus (node e)) (Z.lnot BLOCK_FAILED_MASK)).
(** One block becomes valid again, and a candidate when it beats the tip. *)
Definition reset_one (t : BlockTree C) (p : ptr) : res tree_error (BlockTree C) :=
  let t := update t p clear_failure in
  let! t :=
    (if candidate_again t p then
       match active_tip t with
       | None => Err null_pointer
       | Some tip => Ok (if CBlockIndexWorkComparator t tip p then insert_candidate t p else t)
       end
     else Ok t) in
  Ok (if bool_decide (Some p = pindexBestInvalid t) then with_best t (pindexBestHeader t) None else t).
Definition ResetBlockFailureFlagsForSingleBlock (t : BlockTree C) (p : ptr) : res tree_error (BlockTree C) := reset_one t p.
Fixpoint reset_all (t : BlockTree C) (l : list ptr) : res tree_error (BlockTree C) :=
  match l with [] => Ok t | p :: l => let! t := reset_one t p in reset_all t l end.
Fixpoint clear_ancestors (fuel : nat) (t : BlockTree C) (pindex : option ptr) : BlockTree C :=
  match pindex, fuel with
  | Some p, S fuel =>
      let t := if negb (Z.land (status_of t p) BLOCK_FAILED_MASK =? 0) then update t p clear_failure else t in
      clear_ancestors fuel t (tree_prev t p)
  | _, _ => t
  end.
(** [IsValid()] asks for [BLOCK_VALID_TRANSACTIONS]. *)
Definition ResetBlockFailureFlags (t : BlockTree C) (pindex : ptr) : res tree_error (BlockTree C) :=
  let nHeight := tree_height t pindex in
  let reset p := negb (IsValid (status_of t p) BLOCK_VALID_TRANSACTIONS) && bool_decide (GetAncestor (heap_of t) p nHeight = Some pindex) in
  let! t := reset_all t (List.filter reset (elements (dom (mapBlockIndex t)))) in
  Ok (clear_ancestors (S (Z.to_nat nHeight)) t (Some pindex)).

(** *** New blocks *)

(** The work of up to [n] more blocks, and their number. *)
Fixpoint add_proofs (n : nat) (t : BlockTree C) (pprev : option ptr) (proof : base_uint) (count : Z) : res tree_error (base_uint * Z) :=
  match n, pprev with
  | S n, Some p =>
      match GetBlockProof (field t (fun e => nBits (node e)) 0 p) with
      | None => Err division_by_zero
      | Some w => add_proofs n t (tree_prev t p) (add proof w) (count + 1)
      end
  | _, _ => Ok (proof, count)
  end.
(** For the header's bits and witness version over the block [pprev] at height [height - 1]. *)
Definition CalculateChainWork (t : BlockTree C) (bits version height : Z) (pprev : option ptr) : res tree_error base_uint :=
  match GetBlockProof bits with
  | None => Err division_by_zero
  | Some proof =>
      let chainWork := add (match pprev with Some q => work_of t q | None => bu_zero end) proof in
      match pprev with
      | Some q =>
          if negb (version =? 0) && negb (field t nVersionPoW2Witness 0 q =? 0) then
            let! (sum, count) := add_proofs 9 t (Some q) proof 1 in
            guard! (height <? 11) || (count =? 10) or assertion_failed in
            match div sum (of_u64 count) with
            | None => Err division_by_zero
            | Some avg => Ok (add chainWork avg)
            end
          else Ok chainWork
      | None => Ok chainWork
      end
  end.
Definition at_least_tip (t : BlockTree C) (p : ptr) : bool :=
  match active_tip t with
  | None => true
  | Some tip => bu_ge (work_of t p) (work_of t tip) || (tree_height t p >=? tree_height t tip)
  end.
(** For a header whose hash is not known, over the block [pprev]; [p] is the new object. *)
Definition AddToBlockIndex (t : BlockTree C) (p : ptr) (prev : option ptr) (time witnessTime bits version : Z) : res tree_error (BlockTree C) :=
  let height := match prev with Some q => tree_height t q + 1 | None => 0 end in
  let! work := CalculateChainWork t bits version height prev in
  let timeMax := match prev with Some q => Z.max (field t nTimeMax 0 q) time | None => time end in
  let status := fst (RaiseValidity 0 BLOCK_VALID_HEADER) in
  let e := mkIdx (mkIndex height prev None time witnessTime bits status work) version 0 0 0 timeMax in
  let t := with_index t (<[p := e]> (mapBlockIndex t)) in
  let t := match prev with
           | Some q =>
               if bool_decide (is_Some (skip_of (heap_of t) q)) || (tree_height t q =? 0)
               then match BuildSkip (heap_of t) p !! p with
                    | Some b => with_index t (<[p := mkIdx b version 0 0 0 timeMax]> (mapBlockIndex t))
                    | None => t
                    end
               else t
           | None => t
           end in
  Ok (if match prev with Some q => IsValid (status_of t q) BLOCK_VALID_TREE | None => true end then
        let t := update t p (fun e => set_status e (fst (RaiseValidity (nStatus (node e)) BLOCK_VALID_TREE))) in
        if match pindexBestHeader t with None => true | Some h => bu_lt (work_of t h) (work_of t p) end then with_best t (Some p) (pindexBestInvalid t) else t
      else t).

Fixpoint link_loop (fuel : nat) (t : BlockTree C) (queue : list ptr) : res tree_error (BlockTree C) :=
  match queue with
  | [] => Ok t
  | p :: queue =>
      match fuel with
      | O => Err no_fuel
      | S fuel =>
          let chainTx := u32 (match tree_prev t p with Some q => field t nChainTx 0 q | None => 0 end + field t nTx 0 p) in
          let t := erase_candidate t p in
          let id := nBlockSequenceId t in
          let t := update t p (fun e => set_sequence (set_txs e (nTx e) chainTx) id) in
          let t := with_ids t (i32 (id + 1)) (nBlockReverseSequenceId t) (nLastPreciousChainwork t) in
          let t := if at_least_tip t p then insert_candidate t p else t in
          let mine := List.filter (fun x => bool_decide (fst x = p)) (mapBlocksUnlinked t) in
          let t := with_unlinked t (List.filter (fun x => negb (bool_decide (fst x = p))) (mapBlocksUnlinked t)) in
          link_loop fuel t (queue ++ map snd mine)
      end
  end.
(** [txs] transactions, and whether the deployment of segregated signatures is active before the block. *)
Definition ReceivedBlockTransactions (t : BlockTree C) (p : ptr) (txs : Z) (segsig : bool) : res tree_error (BlockTree C * bool) :=
  let t := update t p (fun e => set_txs e (u32 txs) 0) in
  let t := add_status t p BLOCK_HAVE_DATA in
  let t := if segsig then add_status t p BLOCK_OPT_WITNESS else t in
  if (tree_height t p =? 0) || match tree_prev t p with Some q => IsValid (status_of t q) BLOCK_VALID_TREE | None => false end then
    let t := update t p (fun e => set_status e (fst (RaiseValidity (nStatus (node e)) BLOCK_VALID_TRANSACTIONS))) in
    if match tree_prev t p with None => true | Some q => negb (field t nChainTx 0 q =? 0) end then
      let! t := link_loop (S (length (mapBlocksUnlinked t))) t [p] in Ok (t, true)
    else
      Ok (match tree_prev t p with
          | Some q => if IsValid (status_of t q) BLOCK_VALID_TREE then with_unlinked t (mapBlocksUnlinked t ++ [(q, p)]) else t
          | None => t
          end, true)
  else Ok (t, false).
End Tree.
