(* ===== verification/BestChainSpec.v ===== *)
(** * Choosing the best chain: the invariants

    What the index of the blocks, the candidates, the active chain and the coins have to
    do with each other, and that each operation of [BestChain] keeps it. Marks of failure
    change nothing else of an entry, so the lemmas come in two groups: those of the
    [same_shape], which speak of parents, heights and work, and those of the marks. *)

From stdpp Require Import gmap sorting.
From S2P Require Import Prelude ArithUint256 Chain BestChain.

(** ** Definitions *)

Section Spec.
Context {C : Type}.
Implicit Types (t : BlockTree C) (p q : ptr).

(** An entry without its marks and its place among the blocks of equal work. *)
Definition blank (e : IndexEntry) : IndexEntry := set_sequence (set_status e 0) 0.
(** Two trees that differ in these, in sets and in chains only. *)
Definition same_shape t t' : Prop := blank <$> mapBlockIndex t = blank <$> mapBlockIndex t'.
(** [q] is [p] or an ancestor of it. *)
Definition anc t p q : Prop := exists k, up (heap_of t) k p = Some q.
Definition known t p : Prop := is_Some (mapBlockIndex t !! p).
Definition work t p : Z := val (work_of t p).
Definition failed t p : Prop := Z.land (status_of t p) BLOCK_FAILED_MASK <> 0.
Definition good t p : Prop := ~ failed t p /\ Z.land (status_of t p) BLOCK_HAVE_DATA <> 0.
Definition usable t p : Prop := forall q, anc t p q -> good t q.
Definition linked t p : Prop := known t p /\ field t nChainTx 0 p <> 0.
(** A block that could become the tip, as far as the index knows. *)
Definition connectable t p : Prop := linked t p /\ usable t p.

Record shaped t : Prop := {
  sh_wf : wf_heap (heap_of t);
  sh_rooted : rooted (heap_of t);
  sh_root : forall p q, known t p -> known t q -> tree_height t p = 0 -> tree_height t q = 0 -> p = q;
  sh_work_wf : forall p, wf (work_of t p);
  sh_work : forall p q, tree_prev t p = Some q -> work t q < work t p;
  sh_link : forall p q, tree_prev t p = Some q -> field t nChainTx 0 p <> 0 -> field t nChainTx 0 q <> 0
}.
End Spec.

Section Coins.
Context {C : Type} `{ChainState C} (start : C).
Implicit Types (t : BlockTree C) (p q tip : ptr).

(** The coins after the blocks from the root to [p]. *)
Inductive coins_at t : ptr -> C -> Prop :=
| coins_root p c : tree_prev t p = None -> ConnectBlock p start = connected c -> coins_at t p c
| coins_child p q c c' : tree_prev t p = Some q -> coins_at t q c -> ConnectBlock p c = connected c' -> coins_at t p c'.

(** Holds between any two steps of the functions below. *)
Record base t tip : Prop := {
  ba_shape : shaped t;
  ba_chain : chain_of (heap_of t) tip (chainActive t);
  ba_linked : linked t tip;
  ba_coins : coins_at t tip (coinsTip t);
  ba_candidates : forall p, p ∈ setBlockIndexCandidates t -> linked t p;
  ba_level : forall p, linked t p -> BLOCK_VALID_TRANSACTIONS <= Z.land (status_of t p) BLOCK_VALID_MASK
}.
Definition core t tip : Prop := base t tip /\ usable t tip.
(** [top] is a block that the chain can always go back to, and every block with more work
    that could become the tip is a candidate. *)
Record mark t tip top : Prop := {
  mk_candidate : top ∈ setBlockIndexCandidates t;
  mk_usable : usable t top;
  mk_coins : exists c, coins_at t top c;
  mk_work : work t tip <= work t top;
  mk_complete : forall p, connectable t p -> work t top < work t p -> p ∈ setBlockIndexCandidates t
}.
(** Holds whenever the lock is free. *)
Definition tree_ok t : Prop := exists tip, core t tip /\ mark t tip tip.
(** No block with more work than the tip could become the tip. *)
Definition settled_on t tip : Prop := active_tip t = Some tip /\ forall p, connectable t p -> work t p <= work t tip.

(** No block of the index is rejected with the mark that its data may be corrupt. *)
Definition intact t : Prop := forall p c, linked t p -> ConnectBlock p c <> rejected true.
(** The coins of the tree could not be written. *)
Definition unwritten t : Prop := FlushStateToDisk (coinsTip t) = false.
(** The chain is one of usable blocks and [c] are its coins, which are those of the tree unless
    they could not be written. *)
Definition sound t : Prop := exists tip c, core (with_chain t (chainActive t) c) tip /\ (coinsTip t = c \/ unwritten t).
(** The same of a chain that could not be taken back further: the undo of its tip does not work, or
    the coins could not be written. *)
Definition stuck t : Prop :=
  exists tip c, base (with_chain t (chainActive t) c) tip /\ (coinsTip t = c /\ DisconnectBlock_ tip c = None \/ unwritten t).

(** What the choice of the chain needs of the coins: if the undo of a block works, it
    gives the coins before the block. Checks and disk may fail at any time. *)
Class ChainStateLaws := {
  disconnect_connected : forall p c c' d, ConnectBlock p c = connected c' -> DisconnectBlock_ p c' = Some d -> d = c
}.
End Coins.

(** ** Lemmas: trees of the same shape *)

Section Shape.
Context {C : Type}.
Implicit Types (t u : BlockTree C) (p q : ptr).

#[export] Instance same_shape_equiv : Equivalence (same_shape (C := C)).
Proof. unfold same_shape. split; [done|by intros ?? ->|by intros ??? -> ->]. Qed.

Lemma shape_lookup t u p : same_shape t u -> blank <$> mapBlockIndex t !! p = blank <$> mapBlockIndex u !! p.
Proof. intros E. by rewrite <- !lookup_fmap, E. Qed.

Lemma field_shape {A} (f : IndexEntry -> A) d t u p : (forall e, f (blank e) = f e) -> same_shape t u -> field t f d p = field u f d p.
Proof.
  intros Hf E. pose proof (shape_lookup t u p E) as Hp. unfold field. destruct (mapBlockIndex t !! p) as [e|], (mapBlockIndex u !! p) as [e'|]; try done.
  apply (inj Some) in Hp. by rewrite <- (Hf e), <- (Hf e'), Hp.
Qed.
Lemma tree_prev_shape t u p : same_shape t u -> tree_prev t p = tree_prev u p.
Proof.
  intros E. pose proof (shape_lookup t u p E) as Hp. unfold tree_prev. destruct (mapBlockIndex t !! p) as [[[] ]|], (mapBlockIndex u !! p) as [[[] ]|]; try done.
  by injection Hp as ->.
Qed.
Lemma known_shape t u p : same_shape t u -> known t p <-> known u p.
Proof. intros E. pose proof (shape_lookup t u p E) as Hp. unfold known. by rewrite <- (fmap_is_Some blank), Hp, fmap_is_Some. Qed.
Lemma tree_height_shape t u p : same_shape t u -> tree_height t p = tree_height u p.
Proof. by apply field_shape. Qed.
Lemma work_of_shape t u p : same_shape t u -> work_of t p = work_of u p.
Proof. by apply field_shape. Qed.
Lemma work_shape t u p : same_shape t u -> work t p = work u p.
Proof. intros E. unfold work. by rewrite (work_of_shape t u p E). Qed.
Lemma txs_shape t u p : same_shape t u -> field t nChainTx 0 p = field u nChainTx 0 p.
Proof. by apply field_shape. Qed.
Lemma linked_shape t u p : same_shape t u -> linked t p <-> linked u p.
Proof. intros E. unfold linked. by rewrite (known_shape t u p E), (txs_shape t u p E). Qed.

Lemma prev_heap t p : prev_of (heap_of t) p = tree_prev t p.
Proof. unfold prev_of, tree_prev, heap_of. rewrite lookup_fmap. by destruct (mapBlockIndex t !! p). Qed.
Lemma height_heap t p : height_of (heap_of t) p = tree_height t p.
Proof. unfold height_of, tree_height, field, heap_of. rewrite lookup_fmap. by destruct (mapBlockIndex t !! p). Qed.
Lemma known_heap t p : is_Some (heap_of t !! p) <-> known t p.
Proof. unfold heap_of, known. rewrite lookup_fmap. apply fmap_is_Some. Qed.
Lemma up_shape t u k p : same_shape t u -> up (heap_of t) k p = up (heap_of u) k p.
Proof.
  intros E. revert p; induction k as [|k IH]; intros p; cbn; [done|]. rewrite !prev_heap, (tree_prev_shape t u p E).
  destruct (tree_prev u p); cbn; [apply IH|done].
Qed.
Lemma anc_shape t u p q : same_shape t u -> anc t p q <-> anc u p q.
Proof. intros E. unfold anc. by setoid_rewrite (up_shape t u _ _ E). Qed.

Lemma heap_lookup_shape t u p b : same_shape t u -> heap_of t !! p = Some b ->
  exists b', heap_of u !! p = Some b' /\ nHeight b' = nHeight b /\ pprev b' = pprev b /\ pskip b' = pskip b.
Proof.
  intros E. pose proof (shape_lookup t u p E) as Hp. unfold heap_of. rewrite !lookup_fmap.
  destruct (mapBlockIndex t !! p) as [[[] ]|], (mapBlockIndex u !! p) as [[[] ]|]; try done. intros [= <-]. injection Hp as -> -> -> -> -> -> -> -> -> -> ->.
  by eexists.
Qed.
Lemma wf_shape t u : same_shape t u -> wf_heap (heap_of t) -> wf_heap (heap_of u).
Proof.
  intros E W. symmetry in E. split.
  - intros p b Hb. destruct (heap_lookup_shape _ _ _ _ E Hb) as (b' & Hb' & <- & _). by apply (wf_height _ W p).
  - intros p b q Hb Hq. destruct (heap_lookup_shape _ _ _ _ E Hb) as (b' & Hb' & <- & Ep & _). rewrite <- Ep in Hq.
    destruct (wf_prev _ W p b' q Hb' Hq) as (c & Hc & <-). symmetry in E. destruct (heap_lookup_shape _ _ _ _ E Hc) as (c' & Hc' & <- & _). by exists c'.
  - intros p b q Hb Hq. destruct (heap_lookup_shape _ _ _ _ E Hb) as (b' & Hb' & <- & _ & Ep). rewrite <- Ep in Hq.
    rewrite (up_shape _ _ _ _ E). by apply (wf_skip _ W p b').
Qed.
Lemma rooted_shape t u : same_shape t u -> rooted (heap_of t) -> rooted (heap_of u).
Proof.
  intros E R p b Hb. symmetry in E. destruct (heap_lookup_shape _ _ _ _ E Hb) as (b' & Hb' & <- & <- & _). by apply (R p).
Qed.
Lemma chain_shape t u tip v : same_shape t u -> chain_of (heap_of t) tip v -> chain_of (heap_of u) tip v.
Proof.
  intros E (Ht & Hl & Hv). split_and!.
  - by rewrite known_heap, <- (known_shape t u tip E), <- known_heap.
  - by rewrite height_heap, <- (tree_height_shape t u tip E), <- height_heap.
  - intros k Hk. by rewrite <- (up_shape t u _ _ E), Hv.
Qed.
Lemma shaped_shape t u : same_shape t u -> shaped t -> shaped u.
Proof.
  intros E S. split.
  - by eapply wf_shape, S.
  - by eapply rooted_shape, S.
  - intros p q. rewrite <- !(known_shape t u _ E), <- !(tree_height_shape t u _ E). apply (sh_root _ S).
  - intros p. rewrite <- (work_of_shape t u p E). apply S.
  - intros p q. rewrite <- (tree_prev_shape t u p E), <- !(work_shape t u _ E). apply (sh_work _ S).
  - intros p q. rewrite <- (tree_prev_shape t u p E), <- !(txs_shape t u _ E). apply (sh_link _ S).
Qed.

Lemma add_status_shape t p bits : same_shape t (add_status t p bits).
Proof.
  unfold same_shape, add_status, update. cbn. apply map_eq. intros q. rewrite !lookup_fmap. destruct (decide (p = q)) as [->|].
  - rewrite lookup_alter_eq. by destruct (mapBlockIndex t !! q) as [[[] ]|].
  - by rewrite lookup_alter_ne.
Qed.
Lemma add_status_status t p bits q : known t q -> status_of (add_status t p bits) q = if decide (p = q) then Z.lor (status_of t q) bits else status_of t q.
Proof.
  unfold status_of, field, add_status, update, known. cbn. destruct (decide (p = q)) as [->|].
  - rewrite lookup_alter_eq. intros [e ->]. done.
  - by rewrite lookup_alter_ne.
Qed.
End Shape.
#[export] Hint Resolve add_status_shape : munt.

(** ** Lemmas: ancestors *)

Section Ancestors.
Context {C : Type}.
Implicit Types (t u : BlockTree C) (p q r tip : ptr).

Lemma anc_refl t p : anc t p p.
Proof. by exists 0%nat. Qed.
Lemma anc_prev t p q : tree_prev t p = Some q -> anc t p q.
Proof. intros E. exists 1%nat. cbn. by rewrite prev_heap, E. Qed.
Lemma anc_trans t p q r : anc t p q -> anc t q r -> anc t p r.
Proof. intros [k Hk] [l Hl]. exists (k + l)%nat. by rewrite up_add, Hk. Qed.
Lemma anc_inv t p q : anc t p q -> p = q \/ exists r, tree_prev t p = Some r /\ anc t r q.
Proof.
  intros [[|k] Hk]; [left; by injection Hk|right]. cbn in Hk. rewrite prev_heap in Hk.
  destruct (tree_prev t p) as [r|]; [|done]. exists r. split; [done|]. by exists k.
Qed.
Lemma anc_ind t (P : ptr -> ptr -> Prop) : (forall p, P p p) -> (forall p r q, tree_prev t p = Some r -> anc t r q -> P r q -> P p q) ->
  forall p q, anc t p q -> P p q.
Proof.
  intros H0 H1 p q [k Hk]. revert p Hk; induction k as [|k IH]; intros p Hk; [injection Hk as <-; apply H0|].
  cbn in Hk. rewrite prev_heap in Hk. destruct (tree_prev t p) as [r|] eqn:Er; [|done].
  apply (H1 p r q Er); [by exists k|by apply IH].
Qed.

Lemma known_prev t p q : tree_prev t p = Some q -> known t p.
Proof. unfold tree_prev, known. by destruct (mapBlockIndex t !! p). Qed.
Lemma anc_range t p q k : shaped t -> known t p -> up (heap_of t) k p = Some q -> known t q /\ tree_height t q = tree_height t p - Z.of_nat k.
Proof.
  intros S Hp Hk. apply known_heap in Hp. destruct (up_height _ k p q (sh_wf _ S) Hp Hk) as [Hq Hh].
  apply known_heap in Hq. by rewrite !height_heap in Hh.
Qed.
Lemma anc_known t p q : shaped t -> known t p -> anc t p q -> known t q.
Proof. intros S Hp [k Hk]. by eapply anc_range. Qed.
Lemma anc_height t p q : shaped t -> known t p -> anc t p q -> tree_height t q <= tree_height t p /\ (tree_height t p <= tree_height t q -> p = q).
Proof.
  intros S Hp [k Hk]. destruct (anc_range t p q k S Hp Hk) as [_ ->]. split; [lia|]. intros ?. assert (k = 0%nat) as -> by lia. by injection Hk.
Qed.
Lemma height_nonneg t p : shaped t -> known t p -> 0 <= tree_height t p.
Proof. intros S Hp. apply known_heap in Hp. rewrite <- height_heap. apply (height_range _ p (sh_wf _ S) Hp). Qed.
Lemma prev_height_tree t p q : shaped t -> tree_prev t p = Some q -> known t q /\ tree_height t q = tree_height t p - 1.
Proof. intros S E. apply (anc_range t p q 1 S); [by eapply known_prev|]. cbn. by rewrite prev_heap, E. Qed.
Lemma prev_exists t p : shaped t -> known t p -> 0 < tree_height t p -> exists q, tree_prev t p = Some q.
Proof.
  intros S Hp Hh. apply known_heap in Hp as Hp'. destruct (up_Some _ 1 p (sh_wf _ S) (sh_rooted _ S) Hp') as [q Hq]; [rewrite height_heap; lia|].
  cbn in Hq. rewrite prev_heap in Hq. destruct (tree_prev t p) as [r|]; [by exists r|done].
Qed.
Lemma anc_at_height t p h : shaped t -> known t p -> 0 <= h <= tree_height t p -> exists q, anc t p q /\ tree_height t q = h.
Proof.
  intros S Hp Hh. apply known_heap in Hp as Hp'. destruct (up_Some _ (Z.to_nat (tree_height t p - h)) p (sh_wf _ S) (sh_rooted _ S) Hp') as [q Hq]; [rewrite height_heap; lia|].
  exists q. split; [by eexists|]. destruct (anc_range _ _ _ _ S Hp Hq) as [_ ->]. lia.
Qed.
(** The ancestors of a block are in a line. *)
Lemma anc_line t p a b : shaped t -> known t p -> anc t p a -> anc t p b -> tree_height t a <= tree_height t b -> anc t b a.
Proof.
  intros S Hp [k Hk] [l Hl] Hh. destruct (anc_range _ _ _ _ S Hp Hk) as [_ Ha], (anc_range _ _ _ _ S Hp Hl) as [_ Hb].
  exists (k - l)%nat. replace k with (l + (k - l))%nat in Hk by lia. by rewrite up_add, Hl in Hk.
Qed.
Lemma anc_work t p q : shaped t -> anc t p q -> work t q <= work t p /\ (work t p <= work t q -> p = q).
Proof.
  intros S. revert p q. apply anc_ind; [intros; split; [lia|done]|]. intros p r q Hr _ [IH1 IH2]. pose proof (sh_work _ S p r Hr). split; [lia|]. lia.
Qed.
Lemma anc_linked t p q : shaped t -> linked t p -> anc t p q -> linked t q.
Proof.
  intros S Hp Ha. revert p q Ha Hp. refine (anc_ind t _ _ _); [done|]. intros p r q Hr _ IH [Hp Hl]. apply IH. split; [by eapply prev_height_tree|by eapply sh_link].
Qed.
Lemma usable_anc t p q : usable t p -> anc t p q -> usable t q.
Proof. intros U Ha r Hr. apply U. by eapply anc_trans. Qed.
Lemma connectable_anc t p q : shaped t -> connectable t p -> anc t p q -> connectable t q.
Proof. intros S [L U] Ha. split; [by eapply anc_linked|by eapply usable_anc]. Qed.

Lemma chain_length H tip v : wf_heap H -> chain_of H tip v -> (0 < length v)%nat.
Proof. intros W (Ht & Hl & _). pose proof (height_range H tip W Ht). lia. Qed.
Lemma Tip_chain H tip v : wf_heap H -> chain_of H tip v -> Tip v = Some tip.
Proof.
  intros W Hc. pose proof (chain_length H tip v W Hc) as Hpos. unfold Tip, chain_Height.
  rewrite Z.geb_leb, (proj2 (Z.leb_le _ _)) by lia. rewrite (chain_get_spec H tip v) by (done || lia).
  by replace (length v - 1 - _)%nat with 0%nat by lia.
Qed.
(** The active blocks are the tip and its ancestors. *)
Lemma active_anc t tip p : shaped t -> chain_of (heap_of t) tip (chainActive t) -> known t p -> active t p = true <-> anc t tip p.
Proof. intros S Hc Hp. apply (Contains_spec _ tip); [apply S|done|by apply known_heap]. Qed.
End Ancestors.

(** ** Lemmas: marks, coins and comparisons *)

Section Marks.
Context {C : Type}.
Implicit Types (t u : BlockTree C) (p q r tip : ptr).

Lemma work_gt t p q : shaped t -> bu_gt (work_of t p) (work_of t q) = (work t p >? work t q).
Proof. intros S. apply bu_gt_spec; apply S. Qed.
Lemma work_lt t p q : shaped t -> bu_lt (work_of t p) (work_of t q) = (work t p <? work t q).
Proof. intros S. apply bu_lt_spec; apply S. Qed.

Lemma comparator_work t p q : shaped t -> (CBlockIndexWorkComparator t p q = true -> work t p <= work t q) /\ (CBlockIndexWorkComparator t p q = false -> work t q <= work t p).
Proof.
  intros S. unfold CBlockIndexWorkComparator. rewrite work_gt, work_lt by done.
  destruct (work t p >? work t q) eqn:E1; zbool; [split; [done|lia]|]. destruct (work t p <? work t q) eqn:E2; zbool; [split; [lia|done]|]. split; lia.
Qed.
Lemma comparator_irrefl t p : shaped t -> CBlockIndexWorkComparator t p p = false.
Proof.
  intros S. unfold CBlockIndexWorkComparator. rewrite work_gt, work_lt by done. rewrite Z.eqb_refl, !Z.gtb_ltb, !Z.ltb_irrefl, !Pos.ltb_irrefl. cbn [andb].
  by destruct (_ =? 0).
Qed.

(** A mark of failure only takes from what is usable. *)
Definition marked t u : Prop := same_shape t u /\ (forall p, good u p -> good t p) /\ (forall p, Z.land (status_of u p) BLOCK_VALID_MASK = Z.land (status_of t p) BLOCK_VALID_MASK).
#[export] Instance marked_preorder : PreOrder marked.
Proof. split; [done|]. intros t u v (S1 & G1 & L1) (S2 & G2 & L2). split_and!; [by transitivity u|auto|]. intros p. by rewrite L2. Qed.

Lemma usable_marked t u p : marked t u -> usable u p -> usable t p.
Proof. intros (S & G & _) U q Hq. apply G, U. by apply (anc_shape t u p q S). Qed.
Lemma connectable_marked t u p : marked t u -> connectable u p -> connectable t p.
Proof. intros M [L U]. split; [by apply (linked_shape t u p (proj1 M))|by eapply usable_marked]. Qed.

Lemma failing_bits bits : bits = BLOCK_FAILED_VALID \/ bits = BLOCK_FAILED_CHILD -> forall s,
  Z.land (Z.lor s bits) BLOCK_FAILED_MASK <> 0 /\ Z.land (Z.lor s bits) BLOCK_VALID_MASK = Z.land s BLOCK_VALID_MASK.
Proof.
  intros Hb s. rewrite !Z.land_lor_distr_l. split.
  - intros E. apply Z.lor_eq_0_iff in E as [_ E]. by destruct Hb as [-> | ->].
  - destruct Hb as [-> | ->]; apply Z.lor_0_r.
Qed.
Lemma status_unknown t p : ~ known t p -> status_of t p = 0.
Proof. unfold known, status_of, field. destruct (mapBlockIndex t !! p); [intros []; by eexists|done]. Qed.
Lemma good_known t p : good t p -> known t p.
Proof. intros [_ Hd]. destruct (decide (known t p)) as [|Hn]; [done|]. by rewrite (status_unknown t p Hn) in Hd. Qed.

Lemma add_status_marked t p bits : bits = BLOCK_FAILED_VALID \/ bits = BLOCK_FAILED_CHILD -> marked t (add_status t p bits).
Proof.
  intros Hb. split_and!; [apply add_status_shape| |].
  - intros q G. pose proof (good_known _ _ G) as Hk. apply (known_shape t _ q (add_status_shape t p bits)) in Hk.
    destruct G as [Gf Gd]. unfold failed in Gf. rewrite (add_status_status t p bits q Hk) in Gf, Gd. case_decide; [|done].
    destruct Gf. by apply failing_bits.
  - intros q. destruct (decide (known t q)) as [Hk|Hn].
    + rewrite add_status_status by done. case_decide; [by apply failing_bits|done].
    + rewrite !status_unknown; [done|done|]. by rewrite <- (known_shape t _ q (add_status_shape t p bits)).
Qed.
Lemma add_status_failed t p bits : bits = BLOCK_FAILED_VALID \/ bits = BLOCK_FAILED_CHILD -> known t p -> failed (add_status t p bits) p.
Proof. intros Hb Hk. unfold failed. rewrite add_status_status, decide_True by done. by apply failing_bits. Qed.
Lemma add_status_good t p q bits : p <> q -> good t q -> good (add_status t p bits) q.
Proof. intros Hn G. pose proof (good_known _ _ G) as Hk. unfold good, failed. rewrite add_status_status, decide_False by done. exact G. Qed.
(** What is not on top of the marked block stays usable. *)
Lemma add_status_usable t p q bits : usable t q -> ~ anc t q p -> usable (add_status t p bits) q.
Proof.
  intros U Hn r Hr. apply (anc_shape t _ q r (add_status_shape t p bits)) in Hr. apply add_status_good; [|by apply U]. intros ->. done.
Qed.
End Marks.

(** ** Lemmas: the search for the chain with the most work *)

Section Search.
Context {C : Type}.
Implicit Types (t u : BlockTree C) (p q tip : ptr).

(** What the search may change: it marks and drops blocks that are not usable. *)
Record searched t u : Prop := {
  sr_marked : marked t u;
  sr_chain : chainActive u = chainActive t;
  sr_coins : coinsTip u = coinsTip t;
  sr_sub : setBlockIndexCandidates u ⊆ setBlockIndexCandidates t;
  sr_dropped : forall p, usable t p -> p ∈ setBlockIndexCandidates t -> p ∈ setBlockIndexCandidates u;
  sr_usable : forall p, usable t p -> usable u p
}.
#[export] Instance searched_preorder : PreOrder searched.
Proof.
  split; [by split|]. intros t u v [] []. split; [by etransitivity|congruence|congruence|set_solver|auto|auto].
Qed.

Lemma same_index_usable t u p : mapBlockIndex u = mapBlockIndex t -> usable t p -> usable u p.
Proof. intros E U q [k Hq]. unfold good, failed, status_of, field, heap_of in *. rewrite E in *. apply U. by exists k. Qed.
Lemma same_index_marked t u : mapBlockIndex u = mapBlockIndex t -> marked t u.
Proof. intros E. unfold marked, same_shape, good, failed, status_of, field. by rewrite E. Qed.
Lemma erase_searched t p : ~ usable t p -> searched t (erase_candidate t p).
Proof.
  intros Hn. split; [by apply same_index_marked|done|done|cbn; set_solver| |by intros q; apply same_index_usable].
  intros q U Hq. cbn. apply elem_of_difference. split; [done|]. intros ->%elem_of_singleton. done.
Qed.
Lemma unlinked_searched t l : searched t (with_unlinked t l).
Proof. split; [by apply same_index_marked|done|done|done|done|by intros q; apply same_index_usable]. Qed.
Lemma best_searched t h i : searched t (with_best t h i).
Proof. split; [by apply same_index_marked|done|done|done|done|by intros q; apply same_index_usable]. Qed.
Lemma add_status_searched t p bits : bits = BLOCK_FAILED_VALID \/ bits = BLOCK_FAILED_CHILD -> ~ usable t p -> searched t (add_status t p bits).
Proof.
  intros Hb Hn. split; [by apply add_status_marked|done|done|done|done|]. intros q U. apply add_status_usable; [done|]. intros Ha. by apply Hn, (usable_anc t q p).
Qed.
Lemma best_invalid_searched t p : searched t (best_invalid t p).
Proof. unfold best_invalid. case_match; [apply best_searched|done]. Qed.

Lemma best_candidate_spec t : shaped t ->
  match best_candidate t with
  | None => setBlockIndexCandidates t = ∅
  | Some p => p ∈ setBlockIndexCandidates t /\ forall q, q ∈ setBlockIndexCandidates t -> work t q <= work t p
  end.
Proof.
  intros S. unfold best_candidate. destruct (elements _) as [|x l] eqn:El; [by apply leibniz_equiv, elements_empty_iff|].
  set (s := setBlockIndexCandidates t) in *.
  assert (forall l b, let m := fold_left (fun b y => if CBlockIndexWorkComparator t b y then y else b) l b in
            m ∈ b :: l /\ forall q, q ∈ b :: l -> work t q <= work t m) as Hf.
  { clear l El. intros l; induction l as [|y l IH]; intros b m; [subst m; cbn; split; [left|intros q ->%list_elem_of_singleton; lia]|].
    destruct (comparator_work t b y S) as [Ht Hf]. specialize (IH (if CBlockIndexWorkComparator t b y then y else b)). cbn in m. fold m in IH. destruct IH as [Hm Hw].
    destruct (CBlockIndexWorkComparator t b y); [specialize (Ht eq_refl)|specialize (Hf eq_refl)].
    - split; [set_solver|]. intros q. rewrite !elem_of_cons. intros [-> | [-> | Hq]]; [pose proof (Hw y ltac:(left)); lia|apply Hw; left|apply Hw; by right].
    - split; [set_solver|]. intros q. rewrite !elem_of_cons. intros [-> | [-> | Hq]]; [apply Hw; left|pose proof (Hw b ltac:(left)); lia|apply Hw; by right]. }
  destruct (Hf l x) as [Hm Hw]. split.
  - apply elem_of_elements. fold s. by rewrite El.
  - intros q Hq. apply Hw. rewrite <- El. by apply elem_of_elements.
Qed.

Lemma find_unusable_spec t tip : shaped t -> chain_of (heap_of t) tip (chainActive t) -> usable t tip ->
  forall fuel p, linked t p -> (Z.to_nat (tree_height t p) < fuel)%nat ->
  exists r, find_unusable fuel t (Some p) = Ok r /\ match r with None => usable t p | Some b => anc t p b /\ ~ good t b end.
Proof.
  intros S Hc U. induction fuel as [|fuel IH]; intros p Hp Hf; [lia|]. cbn [find_unusable].
  destruct (active t p) eqn:Ea.
  { exists None. split; [done|]. apply (usable_anc t tip p U). apply (active_anc t tip p S Hc); [apply Hp|done]. }
  destruct Hp as [Hk Hl]. rewrite (proj2 (Z.eqb_neq _ _)) by done. cbn [negb orb].
  destruct (negb _ || _) eqn:Eb.
  { exists (Some p). split; [done|]. split; [apply anc_refl|]. unfold good, failed. apply orb_true_iff in Eb as [Eb|Eb]; zbool; intros [? ?]; done. }
  zbool. assert (good t p) as G by (unfold good, failed; lia). destruct (tree_prev t p) as [q|] eqn:Eq.
  - destruct (prev_height_tree t p q S Eq) as [Hq Hh]. pose proof (height_nonneg t q S Hq).
    destruct (IH q) as (r & -> & Hr); [split; [done|by eapply sh_link]|lia|]. exists r. split; [done|]. destruct r as [b|].
    + split; [|apply Hr]. exact (anc_trans t p q b (anc_prev t p q Eq) (proj1 Hr)).
    + intros x [<- | (y & Ey & Hy)]%anc_inv; [done|]. rewrite Eq in Ey. injection Ey as <-. by apply Hr.
  - exists None. split; [by destruct fuel|]. intros x [<- | (y & Ey & _)]%anc_inv; [done|congruence].
Qed.

Lemma drop_unusable_spec fl b : forall fuel t p, shaped t -> known t p -> anc t p b -> ~ good t b -> (Z.to_nat (tree_height t p) < fuel)%nat ->
  exists u, drop_unusable fuel t fl b p = Ok u /\ searched t u /\ (p <> b -> p ∉ setBlockIndexCandidates u).
Proof.
  induction fuel as [|fuel IH]; intros t p S Hk Ha Hg Hf; [lia|]. cbn [drop_unusable].
  case_bool_decide as Eb; [by exists t|]. destruct (anc_inv t p b Ha) as [->|(q & Eq & Hq)]; [done|]. rewrite Eq.
  assert (~ usable t p) as Hu by (intros U; by apply Hg, U).
  set (v := if fl then _ else _). assert (searched t v) as R1 by (unfold v; destruct fl; [apply add_status_searched; auto|apply unlinked_searched]).
  assert (searched t (erase_candidate v p)) as R2.
  { transitivity v; [done|]. apply erase_searched. intros Uv. by apply Hu, (usable_marked t v p (sr_marked _ _ R1)). }
  pose proof (proj1 (sr_marked _ _ R2)) as Es. destruct (prev_height_tree t p q S Eq) as [Hkq Hh]. pose proof (height_nonneg t q S Hkq).
  destruct (IH (erase_candidate v p) q) as (u & -> & Ru & _).
  - by eapply shaped_shape.
  - by apply (known_shape t _ q Es).
  - by apply (anc_shape t _ q b Es).
  - intros G. by apply Hg, (sr_marked _ _ R2).
  - rewrite <- (tree_height_shape t _ q Es). lia.
  - exists u. split; [done|]. split; [by transitivity (erase_candidate v p)|]. intros _ Hin. apply (sr_sub _ _ Ru) in Hin. cbn in Hin. set_solver.
Qed.

(** The search ends with a usable candidate that no other one beats, and only blocks that
    are not usable lose their place. *)
Lemma most_work_loop_spec : forall fuel t tip, shaped t -> chain_of (heap_of t) tip (chainActive t) -> usable t tip ->
  (forall p, p ∈ setBlockIndexCandidates t -> linked t p) -> (size (setBlockIndexCandidates t) <= fuel)%nat ->
  exists u r, most_work_loop fuel t = Ok (u, r) /\ searched t u /\
    match r with
    | None => setBlockIndexCandidates u = ∅
    | Some p => p ∈ setBlockIndexCandidates u /\ usable u p /\ forall q, q ∈ setBlockIndexCandidates u -> work u q <= work u p
    end.
Proof.
  induction fuel as [|fuel IH]; intros t tip S Hc U Hl Hs; cbn [most_work_loop]; pose proof (best_candidate_spec t S) as Hb; destruct (best_candidate t) as [p|].
  2, 4: by exists t, None.
  { destruct Hb as [Hp _]. assert (size (setBlockIndexCandidates t) = 0%nat) as E by lia. apply size_empty_inv in E. set_solver. }
  destruct Hb as [Hp Hmax]. pose proof (Hl p Hp) as Lp. destruct (find_unusable_spec t tip S Hc U (Datatypes.S (Z.to_nat (tree_height t p))) p Lp ltac:(lia)) as (r & -> & Hr).
  cbn [res_bind]. destruct r as [b|]; [|by exists t, (Some p)]. destruct Hr as [Hpb Hg].
  set (fl := negb _). set (v := if fl then _ else _). assert (searched t v) as Rv by (unfold v; destruct fl; [apply best_invalid_searched|done]).
  assert (mapBlockIndex v = mapBlockIndex t) as Ev by (unfold v, best_invalid; by repeat case_match). pose proof (proj1 (sr_marked _ _ Rv)) as Es.
  destruct (drop_unusable_spec fl b (Datatypes.S (Z.to_nat (tree_height t p))) v p) as (w & -> & Rw & Hnp).
  { by eapply shaped_shape. } { apply (known_shape t v p Es), Lp. } { by apply (anc_shape t v p b Es). } { intros G. by apply Hg, (sr_marked _ _ Rv). }
  { rewrite <- (tree_height_shape t v p Es). lia. }
  cbn [res_bind]. assert (searched t (erase_candidate w b)) as R.
  { transitivity w; [by transitivity v|]. apply erase_searched. intros Ub. specialize (Ub b (anc_refl _ _)). apply Hg, (sr_marked _ _ Rv), (sr_marked _ _ Rw), Ub. }
  set (x := erase_candidate w b) in *. pose proof (proj1 (sr_marked _ _ R)) as Ex.
  destruct (IH x tip) as (u & r & -> & Ru & Hu).
  - by eapply shaped_shape.
  - rewrite (sr_chain _ _ R). by eapply chain_shape.
  - by apply (sr_usable _ _ R).
  - intros q Hq. apply (linked_shape t x q Ex), Hl, (sr_sub _ _ R), Hq.
  - assert (setBlockIndexCandidates x ⊂ setBlockIndexCandidates t) as Hlt%subset_size; [|lia].
    split; [apply R|]. intros Hsub. specialize (Hsub p Hp). unfold x in Hsub. cbn in Hsub. apply elem_of_difference in Hsub as [Hin Hnb].
    apply Hnp; [|done]. intros ->. set_solver.
  - exists u, r. split; [done|]. split; [by transitivity x|done].
Qed.
End Search.

(** ** Lemmas: the coins and the tip *)

Section Tip.
Context {C : Type} `{ChainState C} {start : C} `{!ChainStateLaws (C := C)}.
Implicit Types (t u : BlockTree C) (p q tip top : ptr).
#[local] Abbreviation coins_at := (coins_at start).
#[local] Abbreviation base := (base start).
#[local] Abbreviation core := (core start).
#[local] Abbreviation mark := (mark start).

Lemma coins_at_fun t p c c' : coins_at t p c -> coins_at t p c' -> c = c'.
Proof. intros E; revert c'; induction E as [p c Hr Hc|p q c c' Hp _ IH Hc]; intros d Ed; destruct Ed as [? ? Hr' Hc'|? ? ? ? Hp' Hd Hc']; try congruence. rewrite Hp in Hp'. injection Hp' as <-. apply IH in Hd as ->. congruence. Qed.
Lemma coins_at_shape t u p c : same_shape t u -> coins_at t p c -> coins_at u p c.
Proof.
  intros E. induction 1 as [p c Hr Hc|p q c c' Hp _ IH Hc]; rewrite (tree_prev_shape t u p E) in *; [by apply coins_root|by eapply coins_child].
Qed.
Lemma coins_at_anc t p q c : coins_at t p c -> anc t p q -> exists c', coins_at t q c'.
Proof.
  intros Hc Ha. revert p q Ha c Hc. refine (anc_ind t _ _ _); [by eauto|]. intros p r q Hr _ IH c Hc. inversion Hc; subst; [congruence|].
  apply (IH c0). congruence.
Qed.

Lemma base_searched t u tip : searched t u -> base t tip -> base u tip.
Proof.
  intros R B. pose proof (sr_marked _ _ R) as (E & _ & L). split.
  - eapply shaped_shape, B; done.
  - rewrite (sr_chain _ _ R). eapply chain_shape, B; done.
  - apply (linked_shape t u tip E), B.
  - rewrite (sr_coins _ _ R). eapply coins_at_shape, B; done.
  - intros p Hp. apply (linked_shape t u p E), B, (sr_sub _ _ R), Hp.
  - intros p Hp. rewrite L. apply B. by apply (linked_shape t u p E).
Qed.
Lemma core_searched t u tip : searched t u -> core t tip -> core u tip.
Proof. intros R [B U]. split; [by eapply base_searched|by apply (sr_usable _ _ R)]. Qed.
Lemma mark_searched t u tip top : searched t u -> mark t tip top -> mark u tip top.
Proof.
  intros R M. pose proof (sr_marked _ _ R) as Ma. pose proof (proj1 Ma) as E. split.
  - apply (sr_dropped _ _ R); apply M.
  - apply (sr_usable _ _ R), M.
  - destruct (mk_coins _ _ _ _ M) as [c Hc]. exists c. by eapply coins_at_shape.
  - rewrite <- !(work_shape t u _ E). apply M.
  - intros p Hp. rewrite <- !(work_shape t u _ E). intros Hw. apply (connectable_marked t u p Ma) in Hp.
    apply (sr_dropped _ _ R); [apply Hp|by apply (mk_complete _ _ _ _ M)].
Qed.

(** Moving the tip to a block of the index. *)
Lemma base_move t tip p c : base t tip -> linked t p -> coins_at t p c -> base (UpdateTip t (Some p) c) p.
Proof.
  intros B L Hc. split; [eapply (shaped_shape t); [done|apply B]| |done|by apply (coins_at_shape t)|exact (ba_candidates _ _ _ B)|exact (ba_level _ _ _ B)].
  apply (SetTip_chain (heap_of t)); [apply B|apply B|right; exists tip; apply B|apply known_heap, L].
Qed.
Lemma mark_move t tip top p v c : mark t tip top -> work t p <= work t top -> mark (with_chain t v c) p top.
Proof.
  intros M Hw. split; [exact (mk_candidate _ _ _ _ M)|exact (mk_usable _ _ _ _ M)| |done|exact (mk_complete _ _ _ _ M)]. destruct (mk_coins _ _ _ _ M) as [d Hd]. exists d. by apply (coins_at_shape t).
Qed.
Lemma base_tip t tip : base t tip -> active_tip t = Some tip.
Proof. intros B. eapply Tip_chain; apply B. Qed.

(** Marking a block that is not below the tip. *)
Lemma fail_base t tip p bits : bits = BLOCK_FAILED_VALID \/ bits = BLOCK_FAILED_CHILD -> base t tip -> base (erase_candidate (add_status t p bits) p) tip.
Proof.
  intros Hb B. destruct (add_status_marked t p bits Hb) as (E & _ & L). change (same_shape t (erase_candidate (add_status t p bits) p)) in E. split.
  - apply (shaped_shape t _ E), B.
  - apply (chain_shape t _ _ _ E), B.
  - apply (linked_shape t _ tip E), B.
  - apply (coins_at_shape t _ _ _ E), B.
  - intros q Hq. cbn in Hq. apply (linked_shape t _ q E), B. set_solver.
  - intros q Hq. change (status_of (erase_candidate (add_status t p bits) p) q) with (status_of (add_status t p bits) q). rewrite L. apply B. by apply (linked_shape t _ q E).
Qed.
Lemma fail_core t tip p bits : bits = BLOCK_FAILED_VALID \/ bits = BLOCK_FAILED_CHILD -> core t tip -> ~ anc t tip p -> core (erase_candidate (add_status t p bits) p) tip.
Proof. intros Hb [B U] Hn. split; [by apply fail_base|]. by apply (add_status_usable t p tip bits U). Qed.
Lemma fail_mark t tip top p bits : bits = BLOCK_FAILED_VALID \/ bits = BLOCK_FAILED_CHILD -> mark t tip top -> ~ anc t top p ->
  mark (erase_candidate (add_status t p bits) p) tip top.
Proof.
  intros Hb M Hn. pose proof (add_status_marked t p bits Hb) as Ma. pose proof (proj1 Ma) as E. split.
  - cbn. apply elem_of_difference. split; [apply M|]. intros ->%elem_of_singleton. apply Hn, anc_refl.
  - apply (add_status_usable t p top bits); [apply M|done].
  - destruct (mk_coins _ _ _ _ M) as [d Hd]. exists d. by apply (coins_at_shape t).
  - change (work (add_status t p bits) tip <= work (add_status t p bits) top). rewrite <- !(work_shape t _ _ E). apply M.
  - intros q Hq. change (work (add_status t p bits) top < work (add_status t p bits) q -> q ∈ setBlockIndexCandidates t ∖ {[p]}).
    rewrite <- !(work_shape t _ _ E). intros Hw. change (connectable (add_status t p bits) q) in Hq.
    apply elem_of_difference. split; [apply (mk_complete _ _ _ _ M); [by apply (connectable_marked t _ q Ma)|done]|].
    intros ->%elem_of_singleton. destruct Hq as [L U]. destruct (U p (anc_refl _ _)) as [G _]. apply G, add_status_failed; [done|]. by apply (known_shape t _ p E), L.
Qed.
Lemma fail_marked t p bits : bits = BLOCK_FAILED_VALID \/ bits = BLOCK_FAILED_CHILD -> known t p ->
  marked t (erase_candidate (add_status t p bits) p) /\ ~ good (erase_candidate (add_status t p bits) p) p.
Proof. intros Hb Hk. split; [by apply (add_status_marked t p bits)|]. intros [G _]. by apply G, (add_status_failed t p bits). Qed.

(** *** Leaving the set of candidates *)

Lemma prune_loop_spec t tip : shaped t -> forall l s, prune_loop t tip l s ⊆ s /\ forall q, q ∈ s -> work t tip <= work t q -> q ∈ prune_loop t tip l s.
Proof.
  intros S. induction l as [|p l IH]; intros s; cbn; [done|]. rewrite work_lt by done. destruct (_ && _) eqn:E; [|done]. zbool.
  destruct (IH (s ∖ {[p]})) as [I1 I2]. split; [set_solver|]. intros q Hq Hw. apply I2; [|done]. apply elem_of_difference. split; [done|]. intros ->%elem_of_singleton. lia.
Qed.
Lemma prune_spec t tip p : shaped t -> active_tip t = Some tip -> p ∈ setBlockIndexCandidates t -> work t tip <= work t p ->
  exists s, PruneBlockIndexCandidates t = Ok (with_candidates t s) /\ s ⊆ setBlockIndexCandidates t /\
    forall q, q ∈ setBlockIndexCandidates t -> work t tip <= work t q -> q ∈ s.
Proof.
  intros S Ht Hp Hw. unfold PruneBlockIndexCandidates. rewrite Ht.
  destruct (prune_loop_spec t tip S (merge_sort (sorts_before t) (elements (setBlockIndexCandidates t))) (setBlockIndexCandidates t)) as [Hs Hk].
  set (s := prune_loop _ _ _ _) in *. rewrite bool_decide_eq_false_2 by (specialize (Hk p Hp Hw); set_solver). by exists s.
Qed.

(** *** One block back *)

Lemma intact_shape t u : same_shape t u -> intact t -> intact u.
Proof. intros E I p c L. apply I. by apply (linked_shape t u p E). Qed.

Lemma core_sound t tip : core t tip -> sound start t.
Proof. intros K. exists tip, (coinsTip t). destruct t. split; [done|by left]. Qed.

Lemma DisconnectTip_spec t tip q : base t tip -> tree_prev t tip = Some q ->
  exists v c ok, DisconnectTip t = Ok (with_chain t v c, ok) /\
    if ok : bool then base (with_chain t v c) q
    else v = chainActive t /\ (c = coinsTip t /\ DisconnectBlock_ tip c = None \/ FlushStateToDisk c = false).
Proof.
  intros B Eq. unfold DisconnectTip. rewrite (base_tip t tip B). pose proof (ba_coins _ _ _ B) as Hc. inversion Hc as [|? q' d ? Eq' Hd Hcon]; subst; [congruence|].
  rewrite Eq in Eq'. injection Eq' as <-. destruct (DisconnectBlock_ tip (coinsTip t)) as [e|] eqn:Ed.
  - rewrite (disconnect_connected _ _ _ _ Hcon Ed) in *. destruct (FlushStateToDisk d) eqn:Ef; cbn [negb].
    + rewrite Eq. exists (SetTip (heap_of t) (chainActive t) (Some q)), d, true. split; [done|].
      apply (base_move t tip); [done| |done]. split; [by eapply prev_height_tree, Eq; apply B|]. eapply sh_link; [apply B|done|apply B].
    + exists (chainActive t), d, false. split; [done|]. split; [done|]. by right.
  - exists (chainActive t), (coinsTip t), false. destruct t. split; [done|]. split; [done|]. by left.
Qed.

Lemma disconnect_loop_spec f : forall fuel t tip, base t tip -> anc t tip f -> (Z.to_nat (tree_height t tip - tree_height t f) <= fuel)%nat ->
  exists v c ok, disconnect_loop fuel t (Some f) = Ok (with_chain t v c, ok) /\
    if ok : bool then base (with_chain t v c) f else exists a d, base (with_chain t v d) a /\ anc t tip a /\ (c = d \/ FlushStateToDisk c = false).
Proof.
  induction fuel as [|fuel IH]; intros t tip B Ha Hf; cbn [disconnect_loop]; rewrite (base_tip t tip B); pose proof (ba_shape _ _ _ B) as S;
    (case_bool_decide as E; [injection E as <-; exists (chainActive t), (coinsTip t), true; by destruct t|]); destruct (anc_height t tip f S (proj1 (ba_linked _ _ _ B)) Ha) as [Hh Heq].
  - destruct E. f_equal. apply Heq. lia.
  - destruct (anc_inv t tip f Ha) as [->|(q & Eq & Hq)]; [done|]. destruct (DisconnectTip_spec t tip q B Eq) as (v & c & ok & -> & B'). cbn [res_bind fst snd].
    destruct ok.
    + destruct (prev_height_tree t tip q S Eq) as [_ Hqh].
      destruct (IH _ q B' Hq) as (v' & d & ok & -> & B''); [change (Z.to_nat (tree_height t q - tree_height t f) <= fuel)%nat; lia|].
      exists v', d, ok. split; [done|]. destruct ok; [done|]. destruct B'' as (a & e & Ba & Hqa & He). exists a, e. split; [done|]. split; [|done].
      apply (anc_trans t tip q a); [by apply anc_prev|exact Hqa].
    + destruct B' as [-> Hc]. exists (chainActive t), c, false. split; [done|]. exists tip, (coinsTip t). split; [by destruct t|]. split; [apply anc_refl|].
      destruct Hc as [[-> _]|]; auto.
Qed.
End Tip.

(** ** Lemmas: climbing to a candidate *)

Section Climb.
Context {C : Type} `{ChainState C} {start : C} `{!ChainStateLaws (C := C)}.
Implicit Types (t u : BlockTree C) (p q tip top goal : ptr).
#[local] Abbreviation core := (core start).
#[local] Abbreviation mark := (mark start).

(** [goal] is the candidate that the search found, and it is still the best one. *)
Record climb t tip top goal : Prop := {
  cl_core : core t tip;
  cl_mark : mark t tip top;
  cl_candidate : goal ∈ setBlockIndexCandidates t;
  cl_usable : usable t goal;
  cl_intact : intact t;
  cl_best : forall p, p ∈ setBlockIndexCandidates t -> work t p <= work t goal
}.
Lemma climb_shape t tip top goal : climb t tip top goal -> shaped t.
Proof. intros K. apply (proj1 (cl_core _ _ _ _ K)). Qed.
Lemma climb_goal t tip top goal : climb t tip top goal -> linked t goal.
Proof. intros K. apply (proj1 (cl_core _ _ _ _ K)), (cl_candidate _ _ _ _ K). Qed.
Lemma climb_work t tip top goal : climb t tip top goal -> work t tip <= work t goal.
Proof. intros K. pose proof (cl_mark _ _ _ _ K) as M. pose proof (mk_work _ _ _ _ M). pose proof (cl_best _ _ _ _ K top (mk_candidate _ _ _ _ M)). lia. Qed.

(** The tip reaches a block that is at least as good as [top], or stays below it. *)
Lemma climb_move t tip top goal p v c : climb t tip top goal -> base start (with_chain t v c) p -> anc t goal p ->
  exists s, PruneBlockIndexCandidates (with_chain t v c) = Ok (with_candidates (with_chain t v c) s) /\ exists top', climb (with_candidates (with_chain t v c) s) p top' goal.
Proof.
  intros K B Ha. pose proof (climb_shape _ _ _ _ K) as S. pose proof (climb_goal _ _ _ _ K) as L. set (u := with_chain t v c) in *.
  pose proof (cl_mark _ _ _ _ K) as M. pose proof (ba_shape _ _ _ B) as Su. destruct (anc_work t goal p S Ha) as [Hw _].
  destruct (prune_spec u p goal Su (base_tip u p B) (cl_candidate _ _ _ _ K) Hw) as (s & Hs & Hsub & Hkeep). exists s. split; [done|].
  set (w := with_candidates u s). assert (connectable t p) as Cp by (apply (connectable_anc t goal); [done|split; [done|apply K]|done]).
  assert (core w p) as Co.
  { split; [|exact (proj2 Cp)]. split; [by eapply (shaped_shape u)|apply B|apply B|eapply (coins_at_shape u); [done|apply B]| |exact (ba_level _ _ _ B)].
    intros q Hq. apply (ba_candidates _ _ _ B), Hsub, Hq. }
  assert (forall q, q ∈ s -> work t q <= work t goal) as Hbest by (intros q Hq; by apply (cl_best _ _ _ _ K), Hsub).
  assert (goal ∈ s) as Hg by (apply Hkeep; [exact (cl_candidate _ _ _ _ K)|exact Hw]).
  destruct (Z.le_gt_cases (work t p) (work t top)) as [Hle|Hgt].
  - exists top. split; [done| |done|exact (cl_usable _ _ _ _ K)|exact (cl_intact _ _ _ _ K)|done]. split.
    + apply Hkeep; [apply M|done].
    + exact (mk_usable _ _ _ _ M).
    + destruct (mk_coins _ _ _ _ M) as [d Hd]. exists d. by apply (coins_at_shape t).
    + done.
    + intros q Cq Hq. apply Hkeep; [by apply (mk_complete _ _ _ _ M)|]. change (work t top < work t q) in Hq. change (work t p <= work t q). lia.
  - exists p. split; [done| |done|exact (cl_usable _ _ _ _ K)|exact (cl_intact _ _ _ _ K)|done]. split.
    + apply Hkeep; [apply (mk_complete _ _ _ _ M); [done|lia]|change (work t p <= work t p); lia].
    + exact (proj2 Cp).
    + exists c. apply (coins_at_shape u); [done|apply B].
    + lia.
    + intros q Cq Hq. change (work t p < work t q) in Hq. apply Hkeep; [apply (mk_complete _ _ _ _ M); [done|lia]|]. change (work t p <= work t q). lia.
Qed.

(** What is known of the tree when a block turned out to be invalid: it has fewer good blocks. *)
Definition less_good t u : Prop := marked t u /\ exists x, good t x /\ ~ good u x.
Definition rests u : Prop := exists tip top, core u tip /\ mark u tip top.

Lemma ConnectTip_spec t tip top goal p : climb t tip top goal -> tree_prev t p = Some tip -> anc t goal p ->
  exists u o, ConnectTip t p = Ok (u, o) /\
    match o with
    | tip_connected => mapBlockIndex u = mapBlockIndex t /\ exists v, PruneBlockIndexCandidates u = Ok v /\ mapBlockIndex v = mapBlockIndex t /\ exists top', climb v p top' goal
    | tip_invalid corruption => corruption = false /\ less_good t u /\ rests u
    | tip_error => exists c, u = with_chain t (chainActive t) c /\ (c = coinsTip t \/ unwritten u)
    end.
Proof.
  intros K Ep Ha. pose proof (climb_shape _ _ _ _ K) as S. pose proof (climb_goal _ _ _ _ K) as L. destruct (cl_core _ _ _ _ K) as [B U].
  pose proof (cl_mark _ _ _ _ K) as M. assert (linked t p) as Lp by (by eapply anc_linked).
  unfold ConnectTip. rewrite (base_tip t tip B), Ep, bool_decide_eq_true_2 by done. destruct (ConnectBlock p (coinsTip t)) as [c|[]|] eqn:Ec.
  - destruct (FlushStateToDisk c) eqn:Ef; cbn [negb]; [|exists (with_chain t (chainActive t) c), tip_error; split; [done|]; exists c; split; [done|]; by right].
    exists (UpdateTip t (Some p) c), tip_connected. split; [done|]. split; [done|].
    assert (coins_at start t p c) as Hc by (eapply coins_child; [done|apply B|done]).
    destruct (climb_move t tip top goal p (SetTip (heap_of t) (chainActive t) (Some p)) c K) as (s & Hs & Hk); [by apply (base_move t tip)|done|]. by eexists.
  - by apply (cl_intact _ _ _ _ K p (coinsTip t) Lp) in Ec.
  - unfold InvalidBlockFound. destruct (fail_marked t p BLOCK_FAILED_VALID ltac:(auto) (proj1 Lp)) as [Ma Hg].
    assert (~ anc t tip p) as Htip.
    { intros Hn. destruct (anc_height t tip p S (proj1 (ba_linked _ _ _ B)) Hn). destruct (prev_height_tree t p tip S Ep). lia. }
    assert (~ anc t top p) as Htop.
    { destruct (mk_coins _ _ _ _ M) as [d Hd]. intros Hn. destruct (coins_at_anc t top p d Hd Hn) as [e He].
      inversion He as [|? q b ? Eq Hb Hcon]; subst; [congruence|]. rewrite Ep in Eq. injection Eq as <-.
      rewrite (coins_at_fun t tip b (coinsTip t) Hb (ba_coins _ _ _ B)) in Hcon. congruence. }
    pose proof (fail_core t tip p BLOCK_FAILED_VALID ltac:(auto) (conj B U) Htip) as Co. pose proof (fail_mark t tip top p BLOCK_FAILED_VALID ltac:(auto) M Htop) as Mo.
    set (u := erase_candidate _ p) in *. pose proof (best_invalid_searched u p) as R. exists (best_invalid u p), (tip_invalid false).
    unfold InvalidChainFound. rewrite (base_tip u tip (proj1 Co)). split; [done|]. split; [done|]. split.
    + split; [by transitivity u; [|apply R]|]. exists p. split; [by apply (cl_usable _ _ _ _ K)|]. intros G. by apply Hg, (sr_marked _ _ R).
    + exists tip, top. split; [by apply (core_searched u)|by apply (mark_searched u)].
  - exists t, tip_error. split; [done|]. exists (coinsTip t). destruct t. split; [done|]. by left.
Qed.

(** A line of blocks from [a], exclusive, to [b]. *)
Fixpoint path t a (l : list ptr) b : Prop := match l with [] => a = b | p :: l => tree_prev t p = Some a /\ path t p l b end.
Lemma path_snoc t a l b p : path t a l b -> tree_prev t p = Some b -> path t a (l ++ [p]) p.
Proof. revert a; induction l as [|x l IH]; cbn; intros a; [intros -> ?; done|]. intros [? ?] ?. auto. Qed.
Lemma path_anc t a l b : path t a l b -> anc t b a.
Proof. revert a; induction l as [|x l IH]; cbn; intros a; [intros ->; apply anc_refl|]. intros [Hx Hl]. eapply anc_trans; [by apply IH|by apply anc_prev]. Qed.
Lemma path_index t u a l b : mapBlockIndex u = mapBlockIndex t -> path t a l b -> path u a l b.
Proof. intros E. revert a; induction l as [|x l IH]; cbn; intros a; [done|]. unfold tree_prev. rewrite E. intros [? ?]; auto. Qed.
Lemma collect_path t a q : shaped t -> known t q -> anc t q a -> forall n, tree_height t q - tree_height t a <= Z.of_nat n ->
  exists l, collect_blocks n t (Some q) (tree_height t a) = rev l /\ path t a l q /\ (l = [] -> q = a).
Proof.
  intros S Hq Ha n. revert q Ha Hq. induction n as [|n IH]; intros q Ha Hq Hn; destruct (anc_height t q a S Hq Ha) as [Hh He]; cbn.
  { exists []. rewrite (He ltac:(lia)). done. }
  destruct (_ =? _) eqn:E; zbool; [exists []; rewrite (He ltac:(lia)); done|]. destruct (anc_inv t q a Ha) as [->|(r & Er & Hr)]; [done|]. rewrite Er.
  destruct (prev_height_tree t q r S Er) as [Hk Hrh]. destruct (IH r Hr Hk ltac:(lia)) as (l & -> & Hl & _).
  exists (l ++ [q]). rewrite rev_app_distr. split; [done|]. split; [by eapply path_snoc|]. by destruct l.
Qed.
End Climb.

(** ** Lemmas: the steps of the activation *)

Section Activate.
Context {C : Type} `{ChainState C} {start : C} `{!ChainStateLaws (C := C)}.
Implicit Types (t u : BlockTree C) (p q tip top goal : ptr).
#[local] Abbreviation core := (core start).
#[local] Abbreviation mark := (mark start).
#[local] Abbreviation climb := (climb (start := start)).
#[local] Abbreviation rests := (rests (start := start)).

(** How a run that climbs from [tip] may end, with [done_at] for the block where it is done. *)
Definition run_result t u (o : step_outcome) (done_at better_at : ptr -> Prop) goal : Prop :=
  match o with
  | batch_done => mapBlockIndex u = mapBlockIndex t /\ exists a top, done_at a /\ climb u a top goal
  | better_tip => mapBlockIndex u = mapBlockIndex t /\ exists a top, better_at a /\ climb u a top goal
  | invalid_found => less_good t u /\ rests u
  | step_failed => marked t u /\ sound start u
  end.
Lemma run_result_index t t' u o D D' B B' goal : mapBlockIndex t' = mapBlockIndex t -> (forall a, D a -> D' a) -> (forall a, B a -> B' a) ->
  run_result t' u o D B goal -> run_result t u o D' B' goal.
Proof.
  intros E HD HB. destruct o; cbn.
  - intros (-> & a & top & ? & ?). split; [done|]. exists a, top. auto.
  - intros (-> & a & top & ? & ?). split; [done|]. exists a, top. auto.
  - intros ((Ma & x & Hx & Hn) & ?). split; [|done]. split; [by transitivity t'; [apply same_index_marked|]|]. exists x. split; [|done].
    unfold good, failed, status_of, field in *. by rewrite <- E.
  - intros [Ma ?]. split; [|done]. by transitivity t'; [apply same_index_marked|].
Qed.

Lemma anc_index t u p q : mapBlockIndex u = mapBlockIndex t -> anc t p q -> anc u p q.
Proof. intros E [k Hk]. exists k. unfold heap_of in *. by rewrite E. Qed.
Lemma height_index t u p : mapBlockIndex u = mapBlockIndex t -> tree_height u p = tree_height t p.
Proof. intros E. unfold tree_height, field. by rewrite E. Qed.

Lemma connect_blocks_spec w first goal : forall l t tip top b, climb t tip top goal -> path t tip l b -> anc t goal b ->
  exists u o, connect_blocks t w first l = Ok (u, o) /\ run_result t u o (fun a => a = b) (fun a => anc t goal a /\ tree_height t tip < tree_height t a) goal.
Proof.
  induction l as [|p l IH]; intros t tip top b K Hp Ha; cbn [connect_blocks].
  { exists t, batch_done. split; [done|]. split; [done|]. by exists tip, top. }
  cbn in Hp. destruct Hp as [Ep Hp]. assert (anc t goal p) as Hgp by (eapply anc_trans; [done|by eapply path_anc]).
  destruct (ConnectTip_spec t tip top goal p K Ep Hgp) as (u & o & -> & Ho). cbn [res_bind fst snd]. destruct o as [|co|].
  - destruct Ho as (Eu & v & -> & Ev & top' & Kv). cbn [res_bind]. rewrite (base_tip v p (proj1 (cl_core _ _ _ _ Kv))).
    destruct (prev_height_tree t p tip (climb_shape _ _ _ _ K) Ep) as [_ Hh]. destruct (match w with Some _ => _ | None => _ end).
    + exists v, better_tip. split; [done|]. split; [done|]. exists p, top'. split; [|done]. split; [done|lia].
    + destruct (IH v p top' b Kv (path_index t v p l b Ev Hp) (anc_index t v goal b Ev Ha)) as (x & o & -> & Ho). exists x, o. split; [done|].
      revert Ho. apply run_result_index; [done|done|]. intros a [Hga Hlt]. rewrite !(height_index t v _ Ev) in Hlt. split; [by apply (anc_index v t)|lia].
  - destruct Ho as (-> & Lg & a & top' & Co & M). unfold InvalidChainFound. rewrite (base_tip u a (proj1 Co)). cbn [res_bind].
    pose proof (best_invalid_searched u first) as R. exists (best_invalid u first), invalid_found. split; [done|]. destruct Lg as (Ma & x & Hx & Hn). split.
    + split; [by transitivity u; [|apply R]|]. exists x. split; [done|]. intros G. by apply Hn, (sr_marked _ _ R).
    + exists a, top'. split; [by apply (core_searched u)|by apply (mark_searched u)].
  - destruct Ho as (c & -> & Hc). exists (with_chain t (chainActive t) c), step_failed. split; [done|]. split; [by apply same_index_marked|].
    exists tip, (coinsTip t). destruct t. split; [apply K|]. destruct Hc as [->|]; auto.
Qed.

Lemma connect_batches_spec w goal : forall fuel t tip top, climb t tip top goal -> anc t goal tip ->
  (Z.to_nat (tree_height t goal - tree_height t tip) < fuel)%nat ->
  exists u o, connect_batches fuel t w goal (tree_height t tip) = Ok (u, o) /\
    run_result t u o (fun a => a = goal) (fun a => anc t goal a /\ tree_height t tip < tree_height t a) goal.
Proof.
  induction fuel as [|fuel IH]; intros t tip top K Ha Hf; [lia|]. cbn [connect_batches]. pose proof (climb_shape _ _ _ _ K) as S. pose proof (climb_goal _ _ _ _ K) as L.
  destruct (anc_height t goal tip S (proj1 L) Ha) as [Hh He]. pose proof (anc_known t goal tip S (proj1 L) Ha) as Hk. pose proof (height_nonneg t tip S Hk) as H0.
  destruct (_ =? _) eqn:E; zbool.
  { exists t, batch_done. split; [done|]. split; [done|]. exists tip, top. split; [|done]. symmetry. apply He. lia. }
  set (target := Z.min _ _). pose proof (proj1 L) as Lk. apply known_heap in Lk as Lh. rewrite GetAncestor_eq, height_heap by (done || apply S).
  rewrite !(proj2 (Z.leb_le _ _)) by lia. cbn [andb].
  destruct (up_Some _ (Z.to_nat (tree_height t goal - target)) goal (sh_wf _ S) (sh_rooted _ S) Lh) as [q Hq]; [rewrite height_heap; lia|].
  rewrite Hq. destruct (anc_range t goal q _ S Lk Hq) as [Hqk Hqh]. assert (anc t goal q) as Hgq by (by eexists).
  assert (anc t q tip) as Hqt by (apply (anc_line t goal); [done|done|done|done|lia]).
  destruct (collect_path t tip q S Hqk Hqt 33 ltac:(lia)) as (l & -> & Hl & Hnil). rewrite rev_involutive.
  destruct l as [|first l]; [specialize (Hnil eq_refl) as ->; lia|].
  destruct (connect_blocks_spec w first goal (first :: l) t tip top q K Hl Hgq) as (u & o & -> & Ho). cbn [res_bind fst snd].
  destruct o; [|by exists u, better_tip|by exists u, invalid_found|by exists u, step_failed].
  destruct Ho as (Eu & a & top' & -> & Ku). replace target with (tree_height u q) by (rewrite (height_index t u q Eu); lia).
  destruct (IH u q top' Ku (anc_index t u goal q Eu Hgq)) as (v & o & -> & Ho); [rewrite !(height_index t u _ Eu); lia|].
  exists v, o. split; [done|]. revert Ho. apply run_result_index; [done|done|]. intros a [Hga Hlt]. rewrite !(height_index t u _ Eu) in Hlt. split; [by apply (anc_index u t)|lia].
Qed.

(** Two blocks of the tree have a common ancestor. *)
Lemma fork_exists t tip goal : shaped t -> chain_of (heap_of t) tip (chainActive t) -> known t goal ->
  exists f, FindFork (heap_of t) (chainActive t) (Some goal) = Some f /\ anc t goal f /\ anc t tip f /\ (anc t goal tip -> f = tip).
Proof.
  intros S Hc Hg. assert (known t tip) as Ht by (apply known_heap, Hc). pose proof (FindFork_spec _ tip _ goal (sh_wf _ S) (sh_rooted _ S) Hc (proj2 (known_heap t goal) Hg)) as Hs.
  assert (forall x, known t x -> Contains (heap_of t) (chainActive t) x = true <-> anc t tip x) as Hact by (intros x; by apply active_anc).
  destruct (FindFork _ _ _) as [f|].
  - destruct Hs as (k & Hk & Hf & Hmin). exists f. split; [done|]. assert (anc t goal f) as Hgf by (by exists k). pose proof (anc_known t goal f S Hg Hgf) as Hkf.
    pose proof (proj1 (Hact f Hkf) Hf) as Htf. split_and!; [done|done|]. intros [j Hj]. destruct (anc_range t goal f k S Hg Hk) as [_ H1], (anc_range t goal tip j S Hg Hj) as [_ H2].
    destruct (anc_height t tip f S Ht Htf) as [H3 H4]. destruct (decide (j < k)%nat) as [Hjk|]; [|symmetry; apply H4; lia].
    exfalso. pose proof (Hmin j tip Hjk Hj) as Hno. apply not_true_iff_false in Hno. apply Hno, Hact; [done|apply anc_refl].
  - exfalso. pose proof (height_nonneg t goal S Hg). pose proof (height_nonneg t tip S Ht).
    destruct (anc_at_height t goal 0 S Hg ltac:(lia)) as (r & Hr & Hr0), (anc_at_height t tip 0 S Ht ltac:(lia)) as (r' & Hr' & Hr0').
    pose proof (anc_known _ _ _ S Hg Hr) as Kr. pose proof (anc_known _ _ _ S Ht Hr') as Kr'. assert (r = r') as <- by (by apply (sh_root _ S)).
    destruct Hr as [k Hk]. specialize (Hs k r Hk). apply not_true_iff_false in Hs. by apply Hs, Hact.
Qed.

Lemma ActivateBestChainStep_spec t tip top goal : climb t tip top goal ->
  exists u ok inv, ActivateBestChainStep t goal = Ok (u, ok, inv) /\
    if ok then
      if inv : bool then less_good t u /\ rests u
      else mapBlockIndex u = mapBlockIndex t /\ exists a top', climb u a top' goal /\ anc t goal a /\ (anc t goal tip -> tip <> goal -> tree_height t tip < tree_height t a)
    else marked t u /\ sound start u.
Proof.
  intros K. pose proof (climb_shape _ _ _ _ K) as S. pose proof (climb_goal _ _ _ _ K) as L. destruct (cl_core _ _ _ _ K) as [B U]. pose proof (cl_mark _ _ _ _ K) as M.
  unfold ActivateBestChainStep. destruct (fork_exists t tip goal S (ba_chain _ _ _ B) (proj1 L)) as (f & -> & Hgf & Htf & Hft).
  destruct (disconnect_loop_spec f (length (chainActive t)) t tip B Htf) as (v & c & ok & -> & Bu).
  { destruct (ba_chain _ _ _ B) as (_ & Hl & _). rewrite height_heap in Hl. pose proof (height_nonneg t f S (anc_known t tip f S (proj1 (ba_linked _ _ _ B)) Htf)). lia. }
  cbn [res_bind fst snd]. set (u := with_chain t v c) in *. destruct (anc_work t tip f S Htf) as [Hw _]. destruct ok; cbn [negb].
  2:{ exists u, false, false. split; [done|]. split; [by apply same_index_marked|]. destruct Bu as (a & d & Ba & Hta & Hd). exists a, d.
      split; [|done]. split; [done|]. exact (usable_anc t tip a U Hta). }
  assert (climb u f top goal) as Ku.
  { split; [split; [done|exact (usable_anc t tip f U Htf)]| |exact (cl_candidate _ _ _ _ K)|exact (cl_usable _ _ _ _ K)|exact (cl_intact _ _ _ _ K)|exact (cl_best _ _ _ _ K)].
    apply (mark_move t tip); [done|]. pose proof (mk_work _ _ _ _ M). lia. }
  destruct (connect_batches_spec (work_of t <$> active_tip t) goal (Datatypes.S (Z.to_nat (tree_height u goal))) u f top Ku Hgf) as (x & o & -> & Ho).
  { pose proof (height_nonneg u f (climb_shape _ _ _ _ Ku) (proj1 (ba_linked _ _ _ Bu))). lia. }
  cbn [res_bind fst snd]. destruct o.
  - destruct Ho as (Ex & a & top' & -> & Kx). exists x, true, false. split; [done|]. split; [done|]. exists goal, top'. split; [done|]. split; [apply anc_refl|].
    intros Hgt Hne. destruct (anc_height t goal tip S (proj1 L) Hgt) as [H1 H2]. destruct (decide (tree_height t goal <= tree_height t tip)) as [Hle|]; [by destruct Hne; rewrite H2|lia].
  - destruct Ho as (Ex & a & top' & [Hga Hlt] & Kx). exists x, true, false. split; [done|]. split; [done|]. exists a, top'. split; [done|]. split; [done|].
    intros Hgt _. by rewrite <- (Hft Hgt).
  - by exists x, true, true.
  - by exists x, false, false.
Qed.
End Activate.

(** ** Lemmas: the loop of the activation *)

Section Loop.
Context {C : Type} `{ChainState C} {start : C} `{!ChainStateLaws (C := C)}.
Implicit Types (t u : BlockTree C) (p q tip top goal : ptr).
#[local] Abbreviation core := (core start).
#[local] Abbreviation mark := (mark start).
#[local] Abbreviation climb := (climb (start := start)).
#[local] Abbreviation tree_ok := (tree_ok start).

#[export] Instance good_dec t p : Decision (good t p).
Proof. unfold good, failed. apply _. Defined.
Definition good_blocks t : gset ptr := filter (good t) (dom (mapBlockIndex t)).

Lemma good_blocks_marked t u : marked t u -> good_blocks u ⊆ good_blocks t.
Proof.
  intros (E & G & _) p. unfold good_blocks. rewrite !elem_of_filter, !elem_of_dom. intros [Hg Hk]. split; [by apply G|]. by apply (known_shape t u p E).
Qed.
Lemma good_blocks_index t u : mapBlockIndex u = mapBlockIndex t -> size (good_blocks u) = size (good_blocks t).
Proof.
  intros E. f_equal. apply set_eq. intros p. unfold good_blocks, good, failed, status_of, field. rewrite !elem_of_filter. by rewrite E.
Qed.
Lemma good_blocks_less t u : less_good t u -> (size (good_blocks u) < size (good_blocks t))%nat.
Proof.
  intros (M & x & Hx & Hn). apply subset_size. split; [by apply good_blocks_marked|]. intros Hs. apply Hn.
  assert (x ∈ good_blocks t) as Hin by (unfold good_blocks; rewrite elem_of_filter, elem_of_dom; split; [done|by apply good_known]).
  apply Hs in Hin. unfold good_blocks in Hin. by apply elem_of_filter in Hin as [? _].
Qed.

Lemma max_height_spec t p : known t p -> tree_height t p <= max_height t.
Proof.
  intros [e He]. unfold tree_height, field, max_height. rewrite He. revert p e He. generalize (mapBlockIndex t). clear t.
  apply (map_fold_weak_ind (fun r m => forall p e, m !! p = Some e -> nHeight (node e) <= r)); [done|].
  intros i x m r Hi IH p e. rewrite lookup_insert_Some. intros [[_ ->]|[_ He]]; [lia|]. specialize (IH p e He). lia.
Qed.

Lemma climb_settles t tip top : climb t tip top tip -> mark t tip tip /\ settled_on t tip.
Proof.
  intros K. destruct (cl_core _ _ _ _ K) as [B U]. pose proof (cl_mark _ _ _ _ K) as M. pose proof (cl_best _ _ _ _ K top (mk_candidate _ _ _ _ M)) as Hle.
  assert (forall p, connectable t p -> work t p <= work t tip) as Hmax.
  { intros p Cp. destruct (Z.le_gt_cases (work t p) (work t top)); [lia|]. apply (cl_best _ _ _ _ K), (mk_complete _ _ _ _ M); [done|lia]. }
  split; [|split; [by eapply base_tip|done]]. split; [exact (cl_candidate _ _ _ _ K)|done| |lia|].
  - exists (coinsTip t). apply B.
  - intros p Cp Hp. specialize (Hmax p Cp). lia.
Qed.

(** What the result of the activation says. *)
Definition activated t u (ok : bool) : Prop := marked t u /\ sound start u /\ (ok = true -> exists tip, core u tip /\ mark u tip tip /\ settled_on u tip).
Lemma activated_marked t u v ok : marked t u -> activated u v ok -> activated t v ok.
Proof. intros M [? ?]. split; [by transitivity u|done]. Qed.
Definition cost (M : nat) t (goal : option (ptr * ptr)) : nat :=
  size (good_blocks t) * Datatypes.S (Datatypes.S M) + match goal with None => Datatypes.S M | Some (tip, g) => Z.to_nat (tree_height t g - tree_height t tip) end.

Lemma choose_spec t tip top : core t tip -> mark t tip top -> intact t ->
  exists u p, FindMostWorkChain t = Ok (u, Some p) /\ searched t u /\ climb u tip top p.
Proof.
  intros [B U] M I. destruct (most_work_loop_spec (size (setBlockIndexCandidates t)) t tip (ba_shape _ _ _ B) (ba_chain _ _ _ B) U (ba_candidates _ _ _ B) ltac:(lia)) as (u & r & E & R & Hr).
  pose proof (mark_searched t u tip top R M) as Mu. destruct r as [p|]; [|exfalso; pose proof (mk_candidate _ _ _ _ Mu); set_solver].
  exists u, p. split; [done|]. split; [done|]. destruct Hr as (H1 & H2 & H3). split; [by apply (core_searched t)|done|done|done| |done].
  apply (intact_shape t); [apply (sr_marked _ _ R)|done].
Qed.

(** The round of the loop, from the choice of the block on. *)
Lemma round_spec M fuel (Next : BlockTree C -> option ptr -> res tree_error (BlockTree C * bool)) t tip top goal c :
  (forall u p, known u p -> same_shape t u -> (Z.to_nat (tree_height u p) <= M)%nat) ->
  climb t tip top goal -> (match c with None => True | Some (a, g) => a = tip /\ g = goal /\ anc t goal tip end) -> (cost M t c <= Datatypes.S fuel)%nat ->
  (forall u a top', same_shape t u -> core u a -> mark u a top' -> (cost M u None <= fuel)%nat -> exists v ok, Next u None = Ok (v, ok) /\ activated u v ok) ->
  (forall u a top', same_shape t u -> climb u a top' goal -> anc u goal a -> a <> goal -> (cost M u (Some (a, goal)) <= fuel)%nat -> exists v ok, Next u (Some goal) = Ok (v, ok) /\ activated u v ok) ->
  tip <> goal ->
  exists v ok, (let! (t, ok, fInvalidFound) := ActivateBestChainStep t goal in
        if negb ok then Ok (t, false)
        else
          let pindexMostWork := if fInvalidFound then None else Some goal in
          if bool_decide (active_tip t = pindexMostWork) then Ok (t, FlushStateToDisk (coinsTip t)) else Next t pindexMostWork) = Ok (v, ok) /\ activated t v ok.
Proof.
  intros HM K Hc Hcost Hnone Hsome Hne. pose proof (climb_shape _ _ _ _ K) as S. pose proof (climb_goal _ _ _ _ K) as [Lk _].
  destruct (ActivateBestChainStep_spec t tip top goal K) as (u & ok & inv & -> & Hs). cbn [res_bind].
  destruct ok; cbn [negb]; [|destruct Hs as [Ma So]; exists u, false; split; [done|]; by split]. destruct inv.
  - destruct Hs as (Lg & a & top' & Co & Mu). rewrite (base_tip u a (proj1 Co)), bool_decide_eq_false_2 by done. pose proof (good_blocks_less t u Lg) as Hlt.
    destruct (Hnone u a top') as (v & ok & E & Av); [apply Lg|done|done|unfold cost in *; nia|]. exists v, ok. split; [done|]. by apply (activated_marked t u), Av; apply Lg.
  - destruct Hs as (Eu & a & top' & Ku & Hga & Hh). rewrite (base_tip u a (proj1 (cl_core _ _ _ _ Ku))). case_bool_decide as Ea.
    + injection Ea as ->. exists u, (FlushStateToDisk (coinsTip u)). split; [done|]. split; [by apply same_index_marked|]. split; [apply (core_sound u goal), Ku|].
      intros _. exists goal. split; [apply Ku|]. by apply (climb_settles u goal top').
    + pose proof (same_index_marked t u Eu) as (Es & _ & _). assert (anc u goal a) as Hua by (by apply (anc_index t)).
      destruct (Hsome u a top') as (v & ok & E & Av); [done|done|done|congruence| |exists v, ok; split; [done|]; apply (activated_marked t u); [by apply same_index_marked|done]]. unfold cost in *. rewrite (good_blocks_index t u Eu), !(height_index t u _ Eu).
      pose proof (HM t goal Lk ltac:(done)). pose proof (anc_known t goal a S Lk Hga) as Ka. pose proof (height_nonneg t a S Ka). pose proof (height_nonneg t goal S Lk).
      destruct c as [[b g]|]; [|nia]. destruct Hc as (-> & -> & Hgt). specialize (Hh Hgt Hne).
      destruct (anc_height t goal a S Lk Hga) as [Hha _]. lia.
Qed.

Lemma parent_has_less t p q : shaped t -> tree_prev t p = Some q -> CompareTo (work_of t p) (work_of t q) =? 0 = false.
Proof.
  intros S E. pose proof (sh_work _ S p q E) as Hw. unfold work in Hw. rewrite CompareTo_spec by apply S. by rewrite (proj2 (Z.compare_gt_iff _ _)) by lia.
Qed.

(** The rest of a round once the block is chosen. *)
Definition after_choice (fuel : nat) t goal : res tree_error (BlockTree C * bool) :=
  if bool_decide (Some goal = active_tip t) then Ok (t, true)
  else
    let! (t, ok, fInvalidFound) := ActivateBestChainStep t goal in
    if negb ok then Ok (t, false)
    else
      let pindexMostWork := if fInvalidFound then None else Some goal in
      if bool_decide (active_tip t = pindexMostWork) then Ok (t, FlushStateToDisk (coinsTip t))
      else match fuel with O => Err no_fuel | S fuel => activate_loop fuel t pindexMostWork end.
Lemma activate_loop_choice fuel t pm u p : match pm with None => FindMostWorkChain t | Some p => Ok (t, Some p) end = Ok (u, Some p) -> shaped u ->
  activate_loop fuel t pm = after_choice fuel u p.
Proof.
  intros E S. destruct fuel; cbn [activate_loop]; rewrite E; cbn [res_bind fst snd]; destruct (tree_prev u p) as [q|] eqn:Eq; [|done| |done]; by rewrite (parent_has_less u p q S Eq).
Qed.

Lemma activate_loop_spec M : forall fuel t tip top, (forall u p, known u p -> same_shape t u -> (Z.to_nat (tree_height u p) <= M)%nat) ->
  (core t tip -> mark t tip top -> intact t -> (cost M t None <= Datatypes.S fuel)%nat -> exists v ok, activate_loop fuel t None = Ok (v, ok) /\ activated t v ok) /\
  (forall goal, climb t tip top goal -> anc t goal tip -> tip <> goal -> (cost M t (Some (tip, goal)) <= Datatypes.S fuel)%nat ->
     exists v ok, activate_loop fuel t (Some goal) = Ok (v, ok) /\ activated t v ok).
Proof.
  intros fuel. induction fuel as [fuel IH] using lt_wf_ind. intros t tip top HM.
  assert (forall u goal c, same_shape t u -> climb u tip top goal -> (match c with None => True | Some (a, g) => a = tip /\ g = goal /\ anc u goal tip end) ->
    (cost M u c <= Datatypes.S fuel)%nat -> exists v ok, after_choice fuel u goal = Ok (v, ok) /\ activated u v ok) as Hround.
  { intros u goal c E K Hc Hcost. unfold after_choice. rewrite (base_tip u tip (proj1 (cl_core _ _ _ _ K))). case_bool_decide as Et.
    { injection Et as ->. exists u, true. split; [done|]. split; [done|]. split; [apply (core_sound u tip), K|]. intros _. exists tip. split; [apply K|]. by apply (climb_settles u tip top). }
    apply (round_spec M fuel (fun t pm => match fuel with O => Err no_fuel | S fuel => activate_loop fuel t pm end) u tip top goal c); try done.
    - intros w p Hk Ew. apply HM; [done|by transitivity u].
    - intros w a top' Ew Co Mw Hw. destruct fuel as [|fuel]; [unfold cost in Hw; lia|]. apply (IH fuel ltac:(lia) w a top'); [|done|done| |done]; [|by apply (intact_shape u); [|apply K]].
      intros x p Hk Ex. apply HM; [done|]. transitivity u; [done|]. by transitivity w.
    - intros w a top' Ew Kw Ha Hn Hw. pose proof (climb_shape _ _ _ _ Kw) as Sw. pose proof (climb_goal _ _ _ _ Kw) as [Lw _].
      destruct (anc_height w goal a Sw Lw Ha) as [H1 H2]. assert (tree_height w a < tree_height w goal) as Hlt by (destruct (decide (tree_height w goal <= tree_height w a)); [by destruct Hn; rewrite H2|lia]).
      destruct fuel as [|fuel]; [unfold cost in Hw; lia|]. apply (IH fuel ltac:(lia) w a top'); [|done|done|done|done].
      intros x p Hk Ex. apply HM; [done|]. transitivity u; [done|]. by transitivity w.
    - congruence. }
  split.
  - intros Co Mt I Hcost. destruct (choose_spec t tip top Co Mt I) as (u & p & E & R & K). rewrite (activate_loop_choice fuel t None u p E (climb_shape _ _ _ _ K)).
    destruct (Hround u p None) as (v & ok & Ev & Av); [apply R|done|done| |exists v, ok; split; [done|]; apply (activated_marked t u); [apply R|done]]. pose proof (subseteq_size _ _ (good_blocks_marked t u (sr_marked _ _ R))). unfold cost in *. nia.
  - intros goal K Ha Hn Hcost. rewrite (activate_loop_choice fuel t (Some goal) t goal eq_refl (climb_shape _ _ _ _ K)). by apply (Hround t goal (Some (tip, goal))).
Qed.

Lemma ActivateBestChain_spec t : tree_ok t -> intact t -> exists u ok, ActivateBestChain t = Ok (u, ok) /\ activated t u ok.
Proof.
  intros (tip & Co & M) I. apply (activate_loop_spec (Z.to_nat (max_height t)) _ t tip tip); [|done|done|done|].
  - intros u p Hk E. apply (known_shape t u p E) in Hk. rewrite <- (tree_height_shape t u p E). pose proof (max_height_spec t p Hk). lia.
  - unfold cost. assert (size (good_blocks t) <= size (mapBlockIndex t))%nat; [|nia]. rewrite <- (size_dom (D := gset ptr)). apply subseteq_size.
    intros p. unfold good_blocks. rewrite elem_of_filter. tauto.
Qed.
End Loop.
