(* ===== verification/BestChainOps.v ===== *)
(** * Choosing the best chain: the calls from outside

    Invalidating a block, preferring one, and the activation: what each of them promises,
    on the invariants of [BestChainSpec]. *)

From stdpp Require Import gmap sorting.
From S2P Require Import Prelude ArithUint256 Chain BestChain BestChainSpec.

(** ** Lemmas: marks given by hand *)

Section Ops.
Context {C : Type} `{ChainState C} {start : C} `{!ChainStateLaws (C := C)}.
Implicit Types (t u : BlockTree C) (p q tip top : ptr).
#[local] Abbreviation base := (base start).
#[local] Abbreviation core := (core start).
#[local] Abbreviation mark := (mark start).
#[local] Abbreviation tree_ok := (tree_ok start).

Lemma mark_same t u tip top : same_shape t u -> (forall p, connectable u p <-> connectable t p) -> (forall p, usable t p -> usable u p) ->
  (forall p, usable t p -> work t top <= work t p -> p ∈ setBlockIndexCandidates t -> p ∈ setBlockIndexCandidates u) -> mark t tip top -> mark u tip top.
Proof.
  intros E HC HU Hs M. split.
  - apply Hs; [apply M|lia|apply M].
  - apply HU, M.
  - destruct (mk_coins _ _ _ _ M) as [d Hd]. exists d. by apply (coins_at_shape t).
  - rewrite <- !(work_shape t u _ E). apply M.
  - intros p Cp. rewrite <- !(work_shape t u _ E). intros Hw. apply HC in Cp. apply Hs; [apply Cp|lia|]. by apply (mk_complete _ _ _ _ M).
Qed.

(** A block that nothing speaks against is a candidate for the functions that look for some. *)
Lemma connectable_again t tip p : base t tip -> connectable t p -> candidate_again t p = true.
Proof.
  intros B [L U]. unfold candidate_again, IsValid. destruct (U p (anc_refl _ _)) as [G _]. unfold failed in G. pose proof (ba_level _ _ _ B p L) as Hl.
  rewrite (proj2 (Z.eqb_eq (Z.land (status_of t p) BLOCK_FAILED_MASK) 0)) by lia. rewrite (proj2 (Z.eqb_neq _ _)) by apply L.
  cbn [negb]. by rewrite Z.geb_leb, (proj2 (Z.leb_le _ _)) by done.
Qed.

Lemma invalidate_loop_spec p q : forall fuel t tip, base t tip -> anc t tip p -> tree_prev t p = Some q ->
  (Z.to_nat (tree_height t tip - tree_height t q) <= fuel)%nat ->
  exists u ok, invalidate_loop fuel t p = Ok (u, ok) /\ marked t u /\
    if ok : bool then base u q /\ forall x, good t x -> ~ anc t x p -> good u x else stuck start u.
Proof.
  induction fuel as [|fuel IH]; intros t tip B Ha Eq Hf; pose proof (ba_shape _ _ _ B) as S; pose proof (proj1 (ba_linked _ _ _ B)) as Kt;
    destruct (anc_height t tip p S Kt Ha) as [Hh He]; destruct (prev_height_tree t p q S Eq) as [Kq Hq]; [lia|].
  cbn [invalidate_loop]. rewrite (proj2 (active_anc t tip p S (ba_chain _ _ _ B) (anc_known _ _ _ S Kt Ha))) by done. rewrite (base_tip t tip B).
  set (u := erase_candidate (add_status t tip BLOCK_FAILED_CHILD) tip). pose proof (fail_base t tip tip BLOCK_FAILED_CHILD ltac:(auto) B) as Bu. fold u in Bu.
  destruct (fail_marked t tip BLOCK_FAILED_CHILD ltac:(auto) Kt) as [Mu _]. fold u in Mu. pose proof (proj1 Mu) as E.
  assert (forall x, good t x -> ~ anc t x p -> good u x) as Hg by (intros x Gx Hx; apply (add_status_good t tip x); [intros ->; done|done]).
  assert (exists r, tree_prev t tip = Some r /\ (r = q /\ tip = p \/ anc t r p)) as (r & Er & Hr).
  { destruct (anc_inv t tip p Ha) as [->|(r & Er & Hr)]; [by exists q; auto|by exists r; auto]. }
  destruct (DisconnectTip_spec u tip r Bu) as (l & c & ok & -> & Bv); [by rewrite <- (tree_prev_shape t u tip E)|]. cbn [res_bind fst snd]. destruct ok.
  2:{ destruct Bv as [-> Hc]. exists (with_chain u (chainActive u) c), false. split; [done|]. split; [done|]. exists tip, (coinsTip u). split; [by destruct u|].
      destruct Hc as [[-> Hd]|]; [by left|by right]. }
  set (v := with_chain u l c) in *.
  change (same_shape t v) in E. destruct (prev_height_tree t tip r S Er) as [_ Hrh]. destruct Hr as [[-> ->]|Hr].
  - exists v, true. split; [|by split_and!]. assert (active v p = false) as Hact; [|destruct fuel; cbn [invalidate_loop]; by rewrite Hact].
    apply not_true_iff_false. intros Hx. apply (active_anc v q p (ba_shape _ _ _ Bv) (ba_chain _ _ _ Bv)) in Hx; [|by apply (known_shape t v p E)].
    destruct (anc_height v q p (ba_shape _ _ _ Bv) (proj1 (ba_linked _ _ _ Bv)) Hx) as [Hle _]. rewrite <- !(tree_height_shape t v _ E) in Hle. lia.
  - destruct (IH v r Bv) as (w & ok & -> & Mw & Hgw).
    + by apply (anc_shape t v r p E).
    + by rewrite <- (tree_prev_shape t v p E).
    + rewrite <- !(tree_height_shape t v _ E). lia.
    + exists w, ok. split; [done|]. split; [by transitivity v|]. destruct ok; [|done]. destruct Hgw as [Bw Hgw]. split; [done|]. intros x Gx Hx. apply Hgw; [by apply Hg|]. by rewrite <- (anc_shape t v x p E).
Qed.

(** The blocks that do not sort before the tip become candidates again. *)
Definition put_back t tip : BlockTree C :=
  with_candidates t (filter (fun p => candidate_again t p && negb (CBlockIndexWorkComparator t p tip)) (dom (mapBlockIndex t)) ∪ setBlockIndexCandidates t).
Lemma put_back_ok t tip : core t tip -> core (put_back t tip) tip /\ mark (put_back t tip) tip tip.
Proof.
  intros [B U]. pose proof (ba_shape _ _ _ B) as S. set (u := put_back t tip). assert (base u tip) as Bu.
  { split; [by apply (shaped_shape t u)|exact (ba_chain _ _ _ B)|exact (ba_linked _ _ _ B)|apply (coins_at_shape t); [done|apply B]| |exact (ba_level _ _ _ B)].
    intros p Hp. cbn in Hp. apply elem_of_union in Hp as [Hp|Hp]; [|by apply (ba_candidates _ _ _ B)]. apply elem_of_filter in Hp as [Hp%Is_true_true Kp]. zbool. unfold candidate_again in *. zbool.
    split; [by apply elem_of_dom in Kp|done]. }
  assert (forall p, connectable t p -> CBlockIndexWorkComparator t p tip = false -> p ∈ setBlockIndexCandidates u) as Hback.
  { intros p Cp Hp. cbn. apply elem_of_union_l, elem_of_filter. rewrite (connectable_again t tip p B Cp), Hp. split; [done|]. apply elem_of_dom, Cp. }
  split; [by split|]. split; [| |by exists (coinsTip u); apply Bu|done|].
  - apply Hback; [split; [apply B|done]|by apply comparator_irrefl].
  - done.
  - intros p Cp Hp. apply Hback; [done|]. apply not_true_iff_false. intros Hc. apply (comparator_work t p tip S) in Hc. change (work t tip < work t p) in Hp. lia.
Qed.

Lemma InvalidateBlock_spec t p : tree_ok t -> known t p -> 0 < tree_height t p ->
  exists u ok, InvalidateBlock t p = Ok (u, ok) /\ marked t u /\ ~ good u p /\
    if ok : bool then tree_ok u /\ (active t p = true -> active_tip u = tree_prev t p) else active t p = true /\ stuck start u.
Proof.
  intros (tip & [B U] & M) Hk Hh. pose proof (ba_shape _ _ _ B) as S. unfold InvalidateBlock.
  set (t1 := erase_candidate (add_status t p BLOCK_FAILED_VALID) p). pose proof (fail_base t tip p BLOCK_FAILED_VALID ltac:(auto) B) as B1. fold t1 in B1.
  destruct (fail_marked t p BLOCK_FAILED_VALID ltac:(auto) Hk) as [M1 Hg1]. fold t1 in M1, Hg1. pose proof (proj1 M1) as E1.
  assert (active t1 p = active t p) as Hact.
  { apply eq_true_iff_eq. rewrite (active_anc t1 tip p), (active_anc t tip p), (anc_shape t t1 tip p E1); [done|done|apply B|done|apply B1|apply B1|by apply (known_shape t t1 p E1)]. }
  rewrite Hact. destruct (active t p) eqn:Ea.
  - apply (active_anc t tip p S (ba_chain _ _ _ B) Hk) in Ea. destruct (prev_exists t p S Hk Hh) as [q Eq].
    destruct (prev_height_tree t p q S Eq) as [Kq Hqh]. destruct (anc_height t tip p S (proj1 (ba_linked _ _ _ B)) Ea) as [Hpt _].
    destruct (invalidate_loop_spec p q (length (chainActive t1)) t1 tip B1) as (u & ok & -> & Mu & Hok).
    { by apply (anc_shape t t1 tip p E1). } { by rewrite <- (tree_prev_shape t t1 p E1). }
    { destruct (ba_chain _ _ _ B1) as (_ & Hl & _). rewrite height_heap in Hl. pose proof (height_nonneg t q S Kq) as Hq0. rewrite (tree_height_shape t t1 q E1) in Hq0. lia. }
    cbn [res_bind fst snd]. destruct ok; cbn [negb].
    2:{ exists u, false. split; [done|]. split; [by transitivity t1|]. split; [|done]. intros G. by apply Hg1, Mu. }
    destruct Hok as [Bu Hgu]. rewrite (base_tip u q Bu). change (with_candidates u _) with (put_back u q). set (w := put_back u q). pose proof (best_invalid_searched w p) as R.
    assert (marked t w) as Mtw by (by transitivity t1). unfold InvalidChainFound.
    assert (active_tip w = Some q) as -> by exact (base_tip u q Bu). cbn [res_bind]. exists (best_invalid w p), true. split; [done|].
    assert (usable u q) as Uq.
    { intros x Hx. apply (anc_shape t u q x (proj1 Mtw)) in Hx. destruct (anc_height t q x S Kq Hx) as [Hxq _].
      assert (~ anc t x p) as Hn by (intros Hn; destruct (anc_height t x p S (anc_known t q x S Kq Hx) Hn); lia). apply Hgu; [|by rewrite <- (anc_shape t t1 x p E1)].
      apply (add_status_good t p x); [intros ->; apply Hn, anc_refl|]. apply U. apply (anc_trans t tip p x Ea), (anc_trans t p q x); [by apply anc_prev|done]. }
    destruct (put_back_ok u q (conj Bu Uq)) as [Cw Kw]. fold w in Cw, Kw. split_and!.
    + by transitivity w; [|apply R].
    + intros G. apply Hg1, (proj1 (proj2 Mu)). by apply (sr_marked _ _ R).
    + exists q. split; [by apply (core_searched w)|by apply (mark_searched w)].
    + intros _. rewrite Eq. unfold active_tip. rewrite (sr_chain _ _ R). exact (base_tip w q (proj1 Cw)).
  - assert (~ anc t tip p) as Hna by (intros Ha; apply (active_anc t tip p S (ba_chain _ _ _ B) Hk) in Ha; congruence).
    pose proof (fail_core t tip p BLOCK_FAILED_VALID ltac:(auto) (conj B U) Hna) as C1. pose proof (fail_mark t tip tip p BLOCK_FAILED_VALID ltac:(auto) M Hna) as K1. fold t1 in C1, K1.
    unfold InvalidChainFound. rewrite (base_tip t1 tip B1). cbn [res_bind]. pose proof (best_invalid_searched t1 p) as R. exists (best_invalid t1 p), true. split; [done|]. split_and!.
    + by transitivity t1; [|apply R].
    + intros G. by apply Hg1, (sr_marked _ _ R).
    + exists tip. split; [by apply (core_searched t1)|by apply (mark_searched t1)].
    + done.
Qed.

(** A new place among the blocks of equal work changes no mark. *)
Lemma resequenced t u p r : mapBlockIndex u = mapBlockIndex (update t p (fun e => set_sequence e r)) ->
  same_shape t u /\ forall q, status_of u q = status_of t q.
Proof.
  intros E. unfold same_shape, status_of, field. rewrite E. unfold update. cbn. split.
  - apply map_eq. intros q. rewrite !lookup_fmap. destruct (decide (p = q)) as [->|]; [rewrite lookup_alter_eq; by destruct (mapBlockIndex t !! q)|by rewrite lookup_alter_ne].
  - intros q. destruct (decide (p = q)) as [->|]; [rewrite lookup_alter_eq; by destruct (mapBlockIndex t !! q)|by rewrite lookup_alter_ne].
Qed.
Lemma resequenced_ok t u tip p r : core t tip -> mark t tip tip -> mapBlockIndex u = mapBlockIndex (update t p (fun e => set_sequence e r)) ->
  chainActive u = chainActive t -> coinsTip u = coinsTip t ->
  (forall x, x ∈ setBlockIndexCandidates u -> linked t x) ->
  (forall x, connectable t x -> work t tip <= work t x -> x ∈ setBlockIndexCandidates t -> x ∈ setBlockIndexCandidates u) ->
  marked t u /\ core u tip /\ mark u tip tip.
Proof.
  intros [B U] M E Ec Eo Hl Hs. destruct (resequenced t u p r E) as [Es Est]. assert (forall x, good u x <-> good t x) as Hg by (intros x; unfold good, failed; by rewrite Est).
  assert (forall x, usable u x <-> usable t x) as Hu by (intros x; unfold usable; setoid_rewrite Hg; by setoid_rewrite (anc_shape t u x _ Es)).
  assert (marked t u) as Mu by (split_and!; [done|by intros x Gx; apply Hg|by intros x; rewrite Est]). split; [done|]. split.
  - split; [|by apply Hu]. split.
    + by apply (shaped_shape t u Es), B.
    + rewrite Ec. by apply (chain_shape t u _ _ Es), B.
    + apply (linked_shape t u _ Es), B.
    + rewrite Eo. by apply (coins_at_shape t u _ _ Es), B.
    + intros x Hx. by apply (linked_shape t u _ Es), Hl.
    + intros x Hx. rewrite Est. by apply B, (linked_shape t u _ Es).
  - apply (mark_same t u tip tip Es); [|by apply Hu| |done].
    + intros x. unfold connectable. by rewrite Hu, (linked_shape t u x Es).
    + intros x Ux Hw Hx. apply Hs; [split; [by apply B|done]|done|done].
Qed.

(** A block with the work of the tip gets the better place, and a chain with the most work
    is chosen again; for one with less nothing happens. *)
Lemma PreciousBlock_spec t p : tree_ok t -> intact t -> known t p ->
  exists u ok, PreciousBlock t p = Ok (u, ok) /\ (activated (start := start) t u ok \/ u = t /\ ok = true).
Proof.
  intros (tip & Co & M) I Hk. pose proof Co as [B U]. pose proof (ba_shape _ _ _ B) as S. unfold PreciousBlock. rewrite (base_tip t tip B), work_lt by done.
  destruct (_ <? _); [exists t, true; auto|]. set (r := if bu_gt _ _ then _ else _). set (t3 := with_ids _ _ _ _).
  assert (mapBlockIndex t3 = mapBlockIndex (update t p (fun e => set_sequence e r))) as E3 by done. destruct (resequenced t t3 p r E3) as [Es Est].
  assert (forall u, marked t u -> core u tip -> mark u tip tip -> exists v ok, ActivateBestChain u = Ok (v, ok) /\ activated (start := start) t v ok) as Hact.
  { intros u Mu Cu Ku. destruct (ActivateBestChain_spec (start := start) u) as (v & ok & Ev & Av); [by exists tip|by apply (intact_shape t); [apply Mu|]|]. exists v, ok. split; [done|]. by apply (activated_marked t u). }
  destruct (IsValid _ _ && _) eqn:Ev.
  - set (t4 := insert_candidate t3 p). destruct (resequenced_ok t t4 tip p r Co M) as (M4 & C4 & K4); [done|done|done| | |].
    + intros x. cbn. rewrite elem_of_union, elem_of_difference, elem_of_singleton. intros [->|[Hx _]]; [|by apply B]. split; [done|]. zbool.
      by rewrite (txs_shape t t3 p Es).
    + intros x _ _ Hx. cbn. destruct (decide (x = p)); set_solver.
    + destruct (prune_spec t4 tip tip (ba_shape _ _ _ (proj1 C4)) (base_tip t4 tip (proj1 C4)) (mk_candidate _ _ _ _ K4) ltac:(done)) as (s & -> & Hsub & Hkeep).
      cbn [res_bind]. destruct (resequenced_ok t (with_candidates t4 s) tip p r Co M) as (M5 & C5 & K5); [done|done|done| | |].
      * intros x Hx. apply (linked_shape t t4 x (proj1 M4)), (proj1 C4), Hsub, Hx.
      * intros x _ Hw Hx. apply Hkeep; [cbn; destruct (decide (x = p)); set_solver|]. by rewrite <- !(work_shape t t4 _ (proj1 M4)).
      * destruct (Hact _ M5 C5 K5) as (v & ok & Eq & Av). exists v, ok. auto.
  - cbn [res_bind]. destruct (resequenced_ok t t3 tip p r Co M) as (M3 & C3 & K3); [done|done|done| | |].
    + intros x Hx. cbn in Hx. apply B. set_solver.
    + intros x Cx _ Hx. cbn. apply elem_of_difference. split; [done|]. intros ->%elem_of_singleton. apply (connectable_again t tip p B) in Cx. unfold candidate_again in Cx.
      by rewrite <- Est, (txs_shape t t3 p Es), Ev in Cx.
    + destruct (Hact _ M3 C3 K3) as (v & ok & Eq & Av). exists v, ok. auto.
Qed.
End Ops.

(** ** Definitions: a run of calls *)

Inductive tree_op :=
| activate
| precious (p : ptr)
| invalidate (p : ptr).

Section Run.
Context {C : Type} `{ChainState C}.
Implicit Types (t u : BlockTree C) (p q : ptr).

Definition run_tree_op t (o : tree_op) : res tree_error (BlockTree C * bool) :=
  match o with
  | activate => ActivateBestChain t
  | precious p => PreciousBlock t p
  | invalidate p => InvalidateBlock t p
  end.
(** The callers stop at the first call that fails. *)
Fixpoint run_tree_ops t (l : list tree_op) : res tree_error (BlockTree C * bool) :=
  match l with
  | [] => Ok (t, true)
  | o :: l => let! r := run_tree_op t o in if snd r then run_tree_ops (fst r) l else Ok r
  end.
(** The calls name blocks of the index, and nobody invalidates the genesis block. *)
Definition op_for t (o : tree_op) : Prop :=
  match o with activate => True | precious p => known t p | invalidate p => known t p /\ 0 < tree_height t p end.
(** As [sound], of a chain whose blocks may be marked. *)
Definition held (start : C) t : Prop := exists tip c, base start (with_chain t (chainActive t) c) tip /\ (coinsTip t = c \/ unwritten t).
Lemma op_for_marked t u o : marked t u -> op_for t o -> op_for u o.
Proof. intros (E & _). destruct o; cbn; [done|by rewrite (known_shape t u p E)|]. by rewrite (known_shape t u p E), (tree_height_shape t u p E). Qed.
End Run.

Section RunSpec.
Context {C : Type} `{ChainState C} {start : C} `{!ChainStateLaws (C := C)}.
Implicit Types (t u : BlockTree C) (p q tip : ptr).

Lemma sound_held u : sound start u -> held start u.
Proof. intros (tip & c & [B _] & Hc). by exists tip, c. Qed.
Lemma run_tree_op_spec t o : tree_ok start t -> intact t -> op_for t o ->
  exists u ok, run_tree_op t o = Ok (u, ok) /\ marked t u /\ held start u /\ (ok = true -> tree_ok start u).
Proof.
  intros T I. assert (forall u ok, activated (start := start) t u ok -> marked t u /\ held start u /\ (ok = true -> tree_ok start u)) as Ha.
  { intros u ok (M & So & Hok). split; [done|]. split; [by apply sound_held|]. intros Eo. destruct (Hok Eo) as (tip & Co & K & _). by exists tip. }
  assert (forall u, tree_ok start u -> held start u) as Hh by (intros u (tip & Co & _); by eapply sound_held, core_sound).
  destruct o as [|p|p]; cbn.
  - intros _. destruct (ActivateBestChain_spec t T I) as (u & ok & E & Av). exists u, ok. split; [done|]. by apply Ha.
  - intros Hk. destruct (PreciousBlock_spec t p T I Hk) as (u & ok & E & Av). exists u, ok. split; [done|]. destruct Av as [Av|[-> ->]]; [by apply Ha|].
    split; [done|]. split; [by apply Hh|done].
  - intros [Hk Hp]. destruct (InvalidateBlock_spec t p T Hk Hp) as (u & ok & E & M & _ & Hok). exists u, ok. split; [done|]. split; [done|]. destruct ok.
    + split; [by apply Hh, Hok|]. intros _. apply Hok.
    + split; [|done]. destruct Hok as (_ & tip & c & B & Hc). exists tip, c. split; [done|]. destruct Hc as [[? _]|]; auto.
Qed.
End RunSpec.

(** ** Definitions: a small tree

    The coins are the list of the blocks they stand for, and the blocks of [bad] break a
    rule. *)

Definition listed_coins (bad : list ptr) : ChainState (list ptr) := {|
  ConnectBlock p c := if bool_decide (p ∈ bad) then rejected false else connected (p :: c);
  DisconnectBlock_ p c := match c with q :: c => if bool_decide (p = q) then Some c else None | [] => None end;
  FlushStateToDisk _ := true
|}.
Definition demo_block (height : Z) (parent : option ptr) (status witness seq w : Z) : IndexEntry :=
  mkIdx (mkIndex height parent None 0 0 0 status (of_u64 w)) witness seq 1 1 0.
(** The chain of 1 and 2, and beside it 3, 4, 5 with more work. *)
Definition demo_index : gmap ptr IndexEntry :=
  <[1%positive := demo_block 0 None 11 0 1 1]> (<[2%positive := demo_block 1 (Some 1%positive) 11 0 2 4]>
  (<[3%positive := demo_block 1 (Some 1%positive) 11 0 3 3]> (<[4%positive := demo_block 2 (Some 3%positive) 11 0 4 6]>
  (<[5%positive := demo_block 3 (Some 4%positive) 11 0 5 9]> ∅)))).
Definition demo_tree : BlockTree (list ptr) :=
  mkTree demo_index {[2%positive; 4%positive; 5%positive]} [Some 1%positive; Some 2%positive] [2%positive; 1%positive] None None [] 6 (-1) bu_zero.

Definition tip_after {C} (r : res tree_error (BlockTree C * bool)) : option ptr * bool := match r with Ok (t, ok) => (active_tip t, ok) | Err _ => (None, false) end.
Definition chosen {C} (r : res tree_error (BlockTree C * option ptr)) : option ptr := match r with Ok (_, p) => p | Err _ => None end.

(** ** Lemmas: the small tree *)

#[export] Instance listed_coins_laws bad : ChainStateLaws (H := listed_coins bad).
Proof.
  split; cbn. intros p c c' d. case_bool_decide; [done|]. intros [= <-]. rewrite bool_decide_eq_true_2 by done. by intros [= <-].
Qed.
Lemma listed_intact bad t : intact (H := listed_coins bad) t.
Proof. intros p c _. cbn. by case_bool_decide. Qed.
Lemma demo_cases p e : demo_index !! p = Some e ->
  (p = 1%positive /\ e = demo_block 0 None 11 0 1 1) \/ (p = 2%positive /\ e = demo_block 1 (Some 1%positive) 11 0 2 4) \/
  (p = 3%positive /\ e = demo_block 1 (Some 1%positive) 11 0 3 3) \/ (p = 4%positive /\ e = demo_block 2 (Some 3%positive) 11 0 4 6) \/
  (p = 5%positive /\ e = demo_block 3 (Some 4%positive) 11 0 5 9).
Proof. unfold demo_index. rewrite !lookup_insert_Some, lookup_empty. intuition congruence. Qed.
Lemma demo_known p : known demo_tree p -> p = 1%positive \/ p = 2%positive \/ p = 3%positive \/ p = 4%positive \/ p = 5%positive.
Proof. intros [e He]. apply demo_cases in He. tauto. Qed.
Lemma demo_heap p b : heap_of demo_tree !! p = Some b -> exists e, demo_index !! p = Some e /\ b = node e.
Proof. unfold heap_of. rewrite lookup_fmap. cbn. destruct (demo_index !! p) as [e|]; [|done]. intros [= <-]. by exists e. Qed.

Lemma demo_shaped : shaped demo_tree.
Proof.
  split.
  - split; intros p b; [|intros q|intros q]; intros (e & He & ->)%demo_heap; destruct (demo_cases p e He) as [[-> ->]|[[-> ->]|[[-> ->]|[[-> ->]|[-> ->]]]]]; cbn;
      try lia; intros [= <-]; by eexists.
  - intros p b (e & He & ->)%demo_heap. by destruct (demo_cases p e He) as [[-> ->]|[[-> ->]|[[-> ->]|[[-> ->]|[-> ->]]]]]; cbn; (lia || done).
  - intros p q Hp Hq. destruct (demo_known p Hp) as [->|[->|[->|[->| ->]]]], (demo_known q Hq) as [->|[->|[->|[->| ->]]]]; by vm_compute.
  - intros p. unfold work_of, field. cbn. destruct (demo_index !! p) as [e|] eqn:E; [|apply wf_zero].
    destruct (demo_cases p e E) as [[-> ->]|[[-> ->]|[[-> ->]|[[-> ->]|[-> ->]]]]]; cbn; by apply of_u64_spec.
  - intros p q Hq. destruct (demo_known p (known_prev _ _ _ Hq)) as [->|[->|[->|[->| ->]]]]; vm_compute in Hq; try done; injection Hq as <-; by vm_compute.
  - intros p q Hq. destruct (demo_known p (known_prev _ _ _ Hq)) as [->|[->|[->|[->| ->]]]]; vm_compute in Hq; try done; injection Hq as <-; by vm_compute.
Qed.
Lemma usable_step {C} (t : BlockTree C) p : good t p -> (forall q, tree_prev t p = Some q -> usable t q) -> usable t p.
Proof. intros G U q [<- | (r & Hr & Hq)]%anc_inv; [done|]. by apply (U r). Qed.
Lemma demo_usable p : known demo_tree p -> usable demo_tree p.
Proof.
  assert (forall p, known demo_tree p -> good demo_tree p) as Hg.
  { intros x Hx. destruct (demo_known x Hx) as [->|[->|[->|[->| ->]]]]; by vm_compute. }
  intros Hp q Hq. by apply Hg, (anc_known _ p _ demo_shaped).
Qed.
Lemma demo_ok bad : 1%positive ∉ bad -> 2%positive ∉ bad -> tree_ok (H := listed_coins bad) [] demo_tree.
Proof.
  intros H1 H2. assert (coins_at (H := listed_coins bad) [] demo_tree 2%positive [2%positive; 1%positive]) as Hc.
  { eapply coins_child; [done|apply coins_root; [done|]|]; cbn; by rewrite bool_decide_eq_false_2. }
  assert (forall p, p ∈ setBlockIndexCandidates demo_tree -> linked demo_tree p) as Hl.
  { intros p Hp. cbn in Hp. rewrite !elem_of_union, !elem_of_singleton in Hp. destruct Hp as [[->| ->]| ->]; (split; [by eexists|by vm_compute]). }
  exists 2%positive. split; [split; [split|]|split].
  - apply demo_shaped.
  - split; [by eexists|]. split; [done|]. intros [|[|k]] Hk; [done|done|cbn in Hk; lia].
  - by split; [by eexists|].
  - done.
  - done.
  - intros p [Hk _]. destruct (demo_known p Hk) as [->|[->|[->|[->| ->]]]]; by vm_compute.
  - apply demo_usable. by eexists.
  - by cbn; set_solver.
  - apply demo_usable. by eexists.
  - by eexists.
  - done.
  - intros p [[Hk _] _]. destruct (demo_known p Hk) as [->|[->|[->|[->| ->]]]]; intros Hw; try (by vm_compute in Hw); cbn; set_solver.
Qed.

(** ** Theorems *)

Section Claims.
Context {C : Type} `{ChainState C} (start : C) `{!ChainStateLaws (C := C)}.
Implicit Types (t u : BlockTree C) (p q tip : ptr).

(** C7: [ActivateBestChain], from a consistent tree, always returns, however many blocks turn out to be invalid on the
    way and whatever fails, unless a block of the index is rejected with the mark that its data may be
    corrupt: then the source's loop may never end, see [corrupt_block_never_ends]. What
    connecting does depends on the block and the coins alone, and the undo of a block, where it
    works, gives the coins before it. When the call reports success the index, the candidates,
    the active chain and the coins are consistent, and no block that could become the tip has
    more work than the tip. When it fails, because a block could not be checked or taken back or
    the coins could not be written, the chain is still one of usable blocks, and the coins
    are those of the chain unless it is the coins that could not be written. *)
Theorem best_chain_is_activated t : tree_ok start t -> intact t ->
  exists u ok, ActivateBestChain t = Ok (u, ok) /\ marked t u /\ sound start u /\
    (ok = true -> tree_ok start u /\ exists tip, settled_on u tip).
Proof.
  intros T I. destruct (ActivateBestChain_spec t T I) as (u & ok & E & M & So & Hok). exists u, ok. split_and!; [done..|].
  intros Eo. destruct (Hok Eo) as (tip & Co & K & S). split; by exists tip.
Qed.

(** [FindMostWorkChain] terminates; of the candidates only blocks that failed, or have
    no data, or stand on such a block, lose their place, no block that can be used gets a
    mark, and the result is a usable candidate that no other candidate exceeds in work. *)
Lemma most_work_chain_found t tip : core start t tip ->
  exists u r, FindMostWorkChain t = Ok (u, r) /\ searched t u /\
    match r with
    | None => setBlockIndexCandidates u = ∅
    | Some p => p ∈ setBlockIndexCandidates u /\ usable u p /\ forall q, q ∈ setBlockIndexCandidates u -> work u q <= work u p
    end.
Proof. intros [B U]. by apply (most_work_loop_spec _ t tip); [apply B|apply B|done|apply B|]. Qed.


(** C17: from a consistent tree any run of activations, preferences of known blocks and
    invalidations of known blocks other than the genesis block, which stops at the first
    call that reports a failure, returns, unless a block of the index is rejected as perhaps
    corrupt. When no call reported a failure, the whole tree is consistent again; in any case
    the chain is one of known blocks with their transactions, and the coins are those of
    the chain unless they could not be written. The undo of a block, where it works, is taken
    to give the coins before it. *)
Theorem tree_calls_keep_invariant t l : tree_ok start t -> intact t -> (forall o, o ∈ l -> op_for t o) ->
  exists u ok, run_tree_ops t l = Ok (u, ok) /\ held start u /\ (ok = true -> tree_ok start u).
Proof.
  revert t; induction l as [|o l IH]; intros t T I Hl; cbn.
  { exists t, true. split; [done|]. split; [|done]. destruct T as (tip & Co & _). by eapply sound_held, core_sound. }
  destruct (run_tree_op_spec t o T I (Hl o ltac:(left))) as (u & ok & -> & Mu & Hu & Tu). cbn [res_bind fst snd]. destruct ok; [|by exists u, false].
  apply IH; [by apply Tu|by apply (intact_shape t); [apply Mu|]|]. intros x Hx. apply (op_for_marked t u x Mu), Hl. by right.
Qed.
End Claims.

Lemma best_chain_is_activated_witness :
  tree_ok (H := listed_coins [5%positive]) [] demo_tree /\
  exists u, ActivateBestChain (H := listed_coins [5%positive]) demo_tree = Ok (u, true) /\ active_tip u = Some 4%positive.
Proof.
  assert (tree_ok (H := listed_coins [5%positive]) [] demo_tree) as T by (apply demo_ok; set_solver). split; [done|].
  destruct (best_chain_is_activated (H := listed_coins [5%positive]) [] demo_tree T (listed_intact _ _)) as (u & ok & E & _).
  exists u. assert (tip_after (Ok (u, ok)) = (Some 4%positive, true)) as Er by (rewrite <- E; vm_compute; reflexivity).
  injection Er as Et ->. split; [exact E|exact Et].
Defined.

Lemma most_work_chain_found_witness : exists u, FindMostWorkChain demo_tree = Ok (u, Some 5%positive).
Proof.
  assert (tree_ok (H := listed_coins []) [] demo_tree) as (tip & Co & _) by (apply demo_ok; set_solver).
  destruct (most_work_chain_found (H := listed_coins []) [] demo_tree tip Co) as (u & r & E & _).
  exists u. assert (chosen (Ok (u, r)) = Some 5%positive) as Er by (rewrite <- E; vm_compute; reflexivity).
  cbn in Er. rewrite Er in E. exact E.
Defined.


Lemma tree_calls_keep_invariant_witness :
  exists u, run_tree_ops (H := listed_coins [5%positive]) demo_tree [precious 2%positive; invalidate 3%positive; activate] = Ok (u, true) /\ active_tip u = Some 2%positive.
Proof.
  assert (tree_ok (H := listed_coins [5%positive]) [] demo_tree) as T by (apply demo_ok; set_solver).
  destruct (tree_calls_keep_invariant (H := listed_coins [5%positive]) [] demo_tree [precious 2%positive; invalidate 3%positive; activate] T (listed_intact _ _)) as (u & ok & E & _).
  - intros o Ho. rewrite !elem_of_cons in Ho. destruct Ho as [-> | [-> | [-> | Ho]]]; [by eexists|split; [by eexists|done]|done|by apply not_elem_of_nil in Ho].
  - exists u. assert (tip_after (Ok (u, ok)) = (Some 2%positive, true)) as Er by (rewrite <- E; vm_compute; reflexivity).
    injection Er as Et ->. split; [exact E|exact Et].
Defined.

(** *** The order of the candidates is not an order *)

(** Three blocks of the same work: two of them at one height, one with a witness, and a
    third one higher up. *)
Definition cyclic_tree : BlockTree unit :=
  mkTree (<[1%positive := demo_block 5 None 11 0 3 7]> (<[2%positive := demo_block 5 None 11 1 1 7]> (<[3%positive := demo_block 6 None 11 0 2 7]> ∅)))
    {[1%positive; 2%positive; 3%positive]} [] tt None None [] 4 (-1) bu_zero.

(** The comparison of [setBlockIndexCandidates] is not transitive: at one height a
    block without a witness ranks above one with a witness whatever the order of arrival,
    but a block of another height and the same work is compared by the order of arrival, so
    three such blocks sort before each other in a cycle. *)
Lemma work_comparator_cycles :
  exists a b c, CBlockIndexWorkComparator cyclic_tree a b = true /\ CBlockIndexWorkComparator cyclic_tree b c = true /\ CBlockIndexWorkComparator cyclic_tree c a = true.
Proof. exists 2%positive, 1%positive, 3%positive. by vm_compute. Qed.

(** *** Clearing the marks of ancestors *)

(** 2 was invalidated over the tip 1, and 3, known by its header only, stands on it. *)
Definition reset_tree : BlockTree (list ptr) :=
  mkTree (<[1%positive := demo_block 0 None 11 0 1 1]> (<[2%positive := demo_block 1 (Some 1%positive) 43 0 2 4]>
    (<[3%positive := mkIdx (mkIndex 2 (Some 2%positive) None 0 0 0 66 (of_u64 6)) 0 0 0 0 0]> ∅)))
    {[1%positive]} [Some 1%positive] [1%positive] None None [] 3 (-1) bu_zero.
Definition after_reset : res tree_error (BlockTree (list ptr) * bool) :=
  let! t := ResetBlockFailureFlags reset_tree 3%positive in ActivateBestChain (H := listed_coins []) t.

(** [ResetBlockFailureFlags] takes the marks from the ancestors of its block but does not
    make them candidates: here block 2 is good again and has more work than the tip, and
    the activation stays where it is. *)
Lemma reset_forgets_ancestors : exists t, after_reset = Ok (t, true) /\ active_tip t = Some 1%positive /\
  connectable t 2%positive /\ work t 1%positive < work t 2%positive.
Proof.
  eexists. split; [vm_compute; reflexivity|]. split; [reflexivity|]. split; [|reflexivity]. split; [split; [by eexists|done]|].
  apply usable_step; [by vm_compute|]. intros q [= <-]. by apply usable_step; [vm_compute|].
Qed.

(** *** Data that may be corrupt *)

(** The coins of [listed_coins], where block 5 is rejected with the mark that its data may be corrupt. *)
Definition corrupt_coins : ChainState (list ptr) := {|
  ConnectBlock p c := if bool_decide (p = 5%positive) then rejected true else connected (p :: c);
  DisconnectBlock_ p c := match c with q :: c => if bool_decide (p = q) then Some c else None | [] => None end;
  FlushStateToDisk _ := true
|}.
(** The tree once the tip is block 4. *)
Definition corrupt_tree : BlockTree (list ptr) :=
  mkTree demo_index {[4%positive; 5%positive]} [Some 1%positive; Some 3%positive; Some 4%positive] [4%positive; 3%positive; 1%positive] None None [] 6 (-1) bu_zero.
Lemma corrupt_search : FindMostWorkChain corrupt_tree = Ok (corrupt_tree, Some 5%positive).
Proof. vm_compute. reflexivity. Qed.
Lemma corrupt_step : ActivateBestChainStep (H := corrupt_coins) corrupt_tree 5%positive = Ok (corrupt_tree, true, true).
Proof. vm_compute. reflexivity. Qed.

(** A block that is rejected as perhaps corrupt gets no mark and stays the best candidate,
    so the loop of the activation takes it up again and again: no number of rounds is enough. *)
Lemma corrupt_block_never_ends fuel : activate_loop (H := corrupt_coins) fuel corrupt_tree None = Err no_fuel.
Proof.
  induction fuel as [|fuel IH]; cbn [activate_loop]; rewrite corrupt_search; cbn [res_bind fst snd];
    (replace (tree_prev corrupt_tree 5%positive) with (Some 4%positive) by (vm_compute; reflexivity));
    (replace (CompareTo _ _ =? 0) with false by (vm_compute; reflexivity));
    (rewrite bool_decide_eq_false_2 by (vm_compute; discriminate)); rewrite corrupt_step; cbn [res_bind negb];
    (rewrite bool_decide_eq_false_2 by (vm_compute; discriminate)); [reflexivity|exact IH].
Qed.
