(* ===== verification/Merkle.v ===== *)
(** * Merkle: [src/src/consensus/merkle.cpp] and [src/src/merkleblock.{h,cpp}]

    The constant-space root and branch calculator, the verification of a branch,
    and the partial trees sent to filtered nodes. The hash of two nodes
    ([CHash256] over their concatenation) is a variable of the section, and so is
    the type of hashes: nothing below depends on the hash function, and the
    soundness of a partial tree is stated by exhibiting a collision. *)

From stdpp Require Import list.
From S2P Require Import Prelude Serialize.

(** ** Definitions *)

(** [MAX_BLOCK_BASE_SIZE] of [consensus.h]. *)
Definition MAX_BLOCK_BASE_SIZE : Z := 1000000.

Section Merkle.
Context {hash : Type} `{EqDecision hash}.
Variable zero : hash.
Variable Hash : hash -> hash -> hash.

(** *** MerkleComputation *)

(** The bit [level] of [count] is zero. *)
Definition bit_clear (count : Z) (level : nat) : bool := Z.land count (u32 (Z.shiftl 1 (Z.of_nat level))) =? 0.

(** The state of one leaf's loop. *)
Record leafstate := mkLeaf { ls_h : hash; ls_matchh : bool; ls_branch : list hash; ls_mutated : bool }.

Section Computation.
Variable pbranch : bool.

(** The branch and [matchh] after combining [h] with [inner[level]]. *)
Definition push_match (inner : list hash) (matchlevel : Z) (level : nat) (h : hash) (matchh : bool)
    (branch : list hash) : bool * list hash :=
  if pbranch then
    if matchh then (matchh, branch ++ [nth level inner zero])
    else if matchlevel =? Z.of_nat level then (true, branch ++ [h]) else (matchh, branch)
  else (matchh, branch).

(** Combine the new leaf with the complete subtrees to its left; returns the
    level reached. At most 32 levels exist. *)
Fixpoint combine_loop (fuel : nat) (inner : list hash) (matchlevel count : Z) (level : nat) (st : leafstate)
    : nat * leafstate :=
  match fuel with
  | O => (level, st)
  | S f =>
      if bit_clear count level then
        let '(matchh', branch') := push_match inner matchlevel level (ls_h st) (ls_matchh st) (ls_branch st) in
        combine_loop f inner matchlevel count (S level)
          (mkLeaf (Hash (nth level inner zero) (ls_h st)) matchh' branch'
             (ls_mutated st || bool_decide (nth level inner zero = ls_h st)))
      else (level, st)
  end.

(** The loop over the leaves. *)
Fixpoint leaves_loop (leaves : list hash) (branchpos count : Z) (inner : list hash) (matchlevel : Z)
    (branch : list hash) (mutated : bool) : Z * list hash * Z * list hash * bool :=
  match leaves with
  | [] => (count, inner, matchlevel, branch, mutated)
  | h :: leaves' =>
      let matchh := count =? branchpos in
      let count := u32 (count + 1) in
      let '(level, st) := combine_loop 32 inner matchlevel count 0 (mkLeaf h matchh branch mutated) in
      leaves_loop leaves' branchpos count (<[level := ls_h st]> inner)
        (if ls_matchh st then Z.of_nat level else matchlevel) (ls_branch st) (ls_mutated st)
  end.

Fixpoint skip_levels (fuel : nat) (count : Z) (level : nat) : nat :=
  match fuel with
  | O => level
  | S f => if bit_clear count level then skip_levels f count (S level) else level
  end.

(** The inner loop of the final sweep. *)
Fixpoint sweep_up (fuel : nat) (inner : list hash) (matchlevel count : Z) (level : nat) (h : hash) (matchh : bool)
    (branch : list hash) : nat * hash * bool * list hash :=
  match fuel with
  | O => (level, h, matchh, branch)
  | S f =>
      if bit_clear count level then
        let '(matchh', branch') := push_match inner matchlevel level h matchh branch in
        sweep_up f inner matchlevel count (S level) (Hash (nth level inner zero) h) matchh' branch'
      else (level, h, matchh, branch)
  end.

(** The final sweep; every round climbs at least one level. *)
Fixpoint sweep (fuel : nat) (inner : list hash) (matchlevel count : Z) (level : nat) (h : hash) (matchh : bool)
    (branch : list hash) : hash * list hash :=
  match fuel with
  | O => (h, branch)
  | S f =>
      if count =? u32 (Z.shiftl 1 (Z.of_nat level)) then (h, branch)
      else
        let branch := if pbranch && matchh then branch ++ [h] else branch in
        let count := u32 (count + u32 (Z.shiftl 1 (Z.of_nat level))) in
        let '(level, h, matchh, branch) := sweep_up 32 inner matchlevel count (S level) (Hash h h) matchh branch in
        sweep f inner matchlevel count level h matchh branch
  end.

(** Root, mutation flag and branch. *)
Definition MerkleComputation (leaves : list hash) (branchpos : Z) : hash * bool * list hash :=
  if bool_decide (leaves = []) then (zero, false, [])
  else
    let '(count, inner, matchlevel, branch, mutated) := leaves_loop leaves branchpos 0 (repeat zero 32) (-1) [] false in
    let level := skip_levels 32 count 0 in
    let '(root, branch) := sweep 32 inner matchlevel count level (nth level inner zero)
                             (matchlevel =? Z.of_nat level) branch in
    (root, mutated, branch).

End Computation.

Definition ComputeMerkleRoot (leaves : list hash) : hash * bool := fst (MerkleComputation false leaves (2 ^ 32 - 1)).
Definition ComputeMerkleBranch (leaves : list hash) (position : Z) : list hash :=
  snd (MerkleComputation true leaves position).

Fixpoint ComputeMerkleRootFromBranch (leaf : hash) (vMerkleBranch : list hash) (nIndex : Z) : hash :=
  match vMerkleBranch with
  | [] => leaf
  | it :: r => ComputeMerkleRootFromBranch
                 (if negb (Z.land nIndex 1 =? 0) then Hash it leaf else Hash leaf it) r (Z.shiftr nIndex 1)
  end.

(** *** CPartialMerkleTree *)

Record CPartialMerkleTree := mkPMT { nTransactions : Z; vBits : list bool; vHash : list hash; fBad : bool }.

Definition CalcTreeWidth (n : Z) (height : nat) : Z :=
  Z.shiftr (u32 (n + Z.shiftl 1 (Z.of_nat height) - 1)) (Z.of_nat height).

Fixpoint CalcHash (n : Z) (height : nat) (pos : Z) (vTxid : list hash) : hash :=
  match height with
  | O => nth (Z.to_nat pos) vTxid zero
  | S h =>
      let left_ := CalcHash n h (u32 (pos * 2)) vTxid in
      let right_ := if u32 (pos * 2 + 1) <? CalcTreeWidth n h then CalcHash n h (u32 (pos * 2 + 1)) vTxid else left_ in
      Hash left_ right_
  end.

(** [while (CalcTreeWidth(nHeight) > 1) nHeight++] *)
Fixpoint height_loop (fuel : nat) (n : Z) (nHeight : nat) : nat :=
  match fuel with
  | O => nHeight
  | S f => if CalcTreeWidth n nHeight >? 1 then height_loop f n (S nHeight) else nHeight
  end.
Definition tree_height (n : Z) : nat := height_loop 32 n 0.

(** [for (p = pos << height; p < (pos+1) << height && p < nTransactions; p++) fParentOfMatch |= vMatch[p]] *)
Fixpoint any_match (k : nat) (p hi n : Z) (vMatch : list bool) : bool :=
  match k with
  | O => false
  | S k' => if (p <? hi) && (p <? n) then nth (Z.to_nat p) vMatch false || any_match k' (p + 1) hi n vMatch else false
  end.
Definition parent_of_match (n : Z) (height : nat) (pos : Z) (vMatch : list bool) : bool :=
  any_match (length vMatch) (Z.shiftl pos (Z.of_nat height)) (Z.shiftl (pos + 1) (Z.of_nat height)) n vMatch.

(** The bits and hashes appended below one node. *)
Fixpoint TraverseAndBuild (n : Z) (height : nat) (pos : Z) (vTxid : list hash) (vMatch : list bool)
    : list bool * list hash :=
  let fParentOfMatch := parent_of_match n height pos vMatch in
  match height with
  | O => ([fParentOfMatch], [CalcHash n 0 pos vTxid])
  | S h =>
      if negb fParentOfMatch then ([fParentOfMatch], [CalcHash n height pos vTxid])
      else
        let '(b1, h1) := TraverseAndBuild n h (u32 (pos * 2)) vTxid vMatch in
        let '(b2, h2) := if u32 (pos * 2 + 1) <? CalcTreeWidth n h
                         then TraverseAndBuild n h (u32 (pos * 2 + 1)) vTxid vMatch else ([], []) in
        (fParentOfMatch :: b1 ++ b2, h1 ++ h2)
  end.
Definition PMT_build (vTxid : list hash) (vMatch : list bool) : CPartialMerkleTree :=
  let n := u32 (Z.of_nat (length vTxid)) in
  let '(bits, hashes) := TraverseAndBuild n (tree_height n) 0 vTxid vMatch in mkPMT n bits hashes false.
Definition PMT_default : CPartialMerkleTree := mkPMT 0 [] [] true.

(** The cursor of a traversal: unread bits and hashes, and what was found. *)
Record cursor := mkCur { cu_bits : list bool; cu_hashes : list hash; cu_bad : bool; cu_match : list (hash * Z) }.

Fixpoint TraverseAndExtract (n : Z) (height : nat) (pos : Z) (c : cursor) : hash * cursor :=
  match cu_bits c with
  | [] => (zero, mkCur [] (cu_hashes c) true (cu_match c))
  | fParentOfMatch :: bits =>
      let stored :=
        match cu_hashes c with
        | [] => (zero, mkCur bits [] true (cu_match c))
        | h :: hs =>
            (h, mkCur bits hs (cu_bad c)
                  (if (match height with O => true | S _ => false end) && fParentOfMatch
                   then cu_match c ++ [(h, pos)] else cu_match c))
        end in
      match height with
      | O => stored
      | S k =>
          if negb fParentOfMatch then stored
          else
            let '(left_, c1) := TraverseAndExtract n k (u32 (pos * 2)) (mkCur bits (cu_hashes c) (cu_bad c) (cu_match c)) in
            if u32 (pos * 2 + 1) <? CalcTreeWidth n k then
              let '(right_, c2) := TraverseAndExtract n k (u32 (pos * 2 + 1)) c1 in
              (Hash left_ right_,
               if bool_decide (right_ = left_) then mkCur (cu_bits c2) (cu_hashes c2) true (cu_match c2) else c2)
            else (Hash left_ left_, c1)
      end
  end.

(** [ExtractMatches]: the root (zero on failure), the matches with their
    indices, and the tree's [fBad] afterwards. *)
Definition ExtractMatches (t : CPartialMerkleTree) : hash * list (hash * Z) * bool :=
  let n := nTransactions t in
  if n =? 0 then (zero, [], fBad t)
  else if n >? MAX_BLOCK_BASE_SIZE / 60 then (zero, [], fBad t)
  else if Z.of_nat (length (vHash t)) >? n then (zero, [], fBad t)
  else if Z.of_nat (length (vBits t)) <? Z.of_nat (length (vHash t)) then (zero, [], fBad t)
  else
    let '(root, c) := TraverseAndExtract n (tree_height n) 0 (mkCur (vBits t) (vHash t) (fBad t) []) in
    let nBitsUsed := Z.of_nat (length (vBits t)) - Z.of_nat (length (cu_bits c)) in
    if cu_bad c then (zero, cu_match c, true)
    else if negb ((nBitsUsed + 7) / 8 =? (Z.of_nat (length (vBits t)) + 7) / 8) then (zero, cu_match c, false)
    else if negb (bool_decide (cu_hashes c = [])) then (zero, cu_match c, false)
    else (root, cu_match c, false).

(** [CMerkleBlock]'s mask: the transactions whose hash is wanted. *)
Definition match_mask (vHashes : list hash) (txids : list hash) : list bool :=
  map (fun h => bool_decide (h ∈ txids)) vHashes.

(** *** The stored form of the flag bits *)

(** Eight bits to a byte, least significant first. *)
Fixpoint pack_byte (p : Z) (bits : list bool) : Z :=
  match bits with [] => 0 | b :: r => Z.lor (Z.shiftl (Z.b2z b) p) (pack_byte (p + 1) r) end.
Fixpoint pack_bits (fuel : nat) (bits : list bool) : list Z :=
  match fuel with
  | O => []
  | S f => match bits with [] => [] | _ => pack_byte 0 (firstn 8 bits) :: pack_bits f (skipn 8 bits) end
  end.
Definition unpack_bits (vBytes : list Z) : list bool :=
  flat_map (fun b => map (fun p => negb (Z.land b (Z.shiftl 1 p) =? 0)) [0; 1; 2; 3; 4; 5; 6; 7]) vBytes.

Variable hash_w : hash -> list Z.
Variable hash_r : reader hash.
Definition PMT_Serialize (t : CPartialMerkleTree) : list Z :=
  ser_writedata32 (nTransactions t) ++ Serialize_compactsizevector hash_w (vHash t)
  ++ Serialize_bytes (pack_bits (length (vBits t)) (vBits t)).
Definition PMT_Unserialize : reader CPartialMerkleTree :=
  n <~ ser_readdata32 ;;;
  hs <~ Unserialize_compactsizevector zero hash_r 32 ;;;
  vBytes <~ Unserialize_bytes ;;;
  rd_ret (mkPMT n (unpack_bits vBytes) hs false).

End Merkle.

(** ** Lemmas on counters *)

Lemma bit_clear_odd c (k : nat) : (k < 32)%nat -> bit_clear c k = negb (Z.odd (c / 2 ^ Z.of_nat k)).
Proof.
  intros Hk. unfold bit_clear. rewrite Z.shiftl_1_l, u32_small by (split; [apply Z.pow_nonneg; lia|apply Z.pow_lt_mono_r; lia]).
  rewrite land_pow2 by lia. by rewrite Z.testbit_odd, Z.shiftr_div_pow2 by lia.
Qed.

Lemma div_pow_S c (k : nat) : c / 2 ^ Z.of_nat (S k) = c / 2 ^ Z.of_nat k / 2.
Proof.
  rewrite Nat2Z.inj_succ, Z.pow_succ_r, Z.mul_comm by lia. rewrite Z.div_div; [done|apply Z.pow_nonzero; lia|lia].
Qed.

Lemma odd_half q : q = 2 * (q / 2) + (if Z.odd q then 1 else 0).
Proof. pose proof (Zmod_odd q). zdm; destruct (Z.odd q); lia. Qed.

(** [2^k] divides [c]. *)
Definition divides_pow (c : Z) (k : nat) : Prop := c = c / 2 ^ Z.of_nat k * 2 ^ Z.of_nat k.

Lemma pow2_pos (k : nat) : 0 < 2 ^ Z.of_nat k.
Proof. apply Z.pow_pos_nonneg; lia. Qed.

Lemma divides_pow_S c k : divides_pow c k -> Z.odd (c / 2 ^ Z.of_nat k) = false -> divides_pow c (S k).
Proof.
  unfold divides_pow. intros H Ho. pose proof (odd_half (c / 2 ^ Z.of_nat k)) as Hh. rewrite Ho in Hh.
  rewrite div_pow_S, Nat2Z.inj_succ, Z.pow_succ_r by lia. nia.
Qed.

Lemma divides_pow_pred c k : divides_pow c k -> (c - 1) / 2 ^ Z.of_nat k = c / 2 ^ Z.of_nat k - 1.
Proof.
  unfold divides_pow. intros H. pose proof (pow2_pos k). symmetry.
  apply Z.div_unique with (2 ^ Z.of_nat k - 1); lia.
Qed.

Lemma div_pow_pred_same c l k : divides_pow c l -> Z.odd (c / 2 ^ Z.of_nat l) = true -> (l < k)%nat ->
  (c - 1) / 2 ^ Z.of_nat k = c / 2 ^ Z.of_nat k.
Proof.
  intros H Ho Hk. induction k as [|k IH]; [lia|]. rewrite !div_pow_S.
  destruct (decide (l = k)) as [->|Hn]; [|by rewrite IH by lia].
  rewrite divides_pow_pred by done. pose proof (odd_half (c / 2 ^ Z.of_nat k)). rewrite Ho in H0. zdm; lia.
Qed.

Lemma divides_pow_low c l k : divides_pow c l -> (k < l)%nat -> Z.odd (c / 2 ^ Z.of_nat k) = false.
Proof.
  unfold divides_pow. intros H Hk. rewrite H. replace (Z.of_nat l) with (Z.of_nat (l - k - 1) + 1 + Z.of_nat k) by lia.
  rewrite !Z.pow_add_r, !Z.mul_assoc by lia. rewrite Z.div_mul by (apply Z.pow_nonzero; lia).
  change (2 ^ 1) with 2. by rewrite Z.odd_mul, andb_false_r.
Qed.

(** The number of nodes at a height. *)
Definition width (n : Z) (k : nat) : Z := (n + 2 ^ Z.of_nat k - 1) / 2 ^ Z.of_nat k.

Lemma CalcTreeWidth_eq n k : 0 <= n <= 2 ^ 31 -> (k <= 31)%nat -> CalcTreeWidth n k = width n k.
Proof.
  intros Hn Hk. unfold CalcTreeWidth, width. rewrite Z.shiftl_1_l, shiftr_div by lia.
  rewrite u32_small; [done|]. pose proof (pow2_pos k). assert (2 ^ Z.of_nat k <= 2 ^ 31) by (apply Z.pow_le_mono_r; lia). lia.
Qed.

Lemma width_0 n : width n 0 = n.
Proof. unfold width. cbn. rewrite Z.div_1_r. lia. Qed.

Lemma width_S n k : width n (S k) = (width n k + 1) / 2.
Proof.
  unfold width. rewrite Nat2Z.inj_succ, Z.pow_succ_r, (Z.mul_comm 2) by lia. pose proof (pow2_pos k).
  rewrite <- Z.div_div by lia. f_equal.
  replace (n + 2 ^ Z.of_nat k * 2 - 1) with (n + 2 ^ Z.of_nat k - 1 + 1 * 2 ^ Z.of_nat k) by lia.
  rewrite Z.div_add by lia. done.
Qed.

Lemma width_div n k : 0 <= n -> n / 2 ^ Z.of_nat k <= width n k <= n / 2 ^ Z.of_nat k + 1.
Proof.
  intros Hn. unfold width. pose proof (pow2_pos k). split.
  - apply Z.div_le_mono; lia.
  - rewrite <- Z.div_add by lia. apply Z.div_le_mono; lia.
Qed.

Lemma width_pos n k : 1 <= n -> 1 <= width n k.
Proof. intros. unfold width. pose proof (pow2_pos k). apply Z.div_le_lower_bound; lia. Qed.

Lemma width_le n k : 1 <= n -> width n (S k) <= width n k.
Proof. intros Hn. rewrite width_S. pose proof (width_pos n k Hn). zdm; lia. Qed.

Lemma width_31 n : 1 <= n <= 2 ^ 31 -> width n 31 = 1.
Proof. intros. unfold width. change (2 ^ Z.of_nat 31) with (2 ^ 31). zdm; lia. Qed.

Lemma width_bound n k : 0 <= n <= 2 ^ 31 -> width n k <= 2 ^ 31.
Proof.
  intros Hn. induction k as [|k IH]; [rewrite width_0; lia|]. rewrite width_S. zdm; lia.
Qed.

(** [tree_height n] is the least height with one node. *)
Lemma height_loop_spec n fuel k : 1 <= n <= 2 ^ 31 -> (k <= 31)%nat -> (31 - k < fuel)%nat ->
  (forall j, (j < k)%nat -> 1 < width n j) ->
  width n (height_loop fuel n k) = 1 /\ (forall j, (j < height_loop fuel n k)%nat -> 1 < width n j) /\
  (height_loop fuel n k <= 31)%nat.
Proof.
  intros Hn. revert k. induction fuel as [|f IH]; intros k Hk Hf Hlt; [lia|]. cbn [height_loop].
  rewrite CalcTreeWidth_eq by lia. destruct (width n k >? 1) eqn:E; zbool.
  - assert (k <> 31%nat) by (intros ->; rewrite width_31 in E; lia). apply IH; [lia|lia|].
    intros j Hj. destruct (decide (j = k)) as [->|]; [done|apply Hlt; lia].
  - split_and!; [|done|lia]. pose proof (width_pos n k). lia.
Qed.

Lemma tree_height_spec n : 1 <= n <= 2 ^ 31 ->
  width n (tree_height n) = 1 /\ (forall j, (j < tree_height n)%nat -> 1 < width n j) /\ (tree_height n <= 31)%nat.
Proof. intros Hn. apply height_loop_spec; [done|lia|lia|lia]. Qed.

Lemma tree_height_unique n k : 1 <= n <= 2 ^ 31 -> width n k = 1 -> (k = 0%nat \/ 1 < width n (k - 1)) -> tree_height n = k.
Proof.
  intros Hn Hw Hk. destruct (tree_height_spec n Hn) as (H1 & H2 & _).
  destruct (lt_eq_lt_dec (tree_height n) k) as [[Hlt|]|Hgt]; [|done|specialize (H2 k Hgt); lia].
  exfalso. destruct Hk as [->|Hk]; [lia|].
  assert (Hmono : forall j, (tree_height n <= j)%nat -> width n j <= 1).
  { intros j Hj. induction Hj; [lia|]. etransitivity; [apply width_le; lia|done]. }
  specialize (Hmono (k - 1)%nat ltac:(lia)). lia.
Qed.

Section MerkleLemmas.
Context {hash : Type} `{EqDecision hash}.
Variable zero : hash.
Variable Hash : hash -> hash -> hash.
Variable leaves : list hash.
Let n := Z.of_nat (length leaves).
Hypothesis Hn : 1 <= n <= 2 ^ 31.
Let N (k : nat) (j : Z) : hash := CalcHash zero Hash n k j leaves.

Lemma node_S k j : (S k <= 31)%nat -> 0 <= j < width n (S k) ->
  N (S k) j = Hash (N k (2 * j)) (N k (if 2 * j + 1 <? width n k then 2 * j + 1 else 2 * j)).
Proof.
  intros Hk Hj. rewrite width_S in Hj. unfold N. cbn [CalcHash]. pose proof (width_bound n k ltac:(lia)).
  assert (0 <= j * 2 /\ j * 2 + 1 < 2 ^ 32) by (zdm; lia).
  rewrite !u32_small by lia. rewrite CalcTreeWidth_eq by lia. rewrite (Z.mul_comm j 2). by destruct (_ <? _).
Qed.

Lemma node_pair k q : (S k <= 31)%nat -> Z.odd q = false -> 0 < q <= width n k ->
  Hash (N k (q - 2)) (N k (q - 1)) = N (S k) (q / 2 - 1).
Proof.
  intros Hk Ho Hq. pose proof (odd_half q) as Hh. rewrite Ho in Hh. rewrite node_S; [|done|rewrite width_S; zdm; lia].
  rewrite (proj2 (Z.ltb_lt _ _)) by lia. f_equal; f_equal; lia.
Qed.

Lemma node_last k : (S k <= 31)%nat -> Z.odd (width n k) = true ->
  Hash (N k (width n k - 1)) (N k (width n k - 1)) = N (S k) (width n (S k) - 1).
Proof.
  intros Hk Ho. pose proof (odd_half (width n k)) as Hh. rewrite Ho in Hh. pose proof (width_pos n k ltac:(lia)).
  rewrite node_S; [|done|rewrite width_S; zdm; lia]. rewrite width_S.
  assert (E : 2 * ((width n k + 1) / 2 - 1) = width n k - 1) by (zdm; lia). rewrite E.
  rewrite (proj2 (Z.ltb_ge _ _)) by lia. done.
Qed.

(** *** Branches *)

Lemma from_branch_snoc leaf br x idx : 0 <= idx ->
  ComputeMerkleRootFromBranch Hash leaf (br ++ [x]) idx =
  let h := ComputeMerkleRootFromBranch Hash leaf br idx in
  if Z.odd (idx / 2 ^ Z.of_nat (length br)) then Hash x h else Hash h x.
Proof.
  revert leaf idx. induction br as [|y br IH]; intros leaf idx Hi.
  - cbn. rewrite Z.div_1_r. change 1 with (2 ^ 0) at 1. rewrite land_pow2 by lia.
    rewrite negb_involutive. by rewrite Z.bit0_odd.
  - cbn [app ComputeMerkleRootFromBranch]. rewrite IH by (apply Z.shiftr_nonneg; lia). cbv zeta.
    rewrite shiftr_div by lia. cbn [length]. rewrite Nat2Z.inj_succ, Z.pow_succ_r, <- Z.div_div by (lia || apply Z.pow_pos_nonneg; lia).
    done.
Qed.

Section Branch.
Variable pos : Z.
Hypothesis Hpos : 0 <= pos < n.

(** The branch [br] leads from the leaf at [pos] to its ancestor at height [k]. *)
Definition at_node (k : nat) (br : list hash) : Prop :=
  length br = k /\ ComputeMerkleRootFromBranch Hash (nth (Z.to_nat pos) leaves zero) br pos = N k (pos / 2 ^ Z.of_nat k).

Lemma pos_width k : 0 <= pos / 2 ^ Z.of_nat k /\ pos / 2 ^ Z.of_nat k + 1 <= width n k.
Proof.
  pose proof (pow2_pos k). split; [apply Z.div_pos; lia|]. unfold width.
  rewrite <- Z.div_add by lia. apply Z.div_le_mono; lia.
Qed.

Lemma at_node_0 : at_node 0 [].
Proof. split; [done|]. cbn. by rewrite Z.div_1_r. Qed.

Lemma at_node_step k br x : (S k <= 31)%nat -> at_node k br ->
  x = (if Z.odd (pos / 2 ^ Z.of_nat k) then N k (pos / 2 ^ Z.of_nat k - 1)
       else N k (if pos / 2 ^ Z.of_nat k + 1 <? width n k then pos / 2 ^ Z.of_nat k + 1 else pos / 2 ^ Z.of_nat k)) ->
  at_node (S k) (br ++ [x]).
Proof.
  intros Hk [Hl Hf] ->. split; [rewrite length_app, Hl; cbn; lia|].
  rewrite from_branch_snoc by lia. cbv zeta. rewrite Hf, Hl. destruct (pos_width k) as [H0 H1].
  pose proof (odd_half (pos / 2 ^ Z.of_nat k)) as Hh. rewrite div_pow_S.
  destruct (pos_width (S k)) as [H2 H3]. rewrite div_pow_S in H2, H3.
  rewrite (node_S k) by lia. destruct (Z.odd (pos / 2 ^ Z.of_nat k)).
  - rewrite (proj2 (Z.ltb_lt _ _)) by lia. f_equal; f_equal; lia.
  - rewrite <- (Z.add_0_r (2 * _)), <- Hh. done.
Qed.

(** *** Combining one leaf *)

Definition inner_ok (c : Z) (inner : list hash) : Prop :=
  length inner = 32%nat /\
  forall k : nat, (k < 32)%nat -> Z.odd (c / 2 ^ Z.of_nat k) = true -> nth k inner zero = N k (c / 2 ^ Z.of_nat k - 1).

(** Where the matched leaf is while the leaf [c] is combined at height [l]. *)
Definition match_ok (c : Z) (l : nat) (matchh : bool) (ml : Z) (br : list hash) : Prop :=
  (matchh = true /\ at_node l br /\ pos / 2 ^ Z.of_nat l = c / 2 ^ Z.of_nat l - 1) \/
  (matchh = false /\ c <= pos /\ ml = -1 /\ br = []) \/
  (matchh = false /\ exists m : nat, (l <= m <= 31)%nat /\ ml = Z.of_nat m /\ at_node m br /\
     Z.odd ((c - 1) / 2 ^ Z.of_nat m) = true /\ pos / 2 ^ Z.of_nat m = (c - 1) / 2 ^ Z.of_nat m - 1).

Lemma push_match_ok c l inner h matchh ml br : (S l <= 31)%nat -> 1 <= c <= n ->
  inner_ok (c - 1) inner -> divides_pow c l -> Z.odd (c / 2 ^ Z.of_nat l) = false -> h = N l (c / 2 ^ Z.of_nat l - 1) ->
  match_ok c l matchh ml br ->
  let '(matchh', br') := push_match zero true inner ml l h matchh br in match_ok c (S l) matchh' ml br'.
Proof.
  intros Hl Hc [_ Hin] Hd Ho Hh Hm. unfold push_match.
  pose proof (divides_pow_pred c l Hd) as Hp. pose proof (odd_half (c / 2 ^ Z.of_nat l)) as Hq. rewrite Ho in Hq.
  assert (Hodd : Z.odd (c / 2 ^ Z.of_nat l - 1) = true) by (rewrite Z.odd_sub, Ho; done).
  destruct Hm as [(-> & Ha & Hpl)|[(-> & Hcp & -> & ->)|(-> & m & Hlm & -> & Ha & Hmo & Hpm)]].
  - left. split_and!; [done| |rewrite !div_pow_S, Hpl; zdm; lia]. apply at_node_step; [done|done|].
    rewrite Hpl, Hodd. rewrite Hin; [|lia|by rewrite Hp, Hodd]. rewrite Hp. f_equal; lia.
  - rewrite (proj2 (Z.eqb_neq _ _)) by lia. right; left. done.
  - destruct (Z.of_nat m =? Z.of_nat l) eqn:E; zbool.
    + assert (m = l) as -> by lia. left. rewrite Hp in Hpm, Hmo. split_and!; [done| |rewrite !div_pow_S, Hpm; zdm; lia].
      apply at_node_step; [done|done|]. rewrite Hpm.
      assert (Z.odd (c / 2 ^ Z.of_nat l - 1 - 1) = false) as -> by (rewrite Z.odd_sub, Hodd; done).
      rewrite Z.sub_add. destruct (width_div n l) as [Hw _]; [lia|].
      assert (c / 2 ^ Z.of_nat l <= n / 2 ^ Z.of_nat l) by (apply Z.div_le_mono; [apply pow2_pos|lia]).
      rewrite (proj2 (Z.ltb_lt _ _)) by lia. done.
    + right; right. split; [done|]. exists m. split_and!; [lia|lia|done|done|done|done].
Qed.

Lemma combine_loop_spec pb c inner ml : 1 <= c <= n -> inner_ok (c - 1) inner -> forall fuel l st,
  (l <= 31)%nat -> (fuel + l = 32)%nat -> divides_pow c l -> ls_h st = N l (c / 2 ^ Z.of_nat l - 1) ->
  let '(l', st') := combine_loop zero Hash pb fuel inner ml c l st in
  (l <= l' <= 31)%nat /\ divides_pow c l' /\ Z.odd (c / 2 ^ Z.of_nat l') = true /\
  ls_h st' = N l' (c / 2 ^ Z.of_nat l' - 1) /\
  (ls_mutated st' = true <-> ls_mutated st = true \/
     exists k, (l <= k < l')%nat /\ N k (c / 2 ^ Z.of_nat k - 2) = N k (c / 2 ^ Z.of_nat k - 1)) /\
  (pb = true -> match_ok c l (ls_matchh st) ml (ls_branch st) -> match_ok c l' (ls_matchh st') ml (ls_branch st')).
Proof.
  intros Hc Hin. induction fuel as [|f IH]; intros l st Hl Hf Hd Hh; [lia|]. cbn [combine_loop].
  rewrite bit_clear_odd by lia. destruct (Z.odd (c / 2 ^ Z.of_nat l)) eqn:Ho; cbn [negb].
  { split_and!; try done; try lia. split; [by left|]. intros [?|(k & ? & _)]; [done|lia]. }
  pose proof (divides_pow_S c l Hd Ho) as Hd'. pose proof (odd_half (c / 2 ^ Z.of_nat l)) as Hq. rewrite Ho in Hq.
  assert (Hl31 : (S l <= 31)%nat).
  { destruct (decide (l = 31%nat)) as [->|]; [|lia]. unfold divides_pow in Hd'. change (2 ^ Z.of_nat 32) with (2 ^ 32) in Hd'.
    rewrite (Z.div_small c) in Hd' by lia. lia. }
  assert (Hle : c / 2 ^ Z.of_nat l <= width n l).
  { destruct (width_div n l) as [Hw _]; [lia|]. assert (c / 2 ^ Z.of_nat l <= n / 2 ^ Z.of_nat l) by (apply Z.div_le_mono; [apply pow2_pos|lia]). lia. }
  assert (Hq1 : 0 < c / 2 ^ Z.of_nat l).
  { unfold divides_pow in Hd. pose proof (pow2_pos l). nia. }
  assert (Hnth : nth l inner zero = N l (c / 2 ^ Z.of_nat l - 2)).
  { destruct Hin as [_ Hin]. rewrite Hin; [|lia|rewrite divides_pow_pred by done; by rewrite Z.odd_sub, Ho].
    rewrite divides_pow_pred by done. f_equal; lia. }
  destruct (push_match zero pb inner ml l (ls_h st) (ls_matchh st) (ls_branch st)) as [mh br] eqn:Ep.
  rewrite Hnth, Hh, node_pair by (done || lia).
  specialize (IH (S l) (mkLeaf (N (S l) (c / 2 ^ Z.of_nat l / 2 - 1)) mh br
     (ls_mutated st || bool_decide (N l (c / 2 ^ Z.of_nat l - 2) = N l (c / 2 ^ Z.of_nat l - 1))))).
  destruct (combine_loop _ _ _ f _ _ _ _ _) as [l' st']. cbn [ls_h ls_matchh ls_branch ls_mutated] in IH.
  destruct IH as (H1 & H2 & H3 & H4 & H5 & H6); [lia|lia|done|by rewrite div_pow_S|].
  split_and!; [lia|lia|done|done|done|..].
  - rewrite H5, orb_true_iff, bool_decide_eq_true. split.
    + intros [[?|He]|(k & Hk & He)]; [by left|right; exists l; split; [lia|done]|right; exists k; split; [lia|done]].
    + intros [?|(k & Hk & He)]; [by left; left|]. destruct (decide (k = l)) as [->|]; [by left; right|].
      right. exists k. split; [lia|done].
  - intros -> Hm. apply H6; [done|]. pose proof (push_match_ok c l inner (ls_h st) _ ml _ Hl31 Hc Hin Hd Ho Hh Hm) as Hpm.
    by rewrite Ep in Hpm.
Qed.

(** *** All leaves *)

(** Two equal siblings, both of them complete within the first [c] leaves. *)
Definition dup_below (c : Z) : Prop :=
  exists (k : nat) j, 0 <= j /\ (2 * j + 2) * 2 ^ Z.of_nat k <= c /\ N k (2 * j) = N k (2 * j + 1).

Lemma divides_pow_le c l k : divides_pow c l -> (k <= l)%nat -> divides_pow c k.
Proof.
  unfold divides_pow. intros H Hk. pose proof (pow2_pos k). rewrite H.
  replace (Z.of_nat l) with (Z.of_nat (l - k) + Z.of_nat k) by lia. rewrite !Z.pow_add_r, !Z.mul_assoc by lia.
  by rewrite Z.div_mul by lia.
Qed.

Lemma dup_below_step c l : 1 <= c -> divides_pow c l -> Z.odd (c / 2 ^ Z.of_nat l) = true ->
  (dup_below c <-> dup_below (c - 1) \/
     exists k, (0 <= k < l)%nat /\ N k (c / 2 ^ Z.of_nat k - 2) = N k (c / 2 ^ Z.of_nat k - 1)).
Proof.
  intros Hc Hd Ho. split.
  - intros (k & j & Hj & Hle & He). destruct (decide ((2 * j + 2) * 2 ^ Z.of_nat k = c)) as [Heq|];
      [|left; exists k, j; split_and!; [done|lia|done]].
    right. exists k. pose proof (pow2_pos k).
    assert (Hq : c / 2 ^ Z.of_nat k = 2 * j + 2) by (rewrite <- Heq; apply Z.div_mul; lia).
    split; [|rewrite Hq; replace (2 * j + 2 - 2) with (2 * j) by lia; by replace (2 * j + 2 - 1) with (2 * j + 1) by lia].
    split; [lia|]. destruct (decide (k < l)%nat) as [|Hkl]; [done|exfalso].
    rewrite <- Heq in Ho. replace (Z.of_nat k) with (Z.of_nat (k - l) + Z.of_nat l) in Ho by lia.
    rewrite Z.pow_add_r, Z.mul_assoc, Z.div_mul in Ho by (lia || apply Z.pow_nonzero; lia).
    replace (2 * j + 2) with (2 * (j + 1)) in Ho by lia. rewrite !Z.odd_mul in Ho. done.
  - intros [(k & j & Hj & Hle & He)|(k & Hk & He)]; [exists k, j; split_and!; [done|lia|done]|].
    pose proof (divides_pow_le c l k Hd ltac:(lia)) as Hdk. unfold divides_pow in Hdk. pose proof (pow2_pos k).
    pose proof (odd_half (c / 2 ^ Z.of_nat k)) as Hh. rewrite (divides_pow_low c l k Hd) in Hh by lia.
    exists k, (c / 2 ^ Z.of_nat k / 2 - 1). split_and!; [nia|nia|].
    replace (2 * (c / 2 ^ Z.of_nat k / 2 - 1)) with (c / 2 ^ Z.of_nat k - 2) by lia.
    by replace (c / 2 ^ Z.of_nat k - 2 + 1) with (c / 2 ^ Z.of_nat k - 1) by lia.
Qed.

Definition located (c ml : Z) (br : list hash) : Prop :=
  (c <= pos /\ ml = -1 /\ br = []) \/
  exists m : nat, (m <= 31)%nat /\ ml = Z.of_nat m /\ at_node m br /\ Z.odd (c / 2 ^ Z.of_nat m) = true /\
    pos / 2 ^ Z.of_nat m = c / 2 ^ Z.of_nat m - 1.

Lemma located_start c ml br : located (c - 1) ml br -> match_ok c 0 (c - 1 =? pos) ml br.
Proof.
  intros [(Hc & -> & ->)|(m & Hm & -> & Ha & Ho & Hp)].
  - destruct (c - 1 =? pos) eqn:E; zbool; [|right; left; split_and!; (done || lia)].
    left. split_and!; [done|apply at_node_0|]. rewrite !Z.div_1_r. lia.
  - right; right. assert (c - 1 <> pos).
    { intros E. rewrite <- E in Hp. lia. }
    split; [by apply Z.eqb_neq|]. exists m. split_and!; (done || lia).
Qed.

Lemma located_next c l matchh ml br : divides_pow c l -> Z.odd (c / 2 ^ Z.of_nat l) = true -> (l <= 31)%nat ->
  match_ok c l matchh ml br -> located c (if matchh then Z.of_nat l else ml) br.
Proof.
  intros Hd Ho Hl [(-> & Ha & Hp)|[(-> & Hc & -> & ->)|(-> & m & Hm & -> & Ha & Hmo & Hp)]].
  - right. exists l. done.
  - by left.
  - right. exists m. assert (m <> l).
    { intros ->. rewrite divides_pow_pred, Z.odd_sub, Ho in Hmo by done. done. }
    rewrite (div_pow_pred_same c l m) in Hmo, Hp by (done || lia). split_and!; (done || lia).
Qed.

Lemma inner_ok_insert c l inner : inner_ok (c - 1) inner -> divides_pow c l -> Z.odd (c / 2 ^ Z.of_nat l) = true ->
  (l <= 31)%nat -> inner_ok c (<[l := N l (c / 2 ^ Z.of_nat l - 1)]> inner).
Proof.
  intros [Hlen Hin] Hd Ho Hl. split; [by rewrite length_insert|]. intros k Hk Hodd.
  rewrite nth_lookup. destruct (decide (k = l)) as [->|Hkl]; [by rewrite list_lookup_insert_eq by lia|].
  rewrite list_lookup_insert_ne, <- nth_lookup by done.
  destruct (lt_eq_lt_dec k l) as [[Hlt|]|Hgt]; [|done|].
  - by rewrite (divides_pow_low c l k Hd Hlt) in Hodd.
  - rewrite Hin; [|lia|by rewrite (div_pow_pred_same c l k)]. by rewrite (div_pow_pred_same c l k).
Qed.

Lemma leaves_loop_spec pb branchpos : forall rest c inner ml br mu,
  rest = skipn (Z.to_nat c) leaves -> 0 <= c <= n -> inner_ok c inner -> (mu = true <-> dup_below c) ->
  (pb = true -> branchpos = pos /\ located c ml br) ->
  let '(c', inner', ml', br', mu') := leaves_loop zero Hash pb rest branchpos c inner ml br mu in
  c' = n /\ inner_ok n inner' /\ (mu' = true <-> dup_below n) /\ (pb = true -> located n ml' br').
Proof.
  intros rest. induction rest as [|h rest IH]; intros c inner ml br mu Hr Hc Hin Hmu Hml.
  { assert (c = n) as ->; [|cbn; split_and!; [done..|intros Hp; by destruct (Hml Hp)]].
    assert (length (skipn (Z.to_nat c) leaves) = 0%nat) by (by rewrite <- Hr). rewrite length_skipn in H. unfold n in *. lia. }
  assert (Hcn : c < n).
  { assert (length (h :: rest) = length leaves - Z.to_nat c)%nat by (by rewrite Hr, length_skipn). cbn in H. unfold n. lia. }
  cbn [leaves_loop]. rewrite u32_small by lia.
  assert (Hh : h = N 0 ((c + 1) / 2 ^ Z.of_nat 0 - 1)).
  { unfold N. cbn [CalcHash]. rewrite Z.div_1_r, Z.add_simpl_r. rewrite <- (firstn_skipn (Z.to_nat c) leaves) at 1.
    rewrite <- Hr, app_nth2; rewrite length_firstn; [|lia]. rewrite Nat.min_l by lia. by rewrite Nat.sub_diag. }
  assert (Hin1 : inner_ok (c + 1 - 1) inner) by (by rewrite Z.add_simpl_r).
  pose proof (combine_loop_spec pb (c + 1) inner ml ltac:(lia) Hin1 32 0
                (mkLeaf h (c =? branchpos) br mu) ltac:(lia) eq_refl) as Hs.
  destruct (combine_loop _ _ _ _ _ _ _ _ _) as [l st]. cbn [ls_h ls_matchh ls_branch ls_mutated] in Hs.
  destruct Hs as (Hl & Hd & Ho & Hh' & Hmu' & Hma); [unfold divides_pow; cbn; rewrite Z.div_1_r; lia|done|].
  apply IH.
  - replace (Z.to_nat (c + 1)) with (1 + Z.to_nat c)%nat by lia. rewrite <- skipn_skipn, <- Hr. done.
  - lia.
  - rewrite Hh'. apply inner_ok_insert; (done || lia).
  - rewrite Hmu', (dup_below_step (c + 1) l), Z.add_simpl_r, Hmu by (done || lia). done.
  - intros Hp. destruct (Hml Hp) as [-> Hloc]. split; [done|]. apply (located_next (c + 1)); [done|done|lia|].
    apply Hma; [done|]. rewrite <- (Z.add_simpl_r c 1) at 2. apply located_start. by rewrite Z.add_simpl_r.
Qed.

(** *** The final sweep *)

Lemma width_pow k : (k <= 31)%nat -> n <= width n k * 2 ^ Z.of_nat k <= 2 ^ 31.
Proof.
  intros Hk. unfold width. pose proof (pow2_pos k).
  assert (E31 : 2 ^ 31 = 2 ^ Z.of_nat (31 - k) * 2 ^ Z.of_nat k) by (rewrite <- Z.pow_add_r by lia; f_equal; lia).
  split; [pose proof (Z.mul_div_le (n + 2 ^ Z.of_nat k - 1) (2 ^ Z.of_nat k) ltac:(lia)); pose proof (Z.mod_pos_bound (n + 2 ^ Z.of_nat k - 1) (2 ^ Z.of_nat k) ltac:(lia)); rewrite Z.mod_eq in * by lia; nia|].
  rewrite E31. apply Z.mul_le_mono_nonneg_r; [lia|].
  apply Z.lt_succ_r. apply Z.div_lt_upper_bound; [lia|]. unfold Z.succ. nia.
Qed.

Definition exact_count (C : Z) (l : nat) : Prop := C = width n l * 2 ^ Z.of_nat l.

Lemma exact_count_div C l : exact_count C l -> C / 2 ^ Z.of_nat l = width n l.
Proof. intros ->. apply Z.div_mul, Z.pow_nonzero; lia. Qed.

Definition sweep_match (strict : bool) (l : nat) (matchh : bool) (ml : Z) (br : list hash) : Prop :=
  (matchh = true /\ at_node l br /\ pos / 2 ^ Z.of_nat l = width n l - 1) \/
  (matchh = false /\ exists m : nat, (if strict then l < m else l <= m)%nat /\ (m <= 31)%nat /\ ml = Z.of_nat m /\ at_node m br /\
     Z.odd (n / 2 ^ Z.of_nat m) = true /\ pos / 2 ^ Z.of_nat m = n / 2 ^ Z.of_nat m - 1).

Lemma incomplete_last C l : exact_count C l -> n < C -> n / 2 ^ Z.of_nat l = width n l - 1.
Proof.
  intros HC Hlt. destruct (width_div n l) as [H1 H2]; [lia|]. pose proof (pow2_pos l).
  assert (n / 2 ^ Z.of_nat l < width n l); [|lia]. apply Z.div_lt_upper_bound; [lia|]. rewrite HC in Hlt. lia.
Qed.

Lemma sweep_match_strict C l mh ml br : exact_count C l -> n < C -> Z.odd (width n l) = true ->
  sweep_match false l mh ml br -> sweep_match true l mh ml br.
Proof.
  intros HC Hlt Ho [H|(-> & m & Hm & Hm31 & -> & Ha & Hmo & Hp)]; [by left|]. right. split; [done|]. exists m.
  assert (m <> l).
  { intros ->. rewrite (incomplete_last C l HC Hlt), Z.odd_sub, Ho in Hmo. done. }
  split_and!; (done || lia).
Qed.

Lemma sweep_up_spec pb C inner ml : inner_ok n inner -> n < C <= 2 ^ 31 -> forall fuel l h mh br,
  (l <= 31)%nat -> (32 <= fuel + l)%nat -> exact_count C l -> h = N l (width n l - 1) ->
  (l = 0%nat \/ 1 < width n (l - 1)) ->
  let '(l', h', mh', br') := sweep_up zero Hash pb fuel inner ml C l h mh br in
  (l <= l' <= 31)%nat /\ exact_count C l' /\ Z.odd (width n l') = true /\ h' = N l' (width n l' - 1) /\
  (l' = 0%nat \/ 1 < width n (l' - 1)) /\
  (pb = true -> sweep_match false l mh ml br -> sweep_match true l' mh' ml br').
Proof.
  intros [_ Hin] HC. induction fuel as [|f IH]; intros l h mh br Hl Hf He Hh Hw; [lia|]. cbn [sweep_up].
  rewrite bit_clear_odd, (exact_count_div C l He) by lia. destruct (Z.odd (width n l)) eqn:Ho; cbn [negb].
  { split_and!; try done; try lia. intros _ Hm. apply (sweep_match_strict C); (done || lia). }
  pose proof (odd_half (width n l)) as Hq. rewrite Ho in Hq. pose proof (width_pos n l ltac:(lia)) as Hw1.
  assert (Hl31 : (S l <= 31)%nat) by (destruct (decide (l = 31%nat)) as [->|]; [rewrite width_31 in Hq by lia; lia|lia]).
  pose proof (incomplete_last C l He ltac:(lia)) as Hinc.
  assert (Hnth : nth l inner zero = N l (width n l - 2)).
  { rewrite Hin; [|lia|by rewrite Hinc, Z.odd_sub, Ho]. rewrite Hinc. f_equal; lia. }
  assert (HwS : width n l / 2 = width n (S l)) by (rewrite width_S; zdm; lia).
  destruct (push_match zero pb inner ml l h mh br) as [mh1 br1] eqn:Ep.
  rewrite Hnth, Hh, node_pair, HwS by (done || lia).
  specialize (IH (S l) (N (S l) (width n (S l) - 1)) mh1 br1).
  destruct (sweep_up _ _ _ f _ _ _ _ _ _ _) as [[[l' h'] mh'] br'].
  destruct IH as (H1 & H2 & H3 & H4 & H5 & H6); [lia|lia| |done|right; rewrite Nat.sub_1_r; cbn; lia|].
  { unfold exact_count in *. rewrite He, <- HwS, Nat2Z.inj_succ, Z.pow_succ_r by lia. rewrite Hq at 1. lia. }
  split_and!; [lia|lia|done..|]. intros -> Hm. apply H6; [done|]. unfold push_match in Ep.
  destruct Hm as [(-> & Ha & Hp)|(-> & m & Hm & Hm31 & -> & Ha & Hmo & Hp)].
  - injection Ep as <- <-. left. split_and!; [done| |rewrite div_pow_S, Hp; zdm; lia].
    apply at_node_step; [done|done|]. rewrite Hp, Z.odd_sub, Ho. cbn. rewrite Hnth. f_equal; lia.
  - destruct (Z.of_nat m =? Z.of_nat l) eqn:E; zbool; injection Ep as <- <-.
    + assert (m = l) as -> by lia. left. split_and!; [done| |rewrite div_pow_S, Hp; zdm; lia].
      apply at_node_step; [done|done|]. rewrite Hp, Hinc.
      assert (Z.odd (width n l - 1 - 1) = false) as -> by (rewrite !Z.odd_sub, Ho; done).
      rewrite (proj2 (Z.ltb_lt _ _)) by lia. rewrite Hh. f_equal; lia.
    + right. split; [done|]. exists m. split_and!; (done || lia).
Qed.

Lemma sweep_spec pb inner ml : inner_ok n inner -> forall fuel C l h mh br,
  (l <= 31)%nat -> (32 <= fuel + l)%nat -> exact_count C l -> Z.odd (width n l) = true -> h = N l (width n l - 1) ->
  (l = 0%nat \/ 1 < width n (l - 1)) -> (pb = true -> sweep_match true l mh ml br) ->
  let '(root, br') := sweep zero Hash pb fuel inner ml C l h mh br in
  root = N (tree_height n) 0 /\ (pb = true -> at_node (tree_height n) br').
Proof.
  intros Hin. induction fuel as [|f IH]; intros C l h mh br Hl Hf He Ho Hh Hw Hm; [lia|]. cbn [sweep].
  pose proof (pow2_pos l) as Hpl. pose proof (width_pow l Hl) as Hwp. rewrite <- He in Hwp.
  assert (Hu : u32 (Z.shiftl 1 (Z.of_nat l)) = 2 ^ Z.of_nat l).
  { rewrite Z.shiftl_1_l. apply u32_small. split; [lia|apply Z.pow_lt_mono_r; lia]. }
  rewrite Hu. pose proof (width_pos n l ltac:(lia)) as Hw1. destruct (C =? 2 ^ Z.of_nat l) eqn:E; zbool.
  { assert (Hone : width n l = 1) by (unfold exact_count in He; nia).
    rewrite (tree_height_unique n l Hn Hone Hw), Hh, Hone. split; [done|]. intros Hp.
    destruct (Hm Hp) as [(_ & Ha & _)|(_ & m & Hlm & _ & _ & _ & Hmo & _)]; [done|exfalso].
    rewrite Z.div_small in Hmo; [done|]. split; [lia|]. apply Z.le_lt_trans with (2 ^ Z.of_nat l); [lia|]. apply Z.pow_lt_mono_r; lia. }
  pose proof (odd_half (width n l)) as Hq. rewrite Ho in Hq.
  assert (Hw3 : 3 <= width n l) by (unfold exact_count in He; nia).
  assert (Hl31 : (S l <= 31)%nat) by (destruct (decide (l = 31%nat)) as [->|]; [rewrite width_31 in Hw3 by lia; lia|lia]).
  assert (He' : exact_count (C + 2 ^ Z.of_nat l) (S l)).
  { unfold exact_count in *. rewrite width_S, Nat2Z.inj_succ, Z.pow_succ_r by lia.
    assert ((width n l + 1) / 2 = width n l / 2 + 1) as -> by (zdm; lia). nia. }
  pose proof (width_pow (S l) Hl31) as HwpS. rewrite <- He' in HwpS. rewrite u32_small by lia.
  assert (Hh' : Hash h h = N (S l) (width n (S l) - 1)) by (rewrite Hh; by apply node_last).
  pose proof (sweep_up_spec pb (C + 2 ^ Z.of_nat l) inner ml Hin ltac:(lia) 32 (S l) (Hash h h) mh
                (if pb && mh then br ++ [h] else br) Hl31 ltac:(lia) He' Hh') as Hs.
  destruct (sweep_up _ _ _ 32 _ _ _ _ _ _ _) as [[[l' h'] mh'] br'].
  destruct Hs as (H1 & H2 & H3 & H4 & H5 & H6); [right; rewrite Nat.sub_1_r; cbn; lia|].
  apply IH; try done; try lia. intros Hp. apply H6; [done|]. destruct (Hm Hp) as [(-> & Ha & Hpl')|(-> & m & Hlm & Hm31 & -> & Ha & Hmo & Hpm)].
  - rewrite Hp. cbn [andb]. left. split_and!; [done| |rewrite div_pow_S, width_S, Hpl'; zdm; lia].
    apply at_node_step; [done|done|]. rewrite Hpl', Z.odd_sub, Ho. cbn. rewrite (proj2 (Z.ltb_ge _ _)) by lia. done.
  - rewrite andb_false_r. right. split; [done|]. exists m. split_and!; (done || lia).
Qed.

Lemma skip_levels_spec : forall fuel l, (l <= 31)%nat -> (32 <= fuel + l)%nat -> divides_pow n l ->
  (l = 0%nat \/ 1 < width n (l - 1)) ->
  let l' := skip_levels fuel n l in
  (l' <= 31)%nat /\ divides_pow n l' /\ Z.odd (n / 2 ^ Z.of_nat l') = true /\ (l' = 0%nat \/ 1 < width n (l' - 1)).
Proof.
  induction fuel as [|f IH]; intros l Hl Hf Hd Hw; [lia|]. cbn [skip_levels]. rewrite bit_clear_odd by lia.
  destruct (Z.odd (n / 2 ^ Z.of_nat l)) eqn:Ho; cbn [negb]; [done|].
  pose proof (divides_pow_S n l Hd Ho) as Hd'. pose proof (odd_half (n / 2 ^ Z.of_nat l)) as Hq. rewrite Ho in Hq.
  assert (Hpos' : 0 < n / 2 ^ Z.of_nat l) by (unfold divides_pow in Hd; pose proof (pow2_pos l); nia).
  destruct (width_div n l) as [Hwd _]; [lia|].
  apply IH; [|lia|done|right; rewrite Nat.sub_1_r; cbn; lia].
  destruct (decide (l = 31%nat)) as [->|]; [|lia]. unfold divides_pow in Hd'. change (2 ^ Z.of_nat 32) with (2 ^ 32) in Hd'.
  rewrite (Z.div_small n) in Hd' by lia. lia.
Qed.

Lemma MerkleComputation_spec pb branchpos : (pb = true -> branchpos = pos) ->
  let '(root, mutated, br) := MerkleComputation zero Hash pb leaves branchpos in
  root = N (tree_height n) 0 /\ (mutated = true <-> dup_below n) /\
  (pb = true -> ComputeMerkleRootFromBranch Hash (nth (Z.to_nat pos) leaves zero) br pos = root /\ length br = tree_height n).
Proof.
  intros Hbp. unfold MerkleComputation. rewrite bool_decide_false by (intros E; unfold n in Hn; rewrite E in Hn; cbn in Hn; lia).
  pose proof (leaves_loop_spec pb branchpos leaves 0 (repeat zero 32) (-1) [] false eq_refl ltac:(lia)) as Hl.
  destruct (leaves_loop _ _ _ _ _ _ _ _ _ _) as [[[[C inner] ml] br] mu]. destruct Hl as (-> & Hin & Hmu & Hloc).
  { split; [done|]. intros k Hk Ho. by rewrite Zdiv_0_l in Ho. }
  { split; [done|]. intros (k & j & Hj & Hle & _). pose proof (pow2_pos k). nia. }
  { intros Hp. split; [by apply Hbp|]. left. split_and!; (done || lia). }
  destruct (skip_levels_spec 32 0 ltac:(lia) ltac:(lia)) as (Hl31 & Hd & Ho & Hw); [unfold divides_pow; cbn; rewrite Z.div_1_r; lia|by left|].
  set (l := skip_levels 32 n 0) in *. assert (Hwl : width n l = n / 2 ^ Z.of_nat l).
  { unfold divides_pow in Hd. unfold width. pose proof (pow2_pos l). symmetry. apply Z.div_unique with (2 ^ Z.of_nat l - 1); lia. }
  pose proof (sweep_spec pb inner ml Hin 32 n l (nth l inner zero) (ml =? Z.of_nat l) br Hl31 ltac:(lia)) as Hs.
  destruct (sweep _ _ _ _ _ _ _ _ _ _ _) as [root br']. destruct Hs as [-> Ha]; try done.
  - unfold exact_count. rewrite Hwl. exact Hd.
  - by rewrite Hwl.
  - rewrite Hwl. destruct Hin as [_ Hin]. by apply Hin; [lia|].
  - intros Hp. destruct (Hloc Hp) as [(? & _)|(m & Hm & -> & Ham & Hmo & Hpm)]; [lia|].
    destruct (Z.of_nat m =? Z.of_nat l) eqn:E; zbool.
    + assert (m = l) as -> by lia. left. rewrite Hwl. done.
    + right. split; [done|]. exists m. split_and!; try done.
      destruct (decide (m < l)%nat) as [Hml|]; [|lia]. by rewrite (divides_pow_low n l m Hd Hml) in Hmo.
  - split_and!; [done|done|]. intros Hp. destruct (Ha Hp) as [Hlen Hfb]. split; [|done]. rewrite Hfb. f_equal.
    destruct (pos_width (tree_height n)) as [H0 H1]. destruct (tree_height_spec n Hn) as (Hone & _). lia.
Qed.

End Branch.

(** *** Partial trees *)

Section Partial.
Variable vMatch : list bool.
Hypothesis HvMatch : length vMatch = length leaves.

(** The leaves below a node. *)
Definition first_leaf (k : nat) (p : Z) : Z := p * 2 ^ Z.of_nat k.
Definition end_leaf (k : nat) (p : Z) : Z := Z.min ((p + 1) * 2 ^ Z.of_nat k) n.
(** The matched leaves from index [lo], in order. *)
Definition found (lo len : Z) : list (hash * Z) :=
  flat_map (fun i => if nth (Z.to_nat i) vMatch false then [(nth (Z.to_nat i) leaves zero, i)] else []) (seqZ lo len).
Definition found_below (k : nat) (p : Z) : list (hash * Z) := found (first_leaf k p) (end_leaf k p - first_leaf k p).

Lemma any_match_found k p hi : (Z.to_nat (Z.min hi n - p) <= k)%nat ->
  any_match k p hi n vMatch = false -> found p (Z.min hi n - p) = [].
Proof.
  unfold found. revert p. induction k as [|k IH]; intros p Hk Hf; cbn [any_match] in Hf.
  { rewrite seqZ_nil by lia. done. }
  destruct ((p <? hi) && (p <? n)) eqn:E.
  - apply orb_false_iff in Hf as [Hp Hf]. zbool. rewrite seqZ_cons by lia. cbn [flat_map]. rewrite Hp. cbn [app].
    replace (Z.pred (Z.min hi n - p)) with (Z.min hi n - Z.succ p) by lia. apply IH; [lia|]. by replace (Z.succ p) with (p + 1) by lia.
  - rewrite seqZ_nil; [done|]. apply andb_false_iff in E as [E|E]; zbool; lia.
Qed.

Lemma leaf_range k p : 0 <= p < width n k -> 0 <= first_leaf k p < end_leaf k p /\ end_leaf k p <= n.
Proof.
  intros Hp. unfold first_leaf, end_leaf. pose proof (pow2_pos k).
  assert (p * 2 ^ Z.of_nat k < n); [|nia]. unfold width in Hp.
  pose proof (Z.mul_div_le (n + 2 ^ Z.of_nat k - 1) (2 ^ Z.of_nat k) ltac:(lia)). nia.
Qed.

Lemma unmatched_below k p : 0 <= p < width n k -> parent_of_match n k p vMatch = false -> found_below k p = [].
Proof.
  intros Hp Hf. pose proof (leaf_range k p Hp) as [Hr1 Hr2]. unfold parent_of_match in Hf. rewrite !shiftl_mul in Hf by lia.
  unfold found_below, end_leaf, first_leaf in *. apply any_match_found with (k := length vMatch); [|done].
  rewrite HvMatch. unfold n in *. lia.
Qed.

Lemma leaf_match p : 0 <= p < n -> parent_of_match n 0 p vMatch = nth (Z.to_nat p) vMatch false.
Proof.
  intros Hp. unfold parent_of_match. rewrite !shiftl_mul by lia. rewrite !Z.mul_1_r, HvMatch.
  destruct (length leaves) as [|m] eqn:El; [exfalso; unfold n in Hp; cbn in Hp; lia|]. cbn [any_match].
  rewrite (proj2 (Z.ltb_lt p (p + 1))), (proj2 (Z.ltb_lt p n)) by lia. cbn [andb].
  destruct m; cbn [any_match]; rewrite ?Z.ltb_irrefl; apply orb_false_r.
Qed.

Lemma found_split k p : (S k <= 31)%nat -> 0 <= p < width n (S k) ->
  found_below (S k) p = found_below k (2 * p) ++ (if 2 * p + 1 <? width n k then found_below k (2 * p + 1) else []).
Proof.
  intros Hk Hp. rewrite width_S in Hp. unfold found_below, first_leaf, end_leaf.
  rewrite Nat2Z.inj_succ, Z.pow_succ_r by lia. pose proof (pow2_pos k) as Hpk. set (q := 2 ^ Z.of_nat k) in *.
  assert (Hlt : 2 * p * q < n).
  { destruct (leaf_range k (2 * p)) as [H1 H2]; [zdm; lia|]. unfold first_leaf in *. fold q in H1. lia. }
  destruct (2 * p + 1 <? width n k) eqn:E; zbool.
  - destruct (leaf_range k (2 * p + 1)) as [H1 H2]; [lia|]. unfold first_leaf, end_leaf in H1. fold q in H1.
    unfold found. rewrite <- flat_map_app. f_equal.
    set (X := Z.min ((2 * p + 1 + 1) * q) n - (2 * p + 1) * q).
    assert (Eb : Z.min ((2 * p + 1) * q) n = 2 * p * q + q) by nia. rewrite Eb.
    replace (p * (2 * q)) with (2 * p * q) by ring. replace (2 * p * q + q - 2 * p * q) with q by lia.
    replace ((2 * p + 1) * q) with (2 * p * q + q) by ring. rewrite <- seqZ_app by (unfold X; nia). f_equal. unfold X. nia.
  - rewrite app_nil_r. unfold found. f_equal. replace (p * (2 * q)) with (2 * p * q) by ring. f_equal.
    assert (n <= (2 * p + 1) * q); [|nia]. destruct (width_div n k) as [_ Hw]; [lia|].
    destruct (Z.le_gt_cases n ((2 * p + 1) * q)) as [|Hgt]; [done|exfalso].
    assert (2 * p + 2 <= width n k); [|lia]. unfold width. apply Z.div_le_lower_bound; [lia|]. fold q. lia.
Qed.

(** No two different nodes of a level are siblings with the same hash. *)
Definition no_equal_siblings : Prop := forall (k : nat) j, 0 <= j -> 2 * j + 1 < width n k -> N k (2 * j) <> N k (2 * j + 1).

Lemma build_sizes k : (k <= 31)%nat -> forall p, 0 <= p < width n k ->
  let '(b, h) := TraverseAndBuild zero Hash n k p leaves vMatch in
  (length h <= length b)%nat /\ 1 <= Z.of_nat (length h) <= end_leaf k p - first_leaf k p /\
  Z.of_nat (length b) <= Z.of_nat (k + 1) * (end_leaf k p - first_leaf k p).
Proof.
  induction k as [|k IH]; intros Hk p Hp; pose proof (leaf_range _ p Hp) as [Hr1 Hr2]; cbn [TraverseAndBuild].
  { cbn. lia. }
  destruct (negb (parent_of_match n (S k) p vMatch)); [cbn [length]; nia|].
  pose proof Hp as Hp'. rewrite width_S in Hp'. pose proof (width_bound n k ltac:(lia)).
  assert (0 <= p * 2 /\ p * 2 + 1 < 2 ^ 32) by (zdm; lia). rewrite !u32_small, CalcTreeWidth_eq by lia.
  rewrite (Z.mul_comm p 2). specialize (IH ltac:(lia)) as IHk. pose proof (IHk (2 * p) ltac:(zdm; lia)) as H1.
  destruct (TraverseAndBuild _ _ _ k (2 * p) _ _) as [b1 h1]. pose proof (pow2_pos k) as Hpk.
  assert (Hsplit : end_leaf (S k) p - first_leaf (S k) p = end_leaf k (2 * p) - first_leaf k (2 * p)
     + (if 2 * p + 1 <? width n k then end_leaf k (2 * p + 1) - first_leaf k (2 * p + 1) else 0)).
  { unfold end_leaf, first_leaf in *. rewrite Nat2Z.inj_succ, Z.pow_succ_r in * by lia. set (q := 2 ^ Z.of_nat k) in *.
    destruct (2 * p + 1 <? width n k) eqn:E; zbool.
    - destruct (leaf_range k (2 * p + 1)) as [H5 H6]; [lia|]. unfold first_leaf, end_leaf in H5. fold q in H5. nia.
    - assert (n <= (2 * p + 1) * q); [|nia]. destruct (Z.le_gt_cases n ((2 * p + 1) * q)) as [|Hgt]; [done|exfalso].
      assert (2 * p + 2 <= width n k); [|lia]. unfold width. apply Z.div_le_lower_bound; [lia|]. fold q. lia. }
  rewrite Hsplit. destruct (2 * p + 1 <? width n k) eqn:E; zbool.
  - pose proof (IHk (2 * p + 1) ltac:(lia)) as H2. destruct (TraverseAndBuild _ _ _ k (2 * p + 1) _ _) as [b2 h2].
    cbn [length]. rewrite !length_app. nia.
  - cbn [length]. rewrite !app_nil_r. nia.
Qed.

Lemma extract_build k : (k <= 31)%nat -> no_equal_siblings -> forall p bits hashes m, 0 <= p < width n k ->
  let '(b, h) := TraverseAndBuild zero Hash n k p leaves vMatch in
  TraverseAndExtract zero Hash n k p (mkCur (b ++ bits) (h ++ hashes) false m) =
  (N k p, mkCur bits hashes false (m ++ found_below k p)).
Proof.
  intros Hk Hns. induction k as [|k IH]; intros p bits hashes m Hp; cbn [TraverseAndBuild].
  { rewrite width_0 in Hp. cbn [TraverseAndExtract app cu_bits cu_hashes cu_bad cu_match].
    rewrite leaf_match by done. unfold found_below, first_leaf, end_leaf. cbn [Z.of_nat]. rewrite Z.pow_0_r, !Z.mul_1_r.
    rewrite Z.min_l by lia. replace (p + 1 - p) with 1 by lia. unfold found. rewrite seqZ_cons by lia. cbn [flat_map].
    rewrite seqZ_nil by lia. cbn [flat_map andb]. rewrite app_nil_r.
    destruct (nth (Z.to_nat p) vMatch false); [done|]. by rewrite app_nil_r. }
  destruct (parent_of_match n (S k) p vMatch) eqn:Epm; cbn [negb].
  2: { cbn [TraverseAndExtract app cu_bits cu_hashes cu_bad cu_match negb andb]. by rewrite (unmatched_below (S k) p Hp Epm), app_nil_r. }
  pose proof Hp as Hp'. rewrite width_S in Hp'. pose proof (width_bound n k ltac:(lia)).
  assert (0 <= p * 2 /\ p * 2 + 1 < 2 ^ 32) by (zdm; lia). rewrite !u32_small, CalcTreeWidth_eq by lia.
  rewrite (Z.mul_comm p 2). specialize (IH ltac:(lia)).
  destruct (TraverseAndBuild _ _ _ k (2 * p) _ _) as [b1 h1] eqn:E1. rewrite found_split, node_S by (done || lia).
  pose proof (fun bits hashes m => IH (2 * p) bits hashes m ltac:(zdm; lia)) as IH1. rewrite E1 in IH1.
  destruct (2 * p + 1 <? width n k) eqn:E; zbool.
  - pose proof (fun bits hashes m => IH (2 * p + 1) bits hashes m ltac:(lia)) as IH2.
    destruct (TraverseAndBuild _ _ _ k (2 * p + 1) _ _) as [b2 h2].
    cbn [TraverseAndExtract app cu_bits cu_hashes cu_bad cu_match negb]. rewrite !u32_small, CalcTreeWidth_eq by lia.
    rewrite (Z.mul_comm p 2), <- !app_assoc, IH1, (proj2 (Z.ltb_lt _ _)), IH2 by lia.
    rewrite bool_decide_false by (intros Heq; apply (Hns k p); [lia|lia|done]). by rewrite <- app_assoc.
  - cbn [TraverseAndExtract app cu_bits cu_hashes cu_bad cu_match negb]. rewrite !u32_small, CalcTreeWidth_eq by lia.
    rewrite (Z.mul_comm p 2), !app_nil_r, IH1, (proj2 (Z.ltb_ge _ _)) by lia. done.
Qed.

End Partial.

(** *** Soundness of extraction *)

Definition collision : Prop := exists a b c d, (a, b) <> (c, d) /\ Hash a b = Hash c d.

Lemma extract_bad_mono m k p c r c' : TraverseAndExtract zero Hash m k p c = (r, c') -> cu_bad c' = false -> cu_bad c = false.
Proof.
  revert p c r c'. induction k as [|k IH]; intros p c r c' He Hb; cbn [TraverseAndExtract] in He;
    destruct (cu_bits c) as [|f bits]; [by injection He as <- <-| |by injection He as <- <-|].
  { destruct (cu_hashes c); injection He as <- <-; done. }
  destruct (negb f). { destruct (cu_hashes c); injection He as <- <-; done. }
  destruct (TraverseAndExtract _ _ _ k (u32 (p * 2)) _) as [l c1] eqn:E1.
  assert (cu_bad c1 = false -> cu_bad c = false) as H1 by (intros H1; by apply (IH _ _ _ _ E1)).
  destruct (_ <? _); [|injection He as <- <-; auto].
  destruct (TraverseAndExtract _ _ _ k (u32 (p * 2 + 1)) _) as [r2 c2] eqn:E2.
  injection He as <- <-. case_bool_decide; [done|]. apply H1. by apply (IH _ _ _ _ E2).
Qed.

Lemma extract_sound k : (k <= 31)%nat -> forall p c r c', 0 <= p < width n k ->
  TraverseAndExtract zero Hash n k p c = (r, c') -> cu_bad c' = false -> r = N k p ->
  collision \/ forall x i, (x, i) ∈ cu_match c' -> (x, i) ∈ cu_match c \/ (0 <= i < n /\ x = nth (Z.to_nat i) leaves zero).
Proof.
  intros Hk. induction k as [|k IH]; intros p c r c' Hp He Hb Hr; cbn [TraverseAndExtract] in He;
    destruct (cu_bits c) as [|f bits]; [by injection He as <- <-| |by injection He as <- <-|].
  { rewrite width_0 in Hp. destruct (cu_hashes c); injection He as <- <-; [done|]. right. intros x i. cbn.
    destruct f; [|by left]. rewrite elem_of_app, list_elem_of_singleton. intros [?|[= -> ->]]; [by left|]. right. split; [done|]. exact Hr. }
  destruct (negb f). { destruct (cu_hashes c); injection He as <- <-; [done|]. right. intros x i. by left. }
  pose proof Hp as Hp'. rewrite width_S in Hp'. pose proof (width_bound n k ltac:(lia)).
  assert (0 <= p * 2 /\ p * 2 + 1 < 2 ^ 32) by (zdm; lia). rewrite !u32_small, CalcTreeWidth_eq in He by lia.
  rewrite (Z.mul_comm p 2) in He. rewrite node_S in Hr by (done || lia). specialize (IH ltac:(lia)).
  destruct (TraverseAndExtract _ _ _ k (2 * p) _) as [l c1] eqn:E1.
  assert (Hp2 : 0 <= 2 * p < width n k) by (zdm; lia). pose proof (fun Hb1 Hl => IH _ _ _ _ Hp2 E1 Hb1 Hl) as IH1. cbn [cu_match] in IH1.
  assert (Hcol : forall a b x y, Hash a b = Hash x y -> collision \/ (a = x /\ b = y)).
  { intros a b x y Hxy. destruct (decide ((a, b) = (x, y))) as [[= -> ->]|Hne]; [by right|left; by exists a, b, x, y]. }
  destruct (2 * p + 1 <? width n k) eqn:Ew; zbool.
  - destruct (TraverseAndExtract _ _ _ k (2 * p + 1) _) as [r2 c2] eqn:E2.
    assert (Hb2 : cu_bad c2 = false /\ r = Hash l r2 /\ cu_match c' = cu_match c2).
    { injection He as <- <-. case_bool_decide; done. }
    destruct Hb2 as (Hb2 & -> & ->). destruct (Hcol _ _ _ _ Hr) as [?|[-> ->]]; [by left|].
    pose proof (extract_bad_mono _ _ _ _ _ _ E2 Hb2) as Hb1.
    destruct (IH1 Hb1 eq_refl) as [?|H1]; [by left|].
    assert (Hp3 : 0 <= 2 * p + 1 < width n k) by lia.
    destruct (IH _ _ _ _ Hp3 E2 Hb2 eq_refl) as [?|H2]; [by left|]. right. intros x i Hx.
    destruct (H2 x i Hx) as [Hx1|?]; [by apply H1|by right].
  - injection He as <- <-. destruct (Hcol _ _ _ _ Hr) as [?|[-> _]]; [by left|]. by apply IH1.
Qed.

End MerkleLemmas.

(** *** Packing the flag bits *)

Lemma pack_byte_bit bits : forall p i, 0 <= p -> 0 <= i ->
  Z.testbit (pack_byte p bits) i = (p <=? i) && nth (Z.to_nat (i - p)) bits false.
Proof.
  induction bits as [|b bits IH]; intros p i Hp Hi; cbn [pack_byte].
  { rewrite Z.bits_0. destruct (Z.to_nat (i - p)); by rewrite andb_false_r. }
  rewrite Z.lor_spec, IH by lia. destruct (Z.lt_ge_cases i p) as [Hlt|Hge].
  { rewrite Z.shiftl_spec_low, (proj2 (Z.leb_gt p i)), (proj2 (Z.leb_gt (p + 1) i)) by lia. done. }
  rewrite Z.shiftl_spec by lia. rewrite (proj2 (Z.leb_le p i)) by lia. cbn [andb].
  destruct (decide (i = p)) as [->|Hne].
  - rewrite Z.sub_diag, (proj2 (Z.leb_gt (p + 1) p)) by lia. cbn. rewrite orb_false_r. by destruct b.
  - rewrite (proj2 (Z.leb_le (p + 1) i)) by lia. replace (Z.to_nat (i - p)) with (S (Z.to_nat (i - (p + 1)))) by lia.
    cbn [nth andb]. rewrite (testbit_above 1); [done|destruct b; cbn; lia|lia].
Qed.

Lemma unpack_byte bits : (length bits <= 8)%nat ->
  map (fun p => negb (Z.land (pack_byte 0 bits) (Z.shiftl 1 p) =? 0)) [0; 1; 2; 3; 4; 5; 6; 7] = bits ++ repeat false (8 - length bits).
Proof.
  intros Hl. assert (E : forall p, 0 <= p -> negb (Z.land (pack_byte 0 bits) (Z.shiftl 1 p) =? 0) = nth (Z.to_nat p) bits false).
  { intros p Hp. rewrite Z.shiftl_1_l, land_pow2, negb_involutive, pack_byte_bit, Z.sub_0_r by lia.
    by rewrite (proj2 (Z.leb_le 0 p)). }
  cbn [map]. rewrite !E by lia. clear E.
  do 9 (destruct bits as [|? bits]; [reflexivity|]). cbn in Hl. lia.
Qed.

Lemma unpack_pack fuel : forall bits, (length bits <= fuel)%nat ->
  exists pad, (pad < 8)%nat /\ ((Z.of_nat (length bits) + Z.of_nat pad) mod 8 = 0) /\
  unpack_bits (pack_bits fuel bits) = bits ++ repeat false pad /\ (length (pack_bits fuel bits) <= length bits)%nat.
Proof.
  induction fuel as [|f IH]; intros bits Hl.
  { destruct bits; [|cbn in Hl; lia]. exists 0%nat. repeat split; cbn; lia. }
  cbn [pack_bits]. destruct bits as [|b0 bits'] eqn:Eb; [exists 0%nat; repeat split; cbn; lia|].
  rewrite <- Eb in *. assert (Hpos : (1 <= length bits)%nat) by (rewrite Eb; cbn; lia).
  destruct (IH (skipn 8 bits)) as (pad & Hp & Hm & Hu & Hlen); [rewrite length_skipn; lia|].
  unfold unpack_bits in *. cbn [flat_map]. rewrite Hu. change (fun p => negb _) with (fun p => negb (Z.land (pack_byte 0 (firstn 8 bits)) (Z.shiftl 1 p) =? 0)).
  rewrite unpack_byte by (rewrite length_firstn; lia). rewrite length_firstn, length_skipn in *.
  destruct (Nat.le_gt_cases 8 (length bits)) as [H8|H8].
  - exists pad. rewrite Nat.min_l by lia. split_and!; [done| | |cbn [length]; lia].
    + rewrite Nat2Z.inj_sub in Hm by lia. change (Z.of_nat 8) with 8 in Hm. zdm; lia.
    + cbn [Nat.sub repeat]. by rewrite app_nil_r, app_assoc, firstn_skipn.
  - rewrite firstn_all2, skipn_all2 in * by lia. cbn [length] in *. replace (length bits - 8)%nat with 0%nat in Hm by lia.
    assert (pad = 0%nat) as -> by (zdm; lia). exists (8 - length bits)%nat.
    rewrite Nat.min_r by lia. cbn [repeat app]. rewrite !app_nil_r. split_and!; [lia| |done|lia].
    rewrite Nat2Z.inj_sub by lia. change (Z.of_nat 8) with 8. zdm; lia.
Qed.

(** ** Properties *)

(** C39: the constant-space calculator returns the root of the reference tree, in
    which an odd level repeats its last node, for up to [2^31] leaves, and its
    mutation flag is set exactly when two complete sibling subtrees have the
    same hash. *)
Theorem merkle_root_correct {hash : Type} `{EqDecision hash} (zero : hash) (Hash : hash -> hash -> hash) leaves :
  1 <= Z.of_nat (length leaves) <= 2 ^ 31 ->
  let n := Z.of_nat (length leaves) in
  fst (ComputeMerkleRoot zero Hash leaves) = CalcHash zero Hash n (tree_height n) 0 leaves /\
  (snd (ComputeMerkleRoot zero Hash leaves) = true <-> dup_below zero Hash leaves n).
Proof.
  intros Hn n. pose proof (MerkleComputation_spec zero Hash leaves Hn 0 ltac:(lia) false (2 ^ 32 - 1)) as Hs.
  unfold ComputeMerkleRoot. destruct (MerkleComputation _ _ _ _ _) as [[root mu] br]. by destruct Hs as (-> & Hm & _).
Qed.

Lemma merkle_root_correct_witness :
  fst (ComputeMerkleRoot 0 (fun a b => 10 * a + b) [1; 2; 3; 4; 5]) = CalcHash 0 (fun a b => 10 * a + b) 5 (tree_height 5) 0 [1; 2; 3; 4; 5].
Proof. apply (merkle_root_correct 0 (fun a b => 10 * a + b) [1; 2; 3; 4; 5]). cbn. lia. Defined.

Lemma from_branch_inj {hash : Type} `{EqDecision hash} (Hash : hash -> hash -> hash) b1 : forall b2 x y idx,
  length b1 = length b2 -> ComputeMerkleRootFromBranch Hash x b1 idx = ComputeMerkleRootFromBranch Hash y b2 idx ->
  collision Hash \/ (x = y /\ b1 = b2).
Proof.
  induction b1 as [|a b1 IH]; intros [|b b2] x y idx Hl He; try done; [by right|].
  cbn in Hl, He. destruct (IH b2 _ _ _ ltac:(lia) He) as [?|[Hh ->]]; [by left|].
  destruct (negb _).
  - destruct (decide ((a, x) = (b, y))) as [[= -> ->]|Hne]; [by right|left; by exists a, x, b, y].
  - destruct (decide ((x, a) = (y, b))) as [[= -> ->]|Hne]; [by right|left; by exists x, a, y, b].
Qed.

(** the branch computed for a position has the height of the tree and
    verifies against the root; and any leaf that verifies at that position with a
    branch of that length is the leaf there, unless a collision of the hash is at
    hand. *)
Theorem merkle_branch_correct {hash : Type} `{EqDecision hash} (zero : hash) (Hash : hash -> hash -> hash) leaves pos :
  1 <= Z.of_nat (length leaves) <= 2 ^ 31 -> 0 <= pos < Z.of_nat (length leaves) ->
  let root := fst (ComputeMerkleRoot zero Hash leaves) in
  let branch := ComputeMerkleBranch zero Hash leaves pos in
  let leaf := nth (Z.to_nat pos) leaves zero in
  length branch = tree_height (Z.of_nat (length leaves)) /\
  ComputeMerkleRootFromBranch Hash leaf branch pos = root /\
  forall x br, length br = length branch -> ComputeMerkleRootFromBranch Hash x br pos = root -> collision Hash \/ x = leaf.
Proof.
  intros Hn Hp root branch leaf.
  pose proof (MerkleComputation_spec zero Hash leaves Hn pos Hp false (2 ^ 32 - 1)) as Hr.
  pose proof (MerkleComputation_spec zero Hash leaves Hn pos Hp true pos (fun _ => eq_refl)) as Hs.
  unfold root, branch, ComputeMerkleRoot, ComputeMerkleBranch. destruct (MerkleComputation _ _ false _ _) as [[r0 mu0] br0].
  destruct (MerkleComputation _ _ true _ _) as [[r mu] br]. destruct Hr as [-> _]; [done|]. destruct Hs as (-> & _ & Hb).
  destruct (Hb eq_refl) as [Hf Hl]. cbn [fst snd]. split_and!; [done|done|]. intros x br' Hlen He. rewrite <- Hf in He.
  destruct (from_branch_inj Hash br' br _ _ _ Hlen He) as [?|[-> _]]; [by left|by right].
Qed.

Lemma merkle_branch_correct_witness :
  ComputeMerkleRootFromBranch (fun a b => 10 * a + b) 5 (ComputeMerkleBranch 0 (fun a b => 10 * a + b) [1; 2; 3; 4; 5; 6; 7] 4) 4
  = fst (ComputeMerkleRoot 0 (fun a b => 10 * a + b) [1; 2; 3; 4; 5; 6; 7]).
Proof. apply (merkle_branch_correct 0 (fun a b => 10 * a + b) [1; 2; 3; 4; 5; 6; 7] 4); cbn; lia. Defined.

(** The transactions a mask selects, with their positions. *)
Definition selected {hash : Type} (zero : hash) (vTxid : list hash) (vMatch : list bool) : list (hash * Z) :=
  found zero vTxid vMatch 0 (Z.of_nat (length vTxid)).

(** a partial tree built for a block of at most [MAX_BLOCK_BASE_SIZE / 60]
    transactions in which no two siblings have equal hashes, written to a stream
    and read back, yields the block's merkle root and exactly the selected
    transactions with their positions. *)
Theorem partial_tree_roundtrip {hash : Type} `{EqDecision hash} (zero : hash) (Hash : hash -> hash -> hash)
    (hash_w : hash -> list Z) (hash_r : reader hash) vTxid vMatch s :
  RoundTrip hash_w hash_r (fun _ => True) ->
  1 <= Z.of_nat (length vTxid) <= MAX_BLOCK_BASE_SIZE / 60 -> length vMatch = length vTxid ->
  no_equal_siblings zero Hash vTxid ->
  exists t, PMT_Unserialize zero hash_r (PMT_Serialize hash_w (PMT_build zero Hash vTxid vMatch) ++ s) = Some (t, s) /\
    ExtractMatches zero Hash t = (fst (ComputeMerkleRoot zero Hash vTxid), selected zero vTxid vMatch, false).
Proof.
  intros RT Hn Hm Hns. change (MAX_BLOCK_BASE_SIZE / 60) with 16666 in Hn.
  assert (Hn31 : 1 <= Z.of_nat (length vTxid) <= 2 ^ 31) by lia.
  pose proof (MerkleComputation_spec zero Hash vTxid Hn31 0 ltac:(lia) false (2 ^ 32 - 1)) as Hr.
  unfold ComputeMerkleRoot. destruct (MerkleComputation _ _ false _ _) as [[r mu] br]. destruct Hr as [-> _]; [done|].
  destruct (tree_height_spec _ Hn31) as (Hone & Hlow & Hh). unfold PMT_build. rewrite u32_small by lia.
  set (n := Z.of_nat (length vTxid)) in *. set (k := tree_height n) in *.
  assert (Hw0 : 0 <= 0 < width n k) by lia.
  pose proof (build_sizes zero Hash vTxid Hn31 vMatch Hm k Hh 0 Hw0) as Hsz.
  pose proof (fun bits hashes m => extract_build zero Hash vTxid Hn31 vMatch Hm k Hh Hns 0 bits hashes m Hw0) as Hex.
  fold n in Hsz, Hex. destruct (TraverseAndBuild _ _ _ k 0 _ _) as [bits hs].
  assert (Hrange : end_leaf vTxid k 0 - first_leaf k 0 = n).
  { destruct (width_pow vTxid Hn31 k Hh) as [Hw _]. unfold end_leaf, first_leaf. fold n in Hw |- *. lia. }
  rewrite Hrange in Hsz. destruct Hsz as (Hlen & Hhs & Hbits).
  destruct (unpack_pack (length bits) bits) as (pad & Hpad & Hmod & Hunp & Hplen); [lia|].
  exists (mkPMT n (bits ++ repeat false pad) hs false). split.
  - unfold PMT_Unserialize, PMT_Serialize. cbn [nTransactions vBits vHash]. rewrite <- !app_assoc.
    erewrite (rd_bind_rt _ _ is_u32) by (unfold is_u32; lia).
    rewrite (rd_bind_rt _ _ _ (RT := compactsizevector_RoundTrip hash_w hash_r _ zero 32 RT ltac:(lia))).
    2: { split; [unfold MAX_SIZE; lia|]. apply Forall_true. done. }
    rewrite (rd_bind_rt _ _ (fun v => Z.of_nat (length v) <= MAX_SIZE)) by (unfold MAX_SIZE; nia).
    by rewrite Hunp.
  - unfold ExtractMatches. cbn [nTransactions vBits vHash fBad]. change (MAX_BLOCK_BASE_SIZE / 60) with 16666.
    rewrite (proj2 (Z.eqb_neq n 0)), Z.gtb_ltb, (proj2 (Z.ltb_ge 16666 n)) by lia.
    rewrite Z.gtb_ltb, (proj2 (Z.ltb_ge n _)) by lia. rewrite length_app, repeat_length.
    rewrite (proj2 (Z.ltb_ge _ (Z.of_nat (length hs)))) by lia. fold k.
    specialize (Hex (repeat false pad) [] []). rewrite app_nil_r in Hex. rewrite Hex. cbn [cu_bad cu_bits cu_hashes cu_match app].
    rewrite repeat_length. rewrite (proj2 (Z.eqb_eq _ _)) by (zdm; lia). rewrite bool_decide_true by done. cbn [negb].
    unfold selected, found_below. rewrite Hrange. done.
Qed.

(** A toy hash on one bit, enough to satisfy the hypotheses. *)
Definition bool_w (b : bool) : list Z := [Z.b2z b].
Definition bool_r : reader bool := fun s => match s with [] => None | x :: s' => Some (negb (x =? 0), s') end.

Lemma partial_tree_roundtrip_witness : exists t,
  PMT_Unserialize false bool_r (PMT_Serialize bool_w (PMT_build false andb [true; false; true] [false; false; true]) ++ []) = Some (t, []) /\
  ExtractMatches false andb t = (fst (ComputeMerkleRoot false andb [true; false; true]), [(true, 2)], false).
Proof.
  destruct (partial_tree_roundtrip false andb bool_w bool_r [true; false; true] [false; false; true] [])
    as (t & Hu & He); [|vm_compute; split; discriminate|reflexivity| |].
  - intros [] s' _; reflexivity.
  - intros k j Hj Hw. destruct k as [|[|k]].
    + change (width _ 0) with 3 in Hw. assert (j = 0) as -> by lia. vm_compute. discriminate.
    + change (width _ 1) with 2 in Hw. assert (j = 0) as -> by lia. vm_compute. discriminate.
    + exfalso. change (Z.of_nat (length _)) with 3 in Hw.
      assert (Hw1 : width 3 (S (S k)) <= 1); [|lia]. clear Hw.
      induction k as [|k IH]; [vm_compute; discriminate|]. etransitivity; [apply width_le; lia|exact IH].
  - exists t. split; [exact Hu|exact He].
Defined.

(** C40: whatever partial tree is received, if it is for the right number of
    transactions and extraction succeeds with the block's root, every match is
    the transaction at the claimed position, unless a collision of the hash is at
    hand. *)
Theorem partial_tree_sound {hash : Type} `{EqDecision hash} (zero : hash) (Hash : hash -> hash -> hash) vTxid t matches bad :
  Z.of_nat (length vTxid) = nTransactions t ->
  ExtractMatches zero Hash t = (fst (ComputeMerkleRoot zero Hash vTxid), matches, bad) ->
  fst (ComputeMerkleRoot zero Hash vTxid) <> zero ->
  collision Hash \/ forall x i, (x, i) ∈ matches -> 0 <= i < nTransactions t /\ x = nth (Z.to_nat i) vTxid zero.
Proof.
  intros Hlen He Hz. unfold ExtractMatches in He. rewrite <- Hlen in *.
  destruct (_ =? 0) eqn:E0; [exfalso; congruence|]. destruct (_ >? _) eqn:E1; [exfalso; congruence|].
  destruct (Z.of_nat (length (vHash t)) >? _); [exfalso; congruence|].
  destruct (_ <? _); [exfalso; congruence|]. zbool. change (MAX_BLOCK_BASE_SIZE / 60) with 16666 in E1.
  assert (Hn31 : 1 <= Z.of_nat (length vTxid) <= 2 ^ 31) by lia.
  pose proof (MerkleComputation_spec zero Hash vTxid Hn31 0 ltac:(lia) false (2 ^ 32 - 1)) as Hr.
  unfold ComputeMerkleRoot in *. destruct (MerkleComputation _ _ false _ _) as [[r mu] br]. destruct Hr as [-> _]; [done|].
  cbn [fst] in *. destruct (tree_height_spec _ Hn31) as (Hone & _ & Hh).
  destruct (TraverseAndExtract _ _ _ _ _ _) as [root c] eqn:Ex.
  destruct (cu_bad c) eqn:Eb; [exfalso; congruence|]. destruct (negb _); [exfalso; congruence|].
  destruct (negb _); [exfalso; congruence|]. injection He as Hroot <- <-.
  destruct (extract_sound zero Hash vTxid Hn31 _ Hh 0 _ _ _ ltac:(lia) Ex Eb Hroot) as [?|Hs]; [by left|]. right.
  intros x i Hx. destruct (Hs x i Hx) as [Hx0|?]; [|done]. by apply not_elem_of_nil in Hx0.
Qed.

Lemma partial_tree_sound_witness :
  collision (fun a b => 10 * a + b) \/ forall x i, (x, i) ∈ [(3, 2)] -> 0 <= i < 3 /\ x = nth (Z.to_nat i) [1; 2; 3] 0.
Proof.
  apply (partial_tree_sound 0 (fun a b => 10 * a + b) [1; 2; 3]
           (PMT_build 0 (fun a b => 10 * a + b) [1; 2; 3] [false; false; true]) [(3, 2)] false);
    [reflexivity|vm_compute; reflexivity|vm_compute; discriminate].
Defined.
