(* ===== verification/MerkleUnique.v ===== *)
(** * MerkleUnique: what a root says about its leaves

    Two lists of leaves with the same root are the same list, unless the hash has a
    collision, a leaf is itself the hash of a pair, or the calculator reports a
    repetition ([mutated]). The lemmas are about the reference tree of [Merkle]. *)

From stdpp Require Import list.
From S2P Require Import Prelude Serialize Merkle.

(** ** Definitions *)

(** No leaf is a node. *)
Definition plain_leaves {hash : Type} (Hash : hash -> hash -> hash) (leaves : list hash) : Prop := Forall (fun x => forall a b, x <> Hash a b) leaves.

(** ** Lemmas *)

Section Unique.
Context {hash : Type} `{EqDecision hash}.
Variable zero : hash.
Variable Hash : hash -> hash -> hash.

Definition count (leaves : list hash) : Z := Z.of_nat (length leaves).
Definition node (leaves : list hash) (k : nat) (j : Z) : hash := CalcHash zero Hash (count leaves) k j leaves.
Definition root_of (leaves : list hash) : hash := node leaves (tree_height (count leaves)) 0.
Definition sized (leaves : list hash) : Prop := 1 <= count leaves <= 2 ^ 31.
Abbreviation dup leaves := (dup_below zero Hash leaves (count leaves)).
Abbreviation coll := (collision Hash).

Lemma hash_inj a b x y : Hash a b = Hash x y -> coll \/ (a = x /\ b = y).
Proof. intros E. destruct (decide ((a, b) = (x, y))) as [[= -> ->]|N]; [by right|left; by exists a, b, x, y]. Qed.

Lemma node_step l k j : sized l -> (S k <= 31)%nat -> 0 <= j < width (count l) (S k) ->
  node l (S k) j = Hash (node l k (2 * j)) (node l k (if 2 * j + 1 <? width (count l) k then 2 * j + 1 else 2 * j)).
Proof. intros Hl Hk Hj. by apply node_S. Qed.

(** A node exists when its first leaf does. *)
Lemma width_lt n k j : 0 <= j -> j < width n k <-> j * 2 ^ Z.of_nat k < n.
Proof.
  intros Hj. unfold width. pose proof (pow2_pos k). set (P := 2 ^ Z.of_nat k) in *. split; intros L; [|].
  - assert (j + 1 <= (n + P - 1) / P) by lia. assert (P * ((n + P - 1) / P) <= n + P - 1) by (apply Z.mul_div_le; lia). nia.
  - assert (j + 1 <= (n + P - 1) / P); [|lia]. apply Z.div_le_lower_bound; nia.
Qed.

(** A complete subtree with the hash of an incomplete one has a repetition in it. *)
Lemma complete_incomplete l : sized l -> forall k a b, (k <= 31)%nat -> 0 <= a -> (a + 1) * 2 ^ Z.of_nat k <= count l ->
  0 <= b < width (count l) k -> count l < (b + 1) * 2 ^ Z.of_nat k -> node l k a = node l k b -> coll \/ dup l.
Proof.
  intros Hl k. induction k as [|k IH]; intros a b Hk Ha Ca Hb Cb E.
  { rewrite width_0 in Hb. cbn in Cb. lia. }
  assert (P : 2 ^ Z.of_nat (S k) = 2 * 2 ^ Z.of_nat k) by (rewrite Nat2Z.inj_succ, Z.pow_succ_r; lia). rewrite P in *. pose proof (pow2_pos k) as P0.
  assert (Wa : a < width (count l) (S k)) by (apply width_lt; [done|rewrite P; nia]).
  rewrite !node_step in E by (done || lia). rewrite (proj2 (Z.ltb_lt (2 * a + 1) _)) in E by (apply width_lt; [lia|nia]).
  destruct (2 * b + 1 <? width (count l) k) eqn:W; zbool; (apply hash_inj in E as [C|[E1 E2]]; [by left|]).
  - apply (IH (2 * a + 1) (2 * b + 1)); try done; try lia; nia.
  - right. exists k, a. split_and!; [done|nia|]. change (node l k (2 * a) = node l k (2 * a + 1)). congruence.
Qed.
(** Equal siblings are a repetition that is reported. *)
Lemma equal_siblings l k j : sized l -> (k <= 31)%nat -> 0 <= j -> 2 * j + 1 < width (count l) k -> node l k (2 * j) = node l k (2 * j + 1) -> coll \/ dup l.
Proof.
  intros Hl Hk Hj W E. pose proof (pow2_pos k) as P0. destruct (decide ((2 * j + 2) * 2 ^ Z.of_nat k <= count l)) as [C|C].
  - right. by exists k, j.
  - apply (complete_incomplete l Hl k (2 * j) (2 * j + 1)); try done; try lia; try nia.
    apply (proj1 (width_lt (count l) k (2 * j + 1) ltac:(lia))) in W. nia.
Qed.

(** Two trees with the same nodes at a height have the same nodes below it. *)
Definition same_level (l1 l2 : list hash) (k : nat) : Prop :=
  width (count l1) k = width (count l2) k /\ forall j, 0 <= j < width (count l1) k -> node l1 k j = node l2 k j.
Lemma wider_level l1 l2 k : sized l1 -> sized l2 -> (S k <= 31)%nat -> same_level l1 l2 (S k) -> width (count l1) k < width (count l2) k -> coll \/ dup l2.
Proof.
  intros H1 H2 Hk [W E] L. rewrite !width_S in W. pose proof (width_pos (count l1) k ltac:(unfold sized in *; lia)) as P1. set (w := width (count l2) k) in *.
  assert (Ew : exists q, 0 <= q /\ w = 2 * q + 2 /\ width (count l1) k = 2 * q + 1) by (exists (w / 2 - 1); zdm; lia). destruct Ew as (q & Hq & Ew & E1).
  specialize (E q). rewrite width_S, E1 in E. specialize (E ltac:(zdm; lia)). rewrite !node_step in E by (done || (rewrite width_S; zdm; lia)).
  rewrite E1 in E. fold w in E. rewrite Ew, (proj2 (Z.ltb_ge (2 * q + 1) (2 * q + 1))), (proj2 (Z.ltb_lt (2 * q + 1) _)) in E by lia.
  apply hash_inj in E as [C|[Ea Eb]]; [by left|]. apply (equal_siblings l2 k q); try done; try lia. congruence.
Qed.
Lemma node_level_down l1 l2 k : sized l1 -> sized l2 -> (S k <= 31)%nat -> same_level l1 l2 (S k) -> coll \/ dup l1 \/ dup l2 \/ same_level l1 l2 k.
Proof.
  intros H1 H2 Hk S12. destruct (Z.lt_trichotomy (width (count l1) k) (width (count l2) k)) as [L|[W|L]].
  - destruct (wider_level l1 l2 k H1 H2 Hk S12 L); auto.
  - destruct S12 as [_ E]. assert (X : forall j, 0 <= j < width (count l1) k -> coll \/ node l1 k j = node l2 k j).
    { intros j Hj. specialize (E (j / 2)). rewrite width_S in E. specialize (E ltac:(zdm; lia)).
      rewrite !node_step in E by (done || (rewrite width_S; zdm; lia)). rewrite <- W in E. apply hash_inj in E as [C|[Ea Eb]]; [by left|]. right.
      destruct (Z.odd j) eqn:O; pose proof (odd_half j) as Hh; rewrite O in Hh.
      - rewrite (proj2 (Z.ltb_lt (2 * (j / 2) + 1) _)) in Eb by lia. by replace j with (2 * (j / 2) + 1) by lia.
      - by replace j with (2 * (j / 2)) by lia. }
    destruct (decide (Forall (fun j => node l1 k j = node l2 k j) (seqZ 0 (width (count l1) k)))) as [F|F].
    + right. right. right. split; [done|]. intros j Hj. rewrite Forall_forall in F. apply F, elem_of_seqZ. lia.
    + left. apply not_Forall_Exists in F; [|intros j; apply _]. apply Exists_exists in F as (j & Hj & N). apply elem_of_seqZ in Hj. destruct (X j ltac:(lia)) as [C|E']; [done|]. by destruct N.
  - assert (S21 : same_level l2 l1 (S k)) by (destruct S12 as [W E]; split; [done|intros j Hj; symmetry; apply E; lia]). destruct (wider_level l2 l1 k H2 H1 Hk S21 L); auto.
Qed.
Lemma levels_down l1 l2 : sized l1 -> sized l2 -> forall k, (k <= 31)%nat -> same_level l1 l2 k -> coll \/ dup l1 \/ dup l2 \/ same_level l1 l2 0.
Proof.
  intros H1 H2 k. induction k as [|k IH]; intros Hk S; [auto|]. destruct (node_level_down l1 l2 k H1 H2 Hk S) as [C|[D|[D|S']]]; auto. apply IH; [lia|done].
Qed.
Lemma same_leaves l1 l2 : same_level l1 l2 0 -> l1 = l2.
Proof.
  intros [W E]. rewrite !width_0 in *. assert (L : length l1 = length l2) by (unfold count in W; lia). apply nth_ext with zero zero; [done|].
  intros i Hi. specialize (E (Z.of_nat i)). unfold node in E. cbn [CalcHash] in E. rewrite Nat2Z.id in E. apply E. unfold count. lia.
Qed.

(** Down the left edge of two trees. *)
Lemma left_edge l1 l2 d : sized l1 -> sized l2 -> forall k, (k + d <= 31)%nat -> node l1 k 0 = node l2 (k + d) 0 -> coll \/ node l1 0 0 = node l2 d 0.
Proof.
  intros H1 H2 k. induction k as [|k IH]; intros Hk E; [by right|]. cbn [Nat.add] in E.
  pose proof (width_pos (count l1) (S k) ltac:(unfold sized in *; lia)). pose proof (width_pos (count l2) (S (k + d)) ltac:(unfold sized in *; lia)).
  rewrite !node_step in E by (done || lia). apply hash_inj in E as [C|[E _]]; [by left|]. apply IH; [lia|done].
Qed.
Lemma shallower_tree l1 l2 : sized l1 -> sized l2 -> plain_leaves Hash l1 -> root_of l1 = root_of l2 ->
  (tree_height (count l1) < tree_height (count l2))%nat -> coll.
Proof.
  intros H1 H2 P E L. destruct (tree_height_spec (count l2) H2) as (_ & _ & B). unfold root_of in E.
  replace (tree_height (count l2)) with (tree_height (count l1) + S (tree_height (count l2) - tree_height (count l1) - 1))%nat in E by lia.
  destruct (left_edge l1 l2 (S (tree_height (count l2) - tree_height (count l1) - 1)) H1 H2 (tree_height (count l1)) ltac:(lia) E) as [C|E0]; [done|]. exfalso. rewrite node_step in E0; [|done|lia|].
  - unfold node at 1 in E0. cbn [CalcHash] in E0. change (Z.to_nat 0) with 0%nat in E0. destruct l1 as [|x l1]; [unfold sized, count in H1; cbn in H1; lia|].
    inversion P as [|? ? N]; subst. by apply N in E0.
  - pose proof (width_pos (count l2) (S (tree_height (count l2) - tree_height (count l1) - 1)) ltac:(unfold sized in *; lia)). lia.
Qed.

Lemma root_determines_leaves l1 l2 : sized l1 -> sized l2 -> plain_leaves Hash l1 -> plain_leaves Hash l2 ->
  ComputeMerkleRoot zero Hash l1 = (fst (ComputeMerkleRoot zero Hash l2), false) -> snd (ComputeMerkleRoot zero Hash l2) = false -> coll \/ l1 = l2.
Proof.
  intros H1 H2 P1 P2 E M. assert (R : forall l, sized l -> fst (ComputeMerkleRoot zero Hash l) = root_of l /\ (snd (ComputeMerkleRoot zero Hash l) = true <-> dup l)).
  { intros l Hl. pose proof (MerkleComputation_spec zero Hash l Hl 0 ltac:(unfold sized, count in Hl; lia) false (2 ^ 32 - 1)) as Hs.
    unfold ComputeMerkleRoot. destruct (MerkleComputation _ _ _ _ _) as [[root mu] br]. by destruct Hs as (-> & Hm & _). }
  destruct (R l1 H1) as [R1 M1], (R l2 H2) as [R2 M2]. rewrite E in R1, M1. cbn [fst snd] in R1, M1. rewrite R2 in R1.
  destruct (lt_eq_lt_dec (tree_height (count l1)) (tree_height (count l2))) as [[L|Eh]|L].
  - left. by apply (shallower_tree l1 l2).
  - destruct (tree_height_spec (count l1) H1) as (W1 & _ & B). destruct (tree_height_spec (count l2) H2) as (W2 & _ & _).
    destruct (levels_down l1 l2 H1 H2 (tree_height (count l1)) B) as [C|[D|[D|S]]].
    + split; [by rewrite W1, Eh, W2|]. intros j Hj. assert (j = 0) as -> by lia. rewrite Eh at 2. by symmetry.
    + by left.
    + apply M1 in D. done.
    + apply M2 in D. congruence.
    + right. by apply same_leaves.
  - left. by apply (shallower_tree l2 l1).
Qed.
End Unique.
