(* ===== verification/TxCheck.v ===== *)
(** * TxCheck: transaction checks of [src/src/consensus/tx_verify.cpp]

    Finality and relative lock times, signature operation counts, the
    context-free checks and the checks of a transaction against the coins it
    spends. The rules for witness operations are in [WitnessBundles]. A rejected
    transaction is an [Err] that carries the reject reason; an assertion, a thrown
    exception or a null dereference of the source is a reason of its own
    ([code_failure]). The coins view is a function from outpoints to unspent
    coins. *)

From stdpp Require Import gmap.
From S2P Require Import Prelude ArithUint256 Serialize Compressor Transaction Script ConsensusParams WitnessUtil Chain Merkle.

(** ** Definitions *)

(** *** Reject reasons *)

Inductive reject :=
| bad_txns_vin_empty | bad_txns_vout_empty | bad_txns_oversize
| bad_txns_vout_negative | bad_txns_vout_toolarge | bad_txns_txouttotal_toolarge
| bad_txns_inputs_duplicate | bad_cb_length | bad_cb_segdata | bad_txns_prevout_null
| witness_output_too_small | witness_lock_too_short | witness_lock_too_long | witness_weight_too_low
| inputs_unavailable | bad_txns_insufficient_depth_index_input | bad_txns_premature_spend_of_coinbase
| bad_txns_inputvalues_outofrange | bad_txns_in_belowout | bad_txns_fee_negative
| bad_txns_fee_missing_witness_renewal_penalty_fee | bad_txns_fee_outofrange
| witness_coinbase_compounding_too_much | bad_txns_in_witness_missing_spend_key
| bad_txns_in_witness_bundle_mismatching_lockfrom
| bad_txns_in_witness_invalid_rearrange_bundle | bad_txns_in_witness_invalid_spend_bundle
| bad_txns_in_witness_invalid_increase_bundle | bad_txns_in_witness_invalid_changewitnesskey_bundle
| input_not_found | code_failure.

(** *** Lock times *)

Definition LOCKTIME_VERIFY_SEQUENCE : Z := 1.
Definition SEQUENCE_LOCKTIME_DISABLE_FLAG : Z := 2 ^ 31.
Definition SEQUENCE_LOCKTIME_TYPE_FLAG : Z := 2 ^ 22.
Definition SEQUENCE_LOCKTIME_MASK : Z := 0xffff.
Definition SEQUENCE_LOCKTIME_GRANULARITY : Z := 7.

Definition IsFinalTx (tx : CTransaction) (nBlockHeight nBlockTime : Z) : bool :=
  if nLockTime tx =? 0 then true
  else if nLockTime tx <? (if nLockTime tx <? LOCKTIME_THRESHOLD then nBlockHeight else nBlockTime) then true
  else if IsOldTransactionVersion (nVersion tx)
  then forallb (fun i => GetSequence i (nVersion tx) =? SEQUENCE_FINAL) (vin tx)
  else forallb (fun i => negb (FlagIsSet i OptInRBF || FlagIsSet i HasLock)) (vin tx).

Section Locks.
Variable H : heap.
Variable testnet : bool.

(** What one input asks for: nothing, a last invalid time or a last invalid height. *)
Inductive seq_lock := NoLock | TimeLock (t : Z) | HeightLock (h : Z).

(** The body of the loop of [CalculateSequenceLocks]; [None] is a null ancestor. *)
Definition input_lock (ver : Z) (block : ptr) (txin : CTxIn) (nCoinHeight : Z) : option seq_lock :=
  let old := IsOldTransactionVersion ver in
  let nSeq := GetSequence txin ver in
  if (old && negb (Z.land nSeq SEQUENCE_LOCKTIME_DISABLE_FLAG =? 0)) || (negb old && negb (FlagIsSet txin HasRelativeLock))
  then Some NoLock
  else if (old && negb (Z.land nSeq SEQUENCE_LOCKTIME_TYPE_FLAG =? 0)) || (negb old && FlagIsSet txin HasTimeBasedRelativeLock)
  then a ← GetAncestor H block (Z.max (nCoinHeight - 1) 0);
       let nCoinTime := GetMedianTimePast H testnet a in
       Some (TimeLock (nCoinTime
         + (if old then Z.shiftl (Z.land nSeq SEQUENCE_LOCKTIME_MASK) SEQUENCE_LOCKTIME_GRANULARITY
            else u32 (Z.shiftl nSeq SEQUENCE_LOCKTIME_GRANULARITY)) - 1))
  else Some (HeightLock (nCoinHeight + (if old then Z.land nSeq SEQUENCE_LOCKTIME_MASK else i32 nSeq) - 1)).

(** The loop: heights as updated, and the minimum height and time so far. *)
Fixpoint locks_loop (ver : Z) (block : ptr) (ins : list CTxIn) (prevHeights : list Z) (nMinHeight nMinTime : Z)
    : option (list Z * (Z * Z)) :=
  match ins, prevHeights with
  | txin :: ins', h :: hs =>
      l ← input_lock ver block txin h;
      let h' := match l with NoLock => 0 | _ => h end in
      '(hs', r) ← locks_loop ver block ins' hs
                    (match l with HeightLock x => Z.max nMinHeight x | _ => nMinHeight end)
                    (match l with TimeLock x => Z.max nMinTime x | _ => nMinTime end);
      Some (h' :: hs', r)
  | _, _ => Some (prevHeights, (nMinHeight, nMinTime))
  end.

(** [None]: the assertion on the sizes, or a null ancestor. *)
Definition CalculateSequenceLocks (tx : CTransaction) (flags : Z) (prevHeights : list Z) (block : ptr)
    : option (list Z * (Z * Z)) :=
  if negb (Nat.eqb (length prevHeights) (length (vin tx))) then None
  else
    let fEnforceBIP68 := (u32 (nVersion tx) >=? 2) && negb (Z.land flags LOCKTIME_VERIFY_SEQUENCE =? 0) in
    if negb fEnforceBIP68 then Some (prevHeights, (-1, -1))
    else locks_loop (nVersion tx) block (vin tx) prevHeights (-1) (-1).

Definition EvaluateSequenceLocks (block : ptr) (lockPair : Z * Z) : option bool :=
  q ← prev_of H block;
  let nBlockTime := GetMedianTimePast H testnet q in
  Some (if (fst lockPair >=? height_of H block) || (snd lockPair >=? nBlockTime) then false else true).

Definition SequenceLocks (tx : CTransaction) (flags : Z) (prevHeights : list Z) (block : ptr) : option bool :=
  '(_, lockPair) ← CalculateSequenceLocks tx flags prevHeights block;
  EvaluateSequenceLocks block lockPair.

End Locks.

(** *** Coins *)

Record Coin := mkCoin {
  coin_out : CTxOut;
  fCoinBase : bool;
  fSegSig : bool;
  coin_nHeight : Z;   (** 30 bits *)
  nTxIndex : Z
}.

Section Inputs.
(** The unspent coins the view has. *)
Variable inputs : COutPoint -> option Coin.
(** [AccessCoin] of a missing coin is the empty coin, whose output is null. *)
Definition access_out (o : COutPoint) : CTxOut := match inputs o with Some c => coin_out c | None => CTxOut_default end.

(** *** Signature operations *)

Definition GetLegacySigOpCount (tx : CTransaction) : Z :=
  let n := fold_left (fun n i => u32 (n + GetSigOpCount (scriptSig i) false)) (vin tx) 0 in
  fold_left (fun n o => match output o with
                        | ScriptLegacyOutput s => u32 (n + GetSigOpCount s false)
                        | StandardKeyHashOutput _ | PoW2WitnessOutput _ => u32 (n + 1)
                        | UnknownOutput _ => n
                        end) (vout tx) n.

Definition GetP2SHSigOpCount (tx : CTransaction) : Z :=
  if IsCoinBase tx then 0
  else fold_left (fun n i => match output (access_out (prevout i)) with
                             | ScriptLegacyOutput s => if IsPayToScriptHash s then u32 (n + GetSigOpCount_p2sh s (scriptSig i)) else n
                             | _ => n
                             end) (vin tx) 0.

Definition GetTransactionSigOpCost (tx : CTransaction) (verify_p2sh : bool) : Z :=
  let n := GetLegacySigOpCount tx in
  if IsCoinBase tx then n
  else
    let n := if verify_p2sh then n + GetP2SHSigOpCount tx else n in
    fold_left (fun n i => match output (access_out (prevout i)) with
                          | StandardKeyHashOutput _ | PoW2WitnessOutput _ => n + 1
                          | _ => n
                          end) (vin tx) n.

(** *** Context-free checks *)

Fixpoint check_outputs (outs : list CTxOut) (nValueOut : Z) : res reject unit :=
  match outs with
  | [] => Ok tt
  | o :: outs' =>
      guard! negb (nValue o <? 0) or bad_txns_vout_negative in
      guard! negb (nValue o >? MAX_MONEY) or bad_txns_vout_toolarge in
      let nValueOut := i64 (nValueOut + nValue o) in
      guard! MoneyRange nValueOut or bad_txns_txouttotal_toolarge in
      check_outputs outs' nValueOut
  end.

(** [vInOutPoints.insert(prevout).second] for each input: the set compares with
    [operator<]. *)
Fixpoint check_duplicates (seen : list COutPoint) (ins : list CTxIn) : bool :=
  match ins with
  | [] => true
  | i :: ins' =>
      if existsb (fun o => negb (COutPoint_ltb o (prevout i)) && negb (COutPoint_ltb (prevout i) o)) seen then false
      else check_duplicates (prevout i :: seen) ins'
  end.

Definition CheckTransaction (tx : CTransaction) (fCheckDuplicateInputs : bool) : res reject unit :=
  guard! negb (bool_decide (vin tx = [])) or bad_txns_vin_empty in
  guard! negb (bool_decide (vout tx = [])) or bad_txns_vout_empty in
  match SerializeTransaction false tx with
  | None => Err code_failure
  | Some bs =>
      guard! negb (Z.of_nat (length bs) >? MAX_BLOCK_BASE_SIZE) or bad_txns_oversize in
      let! _ := check_outputs (vout tx) 0 in
      guard! (if fCheckDuplicateInputs then check_duplicates [] (vin tx) else true) or bad_txns_inputs_duplicate in
      if IsCoinBase tx then
        let in0 := nth 0 (vin tx) CTxIn_default in
        if IsOldTransactionVersion (nVersion tx) then
          guard! negb ((Z.of_nat (length (scriptSig in0)) <? 2) || (Z.of_nat (length (scriptSig in0)) >? 100)) or bad_cb_length in
          Ok tt
        else
          guard! (Z.of_nat (length (scriptSig in0)) =? 0) or bad_cb_length in
          guard! (Z.of_nat (length (segregatedSignatureData in0)) =? 2) or bad_cb_segdata in
          Ok tt
      else
        guard! forallb (fun i => negb (COutPoint_IsNull (prevout i))) (vin tx) or bad_txns_prevout_null in
        Ok tt
  end.

(** *** Witness outputs *)

Definition gMinimumWitnessAmount : Z := 5000.
Definition gMinimumWitnessWeight : Z := 10000.
Definition extraLockLengthAllowance : Z := 721.

(** The checks on one witness output, shared by [CheckTransactionContextual]
    and [BuildWitnessBundles]. *)
Definition check_witness_output (p : ChainParams) (o : CTxOut) (w : CTxOutPoW2Witness) (checkHeight : Z) : res reject unit :=
  guard! negb ((nValue o <? gMinimumWitnessAmount * COIN) && negb (lockFromBlock w =? 1)) or witness_output_too_small in
  match GetPoW2LockLengthInBlocksFromOutput o checkHeight with
  | None => Err code_failure
  | Some (len, _, _) =>
      let nLockLengthInBlocks := i64 len in
      guard! negb (nLockLengthInBlocks <? i64 (MinimumWitnessLockLength p)) or witness_lock_too_short in
      guard! negb ((nLockLengthInBlocks >? i64 (u64 (MaximumWitnessLockLength p + extraLockLengthAllowance)))
                   && negb (lockFromBlock w =? 1)) or witness_lock_too_long in
      match GetPoW2RawWeightForAmount (nValue o) nLockLengthInBlocks with
      | None => Err code_failure
      | Some nWeight =>
          guard! negb ((nWeight <? gMinimumWitnessWeight) && negb (lockFromBlock w =? 1)) or witness_weight_too_low in
          Ok tt
      end
  end.

Fixpoint CheckTransactionContextual (p : ChainParams) (outs : list CTxOut) (checkHeight : Z) : res reject unit :=
  match outs with
  | [] => Ok tt
  | o :: outs' =>
      let! _ := match GetPow2WitnessOutput o with
                | Some w => check_witness_output p o w checkHeight
                | None => Ok tt
                end in
      CheckTransactionContextual p outs' checkHeight
  end.

(** *** Checks against the coins *)

Definition HaveInputs (tx : CTransaction) : bool :=
  if negb (IsCoinBase tx) || IsPoW2WitnessCoinBase tx
  then forallb (fun i => match inputs (prevout i) with
                         | Some _ => true
                         | None => negb (negb (IsPoW2WitnessCoinBase tx) || negb (COutPoint_IsNull (prevout i)))
                         end) (vin tx)
  else true.

Definition COINBASE_MATURITY (p : ChainParams) : Z := if fIsTestnet p then 10 else 100.

(** The loop of [CheckTxInputs]: the total value of the inputs. *)
Fixpoint inputs_loop (p : ChainParams) (witnessCoinBase : bool) (ins : list CTxIn) (nSpendHeight nValueIn : Z) : res reject Z :=
  match ins with
  | [] => Ok nValueIn
  | i :: ins' =>
      if COutPoint_IsNull (prevout i) && witnessCoinBase then inputs_loop p witnessCoinBase ins' nSpendHeight nValueIn
      else
        match inputs (prevout i) with
        | None => Err code_failure
        | Some coin =>
            guard! negb (negb (isHash (prevout i)) && (nSpendHeight - coin_nHeight coin <? COINBASE_MATURITY p))
              or bad_txns_insufficient_depth_index_input in
            guard! negb (isHash (prevout i) && fCoinBase coin && (nSpendHeight - coin_nHeight coin <? COINBASE_MATURITY p))
              or bad_txns_premature_spend_of_coinbase in
            let nValueIn := i64 (nValueIn + nValue (coin_out coin)) in
            guard! MoneyRange (nValue (coin_out coin)) && MoneyRange nValueIn or bad_txns_inputvalues_outofrange in
            inputs_loop p witnessCoinBase ins' nSpendHeight nValueIn
        end
  end.

(** [witnessPenaltyFee] is the sum over the renewal bundles. *)
Definition CheckTxInputs (p : ChainParams) (tx : CTransaction) (nSpendHeight witnessPenaltyFee : Z) : res reject unit :=
  guard! (if IsPoW2WitnessCoinBase tx
          then forallb (fun i => COutPoint_IsNull (prevout i) || bool_decide (is_Some (inputs (prevout i)))) (vin tx)
          else HaveInputs tx) or inputs_unavailable in
  let! nValueIn := inputs_loop p (IsPoW2WitnessCoinBase tx) (vin tx) nSpendHeight 0 in
  match GetValueOut tx with
  | None => Err code_failure
  | Some nValueOut =>
      guard! negb (nValueIn <? nValueOut) or bad_txns_in_belowout in
      let nTxFee := nValueIn - nValueOut in
      guard! negb (nTxFee <? 0) or bad_txns_fee_negative in
      guard! negb (nTxFee <? witnessPenaltyFee) or bad_txns_fee_missing_witness_renewal_penalty_fee in
      guard! MoneyRange (0 + nTxFee) or bad_txns_fee_outofrange in
      Ok tt
  end.

End Inputs.

(** ** Lemmas *)

(** *** Relative locks *)

(** A lock is met by a block at height [X] whose parent's median time is [T]. *)
Definition lock_met (l : seq_lock) (X T : Z) : Prop :=
  match l with NoLock => True | TimeLock t => t < T | HeightLock h => h < X end.

Lemma locks_loop_spec H testnet ver block X T : forall ins hs mh mt,
  length hs = length ins -> Forall2 (fun i h => is_Some (input_lock H testnet ver block i h)) ins hs ->
  exists hs' mh' mt', locks_loop H testnet ver block ins hs mh mt = Some (hs', (mh', mt')) /\
    (mh' < X /\ mt' < T <-> mh < X /\ mt < T /\
       Forall2 (fun i h => exists l, input_lock H testnet ver block i h = Some l /\ lock_met l X T) ins hs).
Proof.
  intros ins. induction ins as [|i ins IH]; intros [|h hs] mh mt Hl Hs; try done.
  { exists [], mh, mt. split; [done|]. split; [intros []; split_and!; auto|tauto]. }
  cbn in Hl. inversion Hs as [|? ? ? ? [l El] Hs']; subst. cbn [locks_loop]. rewrite El. cbn [mbind option_bind].
  destruct (IH hs (match l with HeightLock x => Z.max mh x | _ => mh end) (match l with TimeLock x => Z.max mt x | _ => mt end))
    as (hs' & mh' & mt' & E & Hiff); [lia|done|]. rewrite E. cbn. do 3 eexists. split; [reflexivity|]. rewrite Hiff. split.
  - intros (H1 & H2 & H3). split_and!; [destruct l; lia|destruct l; lia|]. constructor; [|done].
    exists l. split; [done|]. destruct l; cbn; lia.
  - intros (H1 & H2 & H3). inversion H3 as [|? ? ? ? (l' & El' & Hm) H3']; subst. rewrite El in El'. injection El' as <-.
    split_and!; [destruct l; cbn in Hm; lia|destruct l; cbn in Hm; lia|done].
Qed.

Lemma forallb_both (b : bool) {A} (f g : A -> bool) l : forallb (fun i => if b then f i else g i) l = if b then forallb f l else forallb g l.
Proof. by destruct b. Qed.

(** *** Sums of outputs and duplicates *)

Definition value_sum (outs : list CTxOut) : Z := fold_right (fun o acc => nValue o + acc) 0 outs.

Lemma check_outputs_spec outs : forall acc, 0 <= acc <= MAX_MONEY ->
  check_outputs outs acc = Ok tt <-> Forall (fun o => 0 <= nValue o) outs /\ acc + value_sum outs <= MAX_MONEY.
Proof.
  assert (HM : MAX_MONEY + MAX_MONEY < 2 ^ 63) by done.
  induction outs as [|o outs IH]; intros acc Ha; cbn [check_outputs].
  { change (value_sum []) with 0. split; [intros _; split; [constructor|lia]|done]. }
  change (value_sum (o :: outs)) with (nValue o + value_sum outs). rewrite Forall_cons_iff.
  assert (Hnn : forall l, Forall (fun o => 0 <= nValue o) l -> 0 <= value_sum l).
  { intros l Hl. induction Hl as [|x l Hx Hl IHl]; [done|]. change (value_sum (x :: l)) with (nValue x + value_sum l). lia. }
  destruct (nValue o <? 0) eqn:E1; cbn [negb]; zbool; [split; [done|intros [[? _] _]; lia]|].
  destruct (nValue o >? MAX_MONEY) eqn:E2; cbn [negb]; zbool.
  { split; [done|]. intros [[_ Hf] Hs]. specialize (Hnn _ Hf). lia. }
  rewrite i64_small by lia. destruct (MoneyRange (acc + nValue o)) eqn:E3.
  - apply MoneyRange_true in E3. rewrite IH by lia. rewrite <- Z.add_assoc. tauto.
  - split; [done|]. intros [[_ Hf] Hs]. specialize (Hnn _ Hf). exfalso. apply not_true_iff_false in E3. apply E3, MoneyRange_true. lia.
Qed.

Lemma value_positive_sum outs : Forall (fun o => 0 <= nValue o) outs -> positive_sum outs = value_sum outs.
Proof.
  intros Hf. induction Hf as [|o outs Ho Hf IH]; [done|].
  change (positive_sum (o :: outs)) with (Z.max 0 (nValue o) + positive_sum outs).
  change (value_sum (o :: outs)) with (nValue o + value_sum outs). lia.
Qed.

(** The inputs spend pairwise different outpoints. *)
Definition distinct_inputs (ins : list CTxIn) : Prop :=
  ForallOrdPairs (fun a b => COutPoint_eqb (prevout a) (prevout b) = false) ins.

Lemma check_duplicates_spec ins : forall seen, Forall outpoint_ok seen -> Forall (fun i => outpoint_ok (prevout i)) ins ->
  check_duplicates seen ins = true <->
  Forall (fun o => Forall (fun i => COutPoint_eqb o (prevout i) = false) ins) seen /\ distinct_inputs ins.
Proof.
  unfold distinct_inputs. induction ins as [|i ins IH]; intros seen Hseen Hins; cbn [check_duplicates].
  { split; [intros _; split; [apply Forall_forall; constructor|constructor]|done]. }
  apply Forall_cons_iff in Hins as [Hi Hins].
  destruct (existsb _ seen) eqn:E.
  - split; [done|]. intros [Hf _]. exfalso. apply existsb_exists in E as (o & Ho & Hlt).
    apply andb_true_iff in Hlt as [H1 H2]. apply negb_true_iff in H1, H2.
    assert (Hoo : outpoint_ok o) by (by apply (proj1 (List.Forall_forall _ _) Hseen)).
    assert (He : COutPoint_eqb o (prevout i) = true) by (by apply COutPoint_eqb_incomparable).
    apply (proj1 (List.Forall_forall _ _) Hf) in Ho. apply Forall_inv in Ho. congruence.
  - rewrite IH by (try done; by constructor). rewrite !Forall_cons_iff.
    assert (Hseen' : Forall (fun o => COutPoint_eqb o (prevout i) = false) seen).
    { apply List.Forall_forall. intros o Ho. apply not_true_iff_false. intros He.
      assert (Hoo : outpoint_ok o) by (by apply (proj1 (List.Forall_forall _ _) Hseen)).
      apply COutPoint_eqb_incomparable in He as [H1 H2]; [|done|done].
      apply not_true_iff_false in E. apply E, existsb_exists. exists o. by rewrite H1, H2. }
    split.
    + intros [[Hi' Hf] Hp]. split; [|by constructor]. apply List.Forall_forall. intros o Ho.
      constructor; [by apply (proj1 (List.Forall_forall _ _) Hseen')|by apply (proj1 (List.Forall_forall _ _) Hf)].
    + intros [Hf Hp]. inversion Hp; subst. split_and!; [done| |done].
      apply List.Forall_forall. intros o Ho. apply (proj1 (List.Forall_forall _ _) Hf) in Ho. by inversion Ho.
Qed.

(** *** Spent coins *)

Section InputsLemmas.
Variable inputs : COutPoint -> option Coin.
Variable p : ChainParams.

(** The coin of an input is there, mature and of a valid amount. *)
Definition spendable (nSpendHeight : Z) (i : CTxIn) : Prop :=
  exists c, inputs (prevout i) = Some c /\ 0 <= nValue (coin_out c) <= MAX_MONEY /\
    (isHash (prevout i) = false \/ fCoinBase c = true -> COINBASE_MATURITY p <= nSpendHeight - coin_nHeight c).
Definition skipped (wcb : bool) (i : CTxIn) : bool := COutPoint_IsNull (prevout i) && wcb.
(** The value of the coins the inputs spend. *)
Definition value_in (wcb : bool) (ins : list CTxIn) : Z :=
  fold_right (fun i acc => (if skipped wcb i then 0 else nValue (access_out inputs (prevout i))) + acc) 0 ins.

Lemma inputs_loop_spec wcb h ins : forall acc v, 0 <= acc <= MAX_MONEY ->
  inputs_loop inputs p wcb ins h acc = Ok v ->
  v = acc + value_in wcb ins /\ 0 <= v <= MAX_MONEY /\ Forall (fun i => skipped wcb i = false -> spendable h i) ins.
Proof.
  assert (HM : MAX_MONEY + MAX_MONEY < 2 ^ 63) by done.
  induction ins as [|i ins IH]; intros acc v Ha Hl; cbn [inputs_loop] in Hl.
  { injection Hl as <-. change (value_in wcb []) with 0. split_and!; [lia..|constructor]. }
  change (value_in wcb (i :: ins)) with ((if skipped wcb i then 0 else nValue (access_out inputs (prevout i))) + value_in wcb ins).
  fold (skipped wcb i) in Hl. destruct (skipped wcb i) eqn:Es.
  { destruct (IH acc v Ha Hl) as (-> & H1 & H2). split_and!; [lia|lia|lia|]. constructor; [by rewrite Es|done]. }
  unfold access_out. destruct (inputs (prevout i)) as [c|] eqn:Ec; [|done].
  destruct (negb (negb (isHash (prevout i)) && _)) eqn:E1; [|done].
  destruct (negb (isHash (prevout i) && _ && _)) eqn:E2; [|done].
  destruct (MoneyRange (nValue (coin_out c))) eqn:E3; [|done]. apply MoneyRange_true in E3. cbn [andb] in Hl.
  rewrite i64_small in Hl by lia. destruct (MoneyRange (acc + nValue (coin_out c))) eqn:E4; [|done]. apply MoneyRange_true in E4.
  destruct (IH _ v E4 Hl) as (-> & H1 & H2). split_and!; [lia|lia|lia|]. constructor; [|done]. intros _. exists c.
  split_and!; [done|lia|lia|]. intros Hm. destruct (isHash (prevout i)) eqn:Eh; cbn [negb andb] in E1, E2.
  - destruct Hm as [?|Hm]; [done|]. rewrite Hm in E2. cbn [andb] in E2. zbool. lia.
  - zbool. lia.
Qed.

End InputsLemmas.

(** ** Properties *)

(** C35: [CheckTransaction] with duplicate detection accepts a transaction exactly
    when it has inputs and outputs, fits the block size without its witness data,
    pays non-negative amounts with a total of at most [MAX_MONEY], spends
    pairwise different outpoints, and either is a coinbase with the prescribed
    input or spends no null outpoint. *)
Theorem CheckTransaction_accepts_iff tx bs : Forall (fun i => outpoint_ok (prevout i)) (vin tx) ->
  SerializeTransaction false tx = Some bs ->
  CheckTransaction tx true = Ok tt <->
    vin tx <> [] /\ vout tx <> [] /\ Z.of_nat (length bs) <= MAX_BLOCK_BASE_SIZE /\
    Forall (fun o => 0 <= nValue o) (vout tx) /\ value_sum (vout tx) <= MAX_MONEY /\ distinct_inputs (vin tx) /\
    (if IsCoinBase tx
     then let in0 := nth 0 (vin tx) CTxIn_default in
          if IsOldTransactionVersion (nVersion tx) then 2 <= Z.of_nat (length (scriptSig in0)) <= 100
          else scriptSig in0 = [] /\ length (segregatedSignatureData in0) = 2%nat
     else Forall (fun i => COutPoint_IsNull (prevout i) = false) (vin tx)).
Proof.
  intros Hop Hser. unfold CheckTransaction. rewrite Hser.
  case_bool_decide as Hvin; [split; [done|tauto]|]. case_bool_decide as Hvout; [split; [done|tauto]|]. cbn [negb].
  destruct (_ >? MAX_BLOCK_BASE_SIZE) eqn:Esz; zbool; cbn [negb]; [split; [done|lia]|].
  pose proof (check_outputs_spec (vout tx) 0 ltac:(split; [done|vm_compute; discriminate])) as Ho. rewrite Z.add_0_l in Ho.
  destruct (check_outputs (vout tx) 0) as [[]|e]; cbn [res_bind];
    [destruct (proj1 Ho eq_refl) as [Hnn Hsum]|split; [done|intros (_ & _ & _ & H1 & H2 & _); exfalso; by assert (Err e = Ok tt) by (by apply Ho)]].
  pose proof (check_duplicates_spec (vin tx) [] ltac:(constructor) Hop) as Hd.
  destruct (check_duplicates [] (vin tx)); [|split; [done|intros (_ & _ & _ & _ & _ & H1 & _); exfalso; by assert (false = true) by (apply Hd; split; [constructor|done])]].
  destruct (proj1 Hd eq_refl) as [_ Hdist]. destruct (IsCoinBase tx).
  - destruct (IsOldTransactionVersion (nVersion tx)).
    + destruct (_ || _) eqn:E; cbn [negb].
      * split; [done|]. intros (_ & _ & _ & _ & _ & _ & Hlen). exfalso. apply orb_true_iff in E as [E|E]; zbool; lia.
      * zbool. split; [intros _; split_and!; (done || lia)|done].
    + destruct (Z.of_nat (length (scriptSig _)) =? 0) eqn:E1; zbool.
      2: { split; [done|]. intros (_ & _ & _ & _ & _ & _ & Hs & _). rewrite Hs in E1. done. }
      destruct (_ =? 2) eqn:E2; zbool; [|split; [done|intros (_ & _ & _ & _ & _ & _ & _ & Hs); rewrite Hs in E2; done]].
      split; [intros _; split_and!; try done; [by destruct (scriptSig _)|lia]|done].
  - destruct (forallb _ _) eqn:E.
    + split; [intros _|done]. split_and!; try done. apply List.Forall_forall. intros i Hi.
      apply (proj1 (forallb_forall _ _) E) in Hi. by apply negb_true_iff in Hi.
    + split; [done|]. intros (_ & _ & _ & _ & _ & _ & Hf). exfalso. apply not_true_iff_false in E. apply E, forallb_forall.
      intros i Hi. apply (proj1 (List.Forall_forall _ _) Hf) in Hi. by rewrite Hi.
Qed.

Lemma CheckTransaction_accepts_iff_witness : CheckTransaction sample_tx true = Ok tt.
Proof.
  assert (Hop : Forall (fun i => outpoint_ok (prevout i)) (vin sample_tx)).
  { repeat split; try discriminate; try reflexivity; repeat constructor; try discriminate; try reflexivity. }
  destruct (SerializeTransaction false sample_tx) as [bs|] eqn:E; [|vm_compute in E; discriminate].
  apply (CheckTransaction_accepts_iff sample_tx bs Hop E). vm_compute in E. injection E as <-.
  split_and!; try (vm_compute; discriminate); unfold distinct_inputs; repeat constructor; vm_compute; (discriminate || reflexivity).
Defined.

(** a transaction that is final for a block stays final for every block that
    is at least as high and as late; it is final when its lock time is zero or
    in the past, or when no input opts for locking. *)
Theorem final_tx_stays_final tx h t h' t' : h <= h' -> t <= t' ->
  (IsFinalTx tx h t = true -> IsFinalTx tx h' t' = true) /\
  (IsFinalTx tx h t = true <->
     nLockTime tx = 0 \/ (if nLockTime tx <? LOCKTIME_THRESHOLD then nLockTime tx < h else nLockTime tx < t) \/
     Forall (fun i => if IsOldTransactionVersion (nVersion tx) then GetSequence i (nVersion tx) = SEQUENCE_FINAL
                      else FlagIsSet i OptInRBF = false /\ FlagIsSet i HasLock = false) (vin tx)).
Proof.
  intros Hh Ht.
  assert (Hiff : forall h t, IsFinalTx tx h t = true <->
     nLockTime tx = 0 \/ (if nLockTime tx <? LOCKTIME_THRESHOLD then nLockTime tx < h else nLockTime tx < t) \/
     Forall (fun i => if IsOldTransactionVersion (nVersion tx) then GetSequence i (nVersion tx) = SEQUENCE_FINAL
                      else FlagIsSet i OptInRBF = false /\ FlagIsSet i HasLock = false) (vin tx)).
  { intros h0 t0. unfold IsFinalTx. destruct (nLockTime tx =? 0) eqn:E0; zbool; [tauto|].
    destruct (nLockTime tx <? (if _ : bool then h0 else t0)) eqn:E1; zbool.
    - split; [intros _; right; left|done]. by destruct (nLockTime tx <? LOCKTIME_THRESHOLD).
    - assert (Hno : ~ (if nLockTime tx <? LOCKTIME_THRESHOLD then nLockTime tx < h0 else nLockTime tx < t0))
        by (destruct (nLockTime tx <? LOCKTIME_THRESHOLD); lia).
      rewrite <- (forallb_both (IsOldTransactionVersion (nVersion tx))), forallb_forall, List.Forall_forall.
      split.
      + intros Hf. right; right. intros i Hi. specialize (Hf i Hi). by destruct (IsOldTransactionVersion _); zbool.
      + intros [?|[?|Hf]]; [lia|done|]. intros i Hi. specialize (Hf i Hi). destruct (IsOldTransactionVersion _); [by apply Z.eqb_eq|].
        destruct Hf as [-> ->]. done. }
  split; [|apply Hiff]. rewrite !Hiff. intros [?|[Hl|?]]; [by left| |by right; right].
  right; left. destruct (nLockTime tx <? LOCKTIME_THRESHOLD); lia.
Qed.

Lemma final_tx_stays_final_witness : IsFinalTx sample_tx 100 0 = true.
Proof. apply (proj1 (final_tx_stays_final sample_tx 78 0 100 0 ltac:(lia) ltac:(lia))). reflexivity. Defined.

(** with relative lock times enforced, a block meets a transaction's sequence
    locks exactly when it meets the lock of every input, that is when its height
    is above each height lock and its parent's median time above each time lock. *)
Theorem sequence_locks_exact H testnet tx flags hs block q :
  2 <= u32 (nVersion tx) -> Z.testbit flags 0 = true -> length hs = length (vin tx) ->
  prev_of H block = Some q -> 0 <= height_of H block -> 0 <= GetMedianTimePast H testnet q ->
  Forall2 (fun i h => is_Some (input_lock H testnet (nVersion tx) block i h)) (vin tx) hs ->
  exists b, SequenceLocks H testnet tx flags hs block = Some b /\
    (b = true <-> Forall2 (fun i h => exists l, input_lock H testnet (nVersion tx) block i h = Some l /\
                                          lock_met l (height_of H block) (GetMedianTimePast H testnet q)) (vin tx) hs).
Proof.
  intros Hv Hfl Hlen Hq Hh Hm Hall. unfold SequenceLocks, CalculateSequenceLocks. rewrite Hlen, Nat.eqb_refl. cbn [negb].
  change LOCKTIME_VERIFY_SEQUENCE with (2 ^ 0). rewrite land_pow2, Hfl by lia.
  assert ((u32 (nVersion tx) >=? 2) = true) as -> by (rewrite Z.geb_leb; by apply Z.leb_le). cbn [negb andb].
  destruct (locks_loop_spec H testnet (nVersion tx) block (height_of H block) (GetMedianTimePast H testnet q)
              (vin tx) hs (-1) (-1) Hlen Hall) as (hs' & mh & mt & E & Hiff).
  rewrite E. cbn [mbind option_bind]. unfold EvaluateSequenceLocks. rewrite Hq. cbn. eexists. split; [reflexivity|].
  destruct ((mh >=? height_of H block) || (mt >=? GetMedianTimePast H testnet q)) eqn:Eb.
  - split; [done|]. intros Hf. apply orb_true_iff in Eb. exfalso.
    assert (mh < height_of H block /\ mt < GetMedianTimePast H testnet q) by (apply Hiff; split_and!; (done || lia)).
    destruct Eb as [Eb|Eb]; zbool; lia.
  - zbool. split; [intros _|done]. by apply Hiff.
Qed.

Lemma sequence_locks_exact_witness : exists b, SequenceLocks sample_heap true sample_tx 1 [0; 0] 3 = Some b /\
  (b = true -> exists l, input_lock sample_heap true 5 3 (nth 0 (vin sample_tx) CTxIn_default) 0 = Some l /\ lock_met l 2 100).
Proof.
  destruct (sequence_locks_exact sample_heap true sample_tx 1 [0; 0] 3 2) as (b & E & Hiff);
    [vm_compute; discriminate|reflexivity|reflexivity|reflexivity|vm_compute; discriminate|vm_compute; discriminate| |].
  - repeat constructor; by eexists.
  - exists b. split; [exact E|]. intros Hb. apply Hiff in Hb. inversion Hb as [|? ? ? ? Hl _]; subst. exact Hl.
Defined.

(** C3: an accepted transaction spends only coins that exist, are mature and hold
    valid amounts; it creates no money: the value of its inputs is the value of
    its outputs plus a fee that covers the witness penalty, and everything stays
    within [MAX_MONEY]. *)
Theorem CheckTxInputs_conserves_value inputs p tx nSpendHeight penalty :
  CheckTxInputs inputs p tx nSpendHeight penalty = Ok tt ->
  let wcb := IsPoW2WitnessCoinBase tx in
  Forall (fun i => skipped wcb i = false -> spendable inputs p nSpendHeight i) (vin tx) /\
  exists out fee, GetValueOut tx = Some out /\ value_in inputs wcb (vin tx) = out + fee /\
    Z.max 0 penalty <= fee /\ value_in inputs wcb (vin tx) <= MAX_MONEY.
Proof.
  intros Hc wcb. unfold CheckTxInputs in Hc. fold wcb in Hc.
  match type of Hc with (if ?b then _ else _) = _ => destruct b; [|done] end.
  destruct (inputs_loop inputs p wcb (vin tx) nSpendHeight 0) as [v|e] eqn:El; [|done]. cbn [res_bind] in Hc.
  destruct (inputs_loop_spec inputs p wcb nSpendHeight (vin tx) 0 v) as (Hv & Hr & Hf); [split; [done|vm_compute; discriminate]|done|].
  destruct (GetValueOut tx) as [out|]; [|done]. split; [done|].
  destruct (v <? out) eqn:E1; [done|]. cbn [negb] in Hc. destruct (v - out <? 0) eqn:E2; [done|]. cbn [negb] in Hc.
  destruct (v - out <? penalty) eqn:E3; [done|]. zbool. exists out, (v - out). split_and!; (done || lia).
Qed.

(** A coin for each input of the sample transaction. *)
Definition sample_coins (o : COutPoint) : option Coin :=
  Some (mkCoin (mkTxOut (if isHash o then 100000 else 500000000000) 0 (ScriptLegacyOutput [])) false true 100 0).

Lemma CheckTxInputs_conserves_value_witness : exists out fee,
  GetValueOut sample_tx = Some out /\ value_in sample_coins false (vin sample_tx) = out + fee /\ 5000 <= fee.
Proof.
  destruct (CheckTxInputs_conserves_value sample_coins CMainParams sample_tx 1000 5000) as (_ & out & fee & E & Hv & Hp & _);
    [vm_compute; reflexivity|].
  exists out, fee. split_and!; [exact E| |lia]. exact Hv.
Defined.
