(* ===== verification/BlockCheck.v ===== *)
(** * BlockCheck: the checks of a block on its own and on its place, in [src/src/validation/validation.cpp]

    [CheckBlockHeader] with the cache of proofs of work, [CheckBlock],
    [ContextualCheckBlockHeader] and [ContextualCheckBlock]. A block is that of [Block];
    its transactions carry their hashes. *)

From stdpp Require Import gmap.
From S2P Require Import Prelude ArithUint256 Serialize Compressor Transaction Block Script ConsensusParams Chain DiffDelta Merkle MerkleUnique TxCheck.

(** ** Definitions *)

(** *** A cache that forgets what was used longest ago

    [src/src/LRUCache/LRUCache11.hpp]: the list of keys and values, last used first; the map
    from keys to places in it is the search. *)

Section Cache.
Context {K V : Type} `{EqDecision K}.
Record LRUCache := mkLRU { keys_ : list (K * V); maxSize_ : nat; elasticity_ : nat }.
Fixpoint lru_find (l : list (K * V)) (k : K) : option V :=
  match l with [] => None | (k', v) :: l' => if decide (k' = k) then Some v else lru_find l' k end.
Definition lru_erase (l : list (K * V)) (k : K) : list (K * V) := List.filter (fun x => negb (bool_decide (fst x = k))) l.
Definition lru_contains (c : LRUCache) (k : K) : bool := match lru_find (keys_ c) k with Some _ => true | None => false end.
(** [None]: the key is not there, which throws. *)
Definition lru_get (c : LRUCache) (k : K) : option (V * LRUCache) :=
  match lru_find (keys_ c) k with
  | Some v => Some (v, mkLRU ((k, v) :: lru_erase (keys_ c) k) (maxSize_ c) (elasticity_ c))
  | None => None
  end.
Definition lru_prune (c : LRUCache) : LRUCache :=
  if (maxSize_ c =? 0)%nat || (length (keys_ c) <? maxSize_ c + elasticity_ c)%nat then c
  else mkLRU (firstn (maxSize_ c) (keys_ c)) (maxSize_ c) (elasticity_ c).
Definition lru_insert (c : LRUCache) (k : K) (v : V) : LRUCache :=
  if lru_contains c k then mkLRU ((k, v) :: lru_erase (keys_ c) k) (maxSize_ c) (elasticity_ c)
  else lru_prune (mkLRU ((k, v) :: keys_ c) (maxSize_ c) (elasticity_ c)).
End Cache.
Arguments LRUCache : clear implicits.

(** *** Reasons *)

(** [cached_failure] leaves no reason; [block_failure] is a failed assertion, a null
    pointer or a read past the end. *)
Inductive block_reject :=
| high_hash | cached_failure | bad_blk_length | bad_cb_missing | bad_cb_multiple | bad_txnmrklroot | bad_txns_duplicate
| bad_transaction (r : reject) | bad_blk_sigops
| bad_diffbits | time_too_old | time_too_new | time_invalid | witness_merkle_invalid | witness_signature_invalid | witness_utxo_delta_invalid
| bad_txns_nonfinal | bad_transaction_version | bad_segsig_txin | bad_cb_height | bad_witness_cb | missing_segregated_signature | bad_blk_weight
| block_failure.

Definition MAX_BLOCK_WEIGHT : Z := 1000000.
Definition MAX_BLOCK_SIGOPS_COST : Z := 80000.
Definition MAX_FUTURE_BLOCK_TIME : Z := 60.
Definition MAX_STANDARD_VERSION : Z := 5.

(** The first of a list of checks that fails. *)
Fixpoint check_all {A} (f : A -> res block_reject unit) (l : list A) : res block_reject unit :=
  match l with [] => Ok tt | a :: l' => let! _ := f a in check_all f l' end.

Definition txids (vtx : list (uint256 * CTransaction)) : list uint256 := fst <$> vtx.
Definition is_witness_coinbase (tx : CTransaction) : bool := IsCoinBase tx && IsPoW2WitnessCoinBase tx.
(** The last position from [i] on of a witness coinbase, [n] if there is none. *)
Fixpoint last_witness_coinbase (vtx : list (uint256 * CTransaction)) (i n : nat) : nat :=
  match vtx with [] => n | (_, tx) :: vtx' => last_witness_coinbase vtx' (S i) (if is_witness_coinbase tx then i else n) end.
(** The first position from [i] on, [0] if there is none. *)
Fixpoint first_witness_coinbase (vtx : list (uint256 * CTransaction)) (i : nat) : nat :=
  match vtx with [] => 0%nat | (_, tx) :: vtx' => if is_witness_coinbase tx then i else first_witness_coinbase vtx' (S i) end.

Definition set_checked (b : CBlock) : CBlock := mkBlock (block_header b) (vtx b) true (fPOWChecked b).
Definition set_pow_checked (b : CBlock) : CBlock := mkBlock (block_header b) (vtx b) (fChecked b) true.

(** *** The block on its own *)

Section Check.
(** The hash of the bytes of a header and of two nodes. *)
Variable SerializeHash : list Z -> uint256.
Variable Hash : uint256 -> uint256 -> uint256.
(** [CheckProofOfWork] of the block: the hashes it needs are those of external code. *)
Variable regtest : bool.
Variable powLimit : base_uint.
Variable activationDate : Z.
Variable sigma_valid : CBlockHeader -> bool.
Variable GetPoWHash : CBlockHeader -> base_uint.
(** Light clients trust the headers below the last checkpoint; the heights are those of the block index. *)
Variable fSPV : bool.
Variable index_height : uint256 -> option Z.
Variable LastCheckPointHeight : Z.

Definition proof_of_work (b : CBlockHeader) : bool :=
  CheckProofOfWork regtest powLimit activationDate (bh_nTime b) (bh_nBits b) (sigma_valid b) (GetPoWHash b).
Definition spv_buried (b : CBlockHeader) : bool :=
  fSPV && match index_height (hashPrevBlock b) with Some h => h + 1 <? LastCheckPointHeight | None => false end.

Abbreviation pow_cache := (LRUCache uint256 bool).

Definition CheckBlockHeader (block : CBlockHeader) (checkedPoWCache : pow_cache) (fCheckPOW : bool) : pow_cache * res block_reject unit :=
  if fCheckPOW then
    match GetHashLegacy SerializeHash block with
    | None => (checkedPoWCache, Err block_failure)
    | Some blockHash =>
        match lru_get checkedPoWCache blockHash with
        | Some (v, cache) => (cache, if v then Ok tt else Err cached_failure)
        | None =>
            if spv_buried block then (lru_insert checkedPoWCache blockHash true, Ok tt)
            else if negb (proof_of_work block) then (lru_insert checkedPoWCache blockHash false, Err high_hash)
            else (lru_insert checkedPoWCache blockHash true, Ok tt)
        end
    end
  else (checkedPoWCache, Ok tt).

(** The position of the witness coinbase as [CheckBlock] sees it: the last one, 0 without a witness. *)
Definition split_index (b : CBlock) : nat :=
  if bh_nVersionPoW2Witness (block_header b) =? 0 then 0%nat else last_witness_coinbase (skipn 1 (vtx b)) 1 0.
Definition pow_part (b : CBlock) : list (uint256 * CTransaction) := if (split_index b =? 0)%nat then vtx b else firstn (split_index b) (vtx b).
Definition witness_part (b : CBlock) : list (uint256 * CTransaction) := skipn (split_index b) (vtx b).
Definition BlockMerkleRoot (vtx : list (uint256 * CTransaction)) : uint256 * bool := ComputeMerkleRoot null_hash Hash (txids vtx).

Definition check_size (b : CBlock) : res block_reject unit :=
  match GetSerializeSize SER_NETWORK (Z.lor PROTOCOL_VERSION SERIALIZE_TRANSACTION_NO_SEGREGATED_SIGNATURES) b with
  | None => Err block_failure
  | Some size =>
      guard! negb (bool_decide (vtx b = []) || (Z.of_nat (length (vtx b)) >? MAX_BLOCK_BASE_SIZE) || (size >? MAX_BLOCK_BASE_SIZE)) or bad_blk_length in Ok tt
  end.
Definition check_coinbases (b : CBlock) : res block_reject unit :=
  guard! match vtx b with (_, tx) :: _ => IsCoinBase tx | [] => false end or bad_cb_missing in
  guard! forallb (fun x => negb (IsCoinBase (snd x))) (skipn (if (split_index b =? 0)%nat then 1 else S (split_index b)) (vtx b)) or bad_cb_multiple in
  Ok tt.
Definition check_root (root : uint256) (part : list (uint256 * CTransaction)) : res block_reject unit :=
  let '(hashMerkleRoot2, mutated) := BlockMerkleRoot part in
  guard! bool_decide (root = hashMerkleRoot2) or bad_txnmrklroot in
  guard! negb mutated or bad_txns_duplicate in Ok tt.
Definition check_merkle (b : CBlock) : res block_reject unit :=
  let! _ := check_root (hashMerkleRoot (block_header b)) (pow_part b) in
  if bh_nVersionPoW2Witness (block_header b) =? 0 then Ok tt else check_root (hashMerkleRootPoW2Witness (block_header b)) (witness_part b).
Definition check_transactions (b : CBlock) : res block_reject unit :=
  check_all (fun x => match CheckTransaction (snd x) true with Ok _ => Ok tt | Err r => Err (bad_transaction r) end) (vtx b).
Definition block_sigops (b : CBlock) : Z := fold_left (fun n x => u32 (n + GetLegacySigOpCount (snd x))) (vtx b) 0.
(** What [CheckBlock] asks of the contents. *)
Definition check_contents (b : CBlock) (fCheckMerkleRoot : bool) : res block_reject unit :=
  let! _ := check_size b in
  let! _ := check_coinbases b in
  let! _ := if fCheckMerkleRoot then check_merkle b else Ok tt in
  let! _ := check_transactions b in
  guard! negb (block_sigops b >? MAX_BLOCK_SIGOPS_COST) or bad_blk_sigops in Ok tt.

(** The block with its marks, the cache and the verdict. *)
Definition CheckBlock (block : CBlock) (cache : pow_cache) (fCheckPOW fCheckMerkleRoot fAssumePOWGood : bool) : CBlock * pow_cache * res block_reject unit :=
  if fChecked block then (block, cache, Ok tt)
  else
    let '(cache, r) := if fCheckPOW then CheckBlockHeader (block_header block) cache (negb fAssumePOWGood && negb (fPOWChecked block)) else (cache, Ok tt) in
    match r with
    | Err e => (block, cache, Err e)
    | Ok _ =>
        let block := if fCheckPOW then set_pow_checked block else block in
        match check_contents block fCheckMerkleRoot with
        | Err e => (block, cache, Err e)
        | Ok _ => (if fCheckPOW && fCheckMerkleRoot then set_checked block else block, cache, Ok tt)
        end
    end.
End Check.

(** *** The header on its place *)

Section Contextual.
Variable p : ChainParams.
Variable H : heap.
(** The versions of an indexed block: of the block and of its witness. *)
Variable versions : ptr -> Z * Z.
(** The table of old difficulties, see [DiffDelta]. *)
Variable udiff : Z -> Z.
Variable nPowLimit : Z.
Variable BIP34Height : Z.
(** The deployment of median times is active after a block: [VersionBits]. *)
Variable csv_active : option ptr -> bool.

Definition IsSegSigEnabled (pindexPrev : option ptr) : bool :=
  match pindexPrev with Some q => negb (snd (versions q) =? 0) | None => false end.

Definition all_zero (l : list Z) : bool := forallb (fun c => c =? 0) l.
Definition ContextualCheckBlockHeader (block : CBlockHeader) (pindexPrev : ptr) (nAdjustedTime : Z) : res block_reject unit :=
  match GetNextWorkRequired udiff (fPowNoRetargeting (consensus p)) (fIsTestnet p) H pindexPrev (bh_nTime block) (nPowTargetSpacing (consensus p)) nPowLimit with
  | None => Err block_failure
  | Some bits =>
      guard! bh_nBits block =? bits or bad_diffbits in
      guard! negb (bh_nTime block <=? GetMedianTimePastWitness H (fIsTestnet p) pindexPrev) or time_too_old in
      guard! negb (bh_nTime block >? nAdjustedTime + (if height_of H pindexPrev >? (if fIsTestnet p then 446500 else 437500) then MAX_FUTURE_BLOCK_TIME else 15 * 60))
        or time_too_new in
      if negb (bh_nVersionPoW2Witness block =? 0) then
        guard! negb (bh_nTimePoW2Witness block <=? GetMedianTimePastPoW H (fIsTestnet p) pindexPrev) or time_too_old in
        guard! negb (bool_decide (hashMerkleRootPoW2Witness block = null_hash)) or witness_merkle_invalid in
        guard! negb (all_zero (witnessHeaderPoW2Sig block)) or witness_signature_invalid in
        guard! negb ((height_of H pindexPrev >? i64 (pow2WitnessSyncHeight (consensus p))) && bool_decide (witnessUTXODelta block = [])) or witness_utxo_delta_invalid in
        Ok tt
      else
        guard! bh_nTimePoW2Witness block =? 0 or time_invalid in
        guard! bool_decide (hashMerkleRootPoW2Witness block = null_hash) or witness_merkle_invalid in
        guard! all_zero (witnessHeaderPoW2Sig block) or witness_signature_invalid in
        guard! bool_decide (witnessUTXODelta block = []) or witness_utxo_delta_invalid in
        Ok tt
  end.

(** *** The block on its place *)

(** [std::equal] of a vector with the start of another; [None] reads past the end of the other. *)
Fixpoint std_equal (expect data : list Z) : option bool :=
  match expect, data with
  | [], _ => Some true
  | _ :: _, [] => None
  | a :: expect', b :: data' => if a =? b then std_equal expect' data' else Some false
  end.
(** The first item of the first input of a coinbase is the height. *)
Definition check_height (tx : CTransaction) (nHeight : Z) : res block_reject unit :=
  match vin tx with
  | [] => Err block_failure
  | i :: _ =>
      match segregatedSignatureData i with
      | [] => Err bad_cb_height
      | item :: _ =>
          match std_equal (WriteVarInt nHeight) item with
          | None => Err block_failure
          | Some e => guard! e or bad_cb_height in Ok tt
          end
      end
  end.
Definition check_segsig_inputs (tx : CTransaction) : res block_reject unit :=
  check_all (fun i => guard! negb (IsOldTransactionVersion (nVersion tx)) or bad_transaction_version in
                      guard! (length (scriptSig i) =? 0)%nat or bad_segsig_txin in Ok tt) (vin tx).
Definition check_witness_coinbase (b : CBlock) (nHeight : Z) (haveSegregatedSignatures : bool) : res block_reject unit :=
  let nWitnessCoinbaseIndex := first_witness_coinbase (skipn 1 (vtx b)) 1 in
  guard! negb (nWitnessCoinbaseIndex =? 0)%nat or bad_witness_cb in
  if haveSegregatedSignatures then
    match vtx b !! nWitnessCoinbaseIndex with Some (_, tx) => check_height tx nHeight | None => Err block_failure end
  else Ok tt.

(** The times of blocks below the deployment are those of the block itself. *)
Definition ContextualCheckBlock (block : CBlock) (pindexPrev : option ptr) (doUTXOChecks : bool) : res block_reject unit :=
  let segsig := IsSegSigEnabled pindexPrev in
  let nHeight := match pindexPrev with Some q => height_of H q + 1 | None => 0 end in
  let! nLockTimeCutoff :=
    if csv_active pindexPrev then match pindexPrev with Some q => Ok (GetMedianTimePast H (fIsTestnet p) q) | None => Err block_failure end
    else Ok (bh_nTime (block_header block)) in
  guard! forallb (fun x => IsFinalTx (snd x) nHeight nLockTimeCutoff) (vtx block) or bad_txns_nonfinal in
  guard! negb (doUTXOChecks && segsig) || forallb (fun x => negb (nVersion (snd x) >? MAX_STANDARD_VERSION)) (vtx block) or bad_transaction_version in
  let! _ := if segsig then check_all (fun x => check_segsig_inputs (snd x)) (vtx block) else Ok tt in
  let! _ := if (nHeight >=? BIP34Height) && segsig
            then match vtx block with (_, tx) :: _ => check_height tx nHeight | [] => Err block_failure end
            else Ok tt in
  let! _ := if negb (nHeight =? 0) && negb (bh_nVersionPoW2Witness (block_header block) =? 0) then check_witness_coinbase block nHeight segsig else Ok tt in
  guard! negb segsig || forallb (fun x => HasSegregatedSignatures (snd x)) (vtx block) or missing_segregated_signature in
  match GetBlockWeight block with
  | None => Err block_failure
  | Some weight => guard! negb (weight >? MAX_BLOCK_WEIGHT) or bad_blk_weight in Ok tt
  end.
End Contextual.

(** ** Lemmas *)

(** *** The cache *)

Section CacheLemmas.
Context {K V : Type} `{EqDecision K}.
Implicit Types (c : LRUCache K V) (l : list (K * V)).

Lemma find_erase l k k' : lru_find (lru_erase l k) k' = if decide (k' = k) then None else lru_find l k'.
Proof.
  unfold lru_erase. induction l as [|[a v] l IH]; cbn; [by destruct (decide _)|]. case_bool_decide; subst; cbn; [rewrite IH; destruct (decide (k' = k)); [done|by rewrite decide_False by congruence]|].
  rewrite IH. destruct (decide (a = k')) as [->|]; [by rewrite decide_False by done|done].
Qed.
Lemma find_firstn n l k v : lru_find (firstn n l) k = Some v -> lru_find l k = Some v.
Proof. revert n; induction l as [|[a w] l IH]; intros [|n]; cbn; [done..|]. destruct (decide (a = k)); [done|apply IH]. Qed.
(** What the cache answers was put there or was there before. *)
Lemma find_insert c k v k' x : lru_find (keys_ (lru_insert c k v)) k' = Some x -> (k' = k /\ x = v) \/ lru_find (keys_ c) k' = Some x.
Proof.
  unfold lru_insert, lru_prune. destruct (lru_contains c k).
  - cbn. destruct (decide (k = k')) as [->|N]; [intros [= ->]; by left|]. rewrite find_erase. destruct (decide (k' = k)); [done|by right].
  - assert (X : lru_find ((k, v) :: keys_ c) k' = Some x -> (k' = k /\ x = v) \/ lru_find (keys_ c) k' = Some x).
    { cbn. destruct (decide (k = k')) as [->|N]; [intros [= ->]; by left|by right]. }
    destruct (_ || _); cbn [keys_]; [done|]. intros E. apply X. by eapply find_firstn.
Qed.
Lemma find_get c k v c' k' : lru_get c k = Some (v, c') -> lru_find (keys_ c) k = Some v /\ lru_find (keys_ c') k' = lru_find (keys_ c) k'.
Proof.
  unfold lru_get. destruct (lru_find (keys_ c) k) as [w|] eqn:E; [|done]. intros [= <- <-]. split; [done|]. cbn.
  destruct (decide (k = k')) as [->|N]; [done|]. rewrite find_erase. by rewrite decide_False.
Qed.
(** The size stays below the limit. *)
Lemma insert_bounded c k v : (0 < maxSize_ c)%nat -> (0 < elasticity_ c)%nat -> (length (keys_ c) < maxSize_ c + elasticity_ c)%nat ->
  (length (keys_ (lru_insert c k v)) <= maxSize_ c + elasticity_ c)%nat.
Proof.
  intros M E L. unfold lru_insert, lru_prune. destruct (lru_contains c k); cbn [keys_ length].
  - unfold lru_erase. pose proof (List.filter_length_le (fun x => negb (bool_decide (fst x = k))) (keys_ c)). lia.
  - cbn [maxSize_ elasticity_]. destruct (_ || _) eqn:B; cbn [keys_ length]; [lia|]. rewrite length_firstn. lia.
Qed.
End CacheLemmas.

(** *** The contents *)

Section Contents.
Variable SerializeHash : list Z -> uint256.
Variable Hash : uint256 -> uint256 -> uint256.

Lemma check_root_Ok root part : check_root Hash root part = Ok tt -> ComputeMerkleRoot null_hash Hash (txids part) = (root, false).
Proof.
  unfold check_root, BlockMerkleRoot. destruct (ComputeMerkleRoot _ _ _) as [r m]. case_bool_decide as E; [|done]. subst. by destruct m.
Qed.
(** One root, two parts of blocks. *)
Lemma same_root_same_txids root part part' : check_root Hash root part = Ok tt -> check_root Hash root part' = Ok tt ->
  part <> [] -> part' <> [] -> Z.of_nat (length part) <= 2 ^ 31 -> Z.of_nat (length part') <= 2 ^ 31 ->
  plain_leaves Hash (txids part) -> plain_leaves Hash (txids part') -> collision Hash \/ txids part = txids part'.
Proof.
  intros R1%check_root_Ok R2%check_root_Ok N1 N2 L1 L2 P1 P2.
  assert (S : forall l : list (uint256 * CTransaction), l <> [] -> Z.of_nat (length l) <= 2 ^ 31 -> sized (txids l)).
  { intros l N L. unfold sized, count, txids. rewrite length_fmap. destruct l; [done|]. cbn [length] in *. lia. }
  apply (root_determines_leaves null_hash Hash); auto; by rewrite ?R1, ?R2.
Qed.

Lemma last_index_range l : forall i n, last_witness_coinbase l i n = n \/ (i <= last_witness_coinbase l i n < i + length l)%nat.
Proof.
  induction l as [|[h tx] l IH]; intros i n; cbn; [by left|]. destruct (IH (S i) (if is_witness_coinbase tx then i else n)) as [->|]; [|lia].
  destruct (is_witness_coinbase tx); [lia|by left].
Qed.
Lemma split_range b : (split_index b < length (vtx b))%nat \/ split_index b = 0%nat.
Proof.
  unfold split_index. destruct (_ =? 0); [by right|]. destruct (last_index_range (skipn 1 (vtx b)) 1 0) as [->|X]; [by right|]. rewrite length_skipn in X. left. lia.
Qed.
Lemma parts_nonempty b : vtx b <> [] -> pow_part b <> [] /\ witness_part b <> [].
Proof.
  intros N. unfold pow_part, witness_part. destruct (split_range b) as [R|R].
  - split.
    + destruct (split_index b) as [|k]; [done|]. cbn [Nat.eqb]. by destruct (vtx b).
    + intros E. apply (f_equal length) in E. rewrite length_skipn in E. cbn in E. lia.
  - by rewrite R.
Qed.
Lemma parts_length b : (length (pow_part b) <= length (vtx b))%nat /\ (length (witness_part b) <= length (vtx b))%nat.
Proof. unfold pow_part, witness_part. rewrite length_skipn. split; [destruct (_ =? _)%nat; rewrite ?length_firstn; lia|lia]. Qed.
Lemma parts_Forall (P : uint256 -> Prop) b : Forall P (txids (vtx b)) -> Forall P (txids (pow_part b)) /\ Forall P (txids (witness_part b)).
Proof.
  unfold txids, pow_part, witness_part. rewrite !Forall_fmap. intros F. split; [destruct (_ =? _)%nat; [done|by apply Forall_take]|by apply Forall_drop].
Qed.

Lemma check_contents_Ok b : check_contents Hash b true = Ok tt ->
  vtx b <> [] /\ Z.of_nat (length (vtx b)) <= MAX_BLOCK_BASE_SIZE /\ check_coinbases b = Ok tt /\
  check_root Hash (hashMerkleRoot (block_header b)) (pow_part b) = Ok tt /\
  (bh_nVersionPoW2Witness (block_header b) <> 0 -> check_root Hash (hashMerkleRootPoW2Witness (block_header b)) (witness_part b) = Ok tt) /\
  check_transactions b = Ok tt /\ block_sigops b <= MAX_BLOCK_SIGOPS_COST.
Proof.
  unfold check_contents. destruct (check_size b) as [[]|] eqn:S; [|done]. cbn [res_bind]. destruct (check_coinbases b) as [[]|] eqn:C; [|done]. cbn [res_bind].
  unfold check_merkle. destruct (check_root Hash (hashMerkleRoot _) _) as [[]|] eqn:R; [|done]. cbn [res_bind].
  destruct (_ =? 0) eqn:W; zbool; [|destruct (check_root Hash (hashMerkleRootPoW2Witness _) _) as [[]|] eqn:R2; [|done]]; cbn [res_bind];
    (destruct (check_transactions b) as [[]|] eqn:T; [|done]); cbn [res_bind]; destruct (_ >? _) eqn:G; try done; zbool; intros _;
    unfold check_size in S; destruct (GetSerializeSize _ _ _); try done; destruct (_ || _) eqn:B; try done; apply orb_false_iff in B as [[B1 B2]%orb_false_iff B3];
    apply bool_decide_eq_false in B1; rewrite Z.gtb_ltb in B2; apply Z.ltb_ge in B2; by split_and!.
Qed.
End Contents.

(** ** Theorems *)

Section Theorems.
Variable SerializeHash : list Z -> uint256.
Variable Hash : uint256 -> uint256 -> uint256.
Variable regtest : bool.
Variable powLimit : base_uint.
Variable activationDate : Z.
Variable sigma_valid : CBlockHeader -> bool.
Variable GetPoWHash : CBlockHeader -> base_uint.
Variable fSPV : bool.
Variable index_height : uint256 -> option Z.
Variable LastCheckPointHeight : Z.
Abbreviation check := (CheckBlock SerializeHash Hash regtest powLimit activationDate sigma_valid GetPoWHash fSPV index_height LastCheckPointHeight).
Abbreviation check_header := (CheckBlockHeader SerializeHash regtest powLimit activationDate sigma_valid GetPoWHash fSPV index_height LastCheckPointHeight).

(** Some header with this hash has its proof of work, or is below a checkpoint. *)
Definition vouched (h : uint256) : Prop :=
  exists b, GetHashLegacy SerializeHash b = Some h /\
    (proof_of_work regtest powLimit activationDate sigma_valid GetPoWHash b = true \/ spv_buried fSPV index_height LastCheckPointHeight b = true).
Definition cache_vouched (c : LRUCache uint256 bool) : Prop := forall h, lru_find (keys_ c) h = Some true -> vouched h.
(** A witnessed block has a witness coinbase. *)
Definition anchored (b : CBlock) : Prop := bh_nVersionPoW2Witness (block_header b) = 0 \/ split_index b <> 0%nat.

Lemma anchored_parts b : anchored b -> if bh_nVersionPoW2Witness (block_header b) =? 0 then vtx b = pow_part b else vtx b = pow_part b ++ witness_part b.
Proof.
  unfold anchored, pow_part, witness_part. intros A. destruct (_ =? 0) eqn:E; zbool.
  - unfold split_index. by rewrite E.
  - destruct A as [A|A]; [done|]. rewrite (proj2 (Nat.eqb_neq _ _) A). symmetry. apply take_drop.
Qed.

Lemma header_check_vouched b cache cache' r : cache_vouched cache -> check_header b cache true = (cache', r) ->
  cache_vouched cache' /\ (r = Ok tt -> exists h, GetHashLegacy SerializeHash b = Some h /\ vouched h).
Proof.
  intros C E. unfold CheckBlockHeader in E. destruct (GetHashLegacy SerializeHash b) as [h|] eqn:Eh; [|injection E as <- <-; by split].
  destruct (lru_get cache h) as [[v c]|] eqn:G.
  - destruct (find_get cache h v c h G) as [F _]. assert (C' : cache_vouched c) by (intros k Ek; rewrite (proj2 (find_get cache h v c k G)) in Ek; auto).
    destruct v; injection E as <- <-; (split; [done|]); [|done]. intros _. exists h. split; [done|]. auto.
  - assert (I : forall v, (v = true -> vouched h) -> cache_vouched (lru_insert cache h v)).
    { intros v Hv k Ek. apply find_insert in Ek as [[-> Ev]|Ek]; auto. }
    destruct (spv_buried _ _ _ b) eqn:S; [|destruct (negb _) eqn:P]; injection E as <- <-.
    + assert (vouched h) by (exists b; auto). split; [auto|]. by exists h.
    + split; [by apply I|done].
    + apply negb_false_iff in P. assert (vouched h) by (exists b; auto). split; [auto|]. by exists h.
Qed.

Lemma check_Ok b cache fPOW fRoot fAssume b' cache' : fChecked b = false -> check b cache fPOW fRoot fAssume = (b', cache', Ok tt) ->
  check_contents Hash b fRoot = Ok tt /\ vtx b' = vtx b /\ block_header b' = block_header b.
Proof.
  intros Fc. unfold CheckBlock. rewrite Fc. destruct (if fPOW then _ else _) as [c [[]|]]; [|done].
  assert (X : forall m, check_contents Hash (if m : bool then set_pow_checked b else b) fRoot = check_contents Hash b fRoot) by (by intros []).
  rewrite X. destruct (check_contents Hash b fRoot) as [[]|]; [|done]. intros [= <- _]. split; [done|]. by destruct fPOW, fRoot.
Qed.

(** C13: Two blocks that both pass the check, with the same header, have the same list of
    transaction hashes, unless the hash function has a collision: the two roots of a header
    commit to all transactions, the part below the witness coinbase and the part from it on.
    Blocks are looked at whose transaction hashes are not hashes of pairs and that have a
    witness coinbase if they are witnessed. *)
Theorem header_commits_to_transactions b1 b2 cache1 cache2 a1 a2 b1' b2' cache1' cache2' :
  fChecked b1 = false -> fChecked b2 = false -> block_header b1 = block_header b2 ->
  check b1 cache1 true true a1 = (b1', cache1', Ok tt) -> check b2 cache2 true true a2 = (b2', cache2', Ok tt) ->
  plain_leaves Hash (txids (vtx b1)) -> plain_leaves Hash (txids (vtx b2)) -> anchored b1 -> anchored b2 ->
  collision Hash \/ txids (vtx b1) = txids (vtx b2).
Proof.
  intros F1 F2 Eh E1 E2 P1 P2 A1%anchored_parts A2%anchored_parts. destruct (check_Ok _ _ _ _ _ _ _ F1 E1) as [K1 _]. destruct (check_Ok _ _ _ _ _ _ _ F2 E2) as [K2 _].
  apply check_contents_Ok in K1 as (N1 & L1 & _ & R1 & W1 & _). apply check_contents_Ok in K2 as (N2 & L2 & _ & R2 & W2 & _).
  destruct (parts_nonempty b1 N1) as [Np1 Nw1]. destruct (parts_nonempty b2 N2) as [Np2 Nw2]. destruct (parts_length b1) as [Lp1 Lw1]. destruct (parts_length b2) as [Lp2 Lw2].
  apply parts_Forall in P1 as [Pp1 Pw1]. apply parts_Forall in P2 as [Pp2 Pw2]. unfold MAX_BLOCK_BASE_SIZE in *. rewrite <- Eh in *.
  destruct (same_root_same_txids Hash _ _ _ R1 R2 Np1 Np2) as [C|Ep]; try done; try lia; [by left|].
  destruct (_ =? 0) eqn:V; zbool; [right; by rewrite A1, A2|]. specialize (W1 V). specialize (W2 V).
  destruct (same_root_same_txids Hash _ _ _ W1 W2 Nw1 Nw2) as [C|Ew]; try done; try lia; [by left|]. right.
  rewrite A1, A2. unfold txids in *. rewrite !fmap_app. congruence.
Qed.

(** C14: With a cache whose good entries are vouched for, a block that passes the check with
    its proof of work has a header whose hash is vouched for: a header with that hash has
    its proof of work, or lies below the last checkpoint of a light client. The cache that
    is left is again of that kind. *)
Theorem checked_block_has_work b cache fRoot b' cache' : cache_vouched cache -> fChecked b = false -> fPOWChecked b = false ->
  check b cache true fRoot false = (b', cache', Ok tt) ->
  cache_vouched cache' /\ fPOWChecked b' = true /\ exists h, GetHashLegacy SerializeHash (block_header b) = Some h /\ vouched h.
Proof.
  intros C F1 F2 E. unfold CheckBlock in E. rewrite F1, F2 in E. cbn [negb andb] in E. destruct (check_header (block_header b) cache true) as [c r] eqn:Eh.
  destruct (header_check_vouched _ _ _ _ C Eh) as [C' V]. destruct r as [[]|]; [|done]. destruct (check_contents _ _ _) as [[]|]; [|done].
  injection E as <- <-. split; [done|]. split; [by destruct fRoot|]. by apply V.
Qed.
End Theorems.

(** ** Examples *)

Module DemoBlock.
Definition node_hash (a b : list Z) : list Z := Z.of_nat (length a) :: a ++ b.
Definition pow_limit : base_uint := fst (fst (SetCompact 0x207fffff)).
Definition out (v : Z) : CTxOut := mkTxOut v 0 (StandardKeyHashOutput (repeat 5 20)).
Definition null_in (h : Z) : CTxIn := mkTxIn 0 [] COutPoint_default 0 [WriteVarInt h; [0]].
Definition coinbase (v : Z) : CTransaction := mkTx 5 [null_in 7] [out v] 0 0 0.
Definition witness_coinbase : CTransaction :=
  mkTx 5 [null_in 7; mkTxIn 0 [] (COutPoint_ofHash (repeat 9 32) 0) 0 [repeat 3 65; []]] [out 3] 0 0 0.
Definition header (root1 root2 : list Z) : CBlockHeader := mkHeader 1 90 root2 (repeat 1 65) [1] 4 (repeat 6 32) root1 100 0x207fffff 0.
Definition make (vtx1 vtx2 : list (list Z * CTransaction)) : CBlock :=
  mkBlock (header (fst (BlockMerkleRoot node_hash vtx1)) (fst (BlockMerkleRoot node_hash vtx2))) (vtx1 ++ vtx2) false false.
(** Two coinbases before the one of the witness. *)
Definition generous : CBlock := make [([-1], coinbase 50); ([-2], coinbase 1000000)] [([-3], witness_coinbase)].
Definition plain : CBlock := make [([-1], coinbase 50)] [([-3], witness_coinbase)].
Definition work_hash (_ : CBlockHeader) : base_uint := of_u64 1.
Abbreviation check := (CheckBlock (fun l => l) node_hash true pow_limit 1000 (fun _ => false) work_hash false (fun _ => None) 0).
Definition no_cache : LRUCache uint256 bool := mkLRU [] 2000 100.
End DemoBlock.

Lemma node_hash_inj a b c d : DemoBlock.node_hash a b = DemoBlock.node_hash c d -> a = c /\ b = d.
Proof. unfold DemoBlock.node_hash. intros [= L E]. apply Nat2Z.inj in L. by apply app_inj_1 in E. Qed.
Lemma negative_leaf n a b : n < 0 -> [n] <> DemoBlock.node_hash a b.
Proof. unfold DemoBlock.node_hash. intros L [= E _]. lia. Qed.

Lemma header_commits_to_transactions_witness :
  txids (vtx DemoBlock.plain) = txids (vtx (set_pow_checked DemoBlock.plain)) /\ snd (DemoBlock.check DemoBlock.plain DemoBlock.no_cache true true false) = Ok tt.
Proof.
  assert (P : plain_leaves DemoBlock.node_hash (txids (vtx DemoBlock.plain))) by (repeat constructor; intros a b; by apply negative_leaf).
  split; [|vm_compute; reflexivity].
  destruct (header_commits_to_transactions (fun l => l) DemoBlock.node_hash true DemoBlock.pow_limit 1000 (fun _ => false) DemoBlock.work_hash false (fun _ => None) 0
    DemoBlock.plain (set_pow_checked DemoBlock.plain) DemoBlock.no_cache DemoBlock.no_cache false false
    (fst (fst (DemoBlock.check DemoBlock.plain DemoBlock.no_cache true true false)))
    (fst (fst (DemoBlock.check (set_pow_checked DemoBlock.plain) DemoBlock.no_cache true true false)))
    (snd (fst (DemoBlock.check DemoBlock.plain DemoBlock.no_cache true true false)))
    (snd (fst (DemoBlock.check (set_pow_checked DemoBlock.plain) DemoBlock.no_cache true true false)))) as [(a & b & c & d & N & E)|E];
    [reflexivity|reflexivity|reflexivity|vm_compute; reflexivity|vm_compute; reflexivity|exact P|exact P|right; vm_compute; discriminate|right; vm_compute; discriminate| |exact E].
  exfalso. apply node_hash_inj in E as [-> ->]. by apply N.
Defined.

Lemma checked_block_has_work_witness :
  fPOWChecked (fst (fst (DemoBlock.check DemoBlock.plain DemoBlock.no_cache true true false))) = true.
Proof.
  eapply (checked_block_has_work (fun l => l) DemoBlock.node_hash true DemoBlock.pow_limit 1000 (fun _ => false) DemoBlock.work_hash false (fun _ => None) 0
    DemoBlock.plain DemoBlock.no_cache true _ (snd (fst (DemoBlock.check DemoBlock.plain DemoBlock.no_cache true true false))));
    [intros h E; discriminate E|reflexivity|reflexivity|vm_compute; reflexivity].
Defined.

(** A witnessed block with a coinbase of its own choosing before the one of the witness
    passes: only what comes after the last witness coinbase is searched. *)
Lemma extra_coinbase_accepted :
  snd (DemoBlock.check DemoBlock.generous DemoBlock.no_cache true true false) = Ok tt /\
  (fun x => (IsCoinBase (snd x), is_witness_coinbase (snd x))) <$> vtx DemoBlock.generous = [(true, false); (true, false); (true, true)].
Proof. split; vm_compute; reflexivity. Qed.

(** A failed proof of work that is remembered is refused without a reason. *)
Lemma second_failure_has_no_reason :
  let check := CheckBlockHeader (fun l => l) true DemoBlock.pow_limit 1000 (fun _ => false) (fun _ => DemoBlock.pow_limit) false (fun _ => None) 0 in
  let b := mkHeader 0 0 [] [] [] 4 [] [] 100 0x1d00ffff 0 in
  snd (check b DemoBlock.no_cache true) = Err high_hash /\ snd (check b (fst (check b DemoBlock.no_cache true)) true) = Err cached_failure.
Proof. split; vm_compute; reflexivity. Qed.
