(* ===== verification/WitnessBundles.v ===== *)
(** * WitnessBundles: the rules for witness operations of [src/src/consensus/tx_verify.{h,cpp}]

    A transaction's witness outputs and inputs are sorted into bundles, one per
    operation (creation, witnessing, spending, renewal, increase, rearrangement,
    change of witness key), and each bundle is checked. Amounts are added in
    [CAmount] and action nonces in [uint64_t]. The source moves witness details
    into the bundles; their members are plain arrays and integers, so a moved-from
    value keeps its contents and a copy is the same. The callback [getTxOut] is a
    variable of the section. *)

From S2P Require Import Prelude ArithUint256 Serialize Compressor Transaction Script ConsensusParams WitnessUtil TxCheck.

(** ** Definitions *)

Inductive WitnessTxType :=
| CreationType | WitnessType | SpendType | RenewType | IncreaseType | RearrangeType | ChangeWitnessKeyType.

#[export] Instance WitnessTxType_eq_dec : EqDecision WitnessTxType.
Proof. solve_decision. Defined.

(** An element of [inputs] or [outputs]: the output, its witness details and its outpoint. *)
Record item := mkItem { it_out : CTxOut; it_details : CTxOutPoW2Witness; it_outpoint : COutPoint }.

Record CWitnessTxBundle := mkBundle {
  bundleType : WitnessTxType;
  inputsActualLockFromBlock : Z;
  b_inputs : list item;
  b_outputs : list item
}.

Definition is_type (b : CWitnessTxBundle) (t : WitnessTxType) : bool := bool_decide (bundleType b = t).
Definition with_type (b : CWitnessTxBundle) (t : WitnessTxType) : CWitnessTxBundle :=
  mkBundle t (inputsActualLockFromBlock b) (b_inputs b) (b_outputs b).
Definition push_output (b : CWitnessTxBundle) (i : item) : CWitnessTxBundle :=
  mkBundle (bundleType b) (inputsActualLockFromBlock b) (b_inputs b) (b_outputs b ++ [i]).
Definition push_input (b : CWitnessTxBundle) (i : item) : CWitnessTxBundle :=
  mkBundle (bundleType b) (inputsActualLockFromBlock b) (b_inputs b ++ [i]) (b_outputs b).
Definition with_lockfrom (b : CWitnessTxBundle) (l : Z) : CWitnessTxBundle :=
  mkBundle (bundleType b) l (b_inputs b) (b_outputs b).

Definition same_keys (a b : CTxOutPoW2Witness) : bool :=
  blob_eqb (spendingKeyID a) (spendingKeyID b) && blob_eqb (witnessKeyID a) (witnessKeyID b).

(** *** Fail counts and penalties *)

Definition IncrementWitnessFailCount (failCount : Z) : Z :=
  let f := u64 (failCount + failCount / 3) in
  let f := u64 (f + 1) in
  if f >? UINT64_MAX / 3 then UINT64_MAX / 3 else f.

Definition gMaximumRenewalPenalty : Z := COIN * 20.
Definition gPerFailCountRenewalPenalty : Z := (2 * COIN) / 100.
Definition CalculateWitnessPenaltyFee (out : CTxOut) : Z :=
  match GetPow2WitnessOutput out with
  | None => 0
  | Some w =>
      let nPenalty := i64 (u64 (gPerFailCountRenewalPenalty * failCount w)) in
      if nPenalty >? gMaximumRenewalPenalty then gMaximumRenewalPenalty else nPenalty
  end.

(** *** The kinds of bundle *)

Definition IsLockFromConsistent (inputDetails outputDetails : CTxOutPoW2Witness) (nInputHeight : Z) : bool :=
  if lockFromBlock inputDetails =? 0 then lockFromBlock outputDetails =? nInputHeight
  else lockFromBlock inputDetails =? lockFromBlock outputDetails.

(** The member function of the same name. *)
Definition bundle_IsLockFromConsistent (b : CWitnessTxBundle) : bool :=
  if negb (bool_decide (b_inputs b = [])) && (inputsActualLockFromBlock b =? 0) then false
  else forallb (fun o => lockFromBlock (it_details o) =? inputsActualLockFromBlock b) (b_outputs b).

Definition HasSpendKey (input : CTxIn) : bool := Z.of_nat (length (segregatedSignatureData input)) =? 2.

(** [inputType] is [inputDetails.nType], which [GetPow2WitnessOutput] sets. *)
Definition IsWitnessBundle (input : CTxIn) (inputType : Z) (inputDetails outputDetails : CTxOutPoW2Witness)
    (nInputAmount nOutputAmount nInputHeight : Z) (isOldTransactionVersion : bool) : bool :=
  let stack := Z.of_nat (length (segregatedSignatureData input)) in
  if isOldTransactionVersion then false
  else if (inputType =? 31) && negb (stack =? 1) then false
  else if (inputType =? 0) && negb (stack =? 2) then false
  else if nInputAmount >? nOutputAmount then false
  else if negb (u64 (actionNonce inputDetails + 1) =? actionNonce outputDetails) then false
  else if negb (blob_eqb (spendingKeyID inputDetails) (spendingKeyID outputDetails)) then false
  else if negb (blob_eqb (witnessKeyID inputDetails) (witnessKeyID outputDetails)) then false
  else if negb (lockUntilBlock inputDetails =? lockUntilBlock outputDetails) then false
  else if negb (IsLockFromConsistent inputDetails outputDetails nInputHeight) then false
  else if failCount inputDetails =? u64 (failCount outputDetails + 1) then true
  else failCount outputDetails =? 0.

(** The members compared by the single and the multiple renewal. *)
Definition renewal_pair (i o : item) : bool :=
  let inputDetails := it_details i in let outputDetails := it_details o in
  if negb (nValue (it_out i) =? nValue (it_out o)) then false
  else if negb (u64 (actionNonce inputDetails + 1) =? actionNonce outputDetails) then false
  else if negb (blob_eqb (spendingKeyID inputDetails) (spendingKeyID outputDetails)) then false
  else if negb (blob_eqb (witnessKeyID inputDetails) (witnessKeyID outputDetails)) then false
  else lockUntilBlock inputDetails =? lockUntilBlock outputDetails.
Definition failcount_incremented (i o : item) : bool :=
  IncrementWitnessFailCount (failCount (it_details i)) =? failCount (it_details o).

Definition IsRenewalBundle (input : CTxIn) (i o : item) (nInputHeight : Z) : bool :=
  if negb (HasSpendKey input) then false
  else if negb (renewal_pair i o) then false
  else if negb (IsLockFromConsistent (it_details i) (it_details o) nInputHeight) then false
  else failcount_incremented i o.

Definition IsValidMultiRenewalBundle (p : ChainParams) (b : CWitnessTxBundle) (nSpendHeight : Z) : bool :=
  if nSpendHeight <=? pow2WitnessSyncHeight (consensus p) then false
  else if Z.of_nat (length (b_inputs b)) <? 2 then false
  else if Z.of_nat (length (b_outputs b)) <? 2 then false
  else if negb (Nat.eqb (length (b_inputs b)) (length (b_outputs b))) then false
  else if negb (forallb (fun io => renewal_pair (fst io) (snd io) && failcount_incremented (fst io) (snd io))
                        (combine (b_inputs b) (b_outputs b))) then false
  else bundle_IsLockFromConsistent b.

Definition IsValidSpendBundle (b : CWitnessTxBundle) (nCheckHeight : Z) : bool :=
  match b_outputs b, b_inputs b with
  | [], [i] => negb (lockUntilBlock (it_details i) >=? nCheckHeight)
  | _, _ => false
  end.

(** [nInputValue] or [nOutputValue]; [highestActionNonce] and [highestFailCount]. *)
Definition items_value (l : list item) : Z := fold_left (fun s i => i64 (s + nValue (it_out i))) l 0.
Definition highest (f : CTxOutPoW2Witness -> Z) (l : list item) : Z :=
  fold_left (fun m i => if f (it_details i) >? m then f (it_details i) else m) l 0.

Definition IsValidIncreaseBundle (b : CWitnessTxBundle) : bool :=
  match b_inputs b, b_outputs b with
  | input0 :: inputs', output0 :: outputs' =>
      let in0 := it_details input0 in let out0 := it_details output0 in
      let nonce := highest actionNonce (b_inputs b) in
      let fails := highest failCount (b_inputs b) in
      if negb (forallb (fun i => same_keys (it_details i) out0) (b_inputs b)) then false
      else if negb (forallb (fun o => (u64 (nonce + 1) =? actionNonce (it_details o))
                                      && (fails =? failCount (it_details o))
                                      && same_keys in0 (it_details o)
                                      && (0 =? lockFromBlock (it_details o))) (b_outputs b)) then false
      else if existsb (fun i => negb (lockUntilBlock (it_details i) =? lockUntilBlock in0)) inputs' then false
      else if existsb (fun o => negb (lockUntilBlock (it_details o) =? lockUntilBlock out0)) outputs' then false
      else if lockUntilBlock in0 >? lockUntilBlock out0 then false
      else if items_value (b_outputs b) <? items_value (b_inputs b) then false
      else true
  | _, _ => false
  end.

Definition IsValidRearrangeBundle (b : CWitnessTxBundle) : bool :=
  match b_inputs b, b_outputs b with
  | input0 :: _, output0 :: _ =>
      let in0 := it_details input0 in let out0 := it_details output0 in
      let nonce := highest actionNonce (b_inputs b) in
      let fails := highest failCount (b_inputs b) in
      if negb (forallb (fun i => same_keys (it_details i) out0
                                 && (lockUntilBlock (it_details i) =? lockUntilBlock out0)) (b_inputs b)) then false
      else if negb (forallb (fun o => (u64 (nonce + 1) =? actionNonce (it_details o))
                                      && (fails =? failCount (it_details o))
                                      && same_keys in0 (it_details o)
                                      && (lockUntilBlock in0 =? lockUntilBlock (it_details o))) (b_outputs b)) then false
      else if negb (items_value (b_inputs b) =? items_value (b_outputs b)) then false
      else bundle_IsLockFromConsistent b
  | _, _ => false
  end.

(** One output matches an input whose witness key is changed. *)
Definition changes_key (i o : item) : bool :=
  let a := it_details i in let c := it_details o in
  (nValue (it_out i) =? nValue (it_out o)) && blob_eqb (spendingKeyID a) (spendingKeyID c)
  && negb (blob_eqb (witnessKeyID a) (witnessKeyID c)) && (lockUntilBlock a =? lockUntilBlock c)
  && (u64 (actionNonce a + 1) =? actionNonce c) && (failCount a =? failCount c).

Definition IsValidChangeWitnessKeyBundle (b : CWitnessTxBundle) : bool :=
  if (Z.of_nat (length (b_inputs b)) <? 1) || negb (Nat.eqb (length (b_inputs b)) (length (b_outputs b))) then false
  else
    match b_outputs b with
    | [] => false
    | output0 :: outputs' =>
        if negb (forallb (fun i => existsb (changes_key i) (b_outputs b)) (b_inputs b)) then false
        else if negb (bundle_IsLockFromConsistent b) then false
        else if existsb (fun o => negb (same_keys (it_details o) (it_details output0))) outputs' then false
        else negb (blob_eqb (witnessKeyID (it_details output0)) (spendingKeyID (it_details output0)))
    end.

(** *** Sorting an input *)

Definition gMaximumWitnessCompoundAmount : Z := 40.

(** The first loop: the first bundle with one output for which the input is a
    witness operation or a renewal. *)
Fixpoint match_single (bundles : list CWitnessTxBundle) (input : CTxIn) (i : item) (inputTxHeight : Z)
    (isOld : bool) : res reject (option (list CWitnessTxBundle)) :=
  match bundles with
  | [] => Ok None
  | b :: bs =>
      let next :=
        let! r := match_single bs input i inputTxHeight isOld in
        Ok (match r with Some bs' => Some (b :: bs') | None => None end) in
      match b_outputs b with
      | [o] =>
          if IsWitnessBundle input 31 (it_details i) (it_details o) (nValue (it_out i)) (nValue (it_out o)) inputTxHeight isOld
          then if nValue (it_out o) - nValue (it_out i) >? gMaximumWitnessCompoundAmount * COIN
               then Err witness_coinbase_compounding_too_much
               else Ok (Some (with_type (push_input b i) WitnessType :: bs))
          else if IsRenewalBundle input i o inputTxHeight
          then Ok (Some (with_type (push_input b i) RenewType :: bs))
          else next
      | _ => next
      end
  end.

(** One bundle of the second loop: whether the input was added, and the bundle. *)
Definition match_one (b : CWitnessTxBundle) (i : item) (actualLockFromBlock : Z) : res reject (bool * CWitnessTxBundle) :=
  match b_outputs b with
  | [] => Ok (false, b)
  | o :: _ =>
      let add (t : WitnessTxType) :=
        let b := with_type b t in
        if inputsActualLockFromBlock b =? 0 then Ok (true, push_input (with_lockfrom b actualLockFromBlock) i)
        else if negb (inputsActualLockFromBlock b =? actualLockFromBlock)
        then Err bad_txns_in_witness_bundle_mismatching_lockfrom
        else Ok (true, push_input b i) in
      if (is_type b SpendType || is_type b RearrangeType || is_type b IncreaseType)
         && blob_eqb (witnessKeyID (it_details o)) (witnessKeyID (it_details i))
         && blob_eqb (spendingKeyID (it_details o)) (spendingKeyID (it_details i))
      then add (if lockFromBlock (it_details o) =? 0 then IncreaseType else RearrangeType)
      else if (is_type b SpendType || is_type b ChangeWitnessKeyType || is_type b RearrangeType)
              && negb (blob_eqb (witnessKeyID (it_details o)) (witnessKeyID (it_details i)))
              && blob_eqb (spendingKeyID (it_details o)) (spendingKeyID (it_details i))
      then add ChangeWitnessKeyType
      else Ok (false, b)
  end.

(** The second loop, which does not stop at a match. *)
Fixpoint match_all (bundles : list CWitnessTxBundle) (i : item) (actualLockFromBlock : Z)
    : res reject (bool * list CWitnessTxBundle) :=
  match bundles with
  | [] => Ok (false, [])
  | b :: bs =>
      let! (m, b') := match_one b i actualLockFromBlock in
      let! (m', bs') := match_all bs i actualLockFromBlock in
      Ok (m || m', b' :: bs')
  end.

Definition CheckTxInputAgainstWitnessBundles (bundles : list CWitnessTxBundle) (prevOut : CTxOut) (input : CTxIn)
    (inputTxHeight inputTxIndex inputTxOutputIndex : Z) (isOld : bool) : res reject (list CWitnessTxBundle) :=
  match GetPow2WitnessOutput prevOut with
  | None => Ok bundles
  | Some inputDetails =>
      let i := mkItem prevOut inputDetails (COutPoint_ofPosition inputTxHeight inputTxIndex inputTxOutputIndex) in
      let! r := match_single bundles input i inputTxHeight isOld in
      match r with
      | Some bundles' => Ok bundles'
      | None =>
          guard! HasSpendKey input || (output_nType (output prevOut) =? 0) or bad_txns_in_witness_missing_spend_key in
          let actualLockFromBlock := if lockFromBlock inputDetails =? 0 then inputTxHeight else lockFromBlock inputDetails in
          let! (m, bundles') := match_all bundles i actualLockFromBlock in
          Ok (if m then bundles' else bundles' ++ [mkBundle SpendType actualLockFromBlock [i] []])
      end
  end.

(** *** Sorting an output *)

(** The loop over the bundles for one output: only the second kind of match
    leaves the loop. *)
Fixpoint match_output (bundles : list CWitnessTxBundle) (i : item) : bool * list CWitnessTxBundle :=
  match bundles with
  | [] => (false, [])
  | b :: bs =>
      let keys := match b_outputs b with o :: _ => same_keys (it_details o) (it_details i) | [] => false end in
      if is_type b CreationType && (lockFromBlock (it_details i) =? 0) && (actionNonce (it_details i) =? 0) && keys
      then (true, push_output b i :: snd (match_output bs i))
      else if (is_type b SpendType || is_type b RearrangeType) && keys
      then (true, with_type (push_output b i) RearrangeType :: bs)
      else let '(m, bs') := match_output bs i in (m, b :: bs')
  end.

Definition add_output (bundles : list CWitnessTxBundle) (witnessCoinBase : bool) (i : item) : list CWitnessTxBundle :=
  if witnessCoinBase then bundles ++ [mkBundle WitnessType 0 [] [i]]
  else
    let '(m, bundles') := match_output bundles i in
    if m then bundles'
    else if (lockFromBlock (it_details i) =? 0) && (actionNonce (it_details i) =? 0)
    then bundles' ++ [mkBundle CreationType 0 [] [i]]
    else bundles' ++ [mkBundle SpendType 0 [] [i]].

Section Build.
Variable p : ChainParams.
(** [getTxOut]: output, height, index of the transaction in its block, output index. *)
Variable getTxOut : COutPoint -> option (CTxOut * Z * Z * Z).

Fixpoint outputs_loop (outs : list CTxOut) (wcb : bool) (nSpendHeight transactionIndex idx : Z)
    (bundles : list CWitnessTxBundle) : res reject (list CWitnessTxBundle) :=
  match outs with
  | [] => Ok bundles
  | o :: outs' =>
      let! bundles' :=
        match GetPow2WitnessOutput o with
        | None => Ok bundles
        | Some w =>
            let! _ := check_witness_output p o w nSpendHeight in
            Ok (add_output bundles wcb (mkItem o w (COutPoint_ofPosition nSpendHeight transactionIndex idx)))
        end in
      outputs_loop outs' wcb nSpendHeight transactionIndex (idx + 1) bundles'
  end.

Fixpoint bundle_inputs_loop (ins : list CTxIn) (coinBase isOld : bool) (bundles : list CWitnessTxBundle)
    : res reject (list CWitnessTxBundle) :=
  match ins with
  | [] => Ok bundles
  | i :: ins' =>
      if COutPoint_IsNull (prevout i) && coinBase then bundle_inputs_loop ins' coinBase isOld bundles
      else
        match getTxOut (prevout i) with
        | None => Err input_not_found
        | Some (o, h, x, n) =>
            let! bundles' := CheckTxInputAgainstWitnessBundles bundles o i h x n isOld in
            bundle_inputs_loop ins' coinBase isOld bundles'
        end
  end.

(** The check of one finished bundle, which may turn a rearrangement into a renewal. *)
Definition finish_bundle (nSpendHeight : Z) (b : CWitnessTxBundle) : res reject CWitnessTxBundle :=
  match bundleType b with
  | RearrangeType =>
      if IsValidRearrangeBundle b then Ok b
      else if IsValidMultiRenewalBundle p b nSpendHeight then Ok (with_type b RenewType)
      else Err bad_txns_in_witness_invalid_rearrange_bundle
  | SpendType => if IsValidSpendBundle b nSpendHeight then Ok b else Err bad_txns_in_witness_invalid_spend_bundle
  | IncreaseType => if IsValidIncreaseBundle b then Ok b else Err bad_txns_in_witness_invalid_increase_bundle
  | ChangeWitnessKeyType =>
      if IsValidChangeWitnessKeyBundle b then Ok b else Err bad_txns_in_witness_invalid_changewitnesskey_bundle
  | RenewType | CreationType | WitnessType => Ok b
  end.
Fixpoint finish_loop (nSpendHeight : Z) (bundles : list CWitnessTxBundle) : res reject (list CWitnessTxBundle) :=
  match bundles with
  | [] => Ok []
  | b :: bs => let! b' := finish_bundle nSpendHeight b in let! bs' := finish_loop nSpendHeight bs in Ok (b' :: bs')
  end.

Definition BuildWitnessBundles (tx : CTransaction) (nSpendHeight transactionIndex : Z) : res reject (list CWitnessTxBundle) :=
  let! bundles := outputs_loop (vout tx) (IsPoW2WitnessCoinBase tx) nSpendHeight transactionIndex 0 [] in
  let! bundles := bundle_inputs_loop (vin tx) (IsCoinBase tx) (IsOldTransactionVersion (nVersion tx)) bundles in
  finish_loop nSpendHeight bundles.

End Build.

(** The penalty [CheckTxInputs] asks for: over all renewal bundles. *)
Definition witness_penalty (bundles : list CWitnessTxBundle) : Z :=
  fold_left (fun s b => if is_type b RenewType
                        then i64 (s + match b_outputs b with o :: _ => CalculateWitnessPenaltyFee (it_out o) | [] => 0 end)
                        else s) bundles 0.

(** ** Lemmas *)

(** *** Amounts *)

Definition total_value (l : list item) : Z := fold_right (fun i s => nValue (it_out i) + s) 0 l.
(** Amounts as they are in valid transactions. *)
Definition amounts_ok (l : list item) : Prop := Forall (fun i => 0 <= nValue (it_out i)) l /\ total_value l < 2 ^ 63.

Lemma total_value_nonneg l : Forall (fun i => 0 <= nValue (it_out i)) l -> 0 <= total_value l.
Proof. intros H. unfold total_value. induction H; cbn [fold_right]; lia. Qed.

Lemma items_value_exact l : amounts_ok l -> items_value l = total_value l.
Proof.
  intros [Hnn Hlt]. unfold items_value.
  assert (Hgen : forall acc, 0 <= acc -> acc + total_value l < 2 ^ 63 ->
    fold_left (fun s i => i64 (s + nValue (it_out i))) l acc = acc + total_value l).
  { clear Hlt. induction Hnn as [|i l Hi Hl IH]; intros acc Ha Hlt; cbn [fold_left].
    { change (total_value []) with 0 in *. lia. }
    change (total_value (i :: l)) with (nValue (it_out i) + total_value l) in *.
    pose proof (total_value_nonneg l Hl). rewrite i64_small by lia. rewrite IH; lia. }
  rewrite Hgen; lia.
Qed.

(** *** What a pair of input and output keeps *)

Definition keeps (x o : item) : Prop :=
  nValue (it_out x) <= nValue (it_out o) /\
  blob_eqb (spendingKeyID (it_details x)) (spendingKeyID (it_details o)) = true /\
  lockUntilBlock (it_details x) = lockUntilBlock (it_details o).

(** Turn a guard chain that returned [true] into its conditions. *)
Ltac chain H :=
  repeat match type of H with
  | (if negb ?b then false else _) = true => let E := fresh "E" in destruct b eqn:E; cbn [negb] in H; [|discriminate H]
  | (if ?b then false else _) = true => let E := fresh "E" in destruct b eqn:E; [discriminate H|]
  end.

Lemma witness_keeps input ty a c va vc h old (x o : item) : it_details x = a -> it_details o = c ->
  nValue (it_out x) = va -> nValue (it_out o) = vc ->
  IsWitnessBundle input ty a c va vc h old = true -> keeps x o.
Proof.
  intros <- <- <- <- Hw. unfold IsWitnessBundle in Hw. chain Hw. zbool. done.
Qed.

Lemma renewal_pair_keeps x o : renewal_pair x o = true -> keeps x o.
Proof. intros H. unfold renewal_pair in H. chain H. zbool. split_and!; [lia|done|done]. Qed.

Lemma renewal_keeps input x o h : IsRenewalBundle input x o h = true -> keeps x o.
Proof. intros H. unfold IsRenewalBundle in H. chain H. by apply renewal_pair_keeps. Qed.

(** *** The invariant while bundles are built *)

Definition built_ok (b : CWitnessTxBundle) : Prop :=
  match bundleType b with
  | CreationType => b_inputs b = []
  | WitnessType => exists o, b_outputs b = [o] /\ (b_inputs b = [] \/ exists x, x ∈ b_inputs b /\ keeps x o)
  | RenewType => exists o, b_outputs b = [o] /\ exists x, x ∈ b_inputs b /\ keeps x o
  | _ => True
  end.
(** The item is an input of one of the bundles. *)
Definition bundled (x : item) (bs : list CWitnessTxBundle) : Prop := exists b, b ∈ bs /\ x ∈ b_inputs b.

Lemma bundled_cons x b bs : bundled x (b :: bs) <-> x ∈ b_inputs b \/ bundled x bs.
Proof.
  unfold bundled. split.
  - intros (c & Hc & Hx). apply elem_of_cons in Hc as [->|Hc]; [by left|right; by exists c].
  - intros [Hx|(c & Hc & Hx)]; [exists b; split; [by left|done]|exists c; split; [by right|done]].
Qed.

Lemma match_output_ok i bs : Forall built_ok bs -> Forall built_ok (snd (match_output bs i)).
Proof.
  induction 1 as [|b bs Hb Hbs IH]; cbn [match_output]; [constructor|].
  destruct (is_type b CreationType && _ && _ && _) eqn:E1.
  { zbool. apply bool_decide_eq_true in H. constructor; [|done]. unfold built_ok in *. cbn. by rewrite H in *. }
  destruct ((is_type b SpendType || _) && _); [by constructor|].
  destruct (match_output bs i) as [m bs']. by constructor.
Qed.

Lemma outputs_loop_ok p outs wcb h ti : forall idx bs bs', Forall built_ok bs ->
  outputs_loop p outs wcb h ti idx bs = Ok bs' -> Forall built_ok bs'.
Proof.
  induction outs as [|o outs IH]; intros idx bs bs' Hbs Ho; cbn [outputs_loop] in Ho; [by inv_res|].
  destruct (GetPow2WitnessOutput o) as [w|]; cbn [res_bind] in Ho; [|by apply (IH _ _ _ Hbs Ho)].
  destruct (check_witness_output p o w h) as [[]|]; cbn [res_bind] in Ho; [|done].
  refine (IH _ _ _ _ Ho). unfold add_output.
  assert (Hone : forall t, built_ok (mkBundle t 0 [] [mkItem o w (COutPoint_ofPosition h ti idx)]) \/ t = RenewType).
  { intros []; try (by left); [left; eexists; split; [done|by left]|by right]. }
  destruct wcb; [apply Forall_app; split; [done|]; constructor; [by destruct (Hone WitnessType)|constructor]|].
  pose proof (match_output_ok (mkItem o w (COutPoint_ofPosition h ti idx)) bs Hbs) as Hm.
  destruct (match_output bs _) as [m bs1]. cbn [snd] in Hm. destruct m; [done|].
  destruct (_ && _); (apply Forall_app; split; [done|]; constructor; [by constructor|constructor]).
Qed.

Lemma match_single_ok input i h old : forall bs r, match_single bs input i h old = Ok (Some r) -> Forall built_ok bs ->
  Forall built_ok r /\ bundled i r /\ forall x, bundled x bs -> bundled x r.
Proof.
  induction bs as [|b bs IH]; intros r Hm Hbs; cbn [match_single] in Hm; [done|]. inversion Hbs as [|? ? Hb Hbs']; subst.
  assert (Hnext : (let! r0 := match_single bs input i h old in
      Ok (match r0 with Some bs' => Some (b :: bs') | None => None end)) = Ok (Some r) ->
      Forall built_ok r /\ bundled i r /\ forall x, bundled x (b :: bs) -> bundled x r).
  { intros Hn. destruct (match_single bs input i h old) as [[r0|]|] eqn:E; cbn [res_bind] in Hn; [|done..]. inv_res.
    destruct (IH r0 eq_refl Hbs') as (H1 & H2 & H3). split_and!; [by constructor|rewrite bundled_cons; by right|].
    intros x. rewrite !bundled_cons. intros [?|?]; [by left|right; auto]. }
  assert (Hpush : forall t o, b_outputs b = [o] -> keeps i o -> t = WitnessType \/ t = RenewType ->
      r = with_type (push_input b i) t :: bs ->
      Forall built_ok r /\ bundled i r /\ forall x, bundled x (b :: bs) -> bundled x r).
  { intros t o Ho Hk Ht ->. assert (Hi : i ∈ b_inputs (with_type (push_input b i) t)) by (cbn; apply elem_of_app; right; by left).
    split_and!; [constructor; [|done]|rewrite bundled_cons; by left|].
    - unfold built_ok. destruct Ht as [->| ->]; cbn; exists o; (split; [done|]); [right|]; by exists i.
    - intros x. rewrite !bundled_cons. intros [Hx|?]; [left; cbn; apply elem_of_app; by left|by right]. }
  destruct (b_outputs b) as [|o [|? ?]] eqn:Eo; [by apply Hnext| |by apply Hnext].
  destruct (IsWitnessBundle _ _ _ _ _ _ _ _) eqn:Ew.
  { destruct (_ >? _); [done|]. inv_res. apply (Hpush WitnessType o); try done; [|by left].
    by apply (witness_keeps input 31 _ _ _ _ h old i o eq_refl eq_refl eq_refl eq_refl). }
  destruct (IsRenewalBundle _ _ _ _) eqn:Er; [|by apply Hnext]. inv_res.
  apply (Hpush RenewType o); try done; [|by right]. by apply (renewal_keeps input i o h).
Qed.

Lemma match_one_ok b i l m b' : match_one b i l = Ok (m, b') -> built_ok b ->
  built_ok b' /\ (m = true -> i ∈ b_inputs b') /\ forall x, x ∈ b_inputs b -> x ∈ b_inputs b'.
Proof.
  intros Hm Hb. unfold match_one in Hm. destruct (b_outputs b) as [|o os]; [by inv_res|].
  assert (Hadd : forall t, t = IncreaseType \/ t = RearrangeType \/ t = ChangeWitnessKeyType ->
    (if inputsActualLockFromBlock (with_type b t) =? 0 then Ok (true, push_input (with_lockfrom (with_type b t) l) i)
     else if negb (inputsActualLockFromBlock (with_type b t) =? l) then Err bad_txns_in_witness_bundle_mismatching_lockfrom
     else Ok (true, push_input (with_type b t) i)) = Ok (m, b') ->
    built_ok b' /\ (m = true -> i ∈ b_inputs b') /\ forall x, x ∈ b_inputs b -> x ∈ b_inputs b').
  { intros t Ht Hr.
    assert (Hres : bundleType b' = t /\ b_inputs b' = b_inputs b ++ [i]).
    { destruct (_ =? 0); [by inv_res|]. destruct (negb _); [done|by inv_res]. }
    destruct Hres as [Hty Hin]. rewrite Hin. split_and!.
    - unfold built_ok. rewrite Hty. by destruct Ht as [->|[->| ->]].
    - intros _. apply elem_of_app. right. by left.
    - intros x Hx. apply elem_of_app. by left. }
  destruct ((is_type b SpendType || is_type b RearrangeType || _) && _ && _).
  { revert Hm. apply Hadd. destruct (_ =? 0); auto. }
  destruct (_ && _ && _); [revert Hm; apply Hadd; auto|by inv_res].
Qed.

Lemma match_all_ok i l : forall bs m bs', match_all bs i l = Ok (m, bs') -> Forall built_ok bs ->
  Forall built_ok bs' /\ (m = true -> bundled i bs') /\ forall x, bundled x bs -> bundled x bs'.
Proof.
  induction bs as [|b bs IH]; intros m bs' Hm Hbs; cbn [match_all] in Hm; [by inv_res|].
  inversion Hbs as [|? ? Hb Hbs0]; subst.
  destruct (match_one b i l) as [[m1 b1]|] eqn:E1; cbn [res_bind] in Hm; [|done].
  destruct (match_all bs i l) as [[m2 bs2]|] eqn:E2; cbn [res_bind] in Hm; [|done]. inv_res.
  destruct (match_one_ok b i l m1 b1 E1 Hb) as (H1 & H2 & H3). destruct (IH _ _ eq_refl Hbs0) as (H4 & H5 & H6).
  split_and!; [by constructor| |].
  - intros Hor. rewrite bundled_cons. apply orb_true_iff in Hor as [->| ->]; [left|right]; auto.
  - intros x. rewrite !bundled_cons. intros [?|?]; [left|right]; auto.
Qed.

(** The item an input with a witness prevout becomes. *)
Definition input_item (getTxOut : COutPoint -> option (CTxOut * Z * Z * Z)) (i : CTxIn) : option item :=
  match getTxOut (prevout i) with
  | Some (o, h, x, n) =>
      match GetPow2WitnessOutput o with Some w => Some (mkItem o w (COutPoint_ofPosition h x n)) | None => None end
  | None => None
  end.

Lemma check_input_ok bs o input h x n old bs' :
  CheckTxInputAgainstWitnessBundles bs o input h x n old = Ok bs' -> Forall built_ok bs ->
  Forall built_ok bs' /\ (forall y, bundled y bs -> bundled y bs') /\
  forall w, GetPow2WitnessOutput o = Some w -> bundled (mkItem o w (COutPoint_ofPosition h x n)) bs'.
Proof.
  intros Hc Hbs. unfold CheckTxInputAgainstWitnessBundles in Hc.
  destruct (GetPow2WitnessOutput o) as [w|]; [|inv_res; by split_and!]. set (i := mkItem o w _) in *.
  destruct (match_single bs input i h old) as [[r|]|] eqn:E; cbn [res_bind] in Hc; [| |done].
  { inv_res. destruct (match_single_ok input i h old bs bs' E Hbs) as (H1 & H2 & H3).
    split_and!; [done|done|]. by intros w' [= <-]. }
  destruct (_ || _); [|done]. destruct (match_all bs i _) as [[m bs1]|] eqn:Ea; cbn [res_bind] in Hc; [|done].
  destruct (match_all_ok i _ bs m bs1 Ea Hbs) as (H1 & H2 & H3). injection Hc as Hc. destruct m; subst bs'.
  - split_and!; [done|done|]. intros w' [= <-]. by apply H2.
  - split_and!; [apply Forall_app; split; [done|by constructor]| |].
    + intros y Hy. destruct (H3 y Hy) as (b & Hb & Hyb). exists b. split; [apply elem_of_app; by left|done].
    + intros w' [= <-]. eexists. split; [apply elem_of_app; right; by left|]. cbn. by left.
Qed.

Lemma inputs_bundled getTxOut cb old : forall ins bs bs', bundle_inputs_loop getTxOut ins cb old bs = Ok bs' -> Forall built_ok bs ->
  Forall built_ok bs' /\ (forall y, bundled y bs -> bundled y bs') /\
  forall i x, i ∈ ins -> COutPoint_IsNull (prevout i) && cb = false -> input_item getTxOut i = Some x -> bundled x bs'.
Proof.
  induction ins as [|i ins IH]; intros bs bs' Hl Hbs; cbn [bundle_inputs_loop] in Hl.
  { inv_res. split_and!; [done|done|]. intros i x Hi. by apply not_elem_of_nil in Hi. }
  destruct (COutPoint_IsNull (prevout i) && cb) eqn:En.
  { destruct (IH bs bs' Hl Hbs) as (H1 & H2 & H3). split_and!; [done|done|]. intros j x Hj Hn Hx.
    apply elem_of_cons in Hj as [->|Hj]; [congruence|]. by apply (H3 j). }
  destruct (getTxOut (prevout i)) as [[[[o h] ix] n]|] eqn:Eg; [|done].
  destruct (CheckTxInputAgainstWitnessBundles bs o i h ix n old) as [bs1|] eqn:Ec; cbn [res_bind] in Hl; [|done].
  destruct (check_input_ok _ _ _ _ _ _ _ _ Ec Hbs) as (H1 & H2 & H3). destruct (IH bs1 bs' Hl H1) as (H4 & H5 & H6).
  split_and!; [done|auto|]. intros j x Hj Hn Hx. apply elem_of_cons in Hj as [->|Hj]; [|by apply (H6 j)].
  unfold input_item in Hx. rewrite Eg in Hx. destruct (GetPow2WitnessOutput o) as [w|] eqn:Ew; [|done].
  injection Hx as <-. by apply H5, H3.
Qed.

Lemma finish_loop_spec p h : forall bs bs', finish_loop p h bs = Ok bs' ->
  Forall2 (fun b b' => finish_bundle p h b = Ok b') bs bs'.
Proof.
  induction bs as [|b bs IH]; intros bs' Hf; cbn [finish_loop] in Hf; [by inv_res|].
  destruct (finish_bundle p h b) as [b1|] eqn:E1; cbn [res_bind] in Hf; [|done].
  destruct (finish_loop p h bs) as [bs1|]; cbn [res_bind] in Hf; [|done]. inv_res. constructor; [done|by apply IH].
Qed.

Lemma finish_bundle_same p h b b' : finish_bundle p h b = Ok b' ->
  b_inputs b' = b_inputs b /\ b_outputs b' = b_outputs b.
Proof.
  unfold finish_bundle. intros Hf. destruct (bundleType b); repeat (destruct (_ : bool) in Hf); by inv_res.
Qed.

(** Everything an accepted transaction's bundles come from. *)
Lemma BuildWitnessBundles_inv p getTxOut tx h ti bs : BuildWitnessBundles p getTxOut tx h ti = Ok bs ->
  exists bs0, Forall built_ok bs0 /\ Forall2 (fun b b' => finish_bundle p h b = Ok b') bs0 bs /\
    forall i x, i ∈ vin tx -> COutPoint_IsNull (prevout i) && IsCoinBase tx = false -> input_item getTxOut i = Some x -> bundled x bs0.
Proof.
  unfold BuildWitnessBundles. intros Hb.
  destruct (outputs_loop _ _ _ _ _ _ _) as [bs1|] eqn:E1; cbn [res_bind] in Hb; [|done].
  destruct (bundle_inputs_loop _ _ _ _ _) as [bs2|] eqn:E2; cbn [res_bind] in Hb; [|done].
  pose proof (outputs_loop_ok _ _ _ _ _ _ _ _ (List.Forall_nil _) E1) as Hok.
  destruct (inputs_bundled _ _ _ _ _ _ E2 Hok) as (H1 & _ & H3).
  exists bs2. split_and!; [done|by apply finish_loop_spec|done].
Qed.

Lemma same_keys_spend a b : same_keys a b = true -> blob_eqb (spendingKeyID a) (spendingKeyID b) = true.
Proof. unfold same_keys. intros H. by apply andb_true_iff in H as [? _]. Qed.

(** The value and the lock of a bundle's inputs are carried by its outputs. *)
Definition lock_preserved (b : CWitnessTxBundle) : Prop :=
  total_value (b_inputs b) <= total_value (b_outputs b) /\
  forall o, o ∈ b_outputs b ->
    (exists x, x ∈ b_inputs b /\ blob_eqb (spendingKeyID (it_details x)) (spendingKeyID (it_details o)) = true) /\
    forall x, x ∈ b_inputs b -> lockUntilBlock (it_details x) <= lockUntilBlock (it_details o).

Lemma rearrange_preserves b : IsValidRearrangeBundle b = true -> amounts_ok (b_inputs b) -> amounts_ok (b_outputs b) -> lock_preserved b.
Proof.
  intros Hv Hi Ho. unfold IsValidRearrangeBundle in Hv. destruct (b_inputs b) as [|i0 ins] eqn:Ei; [done|].
  destruct (b_outputs b) as [|o0 os] eqn:Eo; [done|]. chain Hv. zbool.
  rewrite !items_value_exact in E1 by done. unfold lock_preserved. rewrite Ei, Eo. split; [lia|].
  intros o Hin. apply list_elem_of_In in Hin.
  pose proof (proj1 (forallb_forall _ _) E0 o Hin) as Ho'. cbv beta in Ho'. zbool. split.
  - exists i0. split; [by left|]. by apply same_keys_spend.
  - intros x Hx. apply list_elem_of_In in Hx. pose proof (proj1 (forallb_forall _ _) E x Hx) as Hx'.
    pose proof (proj1 (forallb_forall _ _) E i0 (or_introl eq_refl)) as Hi0. cbv beta in *. zbool. lia.
Qed.

Lemma increase_preserves b : IsValidIncreaseBundle b = true -> amounts_ok (b_inputs b) -> amounts_ok (b_outputs b) -> lock_preserved b.
Proof.
  intros Hv Hi Ho. unfold IsValidIncreaseBundle in Hv. destruct (b_inputs b) as [|i0 ins] eqn:Ei; [done|].
  destruct (b_outputs b) as [|o0 os] eqn:Eo; [done|]. chain Hv. zbool.
  rewrite !items_value_exact in * by done. unfold lock_preserved. rewrite Ei, Eo. split; [lia|].
  assert (Hlock : forall (x0 : item) l, existsb (fun i => negb (lockUntilBlock (it_details i) =? lockUntilBlock (it_details x0))) l = false ->
            forall x, x ∈ x0 :: l -> lockUntilBlock (it_details x) = lockUntilBlock (it_details x0)).
  { intros x0 l Hf x Hx. apply elem_of_cons in Hx as [->|Hx]; [done|]. apply list_elem_of_In in Hx.
    apply not_true_iff_false in Hf. destruct (Z.eq_dec (lockUntilBlock (it_details x)) (lockUntilBlock (it_details x0))) as [|Hne]; [done|].
    exfalso. apply Hf, existsb_exists. exists x. split; [done|]. by apply negb_true_iff, Z.eqb_neq. }
  intros o Hin. split.
  - exists i0. split; [by left|]. pose proof (proj1 (forallb_forall _ _) E0 o (proj1 (list_elem_of_In _ _) Hin)) as Ho'.
    cbv beta in Ho'. zbool. by apply same_keys_spend.
  - intros x Hx. rewrite (Hlock o0 os E2 o Hin), (Hlock i0 ins E1 x Hx). lia.
Qed.

(** *** The single-input case *)

Lemma keeps_preserved b x o : b_inputs b = [x] -> b_outputs b = [o] -> keeps x o -> lock_preserved b.
Proof.
  intros Hi Ho (Hv & Hs & Hl). unfold lock_preserved, total_value. rewrite Hi, Ho. cbn [fold_right]. split; [lia|]. intros o' Ho'.
  apply list_elem_of_singleton in Ho' as ->. split; [exists x; split; [by left|done]|].
  intros x' Hx'. apply list_elem_of_singleton in Hx' as ->. lia.
Qed.

Lemma change_key_preserves b x : b_inputs b = [x] -> IsValidChangeWitnessKeyBundle b = true -> lock_preserved b.
Proof.
  intros Hi Hv. unfold IsValidChangeWitnessKeyBundle in Hv. rewrite Hi in Hv. cbn [length] in Hv.
  destruct (b_outputs b) as [|o [|? ?]] eqn:Eo; cbn in Hv; [done| |done].
  destruct (changes_key x o) eqn:Ec; cbn in Hv; [|done].
  apply (keeps_preserved b x o Hi Eo). unfold changes_key in Ec. zbool. split_and!; [lia|done|lia].
Qed.

Lemma finished_preserves p h b b' : built_ok b -> finish_bundle p h b = Ok b' ->
  amounts_ok (b_inputs b) -> amounts_ok (b_outputs b) ->
  (exists x, x ∈ b_inputs b /\ h <= lockUntilBlock (it_details x)) ->
  length (b_inputs b) = 1%nat \/ bundleType b' = RearrangeType \/ bundleType b' = IncreaseType -> lock_preserved b'.
Proof.
  intros Hb Hf Hi Ho (x & Hx & Hlock) Hcase.
  pose proof (finish_bundle_same p h b b' Hf) as [Ei Eo].
  assert (Hsame : lock_preserved b -> lock_preserved b') by (unfold lock_preserved; by rewrite Ei, Eo).
  assert (Hone : length (b_inputs b) = 1%nat -> b_inputs b = [x]).
  { intros Hl. destruct (b_inputs b) as [|y [|? ?]]; try done. by apply list_elem_of_singleton in Hx as ->. }
  unfold finish_bundle in Hf. unfold built_ok in Hb. apply Hsame. destruct (bundleType b) eqn:Et.
  - rewrite Hb in Hx. by apply not_elem_of_nil in Hx.
  - inv_res. destruct Hcase as [Hl|[Hc|Hc]]; [|congruence..]. specialize (Hone Hl).
    destruct Hb as (o & Eob & [Hnil|(y & Hy & Hk)]); [congruence|]. rewrite Hone in Hy. apply list_elem_of_singleton in Hy as ->.
    by apply (keeps_preserved _ x o).
  - destruct (IsValidSpendBundle b h) eqn:Ev; [|done]. exfalso. unfold IsValidSpendBundle in Ev.
    destruct (b_outputs b); [|done]. destruct (b_inputs b) as [|y [|? ?]]; try done.
    apply list_elem_of_singleton in Hx as ->. zbool. lia.
  - inv_res. destruct Hcase as [Hl|[Hc|Hc]]; [|congruence..]. specialize (Hone Hl).
    destruct Hb as (o & Eob & y & Hy & Hk). rewrite Hone in Hy. apply list_elem_of_singleton in Hy as ->.
    by apply (keeps_preserved _ x o).
  - destruct (IsValidIncreaseBundle b) eqn:Ev; [|done]. by apply increase_preserves.
  - destruct (IsValidRearrangeBundle b) eqn:Ev; [by apply rearrange_preserves|].
    destruct (IsValidMultiRenewalBundle p b h) eqn:Em; [|done]. inv_res. exfalso.
    destruct Hcase as [Hl|[Hc|Hc]]; [|done..]. unfold IsValidMultiRenewalBundle in Em. rewrite Hl in Em. chain Em. discriminate.
  - destruct (IsValidChangeWitnessKeyBundle b) eqn:Ev; [|done]. inv_res.
    destruct Hcase as [Hl|[Hc|Hc]]; [|congruence..]. by apply (change_key_preserves b' x (Hone Hl)).
Qed.

(** ** Properties *)

(** C2: every input of an accepted transaction that spends a witness output ends up
    in a bundle, so no witness input escapes the rules for witness operations. *)
Theorem witness_inputs_are_bundled p getTxOut tx h ti bs i x : BuildWitnessBundles p getTxOut tx h ti = Ok bs ->
  i ∈ vin tx -> COutPoint_IsNull (prevout i) && IsCoinBase tx = false -> input_item getTxOut i = Some x ->
  bundled x bs.
Proof.
  intros Hb Hi Hn Hx. destruct (BuildWitnessBundles_inv _ _ _ _ _ _ Hb) as (bs0 & _ & Hf & Hall).
  destruct (Hall i x Hi Hn Hx) as (b & Hbin & Hxb). apply list_elem_of_lookup in Hbin as [k Hk].
  destruct (Forall2_lookup_l _ _ _ _ _ Hf Hk) as (b' & Hk' & Hfb). exists b'.
  split; [by apply list_elem_of_lookup; exists k|]. by rewrite (proj1 (finish_bundle_same _ _ _ _ Hfb)).
Qed.

(** C1: in an accepted transaction, a bundle with a locked input (its last locked
    block is not below the spending height) that has one input, or is a
    rearrangement or an increase, passes on at least the value of its inputs,
    to outputs under the same spending key that stay locked at least as long. *)
Theorem locked_value_stays_locked p getTxOut tx h ti bs b : BuildWitnessBundles p getTxOut tx h ti = Ok bs -> b ∈ bs ->
  amounts_ok (b_inputs b) -> amounts_ok (b_outputs b) ->
  (exists x, x ∈ b_inputs b /\ h <= lockUntilBlock (it_details x)) ->
  length (b_inputs b) = 1%nat \/ bundleType b = RearrangeType \/ bundleType b = IncreaseType ->
  lock_preserved b.
Proof.
  intros Hb Hbin Hi Ho Hlocked Hcase. destruct (BuildWitnessBundles_inv _ _ _ _ _ _ Hb) as (bs0 & Hok & Hf & _).
  apply list_elem_of_lookup in Hbin as [k Hk]. destruct (Forall2_lookup_r _ _ _ _ _ Hf Hk) as (b0 & Hk0 & Hfb).
  pose proof (Forall_lookup_1 _ _ _ _ Hok Hk0) as Hb0. destruct (finish_bundle_same _ _ _ _ Hfb) as [Ei Eo].
  rewrite Ei in *. rewrite Eo in Ho. by apply (finished_preserves p h b0 b).
Qed.

(** A locked witness: 100000 coins under keys [1..] and [wk], locked for 100000 blocks. *)
Definition wit (wk : Z) (until fails nonce : Z) : CTxOutPoW2Witness :=
  mkWitnessDetails (repeat 1 20) (repeat wk 20) 1450000 until fails nonce.
Definition wit_out (v : Z) (w : CTxOutPoW2Witness) : CTxOut := mkTxOut (v * COIN) 0 (PoW2WitnessOutput w).
Definition plain_out (v : Z) : CTxOut := mkTxOut (v * COIN) 0 (ScriptLegacyOutput [81]).
(** An input with [k] signatures that spends output [n] of an earlier transaction. *)
Definition spend (n : Z) (k : nat) : CTxIn := mkTxIn 0 [] (COutPoint_ofHash (repeat 9 32) n) 0 (repeat [7] k).
(** The coins of an earlier transaction, confirmed at height 1450000. *)
Definition coins_of (outs : list CTxOut) (o : COutPoint) : option Coin :=
  match nth_error outs (Z.to_nat (op_n o)) with Some out => Some (mkCoin out false true 1450000 3) | None => None end.
Definition txouts_of (outs : list CTxOut) (o : COutPoint) : option (CTxOut * Z * Z * Z) :=
  match coins_of outs o with Some c => Some (coin_out c, coin_nHeight c, nTxIndex c, op_n o) | None => None end.

(** Both checks of a transaction at height 1500000 on the main chain. *)
Definition accepted (coins : list CTxOut) (tx : CTransaction) (bs : list CWitnessTxBundle) : Prop :=
  CheckTransaction tx true = Ok tt /\
  BuildWitnessBundles CMainParams (txouts_of coins) tx 1500000 0 = Ok bs /\
  CheckTxInputs (coins_of coins) CMainParams tx 1500000 (witness_penalty bs) = Ok tt.

(** Two witnesses with the same details, renewed into one output. *)
Definition renew_coins : list CTxOut := [wit_out 100000 (wit 2 1550000 3 5); wit_out 100000 (wit 2 1550000 3 5)].
Definition renew_tx : CTransaction :=
  mkTx 5 [spend 0 2; spend 1 2] [wit_out 100000 (wit 2 1550000 5 6); plain_out 99999] 0 0 0.

Lemma witness_inputs_are_bundled_witness : exists bs,
  bundled (mkItem (wit_out 100000 (wit 2 1550000 3 5)) (wit 2 1550000 3 5) (COutPoint_ofPosition 1450000 3 0)) bs.
Proof.
  destruct (BuildWitnessBundles CMainParams (txouts_of renew_coins) renew_tx 1500000 0) as [bs|e] eqn:E; [|vm_compute in E; discriminate].
  exists bs. apply (witness_inputs_are_bundled CMainParams (txouts_of renew_coins) renew_tx 1500000 0 bs (spend 0 2));
    [exact E|left|reflexivity|reflexivity].
Defined.

(** One locked witness rearranged into two. *)
Definition split_tx : CTransaction :=
  mkTx 5 [spend 0 2] [wit_out 40000 (wit 2 1550000 3 6); wit_out 60000 (wit 2 1550000 3 6)] 0 0 0.

Lemma locked_value_stays_locked_witness : exists b, b_outputs b <> [] /\ lock_preserved b.
Proof.
  destruct (BuildWitnessBundles CMainParams (txouts_of renew_coins) split_tx 1500000 0) as [bs|e] eqn:E; [|vm_compute in E; discriminate].
  destruct bs as [|b bs']; [vm_compute in E; discriminate|]. exists b.
  assert (Hb : bundleType b = RearrangeType /\ b_outputs b <> [] /\
    b_inputs b = [mkItem (wit_out 100000 (wit 2 1550000 3 5)) (wit 2 1550000 3 5) (COutPoint_ofPosition 1450000 3 0)] /\
    map it_out (b_outputs b) = vout split_tx).
  { vm_compute in E. injection E as <- <-. split_and!; (reflexivity || discriminate). }
  destruct Hb as (Ht & Hne & Hi & Ho). split; [exact Hne|].
  apply (locked_value_stays_locked CMainParams (txouts_of renew_coins) split_tx 1500000 0 (b :: bs') b E).
  - left.
  - rewrite Hi. split; [repeat constructor; discriminate|reflexivity].
  - destruct (b_outputs b) as [|o1 [|o2 [|? ?]]]; try discriminate Ho. injection Ho as H1 H2. unfold amounts_ok, total_value.
    cbn [fold_right]. rewrite !Forall_cons_iff, H1, H2. split; [split_and!; [vm_compute; discriminate..|constructor]|reflexivity].
  - rewrite Hi. eexists. split; [left|]. vm_compute. discriminate.
  - right. left. exact Ht.
Defined.

(** a renewal bundle takes any number of inputs for its one output: two locked
    witnesses with the same details may be renewed into one, and the value of the
    other is paid out before its lock ends. *)
Theorem renewal_releases_locked_value : exists bs b, accepted renew_coins renew_tx bs /\ b ∈ bs /\
  bundleType b = RenewType /\
  Forall (fun x => 1500000 <= lockUntilBlock (it_details x)) (b_inputs b) /\
  total_value (b_inputs b) = 200000 * COIN /\ total_value (b_outputs b) = 100000 * COIN.
Proof.
  eexists _, _. unfold accepted. split_and!; [vm_compute; reflexivity|vm_compute; reflexivity|vm_compute; reflexivity|left|..];
    try reflexivity. repeat constructor; discriminate.
Qed.

(** The same pair with its witness key changed, the second output reduced to 7000 coins. *)
Definition rekey_tx : CTransaction :=
  mkTx 5 [spend 0 2; spend 1 2] [wit_out 100000 (wit 4 1550000 3 6); wit_out 7000 (wit 4 1550000 3 6); plain_out 92999] 0 0 0.

(** a change of witness key asks for one matching output per input, not for a
    different one: two equal inputs may match the same output, and the second
    output may hold any valid amount, which releases the rest of the locked value. *)
Theorem rekey_releases_locked_value : exists bs b, accepted renew_coins rekey_tx bs /\ b ∈ bs /\
  bundleType b = ChangeWitnessKeyType /\
  Forall (fun x => 1500000 <= lockUntilBlock (it_details x)) (b_inputs b) /\
  total_value (b_inputs b) = 200000 * COIN /\ total_value (b_outputs b) = 107000 * COIN.
Proof.
  eexists _, _. unfold accepted. split_and!; [vm_compute; reflexivity|vm_compute; reflexivity|vm_compute; reflexivity|left|..];
    try reflexivity. repeat constructor; discriminate.
Qed.

(** One witness and one plain coin, spent to two witnesses with other witness keys. *)
Definition double_coins : list CTxOut := [wit_out 100000 (wit 2 1550000 3 5); plain_out 100001].
Definition double_tx : CTransaction :=
  mkTx 5 [spend 0 2; spend 1 2] [wit_out 100000 (wit 4 1550000 3 6); wit_out 100000 (wit 6 1550000 3 6)] 0 0 0.

(** The second loop over the bundles does not stop at a match, so one witness
    input is counted in two bundles: a transaction turns one witness and unlocked
    coins into two witnesses that both date back to the old lock. *)
Theorem one_input_backs_two_bundles : exists b1 b2 x, accepted double_coins double_tx [b1; b2] /\
  b_inputs b1 = [x] /\ b_inputs b2 = [x] /\
  total_value (b_outputs b1) + total_value (b_outputs b2) = 2 * nValue (it_out x) /\
  Forall (fun o => lockFromBlock (it_details o) = 1450000) (b_outputs b1 ++ b_outputs b2).
Proof.
  eexists _, _, _. unfold accepted. split_and!; [vm_compute; reflexivity|vm_compute; reflexivity|vm_compute; reflexivity|..];
    try reflexivity. repeat constructor.
Qed.

(** the renewal penalty is two hundredths of a coin per failure up to 20 coins
    for every fail count whose product fits a signed 64-bit integer, but the
    unsigned product wraps beyond: a fail count of [2^57] costs nothing. *)
Theorem penalty_capped_until_wrap o w : GetPow2WitnessOutput o = Some w ->
  (0 <= failCount w < 2 ^ 63 / 2000000 -> CalculateWitnessPenaltyFee o = Z.min (2000000 * failCount w) (20 * COIN)) /\
  (failCount w = 2 ^ 57 -> CalculateWitnessPenaltyFee o = 0).
Proof.
  intros Hw. unfold CalculateWitnessPenaltyFee. rewrite Hw.
  change gPerFailCountRenewalPenalty with 2000000. change gMaximumRenewalPenalty with (20 * COIN). split.
  - change (2 ^ 63 / 2000000) with 4611686018427. intros Hf. rewrite u64_small, i64_small by lia. unfold COIN in *. zcase; lia.
  - intros ->. reflexivity.
Qed.

Lemma penalty_capped_until_wrap_witness : CalculateWitnessPenaltyFee (wit_out 5000 (wit 2 9 7 0)) = 14000000.
Proof.
  rewrite (proj1 (penalty_capped_until_wrap (wit_out 5000 (wit 2 9 7 0)) (wit 2 9 7 0) eq_refl)); [reflexivity|].
  vm_compute. split; [discriminate|reflexivity].
Defined.

(** Below its cap the fail count always grows, by a third plus one, and never
    exceeds the cap of a third of the 64-bit range, so the computation does not
    overflow from one renewal to the next. *)
Theorem fail_count_grows f : 0 <= f <= UINT64_MAX / 3 ->
  IncrementWitnessFailCount f = Z.min (f + f / 3 + 1) (UINT64_MAX / 3) /\
  (f < UINT64_MAX / 3 -> f < IncrementWitnessFailCount f) /\ 0 < IncrementWitnessFailCount f <= UINT64_MAX / 3.
Proof.
  change (UINT64_MAX / 3) with 6148914691236517205. intros Hf.
  assert (E : IncrementWitnessFailCount f = Z.min (f + f / 3 + 1) 6148914691236517205).
  { unfold IncrementWitnessFailCount. change (UINT64_MAX / 3) with 6148914691236517205.
    rewrite (u64_small (f + f / 3)) by (zdm; lia). rewrite u64_small by (zdm; lia). zcase; lia. }
  rewrite E. split_and!; [done| |zdm; lia|zdm; lia]. intros. zdm; lia.
Qed.

Lemma fail_count_grows_witness : 26 < IncrementWitnessFailCount 26.
Proof. apply (proj1 (proj2 (fail_count_grows 26 ltac:(vm_compute; split; discriminate)))). reflexivity. Defined.
