(* ===== verification/WitnessDelta.v ===== *)
(** * WitnessDelta: the simplified witness set of [src/src/validation/witnessvalidation.{h,cpp}]

    Headers carry the changes a block makes to the set of witnesses, so that a
    node without the coins can follow that set. Modelled are the set's items,
    the generation of the changes of a block
    ([GetSimplifiedWitnessUTXODeltaForBlockHelper]), their application to a set
    ([ApplySimplifiedWitnessUTXODeltaForHeader]), the generation of undo data and
    its application. The set is a [boost::container::flat_set], which is outside
    the repository: its three operations are the class [FlatSet], their
    documented behaviour the class [FlatSetLaws], and an iterator is the offset
    of its element. The streams start empty, as at every call. *)

From stdpp Require Import sorting.
From S2P Require Import Prelude Serialize Compressor Transaction WitnessBundles.

(** ** Definitions *)

(** *** Items *)

Record SimplifiedWitnessRouletteItem := mkSItem {
  blockNumber : Z;
  transactionIndex : Z;
  transactionOutputIndex : Z;
  si_lockUntilBlock : Z;
  si_lockFromBlock : Z;
  witnessPubKeyID : list Z;
  si_nValue : Z
}.

#[export] Instance SItem_eq_dec : EqDecision SimplifiedWitnessRouletteItem.
Proof. solve_decision. Defined.

Definition GetLockLength (a : SimplifiedWitnessRouletteItem) : Z := u64 (u64 (si_lockUntilBlock a - si_lockFromBlock a) + 1).

(** [operator==], which ignores [lockFromBlock]. *)
Definition sitem_eqb (a b : SimplifiedWitnessRouletteItem) : bool :=
  (blockNumber a =? blockNumber b) && (transactionIndex a =? transactionIndex b)
  && (transactionOutputIndex a =? transactionOutputIndex b) && (si_lockUntilBlock a =? si_lockUntilBlock b)
  && (si_nValue a =? si_nValue b) && blob_eqb (witnessPubKeyID a) (witnessPubKeyID b).

(** [operator<], which orders the set. *)
Definition sitem_ltb (a b : SimplifiedWitnessRouletteItem) : bool :=
  if blockNumber a =? blockNumber b then
    if transactionIndex a =? transactionIndex b then transactionOutputIndex a <? transactionOutputIndex b
    else transactionIndex a <? transactionIndex b
  else blockNumber a <? blockNumber b.

(** How a computation leaves other than with a result: [return false], a stream
    that throws, a failed assertion, undefined behaviour. *)
Inductive failure := returned_false | thrown | aborted | undefined | out_of_fuel.

(** The constructor from an element of a bundle. *)
Definition SItem_ofBundle (w : item) : res failure SimplifiedWitnessRouletteItem :=
  guard! negb (isHash (it_outpoint w)) or aborted in
  let number := prevBlock_blockNumber (it_outpoint w) in
  let d := it_details w in
  Ok (mkSItem number (prevBlock_transactionIndex (it_outpoint w)) (op_n (it_outpoint w)) (lockUntilBlock d)
        (if lockFromBlock d =? 0 then number else lockFromBlock d) (witnessKeyID d) (nValue (it_out w))).

(** The default constructor: of the members only the key is initialised. *)
Definition null_key : list Z := blob_null 20.

Abbreviation witness_set := (list SimplifiedWitnessRouletteItem).

(** [flat_set]: [insert] says whether it inserted, [find] is [None] for [end()]. *)
Class FlatSet := {
  fs_insert : witness_set -> SimplifiedWitnessRouletteItem -> witness_set * bool;
  fs_find : witness_set -> SimplifiedWitnessRouletteItem -> option nat;
  fs_erase : witness_set -> nat -> witness_set
}.

(** *** Changes *)

Inductive ChangeType :=
| changeTypeCreation | changeTypeSpend | changeTypeRenew | changeTypeRearrange | changeTypeIncrease
| changeTypeChangeKey | changeTypeWitnessAction.

Definition change_code (c : ChangeType) : Z :=
  match c with
  | changeTypeCreation => 0 | changeTypeSpend => 1 | changeTypeRenew => 2 | changeTypeRearrange => 3
  | changeTypeIncrease => 4 | changeTypeChangeKey => 5 | changeTypeWitnessAction => 6
  end.

(** The [switch] on a byte that was read: [None] is a value without a case. *)
Definition change_of_code (b : Z) : option ChangeType :=
  match b with
  | 0 => Some changeTypeCreation | 1 => Some changeTypeSpend | 2 => Some changeTypeRenew
  | 3 => Some changeTypeRearrange | 4 => Some changeTypeIncrease | 5 => Some changeTypeChangeKey
  | _ => None
  end.

Record deltaItem := mkDelta {
  changeType : ChangeType;
  removedItems : list SimplifiedWitnessRouletteItem;
  addedItems : list SimplifiedWitnessRouletteItem
}.

(** *** Replaying a stream on a set *)

(** State: the rest of the stream and the set. *)
Definition replay (A : Type) : Type := list Z * witness_set -> res failure (A * (list Z * witness_set)).
Definition rp_ret {A} (a : A) : replay A := fun s => Ok (a, s).
Definition rp_bind {A B} (m : replay A) (f : A -> replay B) : replay B :=
  fun s => match m s with Ok (a, s') => f a s' | Err e => Err e end.
Definition rp_fail {A} (e : failure) : replay A := fun _ => Err e.
Definition rp_read {A} (r : reader A) : replay A :=
  fun s => match r (fst s) with Some (a, rest) => Ok (a, (rest, snd s)) | None => Err thrown end.

Notation "'do!' x ':=' m 'in' k" := (rp_bind m (fun x => k))
  (at level 10, x pattern, m at level 100, k at level 200) : munt_scope.

(** [VARINT] of a [uint64_t], [COMPACTSIZE] of a [uint64_t] and of a [uint32_t],
    [COMPRESSEDAMOUNT], and a key. *)
Definition read_varint : replay Z := rp_read (ReadVarInt UINT64_MAX).
Definition read_size : replay Z := rp_read (ReadCompactSize true).
Definition read_index : replay Z := rp_read (n <~ ReadCompactSize true ;;; rd_ret (u32 n)).
Definition read_amount : replay Z := rp_read CAmountCompressor_Unserialize.
Definition read_key : replay (list Z) := rp_read (CFlatData_Unserialize 20).

Definition delta_byte (c : ChangeType) : list Z := ser_writedata8 (change_code c).

Section Replay.
Context `{FlatSet}.

(** [*nth(i)]: there is no element at or beyond the end. *)
Definition rp_nth (i : Z) : replay SimplifiedWitnessRouletteItem :=
  fun s => match snd s !! Z.to_nat i with Some x => Ok (x, s) | None => Err undefined end.
Definition rp_erase (i : Z) : replay unit := fun s => Ok (tt, (fst s, fs_erase (snd s) (Z.to_nat i))).
(** [insert] followed by [if (!didInsert) return false]. *)
Definition rp_insert (x : SimplifiedWitnessRouletteItem) : replay unit :=
  fun s => let '(w, didInsert) := fs_insert (snd s) x in
           if didInsert then Ok (tt, (fst s, w)) else Err returned_false.

(** Read an index, take the item at it and erase it: the loop that removes items. *)
Fixpoint rp_remove (n : nat) : replay (list SimplifiedWitnessRouletteItem) :=
  match n with
  | O => rp_ret []
  | S n' =>
      do! i := read_varint in
      do! x := rp_nth i in
      do! _ := rp_erase i in
      do! xs := rp_remove n' in
      rp_ret (x :: xs)
  end.

(** *** Applying a header's changes *)

(** The loop that adds the outputs of a rearrangement or an increase: every item
    takes its lock and key from the one before. *)
Fixpoint apply_outputs (n : nat) (nHeight : Z) (it : SimplifiedWitnessRouletteItem)
    : replay (list SimplifiedWitnessRouletteItem) :=
  match n with
  | O => rp_ret []
  | S n' =>
      do! t := read_varint in
      do! o := read_index in
      do! v := read_amount in
      let it := mkSItem nHeight t o (si_lockUntilBlock it) (si_lockFromBlock it) (witnessPubKeyID it) v in
      do! _ := rp_insert it in
      do! its := apply_outputs n' nHeight it in
      rp_ret (it :: its)
  end.

Fixpoint apply_keys (n : nat) (nHeight : Z) (key : list Z)
    : replay (list SimplifiedWitnessRouletteItem * list SimplifiedWitnessRouletteItem) :=
  match n with
  | O => rp_ret ([], [])
  | S n' =>
      do! i := read_varint in
      do! x := rp_nth i in
      do! t := read_varint in
      do! o := read_index in
      let y := mkSItem nHeight t o (si_lockUntilBlock x) (si_lockFromBlock x) key (si_nValue x) in
      do! _ := rp_erase i in
      do! _ := rp_insert y in
      do! (xs, ys) := apply_keys n' nHeight key in
      rp_ret (x :: xs, y :: ys)
  end.

Definition apply_witness_action (nHeight : Z) : replay deltaItem :=
  do! i := read_varint in
  do! x := rp_nth i in
  do! v := read_amount in
  do! t := read_varint in
  let y := mkSItem nHeight t 0 (si_lockUntilBlock x) (si_lockFromBlock x) (witnessPubKeyID x) v in
  do! _ := rp_erase i in
  do! _ := rp_insert y in
  rp_ret (mkDelta changeTypeWitnessAction [x] [y]).

(** One case of the [switch]. *)
Definition apply_change (nHeight : Z) (c : ChangeType) : replay (list deltaItem) :=
  match c with
  | changeTypeCreation =>
      do! t := read_varint in
      do! o := read_index in
      do! v := read_amount in
      do! u := read_varint in
      do! k := read_key in
      let y := mkSItem nHeight t o u nHeight k v in
      do! _ := rp_insert y in
      rp_ret [mkDelta c [] [y]]
  | changeTypeSpend =>
      do! i := read_varint in
      do! x := rp_nth i in
      do! _ := rp_erase i in
      rp_ret [mkDelta c [x] []]
  | changeTypeRenew =>
      do! i := read_varint in
      do! x := rp_nth i in
      do! t := read_varint in
      do! o := read_index in
      let y := mkSItem nHeight t o (si_lockUntilBlock x) (si_lockFromBlock x) (witnessPubKeyID x) (si_nValue x) in
      do! _ := rp_erase i in
      do! _ := rp_insert y in
      rp_ret [mkDelta c [x] [y]]
  | changeTypeRearrange =>
      do! ni := read_size in
      do! no := read_size in
      do! xs := rp_remove (Z.to_nat ni) in
      match list.last xs with
      | None => if no =? 0 then rp_ret [mkDelta c [] []] else rp_fail undefined
      | Some it =>
          do! ys := apply_outputs (Z.to_nat no) nHeight it in
          rp_ret [mkDelta c xs ys]
      end
  | changeTypeIncrease =>
      do! ni := read_size in
      do! no := read_size in
      do! u := read_varint in
      do! xs := rp_remove (Z.to_nat ni) in
      let key := match list.last xs with Some it => witnessPubKeyID it | None => null_key end in
      do! ys := apply_outputs (Z.to_nat no) nHeight (mkSItem nHeight 0 0 u nHeight key 0) in
      rp_ret [mkDelta c xs ys]
  | changeTypeChangeKey =>
      do! n := read_size in
      do! k := read_key in
      do! (xs, ys) := apply_keys (Z.to_nat n) nHeight k in
      rp_ret [mkDelta c xs ys]
  | changeTypeWitnessAction => rp_ret []
  end.

(** The loop until the stream is empty; every round reads at least one byte. *)
Fixpoint apply_loop (fuel : nat) (nHeight : Z) : replay (list deltaItem) :=
  fun s =>
    match fst s with
    | [] => Ok ([], s)
    | b :: rest =>
        match fuel with
        | O => Err out_of_fuel
        | S f =>
            (do! ds := match change_of_code b with Some c => apply_change nHeight c | None => rp_ret [] end in
             do! ds' := apply_loop f nHeight in
             rp_ret (ds ++ ds')) (rest, snd s)
        end
    end.

(** The changes of a header, with the items they removed and added. *)
Definition replay_header (nHeight : Z) (delta : list Z) (w : witness_set) : res failure (list deltaItem * witness_set) :=
  if bool_decide (delta = []) then Err returned_false
  else
    match (do! d := apply_witness_action nHeight in
           do! ds := apply_loop (length delta) nHeight in rp_ret (d :: ds)) (delta, w) with
    | Ok (ds, (_, w')) => Ok (ds, w')
    | Err e => Err e
    end.

(** *** Generating undo data *)

(** [find] and then [erase], which is undefined at [end()]. *)
Definition find_erase (w : witness_set) (x : SimplifiedWitnessRouletteItem) : res failure (Z * witness_set) :=
  match fs_find w x with Some i => Ok (Z.of_nat i, fs_erase w i) | None => Err undefined end.

Definition write_place (x : SimplifiedWitnessRouletteItem) : list Z :=
  WriteVarInt (blockNumber x) ++ WriteVarInt (transactionIndex x) ++ WriteCompactSize (transactionOutputIndex x).

Fixpoint undo_remove (added : list SimplifiedWitnessRouletteItem) (w : witness_set) : res failure (list Z * witness_set) :=
  match added with
  | [] => Ok ([], w)
  | x :: xs =>
      let! (i, w) := find_erase w x in
      let! (bs, w) := undo_remove xs w in
      Ok (WriteVarInt i ++ bs, w)
  end.

Fixpoint undo_restore (write : SimplifiedWitnessRouletteItem -> list Z) (removed : list SimplifiedWitnessRouletteItem)
    (w : witness_set) : list Z * witness_set :=
  match removed with
  | [] => ([], w)
  | x :: xs =>
      let '(bs, w) := undo_restore write xs (fst (fs_insert w x)) in
      (write x ++ bs, w)
  end.

Fixpoint undo_keys (added removed : list SimplifiedWitnessRouletteItem) (w : witness_set)
    : res failure (list Z * witness_set) :=
  match added, removed with
  | y :: ys, x :: xs =>
      let! (i, w) := find_erase w y in
      let '(w, didInsert) := fs_insert w x in
      guard! didInsert or returned_false in
      let! (bs, w) := undo_keys ys xs w in
      Ok (WriteVarInt i ++ write_place x ++ bs, w)
  | _, _ => Ok ([], w)
  end.

Definition write_rearranged (x : SimplifiedWitnessRouletteItem) : list Z := write_place x ++ CAmountCompressor_Serialize (si_nValue x).
Definition write_increased (x : SimplifiedWitnessRouletteItem) : list Z := write_rearranged x ++ WriteVarInt (si_lockFromBlock x).

Definition undo_witness_action (d : deltaItem) (w : witness_set) : res failure (list Z * witness_set) :=
  match addedItems d, removedItems d, changeType d with
  | [y], [x], changeTypeWitnessAction =>
      let! (i, w) := find_erase w y in
      Ok (WriteVarInt i ++ CAmountCompressor_Serialize (si_nValue x) ++ write_place x, fst (fs_insert w x))
  | _, _, _ => Err aborted
  end.

(** One case of the [switch]; the failing branches are its assertions. For a renewal the source asks for
    the index of an iterator after it has erased it and inserted another item: the index here is that of the item before. *)
Definition undo_change (d : deltaItem) (w : witness_set) : res failure (list Z * witness_set) :=
  match changeType d, addedItems d, removedItems d with
  | changeTypeWitnessAction, _, _ => Ok ([], w)
  | changeTypeCreation, [y], [] =>
      let! (i, w) := find_erase w y in
      Ok (delta_byte changeTypeCreation ++ WriteVarInt i, w)
  | changeTypeSpend, [], [x] =>
      Ok (delta_byte changeTypeSpend ++ write_place x ++ CAmountCompressor_Serialize (si_nValue x)
            ++ WriteVarInt (si_lockFromBlock x) ++ WriteVarInt (si_lockUntilBlock x) ++ CFlatData_Serialize (witnessPubKeyID x),
          fst (fs_insert w x))
  | changeTypeRenew, [y], [x] =>
      let! (i, w) := find_erase w y in
      Ok (delta_byte changeTypeRenew ++ WriteVarInt i ++ write_place x, fst (fs_insert w x))
  | changeTypeRearrange, _ :: _, _ :: _ =>
      let! (bs, w) := undo_remove (addedItems d) w in
      let '(bs', w) := undo_restore write_rearranged (removedItems d) w in
      Ok (delta_byte changeTypeRearrange ++ WriteCompactSize (Z.of_nat (length (addedItems d)))
            ++ WriteCompactSize (Z.of_nat (length (removedItems d))) ++ bs ++ bs', w)
  | changeTypeIncrease, _ :: _, x :: _ =>
      let! (bs, w) := undo_remove (addedItems d) w in
      let '(bs', w) := undo_restore write_increased (removedItems d) w in
      Ok (delta_byte changeTypeIncrease ++ WriteCompactSize (Z.of_nat (length (addedItems d)))
            ++ WriteCompactSize (Z.of_nat (length (removedItems d))) ++ WriteVarInt (si_lockUntilBlock x) ++ bs ++ bs', w)
  | changeTypeChangeKey, _ :: _, x :: _ =>
      guard! Nat.eqb (length (addedItems d)) (length (removedItems d)) or aborted in
      let! (bs, w) := undo_keys (addedItems d) (removedItems d) w in
      Ok (delta_byte changeTypeChangeKey ++ WriteCompactSize (Z.of_nat (length (removedItems d)))
            ++ CFlatData_Serialize (witnessPubKeyID x) ++ bs, w)
  | _, _, _ => Err aborted
  end.

Fixpoint undo_loop (ds : list deltaItem) (w : witness_set) : res failure (list Z * witness_set) :=
  match ds with
  | [] => Ok ([], w)
  | d :: ds' =>
      let! (bs, w) := undo_change d w in
      let! (bs', w) := undo_loop ds' w in
      Ok (bs ++ bs', w)
  end.

Definition GenerateSimplifiedWitnessUTXODeltaUndoForHeader (ds : list deltaItem) (w : witness_set)
    : res failure (list Z * witness_set) :=
  match ds with
  | [] => Err undefined
  | d :: ds' =>
      let! (bs, w) := undo_witness_action d w in
      let! (bs', w) := undo_loop ds' w in
      Ok (bs ++ bs', w)
  end.

Definition ApplySimplifiedWitnessUTXODeltaForHeader (nHeight : Z) (delta : list Z) (w : witness_set)
    : res failure (witness_set * list Z) :=
  let! (ds, w') := replay_header nHeight delta w in
  let! (undoBytes, _) := GenerateSimplifiedWitnessUTXODeltaUndoForHeader ds w' in
  Ok (w', undoBytes).

(** *** Applying undo data *)

(** The items put back by a rearrangement or, with [lock], by an increase. *)
Fixpoint restore_items (n : nat) (lock : bool) (it : SimplifiedWitnessRouletteItem) : replay unit :=
  match n with
  | O => rp_ret tt
  | S n' =>
      do! b := read_varint in
      do! t := read_varint in
      do! o := read_index in
      do! v := read_amount in
      do! f := if lock then read_varint else rp_ret (si_lockFromBlock it) in
      let it := mkSItem b t o (si_lockUntilBlock it) f (witnessPubKeyID it) v in
      do! _ := rp_insert it in
      restore_items n' lock it
  end.

Fixpoint restore_keys (n : nat) (key : list Z) : replay unit :=
  match n with
  | O => rp_ret tt
  | S n' =>
      do! i := read_varint in
      do! y := rp_nth i in
      do! b := read_varint in
      do! t := read_varint in
      do! o := read_index in
      do! _ := rp_erase i in
      do! _ := rp_insert (mkSItem b t o (si_lockUntilBlock y) (si_lockFromBlock y) key (si_nValue y)) in
      restore_keys n' key
  end.

Definition restore_witness_action : replay unit :=
  do! i := read_varint in
  do! y := rp_nth i in
  do! v := read_amount in
  do! b := read_varint in
  do! t := read_varint in
  do! o := read_index in
  do! _ := rp_erase i in
  rp_insert (mkSItem b t o (si_lockUntilBlock y) (si_lockFromBlock y) (witnessPubKeyID y) v).

Definition restore_change (c : ChangeType) : replay unit :=
  match c with
  | changeTypeCreation =>
      do! i := read_varint in
      do! _ := rp_nth i in
      rp_erase i
  | changeTypeSpend =>
      do! b := read_varint in
      do! t := read_varint in
      do! o := read_index in
      do! v := read_amount in
      do! f := read_varint in
      do! u := read_varint in
      do! k := read_key in
      rp_insert (mkSItem b t o u f k v)
  | changeTypeRenew =>
      do! i := read_varint in
      do! y := rp_nth i in
      do! b := read_varint in
      do! t := read_varint in
      do! o := read_index in
      do! _ := rp_erase i in
      rp_insert (mkSItem b t o (si_lockUntilBlock y) (si_lockFromBlock y) (witnessPubKeyID y) (si_nValue y))
  | changeTypeRearrange =>
      do! nr := read_size in
      do! na := read_size in
      do! ys := rp_remove (Z.to_nat nr) in
      match ys with
      | [] => if na =? 0 then rp_ret tt else rp_fail undefined
      | y :: _ => restore_items (Z.to_nat na) false y
      end
  | changeTypeIncrease =>
      do! nr := read_size in
      do! na := read_size in
      do! u := read_varint in
      do! ys := rp_remove (Z.to_nat nr) in
      match ys with
      | [] => if na =? 0 then rp_ret tt else rp_fail undefined
      | y :: _ =>
          restore_items (Z.to_nat na) true
            (mkSItem (blockNumber y) (transactionIndex y) (transactionOutputIndex y) u (si_lockFromBlock y) (witnessPubKeyID y) (si_nValue y))
      end
  | changeTypeChangeKey =>
      do! n := read_size in
      do! k := read_key in
      restore_keys (Z.to_nat n) k
  | changeTypeWitnessAction => rp_ret tt
  end.

Fixpoint restore_loop (fuel : nat) : replay unit :=
  fun s =>
    match fst s with
    | [] => Ok (tt, s)
    | b :: rest =>
        match fuel with
        | O => Err out_of_fuel
        | S f =>
            (do! _ := match change_of_code b with Some c => restore_change c | None => rp_ret tt end in
             restore_loop f) (rest, snd s)
        end
    end.

Definition UndoSimplifiedWitnessUTXODeltaForHeader (w : witness_set) (undoBytes : list Z) : res failure witness_set :=
  match (do! _ := restore_witness_action in restore_loop (length undoBytes)) (undoBytes, w) with
  | Ok (_, (_, w')) => Ok w'
  | Err e => Err e
  end.

(** *** The changes of a block *)

(** What the helper accumulates: the stream, the changes, the set and the set
    without the witness action. *)
Definition helper_out : Type := list Z * list deltaItem * witness_set * witness_set.

(** [find], [return false] at [end()], the offset and the erasure. *)
Definition take_input (x : SimplifiedWitnessRouletteItem) (w : witness_set) : res failure (Z * witness_set) :=
  match fs_find w x with Some i => Ok (Z.of_nat i, fs_erase w i) | None => Err returned_false end.

Definition out_index (o : item) : res failure Z :=
  guard! negb (isHash (it_outpoint o)) or aborted in Ok (prevBlock_transactionIndex (it_outpoint o)).

(** [o] placed in the block at [nHeight]. *)
Definition placed (nHeight t : Z) (o : item) (u f : Z) (k : list Z) (v : Z) : SimplifiedWitnessRouletteItem :=
  mkSItem nHeight t (op_n (it_outpoint o)) u f k v.

(** [if (lockFromBlock == 0) lockFromBlock = ...]. *)
Definition lock_or (nHeight f : Z) : Z := if f =? 0 then nHeight else f.

Definition helper_witness (nHeight : Z) (b : CWitnessTxBundle) (w : witness_set) : res failure (list Z * deltaItem * witness_set) :=
  match b_inputs b, b_outputs b with
  | [i], [o] =>
      guard! negb (COutPoint_IsNull (it_outpoint i)) or aborted in
      let! x := SItem_ofBundle i in
      let! (n, w) := take_input x w in
      let! t := out_index o in
      guard! op_n (it_outpoint o) =? 0 or aborted in
      let v := nValue (it_out o) in
      let y := mkSItem nHeight t 0 (si_lockUntilBlock x) (lock_or nHeight (si_lockFromBlock x)) (witnessPubKeyID x) v in
      let '(w, didInsert) := fs_insert w y in
      guard! didInsert or returned_false in
      Ok (WriteVarInt n ++ CAmountCompressor_Serialize v ++ WriteVarInt t, mkDelta changeTypeWitnessAction [x] [y], w)
  | _, _ => Err aborted
  end.

Fixpoint helper_created (nHeight : Z) (outs : list item) (w ww : witness_set) : res failure helper_out :=
  match outs with
  | [] => Ok ([], [], w, ww)
  | o :: outs' =>
      let! t := out_index o in
      let d := it_details o in
      let y := placed nHeight t o (lockUntilBlock d) nHeight (witnessKeyID d) (nValue (it_out o)) in
      let! (bs, ds, w', ww') := helper_created nHeight outs' (fst (fs_insert w y)) (fst (fs_insert ww y)) in
      Ok (delta_byte changeTypeCreation ++ WriteVarInt t ++ WriteCompactSize (op_n (it_outpoint o))
            ++ WriteVarInt (nValue (it_out o)) ++ WriteVarInt (lockUntilBlock d) ++ CFlatData_Serialize (witnessKeyID d) ++ bs,
          mkDelta changeTypeCreation [] [y] :: ds, w', ww')
  end.

Fixpoint helper_renewed (nHeight : Z) (ios : list (item * item)) (w ww : witness_set) : res failure helper_out :=
  match ios with
  | [] => Ok ([], [], w, ww)
  | (i, o) :: ios' =>
      let! x := SItem_ofBundle i in
      let! (n, w) := take_input x w in
      let! t := out_index o in
      let y := placed nHeight t o (si_lockUntilBlock x) (lock_or nHeight (si_lockFromBlock x)) (witnessPubKeyID x) (si_nValue x) in
      let! (_, ww) := find_erase ww x in
      let '(w, didInsert) := fs_insert w y in
      guard! didInsert or aborted in
      let! (bs, ds, w, ww) := helper_renewed nHeight ios' w ww in
      Ok (delta_byte changeTypeRenew ++ WriteVarInt n ++ WriteVarInt t ++ WriteCompactSize (op_n (it_outpoint o)) ++ bs,
          mkDelta changeTypeRenew [x] [y] :: ds, w, ww)
  end.

(** The inputs of a rearrangement or an increase, erased from both sets. *)
Fixpoint helper_inputs (ins : list item) (w ww : witness_set)
    : res failure (list Z * list SimplifiedWitnessRouletteItem * witness_set * witness_set) :=
  match ins with
  | [] => Ok ([], [], w, ww)
  | i :: ins' =>
      let! x := SItem_ofBundle i in
      let! (n, w) := take_input x w in
      let! (_, ww) := find_erase ww x in
      let! (bs, xs, w, ww) := helper_inputs ins' w ww in
      Ok (WriteVarInt n ++ bs, x :: xs, w, ww)
  end.

(** The outputs: [next] is what the loop does to the item of the round before. *)
Fixpoint helper_outputs (next : Z -> item -> SimplifiedWitnessRouletteItem -> SimplifiedWitnessRouletteItem)
    (outs : list item) (it : SimplifiedWitnessRouletteItem) (w ww : witness_set)
    : res failure (list Z * list SimplifiedWitnessRouletteItem * witness_set * witness_set) :=
  match outs with
  | [] => Ok ([], [], w, ww)
  | o :: outs' =>
      let! t := out_index o in
      let y := next t o it in
      let! (bs, ys, w, ww) := helper_outputs next outs' y (fst (fs_insert w y)) (fst (fs_insert ww y)) in
      Ok (WriteVarInt t ++ WriteCompactSize (op_n (it_outpoint o)) ++ CAmountCompressor_Serialize (nValue (it_out o)) ++ bs,
          y :: ys, w, ww)
  end.

Fixpoint helper_keys (nHeight : Z) (key : list Z) (ios : list (item * item)) (w ww : witness_set)
    : res failure (list Z * list (SimplifiedWitnessRouletteItem * SimplifiedWitnessRouletteItem) * witness_set * witness_set) :=
  match ios with
  | [] => Ok ([], [], w, ww)
  | (i, o) :: ios' =>
      let! x := SItem_ofBundle i in
      let! (n, w) := take_input x w in
      let! t := out_index o in
      let y := placed nHeight t o (si_lockUntilBlock x) (si_lockFromBlock x) key (si_nValue x) in
      let! (_, ww) := find_erase ww x in
      let! (bs, xys, w, ww) := helper_keys nHeight key ios' (fst (fs_insert w y)) (fst (fs_insert ww y)) in
      Ok (WriteVarInt n ++ WriteVarInt t ++ WriteCompactSize (op_n (it_outpoint o)) ++ bs, (x, y) :: xys, w, ww)
  end.

Definition rearranged (nHeight t : Z) (o : item) (it : SimplifiedWitnessRouletteItem) : SimplifiedWitnessRouletteItem :=
  placed nHeight t o (si_lockUntilBlock it) (lock_or nHeight (si_lockFromBlock it)) (witnessPubKeyID it) (nValue (it_out o)).
Definition increased (nHeight t : Z) (o : item) (it : SimplifiedWitnessRouletteItem) : SimplifiedWitnessRouletteItem :=
  placed nHeight t o (lockUntilBlock (it_details o)) nHeight (witnessPubKeyID it) (nValue (it_out o)).

(** One case of the [switch] of the second loop. *)
Definition helper_bundle (nHeight : Z) (b : CWitnessTxBundle) (w ww : witness_set) : res failure helper_out :=
  let ins := b_inputs b in let outs := b_outputs b in
  let sizes := WriteCompactSize (Z.of_nat (length ins)) ++ WriteCompactSize (Z.of_nat (length outs)) in
  match bundleType b, ins, outs with
  | WitnessType, _, _ => Ok ([], [], w, ww)
  | CreationType, [], _ :: _ => helper_created nHeight outs w ww
  | SpendType, [i], [] =>
      guard! negb (COutPoint_IsNull (it_outpoint i)) or aborted in
      let! x := SItem_ofBundle i in
      let! (n, w) := take_input x w in
      let! (_, ww) := find_erase ww x in
      Ok (delta_byte changeTypeSpend ++ WriteVarInt n, [mkDelta changeTypeSpend [x] []], w, ww)
  | RenewType, i0 :: _, _ :: _ =>
      guard! Nat.eqb (length ins) (length outs) or aborted in
      guard! negb (COutPoint_IsNull (it_outpoint i0)) or aborted in
      helper_renewed nHeight (combine ins outs) w ww
  | RearrangeType, i0 :: _, _ :: _ =>
      let! (bs, xs, w, ww) := helper_inputs ins w ww in
      match list.last xs with
      | None => Err undefined
      | Some it =>
          let! (bs', ys, w, ww) := helper_outputs (rearranged nHeight) outs it w ww in
          Ok (delta_byte changeTypeRearrange ++ sizes ++ bs ++ bs', [mkDelta changeTypeRearrange xs ys], w, ww)
      end
  | IncreaseType, i0 :: _, o0 :: _ =>
      let! (bs, xs, w, ww) := helper_inputs ins w ww in
      match list.last xs with
      | None => Err undefined
      | Some it =>
          let! (bs', ys, w, ww) := helper_outputs (increased nHeight) outs it w ww in
          Ok (delta_byte changeTypeIncrease ++ sizes ++ WriteVarInt (lockUntilBlock (it_details o0)) ++ bs ++ bs',
              [mkDelta changeTypeIncrease xs ys], w, ww)
      end
  | ChangeWitnessKeyType, _ :: _, o0 :: _ =>
      guard! Nat.eqb (length ins) (length outs) or aborted in
      let key := witnessKeyID (it_details o0) in
      let! (bs, xys, w, ww) := helper_keys nHeight key (combine ins outs) w ww in
      Ok (delta_byte changeTypeChangeKey ++ WriteCompactSize (Z.of_nat (length outs)) ++ CFlatData_Serialize key ++ bs,
          [mkDelta changeTypeChangeKey xys.*1 xys.*2], w, ww)
  | _, _, _ => Err aborted
  end.

(** The first loop, over one transaction and over the block: the first witness
    bundle of a transaction leaves the inner loop. *)
Fixpoint helper_tx_witness (nHeight : Z) (bundles : list CWitnessTxBundle) (w : witness_set)
    : res failure (list Z * list deltaItem * witness_set) :=
  match bundles with
  | [] => Ok ([], [], w)
  | b :: bs =>
      if is_type b WitnessType then let! (s, d, w) := helper_witness nHeight b w in Ok (s, [d], w)
      else helper_tx_witness nHeight bs w
  end.

Fixpoint helper_first (nHeight : Z) (block : list (option (list CWitnessTxBundle))) (w : witness_set)
    : res failure (list Z * list deltaItem * witness_set) :=
  match block with
  | [] => Ok ([], [], w)
  | None :: _ => Err returned_false
  | Some bundles :: txs =>
      let! (s, ds, w) := helper_tx_witness nHeight bundles w in
      let! (s', ds', w) := helper_first nHeight txs w in
      Ok (s ++ s', ds ++ ds', w)
  end.

Fixpoint helper_second (nHeight : Z) (bundles : list CWitnessTxBundle) (w ww : witness_set) : res failure helper_out :=
  match bundles with
  | [] => Ok ([], [], w, ww)
  | b :: bs =>
      let! (s, ds, w, ww) := helper_bundle nHeight b w ww in
      let! (s', ds', w, ww) := helper_second nHeight bs w ww in
      Ok (s ++ s', ds ++ ds', w, ww)
  end.

(** [block] is [tx->witnessBundles] of every transaction, which may be null. *)
Definition GetSimplifiedWitnessUTXODeltaForBlockHelper (nHeight : Z) (block : list (option (list CWitnessTxBundle)))
    (w ww : witness_set) : res failure helper_out :=
  let bundles := concat (map (default []) block) in
  let! (s, ds, w) := helper_first nHeight block w in
  let! (s', ds', w, ww) := helper_second nHeight bundles w ww in
  guard! negb (bool_decide (bundles = [])) or returned_false in
  Ok (s ++ s', ds ++ ds', w, ww).

End Replay.

(** ** The documented behaviour of the set *)

(** Two items are equivalent under [operator<] when they are at the same place. *)
Definition place (x : SimplifiedWitnessRouletteItem) : Z * Z * Z :=
  (blockNumber x, transactionIndex x, transactionOutputIndex x).

Definition ordered (w : witness_set) : Prop := StronglySorted (fun a b => sitem_ltb a b = true) w.

(** [insert] inserts, and says so, exactly when no equivalent element is there,
    and keeps the order; [find] finds the equivalent element; [erase] removes
    the element at a position. *)
Class FlatSetLaws `{FlatSet} : Prop := {
  fs_insert_fresh w x : ordered w -> place x ∉ place <$> w ->
    exists w', fs_insert w x = (w', true) /\ ordered w' /\ w' ≡ₚ x :: w;
  fs_insert_present w x : ordered w -> place x ∈ place <$> w -> fs_insert w x = (w, false);
  fs_find_spec w x : ordered w ->
    match fs_find w x with
    | Some i => exists y, w !! i = Some y /\ place y = place x
    | None => place x ∉ place <$> w
    end;
  fs_erase_spec w i : (i < length w)%nat -> fs_erase w i = delete i w
}.

(** A model of the class: a sorted list. *)
Fixpoint ordered_insert (w : witness_set) (x : SimplifiedWitnessRouletteItem) : witness_set * bool :=
  match w with
  | [] => ([x], true)
  | y :: w' =>
      if sitem_ltb x y then (x :: w, true)
      else if sitem_ltb y x then let '(w'', b) := ordered_insert w' x in (y :: w'', b)
      else (w, false)
  end.
Fixpoint ordered_find (w : witness_set) (x : SimplifiedWitnessRouletteItem) : option nat :=
  match w with
  | [] => None
  | y :: w' => if bool_decide (place y = place x) then Some O else S <$> ordered_find w' x
  end.
Definition sorted_list_set : FlatSet := {|
  fs_insert := ordered_insert;
  fs_find := ordered_find;
  fs_erase w i := delete i w
|}.

(** ** Lemmas: the order *)

Lemma sitem_ltb_true a b : sitem_ltb a b = true <->
  blockNumber a < blockNumber b \/
  (blockNumber a = blockNumber b /\ (transactionIndex a < transactionIndex b \/
     (transactionIndex a = transactionIndex b /\ transactionOutputIndex a < transactionOutputIndex b))).
Proof. unfold sitem_ltb. repeat (zcase; try rewrite Z.ltb_lt); lia. Qed.

Lemma sitem_ltb_false a b : sitem_ltb a b = false <-> sitem_ltb b a = true \/ place a = place b.
Proof.
  rewrite <- not_true_iff_false, !sitem_ltb_true. unfold place.
  split; [|intros [?|[= ? ? ?]]; lia]. intros Hn.
  destruct (Z.eq_dec (blockNumber a) (blockNumber b)) as [E1|]; [|lia].
  destruct (Z.eq_dec (transactionIndex a) (transactionIndex b)) as [E2|]; [|lia].
  destruct (Z.eq_dec (transactionOutputIndex a) (transactionOutputIndex b)) as [E3|]; [|lia].
  right. by rewrite E1, E2, E3.
Qed.

Lemma sitem_ltb_trans a b c : sitem_ltb a b = true -> sitem_ltb b c = true -> sitem_ltb a c = true.
Proof. rewrite !sitem_ltb_true. lia. Qed.

Lemma sitem_ltb_place a b : sitem_ltb a b = true -> place a <> place b.
Proof. rewrite sitem_ltb_true. unfold place. intros ? [= ? ? ?]. lia. Qed.

Lemma ordered_NoDup w : ordered w -> NoDup (place <$> w).
Proof.
  induction w as [|x w IH]; [constructor|]. intros [Hx Hw]%StronglySorted_cons. constructor; [|by apply IH].
  intros (y & E & Hy)%list_elem_of_fmap. rewrite List.Forall_forall in Hx.
  by apply (sitem_ltb_place x y); [apply Hx, list_elem_of_In|].
Qed.

Lemma ordered_eq w1 w2 : ordered w1 -> ordered w2 -> w1 ≡ₚ w2 -> w1 = w2.
Proof.
  intros H1 H2. apply (StronglySorted_unique_strong (fun a b => sitem_ltb a b = true) w1 w2); [|done..].
  intros x y _ _ Hxy Hyx. pose proof (sitem_ltb_trans x y x Hxy Hyx) as Hxx. by apply sitem_ltb_place in Hxx.
Qed.

Lemma ordered_delete w i : ordered w -> ordered (delete i w).
Proof.
  unfold ordered. rewrite delete_take_drop. intros Hw.
  rewrite <- (take_drop i w), StronglySorted_app in Hw. destruct Hw as (Hc & Ht & Hd).
  assert (E : drop (S i) w = drop 1 (drop i w)) by (rewrite drop_drop; f_equal; lia). rewrite E.
  rewrite <- (take_drop 1 (drop i w)) in Hd, Hc.
  rewrite StronglySorted_app. split_and!; [|done|by apply StronglySorted_app in Hd as (_ & _ & Hd)].
  intros x y Hx Hy. apply Hc; [done|]. apply elem_of_app. by right.
Qed.

Lemma places_part l a b : NoDup (place <$> l) -> l ≡ₚ a ++ b -> NoDup (place <$> a).
Proof. intros Hl Hp. rewrite Hp, fmap_app in Hl. by apply NoDup_app in Hl as [? _]. Qed.

(** ** The sorted list is a model *)

Lemma ordered_insert_spec w x : ordered w ->
  match ordered_insert w x with
  | (w', true) => ordered w' /\ w' ≡ₚ x :: w /\ place x ∉ place <$> w
  | (w', false) => w' = w /\ place x ∈ place <$> w
  end.
Proof.
  induction w as [|y w IH]; intros Hw.
  { cbn. split_and!; [repeat constructor|done|by intros ?%elem_of_nil]. }
  apply StronglySorted_cons in Hw as [Hy Hw]. cbn [ordered_insert].
  destruct (sitem_ltb x y) eqn:Exy.
  - assert (Hall : Forall (fun b => sitem_ltb x b = true) (y :: w)).
    { constructor; [done|]. eapply Forall_impl; [exact Hy|]. intros b Hb. by apply (sitem_ltb_trans x y b). }
    split_and!; [apply StronglySorted_cons; split; [done|by apply StronglySorted_cons]|done|].
    intros (z & E & Hz)%list_elem_of_fmap. rewrite List.Forall_forall in Hall.
    apply (sitem_ltb_place x z); [by apply Hall, list_elem_of_In|done].
  - destruct (sitem_ltb y x) eqn:Eyx.
    + specialize (IH Hw). destruct (ordered_insert w x) as [w' [|]].
      * destruct IH as (Hw' & Hp & Hn). split_and!.
        -- apply StronglySorted_cons. split; [|done]. rewrite Hp. by constructor.
        -- rewrite Hp. apply Permutation_swap.
        -- cbn. intros [E|?]%elem_of_cons; [|done]. by apply sitem_ltb_place in Eyx.
      * destruct IH as [-> Hin]. split; [done|]. cbn. apply elem_of_cons. by right.
    + split; [done|]. cbn. apply elem_of_cons. left. apply sitem_ltb_false in Exy as [?|?]; congruence.
Qed.

Lemma ordered_find_spec w x :
  match ordered_find w x with
  | Some i => exists y, w !! i = Some y /\ place y = place x
  | None => place x ∉ place <$> w
  end.
Proof.
  induction w as [|y w IH]; cbn [ordered_find]; [by intros ?%elem_of_nil|].
  case_bool_decide as E; [by exists y|]. destruct (ordered_find w x) as [i|]; cbn; [exact IH|].
  intros [?|?]%elem_of_cons; congruence.
Qed.

Lemma sorted_list_set_laws : @FlatSetLaws sorted_list_set.
Proof.
  split; cbn.
  - intros w x Hw Hn. pose proof (ordered_insert_spec w x Hw) as Hs. destruct (ordered_insert w x) as [w' [|]].
    + exists w'. split_and!; [done|apply Hs..].
    + by destruct Hs.
  - intros w x Hw Hn. pose proof (ordered_insert_spec w x Hw) as Hs. destruct (ordered_insert w x) as [w' [|]].
    + by destruct Hs as (_ & _ & ?).
    + by destruct Hs as [-> _].
  - intros w x _. apply ordered_find_spec.
  - done.
Qed.
