(* ===== verification/WitnessDeltaUndo.v ===== *)
(** * WitnessDeltaUndo: replaying and undoing the witness changes of a header

    The replay of any stream terminates, and undo data generated for a header
    puts the witness set back as it was, for headers whose changes lose no
    information and do not touch what the same block created. The theorems hold
    for every implementation of the set that meets [FlatSetLaws]. *)

From stdpp Require Import sorting.
From S2P Require Import Prelude Serialize Compressor Transaction WitnessBundles WitnessDelta.

(** ** Lemmas: the replay monad *)

Lemma rp_bind_Ok {A B} (m : replay A) (f : A -> replay B) s r :
  rp_bind m f s = Ok r -> exists a s', m s = Ok (a, s') /\ f a s' = Ok r.
Proof. unfold rp_bind. destruct (m s) as [[a s']|e]; [|done]. intros Hf. by exists a, s'. Qed.

Lemma rp_read_Ok {A} (r : reader A) s a s' : rp_read r s = Ok (a, s') ->
  r (fst s) = Some (a, fst s') /\ snd s' = snd s.
Proof. unfold rp_read. destruct (r (fst s)) as [[b rest]|]; [|done]. by intros [= <- <-]. Qed.

(** Reading what was written, one rewrite per field. *)
Lemma rp_read_rt {A B} (w : A -> list Z) (r : reader A) (ok : A -> Prop) `{RT : RoundTrip A w r ok}
  (k : A -> replay B) a s u : ok a -> rp_bind (rp_read r) k (w a ++ s, u) = k a (s, u).
Proof. intros Ha. unfold rp_bind, rp_read. cbn [fst snd]. by rewrite (RT a s Ha). Qed.

Lemma read_varint_rt {B} (k : Z -> replay B) a s u : 0 <= a < 2 ^ 64 ->
  rp_bind read_varint k (WriteVarInt a ++ s, u) = k a (s, u).
Proof. intros Ha. apply (rp_read_rt _ _ _ k a s u). unfold UINT64_MAX. lia. Qed.

Lemma read_size_rt {B} (k : Z -> replay B) a s u : 0 <= a <= MAX_SIZE ->
  rp_bind read_size k (WriteCompactSize a ++ s, u) = k a (s, u).
Proof. intros Ha. apply (rp_read_rt _ _ _ k a s u). unfold MAX_SIZE in *. lia. Qed.

Lemma read_index_rt {B} (k : Z -> replay B) a s u : 0 <= a <= MAX_SIZE ->
  rp_bind read_index k (WriteCompactSize a ++ s, u) = k a (s, u).
Proof.
  intros Ha. unfold MAX_SIZE in *. unfold read_index, rp_bind, rp_read, rd_bind. cbn [fst snd].
  rewrite (CompactSize_RoundTrip true) by (unfold MAX_SIZE; lia). unfold rd_ret. by rewrite u32_small by lia.
Qed.

Lemma read_amount_rt {B} (k : Z -> replay B) a s u : 0 <= a < 2 ^ 60 ->
  rp_bind read_amount k (CAmountCompressor_Serialize a ++ s, u) = k a (s, u).
Proof. intros Ha. by apply (rp_read_rt _ _ _ k a s u). Qed.

Lemma read_key_rt {B} (k : list Z -> replay B) a s u : length a = 20%nat ->
  rp_bind read_key k (CFlatData_Serialize a ++ s, u) = k a (s, u).
Proof. intros Ha. by apply (rp_read_rt _ _ _ k a s u). Qed.

Lemma delta_byte_eq c : delta_byte c = [change_code c].
Proof. by destruct c. Qed.

(** An item that the encodings of the undo data can hold. *)
Definition item_fits (x : SimplifiedWitnessRouletteItem) : Prop :=
  (0 <= blockNumber x < 2 ^ 64) /\ (0 <= transactionIndex x < 2 ^ 64) /\
  (0 <= transactionOutputIndex x <= MAX_SIZE) /\ (0 <= si_lockUntilBlock x < 2 ^ 64) /\
  (0 <= si_lockFromBlock x < 2 ^ 64) /\ length (witnessPubKeyID x) = 20%nat /\ (0 <= si_nValue x < 2 ^ 60).

Section Laws.
Context `{FSL : FlatSetLaws}.

(** ** Lemmas: one operation on the set *)

Lemma take_item w x base : ordered w -> w ≡ₚ x :: base ->
  exists i w', fs_find w x = Some i /\ w !! i = Some x /\ fs_erase w i = w' /\ ordered w' /\ w' ≡ₚ base /\ (i < length w)%nat.
Proof.
  intros Hw Hp. pose proof (fs_find_spec w x Hw) as Hf. destruct (fs_find w x) as [i|].
  - destruct Hf as (y & Hi & Hy). pose proof (lookup_lt_Some _ _ _ Hi) as Hlt.
    assert (y = x) as ->.
    { pose proof (ordered_NoDup w Hw) as Hnd.
      assert (Hx : x ∈ w) by (rewrite Hp; left). apply list_elem_of_lookup in Hx as [j Hj].
      assert (i = j) as ->; [|congruence].
      eapply NoDup_lookup; [exact Hnd|by rewrite list_lookup_fmap, Hi|by rewrite list_lookup_fmap, Hj; cbn; f_equal]. }
    exists i, (delete i w). split_and!; [done|done|by apply fs_erase_spec|by apply ordered_delete| |done].
    apply (Permutation_cons_inv (a := x)). rewrite <- Hp. symmetry. by apply delete_Permutation.
  - exfalso. apply Hf. rewrite Hp. left.
Qed.

Lemma find_erase_item w x base : ordered w -> w ≡ₚ x :: base ->
  exists i w', find_erase w x = Ok (i, w') /\ w !! Z.to_nat i = Some x /\ fs_erase w (Z.to_nat i) = w' /\
               ordered w' /\ w' ≡ₚ base /\ 0 <= i < Z.of_nat (length w).
Proof.
  intros Hw Hp. destruct (take_item w x base Hw Hp) as (i & w' & Hf & Hi & He & Ho & Hb & Hlt).
  exists (Z.of_nat i), w'. unfold find_erase. rewrite Hf, Nat2Z.id, He. split_and!; try done; lia.
Qed.

Lemma put_item w x : ordered w -> NoDup (place <$> x :: w) ->
  exists w', fs_insert w x = (w', true) /\ ordered w' /\ w' ≡ₚ x :: w.
Proof. intros Hw Hn. apply fs_insert_fresh; [done|]. by apply NoDup_cons in Hn as [? _]. Qed.

Lemma rp_insert_Ok x s u s' : ordered (snd s) -> rp_insert x s = Ok (u, s') ->
  fst s' = fst s /\ ordered (snd s') /\ snd s' ≡ₚ x :: snd s.
Proof.
  intros Hw. unfold rp_insert.
  destruct (decide (place x ∈ place <$> snd s)) as [Hin|Hn].
  - by rewrite fs_insert_present by done.
  - destruct (fs_insert_fresh (snd s) x Hw Hn) as (w' & -> & Ho & Hp). intros [= <- <-]. done.
Qed.

Lemma rp_take_Ok i x s s1 (u : unit) s2 : ordered (snd s) -> rp_nth i s = Ok (x, s1) -> rp_erase i s1 = Ok (u, s2) ->
  s1 = s /\ fst s2 = fst s /\ ordered (snd s2) /\ snd s ≡ₚ x :: snd s2.
Proof.
  intros Hw. unfold rp_nth, rp_erase. destruct (snd s !! Z.to_nat i) eqn:Hi; [|done]. intros [= -> <-] [= <- <-].
  cbn [fst snd]. rewrite fs_erase_spec by (by apply lookup_lt_Some in Hi). split_and!; [done..|by apply ordered_delete|].
  by apply delete_Permutation.
Qed.

(** The same, forwards. *)
Lemma rp_nth_erase {B} (k : SimplifiedWitnessRouletteItem -> replay B) i x st w :
  w !! Z.to_nat i = Some x -> rp_bind (rp_nth i) k (st, w) = k x (st, w).
Proof. intros Hi. unfold rp_bind, rp_nth. cbn [snd]. by rewrite Hi. Qed.

Lemma rp_insert_put {B} (k : unit -> replay B) x st w w' :
  fs_insert w x = (w', true) -> rp_bind (rp_insert x) k (st, w) = k tt (st, w').
Proof. intros E. unfold rp_bind, rp_insert. cbn [fst snd]. by rewrite E. Qed.

Lemma rp_erase_eq {B} (k : unit -> replay B) i st w w' :
  fs_erase w (Z.to_nat i) = w' -> rp_bind (rp_erase i) k (st, w) = k tt (st, w').
Proof. intros <-. done. Qed.

End Laws.

Section Mirror.
Context `{FSL : FlatSetLaws}.

(** ** Lemmas: undo data mirrors its generation *)

Lemma undo_remove_mirror ys w base : ordered w -> w ≡ₚ ys ++ base -> Z.of_nat (length w) <= MAX_SIZE ->
  exists bs w', undo_remove ys w = Ok (bs, w') /\ ordered w' /\ w' ≡ₚ base /\
    forall rest, rp_remove (length ys) (bs ++ rest, w) = Ok (ys, (rest, w')).
Proof.
  revert w. induction ys as [|y ys IH]; intros w Hw Hp Hl.
  { exists [], w. split_and!; done. }
  destruct (find_erase_item w y (ys ++ base) Hw Hp) as (i & w1 & Ef & Hi & He & Hw1 & Hp1 & Hr).
  unfold MAX_SIZE in Hl. assert (Hl1 : Z.of_nat (length w1) <= MAX_SIZE).
  { assert (length w = S (length w1)) by (rewrite Hp, Hp1; done). unfold MAX_SIZE. lia. }
  destruct (IH w1 Hw1 Hp1 Hl1) as (bs & w2 & Eu & Hw2 & Hp2 & Hrest).
  exists (WriteVarInt i ++ bs), w2. cbn [undo_remove res_bind]. rewrite Ef. cbn [res_bind]. rewrite Eu. split_and!; try done.
  intros rest. cbn [rp_remove length]. rewrite <- app_assoc, read_varint_rt by lia.
  rewrite (rp_nth_erase _ _ _ _ _ Hi), (rp_erase_eq _ _ _ _ _ He). unfold rp_bind. by rewrite Hrest.
Qed.

Definition same_lock (lock : bool) (it x : SimplifiedWitnessRouletteItem) : Prop :=
  si_lockUntilBlock x = si_lockUntilBlock it /\ witnessPubKeyID x = witnessPubKeyID it /\
  (lock = false -> si_lockFromBlock x = si_lockFromBlock it).

Lemma undo_restore_mirror (lock : bool) xs w it : ordered w -> NoDup (place <$> xs ++ w) ->
  Forall item_fits xs -> Forall (same_lock lock it) xs ->
  exists bs w', undo_restore (if lock then write_increased else write_rearranged) xs w = (bs, w') /\
    ordered w' /\ w' ≡ₚ xs ++ w /\
    forall rest, restore_items (length xs) lock it (bs ++ rest, w) = Ok (tt, (rest, w')).
Proof.
  revert w it. induction xs as [|x xs IH]; intros w it Hw Hnd Hfit Hsame.
  { exists [], w. split_and!; done. }
  apply Forall_cons_iff in Hfit as [(Hb & Ht & Ho & Hu & Hf & Hk & Hv) Hfit].
  apply Forall_cons_iff in Hsame as [(Su & Sk & Sf) Hsame].
  destruct (put_item w x) as (w1 & Ei & Hw1 & Hp1); [done|..].
  { apply (places_part _ _ xs Hnd). solve_Permutation. }
  destruct (IH w1 x) as (bs & w2 & Eu & Hw2 & Hp2 & Hrest); [done| |done| |].
  { rewrite Hp1, <- Permutation_middle. exact Hnd. }
  { eapply Forall_impl; [exact Hsame|]. intros y (Yu & Yk & Yf). unfold same_lock. rewrite Su, Sk, Yu, Yk.
    split_and!; try done. intros Hl. by rewrite Yf, Sf. }
  set (wr := if lock then write_increased else write_rearranged) in *.
  exists (wr x ++ bs), w2. cbn [undo_restore]. rewrite Ei. cbn [fst]. rewrite Eu. split_and!; try done.
  { rewrite Hp2, Hp1. symmetry. apply Permutation_middle. }
  intros rest. cbn [restore_items length].
  assert (Hx : mkSItem (blockNumber x) (transactionIndex x) (transactionOutputIndex x) (si_lockUntilBlock it)
                 (si_lockFromBlock x) (witnessPubKeyID it) (si_nValue x) = x) by (rewrite <- Su, <- Sk; by destruct x).
  unfold wr, write_increased, write_rearranged, write_place.
  destruct lock; rewrite <- ?app_assoc, !read_varint_rt, read_index_rt, read_amount_rt by done.
  - rewrite read_varint_rt by done. cbv zeta. rewrite Hx, (rp_insert_put _ _ _ _ _ Ei). apply Hrest.
  - assert (E : si_lockFromBlock it = si_lockFromBlock x) by (symmetry; by apply Sf).
    unfold rp_bind at 1, rp_ret at 1. cbv zeta. rewrite E, Hx, (rp_insert_put _ _ _ _ _ Ei). apply Hrest.
Qed.

(** A change keeps the locks and the value, the key of [y] is replaced. *)
Definition rekeyed (x y : SimplifiedWitnessRouletteItem) : Prop :=
  si_lockUntilBlock y = si_lockUntilBlock x /\ si_lockFromBlock y = si_lockFromBlock x /\ si_nValue y = si_nValue x.

Lemma undo_keys_mirror key xs ys w base : ordered w -> w ≡ₚ ys ++ base -> NoDup (place <$> ys ++ xs ++ base) ->
  Z.of_nat (length w) <= MAX_SIZE -> Forall item_fits xs -> Forall2 rekeyed xs ys -> Forall (fun x => witnessPubKeyID x = key) xs ->
  exists bs w', undo_keys ys xs w = Ok (bs, w') /\ ordered w' /\ w' ≡ₚ xs ++ base /\
    forall rest, restore_keys (length xs) key (bs ++ rest, w) = Ok (tt, (rest, w')).
Proof.
  intros Hw Hp Hnd Hl Hfit Hre Hkey. revert w base Hw Hp Hnd Hl Hfit Hkey.
  induction Hre as [|x y xs ys (Ru & Rf & Rv) Hre IH]; intros w base Hw Hp Hnd Hl Hfit Hkey.
  { exists [], w. split_and!; done. }
  apply Forall_cons_iff in Hfit as [(Hb & Ht & Ho & Hu & Hf & Hk & Hv) Hfit]. apply Forall_cons_iff in Hkey as [Kx Hkey].
  destruct (find_erase_item w y (ys ++ base) Hw Hp) as (i & w1 & Ef & Hi & He & Hw1 & Hp1 & Hr).
  assert (Hlen : length w = S (length w1)) by (rewrite Hp, Hp1; done).
  assert (Hperm : (y :: ys) ++ (x :: xs) ++ base ≡ₚ y :: (ys ++ xs ++ x :: base)) by (cbn; solve_Permutation).
  apply (places_part _ (ys ++ xs ++ x :: base) [y]) in Hnd; [|rewrite Hperm; solve_Permutation].
  destruct (put_item w1 x) as (w2 & Ei & Hw2 & Hp2); [done|..].
  { apply (places_part _ _ xs Hnd). rewrite Hp1. solve_Permutation. }
  destruct (IH w2 (x :: base)) as (bs & w3 & Eu & Hw3 & Hp3 & Hrest); [done| |done| |done|done|].
  { rewrite Hp2, Hp1. solve_Permutation. }
  { rewrite Hp2. cbn [length]. lia. }
  exists (WriteVarInt i ++ write_place x ++ bs), w3. cbn [undo_keys]. rewrite Ef. cbn [res_bind]. rewrite Ei, Eu. cbn [res_bind].
  split_and!; try done.
  { rewrite Hp3. solve_Permutation. }
  intros rest. unfold MAX_SIZE in Hl. cbn [restore_keys length]. unfold write_place.
  rewrite <- !app_assoc, read_varint_rt by lia. rewrite (rp_nth_erase _ _ _ _ _ Hi), !read_varint_rt, read_index_rt by done.
  rewrite (rp_erase_eq _ _ _ _ _ He).
  assert (Hx : mkSItem (blockNumber x) (transactionIndex x) (transactionOutputIndex x) (si_lockUntilBlock y)
                 (si_lockFromBlock y) key (si_nValue y) = x) by (rewrite <- Kx, Ru, Rf, Rv; by destruct x).
  rewrite Hx, (rp_insert_put _ _ _ _ _ Ei). apply Hrest.
Qed.

(** What the replay guarantees about a change and the undo data needs. *)
Definition kept (x y : SimplifiedWitnessRouletteItem) : Prop :=
  si_lockUntilBlock y = si_lockUntilBlock x /\ si_lockFromBlock y = si_lockFromBlock x /\ witnessPubKeyID y = witnessPubKeyID x.

Definition witness_ok (d : deltaItem) : Prop :=
  changeType d = changeTypeWitnessAction /\
  exists x y, removedItems d = [x] /\ addedItems d = [y] /\ kept x y.

Definition delta_ok (d : deltaItem) : Prop :=
  let R := removedItems d in let A := addedItems d in
  match changeType d with
  | changeTypeWitnessAction => False
  | changeTypeCreation => R = [] /\ exists y, A = [y]
  | changeTypeSpend => A = [] /\ exists x, R = [x]
  | changeTypeRenew => exists x y, R = [x] /\ A = [y] /\ kept x y /\ si_nValue y = si_nValue x
  | changeTypeRearrange => R <> [] /\ A <> [] /\ forall x y, x ∈ R -> y ∈ A -> kept x y
  | changeTypeIncrease =>
      R <> [] /\ A <> [] /\ (forall x y, x ∈ R -> y ∈ A -> witnessPubKeyID y = witnessPubKeyID x) /\
      forall x x', x ∈ R -> x' ∈ R -> si_lockUntilBlock x' = si_lockUntilBlock x
  | changeTypeChangeKey =>
      R <> [] /\ Forall2 rekeyed R A /\ forall x x', x ∈ R -> x' ∈ R -> witnessPubKeyID x' = witnessPubKeyID x
  end.

(** An item with a new place, amount and lock. *)
Lemma kept_eq x y : kept x y ->
  mkSItem (blockNumber x) (transactionIndex x) (transactionOutputIndex x) (si_lockUntilBlock y) (si_lockFromBlock y)
    (witnessPubKeyID y) (si_nValue x) = x.
Proof. intros (-> & -> & ->). by destruct x. Qed.

Definition undone d w base (bs : list Z) (w' : witness_set) (m : replay unit) : Prop :=
  ordered w' /\ w' ≡ₚ removedItems d ++ base /\ forall rest, m (bs ++ rest, w) = Ok (tt, (rest, w')).

Lemma undo_witness_mirror d w base : witness_ok d -> Forall item_fits (removedItems d) -> ordered w ->
  w ≡ₚ addedItems d ++ base -> NoDup (place <$> addedItems d ++ removedItems d ++ base) -> Z.of_nat (length w) <= MAX_SIZE ->
  exists bs w', undo_witness_action d w = Ok (bs, w') /\ undone d w base bs w' restore_witness_action.
Proof.
  intros (Ht & x & y & HR & HA & Hk) Hfit Hw Hp Hnd Hl. unfold undone. rewrite HR, HA in *. unfold MAX_SIZE in Hl.
  apply Forall_cons_iff in Hfit as [(Fb & Ft & Fo & Fu & Ff & Fk & Fv) _].
  destruct (find_erase_item w y base Hw Hp) as (i & w1 & Ef & Hi & He & Hw1 & Hp1 & Hr).
  destruct (put_item w1 x) as (w2 & Ei & Hw2 & Hp2); [done|..].
  { apply (places_part _ _ [y] Hnd). rewrite Hp1. solve_Permutation. }
  unfold undo_witness_action. rewrite Ht, HR, HA, Ef. cbn [res_bind]. rewrite Ei. do 2 eexists. split; [done|].
  split_and!; [done|by rewrite Hp2, Hp1|]. intros rest. unfold restore_witness_action, write_place.
  rewrite <- !app_assoc, read_varint_rt, (rp_nth_erase _ _ _ _ _ Hi), read_amount_rt, !read_varint_rt, read_index_rt by (done || lia).
  rewrite (rp_erase_eq _ _ _ _ _ He), kept_eq by done. unfold rp_insert. cbn [fst snd]. by rewrite Ei.
Qed.

(** The cases of [undo_change] on non-empty lists. *)
Lemma undo_rearrange_eq A R w : A <> [] -> R <> [] ->
  undo_change (mkDelta changeTypeRearrange R A) w =
  let! (bs, w) := undo_remove A w in
  let '(bs', w) := undo_restore write_rearranged R w in
  Ok (delta_byte changeTypeRearrange ++ WriteCompactSize (Z.of_nat (length A)) ++ WriteCompactSize (Z.of_nat (length R)) ++ bs ++ bs', w).
Proof. by destruct A, R. Qed.

Lemma undo_increase_eq A R x w : A <> [] -> head R = Some x ->
  undo_change (mkDelta changeTypeIncrease R A) w =
  let! (bs, w) := undo_remove A w in
  let '(bs', w) := undo_restore write_increased R w in
  Ok (delta_byte changeTypeIncrease ++ WriteCompactSize (Z.of_nat (length A)) ++ WriteCompactSize (Z.of_nat (length R))
        ++ WriteVarInt (si_lockUntilBlock x) ++ bs ++ bs', w).
Proof. destruct A, R; try done. by intros _ [= ->]. Qed.

Lemma undo_keys_eq A R x w : length R = length A -> head R = Some x ->
  undo_change (mkDelta changeTypeChangeKey R A) w =
  let! (bs, w) := undo_keys A R w in
  Ok (delta_byte changeTypeChangeKey ++ WriteCompactSize (Z.of_nat (length R)) ++ CFlatData_Serialize (witnessPubKeyID x) ++ bs, w).
Proof.
  destruct R as [|x' R]; [done|]. intros Hl [= ->]. destruct A as [|y A]; [done|].
  unfold undo_change. cbn [changeType addedItems removedItems]. by rewrite Hl, Nat.eqb_refl.
Qed.

Lemma undo_change_mirror d w base : delta_ok d -> Forall item_fits (removedItems d) -> ordered w ->
  w ≡ₚ addedItems d ++ base -> NoDup (place <$> addedItems d ++ removedItems d ++ base) ->
  Z.of_nat (length w + length (removedItems d)) <= MAX_SIZE ->
  exists bs w', undo_change d w = Ok (change_code (changeType d) :: bs, w') /\ undone d w base bs w' (restore_change (changeType d)).
Proof.
  intros Hok Hfit Hw Hp Hnd Hl. unfold undone. destruct d as [c R A]. cbn [changeType removedItems addedItems] in *.
  unfold MAX_SIZE in Hl. destruct c; cbn in Hok.
  - destruct Hok as [-> [y ->]]. destruct (find_erase_item w y base Hw Hp) as (i & w1 & Ef & Hi & He & Hw1 & Hp1 & Hr).
    unfold undo_change. cbn [changeType addedItems removedItems]. rewrite Ef. cbn [res_bind]. rewrite delta_byte_eq. do 2 eexists.
    split; [done|]. split_and!; [done..|]. intros rest. cbn [restore_change].
    rewrite read_varint_rt by lia. rewrite (rp_nth_erase _ _ _ _ _ Hi). unfold rp_erase. cbn [fst snd]. by rewrite He.
  - destruct Hok as [-> [x ->]]. apply Forall_cons_iff in Hfit as [(Fb & Ft & Fo & Fu & Ff & Fk & Fv) _].
    cbn [app] in Hp, Hnd. destruct (put_item w x) as (w1 & Ei & Hw1 & Hp1); [done|..].
    { apply (places_part _ _ [] Hnd). rewrite Hp. solve_Permutation. }
    unfold undo_change. cbn [changeType addedItems removedItems]. rewrite Ei, delta_byte_eq. do 2 eexists.
    split; [done|]. split_and!; [done|by rewrite Hp1, Hp|]. intros rest. cbn [restore_change]. unfold write_place.
    rewrite <- !app_assoc, !read_varint_rt, read_index_rt, read_amount_rt, !read_varint_rt, read_key_rt by done.
    unfold rp_insert. cbn [fst snd]. replace (mkSItem _ _ _ _ _ _ _) with x by by destruct x. by rewrite Ei.
  - destruct Hok as (x & y & -> & -> & Hk & Hv). apply Forall_cons_iff in Hfit as [(Fb & Ft & Fo & Fu & Ff & Fk & Fv) _].
    destruct (find_erase_item w y base Hw Hp) as (i & w1 & Ef & Hi & He & Hw1 & Hp1 & Hr).
    destruct (put_item w1 x) as (w2 & Ei & Hw2 & Hp2); [done|..].
    { apply (places_part _ _ [y] Hnd). rewrite Hp1. solve_Permutation. }
    unfold undo_change. cbn [changeType addedItems removedItems]. rewrite Ef. cbn [res_bind]. rewrite Ei, delta_byte_eq. do 2 eexists.
    split; [done|]. split_and!; [done|by rewrite Hp2, Hp1|]. intros rest. cbn [restore_change]. unfold write_place.
    rewrite <- !app_assoc, read_varint_rt, (rp_nth_erase _ _ _ _ _ Hi), !read_varint_rt, read_index_rt by (done || lia).
    rewrite (rp_erase_eq _ _ _ _ _ He), Hv, kept_eq by done. unfold rp_insert. cbn [fst snd]. by rewrite Ei.
  - destruct Hok as (HR & HA & Hk). destruct A as [|y0 A']; [done|]. destruct R as [|x0 R']; [done|].
    remember (y0 :: A') as A. remember (x0 :: R') as R. assert (Hy0 : y0 ∈ A) by (subst; left).
    destruct (undo_remove_mirror A w base Hw Hp) as (bs & w1 & Eu & Hw1 & Hp1 & Hrm); [unfold MAX_SIZE; lia|].
    destruct (undo_restore_mirror false R w1 y0 Hw1) as (bs' & w2 & Er & Hw2 & Hp2 & Hrs); [|done|..].
    { apply (places_part _ _ A Hnd). rewrite Hp1. solve_Permutation. }
    { apply List.Forall_forall. intros x Hx%list_elem_of_In. destruct (Hk x y0 Hx Hy0) as (Ku & Kf & Kk). done. }
    assert (Hlen : (length A <= length w)%nat) by (rewrite Hp, length_app; lia).
    rewrite undo_rearrange_eq, Eu by (subst; done). cbn [res_bind]. rewrite Er, delta_byte_eq. do 2 eexists. split; [done|].
    split_and!; [done|by rewrite Hp2, Hp1|]. intros rest. cbn [restore_change].
    rewrite <- !app_assoc, !read_size_rt, !Nat2Z.id by (unfold MAX_SIZE; lia). unfold rp_bind. rewrite Hrm, HeqA. apply Hrs.
  - destruct Hok as (HR & HA & Hk & Hu). destruct A as [|y0 A']; [done|]. destruct R as [|x0 R']; [done|].
    remember (y0 :: A') as A. remember (x0 :: R') as R. assert (Hy0 : y0 ∈ A) by (subst; left). assert (Hx0 : x0 ∈ R) by (subst; left).
    destruct (undo_remove_mirror A w base Hw Hp) as (bs & w1 & Eu & Hw1 & Hp1 & Hrm); [unfold MAX_SIZE; lia|].
    destruct (undo_restore_mirror true R w1 (mkSItem (blockNumber y0) (transactionIndex y0) (transactionOutputIndex y0)
                (si_lockUntilBlock x0) (si_lockFromBlock y0) (witnessPubKeyID y0) (si_nValue y0)) Hw1)
      as (bs' & w2 & Er & Hw2 & Hp2 & Hrs); [|done|..].
    { apply (places_part _ _ A Hnd). rewrite Hp1. solve_Permutation. }
    { apply List.Forall_forall. intros x Hx%list_elem_of_In. unfold same_lock. cbn. rewrite (Hk x y0 Hx Hy0). split_and!; [by apply Hu|done..]. }
    assert (Hlen : (length A <= length w)%nat) by (rewrite Hp, length_app; lia).
    assert (Hfx : 0 <= si_lockUntilBlock x0 < 2 ^ 64) by (rewrite HeqR in Hfit; apply Forall_inv in Hfit; apply Hfit).
    rewrite (undo_increase_eq A R x0), Eu by (subst; done). cbn [res_bind]. rewrite Er, delta_byte_eq. do 2 eexists. split; [done|].
    split_and!; [done|by rewrite Hp2, Hp1|]. intros rest. cbn [restore_change].
    rewrite <- !app_assoc, !read_size_rt, read_varint_rt, !Nat2Z.id by (unfold MAX_SIZE; lia).
    unfold rp_bind. rewrite Hrm, HeqA. apply Hrs.
  - destruct Hok as (HR & Hre & Hk). destruct R as [|x0 R']; [done|]. destruct A as [|y0 A']; [by inversion Hre|].
    pose proof (Forall2_length _ _ _ Hre) as Hlen.
    remember (y0 :: A') as A. remember (x0 :: R') as R. assert (Hx0 : x0 ∈ R) by (subst; left).
    destruct (undo_keys_mirror (witnessPubKeyID x0) R A w base Hw Hp Hnd) as (bs & w1 & Eu & Hw1 & Hp1 & Hrs); [unfold MAX_SIZE; lia|done|done|..].
    { apply List.Forall_forall. intros x Hx%list_elem_of_In. by apply Hk. }
    assert (Hfx : length (witnessPubKeyID x0) = 20%nat) by (rewrite HeqR in Hfit; apply Forall_inv in Hfit; apply Hfit).
    rewrite (undo_keys_eq A R x0), Eu by (subst; done). cbn [res_bind]. rewrite delta_byte_eq. do 2 eexists. split; [done|].
    split_and!; [done..|]. intros rest. cbn [restore_change].
    rewrite <- !app_assoc, read_size_rt, read_key_rt, !Nat2Z.id by (done || unfold MAX_SIZE; lia). apply Hrs.
  - done.
Qed.

Definition all_removed (ds : list deltaItem) : witness_set := concat (map removedItems ds).
Definition all_added (ds : list deltaItem) : witness_set := concat (map addedItems ds).

Lemma change_of_code_inv c : c <> changeTypeWitnessAction -> change_of_code (change_code c) = Some c.
Proof. by destruct c. Qed.

Lemma undo_loop_mirror ds w base : Forall delta_ok ds -> Forall item_fits (all_removed ds) -> ordered w ->
  w ≡ₚ all_added ds ++ base -> NoDup (place <$> all_added ds ++ all_removed ds ++ base) ->
  Z.of_nat (length w + length (all_removed ds)) <= MAX_SIZE ->
  exists bs w', undo_loop ds w = Ok (bs, w') /\ ordered w' /\ w' ≡ₚ all_removed ds ++ base /\
    forall fuel, (length bs <= fuel)%nat -> restore_loop fuel (bs, w) = Ok (tt, ([], w')).
Proof.
  revert w base. induction ds as [|d ds IH]; intros w base Hok Hfit Hw Hp Hnd Hl.
  { exists [], w. split_and!; try done. by intros [|]. }
  apply Forall_cons_iff in Hok as [Hd Hok]. cbn [all_removed all_added map concat] in *.
  change (concat (map removedItems ds)) with (all_removed ds) in *. change (concat (map addedItems ds)) with (all_added ds) in *.
  apply Forall_app in Hfit as [Hfd Hfit]. rewrite length_app in Hl.
  destruct (undo_change_mirror d w (all_added ds ++ base) Hd Hfd Hw) as (bs & w1 & Ec & Hw1 & Hp1 & Hr); [| |lia|].
  { by rewrite Hp, app_assoc. }
  { apply (places_part _ _ (all_removed ds) Hnd). solve_Permutation. }
  destruct (IH w1 (removedItems d ++ base) Hok Hfit Hw1) as (bs' & w2 & El & Hw2 & Hp2 & Hrl).
  { rewrite Hp1. solve_Permutation. }
  { apply (places_part _ _ (addedItems d) Hnd). solve_Permutation. }
  { rewrite Hp1, length_app. rewrite Hp, !length_app in Hl. rewrite length_app. lia. }
  exists (change_code (changeType d) :: bs ++ bs'), w2. cbn [undo_loop]. rewrite Ec. cbn [res_bind]. rewrite El. cbn [res_bind].
  split_and!; [done|done|rewrite Hp2; solve_Permutation|]. intros [|fuel] Hf; cbn [length] in Hf; [lia|].
  cbn [restore_loop fst snd]. rewrite change_of_code_inv by (intros E; destruct d; cbn in *; by subst).
  unfold rp_bind. rewrite Hr. apply Hrl. rewrite length_app in Hf. lia.
Qed.

End Mirror.

Section Replayed.
Context `{FSL : FlatSetLaws}.
Variable h : Z.

(** ** Lemmas: what a replay does to the set *)

(** From [s], the items [R] were removed and the items [A], all of this block, added. *)
Definition evolves (s w R A : witness_set) : Prop :=
  ordered w /\ Forall (fun y => blockNumber y = h) A /\ exists base, s ≡ₚ R ++ base /\ w ≡ₚ A ++ base.

Definition old (x : SimplifiedWitnessRouletteItem) : Prop := blockNumber x < h.

Lemma evolves_take s w w' R A x : evolves s w R A -> ordered w' -> w ≡ₚ x :: w' -> old x -> evolves s w' (R ++ [x]) A.
Proof.
  intros (Hw & HA & base & Hs & Hb) Hw' Hx Ho. split; [done|split; [done|]].
  assert (Hin : x ∈ A ++ base) by (rewrite <- Hb, Hx; left). apply elem_of_app in Hin as [Hin|Hin].
  - rewrite List.Forall_forall in HA. apply list_elem_of_In, HA in Hin. unfold old in Ho. lia.
  - apply elem_of_Permutation in Hin as [base' Hin]. exists base'. split; [rewrite Hs, Hin; solve_Permutation|].
    apply (Permutation_cons_inv (a := x)). rewrite <- Hx, Hb, Hin. solve_Permutation.
Qed.

Lemma evolves_put s w w' R A y : evolves s w R A -> ordered w' -> w' ≡ₚ y :: w -> blockNumber y = h -> evolves s w' R (A ++ [y]).
Proof.
  intros (Hw & HA & base & Hs & Hb) Hw' Hy Hh. split; [done|split; [apply Forall_app; split; [done|by constructor]|]].
  exists base. split; [done|]. rewrite Hy, Hb. solve_Permutation.
Qed.

(** Invert one step of a replay; a read leaves the set alone. *)
Ltac rp_step H a E :=
  let st := fresh "st" in let w := fresh "w" in
  apply rp_bind_Ok in H as (a & [st w] & E & H).
Ltac rp_read_step H a :=
  let E := fresh "E" in rp_step H a E; apply rp_read_Ok in E as [_ E]; cbn [snd] in E; subst.

Lemma take_step i x st w st1 w1 (u : unit) st2 w2 s R A : evolves s w R A -> rp_nth i (st, w) = Ok (x, (st1, w1)) ->
  rp_erase i (st1, w1) = Ok (u, (st2, w2)) -> old x -> evolves s w2 (R ++ [x]) A.
Proof.
  intros He En Ee Ho. destruct (rp_take_Ok i x (st, w) (st1, w1) u (st2, w2) (proj1 He) En Ee) as (_ & _ & Hw & Hp). by apply (evolves_take s w w2 R A x).
Qed.

Lemma take_later_step i x st w st1 w1 st1' (u : unit) st2 w2 s R A : evolves s w R A -> rp_nth i (st, w) = Ok (x, (st1, w1)) ->
  rp_erase i (st1', w1) = Ok (u, (st2, w2)) -> old x -> evolves s w2 (R ++ [x]) A.
Proof.
  intros He En Ee Ho. apply (take_step i x st w st1 w1 u st1 w2 s R A He En); [|done].
  unfold rp_erase in *. cbn [fst snd] in *. by injection Ee as -> _ <-.
Qed.

Lemma nth_same i x st w st1 w1 : rp_nth i (st, w) = Ok (x, (st1, w1)) -> w1 = w.
Proof. unfold rp_nth. destruct (snd (st, w) !! Z.to_nat i); [|done]. by intros [= _ _ <-]. Qed.

Lemma put_step y st w (u : unit) st1 w1 s R A : evolves s w R A -> rp_insert y (st, w) = Ok (u, (st1, w1)) ->
  blockNumber y = h -> evolves s w1 R (A ++ [y]).
Proof.
  intros He Ei Hh. destruct (rp_insert_Ok y (st, w) u (st1, w1) (proj1 He) Ei) as (_ & Hw & Hp). by apply (evolves_put s w w1 R A y).
Qed.

Lemma rp_remove_evolves n st w xs st' w' s R A : rp_remove n (st, w) = Ok (xs, (st', w')) -> Forall old xs ->
  evolves s w R A -> evolves s w' (R ++ xs) A.
Proof.
  revert st w xs R. induction n as [|n IH]; intros st w xs R Hr Ho He; cbn [rp_remove] in Hr.
  { injection Hr as <- _ <-. by rewrite app_nil_r. }
  rp_read_step Hr i. rp_step Hr x En. rp_step Hr u Ee. rp_step Hr xs' Er. injection Hr as <- <- <-.
  apply Forall_cons_iff in Ho as [Ho Hos]. replace (R ++ x :: xs') with ((R ++ [x]) ++ xs') by by rewrite <- app_assoc.
  apply (IH _ _ _ _ Er Hos). by apply (take_step i x _ _ _ _ u _ _ s R A He En Ee).
Qed.

Lemma apply_outputs_evolves n it st w ys st' w' s R A : apply_outputs n h it (st, w) = Ok (ys, (st', w')) ->
  evolves s w R A -> evolves s w' R (A ++ ys) /\ Forall (kept it) ys.
Proof.
  revert it st w ys A. induction n as [|n IH]; intros it st w ys A Hr He; cbn [apply_outputs] in Hr.
  { injection Hr as <- _ <-. by rewrite app_nil_r. }
  rp_read_step Hr t. rp_read_step Hr o. rp_read_step Hr v. rp_step Hr u Ei. rp_step Hr ys' Er. injection Hr as <- <- <-.
  set (y := mkSItem h t o _ _ _ v) in *. replace (A ++ y :: ys') with ((A ++ [y]) ++ ys') by by rewrite <- app_assoc.
  destruct (IH _ _ _ _ (A ++ [y]) Er) as [He' Hk]; [by apply (put_step _ _ _ _ _ _ _ _ _ He Ei)|].
  split; [done|]. constructor; [done|]. eapply Forall_impl; [exact Hk|]. intros z (Z1 & Z2 & Z3). by split_and!.
Qed.

Lemma apply_keys_evolves n key st w xs ys st' w' s R A : apply_keys n h key (st, w) = Ok ((xs, ys), (st', w')) ->
  Forall old xs -> evolves s w R A -> evolves s w' (R ++ xs) (A ++ ys) /\ Forall2 rekeyed xs ys.
Proof.
  revert st w xs ys R A. induction n as [|n IH]; intros st w xs ys R A Hr Ho He; cbn [apply_keys] in Hr.
  { injection Hr as <- <- _ <-. rewrite !app_nil_r. by split. }
  rp_read_step Hr i. rp_step Hr x En. rp_read_step Hr t. rp_read_step Hr o. rp_step Hr u Ee. rp_step Hr u' Ei.
  rp_step Hr p Er. destruct p as [xs' ys']. injection Hr as <- <- <- <-. apply Forall_cons_iff in Ho as [Ho Hos].
  pose proof (take_later_step _ _ _ _ _ _ _ _ _ _ _ _ _ He En Ee Ho) as He1.
  set (y := mkSItem h t o _ _ key _) in *. assert (He2 : evolves s w2 (R ++ [x]) (A ++ [y])) by by apply (put_step _ _ _ _ _ _ _ _ _ He1 Ei).
  replace (A ++ y :: ys') with ((A ++ [y]) ++ ys') by by rewrite <- app_assoc.
  replace (R ++ x :: xs') with ((R ++ [x]) ++ xs') by by rewrite <- app_assoc.
  destruct (IH _ _ _ _ _ _ Er Hos He2) as [He' Hk]. split; [done|]. by constructor.
Qed.

(** What the replay says about one change. *)
Definition delta_shape (d : deltaItem) : Prop :=
  let R := removedItems d in let A := addedItems d in
  match changeType d with
  | changeTypeWitnessAction => False
  | changeTypeRearrange => R = [] \/ exists it, it ∈ R /\ Forall (kept it) A
  | changeTypeIncrease => R = [] \/ exists it, it ∈ R /\ Forall (fun y => witnessPubKeyID y = witnessPubKeyID it) A
  | changeTypeChangeKey => Forall2 rekeyed R A
  | _ => delta_ok d
  end.

Lemma last_elem_of (l : witness_set) x : list.last l = Some x -> x ∈ l.
Proof. intros Hl. apply last_Some in Hl as [l' ->]. apply elem_of_app. right. left. Qed.


Lemma all_removed_1 c R A : all_removed [mkDelta c R A] = R.
Proof. unfold all_removed. cbn. by rewrite app_nil_r. Qed.
Lemma all_added_1 c R A : all_added [mkDelta c R A] = A.
Proof. unfold all_added. cbn. by rewrite app_nil_r. Qed.
Lemma all_removed_app l k : all_removed (l ++ k) = all_removed l ++ all_removed k.
Proof. unfold all_removed. by rewrite map_app, concat_app. Qed.
Lemma all_added_app l k : all_added (l ++ k) = all_added l ++ all_added k.
Proof. unfold all_added. by rewrite map_app, concat_app. Qed.

Lemma apply_change_evolves c st w ds st' w' s R A : apply_change h c (st, w) = Ok (ds, (st', w')) ->
  Forall old (all_removed ds) -> evolves s w R A ->
  evolves s w' (R ++ all_removed ds) (A ++ all_added ds) /\ Forall delta_shape ds.
Proof.
  intros Hr Ho He. destruct c; cbn [apply_change] in Hr.
  - rp_read_step Hr t. rp_read_step Hr o. rp_read_step Hr v. rp_read_step Hr u. rp_read_step Hr k. rp_step Hr u' Ei.
    injection Hr as <- _ <-. rewrite all_removed_1, all_added_1, app_nil_r.
    split; [by apply (put_step _ _ _ _ _ _ _ _ _ He Ei)|]. constructor; [|done]. cbn. split; [done|by eexists].
  - rp_read_step Hr i. rp_step Hr x En. rp_step Hr u Ee. injection Hr as <- _ <-. rewrite all_removed_1 in *. rewrite all_added_1, app_nil_r.
    apply Forall_inv in Ho. split; [by apply (take_step i x _ _ _ _ u _ _ s R A He En Ee)|]. constructor; [|done]. cbn. split; [done|by eexists].
  - rp_read_step Hr i. rp_step Hr x En. rp_read_step Hr t. rp_read_step Hr o. rp_step Hr u Ee. rp_step Hr u' Ei.
    injection Hr as <- _ <-. rewrite all_removed_1 in *. rewrite all_added_1. apply Forall_inv in Ho.
    pose proof (take_later_step _ _ _ _ _ _ _ _ _ _ _ _ _ He En Ee Ho) as He1.
    split; [by apply (put_step _ _ _ _ _ _ _ _ _ He1 Ei)|]. constructor; [|done]. cbn. do 2 eexists. by split_and!.
  - rp_read_step Hr ni. rp_read_step Hr no. rp_step Hr xs Er. destruct (list.last xs) as [it|] eqn:El.
    + rp_step Hr ys Eo. injection Hr as <- _ <-. rewrite all_removed_1 in *. rewrite all_added_1.
      pose proof (rp_remove_evolves _ _ _ _ _ _ _ _ _ Er Ho He) as He1.
      destruct (apply_outputs_evolves _ _ _ _ _ _ _ _ _ _ Eo He1) as [He2 Hk]. split; [done|]. constructor; [|done].
      right. exists it. split; [by apply last_elem_of|done].
    + apply last_None in El as ->. destruct (no =? 0); [|done]. injection Hr as <- _ <-. rewrite all_removed_1, all_added_1.
      pose proof (rp_remove_evolves _ _ _ _ _ _ _ _ _ Er ltac:(constructor) He) as He1. rewrite !app_nil_r in *.
      split; [done|]. constructor; [by left|done].
  - rp_read_step Hr ni. rp_read_step Hr no. rp_read_step Hr u. rp_step Hr xs Er. rp_step Hr ys Eo. injection Hr as <- _ <-.
    rewrite all_removed_1 in *. rewrite all_added_1.
    pose proof (rp_remove_evolves _ _ _ _ _ _ _ _ _ Er Ho He) as He1.
    destruct (apply_outputs_evolves _ _ _ _ _ _ _ _ _ _ Eo He1) as [He2 Hk]. split; [done|]. constructor; [|done].
    destruct (list.last xs) as [it|] eqn:El; [|apply last_None in El as ->; by left].
    right. exists it. split; [by apply last_elem_of|]. eapply Forall_impl; [exact Hk|]. by intros y (_ & _ & ->).
  - rp_read_step Hr n. rp_read_step Hr k. rp_step Hr p Ek. destruct p as [xs ys]. injection Hr as <- _ <-.
    rewrite all_removed_1 in *. rewrite all_added_1.
    destruct (apply_keys_evolves _ _ _ _ _ _ _ _ _ _ _ Ek Ho He) as [He1 Hk]. split; [done|]. by constructor.
  - injection Hr as <- _ <-. cbn. rewrite !app_nil_r. by split.
Qed.

Lemma apply_loop_evolves fuel st w ds st' w' s R A : apply_loop fuel h (st, w) = Ok (ds, (st', w')) ->
  Forall old (all_removed ds) -> evolves s w R A ->
  evolves s w' (R ++ all_removed ds) (A ++ all_added ds) /\ Forall delta_shape ds.
Proof.
  revert st w ds R A. induction fuel as [|fuel IH]; intros [|b rest] w ds R A Hr Ho He; cbn [apply_loop fst snd] in Hr; try done;
    try (injection Hr as <- _ <-; cbn; rewrite !app_nil_r; by split).
  rp_step Hr d1 E1. rp_step Hr d2 E2. injection Hr as <- <- <-.
  rewrite all_removed_app in *. rewrite all_added_app, !app_assoc. apply Forall_app in Ho as [Ho1 Ho2].
  assert (H1 : evolves s w0 (R ++ all_removed d1) (A ++ all_added d1) /\ Forall delta_shape d1).
  { destruct (change_of_code b) as [c|]; [by apply (apply_change_evolves c _ _ _ _ _ _ _ _ E1)|].
    injection E1 as <- _ <-. cbn. rewrite !app_nil_r. by split. }
  destruct H1 as [He1 Hd1]. destruct (IH _ _ _ _ _ E2 Ho2 He1) as [He2 Hd2]. split; [done|]. by apply Forall_app.
Qed.

Lemma witness_action_evolves st w d st' w' s R A : apply_witness_action h (st, w) = Ok (d, (st', w')) ->
  Forall old (removedItems d) -> evolves s w R A -> evolves s w' (R ++ removedItems d) (A ++ addedItems d) /\ witness_ok d.
Proof.
  intros Hr Ho He. unfold apply_witness_action in Hr. rp_read_step Hr i. rp_step Hr x En. rp_read_step Hr v. rp_read_step Hr t.
  rp_step Hr u Ee. rp_step Hr u' Ei. injection Hr as <- _ <-. cbn [removedItems addedItems] in *. apply Forall_inv in Ho.
  pose proof (take_later_step _ _ _ _ _ _ _ _ _ _ _ _ _ He En Ee Ho) as He1.
  split; [by apply (put_step _ _ _ _ _ _ _ _ _ He1 Ei)|]. split; [done|]. do 2 eexists. by split_and!.
Qed.

(** Changes whose undo data loses nothing: a rearrangement, increase or change of
    key has inputs and outputs, and its inputs agree on what the undo data holds once. *)
Definition regular (d : deltaItem) : Prop :=
  let R := removedItems d in
  match changeType d with
  | changeTypeRearrange => R <> [] /\ addedItems d <> [] /\ forall x x', x ∈ R -> x' ∈ R -> kept x x'
  | changeTypeIncrease =>
      R <> [] /\ addedItems d <> [] /\
      forall x x', x ∈ R -> x' ∈ R -> witnessPubKeyID x' = witnessPubKeyID x /\ si_lockUntilBlock x' = si_lockUntilBlock x
  | changeTypeChangeKey => R <> [] /\ forall x x', x ∈ R -> x' ∈ R -> witnessPubKeyID x' = witnessPubKeyID x
  | _ => True
  end.

Lemma delta_shape_ok d : delta_shape d -> regular d -> delta_ok d.
Proof.
  destruct d as [c R A]. unfold delta_shape, regular, delta_ok. destruct c; cbn; try done.
  - intros Hs (HR & HA & Hu). destruct Hs as [|(it & Hit & Hk)]; [done|]. split_and!; [done..|].
    intros x y Hx Hy. rewrite List.Forall_forall in Hk. destruct (Hk y ltac:(by apply list_elem_of_In)) as (E1 & E2 & E3).
    destruct (Hu x it Hx Hit) as (E4 & E5 & E6). split_and!; congruence.
  - intros Hs (HR & HA & Hu). destruct Hs as [|(it & Hit & Hk)]; [done|]. split_and!; [done..| |].
    + intros x y Hx Hy. rewrite List.Forall_forall in Hk. rewrite (Hk y ltac:(by apply list_elem_of_In)). by apply Hu.
    + intros x x' Hx Hx'. by apply Hu.
  - intros Hs [HR Hu]. by split_and!.
Qed.

Lemma evolves_refl s : ordered s -> evolves s s [] [].
Proof. intros Hs. split_and!; [done|done|]. by exists s. Qed.

(** Nothing removed before and added now sits at one place. *)
Lemma evolves_places s w R A base : ordered s -> ordered w -> Forall old s -> Forall (fun y => blockNumber y = h) A ->
  s ≡ₚ R ++ base -> w ≡ₚ A ++ base -> NoDup (place <$> A ++ R ++ base).
Proof.
  intros Hs Hw Ho HA Hsp Hwp. pose proof (ordered_NoDup s Hs) as Ns. pose proof (ordered_NoDup w Hw) as Nw.
  rewrite Hsp in Ns. rewrite fmap_app. apply NoDup_app. split_and!; [by apply (places_part _ _ base Nw)| |done].
  intros q (y & -> & Hy)%list_elem_of_fmap (x & E & Hx)%list_elem_of_fmap. rewrite <- Hsp in Hx.
  rewrite List.Forall_forall in Ho, HA. apply list_elem_of_In, HA in Hy. apply list_elem_of_In, Ho in Hx.
  injection E as E _ _. unfold old in Hx. lia.
Qed.

Lemma undo_generated s w d ds : ordered s -> Forall item_fits s -> Forall old s ->
  Z.of_nat (length s + length w) <= MAX_SIZE ->
  evolves s w (removedItems d ++ all_removed ds) (addedItems d ++ all_added ds) -> witness_ok d -> Forall delta_ok ds ->
  exists u s1, GenerateSimplifiedWitnessUTXODeltaUndoForHeader (d :: ds) w = Ok (u, s1) /\
    UndoSimplifiedWitnessUTXODeltaForHeader w u = Ok s.
Proof.
  intros Hs Hfit Ho Hl (Hw & HA & base & Hsp & Hwp) Hd Hds.
  pose proof (evolves_places s w _ _ base Hs Hw Ho HA Hsp Hwp) as Hnd.
  rewrite Hsp in Hfit. rewrite !Forall_app in Hfit. destruct Hfit as [[Hfd Hfds] _].
  assert (Hls : (length (all_removed ds) <= length s)%nat) by (rewrite Hsp, !length_app; lia).
  destruct (undo_witness_mirror d w (all_added ds ++ base) Hd Hfd Hw) as (bs & w1 & E1 & Hw1 & Hp1 & Hr1); [| |lia|].
  { by rewrite Hwp, app_assoc. }
  { apply (places_part _ _ (all_removed ds) Hnd). solve_Permutation. }
  destruct (undo_loop_mirror ds w1 (removedItems d ++ base) Hds Hfds Hw1) as (bs' & w2 & E2 & Hw2 & Hp2 & Hr2).
  { rewrite Hp1. solve_Permutation. }
  { apply (places_part _ _ (addedItems d) Hnd). solve_Permutation. }
  { rewrite Hp1, !length_app. rewrite Hsp, Hwp, !length_app in Hl. lia. }
  exists (bs ++ bs'), w2. cbn [GenerateSimplifiedWitnessUTXODeltaUndoForHeader]. rewrite E1. cbn [res_bind]. rewrite E2. split; [done|].
  assert (w2 = s) as -> by (apply ordered_eq; [done..|]; rewrite Hp2, Hsp; solve_Permutation).
  unfold UndoSimplifiedWitnessUTXODeltaForHeader, rp_bind. rewrite Hr1, Hr2; [done|]. rewrite length_app. lia.
Qed.

Lemma replay_header_evolves s delta ds s' : replay_header h delta s = Ok (ds, s') -> ordered s -> Forall old (all_removed ds) ->
  exists d ds', ds = d :: ds' /\ witness_ok d /\ Forall delta_shape ds' /\
    evolves s s' (removedItems d ++ all_removed ds') (addedItems d ++ all_added ds').
Proof.
  intros Hr Hs Ho. unfold replay_header in Hr. case_bool_decide; [done|].
  match type of Hr with match ?m with _ => _ end = _ => destruct m as [[r [st w]]|] eqn:E; [|done] end.
  injection Hr as <- <-. rp_step E d E1. rp_step E ds' E2. injection E as <- _ <-.
  cbn [all_removed map concat] in Ho. apply Forall_app in Ho as [Ho1 Ho2].
  destruct (witness_action_evolves _ _ _ _ _ _ _ _ E1 Ho1 (evolves_refl s Hs)) as [He Hd].
  destruct (apply_loop_evolves _ _ _ _ _ _ _ _ _ E2 Ho2 He) as [He' Hds]. exists d, ds'. by split_and!.
Qed.

End Replayed.

(** ** Lemmas: reading never lengthens the stream *)

Definition shrinks {A} (r : reader A) : Prop := forall s a s', r s = Some (a, s') -> (length s' <= length s)%nat.

Lemma shrinks_bind {A B} (r : reader A) (k : A -> reader B) : shrinks r -> (forall a, shrinks (k a)) -> shrinks (rd_bind r k).
Proof.
  intros Hr Hk s b s'. unfold rd_bind. destruct (r s) as [[a s1]|] eqn:E; [|done]. intros Hb.
  apply Hr in E. apply Hk in Hb. lia.
Qed.
Lemma shrinks_ret {A} (a : A) : shrinks (rd_ret a).
Proof. by intros s b s' [= _ ->]. Qed.
Lemma shrinks_fail {A} : shrinks (@rd_fail A).
Proof. done. Qed.
Lemma shrinks_if {A} (c : bool) (r r' : reader A) : shrinks r -> shrinks r' -> shrinks (if c then r else r').
Proof. by destruct c. Qed.
Lemma shrinks_bytes n : shrinks (rd_bytes n).
Proof.
  induction n as [|n IH]; [apply shrinks_ret|]. intros [|b s] a s'; cbn [rd_bytes]; [done|].
  intros E. apply (shrinks_bind _ _ IH (fun l => shrinks_ret (b :: l))) in E. cbn. lia.
Qed.
Lemma shrinks_varint_loop fuel maxI n : shrinks (ReadVarInt_loop fuel maxI n).
Proof.
  revert n. induction fuel as [|fuel IH]; intros n; cbn [ReadVarInt_loop]; [apply shrinks_fail|].
  apply shrinks_bind; [apply shrinks_bind; [apply shrinks_bytes|intros; apply shrinks_ret]|]. intros c.
  repeat (apply shrinks_if || apply shrinks_fail || apply shrinks_ret || apply IH).
Qed.
Lemma shrinks_varint maxI : shrinks (ReadVarInt maxI).
Proof. intros s a s'. unfold ReadVarInt. apply shrinks_varint_loop. Qed.

#[export] Hint Resolve shrinks_bytes shrinks_varint shrinks_fail shrinks_ret : munt.

Lemma shrinks_size rc : shrinks (ReadCompactSize rc).
Proof.
  unfold ReadCompactSize, ser_readdata8, ser_readdata16, ser_readdata32, ser_readdata64.
  repeat match goal with
         | |- shrinks (rd_bind _ _) => apply shrinks_bind; [|intros ?]
         | |- shrinks (if _ then _ else _) => apply shrinks_if
         end; auto with munt.
Qed.
Lemma shrinks_amount : shrinks CAmountCompressor_Unserialize.
Proof. apply shrinks_bind; auto with munt. Qed.

(** A replay step that does not run out of fuel and reads forwards. *)
Definition tame {A} (m : replay A) : Prop :=
  forall s, match m s with
            | Ok (_, s') => (length (fst s') <= length (fst s))%nat
            | Err e => e <> out_of_fuel
            end.

Lemma tame_ret {A} (a : A) : tame (rp_ret a).
Proof. intros s. cbn. lia. Qed.
Lemma tame_fail {A} e : e <> out_of_fuel -> tame (@rp_fail A e).
Proof. by intros He s. Qed.
Lemma tame_bind {A B} (m : replay A) (f : A -> replay B) : tame m -> (forall a, tame (f a)) -> tame (rp_bind m f).
Proof.
  intros Hm Hf s. unfold rp_bind. specialize (Hm s). destruct (m s) as [[a s1]|e]; [|done].
  specialize (Hf a s1). destruct (f a s1) as [[b s2]|e]; [lia|done].
Qed.
Lemma tame_read {A} (r : reader A) : shrinks r -> tame (rp_read r).
Proof. intros Hr s. unfold rp_read. destruct (r (fst s)) as [[a s1]|] eqn:E; [|done]. by apply Hr in E. Qed.

#[export] Hint Resolve tame_ret tame_read shrinks_size shrinks_amount : munt.

Section Terminates.
Context `{FlatSet}.

Lemma tame_nth i : tame (rp_nth i).
Proof. intros s. unfold rp_nth. destruct (snd s !! Z.to_nat i); cbn; [lia|done]. Qed.
Lemma tame_erase i : tame (rp_erase i).
Proof. intros s. cbn. lia. Qed.
Lemma tame_insert x : tame (rp_insert x).
Proof. intros s. unfold rp_insert. destruct (fs_insert (snd s) x) as [w [|]]; cbn; [lia|done]. Qed.
Lemma tame_index : tame read_index.
Proof. apply tame_read, shrinks_bind; auto with munt. Qed.
Lemma tame_key : tame read_key.
Proof. apply tame_read. unfold CFlatData_Unserialize. auto with munt. Qed.
Lemma tame_varint : tame read_varint.
Proof. unfold read_varint. auto with munt. Qed.
Lemma tame_size : tame read_size.
Proof. unfold read_size. auto with munt. Qed.
Lemma tame_amount : tame read_amount.
Proof. unfold read_amount. auto with munt. Qed.

Hint Resolve tame_nth tame_erase tame_insert tame_index tame_key tame_varint tame_size tame_amount : munt.

(** Decompose a straight-line replay. *)
Ltac tame_steps :=
  repeat (match goal with
          | |- tame (rp_bind _ _) => apply tame_bind; [|intros ?]
          | |- tame (rp_fail _) => by apply tame_fail
          | |- tame (match ?x with _ => _ end) => destruct x
          | |- tame (let _ := _ in _) => cbv zeta
          end); auto with munt.

Lemma tame_remove n : tame (rp_remove n).
Proof. induction n; cbn [rp_remove]; tame_steps. Qed.
Lemma tame_outputs n h it : tame (apply_outputs n h it).
Proof. revert it. induction n; intros it; cbn [apply_outputs]; tame_steps. Qed.
Lemma tame_apply_keys n h k : tame (apply_keys n h k).
Proof. induction n; cbn [apply_keys]; tame_steps. Qed.
Lemma tame_restore_items n lock it : tame (restore_items n lock it).
Proof. revert it. induction n; intros it; cbn [restore_items]; tame_steps. Qed.
Lemma tame_restore_keys n k : tame (restore_keys n k).
Proof. induction n; cbn [restore_keys]; tame_steps. Qed.

Hint Resolve tame_remove tame_outputs tame_apply_keys tame_restore_items tame_restore_keys : munt.

Lemma tame_apply_change h c : tame (apply_change h c).
Proof. destruct c; cbn [apply_change]; tame_steps. Qed.
Lemma tame_restore_change c : tame (restore_change c).
Proof. destruct c; cbn [restore_change]; tame_steps. Qed.
Lemma tame_apply_witness h : tame (apply_witness_action h).
Proof. unfold apply_witness_action. tame_steps. Qed.
Lemma tame_restore_witness : tame restore_witness_action.
Proof. unfold restore_witness_action. tame_steps. Qed.

Lemma apply_loop_fuel h fuel s : (length (fst s) <= fuel)%nat -> apply_loop fuel h s <> Err out_of_fuel.
Proof.
  revert s. induction fuel as [|fuel IH]; intros [[|b rest] w] Hf; cbn [apply_loop fst snd length] in *; try done; try lia.
  set (m := match change_of_code b with Some c => _ | None => _ end).
  assert (Hm : tame m) by (unfold m; destruct (change_of_code b); [apply tame_apply_change|apply tame_ret]).
  unfold rp_bind. specialize (Hm (rest, w)). destruct (m (rest, w)) as [[ds s1]|e]; [|congruence]. cbn [fst] in Hm.
  specialize (IH s1 ltac:(lia)). destruct (apply_loop fuel h s1) as [[ds' s2]|e]; [done|congruence].
Qed.

Lemma restore_loop_fuel fuel s : (length (fst s) <= fuel)%nat -> restore_loop fuel s <> Err out_of_fuel.
Proof.
  revert s. induction fuel as [|fuel IH]; intros [[|b rest] w] Hf; cbn [restore_loop fst snd length] in *; try done; try lia.
  set (m := match change_of_code b with Some c => _ | None => _ end).
  assert (Hm : tame m) by (unfold m; destruct (change_of_code b); [apply tame_restore_change|apply tame_ret]).
  unfold rp_bind. specialize (Hm (rest, w)). destruct (m (rest, w)) as [[ds s1]|e]; [|congruence]. cbn [fst] in Hm.
  apply IH. lia.
Qed.

Lemma undo_remove_fuel xs w : undo_remove xs w <> Err out_of_fuel.
Proof.
  revert w. induction xs as [|x xs IH]; intros w; cbn [undo_remove]; [done|]. unfold find_erase.
  destruct (fs_find w x) as [i|]; cbn [res_bind]; [|done]. specialize (IH (fs_erase w i)).
  destruct (undo_remove xs (fs_erase w i)) as [[bs w']|e]; [done|]. cbn. congruence.
Qed.
Lemma undo_keys_fuel ys xs w : undo_keys ys xs w <> Err out_of_fuel.
Proof.
  revert xs w. induction ys as [|y ys IH]; intros [|x xs] w; cbn [undo_keys]; try done. unfold find_erase.
  destruct (fs_find w y) as [i|]; cbn [res_bind]; [|done]. destruct (fs_insert (fs_erase w i) x) as [w' [|]]; [|done].
  specialize (IH xs w'). destruct (undo_keys ys xs w') as [[bs w'']|e]; [done|]. cbn. congruence.
Qed.
Lemma undo_change_fuel d w : undo_change d w <> Err out_of_fuel.
Proof.
  pose proof (undo_remove_fuel (addedItems d) w) as Hr. pose proof (undo_keys_fuel (addedItems d) (removedItems d) w) as Hk.
  unfold undo_change. destruct (changeType d); try done; destruct (addedItems d) as [|y ys]; try done;
    destruct (removedItems d) as [|x xs]; try done; try (destruct ys; try done); try (destruct xs; try done);
    unfold find_erase; try (destruct (fs_find w y); done);
    try (destruct (undo_remove _ w) as [[bs w']|e]; [cbn [res_bind]; destruct (undo_restore _ _ w'); done|cbn; congruence]);
    (destruct (Nat.eqb _ _); [|done]; destruct (undo_keys _ _ w) as [[bs w']|e]; [done|cbn; congruence]).
Qed.

Lemma undo_generated_fuel ds w : GenerateSimplifiedWitnessUTXODeltaUndoForHeader ds w <> Err out_of_fuel.
Proof.
  destruct ds as [|d ds]; [done|]. cbn [GenerateSimplifiedWitnessUTXODeltaUndoForHeader].
  assert (Hl : forall w, undo_loop ds w <> Err out_of_fuel).
  { induction ds as [|d' ds IH]; intros w'; cbn [undo_loop]; [done|]. pose proof (undo_change_fuel d' w').
    destruct (undo_change d' w') as [[bs w1]|e]; cbn [res_bind]; [|congruence]. specialize (IH w1).
    destruct (undo_loop ds w1) as [[bs' w2]|e]; cbn; congruence. }
  destruct (undo_witness_action d w) as [[bs w1]|e] eqn:E; cbn [res_bind].
  - specialize (Hl w1). destruct (undo_loop ds w1) as [[bs' w2]|e]; cbn; congruence.
  - unfold undo_witness_action, find_erase in E. destruct (addedItems d) as [|y [|? ?]], (removedItems d) as [|x [|? ?]], (changeType d);
      try congruence. destruct (fs_find w y); cbn in E; congruence.
Qed.

End Terminates.

(** ** Properties *)

(** applying the changes of a header to a witness set and applying undo data
    both end, whatever bytes were received and however the set is implemented. *)
Theorem header_replay_terminates (F : FlatSet) h delta undoBytes w :
  ApplySimplifiedWitnessUTXODeltaForHeader h delta w <> Err out_of_fuel /\
  UndoSimplifiedWitnessUTXODeltaForHeader w undoBytes <> Err out_of_fuel.
Proof.
  split.
  - unfold ApplySimplifiedWitnessUTXODeltaForHeader, replay_header. case_bool_decide; [done|].
    unfold rp_bind. pose proof (tame_apply_witness h (delta, w)) as Hw.
    destruct (apply_witness_action h (delta, w)) as [[d s1]|e]; cbn [fst] in Hw; [|cbn; congruence].
    pose proof (apply_loop_fuel h (length delta) s1 ltac:(lia)) as Hl.
    destruct (apply_loop (length delta) h s1) as [[ds [st w']]|e]; cbn [res_bind rp_ret]; [|congruence].
    pose proof (undo_generated_fuel (d :: ds) w') as Hg.
    destruct (GenerateSimplifiedWitnessUTXODeltaUndoForHeader (d :: ds) w') as [[u s2]|e]; cbn [res_bind]; congruence.
  - unfold UndoSimplifiedWitnessUTXODeltaForHeader, rp_bind. pose proof (tame_restore_witness (undoBytes, w)) as Hw.
    destruct (restore_witness_action (undoBytes, w)) as [[[] s1]|e]; cbn [fst] in Hw; [|congruence].
    pose proof (restore_loop_fuel (length undoBytes) s1 ltac:(lia)) as Hl.
    destruct (restore_loop (length undoBytes) s1) as [[[] [st w']]|e]; congruence.
Qed.

(** C30: undoing a header restores the witness set. Let [s] be an ordered set of items
    from before the block, and let the header's changes replay on it to [s'], touch
    only items from before the block and be regular (the inputs of each agree on
    what the undo data holds once). Then applying the header succeeds with the set
    [s'], and applying the undo data it generated to [s'] gives [s] back, item by
    item, order and lock heights included. *)
Theorem header_undo_restores (F : FlatSet) (L : FlatSetLaws) h s delta ds s' :
  ordered s -> Forall (fun x => item_fits x /\ blockNumber x < h) s ->
  Z.of_nat (length s + length s') <= MAX_SIZE ->
  replay_header h delta s = Ok (ds, s') ->
  Forall (fun d => Forall (fun x => blockNumber x < h) (removedItems d) /\ regular d) ds ->
  exists undoBytes, ApplySimplifiedWitnessUTXODeltaForHeader h delta s = Ok (s', undoBytes) /\
    UndoSimplifiedWitnessUTXODeltaForHeader s' undoBytes = Ok s.
Proof.
  intros Hs Hfit Hl Hr Hds. apply Forall_and in Hfit as [Hfit Ho].
  assert (Hrem : Forall (old h) (all_removed ds)).
  { apply Forall_concat, Forall_map. eapply Forall_impl; [exact Hds|]. by intros d [? _]. }
  destruct (replay_header_evolves h s delta ds s' Hr Hs Hrem) as (d & ds' & -> & Hd & Hsh & He).
  apply Forall_cons_iff in Hds as [_ Hds].
  assert (Hok : Forall delta_ok ds').
  { apply List.Forall_forall. intros x Hx. rewrite List.Forall_forall in Hsh, Hds.
    apply (delta_shape_ok x); [by apply Hsh|by apply Hds]. }
  destruct (undo_generated h s s' d ds' Hs Hfit Ho Hl He Hd Hok) as (u & s1 & Eg & Eu). exists u. split; [|done].
  unfold ApplySimplifiedWitnessUTXODeltaForHeader. rewrite Hr. cbn [res_bind]. by rewrite Eg.
Qed.

(** Three witnesses and a header at height 200: the first one witnesses, the second
    is rearranged into two, the third is spent. *)
Definition sample_item (b o v : Z) : SimplifiedWitnessRouletteItem := mkSItem b 1 o 5000 90 (repeat 7 20) v.
Definition sample_set : witness_set := [sample_item 100 0 1000; sample_item 100 1 2000; sample_item 150 0 3000].
Definition sample_delta : list Z :=
  WriteVarInt 0 ++ CAmountCompressor_Serialize 1005 ++ WriteVarInt 0
  ++ delta_byte changeTypeRearrange ++ WriteCompactSize 1 ++ WriteCompactSize 2 ++ WriteVarInt 0
  ++ WriteVarInt 3 ++ WriteCompactSize 0 ++ CAmountCompressor_Serialize 500
  ++ WriteVarInt 3 ++ WriteCompactSize 1 ++ CAmountCompressor_Serialize 1500
  ++ delta_byte changeTypeSpend ++ WriteVarInt 0.

Lemma header_undo_restores_witness : exists s' undoBytes, length s' = 3%nat /\
  @UndoSimplifiedWitnessUTXODeltaForHeader sorted_list_set s' undoBytes = Ok sample_set.
Proof.
  destruct (@replay_header sorted_list_set 200 sample_delta sample_set) as [[ds s']|e] eqn:E; [|vm_compute in E; discriminate].
  assert (Hds : Forall (fun d => Forall (fun x => blockNumber x < 200) (removedItems d) /\ regular d) ds /\ length s' = 3%nat).
  { vm_compute in E. injection E as <- <-. split; [|reflexivity].
    repeat (apply List.Forall_cons || apply List.Forall_nil || match goal with |- _ /\ _ => split end);
      cbn; try reflexivity; try (exact I); try discriminate; try (split_and!; try discriminate);
      intros x x' ->%list_elem_of_singleton ->%list_elem_of_singleton; split_and!; reflexivity. }
  destruct Hds as [Hds Hlen].
  destruct (header_undo_restores sorted_list_set sorted_list_set_laws 200 sample_set sample_delta ds s') as (u & _ & Hu);
    [repeat constructor|repeat constructor; discriminate| |exact E|exact Hds|].
  - rewrite Hlen. vm_compute. discriminate.
  - exists s', u. split; [exact Hlen|exact Hu].
Defined.
