(* ===== verification/WitnessDeltaBlock.v ===== *)
(** * WitnessDeltaBlock: the witness changes a block makes

    The changes that [GetSimplifiedWitnessUTXODeltaForBlockHelper] computes from
    the bundles of a block's transactions follow the witness coins, and a header
    that carries them leads a node without the coins to the same set. The
    counterexamples at the end are blocks for which one of the two fails. *)

From stdpp Require Import sorting.
From S2P Require Import Prelude Serialize Compressor Transaction ConsensusParams TxCheck WitnessBundles WitnessDelta WitnessDeltaUndo.

(** ** Definitions: the specification *)

(** The item of the set that stands for an element of a bundle. *)
Definition item_is (w : item) (x : SimplifiedWitnessRouletteItem) : Prop := SItem_ofBundle w = Ok x.

(** What a bundle of each kind does to the items of its inputs and outputs. *)
Definition coherent (h : Z) (t : WitnessTxType) (xs ys : witness_set) : Prop :=
  match t with
  | WitnessType => exists x y, xs = [x] /\ ys = [y] /\ kept x y /\ transactionOutputIndex y = 0
  | CreationType => xs = [] /\ ys <> [] /\ Forall (fun y => si_lockFromBlock y = h) ys
  | SpendType => (exists x, xs = [x]) /\ ys = []
  | RenewType => xs <> [] /\ Forall2 (fun x y => kept x y /\ si_nValue y = si_nValue x) xs ys
  | RearrangeType => xs <> [] /\ ys <> [] /\ forall x y, x ∈ xs -> y ∈ ys -> kept x y
  | IncreaseType =>
      xs <> [] /\ ys <> [] /\ (forall x y, x ∈ xs -> y ∈ ys -> witnessPubKeyID y = witnessPubKeyID x) /\
      (forall y, y ∈ ys -> si_lockFromBlock y = h) /\
      (forall y y', y ∈ ys -> y' ∈ ys -> si_lockUntilBlock y' = si_lockUntilBlock y)
  | ChangeWitnessKeyType =>
      xs <> [] /\ Forall2 rekeyed xs ys /\ (forall y y', y ∈ ys -> y' ∈ ys -> witnessPubKeyID y' = witnessPubKeyID y)
  end.

(** An item that the encodings hold and whose lock has begun. *)
Definition item_live (x : SimplifiedWitnessRouletteItem) : Prop := item_fits x /\ 0 < si_lockFromBlock x.

(** A bundle that turns the coins of the items [xs] into those of [ys], all in the block at [h]. *)
Definition bundle_ok (h : Z) (b : CWitnessTxBundle) (xys : witness_set * witness_set) : Prop :=
  Forall2 item_is (b_inputs b) xys.1 /\ Forall2 item_is (b_outputs b) xys.2 /\
  Forall (fun i => COutPoint_IsNull (it_outpoint i) = false) (b_inputs b) /\
  Forall item_live xys.1 /\ Forall (fun y => item_fits y /\ blockNumber y = h) xys.2 /\
  coherent h (bundleType b) xys.1 xys.2.

(** ** Lemmas: streams *)

(** A stream that the loop of the header replay reads to its end. *)
Definition runs `{FlatSet} (h : Z) (s : list Z * witness_set) (ds : list deltaItem) (w' : witness_set) : Prop :=
  forall fuel, (length (fst s) <= fuel)%nat -> apply_loop fuel h s = Ok (ds, ([], w')).

(** What the replay reads of an output. *)
Definition write_out (y : SimplifiedWitnessRouletteItem) : list Z :=
  WriteVarInt (transactionIndex y) ++ WriteCompactSize (transactionOutputIndex y) ++ CAmountCompressor_Serialize (si_nValue y).

Definition put_all `{FlatSet} (ys w : witness_set) : witness_set := fold_left (fun w y => fst (fs_insert w y)) ys w.

Lemma Forall2_item_fun ins xs xs' : Forall2 item_is ins xs -> Forall2 item_is ins xs' -> xs = xs'.
Proof.
  intros H. revert xs'. induction H as [|i x ins xs Hi _ IH]; intros xs' H'; inversion H' as [|? x' ? xs'' Hi' H'']; subst; [done|].
  unfold item_is in *. rewrite Hi in Hi'. injection Hi' as <-. f_equal. by apply IH.
Qed.

Lemma item_is_inv o y : item_is o y -> out_index o = Ok (transactionIndex y) /\ op_n (it_outpoint o) = transactionOutputIndex y /\
  nValue (it_out o) = si_nValue y /\ witnessKeyID (it_details o) = witnessPubKeyID y /\
  lockUntilBlock (it_details o) = si_lockUntilBlock y /\ blockNumber y = prevBlock_blockNumber (it_outpoint o).
Proof.
  unfold item_is, SItem_ofBundle, out_index. destruct (negb (isHash (it_outpoint o))); [|done]. intros [= <-]. done.
Qed.

Section Block.
Context `{FSL : FlatSetLaws}.
Variable h : Z.

Lemma runs_nil w : runs h ([], w) [] w.
Proof. by intros [|fuel] _. Qed.

Lemma runs_change c bs st s w d w1 ds2 w2 : c <> changeTypeWitnessAction -> s = delta_byte c ++ bs ++ st ->
  apply_change h c (bs ++ st, w) = Ok ([d], (st, w1)) -> runs h (st, w1) ds2 w2 -> runs h (s, w) (d :: ds2) w2.
Proof.
  intros Hc -> Ha Hr fuel Hf. rewrite delta_byte_eq in *. cbn [app fst length] in *. destruct fuel as [|fuel]; [lia|].
  cbn [apply_loop fst snd]. rewrite change_of_code_inv by done. unfold rp_bind. rewrite Ha, Hr; [done|].
  rewrite length_app in Hf. cbn [fst]. lia.
Qed.

(** ** Lemmas: inserting the outputs *)

Lemma put_all_ok ys w : ordered w -> NoDup (place <$> ys ++ w) -> ordered (put_all ys w) /\ put_all ys w ≡ₚ ys ++ w.
Proof.
  revert w. induction ys as [|y ys IH]; intros w Hw Hnd; [done|]. cbn [put_all fold_left].
  destruct (put_item w y Hw) as (w1 & E & Hw1 & Hp); [apply (places_part _ _ ys Hnd); solve_Permutation|].
  rewrite E. cbn [fst]. destruct (IH w1 Hw1) as [Ho Hp'].
  { rewrite Hp. by rewrite <- Permutation_middle. }
  split; [done|]. unfold put_all in Hp'. rewrite Hp', Hp. symmetry. apply Permutation_middle.
Qed.

Lemma apply_outputs_rt it ys w rest : ordered w -> NoDup (place <$> ys ++ w) ->
  Forall (fun y => item_fits y /\ blockNumber y = h) ys -> Forall (kept it) ys ->
  apply_outputs (length ys) h it (flat_map write_out ys ++ rest, w) = Ok (ys, (rest, put_all ys w)).
Proof.
  revert it w. induction ys as [|y ys IH]; intros it w Hw Hnd Hy Hk; [done|].
  apply Forall_cons_iff in Hy as [[(Fb & Ft & Fo & Fu & Ff & Fk & Fv) Hh] Hy]. apply Forall_cons_iff in Hk as [(Ku & Kf & Kk) Hk].
  destruct (put_item w y Hw) as (w1 & E & Hw1 & Hp); [apply (places_part _ _ ys Hnd); solve_Permutation|].
  cbn [length apply_outputs flat_map]. unfold write_out at 1.
  rewrite <- !app_assoc, read_varint_rt, read_index_rt, read_amount_rt by done. cbv zeta.
  replace (mkSItem _ _ _ _ _ _ _) with y by (rewrite <- Ku, <- Kf, <- Kk, <- Hh; by destruct y).
  rewrite (rp_insert_put _ _ _ _ _ E). unfold rp_bind. rewrite IH; [|done|..|done|].
  - cbn [put_all fold_left]. by rewrite E.
  - rewrite Hp. by rewrite <- Permutation_middle.
  - eapply Forall_impl; [exact Hk|]. intros z (Z1 & Z2 & Z3). split_and!; congruence.
Qed.

(** The loop over the outputs, for a step that makes the next item from the one before. *)
Lemma helper_outputs_ok (Q : SimplifiedWitnessRouletteItem -> Prop) next outs ys it w ww :
  Forall2 item_is outs ys -> Q it ->
  (forall o y it', item_is o y -> y ∈ ys -> Q it' -> next (transactionIndex y) o it' = y /\ Q y) ->
  helper_outputs next outs it w ww = Ok (flat_map write_out ys, ys, put_all ys w, put_all ys ww).
Proof.
  intros H2. revert it w ww. induction H2 as [|o y outs ys Ho H2 IH]; intros it w ww HQ Hnext; [done|].
  destruct (item_is_inv o y Ho) as (Et & En & Ev & _). cbn [helper_outputs]. rewrite Et. cbn [res_bind].
  destruct (Hnext o y it Ho ltac:(left) HQ) as [-> HQ']. rewrite IH by (try done; intros; apply Hnext; try done; by right).
  cbn [res_bind flat_map]. unfold write_out at 2. by rewrite En, Ev, <- !app_assoc.
Qed.

(** ** Lemmas: removing the inputs *)

Lemma take_input_item w x base : ordered w -> w ≡ₚ x :: base ->
  exists i w', take_input x w = Ok (i, w') /\ w !! Z.to_nat i = Some x /\ fs_erase w (Z.to_nat i) = w' /\
               ordered w' /\ w' ≡ₚ base /\ 0 <= i < Z.of_nat (length w).
Proof.
  intros Hw Hp. destruct (take_item w x base Hw Hp) as (i & w' & Hf & Hi & He & Ho & Hb & Hlt).
  exists (Z.of_nat i), w'. unfold take_input. rewrite Hf, Nat2Z.id, He. split_and!; try done; lia.
Qed.

Lemma helper_inputs_ok ins xs w ww base wbase : Forall2 item_is ins xs -> ordered w -> w ≡ₚ xs ++ base ->
  ordered ww -> ww ≡ₚ xs ++ wbase -> Z.of_nat (length w) <= MAX_SIZE ->
  exists bs w' ww', helper_inputs ins w ww = Ok (bs, xs, w', ww') /\ ordered w' /\ w' ≡ₚ base /\ ordered ww' /\ ww' ≡ₚ wbase /\
    forall rest, rp_remove (length xs) (bs ++ rest, w) = Ok (xs, (rest, w')).
Proof.
  intros H2. revert w ww. induction H2 as [|i x ins xs Hi H2 IH]; intros w ww Hw Hp Hww Hwp Hl.
  { exists [], w, ww. by split_and!. }
  destruct (take_input_item w x (xs ++ base) Hw Hp) as (n & w1 & Et & Hn & He & Hw1 & Hp1 & Hr).
  destruct (find_erase_item ww x (xs ++ wbase) Hww Hwp) as (n' & ww1 & Ef & _ & _ & Hww1 & Hwp1 & _).
  unfold MAX_SIZE in *. assert (Hl1 : length w = S (length w1)) by (rewrite Hp, Hp1; done).
  destruct (IH w1 ww1 Hw1 Hp1 Hww1 Hwp1) as (bs & w2 & ww2 & Eh & Hw2 & Hp2 & Hww2 & Hwp2 & Hrm); [lia|].
  exists (WriteVarInt n ++ bs), w2, ww2. cbn [helper_inputs]. rewrite Hi. cbn [res_bind]. rewrite Et. cbn [res_bind].
  rewrite Ef. cbn [res_bind]. rewrite Eh. cbn [res_bind]. split_and!; try done. intros rest. cbn [length rp_remove].
  rewrite <- app_assoc, read_varint_rt by lia. rewrite (rp_nth_erase _ _ _ _ _ Hn), (rp_erase_eq _ _ _ _ _ He).
  unfold rp_bind. by rewrite Hrm.
Qed.

(** ** Lemmas: replacing items one by one *)

(** Replacing [x] by [y] in a set that also keeps [xs ++ base]. *)
Lemma replace_item w x y rem base : ordered w -> w ≡ₚ x :: rem ++ base -> NoDup (place <$> y :: x :: rem ++ base) ->
  exists n w1 w2, take_input x w = Ok (n, w1) /\ find_erase w x = Ok (n, w1) /\ w !! Z.to_nat n = Some x /\
    fs_erase w (Z.to_nat n) = w1 /\ fs_insert w1 y = (w2, true) /\
    ordered w1 /\ w1 ≡ₚ rem ++ base /\ ordered w2 /\ w2 ≡ₚ rem ++ y :: base /\ 0 <= n < Z.of_nat (length w) /\ length w2 = length w.
Proof.
  intros Hw Hp Hnd. destruct (take_item w x (rem ++ base) Hw Hp) as (i & w1 & Hf & Hi & He & Hw1 & Hp1 & Hlt).
  destruct (put_item w1 y Hw1) as (w2 & E & Hw2 & Hp2).
  { apply (places_part _ _ [x] Hnd). rewrite Hp1. solve_Permutation. }
  exists (Z.of_nat i), w1, w2. unfold take_input, find_erase. rewrite Hf, Nat2Z.id, He. split_and!; try done; try lia.
  - rewrite Hp2, Hp1. apply Permutation_middle.
  - rewrite Hp2, Hp, Hp1. done.
Qed.

Lemma helper_keys_ok key ins outs xs ys w ww base wbase : Forall2 item_is ins xs -> Forall2 item_is outs ys -> Forall2 rekeyed xs ys ->
  Forall (fun y => item_fits y /\ blockNumber y = h) ys -> Forall (fun y => witnessPubKeyID y = key) ys ->
  ordered w -> w ≡ₚ xs ++ base -> NoDup (place <$> ys ++ xs ++ base) ->
  ordered ww -> ww ≡ₚ xs ++ wbase -> NoDup (place <$> ys ++ xs ++ wbase) -> Z.of_nat (length w) <= MAX_SIZE ->
  exists bs w' ww', helper_keys h key (combine ins outs) w ww = Ok (bs, combine xs ys, w', ww') /\
    ordered w' /\ w' ≡ₚ ys ++ base /\ ordered ww' /\ ww' ≡ₚ ys ++ wbase /\
    forall rest, apply_keys (length xs) h key (bs ++ rest, w) = Ok ((xs, ys), (rest, w')).
Proof.
  intros Hi Ho Hre. revert ins outs Hi Ho w ww base wbase.
  induction Hre as [|x y xs ys (Ru & Rf & Rv) Hre IH]; intros ins outs Hi Ho w ww base wbase Hy Hk Hw Hp Hnd Hww Hwp Hwnd Hl.
  { inversion Hi; inversion Ho; subst. exists [], w, ww. by split_and!. }
  inversion Hi as [|i ? ins' ? Hix Hi']; subst. inversion Ho as [|o ? outs' ? Hoy Ho']; subst. clear Hi Ho.
  apply Forall_cons_iff in Hy as [[(Fb & Ft & Fo & Fu & Ff & Fk & Fv) Hh] Hy]. apply Forall_cons_iff in Hk as [Ky Hk].
  destruct (replace_item w x y xs base Hw Hp) as (n & w1 & w2 & Et & _ & Hn & He & Ei & Hw1 & Hp1 & Hw2 & Hp2 & Hr & Hl2).
  { apply (places_part _ _ ys Hnd). solve_Permutation. }
  destruct (replace_item ww x y xs wbase Hww Hwp) as (n' & ww1 & ww2 & _ & Ef & _ & _ & Ewi & _ & _ & Hww2 & Hwp2 & _).
  { apply (places_part _ _ ys Hwnd). solve_Permutation. }
  destruct (IH ins' outs' Hi' Ho' w2 ww2 (y :: base) (y :: wbase) Hy Hk Hw2 Hp2) as (bs & w3 & ww3 & Eh & Hw3 & Hp3 & Hww3 & Hwp3 & Ha); try done.
  { apply (places_part _ _ [x] Hnd). solve_Permutation. }
  { apply (places_part _ _ [x] Hwnd). solve_Permutation. }
  { rewrite Hl2. done. }
  unfold MAX_SIZE in Hl. destruct (item_is_inv o y Hoy) as (Eo & En & Ev & _).
  assert (Hyeq : mkSItem h (transactionIndex y) (op_n (it_outpoint o)) (si_lockUntilBlock x) (si_lockFromBlock x) key (si_nValue x) = y)
    by (rewrite En, <- Hh, <- Ky, <- Ru, <- Rf, <- Rv; by destruct y).
  exists (WriteVarInt n ++ WriteVarInt (transactionIndex y) ++ WriteCompactSize (op_n (it_outpoint o)) ++ bs), w3, ww3.
  cbn [combine helper_keys]. rewrite Hix. cbn [res_bind]. rewrite Et. cbn [res_bind]. rewrite Eo. cbn [res_bind].
  unfold placed. rewrite Hyeq, Ef. cbn [res_bind]. rewrite Ei, Ewi. cbn [fst]. rewrite Eh. cbn [res_bind].
  split_and!; [done|done|rewrite Hp3; solve_Permutation|done|rewrite Hwp3; solve_Permutation|].
  intros rest. cbn [length apply_keys]. rewrite <- !app_assoc, read_varint_rt by lia.
  rewrite (rp_nth_erase _ _ _ _ _ Hn), read_varint_rt, read_index_rt by (rewrite ?En; done). cbv zeta.
  rewrite Hyeq, (rp_erase_eq _ _ _ _ _ He), (rp_insert_put _ _ _ _ _ Ei). unfold rp_bind. by rewrite Ha.
Qed.

Lemma lock_or_live x f : 0 < f -> lock_or x f = f.
Proof. intros. unfold lock_or. zcase; [lia|done]. Qed.

Lemma helper_renewed_ok ins outs xs ys w ww base wbase : Forall2 item_is ins xs -> Forall2 item_is outs ys ->
  Forall2 (fun x y => kept x y /\ si_nValue y = si_nValue x) xs ys ->
  Forall item_live xs -> Forall (fun y => item_fits y /\ blockNumber y = h) ys ->
  ordered w -> w ≡ₚ xs ++ base -> NoDup (place <$> ys ++ xs ++ base) ->
  ordered ww -> ww ≡ₚ xs ++ wbase -> Z.of_nat (length w) <= MAX_SIZE ->
  exists bs ds w' ww', helper_renewed h (combine ins outs) w ww = Ok (bs, ds, w', ww') /\
    ordered w' /\ w' ≡ₚ ys ++ base /\ ordered ww' /\ ww' ≡ₚ wbase /\
    forall rest ds2 w2, runs h (rest, w') ds2 w2 -> runs h (bs ++ rest, w) (ds ++ ds2) w2.
Proof.
  intros Hi Ho Hre. revert ins outs Hi Ho w ww base.
  induction Hre as [|x y xs ys [(Ru & Rf & Rk) Rv] Hre IH]; intros ins outs Hi Ho w ww base Hx Hy Hw Hp Hnd Hww Hwp Hl.
  { inversion Hi; inversion Ho; subst. exists [], [], w, ww. by split_and!. }
  inversion Hi as [|i ? ins' ? Hix Hi']; subst. inversion Ho as [|o ? outs' ? Hoy Ho']; subst. clear Hi Ho.
  apply Forall_cons_iff in Hy as [[(Fb & Ft & Fo & Fu & Ff & Fk & Fv) Hh] Hy]. apply Forall_cons_iff in Hx as [[_ Hlive] Hx].
  destruct (replace_item w x y xs base Hw Hp) as (n & w1 & w2 & Et & _ & Hn & He & Ei & Hw1 & Hp1 & Hw2 & Hp2 & Hr & Hl2).
  { apply (places_part _ _ ys Hnd). solve_Permutation. }
  destruct (find_erase_item ww x (xs ++ wbase) Hww Hwp) as (n' & ww1 & Ef & _ & _ & Hww1 & Hwp1 & _).
  destruct (IH ins' outs' Hi' Ho' w2 ww1 (y :: base) Hx Hy Hw2 Hp2) as (bs & ds & w3 & ww3 & Eh & Hw3 & Hp3 & Hww3 & Hwp3 & Ha); try done.
  { apply (places_part _ _ [x] Hnd). solve_Permutation. }
  { rewrite Hl2. done. }
  unfold MAX_SIZE in Hl. destruct (item_is_inv o y Hoy) as (Eo & En & Ev & _).
  assert (Hyeq : mkSItem h (transactionIndex y) (op_n (it_outpoint o)) (si_lockUntilBlock x) (si_lockFromBlock x) (witnessPubKeyID x) (si_nValue x) = y)
    by (rewrite En, <- Hh, <- Rk, <- Ru, <- Rf, <- Rv; by destruct y).
  eexists _, _, w3, ww3. cbn [combine helper_renewed]. rewrite Hix. cbn [res_bind]. rewrite Et. cbn [res_bind]. rewrite Eo. cbn [res_bind].
  unfold placed. rewrite lock_or_live, Hyeq, Ef by done. cbn [res_bind]. rewrite Ei, Eh. cbn [res_bind]. split; [done|].
  split_and!; [done|rewrite Hp3; solve_Permutation|done|done|].
  intros rest ds2 wz Hrun. cbn [app].
  apply (runs_change changeTypeRenew (WriteVarInt n ++ WriteVarInt (transactionIndex y) ++ WriteCompactSize (op_n (it_outpoint o)))
           (bs ++ rest) _ _ _ w2); [done|by rewrite <- !app_assoc| |by apply Ha].
  cbn [apply_change]. rewrite <- !app_assoc, read_varint_rt by lia.
  rewrite (rp_nth_erase _ _ _ _ _ Hn), read_varint_rt, read_index_rt by (rewrite ?En; done). cbv zeta.
  by rewrite Hyeq, (rp_erase_eq _ _ _ _ _ He), (rp_insert_put _ _ _ _ _ Ei).
Qed.

(** ** Lemmas: one bundle *)

Lemma helper_created_ok outs ys w ww : Forall2 item_is outs ys ->
  Forall (fun y => si_lockFromBlock y = h) ys -> Forall (fun y => item_fits y /\ blockNumber y = h) ys ->
  exists bs ds, helper_created h outs w ww = Ok (bs, ds, put_all ys w, put_all ys ww).
Proof.
  intros H2. revert w ww. induction H2 as [|o y outs ys Ho H2 IH]; intros w ww Hf Hy; [by exists [], []|].
  apply Forall_cons_iff in Hf as [Hf1 Hf]. apply Forall_cons_iff in Hy as [[_ Hh] Hy].
  destruct (item_is_inv o y Ho) as (Eo & En & Ev & Ek & Eu & _). cbn [helper_created]. rewrite Eo. cbn [res_bind].
  assert (Hyeq : placed h (transactionIndex y) o (lockUntilBlock (it_details o)) h (witnessKeyID (it_details o)) (nValue (it_out o)) = y)
    by (unfold placed; rewrite En, Ev, Ek, Eu; rewrite <- Hf1 at 2; rewrite <- Hh; by destruct y).
  rewrite Hyeq. destruct (IH (fst (fs_insert w y)) (fst (fs_insert ww y)) Hf Hy) as (bs & ds & E). rewrite E. cbn [res_bind].
  do 2 eexists. done.
Qed.

(** The sets after the bundle [b], and the replay of its part of the stream. *)
Definition bundle_done (b : CWitnessTxBundle) (ys base wbase w : witness_set) (o : helper_out) : Prop :=
  let '(bs, ds, w', ww') := o in
  ordered w' /\ w' ≡ₚ ys ++ base /\ ordered ww' /\
  ww' ≡ₚ (if is_type b RenewType then [] else ys) ++ wbase /\
  (bundleType b <> CreationType -> forall rest ds2 w2, runs h (rest, w') ds2 w2 -> runs h (bs ++ rest, w) (ds ++ ds2) w2).

(** Rearrangements and increases: remove the inputs, add the outputs. *)
Lemma helper_moved_ok (Q : SimplifiedWitnessRouletteItem -> Prop) next b xs ys it w ww base wbase :
  Forall2 item_is (b_inputs b) xs -> Forall2 item_is (b_outputs b) ys -> Q it ->
  (forall o y it', item_is o y -> y ∈ ys -> Q it' -> next (transactionIndex y) o it' = y /\ Q y) ->
  ordered w -> w ≡ₚ xs ++ base -> NoDup (place <$> ys ++ xs ++ base) ->
  ordered ww -> ww ≡ₚ xs ++ wbase -> NoDup (place <$> ys ++ xs ++ wbase) -> Z.of_nat (length w) <= MAX_SIZE ->
  exists bs w1 ww1, helper_inputs (b_inputs b) w ww = Ok (bs, xs, w1, ww1) /\
    helper_outputs next (b_outputs b) it w1 ww1 = Ok (flat_map write_out ys, ys, put_all ys w1, put_all ys ww1) /\
    ordered w1 /\ NoDup (place <$> ys ++ w1) /\
    ordered (put_all ys w1) /\ put_all ys w1 ≡ₚ ys ++ base /\ ordered (put_all ys ww1) /\ put_all ys ww1 ≡ₚ ys ++ wbase /\
    forall rest, rp_remove (length xs) (bs ++ rest, w) = Ok (xs, (rest, w1)).
Proof.
  intros Hi Ho HQ Hnext Hw Hp Hnd Hww Hwp Hwnd Hl.
  destruct (helper_inputs_ok _ _ w ww base wbase Hi Hw Hp Hww Hwp Hl) as (bs & w1 & ww1 & Eh & Hw1 & Hp1 & Hww1 & Hwp1 & Hrm).
  assert (N1 : NoDup (place <$> ys ++ w1)) by (apply (places_part _ _ xs Hnd); rewrite Hp1; solve_Permutation).
  assert (N2 : NoDup (place <$> ys ++ ww1)) by (apply (places_part _ _ xs Hwnd); rewrite Hwp1; solve_Permutation).
  destruct (put_all_ok ys w1 Hw1 N1) as [O1 P1]. destruct (put_all_ok ys ww1 Hww1 N2) as [O2 P2].
  exists bs, w1, ww1. split_and!; try done; [by apply (helper_outputs_ok Q)|by rewrite P1, Hp1|by rewrite P2, Hwp1].
Qed.

Lemma last_is_some (xs : witness_set) : xs <> [] -> exists it, list.last xs = Some it /\ it ∈ xs.
Proof.
  intros Hx. destruct (list.last xs) as [it|] eqn:El; [|by apply last_None in El].
  exists it. split; [done|]. by apply last_elem_of.
Qed.

Lemma helper_rearrange_ok b xs ys w ww base wbase : bundleType b = RearrangeType -> bundle_ok h b (xs, ys) ->
  ordered w -> w ≡ₚ xs ++ base -> NoDup (place <$> ys ++ xs ++ base) ->
  ordered ww -> ww ≡ₚ xs ++ wbase -> NoDup (place <$> ys ++ xs ++ wbase) -> Z.of_nat (length w + length ys) <= MAX_SIZE ->
  exists o, helper_bundle h b w ww = Ok o /\ bundle_done b ys base wbase w o.
Proof.
  intros Ht (Hi & Ho & _ & Hx & Hy & Hc) Hw Hp Hnd Hww Hwp Hwnd Hl. cbn [fst snd] in *. rewrite Ht in Hc. cbn in Hc.
  destruct Hc as (Hxs & Hys & Hk). destruct (last_is_some xs Hxs) as (it & El & Hit). unfold MAX_SIZE in Hl.
  assert (Hlive : 0 < si_lockFromBlock it) by (rewrite List.Forall_forall in Hx; by apply list_elem_of_In, Hx in Hit as [_ ?]).
  destruct (helper_moved_ok (fun z => kept it z) (rearranged h) b xs ys it w ww base wbase)
    as (bs & w1 & ww1 & E1 & E2 & Hw1 & N1 & O1 & P1 & O2 & P2 & Hrm); try done; [|unfold MAX_SIZE; lia|].
  { intros o y z Hoy Hyin (Z1 & Z2 & Z3). split; [|by apply Hk]. destruct (item_is_inv o y Hoy) as (_ & En & Ev & _).
    destruct (Hk it y Hit Hyin) as (K1 & K2 & K3). unfold rearranged, placed. rewrite lock_or_live by lia.
    rewrite En, Ev, Z1, Z2, Z3, <- K1, <- K2, <- K3. rewrite List.Forall_forall in Hy.
    destruct (Hy y) as [_ <-]; [by apply list_elem_of_In|]. by destruct y. }
  pose proof (Forall2_length _ _ _ Hi) as Li. pose proof (Forall2_length _ _ _ Ho) as Lo.
  assert (Lx : (length xs <= length w)%nat) by (rewrite Hp, length_app; lia).
  unfold helper_bundle. rewrite Ht. destruct (b_inputs b) as [|i0 ins] eqn:Eb; [by destruct xs|]. destruct (b_outputs b) as [|o0 outs] eqn:Ec; [by destruct ys|].
  cbv zeta. rewrite E1. cbn [res_bind]. rewrite El, E2. cbn [res_bind]. eexists. split; [done|]. cbn. unfold is_type.
  rewrite bool_decide_false by (by rewrite Ht). split_and!; try done. intros _ rest ds2 w2 Hrun.
  apply (runs_change changeTypeRearrange ((WriteCompactSize (Z.of_nat (length (i0 :: ins))) ++ WriteCompactSize (Z.of_nat (length (o0 :: outs)))) ++ bs ++ flat_map write_out ys)
           rest _ _ _ (put_all ys w1)); [done|by rewrite <- !app_assoc| |done].
  cbn [apply_change]. rewrite <- !app_assoc, !read_size_rt, Li, Lo, !Nat2Z.id by (rewrite ?Li, ?Lo; unfold MAX_SIZE; lia).
  unfold rp_bind at 1. rewrite Hrm, El. unfold rp_bind. rewrite apply_outputs_rt; [done..|].
  apply List.Forall_forall. intros y Hyin%list_elem_of_In. by apply Hk.
Qed.

Lemma helper_increase_ok b xs ys w ww base wbase : bundleType b = IncreaseType -> bundle_ok h b (xs, ys) ->
  ordered w -> w ≡ₚ xs ++ base -> NoDup (place <$> ys ++ xs ++ base) ->
  ordered ww -> ww ≡ₚ xs ++ wbase -> NoDup (place <$> ys ++ xs ++ wbase) -> Z.of_nat (length w + length ys) <= MAX_SIZE ->
  exists o, helper_bundle h b w ww = Ok o /\ bundle_done b ys base wbase w o.
Proof.
  intros Ht (Hi & Ho & _ & Hx & Hy & Hc) Hw Hp Hnd Hww Hwp Hwnd Hl. cbn [fst snd] in *. rewrite Ht in Hc. cbn in Hc.
  destruct Hc as (Hxs & Hys & Hk & Hf & Hu). destruct (last_is_some xs Hxs) as (it & El & Hit). unfold MAX_SIZE in Hl.
  destruct (helper_moved_ok (fun z => witnessPubKeyID z = witnessPubKeyID it) (increased h) b xs ys it w ww base wbase)
    as (bs & w1 & ww1 & E1 & E2 & Hw1 & N1 & O1 & P1 & O2 & P2 & Hrm); try done; [|unfold MAX_SIZE; lia|].
  { intros o y z Hoy Hyin Hz. split; [|by apply Hk]. destruct (item_is_inv o y Hoy) as (_ & En & Ev & _ & Eu & _).
    unfold increased, placed. rewrite En, Ev, Eu, Hz, <- (Hk it y Hit Hyin). rewrite <- (Hf y Hyin) at 2.
    rewrite List.Forall_forall in Hy. destruct (Hy y) as [_ <-]; [by apply list_elem_of_In|]. by destruct y. }
  pose proof (Forall2_length _ _ _ Hi) as Li. pose proof (Forall2_length _ _ _ Ho) as Lo.
  assert (Lx : (length xs <= length w)%nat) by (rewrite Hp, length_app; lia).
  unfold helper_bundle. rewrite Ht. destruct (b_inputs b) as [|i0 ins] eqn:Eb; [by destruct xs|].
  destruct (b_outputs b) as [|o0 outs] eqn:Ec; [by destruct ys|]. destruct ys as [|y0 ys']; [done|].
  assert (Eu0 : lockUntilBlock (it_details o0) = si_lockUntilBlock y0).
  { inversion Ho as [|? ? ? ? Ho0]; subst. by destruct (item_is_inv o0 y0 Ho0) as (_ & _ & _ & _ & ? & _). }
  assert (Fu : 0 <= si_lockUntilBlock y0 < 2 ^ 64) by (apply Forall_inv in Hy as [Hy _]; apply Hy).
  remember (y0 :: ys') as ys. cbv zeta. rewrite E1. cbn [res_bind]. rewrite El, E2. cbn [res_bind]. eexists. split; [done|]. cbn. unfold is_type.
  rewrite bool_decide_false by (by rewrite Ht). split_and!; try done. intros _ rest ds2 w2 Hrun.
  apply (runs_change changeTypeIncrease ((WriteCompactSize (Z.of_nat (length (i0 :: ins))) ++ WriteCompactSize (Z.of_nat (length (o0 :: outs))))
           ++ WriteVarInt (lockUntilBlock (it_details o0)) ++ bs ++ flat_map write_out ys)
           rest _ _ _ (put_all ys w1)); [done|by rewrite <- !app_assoc| |done].
  cbn [apply_change]. rewrite <- !app_assoc, !read_size_rt, Li, Lo, !Nat2Z.id by (rewrite ?Li, ?Lo; unfold MAX_SIZE; lia).
  rewrite Eu0, read_varint_rt by done. unfold rp_bind at 1. rewrite Hrm, El. cbv zeta. unfold rp_bind. rewrite apply_outputs_rt; [done..|].
  apply List.Forall_forall. intros y Hyin%list_elem_of_In. split_and!; cbn; [|by apply Hf|by apply Hk]. apply Hu; [subst; left|done].
Qed.

Lemma helper_rekey_ok b xs ys w ww base wbase : bundleType b = ChangeWitnessKeyType -> bundle_ok h b (xs, ys) ->
  ordered w -> w ≡ₚ xs ++ base -> NoDup (place <$> ys ++ xs ++ base) ->
  ordered ww -> ww ≡ₚ xs ++ wbase -> NoDup (place <$> ys ++ xs ++ wbase) -> Z.of_nat (length w + length ys) <= MAX_SIZE ->
  exists o, helper_bundle h b w ww = Ok o /\ bundle_done b ys base wbase w o.
Proof.
  intros Ht (Hi & Ho & _ & Hx & Hy & Hc) Hw Hp Hnd Hww Hwp Hwnd Hl. cbn [fst snd] in *. rewrite Ht in Hc. cbn in Hc.
  destruct Hc as (Hxs & Hre & Hk). pose proof (Forall2_length _ _ _ Hre) as Lxy. unfold MAX_SIZE in Hl.
  pose proof (Forall2_length _ _ _ Hi) as Li. pose proof (Forall2_length _ _ _ Ho) as Lo.
  destruct ys as [|y0 ys'] eqn:Eys; [by destruct xs|]. rewrite <- Eys in *.
  destruct (helper_keys_ok (witnessPubKeyID y0) _ _ xs ys w ww base wbase Hi Ho Hre Hy) as (bs & w1 & ww1 & E1 & O1 & P1 & O2 & P2 & Ha);
    try done; [|unfold MAX_SIZE; lia|].
  { apply List.Forall_forall. intros y Hyin%list_elem_of_In. apply Hk; [rewrite Eys; left|done]. }
  unfold helper_bundle. rewrite Ht. destruct (b_inputs b) as [|i0 ins] eqn:Eb; [by destruct xs|].
  destruct (b_outputs b) as [|o0 outs] eqn:Ec; [by rewrite Eys in Lo|].
  assert (Ek0 : witnessKeyID (it_details o0) = witnessPubKeyID y0).
  { rewrite Eys in Ho. inversion Ho as [|? ? ? ? Ho0]; subst. by destruct (item_is_inv o0 y0 Ho0) as (_ & _ & _ & ? & _). }
  assert (Fk : length (witnessPubKeyID y0) = 20%nat) by (rewrite Eys in Hy; apply Forall_inv in Hy as [Hy _]; apply Hy).
  rewrite (proj2 (Nat.eqb_eq _ _)) by lia. cbv zeta. rewrite Ek0, E1. cbn [res_bind]. eexists. split; [done|]. cbn. unfold is_type.
  rewrite bool_decide_false by (by rewrite Ht). split_and!; try done. intros _ rest ds2 w2 Hrun.
  assert (Z1 : (combine xs ys).*1 = xs) by (apply fst_zip; lia). assert (Z2 : (combine xs ys).*2 = ys) by (apply snd_zip; lia).
  apply (runs_change changeTypeChangeKey (WriteCompactSize (Z.of_nat (length (o0 :: outs))) ++ CFlatData_Serialize (witnessPubKeyID y0) ++ bs)
           rest _ _ _ w1); [done|by rewrite <- !app_assoc| |done].
  assert (Lx : (length xs <= length w)%nat) by (rewrite Hp, length_app; lia).
  cbn [apply_change]. rewrite <- !app_assoc, read_size_rt, read_key_rt by (done || unfold MAX_SIZE; lia).
  replace (Z.to_nat (Z.of_nat (length (o0 :: outs)))) with (length xs) by lia. unfold rp_bind. rewrite Ha. cbn. by rewrite Z1, Z2.
Qed.

Lemma helper_bundle_ok b xs ys w ww base wbase : bundleType b <> WitnessType -> bundle_ok h b (xs, ys) ->
  ordered w -> w ≡ₚ xs ++ base -> NoDup (place <$> ys ++ xs ++ base) ->
  ordered ww -> ww ≡ₚ xs ++ wbase -> NoDup (place <$> ys ++ xs ++ wbase) -> Z.of_nat (length w + length ys) <= MAX_SIZE ->
  exists o, helper_bundle h b w ww = Ok o /\ bundle_done b ys base wbase w o.
Proof.
  intros Hnw Hok Hw Hp Hnd Hww Hwp Hwnd Hl. destruct (bundleType b) eqn:Ht; try done;
    [..|by apply (helper_increase_ok b xs ys w ww)|by apply (helper_rearrange_ok b xs ys w ww)|by apply (helper_rekey_ok b xs ys w ww)];
    destruct Hok as (Hi & Ho & Hn & Hx & Hy & Hc); cbn [fst snd] in *; rewrite Ht in Hc; cbn in Hc; unfold MAX_SIZE in Hl.
  - destruct Hc as (-> & Hys & Hf). cbn [app] in *. destruct (helper_created_ok _ ys w ww Ho Hf Hy) as (bs & ds & E).
    unfold helper_bundle. rewrite Ht. inversion Hi as [E0|]. destruct (b_outputs b) as [|o0 outs] eqn:Ec; [by inversion Ho; subst|].
    rewrite E. eexists. split; [done|]. unfold bundle_done, is_type. rewrite bool_decide_false by (by rewrite Ht).
    destruct (put_all_ok ys w Hw) as [O1 P1]; [by rewrite Hp|]. destruct (put_all_ok ys ww Hww) as [O2 P2]; [by rewrite Hwp|].
    split_and!; [done|by rewrite P1, Hp|done|by rewrite P2, Hwp|done].
  - destruct Hc as ([x ->] & ->). inversion Hi as [|i ? ins ? Hix Hin]; subst. inversion Hin; subst. inversion Ho; subst.
    destruct (take_input_item w x base Hw Hp) as (n & w1 & Et & Hn' & He & Hw1 & Hp1 & Hr).
    destruct (find_erase_item ww x wbase Hww Hwp) as (n' & ww1 & Ef & _ & _ & Hww1 & Hwp1 & _).
    match goal with E : [i] = b_inputs b |- _ => rename E into Eb end. match goal with E : [] = b_outputs b |- _ => rename E into Ec end.
    rewrite <- Eb in Hn. apply Forall_inv in Hn.
    unfold helper_bundle. rewrite Ht, <- Eb, <- Ec, Hn. cbn [negb]. rewrite Hix. cbn [res_bind]. rewrite Et. cbn [res_bind]. rewrite Ef.
    cbn [res_bind]. eexists. split; [done|]. unfold bundle_done, is_type. rewrite bool_decide_false by (by rewrite Ht).
    split_and!; try done. intros _ rest ds2 w2 Hrun.
    apply (runs_change changeTypeSpend (WriteVarInt n) rest _ _ _ w1); [done|by rewrite <- !app_assoc| |done].
    cbn [apply_change]. rewrite read_varint_rt, (rp_nth_erase _ _ _ _ _ Hn'), (rp_erase_eq _ _ _ _ _ He) by lia. done.
  - destruct Hc as (Hxs & Hre). pose proof (Forall2_length _ _ _ Hre) as Lxy.
    pose proof (Forall2_length _ _ _ Hi) as Li. pose proof (Forall2_length _ _ _ Ho) as Lo.
    destruct (helper_renewed_ok _ _ xs ys w ww base wbase Hi Ho Hre Hx Hy Hw Hp Hnd Hww Hwp) as (bs & ds & w1 & ww1 & E1 & O1 & P1 & O2 & P2 & Hr);
      [unfold MAX_SIZE; lia|].
    unfold helper_bundle. rewrite Ht. destruct (b_inputs b) as [|i0 ins] eqn:Eb; [by destruct xs|].
    destruct (b_outputs b) as [|o0 outs] eqn:Ec; [destruct xs, ys; done|]. apply Forall_inv in Hn.
    rewrite (proj2 (Nat.eqb_eq _ _)) by lia. rewrite Hn. cbn [negb]. rewrite E1. eexists. split; [done|].
    unfold bundle_done, is_type. rewrite bool_decide_true by done. by split_and!.
Qed.

Lemma helper_witness_ok b xs ys w base : bundleType b = WitnessType -> bundle_ok h b (xs, ys) -> ordered w -> w ≡ₚ xs ++ base ->
  NoDup (place <$> ys ++ xs ++ base) -> Z.of_nat (length w) <= MAX_SIZE ->
  exists bs d w', helper_witness h b w = Ok (bs, d, w') /\ ordered w' /\ w' ≡ₚ ys ++ base /\ length w' = length w /\
    forall rest, apply_witness_action h (bs ++ rest, w) = Ok (d, (rest, w')).
Proof.
  intros Ht (Hi & Ho & Hn & Hx & Hy & Hc) Hw Hp Hnd Hl. cbn [fst snd] in *. rewrite Ht in Hc. cbn in Hc. unfold MAX_SIZE in Hl.
  destruct Hc as (x & y & -> & -> & (Ku & Kf & Kk) & Hz).
  inversion Hi as [|i ? ins ? Hix Hin Eb]; subst. inversion Hin; subst. inversion Ho as [|o ? outs ? Hoy Hon Ec]; subst. inversion Hon; subst.
  apply Forall_inv in Hy as [(Fb & Ft & Fo & Fu & Ff & Fk & Fv) Hh]. apply Forall_inv in Hx as [_ Hlive].
  destruct (replace_item w x y [] base Hw Hp) as (n & w1 & w2 & Et & _ & Hn' & He & Ei & Hw1 & Hp1 & Hw2 & Hp2 & Hr & Hl2);
    [apply (places_part _ _ [] Hnd); solve_Permutation|].
  rewrite <- Eb in Hn. apply Forall_inv in Hn. destruct (item_is_inv o y Hoy) as (Eo & En & Ev & _).
  assert (Hyeq : mkSItem h (transactionIndex y) 0 (si_lockUntilBlock x) (si_lockFromBlock x) (witnessPubKeyID x) (si_nValue y) = y)
    by (rewrite <- Ku, <- Kf, <- Kk, <- Hh, <- Hz; by destruct y).
  unfold helper_witness. rewrite <- Eb, <- Ec, Hn. cbn [negb]. rewrite Hix. cbn [res_bind]. rewrite Et. cbn [res_bind]. rewrite Eo. cbn [res_bind].
  rewrite En, Hz, Z.eqb_refl, Ev, lock_or_live, Hyeq, Ei by done. do 3 eexists. split; [done|]. split_and!; [done|by rewrite Hp2|done|].
  intros rest. unfold apply_witness_action. rewrite <- !app_assoc, read_varint_rt by lia.
  rewrite (rp_nth_erase _ _ _ _ _ Hn'), read_amount_rt, read_varint_rt by done. cbv zeta.
  by rewrite Hyeq, (rp_erase_eq _ _ _ _ _ He), (rp_insert_put _ _ _ _ _ Ei).
Qed.

(** ** Lemmas: the block *)

Definition spent (p : list (witness_set * witness_set)) : witness_set := concat p.*1.
Definition created (p : list (witness_set * witness_set)) : witness_set := concat p.*2.

Lemma helper_second_ok bundles p w ww base wbase : Forall2 (bundle_ok h) bundles p ->
  Forall (fun b => bundleType b <> WitnessType) bundles ->
  ordered w -> w ≡ₚ spent p ++ base -> NoDup (place <$> created p ++ spent p ++ base) ->
  ordered ww -> ww ≡ₚ spent p ++ wbase -> NoDup (place <$> created p ++ spent p ++ wbase) ->
  Z.of_nat (length w + length (created p)) <= MAX_SIZE ->
  exists bs ds w' ww', helper_second h bundles w ww = Ok (bs, ds, w', ww') /\ ordered w' /\ w' ≡ₚ created p ++ base /\
    (Forall (fun b => bundleType b <> CreationType) bundles ->
     forall rest ds2 w2, runs h (rest, w') ds2 w2 -> runs h (bs ++ rest, w) (ds ++ ds2) w2).
Proof.
  intros Hok. revert w ww base wbase.
  induction Hok as [|b [xs ys] bundles p Hb Hok IH]; intros w ww base wbase Hnw Hw Hp Hnd Hww Hwp Hwnd Hl.
  { exists [], [], w, ww. by split_and!. }
  unfold spent, created in *. cbn [fmap list_fmap concat fst snd] in *. rewrite length_app in Hl.
  apply Forall_cons_iff in Hnw as [Hn1 Hnw].
  destruct (helper_bundle_ok b xs ys w ww (concat p.*1 ++ base) (concat p.*1 ++ wbase) Hn1 Hb Hw) as (o & E & Hd); try done; try lia.
  { by rewrite Hp, app_assoc. }
  { apply (places_part _ _ (concat p.*2) Hnd). solve_Permutation. }
  { by rewrite Hwp, app_assoc. }
  { apply (places_part _ _ (concat p.*2) Hwnd). solve_Permutation. }
  destruct o as [[[bs ds] w1] ww1]. destruct Hd as (O1 & P1 & O2 & P2 & Hrun).
  set (k := if is_type b RenewType then [] else ys) in *.
  destruct (IH w1 ww1 (ys ++ base) (k ++ wbase)) as (bs' & ds' & w2 & ww2 & E2 & O3 & P3 & Hrun2); try done.
  { rewrite P1. solve_Permutation. }
  { apply (places_part _ _ xs Hnd). solve_Permutation. }
  { rewrite P2. solve_Permutation. }
  { destruct (is_type b RenewType); unfold k.
    - apply (places_part _ _ (xs ++ ys) Hwnd). solve_Permutation.
    - apply (places_part _ _ xs Hwnd). solve_Permutation. }
  { rewrite P1, !length_app. rewrite Hp, !length_app in Hl. lia. }
  exists (bs ++ bs'), (ds ++ ds'), w2, ww2. cbn [helper_second]. rewrite E. cbn [res_bind]. rewrite E2. cbn [res_bind].
  split_and!; [done|done|rewrite P3; solve_Permutation|]. intros [Hc Hcs]%Forall_cons_iff rest ds2 wz Hr.
  rewrite <- !app_assoc. apply Hrun; [done|]. by apply Hrun2.
Qed.

Lemma helper_second_skip l1 b l2 w ww : bundleType b = WitnessType ->
  helper_second h (l1 ++ b :: l2) w ww = helper_second h (l1 ++ l2) w ww.
Proof.
  intros Hb. revert w ww. induction l1 as [|b1 l1 IH]; intros w ww.
  - cbn [app helper_second]. unfold helper_bundle. rewrite Hb. cbn [res_bind].
    destruct (helper_second h l2 w ww) as [[[[bs ds] w1] ww1]|e]; done.
  - cbn [app helper_second]. destruct (helper_bundle h b1 w ww) as [[[[bs ds] w1] ww1]|e]; [|done]. cbn [res_bind]. by rewrite IH.
Qed.

(** The block has the one witness bundle [bw]. *)
Definition one_witness (block : list (list CWitnessTxBundle)) (bw : CWitnessTxBundle) : Prop :=
  bundleType bw = WitnessType /\
  exists txs1 b1 b2 txs2, block = txs1 ++ (b1 ++ bw :: b2) :: txs2 /\
    Forall (fun b => bundleType b <> WitnessType) (concat txs1 ++ b1 ++ b2 ++ concat txs2).

Lemma helper_tx_none bundles w : Forall (fun b => bundleType b <> WitnessType) bundles -> helper_tx_witness h bundles w = Ok ([], [], w).
Proof.
  induction 1 as [|b bundles Hb _ IH]; [done|]. cbn [helper_tx_witness]. unfold is_type. by rewrite bool_decide_false.
Qed.

Lemma helper_first_none txs w : Forall (fun b => bundleType b <> WitnessType) (concat txs) -> helper_first h (map Some txs) w = Ok ([], [], w).
Proof.
  induction txs as [|tx txs IH]; [done|]. intros [H1 H2]%Forall_app. cbn [map helper_first].
  rewrite helper_tx_none by done. cbn [res_bind]. by rewrite IH.
Qed.

Lemma helper_first_one block bw bs d w w' : one_witness block bw -> helper_witness h bw w = Ok (bs, d, w') ->
  helper_first h (map Some block) w = Ok (bs, [d], w').
Proof.
  intros (Hb & txs1 & b1 & b2 & txs2 & -> & Hall) Hw. rewrite !Forall_app in Hall. destruct Hall as (H1 & H2 & H3 & H4).
  induction txs1 as [|tx txs1 IH].
  - cbn [app map helper_first].
    assert (Ht : helper_tx_witness h (b1 ++ bw :: b2) w = Ok (bs, [d], w')).
    { clear H1. induction H2 as [|b b1 Hb1 _ IH]; cbn [app helper_tx_witness]; unfold is_type.
      - by rewrite bool_decide_true, Hw by done.
      - by rewrite bool_decide_false. }
    rewrite Ht. cbn [res_bind]. rewrite helper_first_none by done. cbn [res_bind]. by rewrite app_nil_r.
  - cbn [concat] in H1. apply Forall_app in H1 as [H0 H1]. cbn [app map helper_first].
    rewrite helper_tx_none by done. cbn [res_bind]. by rewrite IH.
Qed.

Lemma block_helper_ok block bw p s rest : one_witness block bw -> Forall2 (bundle_ok h) (concat block) p ->
  ordered s -> s ≡ₚ spent p ++ rest -> Forall (fun x => blockNumber x < h) s -> NoDup (place <$> created p) ->
  Z.of_nat (length s + length (created p)) <= MAX_SIZE ->
  exists delta ds s' ww', GetSimplifiedWitnessUTXODeltaForBlockHelper h (map Some block) s s = Ok (delta, ds, s', ww') /\
    ordered s' /\ s' ≡ₚ created p ++ rest /\
    (Forall (fun b => bundleType b <> CreationType) (concat block) -> replay_header h delta s = Ok (ds, s')).
Proof.
  intros H1 Hok Hs Hp Hold Hnd Hl. pose proof H1 as (Hb & txs1 & b1 & b2 & txs2 & Eblk & Hall).
  assert (Ebs : concat block = (concat txs1 ++ b1) ++ bw :: (b2 ++ concat txs2)).
  { rewrite Eblk, concat_app. cbn [concat]. by rewrite <- !app_assoc. }
  assert (Hn : NoDup (place <$> created p ++ spent p ++ rest)).
  { rewrite fmap_app. apply NoDup_app. split_and!; [done| |rewrite <- Hp; by apply ordered_NoDup].
    intros q (y & -> & Hy)%list_elem_of_fmap (x & E & Hx)%list_elem_of_fmap. rewrite <- Hp in Hx.
    rewrite List.Forall_forall in Hold. apply list_elem_of_In, Hold in Hx. injection E as E _ _.
    assert (Hall' : Forall (fun y => blockNumber y = h) (created p)).
    { clear -Hok. unfold created. induction Hok as [|b [xs ys] bs p (_ & _ & _ & _ & Hy & _) Hok IH]; [constructor|].
      cbn. apply Forall_app. split; [|done]. eapply Forall_impl; [exact Hy|]. by intros y [_ ?]. }
    rewrite List.Forall_forall in Hall'. apply list_elem_of_In, Hall' in Hy. lia. }
  rewrite Ebs in Hok. apply Forall2_app_inv_l in Hok as (p1 & p' & Hok1 & Hok' & ->).
  inversion Hok' as [|? pw ? p2 Hw Hok2]; subst p'. destruct pw as [xw yw].
  assert (Es : spent (p1 ++ (xw, yw) :: p2) ≡ₚ xw ++ spent (p1 ++ p2)).
  { unfold spent. rewrite !fmap_app, !concat_app. cbn. solve_Permutation. }
  assert (Ec : created (p1 ++ (xw, yw) :: p2) ≡ₚ yw ++ created (p1 ++ p2)).
  { unfold created. rewrite !fmap_app, !concat_app. cbn. solve_Permutation. }
  rewrite Es, Ec in Hn. rewrite Es in Hp. rewrite Ec, length_app in Hl. unfold MAX_SIZE in Hl.
  destruct (helper_witness_ok bw xw yw s (spent (p1 ++ p2) ++ rest) Hb Hw Hs) as (bs & d & w1 & Ew & O1 & P1 & Lw & Ha).
  { by rewrite Hp, app_assoc. }
  { apply (places_part _ _ (created (p1 ++ p2)) Hn). solve_Permutation. }
  { unfold MAX_SIZE. lia. }
  destruct (helper_second_ok ((concat txs1 ++ b1) ++ (b2 ++ concat txs2)) (p1 ++ p2) w1 s (yw ++ rest) (xw ++ rest))
    as (bs' & ds & w2 & ww2 & E2 & O2 & P2 & Hrun); try done.
  { by apply Forall2_app. }
  { by rewrite <- !app_assoc. }
  { rewrite P1. solve_Permutation. }
  { apply (places_part _ _ xw Hn). solve_Permutation. }
  { rewrite Hp. solve_Permutation. }
  { apply (places_part _ _ yw Hn). solve_Permutation. }
  { unfold MAX_SIZE. lia. }
  exists (bs ++ bs'), (d :: ds), w2, ww2. unfold GetSimplifiedWitnessUTXODeltaForBlockHelper.
  rewrite (helper_first_one block bw bs d s w1 H1 Ew). cbn [res_bind].
  assert (Em : map (default []) (map Some block) = block) by (rewrite map_map; apply map_id).
  rewrite Em, Ebs, helper_second_skip, E2 by done. cbn [res_bind]. rewrite bool_decide_false by (by destruct (concat txs1 ++ b1)).
  split; [done|]. split_and!; [done|rewrite P2, Ec; solve_Permutation|]. intros Hnc.
  assert (Hd : bs ++ bs' <> []).
  { intros [-> _]%app_nil. specialize (Ha []). cbn in Ha. unfold apply_witness_action, rp_bind, read_varint, rp_read in Ha. done. }
  unfold replay_header. rewrite bool_decide_false by done. unfold rp_bind at 1. rewrite Ha.
  assert (Hr : apply_loop (length (bs ++ bs')) h (bs', w1) = Ok (ds, ([], w2))).
  { rewrite <- (app_nil_r ds). rewrite <- (app_nil_r bs') at 2. apply Hrun; [|apply runs_nil|].
    - apply Forall_app in Hnc as [N1 N2]. apply Forall_cons_iff in N2 as [_ N2]. by apply Forall_app.
    - cbn [fst]. rewrite app_nil_r, length_app. lia. }
  unfold rp_bind. by rewrite Hr.
Qed.

End Block.

(** ** Properties *)

(** C18: The helper refines the coins for coherent bundles. [block] is a block's bundles, one a witness
    action; [p] has the items of the coins each bundle spends and creates, which fit their encodings: spent ones have
    begun their lock, created ones are of this block at distinct places. Coherent: a
    witness action has one input and one output, at position 0; a renewal has an output for each input, in order,
    with the same keys, lock and amount; a rearrangement keeps keys and locks; an increase gives
    all outputs one lock from this block and keeps the witness key; a change of key pairs inputs and outputs in order with the same amount
    and lock. The rules accept others, see [accepted_bundles_coherent]: the helper can then
    abort, [accepted_renewal_aborts_block], or
    differ from the coins, [change_of_key_diverges]. If the
    set [s], in order, of older blocks and within the vector limit, has all spent items, the helper succeeds and ends
    with [s] without the spent and with the created items, in order. *)
Theorem block_delta_tracks_coins (F : FlatSet) (L : FlatSetLaws) h block bw p s rest :
  one_witness block bw -> Forall2 (bundle_ok h) (concat block) p ->
  ordered s -> s ≡ₚ spent p ++ rest -> Forall (fun x => blockNumber x < h) s -> NoDup (place <$> created p) ->
  Z.of_nat (length s + length (created p)) <= MAX_SIZE ->
  exists delta ds s' ww', GetSimplifiedWitnessUTXODeltaForBlockHelper h (map Some block) s s = Ok (delta, ds, s', ww') /\
    ordered s' /\ s' ≡ₚ created p ++ rest.
Proof.
  intros H1 Hok Hs Hp Hold Hnd Hl.
  destruct (block_helper_ok h block bw p s rest H1 Hok Hs Hp Hold Hnd Hl) as (delta & ds & s' & ww' & E & O & P & _).
  by exists delta, ds, s', ww'.
Qed.

(** the header follows the block. Under the same conditions, and when the block
    creates no new witness, the stream the helper writes replays on the same set to
    the same changes and the same set, so a node that only has the header follows
    the node that has the block. *)
Theorem header_follows_block (F : FlatSet) (L : FlatSetLaws) h block bw p s rest :
  one_witness block bw -> Forall2 (bundle_ok h) (concat block) p ->
  ordered s -> s ≡ₚ spent p ++ rest -> Forall (fun x => blockNumber x < h) s -> NoDup (place <$> created p) ->
  Z.of_nat (length s + length (created p)) <= MAX_SIZE ->
  Forall (fun b => bundleType b <> CreationType) (concat block) ->
  exists delta ds s' ww', GetSimplifiedWitnessUTXODeltaForBlockHelper h (map Some block) s s = Ok (delta, ds, s', ww') /\
    replay_header h delta s = Ok (ds, s').
Proof.
  intros H1 Hok Hs Hp Hold Hnd Hl Hnc.
  destruct (block_helper_ok h block bw p s rest H1 Hok Hs Hp Hold Hnd Hl) as (delta & ds & s' & ww' & E & _ & _ & R).
  exists delta, ds, s', ww'. split; [done|]. by apply R.
Qed.

(** A witness action, the end of an expired lock and a rearrangement at height 1500000. *)
Definition wit_item (v : Z) (w : CTxOutPoW2Witness) (height t n : Z) : item := mkItem (wit_out v w) w (COutPoint_ofPosition height t n).
Definition action_bundle : CWitnessTxBundle :=
  mkBundle WitnessType 0 [wit_item 5000 (wit 2 1550000 3 5) 1440000 2 0] [wit_item 5010 (wit 2 1550000 2 6) 1500000 9 0].
Definition expired_bundle : CWitnessTxBundle := mkBundle SpendType 1450000 [wit_item 6000 (wit 4 1499000 0 0) 1450000 3 1] [].
Definition split_bundle : CWitnessTxBundle :=
  mkBundle RearrangeType 1450000 [wit_item 7000 (wit 5 1600000 0 0) 1450000 3 2]
    [wit_item 3000 (wit 5 1600000 0 1) 1500000 1 0; wit_item 4000 (wit 5 1600000 0 1) 1500000 1 1].
Definition sample_block : list (list CWitnessTxBundle) := [[action_bundle]; [expired_bundle; split_bundle]].
Definition items_of (l : list item) : witness_set :=
  flat_map (fun i => match SItem_ofBundle i with Ok x => [x] | Err _ => [] end) l.
Definition sample_moves : list (witness_set * witness_set) := map (fun b => (items_of (b_inputs b), items_of (b_outputs b))) (concat sample_block).

(** Check the parts of [bundle_ok] that evaluate; the kind of the bundle is left. *)
Ltac eval_bundle :=
  split_and!;
  [repeat (apply List.Forall2_cons; [reflexivity|]); apply List.Forall2_nil
  |repeat (apply List.Forall2_cons; [reflexivity|]); apply List.Forall2_nil
  |repeat (apply List.Forall_cons; [reflexivity|]); apply List.Forall_nil
  |repeat (apply List.Forall_cons; [by vm_compute|]); apply List.Forall_nil
  |repeat (apply List.Forall_cons; [by vm_compute|]); apply List.Forall_nil
  |].

Lemma sample_block_ok : Forall2 (bundle_ok 1500000) (concat sample_block) sample_moves /\ one_witness sample_block action_bundle.
Proof.
  split.
  - repeat (apply List.Forall2_cons); [..|apply List.Forall2_nil]; eval_bundle.
    + do 2 eexists. split_and!; try reflexivity; split_and!; reflexivity.
    + split; [by eexists|reflexivity].
    + split_and!; [discriminate..|]. intros x y ->%list_elem_of_singleton Hy.
      repeat (apply elem_of_cons in Hy as [->|Hy]; [split_and!; reflexivity|]). by apply not_elem_of_nil in Hy.
  - split; [reflexivity|]. exists [], [], [], [[expired_bundle; split_bundle]]. split; [reflexivity|]. repeat constructor; discriminate.
Qed.

Lemma sample_moves_nodup : NoDup (place <$> created sample_moves).
Proof.
  apply NoDup_fmap_2_strong; [|apply (bool_decide_eq_true_1 _); vm_compute; reflexivity].
  intros x y Hx Hy. unfold created in *. vm_compute in Hx, Hy |- *.
  repeat (apply elem_of_cons in Hx as [->|Hx]); try (by apply not_elem_of_nil in Hx);
  repeat (apply elem_of_cons in Hy as [->|Hy]); try (by apply not_elem_of_nil in Hy); try reflexivity; discriminate.
Qed.

Lemma block_delta_tracks_coins_witness : exists delta ds s' ww',
  @GetSimplifiedWitnessUTXODeltaForBlockHelper sorted_list_set 1500000 (map Some sample_block) (spent sample_moves) (spent sample_moves)
    = Ok (delta, ds, s', ww') /\ s' ≡ₚ created sample_moves.
Proof.
  destruct sample_block_ok as [Hok H1].
  destruct (block_delta_tracks_coins sorted_list_set sorted_list_set_laws 1500000 sample_block action_bundle sample_moves (spent sample_moves) [])
    as (delta & ds & s' & ww' & E & _ & P).
  - exact H1.
  - exact Hok.
  - repeat constructor.
  - by rewrite app_nil_r.
  - repeat constructor.
  - exact sample_moves_nodup.
  - vm_compute. discriminate.
  - exists delta, ds, s', ww'. split; [exact E|]. by rewrite P, app_nil_r.
Defined.

Lemma header_follows_block_witness : exists delta ds s' ww',
  @GetSimplifiedWitnessUTXODeltaForBlockHelper sorted_list_set 1500000 (map Some sample_block) (spent sample_moves) (spent sample_moves)
    = Ok (delta, ds, s', ww') /\ @replay_header sorted_list_set 1500000 delta (spent sample_moves) = Ok (ds, s').
Proof.
  destruct sample_block_ok as [Hok H1].
  apply (header_follows_block sorted_list_set sorted_list_set_laws 1500000 sample_block action_bundle sample_moves (spent sample_moves) []).
  - exact H1.
  - exact Hok.
  - repeat constructor.
  - by rewrite app_nil_r.
  - repeat constructor.
  - exact sample_moves_nodup.
  - vm_compute. discriminate.
  - repeat constructor; discriminate.
Defined.

(** What the creation of a witness of 10000 coins becomes on the way through the header. *)
Definition creation_block : list (list CWitnessTxBundle) :=
  [[action_bundle]; [mkBundle CreationType 0 [] [mkItem (wit_out 10000 (mkWitnessDetails (repeat 1 20) (repeat 6 20) 0 1600000 0 0))
     (mkWitnessDetails (repeat 1 20) (repeat 6 20) 0 1600000 0 0) (COutPoint_ofPosition 1500000 1 0)]]].

(** creations do not survive the header. The helper writes the amount of a created
    witness as a plain VarInt and the replay reads a compressed amount: for a block
    with one witness action and one creation of 10000 coins both succeed, the set of
    the block holds 10000 coins and the set of the header more than all the money. *)
Theorem created_amount_misread :
  exists delta ds s' ww' ds' s'' x y,
    let s := items_of (b_inputs action_bundle) in
    @GetSimplifiedWitnessUTXODeltaForBlockHelper sorted_list_set 1500000 (map Some creation_block) s s = Ok (delta, ds, s', ww') /\
    @replay_header sorted_list_set 1500000 delta s = Ok (ds', s'') /\
    x ∈ s' /\ y ∈ s'' /\ place x = place y /\ si_nValue x = 10000 * COIN /\ MAX_MONEY < si_nValue y.
Proof.
  do 8 eexists. cbv zeta. split_and!; [vm_compute; reflexivity|vm_compute; reflexivity|left|left|reflexivity|reflexivity|].
  vm_compute. reflexivity.
Qed.

(** a transaction that the rules accept stops the node. The renewal of two equal
    witnesses into one output ([renew_tx]) passes every check of a transaction, and
    the helper asserts that a renewal has as many outputs as inputs, so computing the
    changes of a block that contains it aborts. *)
Theorem accepted_renewal_aborts_block : exists bs,
  let s := items_of (b_inputs action_bundle ++ flat_map b_inputs bs) in
  accepted renew_coins renew_tx bs /\ NoDup (place <$> s) /\
  @GetSimplifiedWitnessUTXODeltaForBlockHelper sorted_list_set 1500000 [Some [action_bundle]; Some bs] s s = Err aborted.
Proof.
  eexists. cbv zeta. unfold accepted. split_and!; [vm_compute; reflexivity..| |vm_compute; reflexivity].
  apply (bool_decide_eq_true_1 _). vm_compute. reflexivity.
Qed.

(** a change of witness key makes the set diverge from the coins. The helper pairs
    the inputs and the outputs of the bundle by their position and keeps the amount
    of the input, while the rules only ask that every input matches some output: the
    accepted [rekey_tx] creates a coin of 7000 coins whose item holds 100000. *)
Theorem change_of_key_diverges : exists bs b o y delta ds s' ww' x,
  let s := items_of (b_inputs action_bundle ++ flat_map b_inputs bs) in
  accepted renew_coins rekey_tx bs /\ b ∈ bs /\ o ∈ b_outputs b /\ item_is o y /\
  @GetSimplifiedWitnessUTXODeltaForBlockHelper sorted_list_set 1500000 [Some [action_bundle]; Some bs] s s = Ok (delta, ds, s', ww') /\
  x ∈ s' /\ place x = place y /\ si_nValue y = 7000 * COIN /\ si_nValue x = 100000 * COIN.
Proof.
  do 9 eexists. cbv zeta. unfold accepted, item_is.
  split_and!; [vm_compute; reflexivity|vm_compute; reflexivity|vm_compute; reflexivity|left|right; left|vm_compute; reflexivity
    |vm_compute; reflexivity|right; left|reflexivity..].
Qed.
