(* ===== verification/WitnessDeltaAccepted.v ===== *)
(** * WitnessDeltaAccepted: from the rules for transactions to the witness set

    The bundles that [BuildWitnessBundles] accepts move the items of the witness
    set as the specification of [WitnessDeltaBlock] asks ([coherent]): the rules
    of consensus/tx_verify.cpp discharge the assumptions of the theorems on the
    changes of a block, except where the rules are too weak, which the conditions
    of the theorem name. *)

From S2P Require Import Prelude Serialize Compressor Transaction ConsensusParams WitnessUtil TxCheck WitnessBundles WitnessDelta WitnessDeltaUndo WitnessDeltaBlock.

(** ** Definitions: the invariant while bundles are built *)

(** The height a witness has been locked from. *)
Definition actual_lock (x : item) : Z :=
  if lockFromBlock (it_details x) =? 0 then prevBlock_blockNumber (it_outpoint x) else lockFromBlock (it_details x).

(** What single matches check of an input and the output. *)
Definition paired (x o : item) : Prop :=
  blob_eqb (witnessKeyID (it_details x)) (witnessKeyID (it_details o)) = true /\
  lockUntilBlock (it_details x) = lockUntilBlock (it_details o) /\ lockFromBlock (it_details o) = actual_lock x.

(** A single match puts its input last; the bundle may have had others before. *)
Definition single_output (P : item -> item -> Prop) (b : CWitnessTxBundle) : Prop :=
  exists o, b_outputs b = [o] /\ (b_inputs b = [] \/ exists l x, b_inputs b = l ++ [x] /\ P x o).

(** The kinds a bundle passes through while inputs with its keys are added. *)
Definition multi_types : list WitnessTxType := [SpendType; RearrangeType; IncreaseType; ChangeWitnessKeyType].

Definition kind_inv (b : CWitnessTxBundle) : Prop :=
  match bundleType b with
  | WitnessType => single_output paired b
  | RenewType => single_output (fun x o => paired x o /\ nValue (it_out x) = nValue (it_out o)) b
  | CreationType => b_inputs b = [] /\ b_outputs b <> [] /\ Forall (fun o => lockFromBlock (it_details o) = 0) (b_outputs b)
  | _ => Forall (fun x => actual_lock x = inputsActualLockFromBlock b) (b_inputs b)
  end.

Definition placed_inv (h : Z) (b : CWitnessTxBundle) : Prop :=
  Forall (fun x => actual_lock x <> 0 /\ COutPoint_IsNull (it_outpoint x) = false) (b_inputs b) /\
  Forall (fun o => prevBlock_blockNumber (it_outpoint o) = h) (b_outputs b) /\ kind_inv b.

(** ** Lemmas *)

Section Accepted.
Variables (p : ChainParams) (getTxOut : COutPoint -> option (CTxOut * Z * Z * Z)) (h : Z).
Hypothesis coin_heights : forall o out n t i, getTxOut o = Some (out, n, t, i) -> 0 < n < 2 ^ 64.
Hypothesis block_height : 0 < h < 2 ^ 64.

Lemma match_output_inv o bs : prevBlock_blockNumber (it_outpoint o) = h -> Forall (placed_inv h) bs ->
  Forall (placed_inv h) (snd (match_output bs o)).
Proof.
  intros Ho. induction 1 as [|b bs (Hi & Hp & Hk) Hbs IH]; cbn [match_output]; [constructor|].
  assert (Hp' : Forall (fun o => prevBlock_blockNumber (it_outpoint o) = h) (b_outputs b ++ [o])) by (apply Forall_app; split; [done|by constructor]).
  destruct (is_type b CreationType && _ && _ && _) eqn:E1.
  { zbool. apply bool_decide_eq_true in H. constructor; [|done]. split_and!; [done|done|]. unfold kind_inv in *. cbn. rewrite H in *.
    destruct Hk as (-> & Hne & Hz). split_and!; [done|by destruct (b_outputs b)|]. apply Forall_app. split; [done|]. by constructor. }
  destruct ((is_type b SpendType || _) && _) eqn:E2.
  { constructor; [|done]. split_and!; [done|done|]. unfold kind_inv in *. cbn. zbool.
    apply orb_true_iff in H as [H|H]; apply bool_decide_eq_true in H; by rewrite H in Hk. }
  destruct (match_output bs o) as [m bs']. constructor; [by split_and!|done].
Qed.

Lemma outputs_loop_inv wcb ti outs : forall idx bs bs', Forall (placed_inv h) bs ->
  outputs_loop p outs wcb h ti idx bs = Ok bs' -> Forall (placed_inv h) bs'.
Proof.
  induction outs as [|o outs IH]; intros idx bs bs' Hbs Ho; cbn [outputs_loop] in Ho; [by inv_res|].
  destruct (GetPow2WitnessOutput o) as [w|]; cbn [res_bind] in Ho; [|by apply (IH _ _ _ Hbs Ho)].
  destruct (check_witness_output p o w h) as [[]|]; cbn [res_bind] in Ho; [|done].
  refine (IH _ _ _ _ Ho). unfold add_output. set (i := mkItem o w (COutPoint_ofPosition h ti idx)) in *.
  assert (Hi : prevBlock_blockNumber (it_outpoint i) = h) by (apply ofPosition_blockNumber; lia).
  assert (Hnew : forall t, kind_inv (mkBundle t 0 [] [i]) -> Forall (placed_inv h) (bs ++ [mkBundle t 0 [] [i]])).
  { intros t Ht. apply Forall_app. split; [done|]. constructor; [|constructor]. split_and!; [constructor|by constructor|done]. }
  destruct wcb; [apply Hnew; exists i; by split; [|left]|].
  pose proof (match_output_inv i bs Hi Hbs) as Hm. destruct (match_output bs i) as [m bs1]. cbn [snd] in Hm. destruct m; [done|].
  destruct ((lockFromBlock (it_details i) =? 0) && _) eqn:E; (apply Forall_app; split; [done|]; constructor; [|constructor]);
    (split_and!; [constructor|by constructor|]); cbn; [|constructor].
  zbool. split_and!; [done|done|]. by constructor.
Qed.

Lemma lock_consistent x o n : prevBlock_blockNumber (it_outpoint x) = n -> IsLockFromConsistent (it_details x) (it_details o) n = true ->
  lockFromBlock (it_details o) = actual_lock x.
Proof. intros Hn. unfold IsLockFromConsistent, actual_lock. rewrite Hn. destruct (_ =? 0); intros; zbool; lia. Qed.

Lemma match_single_inv input i n old : prevBlock_blockNumber (it_outpoint i) = n -> actual_lock i <> 0 /\ COutPoint_IsNull (it_outpoint i) = false -> forall bs r,
  match_single bs input i n old = Ok (Some r) -> Forall (placed_inv h) bs -> Forall (placed_inv h) r.
Proof.
  intros Hn Hl. induction bs as [|b bs IH]; intros r Hm Hbs; cbn [match_single] in Hm; [done|].
  apply Forall_cons_iff in Hbs as [(Hi & Hp & Hk) Hbs].
  assert (Hnext : (let! r0 := match_single bs input i n old in
      Ok (match r0 with Some bs' => Some (b :: bs') | None => None end)) = Ok (Some r) -> Forall (placed_inv h) r).
  { intros Hx. destruct (match_single bs input i n old) as [[r0|]|] eqn:E; cbn [res_bind] in Hx; [|done..]. inv_res.
    constructor; [by split_and!|by apply IH]. }
  destruct (b_outputs b) as [|o [|? ?]] eqn:Eo; [by apply Hnext| |by apply Hnext].
  assert (Hpush : forall t, kind_inv (with_type (push_input b i) t) -> r = with_type (push_input b i) t :: bs -> Forall (placed_inv h) r).
  { intros t Ht ->. constructor; [|done]. split_and!; [cbn; apply Forall_app; split; [done|by constructor]|by cbn; rewrite Eo|done]. }
  assert (Hlast : forall P : item -> item -> Prop, P i o -> forall t, single_output P (with_type (push_input b i) t)).
  { intros P HP t. exists o. split; [done|]. right. by exists (b_inputs b), i. }
  destruct (IsWitnessBundle _ _ _ _ _ _ _ _) eqn:Ew.
  { destruct (_ >? _); [done|]. inv_res. refine (Hpush WitnessType _ eq_refl). cbn. apply (Hlast paired).
    unfold IsWitnessBundle in Ew. chain Ew. zbool. split_and!; [done|done|eapply lock_consistent; eauto]. }
  destruct (IsRenewalBundle _ _ _ _) eqn:Er; [|by apply Hnext]. inv_res. refine (Hpush RenewType _ eq_refl). cbn.
  apply (Hlast (fun x o => paired x o /\ nValue (it_out x) = nValue (it_out o))).
  unfold IsRenewalBundle in Er. chain Er. unfold renewal_pair in *.
  match goal with H : (if negb (nValue _ =? _) then _ else _) = true |- _ => chain H end. zbool.
  split; [|done]. split_and!; [done|done|eapply lock_consistent; eauto].
Qed.

Lemma match_one_inv b i l m b' : actual_lock i = l -> l <> 0 /\ COutPoint_IsNull (it_outpoint i) = false -> match_one b i l = Ok (m, b') -> placed_inv h b -> placed_inv h b'.
Proof.
  intros Hl Hz Hm (Hi & Hp & Hk). unfold match_one in Hm. destruct (b_outputs b) as [|o os] eqn:Eo; [inv_res; by split_and!; rewrite ?Eo|].
  assert (Hadd : forall t, t = IncreaseType \/ t = RearrangeType \/ t = ChangeWitnessKeyType ->
    Forall (fun x => actual_lock x = inputsActualLockFromBlock b) (b_inputs b) ->
    (if inputsActualLockFromBlock (with_type b t) =? 0 then Ok (true, push_input (with_lockfrom (with_type b t) l) i)
     else if negb (inputsActualLockFromBlock (with_type b t) =? l) then Err bad_txns_in_witness_bundle_mismatching_lockfrom
     else Ok (true, push_input (with_type b t) i)) = Ok (m, b') -> placed_inv h b').
  { intros t Ht Hsame Hr.
    assert (Hres : bundleType b' = t /\ b_inputs b' = b_inputs b ++ [i] /\ b_outputs b' = b_outputs b /\
      Forall (fun x => actual_lock x = inputsActualLockFromBlock b') (b_inputs b')).
    { destruct (inputsActualLockFromBlock (with_type b t) =? 0) eqn:E0; cbn in E0; zbool.
      - inv_res. split_and!; [done..|]. cbn. destruct (b_inputs b) as [|x xs]; [by constructor|].
        apply Forall_inv in Hsame. apply Forall_inv in Hi. destruct Hi. congruence.
      - destruct (negb _) eqn:E1 in Hr; [done|]. cbn in E1. zbool. inv_res. split_and!; [done..|]. cbn.
        apply Forall_app. split; [done|]. by constructor. }
    destruct Hres as (Hty & Hin & Hout & Hall). split_and!.
    - rewrite Hin. apply Forall_app. split; [done|]. constructor; [congruence|constructor].
    - by rewrite Hout, Eo.
    - unfold kind_inv. rewrite Hty. by destruct Ht as [->|[->| ->]]. }
  assert (Hlisted : forall t t' t'' k k', (is_type b t || is_type b t' || is_type b t'') && k && k' = true ->
    t ∈ multi_types -> t' ∈ multi_types -> t'' ∈ multi_types -> Forall (fun x => actual_lock x = inputsActualLockFromBlock b) (b_inputs b)).
  { intros t t' t'' k k' E Ht Ht' Ht''. zbool. unfold is_type, kind_inv in *.
    assert (Hin : bundleType b ∈ multi_types).
    { apply orb_true_iff in H as [H|H]; [apply orb_true_iff in H as [H|H]|]; apply bool_decide_eq_true in H; by rewrite H. }
    unfold multi_types in Hin. repeat (apply elem_of_cons in Hin as [Hin|Hin]; [by rewrite Hin in Hk|]). by apply not_elem_of_nil in Hin. }
  match type of Hm with (if ?c then _ else _) = _ => destruct c eqn:E1 end.
  { revert Hm. apply Hadd; [destruct (_ =? 0); auto|]. apply (Hlisted _ _ _ _ _ E1); by apply (bool_decide_eq_true_1 _). }
  match type of Hm with (if ?c then _ else _) = _ => destruct c eqn:E2 end.
  { revert Hm. apply Hadd; [auto|]. apply (Hlisted _ _ _ _ _ E2); by apply (bool_decide_eq_true_1 _). }
  inv_res. unfold placed_inv. rewrite Eo. by split_and!.
Qed.

Lemma match_all_inv i l : actual_lock i = l -> l <> 0 /\ COutPoint_IsNull (it_outpoint i) = false -> forall bs m bs', match_all bs i l = Ok (m, bs') ->
  Forall (placed_inv h) bs -> Forall (placed_inv h) bs'.
Proof.
  intros Hl Hz. induction bs as [|b bs IH]; intros m bs' Hm Hbs; cbn [match_all] in Hm; [by inv_res|].
  apply Forall_cons_iff in Hbs as [Hb Hbs0].
  destruct (match_one b i l) as [[m1 b1]|] eqn:E1; cbn [res_bind] in Hm; [|done].
  destruct (match_all bs i l) as [[m2 bs2]|] eqn:E2; cbn [res_bind] in Hm; [|done]. inv_res.
  constructor; [by apply (match_one_inv b i (actual_lock i) m1)|by apply (IH m2)].
Qed.

Lemma check_input_inv bs out input n t x old bs' : 0 < n < 2 ^ 64 ->
  CheckTxInputAgainstWitnessBundles bs out input n t x old = Ok bs' -> Forall (placed_inv h) bs -> Forall (placed_inv h) bs'.
Proof.
  intros Hn Hc Hbs. unfold CheckTxInputAgainstWitnessBundles in Hc. destruct (GetPow2WitnessOutput out) as [w|]; [|by inv_res].
  set (i := mkItem out w _) in *.
  assert (Hi : prevBlock_blockNumber (it_outpoint i) = n) by (apply ofPosition_blockNumber; lia).
  assert (Hl : actual_lock i = if lockFromBlock w =? 0 then n else lockFromBlock w) by (unfold actual_lock; by rewrite Hi).
  assert (Hz : actual_lock i <> 0 /\ COutPoint_IsNull (it_outpoint i) = false).
  { split; [rewrite Hl; zcase; lia|by apply ofPosition_not_null]. }
  destruct (match_single bs input i n old) as [[r|]|] eqn:E; cbn [res_bind] in Hc; [| |done].
  { injection Hc as <-. by apply (match_single_inv input i n old Hi Hz bs). }
  destruct (_ || _); [|done]. destruct (match_all bs i _) as [[m bs1]|] eqn:Ea; cbn [res_bind] in Hc; [|done].
  pose proof (match_all_inv i _ Hl ltac:(by rewrite <- Hl) bs m bs1 Ea Hbs) as H1. injection Hc as Hc. destruct m; subst bs'; [done|].
  apply Forall_app. split; [done|]. constructor; [|constructor]. split_and!; [by constructor|constructor|by constructor].
Qed.

Lemma inputs_inv cb old : forall ins bs bs', bundle_inputs_loop getTxOut ins cb old bs = Ok bs' ->
  Forall (placed_inv h) bs -> Forall (placed_inv h) bs'.
Proof.
  induction ins as [|i ins IH]; intros bs bs' Hl Hbs; cbn [bundle_inputs_loop] in Hl; [by inv_res|].
  destruct (COutPoint_IsNull (prevout i) && cb); [by apply (IH bs)|].
  destruct (getTxOut (prevout i)) as [[[[o n] t] x]|] eqn:Eg; [|done].
  destruct (CheckTxInputAgainstWitnessBundles bs o i n t x old) as [bs1|] eqn:Ec; cbn [res_bind] in Hl; [|done].
  apply (IH bs1 bs' Hl). apply (check_input_inv bs o i n t x old bs1); [by apply (coin_heights _ _ _ _ _ Eg)|done|done].
Qed.

Lemma built_inv tx ti bs : BuildWitnessBundles p getTxOut tx h ti = Ok bs ->
  exists bs0, Forall (placed_inv h) bs0 /\ Forall2 (fun b b' => finish_bundle p h b = Ok b') bs0 bs.
Proof.
  unfold BuildWitnessBundles. intros Hb.
  destruct (outputs_loop _ _ _ _ _ _ _) as [bs1|] eqn:E1; cbn [res_bind] in Hb; [|done].
  destruct (bundle_inputs_loop _ _ _ _ _) as [bs2|] eqn:E2; cbn [res_bind] in Hb; [|done].
  exists bs2. split; [|by apply finish_loop_spec]. apply (inputs_inv _ _ _ _ _ E2).
  by apply (outputs_loop_inv _ _ _ _ _ _ (List.Forall_nil _) E1).
Qed.

End Accepted.

(** *** From elements of bundles to items of the set *)

Lemma item_is_lock i x : item_is i x -> si_lockFromBlock x = actual_lock i.
Proof. unfold item_is, SItem_ofBundle. destruct (negb _); [|done]. by intros [= <-]. Qed.

Lemma items_in ins xs x : Forall2 item_is ins xs -> x ∈ xs -> exists i, i ∈ ins /\ item_is i x.
Proof.
  intros H Hx. apply list_elem_of_lookup in Hx as [k Hk]. destruct (Forall2_lookup_r _ _ _ _ _ H Hk) as (i & Hi & Hix).
  exists i. split; [apply list_elem_of_lookup; by exists k|done].
Qed.

Lemma items_forall (P : item -> Prop) (Q : SimplifiedWitnessRouletteItem -> Prop) ins xs :
  (forall i x, item_is i x -> P i -> Q x) -> Forall2 item_is ins xs -> Forall P ins -> Forall Q xs.
Proof. intros HPQ H. induction H as [|i x ins xs Hi H IH]; [done|]. intros [Hp Hps]%Forall_cons_iff. constructor; eauto. Qed.

Lemma key_eq i o x y : item_is i x -> item_is o y -> item_fits x -> item_fits y ->
  blob_eqb (witnessKeyID (it_details i)) (witnessKeyID (it_details o)) = true -> witnessPubKeyID y = witnessPubKeyID x.
Proof.
  intros Hi Ho (_ & _ & _ & _ & _ & Hx & _) (_ & _ & _ & _ & _ & Hy & _) E.
  destruct (item_is_inv i x Hi) as (_ & _ & _ & Kx & _). destruct (item_is_inv o y Ho) as (_ & _ & _ & Ky & _).
  apply blob_eqb_eq in E; congruence.
Qed.

(** The lock of an output that dates from the lock of an input. *)
Lemma lock_kept i o x y : item_is i x -> item_is o y -> actual_lock i <> 0 ->
  lockFromBlock (it_details o) = actual_lock i -> si_lockFromBlock y = si_lockFromBlock x.
Proof.
  intros Hi Ho Hz E. rewrite (item_is_lock _ _ Hi), (item_is_lock _ _ Ho). unfold actual_lock at 1. rewrite E.
  destruct (Z.eqb_spec (actual_lock i) 0); congruence.
Qed.

Lemma paired_kept i o x y : item_is i x -> item_is o y -> item_fits x -> item_fits y -> actual_lock i <> 0 -> paired i o -> kept x y.
Proof.
  intros Hi Ho Fx Fy Hz (Ek & Eu & Ef). destruct (item_is_inv i x Hi) as (_ & _ & _ & _ & Ux & _).
  destruct (item_is_inv o y Ho) as (_ & _ & _ & _ & Uy & _).
  split_and!; [congruence|by apply (lock_kept i o)|by apply (key_eq i o)].
Qed.

(** *** The kinds of bundle *)

(** What the theorem asks of a bundle where the rules are too weak: a witness action
    or a change of key has one input, the witness action is the first output of its
    transaction, and a renewal has an output per input. *)
Definition rules_suffice (b : CWitnessTxBundle) (xs ys : witness_set) : Prop :=
  match bundleType b with
  | WitnessType => length xs = 1%nat /\ Forall (fun y => transactionOutputIndex y = 0) ys
  | RenewType => length xs = length ys
  | ChangeWitnessKeyType => length xs = 1%nat
  | _ => True
  end.

Lemma forallb_elem {A} (f : A -> bool) l x : forallb f l = true -> x ∈ l -> f x = true.
Proof. intros H Hx. apply (proj1 (forallb_forall _ _) H). by apply list_elem_of_In. Qed.

Lemma existsb_elem {A} (f : A -> bool) l x : existsb f l = false -> x ∈ l -> f x = false.
Proof.
  intros H Hx. destruct (f x) eqn:E; [|done]. rewrite <- H. symmetry. apply existsb_exists. exists x. split; [by apply list_elem_of_In|done].
Qed.

Lemma elem_combine {A B} k (l : list A) (m : list B) x y : l !! k = Some x -> m !! k = Some y -> (x, y) ∈ combine l m.
Proof.
  revert k m. induction l as [|a l IH]; intros [|k] [|c m] Hx Hy; try done; cbn in *.
  - injection Hx as <-. injection Hy as <-. left.
  - right. by apply (IH k).
Qed.

Section Kinds.
Variables (b : CWitnessTxBundle) (xs ys : witness_set).
Hypotheses (Hxs : Forall2 item_is (b_inputs b) xs) (Hys : Forall2 item_is (b_outputs b) ys).
Hypotheses (Fx : Forall item_fits xs) (Fy : Forall item_fits ys).
Hypothesis locked : Forall (fun i => actual_lock i <> 0 /\ COutPoint_IsNull (it_outpoint i) = false) (b_inputs b).

Lemma items_pair x y : x ∈ xs -> y ∈ ys -> exists i o, i ∈ b_inputs b /\ o ∈ b_outputs b /\ item_is i x /\ item_is o y /\
  item_fits x /\ item_fits y /\ actual_lock i <> 0.
Proof.
  intros Hx Hy. destruct (items_in _ _ _ Hxs Hx) as (i & Hi & Hix). destruct (items_in _ _ _ Hys Hy) as (o & Ho & Hoy).
  exists i, o. split_and!; try done; [by apply (proj1 (Forall_forall _ _) Fx)|by apply (proj1 (Forall_forall _ _) Fy)|].
  by destruct (proj1 (Forall_forall _ _) locked i Hi).
Qed.

Lemma items_nonempty ins zs : Forall2 item_is ins zs -> ins <> [] -> zs <> [].
Proof. intros H. by destruct H. Qed.

Lemma single_items (P : item -> item -> Prop) : single_output P b -> length xs = 1%nat ->
  exists i o x y, xs = [x] /\ ys = [y] /\ P i o /\ item_is i x /\ item_is o y /\ item_fits x /\ item_fits y /\ actual_lock i <> 0.
Proof.
  intros (o & Eo & Hin) Hl. pose proof (Forall2_length _ _ _ Hxs) as Hli. rewrite Hl in Hli.
  destruct Hin as [Hn|(l & i & Ei & HP)]; [by rewrite Hn in Hli|].
  assert (l = []) as -> by (rewrite Ei, length_app in Hli; destruct l; [done|cbn in Hli; lia]).
  rewrite Ei in Hxs, locked. rewrite Eo in Hys. cbn [app] in *.
  apply Forall2_cons_inv_l in Hxs as (x & xs' & Hix & Hn & Exs). apply Forall2_nil_inv_l in Hn as ->.
  apply Forall2_cons_inv_l in Hys as (y & ys' & Hoy & Hn & Eys). apply Forall2_nil_inv_l in Hn as ->.
  rewrite Exs in Fx. rewrite Eys in Fy. apply Forall_inv in Fx, Fy, locked. destruct locked.
  exists i, o, x, y. by split_and!.
Qed.

Lemma keys_agree i0 o0 : i0 ∈ b_inputs b -> o0 ∈ b_outputs b ->
  (forall i, i ∈ b_inputs b -> same_keys (it_details i) (it_details o0) = true) ->
  (forall o, o ∈ b_outputs b -> same_keys (it_details i0) (it_details o) = true) ->
  forall x y, x ∈ xs -> y ∈ ys -> witnessPubKeyID y = witnessPubKeyID x.
Proof.
  intros Hi0 Ho0 Hi Ho x y Hx Hy.
  apply list_elem_of_lookup in Hi0 as [k Hk]. destruct (Forall2_lookup_l _ _ _ _ _ Hxs Hk) as (x0 & Hx0 & Hix0).
  apply list_elem_of_lookup in Ho0 as [m Hm]. destruct (Forall2_lookup_l _ _ _ _ _ Hys Hm) as (y0 & Hy0 & Hoy0).
  apply list_elem_of_lookup_2 in Hk, Hm, Hx0, Hy0.
  destruct (items_pair x y Hx Hy) as (i & o & Hin & Hout & Hix & Hoy & Fx1 & Fy1 & _).
  destruct (items_pair x0 y0 Hx0 Hy0) as (_ & _ & _ & _ & _ & _ & Fx0 & Fy0 & _).
  assert (Hw : forall a c, same_keys a c = true -> blob_eqb (witnessKeyID a) (witnessKeyID c) = true) by (unfold same_keys; intros; by zbool).
  pose proof (key_eq i o0 x y0 Hix Hoy0 Fx1 Fy0 (Hw _ _ (Hi i Hin))).
  pose proof (key_eq i0 o x0 y Hix0 Hoy Fx0 Fy1 (Hw _ _ (Ho o Hout))).
  pose proof (key_eq i0 o0 x0 y0 Hix0 Hoy0 Fx0 Fy0 (Hw _ _ (Ho o0 Hm))). congruence.
Qed.

(** The locks of a bundle whose outputs all date from the common lock of its inputs. *)
Lemma locks_agree : Forall (fun x => actual_lock x = inputsActualLockFromBlock b) (b_inputs b) -> bundle_IsLockFromConsistent b = true ->
  forall i o, i ∈ b_inputs b -> o ∈ b_outputs b -> lockFromBlock (it_details o) = actual_lock i.
Proof.
  intros Hall Hc i o Hi Ho. unfold bundle_IsLockFromConsistent in Hc. destruct (_ && _); [done|].
  pose proof (forallb_elem _ _ _ Hc Ho) as E. cbv beta in E. zbool.
  pose proof (proj1 (Forall_forall _ _) Hall i Hi). cbv beta in *. congruence.
Qed.

Lemma ys_height h : 0 < h -> Forall (fun o => prevBlock_blockNumber (it_outpoint o) = h) (b_outputs b) ->
  Forall (fun y => item_fits y /\ blockNumber y = h) ys.
Proof.
  intros Hh Ho. apply Forall_and; split; [done|]. revert Ho. apply (items_forall _ _ (b_outputs b)); [|done].
  intros o y Hoy E. destruct (item_is_inv o y Hoy) as (_ & _ & _ & _ & _ & ->). done.
Qed.

Lemma increase_coherent h : IsValidIncreaseBundle b = true -> 0 < h ->
  Forall (fun o => prevBlock_blockNumber (it_outpoint o) = h) (b_outputs b) -> coherent h IncreaseType xs ys.
Proof.
  intros Hv Hh Hout. pose proof (items_nonempty _ _ Hxs) as Nx. pose proof (items_nonempty _ _ Hys) as Ny.
  pose proof (fun i0 o0 => keys_agree i0 o0) as Hk. pose proof items_pair as Hpair.
  unfold IsValidIncreaseBundle in Hv. destruct (b_inputs b) as [|i0 ins] eqn:Ei; [done|].
  destruct (b_outputs b) as [|o0 os] eqn:Eo; [done|]. chain Hv.
  assert (Hrest : forall o, o ∈ o0 :: os -> same_keys (it_details i0) (it_details o) = true /\ lockFromBlock (it_details o) = 0).
  { intros o Ho. pose proof (forallb_elem _ _ _ E0 Ho) as Hb. cbv beta in Hb. zbool. by split. }
  assert (Huntil : forall o, o ∈ o0 :: os -> lockUntilBlock (it_details o) = lockUntilBlock (it_details o0)).
  { intros o [->|Ho]%elem_of_cons; [done|]. pose proof (existsb_elem _ _ _ E2 Ho) as Hb. cbv beta in Hb. zbool. done. }
  assert (Hy : forall y, y ∈ ys -> si_lockFromBlock y = h /\ si_lockUntilBlock y = lockUntilBlock (it_details o0)).
  { intros y Hy. destruct (items_in _ _ _ Hys Hy) as (o & Ho & Hoy). destruct (Hrest o Ho) as [_ El].
    rewrite (item_is_lock o y Hoy). unfold actual_lock. rewrite El. cbn [Z.eqb].
    destruct (item_is_inv o y Hoy) as (_ & _ & _ & _ & <- & _). split; [|by apply Huntil].
    by apply (proj1 (Forall_forall _ _) Hout). }
  split_and!; [by apply Nx|by apply Ny| |by intros; apply Hy|].
  - apply (Hk i0 o0); [left|left|by intros; apply (forallb_elem _ _ _ E)|by intros; apply Hrest].
  - intros y y' H1 H2. destruct (Hy y H1), (Hy y' H2). congruence.
Qed.

Lemma rearrange_coherent h : IsValidRearrangeBundle b = true ->
  Forall (fun x => actual_lock x = inputsActualLockFromBlock b) (b_inputs b) -> coherent h RearrangeType xs ys.
Proof.
  intros Hv Hsame. pose proof (items_nonempty _ _ Hxs) as Nx. pose proof (items_nonempty _ _ Hys) as Ny.
  pose proof (fun i0 o0 => keys_agree i0 o0) as Hk. pose proof items_pair as Hpair. pose proof (locks_agree Hsame) as Hlock.
  unfold IsValidRearrangeBundle in Hv. destruct (b_inputs b) as [|i0 ins] eqn:Ei; [done|].
  destruct (b_outputs b) as [|o0 os] eqn:Eo; [done|]. chain Hv. specialize (Hlock Hv).
  assert (Hi : forall i, i ∈ i0 :: ins -> same_keys (it_details i) (it_details o0) = true /\
                                          lockUntilBlock (it_details i) = lockUntilBlock (it_details o0)).
  { intros i Hi. pose proof (forallb_elem _ _ _ E Hi) as Hb. cbv beta in Hb. zbool. by split. }
  assert (Ho : forall o, o ∈ o0 :: os -> same_keys (it_details i0) (it_details o) = true /\
                                         lockUntilBlock (it_details i0) = lockUntilBlock (it_details o)).
  { intros o Ho. pose proof (forallb_elem _ _ _ E0 Ho) as Hb. cbv beta in Hb. zbool. by split. }
  split_and!; [by apply Nx|by apply Ny|]. intros x y Hx Hy.
  destruct (Hpair x y Hx Hy) as (i & o & Hin & Hon & Hix & Hoy & _ & _ & Hz). unfold kept.
  destruct (item_is_inv i x Hix) as (_ & _ & _ & _ & <- & _). destruct (item_is_inv o y Hoy) as (_ & _ & _ & _ & <- & _).
  split_and!; [|by apply (lock_kept i o); auto|].
  - destruct (Hi i Hin), (Ho o Hon), (Hi i0 ltac:(left)). congruence.
  - apply (Hk i0 o0); [left|left|by intros; apply Hi|by intros; apply Ho|done|done].
Qed.

Lemma multi_renewal_coherent p h : IsValidMultiRenewalBundle p b h = true ->
  Forall (fun x => actual_lock x = inputsActualLockFromBlock b) (b_inputs b) -> coherent h RenewType xs ys.
Proof.
  intros Hv Hsame. unfold IsValidMultiRenewalBundle in Hv. chain Hv. zbool. apply Nat.eqb_eq in E2.
  pose proof (locks_agree Hsame Hv) as Hlock.
  split; [intros Hn; apply Forall2_length in Hxs; rewrite Hn in Hxs; cbn in Hxs; lia|].
  apply Forall2_same_length_lookup. split; [apply Forall2_length in Hxs, Hys; congruence|]. intros k x y Hx Hy.
  destruct (Forall2_lookup_r _ _ _ _ _ Hxs Hx) as (i & Hi & Hix). destruct (Forall2_lookup_r _ _ _ _ _ Hys Hy) as (o & Ho & Hoy).
  assert (Hpair : renewal_pair i o = true).
  { assert (Hio : (i, o) ∈ combine (b_inputs b) (b_outputs b)).
    { by apply (elem_combine k). }
    pose proof (forallb_elem _ _ _ E3 Hio) as Hb. cbv beta in Hb. by zbool. }
  apply list_elem_of_lookup_2 in Hi, Ho, Hx, Hy.
  destruct (items_pair x y Hx Hy) as (_ & _ & _ & _ & _ & _ & Fx1 & Fy1 & _).
  destruct (proj1 (Forall_forall _ _) locked i Hi) as [Hz _].
  destruct (item_is_inv i x Hix) as (_ & _ & Vx & _). destruct (item_is_inv o y Hoy) as (_ & _ & Vy & _).
  unfold renewal_pair in Hpair. chain Hpair. zbool. split; [|congruence].
  apply (paired_kept i o); try done. split_and!; [done|done|by apply Hlock].
Qed.

Lemma rekey_coherent h : IsValidChangeWitnessKeyBundle b = true -> length xs = 1%nat ->
  Forall (fun x => actual_lock x = inputsActualLockFromBlock b) (b_inputs b) -> coherent h ChangeWitnessKeyType xs ys.
Proof.
  intros Hv Hl Hsame. unfold IsValidChangeWitnessKeyBundle in Hv. destruct (_ || _) eqn:Eg in Hv; [done|].
  apply orb_false_iff in Eg as [_ Eg]. zbool. apply Nat.eqb_eq in Eg.
  pose proof (Forall2_length _ _ _ Hxs) as Lx. pose proof (Forall2_length _ _ _ Hys) as Ly.
  pose proof (locks_agree Hsame) as Hlock. pose proof items_pair as Hpair.
  destruct (b_inputs b) as [|i [|? ?]]; cbn in *; [lia| |lia].
  destruct (b_outputs b) as [|o [|? ?]]; cbn in *; [lia| |lia].
  destruct xs as [|x [|? ?]]; cbn in *; [lia| |lia]. destruct ys as [|y [|? ?]]; cbn in *; [lia| |lia].
  destruct (changes_key i o) eqn:Ec; [|done]. destruct (bundle_IsLockFromConsistent b) eqn:El; [|done].
  destruct (Hpair x y ltac:(left) ltac:(left)) as (i' & o' & Hi & Ho & Hix & Hoy & _ & _ & Hz).
  apply list_elem_of_singleton in Hi as ->, Ho as ->. unfold changes_key in Ec. zbool.
  destruct (item_is_inv i x Hix) as (_ & _ & Vx & _ & Ux & _). destruct (item_is_inv o y Hoy) as (_ & _ & Vy & _ & Uy & _).
  split_and!; [done| |by intros y1 y2 ->%list_elem_of_singleton ->%list_elem_of_singleton].
  constructor; [|constructor]. split_and!; [congruence|apply (lock_kept i o); try done; apply Hlock; left || done|congruence].
Qed.

End Kinds.

Lemma finished_coherent p h b0 b xs ys : placed_inv h b0 -> finish_bundle p h b0 = Ok b -> 0 < h ->
  Forall2 item_is (b_inputs b) xs -> Forall2 item_is (b_outputs b) ys -> Forall item_fits xs -> Forall item_fits ys ->
  rules_suffice b xs ys -> coherent h (bundleType b) xs ys.
Proof.
  intros (Hz & Hout & Hk) Hf Hh Hxs Hys Fx Fy Hr. destruct (finish_bundle_same p h b0 b Hf) as [Ei Eo].
  rewrite Ei in Hxs. rewrite Eo in Hys. unfold finish_bundle in Hf. unfold kind_inv in Hk. unfold rules_suffice in Hr.
  destruct (bundleType b0) eqn:Et.
  - injection Hf as <-. rewrite Et. destruct Hk as (Hn & Hne & Hl). rewrite Hn in Hxs. apply Forall2_nil_inv_l in Hxs as ->.
    split_and!; [done|by apply (items_nonempty _ _ Hys)|]. assert (Hb : Forall (fun o => actual_lock o = h) (b_outputs b0)).
    { apply (Forall_impl _ _ _ (proj2 (Forall_and _ _) (conj Hout Hl))). intros o [<- E]. unfold actual_lock. by rewrite E. }
    revert Hb. apply (items_forall _ _ (b_outputs b0)); [|done]. intros o y Hoy <-. by apply item_is_lock.
  - injection Hf as <-. rewrite Et in *. destruct Hr as [Hl Hi0].
    destruct (single_items b0 xs ys Hxs Hys Fx Fy Hz _ Hk Hl) as (i & o & x & y & -> & -> & HP & Hix & Hoy & Fx1 & Fy1 & Hzi).
    exists x, y. split_and!; try done; [by apply (paired_kept i o)|by apply Forall_inv in Hi0].
  - destruct (IsValidSpendBundle b0 h) eqn:Ev; [|done]. injection Hf as <-. rewrite Et. unfold IsValidSpendBundle in Ev.
    destruct (b_outputs b0); [|done]. destruct (b_inputs b0) as [|i [|? ?]]; try done.
    apply Forall2_nil_inv_l in Hys as ->. apply Forall2_cons_inv_l in Hxs as (x & xs' & _ & Hn & ->).
    apply Forall2_nil_inv_l in Hn as ->. split; [by exists x|done].
  - injection Hf as <-. rewrite Et in *.
    assert (Hl : length xs = 1%nat).
    { destruct Hk as (o & Eo' & _). rewrite Hr. rewrite Eo' in Hys. apply Forall2_length in Hys. by cbn in Hys. }
    destruct (single_items b0 xs ys Hxs Hys Fx Fy Hz _ Hk Hl) as (i & o & x & y & -> & -> & [HP HV] & Hix & Hoy & Fx1 & Fy1 & Hzi).
    destruct (item_is_inv i x Hix) as (_ & _ & Vx & _). destruct (item_is_inv o y Hoy) as (_ & _ & Vy & _).
    split; [done|]. constructor; [|constructor]. split; [by apply (paired_kept i o)|congruence].
  - destruct (IsValidIncreaseBundle b0) eqn:Ev; [|done]. injection Hf as <-. rewrite Et. by apply (increase_coherent b0).
  - destruct (IsValidRearrangeBundle b0) eqn:Ev.
    { injection Hf as <-. rewrite Et. by apply (rearrange_coherent b0). }
    destruct (IsValidMultiRenewalBundle p b0 h) eqn:Em; [|done]. injection Hf as <-. by apply (multi_renewal_coherent b0 xs ys Hxs Hys Fx Fy Hz p).
  - destruct (IsValidChangeWitnessKeyBundle b0) eqn:Ev; [|done]. injection Hf as <-. rewrite Et in *. by apply (rekey_coherent b0).
Qed.

(** ** Properties *)

(** C29: what the rules accept, the witness set can follow. Every bundle of a
    transaction that [BuildWitnessBundles] accepts at a height, with coins of
    earlier blocks, moves the items of its coins as [block_delta_tracks_coins] asks,
    as long as amounts, locks and keys are of the sizes the encodings hold. The
    rules themselves leave three cases open, which [rules_suffice] names: a witness
    action or change of key with several inputs, a witness action at another output
    than the first, and a renewal of several witnesses into one. *)
Theorem accepted_bundles_coherent p getTxOut tx h ti bs b xs ys :
  (forall o out n t i, getTxOut o = Some (out, n, t, i) -> 0 < n < 2 ^ 64) -> 0 < h < 2 ^ 64 ->
  BuildWitnessBundles p getTxOut tx h ti = Ok bs -> b ∈ bs ->
  Forall2 item_is (b_inputs b) xs -> Forall2 item_is (b_outputs b) ys -> Forall item_fits xs -> Forall item_fits ys ->
  rules_suffice b xs ys -> bundle_ok h b (xs, ys).
Proof.
  intros Hcoin Hh Hb Hin Hxs Hys Fx Fy Hr. destruct (built_inv p getTxOut h Hcoin Hh tx ti bs Hb) as (bs0 & Hinv & Hf).
  apply list_elem_of_lookup in Hin as [k Hk]. destruct (Forall2_lookup_r _ _ _ _ _ Hf Hk) as (b0 & Hk0 & Hfb).
  pose proof (Forall_lookup_1 _ _ _ _ Hinv Hk0) as Hp0. destruct (finish_bundle_same p h b0 b Hfb) as [Ei Eo].
  assert (Hlive : Forall item_live xs /\ Forall (fun i => COutPoint_IsNull (it_outpoint i) = false) (b_inputs b)).
  { destruct Hp0 as (Hz & _). rewrite <- Ei in Hz. apply Forall_and in Hz as [Hz Hn]. split; [|done].
    assert (Hnz : Forall (fun x => si_lockFromBlock x <> 0) xs).
    { revert Hz. apply (items_forall _ _ (b_inputs b)); [|done]. intros i x Hix Hl. by rewrite (item_is_lock i x Hix). }
    apply (Forall_impl _ _ _ (proj2 (Forall_and _ _) (conj Fx Hnz))). intros x [F N]. split; [done|].
    destruct F as (_ & _ & _ & _ & Hl & _). lia. }
  destruct Hlive as [Hlive Hnull]. unfold bundle_ok. cbn [fst snd]. split_and!; try done.
  - destruct Hp0 as (_ & Hout & _). rewrite <- Eo in Hout. apply (ys_height b ys Hys Fy h); [lia|done].
  - apply (finished_coherent p h b0); try done; lia.
Qed.

Lemma accepted_bundles_coherent_witness : exists bs b x y1 y2,
  BuildWitnessBundles CMainParams (txouts_of renew_coins) split_tx 1500000 0 = Ok bs /\ b ∈ bs /\ bundle_ok 1500000 b ([x], [y1; y2]).
Proof.
  destruct (BuildWitnessBundles CMainParams (txouts_of renew_coins) split_tx 1500000 0) as [bs|e] eqn:E; [|vm_compute in E; discriminate].
  destruct bs as [|b bs']; [vm_compute in E; discriminate|].
  assert (Hb : bundleType b = RearrangeType /\ exists x y1 y2, Forall2 item_is (b_inputs b) [x] /\ Forall2 item_is (b_outputs b) [y1; y2] /\
    Forall item_fits [x] /\ Forall item_fits [y1; y2]).
  { vm_compute in E. injection E as <- <-. split; [reflexivity|]. do 3 eexists.
    split_and!; [repeat (apply List.Forall2_cons; [reflexivity|]); apply List.Forall2_nil..| |];
      (repeat (apply List.Forall_cons; [by vm_compute|]); apply List.Forall_nil). }
  destruct Hb as (Ht & x & y1 & y2 & Hx & Hy & Fx & Fy). exists (b :: bs'), b, x, y1, y2. split_and!; [reflexivity|left|].
  apply (accepted_bundles_coherent CMainParams (txouts_of renew_coins) split_tx 1500000 0 (b :: bs')); try assumption.
  - intros o out n t i Hc. unfold txouts_of, coins_of in Hc. destruct (nth_error _ _); [|discriminate].
    injection Hc as <- <- <- <-. vm_compute. split; reflexivity.
  - vm_compute. split; reflexivity.
  - left.
  - unfold rules_suffice. rewrite Ht. exact I.
Defined.
