(* ===== verification/WitnessSelect.v ===== *)
(** * WitnessSelect: the choice of a block's witness in [src/src/validation/witnessvalidation.{h,cpp}]

    The weighted draw of the witness of a block from the hash of the block, the
    period within which a witness must be drawn to stay in the pool, the pools
    built from the coins and from the simplified witness set, and the changes of a
    block with the check of their signer. The coins of a chain
    ([getAllUnspentWitnessCoins]) and the hash of a public key are arguments. *)

From stdpp Require Import sorting.
From S2P Require Import Prelude ArithUint256 Serialize Compressor Transaction ConsensusParams WitnessUtil TxCheck WitnessBundles WitnessDelta.

(** ** Definitions *)

Definition gMinimumParticipationAge : Z := 100.
Definition gMaximumParticipationAge : Z := 365 * gRefactorDailyBlocksUsage.

(** *** The period within which a witness is expected; [None]: division by zero *)

Definition period_base : base_uint := mul (mul (arith 100000000) (arith 100000000)) (arith 100000000).
(** [(BASE(1)/(BASE(nWeight)/AI(networkTotalWeight))).GetLow64()]. *)
Definition period_ratio (nWeight networkTotalWeight : Z) : option Z :=
  match div (mul (arith nWeight) period_base) (arith networkTotalWeight) with
  | Some q => match div (mul (arith 1) period_base) q with Some r => Some (GetLow64 r) | None => None end
  | None => None
  end.
Definition cap_weight (nWeight networkTotalWeight : Z) : Z :=
  if nWeight >? networkTotalWeight / 100 then networkTotalWeight / 100 else nWeight.

Definition expectedWitnessBlockPeriod (nWeight networkTotalWeight : Z) : option Z :=
  if (nWeight =? 0) || (networkTotalWeight =? 0) then Some 0
  else match period_ratio (cap_weight nWeight networkTotalWeight) networkTotalWeight with
       | Some r => Some (u64 (100 + Z.max (u64 (r * 10)) 1000))
       | None => None
       end.
Definition estimatedWitnessBlockPeriod (nWeight networkTotalWeight : Z) : option Z :=
  if (nWeight =? 0) || (networkTotalWeight =? 0) then Some 0
  else match period_ratio (cap_weight nWeight networkTotalWeight) networkTotalWeight with
       | Some r => Some (u64 (100 + r))
       | None => None
       end.

Definition witnessHasExpired (nWitnessAge nWitnessWeight nNetworkTotalWitnessWeight : Z) : option bool :=
  if nWitnessWeight =? 0 then Some false
  else match expectedWitnessBlockPeriod nWitnessWeight nNetworkTotalWitnessWeight with
       | Some nExpectedWitnessPeriod =>
           Some ((nWitnessAge >? gMaximumParticipationAge) || (nWitnessAge >? nExpectedWitnessPeriod))
       | None => None
       end.

(** *** Pools *)

Record RouletteItem := mkRoulette {
  ri_outpoint : COutPoint;
  ri_coin : Coin;
  nWeight : Z;
  nAge : Z;
  nCumulativeWeight : Z
}.

Definition RouletteItem_new (o : COutPoint) (c : Coin) (w a : Z) : RouletteItem := mkRoulette o c (u64 w) (u64 a) 0.

Definition roulette_ltb (a b : RouletteItem) : bool :=
  if nAge a =? nAge b then COutPoint_ltb (ri_outpoint a) (ri_outpoint b) else nAge a <? nAge b.

(** The members of [CGetWitnessInfo] that the selection writes. *)
Record CGetWitnessInfo := mkInfo {
  witnessSelectionPoolUnfiltered : list RouletteItem;
  witnessSelectionPoolFiltered : list RouletteItem;
  selectedWitnessTransaction : CTxOut;
  selectedWitnessIndex : Z;
  selectedWitnessOutpoint : COutPoint;
  selectedWitnessBlockHeight : Z;
  nTotalWeightRaw : Z;
  nTotalWeightEligibleRaw : Z;
  nTotalWeightEligibleAdjusted : Z;
  nMaxIndividualWeight : Z
}.
(** With the two members that the pools are made of. *)
Definition pool_info (pool : list RouletteItem) (total : Z) : CGetWitnessInfo :=
  mkInfo pool [] CTxOut_default 0 (mkOutPoint (blob_null 32) true UINT31_MAX) 0 total 0 0 0.

(** *** Filtering *)

(** [remove_if] with a predicate that may throw. *)
Fixpoint drop_expired (total : Z) (pool : list RouletteItem) : option (list RouletteItem) :=
  match pool with
  | [] => Some []
  | x :: xs =>
      match witnessHasExpired (nAge x) (nWeight x) total, drop_expired total xs with
      | Some e, Some ys => Some (if e then ys else x :: ys)
      | _, _ => None
      end
  end.

(** The details of an output that is not a witness output stay cleared. *)
Definition details_of (x : RouletteItem) : CTxOutPoW2Witness :=
  match GetPow2WitnessOutput (coin_out (ri_coin x)) with Some w => w | None => CTxOutPoW2Witness_clear end.
Definition old_enough (nMinAge : Z) (x : RouletteItem) : bool := negb (nAge x <=? nMinAge).
Definition locked_enough (nMinAge nBlockHeight : Z) (x : RouletteItem) : bool :=
  negb (GetPoW2RemainingLockLengthInBlocks (lockUntilBlock (details_of x)) nBlockHeight <=? nMinAge).

Definition filter_pool (nMinAge nBlockHeight total : Z) (pool : list RouletteItem) : option (list RouletteItem) :=
  match drop_expired total (List.filter (old_enough nMinAge) pool) with
  | Some ys => Some (List.filter (locked_enough nMinAge nBlockHeight) ys)
  | None => None
  end.

(** The loop over the minimum age, from 100 in steps of 5. *)
Fixpoint pool_loop (fuel : nat) (nMinAge nBlockHeight total : Z) (pool : list RouletteItem)
    : res failure (list RouletteItem) :=
  match filter_pool nMinAge nBlockHeight total pool with
  | None => Err thrown
  | Some filtered =>
      let size := Z.of_nat (length filtered) in
      if size <? 100 then
        if (nMinAge =? 0) || ((nMinAge <=? 10) && (size >? 5)) then Ok filtered
        else match fuel with
             | O => Err out_of_fuel
             | S f => pool_loop f (u64 (nMinAge - 5)) nBlockHeight total pool
             end
      else Ok filtered
  end.

(** *** The draw *)

(** [std::sort]: a sorted permutation. *)
Fixpoint sort_insert (x : RouletteItem) (l : list RouletteItem) : list RouletteItem :=
  match l with
  | [] => [x]
  | y :: l' => if roulette_ltb x y then x :: l else y :: sort_insert x l'
  end.
Definition pool_sort (l : list RouletteItem) : list RouletteItem := fold_right sort_insert [] l.

Definition weight_total (l : list RouletteItem) (acc : Z) : Z := fold_left (fun t x => u64 (t + nWeight x)) l acc.

(** The loop that caps the weights and accumulates them. *)
Fixpoint adjust_weights (genesisWeight cap total : Z) (l : list RouletteItem) : list RouletteItem * Z :=
  match l with
  | [] => ([], total)
  | x :: xs =>
      let w := if nWeight x =? 0 then genesisWeight else nWeight x in
      let w := if w >? cap then cap else w in
      let total := u64 (total + w) in
      let '(ys, t) := adjust_weights genesisWeight cap total xs in
      (mkRoulette (ri_outpoint x) (ri_coin x) w (nAge x) total :: ys, t)
  end.

(** The seed reduced to the weights; [None]: division by zero. *)
Definition roulette_seed (blockHash : list Z) (total : Z) : option base_uint :=
  let s := UintToArith256 blockHash in
  if bu_gt s (arith total) then
    match div s (arith total) with Some q => Some (sub s (mul (arith total) q)) | None => None end
  else Some s.

(** [std::lower_bound] on the cumulative weights, which do not decrease. *)
Fixpoint lower_bound (l : list RouletteItem) (v : Z) : nat :=
  match l with
  | [] => 0%nat
  | x :: l' => if nCumulativeWeight x <? v then S (lower_bound l' v) else 0%nat
  end.

Section Selection.
(** [Params().numGenesisWitnesses] and [Params().genesisWitnessWeightDivisor]; zero on the main network. *)
Variables numGenesisWitnesses genesisWitnessWeightDivisor : Z.

(** The weight of a genesis witness; the division is undefined for a zero divisor. *)
Definition genesis_weight (total : Z) : res failure Z :=
  if numGenesisWitnesses >? 0 then
    guard! negb (genesisWitnessWeightDivisor =? 0) or undefined in Ok (Z.max (total / genesisWitnessWeightDivisor) 1000)
  else Ok 0.

(** From the eligible pool to the selection. *)
Definition draw_witness (blockHash : list Z) (info : CGetWitnessInfo) (filtered : list RouletteItem) : res failure CGetWitnessInfo :=
  guard! negb (Nat.eqb (length filtered) 0) or returned_false in
  let pool := pool_sort filtered in
  let eligible := weight_total pool 0 in
  let! genesisWeight := genesis_weight eligible in
  let eligible := if numGenesisWitnesses >? 0 then u64 (eligible + u64 (numGenesisWitnesses * genesisWeight)) else eligible in
  let cap := eligible / 100 in
  let '(pool, adjusted) := adjust_weights genesisWeight cap 0 pool in
  match roulette_seed blockHash adjusted with
  | None => Err thrown
  | Some seed =>
      let i := lower_bound pool (GetLow64 seed) in
      match pool !! i with
      | None => Err undefined
      | Some x =>
          Ok (mkInfo (witnessSelectionPoolUnfiltered info) pool (coin_out (ri_coin x)) (Z.of_nat i) (ri_outpoint x)
                (coin_nHeight (ri_coin x)) (nTotalWeightRaw info) eligible adjusted cap)
      end
  end.

Definition GetWitnessHelper (blockHash : list Z) (info : CGetWitnessInfo) (nBlockHeight : Z) : res failure CGetWitnessInfo :=
  let! filtered := pool_loop 20 gMinimumParticipationAge nBlockHeight (nTotalWeightRaw info) (witnessSelectionPoolUnfiltered info) in
  draw_witness blockHash info filtered.

(** *** The pools *)

(** The loop of [GetWitnessInfo] over the coins; [outputsShouldBeHashes] before the witness sync height. *)
Fixpoint coins_pool (nBlockHeight : Z) (outputsShouldBeHashes : bool) (coins : list (COutPoint * Coin)) (total : Z)
    : res failure (list RouletteItem * Z) :=
  match coins with
  | [] => Ok ([], total)
  | (o, c) :: coins' =>
      let skip := coins_pool nBlockHeight outputsShouldBeHashes coins' total in
      let push w total := let! (p, t) := coins_pool nBlockHeight outputsShouldBeHashes coins' total in
                          Ok (RouletteItem_new o c w (u64 (nBlockHeight - coin_nHeight c)) :: p, t) in
      guard! eqb (isHash o) outputsShouldBeHashes or aborted in
      if nValue (coin_out c) >=? gMinimumWitnessAmount * COIN then
        match GetPoW2LockLengthInBlocksFromOutput (coin_out c) (coin_nHeight c) with
        | None => Err aborted
        | Some (len, _, _) =>
            match GetPoW2RawWeightForAmount (nValue (coin_out c)) (i64 len) with
            | None => Err thrown
            | Some w => if w <? gMinimumWitnessWeight then skip else push w (u64 (total + w))
            end
        end
      else match GetPow2WitnessOutput (coin_out c) with
           | None => Err undefined
           | Some d => if lockFromBlock d =? 1 then push 0 total else skip
           end
  end.

(** [coins] is what [getAllUnspentWitnessCoins] finds, in the order of its map. *)
Definition GetWitness (p : ChainParams) (coins : option (list (COutPoint * Coin))) (prevHeight : Z) (blockHash : list Z)
    : res failure CGetWitnessInfo :=
  let nBlockHeight := u64 (prevHeight + 1) in
  match coins with
  | None => Err returned_false
  | Some coins =>
      let! (pool, total) := coins_pool nBlockHeight (nBlockHeight <? pow2WitnessSyncHeight (consensus p)) coins 0 in
      GetWitnessHelper blockHash (pool_info pool total) nBlockHeight
  end.

(** The coin and the outpoint made of an item of the simplified set. *)
Definition simplified_coin (y : SimplifiedWitnessRouletteItem) : Coin :=
  mkCoin (mkTxOut (si_nValue y) 0
            (PoW2WitnessOutput (mkWitnessDetails null_key (witnessPubKeyID y) (si_lockFromBlock y) (si_lockUntilBlock y) 0 0)))
    false false (uwrap 30 (u32 (blockNumber y))) 0.
Definition simplified_outpoint (y : SimplifiedWitnessRouletteItem) : COutPoint :=
  COutPoint_ofPosition (blockNumber y) (transactionIndex y) (transactionOutputIndex y).

Fixpoint set_pool (nBlockHeight : Z) (w : witness_set) (total : Z) : res failure (list RouletteItem * Z) :=
  match w with
  | [] => Ok ([], total)
  | y :: w' =>
      let push n total := let! (p, t) := set_pool nBlockHeight w' total in
        Ok (mkRoulette (simplified_outpoint y) (simplified_coin y) n (u64 (nBlockHeight - blockNumber y)) 0 :: p, t) in
      if si_nValue y >=? gMinimumWitnessAmount * COIN then
        match GetPoW2RawWeightForAmount (si_nValue y) (i64 (GetLockLength y)) with
        | None => Err thrown
        | Some n => let n := u64 n in
                    if n <? gMinimumWitnessWeight then set_pool nBlockHeight w' total else push n (u64 (total + n))
        end
      else if si_lockFromBlock y =? 1 then push 0 total else set_pool nBlockHeight w' total
  end.

Definition GetWitnessFromSimplifiedUTXO (w : witness_set) (nHeight : Z) (blockHash : list Z) : res failure CGetWitnessInfo :=
  let nBlockHeight := u64 nHeight in
  let! (pool, total) := set_pool nBlockHeight w 0 in
  GetWitnessHelper blockHash (pool_info pool total) nBlockHeight.

(** The items of [witnessUtxo] keep the weight and the age they come with. *)
Fixpoint utxo_pool (nBlockHeight : Z) (items : list RouletteItem) (total : Z) : res failure (list RouletteItem * Z) :=
  match items with
  | [] => Ok ([], total)
  | x :: items' =>
      let out := coin_out (ri_coin x) in
      guard! negb (isHash (ri_outpoint x)) or aborted in
      if nValue out >=? gMinimumWitnessAmount * COIN then
        match GetPoW2LockLengthInBlocksFromOutput out (coin_nHeight (ri_coin x)) with
        | None => Err aborted
        | Some (len, _, _) =>
            match GetPoW2RawWeightForAmount (nValue out) (i64 len) with
            | None => Err thrown
            | Some w => if w <? gMinimumWitnessWeight then utxo_pool nBlockHeight items' total
                        else let! (p, t) := utxo_pool nBlockHeight items' (u64 (total + w)) in Ok (x :: p, t)
            end
        end
      else match GetPow2WitnessOutput out with
           | None => Err undefined
           | Some d =>
               if lockFromBlock d =? 1
               then let! (p, t) := utxo_pool nBlockHeight items' total in
                    Ok (mkRoulette (ri_outpoint x) (ri_coin x) 0 (nAge x) (nCumulativeWeight x) :: p, t)
               else utxo_pool nBlockHeight items' total
           end
  end.

Definition GetWitnessFromUTXO (items : list RouletteItem) (nHeight : Z) (blockHash : list Z) : res failure CGetWitnessInfo :=
  let nBlockHeight := u64 nHeight in
  let! (pool, total) := utxo_pool nBlockHeight items 0 in
  GetWitnessHelper blockHash (pool_info pool total) nBlockHeight.

(** *** The set of the coins, and the changes of a block *)

Record SimplifiedWitnessUTXOSet := mkUTXOSet { currentTipForSet : list Z; witnessCandidates : witness_set }.

(** The block index entry: height, witness version and both hashes. *)
Record tip_index := mkTip { tip_nHeight : Z; tip_nVersionPoW2Witness : Z; GetBlockHashLegacy : list Z; GetBlockHashPoW2 : list Z }.

Section Sets.
Context `{FlatSet}.

Definition SItem_ofCoin (o : COutPoint) (c : Coin) : res failure SimplifiedWitnessRouletteItem :=
  guard! negb (isHash o) or aborted in
  match GetPow2WitnessOutput (coin_out c) with
  | None => Err undefined
  | Some d =>
      let number := prevBlock_blockNumber o in
      Ok (mkSItem number (prevBlock_transactionIndex o) (op_n o) (lockUntilBlock d)
            (if lockFromBlock d =? 0 then number else lockFromBlock d) (witnessKeyID d) (nValue (coin_out c)))
  end.

Fixpoint GenerateSimplifiedWitnessUTXOSetFromUTXOSet_loop (coins : list (COutPoint * Coin)) (w : witness_set) : res failure witness_set :=
  match coins with
  | [] => Ok w
  | (o, c) :: coins' =>
      let! y := SItem_ofCoin o c in
      GenerateSimplifiedWitnessUTXOSetFromUTXOSet_loop coins' (fst (fs_insert w y))
  end.
Definition GenerateSimplifiedWitnessUTXOSetFromUTXOSet (coins : list (COutPoint * Coin)) : res failure witness_set :=
  GenerateSimplifiedWitnessUTXOSetFromUTXOSet_loop coins [].

(** [coins] is what [getAllUnspentWitnessCoins] finds for the index. *)
Definition GetSimplifiedWitnessUTXOSetForIndex (index : tip_index) (coins : option (list (COutPoint * Coin)))
    (pow2SimplifiedWitnessUTXO : SimplifiedWitnessUTXOSet) : res failure (SimplifiedWitnessUTXOSet * SimplifiedWitnessUTXOSet) :=
  let tip := currentTipForSet pow2SimplifiedWitnessUTXO in
  if blob_IsNull tip || negb (blob_eqb tip (GetBlockHashPoW2 index)) then
    match coins with
    | None => Err returned_false
    | Some coins =>
        let! w := GenerateSimplifiedWitnessUTXOSetFromUTXOSet coins in
        let s := mkUTXOSet (GetBlockHashPoW2 index) w in
        Ok (s, s)
    end
  else Ok (pow2SimplifiedWitnessUTXO, pow2SimplifiedWitnessUTXO).

(** The check of the signer: the result of the selection is ignored, and a
    selection that found nothing leaves the null output. *)
Definition check_signer (w : witness_set) (index : tip_index) (keyID : list Z) : res failure unit :=
  let selected := match GetWitnessFromSimplifiedUTXO w (tip_nHeight index) (GetBlockHashLegacy index) with
                  | Ok info => Ok (selectedWitnessTransaction info)
                  | Err returned_false => Ok CTxOut_default
                  | Err e => Err e
                  end in
  let! out := selected in
  match GetPow2WitnessOutput out with
  | Some d => guard! blob_eqb (witnessKeyID d) keyID or returned_false in Ok tt
  | None => Err returned_false
  end.

(** The computed changes and the new value of the global set; [pubkey] is the
    key's hash, [None] a null pointer. *)
Definition GetSimplifiedWitnessUTXODeltaForBlock (index : tip_index) (block : list (option (list CWitnessTxBundle)))
    (prev : SimplifiedWitnessUTXOSet) (pubkey : option (list Z)) (pow2SimplifiedWitnessUTXO : SimplifiedWitnessUTXOSet)
    : res failure (list Z * SimplifiedWitnessUTXOSet) :=
  let modified := witnessCandidates prev in
  let! (delta, deltaItems, modified, withoutWitnessAction) :=
    GetSimplifiedWitnessUTXODeltaForBlockHelper (u64 (tip_nHeight index)) block modified modified in
  let! _ := match pubkey with Some k => check_signer withoutWitnessAction index k | None => Ok tt end in
  let! _ := GenerateSimplifiedWitnessUTXODeltaUndoForHeader deltaItems modified in
  Ok (delta, if tip_nVersionPoW2Witness index =? 0 then pow2SimplifiedWitnessUTXO
             else mkUTXOSet (GetBlockHashPoW2 index) modified).

End Sets.
End Selection.
