(* ===== verification/WitnessDraw.v ===== *)
(** * WitnessDraw: the draw of the witness is correct

    The participation period follows the weight, the loop over the minimum age
    ends, the draw takes every witness with its share of the wheel, and the
    order of the pool does not matter. *)

From stdpp Require Import sorting.
From S2P Require Import Prelude ArithUint256 Serialize Compressor Transaction ConsensusParams WitnessUtil TxCheck WitnessBundles WitnessDelta WitnessSelect.

(** ** Lemmas: the period *)

Definition period_scale : Z := 10 ^ 24.

Lemma period_base_spec : wf period_base /\ val period_base = period_scale.
Proof.
  destruct (arith_spec 100000000 ltac:(lia)) as [W V]. unfold period_base.
  destruct (mul_exact _ _ W W) as [W2 V2]; [by rewrite V|].
  destruct (mul_exact _ _ W2 W) as [W3 V3]; [by rewrite V2, V|]. split; [done|]. by rewrite V3, V2, V.
Qed.

(** The ratio before it is truncated to 64 bits. *)
Definition exact_ratio (w t : Z) : Z := period_scale / (period_scale * w / t).

Lemma period_ratio_spec w t : 0 < w < 2 ^ 64 -> 0 < t < 2 ^ 64 -> period_ratio w t = Some (exact_ratio w t mod 2 ^ 64).
Proof.
  intros Hw Ht. destruct period_base_spec as [Wb Vb]. destruct (arith_spec w ltac:(lia)) as [Ww Vw].
  destruct (arith_spec t ltac:(lia)) as [Wt Vt]. destruct (arith_spec 1 ltac:(lia)) as [W1 V1].
  assert (Hs : period_scale = 1000000000000000000000000) by reflexivity.
  destruct (mul_exact _ _ Ww Wb) as [Wm Vm]; [rewrite Vw, Vb, Hs; lia|]. rewrite Vw, Vb in Vm.
  destruct (mul_exact _ _ W1 Wb) as [Wo Vo]; [rewrite V1, Vb, Hs; lia|]. rewrite V1, Vb, Z.mul_1_l in Vo.
  destruct (div_exact _ _ Wm Wt) as (q & Eq & Wq & Vq); [lia|]. rewrite Vm, Vt in Vq.
  assert (Hq : 0 < val q).
  { rewrite Vq. apply Z.div_str_pos. rewrite Hs. lia. }
  destruct (div_exact _ _ Wo Wq Hq) as (r & Er & Wr & Vr). rewrite Vo, Vq in Vr.
  unfold period_ratio. rewrite Eq, Er, GetLow64_spec by done. unfold exact_ratio. by rewrite Vr, (Z.mul_comm w).
Qed.

Lemma exact_ratio_bounds w t : 0 < w < 2 ^ 64 -> 0 < t -> t <= 10 ^ 11 * w -> t / w <= exact_ratio w t <= t / w + 1.
Proof.
  intros Hw Ht Htw. unfold exact_ratio. change period_scale with 1000000000000000000000000. set (B := 1000000000000000000000000).
  set (Y := B * w / t). assert (HY : t * Y <= B * w < t * Y + t) by (unfold Y; zdm; nia).
  set (k := t / w). assert (Hk : k * w <= t < k * w + w) by (unfold k; zdm; nia).
  assert (Hk0 : 0 <= k <= 10 ^ 11) by nia.
  assert (HY0 : 0 < Y). { apply Z.div_str_pos. unfold B in *. lia. }
  split.
  - apply Z.div_le_lower_bound; [done|]. nia.
  - apply Z.lt_succ_r. apply Z.div_lt_upper_bound; [done|].
    apply (Z.mul_lt_mono_pos_l t); [done|].
    apply Z.lt_le_trans with ((B * w - t + 1) * (k + 2)).
    + assert (H1 : (k + 2) * (t - 1) < B * (w + 1)).
      { apply Z.le_lt_trans with ((10 ^ 11 + 2) * (10 ^ 11 * w)); [apply Z.mul_le_mono_nonneg; lia|unfold B; lia]. }
      assert (H2 : B * t + B * (w + 1) <= B * ((k + 2) * w)) by (rewrite <- Z.mul_add_distr_l; apply Z.mul_le_mono_nonneg_l; lia).
      lia.
    + replace (t * (Y * Z.succ (k + 1))) with (t * Y * (k + 2)) by lia. apply Z.mul_le_mono_nonneg_r; lia.
Qed.

Lemma cap_weight_range w t : 0 < w -> 100 <= t -> 0 < cap_weight w t <= w /\ 100 * cap_weight w t <= t /\ (t <= 10 ^ 11 * w -> t <= 10 ^ 11 * cap_weight w t).
Proof. intros. unfold cap_weight. assert (1 <= t / 100) by (zdm; lia). zcase; split_and!; zdm; lia. Qed.

Lemma expected_exact w t : 0 < w < 2 ^ 64 -> 100 <= t < 2 ^ 64 -> t <= 10 ^ 11 * w ->
  expectedWitnessBlockPeriod w t = Some (100 + 10 * exact_ratio (cap_weight w t) t).
Proof.
  intros Hw Ht Htw. destruct (cap_weight_range w t ltac:(lia) ltac:(lia)) as (Hc & H100 & Hcw). specialize (Hcw Htw).
  unfold expectedWitnessBlockPeriod. rewrite (proj2 (Z.eqb_neq w 0)), (proj2 (Z.eqb_neq t 0)) by lia. cbn [orb].
  destruct (exact_ratio_bounds (cap_weight w t) t ltac:(lia) ltac:(lia) Hcw) as [B1 B2].
  assert (Hq : 100 <= t / cap_weight w t <= 10 ^ 11) by (split; [apply Z.div_le_lower_bound; lia|apply Z.div_le_upper_bound; lia]).
  rewrite period_ratio_spec, Z.mod_small by lia. rewrite (u64_small (_ * 10)), Z.max_l, u64_small by lia. f_equal. lia.
Qed.

(** No division by zero: the weights that the pools hold, with a total of at least 100. *)
Definition weight_ok (total : Z) (x : RouletteItem) : Prop :=
  0 <= nWeight x < 2 ^ 64 /\ (nWeight x = 0 \/ 100 <= total < 2 ^ 64).

Lemma expired_total total x : weight_ok total x -> exists e, witnessHasExpired (nAge x) (nWeight x) total = Some e.
Proof.
  intros [Hw Ht]. unfold witnessHasExpired. destruct (Z.eqb_spec (nWeight x) 0) as [|Hn]; [by eexists|].
  destruct Ht as [|Ht]; [done|]. destruct (cap_weight_range (nWeight x) total ltac:(lia) ltac:(lia)) as (Hc & _).
  unfold expectedWitnessBlockPeriod. rewrite (proj2 (Z.eqb_neq (nWeight x) 0)), (proj2 (Z.eqb_neq total 0)) by lia. cbn [orb].
  rewrite period_ratio_spec by lia. by eexists.
Qed.

(** ** Lemmas: filtering *)

Definition expired (total : Z) (x : RouletteItem) : bool := default true (witnessHasExpired (nAge x) (nWeight x) total).
(** The three conditions of the filter. *)
Definition eligible (nMinAge nBlockHeight total : Z) (x : RouletteItem) : bool :=
  old_enough nMinAge x && (negb (expired total x) && locked_enough nMinAge nBlockHeight x).

Lemma drop_expired_spec total pool : Forall (weight_ok total) pool ->
  drop_expired total pool = Some (List.filter (fun x => negb (expired total x)) pool).
Proof.
  induction 1 as [|x pool Hx _ IH]; [done|]. cbn [drop_expired List.filter]. destruct (expired_total total x Hx) as [e He].
  unfold expired at 1. rewrite He, IH. by destruct e.
Qed.

Lemma filter_filter {A} (f g : A -> bool) l : List.filter f (List.filter g l) = List.filter (fun x => g x && f x) l.
Proof. induction l as [|x l IH]; [done|]. cbn. destruct (g x); cbn; [|done]. destruct (f x); by rewrite IH. Qed.

Lemma Forall_filter_b {A} (P : A -> Prop) f l : Forall P l -> Forall P (List.filter f l).
Proof. induction 1 as [|x l Hx _ IH]; [done|]. cbn. destruct (f x); [by constructor|done]. Qed.

Lemma filter_pool_spec m h total pool : Forall (weight_ok total) pool ->
  filter_pool m h total pool = Some (List.filter (eligible m h total) pool).
Proof.
  intros Hp. unfold filter_pool. rewrite drop_expired_spec by (by apply Forall_filter_b). rewrite !filter_filter. done.
Qed.

(** ** Lemmas: the loop over the minimum age *)

(** The loop leaves with this pool. *)
Definition enough (m : Z) (filtered : list RouletteItem) : Prop :=
  100 <= Z.of_nat (length filtered) \/ m = 0 \/ m <= 10 /\ 5 < Z.of_nat (length filtered).

(** [m] is the first of 100, 95, ... for which enough witnesses are eligible. *)
Definition first_enough (h total : Z) (pool : list RouletteItem) (start m : Z) : Prop :=
  0 <= m <= start /\ (exists k, start - m = 5 * k) /\ enough m (List.filter (eligible m h total) pool) /\
  forall m', m < m' <= start -> (exists k, start - m' = 5 * k) -> ~ enough m' (List.filter (eligible m' h total) pool).

Lemma pool_loop_spec h total pool : Forall (weight_ok total) pool -> forall fuel start, start = 5 * Z.of_nat fuel -> start <= 100 ->
  exists m, first_enough h total pool start m /\ pool_loop fuel start h total pool = Ok (List.filter (eligible m h total) pool).
Proof.
  intros Hp. induction fuel as [|fuel IH]; intros start Hs Hle.
  - exists 0. assert (start = 0) as -> by lia. split.
    + split_and!; [lia|lia|by exists 0|right; by left|lia].
    + cbn [pool_loop]. rewrite filter_pool_spec by done. cbn [Z.eqb orb]. by destruct (_ <? 100).
  - cbn [pool_loop]. rewrite filter_pool_spec by done. cbv zeta. set (f := List.filter (eligible start h total) pool).
    assert (Hdec : enough start f \/ ~ enough start f) by (unfold enough; lia).
    destruct Hdec as [Hen|Hen].
    + exists start. split; [split_and!; [lia|lia|exists 0; lia|done|lia]|]. unfold enough in Hen.
      destruct (_ <? 100) eqn:E; [|done]. zbool. destruct (Z.eqb_spec start 0); cbn [orb]; [done|].
      destruct Hen as [?|[?|[H1 H2]]]; [lia|done|]. rewrite (proj2 (Z.leb_le _ _) H1), (proj2 (Z.gtb_lt _ _) H2). done.
    + destruct (IH (start - 5) ltac:(lia) ltac:(lia)) as (m & (Hm & [k Hk] & He & Hmin) & Hl). exists m. split.
      * split_and!; [lia|lia|exists (k + 1); lia|done|]. intros m' Hm' [k' Hk'].
        destruct (Z.eq_dec m' start) as [->|]; [done|]. apply Hmin; [lia|exists (k' - 1); lia].
      * unfold enough in Hen. rewrite (proj2 (Z.ltb_lt _ _)) by lia. rewrite (proj2 (Z.eqb_neq start 0)) by lia. cbn [orb].
        rewrite u64_small by lia. destruct (_ && _) eqn:E; [zbool; lia|done].
Qed.

Lemma enough_perm m l l' : l ≡ₚ l' -> enough m l <-> enough m l'.
Proof. intros Hp. unfold enough. by rewrite Hp. Qed.

Lemma first_enough_unique h total pool start m m' : first_enough h total pool start m -> first_enough h total pool start m' -> m = m'.
Proof.
  intros (R1 & K1 & E1 & M1) (R2 & K2 & E2 & M2). destruct (Z.lt_trichotomy m m') as [Hlt|[?|Hlt]]; [|done|].
  - exfalso. apply (M1 m'); [lia|done..].
  - exfalso. apply (M2 m); [lia|done..].
Qed.

(** ** Lemmas: sums of weights *)

Fixpoint weight_sum (l : list RouletteItem) : Z := match l with [] => 0 | x :: l' => nWeight x + weight_sum l' end.
(** The weights of the first [i] items. *)
Definition prefix_sum (l : list RouletteItem) (i : nat) : Z := weight_sum (firstn i l).

Lemma weight_sum_nonneg l : Forall (fun x => 0 <= nWeight x) l -> 0 <= weight_sum l.
Proof. induction 1; cbn; lia. Qed.

Lemma weight_sum_perm l l' : l ≡ₚ l' -> weight_sum l = weight_sum l'.
Proof. induction 1; cbn in *; lia. Qed.

Lemma weight_sum_filter f l : Forall (fun x => 0 <= nWeight x) l -> weight_sum (List.filter f l) <= weight_sum l.
Proof.
  induction 1 as [|x l Hx Hl IH]; [done|]. cbn. destruct (f x); cbn; lia.
Qed.

Lemma weight_total_exact l acc : Forall (fun x => 0 <= nWeight x) l -> 0 <= acc -> acc + weight_sum l < 2 ^ 64 ->
  weight_total l acc = acc + weight_sum l.
Proof.
  intros Hl. revert acc. induction Hl as [|x l Hx Hl IH]; intros acc Ha Hs; [cbn; lia|].
  cbn [weight_sum] in *. pose proof (weight_sum_nonneg l Hl).
  unfold weight_total. cbn [fold_left]. fold (weight_total l (u64 (acc + nWeight x))). rewrite u64_small by lia.
  rewrite IH by lia. lia.
Qed.

(** ** Lemmas: capping and cumulating *)

(** What the loop keeps of an item. *)
Definition capped (genesisWeight cap : Z) (x y : RouletteItem) : Prop :=
  ri_outpoint y = ri_outpoint x /\ ri_coin y = ri_coin x /\ nAge y = nAge x /\
  nWeight y = Z.min (if nWeight x =? 0 then genesisWeight else nWeight x) cap.

Lemma adjust_capped g cap l : forall total pool t, adjust_weights g cap total l = (pool, t) -> Forall2 (capped g cap) l pool.
Proof.
  induction l as [|x l IH]; intros total ys t E; cbn [adjust_weights] in E; [injection E as <- <-; constructor|].
  destruct (adjust_weights g cap _ l) as [zs t'] eqn:E'. injection E as <- <-. constructor; [|by apply (IH _ _ _ E')].
  split_and!; try done. cbn [nWeight]. destruct (nWeight x =? 0); zcase; lia.
Qed.

Lemma capped_sum_le cap l pool : Forall2 (capped 0 cap) l pool -> Forall (fun x => 0 <= nWeight x) l -> weight_sum pool <= weight_sum l.
Proof.
  induction 1 as [|x y l pool (_ & _ & _ & Hw) _ IH]; [done|]. intros [Hx Hl]%Forall_cons_iff. specialize (IH Hl).
  cbn [weight_sum]. rewrite Hw. zcase; lia.
Qed.

Lemma capped_sum_nonneg g cap l pool : Forall2 (capped g cap) l pool -> Forall (fun x => 0 <= nWeight x) l -> 0 <= g -> 0 <= cap ->
  0 <= weight_sum pool.
Proof.
  induction 1 as [|x y l pool (_ & _ & _ & Hw) _ IH]; [done|]. intros [Hx Hl]%Forall_cons_iff Hg Hc. specialize (IH Hl Hg Hc).
  cbn [weight_sum]. rewrite Hw. zcase; lia.
Qed.

Lemma capped_sum_pos cap l pool : Forall2 (capped 0 cap) l pool -> Forall (fun x => 0 < nWeight x) l -> 0 < cap -> l <> [] ->
  0 < weight_sum pool.
Proof.
  intros [|x y l' pool' (_ & _ & _ & Hw) H] Hl Hc Hne; [done|]. apply Forall_cons_iff in Hl as [Hx Hl].
  assert (Hnn : 0 <= weight_sum pool').
  { apply (capped_sum_nonneg 0 cap l'); try done; [|lia]. eapply Forall_impl; [exact Hl|]. cbn. lia. }
  cbn [weight_sum]. rewrite Hw, (proj2 (Z.eqb_neq (nWeight x) 0)) by lia. lia.
Qed.

Lemma adjust_spec g cap l : Forall (fun x => 0 <= nWeight x) l -> 0 <= g -> 0 <= cap -> forall total pool t, 0 <= total ->
  adjust_weights g cap total l = (pool, t) -> total + weight_sum pool < 2 ^ 64 \/ total + cap * Z.of_nat (length l) < 2 ^ 64 ->
  Forall2 (capped g cap) l pool /\ t = total + weight_sum pool /\
  forall i x, pool !! i = Some x -> nCumulativeWeight x = total + prefix_sum pool (S i).
Proof.
  intros Hl Hg Hcap. induction Hl as [|x l Hx Hl IH]; intros total pool t Ht Ha Hs; cbn [adjust_weights] in Ha.
  { injection Ha as <- <-. split_and!; [constructor|cbn; lia|by intros i y Hi]. }
  set (w := if nWeight x =? 0 then g else nWeight x) in *.
  assert (Hw : (if w >? cap then cap else w) = Z.min w cap) by (zcase; lia). rewrite Hw in Ha.
  assert (Hw0 : 0 <= Z.min w cap <= cap) by (unfold w; zcase; lia).
  destruct (adjust_weights g cap (u64 (total + Z.min w cap)) l) as [ys t'] eqn:E. injection Ha as <- <-.
  cbn [weight_sum nWeight length] in Hs. rewrite Nat2Z.inj_succ, Z.mul_succ_r in Hs.
  pose proof (adjust_capped _ _ _ _ _ _ E) as Hys.
  pose proof (capped_sum_nonneg g cap l ys Hys Hl Hg Hcap) as Hnn.
  assert (Hlen : 0 <= cap * Z.of_nat (length l)) by nia.
  assert (Hu : u64 (total + Z.min w cap) = total + Z.min w cap) by (apply u64_small; lia). rewrite Hu in *.
  destruct (IH (total + Z.min w cap) ys t' ltac:(lia) E) as (_ & -> & Hc); [lia|]. split_and!.
  - constructor; [by split_and!|done].
  - cbn [weight_sum nWeight]. lia.
  - intros [|i] y Hi; cbn in Hi.
    + injection Hi as <-. unfold prefix_sum. cbn. rewrite firstn_O. cbn. lia.
    + rewrite (Hc i y Hi). unfold prefix_sum. cbn [firstn weight_sum nWeight]. lia.
Qed.

(** ** Lemmas: the seed and the lower bound *)

Lemma UintToArith256_spec l : length l = 32%nat -> bytes_ok l -> wf (UintToArith256 l) /\ val (UintToArith256 l) = le_val l.
Proof.
  intros Hl Hb. do 33 (destruct l as [|? l]; [discriminate Hl || idtac|]); [|discriminate Hl]. clear Hl.
  unfold bytes_ok in Hb. rewrite !Forall_cons_iff in Hb. unfold UintToArith256, WIDTH. cbn [seq map Nat.mul Nat.add].
  unfold ReadLE32. cbn [skipn nth]. unfold wf, limbs_ok. rewrite !Forall_cons_iff. cbn [val le_val length]. unfold is_u8 in *.
  split; [split; [done|]|lia]. split_and!; try lia. constructor.
Qed.

Lemma roulette_seed_spec hash t : length hash = 32%nat -> bytes_ok hash -> 0 < t < 2 ^ 64 ->
  exists s, roulette_seed hash t = Some s /\ wf s /\ val s = if le_val hash <=? t then le_val hash else le_val hash mod t.
Proof.
  intros Hl Hb Ht. destruct (UintToArith256_spec hash Hl Hb) as [Wh Vh]. destruct (arith_spec t ltac:(lia)) as [Wt Vt].
  unfold roulette_seed. rewrite bu_gt_spec, Vh, Vt by done. rewrite Z.gtb_ltb, Z.leb_antisym.
  destruct (t <? le_val hash) eqn:E; cbn [negb]; [|by exists (UintToArith256 hash)]. zbool.
  destruct (div_exact _ _ Wh Wt) as (q & -> & Wq & Vq); [lia|]. rewrite Vh, Vt in Vq.
  pose proof (wf_range _ Wh) as Hr. rewrite Vh in Hr.
  assert (Hm : t * (le_val hash / t) <= le_val hash) by (apply Z.mul_div_le; lia).
  assert (0 <= le_val hash / t) by (apply Z.div_pos; lia).
  destruct (mul_exact _ _ Wt Wq) as [Wm Vm]; [rewrite Vt, Vq; lia|]. rewrite Vt, Vq in Vm.
  destruct (sub_spec _ _ Wh Wm) as [Ws Vs]. eexists. split; [done|]. split; [done|]. rewrite Vs, Vh, Vm, (Z.mod_eq (le_val hash) t) by lia.
  apply Z.mod_small. nia.
Qed.

Lemma lower_bound_first l v :
  (forall j x, (j < lower_bound l v)%nat -> l !! j = Some x -> nCumulativeWeight x < v) /\
  (forall x, l !! lower_bound l v = Some x -> v <= nCumulativeWeight x) /\ (lower_bound l v <= length l)%nat.
Proof.
  induction l as [|y l (IH1 & IH2 & IH3)]; [by split_and!; intros|]. cbn [lower_bound length].
  destruct (nCumulativeWeight y <? v) eqn:E; zbool; split_and!; try lia.
  - intros [|j] x Hj Hx; cbn in Hx; [by injection Hx as <-|]. apply (IH1 j); [lia|done].
  - exact IH2.
  - intros x [= <-]. lia.
Qed.

Lemma prefix_sum_all l : prefix_sum l (length l) = weight_sum l.
Proof. unfold prefix_sum. by rewrite firstn_all. Qed.

Lemma lower_bound_in l v : l <> [] -> (forall i x, l !! i = Some x -> nCumulativeWeight x = prefix_sum l (S i)) -> v <= weight_sum l ->
  exists x, l !! lower_bound l v = Some x /\ v <= prefix_sum l (S (lower_bound l v)) /\
            (lower_bound l v = 0%nat \/ prefix_sum l (lower_bound l v) < v).
Proof.
  intros Hne Hc Hv. destruct (lower_bound_first l v) as (H1 & H2 & H3).
  assert (Hlt : (lower_bound l v < length l)%nat).
  { destruct (Nat.eq_dec (lower_bound l v) (length l)) as [E|]; [|lia]. exfalso.
    destruct (l !! pred (length l)) as [x|] eqn:Ex.
    - pose proof (H1 (pred (length l)) x ltac:(rewrite E; destruct l; [done|cbn; lia]) Ex) as Hx. rewrite (Hc _ x Ex) in Hx.
      replace (S (pred (length l))) with (length l) in Hx by (destruct l; [done|cbn; lia]). rewrite prefix_sum_all in Hx. lia.
    - apply lookup_ge_None in Ex. destruct l; [done|cbn in Ex; lia]. }
  apply lookup_lt_is_Some in Hlt as [x Hx]. exists x. split; [done|]. split; [rewrite <- (Hc _ x Hx); by apply H2|].
  destruct (lower_bound l v) as [|i] eqn:E; [by left|right].
  destruct (l !! i) as [y|] eqn:Ey; [|apply lookup_ge_None in Ey; apply lookup_lt_Some in Hx; lia].
  rewrite <- (Hc i y Ey). apply (H1 i y); [lia|done].
Qed.

(** ** Lemmas: sorting *)

Lemma sort_insert_perm x l : sort_insert x l ≡ₚ x :: l.
Proof.
  induction l as [|y l IH]; [done|]. cbn [sort_insert]. destruct (roulette_ltb x y); [done|]. rewrite IH. apply Permutation_swap.
Qed.

Lemma pool_sort_perm l : pool_sort l ≡ₚ l.
Proof. induction l as [|x l IH]; [done|]. cbn [pool_sort fold_right]. fold (pool_sort l). by rewrite sort_insert_perm, IH. Qed.

(** Items whose outpoints are well formed and tell them apart. *)
Definition distinct_pool (l : list RouletteItem) : Prop :=
  NoDup l /\ Forall (fun x => outpoint_ok (ri_outpoint x)) l /\
  forall x y, x ∈ l -> y ∈ l -> COutPoint_eqb (ri_outpoint x) (ri_outpoint y) = true -> x = y.

(** [!(b < a)] *)
Definition roulette_le (a b : RouletteItem) : Prop := roulette_ltb b a = false.

Section Order.
Variable l : list RouletteItem.
Hypothesis Hl : distinct_pool l.

Lemma pool_outpoint_ok x : x ∈ l -> outpoint_ok (ri_outpoint x).
Proof. destruct Hl as (_ & Ho & _). by apply (proj1 (Forall_forall _ _) Ho). Qed.

Lemma roulette_antisym x y : x ∈ l -> y ∈ l -> roulette_le x y -> roulette_le y x -> x = y.
Proof.
  intros Hx Hy H1 H2. destruct Hl as (_ & _ & Hd). apply Hd; [done|done|].
  apply COutPoint_eqb_incomparable; [by apply pool_outpoint_ok..|]. unfold roulette_le, roulette_ltb in *.
  destruct (Z.eqb_spec (nAge y) (nAge x)) as [E|E]; destruct (Z.eqb_spec (nAge x) (nAge y)); try lia; done.
Qed.

Lemma roulette_total x y : x ∈ l -> y ∈ l -> roulette_ltb x y = true -> roulette_le x y.
Proof.
  intros Hx Hy H1. unfold roulette_le, roulette_ltb in *.
  destruct (Z.eqb_spec (nAge x) (nAge y)) as [E|E]; destruct (Z.eqb_spec (nAge y) (nAge x)); try lia.
  apply not_true_iff_false. intros H2. pose proof (COutPoint_ltb_irrefl _ (pool_outpoint_ok x Hx)) as Hi.
  rewrite (COutPoint_ltb_trans _ (ri_outpoint y)) in Hi; by try apply pool_outpoint_ok.
Qed.

Lemma roulette_ltb_trans x y z : x ∈ l -> y ∈ l -> z ∈ l -> roulette_ltb x y = true -> roulette_ltb y z = true -> roulette_ltb x z = true.
Proof.
  intros Hx Hy Hz. unfold roulette_ltb. destruct (Z.eqb_spec (nAge x) (nAge y)), (Z.eqb_spec (nAge y) (nAge z)), (Z.eqb_spec (nAge x) (nAge z));
    rewrite ?Z.ltb_lt; try lia. intros. by apply (COutPoint_ltb_trans _ (ri_outpoint y)); try apply pool_outpoint_ok.
Qed.

(** Two items are ordered one way or are the same. *)
Lemma roulette_trichotomy x y : x ∈ l -> y ∈ l -> roulette_ltb x y = false -> roulette_ltb y x = false -> x = y.
Proof. intros. by apply roulette_antisym. Qed.

Lemma roulette_le_trans x y z : x ∈ l -> y ∈ l -> z ∈ l -> roulette_le x y -> roulette_le y z -> roulette_le x z.
Proof.
  intros Hx Hy Hz H1 H2. unfold roulette_le in *. apply not_true_iff_false. intros H3.
  destruct (roulette_ltb x y) eqn:Exy.
  - rewrite (roulette_ltb_trans z x y) in H2; done.
  - rewrite (roulette_trichotomy x y) in H3 by done. by rewrite H3 in H2.
Qed.

Lemma sort_insert_sorted x s : (forall y, y ∈ x :: s -> y ∈ l) -> StronglySorted roulette_le s -> StronglySorted roulette_le (sort_insert x s).
Proof.
  intros Hin Hs. induction Hs as [|y s Hs IH Hy]; [by repeat constructor|]. cbn [sort_insert].
  destruct (roulette_ltb x y) eqn:E.
  - constructor; [by constructor|]. assert (Hxy : roulette_le x y) by (apply roulette_total; [apply Hin; left|apply Hin; right; left|done]).
    constructor; [done|]. apply Forall_forall. intros z Hz. pose proof (proj1 (Forall_forall _ _) Hy z Hz).
    apply (roulette_le_trans x y z); try done; apply Hin; [left|right; left|by do 2 right].
  - constructor.
    + apply IH. intros z [->|Hz]%elem_of_cons; apply Hin; [left|by do 2 right].
    + rewrite sort_insert_perm. by constructor.
Qed.
End Order.

Lemma pool_sort_sorted l : distinct_pool l -> StronglySorted roulette_le (pool_sort l).
Proof.
  intros Hl. assert (Hs : forall s, (forall x, x ∈ s -> x ∈ l) -> StronglySorted roulette_le (pool_sort s)).
  { induction s as [|x s IH]; intros Hin; [constructor|]. cbn [pool_sort fold_right]. fold (pool_sort s).
    apply (sort_insert_sorted l Hl); [|apply IH; intros; apply Hin; by right].
    intros y [->|Hy]%elem_of_cons; apply Hin; [left|right; by rewrite <- (pool_sort_perm s)]. }
  by apply Hs.
Qed.

Lemma distinct_perm l l' : l ≡ₚ l' -> distinct_pool l -> distinct_pool l'.
Proof.
  intros Hp (Hn & Ho & Hd). split_and!; [by rewrite <- Hp|by rewrite <- Hp|]. intros x y. rewrite <- Hp. apply Hd.
Qed.

Lemma pool_sort_unique l l' : distinct_pool l -> l ≡ₚ l' -> pool_sort l = pool_sort l'.
Proof.
  intros Hl Hp. apply (StronglySorted_unique_strong roulette_le).
  - intros x y. rewrite !pool_sort_perm, <- Hp. intros Hx Hy. by apply (roulette_antisym l).
  - by apply pool_sort_sorted.
  - apply pool_sort_sorted. by apply (distinct_perm l).
  - by rewrite !pool_sort_perm.
Qed.

(** ** Properties: the period *)

(** a witness is removed from the pool when it is not drawn for about ten times
    its share of the blocks, and never before. With its weight capped to a
    hundredth of the total [t], a witness stays while its age is at most a year and
    [100 + 10 * (t / capped)], and is removed once its age exceeds a year or
    [100 + 10 * (t / capped + 1)]; the minimum of 1000 in the code never applies. *)
Theorem participation_period_fair age w t : 0 < w < 2 ^ 64 -> 100 <= t < 2 ^ 64 -> t <= 10 ^ 11 * w ->
  let share := t / Z.min w (t / 100) in
  exists b, witnessHasExpired age w t = Some b /\
    (age <= gMaximumParticipationAge -> age <= 100 + 10 * share -> b = false) /\
    (age > gMaximumParticipationAge \/ age > 100 + 10 * (share + 1) -> b = true).
Proof.
  intros Hw Ht Htw share. destruct (cap_weight_range w t ltac:(lia) ltac:(lia)) as (Hc & H100 & Hcw). specialize (Hcw Htw).
  destruct (exact_ratio_bounds (cap_weight w t) t ltac:(lia) ltac:(lia) Hcw) as [B1 B2].
  assert (E : t / cap_weight w t = share) by (unfold share, cap_weight; f_equal; zcase; lia). rewrite E in *.
  unfold witnessHasExpired. rewrite (proj2 (Z.eqb_neq w 0)), expected_exact by lia. eexists. split; [done|]. split; intros.
  - apply orb_false_iff. rewrite !Z.gtb_ltb, !Z.ltb_ge. lia.
  - apply orb_true_iff. rewrite !Z.gtb_ltb, !Z.ltb_lt. lia.
Qed.

Lemma participation_period_fair_witness : witnessHasExpired 5100 20000 10000000 = Some false /\ witnessHasExpired 5111 20000 10000000 = Some true.
Proof.
  destruct (participation_period_fair 5100 20000 10000000) as (b & E & H1 & _); [lia..|].
  destruct (participation_period_fair 5111 20000 10000000) as (b' & E' & _ & H2); [lia..|].
  split; [rewrite E; f_equal; apply H1; vm_compute; discriminate|rewrite E'; f_equal; apply H2; right; reflexivity].
Defined.

(** The draw from the sorted pool of eligible witnesses: the weights are capped to a
    hundredth of their sum, the hash is reduced to the sum of the capped weights,
    and the selected witness is the one whose stretch of the wheel holds it. *)
Definition fair_draw (blockHash : list Z) (pool : list RouletteItem) (info : CGetWitnessInfo) : Prop :=
  let wheel := witnessSelectionPoolFiltered info in let i := Z.to_nat (selectedWitnessIndex info) in
  let total := weight_sum wheel in
  let seed := if le_val blockHash <=? total then le_val blockHash else le_val blockHash mod total in
  Forall2 (capped 0 (weight_sum pool / 100)) pool wheel /\
  nTotalWeightEligibleRaw info = weight_sum pool /\ nMaxIndividualWeight info = weight_sum pool / 100 /\
  nTotalWeightEligibleAdjusted info = total /\
  exists x, wheel !! i = Some x /\ selectedWitnessOutpoint info = ri_outpoint x /\
    selectedWitnessTransaction info = coin_out (ri_coin x) /\ selectedWitnessBlockHeight info = coin_nHeight (ri_coin x) /\
    seed <= prefix_sum wheel (S i) /\ (i = 0%nat \/ prefix_sum wheel i < seed).

Lemma draw_witness_spec hash info filtered : length hash = 32%nat -> bytes_ok hash -> filtered <> [] ->
  Forall (fun x => gMinimumWitnessWeight <= nWeight x) filtered -> weight_sum filtered < 2 ^ 64 ->
  exists info', draw_witness 0 0 hash info filtered = Ok info' /\ fair_draw hash (pool_sort filtered) info'.
Proof.
  intros Hlen Hb Hne Hw Hs. unfold gMinimumWitnessWeight in Hw. set (pool := pool_sort filtered).
  assert (Hp : pool ≡ₚ filtered) by apply pool_sort_perm.
  assert (Hwp : Forall (fun x => 10000 <= nWeight x) pool) by (by rewrite Hp).
  assert (Hnn : Forall (fun x => 0 <= nWeight x) pool) by (eapply Forall_impl; [exact Hwp|]; intros; cbn in *; lia).
  assert (Esum : weight_sum pool = weight_sum filtered) by (by apply weight_sum_perm).
  assert (Hnep : pool <> []) by (intros E; rewrite E in Hp; by apply Permutation_nil in Hp).
  unfold draw_witness. destruct (Nat.eqb_spec (length filtered) 0) as [El|_]; [by destruct filtered|]. cbn [negb]. cbv zeta.
  fold pool. rewrite weight_total_exact by (done || lia). rewrite Z.add_0_l. unfold genesis_weight. cbn [Z.gtb Z.compare res_bind].
  set (cap := weight_sum pool / 100). destruct (adjust_weights 0 cap 0 pool) as [wheel t] eqn:Ea.
  assert (Hsum : 10000 <= weight_sum pool /\ weight_sum pool < 2 ^ 64).
  { split; [|lia]. destruct pool as [|x pool']; [done|]. apply Forall_cons_iff in Hwp as [Hx Hwp].
    apply Forall_cons_iff in Hnn as [_ Hnn]. pose proof (weight_sum_nonneg pool' Hnn). cbn [weight_sum]. lia. }
  assert (Hcap : 100 <= cap) by (unfold cap; apply Z.div_le_lower_bound; lia).
  assert (Hadj : Forall2 (capped 0 cap) pool wheel /\ t = 0 + weight_sum wheel /\
    forall i x, wheel !! i = Some x -> nCumulativeWeight x = 0 + prefix_sum wheel (S i)).
  { apply (adjust_spec 0 cap pool Hnn ltac:(lia) ltac:(lia) 0 wheel t ltac:(lia) Ea). left.
    pose proof (adjust_capped 0 cap pool 0 wheel t Ea) as Hcp. pose proof (capped_sum_le cap pool wheel Hcp Hnn). lia. }
  destruct Hadj as (Hcp & -> & Hcum). rewrite Z.add_0_l in *.
  assert (Ht : 0 < weight_sum wheel < 2 ^ 64).
  { pose proof (capped_sum_le cap pool wheel Hcp Hnn). split; [|lia]. apply (capped_sum_pos cap pool); try done; [|lia].
    eapply Forall_impl; [exact Hwp|]. cbn. lia. }
  destruct (roulette_seed_spec hash (weight_sum wheel) Hlen Hb Ht) as (s & -> & Ws & Vs).
  assert (Hseed : 0 <= val s <= weight_sum wheel).
  { pose proof (le_val_fits hash Hb) as [Hh _]. rewrite Vs. destruct (_ <=? _) eqn:E; zbool; [lia|].
    pose proof (Z.mod_pos_bound (le_val hash) (weight_sum wheel) ltac:(lia)). lia. }
  rewrite GetLow64_spec, Z.mod_small by (done || lia).
  destruct (lower_bound_in wheel (val s)) as (x & Hx & H1 & H2); [|by intros; rewrite (Hcum i x)|lia|].
  { intros ->. cbn in Ht. lia. }
  rewrite Hx. eexists. split; [done|]. unfold fair_draw. cbn. rewrite Nat2Z.id, <- Vs. split_and!; try done.
  by exists x.
Qed.

(** ** Lemmas: permutations of the pool *)

(** Everything but the pool the selection started from. *)
Definition without_input (info : CGetWitnessInfo) : CGetWitnessInfo :=
  mkInfo [] (witnessSelectionPoolFiltered info) (selectedWitnessTransaction info) (selectedWitnessIndex info)
    (selectedWitnessOutpoint info) (selectedWitnessBlockHeight info) (nTotalWeightRaw info)
    (nTotalWeightEligibleRaw info) (nTotalWeightEligibleAdjusted info) (nMaxIndividualWeight info).
Definition res_map {E A B} (f : A -> B) (r : res E A) : res E B := match r with Ok a => Ok (f a) | Err e => Err e end.

Lemma filter_perm {A} (f : A -> bool) l l' : l ≡ₚ l' -> List.filter f l ≡ₚ List.filter f l'.
Proof.
  induction 1 as [|x l l' _ IH|x y l|l l' l'' _ IH _ IH']; [done| | |by rewrite IH]; cbn; destruct (f x); try done; [by constructor|..];
    destruct (f y); try done. apply Permutation_swap.
Qed.

Lemma distinct_filter f l : distinct_pool l -> distinct_pool (List.filter f l).
Proof.
  intros (Hn & Ho & Hd). assert (Hin : forall x, x ∈ List.filter f l -> x ∈ l).
  { intros x. rewrite !list_elem_of_In, filter_In. tauto. }
  split_and!; [|by apply Forall_filter_b|by eauto].
  clear -Hn. induction Hn as [|x l Hx Hn IH]; cbn; [constructor|]. destruct (f x); [|done]. constructor; [|done].
  intros Hi. apply Hx. apply list_elem_of_In, filter_In in Hi as [Hi _]. by apply list_elem_of_In.
Qed.

Lemma first_enough_perm h total l l' start m m' : l ≡ₚ l' -> first_enough h total l start m -> first_enough h total l' start m' -> m' = m.
Proof.
  intros Hp (R & K & E & M) H'. apply (first_enough_unique h total l' start); [done|]. split_and!; [lia|lia|done| |].
  - by apply (enough_perm m _ _ (filter_perm (eligible m h total) _ _ Hp)).
  - intros n Hn Hk He. apply (M n Hn Hk). by apply (enough_perm n _ _ (filter_perm (eligible n h total) _ _ Hp)).
Qed.

Lemma draw_perm n d hash i1 i2 f1 f2 : distinct_pool f1 -> f1 ≡ₚ f2 -> nTotalWeightRaw i1 = nTotalWeightRaw i2 ->
  res_map without_input (draw_witness n d hash i1 f1) = res_map without_input (draw_witness n d hash i2 f2).
Proof.
  intros Hd Hp Et. unfold draw_witness. rewrite (pool_sort_unique f1 f2 Hd Hp), Hp. destruct (negb _); [|done]. cbv zeta.
  destruct (genesis_weight n d _) as [g|]; [|done]. cbn [res_bind]. destruct (adjust_weights _ _ _ _) as [pool t].
  destruct (roulette_seed hash t) as [s|]; [|done]. destruct (pool !! _); [|done]. cbn. unfold without_input. cbn. by rewrite Et.
Qed.

Lemma helper_perm n d hash i1 i2 h : distinct_pool (witnessSelectionPoolUnfiltered i1) ->
  witnessSelectionPoolUnfiltered i1 ≡ₚ witnessSelectionPoolUnfiltered i2 -> nTotalWeightRaw i1 = nTotalWeightRaw i2 ->
  Forall (weight_ok (nTotalWeightRaw i1)) (witnessSelectionPoolUnfiltered i1) ->
  res_map without_input (GetWitnessHelper n d hash i1 h) = res_map without_input (GetWitnessHelper n d hash i2 h).
Proof.
  intros Hd Hp Et Hw. assert (Hw2 : Forall (weight_ok (nTotalWeightRaw i1)) (witnessSelectionPoolUnfiltered i2)) by (by rewrite <- Hp).
  unfold GetWitnessHelper. rewrite <- Et. set (t := nTotalWeightRaw i1) in *. change gMinimumParticipationAge with 100.
  destruct (pool_loop_spec h t _ Hw 20 100 eq_refl ltac:(lia)) as (m & Hm & ->).
  destruct (pool_loop_spec h t _ Hw2 20 100 eq_refl ltac:(lia)) as (m2 & Hm2 & ->). cbn [res_bind].
  assert (m2 = m) as ->.
  { apply (first_enough_perm h t (witnessSelectionPoolUnfiltered i1) (witnessSelectionPoolUnfiltered i2) 100); done. }
  apply draw_perm; [by apply distinct_filter|by apply filter_perm|done].
Qed.

(** The same failure, or the same selection from the same wheel. *)
Definition same_selection (r1 r2 : res failure CGetWitnessInfo) : Prop :=
  match r1, r2 with
  | Ok i1, Ok i2 => witnessSelectionPoolFiltered i1 = witnessSelectionPoolFiltered i2 /\
                    selectedWitnessIndex i1 = selectedWitnessIndex i2 /\ selectedWitnessOutpoint i1 = selectedWitnessOutpoint i2 /\
                    selectedWitnessTransaction i1 = selectedWitnessTransaction i2 /\
                    selectedWitnessBlockHeight i1 = selectedWitnessBlockHeight i2
  | Err e1, Err e2 => e1 = e2
  | _, _ => False
  end.

Lemma same_selection_perm n d hash i1 i2 h : distinct_pool (witnessSelectionPoolUnfiltered i1) ->
  witnessSelectionPoolUnfiltered i1 ≡ₚ witnessSelectionPoolUnfiltered i2 -> nTotalWeightRaw i1 = nTotalWeightRaw i2 ->
  Forall (weight_ok (nTotalWeightRaw i1)) (witnessSelectionPoolUnfiltered i1) ->
  same_selection (GetWitnessHelper n d hash i1 h) (GetWitnessHelper n d hash i2 h).
Proof.
  intros Hd Hp Et Hw. pose proof (helper_perm n d hash i1 i2 h Hd Hp Et Hw) as E.
  destruct (GetWitnessHelper n d hash i1 h), (GetWitnessHelper n d hash i2 h); cbn in *; congruence || (injection E; by intros).
Qed.

(** ** Properties *)

(** A pool as the builders make it: weights of at least the minimum, and their total. *)
Definition pool_weights_ok (info : CGetWitnessInfo) : Prop :=
  Forall (fun x => gMinimumWitnessWeight <= nWeight x) (witnessSelectionPoolUnfiltered info) /\
  nTotalWeightRaw info = weight_sum (witnessSelectionPoolUnfiltered info) /\ nTotalWeightRaw info < 2 ^ 64.

Lemma pool_weights_weight_ok info : pool_weights_ok info -> Forall (weight_ok (nTotalWeightRaw info)) (witnessSelectionPoolUnfiltered info).
Proof.
  unfold gMinimumWitnessWeight. intros (Hw & Et & Hlt). rewrite Et in *. unfold gMinimumWitnessWeight in Hw.
  assert (Hx : forall l, Forall (fun x => 10000 <= nWeight x) l -> Forall (fun x => 10000 <= nWeight x <= weight_sum l) l).
  { induction 1 as [|x l Hx Hl IH]; [done|].
    assert (0 <= weight_sum l) by (apply weight_sum_nonneg; eapply Forall_impl; [exact Hl|]; cbn; lia).
    cbn [weight_sum]. constructor; [lia|]. eapply Forall_impl; [exact IH|]. cbn. lia. }
  eapply Forall_impl; [exact (Hx _ Hw)|]. cbn. unfold weight_ok. lia.
Qed.

(** C31: the selection of the witness terminates and is the draw the rules describe,
    on the main network: for some minimum age among 100, 95, ..., 0, the first at
    which enough witnesses are eligible, the pool holds exactly the witnesses older
    than it, not expired and locked longer than it; from an empty pool there is no
    witness, and otherwise the draw from the sorted pool succeeds and is fair. *)
Theorem witness_selection_correct hash info h : length hash = 32%nat -> bytes_ok hash -> pool_weights_ok info ->
  exists m, first_enough h (nTotalWeightRaw info) (witnessSelectionPoolUnfiltered info) 100 m /\
    let pool := List.filter (eligible m h (nTotalWeightRaw info)) (witnessSelectionPoolUnfiltered info) in
    (pool = [] -> GetWitnessHelper 0 0 hash info h = Err returned_false) /\
    (pool <> [] -> exists info', GetWitnessHelper 0 0 hash info h = Ok info' /\ fair_draw hash (pool_sort pool) info').
Proof.
  intros Hlen Hb Hok. pose proof (pool_weights_weight_ok info Hok) as Hw.
  destruct (pool_loop_spec h (nTotalWeightRaw info) _ Hw 20 100 eq_refl ltac:(lia)) as (m & Hm & E). exists m. split; [done|].
  cbv zeta. set (pool := List.filter _ _) in *. unfold GetWitnessHelper. change gMinimumParticipationAge with 100. rewrite E. cbn [res_bind].
  split; [by intros ->|]. intros Hne. destruct Hok as (Hmin & Et & Hlt). apply draw_witness_spec; try done.
  - by apply Forall_filter_b.
  - assert (Hnn : Forall (fun x => 0 <= nWeight x) (witnessSelectionPoolUnfiltered info)) by (eapply Forall_impl; [exact Hw|]; by intros x [[? ?] _]).
    eapply Z.le_lt_trans; [apply weight_sum_filter; exact Hnn|by rewrite <- Et].
Qed.

(** the order of the pool does not matter, so nodes that hold the witnesses in
    different containers select the same one: for pools that are permutations of
    each other, with distinct outpoints, the helper ends in the same failure or in
    the same selection from the same wheel. *)
Theorem selection_order_independent n d hash i1 i2 h : distinct_pool (witnessSelectionPoolUnfiltered i1) ->
  witnessSelectionPoolUnfiltered i1 ≡ₚ witnessSelectionPoolUnfiltered i2 -> nTotalWeightRaw i1 = nTotalWeightRaw i2 ->
  Forall (weight_ok (nTotalWeightRaw i1)) (witnessSelectionPoolUnfiltered i1) ->
  same_selection (GetWitnessHelper n d hash i1 h) (GetWitnessHelper n d hash i2 h).
Proof. apply same_selection_perm. Qed.

(** Two witnesses of equal age, with weights 10000 and 30000. *)
Definition sample_item (n w : Z) : RouletteItem :=
  mkRoulette (COutPoint_ofPosition 1499850 3 n) (mkCoin (wit_out 10000 (wit 2 1600000 0 0)) false false 1499850 0) w 150 0.
Definition sample_info : CGetWitnessInfo := pool_info [sample_item 1 10000; sample_item 0 30000] 40000.

Lemma sample_hash_ok : bytes_ok (repeat 7 32).
Proof. apply List.Forall_forall. intros x ->%repeat_spec. split; [discriminate|reflexivity]. Qed.

Lemma witness_selection_correct_witness : exists m info', 0 <= m <= 100 /\
  GetWitnessHelper 0 0 (repeat 7 32) sample_info 1500000 = Ok info' /\
  fair_draw (repeat 7 32) (pool_sort (List.filter (eligible m 1500000 40000) (witnessSelectionPoolUnfiltered sample_info))) info'.
Proof.
  destruct (witness_selection_correct (repeat 7 32) sample_info 1500000) as (m & (Hm & _) & _ & H).
  - reflexivity.
  - exact sample_hash_ok.
  - split; [|split; reflexivity]. repeat constructor; vm_compute; discriminate.
  - destruct H as (info' & E & D); [|exists m, info'; split; [exact Hm|split; [exact E|exact D]]].
    assert (He : eligible m 1500000 40000 (sample_item 1 10000) = true).
    { unfold eligible. apply andb_true_iff. split; [|apply andb_true_iff; split; [vm_compute; reflexivity|]].
      - unfold old_enough. cbn [nAge sample_item]. apply negb_true_iff, Z.leb_gt. lia.
      - unfold locked_enough. apply negb_true_iff, Z.leb_gt. vm_compute (GetPoW2RemainingLockLengthInBlocks _ _). lia. }
    cbn [witnessSelectionPoolUnfiltered sample_info pool_info List.filter nTotalWeightRaw]. rewrite He. discriminate.
Defined.

Definition swapped_info : CGetWitnessInfo := pool_info [sample_item 0 30000; sample_item 1 10000] 40000.
Definition selected_index (r : res failure CGetWitnessInfo) : option Z :=
  match r with Ok info => Some (selectedWitnessIndex info) | Err _ => None end.

Lemma selection_order_independent_witness :
  selected_index (GetWitnessHelper 0 0 (repeat 7 32) sample_info 1500000) = Some 0 /\
  same_selection (GetWitnessHelper 0 0 (repeat 7 32) sample_info 1500000) (GetWitnessHelper 0 0 (repeat 7 32) swapped_info 1500000).
Proof.
  split; [vm_compute; reflexivity|].
  apply (selection_order_independent 0 0 (repeat 7 32) sample_info swapped_info 1500000).
  - split_and!.
    + apply NoDup_cons_2; [rewrite list_elem_of_singleton; discriminate|apply NoDup_singleton].
    + repeat constructor; vm_compute; (discriminate || reflexivity).
    + intros x y. change (witnessSelectionPoolUnfiltered sample_info) with [sample_item 1 10000; sample_item 0 30000].
      intros [->| ->%list_elem_of_singleton]%elem_of_cons [->| ->%list_elem_of_singleton]%elem_of_cons E; try reflexivity; discriminate E.
  - apply Permutation_swap.
  - reflexivity.
  - repeat constructor; vm_compute; (discriminate || reflexivity || (right; split; [discriminate|reflexivity])).
Defined.
