(* ===== verification/WitnessAgree.v ===== *)
(** * WitnessAgree: the simplified set selects the witness of the coins

    A node that follows headers has only the simplified witness set; a node with
    the chain has the coins. Both must select the same witness for a block. *)

From stdpp Require Import sorting.
From S2P Require Import Prelude ArithUint256 Serialize Compressor Transaction ConsensusParams WitnessUtil TxCheck WitnessBundles WitnessDelta WitnessSelect WitnessDraw.

(** ** Lemmas: replacing the coins of a pool *)

Section Replace.
Variable g : COutPoint -> Coin -> Coin.

(** The same item for another coin. *)
Definition replaced (x : RouletteItem) : RouletteItem :=
  mkRoulette (ri_outpoint x) (g (ri_outpoint x) (ri_coin x)) (nWeight x) (nAge x) (nCumulativeWeight x).
(** The coin is locked as long. *)
Definition same_lock (x : RouletteItem) : Prop := lockUntilBlock (details_of (replaced x)) = lockUntilBlock (details_of x).

Lemma filter_replaced f l : Forall (fun x => f (replaced x) = f x) l -> List.filter f (map replaced l) = map replaced (List.filter f l).
Proof. induction 1 as [|x l Hx _ IH]; [done|]. cbn. rewrite Hx, IH. by destruct (f x). Qed.

Lemma drop_expired_replaced total l :
  drop_expired total (map replaced l) = match drop_expired total l with Some k => Some (map replaced k) | None => None end.
Proof.
  induction l as [|x l IH]; [done|]. cbn [map drop_expired]. rewrite IH. cbn [replaced nAge nWeight].
  destruct (witnessHasExpired _ _ _) as [[]|], (drop_expired total l); done.
Qed.

Lemma drop_expired_Forall (P : RouletteItem -> Prop) total l k : drop_expired total l = Some k -> Forall P l -> Forall P k.
Proof.
  revert k. induction l as [|x l IH]; intros k E Hl; cbn [drop_expired] in E; [by injection E as <-|].
  apply Forall_cons_iff in Hl as [Hx Hl]. destruct (witnessHasExpired _ _ _) as [e|]; [|done].
  destruct (drop_expired total l) as [k0|]; [|done]. injection E as <-. specialize (IH k0 eq_refl Hl). destruct e; [done|by constructor].
Qed.

Lemma filter_pool_replaced m h total l : Forall same_lock l ->
  filter_pool m h total (map replaced l) = match filter_pool m h total l with Some k => Some (map replaced k) | None => None end.
Proof.
  intros Hl. unfold filter_pool. rewrite filter_replaced by (by apply Forall_forall).
  rewrite drop_expired_replaced. destruct (drop_expired total _) as [k|] eqn:E; [|done]. f_equal. apply filter_replaced.
  pose proof (drop_expired_Forall same_lock _ _ _ E (Forall_filter_b _ _ _ Hl)) as Hk.
  eapply Forall_impl; [exact Hk|]. intros x Hx. unfold locked_enough. by rewrite Hx.
Qed.

Lemma filter_pool_Forall (P : RouletteItem -> Prop) m h total l k : filter_pool m h total l = Some k -> Forall P l -> Forall P k.
Proof.
  intros E Hl. unfold filter_pool in E. destruct (drop_expired total _) as [k0|] eqn:Ed; [|done]. injection E as <-.
  apply Forall_filter_b. by apply (drop_expired_Forall P _ _ _ Ed), Forall_filter_b.
Qed.

Lemma pool_loop_replaced fuel : forall m h total l, Forall same_lock l ->
  pool_loop fuel m h total (map replaced l) = res_map (map replaced) (pool_loop fuel m h total l).
Proof.
  induction fuel as [|fuel IH]; intros m h total l Hl; cbn [pool_loop]; rewrite filter_pool_replaced by done;
    (destruct (filter_pool m h total l) as [k|]; [|done]); cbv zeta; rewrite length_map; destruct (_ <? 100); try done;
    destruct (_ || _); try done. by apply IH.
Qed.

Lemma pool_loop_Forall (P : RouletteItem -> Prop) fuel : forall m h total l k, pool_loop fuel m h total l = Ok k -> Forall P l -> Forall P k.
Proof.
  induction fuel as [|fuel IH]; intros m h total l k E Hl; cbn [pool_loop] in E;
    (destruct (filter_pool m h total l) as [k0|] eqn:Ef; [|done]); cbv zeta in E;
    pose proof (filter_pool_Forall P _ _ _ _ _ Ef Hl) as Hk; destruct (_ <? 100); try (by injection E as <-);
    destruct (_ || _) in E; try (by injection E as <-); try done. by apply (IH _ _ _ _ _ E).
Qed.

Lemma sort_insert_replaced x l : sort_insert (replaced x) (map replaced l) = map replaced (sort_insert x l).
Proof.
  induction l as [|y l IH]; [done|]. cbn [map sort_insert]. change (roulette_ltb (replaced x) (replaced y)) with (roulette_ltb x y).
  destruct (roulette_ltb x y); [done|]. cbn [map]. by rewrite IH.
Qed.

Lemma pool_sort_replaced l : pool_sort (map replaced l) = map replaced (pool_sort l).
Proof.
  induction l as [|x l IH]; [done|]. cbn [map pool_sort fold_right]. fold (pool_sort l) (pool_sort (map replaced l)).
  by rewrite IH, sort_insert_replaced.
Qed.

Lemma weight_total_replaced l : forall acc, weight_total (map replaced l) acc = weight_total l acc.
Proof. induction l as [|x l IH]; [done|]. intros acc. apply IH. Qed.

Lemma adjust_replaced gw cap l : forall total,
  adjust_weights gw cap total (map replaced l) = (map replaced (fst (adjust_weights gw cap total l)), snd (adjust_weights gw cap total l)).
Proof.
  induction l as [|x l IH]; [done|]. intros total. cbn [map adjust_weights]. cbn [replaced nWeight]. rewrite IH.
  destruct (adjust_weights gw cap _ l). done.
Qed.

Lemma lower_bound_replaced l v : lower_bound (map replaced l) v = lower_bound l v.
Proof. induction l as [|x l IH]; [done|]. cbn [map lower_bound]. cbn [replaced nCumulativeWeight]. by rewrite IH. Qed.

(** The selection with the coins of the wheel replaced. *)
Definition replaced_selection (Q : COutPoint -> Coin -> Prop) (r1 r2 : res failure CGetWitnessInfo) : Prop :=
  match r1, r2 with
  | Ok i1, Ok i2 =>
      witnessSelectionPoolFiltered i2 = map replaced (witnessSelectionPoolFiltered i1) /\
      selectedWitnessIndex i2 = selectedWitnessIndex i1 /\ selectedWitnessOutpoint i2 = selectedWitnessOutpoint i1 /\
      exists x, Q (ri_outpoint x) (ri_coin x) /\
        selectedWitnessTransaction i1 = coin_out (ri_coin x) /\ selectedWitnessTransaction i2 = coin_out (ri_coin (replaced x)) /\
        selectedWitnessBlockHeight i1 = coin_nHeight (ri_coin x) /\ selectedWitnessBlockHeight i2 = coin_nHeight (ri_coin (replaced x))
  | Err e1, Err e2 => e1 = e2
  | _, _ => False
  end.

Lemma draw_replaced Q n d hash i1 i2 l : Forall (fun x => Q (ri_outpoint x) (ri_coin x)) l ->
  replaced_selection Q (draw_witness n d hash i1 l) (draw_witness n d hash i2 (map replaced l)).
Proof.
  intros HQ. unfold draw_witness. rewrite length_map, pool_sort_replaced, weight_total_replaced. destruct (negb _); [|done]. cbv zeta.
  destruct (genesis_weight n d _) as [gw|]; [|done]. cbn [res_bind]. rewrite adjust_replaced.
  destruct (adjust_weights gw _ 0 (pool_sort l)) as [wheel t] eqn:Ea. cbn [fst snd].
  destruct (roulette_seed hash t) as [s|]; [|done]. rewrite lower_bound_replaced, list_lookup_fmap.
  destruct (wheel !! _) as [x|] eqn:Ex; [|done]. cbn [fmap option_fmap option_map]. cbn. split_and!; try done. exists x. split; [|done].
  pose proof (adjust_capped _ _ _ _ _ _ Ea) as Hc. destruct (Forall2_lookup_r _ _ _ _ _ Hc Ex) as (y & Hy & (-> & -> & _)).
  assert (Hs : Forall (fun x => Q (ri_outpoint x) (ri_coin x)) (pool_sort l)) by (by rewrite pool_sort_perm).
  by apply (Forall_lookup_1 _ _ _ _ Hs Hy).
Qed.

Lemma helper_replaced Q n d hash l total h : Forall (fun x => Q (ri_outpoint x) (ri_coin x)) l -> Forall same_lock l ->
  replaced_selection Q (GetWitnessHelper n d hash (pool_info l total) h) (GetWitnessHelper n d hash (pool_info (map replaced l) total) h).
Proof.
  intros HQ Hl. unfold GetWitnessHelper. cbn [pool_info witnessSelectionPoolUnfiltered nTotalWeightRaw].
  rewrite pool_loop_replaced by done. destruct (pool_loop _ _ _ _ l) as [k|] eqn:E; [|done]. cbn [res_map res_bind].
  apply draw_replaced. by apply (pool_loop_Forall _ _ _ _ _ _ _ E).
Qed.
End Replace.

(** ** The coins and their items *)

(** A coin of the witness view at the index of its block: a witness output of a
    valid amount whose lock ends after it starts. *)
Definition witness_coin (oc : COutPoint * Coin) : Prop :=
  exists b t n w, fst oc = COutPoint_ofPosition b t n /\ 1 < b < 2 ^ 30 /\ 0 <= t < 2 ^ 64 /\ 0 <= n < 2 ^ 31 /\
    output (coin_out (snd oc)) = PoW2WitnessOutput w /\ coin_nHeight (snd oc) = b /\ 0 <= nValue (coin_out (snd oc)) <= MAX_MONEY /\
    0 <= lockFromBlock w /\ lock_or b (lockFromBlock w) <= lockUntilBlock w < 2 ^ 31.

Definition item_of_coin (o : COutPoint) (c : Coin) : SimplifiedWitnessRouletteItem :=
  match SItem_ofCoin o c with Ok y => y | Err _ => mkSItem 0 0 0 0 0 [] 0 end.
Definition coin_item (oc : COutPoint * Coin) : SimplifiedWitnessRouletteItem := item_of_coin (fst oc) (snd oc).
(** The coin that the simplified pool holds instead. *)
Definition as_simplified (o : COutPoint) (c : Coin) : Coin := simplified_coin (item_of_coin o c).

Lemma witness_coin_item oc : witness_coin oc -> exists w,
  SItem_ofCoin (fst oc) (snd oc) = Ok (coin_item oc) /\ isHash (fst oc) = false /\ GetPow2WitnessOutput (coin_out (snd oc)) = Some w /\
  simplified_outpoint (coin_item oc) = fst oc /\ blockNumber (coin_item oc) = coin_nHeight (snd oc) /\
  1 < coin_nHeight (snd oc) < 2 ^ 30 /\ si_nValue (coin_item oc) = nValue (coin_out (snd oc)) /\
  si_lockUntilBlock (coin_item oc) = lockUntilBlock w /\ witnessPubKeyID (coin_item oc) = witnessKeyID w /\
  si_lockFromBlock (coin_item oc) = lock_or (coin_nHeight (snd oc)) (lockFromBlock w) /\
  0 <= nValue (coin_out (snd oc)) <= MAX_MONEY /\ 0 <= lockFromBlock w /\
  lock_or (coin_nHeight (snd oc)) (lockFromBlock w) <= lockUntilBlock w < 2 ^ 31.
Proof.
  destruct oc as [o c]. cbn [fst snd]. intros (b & t & n & w & Eo & Hb & Ht & Hn & Hw & Hh & Hv & Hf & Hl). cbn [fst snd] in *. exists w.
  assert (Hbn : prevBlock_blockNumber o = b) by (rewrite Eo; apply ofPosition_blockNumber; lia).
  assert (Htn : prevBlock_transactionIndex o = t) by (rewrite Eo; apply ofPosition_transactionIndex; lia).
  assert (Hidx : op_n o = n) by (rewrite Eo; apply uwrap_small; lia).
  assert (Hhash : isHash o = false) by (by rewrite Eo).
  assert (Hget : GetPow2WitnessOutput (coin_out c) = Some w) by (unfold GetPow2WitnessOutput; by rewrite Hw).
  assert (Hitem : SItem_ofCoin o c = Ok (coin_item (o, c))).
  { unfold coin_item, item_of_coin. cbn [fst snd]. unfold SItem_ofCoin. by rewrite Hhash, Hget. }
  split; [done|]. split; [done|]. split; [done|].
  unfold SItem_ofCoin in Hitem. rewrite Hhash, Hget in Hitem. cbn [negb] in Hitem. injection Hitem as <-. cbn.
  unfold simplified_outpoint. cbn. rewrite Hbn, Htn, Hidx, Hh. split_and!; try done; lia.
Qed.

(** ** Lemmas: the two pools *)

Lemma u64_u64 z : u64 (u64 z) = u64 z.
Proof. apply u64_small, u64_range. Qed.

(** The weight of a coin and of its item. *)
Lemma coin_weight oc : witness_coin oc -> exists len w, 
  GetPoW2LockLengthInBlocksFromOutput (coin_out (snd oc)) (coin_nHeight (snd oc)) = Some len /\
  GetPoW2RawWeightForAmount (nValue (coin_out (snd oc))) (i64 (fst (fst len))) = Some w /\
  GetPoW2RawWeightForAmount (si_nValue (coin_item oc)) (i64 (GetLockLength (coin_item oc))) = Some w /\ 0 <= w < 2 ^ 63.
Proof.
  intros Hc. destruct (witness_coin_item oc Hc) as (w & _ & _ & Hw & _ & _ & Hh & Ev & Eu & _ & Ef & Hv & Hf & Hl).
  set (from := lock_or (coin_nHeight (snd oc)) (lockFromBlock w)) in *. set (until := lockUntilBlock w) in *.
  assert (Hfrom : 0 <= from) by (unfold from, lock_or; zcase; lia).
  exists (u64 (until - from + 1), from, until), (raw_weight (nValue (coin_out (snd oc))) (until - from + 1)).
  assert (Hlen : u64 (until - from + 1) = until - from + 1) by (apply u64_small; lia).
  assert (Hok : weight_args_ok (nValue (coin_out (snd oc))) (until - from + 1)) by (split; lia).
  cbn [fst]. rewrite Ev, Hlen, i64_small by lia. split_and!.
  - unfold GetPoW2LockLengthInBlocksFromOutput, GetPow2WitnessOutput in *. destruct (output (coin_out (snd oc))); try done.
    injection Hw as ->. fold (lock_or (coin_nHeight (snd oc)) (lockFromBlock w)). fold from until. by rewrite Hlen.
  - by apply raw_weight_exact.
  - unfold GetLockLength. rewrite Eu, Ef. rewrite (u64_small (until - from)) by lia. rewrite Hlen, i64_small by lia. by apply raw_weight_exact.
  - by apply raw_weight_bounds.
  - by apply raw_weight_bounds.
Qed.

(** The weights of a pool. *)
Definition pool_item_ok (coins : list (COutPoint * Coin)) (x : RouletteItem) : Prop :=
  (ri_outpoint x, ri_coin x) ∈ coins /\ (nWeight x = 0 \/ gMinimumWitnessWeight <= nWeight x < 2 ^ 63).

Lemma pools_agree h coins : Forall witness_coin coins -> forall total, exists p t,
  coins_pool h false coins total = Ok (p, t) /\
  set_pool h (map coin_item coins) total = Ok (map (replaced as_simplified) p, t) /\ Forall (pool_item_ok coins) p /\
  sublist (map (fun x => (ri_outpoint x, ri_coin x)) p) coins /\
  (0 <= total -> total + weight_sum p < 2 ^ 64 -> t = total + weight_sum p).
Proof.
  intros Hc. induction Hc as [|oc coins Hoc Hc IH]; intros total.
  { exists [], total. split_and!; try done; try constructor. cbn. lia. }
  destruct (witness_coin_item oc Hoc) as (w & _ & Hh & Hw & Eo & Eb & Hb1 & Ev & _ & _ & Ef & _ & Hlf & _).
  destruct (coin_weight oc Hoc) as ([[len f] u] & n & El & En & En' & Hn). cbn [fst] in En.
  assert (Hkeep : forall p, Forall (pool_item_ok coins) p -> Forall (pool_item_ok (oc :: coins)) p).
  { intros p Hp. eapply Forall_impl; [exact Hp|]. intros x [Hx Hxw]. split; [by right|done]. }
  assert (Hskip : exists p t, coins_pool h false coins total = Ok (p, t) /\
      set_pool h (map coin_item coins) total = Ok (map (replaced as_simplified) p, t) /\ Forall (pool_item_ok (oc :: coins)) p /\
      sublist (map (fun x => (ri_outpoint x, ri_coin x)) p) (oc :: coins) /\
      (0 <= total -> total + weight_sum p < 2 ^ 64 -> t = total + weight_sum p)).
  { destruct (IH total) as (p & t & E1 & E2 & Hp & Hs & Ht). exists p, t. split_and!; try done; [by apply Hkeep|by constructor]. }
  assert (Hpush : forall v tot, (0 <= total -> total + v < 2 ^ 64 -> tot = total + v) -> (v = 0 \/ gMinimumWitnessWeight <= v < 2 ^ 63) -> exists p t,
      (let! (p, t) := coins_pool h false coins tot in
       Ok (RouletteItem_new (fst oc) (snd oc) v (u64 (h - coin_nHeight (snd oc))) :: p, t)) = Ok (p, t) /\
      (let! (p, t) := set_pool h (map coin_item coins) tot in
       Ok (mkRoulette (simplified_outpoint (coin_item oc)) (simplified_coin (coin_item oc)) v (u64 (h - blockNumber (coin_item oc))) 0 :: p, t))
        = Ok (map (replaced as_simplified) p, t) /\ Forall (pool_item_ok (oc :: coins)) p /\
      sublist (map (fun x => (ri_outpoint x, ri_coin x)) p) (oc :: coins) /\
      (0 <= total -> total + weight_sum p < 2 ^ 64 -> t = total + weight_sum p)).
  { intros v tot Htot Hv. destruct (IH tot) as (p & t & E1 & E2 & Hp & Hs & Ht). unfold gMinimumWitnessWeight in *.
    assert (Hv64 : u64 v = v) by (apply u64_small; lia).
    exists (RouletteItem_new (fst oc) (snd oc) v (u64 (h - coin_nHeight (snd oc))) :: p), t.
    unfold RouletteItem_new. rewrite E1, E2, Hv64, u64_u64. cbn [res_bind map]. split_and!; [done| |constructor; [|by apply Hkeep]|by destruct oc; constructor|].
    - unfold replaced at 2. cbn [ri_outpoint ri_coin nWeight nAge nCumulativeWeight]. by rewrite Eo, Eb.
    - split; [destruct oc; left|done].
    - cbn [weight_sum nWeight]. intros H0 Hlt.
      assert (Hnn : 0 <= weight_sum p) by (apply weight_sum_nonneg; eapply Forall_impl; [exact Hp|]; intros x [_ Hx]; cbn; unfold gMinimumWitnessWeight in *; lia).
      rewrite Htot in Ht by lia. rewrite Ht; lia. }
  cbn [map coins_pool set_pool]. destruct oc as [o c]. cbn [fst snd] in *. rewrite Hh. cbn [eqb]. rewrite Ev.
  destruct (_ >=? _).
  - rewrite El, En. rewrite Ev in En'. rewrite En'. rewrite (u64_small n) by lia. destruct (n <? gMinimumWitnessWeight) eqn:E; [done|]. zbool.
    apply Hpush; [intros; apply u64_small; lia|right; lia].
  - rewrite Hw, Ef. unfold lock_or. destruct (Z.eqb_spec (lockFromBlock w) 0) as [->|].
    + cbn [Z.eqb]. rewrite (proj2 (Z.eqb_neq _ 1)) by lia. exact Hskip.
    + destruct (_ =? 1); [|exact Hskip]. apply Hpush; [lia|by left].
Qed.

(** ** Lemmas: the order of the set *)

(** One round of the loop over the set: [None] skips the item. *)
Definition set_round (h : Z) (y : SimplifiedWitnessRouletteItem) : res failure (option (RouletteItem * Z)) :=
  let push n := Some (mkRoulette (simplified_outpoint y) (simplified_coin y) n (u64 (h - blockNumber y)) 0, n) in
  if si_nValue y >=? gMinimumWitnessAmount * COIN then
    match GetPoW2RawWeightForAmount (si_nValue y) (i64 (GetLockLength y)) with
    | None => Err thrown
    | Some n => Ok (if u64 n <? gMinimumWitnessWeight then None else push (u64 n))
    end
  else Ok (if si_lockFromBlock y =? 1 then push 0 else None).

Lemma set_pool_round h y w total : 0 <= total < 2 ^ 64 -> set_pool h (y :: w) total =
  match set_round h y with
  | Err e => Err e
  | Ok None => set_pool h w total
  | Ok (Some (x, n)) => let! (p, t) := set_pool h w (u64 (total + n)) in Ok (x :: p, t)
  end.
Proof.
  intros Ht. cbn [set_pool]. unfold set_round. destruct (_ >=? _).
  - destruct (GetPoW2RawWeightForAmount _ _); [|done]. by destruct (_ <? _).
  - destruct (_ =? 1); [|done]. by rewrite Z.add_0_r, (u64_small total).
Qed.

Lemma set_pool_perm h w w' : w ≡ₚ w' -> forall total p t, 0 <= total < 2 ^ 64 -> set_pool h w total = Ok (p, t) ->
  exists p', set_pool h w' total = Ok (p', t) /\ p ≡ₚ p'.
Proof.
  induction 1 as [|y w w' _ IH|y y' w|w w' w'' _ IH1 _ IH2]; intros total p t Ht E.
  - exists p. done.
  - rewrite set_pool_round in * by done. destruct (set_round h y) as [[[x n]|]|]; [|by apply IH|done].
    destruct (set_pool h w (u64 (total + n))) as [[q u]|] eqn:Eq; cbn [res_bind] in E; [|done]. injection E as <- <-.
    destruct (IH _ _ _ (u64_range _) Eq) as (q' & -> & Hq). cbn [res_bind]. exists (x :: q'). split; [done|]. by constructor.
  - pose proof u64_range as Hr. rewrite (set_pool_round h y (y' :: w)) by done. rewrite set_pool_round in E by done.
    assert (Hsw : forall a b, u64 (u64 (total + a) + b) = u64 (u64 (total + b) + a)).
    { intros a b. unfold u64, uwrap. rewrite !Zplus_mod_idemp_l. f_equal. lia. }
    destruct (set_round h y) as [[[x n]|]|] eqn:E1; destruct (set_round h y') as [[[x' n']|]|] eqn:E2;
      rewrite ?set_pool_round in * by done; rewrite ?E1, ?E2 in *; try done; try (exists p; done).
    + rewrite Hsw. destruct (set_pool h w (u64 (u64 (total + n') + n))) as [[q u]|]; cbn [res_bind] in *; [|done]. injection E as <- <-.
      exists (x :: x' :: q). split; [done|]. apply Permutation_swap.
  - destruct (IH1 _ _ _ Ht E) as (p1 & E1 & H1). destruct (IH2 _ _ _ Ht E1) as (p2 & E2 & H2). exists p2. split; [done|]. by rewrite H1.
Qed.

Section Generated.
Context `{FSL : FlatSetLaws}.

Lemma generated_loop coins : Forall witness_coin coins -> forall w, ordered w -> NoDup (place <$> map coin_item coins ++ w) ->
  exists s, GenerateSimplifiedWitnessUTXOSetFromUTXOSet_loop coins w = Ok s /\ ordered s /\ s ≡ₚ map coin_item coins ++ w.
Proof.
  induction 1 as [|oc coins Hoc Hc IH]; intros w Hw Hnd; [by exists w|]. destruct oc as [o c].
  destruct (witness_coin_item _ Hoc) as (d & Ei & _). cbn [fst snd] in Ei. cbn [GenerateSimplifiedWitnessUTXOSetFromUTXOSet_loop].
  rewrite Ei. cbn [res_bind]. cbn [map app] in *.
  destruct (fs_insert_fresh w (coin_item (o, c)) Hw) as (w1 & E & Hw1 & Hp1).
  { rewrite fmap_cons, fmap_app in Hnd. apply NoDup_cons in Hnd as [Hn _]. intros Hx. apply Hn, elem_of_app. by right. }
  rewrite E. cbn [fst]. destruct (IH w1 Hw1) as (s & Es & Hs & Hp).
  { rewrite Hp1. rewrite <- Permutation_middle. done. }
  exists s. split_and!; [done|done|]. rewrite Hp, Hp1. by rewrite <- Permutation_middle.
Qed.

Lemma generated_ok coins : Forall witness_coin coins -> NoDup coins.*1 ->
  exists s, GenerateSimplifiedWitnessUTXOSetFromUTXOSet coins = Ok s /\ ordered s /\ s ≡ₚ map coin_item coins.
Proof.
  intros Hc Hn. destruct (generated_loop coins Hc []) as (s & Es & Hs & Hp); [constructor| |].
  - rewrite app_nil_r. apply (NoDup_fmap_1 (fun a => COutPoint_ofPosition a.1.1 a.1.2 a.2)). rewrite <- list_fmap_compose.
    replace ((fun a => COutPoint_ofPosition a.1.1 a.1.2 a.2) ∘ place <$> map coin_item coins) with coins.*1; [done|].
    clear -Hc. induction Hc as [|oc coins Hoc _ IH]; [done|]. cbn [map fmap list_fmap]. rewrite IH. f_equal.
    destruct (witness_coin_item _ Hoc) as (d & _ & _ & _ & Eo & _). by rewrite <- Eo.
  - exists s. by rewrite app_nil_r in Hp.
Qed.

End Generated.

(** ** Properties *)

(** The same witness: index in the wheel, outpoint, height and witness key. *)
Definition same_witness (r1 r2 : res failure CGetWitnessInfo) : Prop :=
  match r1, r2 with
  | Ok i1, Ok i2 =>
      selectedWitnessIndex i1 = selectedWitnessIndex i2 /\ selectedWitnessOutpoint i1 = selectedWitnessOutpoint i2 /\
      selectedWitnessBlockHeight i1 = selectedWitnessBlockHeight i2 /\
      exists w1 w2, GetPow2WitnessOutput (selectedWitnessTransaction i1) = Some w1 /\
        GetPow2WitnessOutput (selectedWitnessTransaction i2) = Some w2 /\ witnessKeyID w1 = witnessKeyID w2
  | Err e1, Err e2 => e1 = e2
  | _, _ => False
  end.

Lemma replaced_same_witness coins r1 r2 : Forall witness_coin coins ->
  replaced_selection as_simplified (fun o c => (o, c) ∈ coins) r1 r2 -> same_witness r1 r2.
Proof.
  intros Hc. destruct r1 as [i1|], r2 as [i2|]; try done. intros (_ & Ei & Eo & x & Hx & E1 & E2 & E3 & E4).
  destruct (witness_coin_item _ (proj1 (Forall_forall _ _) Hc _ Hx)) as (w & _ & _ & Hw & _ & Eb & Hb & _ & _ & Ek & _).
  cbn [fst snd] in *. split_and!; [congruence|congruence| |].
  - rewrite E3, E4. cbn [replaced ri_coin]. unfold as_simplified, simplified_coin. cbn [coin_nHeight].
    change (item_of_coin (ri_outpoint x) (ri_coin x)) with (coin_item (ri_outpoint x, ri_coin x)).
    rewrite Eb, u32_small, uwrap_small by lia. done.
  - exists w. eexists. rewrite E1, E2. cbn [replaced ri_coin]. split; [done|]. split; [done|]. cbn [witnessKeyID]. by rewrite <- Ek.
Qed.

Lemma selection_same_witness r1 r2 r3 : same_witness r1 r2 -> same_selection r2 r3 -> same_witness r1 r3.
Proof.
  destruct r1, r2, r3; try done; cbn; [|congruence]. intros (A & B & C & w1 & w2 & D & E & F) (_ & G & H & I & J).
  split_and!; [congruence..|]. exists w1, w2. split_and!; congruence.
Qed.

(** The pool of the coins, its outpoints apart. *)
Lemma agreed_pool_ok coins p t : Forall witness_coin coins -> NoDup coins.*1 -> Forall (pool_item_ok coins) p ->
  sublist (map (fun x => (ri_outpoint x, ri_coin x)) p) coins -> t = weight_sum p -> t < 2 ^ 64 ->
  distinct_pool (map (replaced as_simplified) p) /\ Forall (weight_ok t) (map (replaced as_simplified) p) /\
  Forall (same_lock as_simplified) p.
Proof.
  intros Hc Hn Hp Hs -> Ht.
  assert (Hop : NoDup (map ri_outpoint p)).
  { apply (sublist_NoDup _ coins.*1); [done|]. change (map ri_outpoint p) with (ri_outpoint <$> p).
    replace (ri_outpoint <$> p) with (fst <$> map (fun x => (ri_outpoint x, ri_coin x)) p) by (rewrite <- list_fmap_compose; done).
    by apply fmap_sublist. }
  assert (Hcoin : Forall (fun x => witness_coin (ri_outpoint x, ri_coin x)) p).
  { eapply Forall_impl; [exact Hp|]. intros x [Hx _]. by apply (proj1 (Forall_forall _ _) Hc). }
  assert (Hnn : Forall (fun x => 0 <= nWeight x) p).
  { eapply Forall_impl; [exact Hp|]. intros x [_ Hx]. cbn. unfold gMinimumWitnessWeight in Hx. lia. }
  split_and!.
  - split_and!.
    + apply (NoDup_fmap_1 ri_outpoint). change (map (replaced as_simplified) p) with (replaced as_simplified <$> p).
      by rewrite <- list_fmap_compose.
    + apply Forall_fmap. eapply Forall_impl; [exact Hcoin|]. intros x (b & t & n & w & E & _). cbn in *. rewrite E. apply ofPosition_ok.
    + intros x y Hx Hy E. apply list_elem_of_fmap in Hx as (x0 & -> & Hx), Hy as (y0 & -> & Hy). cbn in E.
      assert (Eo : ri_outpoint x0 = ri_outpoint y0).
      { apply (proj1 (Forall_forall _ _) Hcoin) in Hx, Hy. destruct (witness_coin_item _ Hx) as (_ & _ & _ & _ & Ex & _).
        destruct (witness_coin_item _ Hy) as (_ & _ & _ & _ & Ey & _). destruct Hx as (b & t & n & _ & Hx & Hb & Ht' & Hn' & _), Hy as (b' & t' & n' & _ & Hy & Hb' & Ht'' & Hn'' & _).
        cbn in *. rewrite Hx, Hy in E |- *. apply COutPoint_eqb_cases in E. cbn [isHash COutPoint_ofPosition set_prevBlock] in E.
        destruct E as (E1 & E2 & E3). rewrite !ofPosition_blockNumber in E1 by lia. rewrite !ofPosition_transactionIndex in E2 by lia.
        cbn in E3. rewrite !uwrap_small in E3 by lia. congruence. }
      f_equal. apply list_elem_of_lookup in Hx as [i Hi], Hy as [j Hj].
      assert (i = j) as ->; [|congruence]. apply (NoDup_lookup (map ri_outpoint p) i j (ri_outpoint x0)); [done| |];
        change (map ri_outpoint p) with (ri_outpoint <$> p); rewrite list_lookup_fmap; [by rewrite Hi|by rewrite Hj, Eo].
  - apply Forall_fmap. assert (Hle : forall l, Forall (fun x => 0 <= nWeight x) l -> Forall (fun x => nWeight x <= weight_sum l) l).
    { induction 1 as [|x l Hx Hl IH]; [done|]. pose proof (weight_sum_nonneg l Hl). cbn [weight_sum]. constructor; [lia|].
      eapply Forall_impl; [exact IH|]. cbn. lia. }
    eapply Forall_impl; [exact (proj2 (Forall_and _ _) (conj Hp (Hle p Hnn)))|]. intros x [[_ Hx] Hl]. unfold weight_ok, gMinimumWitnessWeight in *. cbn. lia.
  - eapply Forall_impl; [exact Hcoin|]. intros x Hx. unfold same_lock, details_of. cbn [replaced ri_coin].
    destruct (witness_coin_item _ Hx) as (w & _ & _ & Hw & _ & _ & _ & _ & Eu & _). cbn [fst snd] in *. rewrite Hw.
    unfold as_simplified, simplified_coin. cbn. exact Eu.
Qed.

(** C32: a node that only has the simplified set selects the witness that the chain
    selects. Let [coins] be the witness coins of the chain, all addressed by
    position, from blocks after the first, with locks that end after they start and
    a total weight that fits 64 bits. The set generated from them selects, for the
    block at height [h] with this hash, the same witness key at the same outpoint,
    or fails in the same way, although the set holds neither the spending keys nor
    the fail counts and is in another order. *)
Theorem set_selects_same_witness (F : FlatSet) (L : FlatSetLaws) n d p coins h hash :
  Forall witness_coin coins -> NoDup coins.*1 -> pow2WitnessSyncHeight (consensus p) <= h -> 0 < h < 2 ^ 64 ->
  (forall pool total, coins_pool h false coins 0 = Ok (pool, total) -> weight_sum pool < 2 ^ 64) ->
  exists s, GenerateSimplifiedWitnessUTXOSetFromUTXOSet coins = Ok s /\
    same_witness (GetWitness n d p (Some coins) (h - 1) hash) (GetWitnessFromSimplifiedUTXO n d s h hash).
Proof.
  intros Hc Hn Hsync Hh Hsum. destruct (generated_ok coins Hc Hn) as (s & Es & _ & Hp). exists s. split; [done|].
  destruct (pools_agree h coins Hc 0) as (pool & t & E1 & E2 & Hpool & Hsub & Ht). specialize (Hsum _ _ E1).
  assert (t = weight_sum pool) as Et by (rewrite Ht; lia).
  destruct (agreed_pool_ok coins pool t Hc Hn Hpool Hsub Et ltac:(lia)) as (Hd & Hw & Hl).
  symmetry in Hp. destruct (set_pool_perm h _ _ Hp 0 _ _ ltac:(lia) E2) as (pool' & E3 & Hperm).
  unfold GetWitness, GetWitnessFromSimplifiedUTXO. replace (h - 1 + 1) with h by lia. rewrite u64_small by lia.
  rewrite (proj2 (Z.ltb_ge h _)) by lia. rewrite E1, E3. cbn [res_bind].
  apply (selection_same_witness _ (GetWitnessHelper n d hash (pool_info (map (replaced as_simplified) pool) t) h)).
  - apply (replaced_same_witness coins); [done|]. apply helper_replaced; [|done]. eapply Forall_impl; [exact Hpool|]. by intros x [? _].
  - apply same_selection_perm; done.
Qed.

(** Two witness coins of blocks 1499850 and 1499900. *)
Definition sample_coins : list (COutPoint * Coin) :=
  [(COutPoint_ofPosition 1499850 3 1, mkCoin (wit_out 10000 (wit 2 1600000 0 0)) false true 1499850 3);
   (COutPoint_ofPosition 1499900 0 0, mkCoin (wit_out 70000 (wit 5 1600000 4 9)) true true 1499900 0)].

Lemma set_selects_same_witness_witness : exists s,
  @GenerateSimplifiedWitnessUTXOSetFromUTXOSet sorted_list_set sample_coins = Ok s /\
  same_witness (GetWitness 0 0 CMainParams (Some sample_coins) (1500100 - 1) (repeat 7 32))
    (GetWitnessFromSimplifiedUTXO 0 0 s 1500100 (repeat 7 32)).
Proof.
  apply (set_selects_same_witness sorted_list_set sorted_list_set_laws 0 0 CMainParams sample_coins 1500100 (repeat 7 32)).
  - apply List.Forall_cons; [|apply List.Forall_cons; [|apply List.Forall_nil]].
    + exists 1499850, 3, 1, (wit 2 1600000 0 0). by split_and!.
    + exists 1499900, 0, 0, (wit 5 1600000 4 9). by split_and!.
  - apply NoDup_cons_2; [rewrite list_elem_of_singleton; discriminate|apply NoDup_singleton].
  - vm_compute. discriminate.
  - split; reflexivity.
  - intros pool total E. vm_compute in E. injection E as <- _. vm_compute. reflexivity.
Defined.

(** the order of the set is not the order of the wheel, although the comment on
    the set's [operator<] says the two must match precisely: the wheel is ordered by
    age, so of two items of different blocks the set puts the older one first and
    the wheel the younger one. The selection sorts the wheel itself, so this does
    not change the witness. *)
Theorem set_order_is_not_wheel_order h a b : 0 <= blockNumber a < blockNumber b -> blockNumber b <= h < 2 ^ 64 ->
  let ri y := mkRoulette (simplified_outpoint y) (simplified_coin y) 0 (u64 (h - blockNumber y)) 0 in
  sitem_ltb a b = true /\ roulette_ltb (ri b) (ri a) = true.
Proof.
  intros Ha Hb. cbv zeta. unfold sitem_ltb, roulette_ltb. cbn [nAge]. rewrite !u64_small by lia.
  rewrite (proj2 (Z.eqb_neq _ _)), (proj2 (Z.eqb_neq (h - blockNumber b) _)), !Z.ltb_lt by lia. lia.
Qed.

Lemma set_order_is_not_wheel_order_witness :
  sitem_ltb (mkSItem 10 0 0 9000 10 (repeat 1 20) 1) (mkSItem 20 0 0 9000 10 (repeat 1 20) 1) = true.
Proof.
  exact (proj1 (set_order_is_not_wheel_order 500 (mkSItem 10 0 0 9000 10 (repeat 1 20) 1) (mkSItem 20 0 0 9000 10 (repeat 1 20) 1)
    ltac:(split; [discriminate|reflexivity]) ltac:(split; [discriminate|reflexivity]))).
Defined.
