(* ===== verification/VersionBits.v ===== *)
(** * VersionBits: the activation of rule changes in [src/src/versionbits.{h,cpp}]

    The threshold state of a deployment for a block, computed period by period and
    kept in a cache that is keyed by block hashes. The abstract class
    [AbstractThresholdConditionChecker] is the class [ThresholdChecker], of which the
    deployments are instances. The hash of a block header is an argument; of a block
    index the model adds the two version numbers to what [Chain] has. *)

From stdpp Require Import gmap.
From S2P Require Import Prelude ArithUint256 Chain.

(** ** Definitions *)

Inductive ThresholdState :=
| THRESHOLD_DEFINED | THRESHOLD_STARTED | THRESHOLD_LOCKED_IN | THRESHOLD_ACTIVE | THRESHOLD_FAILED.

#[export] Instance ThresholdState_eq_dec : EqDecision ThresholdState.
Proof. solve_decision. Defined.

(** The virtual functions of the checker. *)
Class ThresholdChecker := {
  Condition : ptr -> bool;
  BeginTime : Z;
  EndTime : Z;
  Period : Z;
  Threshold : Z
}.

Abbreviation ThresholdConditionCache := (gmap (list Z) ThresholdState).

Record BIP9Stats := mkStats { st_period : Z; st_threshold : Z; st_elapsed : Z; st_count : Z; st_possible : bool }.

Section Checker.
Context (H : heap) (testnet : bool) (GetHashPoW2 : ptr -> list Z) `{ThresholdChecker}.

(** [PREVHASH] *)
Definition PREVHASH (pindexPrev : option ptr) : list Z :=
  match pindexPrev with None => repeat 0 32 | Some p => GetHashPoW2 p end.

(** The last block of the period before the one that [p] belongs to. *)
Definition period_end (p : ptr) : option ptr := GetAncestor H p (height_of H p - (height_of H p + 1) mod Period).
Definition period_back (p : ptr) : option ptr := GetAncestor H p (height_of H p - Period).

(** The walk back to a block whose state is known; [None]: out of fuel. *)
Fixpoint find_known (fuel : nat) (cache : ThresholdConditionCache) (pindexPrev : option ptr) (vToCompute : list ptr)
    : option (ThresholdConditionCache * option ptr * list ptr) :=
  match cache !! PREVHASH pindexPrev with
  | Some _ => Some (cache, pindexPrev, vToCompute)
  | None =>
      match pindexPrev with
      | None => Some (<[PREVHASH None := THRESHOLD_DEFINED]> cache, None, vToCompute)
      | Some p =>
          if GetMedianTimePast H testnet p <? BeginTime
          then Some (<[PREVHASH (Some p) := THRESHOLD_DEFINED]> cache, Some p, vToCompute)
          else match fuel with
               | O => None
               | S f => find_known f cache (period_back p) (p :: vToCompute)
               end
      end
  end.

(** The blocks of a period that signal; [None]: a null pointer is followed. *)
Fixpoint count_blocks (n : nat) (pindexCount : option ptr) : option Z :=
  match n with
  | O => Some 0
  | S n' =>
      match pindexCount with
      | None => None
      | Some p => match count_blocks n' (prev_of H p) with
                  | Some c => Some (if Condition p then 1 + c else c)
                  | None => None
                  end
      end
  end.

Definition state_next (state : ThresholdState) (p : ptr) : option ThresholdState :=
  match state with
  | THRESHOLD_DEFINED =>
      Some (if GetMedianTimePast H testnet p >=? EndTime then THRESHOLD_FAILED
            else if GetMedianTimePast H testnet p >=? BeginTime then THRESHOLD_STARTED else THRESHOLD_DEFINED)
  | THRESHOLD_STARTED =>
      if GetMedianTimePast H testnet p >=? EndTime then Some THRESHOLD_FAILED
      else match count_blocks (Z.to_nat Period) (Some p) with
           | Some count => Some (if count >=? Threshold then THRESHOLD_LOCKED_IN else THRESHOLD_STARTED)
           | None => None
           end
  | THRESHOLD_LOCKED_IN => Some THRESHOLD_ACTIVE
  | THRESHOLD_FAILED | THRESHOLD_ACTIVE => Some state
  end.

(** The walk forward; the head of the list is the back of the vector. *)
Fixpoint compute_states (vToCompute : list ptr) (state : ThresholdState) (cache : ThresholdConditionCache)
    : option (ThresholdState * ThresholdConditionCache) :=
  match vToCompute with
  | [] => Some (state, cache)
  | p :: v =>
      match state_next state p with
      | Some stateNext => compute_states v stateNext (<[PREVHASH (Some p) := stateNext]> cache)
      | None => None
      end
  end.

(** Every round of the walk back lowers the height. *)
Definition GetStateFor (pindexPrev : option ptr) (cache : ThresholdConditionCache)
    : option (ThresholdState * ThresholdConditionCache) :=
  let p := match pindexPrev with Some p => period_end p | None => None end in
  match find_known (S (Z.to_nat (match p with Some q => height_of H q | None => 0 end))) cache p [] with
  | None => None
  | Some (cache, p, v) =>
      match cache !! PREVHASH p with
      | None => None
      | Some state => compute_states v state cache
      end
  end.

(** [None]: a null pointer is followed. *)
Fixpoint statistics_loop (fuel : nat) (low : Z) (p : option ptr) (count : Z) : option Z :=
  match p with
  | None => None
  | Some q =>
      if height_of H q =? low then Some count
      else match fuel with
           | O => None
           | S f => statistics_loop f low (prev_of H q) (if Condition q then count + 1 else count)
           end
  end.

(** The members of a null index's statistics that are not set are [0] here. *)
Definition GetStateStatisticsFor (pindex : option ptr) : option BIP9Stats :=
  match pindex with
  | None => Some (mkStats Period Threshold 0 0 false)
  | Some p =>
      match period_end p with
      | None => None
      | Some e =>
          let elapsed := height_of H p - height_of H e in
          match statistics_loop (Z.to_nat elapsed) (height_of H e) (Some p) 0 with
          | None => None
          | Some count => Some (mkStats Period Threshold elapsed count (Period - Threshold >=? elapsed - count))
          end
      end
  end.

(** The walk back over the periods with the same state. *)
Fixpoint since_loop (fuel : nat) (initialState : ThresholdState) (pindexPrev : ptr) (cache : ThresholdConditionCache)
    : option (Z * ThresholdConditionCache) :=
  match period_back pindexPrev with
  | None => Some (height_of H pindexPrev + 1, cache)
  | Some previousPeriodParent =>
      match GetStateFor (Some previousPeriodParent) cache with
      | None => None
      | Some (state, cache) =>
          if bool_decide (state = initialState) then
            match fuel with O => None | S f => since_loop f initialState previousPeriodParent cache end
          else Some (height_of H pindexPrev + 1, cache)
      end
  end.

Definition GetStateSinceHeightFor (pindexPrev : option ptr) (cache : ThresholdConditionCache)
    : option (Z * ThresholdConditionCache) :=
  match GetStateFor pindexPrev cache with
  | None => None
  | Some (initialState, cache) =>
      if bool_decide (initialState = THRESHOLD_DEFINED) then Some (0, cache)
      else match pindexPrev with
           | None => None
           | Some p => match period_end p with
                       | None => None
                       | Some q => since_loop (S (Z.to_nat (height_of H q))) initialState q cache
                       end
           end
  end.
End Checker.

(** *** Deployments *)

Inductive DeploymentType := DEPLOYMENT_POW | DEPLOYMENT_WITNESS | DEPLOYMENT_BOTH.

#[export] Instance DeploymentType_eq_dec : EqDecision DeploymentType.
Proof. solve_decision. Defined.
Record BIP9Deployment := mkDeployment {
  bit : Z; nStartTime : Z; nTimeout : Z; dep_type : DeploymentType; requiredProtoUpgradePercent : Z; protoVersion : Z
}.

(** The mask is a negative [int32_t] in the source; its bits are those of this number. *)
Definition VERSIONBITS_TOP_BITS : Z := 0x20000000.
Definition VERSIONBITS_TOP_MASK : Z := 0xE0000000.
Definition Mask (d : BIP9Deployment) : Z := u32 (Z.shiftl 1 (bit d)).

(** A version number signals the bit. *)
Definition signals (d : BIP9Deployment) (version : Z) : bool :=
  (Z.land (u32 version) VERSIONBITS_TOP_MASK =? VERSIONBITS_TOP_BITS) && negb (Z.land (u32 version) (Mask d) =? 0).

(** [VersionBitsConditionChecker]; [versions] gives [nVersion] and [nVersionPoW2Witness] of a block. *)
Definition VersionBitsConditionChecker (versions : ptr -> Z * Z) (d : BIP9Deployment)
    (nMinerConfirmationWindow nRuleChangeActivationThreshold : Z) : ThresholdChecker := {|
  Condition p := match dep_type d with
                 | DEPLOYMENT_POW => signals d (fst (versions p))
                 | DEPLOYMENT_WITNESS => signals d (snd (versions p))
                 | DEPLOYMENT_BOTH => signals d (fst (versions p)) && signals d (snd (versions p))
                 end;
  BeginTime := nStartTime d;
  EndTime := nTimeout d;
  Period := nMinerConfirmationWindow;
  Threshold := nRuleChangeActivationThreshold
|}.

(** The deployments of the main network and of the test networks. *)
Definition main_testdummy : BIP9Deployment := mkDeployment 28 1199145601 1230767999 DEPLOYMENT_POW 0 0.
Definition main_csv : BIP9Deployment := mkDeployment 0 1462060800 1493596800 DEPLOYMENT_POW 0 0.

(** [VersionBitsCache]: a cache per deployment and type. *)
Record VersionBitsCache := mkCaches {
  cachespow : list ThresholdConditionCache;
  cacheswitness : list ThresholdConditionCache;
  cachescombined : list ThresholdConditionCache
}.
Definition caches_get (c : VersionBitsCache) (t : DeploymentType) (idx : nat) : option ThresholdConditionCache :=
  match t with DEPLOYMENT_POW => cachespow c | DEPLOYMENT_WITNESS => cacheswitness c | DEPLOYMENT_BOTH => cachescombined c end !! idx.
Definition caches_set (c : VersionBitsCache) (t : DeploymentType) (idx : nat) (x : ThresholdConditionCache) : VersionBitsCache :=
  match t with
  | DEPLOYMENT_POW => mkCaches (<[idx := x]> (cachespow c)) (cacheswitness c) (cachescombined c)
  | DEPLOYMENT_WITNESS => mkCaches (cachespow c) (<[idx := x]> (cacheswitness c)) (cachescombined c)
  | DEPLOYMENT_BOTH => mkCaches (cachespow c) (cacheswitness c) (<[idx := x]> (cachescombined c))
  end.
Definition caches_Clear (n : nat) : VersionBitsCache := mkCaches (replicate n ∅) (replicate n ∅) (replicate n ∅).

(** [VersionBitsState] for the deployment at [pos]; [None] also for a position out of range. *)
Definition VersionBitsState (H : heap) (testnet : bool) (GetHashPoW2 : ptr -> list Z) (versions : ptr -> Z * Z)
    (vDeployments : list BIP9Deployment) (window threshold : Z) (pindexPrev : option ptr) (pos : nat) (c : VersionBitsCache)
    : option (ThresholdState * VersionBitsCache) :=
  match vDeployments !! pos with
  | None => None
  | Some d =>
      match caches_get c (dep_type d) pos with
      | None => None
      | Some cache =>
          match @GetStateFor H testnet GetHashPoW2 (VersionBitsConditionChecker versions d window threshold) pindexPrev cache with
          | Some (s, cache) => Some (s, caches_set c (dep_type d) pos cache)
          | None => None
          end
      end
  end.

(** [HaveRequiredPeerUpgradePercent]; [peers] are the versions of the connected peers. *)
Definition HaveRequiredPeerUpgradePercent (peers : list Z) (nRequiredProtoVersion nRequiredPercent : Z) : bool :=
  if Z.of_nat (length peers) <? 3 then true
  else (100 * Z.of_nat (length (filter (fun v => nRequiredProtoVersion <= v) peers))) / Z.of_nat (length peers) >? u32 nRequiredPercent.

(** The state makes a new block signal the deployment. *)
Definition to_signal (peers : list Z) (d : BIP9Deployment) (state : ThresholdState) : bool :=
  match state with
  | THRESHOLD_LOCKED_IN => true
  | THRESHOLD_STARTED =>
      (protoVersion d =? 0) || HaveRequiredPeerUpgradePercent peers (protoVersion d) (requiredProtoUpgradePercent d)
  | _ => false
  end.

Section BlockVersion.
Context (H : heap) (testnet : bool) (GetHashPoW2 : ptr -> list Z) (versions : ptr -> Z * Z) (peers : list Z).
Context (vDeployments : list BIP9Deployment) (window threshold : Z) (pindexPrev : option ptr).

Fixpoint version_loop (n : nat) (i : nat) (nVersion : Z) (c : VersionBitsCache) : option (Z * VersionBitsCache) :=
  match n with
  | O => Some (nVersion, c)
  | S n' =>
      match vDeployments !! i, VersionBitsState H testnet GetHashPoW2 versions vDeployments window threshold pindexPrev i c with
      | Some d, Some (state, c) =>
          version_loop n' (S i) (if to_signal peers d state then i32 (Z.lor (u32 nVersion) (Mask d)) else nVersion) c
      | _, _ => None
      end
  end.
Definition ComputeBlockVersion (c : VersionBitsCache) : option (Z * VersionBitsCache) :=
  version_loop (length vDeployments) 0 VERSIONBITS_TOP_BITS c.
End BlockVersion.

(** ** Reference: the state period by period, without a cache *)

Section Reference.
Context (H : heap) (testnet : bool) (GetHashPoW2 : ptr -> list Z) `{C : ThresholdChecker}.

(** The signalling blocks among the last [n] up to [p]. *)
Fixpoint signal_count (n : nat) (p : ptr) : Z :=
  match n with
  | O => 0
  | S n' => (if Condition p then 1 else 0) + match prev_of H p with Some q => signal_count n' q | None => 0 end
  end.

(** One step of the state machine at the last block of a period. *)
Inductive moves (p : ptr) : ThresholdState -> ThresholdState -> Prop :=
| stays_defined : GetMedianTimePast H testnet p < BeginTime -> moves p THRESHOLD_DEFINED THRESHOLD_DEFINED
| starts : BeginTime <= GetMedianTimePast H testnet p < EndTime -> moves p THRESHOLD_DEFINED THRESHOLD_STARTED
| times_out s : EndTime <= GetMedianTimePast H testnet p -> s = THRESHOLD_DEFINED \/ s = THRESHOLD_STARTED -> moves p s THRESHOLD_FAILED
| stays_started : GetMedianTimePast H testnet p < EndTime -> signal_count (Z.to_nat Period) p < Threshold ->
    moves p THRESHOLD_STARTED THRESHOLD_STARTED
| locks_in : GetMedianTimePast H testnet p < EndTime -> Threshold <= signal_count (Z.to_nat Period) p ->
    moves p THRESHOLD_STARTED THRESHOLD_LOCKED_IN
| activates : moves p THRESHOLD_LOCKED_IN THRESHOLD_ACTIVE
| stays_active : moves p THRESHOLD_ACTIVE THRESHOLD_ACTIVE
| stays_failed : moves p THRESHOLD_FAILED THRESHOLD_FAILED.

(** The state after the period that ends with the block: [DEFINED] before the first
    period, and then one step per period. *)
Inductive state_after : option ptr -> ThresholdState -> Prop :=
| before_first : state_after None THRESHOLD_DEFINED
| after_period p s s' : state_after (if height_of H p <? Period then None else up H (Z.to_nat Period) p) s ->
    moves p s s' -> state_after (Some p) s'.

(** The last block of a period. *)
Definition period_last (p : ptr) : Prop := is_Some (H !! p) /\ (height_of H p + 1) mod Period = 0.

(** A tree the states are defined for: hashes tell its blocks apart, the window is
    positive, the median time does not fall and the start is not after the timeout. *)
Record checkable : Prop := {
  ck_wf : wf_heap H;
  ck_rooted : rooted H;
  ck_hash : forall p q, is_Some (H !! p) -> is_Some (H !! q) -> GetHashPoW2 p = GetHashPoW2 q -> p = q;
  ck_null : forall p, is_Some (H !! p) -> GetHashPoW2 p <> repeat 0 32;
  ck_period : 0 < Period;
  ck_time : forall p q, prev_of H p = Some q -> GetMedianTimePast H testnet q <= GetMedianTimePast H testnet p;
  ck_window : BeginTime <= EndTime
}.

(** Every entry of the cache is the state after its block. *)
Definition cache_ok (cache : ThresholdConditionCache) : Prop :=
  (forall s, cache !! PREVHASH GetHashPoW2 None = Some s -> s = THRESHOLD_DEFINED) /\
  (forall p s, period_last p -> cache !! PREVHASH GetHashPoW2 (Some p) = Some s -> state_after (Some p) s).
End Reference.

(** ** Lemmas *)

Section Lemmas.
Context (H : heap) (testnet : bool) (GetHashPoW2 : ptr -> list Z) `{C : ThresholdChecker}.
Hypothesis ck : checkable H testnet GetHashPoW2.

Abbreviation after := (state_after H testnet).
Abbreviation key := (PREVHASH GetHashPoW2).

Lemma moves_det p s s1 s2 : moves H testnet p s s1 -> moves H testnet p s s2 -> s1 = s2.
Proof.
  pose proof (ck_window _ _ _ ck).
  intros M1 M2. destruct M1; inversion M2; subst; try done; try lia;
    repeat match goal with E : _ \/ _ |- _ => destruct E as [E|E] end; try discriminate; try lia.
Qed.

Lemma after_det p s1 s2 : after p s1 -> after p s2 -> s1 = s2.
Proof.
  intros A1. revert s2. induction A1 as [|p s s' A IH M]; intros s2 A2; inversion A2; subst; [done|].
  match goal with A' : after _ ?t, M' : moves _ _ _ ?t s2 |- _ => rewrite (IH _ A') in M; by apply (moves_det p t) end.
Qed.

Lemma median_up k p q : up H k p = Some q -> GetMedianTimePast H testnet q <= GetMedianTimePast H testnet p.
Proof.
  revert p. induction k as [|k IH]; intros p E; [injection E as <-; lia|]. cbn in E.
  destruct (prev_of H p) as [r|] eqn:Er; [|done]. cbn in E. pose proof (IH r E). pose proof (ck_time _ _ _ ck p r Er). lia.
Qed.

(** The period before. *)
Lemma period_back_spec p : period_last H p ->
  period_back H p = (if height_of H p <? Period then None else up H (Z.to_nat Period) p) /\
  forall q, period_back H p = Some q -> period_last H q /\ height_of H q = height_of H p - Period.
Proof.
  intros [Hp Hm]. pose proof (ck_wf _ _ _ ck) as W. pose proof (ck_period _ _ _ ck) as HP.
  assert (E : period_back H p = if height_of H p <? Period then None else up H (Z.to_nat Period) p).
  { unfold period_back. rewrite GetAncestor_eq by done. destruct (height_of H p <? Period) eqn:El; zbool.
    - rewrite (proj2 (Z.leb_gt 0 _)) by lia. done.
    - rewrite !(proj2 (Z.leb_le _ _)) by lia. cbn [andb]. f_equal. lia. }
  split; [done|]. intros q Eq. rewrite E in Eq. destruct (_ <? _) eqn:El; [done|]. zbool.
  destruct (up_height H _ p q W Hp Eq) as [Hq Hh]. rewrite Z2Nat.id in Hh by lia. split; [|done]. split; [done|].
  rewrite Hh. replace (height_of H p - Period + 1) with (height_of H p + 1 + (-1) * Period) by lia.
  by rewrite Z_mod_plus_full.
Qed.

Lemma period_last_height p : period_last H p -> Period <= height_of H p + 1.
Proof.
  intros [Hp Hm]. pose proof (ck_period _ _ _ ck). pose proof (height_range H p (ck_wf _ _ _ ck) Hp).
  apply Z.mod_divide in Hm; [|lia]. destruct Hm as [k Hk].
  assert (1 <= k) by nia. nia.
Qed.

Lemma period_end_spec p : is_Some (H !! p) ->
  match period_end H p with
  | None => height_of H p + 1 < Period
  | Some e => period_last H e /\ exists k, up H k p = Some e /\ Z.of_nat k < Period
  end.
Proof.
  intros Hp. pose proof (ck_period _ _ _ ck) as HP. pose proof (ck_wf _ _ _ ck) as W. pose proof (height_range H p W Hp) as Hr.
  pose proof (Z.mod_pos_bound (height_of H p + 1) Period HP) as Hb.
  pose proof (Z.div_mod (height_of H p + 1) Period (not_eq_sym (Z.lt_neq _ _ HP))) as Hd. unfold period_end. rewrite GetAncestor_eq by done.
  set (m := (height_of H p + 1) mod Period) in *. set (d := (height_of H p + 1) / Period) in *.
  destruct (0 <=? height_of H p - m) eqn:E0; zbool; cbn [andb].
  - rewrite (proj2 (Z.leb_le _ _)) by lia.
    destruct (up_Some H (Z.to_nat (height_of H p - (height_of H p - m))) p W (ck_rooted _ _ _ ck) Hp) as [e He]; [lia|].
    rewrite He. destruct (up_height H _ p e W Hp He) as [Hep Hh]. split; [|exists (Z.to_nat (height_of H p - (height_of H p - m))); split; [done|lia]].
    split; [done|]. rewrite Hh. replace (_ - _ + 1) with (0 + d * Period) by lia. rewrite Z_mod_plus_full. apply Zmod_0_l.
  - assert (d <= 0) by nia. nia.
Qed.

(** The null pointer or the last block of a period. *)
Definition period_start (p : option ptr) : Prop := match p with None => True | Some q => period_last H q end.

Lemma period_end_start p : is_Some (H !! p) -> period_start (period_end H p).
Proof. intros Hp. pose proof (period_end_spec p Hp) as E. by destruct (period_end H p); [apply E|]. Qed.
Lemma period_back_start p : period_last H p -> period_start (period_back H p).
Proof. intros Hp. destruct (period_back_spec p Hp) as [_ Hb]. destruct (period_back H p) as [q|]; [|done]. by apply Hb. Qed.

Lemma after_step p s s' : period_last H p -> after (period_back H p) s -> moves H testnet p s s' -> after (Some p) s'.
Proof. intros Hp A M. destruct (period_back_spec p Hp) as [E _]. rewrite E in A. by apply (after_period H testnet p s). Qed.
Lemma after_inv p s' : period_last H p -> after (Some p) s' -> exists s, after (period_back H p) s /\ moves H testnet p s s'.
Proof. intros Hp A. destruct (period_back_spec p Hp) as [E _]. rewrite E. inversion A; subst. eauto. Qed.

(** Induction over the periods. *)
Lemma period_ind (P : option ptr -> Prop) : P None ->
  (forall p, period_last H p -> P (period_back H p) -> P (Some p)) -> forall p, period_start p -> P p.
Proof.
  intros H0 HS [p|]; [|done]. intros Hp. cbn in Hp.
  remember (Z.to_nat (height_of H p)) as n eqn:En. revert p Hp En.
  induction n as [n IH] using lt_wf_ind. intros p Hp En. apply HS; [done|].
  destruct (period_back_spec p Hp) as [_ Hb]. destruct (period_back H p) as [q|]; [|done].
  destruct (Hb q eq_refl) as [Hq Hh]. pose proof (ck_period _ _ _ ck). destruct Hq as [Hq Hm].
  pose proof (height_range H q (ck_wf _ _ _ ck) Hq). apply (IH (Z.to_nat (height_of H q))); [lia|by split|done].
Qed.

(** Before the start time every period is [DEFINED]. *)
Lemma before_start_defined p : period_last H p -> GetMedianTimePast H testnet p < BeginTime -> after (Some p) THRESHOLD_DEFINED.
Proof.
  intros Hp. revert p Hp.
  enough (G : forall p, period_start p -> match p with None => True | Some q => GetMedianTimePast H testnet q < BeginTime end ->
    after p THRESHOLD_DEFINED) by (intros p Hp; by apply (G (Some p))).
  apply (period_ind (fun p => _ -> after p THRESHOLD_DEFINED)); [constructor|]. intros p Hp IH Hlt.
  apply (after_step p THRESHOLD_DEFINED); [done| |by constructor]. apply IH.
  destruct (period_back_spec p Hp) as [E _]. destruct (period_back H p) as [q|]; [|done]. destruct (_ <? _); [done|].
  pose proof (median_up _ _ _ (eq_sym E)). lia.
Qed.

(** *** Counting and one step *)

Lemma count_blocks_eq n p : is_Some (H !! p) -> Z.of_nat n <= height_of H p + 1 -> count_blocks H n (Some p) = Some (signal_count H n p).
Proof.
  revert p. induction n as [|n IH]; intros p Hp Hn; [done|]. cbn.
  destruct n as [|n]; [cbn; destruct (Condition p), (prev_of H p); f_equal; lia|].
  destruct (up_Some H 1 p (ck_wf _ _ _ ck) (ck_rooted _ _ _ ck) Hp ltac:(lia)) as [q Hq]. cbn in Hq.
  destruct (prev_of H p) as [r|] eqn:Er; [|done]. destruct (prev_height H p r (ck_wf _ _ _ ck) Er) as [Hr Hh].
  rewrite IH by (done || lia). destruct (Condition p); f_equal; lia.
Qed.

Lemma state_next_moves p s : period_last H p -> exists s', state_next H testnet s p = Some s' /\ moves H testnet p s s'.
Proof.
  intros Hp. pose proof (period_last_height p Hp) as Hh. pose proof (ck_period _ _ _ ck) as HP. pose proof (ck_window _ _ _ ck).
  destruct s; cbn; try (eexists; split; [reflexivity|solve [apply activates|apply stays_active|apply stays_failed]]).
  - destruct (_ >=? EndTime) eqn:E1; zbool; [exists THRESHOLD_FAILED; split; [done|constructor; auto]|].
    destruct (_ >=? BeginTime) eqn:E2; zbool; eexists; (split; [reflexivity|constructor; lia]).
  - destruct (_ >=? EndTime) eqn:E1; zbool; [exists THRESHOLD_FAILED; split; [done|constructor; auto]|].
    rewrite count_blocks_eq by (apply Hp || lia).
    destruct (_ >=? Threshold) eqn:E2; zbool; eexists; (split; [reflexivity|constructor; lia]).
Qed.

Lemma after_total p : period_start p -> exists s, after p s.
Proof.
  revert p. apply (period_ind (fun p => exists s, after p s)); [by exists THRESHOLD_DEFINED; constructor|]. intros q Hq [s As].
  destruct (state_next_moves q s Hq) as (s' & _ & M). exists s'. by apply (after_step q s).
Qed.

(** *** The cache *)

Lemma key_inj p q : period_start p -> period_start q -> key p = key q -> p = q.
Proof.
  destruct p as [p|], q as [q|]; cbn; intros Hp Hq E; try done.
  - f_equal. apply (ck_hash _ _ _ ck); [apply Hp|apply Hq|done].
  - exfalso. apply (ck_null _ _ _ ck p); [apply Hp|done].
  - exfalso. apply (ck_null _ _ _ ck q); [apply Hq|done].
Qed.

Lemma cache_ok_lookup cache p s : cache_ok H testnet GetHashPoW2 cache -> period_start p -> cache !! key p = Some s -> after p s.
Proof. intros [C0 CS] Hp E. destruct p as [p|]; [by apply CS|]. rewrite (C0 s E). constructor. Qed.

Lemma cache_ok_insert cache p s : cache_ok H testnet GetHashPoW2 cache -> period_start p -> after p s ->
  cache_ok H testnet GetHashPoW2 (<[key p := s]> cache).
Proof.
  intros [C0 CS] Hp A.
  assert (K : forall q t, period_start q -> <[key p := s]> cache !! key q = Some t -> p = q /\ s = t \/ cache !! key q = Some t).
  { intros q t Hq E. apply lookup_insert_Some in E as [[Ek Et]|[_ E]]; [|by right]. left. split; [by apply key_inj|done]. }
  split.
  - intros t E. destruct (K None t I E) as [[-> <-]|E']; [by inversion A|by apply C0].
  - intros q t Hq E. destruct (K (Some q) t Hq E) as [[-> <-]|E']; [done|by apply CS].
Qed.

(** The blocks to compute follow each other, one period apart, from [base] up to [top]. *)
Fixpoint links (base : option ptr) (v : list ptr) (top : option ptr) : Prop :=
  match v with
  | [] => base = top
  | q :: v' => period_last H q /\ period_back H q = base /\ links (Some q) v' top
  end.

Lemma compute_states_spec v base top s cache : links base v top -> after base s -> cache_ok H testnet GetHashPoW2 cache ->
  exists s' cache', compute_states H testnet GetHashPoW2 v s cache = Some (s', cache') /\ after top s' /\ cache_ok H testnet GetHashPoW2 cache'.
Proof.
  revert base s cache. induction v as [|q v IH]; intros base s cache L A Cok; cbn in *; [subst; eauto|].
  destruct L as (Hq & <- & L). destruct (state_next_moves q s Hq) as (s1 & -> & M).
  pose proof (after_step q s s1 Hq A M) as A1.
  destruct (IH (Some q) s1 (<[key (Some q) := s1]> cache) L A1) as (s' & c' & E & R); [by apply cache_ok_insert|eauto].
Qed.

(** What the walk back promises. *)
Definition found (top : option ptr) (r : option (ThresholdConditionCache * option ptr * list ptr)) : Prop :=
  exists cache' base v' s, r = Some (cache', base, v') /\ cache_ok H testnet GetHashPoW2 cache' /\
    cache' !! key base = Some s /\ after base s /\ links base v' top.

Lemma found_defined cache p v top : cache_ok H testnet GetHashPoW2 cache -> period_start p -> links p v top ->
  after p THRESHOLD_DEFINED -> found top (Some (<[key p := THRESHOLD_DEFINED]> cache, p, v)).
Proof.
  intros Cok Hp L A. exists (<[key p := THRESHOLD_DEFINED]> cache), p, v, THRESHOLD_DEFINED. rewrite lookup_insert_eq.
  repeat split; try done; by apply cache_ok_insert.
Qed.

Lemma find_known_spec fuel p v top cache : cache_ok H testnet GetHashPoW2 cache -> period_start p -> links p v top ->
  match p with Some q => height_of H q < Z.of_nat fuel | None => True end -> found top (find_known H testnet GetHashPoW2 fuel cache p v).
Proof.
  revert p v. induction fuel as [|f IH]; intros p v Cok Hp L Hf; cbn [find_known];
    (destruct (cache !! key p) as [s|] eqn:Es;
      [exists cache, p, v, s; pose proof (cache_ok_lookup cache p s Cok Hp Es); by repeat split; try apply Cok|]);
    (destruct p as [p|]; [|apply found_defined; try done; constructor]);
    pose proof (height_range H p (ck_wf _ _ _ ck) (proj1 Hp)); [cbn in Hf; lia|].
  destruct (_ <? BeginTime) eqn:Eb; zbool; [by apply (found_defined cache (Some p)); try apply before_start_defined|].
  pose proof (period_back_start p Hp) as Hb. destruct (period_back_spec p Hp) as [_ Hh].
  apply IH; [done|done|by split; [|split]|]. destruct (period_back H p) as [q|]; [|done].
  destruct (Hh q eq_refl) as [_ ->]. pose proof (ck_period _ _ _ ck). cbn in Hf. lia.
Qed.

Lemma GetStateFor_spec pindexPrev cache : cache_ok H testnet GetHashPoW2 cache ->
  match pindexPrev with Some p => is_Some (H !! p) | None => True end ->
  exists s cache', GetStateFor H testnet GetHashPoW2 pindexPrev cache = Some (s, cache') /\
    after (pindexPrev ≫= period_end H) s /\ cache_ok H testnet GetHashPoW2 cache'.
Proof.
  intros Cok Hp. unfold GetStateFor.
  assert (E : (match pindexPrev with Some p => period_end H p | None => None end) = pindexPrev ≫= period_end H) by by destruct pindexPrev.
  rewrite E. clear E. set (p := pindexPrev ≫= period_end H).
  assert (Hps : period_start p) by (unfold p; destruct pindexPrev; cbn; [by apply period_end_start|done]).
  destruct (find_known_spec (S (Z.to_nat (match p with Some q => height_of H q | None => 0 end))) p [] p cache Cok Hps eq_refl)
    as (c' & base & v & s & -> & Cok' & Es & As & L).
  { destruct p as [q|]; [|done]. pose proof (height_range H q (ck_wf _ _ _ ck) (proj1 Hps)). lia. }
  rewrite Es. destruct (compute_states_spec v base p s c' L As Cok') as (s' & c2 & -> & A & Cok2). eauto.
Qed.

(** *** The future of a state *)

Lemma active_stays j : forall p q, period_last H p -> up H (j * Z.to_nat Period) q = Some p -> period_last H q ->
  forall s, s = THRESHOLD_ACTIVE \/ s = THRESHOLD_FAILED -> after (Some p) s -> after (Some q) s.
Proof.
  induction j as [|j IH]; intros p q Hp E Hq s Hs A; [cbn in E; by injection E as ->|].
  cbn [Nat.mul] in E. rewrite up_add in E. destruct (up H (Z.to_nat Period) q) as [r|] eqn:Er; [|done]. cbn in E.
  destruct (period_back_spec q Hq) as [Eb Hb].
  assert (Ebr : period_back H q = Some r).
  { rewrite Eb, Er. destruct (_ <? _) eqn:El; [|done]. zbool. pose proof (ck_period _ _ _ ck).
    destruct (up_height H _ q r (ck_wf _ _ _ ck) (proj1 Hq) Er) as [Hr Hh]. pose proof (height_range H r (ck_wf _ _ _ ck) Hr). lia. }
  destruct (Hb r Ebr) as [Hr _]. apply (after_step q s); [done|rewrite Ebr; by apply (IH p)|].
  destruct Hs as [-> | ->]; [apply stays_active|apply stays_failed].
Qed.

Lemma locked_in_then_active j p q : period_last H p -> up H (S j * Z.to_nat Period) q = Some p -> period_last H q ->
  after (Some p) THRESHOLD_LOCKED_IN -> after (Some q) THRESHOLD_ACTIVE.
Proof.
  intros Hp E Hq A. rewrite Nat.mul_succ_l, up_add in E.
  destruct (up H (j * Z.to_nat Period) q) as [r|] eqn:Er; [|done]. cbn in E.
  assert (Hrh : is_Some (H !! r) /\ height_of H r = height_of H q - Z.of_nat (j * Z.to_nat Period))
    by by apply (up_height H _ q r (ck_wf _ _ _ ck) (proj1 Hq)).
  pose proof (ck_period _ _ _ ck) as HP.
  assert (Hr : period_last H r).
  { split; [apply Hrh|]. destruct Hrh as [_ ->]. destruct Hq as [_ Hm].
    replace (_ - _ + 1) with (height_of H q + 1 + (- Z.of_nat j) * Period) by lia. by rewrite Z_mod_plus_full. }
  destruct (period_back_spec r Hr) as [Eb _]. apply (active_stays j r q Hr Er Hq); [by left|].
  apply (after_step r THRESHOLD_LOCKED_IN); [done| |constructor]. rewrite Eb, E.
  pose proof (period_last_height r Hr). destruct (_ <? _) eqn:El; [|done]. zbool.
  destruct (up_height H _ r p (ck_wf _ _ _ ck) (proj1 Hrh) E) as [Hpp Hh]. pose proof (height_range H p (ck_wf _ _ _ ck) Hpp). lia.
Qed.

(** *** Statistics and heights *)

Lemma statistics_loop_eq n p low count : is_Some (H !! p) -> 0 <= low -> height_of H p = low + Z.of_nat n ->
  statistics_loop H n low (Some p) count = Some (count + signal_count H n p).
Proof.
  revert p count. induction n as [|n IH]; intros p count Hp Hl Hh; cbn.
  - rewrite Hh. rewrite (proj2 (Z.eqb_eq _ _)) by lia. f_equal. lia.
  - rewrite (proj2 (Z.eqb_neq _ _)) by lia.
    destruct (up_Some H 1 p (ck_wf _ _ _ ck) (ck_rooted _ _ _ ck) Hp ltac:(lia)) as [q Hq]. cbn in Hq.
    destruct (prev_of H p) as [r|] eqn:Er; [|done]. destruct (prev_height H p r (ck_wf _ _ _ ck) Er) as [Hr Hhr].
    rewrite IH by (done || lia). destruct (Condition p); f_equal; lia.
Qed.

Lemma period_end_last p : period_last H p -> period_end H p = Some p.
Proof.
  intros [Hp Hm]. unfold period_end. rewrite Hm, Z.sub_0_r, GetAncestor_eq by (apply (ck_wf _ _ _ ck) || done).
  pose proof (height_range H p (ck_wf _ _ _ ck) Hp). rewrite !(proj2 (Z.leb_le _ _)) by lia. by rewrite Z.sub_diag.
Qed.

(** The periods from [p] back to [q] all have the state. *)
Inductive run (s : ThresholdState) : ptr -> ptr -> Prop :=
| run_here p : after (Some p) s -> run s p p
| run_back p b q : after (Some p) s -> period_back H p = Some b -> run s b q -> run s p q.

Lemma since_loop_spec fuel s p cache : cache_ok H testnet GetHashPoW2 cache -> period_last H p -> after (Some p) s ->
  s <> THRESHOLD_DEFINED -> height_of H p < Z.of_nat fuel ->
  exists cache' q s', since_loop H testnet GetHashPoW2 fuel s p cache = Some (height_of H q + 1, cache') /\
    cache_ok H testnet GetHashPoW2 cache' /\ run s p q /\ after (period_back H q) s' /\ s' <> s.
Proof.
  revert p cache. induction fuel as [|f IH]; intros p cache Cok Hp A Hs Hf;
    pose proof (height_range H p (ck_wf _ _ _ ck) (proj1 Hp)); [lia|]. cbn [since_loop].
  destruct (period_back H p) as [b|] eqn:Eb.
  2:{ exists cache, p, THRESHOLD_DEFINED. rewrite Eb. repeat split; try done; try apply Cok; by constructor. }
  destruct (period_back_spec p Hp) as [_ Hb]. destruct (Hb b Eb) as [Hbl Hbh]. pose proof (ck_period _ _ _ ck).
  destruct (GetStateFor_spec (Some b) cache Cok (proj1 Hbl)) as (s1 & c1 & -> & A1 & Cok1).
  cbn [mbind option_bind] in A1. rewrite period_end_last in A1 by done.
  destruct (bool_decide (s1 = s)) eqn:Ed.
  - apply bool_decide_eq_true in Ed as ->. destruct (IH b c1 Cok1 Hbl A1 Hs) as (c2 & q & s' & -> & Cok2 & R & A2 & N); [lia|].
    exists c2, q, s'. repeat split; try done; try apply Cok2. by apply (run_back s p b q).
  - apply bool_decide_eq_false in Ed. exists c1, p, s1. rewrite Eb. repeat split; try done; try apply Cok1. by constructor.
Qed.
End Lemmas.

(** *** The version of a new block *)

Lemma top_mask_bits v : 0 <= v < 2 ^ 30 -> Z.testbit v 29 = true -> Z.land v VERSIONBITS_TOP_MASK = VERSIONBITS_TOP_BITS.
Proof.
  intros Hv Hb. change VERSIONBITS_TOP_MASK with (Z.shiftl (Z.ones 3) 29). change VERSIONBITS_TOP_BITS with (Z.shiftl 1 29).
  apply Z.bits_inj'. intros n Hn. rewrite Z.land_spec, !Z.shiftl_spec by done.
  destruct (Z.lt_trichotomy n 29) as [L|[->|L]]; [rewrite !(Z.testbit_neg_r _ (n - 29)) by lia; apply andb_false_r|by rewrite Hb|].
  assert (Z.testbit v n = false) as ->; [|cbn [andb]; change 1 with (2 ^ 0); symmetry; apply Z.pow2_bits_false; lia].
  destruct (Z.eq_dec v 0) as [->|Hz]; [apply Z.testbit_0_l|]. apply Z.bits_above_log2; [lia|].
  assert (Z.log2 v < 30) by (apply Z.log2_lt_pow2; lia). lia.
Qed.

Lemma Mask_pow d : 0 <= bit d < 32 -> Mask d = 2 ^ bit d.
Proof.
  intros Hb. unfold Mask. rewrite Z.shiftl_1_l. apply u32_small. split; [apply Z.pow_nonneg; lia|apply Z.pow_lt_mono_r; lia].
Qed.

(** A version number that [ComputeBlockVersion] builds. *)
Definition version_form (v : Z) : Prop := 0 <= v < 2 ^ 30 /\ Z.testbit v 29 = true.

Lemma signals_bit d v : version_form v -> 0 <= bit d < 29 -> signals d v = Z.testbit v (bit d).
Proof.
  intros [Hv Hb] Hd. unfold signals. rewrite u32_small by lia. rewrite top_mask_bits, Mask_pow by (done || lia).
  rewrite Z.eqb_refl. cbn [andb]. rewrite land_pow2 by lia. apply negb_involutive.
Qed.

Lemma set_version_bit d v : version_form v -> 0 <= bit d < 29 ->
  version_form (i32 (Z.lor (u32 v) (Mask d))) /\
  forall b, 0 <= b < 29 -> Z.testbit (i32 (Z.lor (u32 v) (Mask d))) b = Z.testbit v b || (b =? bit d).
Proof.
  intros [Hv Hb] Hd. rewrite u32_small, Mask_pow by lia.
  assert (Hp : 0 < 2 ^ bit d) by (apply Z.pow_pos_nonneg; lia).
  assert (R : 0 <= Z.lor v (2 ^ bit d) < 2 ^ 30).
  { split; [apply Z.lor_nonneg; lia|]. destruct (Z.eq_dec (Z.lor v (2 ^ bit d)) 0) as [E|E]; [lia|].
    assert (0 <= Z.lor v (2 ^ bit d)) by (apply Z.lor_nonneg; lia).
    assert (L : Z.log2 (Z.lor v (2 ^ bit d)) < 30); [|apply Z.log2_lt_pow2; lia].
    rewrite Z.log2_lor, Z.log2_pow2 by lia. assert (Hn : v <> 0) by (intros ->; by rewrite Z.testbit_0_l in Hb).
    assert (Z.log2 v < 30) by (apply Z.log2_lt_pow2; lia). lia. }
  rewrite i32_small by lia. split; [split; [done|by rewrite Z.lor_spec, Hb]|]. intros b Hbb. rewrite Z.lor_spec. f_equal.
  rewrite Z.pow2_bits_eqb by lia. apply Z.eqb_sym.
Qed.

Section BlockVersionLemmas.
Context (H : heap) (testnet : bool) (GetHashPoW2 : ptr -> list Z) (versions : ptr -> Z * Z) (peers : list Z).
Context (vDeployments : list BIP9Deployment) (window threshold : Z) (pindexPrev : option ptr).

Abbreviation checker d := (VersionBitsConditionChecker versions d window threshold).

(** The state of the deployment for the block after [pindexPrev]. *)
Definition deployment_state (d : BIP9Deployment) (s : ThresholdState) : Prop :=
  state_after H testnet (C := checker d) (pindexPrev ≫= @period_end H (checker d)) s.

(** The deployments have distinct bits below the top bits, and the tree suits each of them. *)
Record deployments_ok : Prop := {
  dep_bits : NoDup (bit <$> vDeployments);
  dep_range : forall d, d ∈ vDeployments -> 0 <= bit d < 29;
  dep_checkable : forall d, d ∈ vDeployments -> checkable H testnet GetHashPoW2 (C := checker d)
}.
Definition caches_ok (c : VersionBitsCache) : Prop :=
  forall pos d, vDeployments !! pos = Some d -> exists x, caches_get c (dep_type d) pos = Some x /\ cache_ok H testnet GetHashPoW2 (C := checker d) x.

Hypothesis dok : deployments_ok.
Hypothesis Hprev : match pindexPrev with Some p => is_Some (H !! p) | None => True end.

Lemma caches_get_set c t i x y t' j : caches_get c t i = Some y ->
  caches_get (caches_set c t i x) t' j = if bool_decide (t = t' /\ i = j) then Some x else caches_get c t' j.
Proof.
  intros Hy. destruct (decide (t = t')) as [<-|Ht].
  - destruct (decide (i = j)) as [<-|Hij].
    + rewrite bool_decide_eq_true_2 by done. destruct t; cbn in *; apply list_lookup_insert_eq; by apply lookup_lt_Some in Hy.
    + rewrite bool_decide_eq_false_2 by (intros [_ E]; done). destruct t; cbn in *; by apply list_lookup_insert_ne.
  - rewrite bool_decide_eq_false_2 by (intros [E _]; done). by destruct t, t'.
Qed.

Lemma caches_ok_set c i d x : caches_ok c -> vDeployments !! i = Some d -> cache_ok H testnet GetHashPoW2 (C := checker d) x ->
  caches_ok (caches_set c (dep_type d) i x).
Proof.
  intros Cok Ed Xok pos d' Ed'. destruct (Cok i d Ed) as (y & Ey & _). rewrite (caches_get_set c _ i x y) by done.
  destruct (bool_decide _) eqn:E; [|by apply Cok]. apply bool_decide_eq_true in E as [_ <-]. rewrite Ed in Ed'. injection Ed' as <-. eauto.
Qed.

Lemma VersionBitsState_spec i d c : caches_ok c -> vDeployments !! i = Some d ->
  exists s c', VersionBitsState H testnet GetHashPoW2 versions vDeployments window threshold pindexPrev i c = Some (s, c') /\
    deployment_state d s /\ caches_ok c'.
Proof.
  intros Cok Ed. unfold VersionBitsState. rewrite Ed. destruct (Cok i d Ed) as (x & -> & Xok).
  assert (Hd : d ∈ vDeployments) by by apply list_elem_of_lookup_2 in Ed.
  destruct (GetStateFor_spec H testnet GetHashPoW2 (C := checker d) (dep_checkable dok d Hd) pindexPrev x Xok Hprev) as (s & x' & -> & A & Xok').
  exists s, (caches_set c (dep_type d) i x'). split; [done|]. split; [done|by apply caches_ok_set].
Qed.

(** Among the first [i] deployments, one with bit [b] is to be signalled. *)
Definition signalled (i : nat) (b : Z) : Prop :=
  exists j d s, (j < i)%nat /\ vDeployments !! j = Some d /\ bit d = b /\ deployment_state d s /\ to_signal peers d s = true.

Lemma signalled_succ i d s b : vDeployments !! i = Some d -> deployment_state d s ->
  signalled (S i) b <-> signalled i b \/ bit d = b /\ to_signal peers d s = true.
Proof.
  intros Ed A. assert (Hd : d ∈ vDeployments) by by apply list_elem_of_lookup_2 in Ed. split.
  - intros (j & d' & s' & Hj & Ej & Eb & A' & T). destruct (decide (j = i)) as [->|N].
    + rewrite Ed in Ej. injection Ej as <-. right. split; [done|].
      by rewrite (after_det H testnet GetHashPoW2 (C := checker d) (dep_checkable dok d Hd) _ s s' A A').
    + left. exists j, d', s'. repeat split; try done. lia.
  - intros [(j & d' & s' & Hj & R)|[Eb T]]; [exists j, d', s'; split; [lia|done]|]. exists i, d, s. repeat split; try done. lia.
Qed.

Lemma version_loop_spec n i v c : (i + n = length vDeployments)%nat -> caches_ok c -> version_form v ->
  (forall b, 0 <= b < 29 -> Z.testbit v b = true <-> signalled i b) ->
  exists v' c', version_loop H testnet GetHashPoW2 versions peers vDeployments window threshold pindexPrev n i v c = Some (v', c') /\
    caches_ok c' /\ version_form v' /\ forall b, 0 <= b < 29 -> Z.testbit v' b = true <-> signalled (length vDeployments) b.
Proof.
  revert i v c. induction n as [|n IH]; intros i v c Hi Cok F B.
  - rewrite Nat.add_0_r in Hi. subst i. cbn. exists v, c. auto.
  - cbn. destruct (lookup_lt_is_Some_2 vDeployments i ltac:(lia)) as [d Ed]. rewrite Ed.
    destruct (VersionBitsState_spec i d c Cok Ed) as (s & c' & -> & A & Cok').
    assert (Hd : 0 <= bit d < 29) by (apply (dep_range dok); by apply list_elem_of_lookup_2 in Ed).
    destruct (set_version_bit d v F Hd) as [F' B'].
    apply IH; [lia|done|by destruct (to_signal peers d s)|]. intros b Hb. rewrite (signalled_succ i d s b Ed A), <- (B b Hb).
    destruct (to_signal peers d s); [|intuition discriminate]. rewrite B', orb_true_iff, Z.eqb_eq by done. intuition.
Qed.

Lemma signalled_deployment pos d : vDeployments !! pos = Some d ->
  signalled (length vDeployments) (bit d) <-> exists s, deployment_state d s /\ to_signal peers d s = true.
Proof.
  intros Ed. split; [|intros (s & A & T); exists pos, d, s; repeat split; try done; by apply lookup_lt_Some in Ed].
  intros (j & d' & s & Hj & Ej & Eb & A & T). assert (j = pos) as ->; [|rewrite Ed in Ej; injection Ej as <-; eauto].
  apply (proj1 (NoDup_alt _) (dep_bits dok) j pos (bit d)); rewrite list_lookup_fmap; [by rewrite Ej, <- Eb|by rewrite Ed].
Qed.
End BlockVersionLemmas.

(** ** Properties *)

Section Properties.
Context (H : heap) (testnet : bool) (GetHashPoW2 : ptr -> list Z) `{C : ThresholdChecker}.

(** C33: [GetStateFor] returns the state of the reference state machine, one step per
    period from genesis on, whatever the cache holds as long as its entries are states of
    the reference, and leaves such a cache; it neither fails an assertion, follows a null
    pointer, nor runs out of fuel. *)
Theorem threshold_state_correct pindexPrev cache : checkable H testnet GetHashPoW2 -> cache_ok H testnet GetHashPoW2 cache ->
  match pindexPrev with Some p => is_Some (H !! p) | None => True end ->
  exists s cache', GetStateFor H testnet GetHashPoW2 pindexPrev cache = Some (s, cache') /\
    cache_ok H testnet GetHashPoW2 cache' /\
    forall s', state_after H testnet (pindexPrev ≫= period_end H) s' <-> s' = s.
Proof.
  intros ck Cok Hp. destruct (GetStateFor_spec H testnet GetHashPoW2 ck pindexPrev cache Cok Hp) as (s & c' & E & A & Cok').
  exists s, c'. repeat split; try done; try apply Cok'; [|by intros ->]. intros A'. by eapply (after_det H testnet GetHashPoW2 ck).
Qed.

(** C34: A rule change that is locked in is active in every later period, and an active or
    a failed one stays so, with whatever caches the two states are asked for. *)
Theorem activation_is_final p q e e' j s c1 c1' c2 : checkable H testnet GetHashPoW2 ->
  cache_ok H testnet GetHashPoW2 c1 -> cache_ok H testnet GetHashPoW2 c2 -> is_Some (H !! p) -> is_Some (H !! q) ->
  period_end H p = Some e -> period_end H q = Some e' -> up H (S j * Z.to_nat Period) e' = Some e ->
  GetStateFor H testnet GetHashPoW2 (Some p) c1 = Some (s, c1') ->
  s = THRESHOLD_LOCKED_IN \/ s = THRESHOLD_ACTIVE \/ s = THRESHOLD_FAILED ->
  exists c2', GetStateFor H testnet GetHashPoW2 (Some q) c2 =
    Some (match s with THRESHOLD_FAILED => THRESHOLD_FAILED | _ => THRESHOLD_ACTIVE end, c2').
Proof.
  intros ck C1 C2 Hp Hq Ee Ee' U E1 Hs.
  destruct (GetStateFor_spec H testnet GetHashPoW2 ck (Some p) c1 C1 Hp) as (s1 & x & E1' & A1 & _).
  destruct (GetStateFor_spec H testnet GetHashPoW2 ck (Some q) c2 C2 Hq) as (s2 & c2' & E2 & A2 & _).
  rewrite E1 in E1'. injection E1' as <- <-. cbn in A1, A2. rewrite Ee in A1. rewrite Ee' in A2. exists c2'. rewrite E2. do 2 f_equal.
  pose proof (period_end_start H testnet GetHashPoW2 ck p Hp) as P1. pose proof (period_end_start H testnet GetHashPoW2 ck q Hq) as P2.
  rewrite Ee in P1. rewrite Ee' in P2. apply (after_det H testnet GetHashPoW2 ck _ _ _ A2).
  destruct Hs as [->|Hs]; [by apply (locked_in_then_active H testnet GetHashPoW2 ck j e e')|].
  pose proof (active_stays H testnet GetHashPoW2 ck (S j) e e' P1 U P2 s Hs A1) as G. by destruct Hs as [-> | ->].
Qed.

(** For a state other than [DEFINED], [GetStateSinceHeightFor] returns the height after
    the first of the unbroken run of periods with the current state; for [DEFINED], [0]. *)
Theorem since_height_correct p cache : checkable H testnet GetHashPoW2 -> cache_ok H testnet GetHashPoW2 cache -> is_Some (H !! p) ->
  exists r cache' s, GetStateSinceHeightFor H testnet GetHashPoW2 (Some p) cache = Some (r, cache') /\
    cache_ok H testnet GetHashPoW2 cache' /\ state_after H testnet (period_end H p) s /\
    (s = THRESHOLD_DEFINED /\ r = 0 \/
     s <> THRESHOLD_DEFINED /\ exists e q s', period_end H p = Some e /\ run H testnet s e q /\ r = height_of H q + 1 /\
       state_after H testnet (period_back H q) s' /\ s' <> s).
Proof.
  intros ck Cok Hp. unfold GetStateSinceHeightFor.
  destruct (GetStateFor_spec H testnet GetHashPoW2 ck (Some p) cache Cok Hp) as (s & c1 & -> & A & Cok1). cbn in A.
  destruct (bool_decide (s = THRESHOLD_DEFINED)) eqn:Ed.
  - apply bool_decide_eq_true in Ed as ->. exists 0, c1, THRESHOLD_DEFINED. auto 6.
  - apply bool_decide_eq_false in Ed. pose proof (period_end_start H testnet GetHashPoW2 ck p Hp) as P1.
    destruct (period_end H p) as [e|] eqn:Ee; [|inversion A; subst; done].
    destruct (since_loop_spec H testnet GetHashPoW2 ck (S (Z.to_nat (height_of H e))) s e c1 Cok1 P1 A Ed) as (c2 & q & s' & -> & Cok2 & R & A2 & N).
    { pose proof (height_range H e (ck_wf _ _ _ ck) (proj1 P1)). lia. }
    exists (height_of H q + 1), c2, s. repeat split; try done; try apply Cok2. right. split; [done|]. exists e, q, s'. auto 6.
Qed.

(** [GetStateStatisticsFor] follows a null pointer for every block before the end of the
    first period; from there on it counts exactly the signalling blocks since the last period
    ended. *)
Theorem statistics_need_a_period p : checkable H testnet GetHashPoW2 -> is_Some (H !! p) ->
  (height_of H p + 1 < Period -> GetStateStatisticsFor H (Some p) = None) /\
  (Period <= height_of H p + 1 ->
   let elapsed := (height_of H p + 1) mod Period in
   let count := signal_count H (Z.to_nat elapsed) p in
   GetStateStatisticsFor H (Some p) = Some (mkStats Period Threshold elapsed count (Period - Threshold >=? elapsed - count))).
Proof.
  intros ck Hp. pose proof (ck_wf _ _ _ ck) as W. pose proof (ck_period _ _ _ ck) as HP. pose proof (height_range H p W Hp) as Hr.
  pose proof (Z.mod_pos_bound (height_of H p + 1) Period HP) as Hb. unfold GetStateStatisticsFor. split; intros Hh.
  - unfold period_end. rewrite GetAncestor_eq by done. rewrite Z.mod_small by lia. rewrite (proj2 (Z.leb_gt 0 _)) by lia. done.
  - pose proof (period_end_spec H testnet GetHashPoW2 ck p Hp) as E. destruct (period_end H p) as [e|] eqn:Ee; [|lia].
    destruct E as [[He _] _]. unfold period_end in Ee. rewrite GetAncestor_eq in Ee by done.
    destruct (_ && _) eqn:Eb in Ee; [|done]. destruct (up_height H _ p e W Hp Ee) as [_ Hhe].
    replace (height_of H p - height_of H e) with ((height_of H p + 1) mod Period) by lia.
    cbv zeta. rewrite (statistics_loop_eq H testnet GetHashPoW2 ck) by (done || (pose proof (height_range H e W He); lia)). done.
Qed.
End Properties.

(** The version that [ComputeBlockVersion] gives a new block signals a deployment, as
    [Condition] reads it, exactly when the deployment is locked in, or started and enough
    peers are upgraded, and no other bit is read as a signal of it. *)
Theorem block_version_signals H testnet GetHashPoW2 versions peers vDeployments window threshold pindexPrev c :
  deployments_ok H testnet GetHashPoW2 versions vDeployments window threshold ->
  match pindexPrev with Some p => is_Some (H !! p) | None => True end ->
  caches_ok H testnet GetHashPoW2 versions vDeployments window threshold c ->
  exists v c', ComputeBlockVersion H testnet GetHashPoW2 versions peers vDeployments window threshold pindexPrev c = Some (v, c') /\
    forall pos d, vDeployments !! pos = Some d ->
      signals d v = true <->
      exists s, deployment_state H testnet versions window threshold pindexPrev d s /\ to_signal peers d s = true.
Proof.
  intros dok Hp Cok.
  destruct (version_loop_spec H testnet GetHashPoW2 versions peers vDeployments window threshold pindexPrev dok Hp
    (length vDeployments) 0 VERSIONBITS_TOP_BITS c eq_refl Cok) as (v & c' & E & _ & F & B).
  - split; [unfold VERSIONBITS_TOP_BITS; lia|done].
  - intros b Hb. change VERSIONBITS_TOP_BITS with (2 ^ 29). rewrite Z.pow2_bits_false by lia. split; [done|].
    intros (j & _ & _ & Hj & _). lia.
  - exists v, c'. split; [done|]. intros pos d Ed. assert (Hd : 0 <= bit d < 29) by (apply (dep_range _ _ _ _ _ _ _ dok); by apply list_elem_of_lookup_2 in Ed).
    rewrite (signals_bit d v F Hd), (B (bit d) Hd). by eapply signalled_deployment.
Qed.

(** ** Witnesses *)

Module Sample.
(** A deployment that every block signals, with a window of one block. *)
#[export] Instance checker : ThresholdChecker := {| Condition _ := true; BeginTime := 50; EndTime := 1000; Period := 1; Threshold := 1 |}.
Definition hash (p : ptr) : list Z := repeat (Zpos p) 32.

Lemma times p : is_Some (sample_heap !! p) -> GetMedianTimePast sample_heap true p = 100.
Proof. intros [b Hb]. by destruct (sample_cases p b Hb) as [[-> _]|[[-> _]|[[-> _]|[-> _]]]]. Qed.

Lemma checkable_sample (C : ThresholdChecker) : 0 < Period -> BeginTime <= EndTime -> checkable sample_heap true hash.
Proof.
  intros HP HT. split; [exact sample_wf|exact sample_rooted| | |done| |done].
  - intros p q _ _. unfold hash. cbn. intros E. injection E. done.
  - intros p _. unfold hash. cbn. done.
  - intros p q E. destruct (proj1 (prev_of_Some _ _ _) E) as (b & Hp & _).
    rewrite !times; [done|by eexists|by apply (prev_height sample_heap p q sample_wf)].
Qed.

Lemma ok : checkable sample_heap true hash.
Proof. by apply checkable_sample. Qed.

Lemma empty_ok (C : ThresholdChecker) : cache_ok sample_heap true hash ∅.
Proof. split; intros *; by rewrite ?lookup_empty. Qed.

(** One deployment that locks in and one that fails. *)
Definition good : BIP9Deployment := mkDeployment 28 50 1000 DEPLOYMENT_POW 0 0.
Definition bad : BIP9Deployment := mkDeployment 0 50 60 DEPLOYMENT_WITNESS 0 0.
Definition versions (p : ptr) : Z * Z := (0x30000000, 0).

Lemma deployments : deployments_ok sample_heap true hash versions [good; bad] 1 1.
Proof.
  split; [apply (bool_decide_eq_true_1 _); reflexivity| |].
  - intros d Hd. apply elem_of_cons in Hd as [->|Hd]; [done|]. by apply list_elem_of_singleton in Hd as ->.
  - intros d Hd. apply checkable_sample; [done|].
    apply elem_of_cons in Hd as [->|Hd]; [done|]. by apply list_elem_of_singleton in Hd as ->.
Qed.

Lemma caches : caches_ok sample_heap true hash versions [good; bad] 1 1 (caches_Clear 2).
Proof.
  intros pos d Ed. exists ∅. split; [|apply empty_ok].
  destruct pos as [|[|pos]]; [injection Ed as <-; reflexivity|injection Ed as <-; reflexivity|discriminate Ed].
Qed.
End Sample.
#[local] Existing Instance Sample.checker.

Lemma sample_states :
  option_map fst (GetStateFor sample_heap true Sample.hash (Some 2%positive) ∅) = Some THRESHOLD_LOCKED_IN /\
  option_map fst (GetStateFor sample_heap true Sample.hash (Some 3%positive) ∅) = Some THRESHOLD_ACTIVE /\
  option_map fst (GetStateSinceHeightFor sample_heap true Sample.hash (Some 3%positive) ∅) = Some 3.
Proof. repeat split; vm_compute; reflexivity. Qed.

Lemma threshold_state_correct_witness : state_after sample_heap true (Some 3%positive) THRESHOLD_ACTIVE.
Proof.
  destruct (threshold_state_correct sample_heap true Sample.hash (Some 3%positive) ∅ Sample.ok (Sample.empty_ok _)) as (s & c & E & _ & R); [by eexists|].
  apply (R THRESHOLD_ACTIVE). pose proof (proj1 (proj2 sample_states)) as E'. rewrite E in E'. by injection E'.
Defined.

Lemma activation_is_final_witness : exists c2', GetStateFor sample_heap true Sample.hash (Some 3%positive) ∅ = Some (THRESHOLD_ACTIVE, c2').
Proof.
  pose proof (proj1 sample_states) as E'.
  remember (GetStateFor sample_heap true Sample.hash (Some 2%positive) ∅) as r eqn:E. destruct r as [[s c]|]; [|discriminate E'].
  injection E' as ->.
  refine (activation_is_final sample_heap true Sample.hash 2%positive 3%positive 2%positive 3%positive 0 THRESHOLD_LOCKED_IN ∅ c ∅
    Sample.ok (Sample.empty_ok _) (Sample.empty_ok _) _ _ _ _ _ (eq_sym E) _); [by eexists|by eexists|reflexivity|reflexivity|reflexivity|by left].
Defined.

Lemma since_height_correct_witness : exists c s, GetStateSinceHeightFor sample_heap true Sample.hash (Some 3%positive) ∅ = Some (3, c) /\
  state_after sample_heap true (period_end sample_heap 3%positive) s.
Proof.
  destruct (since_height_correct sample_heap true Sample.hash 3%positive ∅ Sample.ok (Sample.empty_ok _)) as (r & c & s & E & _ & A & _); [by eexists|].
  exists c, s. pose proof (proj2 (proj2 sample_states)) as E'. rewrite E in E'. injection E' as ->. by split.
Defined.

Lemma statistics_need_a_period_witness :
  GetStateStatisticsFor sample_heap (Some 3%positive) = Some (mkStats 1 1 0 0 true).
Proof.
  apply (proj2 (statistics_need_a_period sample_heap true Sample.hash 3%positive Sample.ok ltac:(by eexists))). vm_compute. discriminate.
Defined.

Lemma sample_version :
  option_map fst (ComputeBlockVersion sample_heap true Sample.hash Sample.versions [] [Sample.good; Sample.bad] 1 1 (Some 2%positive) (caches_Clear 2)) =
    Some 0x30000000.
Proof. vm_compute. reflexivity. Qed.

Lemma block_version_signals_witness :
  exists s, deployment_state sample_heap true Sample.versions 1 1 (Some 2%positive) Sample.good s /\ to_signal [] Sample.good s = true.
Proof.
  destruct (block_version_signals sample_heap true Sample.hash Sample.versions [] [Sample.good; Sample.bad] 1 1 (Some 2%positive) (caches_Clear 2)
    Sample.deployments ltac:(by eexists) Sample.caches) as (v & c & E & R).
  pose proof sample_version as E'. rewrite E in E'. injection E' as ->. by apply (R 0%nat Sample.good eq_refl).
Defined.
