(* ===== verification/Coins.v ===== *)
(** * Coins: the coin views of [src/src/coins.{h,cpp}] and [src/src/txdb.cpp]

    A view gives the unspent output of an outpoint. Views are stacked: a
    [CCoinsViewCache] keeps what it read from and what it has to write to the view
    below, and at the bottom is the database. Outputs are found by the hash of their
    transaction or by the position of the transaction in the chain, for which a cache
    has a second map from positions to hashes. What the views promise each other is the
    class [CoinsView]; [CoinsRefine] has its laws. The iteration order of the hash
    tables and the memory a coin uses are arguments. *)

From stdpp Require Import gmap.
From S2P Require Import Prelude ArithUint256 Serialize Compressor Transaction WitnessUtil TxCheck.

(** ** Definitions *)

(** *** Keys *)

#[export] Instance COutPoint_eq_dec : EqDecision COutPoint.
Proof. solve_decision. Defined.
#[export] Instance COutPoint_countable : Countable COutPoint.
Proof.
  apply (inj_countable' (fun o => (op_hash o, isHash o, op_n o)) (fun '(h, b, n) => mkOutPoint h b n)). by intros [].
Defined.

(** Outpoints are compared by the parts their tag selects; this is the outpoint
    with only these parts. *)
Definition outpoint_key (o : COutPoint) : COutPoint :=
  if isHash o then o else COutPoint_ofPosition (prevBlock_blockNumber o) (prevBlock_transactionIndex o) (op_n o).

(** *** Coins *)

Definition MEMPOOL_HEIGHT : Z := 1073741823.
Definition MEMPOOL_INDEX : Z := 4294967295.

(** [Coin()] *)
Definition Coin_default : Coin := mkCoin CTxOut_default false false 0 0.
Definition Coin_IsSpent (c : Coin) : bool := CTxOut_IsNull (coin_out c).
Definition Coin_Spend (c : Coin) : Coin := mkCoin CTxOut_default (fCoinBase c) (fSegSig c) (coin_nHeight c) (nTxIndex c).
(** The constructor from an output; the height has 30 bits. *)
Definition Coin_new (out : CTxOut) (nHeightIn nTxIndexIn : Z) (fCoinBaseIn fSegSigIn : bool) : Coin :=
  mkCoin out fCoinBaseIn fSegSigIn (uwrap 30 (u32 nHeightIn)) (u32 nTxIndexIn).
Definition in_mempool (c : Coin) : bool := (coin_nHeight c =? MEMPOOL_HEIGHT) && (nTxIndex c =? MEMPOOL_INDEX).
(** The position of the output [n] of the coin's transaction. *)
Definition position (c : Coin) (n : Z) : COutPoint := COutPoint_ofPosition (coin_nHeight c) (nTxIndex c) n.

Definition coin_version (segsig : bool) : Z := if segsig then SEGSIG_ACTIVATION_VERSION else SEGSIG_ACTIVATION_VERSION - 1.
(** [None]: a spent coin, or an output that cannot be written. *)
Definition Coin_Serialize (c : Coin) : option (list Z) :=
  if Coin_IsSpent c then None
  else match CTxOut_WriteToStream (coin_version (fSegSig c)) (coin_out c) with
       | Some out => Some (WriteVarInt (u32 (u32 (Z.shiftl (coin_nHeight c) 2) + Z.shiftl (Z.b2z (fSegSig c)) 1 + Z.b2z (fCoinBase c)))
                           ++ WriteVarInt (nTxIndex c) ++ out)
       | None => None
       end.
Definition Coin_Unserialize : reader Coin :=
  code <~ ReadVarInt UINT32_MAX ;;;
  nTxIndex <~ ReadVarInt UINT32_MAX ;;;
  out <~ CTxOut_ReadFromStream (coin_version (Z.land code 2 >? 0)) ;;;
  rd_ret (mkCoin out (Z.land code 1 >? 0) (Z.land code 2 >? 0) (Z.shiftr (Z.land code 4294967292) 2) nTxIndex).

(** [CoinUndo]: a coin with the hash of its transaction. *)
Record CoinUndo := mkUndo { undo_coin : Coin; prevhash : list Z }.
Definition CoinUndo_default : CoinUndo := mkUndo Coin_default (blob_null 32).
Definition CoinUndo_Serialize (u : CoinUndo) : option (list Z) :=
  match Coin_Serialize (undo_coin u) with Some c => Some (c ++ prevhash u) | None => None end.
Definition CoinUndo_Unserialize : reader CoinUndo :=
  c <~ Coin_Unserialize ;;; h <~ rd_bytes 32 ;;; rd_ret (mkUndo c h).

(** *** Cache entries *)

Definition DIRTY : Z := 1.
Definition FRESH : Z := 2.
Record CCoinsCacheEntry := mkEntry { ce_coin : Coin; ce_flags : Z }.
Definition has_flag (flags flag : Z) : bool := negb (Z.land flags flag =? 0).
Definition entry_dirty (e : CCoinsCacheEntry) : bool := has_flag (ce_flags e) DIRTY.
Definition entry_fresh (e : CCoinsCacheEntry) : bool := has_flag (ce_flags e) FRESH.
Definition entry_spent (e : CCoinsCacheEntry) : bool := Coin_IsSpent (ce_coin e).
(** What [operator[]] creates for a key that is not in the map. *)
Definition entry_default : CCoinsCacheEntry := mkEntry Coin_default 0.

Abbreviation CCoinsMap := (gmap COutPoint CCoinsCacheEntry).
Abbreviation CCoinsRefMap := (gmap COutPoint COutPoint).

(** A failed assertion, and a [std::logic_error]. *)
Inductive coins_error := assertion | logic_error.

(** *** Views *)

(** The virtual functions of [CCoinsView]. A function that is [const] in the source
    may still fill a cache, so all give the new state. *)
Class CoinsView (V : Type) := {
  view_GetCoin : V -> COutPoint -> res coins_error (V * option (Coin * COutPoint));
  view_HaveCoin : V -> COutPoint -> res coins_error (V * bool);
  view_GetBestBlock : V -> V * list Z;
  view_BatchWrite : V -> list (COutPoint * CCoinsCacheEntry) -> list Z -> res coins_error (V * bool);
  view_GetAllCoins : V -> gmap COutPoint Coin
}.

(** [CCoinsView] itself: no coins, and nothing can be written. *)
#[export] Instance CCoinsView : CoinsView unit := {|
  view_GetCoin v _ := Ok (v, None);
  view_HaveCoin v _ := Ok (v, false);
  view_GetBestBlock v := (v, blob_null 32);
  view_BatchWrite v _ _ := Ok (v, false);
  view_GetAllCoins _ := ∅
|}.

(** *** The database *)

(** The records by key: coins by hash and index, hashes by position and index. *)
Record CCoinsViewDB := mkDB {
  db_coins : gmap (list Z * Z) Coin;
  db_refs : gmap (Z * Z * Z) (list Z);
  db_best : option (list Z)
}.
(** [None]: the assertion of the constructor or of the key's serialisation. *)
Definition CoinEntry (o : COutPoint) : option (list Z * Z) := if isHash o then Some (op_hash o, op_n o) else None.
Definition CoinEntryRef (o : COutPoint) : option (Z * Z * Z) :=
  if isHash o then None else Some (prevBlock_blockNumber o, prevBlock_transactionIndex o, op_n o).

Definition DB_GetCoin (d : CCoinsViewDB) (o : COutPoint) : res coins_error (CCoinsViewDB * option (Coin * COutPoint)) :=
  match CoinEntryRef o with
  | Some k =>
      match db_refs d !! k with
      | Some hash =>
          let o' := COutPoint_ofHash hash (op_n o) in
          match CoinEntry o' with
          | Some e => Ok (d, match db_coins d !! e with Some c => Some (c, o') | None => None end)
          | None => Err assertion
          end
      | None => Ok (d, None)
      end
  | None =>
      match CoinEntry o with
      | Some e => Ok (d, match db_coins d !! e with Some c => Some (c, o) | None => None end)
      | None => Err assertion
      end
  end.
Definition DB_HaveCoin (d : CCoinsViewDB) (o : COutPoint) : res coins_error (CCoinsViewDB * bool) :=
  if isHash o
  then match CoinEntryRef o with Some k => Ok (d, bool_decide (is_Some (db_refs d !! k))) | None => Err assertion end
  else match CoinEntry o with Some e => Ok (d, bool_decide (is_Some (db_coins d !! e))) | None => Err assertion end.
Definition DB_GetBestBlock (d : CCoinsViewDB) : CCoinsViewDB * list Z :=
  (d, match db_best d with Some h => h | None => blob_null 32 end).

(** The first loop of [BatchWrite]: a batch is applied in the order it was written. *)
Fixpoint db_batch (l : list (COutPoint * CCoinsCacheEntry)) (d : CCoinsViewDB) (writeRefHashes : list ((Z * Z * Z) * list Z))
    : res coins_error (CCoinsViewDB * list ((Z * Z * Z) * list Z)) :=
  match l with
  | [] => Ok (d, writeRefHashes)
  | (o, e) :: l' =>
      if entry_dirty e then
        match CoinEntry o with
        | None => Err assertion
        | Some entry =>
            let ref := (coin_nHeight (ce_coin e), nTxIndex (ce_coin e), op_n o) in
            if entry_spent e
            then db_batch l' (mkDB (delete entry (db_coins d)) (delete ref (db_refs d)) (db_best d)) writeRefHashes
            else db_batch l' (mkDB (<[entry := ce_coin e]> (db_coins d)) (db_refs d) (db_best d)) (writeRefHashes ++ [(ref, op_hash o)])
        end
      else db_batch l' d writeRefHashes
  end.
(** The answer is always true: the database throws when it cannot write, which is not modelled. *)
Definition DB_BatchWrite (d : CCoinsViewDB) (l : list (COutPoint * CCoinsCacheEntry)) (hashBlock : list Z)
    : res coins_error (CCoinsViewDB * bool) :=
  let! (d, refs) := db_batch l d [] in
  let d := mkDB (db_coins d) (fold_left (fun m '(k, h) => <[k := h]> m) refs (db_refs d)) (db_best d) in
  Ok (if blob_IsNull hashBlock then d else mkDB (db_coins d) (db_refs d) (Some hashBlock), true).
(** [emplace] keeps the first of equal keys; the keys of the records are distinct. *)
Definition DB_GetAllCoins (d : CCoinsViewDB) : gmap COutPoint Coin :=
  list_to_map ((fun '((h, n), c) => (mkOutPoint h true n, c)) <$> map_to_list (db_coins d)).

#[export] Instance CoinsViewDB : CoinsView CCoinsViewDB := {|
  view_GetCoin := DB_GetCoin;
  view_HaveCoin := DB_HaveCoin;
  view_GetBestBlock := DB_GetBestBlock;
  view_BatchWrite := DB_BatchWrite;
  view_GetAllCoins := DB_GetAllCoins
|}.

(** *** The cache *)

Record CCoinsViewCache (V : Type) := mkCache {
  base : V;
  hashBlock : list Z;
  cacheCoins : CCoinsMap;
  cacheCoinRefs : CCoinsRefMap;
  cachedCoinsUsage : Z
}.
Arguments mkCache {V} _ _ _ _ _.
Arguments base {V} _.
Arguments hashBlock {V} _.
Arguments cacheCoins {V} _.
Arguments cacheCoinRefs {V} _.
Arguments cachedCoinsUsage {V} _.

(** [Coin::DynamicMemoryUsage]: what the allocator uses for a coin. *)
Class MemoryUsage := DynamicMemoryUsage : Coin -> Z.

Section Cache.
Context {V : Type} `{CoinsView V} `{MemoryUsage}.
(** The order in which a hash table is iterated. *)
Variable bucket_order : CCoinsMap -> list (COutPoint * CCoinsCacheEntry).

Abbreviation Cache := (CCoinsViewCache V).

Definition CCoinsViewCache_new (baseIn : V) : Cache := mkCache baseIn (blob_null 32) ∅ ∅ 0.
Definition with_maps (c : Cache) (coins : CCoinsMap) (refs : CCoinsRefMap) (u : Z) : Cache :=
  mkCache (base c) (hashBlock c) coins refs u.
Definition with_base (c : Cache) (b : V) : Cache := mkCache b (hashBlock c) (cacheCoins c) (cacheCoinRefs c) (cachedCoinsUsage c).

(** The part of [FetchCoin] that asks the view below. The iterators of the source are
    the keys they point to; [None] is [end()]. *)
Definition fetch_base (c : Cache) (outpoint : COutPoint) : res coins_error (Cache * option COutPoint * option COutPoint) :=
  let! (b, r) := view_GetCoin (base c) outpoint in
  match r with
  | None => Ok (with_base c b, None, None)
  | Some (tmp, insertOutpoint) =>
      guard! isHash insertOutpoint or assertion in
      let ref := position tmp (op_n insertOutpoint) in
      let refs := if in_mempool tmp then cacheCoinRefs c else <[ref := insertOutpoint]> (cacheCoinRefs c) in
      let e := match cacheCoins c !! insertOutpoint with Some e => e | None => mkEntry tmp 0 end in
      let e := if entry_spent e then mkEntry (ce_coin e) FRESH else e in
      Ok (mkCache b (hashBlock c) (<[insertOutpoint := e]> (cacheCoins c)) refs (u64 (cachedCoinsUsage c + DynamicMemoryUsage (ce_coin e))),
          Some insertOutpoint, if in_mempool tmp then None else Some ref)
  end.

(** [FetchCoin]: the entry and, when [want] asks for it, the entry of the positions. *)
Definition FetchCoin (c : Cache) (outpoint : COutPoint) (want : bool) : res coins_error (Cache * option COutPoint * option COutPoint) :=
  if isHash outpoint then
    match cacheCoins c !! outpoint with
    | Some e =>
        if want && negb (in_mempool (ce_coin e)) then
          let ref := position (ce_coin e) (op_n outpoint) in
          guard! bool_decide (is_Some (cacheCoinRefs c !! ref)) or assertion in Ok (c, Some outpoint, Some ref)
        else Ok (c, Some outpoint, None)
    | None => fetch_base c outpoint
    end
  else
    guard! negb ((prevBlock_blockNumber outpoint =? MEMPOOL_HEIGHT) && (prevBlock_transactionIndex outpoint =? MEMPOOL_INDEX)) or assertion in
    match cacheCoinRefs c !! outpoint_key outpoint with
    | Some k =>
        guard! bool_decide (is_Some (cacheCoins c !! k)) or assertion in Ok (c, Some k, Some (outpoint_key outpoint))
    | None => fetch_base c outpoint
    end.

Definition Cache_GetCoin (c : Cache) (outpoint : COutPoint) : res coins_error (Cache * option (Coin * COutPoint)) :=
  let! (c, it, _) := FetchCoin c outpoint false in
  Ok (c, k ← it; e ← cacheCoins c !! k; Some (ce_coin e, k)).

(** The positions without that of the entry which [AddCoin] replaces, if it is the entry's own. *)
Definition unindexed (c : Cache) (outpoint : COutPoint) : CCoinsRefMap :=
  match cacheCoins c !! outpoint with
  | Some e =>
      let ref := position (ce_coin e) (op_n outpoint) in
      match cacheCoinRefs c !! ref with
      | Some k => if bool_decide (op_hash k = op_hash outpoint) then delete ref (cacheCoinRefs c) else cacheCoinRefs c
      | None => cacheCoinRefs c
      end
  | None => cacheCoinRefs c
  end.

(** [AddCoin] in this cache alone. *)
Definition Cache_AddCoin (c : Cache) (outpoint : COutPoint) (coin : Coin) (possible_overwrite : bool) : res coins_error Cache :=
  guard! negb (Coin_IsSpent coin) or assertion in
  if CTxOut_IsUnspendable (coin_out coin) then Ok c
  else
    guard! isHash outpoint or assertion in
    let refs := if in_mempool coin then unindexed c outpoint else <[position coin (op_n outpoint) := outpoint]> (unindexed c outpoint) in
    let e := match cacheCoins c !! outpoint with Some e => e | None => entry_default end in
    let u := match cacheCoins c !! outpoint with Some e => u64 (cachedCoinsUsage c - DynamicMemoryUsage (ce_coin e)) | None => cachedCoinsUsage c end in
    guard! possible_overwrite || entry_spent e or logic_error in
    let fresh := negb possible_overwrite && negb (entry_dirty e) in
    let flags := Z.lor (ce_flags e) (Z.lor DIRTY (if fresh then FRESH else 0)) in
    Ok (with_maps c (<[outpoint := mkEntry coin flags]> (cacheCoins c)) refs (u64 (u + DynamicMemoryUsage coin))).

(** [SpendCoin] in this cache alone; the undo data is what [moveout] receives. *)
Definition Cache_SpendCoin (c : Cache) (outpoint : COutPoint) (nodeletefresh : bool) : res coins_error (Cache * option CoinUndo) :=
  let! (c, it, ref) := FetchCoin c outpoint true in
  match it with
  | None => Ok (c, None)
  | Some k =>
      match cacheCoins c !! k with
      | None => Err assertion
      | Some e =>
          guard! in_mempool (ce_coin e) || bool_decide (is_Some ref) or assertion in
          let u := u64 (cachedCoinsUsage c - DynamicMemoryUsage (ce_coin e)) in
          let undo := Some (mkUndo (ce_coin e) (op_hash k)) in
          if negb nodeletefresh && entry_fresh e then
            let refs := match ref with
                        | Some r => if negb (isHash outpoint) || bool_decide (cacheCoinRefs c !! r = Some outpoint)
                                    then delete r (cacheCoinRefs c) else cacheCoinRefs c
                        | None => cacheCoinRefs c
                        end in
            Ok (with_maps c (delete k (cacheCoins c)) refs u, undo)
          else
            Ok (with_maps c (<[k := mkEntry (Coin_Spend (ce_coin e)) (Z.lor (ce_flags e) DIRTY)]> (cacheCoins c)) (cacheCoinRefs c) u, undo)
      end
  end.

Definition AccessCoin (c : Cache) (outpoint : COutPoint) : res coins_error (Cache * Coin) :=
  let! (c, it, _) := FetchCoin c outpoint false in
  Ok (c, match it ≫= fun k => cacheCoins c !! k with Some e => ce_coin e | None => Coin_default end).
Definition Cache_HaveCoin (c : Cache) (outpoint : COutPoint) : res coins_error (Cache * bool) :=
  let! (c, it, _) := FetchCoin c outpoint false in
  Ok (c, match it ≫= fun k => cacheCoins c !! k with Some e => negb (entry_spent e) | None => false end).
Definition HaveCoinInCache (c : Cache) (outpoint : COutPoint) : bool := bool_decide (is_Some (cacheCoins c !! outpoint_key outpoint)).
Definition Cache_GetBestBlock (c : Cache) : Cache * list Z :=
  if blob_IsNull (hashBlock c)
  then let '(b, h) := view_GetBestBlock (base c) in (mkCache b h (cacheCoins c) (cacheCoinRefs c) (cachedCoinsUsage c), h)
  else (c, hashBlock c).
Definition SetBestBlock (c : Cache) (hashBlockIn : list Z) : Cache :=
  mkCache (base c) hashBlockIn (cacheCoins c) (cacheCoinRefs c) (cachedCoinsUsage c).

(** *** Writing a child's entries *)

(** The maps, the memory used and [modificationMap]. *)
Record batch_state := mkBatch { bs_coins : CCoinsMap; bs_refs : CCoinsRefMap; bs_usage : Z; bs_mods : list COutPoint }.

Definition batch_entry (s : batch_state) (k : COutPoint) (e : CCoinsCacheEntry) : res coins_error batch_state :=
  if entry_dirty e then
    match bs_coins s !! k with
    | None =>
        if entry_fresh e && entry_spent e then Ok s
        else
          Ok (mkBatch (<[k := mkEntry (ce_coin e) (Z.lor DIRTY (if entry_fresh e then FRESH else 0))]> (bs_coins s)) (bs_refs s)
                (u64 (bs_usage s + DynamicMemoryUsage (ce_coin e))) (if in_mempool (ce_coin e) then bs_mods s else bs_mods s ++ [k]))
    | Some us =>
        if entry_fresh e && negb (entry_spent us) then Err logic_error
        else if entry_fresh us && entry_spent e then
          let refs := if negb (in_mempool (ce_coin us)) && (coin_nHeight (ce_coin us) =? coin_nHeight (ce_coin e))
                         && (nTxIndex (ce_coin us) =? nTxIndex (ce_coin e))
                      then delete (position (ce_coin us) (op_n k)) (bs_refs s) else bs_refs s in
          Ok (mkBatch (delete k (bs_coins s)) refs (u64 (bs_usage s - DynamicMemoryUsage (ce_coin us))) (bs_mods s))
        else
          let indexed := position (ce_coin us) (op_n k) in
          let r := match bs_refs s !! indexed with Some r => r | None => COutPoint_default end in
          let refs := <[indexed := r]> (bs_refs s) in
          let refs := if bool_decide (op_hash r = op_hash k) then delete indexed refs else refs in
          Ok (mkBatch (<[k := mkEntry (ce_coin e) (Z.lor (ce_flags us) DIRTY)]> (bs_coins s)) refs
                (u64 (u64 (bs_usage s - DynamicMemoryUsage (ce_coin us)) + DynamicMemoryUsage (ce_coin e))) (bs_mods s ++ [k]))
    end
  else Ok s.
Fixpoint batch_entries (s : batch_state) (l : list (COutPoint * CCoinsCacheEntry)) : res coins_error batch_state :=
  match l with
  | [] => Ok s
  | (k, e) :: l' => let! s := batch_entry s k e in batch_entries s l'
  end.

(** The positions of spent coins, which give way to an unspent coin; then those of unspent coins. *)
Definition index_spent (s : batch_state) (k : COutPoint) : batch_state :=
  match bs_coins s !! k with
  | Some e =>
      if entry_spent e then
        let ref := position (ce_coin e) (op_n k) in
        let refs := <[ref := k]> (bs_refs s) in
        match bs_refs s !! ref with
        | Some r =>
            match bs_coins s !! r with
            | Some other => if entry_spent other then mkBatch (bs_coins s) refs (bs_usage s) (bs_mods s) else s
            | None => mkBatch (<[r := entry_default]> (bs_coins s)) refs (bs_usage s) (bs_mods s)
            end
        | None => mkBatch (bs_coins s) refs (bs_usage s) (bs_mods s)
        end
      else s
  | None => s
  end.
Definition index_unspent (s : batch_state) (k : COutPoint) : batch_state :=
  match bs_coins s !! k with
  | Some e => if entry_spent e then s
              else mkBatch (bs_coins s) (<[position (ce_coin e) (op_n k) := k]> (bs_refs s)) (bs_usage s) (bs_mods s)
  | None => s
  end.

Definition Cache_BatchWrite (c : Cache) (mapCoins : list (COutPoint * CCoinsCacheEntry)) (hashBlockIn : list Z)
    : res coins_error (Cache * bool) :=
  let! s := batch_entries (mkBatch (cacheCoins c) (cacheCoinRefs c) (cachedCoinsUsage c) []) mapCoins in
  let s := fold_left index_spent (bs_mods s) s in
  let s := fold_left index_unspent (bs_mods s) s in
  Ok (mkCache (base c) hashBlockIn (bs_coins s) (bs_refs s) (bs_usage s), true).

Definition Cache_Flush (c : Cache) : res coins_error (Cache * bool) :=
  let! (b, fOk) := view_BatchWrite (base c) (bucket_order (cacheCoins c)) (hashBlock c) in
  Ok (mkCache b (hashBlock c) ∅ ∅ 0, fOk).

Definition Cache_Uncache (c : Cache) (outpoint : COutPoint) : Cache :=
  match if isHash outpoint then Some outpoint else cacheCoinRefs c !! outpoint_key outpoint with
  | None => c
  | Some k =>
      match cacheCoins c !! k with
      | Some e =>
          if ce_flags e =? 0 then
            let ref := position (ce_coin e) (op_n k) in
            let refs := if negb (in_mempool (ce_coin e)) && bool_decide (cacheCoinRefs c !! ref = Some k)
                        then delete ref (cacheCoinRefs c) else cacheCoinRefs c in
            with_maps c (delete k (cacheCoins c)) refs (u64 (cachedCoinsUsage c - DynamicMemoryUsage (ce_coin e)))
          else c
      | None => c
      end
  end.

Definition GetCacheSize (c : Cache) : Z := u32 (Z.of_nat (size (cacheCoins c))).

Definition overlay (entry : option CCoinsCacheEntry) (below : option Coin) : option Coin :=
  match entry with Some e => if entry_spent e then None else Some (ce_coin e) | None => below end.
Definition Cache_GetAllCoins (c : Cache) : gmap COutPoint Coin := merge overlay (cacheCoins c) (view_GetAllCoins (base c)).

(** [AccessByTxid]: the first unspent output of a transaction. *)
Definition MAX_OUTPUTS_PER_BLOCK : Z := 1000000 / 22.
Fixpoint AccessByTxid_loop (fuel : nat) (c : Cache) (txid : list Z) (n : Z) : res coins_error (Cache * Coin) :=
  match fuel with
  | O => Ok (c, Coin_default)
  | S f =>
      if n <? MAX_OUTPUTS_PER_BLOCK then
        let! (c, alternate) := AccessCoin c (COutPoint_ofHash txid n) in
        if negb (Coin_IsSpent alternate) then Ok (c, alternate) else AccessByTxid_loop f c txid (n + 1)
      else Ok (c, Coin_default)
  end.
Definition AccessByTxid (c : Cache) (txid : list Z) : res coins_error (Cache * Coin) :=
  AccessByTxid_loop (Z.to_nat MAX_OUTPUTS_PER_BLOCK) c txid 0.

(** [GetValueIn]; a signed sum that leaves its range is undefined. *)
Fixpoint value_in_loop (c : Cache) (ins : list CTxIn) (nResult : Z) : res coins_error (Cache * Z) :=
  match ins with
  | [] => Ok (c, nResult)
  | i :: ins' =>
      let! (c, coin) := AccessCoin c (prevout i) in
      let amount := nValue (coin_out coin) in
      value_in_loop c ins' (if amount =? -1 then nResult else nResult + amount)
  end.
Definition GetValueIn (c : Cache) (tx : CTransaction) : res coins_error (Cache * Z) :=
  if IsCoinBase tx && negb (IsPoW2WitnessCoinBase tx) then Ok (c, 0) else value_in_loop c (vin tx) 0.

Fixpoint have_inputs_loop (c : Cache) (witnessCoinBase : bool) (ins : list CTxIn) : res coins_error (Cache * bool) :=
  match ins with
  | [] => Ok (c, true)
  | i :: ins' =>
      let! (c, have) := Cache_HaveCoin c (prevout i) in
      if negb have && (negb witnessCoinBase || negb (COutPoint_IsNull (prevout i))) then Ok (c, false)
      else have_inputs_loop c witnessCoinBase ins'
  end.
Definition Cache_HaveInputs (c : Cache) (tx : CTransaction) : res coins_error (Cache * bool) :=
  if negb (IsCoinBase tx) || IsPoW2WitnessCoinBase tx then have_inputs_loop c (IsPoW2WitnessCoinBase tx) (vin tx) else Ok (c, true).
End Cache.

(** A cache is itself a view. *)
#[export] Instance CoinsViewCache {V} `{CoinsView V} `{MemoryUsage} : CoinsView (CCoinsViewCache V) := {|
  view_GetCoin := Cache_GetCoin;
  view_HaveCoin := Cache_HaveCoin;
  view_GetBestBlock := Cache_GetBestBlock;
  view_BatchWrite := Cache_BatchWrite;
  view_GetAllCoins := Cache_GetAllCoins
|}.

(** *** The sibling view of the witness outputs *)

(** A cache with its [pChainedWitView]. *)
Record ChainedView (V W : Type) := mkChained { view : CCoinsViewCache V; pChainedWitView : option (CCoinsViewCache W) }.
Arguments mkChained {V W} _ _.
Arguments view {V W} _.
Arguments pChainedWitView {V W} _.

Section Chained.
Context {V W : Type} `{CoinsView V} `{CoinsView W} `{MemoryUsage}.
Variable bucket_order : CCoinsMap -> list (COutPoint * CCoinsCacheEntry).

(** The constructor over another cache: the new sibling is over the sibling below. *)
Definition ChainedView_new (baseIn : ChainedView V W) : ChainedView (CCoinsViewCache V) (CCoinsViewCache W) :=
  mkChained (CCoinsViewCache_new (view baseIn)) (option_map CCoinsViewCache_new (pChainedWitView baseIn)).
Definition SetSiblingView (v : ChainedView V W) (w : option (CCoinsViewCache W)) : ChainedView V W := mkChained (view v) w.

Definition on_sibling (v : ChainedView V W) (f : CCoinsViewCache W -> res coins_error (CCoinsViewCache W)) : res coins_error (ChainedView V W) :=
  match pChainedWitView v with
  | Some w => let! w := f w in Ok (mkChained (view v) (Some w))
  | None => Ok v
  end.

Definition AddCoin (v : ChainedView V W) (outpoint : COutPoint) (coin : Coin) (possible_overwrite : bool) : res coins_error (ChainedView V W) :=
  let! v := if IsPow2WitnessOutput (coin_out coin)
            then on_sibling v (fun w => Cache_AddCoin w outpoint coin possible_overwrite)
            else Ok v in
  let! c := Cache_AddCoin (view v) outpoint coin possible_overwrite in
  Ok (mkChained c (pChainedWitView v)).

(** The sibling keeps the spent coins that it would otherwise erase. *)
Definition SpendCoin (v : ChainedView V W) (outpoint : COutPoint) (nodeletefresh : bool) : res coins_error (ChainedView V W * option CoinUndo) :=
  let! v := on_sibling v (fun w => let! (w, _) := Cache_SpendCoin w outpoint true in Ok w) in
  let! (c, undo) := Cache_SpendCoin (view v) outpoint nodeletefresh in
  Ok (mkChained c (pChainedWitView v), undo).

(** The sibling's own result is ignored. *)
Definition Flush (v : ChainedView V W) : res coins_error (ChainedView V W * bool) :=
  let! v := on_sibling v (fun w => let! (w, _) := Cache_Flush bucket_order w in Ok w) in
  let! (c, fOk) := Cache_Flush bucket_order (view v) in
  Ok (mkChained c (pChainedWitView v), fOk).

Definition Uncache (v : ChainedView V W) (outpoint : COutPoint) : ChainedView V W :=
  mkChained (Cache_Uncache (view v) outpoint) (option_map (fun w => Cache_Uncache w outpoint) (pChainedWitView v)).

(** [AddCoins] for a transaction with the hash [txid]. *)
Fixpoint add_outputs (v : ChainedView V W) (txid : list Z) (outs : list CTxOut) (i nHeight nTxIndex : Z) (fCoinbase segsig : bool)
    : res coins_error (ChainedView V W) :=
  match outs with
  | [] => Ok v
  | o :: outs' =>
      let! v := AddCoin v (COutPoint_ofHash txid i) (Coin_new o nHeight nTxIndex fCoinbase segsig) fCoinbase in
      add_outputs v txid outs' (i + 1) nHeight nTxIndex fCoinbase segsig
  end.
Definition AddCoins (v : ChainedView V W) (txid : list Z) (tx : CTransaction) (nHeight nTxIndex : Z) : res coins_error (ChainedView V W) :=
  add_outputs v txid (vout tx) 0 nHeight nTxIndex (IsCoinBase tx) (negb (IsOldTransactionVersion (nVersion tx))).
End Chained.

(** *** The mempool in front of a view *)

Record CCoinsViewMemPool (V : Type) := mkMemPoolView { mp_base : V; mp_txs : gmap (list Z) CTransaction }.
Arguments mkMemPoolView {V} _ _.
Arguments mp_base {V} _.
Arguments mp_txs {V} _.

Section MemPool.
Context {V : Type} `{CoinsView V}.
Definition MemPool_GetCoin (m : CCoinsViewMemPool V) (outpoint : COutPoint) : res coins_error (CCoinsViewMemPool V * option (Coin * COutPoint)) :=
  match (if isHash outpoint then mp_txs m !! op_hash outpoint else None) with
  | Some tx =>
      Ok (m, match vout tx !! Z.to_nat (op_n outpoint) with
             | Some o => Some (Coin_new o MEMPOOL_HEIGHT MEMPOOL_INDEX false (negb (IsOldTransactionVersion (nVersion tx))), outpoint)
             | None => None
             end)
  | None =>
      let! (b, r) := view_GetCoin (mp_base m) outpoint in
      Ok (mkMemPoolView b (mp_txs m),
          match r with Some (c, k) => if Coin_IsSpent c then None else Some (c, k) | None => None end)
  end.
End MemPool.
