(* ===== verification/CoinsRefine.v ===== *)
(** * CoinsRefine: a stack of coin views behaves as one map of unspent outputs

    The laws of a view, against which a cache is proved to implement the map of
    unspent outputs, and the proofs that the database and a cache over any lawful view
    satisfy them, so that every stack does. The state a view stands for is what
    [GetAllCoins] collects. *)

From stdpp Require Import gmap.
From S2P Require Import Prelude ArithUint256 Serialize Compressor Transaction WitnessUtil TxCheck Coins.

(** ** The laws of a view *)

Definition key_ok (k : COutPoint) : Prop := isHash k = true /\ 0 <= op_n k < 2 ^ 31.
Definition coin_ok (c : Coin) : Prop := 0 <= coin_nHeight c < 2 ^ 30 /\ 0 <= nTxIndex c < 2 ^ 32 /\ in_mempool c = false.
Definition lookup_ok (o : COutPoint) : Prop :=
  0 <= op_n o < 2 ^ 31 /\
  (isHash o = false -> outpoint_ok o /\
     (prevBlock_blockNumber o =? MEMPOOL_HEIGHT) && (prevBlock_transactionIndex o =? MEMPOOL_INDEX) = false).

(** Where each transaction's outputs are in the chain: the positions do not change while the
    views are used, and no two outputs share one. *)
Class Placement := {
  place : COutPoint -> COutPoint;
  place_inj : forall k1 k2, key_ok k1 -> key_ok k2 -> place k1 = place k2 -> k1 = k2
}.

Section Laws.
Context `{Placement}.

Definition placed (k : COutPoint) (c : Coin) : Prop := key_ok k /\ coin_ok c /\ place k = position c (op_n k).

(** The output that an outpoint stands for. *)
Definition target (o k : COutPoint) : Prop := key_ok k /\ (if isHash o then k = o else place k = outpoint_key o).

(** What [GetCoin] may answer when the unspent outputs are [m]. *)
Definition answer (m : gmap COutPoint Coin) (o : COutPoint) (r : option (Coin * COutPoint)) : Prop :=
  match r with
  | Some (c, k) => target o k /\ placed k c /\ m !! k = (if Coin_IsSpent c then None else Some c)
  | None => forall k, target o k -> m !! k = None
  end.

(** The entries of a child over a view with the unspent outputs [m]. *)
Definition entry_ok (m : gmap COutPoint Coin) (k : COutPoint) (e : CCoinsCacheEntry) : Prop :=
  placed k (ce_coin e) /\ (entry_dirty e = false -> overlay (Some e) None = m !! k) /\ (entry_fresh e = true -> m !! k = None).

(** An entry that is not dirty does not count. *)
Definition written (e : option CCoinsCacheEntry) (below : option Coin) : option Coin :=
  match e with Some e' => if entry_dirty e' then overlay e below else below | None => below end.

Class CoinsViewLaws (V : Type) `{CoinsView V} := {
  view_ok : V -> Prop;
  all_placed v k c : view_ok v -> view_GetAllCoins v !! k = Some c -> placed k c /\ Coin_IsSpent c = false;
  get_coin v o : view_ok v -> lookup_ok o ->
    exists v' r, view_GetCoin v o = Ok (v', r) /\ view_ok v' /\ view_GetAllCoins v' = view_GetAllCoins v /\
                 answer (view_GetAllCoins v) o r;
  batch_write v l h : view_ok v -> NoDup l.*1 -> (forall k e, (k, e) ∈ l -> entry_ok (view_GetAllCoins v) k e) ->
    exists v', view_BatchWrite v l h = Ok (v', true) /\ view_ok v' /\
               forall k, view_GetAllCoins v' !! k = written ((list_to_map l : CCoinsMap) !! k) (view_GetAllCoins v !! k)
}.

(** ** Positions *)

Lemma ofPosition_inj b t n b' t' n' : 0 <= b < 2 ^ 64 -> 0 <= t < 2 ^ 64 -> 0 <= b' < 2 ^ 64 -> 0 <= t' < 2 ^ 64 ->
  0 <= n < 2 ^ 31 -> 0 <= n' < 2 ^ 31 -> COutPoint_ofPosition b t n = COutPoint_ofPosition b' t' n' -> b = b' /\ t = t' /\ n = n'.
Proof.
  intros Hb Ht Hb' Ht' Hn Hn' E.
  pose proof (f_equal prevBlock_blockNumber E) as E1. pose proof (f_equal prevBlock_transactionIndex E) as E2.
  rewrite !ofPosition_blockNumber in E1 by done. rewrite !ofPosition_transactionIndex in E2 by done. split_and!; [done..|].
  apply (f_equal op_n) in E. cbn in E. rewrite (uwrap_small 31 n), (uwrap_small 31 n') in E by lia. done.
Qed.

Lemma position_inj c n c' n' : coin_ok c -> coin_ok c' -> 0 <= n < 2 ^ 31 -> 0 <= n' < 2 ^ 31 ->
  position c n = position c' n' -> coin_nHeight c = coin_nHeight c' /\ nTxIndex c = nTxIndex c' /\ n = n'.
Proof. intros (? & ? & _) (? & ? & _) ? ?. apply ofPosition_inj; lia. Qed.

Lemma slice_u64_range o i : outpoint_ok o -> (i <= 24)%nat -> 0 <= le_val (slice (op_hash o) i 8) < 2 ^ 64.
Proof.
  intros (Hl & Hb & _) Hi. pose proof (slice_u64 (op_hash o) i Hb ltac:(rewrite Hl; lia)). unfold UINT64_MAX in *. lia.
Qed.

(** A position that is looked up, in its parts. *)
Lemma position_key c n o : coin_ok c -> 0 <= n < 2 ^ 31 -> outpoint_ok o -> isHash o = false ->
  position c n = outpoint_key o <-> prevBlock_blockNumber o = coin_nHeight c /\ prevBlock_transactionIndex o = nTxIndex c /\ op_n o = n.
Proof.
  intros (Hh & Ht & _) Hn Ho Hf. unfold outpoint_key. rewrite Hf. split.
  - intros E. pose proof (slice_u64_range o 0 Ho ltac:(lia)). pose proof (slice_u64_range o 8 Ho ltac:(lia)).
    apply ofPosition_inj in E as (-> & -> & ->); try done; try lia. apply Ho.
  - by intros (-> & -> & ->).
Qed.

Lemma in_mempool_place k c : placed k c -> in_mempool c = false.
Proof. by intros (_ & (_ & _ & ?) & _). Qed.

(** *** Flags *)

Lemma flag_dirty f : has_flag (Z.lor f DIRTY) DIRTY = true.
Proof.
  apply negb_true_iff, Z.eqb_neq. rewrite Z.land_lor_distr_l. intros E. apply Z.lor_eq_0_iff in E as [_ E]. discriminate E.
Qed.
Lemma flag_fresh f : has_flag (Z.lor f DIRTY) FRESH = has_flag f FRESH.
Proof. unfold has_flag. rewrite Z.land_lor_distr_l. change (Z.land DIRTY FRESH) with 0. by rewrite Z.lor_0_r. Qed.
Lemma flag_added f (b : bool) : has_flag (Z.lor f (Z.lor DIRTY (if b then FRESH else 0))) DIRTY = true /\
  has_flag (Z.lor f (Z.lor DIRTY (if b then FRESH else 0))) FRESH = has_flag f FRESH || b.
Proof.
  destruct b.
  - rewrite (Z.lor_comm DIRTY), Z.lor_assoc, flag_dirty, flag_fresh, orb_true_r. split; [done|].
    apply negb_true_iff, Z.eqb_neq. rewrite Z.land_lor_distr_l. intros E. apply Z.lor_eq_0_iff in E as [_ E]. discriminate E.
  - by rewrite Z.lor_0_r, flag_dirty, flag_fresh, orb_false_r.
Qed.

(** *** The database *)

Definition db_key (h : list Z) (n : Z) : COutPoint := mkOutPoint h true n.
Definition db_pos (c : Coin) (n : Z) : Z * Z * Z := (coin_nHeight c, nTxIndex c, n).

(** The records agree: the references are exactly those of the coins. *)
Record db_ok (d : CCoinsViewDB) : Prop := {
  db_placed h n c : db_coins d !! (h, n) = Some c -> placed (db_key h n) c /\ Coin_IsSpent c = false;
  db_ref_coin a b n h : db_refs d !! (a, b, n) = Some h -> exists c, db_coins d !! (h, n) = Some c /\ (a, b, n) = db_pos c n;
  db_coin_ref h n c : db_coins d !! (h, n) = Some c -> db_refs d !! db_pos c n = Some h
}.

Lemma db_all_lookup d k : view_GetAllCoins d !! k = if isHash k then db_coins d !! (op_hash k, op_n k) else None.
Proof.
  cbn. unfold DB_GetAllCoins.
  assert (N : NoDup ((fun '((h, n), c) => (mkOutPoint h true n, c)) <$> map_to_list (db_coins d)).*1).
  { rewrite <- list_fmap_compose.
    replace (_ <$> map_to_list (db_coins d)) with ((fun x : list Z * Z => mkOutPoint x.1 true x.2) <$> (map_to_list (db_coins d)).*1).
    - apply NoDup_fmap_2; [by intros [] [] [= -> ->]|apply NoDup_fst_map_to_list].
    - rewrite <- list_fmap_compose. apply list_fmap_ext. by intros ? [[h n] c] ?. }
  apply option_eq. intros c. rewrite <- elem_of_list_to_map by done. rewrite list_elem_of_fmap. split.
  - intros ([[h n] c'] & [= -> ->] & Hin). by apply elem_of_map_to_list in Hin.
  - destruct k as [h [] n]; cbn; [|done]. intros E. exists ((h, n), c). split; [done|by apply elem_of_map_to_list].
Qed.

Lemma db_get_coin d o : db_ok d -> lookup_ok o ->
  exists r, DB_GetCoin d o = Ok (d, r) /\ answer (view_GetAllCoins d) o r.
Proof.
  intros D [Hn Ho]. unfold DB_GetCoin, CoinEntryRef, CoinEntry. destruct (isHash o) eqn:Eh.
  - assert (K : key_ok o) by done. eexists. split; [done|].
    destruct (db_coins d !! (op_hash o, op_n o)) as [c|] eqn:Ec; cbn [answer].
    + destruct (db_placed d D _ _ _ Ec) as [P S]. replace (db_key (op_hash o) (op_n o)) with o in P by (destruct o; cbn in *; by subst).
      split; [by split; rewrite ?Eh|]. split; [done|]. by rewrite db_all_lookup, Eh, Ec, S.
    + intros k [_ Hk]. rewrite Eh in Hk. subst k. by rewrite db_all_lookup, Eh.
  - destruct (Ho eq_refl) as [Ho' _]. destruct (db_refs d !! _) as [h|] eqn:Er.
    + destruct (db_ref_coin d D _ _ _ _ Er) as (c & Ec & Ep). destruct (db_placed d D _ _ _ Ec) as [P S].
      assert (En : COutPoint_ofHash h (op_n o) = db_key h (op_n o)) by (unfold COutPoint_ofHash; by rewrite uwrap_small).
      rewrite En. cbn -[COutPoint_ofPosition]. rewrite Ec. eexists. split; [done|]. cbn [answer].
      split; [|split; [done|]]; [|by change (DB_GetAllCoins d) with (view_GetAllCoins d); rewrite db_all_lookup; cbn; rewrite Ec, S]. split; [apply P|]. rewrite Eh.
      destruct P as (_ & Hc & ->). apply position_key; [done|done|done|done|]. injection Ep as E1 E2. done.
    + eexists. split; [done|]. intros k [Hk Hp]. rewrite Eh in Hp. rewrite db_all_lookup. destruct (isHash k); [|done].
      destruct (db_coins d !! _) as [c|] eqn:Ec; [|done]. exfalso. destruct (db_placed d D _ _ _ Ec) as [(_ & Hc & P) _].
      pose proof (db_coin_ref d D _ _ _ Ec) as Er'. unfold db_pos in Er'.
      destruct k as [kh kb kn]. destruct Hk as [Hkb Hkn]. cbn -[COutPoint_ofPosition outpoint_key position] in *. subst kb. unfold db_key in P. rewrite P in Hp.
      apply position_key in Hp as (E1 & E2 & E3); [|done..]. rewrite E1, E2, E3 in Er. congruence.
Qed.

(** The same while a batch is built: references that are still to be written. *)
Record db_pending (d : CCoinsViewDB) (W : list (Z * Z * Z * list Z)) (rest : list COutPoint) : Prop := {
  dp_placed h n c : db_coins d !! (h, n) = Some c -> placed (db_key h n) c /\ Coin_IsSpent c = false;
  dp_ref_coin a b n h : db_refs d !! (a, b, n) = Some h -> exists c, db_coins d !! (h, n) = Some c /\ (a, b, n) = db_pos c n;
  dp_coin_ref h n c : db_coins d !! (h, n) = Some c -> db_refs d !! db_pos c n = Some h \/ (db_pos c n, h) ∈ W;
  dp_writes a b n h : ((a, b, n), h) ∈ W -> (exists c, db_coins d !! (h, n) = Some c /\ (a, b, n) = db_pos c n) /\ db_key h n ∉ rest
}.

(** Two records at one position are one. *)
Lemma db_pos_inj h n c h' n' c' : placed (db_key h n) c -> placed (db_key h' n') c' -> db_pos c n = db_pos c' n' -> h = h' /\ n = n'.
Proof.
  intros (K & O & P) (K' & O' & P') E.
  assert (F : db_key h n = db_key h' n'); [|by injection F]. apply place_inj; [done..|]. rewrite P, P'. cbn.
  injection E as E1 E2 E3. unfold position. by rewrite E1, E2, E3.
Qed.

Lemma db_write_step d W k rest c : db_pending d W (k :: rest) -> k ∉ rest -> placed k c -> Coin_IsSpent c = false ->
  db_pending (mkDB (<[(op_hash k, op_n k) := c]> (db_coins d)) (db_refs d) (db_best d)) (W ++ [(db_pos c (op_n k), op_hash k)]) rest.
Proof.
  intros D Hk P S. assert (Ek : k = db_key (op_hash k) (op_n k)) by (destruct k, P as [[? _] _]; cbn in *; by subst).
  assert (L : forall h n c', db_coins d !! (h, n) = Some c' -> exists c2, <[(op_hash k, op_n k) := c]> (db_coins d) !! (h, n) = Some c2 /\ db_pos c' n = db_pos c2 n).
  { intros h n c' E. destruct (decide ((op_hash k, op_n k) = (h, n))) as [[= <- <-]|Hne]; [|exists c'; by rewrite lookup_insert_ne].
    exists c. rewrite lookup_insert_eq. split; [done|]. destruct (dp_placed _ _ _ D _ _ _ E) as [(K1 & O1 & P1) _].
    destruct P as (K & O & P). unfold db_key in *. rewrite <- Ek in P1. rewrite P in P1. cbn in P1.
    unfold db_pos. apply position_inj in P1 as (-> & -> & _); [done|done|done|exact (proj2 K)..]. }
  split; cbn [db_coins db_refs].
  - intros h n c' E. apply lookup_insert_Some in E as [[[= <- <-] <-]|[_ E]]; [by rewrite <- Ek|by apply (dp_placed _ _ _ D)].
  - intros a b n h E. destruct (dp_ref_coin _ _ _ D _ _ _ _ E) as (c' & E' & Ep). destruct (L _ _ _ E') as (c2 & E2 & E3). exists c2. by rewrite Ep, E3.
  - intros h n c' E. apply lookup_insert_Some in E as [[[= <- <-] <-]|[_ E]]; [right; set_solver|].
    destruct (dp_coin_ref _ _ _ D _ _ _ E); [by left|right; set_solver].
  - intros a b n h E. apply elem_of_app in E as [E|E].
    + destruct (dp_writes _ _ _ D _ _ _ _ E) as [(c' & E' & Ep) Hn]. destruct (L _ _ _ E') as (c2 & E2 & E3).
      split; [exists c2; by rewrite Ep, E3|]. intros Hin. apply Hn. by right.
    + apply list_elem_of_singleton in E as [= -> -> -> ->]. split; [exists c; by rewrite lookup_insert_eq|]. by rewrite <- Ek.
Qed.

Lemma db_erase_step d W k rest c : db_pending d W (k :: rest) -> placed k c ->
  db_pending (mkDB (delete (op_hash k, op_n k) (db_coins d)) (delete (db_pos c (op_n k)) (db_refs d)) (db_best d)) W rest.
Proof.
  intros D P. assert (Ek : k = db_key (op_hash k) (op_n k)) by (destruct k, P as [[? _] _]; cbn in *; by subst).
  rewrite Ek in P. split; cbn [db_coins db_refs].
  - intros h n c' E. apply lookup_delete_Some in E as [_ E]. by apply (dp_placed _ _ _ D).
  - intros a b n h E. apply lookup_delete_Some in E as [Hne E]. destruct (dp_ref_coin _ _ _ D _ _ _ _ E) as (c' & E' & Ep).
    exists c'. split; [|done]. apply lookup_delete_Some. split; [|done]. intros [= <- <-]. apply Hne. rewrite Ep.
    destruct (dp_placed _ _ _ D _ _ _ E') as [(_ & O1 & P1) _]. destruct P as (K & O & P). rewrite P in P1. cbn in P1.
    unfold db_pos. apply position_inj in P1 as (-> & -> & _); [done|done|done|exact (proj2 K)..].
  - intros h n c' E. apply lookup_delete_Some in E as [Hne E]. destruct (dp_coin_ref _ _ _ D _ _ _ E) as [E'|E']; [|by right].
    left. apply lookup_delete_Some. split; [|done]. intros Ep. apply Hne. destruct (dp_placed _ _ _ D _ _ _ E) as [P1 _].
    by destruct (db_pos_inj _ _ _ _ _ _ P P1 Ep) as [-> ->].
  - intros a b n h E. destruct (dp_writes _ _ _ D _ _ _ _ E) as [(c' & E' & Ep) Hn]. split; [|intros Hin; apply Hn; by right].
    exists c'. split; [|done]. apply lookup_delete_Some. split; [|done]. intros [= <- <-]. apply Hn. rewrite <- Ek. by left.
Qed.

Lemma db_batch_spec l : forall d W, NoDup l.*1 -> (forall k e, (k, e) ∈ l -> placed k (ce_coin e)) -> db_pending d W l.*1 ->
  exists d' W', db_batch l d W = Ok (d', W') /\ db_pending d' W' [] /\
    forall k, isHash k = true -> db_coins d' !! (op_hash k, op_n k) = written ((list_to_map l : CCoinsMap) !! k) (db_coins d !! (op_hash k, op_n k)).
Proof.
  induction l as [|[k e] l IH]; intros d W N P D; [exists d, W; split; [done|split; [done|intros k _; cbn; by rewrite lookup_empty]]|].
  cbn in N. apply NoDup_cons in N as [Hk N]. pose proof (P k e ltac:(by left)) as Pk.
  assert (Ek : isHash k = true) by apply Pk.
  assert (Pl : forall k' e', (k', e') ∈ l -> placed k' (ce_coin e')) by (intros k' e' Hin; apply P; by right).
  assert (Nk : (list_to_map l : CCoinsMap) !! k = None) by by apply not_elem_of_list_to_map.
  assert (X : forall d1 W1, db_pending d1 W1 l.*1 -> 
    (forall k', isHash k' = true -> db_coins d1 !! (op_hash k', op_n k') = if decide (k' = k) then written (Some e) (db_coins d !! (op_hash k, op_n k)) else db_coins d !! (op_hash k', op_n k')) ->
    exists d' W', db_batch l d1 W1 = Ok (d', W') /\ db_pending d' W' [] /\
      forall k', isHash k' = true -> db_coins d' !! (op_hash k', op_n k') = written ((list_to_map ((k, e) :: l) : CCoinsMap) !! k') (db_coins d !! (op_hash k', op_n k'))).
  { intros d1 W1 D1 E1. destruct (IH d1 W1 N Pl D1) as (d' & W' & -> & D' & E'). exists d', W'. split; [done|]. split; [done|].
    intros k' Hk'. rewrite E', E1 by done. cbn [list_to_map foldr curry]. destruct (decide (k' = k)) as [->|Hne].
    - cbn. rewrite Nk. by rewrite lookup_insert_eq.
    - cbn. by rewrite lookup_insert_ne. }
  assert (Y : forall k' : COutPoint, isHash k' = true -> k' <> k -> (op_hash k, op_n k) <> (op_hash k', op_n k')).
  { intros k' Hk' Hne [= E1 E2]. apply Hne. destruct k, k'; cbn in *; by subst. }
  cbn [db_batch]. destruct (entry_dirty e) eqn:Ed.
  - unfold CoinEntry. rewrite Ek. destruct (entry_spent e) eqn:Es.
    + apply X; [by apply (db_erase_step d W k l.*1 (ce_coin e))|]. intros k' Hk'. cbn. destruct (decide (k' = k)) as [->|Hne].
      * rewrite lookup_delete_eq, Ed. by rewrite Es.
      * rewrite lookup_delete_ne by by apply Y. done.
    + apply X; [by apply db_write_step|]. intros k' Hk'. cbn. destruct (decide (k' = k)) as [->|Hne].
      * rewrite lookup_insert_eq, Ed. by rewrite Es.
      * rewrite lookup_insert_ne by by apply Y. done.
  - apply X; [destruct D; split; try done; intros a b n h E; destruct (dp_writes0 _ _ _ _ E) as [? Hn]; split; [done|intros Hin; apply Hn; by right]|].
    intros k' Hk'. cbn. rewrite Ed. by destruct (decide (k' = k)) as [->|].
Qed.

Lemma db_refs_written W : forall (R : gmap (Z * Z * Z) (list Z)) t,
  fold_left (fun m '(k, h) => <[k := h]> m) W R !! t = R !! t /\ (forall h, (t, h) ∉ W) \/
  exists h, (t, h) ∈ W /\ fold_left (fun m '(k, h) => <[k := h]> m) W R !! t = Some h.
Proof.
  induction W as [|[k h] W IH]; intros R t; cbn; [left; split; [done|intros h; apply not_elem_of_nil]|].
  destruct (IH (<[k := h]> R) t) as [[E N]|(h' & Hin & E)].
  - destruct (decide (k = t)) as [->|Hne].
    + right. exists h. rewrite E, lookup_insert_eq. split; [by left|done].
    + left. rewrite E, lookup_insert_ne by done. split; [done|]. intros h' Hin. apply elem_of_cons in Hin as [[= -> ->]|Hin]; [done|by apply (N h')].
  - right. exists h'. split; [by right|done].
Qed.

Lemma db_pending_done d W : db_pending d W [] ->
  db_ok (mkDB (db_coins d) (fold_left (fun m '(k, h) => <[k := h]> m) W (db_refs d)) (db_best d)).
Proof.
  intros D. split; cbn [db_coins db_refs].
  - apply (dp_placed _ _ _ D).
  - intros a b n h E. destruct (db_refs_written W (db_refs d) (a, b, n)) as [[E' _]|(h' & Hin & E')]; rewrite E' in E.
    + by apply (dp_ref_coin _ _ _ D).
    + injection E as ->. by apply (dp_writes _ _ _ D).
  - intros h n c E. destruct (db_refs_written W (db_refs d) (db_pos c n)) as [[E' N]|(h' & Hin & E')]; rewrite E'.
    + destruct (dp_coin_ref _ _ _ D _ _ _ E) as [?|Hin]; [done|by apply N in Hin].
    + destruct (dp_writes _ _ _ D _ _ _ _ Hin) as [(c' & Ec & Ep) _]. f_equal.
      by destruct (db_pos_inj _ _ _ _ _ _ (proj1 (dp_placed _ _ _ D _ _ _ Ec)) (proj1 (dp_placed _ _ _ D _ _ _ E)) (eq_sym Ep)).
Qed.

(** *** The database is a lawful view *)

Lemma db_all_placed d k c : db_ok d -> view_GetAllCoins d !! k = Some c -> placed k c /\ Coin_IsSpent c = false.
Proof.
  intros D E. rewrite db_all_lookup in E. destruct k as [h [] n]; [|done]. by apply (db_placed d D).
Qed.

Lemma db_batch_write d l h : db_ok d -> NoDup l.*1 -> (forall k e, (k, e) ∈ l -> entry_ok (view_GetAllCoins d) k e) ->
  exists d', DB_BatchWrite d l h = Ok (d', true) /\ db_ok d' /\
    forall k, view_GetAllCoins d' !! k = written ((list_to_map l : CCoinsMap) !! k) (view_GetAllCoins d !! k).
Proof.
  intros D N E.
  destruct (db_batch_spec l d [] N) as (d1 & W & Eb & Dp & L).
  { intros k e Hin. by apply (E k e). }
  { destruct D as [D1 D2 D3]. split; [done|done|intros h' n c Ec; left; by apply D3|intros a b n h' Hin; by apply not_elem_of_nil in Hin]. }
  pose proof (db_pending_done d1 W Dp) as D1. unfold DB_BatchWrite. rewrite Eb. cbn [res_bind].
  eexists. split; [done|]. split; [destruct (blob_IsNull h); [done|destruct D1; by split]|].
  intros k. rewrite (db_all_lookup d). transitivity (if isHash k then db_coins d1 !! (op_hash k, op_n k) else None).
  { rewrite db_all_lookup. by destruct (blob_IsNull h). }
  destruct (isHash k) eqn:Ek; [by apply L|]. destruct ((list_to_map l : CCoinsMap) !! k) as [e|] eqn:El; [|done].
  apply elem_of_list_to_map_2 in El. destruct (E k e El) as [[[Ek' _] _] _]. congruence.
Qed.

#[export] Instance db_laws : CoinsViewLaws CCoinsViewDB.
Proof.
  refine {| view_ok := db_ok |}.
  - intros d k c. apply db_all_placed.
  - intros d o D Ho. destruct (db_get_coin d o D Ho) as (r & E & A). by exists d, r.
  - intros d l h. apply db_batch_write.
Defined.
End Laws.

(** ** A cache over a lawful view *)

Section CacheLaws.
Context `{Placement} {V : Type} `{CoinsView V} `{!CoinsViewLaws V} `{MemoryUsage}.

Abbreviation Cache := (CCoinsViewCache V).
Abbreviation below c := (view_GetAllCoins (base c)).

(** The references are exactly the positions of the entries. *)
Definition refs_exact (coins : CCoinsMap) (refs : CCoinsRefMap) : Prop :=
  forall i k, refs !! i = Some k <-> is_Some (coins !! k) /\ place k = i.

Record cache_ok (c : Cache) : Prop := {
  co_base : view_ok (base c);
  co_entry k e : cacheCoins c !! k = Some e -> entry_ok (below c) k e;
  co_refs : refs_exact (cacheCoins c) (cacheCoinRefs c)
}.

Lemma cache_all_lookup (c : Cache) k : Cache_GetAllCoins c !! k = overlay (cacheCoins c !! k) (below c !! k).
Proof. unfold Cache_GetAllCoins. rewrite lookup_merge. by destruct (cacheCoins c !! k), (below c !! k). Qed.

Lemma cache_all_eq (c c' : Cache) : (forall k, overlay (cacheCoins c !! k) (below c !! k) = overlay (cacheCoins c' !! k) (below c' !! k)) ->
  Cache_GetAllCoins c = Cache_GetAllCoins c'.
Proof. intros E. apply map_eq. intros k. by rewrite !cache_all_lookup. Qed.

(** *** References *)

Lemma refs_exact_insert coins refs k e : refs_exact coins refs -> key_ok k -> (forall k' e', coins !! k' = Some e' -> key_ok k') ->
  refs_exact (<[k := e]> coins) (<[place k := k]> refs).
Proof.
  intros R Hk K i k'. destruct (decide (place k = i)) as [<-|Hi].
  - rewrite lookup_insert_eq. split; [intros [= <-]; by rewrite lookup_insert_eq|]. intros [[e' E] P].
    apply lookup_insert_Some in E as [[-> _]|[_ E]]; [done|]. f_equal. symmetry. apply place_inj; [by apply (K k' e')|done|done].
  - rewrite lookup_insert_ne by done. rewrite (R i k'). destruct (decide (k = k')) as [<-|Hk']; [|by rewrite lookup_insert_ne].
    split; [intros [_ E]; done|intros [_ E]; done].
Qed.

Lemma refs_exact_update coins refs k e : refs_exact coins refs -> is_Some (coins !! k) -> refs_exact (<[k := e]> coins) refs.
Proof.
  intros R Hk i k'. rewrite (R i k'). destruct (decide (k = k')) as [<-|Hne]; [|by rewrite lookup_insert_ne].
  rewrite lookup_insert_eq. split; intros [? ?]; (split; [by eexists|done]) || done.
Qed.

Lemma refs_exact_delete coins refs k : refs_exact coins refs -> key_ok k -> (forall k' e', coins !! k' = Some e' -> key_ok k') ->
  refs_exact (delete k coins) (delete (place k) refs).
Proof.
  intros R Hk K i k'. destruct (decide (place k = i)) as [<-|Hi].
  - rewrite lookup_delete_eq. split; [done|]. intros [[e' E] P]. apply lookup_delete_Some in E as [Hne E].
    exfalso. apply Hne. symmetry. apply place_inj; [by apply (K k' e')|done|done].
  - rewrite lookup_delete_ne by done. rewrite (R i k'). destruct (decide (k = k')) as [<-|Hk']; [|by rewrite lookup_delete_ne].
    rewrite lookup_delete_eq. split; [intros [_ E]; done|intros [[? E] _]; done].
Qed.

Lemma entry_key (c : Cache) k e : cache_ok c -> cacheCoins c !! k = Some e -> key_ok k.
Proof. intros C E. by destruct (co_entry c C k e E) as [[? _] _]. Qed.

(** *** Reading *)

(** What [FetchCoin] leaves: an entry for the outpoint, or none anywhere. *)
Definition fetched (c : Cache) (o : COutPoint) (want : bool) (c' : Cache) (it ref : option COutPoint) : Prop :=
  cache_ok c' /\ below c' = below c /\ Cache_GetAllCoins c' = Cache_GetAllCoins c /\ hashBlock c' = hashBlock c /\
  match it with
  | Some k => target o k /\ is_Some (cacheCoins c' !! k) /\ (want = true -> ref = Some (place k))
  | None => forall k, target o k -> cacheCoins c' !! k = None /\ below c !! k = None
  end.

Lemma fetch_base_spec c o want : cache_ok c -> lookup_ok o -> (forall k, target o k -> cacheCoins c !! k = None) ->
  exists c' it ref, fetch_base c o = Ok (c', it, ref) /\ fetched c o want c' it ref.
Proof.
  intros C Ho Hn. unfold fetch_base. destruct (get_coin (base c) o (co_base c C) Ho) as (b & r & -> & Bok & Beq & A). cbn [res_bind].
  destruct r as [[tmp k]|]; cbn [answer] in A.
  - destruct A as (T & P & L). assert (Hk : isHash k = true) by apply T. rewrite Hk, (in_mempool_place k tmp P), (Hn k T).
    destruct P as (K & O & P). rewrite <- P.
    set (e := if entry_spent (mkEntry tmp 0) then _ else _).
    assert (Ee : entry_ok (below c) k e).
    { unfold e, entry_spent. cbn [ce_coin]. destruct (Coin_IsSpent tmp) eqn:Es.
      - split; [done|]. split; [intros _; cbn; unfold entry_spent; cbn; by rewrite Es, L|by rewrite L].
      - split; [done|]. split; [intros _; cbn; unfold entry_spent; cbn; by rewrite Es, L|done]. }
    assert (Eo : overlay (Some e) None = below c !! k).
    { unfold e, entry_spent. cbn [ce_coin]. destruct (Coin_IsSpent tmp) eqn:Es; cbn; unfold entry_spent; cbn; by rewrite Es, L. }
    eexists _, _, _. split; [done|]. split_and!; cbn [base hashBlock cacheCoins]; [|done| |done|done|by rewrite lookup_insert_eq|done].
    + split; cbn [base cacheCoins cacheCoinRefs]; [done| |].
      * intros k' e' E. rewrite Beq. apply lookup_insert_Some in E as [[<- <-]|[_ E]]; [done|by apply (co_entry c C)].
      * apply refs_exact_insert; [apply C|done|]. intros k' e'. by apply entry_key.
    + apply cache_all_eq. cbn [base cacheCoins]. intros k'. rewrite Beq. destruct (decide (k = k')) as [<-|Hne]; [|by rewrite lookup_insert_ne].
      rewrite lookup_insert_eq, (Hn k T). cbn [overlay] in Eo |- *. by rewrite <- Eo.
  - eexists _, _, _. split; [done|]. split_and!; cbn [base hashBlock cacheCoins]; [|done| |done|].
    + destruct C as [C1 C2 C3]. split; cbn; [done|by rewrite Beq|done].
    + apply cache_all_eq. cbn. intros k. by rewrite Beq.
    + intros k T. split; [by apply Hn|by apply A].
Qed.

Lemma FetchCoin_spec c o want : cache_ok c -> lookup_ok o ->
  exists c' it ref, FetchCoin c o want = Ok (c', it, ref) /\ fetched c o want c' it ref.
Proof.
  intros C Ho. unfold FetchCoin. destruct (isHash o) eqn:Eh.
  - assert (K : key_ok o) by exact (conj Eh (proj1 Ho)). assert (T : target o o) by (split; [done|by rewrite Eh]).
    destruct (cacheCoins c !! o) as [e|] eqn:Ee.
    + destruct (co_entry c C o e Ee) as [(_ & O & P) _]. rewrite <- P.
      assert (R : cacheCoinRefs c !! place o = Some o) by (apply (co_refs c C); split; [by eexists|done]).
      rewrite R, bool_decide_eq_true_2 by by eexists.
      destruct (want && _) eqn:Ew; eexists _, _, _; (split; [done|]); split_and!; try done; try by eexists.
      intros ->. by rewrite (proj2 (proj2 O)) in Ew.
    + apply (fetch_base_spec c o want C Ho). intros k [_ Hk]. rewrite Eh in Hk. by subst.
  - rewrite (proj2 (proj2 Ho Eh)). cbn [negb].
    destruct (cacheCoinRefs c !! outpoint_key o) as [k|] eqn:Er.
    + destruct (proj1 (co_refs c C _ _) Er) as [[e Ee] P]. rewrite Ee, bool_decide_eq_true_2 by by eexists.
      eexists _, _, _. split; [done|]. split_and!; try done; [|by rewrite P].
      split; [by apply (entry_key c k e)|]. by rewrite Eh.
    + apply (fetch_base_spec c o want C Ho). intros k [_ Hk]. rewrite Eh in Hk.
      destruct (cacheCoins c !! k) as [e|] eqn:Ee; [|done]. rewrite (proj2 (co_refs c C (outpoint_key o) k)) in Er; [done|].
      split; [by eexists|done].
Qed.

Lemma below_dirty (c : Cache) k e : cache_ok c -> cacheCoins c !! k = Some e -> entry_dirty e = false -> below c !! k = overlay (Some e) None.
Proof. intros C E D. destruct (co_entry c C k e E) as (_ & Hd & _). by rewrite Hd. Qed.

Lemma Cache_GetCoin_spec c o : cache_ok c -> lookup_ok o ->
  exists c' r, Cache_GetCoin c o = Ok (c', r) /\ cache_ok c' /\ Cache_GetAllCoins c' = Cache_GetAllCoins c /\
    answer (Cache_GetAllCoins c) o r.
Proof.
  intros C Ho. unfold Cache_GetCoin. destruct (FetchCoin_spec c o false C Ho) as (c' & it & ref & -> & C' & Eb & Ea & _ & F). cbn [res_bind].
  eexists _, _. split; [done|]. split; [done|]. split; [done|]. destruct it as [k|]; cbn [mbind option_bind].
  - destruct F as (T & [e Ee] & _). rewrite Ee. cbn. split; [done|]. destruct (co_entry c' C' k e Ee) as [P _]. split; [done|].
    rewrite <- Ea, cache_all_lookup, Ee. done.
  - intros k T. rewrite <- Ea, cache_all_lookup. destruct (F k T) as [-> Hb]. by rewrite Eb.
Qed.

(** What a read tells of the output that was asked for. *)
Definition seen (m : gmap COutPoint Coin) (o : COutPoint) (oc : option Coin) : Prop :=
  match oc with Some c => exists k, target o k /\ m !! k = Some c | None => forall k, target o k -> m !! k = None end.

Lemma target_unique m o k1 k2 : target o k1 -> target o k2 -> (m : gmap COutPoint Coin) !! k1 = m !! k2.
Proof.
  intros [K1 T1] [K2 T2]. f_equal. destruct (isHash o); [by subst|]. apply place_inj; [done..|]. by rewrite T1, T2.
Qed.

Lemma AccessCoin_spec c o : cache_ok c -> lookup_ok o ->
  exists c' coin, AccessCoin c o = Ok (c', coin) /\ cache_ok c' /\ Cache_GetAllCoins c' = Cache_GetAllCoins c /\
    seen (Cache_GetAllCoins c) o (if Coin_IsSpent coin then None else Some coin).
Proof.
  intros C Ho. unfold AccessCoin. destruct (FetchCoin_spec c o false C Ho) as (c' & it & ref & -> & C' & Eb & Ea & _ & F). cbn [res_bind].
  eexists _, _. split; [done|]. split; [done|]. split; [done|]. destruct it as [k|]; cbn [mbind option_bind].
  - destruct F as (T & [e Ee] & _). rewrite Ee.
    assert (L : Cache_GetAllCoins c !! k = if Coin_IsSpent (ce_coin e) then None else Some (ce_coin e)) by (rewrite <- Ea, cache_all_lookup, Ee; done).
    destruct (Coin_IsSpent (ce_coin e)); [|by exists k]. intros k' T'. by rewrite (target_unique _ o k' k).
  - cbn. intros k T. rewrite <- Ea, cache_all_lookup. destruct (F k T) as [-> Hb]. by rewrite Eb.
Qed.

Lemma HaveCoin_spec c o : cache_ok c -> lookup_ok o ->
  exists c' have, Cache_HaveCoin c o = Ok (c', have) /\ cache_ok c' /\ Cache_GetAllCoins c' = Cache_GetAllCoins c /\
    exists oc, seen (Cache_GetAllCoins c) o oc /\ have = bool_decide (is_Some oc).
Proof.
  intros C Ho. unfold Cache_HaveCoin. destruct (FetchCoin_spec c o false C Ho) as (c' & it & ref & -> & C' & Eb & Ea & _ & F). cbn [res_bind].
  eexists _, _. split; [done|]. split; [done|]. split; [done|]. destruct it as [k|]; cbn [mbind option_bind].
  - destruct F as (T & [e Ee] & _). rewrite Ee.
    assert (L : Cache_GetAllCoins c !! k = if entry_spent e then None else Some (ce_coin e)) by (rewrite <- Ea, cache_all_lookup, Ee; done).
    destruct (entry_spent e); [exists None|exists (Some (ce_coin e))]; (split; [|done]); [|by exists k].
    intros k' T'. by rewrite (target_unique _ o k' k).
  - exists None. split; [|done]. intros k T. rewrite <- Ea, cache_all_lookup. destruct (F k T) as [-> Hb]. by rewrite Eb.
Qed.

(** *** Adding *)

(** [k] may receive [coin]: it is free unless it may be overwritten. *)
Definition addable (m : gmap COutPoint Coin) (k : COutPoint) (coin : Coin) (possible_overwrite : bool) : Prop :=
  placed k coin /\ Coin_IsSpent coin = false /\ (possible_overwrite = false -> m !! k = None).

Lemma unindexed_spec c o : cache_ok c -> unindexed c o = cacheCoinRefs c /\ cacheCoins c !! o = None \/
  unindexed c o = delete (place o) (cacheCoinRefs c) /\ is_Some (cacheCoins c !! o) /\ cacheCoinRefs c !! place o = Some o.
Proof.
  intros C. unfold unindexed. destruct (cacheCoins c !! o) as [e|] eqn:Ee; [right|by left].
  destruct (co_entry c C o e Ee) as [(_ & _ & <-) _].
  assert (R : cacheCoinRefs c !! place o = Some o) by (apply (co_refs c C); split; [by eexists|done]).
  by rewrite R, bool_decide_eq_true_2.
Qed.

Lemma AddCoin_spec c o coin ow : cache_ok c -> addable (Cache_GetAllCoins c) o coin ow ->
  exists c', Cache_AddCoin c o coin ow = Ok c' /\ cache_ok c' /\ below c' = below c /\ base c' = base c /\ hashBlock c' = hashBlock c /\
    Cache_GetAllCoins c' = if CTxOut_IsUnspendable (coin_out coin) then Cache_GetAllCoins c else <[o := coin]> (Cache_GetAllCoins c).
Proof.
  intros C (P & S & Free). unfold Cache_AddCoin. rewrite S. cbn [negb]. destruct (CTxOut_IsUnspendable (coin_out coin)); [by eexists|].
  assert (K : key_ok o) by apply P. rewrite (proj1 K), (in_mempool_place o coin P).
  set (e0 := match cacheCoins c !! o with Some e => e | None => entry_default end).
  assert (G : ow || entry_spent e0 = true).
  { destruct ow; [done|]. pose proof (Free eq_refl) as L. rewrite cache_all_lookup in L. unfold e0.
    destruct (cacheCoins c !! o) as [e|]; [|done]. cbn in L. by destruct (entry_spent e). }
  rewrite G. eexists. split; [done|].
  assert (Ee : entry_ok (below c) o (mkEntry coin (Z.lor (ce_flags e0) (Z.lor DIRTY (if negb ow && negb (entry_dirty e0) then FRESH else 0))))).
  { split; [done|]. unfold entry_dirty at 1, entry_fresh. cbn [ce_flags]. destruct (flag_added (ce_flags e0) (negb ow && negb (entry_dirty e0))) as [-> ->].
    split; [done|]. rewrite orb_true_iff. intros [F|F].
    - unfold e0 in F. destruct (cacheCoins c !! o) as [e|] eqn:E; [|done]. by apply (co_entry c C o e E).
    - apply andb_true_iff in F as [->%negb_true_iff F]. specialize (Free eq_refl). rewrite cache_all_lookup in Free.
      unfold e0 in F. destruct (cacheCoins c !! o) as [e|] eqn:E; [|done]. apply negb_true_iff in F.
      rewrite (below_dirty c o e C E F). exact Free. }
  split; [|split_and!; try done].
  - split; cbn [base with_maps cacheCoins cacheCoinRefs]; [apply C| |].
    + intros k e E. apply lookup_insert_Some in E as [[<- <-]|[_ E]]; [done|by apply (co_entry c C)].
    + destruct P as (_ & _ & <-). destruct (unindexed_spec c o C) as [[-> _]|(-> & Ho & R)].
      * apply refs_exact_insert; [apply C|done|intros k e; by apply entry_key].
      * rewrite insert_delete_eq, (insert_id (cacheCoinRefs c)) by done. apply refs_exact_update; [apply C|done].
  - apply map_eq. intros k. rewrite cache_all_lookup. cbn [with_maps cacheCoins base]. destruct (decide (o = k)) as [<-|Hne].
    + rewrite !lookup_insert_eq. cbn. unfold entry_spent. cbn. by rewrite S.
    + rewrite !lookup_insert_ne by done. by rewrite cache_all_lookup.
Qed.

(** *** Spending *)

(** What spending [o] does to the unspent outputs and tells of them. *)
Definition spent (m : gmap COutPoint Coin) (o : COutPoint) (undo : option CoinUndo) (m' : gmap COutPoint Coin) : Prop :=
  (exists k c, target o k /\ m !! k = Some c /\ undo = Some (mkUndo c (op_hash k)) /\ m' = delete k m) \/
  ((forall k, target o k -> m !! k = None) /\ m' = m /\ forall u, undo = Some u -> Coin_IsSpent (undo_coin u) = true).

Lemma spent_entry m o k (e : CCoinsCacheEntry) : target o k -> m !! k = overlay (Some e) None ->
  spent m o (Some (mkUndo (ce_coin e) (op_hash k))) (delete k m).
Proof.
  intros T L. cbn in L. destruct (entry_spent e) eqn:Es; [|left; eexists _, _; by split_and!].
  right. split; [intros k' T'; by rewrite (target_unique _ o k' k)|]. split; [by apply delete_id|]. by intros u [= <-].
Qed.

Lemma SpendCoin_spec c o keep : cache_ok c -> lookup_ok o ->
  exists c' undo, Cache_SpendCoin c o keep = Ok (c', undo) /\ cache_ok c' /\ below c' = below c /\ hashBlock c' = hashBlock c /\
    spent (Cache_GetAllCoins c) o undo (Cache_GetAllCoins c').
Proof.
  intros C Ho. unfold Cache_SpendCoin. destruct (FetchCoin_spec c o true C Ho) as (c1 & it & ref & -> & C1 & Eb & Ea & Eh & F). cbn [res_bind].
  destruct it as [k|].
  2:{ eexists _, _. split; [done|]. split; [done|]. split; [done|]. split; [done|]. right. split; [|done].
      intros k T. rewrite <- Ea, cache_all_lookup. destruct (F k T) as [-> Hb]. by rewrite Eb. }
  destruct F as (T & [e Ee] & F). rewrite Ee, (F eq_refl), (bool_decide_eq_true_2 (is_Some _)), orb_true_r by by eexists.
  destruct (co_entry c1 C1 k e Ee) as (P & Hd & Hf). assert (K : key_ok k) by apply P.
  assert (R : cacheCoinRefs c1 !! place k = Some k) by (apply (co_refs c1 C1); split; [by eexists|done]).
  assert (L : Cache_GetAllCoins c !! k = overlay (Some e) None) by (rewrite <- Ea, cache_all_lookup, Ee; done).
  pose proof (spent_entry _ o k e T L) as S. rewrite <- Ea in S |- *. clear Ea L.
  destruct (negb keep && entry_fresh e) eqn:Ek.
  - apply andb_true_iff in Ek as [_ Ef]. 
    assert (D : negb (isHash o) || bool_decide (cacheCoinRefs c1 !! place k = Some o) = true).
    { destruct (isHash o) eqn:Eho; [|done]. destruct T as [_ T]. rewrite Eho in T. subst k. by rewrite bool_decide_eq_true_2. }
    rewrite D. eexists _, _. split; [done|]. split; [|split; [done|split; [done|]]].
    + split; cbn [base with_maps cacheCoins cacheCoinRefs]; [apply C1| |].
      * intros k' e' E. apply lookup_delete_Some in E as [_ E]. by apply (co_entry c1 C1).
      * apply refs_exact_delete; [apply C1|done|]. intros k' e'. by apply entry_key.
    + replace (Cache_GetAllCoins (with_maps c1 _ _ _)) with (delete k (Cache_GetAllCoins c1)); [done|].
      apply map_eq. intros k'. rewrite cache_all_lookup. cbn [base with_maps cacheCoins].
      destruct (decide (k = k')) as [<-|Hne]; [|by rewrite !lookup_delete_ne, cache_all_lookup]. rewrite !lookup_delete_eq. cbn. by rewrite Hf.
  - eexists _, _. split; [done|]. split; [|split; [done|split; [done|]]].
    + split; cbn [base with_maps cacheCoins cacheCoinRefs]; [apply C1| |].
      * intros k' e' E. apply lookup_insert_Some in E as [[<- <-]|[_ E]]; [|by apply (co_entry c1 C1)].
        split; [exact P|]. unfold entry_dirty, entry_fresh. cbn [ce_flags]. by rewrite flag_dirty, flag_fresh.
      * apply refs_exact_update; [apply C1|by eexists].
    + replace (Cache_GetAllCoins (with_maps c1 _ _ _)) with (delete k (Cache_GetAllCoins c1)); [done|].
      apply map_eq. intros k'. rewrite cache_all_lookup. cbn [base with_maps cacheCoins].
      destruct (decide (k = k')) as [<-|Hne]; [by rewrite lookup_delete_eq, lookup_insert_eq|].
      by rewrite lookup_delete_ne, lookup_insert_ne, cache_all_lookup.
Qed.

(** *** Forgetting *)

Lemma Uncache_spec c o : cache_ok c -> outpoint_ok o ->
  cache_ok (Cache_Uncache c o) /\ Cache_GetAllCoins (Cache_Uncache c o) = Cache_GetAllCoins c.
Proof.
  intros C Ho. unfold Cache_Uncache. destruct (if isHash o then Some o else _) as [k|]; [|done].
  destruct (cacheCoins c !! k) as [e|] eqn:Ee; [|done]. destruct (ce_flags e =? 0) eqn:Ef; [|done]. zbool.
  destruct (co_entry c C k e Ee) as ((K & O & P) & Hd & _). rewrite <- P.
  rewrite (proj2 (co_refs c C (place k) k)) by (split; [by eexists|done]). rewrite (proj2 (proj2 O)), bool_decide_eq_true_2 by done.
  cbn [negb andb]. split.
  - split; cbn [base with_maps cacheCoins cacheCoinRefs]; [apply C| |].
    + intros k' e' E. apply lookup_delete_Some in E as [_ E]. by apply (co_entry c C).
    + apply refs_exact_delete; [apply C|done|]. intros k' e'. by apply entry_key.
  - apply cache_all_eq. cbn [base with_maps cacheCoins]. intros k'. destruct (decide (k = k')) as [<-|Hne]; [|by rewrite lookup_delete_ne].
    rewrite lookup_delete_eq, Ee. cbn [overlay] in Hd |- *. rewrite Hd; [done|]. unfold entry_dirty. by rewrite Ef.
Qed.

(** *** Writing a child's entries *)

(** While the entries are merged over the unspent outputs [m] of the view below, the
    positions known are right, and only those of modified entries may be missing. *)
Record batch_sound (m : gmap COutPoint Coin) (s : batch_state) : Prop := {
  bs_entry k e : bs_coins s !! k = Some e -> entry_ok m k e;
  bs_ref i k : bs_refs s !! i = Some k -> is_Some (bs_coins s !! k) /\ place k = i
}.
Record batch_ok (m : gmap COutPoint Coin) (s : batch_state) (rest : list COutPoint) : Prop := {
  bo_sound : batch_sound m s;
  bo_complete k : is_Some (bs_coins s !! k) -> bs_refs s !! place k = Some k \/ k ∈ bs_mods s;
  bo_mods k : k ∈ bs_mods s -> k ∉ rest
}.

Lemma bs_key m s k : batch_sound m s -> is_Some (bs_coins s !! k) -> key_ok k.
Proof. intros S [e E]. by destruct (bs_entry m s S k e E) as [[? _] _]. Qed.

Lemma bs_ref_own m s k r : batch_sound m s -> key_ok k -> bs_refs s !! place k = Some r -> r = k.
Proof. intros S K E. destruct (bs_ref m s S _ _ E) as [Hr P]. apply place_inj; [by apply (bs_key m s)|done|done]. Qed.

(** One entry: the other keys are untouched, this one takes the child's coin. *)
Definition merged (m : gmap COutPoint Coin) (s s' : batch_state) (k : COutPoint) (e : CCoinsCacheEntry) : Prop :=
  (forall k', k' <> k -> bs_coins s' !! k' = bs_coins s !! k') /\
  overlay (bs_coins s' !! k) (m !! k) = written (Some e) (overlay (bs_coins s !! k) (m !! k)).

Lemma merge_new m s k e rest : batch_ok m s (k :: rest) -> k ∉ rest -> placed k (ce_coin e) -> bs_coins s !! k = None ->
  (entry_fresh e = true -> m !! k = None) -> entry_dirty e = true ->
  let s' := mkBatch (<[k := mkEntry (ce_coin e) (Z.lor DIRTY (if entry_fresh e then FRESH else 0))]> (bs_coins s)) (bs_refs s)
              (u64 (bs_usage s + DynamicMemoryUsage (ce_coin e))) (bs_mods s ++ [k]) in
  batch_ok m s' rest /\ merged m s s' k e.
Proof.
  intros B Hk P N F D s'. destruct B as [S Cm M]. split; [split; [split|..]|split]; unfold s'; cbn [bs_coins bs_refs bs_mods].
  - intros k' e' E. apply lookup_insert_Some in E as [[<- <-]|[_ E]]; [|by apply (bs_entry m s S)].
    split; [done|]. set (b := entry_fresh e) in *. unfold entry_dirty, entry_fresh. cbn [ce_flags].
    destruct (flag_added 0 b) as [Fd Ff]. rewrite Z.lor_0_l in Fd, Ff. rewrite Fd, Ff. split; [done|exact F].
  - intros i k' E. destruct (bs_ref m s S i k' E) as [Hin Hp]. split; [|done]. rewrite lookup_insert_is_Some'. by right.
  - intros k' Hin. destruct (decide (k = k')) as [<-|Hne]; [right; set_solver|]. rewrite lookup_insert_ne in Hin by done.
    destruct (Cm k' Hin); [by left|right; set_solver].
  - intros k' Hin. apply elem_of_app in Hin as [Hin|Hin]; [intros Hr; by apply (M k' Hin); right|by apply list_elem_of_singleton in Hin as ->].
  - intros k' Hne. by rewrite lookup_insert_ne.
  - rewrite lookup_insert_eq, N. cbn. by rewrite D.
Qed.

Lemma merge_drop m s k e us rest : batch_ok m s (k :: rest) -> k ∉ rest -> placed k (ce_coin e) -> bs_coins s !! k = Some us ->
  entry_fresh us = true -> entry_spent e = true -> entry_dirty e = true ->
  let s' := mkBatch (delete k (bs_coins s)) (delete (place k) (bs_refs s)) (u64 (bs_usage s - DynamicMemoryUsage (ce_coin us))) (bs_mods s) in
  batch_ok m s' rest /\ merged m s s' k e.
Proof.
  intros B Hk P N F Se D s'. destruct B as [S Cm M]. assert (K : key_ok k) by apply P.
  split; [split; [split|..]|split]; unfold s'; cbn [bs_coins bs_refs bs_mods].
  - intros k' e' E. apply lookup_delete_Some in E as [_ E]. by apply (bs_entry m s S).
  - intros i k' E. apply lookup_delete_Some in E as [Hi E]. destruct (bs_ref m s S i k' E) as [Hin Hp].
    rewrite lookup_delete_ne; [done|]. by intros <-.
  - intros k' Hin. rewrite lookup_delete_is_Some in Hin. destruct Hin as [Hne Hin]. destruct (Cm k' Hin) as [E|E]; [left|by right].
    rewrite lookup_delete_ne; [done|]. intros Ep. apply Hne. apply place_inj; [done|by apply (bs_key m s)|done].
  - intros k' Hin Hr. apply (M k' Hin). by right.
  - intros k' Hne. by rewrite lookup_delete_ne.
  - rewrite lookup_delete_eq, N. cbn. rewrite D, Se. by apply (bs_entry m s S k us N).
Qed.

Lemma merge_over m s k e us rest : batch_ok m s (k :: rest) -> k ∉ rest -> placed k (ce_coin e) -> bs_coins s !! k = Some us ->
  entry_dirty e = true ->
  let s' := mkBatch (<[k := mkEntry (ce_coin e) (Z.lor (ce_flags us) DIRTY)]> (bs_coins s)) (delete (place k) (bs_refs s))
                (u64 (u64 (bs_usage s - DynamicMemoryUsage (ce_coin us)) + DynamicMemoryUsage (ce_coin e))) (bs_mods s ++ [k]) in
  batch_ok m s' rest /\ merged m s s' k e.
Proof.
  intros B Hk P N D s'. destruct B as [S Cm M]. assert (K : key_ok k) by apply P.
  split; [split; [split|..]|split]; unfold s'; cbn [bs_coins bs_refs bs_mods].
  - intros k' e' E. apply lookup_insert_Some in E as [[<- <-]|[_ E]]; [|by apply (bs_entry m s S)].
    split; [done|]. unfold entry_dirty, entry_fresh. cbn [ce_flags]. rewrite flag_dirty, flag_fresh. split; [done|].
    apply (bs_entry m s S k us N).
  - intros i k' E. apply lookup_delete_Some in E as [Hi E]. destruct (bs_ref m s S i k' E) as [Hin Hp].
    rewrite lookup_insert_ne; [done|]. by intros <-.
  - intros k' Hin. destruct (decide (k = k')) as [<-|Hne]; [right; set_solver|]. rewrite lookup_insert_ne in Hin by done.
    destruct (Cm k' Hin) as [E|E]; [left|right; set_solver].
    rewrite lookup_delete_ne; [done|]. intros Ep. apply Hne. apply place_inj; [done|by apply (bs_key m s)|done].
  - intros k' Hin. apply elem_of_app in Hin as [Hin|Hin]; [intros Hr; by apply (M k' Hin); right|by apply list_elem_of_singleton in Hin as ->].
  - intros k' Hne. by rewrite lookup_insert_ne.
  - rewrite lookup_insert_eq, N. cbn. by rewrite D.
Qed.

Lemma batch_entry_spec m s k e rest : batch_ok m s (k :: rest) -> k ∉ rest -> placed k (ce_coin e) ->
  (entry_fresh e = true -> overlay (bs_coins s !! k) (m !! k) = None) ->
  exists s', batch_entry s k e = Ok s' /\ batch_ok m s' rest /\ merged m s s' k e.
Proof.
  intros B Hk P F. unfold batch_entry. assert (K : key_ok k) by apply P.
  assert (B' : batch_ok m s rest) by (destruct B as [S Cm M]; split; [done|done|intros k' Hin Hr; apply (M k' Hin); by right]).
  destruct (entry_dirty e) eqn:D.
  2:{ exists s. split; [done|]. split; [done|]. split; [done|]. cbn. by rewrite D. }
  rewrite (in_mempool_place k (ce_coin e) P). destruct (bs_coins s !! k) as [us|] eqn:N.
  - destruct (bs_entry m s (bo_sound _ _ _ B) k us N) as ((_ & O & Pu) & _). assert (Hm : in_mempool (ce_coin us) = false) by apply O.
    destruct (entry_fresh e && negb (entry_spent us)) eqn:E1.
    { apply andb_true_iff in E1 as [E1 E2]. specialize (F E1). cbn in F. by destruct (entry_spent us). }
    rewrite Hm, <- Pu. destruct (entry_fresh us && entry_spent e) eqn:E2.
    + apply andb_true_iff in E2 as [Fu Se].
      assert (Q : position (ce_coin us) (op_n k) = position (ce_coin e) (op_n k)) by (rewrite <- Pu; apply P).
      apply position_inj in Q as (-> & -> & _); [|done|apply P|apply K..]. rewrite !Z.eqb_refl. cbn [negb andb].
      eexists. split; [done|]. by apply merge_drop.
    + assert (R : bs_refs s !! place k = Some k).
      { destruct (bo_complete _ _ _ B k ltac:(by eexists)) as [R|R]; [done|]. exfalso. apply (bo_mods _ _ _ B k R). by left. }
      rewrite R, bool_decide_eq_true_2, delete_insert_eq by done. eexists. split; [done|]. by apply merge_over.
  - destruct (entry_fresh e && entry_spent e) eqn:E1.
    + apply andb_true_iff in E1 as [E1 E2]. exists s. split; [done|]. split; [done|]. split; [done|].
      rewrite N. cbn. rewrite D, E2. by apply F.
    + eexists. split; [done|]. by apply merge_new.
Qed.

Lemma batch_entries_spec m l : forall s, NoDup l.*1 -> batch_ok m s l.*1 ->
  (forall k e, (k, e) ∈ l -> placed k (ce_coin e) /\ (entry_fresh e = true -> overlay (bs_coins s !! k) (m !! k) = None)) ->
  exists s', batch_entries s l = Ok s' /\ batch_ok m s' [] /\
    forall k, overlay (bs_coins s' !! k) (m !! k) = written ((list_to_map l : CCoinsMap) !! k) (overlay (bs_coins s !! k) (m !! k)).
Proof.
  induction l as [|[k e] l IH]; intros s N B E; [exists s; split; [done|split; [done|intros k; cbn; by rewrite lookup_empty]]|].
  cbn in N, B. apply NoDup_cons in N as [Hk N]. cbn [batch_entries].
  destruct (E k e ltac:(by left)) as [P F]. destruct (batch_entry_spec m s k e l.*1 B Hk P F) as (s1 & -> & B1 & Same & Own). cbn [res_bind].
  destruct (IH s1 N B1) as (s' & -> & B' & L).
  { intros k' e' Hin. destruct (E k' e' ltac:(by right)) as [P' F']. split; [done|].
    rewrite Same; [done|]. intros ->. apply Hk. apply list_elem_of_fmap. by exists (k, e'). }
  exists s'. split; [done|]. split; [done|]. intros k'. rewrite L. cbn. destruct (decide (k = k')) as [<-|Hne].
  - rewrite lookup_insert_eq, (not_elem_of_list_to_map_1 _ _ Hk). exact Own.
  - by rewrite lookup_insert_ne, Same.
Qed.

(** A step that only adds the right position of a key, when the key's entry satisfies [q]. *)
Definition indexes (q : CCoinsCacheEntry -> bool) (s s' : batch_state) (k : COutPoint) : Prop :=
  bs_coins s' = bs_coins s /\ bs_mods s' = bs_mods s /\
  (bs_refs s' = bs_refs s \/ is_Some (bs_coins s !! k) /\ bs_refs s' = <[place k := k]> (bs_refs s)) /\
  forall e, bs_coins s !! k = Some e -> q e = true -> bs_refs s' !! place k = Some k.

Lemma index_spent_spec m s k : batch_sound m s -> indexes entry_spent s (index_spent s k) k.
Proof.
  intros S. unfold index_spent. destruct (bs_coins s !! k) as [e|] eqn:Ee; [|split_and!; [done..|by left|intros e' E' _; congruence]].
  destruct (entry_spent e) eqn:Es; [|split_and!; [done..|by left|intros e' E' Q; congruence]].
  destruct (bs_entry m s S k e Ee) as [(K & _ & <-) _].
  assert (X : indexes entry_spent s (mkBatch (bs_coins s) (<[place k := k]> (bs_refs s)) (bs_usage s) (bs_mods s)) k).
  { split_and!; [done..|right; split; [by eexists|done]|intros e' _ _; cbn [bs_refs]; by rewrite lookup_insert_eq]. }
  destruct (bs_refs s !! place k) as [r|] eqn:Er; [|exact X].
  rewrite (bs_ref_own m s k r S K Er), Ee, Es. exact X.
Qed.

Lemma index_unspent_spec m s k : batch_sound m s -> indexes (fun e => negb (entry_spent e)) s (index_unspent s k) k.
Proof.
  intros S. unfold index_unspent. destruct (bs_coins s !! k) as [e|] eqn:Ee; [|split_and!; [done..|by left|intros e' E' _; congruence]].
  destruct (entry_spent e) eqn:Es; [split_and!; [done..|by left|intros e' E' Q; rewrite Ee in E'; injection E' as <-; by rewrite Es in Q]|].
  destruct (bs_entry m s S k e Ee) as [(K & _ & <-) _].
  split_and!; [done..|right; split; [by eexists|done]|intros e' _ _; cbn [bs_refs]; by rewrite lookup_insert_eq].
Qed.

Lemma indexes_sound m q s s' k : batch_sound m s -> indexes q s s' k ->
  batch_sound m s' /\ forall k', is_Some (bs_coins s !! k') -> bs_refs s !! place k' = Some k' -> bs_refs s' !! place k' = Some k'.
Proof.
  intros S (Ec & _ & [Er|[Hk Er]] & _).
  - split; [|by rewrite Er]. destruct S as [S1 S2]. split; [by rewrite Ec|by rewrite Ec, Er].
  - assert (K : key_ok k) by by apply (bs_key m s). split.
    + destruct S as [S1 S2]. split; [by rewrite Ec|]. rewrite Ec, Er. intros i k' E.
      apply lookup_insert_Some in E as [[<- <-]|[_ E]]; [done|by apply S2].
    + intros k' Hk' E. rewrite Er. destruct (decide (place k = place k')) as [Ep|Hne]; [|by rewrite lookup_insert_ne].
      rewrite Ep, lookup_insert_eq. f_equal. apply place_inj; [done|by apply (bs_key m s)|done].
Qed.

Lemma index_loop m q f l : (forall s k, batch_sound m s -> indexes q s (f s k) k) -> forall s, batch_sound m s ->
  let s' := fold_left f l s in
  batch_sound m s' /\ bs_coins s' = bs_coins s /\ bs_mods s' = bs_mods s /\
  (forall k, is_Some (bs_coins s !! k) -> bs_refs s !! place k = Some k -> bs_refs s' !! place k = Some k) /\
  (forall k e, k ∈ l -> bs_coins s !! k = Some e -> q e = true -> bs_refs s' !! place k = Some k).
Proof.
  intros Hf. induction l as [|k l IH]; intros s S; cbn.
  - split_and!; [done..|]. intros k e Hin. by apply not_elem_of_nil in Hin.
  - pose proof (Hf s k S) as I. destruct (indexes_sound m q s _ k S I) as [S1 Kp]. destruct I as (Ec & Em & _ & Own).
    destruct (IH (f s k) S1) as (S' & Ec' & Em' & Kp' & Own'). split_and!; [done|by rewrite Ec'|by rewrite Em'| |].
    + intros k' Hin E. apply Kp'; [by rewrite Ec|by apply Kp].
    + intros k' e Hin E Q. apply elem_of_cons in Hin as [->|Hin]; [|apply (Own' k' e); [done|by rewrite Ec|done]].
      apply Kp'; [rewrite Ec; by eexists|by apply (Own e)].
Qed.

Lemma Cache_BatchWrite_spec c l h : cache_ok c -> NoDup l.*1 -> (forall k e, (k, e) ∈ l -> entry_ok (Cache_GetAllCoins c) k e) ->
  exists c', Cache_BatchWrite c l h = Ok (c', true) /\ cache_ok c' /\
    forall k, Cache_GetAllCoins c' !! k = written ((list_to_map l : CCoinsMap) !! k) (Cache_GetAllCoins c !! k).
Proof.
  intros C N E. set (s0 := mkBatch (cacheCoins c) (cacheCoinRefs c) (cachedCoinsUsage c) []).
  assert (B0 : batch_ok (below c) s0 l.*1).
  { split; [split|..].
    - intros k e. apply (co_entry c C).
    - intros i k. apply (co_refs c C).
    - intros k Hk. left. by apply (co_refs c C).
    - intros k Hin. by apply not_elem_of_nil in Hin. }
  destruct (batch_entries_spec (below c) l s0 N B0) as (s1 & E1 & B1 & L).
  { intros k e Hin. destruct (E k e Hin) as (P & _ & F). split; [done|]. intros Fr. specialize (F Fr). by rewrite cache_all_lookup in F. }
  unfold Cache_BatchWrite. fold s0. rewrite E1. cbn [res_bind].
  destruct (index_loop (below c) entry_spent index_spent (bs_mods s1) (index_spent_spec (below c)) s1 (bo_sound _ _ _ B1))
    as (S2 & Ec2 & Em2 & K2 & O2).
  destruct (index_loop (below c) _ index_unspent (bs_mods (fold_left index_spent (bs_mods s1) s1)) (index_unspent_spec (below c)) _ S2)
    as (S3 & Ec3 & Em3 & K3 & O3). set (s3 := fold_left index_unspent _ _) in *.
  eexists. split; [done|]. split.
  - split; cbn [base cacheCoins cacheCoinRefs]; [apply C|intros k e; apply (bs_entry _ _ S3)|].
    intros i k. split; [apply (bs_ref _ _ S3)|]. intros [Hk <-]. rewrite Ec3, Ec2 in Hk.
    destruct (bo_complete _ _ _ B1 k Hk) as [R|R].
    + apply K3; [by rewrite Ec2|by apply K2].
    + destruct Hk as [e Ee]. destruct (entry_spent e) eqn:Es.
      * apply K3; [rewrite Ec2; by eexists|by apply (O2 k e)].
      * apply (O3 k e); [by rewrite Em2|by rewrite Ec2|by rewrite Es].
  - intros k. rewrite !cache_all_lookup. cbn [base cacheCoins]. rewrite Ec3, Ec2. apply L.
Qed.

Lemma cache_all_placed c k coin : cache_ok c -> Cache_GetAllCoins c !! k = Some coin -> placed k coin /\ Coin_IsSpent coin = false.
Proof.
  intros C E. rewrite cache_all_lookup in E. destruct (cacheCoins c !! k) as [e|] eqn:Ee; [|by apply (all_placed (base c) k coin (co_base c C))].
  cbn in E. destruct (entry_spent e) eqn:Es; [done|]. injection E as <-. split; [apply (co_entry c C k e Ee)|done].
Qed.

(** *** Flushing *)

(** A hash table is iterated in some order. *)
Definition iterates (bucket_order : CCoinsMap -> list (COutPoint * CCoinsCacheEntry)) : Prop :=
  forall m, Permutation (bucket_order m) (map_to_list m).

Lemma Flush_spec bucket_order c : iterates bucket_order -> cache_ok c ->
  exists c', Cache_Flush bucket_order c = Ok (c', true) /\ cache_ok c' /\ view_GetAllCoins (base c') = Cache_GetAllCoins c /\
    Cache_GetAllCoins c' = Cache_GetAllCoins c /\ hashBlock c' = hashBlock c.
Proof.
  intros Ord C. set (l := bucket_order (cacheCoins c)).
  assert (Pm : Permutation l (map_to_list (cacheCoins c))) by apply Ord.
  assert (N : NoDup l.*1) by (rewrite Pm; apply NoDup_fst_map_to_list).
  assert (Lm : list_to_map l = cacheCoins c).
  { rewrite (list_to_map_proper l (map_to_list (cacheCoins c))); [apply list_to_map_to_list|done|done]. }
  destruct (batch_write (base c) l (hashBlock c) (co_base c C) N) as (b & E & Bok & L).
  { intros k e Hin. apply (co_entry c C). apply elem_of_map_to_list. by rewrite <- Pm. }
  assert (A : view_GetAllCoins b = Cache_GetAllCoins c).
  { apply map_eq. intros k. rewrite L, Lm, cache_all_lookup. destruct (cacheCoins c !! k) as [e|] eqn:Ee; [|done]. cbn [written].
    destruct (entry_dirty e) eqn:D; [done|]. rewrite (below_dirty c k e C Ee D). done. }
  unfold Cache_Flush. fold l. rewrite E. cbn [res_bind]. eexists. split; [done|]. split; [|split; [done|split; [|done]]].
  - split; cbn [base cacheCoins cacheCoinRefs]; [done|intros k e; by rewrite lookup_empty|].
    intros i k. rewrite !lookup_empty. split; [done|]. by intros [[? ?] _].
  - apply map_eq. intros k. rewrite cache_all_lookup. cbn [base cacheCoins]. by rewrite lookup_empty, A.
Qed.

Lemma new_cache_ok b : view_ok b -> cache_ok (CCoinsViewCache_new b) /\ Cache_GetAllCoins (CCoinsViewCache_new b) = view_GetAllCoins b.
Proof.
  intros B. split.
  - split; cbn; [done|intros k e; by rewrite lookup_empty|]. intros i k. rewrite !lookup_empty. split; [done|]. by intros [[? ?] _].
  - apply map_eq. intros k. rewrite cache_all_lookup. cbn. by rewrite lookup_empty.
Qed.

#[export] Instance cache_laws : CoinsViewLaws (CCoinsViewCache V).
Proof.
  refine {| view_ok := cache_ok |}.
  - intros c k coin. apply cache_all_placed.
  - intros c o. apply Cache_GetCoin_spec.
  - intros c l h. apply Cache_BatchWrite_spec.
Defined.
End CacheLaws.
