(* ===== verification/CoinsSpec.v ===== *)
(** * CoinsSpec: what a coin view promises its users

    The map of unspent outputs as a transition system, the theorem that any run of the
    operations of a cache over lawful views is a run of that system, the sibling view of
    the witness outputs, the record format of a coin, and three defects. *)

From stdpp Require Import gmap.
From S2P Require Import Prelude ArithUint256 Serialize Compressor Transaction WitnessUtil TxCheck Coins CoinsRefine.

(** ** The specification *)

Inductive coin_op :=
| OpAdd (o : COutPoint) (coin : Coin) (possible_overwrite : bool)
| OpSpend (o : COutPoint) (nodeletefresh : bool)
| OpAccess (o : COutPoint)
| OpHave (o : COutPoint)
| OpUncache (o : COutPoint)
| OpFlush.

Inductive coin_reply := OutNone | OutCoin (c : Coin) | OutBool (b : bool) | OutUndo (u : option CoinUndo).

Section Spec.
Context `{Placement}.
Implicit Type m : gmap COutPoint Coin.

(** When the operation may be called. *)
Definition legal m (op : coin_op) : Prop :=
  match op with
  | OpAdd o coin ow => addable m o coin ow
  | OpSpend o _ | OpAccess o | OpHave o => lookup_ok o
  | OpUncache o => outpoint_ok o
  | OpFlush => True
  end.

Inductive utxo_step m : coin_op -> coin_reply -> gmap COutPoint Coin -> Prop :=
| step_add o coin ow : utxo_step m (OpAdd o coin ow) OutNone (if CTxOut_IsUnspendable (coin_out coin) then m else <[o := coin]> m)
| step_spend o keep undo m' : spent m o undo m' -> utxo_step m (OpSpend o keep) (OutUndo undo) m'
| step_access o c : seen m o (if Coin_IsSpent c then None else Some c) -> utxo_step m (OpAccess o) (OutCoin c) m
| step_have o oc : seen m o oc -> utxo_step m (OpHave o) (OutBool (bool_decide (is_Some oc))) m
| step_uncache o : utxo_step m (OpUncache o) OutNone m
| step_flush : utxo_step m OpFlush (OutBool true) m.

Inductive utxo_run : gmap COutPoint Coin -> list coin_op -> list coin_reply -> gmap COutPoint Coin -> Prop :=
| run_nil m : utxo_run m [] [] m
| run_cons m op out m1 ops outs m2 : utxo_step m op out m1 -> utxo_run m1 ops outs m2 -> utxo_run m (op :: ops) (out :: outs) m2.

(** Every operation is legal whatever the ones before it answered. *)
Fixpoint legal_run m (ops : list coin_op) : Prop :=
  match ops with
  | [] => True
  | op :: ops' => legal m op /\ forall out m', utxo_step m op out m' -> legal_run m' ops'
  end.

(** The answers and the new map are determined, up to what is told of an output that is spent. *)
Lemma seen_det m o a b : seen m o a -> seen m o b -> a = b.
Proof.
  destruct a as [a|], b as [b|]; cbn; [|..|done].
  - intros (k1 & T1 & E1) (k2 & T2 & E2). rewrite (target_unique m o k1 k2 T1 T2) in E1. congruence.
  - intros (k1 & T1 & E1) N. rewrite (N k1 T1) in E1. done.
  - intros N (k1 & T1 & E1). rewrite (N k1 T1) in E1. done.
Qed.

Lemma target_eq o k1 k2 : target o k1 -> target o k2 -> k1 = k2.
Proof. intros [K1 T1] [K2 T2]. destruct (isHash o); [by subst|]. apply place_inj; [done..|]. by rewrite T1, T2. Qed.

Lemma utxo_step_det m op o1 m1 o2 m2 : utxo_step m op o1 m1 -> utxo_step m op o2 m2 -> m1 = m2.
Proof.
  intros S1 S2. destruct S1 as [| o keep undo m1 A | | | |]; inversion S2 as [| o' keep' undo' m2' B | | | |]; subst; try done.
  destruct A as [(k1 & c1 & T1 & E1 & _ & ->)|(N1 & -> & _)], B as [(k2 & c2 & T2 & E2 & _ & ->)|(N2 & -> & _)].
  - by rewrite (target_eq _ _ _ T1 T2).
  - by rewrite (N2 k1 T1) in E1.
  - by rewrite (N1 k2 T2) in E2.
  - done.
Qed.
End Spec.

(** ** The operations of a cache *)

Section Run.
Context {V : Type} `{CoinsView V} `{MemoryUsage}.
Variable bucket_order : CCoinsMap -> list (COutPoint * CCoinsCacheEntry).

Definition run_op (c : CCoinsViewCache V) (op : coin_op) : res coins_error (CCoinsViewCache V * coin_reply) :=
  match op with
  | OpAdd o coin ow => let! c := Cache_AddCoin c o coin ow in Ok (c, OutNone)
  | OpSpend o keep => let! (c, u) := Cache_SpendCoin c o keep in Ok (c, OutUndo u)
  | OpAccess o => let! (c, coin) := AccessCoin c o in Ok (c, OutCoin coin)
  | OpHave o => let! (c, b) := Cache_HaveCoin c o in Ok (c, OutBool b)
  | OpUncache o => Ok (Cache_Uncache c o, OutNone)
  | OpFlush => let! (c, b) := Cache_Flush bucket_order c in Ok (c, OutBool b)
  end.
Fixpoint run_ops (c : CCoinsViewCache V) (ops : list coin_op) : res coins_error (CCoinsViewCache V * list coin_reply) :=
  match ops with
  | [] => Ok (c, [])
  | op :: ops' =>
      let! (c, out) := run_op c op in
      let! (c, outs) := run_ops c ops' in
      Ok (c, out :: outs)
  end.
End Run.

Section RunLemmas.
Context `{Placement} {V : Type} `{CoinsView V} `{!CoinsViewLaws V} `{MemoryUsage}.
Variable bucket_order : CCoinsMap -> list (COutPoint * CCoinsCacheEntry).
Hypothesis order_ok : iterates bucket_order.

Lemma run_op_spec (c : CCoinsViewCache V) op : cache_ok c -> legal (Cache_GetAllCoins c) op ->
  exists c' out, run_op bucket_order c op = Ok (c', out) /\ cache_ok c' /\ utxo_step (Cache_GetAllCoins c) op out (Cache_GetAllCoins c').
Proof.
  intros C L. destruct op as [o coin ow|o keep|o|o|o|]; cbn [run_op].
  - destruct (AddCoin_spec c o coin ow C L) as (c' & -> & C' & _ & _ & _ & E). cbn. eexists _, _. split; [done|]. split; [done|rewrite E; constructor].
  - destruct (SpendCoin_spec c o keep C L) as (c' & u & -> & C' & _ & _ & S). cbn. eexists _, _. split; [done|]. split; [done|by constructor].
  - destruct (AccessCoin_spec c o C L) as (c' & coin & -> & C' & E & S). cbn. eexists _, _. split; [done|]. split; [done|rewrite E; by constructor].
  - destruct (HaveCoin_spec c o C L) as (c' & b & -> & C' & E & oc & S & ->). cbn. eexists _, _. split; [done|]. split; [done|rewrite E; by constructor].
  - destruct (Uncache_spec c o C L) as [C' E]. eexists _, _. split; [done|]. split; [done|rewrite E; constructor].
  - destruct (Flush_spec bucket_order c order_ok C) as (c' & -> & C' & _ & E & _). cbn. eexists _, _. split; [done|]. split; [done|rewrite E; constructor].
Qed.

Lemma run_ops_spec ops : forall c : CCoinsViewCache V, cache_ok c -> legal_run (Cache_GetAllCoins c) ops ->
  exists c' outs, run_ops bucket_order c ops = Ok (c', outs) /\ cache_ok c' /\ utxo_run (Cache_GetAllCoins c) ops outs (Cache_GetAllCoins c').
Proof.
  induction ops as [|op ops IH]; intros c C L; cbn [run_ops]; [exists c, []; split; [done|split; [done|constructor]]|].
  destruct L as [L Ls]. destruct (run_op_spec c op C L) as (c1 & out & -> & C1 & S). cbn [res_bind].
  destruct (IH c1 C1 (Ls out _ S)) as (c2 & outs & -> & C2 & R). cbn [res_bind].
  eexists _, _. split; [done|]. split; [done|by econstructor].
Qed.
End RunLemmas.

(** *** The sibling view *)

Section Sibling.
Context `{Placement} {V W : Type} `{CoinsView V} `{!CoinsViewLaws V} `{CoinsView W} `{!CoinsViewLaws W} `{MemoryUsage}.

Definition witness_only (oc : option Coin) : option Coin :=
  match oc with Some c => if IsPow2WitnessOutput (coin_out c) then Some c else None | None => None end.

(** The sibling has the witness outputs of the view, and nothing else. *)
Definition tracks (m w : gmap COutPoint Coin) : Prop := forall k, w !! k = witness_only (m !! k).
Definition siblings (v : ChainedView V W) (c : CCoinsViewCache V) (w : CCoinsViewCache W) : Prop :=
  v = mkChained c (Some w) /\ cache_ok c /\ cache_ok w /\ tracks (Cache_GetAllCoins c) (Cache_GetAllCoins w).

(** An output is only replaced by one of the same kind. *)
Definition same_kind (m : gmap COutPoint Coin) (o : COutPoint) (coin : Coin) : Prop :=
  forall c, m !! o = Some c -> IsPow2WitnessOutput (coin_out c) = IsPow2WitnessOutput (coin_out coin).

Lemma witness_spendable out : IsPow2WitnessOutput out = true -> CTxOut_IsUnspendable out = false.
Proof. unfold IsPow2WitnessOutput, CTxOut_IsUnspendable. by destruct (output out). Qed.

Lemma tracks_insert m w o coin : tracks m w -> IsPow2WitnessOutput (coin_out coin) = true -> tracks (<[o := coin]> m) (<[o := coin]> w).
Proof.
  intros T Hw k. destruct (decide (o = k)) as [<-|Hne]; [rewrite !lookup_insert_eq; cbn; by rewrite Hw|by rewrite !lookup_insert_ne].
Qed.
Lemma tracks_skip m w o coin : tracks m w -> same_kind m o coin -> IsPow2WitnessOutput (coin_out coin) = false -> tracks (<[o := coin]> m) w.
Proof.
  intros T S Hw k. rewrite T. destruct (decide (o = k)) as [<-|Hne]; [|by rewrite lookup_insert_ne].
  rewrite lookup_insert_eq. cbn. rewrite Hw. destruct (m !! o) as [c|] eqn:E; [|done]. cbn. by rewrite (S c E), Hw.
Qed.
Lemma tracks_spent m w o u m' u' w' : tracks m w -> spent m o u m' -> spent w o u' w' -> tracks m' w'.
Proof.
  intros T [(k1 & c1 & T1 & E1 & _ & ->)|(N1 & -> & _)] [(k2 & c2 & T2 & E2 & _ & ->)|(N2 & -> & _)] k.
  - rewrite (target_eq _ _ _ T1 T2). destruct (decide (k2 = k)) as [<-|Hne]; [by rewrite !lookup_delete_eq|by rewrite !lookup_delete_ne].
  - destruct (decide (k1 = k)) as [<-|Hne]; [by rewrite lookup_delete_eq, (N2 k1 T1)|by rewrite lookup_delete_ne].
  - rewrite (T k2), (N1 k2 T2) in E2. done.
  - apply T.
Qed.

Lemma AddCoin_siblings v c w o coin ow : siblings v c w -> addable (Cache_GetAllCoins c) o coin ow -> same_kind (Cache_GetAllCoins c) o coin ->
  exists v' c' w', AddCoin v o coin ow = Ok v' /\ siblings v' c' w' /\
    Cache_GetAllCoins c' = if CTxOut_IsUnspendable (coin_out coin) then Cache_GetAllCoins c else <[o := coin]> (Cache_GetAllCoins c).
Proof.
  intros (-> & C & Cw & T) A S. destruct (AddCoin_spec c o coin ow C A) as (c' & Ec & C' & _ & _ & _ & E').
  unfold AddCoin. destruct (IsPow2WitnessOutput (coin_out coin)) eqn:Hw; cbn [res_bind on_sibling view pChainedWitView].
  - assert (Aw : addable (Cache_GetAllCoins w) o coin ow).
    { destruct A as (P & Sp & F). split; [done|]. split; [done|]. intros Ho. by rewrite (T o), (F Ho). }
    destruct (AddCoin_spec w o coin ow Cw Aw) as (w' & -> & Cw' & _ & _ & _ & Ew'). cbn. rewrite Ec. cbn.
    rewrite (witness_spendable _ Hw) in E', Ew' |- *. eexists _, c', w'. split; [done|]. split; [|done]. split_and!; try done.
    rewrite E', Ew'. by apply tracks_insert.
  - rewrite Ec. cbn. eexists _, c', w. split; [done|]. split; [|done]. split_and!; try done. rewrite E'.
    destruct (CTxOut_IsUnspendable _); [done|by apply tracks_skip].
Qed.

Lemma SpendCoin_siblings v c w o keep : siblings v c w -> lookup_ok o ->
  exists v' c' w' u, SpendCoin v o keep = Ok (v', u) /\ siblings v' c' w' /\ spent (Cache_GetAllCoins c) o u (Cache_GetAllCoins c').
Proof.
  intros (-> & C & Cw & T) Ho. unfold SpendCoin. cbn [on_sibling pChainedWitView].
  destruct (SpendCoin_spec w o true Cw Ho) as (w' & u' & -> & Cw' & _ & _ & Sw). cbn.
  destruct (SpendCoin_spec c o keep C Ho) as (c' & u & -> & C' & _ & _ & S). cbn.
  eexists _, c', w', u. split; [done|]. split; [|done]. split_and!; try done. by apply (tracks_spent _ _ _ _ _ _ _ T S Sw).
Qed.

Lemma Flush_siblings bucket_order v c w : iterates bucket_order -> siblings v c w ->
  exists v' c' w', Flush bucket_order v = Ok (v', true) /\ siblings v' c' w' /\ Cache_GetAllCoins c' = Cache_GetAllCoins c /\
    view_GetAllCoins (base c') = Cache_GetAllCoins c /\ tracks (view_GetAllCoins (base c')) (view_GetAllCoins (base w')).
Proof.
  intros Ord (-> & C & Cw & T). unfold Flush. cbn [on_sibling pChainedWitView].
  destruct (Flush_spec bucket_order w Ord Cw) as (w' & -> & Cw' & Bw & Ew & _). cbn.
  destruct (Flush_spec bucket_order c Ord C) as (c' & -> & C' & B & E & _). cbn.
  eexists _, c', w'. split; [done|]. split; [split_and!; try done; by rewrite E, Ew|]. split_and!; [done..|]. by rewrite B, Bw.
Qed.
End Sibling.

(** *** Coin records *)

(** The number that holds the height and the two marks. *)
Lemma coin_code_parts h (segsig coinbase : bool) : 0 <= h < 2 ^ 30 ->
  let code := u32 (u32 (Z.shiftl h 2) + Z.shiftl (Z.b2z segsig) 1 + Z.b2z coinbase) in
  0 <= code <= UINT32_MAX /\ Z.shiftr (Z.land code 4294967292) 2 = h /\ (Z.land code 2 >? 0) = segsig /\ (Z.land code 1 >? 0) = coinbase.
Proof.
  intros Hh. cbv zeta. rewrite (Z.shiftl_mul_pow2 h), Z.shiftl_mul_pow2 by lia. rewrite (u32_small (h * 2 ^ 2)) by lia.
  assert (R : 0 <= h * 2 ^ 2 + Z.b2z segsig * 2 ^ 1 + Z.b2z coinbase < 2 ^ 32) by (destruct segsig, coinbase; cbn; lia).
  rewrite u32_small by done. set (low := Z.b2z segsig * 2 ^ 1 + Z.b2z coinbase).
  assert (L : 0 <= low < 2 ^ 2) by (unfold low; destruct segsig, coinbase; cbn; lia).
  assert (E : h * 2 ^ 2 + Z.b2z segsig * 2 ^ 1 + Z.b2z coinbase = Z.lor (Z.shiftl h 2) low).
  { rewrite <- Z.add_assoc. fold low. rewrite Z.lor_comm, Z.shiftl_mul_pow2, lor_disjoint by lia. lia. }
  rewrite E in R |- *. split; [unfold UINT32_MAX; lia|]. split_and!.
  - change 4294967292 with (Z.shiftl (Z.ones 30) 2). apply Z.bits_inj'. intros n Hn.
    rewrite Z.shiftr_spec, Z.land_spec, Z.lor_spec, !Z.shiftl_spec by lia. rewrite Z.add_simpl_r.
    rewrite (testbit_above 2 low (n + 2)), orb_false_r by lia. rewrite Z.testbit_ones_nonneg by lia.
    destruct (n <? 30) eqn:En; zbool; [by rewrite andb_true_r|]. rewrite andb_false_r. symmetry. apply (testbit_above 30 h n); lia.
  - rewrite Z.land_lor_distr_l. replace (Z.land (Z.shiftl h 2) 2) with 0; [unfold low; by destruct segsig, coinbase|].
    symmetry. apply Z.bits_inj'. intros n Hn. rewrite Z.land_spec, Z.testbit_0_l. change 2 with (2 ^ 1) at 2.
    destruct (Z.eq_dec n 1) as [->|Hne]; [by rewrite Z.shiftl_spec_low|]. rewrite Z.pow2_bits_false by lia. apply andb_false_r.
  - rewrite Z.land_lor_distr_l. replace (Z.land (Z.shiftl h 2) 1) with 0; [unfold low; by destruct segsig, coinbase|].
    symmetry. apply Z.bits_inj'. intros n Hn. rewrite Z.land_spec, Z.testbit_0_l. change 1 with (2 ^ 0).
    destruct (Z.eq_dec n 0) as [->|Hne]; [by rewrite Z.shiftl_spec_low|]. rewrite Z.pow2_bits_false by lia. apply andb_false_r.
Qed.

Definition record_ok (c : Coin) : Prop :=
  0 <= coin_nHeight c < 2 ^ 30 /\ is_u32 (nTxIndex c) /\ Coin_IsSpent c = false /\ out_ok (coin_version (fSegSig c)) (coin_out c).
(** The coin with its output in the form that is read back. *)
Definition canon_coin (c : Coin) : Coin :=
  mkCoin (canon_out (coin_version (fSegSig c)) (coin_out c)) (fCoinBase c) (fSegSig c) (coin_nHeight c) (nTxIndex c).

Lemma coin_roundtrip c : record_ok c ->
  exists bs, Coin_Serialize c = Some bs /\ forall s, Coin_Unserialize (bs ++ s) = Some (canon_coin c, s).
Proof.
  intros (Hh & Hi & S & O). unfold Coin_Serialize, Coin_Unserialize. rewrite S.
  destruct (out_roundtrip _ _ O) as (bs & -> & _ & R). eexists. split; [done|]. intros s. rewrite <- !app_assoc.
  destruct (coin_code_parts (coin_nHeight c) (fSegSig c) (fCoinBase c) Hh) as (Hc & E1 & E2 & E3).
  unfold rd_bind at 1. rewrite (VarInt_RoundTrip UINT32_MAX) by (unfold UINT32_MAX; lia || done).
  unfold rd_bind at 1. rewrite (VarInt_RoundTrip UINT32_MAX) by (unfold UINT32_MAX, is_u32 in *; lia).
  unfold rd_bind. rewrite E2, R. cbn. by rewrite E1, E3.
Qed.

(** ** Properties *)

(** C19: Any legal run of additions, spends, reads, cache drops and flushes of a cache over
    a lawful view succeeds and is a run of the map of unspent outputs: each answer is
    what the map says, by hash or by position, and flushing and dropping change nothing. *)
Theorem coins_cache_refines_map `{Placement} {V} `{CoinsView V} `{!CoinsViewLaws V} `{MemoryUsage} bucket_order (c : CCoinsViewCache V) ops :
  iterates bucket_order -> cache_ok c -> legal_run (Cache_GetAllCoins c) ops ->
  exists c' outs, run_ops bucket_order c ops = Ok (c', outs) /\ cache_ok c' /\ utxo_run (Cache_GetAllCoins c) ops outs (Cache_GetAllCoins c').
Proof. intros Ord C L. by apply run_ops_spec. Qed.

(** C20: The same for a cache over a cache over the database, and after a flush of both the
    database holds exactly the map. *)
Theorem flushed_stack_is_durable `{Placement} `{MemoryUsage} bucket_order (d : CCoinsViewDB) (c : CCoinsViewCache (CCoinsViewCache CCoinsViewDB)) ops :
  iterates bucket_order -> db_ok d -> c = CCoinsViewCache_new (CCoinsViewCache_new d) -> legal_run (DB_GetAllCoins d) ops ->
  exists c1 outs c2 c3 m, run_ops bucket_order c ops = Ok (c1, outs) /\ utxo_run (DB_GetAllCoins d) ops outs m /\
    Cache_Flush bucket_order c1 = Ok (c2, true) /\ Cache_Flush bucket_order (base c2) = Ok (c3, true) /\
    db_ok (base c3) /\ DB_GetAllCoins (base c3) = m.
Proof.
  intros Ord D -> L. assert (Dv : view_ok d) by exact D. destruct (new_cache_ok d Dv) as [C0 A0].
  assert (C0v : view_ok (CCoinsViewCache_new d)) by exact C0. destruct (new_cache_ok _ C0v) as [C A].
  change (view_GetAllCoins (CCoinsViewCache_new d)) with (Cache_GetAllCoins (CCoinsViewCache_new d)) in A. rewrite A0 in A.
  change (view_GetAllCoins d) with (DB_GetAllCoins d) in A. rewrite <- A in L |- *.
  destruct (run_ops_spec bucket_order Ord ops _ C L) as (c1 & outs & E1 & C1 & R).
  destruct (Flush_spec bucket_order c1 Ord C1) as (c2 & E2 & C2 & A2 & _). pose proof (co_base c2 C2) as B2.
  destruct (Flush_spec bucket_order (base c2) Ord B2) as (c3 & E3 & C3 & A3 & _).
  exists c1, outs, c2, c3, (Cache_GetAllCoins c1). split_and!; [done..|apply (co_base c3 C3)|]. etransitivity; [exact A3|exact A2].
Qed.

(** The sibling of a view holds exactly the witness outputs of the view, and adding,
    spending and flushing keep it so, down to the views both are written to. *)
Theorem sibling_tracks_witness_outputs `{Placement} {V W} `{CoinsView V} `{!CoinsViewLaws V} `{CoinsView W} `{!CoinsViewLaws W} `{MemoryUsage}
    bucket_order (v : ChainedView V W) c w : iterates bucket_order -> siblings v c w ->
  (forall o coin ow, addable (Cache_GetAllCoins c) o coin ow -> same_kind (Cache_GetAllCoins c) o coin ->
     exists v' c' w', AddCoin v o coin ow = Ok v' /\ siblings v' c' w' /\
       Cache_GetAllCoins c' = if CTxOut_IsUnspendable (coin_out coin) then Cache_GetAllCoins c else <[o := coin]> (Cache_GetAllCoins c)) /\
  (forall o keep, lookup_ok o ->
     exists v' c' w' u, SpendCoin v o keep = Ok (v', u) /\ siblings v' c' w' /\ spent (Cache_GetAllCoins c) o u (Cache_GetAllCoins c')) /\
  (exists v' c' w', Flush bucket_order v = Ok (v', true) /\ siblings v' c' w' /\ Cache_GetAllCoins c' = Cache_GetAllCoins c /\
     view_GetAllCoins (base c') = Cache_GetAllCoins c /\ tracks (view_GetAllCoins (base c')) (view_GetAllCoins (base w'))).
Proof.
  intros Ord S. split_and!.
  - intros o coin ow. by apply (AddCoin_siblings v c w).
  - intros o keep. by apply (SpendCoin_siblings v c w).
  - by apply (Flush_siblings bucket_order v c w).
Qed.

(** Writing a coin with its undo hash and reading it back gives the coin, with the
    height, the position and both marks exact, and leaves the rest of the stream. *)
Theorem coin_record_roundtrip c h : record_ok c -> length h = 32%nat ->
  exists bs, CoinUndo_Serialize (mkUndo c h) = Some bs /\ forall s, CoinUndo_Unserialize (bs ++ s) = Some (mkUndo (canon_coin c) h, s).
Proof.
  intros R Hh. destruct (coin_roundtrip c R) as (bs & E & U). unfold CoinUndo_Serialize, CoinUndo_Unserialize. cbn [undo_coin prevhash]. rewrite E.
  eexists. split; [done|]. intros s. rewrite <- app_assoc. unfold rd_bind. rewrite U. by rewrite rd_bytes_app.
Qed.

(** [CCoinsViewDB::HaveCoin] always fails an assertion: it asks for the record of the other kind of outpoint. *)
Theorem database_HaveCoin_aborts d o : DB_HaveCoin d o = Err assertion.
Proof. unfold DB_HaveCoin, CoinEntryRef, CoinEntry. by destruct (isHash o). Qed.

(** ** Witnesses *)

Module Sample.
(** Hashes whose first bytes are the position. *)
#[export] Instance placement : Placement.
Proof.
  refine {| place k := mkOutPoint (op_hash k) false (op_n k) |}.
  intros [h1 b1 n1] [h2 b2 n2] [E1 _] [E2 _] [= -> ->]. cbn in *. by subst.
Defined.
#[export] Instance memory : MemoryUsage := fun c => if Coin_IsSpent c then 0 else 32.
Definition order (m : CCoinsMap) : list (COutPoint * CCoinsCacheEntry) := map_to_list m.
Definition txid (height index : Z) : list Z := op_hash (COutPoint_ofPosition height index 0).
Definition key (height index n : Z) : COutPoint := COutPoint_ofHash (txid height index) n.
Definition coin (height index value : Z) : Coin := mkCoin (mkTxOut value 0 (StandardKeyHashOutput (repeat 1 20))) false true height index.
Definition db : CCoinsViewDB := mkDB {[ (txid 10 3, 0) := coin 10 3 500 ]} {[ (10, 3, 0) := txid 10 3 ]} None.

Lemma order_ok : iterates order.
Proof. intros m. done. Qed.

Lemma coin_placed value : placed (key 10 3 0) (coin 10 3 value).
Proof. split_and!; [done|done..|reflexivity]. Qed.

Lemma db_fine : db_ok db.
Proof.
  split; cbn.
  - intros h n c E. apply lookup_singleton_Some in E as [[= <- <-] <-]. split; [apply coin_placed|done].
  - intros a b n h E. apply lookup_singleton_Some in E as [[= <- <- <-] <-]. exists (coin 10 3 500). by rewrite lookup_singleton_eq.
  - intros h n c E. apply lookup_singleton_Some in E as [[= <- <-] <-]. by rewrite lookup_singleton_eq.
Qed.

Lemma lookup_key : lookup_ok (key 10 3 0).
Proof. done. Qed.

Definition by_position : COutPoint := COutPoint_ofPosition 10 3 0.
Lemma lookup_position : lookup_ok by_position.
Proof. split; [done|]. intros _. split; [apply ofPosition_ok|done]. Qed.

Lemma readd_legal m : legal m (OpAdd (key 10 3 0) (coin 10 3 700) true).
Proof. split; [apply coin_placed|done]. Qed.

Definition cache : CCoinsViewCache CCoinsViewDB := CCoinsViewCache_new db.
Definition empty_db : CCoinsViewDB := mkDB ∅ ∅ None.
Lemma cache_fine : cache_ok cache /\ Cache_GetAllCoins cache = DB_GetAllCoins db.
Proof. assert (D : view_ok db) by exact db_fine. apply (new_cache_ok db D). Qed.
Lemma empty_fine : cache_ok (CCoinsViewCache_new empty_db) /\ Cache_GetAllCoins (CCoinsViewCache_new empty_db) = ∅.
Proof.
  assert (D : db_ok empty_db) by (split; cbn; intros *; by rewrite lookup_empty).
  assert (Dv : view_ok empty_db) by exact D. destruct (new_cache_ok empty_db Dv) as [C E]. split; [done|]. rewrite E. reflexivity.
Qed.

(** The cache with a sibling over an empty database: it has no witness output. *)
Definition views : ChainedView CCoinsViewDB CCoinsViewDB := mkChained cache (Some (CCoinsViewCache_new empty_db)).
Lemma views_fine : siblings views cache (CCoinsViewCache_new empty_db).
Proof.
  destruct cache_fine as [C E]. destruct empty_fine as [Cw Ew]. split_and!; [done..|]. intros k. rewrite E, Ew, lookup_empty.
  change (DB_GetAllCoins db) with (view_GetAllCoins db). rewrite db_all_lookup. destruct (isHash k); [|done].
  destruct (db_coins db !! _) as [c|] eqn:Ec; [|done]. unfold db in Ec. cbn [db_coins] in Ec.
  apply lookup_singleton_Some in Ec as [_ <-]. done.
Qed.

(** Another transaction's output at the same position, after a reorganisation. *)
Definition rival : COutPoint := COutPoint_ofHash (repeat 7 32) 0.
Definition replaced : list coin_op := [OpSpend (key 10 3 0) false; OpAdd rival (coin 10 3 900) false; OpSpend rival false].
(** The database record of the first output after the operations. *)
Definition record_after (ops : list coin_op) : option (option Coin) :=
  match run_ops order cache ops with Ok (c, _) => Some (db_coins (base c) !! (txid 10 3, 0)) | Err _ => None end.
End Sample.
#[local] Existing Instances Sample.placement Sample.memory.

(** Looking up a position can bring a spent output back: when the output that a
    reorganisation put at the position is created and spent within the cache, the
    position is forgotten, and the next lookup of it reads the old output from below and
    marks its spent entry as unchanged, so that the flush does not erase its record. *)
Theorem position_lookup_resurrects_output :
  Sample.record_after (Sample.replaced ++ [OpFlush]) = Some None /\
  Sample.record_after (Sample.replaced ++ [OpHave Sample.by_position; OpFlush]) = Some (Some (Sample.coin 10 3 500)).
Proof. split; vm_compute; reflexivity. Qed.

Lemma coins_cache_refines_map_witness : exists c' outs,
  run_ops Sample.order Sample.cache [OpSpend (Sample.key 10 3 0) false; OpAdd (Sample.key 10 3 0) (Sample.coin 10 3 700) true;
    OpAccess Sample.by_position; OpFlush] = Ok (c', outs) /\ cache_ok c'.
Proof.
  destruct Sample.cache_fine as [C E].
  destruct (coins_cache_refines_map Sample.order Sample.cache [OpSpend (Sample.key 10 3 0) false; OpAdd (Sample.key 10 3 0) (Sample.coin 10 3 700) true;
    OpAccess Sample.by_position; OpFlush] Sample.order_ok C) as (c' & outs & R & C' & _); [|exists c', outs; split; [exact R|exact C']].
  cbn [legal_run]. split; [exact Sample.lookup_key|]. intros _ m _. split; [apply Sample.readd_legal|]. intros _ m' _.
  split; [exact Sample.lookup_position|]. intros _ m2 _. by split.
Defined.

Lemma flushed_stack_is_durable_witness : exists c1 outs,
  run_ops Sample.order (CCoinsViewCache_new (CCoinsViewCache_new Sample.db)) [OpSpend Sample.by_position false] = Ok (c1, outs).
Proof.
  destruct (flushed_stack_is_durable Sample.order Sample.db _ [OpSpend Sample.by_position false] Sample.order_ok Sample.db_fine eq_refl)
    as (c1 & outs & _ & _ & _ & E & _); [|exists c1, outs; exact E].
  split; [exact Sample.lookup_position|done].
Defined.

Lemma sibling_tracks_witness_outputs_witness : exists v' u, SpendCoin Sample.views Sample.by_position false = Ok (v', u).
Proof.
  destruct (sibling_tracks_witness_outputs Sample.order Sample.views _ _ Sample.order_ok Sample.views_fine) as (_ & S & _).
  destruct (S Sample.by_position false Sample.lookup_position) as (v' & _ & _ & u & R & _). exists v', u. exact R.
Defined.

Lemma coin_record_roundtrip_witness : exists bs, CoinUndo_Serialize (mkUndo (Sample.coin 10 3 500) (repeat 9 32)) = Some bs /\
  CoinUndo_Unserialize bs = Some (mkUndo (canon_coin (Sample.coin 10 3 500)) (repeat 9 32), []).
Proof.
  destruct (coin_record_roundtrip (Sample.coin 10 3 500) (repeat 9 32)) as (bs & E & R).
  - split_and!; done.
  - reflexivity.
  - exists bs. split; [exact E|]. rewrite <- (R []), app_nil_r. reflexivity.
Defined.
