(* ===== verification/CoinsBlock.v ===== *)
(** * CoinsBlock: a block's effect on the coins, in [src/src/validation/validation.cpp]

    [UpdateCoins] for each transaction of a block, with the undo data it collects, and
    [DisconnectBlock], which takes the block back. The hashes of the transactions are
    arguments; the undo data, which the source reads from disk, is one too. *)

From stdpp Require Import gmap.
From S2P Require Import Prelude ArithUint256 Serialize Compressor Transaction WitnessUtil TxCheck Coins CoinsRefine CoinsSpec.

(** ** Definitions *)

Inductive DisconnectResult := DISCONNECT_OK | DISCONNECT_UNCLEAN | DISCONNECT_FAILED.

Abbreviation CTxUndo := (list CoinUndo).

Section Block.
Context {V W : Type} `{CoinsView V} `{CoinsView W} `{MemoryUsage}.
Abbreviation Views := (ChainedView V W).

(** A read through the view leaves the sibling alone. *)
Definition reading {A} (v : Views) (f : CCoinsViewCache V -> res coins_error (CCoinsViewCache V * A)) : res coins_error (Views * A) :=
  let! (c, a) := f (view v) in Ok (mkChained c (pChainedWitView v), a).

(** *** Connecting *)

Fixpoint spend_inputs (v : Views) (ins : list CTxIn) : res coins_error (Views * CTxUndo) :=
  match ins with
  | [] => Ok (v, [])
  | i :: ins' =>
      if COutPoint_IsNull (prevout i) then spend_inputs v ins'
      else
        let! (v, u) := SpendCoin v (prevout i) false in
        let! (v, us) := spend_inputs v ins' in
        Ok (v, match u with Some u => u | None => CoinUndo_default end :: us)
  end.
Definition spends_inputs (tx : CTransaction) : bool := negb (IsCoinBase tx) || IsPoW2WitnessCoinBase tx.
Definition UpdateCoins (v : Views) (txid : list Z) (tx : CTransaction) (nHeight nTxIndex : Z) : res coins_error (Views * CTxUndo) :=
  let! (v, txundo) := if spends_inputs tx then spend_inputs v (vin tx) else Ok (v, []) in
  let! v := AddCoins v txid tx nHeight nTxIndex in
  Ok (v, txundo).

(** The coins in the loop of [ConnectBlock] over the transactions; the undo data of the first is dropped. *)
Fixpoint connect_coins (v : Views) (vtx : list (list Z * CTransaction)) (nHeight txIndex : Z) : res coins_error (Views * list CTxUndo) :=
  match vtx with
  | [] => Ok (v, [])
  | (txid, tx) :: vtx' =>
      let! (v, txundo) := UpdateCoins v txid tx nHeight txIndex in
      let! (v, undos) := connect_coins v vtx' nHeight (txIndex + 1) in
      Ok (v, if txIndex >? 0 then txundo :: undos else undos)
  end.

(** *** Disconnecting *)

(** The height and the mark of an old record without them; [None]: no output to take them from. *)
Definition undo_metadata (v : Views) (out : COutPoint) (coin : Coin) : res coins_error (Views * option Coin) :=
  if coin_nHeight coin =? 0 then
    let! (v, alternate) := reading v (fun c => AccessByTxid c (op_hash out)) in
    Ok (v, if Coin_IsSpent alternate then None
           else Some (mkCoin (coin_out coin) (fCoinBase alternate) (fSegSig coin) (coin_nHeight alternate) (nTxIndex coin)))
  else Ok (v, Some coin).
Definition ApplyTxInUndo (v : Views) (undo : CoinUndo) (out : COutPoint) : res coins_error (Views * DisconnectResult) :=
  let out := if isHash out then out else setHash out (prevhash undo) in
  let! (v, have) := reading v (fun c => Cache_HaveCoin c out) in
  let! (v, coin) := undo_metadata v out (undo_coin undo) in
  match coin with
  | None => Ok (v, DISCONNECT_FAILED)
  | Some coin =>
      let! v := AddCoin v out coin (fCoinBase coin) in
      Ok (v, if have then DISCONNECT_UNCLEAN else DISCONNECT_OK)
  end.

(** The outputs of a transaction are taken out; the answer is whether all were there as the block has them. *)
Fixpoint undo_outputs (v : Views) (txid : list Z) (outs : list CTxOut) (o : Z) : res coins_error (Views * bool) :=
  match outs with
  | [] => Ok (v, true)
  | out :: outs' =>
      if CTxOut_IsUnspendable out then undo_outputs v txid outs' (o + 1)
      else
        let! (v, u) := SpendCoin v (COutPoint_ofHash txid o) false in
        let! (v, clean) := undo_outputs v txid outs' (o + 1) in
        Ok (v, CTxOut_eqb out (coin_out (undo_coin (match u with Some u => u | None => CoinUndo_default end))) && clean)
  end.

(** The inputs with their undo data, last input first. *)
Fixpoint undo_inputs (v : Views) (l : list (CoinUndo * COutPoint)) : res coins_error (Views * DisconnectResult) :=
  match l with
  | [] => Ok (v, DISCONNECT_OK)
  | (u, out) :: l' =>
      let! (v, r) := ApplyTxInUndo v u out in
      match r with
      | DISCONNECT_FAILED => Ok (v, DISCONNECT_FAILED)
      | _ =>
          let! (v, r') := undo_inputs v l' in
          Ok (v, match r', r with
                 | DISCONNECT_FAILED, _ => DISCONNECT_FAILED
                 | DISCONNECT_OK, DISCONNECT_OK => DISCONNECT_OK
                 | _, _ => DISCONNECT_UNCLEAN
                 end)
      end
  end.
(** What is restored; [None]: the transaction and its undo data are inconsistent. *)
Definition inputs_to_undo (tx : CTransaction) (txundo : CTxUndo) : option (list (CoinUndo * COutPoint)) :=
  if IsPoW2WitnessCoinBase tx then
    match txundo with
    | [u] => Some ((fun i => (u, prevout i)) <$> List.filter (fun i => negb (COutPoint_IsNull (prevout i))) (rev (vin tx)))
    | _ => None
    end
  else if (length txundo =? length (vin tx))%nat then Some (rev (zip txundo (prevout <$> vin tx))) else None.

(** One transaction; [txundo] is [None] for the first of the block. *)
Definition disconnect_tx (v : Views) (txid : list Z) (tx : CTransaction) (txundo : option CTxUndo) : res coins_error (Views * DisconnectResult) :=
  let! (v, clean) := undo_outputs v txid (vout tx) 0 in
  let! (v, r) := match txundo with
                 | None => Ok (v, DISCONNECT_OK)
                 | Some txundo => match inputs_to_undo tx txundo with
                                  | Some l => undo_inputs v l
                                  | None => Ok (v, DISCONNECT_FAILED)
                                  end
                 end in
  Ok (v, match r with DISCONNECT_OK => if clean then DISCONNECT_OK else DISCONNECT_UNCLEAN | _ => r end).

(** The transactions in reverse order. *)
Fixpoint disconnect_txs (v : Views) (l : list (list Z * CTransaction * option CTxUndo)) : res coins_error (Views * DisconnectResult) :=
  match l with
  | [] => Ok (v, DISCONNECT_OK)
  | (txid, tx, txundo) :: l' =>
      let! (v, r) := disconnect_tx v txid tx txundo in
      match r with
      | DISCONNECT_FAILED => Ok (v, DISCONNECT_FAILED)
      | _ =>
          let! (v, r') := disconnect_txs v l' in
          Ok (v, match r', r with
                 | DISCONNECT_FAILED, _ => DISCONNECT_FAILED
                 | DISCONNECT_OK, DISCONNECT_OK => DISCONNECT_OK
                 | _, _ => DISCONNECT_UNCLEAN
                 end)
      end
  end.

(** [blockUndo] is [None] when the undo data is not there or cannot be read. *)
Definition DisconnectBlock (v : Views) (vtx : list (list Z * CTransaction)) (blockHash prevHash : list Z) (blockUndo : option (list CTxUndo))
    : res coins_error (Views * DisconnectResult) :=
  let '(c, best) := Cache_GetBestBlock (view v) in
  let v := mkChained c (pChainedWitView v) in
  guard! bool_decide (best = blockHash) or assertion in
  match blockUndo with
  | None => Ok (v, DISCONNECT_FAILED)
  | Some vtxundo =>
      if (S (length vtxundo) =? length vtx)%nat then
        let! (v, r) := disconnect_txs v (rev (zip vtx (None :: (Some <$> vtxundo)))) in
        match r with
        | DISCONNECT_FAILED => Ok (v, r)
        | _ => Ok (mkChained (SetBestBlock (view v) prevHash) (pChainedWitView v), r)
        end
      else Ok (v, DISCONNECT_FAILED)
  end.
End Block.

(** ** Specification: the effect on the map *)

Section Effects.
Context `{Placement}.
Implicit Type m : gmap COutPoint Coin.

(** A coin that can be put back: height 0 stands for missing data in the undo format. *)
Definition restorable (c : Coin) : Prop := 0 < coin_nHeight c /\ CTxOut_IsUnspendable (coin_out c) = false.

(** Spending the inputs, with the undo data they leave. *)
Inductive spends : gmap COutPoint Coin -> list CTxIn -> CTxUndo -> gmap COutPoint Coin -> Prop :=
| spends_nil m : spends m [] [] m
| spends_null m i ins us m' : COutPoint_IsNull (prevout i) = true -> spends m ins us m' -> spends m (i :: ins) us m'
| spends_coin m i ins k c us m' : COutPoint_IsNull (prevout i) = false -> lookup_ok (prevout i) -> target (prevout i) k ->
    m !! k = Some c -> restorable c -> spends (delete k m) ins us m' -> spends m (i :: ins) (mkUndo c (op_hash k) :: us) m'.

(** Adding the outputs from the [i]th on; none of them is there before. *)
Inductive creates (txid : list Z) (nHeight nTxIndex : Z) (coinbase segsig : bool)
    : Z -> gmap COutPoint Coin -> list CTxOut -> gmap COutPoint Coin -> Prop :=
| creates_nil i m : creates txid nHeight nTxIndex coinbase segsig i m [] m
| creates_skip i m o outs m' : CTxOut_IsUnspendable o = true -> CTxOut_IsNull o = false -> placed (COutPoint_ofHash txid i) (Coin_new o nHeight nTxIndex coinbase segsig) ->
    m !! COutPoint_ofHash txid i = None ->
    creates txid nHeight nTxIndex coinbase segsig (i + 1) m outs m' -> creates txid nHeight nTxIndex coinbase segsig i m (o :: outs) m'
| creates_coin i m o outs m' : CTxOut_IsUnspendable o = false -> CTxOut_IsNull o = false -> CTxOut_eqb o o = true ->
    let k := COutPoint_ofHash txid i in let c := Coin_new o nHeight nTxIndex coinbase segsig in
    placed k c -> m !! k = None ->
    creates txid nHeight nTxIndex coinbase segsig (i + 1) (<[k := c]> m) outs m' -> creates txid nHeight nTxIndex coinbase segsig i m (o :: outs) m'.

Definition segsig_tx (tx : CTransaction) : bool := negb (IsOldTransactionVersion (nVersion tx)).
Definition applies m (txid : list Z) (tx : CTransaction) (nHeight nTxIndex : Z) (us : CTxUndo) m' : Prop :=
  exists m1, (if spends_inputs tx then spends m (vin tx) us m1 else us = [] /\ m1 = m) /\
    creates txid nHeight nTxIndex (IsCoinBase tx) (segsig_tx tx) 0 m1 (vout tx) m'.

(** The transactions one after the other, each with its undo data. *)
Inductive block_applies (nHeight : Z) : Z -> gmap COutPoint Coin -> list (list Z * CTransaction) -> list CTxUndo -> gmap COutPoint Coin -> Prop :=
| block_nil i m : block_applies nHeight i m [] [] m
| block_cons i m txid tx us m1 vtx undos m2 : applies m txid tx nHeight i us m1 -> block_applies nHeight (i + 1) m1 vtx undos m2 ->
    block_applies nHeight i m ((txid, tx) :: vtx) (us :: undos) m2.

(** The inputs of a transaction after the first of a block: a witness coinbase spends one
    coin after a null input, another transaction has no null input. *)
Definition inputs_shaped (tx : CTransaction) : Prop :=
  if IsPoW2WitnessCoinBase tx then exists i0 i1, vin tx = [i0; i1] /\ COutPoint_IsNull (prevout i0) = true /\ COutPoint_IsNull (prevout i1) = false
  else IsCoinBase tx = false /\ Forall (fun i => COutPoint_IsNull (prevout i) = false) (vin tx).
(** The first transaction is a coinbase, which spends nothing. *)
Definition block_shaped (vtx : list (list Z * CTransaction)) : Prop :=
  match vtx with
  | [] => False
  | (_, tx) :: vtx' => spends_inputs tx = false /\ Forall (fun x => inputs_shaped (snd x)) vtx'
  end.
End Effects.

(** ** Lemmas *)

Section BlockLemmas.
Context `{Placement} {V W : Type} `{CoinsView V} `{!CoinsViewLaws V} `{CoinsView W} `{!CoinsViewLaws W} `{MemoryUsage}.
Abbreviation Views := (ChainedView V W).

(** The view with its sibling, and the map it stands for. *)
Definition stands_for (v : Views) (m : gmap COutPoint Coin) : Prop := exists c w, siblings v c w /\ Cache_GetAllCoins c = m.

Lemma SpendCoin_here v m o keep : stands_for v m -> lookup_ok o ->
  exists v' m' u, SpendCoin v o keep = Ok (v', u) /\ stands_for v' m' /\ spent m o u m'.
Proof.
  intros (c & w & S & <-) Ho. destruct (SpendCoin_siblings v c w o keep S Ho) as (v' & c' & w' & u & E & S' & Sp).
  exists v', (Cache_GetAllCoins c'), u. split; [done|]. split; [by exists c', w'|done].
Qed.

Lemma SpendCoin_coin v m o keep k coin : stands_for v m -> lookup_ok o -> target o k -> m !! k = Some coin ->
  exists v', SpendCoin v o keep = Ok (v', Some (mkUndo coin (op_hash k))) /\ stands_for v' (delete k m).
Proof.
  intros S Ho T E. destruct (SpendCoin_here v m o keep S Ho) as (v' & m' & u & Es & S' & [(k' & c' & T' & E' & -> & ->)|(N & _)]).
  - rewrite (target_eq _ _ _ T' T) in *. rewrite E in E'. injection E' as <-. by exists v'.
  - by rewrite (N k T) in E.
Qed.

Lemma AddCoin_here v m k coin ow : stands_for v m -> placed k coin -> Coin_IsSpent coin = false -> m !! k = None ->
  exists v', AddCoin v k coin ow = Ok v' /\ stands_for v' (if CTxOut_IsUnspendable (coin_out coin) then m else <[k := coin]> m).
Proof.
  intros (c & w & S & <-) P Sp F.
  destruct (AddCoin_siblings v c w k coin ow S) as (v' & c' & w' & E & S' & A).
  - split; [done|]. by split.
  - intros c0 E. by rewrite F in E.
  - exists v'. split; [done|]. by exists c', w'.
Qed.

Lemma HaveCoin_here v m k : stands_for v m -> key_ok k -> m !! k = None ->
  exists v', reading v (fun c => Cache_HaveCoin c k) = Ok (v', false) /\ stands_for v' m.
Proof.
  intros (c & w & (-> & C & Cw & T) & <-) K N. unfold reading. cbn [view pChainedWitView].
  assert (Lk : lookup_ok k) by (split; [apply K|by rewrite (proj1 K)]).
  destruct (HaveCoin_spec c k C Lk) as (c' & b & -> & C' & E & oc & S & ->). cbn [res_bind].
  assert (Tk : target k k) by (split; [done|by rewrite (proj1 K)]). destruct oc as [x|]; cbn in S.
  - destruct S as (k' & T' & E'). rewrite (target_eq _ _ _ T' Tk) in E'. congruence.
  - eexists. split; [done|]. exists c', w. split; [split_and!; try done; by rewrite E|done].
Qed.

(** *** Connecting *)

Lemma spend_inputs_spec m ins us m' : spends m ins us m' -> forall v, stands_for v m ->
  exists v', spend_inputs v ins = Ok (v', us) /\ stands_for v' m'.
Proof.
  induction 1 as [m|m i ins us m' N _ IH|m i ins k c us m' N Ho T E R _ IH]; intros v S; cbn [spend_inputs].
  - by exists v.
  - rewrite N. by apply IH.
  - rewrite N. destruct (SpendCoin_coin v m (prevout i) false k c S Ho T E) as (v1 & -> & S1). cbn [res_bind].
    destruct (IH v1 S1) as (v2 & -> & S2). cbn [res_bind]. by exists v2.
Qed.

Lemma add_outputs_spec txid h x cb ss i m outs m' : creates txid h x cb ss i m outs m' -> forall v, stands_for v m ->
  exists v', add_outputs v txid outs i h x cb ss = Ok v' /\ stands_for v' m'.
Proof.
  induction 1 as [i m|i m o outs m' U N P F _ IH|i m o outs m' U N Q k c P F _ IH]; intros v S; cbn [add_outputs].
  - by exists v.
  - destruct (AddCoin_here v m _ _ cb S P N F) as (v1 & -> & S1). cbn [res_bind Coin_new coin_out] in S1 |- *.
    rewrite U in S1. by apply IH.
  - destruct (AddCoin_here v m k c cb S P N F) as (v1 & E & S1). unfold k, c in E. rewrite E. cbn [res_bind].
    unfold c in S1 at 1. cbn [Coin_new coin_out] in S1. rewrite U in S1. by apply IH.
Qed.

Lemma UpdateCoins_spec v m txid tx h x us m' : applies m txid tx h x us m' -> stands_for v m ->
  exists v', UpdateCoins v txid tx h x = Ok (v', us) /\ stands_for v' m'.
Proof.
  intros (m1 & Sp & Cr) S. unfold UpdateCoins, AddCoins.
  assert (X : exists v1, (if spends_inputs tx then spend_inputs v (vin tx) else Ok (v, [])) = Ok (v1, us) /\ stands_for v1 m1).
  { destruct (spends_inputs tx); [by apply (spend_inputs_spec m)|]. destruct Sp as [-> ->]. by exists v. }
  destruct X as (v1 & -> & S1). cbn [res_bind]. destruct (add_outputs_spec _ _ _ _ _ _ _ _ _ Cr v1 S1) as (v2 & E & S2).
  unfold segsig_tx in E. rewrite E. by exists v2.
Qed.

Lemma connect_coins_spec h i m vtx undos m' : block_applies h i m vtx undos m' -> 0 <= i -> forall v, stands_for v m ->
  exists v', connect_coins v vtx h i = Ok (v', if i >? 0 then undos else tail undos) /\ stands_for v' m'.
Proof.
  induction 1 as [i m|i m txid tx us m1 vtx undos m2 A _ IH]; intros Hi v S; cbn [connect_coins].
  - exists v. by destruct (i >? 0).
  - destruct (UpdateCoins_spec v m txid tx h i us m1 A S) as (v1 & -> & S1). cbn [res_bind].
    destruct (IH ltac:(lia) v1 S1) as (v2 & -> & S2). cbn [res_bind]. exists v2.
    destruct (i + 1 >? 0) eqn:E; zbool; [|lia]. by destruct (i >? 0).
Qed.

(** *** Disconnecting *)

Definition map_ok (m : gmap COutPoint Coin) : Prop := forall k c, m !! k = Some c -> placed k c /\ Coin_IsSpent c = false.

Lemma stands_for_ok v m : stands_for v m -> map_ok m.
Proof. intros (c & w & (_ & C & _) & <-) k coin. by apply cache_all_placed. Qed.
Lemma spends_ok m ins us m' : spends m ins us m' -> map_ok m -> map_ok m'.
Proof. induction 1 as [| |m i ins k c us m' N Ho T E R _ IH]; auto. intros O. apply IH. intros k' c' E'. apply lookup_delete_Some in E' as [_ E']. auto. Qed.
Lemma creates_ok txid h x cb ss i m outs m' : creates txid h x cb ss i m outs m' -> map_ok m -> map_ok m'.
Proof.
  induction 1 as [i m|i m o outs m' U N P F _ IH|i m o outs m' U N Q k c P F _ IH]; auto. intros O. apply IH. intros k' c' E'.
  apply lookup_insert_Some in E' as [[<- <-]|[_ E']]; auto.
Qed.
Lemma applies_ok m txid tx h x us m' : applies m txid tx h x us m' -> map_ok m -> map_ok m'.
Proof.
  intros (m1 & Sp & Cr) O. apply (creates_ok _ _ _ _ _ _ _ _ _ Cr). destruct (spends_inputs tx); [by apply (spends_ok _ _ _ _ Sp)|].
  by destruct Sp as [_ ->].
Qed.

(** An output that is there already is independent of the outputs that are added. *)
Lemma creates_delete txid h x cb ss i m outs m' k coin : creates txid h x cb ss i m outs m' -> m !! k = Some coin ->
  creates txid h x cb ss i (delete k m) outs (delete k m') /\ m' !! k = Some coin.
Proof.
  intros C. induction C as [i m|i m o outs m' U N P F _ IH|i m o outs m' U N Q k2 c P F _ IH]; intros E.
  - split; [constructor|done].
  - destruct (IH E) as [IH1 IH2]. split; [|done]. apply creates_skip; try done. by rewrite lookup_delete_None; right.
  - assert (Hne : k <> k2) by congruence. destruct (IH ltac:(by rewrite lookup_insert_ne)) as [IH1 IH2]. split; [|done].
    apply creates_coin; try done; [by rewrite lookup_delete_None; right|]. by rewrite <- delete_insert_ne.
Qed.

Lemma key_lookup k : key_ok k -> lookup_ok k /\ target k k.
Proof. intros [K1 K2]. split; [split; [done|by rewrite K1]|]. split; [done|by rewrite K1]. Qed.

Lemma undo_outputs_spec txid h x cb ss i m outs m' : creates txid h x cb ss i m outs m' -> forall v, stands_for v m' ->
  exists v', undo_outputs v txid outs i = Ok (v', true) /\ stands_for v' m.
Proof.
  revert i m m'. induction outs as [|o outs IH]; intros i m m' C v S; cbn [undo_outputs].
  - inversion C; subst. by exists v.
  - inversion C as [|? ? ? ? ? U N P F C'|? ? ? ? ? U N Q k c P F C']; subst; rewrite U.
    + by apply (IH (i + 1) m m' C').
    + destruct (creates_delete _ _ _ _ _ _ _ _ _ k c C' (lookup_insert_eq _ _ _)) as [C2 E].
      rewrite (delete_insert_id m k c F) in C2. destruct (key_lookup k (proj1 P)) as [Lk T].
      destruct (SpendCoin_coin v m' k false k c S Lk T E) as (v1 & E1 & S1). unfold k at 1 in E1. rewrite E1. cbn [res_bind].
      destruct (IH (i + 1) m (delete k m') C2 v1 S1) as (v2 & -> & S2). cbn [res_bind undo_coin]. exists v2.
      unfold c at 1. cbn [Coin_new coin_out]. by rewrite Q.
Qed.

Lemma ApplyTxInUndo_spec v m out k c : stands_for v m -> m !! k = None -> placed k c -> Coin_IsSpent c = false -> restorable c ->
  lookup_ok out -> target out k ->
  exists v', ApplyTxInUndo v (mkUndo c (op_hash k)) out = Ok (v', DISCONNECT_OK) /\ stands_for v' (<[k := c]> m).
Proof.
  intros S F P Sp [Rh Ru] Ho [K T]. unfold ApplyTxInUndo. cbn [prevhash undo_coin].
  assert (E : (if isHash out then out else setHash out (op_hash k)) = k).
  { destruct (isHash out) eqn:Eh; [done|]. destruct (proj2 Ho Eh) as [Ho' _]. rewrite (proj2 (proj2 P)) in T.
    apply position_key in T as (_ & _ & E); [|apply P|apply K|done|done]. unfold setHash. rewrite E. by destruct k, K; cbn in *; subst. }
  rewrite E. destruct (HaveCoin_here v m k S K F) as (v1 & -> & S1). cbn [res_bind].
  unfold undo_metadata. rewrite (proj2 (Z.eqb_neq _ _)) by lia. cbn [res_bind].
  destruct (AddCoin_here v1 m k c (fCoinBase c) S1 P Sp F) as (v2 & -> & S2). rewrite Ru in S2. cbn [res_bind]. by exists v2.
Qed.

Lemma undo_inputs_app l1 : forall (v : Views) l2 v1 v2, undo_inputs v l1 = Ok (v1, DISCONNECT_OK) -> undo_inputs v1 l2 = Ok (v2, DISCONNECT_OK) ->
  undo_inputs v (l1 ++ l2) = Ok (v2, DISCONNECT_OK).
Proof.
  induction l1 as [|[u o] l1 IH]; intros v l2 v1 v2 E1 E2; cbn [undo_inputs app] in *; [by injection E1 as ->|].
  destruct (ApplyTxInUndo v u o) as [[v' r]|e]; cbn [res_bind] in *; [|done]. destruct r; [..|done].
  - destruct (undo_inputs v' l1) as [[v'' r']|e] eqn:E; cbn [res_bind] in *; [|done]. destruct r'; try done. injection E1 as ->.
    by rewrite (IH v' l2 v1 v2 E E2).
  - destruct (undo_inputs v' l1) as [[v'' r']|e] eqn:E; cbn [res_bind] in *; [|done]. by destruct r'.
Qed.

Lemma undo_inputs_one (v : Views) u o v' : ApplyTxInUndo v u o = Ok (v', DISCONNECT_OK) -> undo_inputs v [(u, o)] = Ok (v', DISCONNECT_OK).
Proof. intros E. cbn [undo_inputs]. by rewrite E. Qed.

Lemma undo_inputs_spec m ins us m' : spends m ins us m' -> map_ok m -> Forall (fun i => COutPoint_IsNull (prevout i) = false) ins ->
  length us = length ins /\
  forall v, stands_for v m' -> exists v', undo_inputs v (rev (zip us (prevout <$> ins))) = Ok (v', DISCONNECT_OK) /\ stands_for v' m.
Proof.
  induction 1 as [m|m i ins us m' N _ IH|m i ins k c us m' N Ho T E R Sp IH]; intros O FN.
  - split; [done|]. intros v S. by exists v.
  - apply Forall_inv in FN. congruence.
  - destruct (O k c E) as [P U]. destruct IH as [IH1 IH2].
    { intros k' c' E'. apply lookup_delete_Some in E' as [_ E']. auto. }
    { by apply Forall_inv_tail in FN. }
    split; [cbn; by rewrite IH1|]. intros v S. destruct (IH2 v S) as (v1 & E1 & S1).
    destruct (ApplyTxInUndo_spec v1 (delete k m) (prevout i) k c S1 (lookup_delete_eq _ _) P U R Ho T) as (v2 & E2 & S2).
    exists v2. split; [|by rewrite insert_delete_id in S2]. cbn. apply (undo_inputs_app _ v _ v1 v2 E1). by apply undo_inputs_one.
Qed.

Lemma inputs_to_undo_spec m tx us m' : spends m (vin tx) us m' -> map_ok m -> inputs_shaped tx ->
  exists l, inputs_to_undo tx us = Some l /\
    forall v, stands_for v m' -> exists v', undo_inputs v l = Ok (v', DISCONNECT_OK) /\ stands_for v' m.
Proof.
  intros Sp O Sh. unfold inputs_to_undo, inputs_shaped in *. destruct (IsPoW2WitnessCoinBase tx).
  - destruct Sh as (i0 & i1 & E & N0 & N1). rewrite E in *. inversion Sp as [|? ? ? ? ? _ Sp1|]; subst; [|congruence].
    assert (FN : Forall (fun i => COutPoint_IsNull (prevout i) = false) [i1]) by by constructor.
    destruct (undo_inputs_spec m [i1] us m' Sp1 O FN) as [Hl R]. destruct us as [|u [|]]; [done| |done]. eexists. split; [done|].
    intros v S. destruct (R v S) as (v' & E' & S'). exists v'. split; [|done]. cbn. by rewrite N0, N1.
  - destruct Sh as [_ FN]. destruct (undo_inputs_spec m (vin tx) us m' Sp O FN) as [Hl R].
    rewrite (proj2 (Nat.eqb_eq _ _) Hl). by eexists.
Qed.

Lemma shaped_spends tx : inputs_shaped tx -> spends_inputs tx = true.
Proof. unfold inputs_shaped, spends_inputs. destruct (IsPoW2WitnessCoinBase tx); [by rewrite orb_true_r|]. by intros [-> _]. Qed.

Lemma disconnect_tx_spec m txid tx h x us m' : applies m txid tx h x us m' -> map_ok m -> inputs_shaped tx -> forall v, stands_for v m' ->
  exists v', disconnect_tx v txid tx (Some us) = Ok (v', DISCONNECT_OK) /\ stands_for v' m.
Proof.
  intros (m1 & Sp & Cr) O Sh v S. rewrite (shaped_spends tx Sh) in Sp. unfold disconnect_tx.
  destruct (undo_outputs_spec _ _ _ _ _ _ _ _ _ Cr v S) as (v1 & -> & S1). cbn [res_bind].
  destruct (inputs_to_undo_spec m tx us m1 Sp O Sh) as (l & -> & R). destruct (R v1 S1) as (v2 & -> & S2). by exists v2.
Qed.

Lemma disconnect_first_spec m txid tx h x us m' : applies m txid tx h x us m' -> spends_inputs tx = false -> forall v, stands_for v m' ->
  exists v', disconnect_tx v txid tx None = Ok (v', DISCONNECT_OK) /\ stands_for v' m.
Proof.
  intros (m1 & Sp & Cr) Sh v S. rewrite Sh in Sp. destruct Sp as [_ ->]. unfold disconnect_tx.
  destruct (undo_outputs_spec _ _ _ _ _ _ _ _ _ Cr v S) as (v1 & -> & S1). by exists v1.
Qed.

Lemma disconnect_txs_app l1 : forall (v : Views) l2 v1 v2, disconnect_txs v l1 = Ok (v1, DISCONNECT_OK) -> disconnect_txs v1 l2 = Ok (v2, DISCONNECT_OK) ->
  disconnect_txs v (l1 ++ l2) = Ok (v2, DISCONNECT_OK).
Proof.
  induction l1 as [|[[txid tx] u] l1 IH]; intros v l2 v1 v2 E1 E2; cbn [disconnect_txs app] in *; [by injection E1 as ->|].
  destruct (disconnect_tx v txid tx u) as [[v' r]|e]; cbn [res_bind] in *; [|done]. destruct r; [..|done].
  - destruct (disconnect_txs v' l1) as [[v'' r']|e] eqn:E; cbn [res_bind] in *; [|done]. destruct r'; try done. injection E1 as ->.
    by rewrite (IH v' l2 v1 v2 E E2).
  - destruct (disconnect_txs v' l1) as [[v'' r']|e] eqn:E; cbn [res_bind] in *; [|done]. by destruct r'.
Qed.

Lemma disconnect_txs_one (v : Views) txid tx u v' : disconnect_tx v txid tx u = Ok (v', DISCONNECT_OK) ->
  disconnect_txs v [(txid, tx, u)] = Ok (v', DISCONNECT_OK).
Proof. intros E. cbn [disconnect_txs]. by rewrite E. Qed.

Lemma disconnect_txs_spec h i m vtx undos m' : block_applies h i m vtx undos m' -> map_ok m -> Forall (fun x => inputs_shaped (snd x)) vtx ->
  length undos = length vtx /\ forall v, stands_for v m' -> exists v', disconnect_txs v (rev (zip vtx (Some <$> undos))) = Ok (v', DISCONNECT_OK) /\ stands_for v' m.
Proof.
  induction 1 as [i m|i m txid tx us m1 vtx undos m2 A _ IH]; intros O FN.
  - split; [done|]. intros v S. by exists v.
  - destruct (IH (applies_ok _ _ _ _ _ _ _ A O) (Forall_inv_tail FN)) as [IH1 IH2]. split; [cbn; by rewrite IH1|]. intros v S.
    destruct (IH2 v S) as (v1 & E1 & S1). destruct (disconnect_tx_spec _ _ _ _ _ _ _ A O (Forall_inv FN) v1 S1) as (v2 & E2 & S2).
    exists v2. split; [|done]. cbn. apply (disconnect_txs_app _ v _ v1 v2 E1). by apply disconnect_txs_one.
Qed.

Lemma SetBestBlock_here c sib m h : stands_for (mkChained c sib) m -> stands_for (mkChained (SetBestBlock c h) sib) m.
Proof.
  intros (c0 & w & ([= <- ->] & C & Cw & T) & <-). exists (SetBestBlock c h), w. split; [|done]. split_and!; try done.
  destruct C as [C1 C2 C3]. by split.
Qed.

Lemma GetBestBlock_set (c : CCoinsViewCache V) h : blob_IsNull h = false -> Cache_GetBestBlock (SetBestBlock c h) = (SetBestBlock c h, h).
Proof. intros N. unfold Cache_GetBestBlock. cbn [SetBestBlock hashBlock]. by rewrite N. Qed.

Lemma disconnect_block_spec h m txid tx vtx undos m' blockHash prevHash : block_applies h 0 m ((txid, tx) :: vtx) undos m' -> map_ok m ->
  spends_inputs tx = false -> Forall (fun x => inputs_shaped (snd x)) vtx -> blob_IsNull blockHash = false ->
  forall v : Views, stands_for v m' -> 
  exists v', DisconnectBlock (mkChained (SetBestBlock (view v) blockHash) (pChainedWitView v)) ((txid, tx) :: vtx) blockHash prevHash (Some (tail undos))
      = Ok (v', DISCONNECT_OK) /\ stands_for v' m /\ hashBlock (view v') = prevHash.
Proof.
  intros B O Sh FN Nb v S. unfold DisconnectBlock. cbn [view pChainedWitView]. rewrite GetBestBlock_set, bool_decide_eq_true_2 by done.
  inversion B as [|? ? ? ? us m1 ? undos' ? A B']; subst. cbn [tail].
  destruct (disconnect_txs_spec _ _ _ _ _ _ B' (applies_ok _ _ _ _ _ _ _ A O) FN) as [Hl R].
  cbn [length]. rewrite Hl, Nat.eqb_refl.
  destruct (R (mkChained (SetBestBlock (view v) blockHash) (pChainedWitView v))) as (v1 & E1 & S1).
  { apply SetBestBlock_here. by destruct v. }
  destruct (disconnect_first_spec _ _ _ _ _ _ _ A Sh v1 S1) as (v2 & E2 & S2). cbn [zip zip_with rev].
  rewrite (disconnect_txs_app _ _ _ v1 v2 E1) by by apply disconnect_txs_one. cbn [res_bind].
  eexists. split; [done|]. split; [|done]. apply SetBestBlock_here. by destruct v2.
Qed.

(** *** Coins at height zero *)

Lemma AccessByTxid_none fuel txid : forall (c : CCoinsViewCache V) n, cache_ok c -> 0 <= n -> n + Z.of_nat fuel <= 2 ^ 31 ->
  (forall k, op_hash k = txid -> Cache_GetAllCoins c !! k = None) ->
  exists c', AccessByTxid_loop fuel c txid n = Ok (c', Coin_default) /\ cache_ok c' /\ Cache_GetAllCoins c' = Cache_GetAllCoins c.
Proof.
  induction fuel as [|f IH]; intros c n C Hn Hf N; cbn [AccessByTxid_loop]; [by exists c|]. destruct (n <? MAX_OUTPUTS_PER_BLOCK); [|by exists c].
  assert (K : key_ok (COutPoint_ofHash txid n)) by (split; [done|cbn; rewrite uwrap_small; lia]). destruct (key_lookup _ K) as [Lk T].
  destruct (AccessCoin_spec c _ C Lk) as (c1 & coin & -> & C1 & E1 & S). cbn [res_bind].
  assert (Sp : Coin_IsSpent coin = true).
  { destruct (Coin_IsSpent coin) eqn:E; [done|]. destruct S as (k & T' & E'). rewrite (target_eq _ _ _ T' T), N in E'; done. }
  rewrite Sp. cbn [negb]. destruct (IH c1 (n + 1) C1 ltac:(lia) ltac:(lia)) as (c2 & E2 & C2 & E2'); [by rewrite E1|].
  exists c2. split; [done|]. split; [done|]. by rewrite E2'.
Qed.
End BlockLemmas.

(** ** Properties *)

(** C21: Taking back a block restores the coins. Let the block have a hash that is not zero, start with a transaction that spends nothing,
    have no null input after it but the first of the two inputs of a witness coinbase, and let its transactions apply to the coins of
    the view one after the other: each input stands for a coin that is there and is not named twice, the outputs are
    of known types at their places in the chain and not there yet, and the spent coins can be put
    back, that is, they are not unspendable and their height is not 0, since height 0 marks missing data in
    the undo format: [height_zero_undo_fails]. Then connecting them succeeds, and [DisconnectBlock] with the undo data they left answers that the
    block was clean, and the view and its sibling of the witness outputs stand for the
    coins from before the block, also for inputs that name a position and for outputs
    that are spent within the block. *)
Theorem disconnect_restores_block `{Placement} {V W} `{CoinsView V} `{!CoinsViewLaws V} `{CoinsView W} `{!CoinsViewLaws W} `{MemoryUsage}
    (v : ChainedView V W) m vtx h undos m' blockHash prevHash :
  stands_for v m -> block_applies h 0 m vtx undos m' -> block_shaped vtx -> blob_IsNull blockHash = false ->
  exists v1 v2, connect_coins v vtx h 0 = Ok (v1, tail undos) /\ stands_for v1 m' /\
    DisconnectBlock (mkChained (SetBestBlock (view v1) blockHash) (pChainedWitView v1)) vtx blockHash prevHash (Some (tail undos)) = Ok (v2, DISCONNECT_OK) /\
    stands_for v2 m /\ hashBlock (view v2) = prevHash.
Proof.
  intros S B Sh Nb. destruct (connect_coins_spec h 0 m vtx undos m' B ltac:(lia) v S) as (v1 & E1 & S1).
  destruct vtx as [|[txid tx] vtx]; [done|]. destruct Sh as [Sh FN].
  destruct (disconnect_block_spec h m txid tx vtx undos m' blockHash prevHash B (stands_for_ok v m S) Sh FN Nb v1 S1) as (v2 & E2 & S2 & E3).
  by exists v1, v2.
Qed.

(** A coin of height 0 is taken for a record without height: when no output of its
    transaction is left, undoing its spend fails, so the block cannot be disconnected. *)
Theorem height_zero_undo_fails `{Placement} {V W} `{CoinsView V} `{!CoinsViewLaws V} `{CoinsView W} `{!CoinsViewLaws W} `{MemoryUsage}
    (v : ChainedView V W) m k c : stands_for v m -> key_ok k -> (forall k', op_hash k' = op_hash k -> m !! k' = None) -> coin_nHeight c = 0 ->
  exists v', ApplyTxInUndo v (mkUndo c (op_hash k)) k = Ok (v', DISCONNECT_FAILED) /\ stands_for v' m.
Proof.
  intros S K N Hc. unfold ApplyTxInUndo. rewrite (proj1 K). destruct (HaveCoin_here v m k S K (N k eq_refl)) as (v1 & -> & S1). cbn [res_bind].
  unfold undo_metadata. cbn [undo_coin]. rewrite Hc, Z.eqb_refl. destruct S1 as (c1 & w & (-> & C & Cw & T) & <-).
  unfold reading, AccessByTxid. cbn [view pChainedWitView].
  destruct (AccessByTxid_none (Z.to_nat MAX_OUTPUTS_PER_BLOCK) (op_hash k) c1 0 C) as (c2 & -> & C2 & E2); [lia|vm_compute; discriminate|done|].
  cbn [res_bind]. eexists. split; [done|]. exists c2, w. split; [|done]. split_and!; try done. by rewrite E2.
Qed.

(** ** Witnesses *)

Module BlockSample.
Import CoinsSpec.Sample.
#[export] Existing Instances placement memory.
Definition null_input : CTxIn := mkTxIn 0 [] COutPoint_default SEQUENCE_FINAL [].
Definition out (value : Z) : CTxOut := mkTxOut value 0 (StandardKeyHashOutput (repeat 1 20)).
Definition coinbase : CTransaction := mkTx 5 [null_input] [out 50] 0 0 0.
Definition payment : CTransaction := mkTx 5 [mkTxIn 1 [] by_position SEQUENCE_FINAL []] [out 400] 0 0 0.
Definition block : list (list Z * CTransaction) := [(txid 20 0, coinbase); (txid 20 1, payment)].
Definition before : gmap COutPoint Coin := DB_GetAllCoins db.

Lemma views_before : stands_for views before.
Proof. exists cache, (CCoinsViewCache_new empty_db). split; [exact views_fine|]. apply cache_fine. Qed.

Lemma before_lookup k : before !! k = if isHash k then db_coins db !! (op_hash k, op_n k) else None.
Proof. apply (db_all_lookup db). Qed.

Lemma before_spent : before !! key 10 3 0 = Some (coin 10 3 500).
Proof. rewrite before_lookup. vm_compute. reflexivity. Qed.
Lemma before_new index : before !! key 20 index 0 = None.
Proof.
  rewrite before_lookup. change (db_coins db) with ({[ (txid 10 3, 0) := coin 10 3 500 ]} : gmap (list Z * Z) Coin).
  apply lookup_singleton_ne. intros [= E].
Qed.
Lemma spent_target : target by_position (key 10 3 0).
Proof. split; [split; [done|by split]|]. vm_compute. reflexivity. Qed.

(** The effect: the coinbase adds its output, the payment moves an older one. *)
Definition minted : Coin := Coin_new (out 50) 20 0 true true.
Definition paid : Coin := Coin_new (out 400) 20 1 false true.
Definition middle : gmap COutPoint Coin := <[key 20 0 0 := minted]> before.
Definition after : gmap COutPoint Coin := <[key 20 1 0 := paid]> (delete (key 10 3 0) middle).

Lemma minted_placed : placed (key 20 0 0) minted.
Proof. split_and!; [done|done..|vm_compute; reflexivity]. Qed.
Lemma paid_placed : placed (key 20 1 0) paid.
Proof. split_and!; [done|done..|vm_compute; reflexivity]. Qed.

Lemma coinbase_effect : applies before (txid 20 0) coinbase 20 0 [] middle.
Proof.
  exists before. split; [done|]. apply creates_coin; [done|done|done|exact minted_placed|exact (before_new 0)|constructor].
Qed.
Lemma payment_effect : applies middle (txid 20 1) payment 20 1 [mkUndo (coin 10 3 500) (txid 10 3)] after.
Proof.
  exists (delete (key 10 3 0) middle). split.
  - apply (spends_coin middle _ [] (key 10 3 0) (coin 10 3 500) [] _); [done|exact lookup_position|exact spent_target| |done|constructor].
    unfold middle. rewrite lookup_insert_ne by done. exact before_spent.
  - apply creates_coin; [done|done|done|exact paid_placed| |constructor].
    rewrite lookup_delete_None. right. unfold middle. rewrite lookup_insert_ne by done. exact (before_new 1).
Qed.
Lemma block_effect : block_applies 20 0 before block [[]; [mkUndo (coin 10 3 500) (txid 10 3)]] after.
Proof. apply (block_cons _ _ _ _ _ _ middle); [exact coinbase_effect|]. apply (block_cons _ _ _ _ _ _ after); [exact payment_effect|constructor]. Qed.
Lemma block_fine : block_shaped block.
Proof. split; [done|]. constructor; [|constructor]. split; [done|]. by constructor. Qed.
End BlockSample.
#[local] Existing Instances CoinsSpec.Sample.placement CoinsSpec.Sample.memory.

Lemma disconnect_restores_block_witness : exists v1 v2, connect_coins CoinsSpec.Sample.views BlockSample.block 20 0 = Ok (v1, [[mkUndo (CoinsSpec.Sample.coin 10 3 500) (CoinsSpec.Sample.txid 10 3)]]) /\
  stands_for v2 BlockSample.before.
Proof.
  destruct (disconnect_restores_block CoinsSpec.Sample.views BlockSample.before BlockSample.block 20 _ _ (repeat 1 32) (repeat 2 32)
    BlockSample.views_before BlockSample.block_effect BlockSample.block_fine eq_refl) as (v1 & v2 & E & _ & _ & S & _).
  exists v1, v2. split; [exact E|exact S].
Defined.

Lemma height_zero_undo_fails_witness : exists v', ApplyTxInUndo CoinsSpec.Sample.views (mkUndo (CoinsSpec.Sample.coin 0 0 7) (repeat 9 32)) (COutPoint_ofHash (repeat 9 32) 0)
  = Ok (v', DISCONNECT_FAILED).
Proof.
  destruct (height_zero_undo_fails CoinsSpec.Sample.views BlockSample.before (COutPoint_ofHash (repeat 9 32) 0) (CoinsSpec.Sample.coin 0 0 7) BlockSample.views_before)
    as (v' & E & _); [by split| |reflexivity|exists v'; exact E].
  intros k' E. rewrite BlockSample.before_lookup, E. destruct (isHash k'); [|reflexivity]. unfold CoinsSpec.Sample.db. cbn [db_coins].
  apply lookup_singleton_ne. intros [= E'].
Defined.
