(* ===== verification/Interpreter.v ===== *)
(** * Interpreter: the script machine of [src/src/script/interpreter.cpp]

    [EvalScript] runs a script over a stack of byte vectors: the instruction
    loop with its limits, every opcode, and the checks of the encodings of keys
    and signatures. [VerifyScript] runs the two scripts of a spend and, for a
    script hash, the script it commits to. The stacks are lists with their top
    first; a position in the script is the rest of its bytes. What signs, locks
    and hashes are is given by the classes [BaseSignatureChecker] and
    [ScriptHashes]; [SigCheck] has the checker of a transaction. *)

From stdpp Require Import list.
From S2P Require Import Prelude ArithUint256 Serialize Compressor Transaction Script TxCheck.

(** ** Definitions *)

Abbreviation valtype := (list Z).

(** The opcodes of [script.h] that the other files do not name. *)
Definition OP_1NEGATE : Z := 0x4f.
Definition OP_NOP : Z := 0x61.
Definition OP_IF : Z := 0x63.
Definition OP_NOTIF : Z := 0x64.
Definition OP_ELSE : Z := 0x67.
Definition OP_ENDIF : Z := 0x68.
Definition OP_VERIFY : Z := 0x69.
Definition OP_TOALTSTACK : Z := 0x6b.
Definition OP_FROMALTSTACK : Z := 0x6c.
Definition OP_2DROP : Z := 0x6d.
Definition OP_2DUP : Z := 0x6e.
Definition OP_3DUP : Z := 0x6f.
Definition OP_2OVER : Z := 0x70.
Definition OP_2ROT : Z := 0x71.
Definition OP_2SWAP : Z := 0x72.
Definition OP_IFDUP : Z := 0x73.
Definition OP_DEPTH : Z := 0x74.
Definition OP_DROP : Z := 0x75.
Definition OP_NIP : Z := 0x77.
Definition OP_OVER : Z := 0x78.
Definition OP_PICK : Z := 0x79.
Definition OP_ROLL : Z := 0x7a.
Definition OP_ROT : Z := 0x7b.
Definition OP_SWAP : Z := 0x7c.
Definition OP_TUCK : Z := 0x7d.
Definition OP_CAT : Z := 0x7e.
Definition OP_SUBSTR : Z := 0x7f.
Definition OP_LEFT : Z := 0x80.
Definition OP_RIGHT : Z := 0x81.
Definition OP_SIZE : Z := 0x82.
Definition OP_INVERT : Z := 0x83.
Definition OP_AND : Z := 0x84.
Definition OP_OR : Z := 0x85.
Definition OP_XOR : Z := 0x86.
Definition OP_1ADD : Z := 0x8b.
Definition OP_1SUB : Z := 0x8c.
Definition OP_2MUL : Z := 0x8d.
Definition OP_2DIV : Z := 0x8e.
Definition OP_NEGATE : Z := 0x8f.
Definition OP_ABS : Z := 0x90.
Definition OP_NOT : Z := 0x91.
Definition OP_0NOTEQUAL : Z := 0x92.
Definition OP_ADD : Z := 0x93.
Definition OP_SUB : Z := 0x94.
Definition OP_MUL : Z := 0x95.
Definition OP_DIV : Z := 0x96.
Definition OP_MOD : Z := 0x97.
Definition OP_LSHIFT : Z := 0x98.
Definition OP_RSHIFT : Z := 0x99.
Definition OP_BOOLAND : Z := 0x9a.
Definition OP_BOOLOR : Z := 0x9b.
Definition OP_NUMEQUAL : Z := 0x9c.
Definition OP_NUMEQUALVERIFY : Z := 0x9d.
Definition OP_NUMNOTEQUAL : Z := 0x9e.
Definition OP_LESSTHAN : Z := 0x9f.
Definition OP_GREATERTHAN : Z := 0xa0.
Definition OP_LESSTHANOREQUAL : Z := 0xa1.
Definition OP_GREATERTHANOREQUAL : Z := 0xa2.
Definition OP_MIN : Z := 0xa3.
Definition OP_MAX : Z := 0xa4.
Definition OP_WITHIN : Z := 0xa5.
Definition OP_RIPEMD160 : Z := 0xa6.
Definition OP_SHA1 : Z := 0xa7.
Definition OP_SHA256 : Z := 0xa8.
Definition OP_HASH256 : Z := 0xaa.
Definition OP_CODESEPARATOR : Z := 0xab.
Definition OP_NOP1 : Z := 0xb0.
Definition OP_CHECKLOCKTIMEVERIFY : Z := 0xb1.
Definition OP_CHECKSEQUENCEVERIFY : Z := 0xb2.
Definition OP_NOP4 : Z := 0xb3.
Definition OP_NOP10 : Z := 0xb9.

Definition MAX_OPS_PER_SCRIPT : Z := 201.
Definition MAX_STACK_SIZE : Z := 1000.

Inductive ScriptError :=
| SCRIPT_ERR_UNKNOWN_ERROR | SCRIPT_ERR_EVAL_FALSE | SCRIPT_ERR_OP_RETURN
| SCRIPT_ERR_SCRIPT_SIZE | SCRIPT_ERR_PUSH_SIZE | SCRIPT_ERR_OP_COUNT | SCRIPT_ERR_STACK_SIZE | SCRIPT_ERR_SIG_COUNT | SCRIPT_ERR_PUBKEY_COUNT
| SCRIPT_ERR_VERIFY | SCRIPT_ERR_EQUALVERIFY | SCRIPT_ERR_CHECKMULTISIGVERIFY | SCRIPT_ERR_CHECKSIGVERIFY | SCRIPT_ERR_NUMEQUALVERIFY
| SCRIPT_ERR_BAD_OPCODE | SCRIPT_ERR_DISABLED_OPCODE | SCRIPT_ERR_INVALID_STACK_OPERATION | SCRIPT_ERR_INVALID_ALTSTACK_OPERATION
| SCRIPT_ERR_UNBALANCED_CONDITIONAL | SCRIPT_ERR_NEGATIVE_LOCKTIME | SCRIPT_ERR_UNSATISFIED_LOCKTIME
| SCRIPT_ERR_SIG_HASHTYPE | SCRIPT_ERR_SIG_DER | SCRIPT_ERR_MINIMALDATA | SCRIPT_ERR_SIG_PUSHONLY | SCRIPT_ERR_SIG_HIGH_S | SCRIPT_ERR_PUBKEYTYPE
| SCRIPT_ERR_CLEANSTACK | SCRIPT_ERR_MINIMALIF | SCRIPT_ERR_SIG_NULLFAIL | SCRIPT_ERR_DISCOURAGE_UPGRADABLE_NOPS.

(** The verification flags. *)
Definition SCRIPT_VERIFY_P2SH : Z := 1.
Definition SCRIPT_VERIFY_STRICTENC : Z := 2.
Definition SCRIPT_VERIFY_DERSIG : Z := 4.
Definition SCRIPT_VERIFY_LOW_S : Z := 8.
Definition SCRIPT_VERIFY_SIGPUSHONLY : Z := 16.
Definition SCRIPT_VERIFY_MINIMALDATA : Z := 32.
Definition SCRIPT_VERIFY_DISCOURAGE_UPGRADABLE_NOPS : Z := 64.
Definition SCRIPT_VERIFY_CLEANSTACK : Z := 128.
Definition SCRIPT_VERIFY_CHECKLOCKTIMEVERIFY : Z := 256.
Definition SCRIPT_VERIFY_CHECKSEQUENCEVERIFY : Z := 512.
Definition SCRIPT_VERIFY_MINIMALIF : Z := 1024.
Definition SCRIPT_VERIFY_NULLFAIL : Z := 2048.
Definition verify (flags flag : Z) : bool := negb (Z.land flags flag =? 0).

Definition SIGHASH_ALL : Z := 1.
Definition SIGHASH_NONE : Z := 2.
Definition SIGHASH_SINGLE : Z := 3.
Definition SIGHASH_ANYONECANPAY : Z := 0x80.

Inductive SigVersion := SIGVERSION_BASE | SIGVERSION_SEGSIG.
Inductive ScriptVersion := SCRIPT_V1 | SCRIPT_V2.

(** The virtual functions of the checker; its key identifiers are not read here. *)
Class BaseSignatureChecker := {
  CheckSig : valtype -> valtype -> list Z -> SigVersion -> bool;
  CheckLockTime : Z -> bool;
  CheckSequence : Z -> bool
}.
(** The checker of the base class. *)
Definition base_checker : BaseSignatureChecker :=
  {| CheckSig _ _ _ _ := false; CheckLockTime _ := false; CheckSequence _ := false |}.

Class ScriptHashes := {
  RIPEMD160 : list Z -> list Z;
  SHA1 : list Z -> list Z;
  SHA256 : list Z -> list Z;
  Hash160 : list Z -> list Z;
  Hash256 : list Z -> list Z
}.

(** *** Values *)

Fixpoint CastToBool (vch : valtype) : bool :=
  match vch with
  | [] => false
  | b :: vch' => if b =? 0 then CastToBool vch' else match vch' with [] => negb (b =? 0x80) | _ => true end
  end.
Definition vchFalse : valtype := [].
Definition vchTrue : valtype := [1].
Definition vchBool (b : bool) : valtype := if b then vchTrue else vchFalse.

(** *** Encodings *)

Definition IsCompressedOrUncompressedPubKey (vchPubKey : valtype) : bool :=
  if (length vchPubKey <? 33)%nat then false
  else if byte_at vchPubKey 0 =? 4 then (length vchPubKey =? 65)%nat
  else if (byte_at vchPubKey 0 =? 2) || (byte_at vchPubKey 0 =? 3) then (length vchPubKey =? 33)%nat
  else false.

Definition IsValidSignatureEncoding (sig : valtype) : bool :=
  let size := Z.of_nat (length sig) in
  let lenR := byte_at sig 3 in
  let at_ i := byte_at sig (Z.to_nat i) in
  if size <? 9 then false
  else if size >? 73 then false
  else if negb (at_ 0 =? 0x30) then false
  else if negb (at_ 1 =? size - 3) then false
  else if 5 + lenR >=? size then false
  else
    let lenS := at_ (5 + lenR) in
    if negb (lenR + lenS + 7 =? size) then false
    else if negb (at_ 2 =? 2) then false
    else if lenR =? 0 then false
    else if negb (Z.land (at_ 4) 0x80 =? 0) then false
    else if (lenR >? 1) && (at_ 4 =? 0) && (Z.land (at_ 5) 0x80 =? 0) then false
    else if negb (at_ (lenR + 4) =? 2) then false
    else if lenS =? 0 then false
    else if negb (Z.land (at_ (lenR + 6)) 0x80 =? 0) then false
    else if (lenS >? 1) && (at_ (lenR + 6) =? 0) && (Z.land (at_ (lenR + 7)) 0x80 =? 0) then false
    else true.

Definition IsDefinedHashtypeSignature (vchSig : valtype) : bool :=
  match vchSig with
  | [] => false
  | _ => let nHashType := Z.land (List.last vchSig 0) (Z.lnot SIGHASH_ANYONECANPAY) in
         (SIGHASH_ALL <=? nHashType) && (nHashType <=? SIGHASH_SINGLE)
  end.

Definition CheckMinimalPush (data : valtype) (opcode : Z) : bool :=
  let n := Z.of_nat (length data) in
  if n =? 0 then opcode =? OP_0
  else if (n =? 1) && (byte_at data 0 >=? 1) && (byte_at data 0 <=? 16) then opcode =? OP_1 + (byte_at data 0 - 1)
  else if (n =? 1) && (byte_at data 0 =? 0x81) then opcode =? OP_1NEGATE
  else if n <=? 75 then opcode =? n
  else if n <=? 255 then opcode =? OP_PUSHDATA1
  else if n <=? 65535 then opcode =? OP_PUSHDATA2
  else true.

Section Encodings.
(** [CPubKey::CheckLowS], which is in the elliptic curve library. *)
Variable CheckLowS : valtype -> bool.

Definition IsLowDERSignature (vchSig : valtype) : res ScriptError unit :=
  guard! IsValidSignatureEncoding vchSig or SCRIPT_ERR_SIG_DER in
  guard! CheckLowS (removelast vchSig) or SCRIPT_ERR_SIG_HIGH_S in Ok tt.

Definition CheckSignatureEncoding (vchSig : valtype) (flags : Z) : res ScriptError unit :=
  match vchSig with
  | [] => Ok tt
  | _ =>
      guard! negb (verify flags (Z.lor SCRIPT_VERIFY_DERSIG (Z.lor SCRIPT_VERIFY_LOW_S SCRIPT_VERIFY_STRICTENC)))
             || IsValidSignatureEncoding vchSig or SCRIPT_ERR_SIG_DER in
      let! _ := if verify flags SCRIPT_VERIFY_LOW_S then IsLowDERSignature vchSig else Ok tt in
      guard! negb (verify flags SCRIPT_VERIFY_STRICTENC) || IsDefinedHashtypeSignature vchSig or SCRIPT_ERR_SIG_HASHTYPE in Ok tt
  end.

Definition CheckPubKeyEncoding (vchPubKey : valtype) (flags : Z) : res ScriptError unit :=
  guard! negb (verify flags SCRIPT_VERIFY_STRICTENC) || IsCompressedOrUncompressedPubKey vchPubKey or SCRIPT_ERR_PUBKEYTYPE in Ok tt.
End Encodings.

(** *** The machine *)

(** [pbegincodehash] is where the signed part of the script starts; [vfExec] has a
    value for each open conditional. *)
Record machine := mkMachine {
  pc : list Z;
  pbegincodehash : list Z;
  stack : list valtype;
  altstack : list valtype;
  vfExec : list bool;
  nOpCount : Z
}.
Definition with_stack (m : machine) (s : list valtype) : machine :=
  mkMachine (pc m) (pbegincodehash m) s (altstack m) (vfExec m) (nOpCount m).
Definition with_exec (m : machine) (e : list bool) : machine :=
  mkMachine (pc m) (pbegincodehash m) (stack m) (altstack m) e (nOpCount m).

Definition is_disabled (opcode : Z) : bool :=
  existsb (Z.eqb opcode)
    [OP_CAT; OP_SUBSTR; OP_LEFT; OP_RIGHT; OP_INVERT; OP_AND; OP_OR; OP_XOR; OP_2MUL; OP_2DIV; OP_MUL; OP_DIV; OP_MOD; OP_LSHIFT; OP_RSHIFT].
Definition between (lo hi opcode : Z) : bool := (lo <=? opcode) && (opcode <=? hi).

Abbreviation invalid_stack := (Err SCRIPT_ERR_INVALID_STACK_OPERATION).

Section Machine.
Context `{ScriptHashes} `{BaseSignatureChecker}.
Variable CheckLowS : valtype -> bool.
Variable flags : Z.
Variable scriptversion : ScriptVersion.

Definition sigversion : SigVersion := match scriptversion with SCRIPT_V1 => SIGVERSION_BASE | SCRIPT_V2 => SIGVERSION_SEGSIG end.
Definition fRequireMinimal : bool := verify flags SCRIPT_VERIFY_MINIMALDATA.

(** A number on the stack; the exception is caught at the end of [EvalScript]. *)
Definition script_num (vch : valtype) (nMaxNumSize : Z) : res ScriptError Z :=
  match CScriptNum_ofBytes vch fRequireMinimal nMaxNumSize with Some n => Ok n | None => Err SCRIPT_ERR_UNKNOWN_ERROR end.

(** *** Locks *)

Definition discouraged : res ScriptError unit :=
  if verify flags SCRIPT_VERIFY_DISCOURAGE_UPGRADABLE_NOPS then Err SCRIPT_ERR_DISCOURAGE_UPGRADABLE_NOPS else Ok tt.

Definition op_checklocktimeverify (stack : list valtype) : res ScriptError unit :=
  if negb (verify flags SCRIPT_VERIFY_CHECKLOCKTIMEVERIFY) then discouraged
  else
    match stack with
    | [] => invalid_stack
    | top :: _ =>
        let! nLockTime := script_num top 5 in
        guard! negb (nLockTime <? 0) or SCRIPT_ERR_NEGATIVE_LOCKTIME in
        guard! CheckLockTime nLockTime or SCRIPT_ERR_UNSATISFIED_LOCKTIME in Ok tt
    end.

Definition op_checksequenceverify (stack : list valtype) : res ScriptError unit :=
  if negb (verify flags SCRIPT_VERIFY_CHECKSEQUENCEVERIFY) then discouraged
  else
    match stack with
    | [] => invalid_stack
    | top :: _ =>
        let! nSequence := script_num top 5 in
        guard! negb (nSequence <? 0) or SCRIPT_ERR_NEGATIVE_LOCKTIME in
        if (match scriptversion with SCRIPT_V1 => true | SCRIPT_V2 => false end) && negb (Z.land nSequence SEQUENCE_LOCKTIME_DISABLE_FLAG =? 0)
        then Ok tt
        else guard! CheckSequence nSequence or SCRIPT_ERR_UNSATISFIED_LOCKTIME in Ok tt
    end.

(** *** Conditionals *)

Definition op_if (fExec : bool) (opcode : Z) (m : machine) : res ScriptError machine :=
  if fExec then
    match stack m with
    | [] => Err SCRIPT_ERR_UNBALANCED_CONDITIONAL
    | vch :: s =>
        let minimal := (length vch <=? 1)%nat && negb ((length vch =? 1)%nat && negb (byte_at vch 0 =? 1)) in
        guard! negb ((match sigversion with SIGVERSION_SEGSIG => true | SIGVERSION_BASE => false end) && verify flags SCRIPT_VERIFY_MINIMALIF) || minimal
          or SCRIPT_ERR_MINIMALIF in
        let fValue := if opcode =? OP_NOTIF then negb (CastToBool vch) else CastToBool vch in
        Ok (with_exec (with_stack m s) (fValue :: vfExec m))
    end
  else Ok (with_exec m (false :: vfExec m)).
Definition op_else (m : machine) : res ScriptError machine :=
  match vfExec m with [] => Err SCRIPT_ERR_UNBALANCED_CONDITIONAL | b :: e => Ok (with_exec m (negb b :: e)) end.
Definition op_endif (m : machine) : res ScriptError machine :=
  match vfExec m with [] => Err SCRIPT_ERR_UNBALANCED_CONDITIONAL | _ :: e => Ok (with_exec m e) end.

(** *** Stack operations *)

Definition op_pick_roll (opcode : Z) (stack : list valtype) : res ScriptError (list valtype) :=
  match stack with
  | top :: (_ :: _) as s =>
      let! v := script_num top 4 in
      let n := CScriptNum_getint v in
      if (n <? 0) || (n >=? Z.of_nat (length s)) then invalid_stack
      else
        let vch := nth (Z.to_nat n) s [] in
        Ok (vch :: if opcode =? OP_ROLL then delete (Z.to_nat n) s else s)
  | _ => invalid_stack
  end.

(** The operations on the main stack alone. *)
Definition op_stack (opcode : Z) (stack : list valtype) : res ScriptError (list valtype) :=
  if opcode =? OP_2DROP then match stack with _ :: _ :: s => Ok s | _ => invalid_stack end
  else if opcode =? OP_2DUP then match stack with x2 :: x1 :: s => Ok (x2 :: x1 :: x2 :: x1 :: s) | _ => invalid_stack end
  else if opcode =? OP_3DUP then
    match stack with x3 :: x2 :: x1 :: s => Ok (x3 :: x2 :: x1 :: x3 :: x2 :: x1 :: s) | _ => invalid_stack end
  else if opcode =? OP_2OVER then
    match stack with x4 :: x3 :: x2 :: x1 :: s => Ok (x2 :: x1 :: x4 :: x3 :: x2 :: x1 :: s) | _ => invalid_stack end
  else if opcode =? OP_2ROT then
    match stack with x6 :: x5 :: x4 :: x3 :: x2 :: x1 :: s => Ok (x2 :: x1 :: x6 :: x5 :: x4 :: x3 :: s) | _ => invalid_stack end
  else if opcode =? OP_2SWAP then
    match stack with x4 :: x3 :: x2 :: x1 :: s => Ok (x2 :: x1 :: x4 :: x3 :: s) | _ => invalid_stack end
  else if opcode =? OP_IFDUP then
    match stack with x :: s => Ok (if CastToBool x then x :: x :: s else x :: s) | _ => invalid_stack end
  else if opcode =? OP_DEPTH then Ok (CScriptNum_serialize (Z.of_nat (length stack)) :: stack)
  else if opcode =? OP_DROP then match stack with _ :: s => Ok s | _ => invalid_stack end
  else if opcode =? OP_DUP then match stack with x :: s => Ok (x :: x :: s) | _ => invalid_stack end
  else if opcode =? OP_NIP then match stack with x2 :: _ :: s => Ok (x2 :: s) | _ => invalid_stack end
  else if opcode =? OP_OVER then match stack with x2 :: x1 :: s => Ok (x1 :: x2 :: x1 :: s) | _ => invalid_stack end
  else if (opcode =? OP_PICK) || (opcode =? OP_ROLL) then op_pick_roll opcode stack
  else if opcode =? OP_ROT then match stack with x3 :: x2 :: x1 :: s => Ok (x1 :: x3 :: x2 :: s) | _ => invalid_stack end
  else if opcode =? OP_SWAP then match stack with x2 :: x1 :: s => Ok (x1 :: x2 :: s) | _ => invalid_stack end
  else if opcode =? OP_TUCK then match stack with x2 :: x1 :: s => Ok (x2 :: x1 :: x2 :: s) | _ => invalid_stack end
  else if opcode =? OP_SIZE then
    match stack with x :: s => Ok (CScriptNum_serialize (Z.of_nat (length x)) :: x :: s) | _ => invalid_stack end
  else Err SCRIPT_ERR_BAD_OPCODE.

Definition op_equal (opcode : Z) (stack : list valtype) : res ScriptError (list valtype) :=
  match stack with
  | x2 :: x1 :: s =>
      let fEqual := bool_decide (x1 = x2) in
      if opcode =? OP_EQUALVERIFY then guard! fEqual or SCRIPT_ERR_EQUALVERIFY in Ok s else Ok (vchBool fEqual :: s)
  | _ => invalid_stack
  end.

(** *** Numbers *)

(** Operands have at most four bytes, so no operation leaves the range of [int64_t]. *)
Definition unary_num (opcode bn : Z) : Z :=
  if opcode =? OP_1ADD then bn + 1
  else if opcode =? OP_1SUB then bn - 1
  else if opcode =? OP_NEGATE then - bn
  else if opcode =? OP_ABS then if bn <? 0 then - bn else bn
  else if opcode =? OP_NOT then Z.b2z (bn =? 0)
  else Z.b2z (negb (bn =? 0)).
Definition op_unary (opcode : Z) (stack : list valtype) : res ScriptError (list valtype) :=
  match stack with
  | x :: s => let! bn := script_num x 4 in Ok (CScriptNum_serialize (unary_num opcode bn) :: s)
  | _ => invalid_stack
  end.

Definition binary_num (opcode bn1 bn2 : Z) : Z :=
  if opcode =? OP_ADD then bn1 + bn2
  else if opcode =? OP_SUB then bn1 - bn2
  else if opcode =? OP_BOOLAND then Z.b2z (negb (bn1 =? 0) && negb (bn2 =? 0))
  else if opcode =? OP_BOOLOR then Z.b2z (negb (bn1 =? 0) || negb (bn2 =? 0))
  else if (opcode =? OP_NUMEQUAL) || (opcode =? OP_NUMEQUALVERIFY) then Z.b2z (bn1 =? bn2)
  else if opcode =? OP_NUMNOTEQUAL then Z.b2z (negb (bn1 =? bn2))
  else if opcode =? OP_LESSTHAN then Z.b2z (bn1 <? bn2)
  else if opcode =? OP_GREATERTHAN then Z.b2z (bn1 >? bn2)
  else if opcode =? OP_LESSTHANOREQUAL then Z.b2z (bn1 <=? bn2)
  else if opcode =? OP_GREATERTHANOREQUAL then Z.b2z (bn1 >=? bn2)
  else if opcode =? OP_MIN then if bn1 <? bn2 then bn1 else bn2
  else if bn1 >? bn2 then bn1 else bn2.
Definition op_binary (opcode : Z) (stack : list valtype) : res ScriptError (list valtype) :=
  match stack with
  | x2 :: x1 :: s =>
      let! bn1 := script_num x1 4 in
      let! bn2 := script_num x2 4 in
      let bn := CScriptNum_serialize (binary_num opcode bn1 bn2) in
      if opcode =? OP_NUMEQUALVERIFY then guard! CastToBool bn or SCRIPT_ERR_NUMEQUALVERIFY in Ok s else Ok (bn :: s)
  | _ => invalid_stack
  end.
Definition op_within (stack : list valtype) : res ScriptError (list valtype) :=
  match stack with
  | x3 :: x2 :: x1 :: s =>
      let! bn1 := script_num x1 4 in
      let! bn2 := script_num x2 4 in
      let! bn3 := script_num x3 4 in
      Ok (vchBool ((bn2 <=? bn1) && (bn1 <? bn3)) :: s)
  | _ => invalid_stack
  end.

Definition hash_of (opcode : Z) (vch : valtype) : valtype :=
  if opcode =? OP_RIPEMD160 then RIPEMD160 vch
  else if opcode =? OP_SHA1 then SHA1 vch
  else if opcode =? OP_SHA256 then SHA256 vch
  else if opcode =? OP_HASH160 then Hash160 vch
  else Hash256 vch.
Definition op_crypto (opcode : Z) (stack : list valtype) : res ScriptError (list valtype) :=
  match stack with x :: s => Ok (hash_of opcode x :: s) | _ => invalid_stack end.

(** *** Signatures *)

(** The signed script: before segregated signatures a copy of each signature is removed from it. *)
Definition script_code (code : list Z) (sigs : list valtype) : list Z :=
  match sigversion with
  | SIGVERSION_BASE => fold_left (fun c sig => fst (FindAndDelete c (push_data sig))) sigs code
  | SIGVERSION_SEGSIG => code
  end.
(** One signature against one key: the encodings, then the signature. *)
Definition check_one (code : list Z) (vchSig vchPubKey : valtype) : res ScriptError bool :=
  let! _ := match sigversion with SIGVERSION_BASE => CheckSignatureEncoding CheckLowS vchSig flags | SIGVERSION_SEGSIG => Ok tt end in
  let! _ := CheckPubKeyEncoding vchPubKey flags in
  Ok (CheckSig vchSig vchPubKey code sigversion).

Definition op_checksig (opcode : Z) (code : list Z) (stack : list valtype) : res ScriptError (list valtype) :=
  match stack with
  | vchPubKey :: vchSig :: s =>
      let! fSuccess := check_one (script_code code [vchSig]) vchSig vchPubKey in
      guard! fSuccess || negb (verify flags SCRIPT_VERIFY_NULLFAIL) || (length vchSig =? 0)%nat or SCRIPT_ERR_SIG_NULLFAIL in
      if opcode =? OP_CHECKSIGVERIFY then guard! fSuccess or SCRIPT_ERR_CHECKSIGVERIFY in Ok s else Ok (vchBool fSuccess :: s)
  | _ => invalid_stack
  end.

(** The loop over signatures and keys; there are never more signatures than keys. *)
Fixpoint multisig_loop (code : list Z) (sigs keys : list valtype) : res ScriptError bool :=
  match sigs, keys with
  | [], _ => Ok true
  | _, [] => Ok false
  | vchSig :: sigs', vchPubKey :: keys' =>
      let! fOk := check_one code vchSig vchPubKey in
      let rest := if fOk then sigs' else sigs in
      if (length keys' <? length rest)%nat then Ok false else multisig_loop code rest keys'
  end.

(** The arguments, top first: number of keys, keys, number of signatures, signatures, and
    before segregated signatures one more. The results are the stack and the operations counted. *)
Definition op_checkmultisig (opcode : Z) (code : list Z) (stack : list valtype) (nOpCount : Z) : res ScriptError (list valtype * Z) :=
  match stack with
  | [] => invalid_stack
  | top :: s =>
      let! v := script_num top 4 in
      let nKeysCount := CScriptNum_getint v in
      guard! (0 <=? nKeysCount) && (nKeysCount <=? MAX_PUBKEYS_PER_MULTISIG) or SCRIPT_ERR_PUBKEY_COUNT in
      let nOpCount := nOpCount + nKeysCount in
      guard! nOpCount <=? MAX_OPS_PER_SCRIPT or SCRIPT_ERR_OP_COUNT in
      let keys := firstn (Z.to_nat nKeysCount) s in
      match skipn (Z.to_nat nKeysCount) s with
      | [] => invalid_stack
      | top :: s =>
          let! v := script_num top 4 in
          let nSigsCount := CScriptNum_getint v in
          guard! (0 <=? nSigsCount) && (nSigsCount <=? nKeysCount) or SCRIPT_ERR_SIG_COUNT in
          let extra := match sigversion with SIGVERSION_SEGSIG => 0 | SIGVERSION_BASE => 1 end in
          guard! nSigsCount + extra <=? Z.of_nat (length s) or SCRIPT_ERR_INVALID_STACK_OPERATION in
          let sigs := firstn (Z.to_nat nSigsCount) s in
          let! fSuccess := multisig_loop (script_code code sigs) sigs keys in
          guard! fSuccess || negb (verify flags SCRIPT_VERIFY_NULLFAIL) || forallb (fun sig => length sig =? 0)%nat sigs or SCRIPT_ERR_SIG_NULLFAIL in
          let s := skipn (Z.to_nat (nSigsCount + extra)) s in
          if opcode =? OP_CHECKMULTISIGVERIFY then guard! fSuccess or SCRIPT_ERR_CHECKMULTISIGVERIFY in Ok (s, nOpCount)
          else Ok (vchBool fSuccess :: s, nOpCount)
      end
  end.

(** *** Instructions *)

(** The [switch]; [fExec] is false only for the opcodes from [OP_IF] to [OP_ENDIF]. *)
Definition execute (fExec : bool) (opcode : Z) (m : machine) : res ScriptError machine :=
  if (opcode =? OP_1NEGATE) || between OP_1 OP_16 opcode then Ok (with_stack m (CScriptNum_serialize (opcode - (OP_1 - 1)) :: stack m))
  else if opcode =? OP_NOP then Ok m
  else if opcode =? OP_CHECKLOCKTIMEVERIFY then let! _ := op_checklocktimeverify (stack m) in Ok m
  else if opcode =? OP_CHECKSEQUENCEVERIFY then let! _ := op_checksequenceverify (stack m) in Ok m
  else if (opcode =? OP_NOP1) || between OP_NOP4 OP_NOP10 opcode then let! _ := discouraged in Ok m
  else if (opcode =? OP_IF) || (opcode =? OP_NOTIF) then op_if fExec opcode m
  else if opcode =? OP_ELSE then op_else m
  else if opcode =? OP_ENDIF then op_endif m
  else if opcode =? OP_VERIFY then
    match stack m with
    | [] => invalid_stack
    | x :: s => guard! CastToBool x or SCRIPT_ERR_VERIFY in Ok (with_stack m s)
    end
  else if opcode =? OP_RETURN then Err SCRIPT_ERR_OP_RETURN
  else if opcode =? OP_TOALTSTACK then
    match stack m with
    | [] => invalid_stack
    | x :: s => Ok (mkMachine (pc m) (pbegincodehash m) s (x :: altstack m) (vfExec m) (nOpCount m))
    end
  else if opcode =? OP_FROMALTSTACK then
    match altstack m with
    | [] => Err SCRIPT_ERR_INVALID_ALTSTACK_OPERATION
    | x :: a => Ok (mkMachine (pc m) (pbegincodehash m) (x :: stack m) a (vfExec m) (nOpCount m))
    end
  else if between OP_2DROP OP_TUCK opcode || (opcode =? OP_SIZE) then let! s := op_stack opcode (stack m) in Ok (with_stack m s)
  else if (opcode =? OP_EQUAL) || (opcode =? OP_EQUALVERIFY) then let! s := op_equal opcode (stack m) in Ok (with_stack m s)
  else if (opcode =? OP_1ADD) || (opcode =? OP_1SUB) || between OP_NEGATE OP_0NOTEQUAL opcode then
    let! s := op_unary opcode (stack m) in Ok (with_stack m s)
  else if (opcode =? OP_ADD) || (opcode =? OP_SUB) || between OP_BOOLAND OP_MAX opcode then
    let! s := op_binary opcode (stack m) in Ok (with_stack m s)
  else if opcode =? OP_WITHIN then let! s := op_within (stack m) in Ok (with_stack m s)
  else if between OP_RIPEMD160 OP_HASH256 opcode then let! s := op_crypto opcode (stack m) in Ok (with_stack m s)
  else if opcode =? OP_CODESEPARATOR then Ok (mkMachine (pc m) (pc m) (stack m) (altstack m) (vfExec m) (nOpCount m))
  else if (opcode =? OP_CHECKSIG) || (opcode =? OP_CHECKSIGVERIFY) then
    let! s := op_checksig opcode (pbegincodehash m) (stack m) in Ok (with_stack m s)
  else if (opcode =? OP_CHECKMULTISIG) || (opcode =? OP_CHECKMULTISIGVERIFY) then
    let! (s, n) := op_checkmultisig opcode (pbegincodehash m) (stack m) (nOpCount m) in
    Ok (mkMachine (pc m) (pbegincodehash m) s (altstack m) (vfExec m) n)
  else Err SCRIPT_ERR_BAD_OPCODE.

(** One round of the loop of [EvalScript]. *)
Definition eval_step (m : machine) : res ScriptError machine :=
  let fExec := forallb id (vfExec m) in
  match GetOp2 (pc m) with
  | None => Err SCRIPT_ERR_BAD_OPCODE
  | Some (opcode, vchPushValue, pc') =>
      guard! negb (Z.of_nat (length vchPushValue) >? MAX_SCRIPT_ELEMENT_SIZE) or SCRIPT_ERR_PUSH_SIZE in
      let nOpCount := if opcode >? OP_16 then nOpCount m + 1 else nOpCount m in
      guard! negb (opcode >? OP_16) || (nOpCount <=? MAX_OPS_PER_SCRIPT) or SCRIPT_ERR_OP_COUNT in
      guard! negb (is_disabled opcode) or SCRIPT_ERR_DISABLED_OPCODE in
      let m := mkMachine pc' (pbegincodehash m) (stack m) (altstack m) (vfExec m) nOpCount in
      let! m := if fExec && (opcode <=? OP_PUSHDATA4) then
                  guard! negb fRequireMinimal || CheckMinimalPush vchPushValue opcode or SCRIPT_ERR_MINIMALDATA in
                  Ok (with_stack m (vchPushValue :: stack m))
                else if fExec || between OP_IF OP_ENDIF opcode then execute fExec opcode m
                else Ok m in
      guard! negb (Z.of_nat (length (stack m)) + Z.of_nat (length (altstack m)) >? MAX_STACK_SIZE) or SCRIPT_ERR_STACK_SIZE in Ok m
  end.

(** The loop; every round reads a byte, so the length of the script is enough fuel. *)
Fixpoint eval_loop (fuel : nat) (m : machine) : res ScriptError machine :=
  match pc m with
  | [] => Ok m
  | _ =>
      match fuel with
      | O => Err SCRIPT_ERR_UNKNOWN_ERROR
      | S f => let! m := eval_step m in eval_loop f m
      end
  end.
Definition EvalScript (stack0 : list valtype) (script : list Z) : res ScriptError (list valtype) :=
  guard! negb (Z.of_nat (length script) >? MAX_SCRIPT_SIZE) or SCRIPT_ERR_SCRIPT_SIZE in
  let! m := eval_loop (length script) (mkMachine script script stack0 [] [] 0) in
  match vfExec m with [] => Ok (stack m) | _ => Err SCRIPT_ERR_UNBALANCED_CONDITIONAL end.

(** *** Two scripts *)

(** [PushAll]; the first value ends up deepest on the stack. *)
Definition push_value (v : valtype) : list Z :=
  if (length v =? 0)%nat then [OP_0]
  else if (length v =? 1)%nat && (1 <=? byte_at v 0) && (byte_at v 0 <=? 16) then [OP_1 + byte_at v 0 - 1]
  else push_data v.
Definition PushAll (values : list valtype) : list Z := flat_map push_value values.

(** A failed verification, or a failed assertion. *)
Inductive verify_failure := script_error (e : ScriptError) | verify_assertion.
Definition run_script (stack : list valtype) (script : list Z) : res verify_failure (list valtype) :=
  match EvalScript stack script with Ok s => Ok s | Err e => Err (script_error e) end.
(** The test after the public script: the top of the stack is true. *)
Definition top_true (stack : list valtype) : res verify_failure unit :=
  match stack with
  | [] => Err (script_error SCRIPT_ERR_EVAL_FALSE)
  | x :: _ => guard! CastToBool x or script_error SCRIPT_ERR_EVAL_FALSE in Ok tt
  end.

(** [witness] is the stack of the segregated signature data. *)
Definition VerifyScript (scriptSig scriptPubKey : list Z) (witness : list valtype) : res verify_failure unit :=
  guard! negb (verify flags SCRIPT_VERIFY_SIGPUSHONLY) || IsPushOnly scriptSig or script_error SCRIPT_ERR_SIG_PUSHONLY in
  let! stackCopy := run_script [] (if (length scriptSig =? 0)%nat then PushAll witness else scriptSig) in
  let! s := run_script stackCopy scriptPubKey in
  let! _ := top_true s in
  let! s :=
    if verify flags SCRIPT_VERIFY_P2SH && IsPayToScriptHash scriptPubKey then
      guard! IsPushOnly scriptSig or script_error SCRIPT_ERR_SIG_PUSHONLY in
      match stackCopy with
      | [] => Err verify_assertion
      | pubKeySerialized :: s =>
          let! s := run_script s pubKeySerialized in
          let! _ := top_true s in Ok s
      end
    else Ok s in
  if verify flags SCRIPT_VERIFY_CLEANSTACK then
    guard! verify flags SCRIPT_VERIFY_P2SH or verify_assertion in
    guard! (length s =? 1)%nat or script_error SCRIPT_ERR_CLEANSTACK in Ok tt
  else Ok tt.
End Machine.
