(* ===== verification/SigCheck.v ===== *)
(** * SigCheck: the signature checker of a transaction, in [src/src/script/interpreter.cpp] and [src/src/pubkey.{h,cpp}]

    The hash that a signature signs, in the old form, which serialises a changed copy
    of the transaction, and in the form for segregated signatures; public keys and the
    tolerant reading of signatures; and [TransactionSignatureChecker], the instance of
    [BaseSignatureChecker] for an input of a transaction. The elliptic curve library is
    the class [Secp256k1], the hashes are those of [ScriptHashes]. *)

From stdpp Require Import list.
From S2P Require Import Prelude ArithUint256 Serialize Compressor Transaction Script TxCheck Interpreter.

(** ** Definitions *)

(** *** The old signature hash *)

(** Where [GetOp2] leaves its iterator when it fails. *)
Definition GetOp_stop (pc : list Z) : list Z :=
  match pc with
  | [] => []
  | opcode :: pc =>
      if opcode =? OP_PUSHDATA1 then skipn 1 pc
      else if opcode =? OP_PUSHDATA2 then if (length pc <? 2)%nat then pc else skipn 2 pc
      else if opcode =? OP_PUSHDATA4 then if (length pc <? 4)%nat then pc else skipn 4 pc
      else pc
  end.

(** The bytes from the position [from] to the position [to]. *)
Definition bytes_to (from to : list Z) : list Z := firstn (length from - length to) from.

Fixpoint code_loop (fuel : nat) (itBegin it : list Z) : list Z :=
  match fuel with
  | O => []
  | S f =>
      match GetOp2 it with
      | Some (opcode, _, it') =>
          if opcode =? OP_CODESEPARATOR
          then firstn (length itBegin - length it' - 1) itBegin ++ code_loop f it' it'
          else code_loop f itBegin it'
      | None => bytes_to itBegin (GetOp_stop it)
      end
  end.
Definition SerializeScriptCode (scriptCode : list Z) : list Z :=
  WriteCompactSize (Z.of_nat (length scriptCode) - Find scriptCode OP_CODESEPARATOR)
  ++ code_loop (S (length scriptCode)) scriptCode scriptCode.

Section Serializer.
Variable txTo : CTransaction.
Variable scriptCode : list Z.
Variable nIn : nat.
Variable nHashType : Z.

Definition fAnyoneCanPay : bool := negb (Z.land nHashType SIGHASH_ANYONECANPAY =? 0).
Definition fHashSingle : bool := Z.land nHashType 0x1f =? SIGHASH_SINGLE.
Definition fHashNone : bool := Z.land nHashType 0x1f =? SIGHASH_NONE.

Definition write_prevout (i : CTxIn) : list Z := COutPoint_WriteToStream (prevout i) (CTxIn_GetFlags i) (nVersion txTo).
Definition SerializeInput (nInput : nat) (i : CTxIn) : list Z :=
  let others := negb (nInput =? nIn)%nat in
  write_prevout i
  ++ (if others then WriteCompactSize 0 else SerializeScriptCode scriptCode)
  ++ (if others && (fHashSingle || fHashNone) then ser_writedata32 0
      else (if IsOldTransactionVersion (nVersion txTo) then [] else ser_writedata8 (nTypeAndFlags i))
           ++ ser_writedata32 (GetSequence i (nVersion txTo))).
(** The inputs from the [n]th on. *)
Fixpoint SerializeInputs (n : nat) (ins : list CTxIn) : list Z :=
  match ins with [] => [] | i :: ins' => SerializeInput n i ++ SerializeInputs (S n) ins' end.

Definition SerializeOutput (nOutput : nat) (o : CTxOut) : option (list Z) :=
  if fHashSingle && negb (nOutput =? nIn)%nat then CTxOut_WriteToStream (nVersion txTo) CTxOut_default
  else CTxOut_WriteToStream (nVersion txTo) o.
Fixpoint SerializeOutputs (n : nat) (outs : list CTxOut) : option (list Z) :=
  match outs with
  | [] => Some []
  | o :: outs' => match SerializeOutput n o, SerializeOutputs (S n) outs' with Some a, Some b => Some (a ++ b) | _, _ => None end
  end.

(** [None]: an output that cannot be written; the index is that of an input. *)
Definition SerializeForHash : option (list Z) :=
  let ins := if fAnyoneCanPay
             then WriteCompactSize 1 ++ SerializeInput nIn (nth nIn (vin txTo) CTxIn_default)
             else WriteCompactSize (Z.of_nat (length (vin txTo))) ++ SerializeInputs 0 (vin txTo) in
  let outs := if fHashNone then [] else if fHashSingle then firstn (S nIn) (vout txTo) else vout txTo in
  match SerializeOutputs 0 outs with
  | Some outs_bytes =>
      Some (ser_writedata32 (u32 (nVersion txTo)) ++ ins ++ WriteCompactSize (Z.of_nat (length outs)) ++ outs_bytes ++ ser_writedata32 (nLockTime txTo))
  | None => None
  end.
End Serializer.

Section Hash.
Context `{ScriptHashes}.

(** *** The hash for segregated signatures *)

Definition GetPrevoutHash (txTo : CTransaction) : list Z := Hash256 (flat_map (write_prevout txTo) (vin txTo)).
Definition write_sequence (txTo : CTransaction) (i : CTxIn) : list Z :=
  (if IsOldTransactionVersion (nVersion txTo) then [] else ser_writedata8 (nTypeAndFlags i)) ++ ser_writedata32 (GetSequence i (nVersion txTo)).
Definition GetSequenceHash (txTo : CTransaction) : list Z := Hash256 (flat_map (write_sequence txTo) (vin txTo)).
Definition GetOutputsHash (txTo : CTransaction) : option (list Z) :=
  option_map Hash256 (opt_flat_map (CTxOut_WriteToStream (nVersion txTo)) (vout txTo)).

Record PrecomputedTransactionData := mkTxData { hashPrevouts : list Z; hashSequence : list Z; hashOutputs : list Z }.
Definition PrecomputedTransactionData_new (txTo : CTransaction) : option PrecomputedTransactionData :=
  option_map (mkTxData (GetPrevoutHash txTo) (GetSequenceHash txTo)) (GetOutputsHash txTo).

(** The three hashes, null where the hash type leaves them out. *)
Definition prevouts_part (txTo : CTransaction) (nHashType : Z) (cache : option PrecomputedTransactionData) : list Z :=
  if fAnyoneCanPay nHashType then blob_null 32 else match cache with Some c => hashPrevouts c | None => GetPrevoutHash txTo end.
Definition sequence_part (txTo : CTransaction) (nHashType : Z) (cache : option PrecomputedTransactionData) : list Z :=
  if negb (fAnyoneCanPay nHashType) && negb (fHashSingle nHashType) && negb (fHashNone nHashType)
  then match cache with Some c => hashSequence c | None => GetSequenceHash txTo end else blob_null 32.
Definition outputs_part (txTo : CTransaction) (nIn : nat) (nHashType : Z) (cache : option PrecomputedTransactionData) : option (list Z) :=
  if negb (fHashSingle nHashType) && negb (fHashNone nHashType)
  then match cache with Some c => Some (hashOutputs c) | None => GetOutputsHash txTo end
  else if fHashSingle nHashType && (nIn <? length (vout txTo))%nat
  then option_map Hash256 (CTxOut_WriteToStream (nVersion txTo) (nth nIn (vout txTo) CTxOut_default))
  else Some (blob_null 32).

(** What is hashed for the input [i]. *)
Definition segsig_preimage (scriptCode : list Z) (txTo : CTransaction) (i : CTxIn) (nHashType amount : Z) (prevouts sequence outputs : list Z) : list Z :=
  ser_writedata32 (u32 (nVersion txTo)) ++ prevouts ++ sequence ++ write_prevout txTo i
  ++ (WriteCompactSize (Z.of_nat (length scriptCode)) ++ scriptCode) ++ Serialize_int64 amount
  ++ write_sequence txTo i ++ outputs ++ ser_writedata32 (nLockTime txTo) ++ ser_writedata32 (u32 nHashType).

Definition hash_one : list Z := 1 :: repeat 0 31.

(** [None]: there is no such input for segregated signatures, or an output cannot be written. *)
Definition SignatureHash (scriptCode : list Z) (txTo : CTransaction) (nIn : nat) (nHashType amount : Z) (sigversion : SigVersion)
    (cache : option PrecomputedTransactionData) : option (list Z) :=
  match sigversion with
  | SIGVERSION_SEGSIG =>
      match nth_error (vin txTo) nIn, outputs_part txTo nIn nHashType cache with
      | Some i, Some outputs =>
          Some (Hash256 (segsig_preimage scriptCode txTo i nHashType amount
                           (prevouts_part txTo nHashType cache) (sequence_part txTo nHashType cache) outputs))
      | _, _ => None
      end
  | SIGVERSION_BASE =>
      if (length (vin txTo) <=? nIn)%nat then Some hash_one
      else if fHashSingle nHashType && (length (vout txTo) <=? nIn)%nat then Some hash_one
      else option_map (fun s => Hash256 (s ++ ser_writedata32 (u32 nHashType))) (SerializeForHash txTo scriptCode nIn nHashType)
  end.
End Hash.

(** *** Signatures and keys *)

Fixpoint drop_zeros (l : list Z) : list Z :=
  match l with [] => [] | b :: l' => if b =? 0 then drop_zeros l' else l end.

(** The length of an integer in [ecdsa_signature_parse_der_lax]; positions are the rest of the input. *)
Definition der_length (input : list Z) : option (Z * list Z) :=
  match input with
  | [] => None
  | lenbyte :: rest =>
      if Z.land lenbyte 0x80 =? 0 then Some (lenbyte, rest)
      else
        let n := lenbyte - 0x80 in
        if n >? Z.of_nat (length rest) then None
        else
          let digits := drop_zeros (firstn (Z.to_nat n) rest) in
          if (8 <=? length digits)%nat then None
          else Some (fold_left (fun len b => Z.shiftl len 8 + b) digits 0, skipn (Z.to_nat n) rest)
  end.
Definition der_integer (input : list Z) : option (list Z * list Z) :=
  match input with
  | tag :: rest =>
      if negb (tag =? 2) then None
      else match der_length rest with
           | Some (len, rest) => if len >? Z.of_nat (length rest) then None else Some (firstn (Z.to_nat len) rest, skipn (Z.to_nat len) rest)
           | None => None
           end
  | [] => None
  end.
(** The 32 bytes of an integer; [None]: it has more. *)
Definition der_scalar (digits : list Z) : option (list Z) :=
  let digits := drop_zeros digits in
  if (32 <? length digits)%nat then None else Some (repeat 0 (32 - length digits) ++ digits).
(** The compact form of the signature, 64 zeros where a number is too large; [None]: not a signature. *)
Definition ecdsa_signature_parse_der_lax (input : list Z) : option (list Z) :=
  match input with
  | tag :: lenbyte :: rest =>
      if negb (tag =? 0x30) then None
      else
        let skip := if Z.land lenbyte 0x80 =? 0 then 0 else lenbyte - 0x80 in
        if skip >? Z.of_nat (length rest) then None
        else
          match der_integer (skipn (Z.to_nat skip) rest) with
          | None => None
          | Some (r, rest) =>
              match der_integer rest with
              | None => None
              | Some (s, _) =>
                  Some (match der_scalar r, der_scalar s with Some r, Some s => r ++ s | _, _ => repeat 0 64 end)
              end
          end
  | _ => None
  end.

(** The library: parsing and writing of points, parsing of compact signatures (with
    the invalid signature that 64 zeros give), verification and recovery. *)
Class Secp256k1 := {
  point : Type;
  signature : Type;
  recoverable : Type;
  ec_pubkey_parse : list Z -> option point;
  ec_pubkey_serialize : bool -> point -> list Z;
  signature_parse_compact : list Z -> option signature;
  invalid_signature : signature;
  signature_normalize : signature -> signature * bool;
  ecdsa_verify : signature -> list Z -> point -> bool;
  recoverable_parse_compact : list Z -> Z -> option recoverable;
  ecdsa_recover : recoverable -> list Z -> option point
}.

Definition GetLen (chHeader : Z) : nat :=
  if (chHeader =? 2) || (chHeader =? 3) then 33%nat
  else if (chHeader =? 4) || (chHeader =? 6) || (chHeader =? 7) then 65%nat
  else 0%nat.
(** A [CPubKey] is the bytes from [begin] to [end]; an invalid key has none. *)
Definition CPubKey_Set (vch : list Z) : list Z :=
  match vch with
  | [] => []
  | h :: _ => if negb (GetLen h =? 0)%nat && (GetLen h =? length vch)%nat then vch else []
  end.
Definition CPubKey_IsValid (key : list Z) : bool := negb (length key =? 0)%nat.

Section Keys.
Context `{ScriptHashes} `{Secp256k1}.

Definition CPubKey_GetID (key : list Z) : list Z := Hash160 key.
Definition parse_signature (vchSig : list Z) : option signature :=
  match ecdsa_signature_parse_der_lax vchSig with
  | Some compact => Some (match signature_parse_compact compact with Some s => s | None => invalid_signature end)
  | None => None
  end.
Definition CPubKey_Verify (key hash vchSig : list Z) : bool :=
  if negb (CPubKey_IsValid key) then false
  else
    match ec_pubkey_parse key with
    | None => false
    | Some p =>
        match vchSig with
        | [] => false
        | _ => match parse_signature vchSig with
               | None => false
               | Some s => ecdsa_verify (fst (signature_normalize s)) hash p
               end
        end
    end.
(** [None]: nothing is recovered. *)
Definition CPubKey_RecoverCompact (hash vchSig : list Z) : option (list Z) :=
  if negb (length vchSig =? 65)%nat then None
  else
    let recid := Z.land (byte_at vchSig 0 - 27) 3 in
    let fComp := negb (Z.land (byte_at vchSig 0 - 27) 4 =? 0) in
    match recoverable_parse_compact (skipn 1 vchSig) recid with
    | None => None
    | Some s => match ecdsa_recover s hash with Some p => Some (CPubKey_Set (ec_pubkey_serialize fComp p)) | None => None end
    end.
Definition CPubKey_CheckLowS (vchSig : list Z) : bool :=
  match parse_signature vchSig with Some s => negb (snd (signature_normalize s)) | None => false end.

(** *** The checker *)

(** A null [signatureKeyID]: the key of the script is to have signed. *)
Record TransactionSignatureChecker := mkChecker {
  signatureKeyID : list Z;
  txTo : CTransaction;
  nIn : nat;
  amount : Z;
  txdata : option PrecomputedTransactionData
}.
Variable c : TransactionSignatureChecker.
Definition checked_input : CTxIn := nth (nIn c) (vin (txTo c)) CTxIn_default.

(** Nothing is signed where there is no hash, an assertion of the source. *)
Definition Tx_CheckSig (vchSigIn vchPubKey scriptCode : list Z) (sigversion : SigVersion) : bool :=
  match vchSigIn with
  | [] => false
  | _ =>
      let nHashType := List.last vchSigIn 0 in
      let vchSig := removelast vchSigIn in
      match SignatureHash scriptCode (txTo c) (nIn c) nHashType (amount c) sigversion (txdata c) with
      | None => false
      | Some sighash =>
          match sigversion with
          | SIGVERSION_SEGSIG =>
              match CPubKey_RecoverCompact sighash vchSig with
              | None => false
              | Some pubkey =>
                  if negb (CPubKey_IsValid pubkey) then false
                  else if blob_IsNull (signatureKeyID c) then bool_decide (CPubKey_GetID (CPubKey_Set vchPubKey) = CPubKey_GetID pubkey)
                  else bool_decide (signatureKeyID c = CPubKey_GetID pubkey)
              end
          | SIGVERSION_BASE =>
              let pubkey := CPubKey_Set vchPubKey in
              if negb (CPubKey_IsValid pubkey) then false else CPubKey_Verify pubkey sighash vchSig
          end
      end
  end.

Definition Tx_CheckLockTime (nLockTime : Z) : bool :=
  let txLock := Transaction.nLockTime (txTo c) in
  if negb ((txLock <? LOCKTIME_THRESHOLD) && (nLockTime <? LOCKTIME_THRESHOLD)) then false
  else if negb ((txLock >=? LOCKTIME_THRESHOLD) && (nLockTime >=? LOCKTIME_THRESHOLD)) then false
  else if nLockTime >? txLock then false
  else if SEQUENCE_FINAL =? GetSequence checked_input (nVersion (txTo c)) then false
  else true.

Definition nLockTimeMask : Z := Z.lor SEQUENCE_LOCKTIME_TYPE_FLAG SEQUENCE_LOCKTIME_MASK.
(** The comparison after the last [else] is never reached. *)
Definition Tx_CheckSequence (nSequence : Z) : bool :=
  let version := nVersion (txTo c) in
  if u32 version <? 2 then false
  else if IsOldTransactionVersion version then
    let txToSequence := GetSequence checked_input version in
    if negb (Z.land txToSequence SEQUENCE_LOCKTIME_DISABLE_FLAG =? 0) then false
    else
      let txToSequenceMasked := Z.land txToSequence nLockTimeMask in
      let nSequenceMasked := Z.land nSequence nLockTimeMask in
      if negb ((txToSequenceMasked <? SEQUENCE_LOCKTIME_TYPE_FLAG) && (nSequenceMasked <? SEQUENCE_LOCKTIME_TYPE_FLAG)) then false
      else if negb ((txToSequenceMasked >=? SEQUENCE_LOCKTIME_TYPE_FLAG) && (nSequenceMasked >=? SEQUENCE_LOCKTIME_TYPE_FLAG)) then false
      else if nSequenceMasked >? txToSequenceMasked then false
      else true
  else
    let nSequenceMasked := Z.land nSequence nLockTimeMask in
    if negb (FlagIsSet checked_input HasRelativeLock) then false
    else if FlagIsSet checked_input HasTimeBasedRelativeLock && (nSequenceMasked <? SEQUENCE_LOCKTIME_TYPE_FLAG) then false
    else if FlagIsSet checked_input HasBlockBasedRelativeLock && (nSequenceMasked >=? SEQUENCE_LOCKTIME_TYPE_FLAG) then false
    else false.

Definition transaction_checker : BaseSignatureChecker :=
  {| CheckSig := Tx_CheckSig; CheckLockTime := Tx_CheckLockTime; CheckSequence := Tx_CheckSequence |}.
End Keys.

(** ** Lemmas *)

Section Locks.
Context `{ScriptHashes} `{Secp256k1}.

(** No lock is accepted: it would have to be below and not below the threshold. *)
Lemma CheckLockTime_never c n : Tx_CheckLockTime c n = false.
Proof.
  unfold Tx_CheckLockTime. destruct (_ <? LOCKTIME_THRESHOLD) eqn:E; [|done]. cbn [andb]. destruct (n <? _); [|done]. cbn [negb].
  rewrite Z.geb_leb, (proj2 (Z.leb_gt _ _)) by by apply Z.ltb_lt. done.
Qed.
Lemma CheckSequence_never c n : Tx_CheckSequence c n = false.
Proof.
  unfold Tx_CheckSequence. destruct (_ <? 2); [done|]. destruct (IsOldTransactionVersion _).
  - destruct (negb _); [done|]. set (a := Z.land _ nLockTimeMask). set (b := Z.land n _). destruct (a <? _) eqn:E; [|done]. cbn [andb].
    destruct (b <? _); [|done]. cbn [negb]. rewrite (Z.geb_leb a), (proj2 (Z.leb_gt _ a)) by by apply Z.ltb_lt. done.
  - destruct (negb _); [done|]. destruct (_ && _); [done|]. by destruct (_ && _).
Qed.
End Locks.
