(* ===== verification/InterpreterSpec.v ===== *)
(** * InterpreterSpec: limits and termination of the script machine

    Every instruction keeps the limits on the size of the stacks and of their
    elements and on the operations counted, every run of a script ends, and pushed
    values come back as the stack. *)

From stdpp Require Import list.
From S2P Require Import Prelude ArithUint256 Serialize Compressor Transaction Script TxCheck Interpreter.

(** ** Definitions *)

(** Split the conditionals and matches that an accepted result went through. *)
Ltac ok_cases := unfold res_bind in *; repeat (case_match; simplify_eq/=).

(** An element within the limit of [MAX_SCRIPT_ELEMENT_SIZE]. *)
Definition small (v : valtype) : Prop := Z.of_nat (length v) <= MAX_SCRIPT_ELEMENT_SIZE.
(** The limits of the machine. *)
Record within_limits (m : machine) : Prop := {
  limit_stacks : Z.of_nat (length (stack m)) + Z.of_nat (length (altstack m)) <= MAX_STACK_SIZE;
  limit_stack : Forall small (stack m);
  limit_altstack : Forall small (altstack m);
  limit_ops : 0 <= nOpCount m <= MAX_OPS_PER_SCRIPT
}.
(** Hashes are small elements. *)
Class SmallHashes `{ScriptHashes} := {
  small_hash : forall opcode v, small (hash_of opcode v)
}.

Section Runs.
Context `{ScriptHashes} `{BaseSignatureChecker}.
Variable CheckLowS : valtype -> bool.
Variable flags : Z.
Variable ver : ScriptVersion.

(** The loop of [EvalScript] as a relation, with the number of rounds. *)
Inductive runs : nat -> machine -> res ScriptError machine -> Prop :=
| runs_end m : pc m = [] -> runs 0 m (Ok m)
| runs_error m e : pc m <> [] -> eval_step CheckLowS flags ver m = Err e -> runs 1 m (Err e)
| runs_step n m m' r : pc m <> [] -> eval_step CheckLowS flags ver m = Ok m' -> runs n m' r -> runs (S n) m r.

(** The states between two instructions of a script. *)
Inductive reachable (script : list Z) (stack0 : list valtype) : machine -> Prop :=
| reachable_start : reachable script stack0 (mkMachine script script stack0 [] [] 0)
| reachable_step m m' : reachable script stack0 m -> pc m <> [] -> eval_step CheckLowS flags ver m = Ok m' -> reachable script stack0 m'.
End Runs.

(** ** Lemmas: elements *)

Lemma length_set_back l x : l <> [] -> length (set_back l x) = length l.
Proof. intros N. destruct (exists_last N) as (l' & a & ->). unfold set_back. rewrite removelast_last, !length_app. done. Qed.

Lemma length_serialize n : (length (CScriptNum_serialize n) <= 9)%nat.
Proof.
  unfold CScriptNum_serialize. destruct (n =? 0); [cbn [length]; lia|].
  set (a := u64 _). pose proof (length_abs_bytes 8 a). destruct (negb _); [rewrite length_app; cbn [length]; lia|].
  destruct (n <? 0); [|lia]. destruct (decide (abs_bytes 8 a = [])) as [->|N]; [unfold set_back; cbn [removelast app length]; lia|]. rewrite length_set_back by done. lia.
Qed.

Lemma small_num n : small (CScriptNum_serialize n).
Proof. unfold small, MAX_SCRIPT_ELEMENT_SIZE. pose proof (length_serialize n). lia. Qed.
Lemma small_bool b : small (vchBool b).
Proof. by destruct b. Qed.
#[export] Hint Resolve small_num small_bool : munt.

Section Limits.
Context `{SmallHashes} `{BaseSignatureChecker}.
Variable CheckLowS : valtype -> bool.
Variable flags : Z.
Variable ver : ScriptVersion.

(** An accepted operation leaves small elements when it found small ones. *)
Ltac small_cases := intros E F; ok_cases; repeat (apply Forall_cons in F as [? F]);
  repeat (apply Forall_cons; split); auto with munt.

Lemma op_stack_small opcode s s' : op_stack flags opcode s = Ok s' -> Forall small s -> Forall small s'.
Proof.
  unfold op_stack, op_pick_roll. small_cases; try apply Forall_delete; auto; apply Forall_nth; auto; zbool; cbn [length] in *; lia.
Qed.
Lemma op_equal_small opcode s s' : op_equal opcode s = Ok s' -> Forall small s -> Forall small s'.
Proof. unfold op_equal. small_cases. Qed.
Lemma op_unary_small opcode s s' : op_unary flags opcode s = Ok s' -> Forall small s -> Forall small s'.
Proof. unfold op_unary. small_cases. Qed.
Lemma op_binary_small opcode s s' : op_binary flags opcode s = Ok s' -> Forall small s -> Forall small s'.
Proof. unfold op_binary. small_cases. Qed.
Lemma op_within_small s s' : op_within flags s = Ok s' -> Forall small s -> Forall small s'.
Proof. unfold op_within. small_cases. Qed.
Lemma op_crypto_small opcode s s' : op_crypto opcode s = Ok s' -> Forall small s -> Forall small s'.
Proof. unfold op_crypto. small_cases. apply small_hash. Qed.
Lemma op_checksig_small opcode code s s' : op_checksig CheckLowS flags ver opcode code s = Ok s' -> Forall small s -> Forall small s'.
Proof. unfold op_checksig. small_cases. Qed.
Lemma op_checkmultisig_small opcode code s n s' n' : op_checkmultisig CheckLowS flags ver opcode code s n = Ok (s', n') -> 0 <= n ->
  Forall small s -> Forall small s' /\ 0 <= n' <= MAX_OPS_PER_SCRIPT.
Proof.
  unfold op_checkmultisig. intros E N F. destruct s as [|top s]; [done|]. apply Forall_cons in F as [_ F].
  destruct (script_num flags top 4) as [v|]; cbn [res_bind] in E; [|done].
  destruct ((0 <=? CScriptNum_getint v) && _) eqn:Ek; [|done]. destruct (n + _ <=? _) eqn:Eo; [|done].
  pose proof (Forall_drop _ (Z.to_nat (CScriptNum_getint v)) s F) as F'.
  destruct (skipn _ s) as [|top' s2]; [done|]. apply Forall_cons in F' as [_ F'].
  destruct (script_num flags top' 4) as [v'|]; cbn [res_bind] in E; [|done].
  destruct ((0 <=? CScriptNum_getint v') && _) eqn:Es; [|done]. destruct (_ <=? Z.of_nat (length s2)); [|done].
  destruct (multisig_loop _ _ _ _ _ _) as [ok|]; cbn [res_bind] in E; [|done].
  zbool. apply (Forall_drop _ (Z.to_nat (CScriptNum_getint v' + match sigversion ver with SIGVERSION_BASE => 1 | SIGVERSION_SEGSIG => 0 end))) in F'.
  destruct (_ || _ || _); [|done]. destruct (opcode =? OP_CHECKMULTISIGVERIFY); [destruct ok; [|done]|]; injection E as <- <-;
    (split; [|lia]); [done|]. apply Forall_cons; split; auto with munt.
Qed.

(** What an instruction keeps: the position, small elements, and the bound on the operations. *)
Definition elements_ok (m : machine) : Prop :=
  Forall small (stack m) /\ Forall small (altstack m) /\ 0 <= nOpCount m <= MAX_OPS_PER_SCRIPT.
Definition keeps (m : machine) (r : res ScriptError machine) : Prop := forall m', r = Ok m' -> pc m' = pc m /\ elements_ok m'.
Definition stays (m : machine) (r : res ScriptError machine) : Prop := forall m', r = Ok m' -> pc m' = pc m.

Lemma keeps_if m (b : bool) r1 r2 : keeps m r1 -> keeps m r2 -> keeps m (if b then r1 else r2).
Proof. by destruct b. Qed.
Lemma keeps_err m e : keeps m (Err e).
Proof. by intros m'. Qed.
Lemma keeps_ok m m' : pc m' = pc m -> elements_ok m' -> keeps m (Ok m').
Proof. intros ?? m2 [= <-]. done. Qed.
Lemma keeps_unit m (r : res ScriptError unit) : elements_ok m -> keeps m (let! _ := r in Ok m).
Proof. intros O. destruct r; [by apply keeps_ok|apply keeps_err]. Qed.
Lemma keeps_stack m r : elements_ok m -> (forall s, r = Ok s -> Forall small (stack m) -> Forall small s) -> keeps m (let! s := r in Ok (with_stack m s)).
Proof.
  intros (O1 & O2 & O3) F. destruct r as [s|e]; [|apply keeps_err]. apply keeps_ok; [done|].
  exact (conj (F s eq_refl O1) (conj O2 O3)).
Qed.

Lemma op_if_keeps b opcode m : elements_ok m -> keeps m (op_if flags ver b opcode m).
Proof.
  intros (O1 & O2 & O3). unfold op_if. apply keeps_if; [|by apply keeps_ok]. destruct (stack m) as [|x s] eqn:E; [apply keeps_err|].
  apply keeps_if; [|apply keeps_err]. apply keeps_ok; [done|]. apply Forall_cons in O1 as [_ O1].
  exact (conj O1 (conj O2 O3)).
Qed.

(** An instruction leaves the position, and small elements. *)
Lemma execute_keeps b opcode m : elements_ok m -> keeps m (execute CheckLowS flags ver b opcode m).
Proof.
  intros O. pose proof O as (O1 & O2 & O3). unfold execute, op_else, op_endif.
  repeat first [by apply op_if_keeps|apply keeps_if]; try apply keeps_err; try (by apply keeps_ok); try by apply keeps_unit.
  - apply keeps_ok; [done|]. split; [|done]. apply Forall_cons; auto with munt.
  - destruct (vfExec m); [apply keeps_err|by apply keeps_ok].
  - destruct (vfExec m); [apply keeps_err|by apply keeps_ok].
  - destruct (stack m) as [|x s] eqn:E; [apply keeps_err|]. apply Forall_cons in O1 as [_ O1]. apply keeps_if; [|apply keeps_err].
    apply keeps_ok; [done|]. exact (conj O1 (conj O2 O3)).
  - destruct (stack m) as [|x s] eqn:E; [apply keeps_err|]. apply Forall_cons in O1 as [O1 O1']. apply keeps_ok; [done|].
    split; [done|]. split; [by apply Forall_cons|done].
  - destruct (altstack m) as [|x s] eqn:E; [apply keeps_err|]. apply Forall_cons in O2 as [O2 O2']. apply keeps_ok; [done|].
    split; [by apply Forall_cons|done].
  - apply keeps_stack; [done|]. intros s. apply op_stack_small.
  - apply keeps_stack; [done|]. intros s. apply op_equal_small.
  - apply keeps_stack; [done|]. intros s. apply op_unary_small.
  - apply keeps_stack; [done|]. intros s. apply op_binary_small.
  - apply keeps_stack; [done|]. intros s. apply op_within_small.
  - apply keeps_stack; [done|]. intros s. apply op_crypto_small.
  - apply keeps_stack; [done|]. intros s. apply op_checksig_small.
  - destruct (op_checkmultisig _ _ _ _ _ _ _) as [[s n]|] eqn:E; [|apply keeps_err]. apply op_checkmultisig_small in E as [F N]; [|lia|done].
    by apply keeps_ok.
Qed.

(** What a round of the loop does: it reads an instruction and keeps the limits. *)
Lemma eval_step_limits m m' : eval_step CheckLowS flags ver m = Ok m' -> within_limits m ->
  (exists opcode v, GetOp2 (pc m) = Some (opcode, v, pc m')) /\ within_limits m'.
Proof.
  intros E [L1 L2 L3 L4]. unfold eval_step in E. destruct (GetOp2 (pc m)) as [[[opcode v] pc']|] eqn:Eg; [|done].
  destruct (_ >? MAX_SCRIPT_ELEMENT_SIZE) eqn:Ev; [done|]. cbn [negb] in E.
  destruct (_ || _) eqn:Eo; [|done]. destruct (is_disabled opcode); [done|]. cbn [negb] in E.
  set (n := if opcode >? OP_16 then _ else _) in *. set (m1 := mkMachine pc' _ _ _ _ _) in E.
  assert (O : elements_ok m1) by (split; [done|]; split; [done|]; subst n; cbn; destruct (opcode >? OP_16); cbn [negb orb] in Eo; zbool; lia).
  match type of E with res_bind ?r _ = _ => assert (K : keeps m1 r) end.
  { apply keeps_if; [|apply keeps_if; [by apply execute_keeps|by apply keeps_ok]]. apply keeps_if; [|apply keeps_err].
    apply keeps_ok; [done|]. destruct O as (O1 & O2). split; [|done]. apply Forall_cons. split; [|done]. unfold small. zbool. lia. }
  match type of E with res_bind ?r _ = _ => destruct r as [m2|] end; [|done]. cbn [res_bind] in E.
  destruct (_ >? MAX_STACK_SIZE) eqn:Es; [done|]. injection E as <-. destruct (K m2 eq_refl) as (P & O1 & O2 & O3).
  zbool. split; [|by split]. exists opcode, v. by rewrite P.
Qed.

(** The position alone, without the limits. *)
Lemma stays_if m (b : bool) r1 r2 : stays m r1 -> stays m r2 -> stays m (if b then r1 else r2).
Proof. by destruct b. Qed.
Lemma stays_err m e : stays m (Err e).
Proof. by intros m'. Qed.
Lemma stays_ok m m' : pc m' = pc m -> stays m (Ok m').
Proof. by intros ? m2 [= <-]. Qed.
Lemma stays_bind {A} m (r : res ScriptError A) k : (forall a, stays m (k a)) -> stays m (res_bind r k).
Proof. intros K. destruct r; [apply K|apply stays_err]. Qed.

Lemma execute_stays b opcode m : stays m (execute CheckLowS flags ver b opcode m).
Proof.
  unfold execute, op_if, op_else, op_endif.
  repeat first [apply stays_err|apply stays_if|apply stays_ok; done|apply stays_bind; intros []
               |match goal with |- stays _ (match ?s with [] => _ | _ => _ end) => destruct s end].
Qed.

Lemma eval_step_reads m m' : eval_step CheckLowS flags ver m = Ok m' -> exists opcode v, GetOp2 (pc m) = Some (opcode, v, pc m').
Proof.
  unfold eval_step. destruct (GetOp2 (pc m)) as [[[opcode v] pc']|] eqn:Eg; [|done]. intros E. exists opcode, v.
  destruct (negb _); [|done]. destruct (_ || _); [|done]. destruct (negb _); [|done]. set (m1 := mkMachine pc' _ _ _ _ _) in E.
  match type of E with res_bind ?r _ = _ => assert (K : stays m1 r) end.
  { apply stays_if; [|apply stays_if; [apply execute_stays|by apply stays_ok]]. apply stays_if; [by apply stays_ok|apply stays_err]. }
  match type of E with res_bind ?r _ = _ => destruct r as [m2|] end; [|done]. cbn [res_bind] in E.
  destruct (negb _); [|done]. injection E as <-. by rewrite (K m2 eq_refl).
Qed.

Lemma eval_step_shorter m m' : eval_step CheckLowS flags ver m = Ok m' -> (length (pc m') < length (pc m))%nat.
Proof. intros (opcode & v & E)%eval_step_reads. exact (proj1 (GetOp2_consumes _ _ _ _ E)). Qed.

(** *** Runs *)

Lemma eval_loop_runs fuel m : (length (pc m) <= fuel)%nat ->
  exists n, (n <= length (pc m))%nat /\ runs CheckLowS flags ver n m (eval_loop CheckLowS flags ver fuel m).
Proof.
  revert m; induction fuel as [|f IH]; intros m L; cbn [eval_loop].
  - destruct (pc m) eqn:E; [|cbn in L; lia]. exists 0%nat. split; [cbn; lia|by constructor].
  - destruct (pc m) as [|b l] eqn:E; [exists 0%nat; split; [lia|by constructor]|]. rewrite <- E in *.
    assert (N : pc m <> []) by by rewrite E. destruct (eval_step CheckLowS flags ver m) as [m'|e] eqn:Es; cbn [res_bind].
    + pose proof (eval_step_shorter _ _ Es). destruct (IH m') as (n & Hn & R); [lia|]. exists (S n). split; [lia|].
      by apply (runs_step _ _ _ n m m').
    + exists 1%nat. split; [rewrite E; cbn; lia|]. by apply runs_error.
Qed.

Lemma runs_det n1 n2 m r1 r2 : runs CheckLowS flags ver n1 m r1 -> runs CheckLowS flags ver n2 m r2 -> r1 = r2 /\ n1 = n2.
Proof.
  intros R. revert n2 r2. induction R as [m E|m e N E|n m m' r N E _ IH]; intros n2 r2 R2; inversion R2; subst; try congruence.
  - split; congruence.
  - split; congruence.
  - match goal with A : eval_step _ _ _ m = Ok ?a, B : eval_step _ _ _ m = Ok ?b |- _ =>  assert (a = b) by congruence; subst end.
    match goal with X : runs _ _ _ _ _ r2 |- _ => destruct (IH _ _ X) as [-> ->] end. done.
Qed.

Lemma reachable_limits script stack0 : Forall small stack0 -> Z.of_nat (length stack0) <= MAX_STACK_SIZE ->
  forall m, reachable CheckLowS flags ver script stack0 m -> within_limits m.
Proof.
  intros F L m R. induction R as [|m m' _ IH _ E]; [split; cbn [stack altstack nOpCount length]; [lia|done|done|unfold MAX_OPS_PER_SCRIPT; lia]|]. by apply (eval_step_limits m m' E IH).
Qed.

(** *** Pushes *)

(** A value that [PushAll] pushes in the form that minimal pushes have to have. *)
Definition pushable (v : valtype) : Prop := small v /\ (fRequireMinimal flags = true -> v <> [0x81]).

Lemma CheckMinimalPush_data v : small v -> (forall b, v = [b] -> ~ (1 <= b <= 16 \/ b = 0x81)) -> CheckMinimalPush v (push_opcode (Z.of_nat (length v))) = true.
Proof.
  intros S N. unfold CheckMinimalPush, push_opcode, small, OP_0, OP_PUSHDATA1, OP_PUSHDATA2, OP_PUSHDATA4, MAX_SCRIPT_ELEMENT_SIZE in *.
  destruct v as [|b [|b' v]]; [done| |].
  - specialize (N b eq_refl). cbn [length byte_at nth]. change (Z.of_nat 1) with 1. cbn [Z.eqb Pos.eqb andb].
    destruct ((b >=? 1) && (b <=? 16)) eqn:E; zbool; [lia|]. destruct (b =? 129) eqn:E'; zbool; [lia|]. done.
  - set (n := Z.of_nat (length (b :: b' :: v))) in *. assert (2 <= n) by (subst n; cbn [length]; lia).
    rewrite !(proj2 (Z.eqb_neq n _)) by lia. cbn [andb].
    destruct (n <? 76) eqn:E1; zbool; [rewrite (proj2 (Z.leb_le n 75)) by lia; apply Z.eqb_refl|].
    rewrite (proj2 (Z.leb_gt n 75)) by lia. destruct (n <=? 255); [done|]. by destruct (n <=? 65535).
Qed.

(** The loop with the fuel that [EvalScript] gives it. *)
Definition eval_all (m : machine) : res ScriptError machine := eval_loop CheckLowS flags ver (length (pc m)) m.

Lemma eval_all_end m : pc m = [] -> eval_all m = Ok m.
Proof. intros E. unfold eval_all. rewrite E. cbn [length eval_loop]. by rewrite E. Qed.
Lemma eval_all_step m : pc m <> [] -> eval_all m = (let! m := eval_step CheckLowS flags ver m in eval_all m).
Proof.
  intros N. destruct (eval_loop_runs (length (pc m)) m) as (n & _ & R); [lia|]. fold (eval_all m) in R.
  destruct (eval_step CheckLowS flags ver m) as [m'|e] eqn:E; cbn [res_bind].
  - destruct (eval_loop_runs (length (pc m')) m') as (n' & _ & R'); [lia|]. fold (eval_all m') in R'.
    apply (runs_det n (S n') m); [done|]. by apply (runs_step _ _ _ n' m m').
  - apply (runs_det n 1 m); [done|]. by apply runs_error.
Qed.

(** The machine after a push. *)
Definition pushed (m : machine) (rest : list Z) (v : valtype) : machine :=
  mkMachine rest (pbegincodehash m) (v :: stack m) (altstack m) (vfExec m) (nOpCount m).
(** There is room for one more element, and the instructions are executed. *)
Definition room (m : machine) : Prop := Z.of_nat (length (stack m)) + Z.of_nat (length (altstack m)) < MAX_STACK_SIZE /\ forallb id (vfExec m) = true.

Lemma is_disabled_below op : op < OP_CAT -> is_disabled op = false.
Proof.
  intros L. apply not_true_iff_false. intros (x & Hx & Ex)%existsb_exists. apply Z.eqb_eq in Ex as <-.
  rewrite <- list_elem_of_In in Hx. revert op Hx L. rewrite <- Forall_forall. repeat constructor; intros L; by vm_compute in L.
Qed.

Lemma eval_step_data m v op rest : GetOp2 (pc m) = Some (op, v, rest) -> 0 <= op <= OP_PUSHDATA4 -> small v -> room m ->
  (fRequireMinimal flags = true -> CheckMinimalPush v op = true) -> eval_step CheckLowS flags ver m = Ok (pushed m rest v).
Proof.
  intros E O S [L X] M. unfold eval_step. rewrite E, X. unfold small, MAX_SCRIPT_ELEMENT_SIZE, OP_PUSHDATA4, OP_16, MAX_STACK_SIZE in *.
  rewrite Z.gtb_ltb, (proj2 (Z.ltb_ge _ _)) by lia. cbn [negb]. rewrite (Z.gtb_ltb op), (proj2 (Z.ltb_ge _ op)) by lia. cbn [negb orb].
  rewrite is_disabled_below by (unfold OP_CAT; lia).
  cbn [negb]. rewrite (proj2 (Z.leb_le op 78)) by lia. cbn [andb].
  assert (negb (fRequireMinimal flags) || CheckMinimalPush v op = true) as ->.
  { destruct (fRequireMinimal flags); [by rewrite M|done]. }
  cbn [res_bind with_stack stack altstack length]. rewrite Z.gtb_ltb, (proj2 (Z.ltb_ge _ _)) by lia. done.
Qed.

(** The machine when the instruction at the position has been read. *)
Definition fetched (m : machine) (op : Z) (rest : list Z) : machine :=
  mkMachine rest (pbegincodehash m) (stack m) (altstack m) (vfExec m) (if op >? OP_16 then nOpCount m + 1 else nOpCount m).
Definition fits_stack (m : machine) : bool := negb (Z.of_nat (length (stack m)) + Z.of_nat (length (altstack m)) >? MAX_STACK_SIZE).

(** An instruction that is executed. *)
Lemma eval_step_op m op rest : pc m = op :: rest -> (op <=? OP_PUSHDATA4) = false -> is_disabled op = false -> forallb id (vfExec m) = true ->
  nOpCount m < MAX_OPS_PER_SCRIPT ->
  eval_step CheckLowS flags ver m = (let! m := execute CheckLowS flags ver true op (fetched m op rest) in guard! fits_stack m or SCRIPT_ERR_STACK_SIZE in Ok m).
Proof.
  intros E O D X N. unfold eval_step. rewrite E. cbn [GetOp2]. rewrite O. cbn [length]. change (Z.of_nat 0 >? MAX_SCRIPT_ELEMENT_SIZE) with false.
  rewrite O, X, D. cbn [negb orb andb].
  assert (negb (op >? OP_16) || ((if op >? OP_16 then nOpCount m + 1 else nOpCount m) <=? MAX_OPS_PER_SCRIPT) = true) as ->; [|reflexivity].
  destruct (op >? OP_16); [|done]. cbn [negb orb]. apply Z.leb_le. lia.
Qed.

Lemma serialize_small b : 1 <= b <= 16 -> CScriptNum_serialize b = [b].
Proof.
  intros Hb. destruct b as [|p|p]; try lia. do 5 (destruct p as [p|p|]; try lia; try reflexivity).
Qed.

Lemma eval_step_push m v rest : pc m = push_value v ++ rest -> pushable v -> room m -> nOpCount m < MAX_OPS_PER_SCRIPT ->
  eval_step CheckLowS flags ver m = Ok (pushed m rest v).
Proof.
  intros E [S M] R N. unfold push_value in E. destruct (length v =? 0)%nat eqn:El.
  - apply Nat.eqb_eq in El. destruct v; [|done]. apply (eval_step_data m [] OP_0); [rewrite E; exact (proj1 (GetOp2_push_opcode [] rest eq_refl))|split; vm_compute; discriminate|done|done|done].
  - destruct ((length v =? 1)%nat && _ && _) eqn:Eb.
    + zbool. destruct v as [|b [|]]; try done. cbn [byte_at nth] in *. cbn [app] in E.
      rewrite (eval_step_op m (OP_1 + b - 1) rest E); [| | |apply R|done]; unfold OP_1 in *.
      * unfold execute, between, OP_1NEGATE, OP_1, OP_16. rewrite (proj2 (Z.leb_le 81 _)), (proj2 (Z.leb_le _ 96)), orb_true_r by lia.
        replace (81 + b - 1 - (81 - 1)) with b by lia. rewrite serialize_small by lia. cbn [res_bind with_stack stack altstack length].
        unfold fits_stack, fetched, OP_16. cbn [with_stack stack altstack length]. destruct R as [L _]. unfold MAX_STACK_SIZE in *.
        rewrite !Z.gtb_ltb, (proj2 (Z.ltb_ge 1000 _)), (proj2 (Z.ltb_ge 96 _)) by lia. done.
      * apply Z.leb_gt. unfold OP_PUSHDATA4. lia.
      * apply is_disabled_below. unfold OP_CAT. lia.
    + destruct (GetOp2_push_opcode v rest) as [G O]; [unfold small, MAX_SCRIPT_ELEMENT_SIZE in S; lia|].
      apply (eval_step_data m v (push_opcode (Z.of_nat (length v))) rest); [by rewrite E|done..|]. intros F. apply CheckMinimalPush_data; [done|].
      intros b -> [Hb| ->]; [|by apply (M F)]. cbn [length byte_at nth Nat.eqb andb] in Eb. apply andb_false_iff in Eb as [Eb|Eb]; zbool; lia.
Qed.

Lemma eval_all_pushes vs : forall m rest, pc m = PushAll vs ++ rest -> Forall pushable vs ->
  Z.of_nat (length vs) + Z.of_nat (length (stack m)) + Z.of_nat (length (altstack m)) <= MAX_STACK_SIZE -> forallb id (vfExec m) = true -> nOpCount m < MAX_OPS_PER_SCRIPT ->
  eval_all m = eval_all (mkMachine rest (pbegincodehash m) (rev vs ++ stack m) (altstack m) (vfExec m) (nOpCount m)).
Proof.
  induction vs as [|v vs IH]; intros m rest E F L X N.
  - destruct m; cbn in *. by subst.
  - apply Forall_cons in F as [Fv F]. cbn [PushAll flat_map] in E. rewrite <- app_assoc in E. fold (PushAll vs) in E. cbn [length] in L.
    assert (R : room m) by (split; [lia|done]). rewrite eval_all_step by (rewrite E; unfold push_value, push_data; repeat case_match; done).
    rewrite (eval_step_push m v _ E Fv R N). cbn [res_bind]. rewrite (IH _ rest); [|done|done|cbn [pushed stack altstack length]; lia|done|done].
    cbn [pushed pbegincodehash stack altstack vfExec nOpCount rev]. by rewrite <- app_assoc.
Qed.
End Limits.

(** ** Properties *)

(** C10: Evaluation of a script keeps the limits of the machine: between any two
    instructions there are at most 1000 elements on the two stacks, none larger than 520
    bytes, and at most 201 operations are counted, if the stack that the script starts
    on keeps them and hashes are not larger. *)
Theorem evaluation_keeps_limits `{SmallHashes} `{BaseSignatureChecker} CheckLowS flags ver (script : list Z) (stack0 : list valtype) :
  Forall small stack0 -> Z.of_nat (length stack0) <= MAX_STACK_SIZE ->
  (forall m, reachable CheckLowS flags ver script stack0 m -> within_limits m) /\
  (forall s, EvalScript CheckLowS flags ver stack0 script = Ok s -> Forall small s /\ Z.of_nat (length s) <= MAX_STACK_SIZE).
Proof.
  intros F L. pose proof (reachable_limits CheckLowS flags ver script stack0 F L) as R. split; [exact R|]. intros s E.
  unfold EvalScript in E. destruct (negb _); [|done]. set (m0 := mkMachine script script stack0 [] [] 0) in *.
  destruct (eval_loop_runs CheckLowS flags ver (length script) m0) as (n & _ & X); [done|].
  destruct (eval_loop _ _ _ _ m0) as [m|e] eqn:El; [|done]. cbn [res_bind] in E. destruct (vfExec m); [|done]. injection E as <-.
  assert (Rm : reachable CheckLowS flags ver script stack0 m).
  { assert (R0 : reachable CheckLowS flags ver script stack0 m0) by constructor. clearbody m0. clear El R. remember (Ok m) as r eqn:Er.
    revert R0. induction X as [m1 E1|m1 e1 N1 E1|n m1 m2 r N1 E1 X IH]; intros R0; [by injection Er as <-|done|].
    apply IH; [done|]. by apply (reachable_step _ _ _ _ _ m1). }
  destruct (R m Rm). split; [done|lia].
Qed.

(** Evaluation of a script ends, after at most as many instructions as the script has
    bytes, and what [EvalScript] answers is what the rounds of its loop lead to. *)
Theorem EvalScript_terminates `{ScriptHashes} `{BaseSignatureChecker} CheckLowS flags ver (script : list Z) (stack0 : list valtype) :
  exists n r, (n <= length script)%nat /\ runs CheckLowS flags ver n (mkMachine script script stack0 [] [] 0) r /\
    (forall n' r', runs CheckLowS flags ver n' (mkMachine script script stack0 [] [] 0) r' -> n' = n /\ r' = r) /\
    EvalScript CheckLowS flags ver stack0 script =
      (if Z.of_nat (length script) >? MAX_SCRIPT_SIZE then Err SCRIPT_ERR_SCRIPT_SIZE
       else match r with
            | Ok m => match vfExec m with [] => Ok (stack m) | _ => Err SCRIPT_ERR_UNBALANCED_CONDITIONAL end
            | Err e => Err e
            end).
Proof.
  set (m0 := mkMachine script script stack0 [] [] 0). destruct (eval_loop_runs CheckLowS flags ver (length script) m0) as (n & Hn & R); [done|].
  exists n. eexists. split; [done|]. split; [exact R|]. split.
  - intros n' r' R'. by destruct (runs_det _ _ _ _ _ _ _ _ R' R).
  - unfold EvalScript. fold m0. destruct (_ >? MAX_SCRIPT_SIZE); [done|]. by destruct (eval_loop _ _ _ _ m0).
Qed.

Lemma EvalScript_all `{ScriptHashes} `{BaseSignatureChecker} CheckLowS flags ver script stack0 : Z.of_nat (length script) <= MAX_SCRIPT_SIZE ->
  EvalScript CheckLowS flags ver stack0 script =
    (let! m := eval_all CheckLowS flags ver (mkMachine script script stack0 [] [] 0) in
     match vfExec m with [] => Ok (stack m) | _ => Err SCRIPT_ERR_UNBALANCED_CONDITIONAL end).
Proof. intros L. unfold EvalScript. by rewrite Z.gtb_ltb, (proj2 (Z.ltb_ge _ _)) by lia. Qed.

(** What [PushAll] writes evaluates to the values it was given, the last one on top,
    whether or not minimal pushes are required, as long as the limits allow it; only the
    byte 0x81 has a shorter push than the one it writes. *)
Theorem pushed_values_evaluate `{ScriptHashes} `{BaseSignatureChecker} CheckLowS flags ver (vs : list valtype) :
  Forall (pushable flags) vs -> Z.of_nat (length vs) <= MAX_STACK_SIZE -> Z.of_nat (length (PushAll vs)) <= MAX_SCRIPT_SIZE ->
  EvalScript CheckLowS flags ver [] (PushAll vs) = Ok (rev vs) /\
  (Z.of_nat (length (PushAll (vs ++ [[0x81]]))) <= MAX_SCRIPT_SIZE -> Z.of_nat (length vs) < MAX_STACK_SIZE -> fRequireMinimal flags = true ->
   EvalScript CheckLowS flags ver [] (PushAll (vs ++ [[0x81]])) = Err SCRIPT_ERR_MINIMALDATA).
Proof.
  intros F L S. split.
  - rewrite EvalScript_all by done. rewrite (eval_all_pushes CheckLowS flags ver vs _ []); [|by rewrite app_nil_r|done|cbn; lia|done|done].
    rewrite eval_all_end by done. cbn [res_bind vfExec stack]. by rewrite app_nil_r.
  - intros S' L' M. rewrite EvalScript_all by done. unfold PushAll. rewrite flat_map_app. fold (PushAll vs).
    rewrite (eval_all_pushes CheckLowS flags ver vs _ (push_value [129])); [|done|done|cbn; lia|done|done].
    rewrite eval_all_step by done. unfold eval_step. cbn [pc stack altstack vfExec nOpCount]. cbn -[eval_all fRequireMinimal]. by rewrite M.
Qed.

(** ** Witnesses *)

Module Toy.
(** Hashes that add a byte, cut to 20; a signature is accepted when it is the key. *)
#[export] Instance hashes : ScriptHashes := {|
  RIPEMD160 v := firstn 20 (1 :: v); SHA1 v := firstn 20 (2 :: v); SHA256 v := firstn 20 (3 :: v);
  Hash160 v := firstn 20 (v ++ repeat 0 20); Hash256 v := firstn 20 (5 :: v) |}.
#[export] Instance hashes_small : SmallHashes.
Proof.
  constructor. intros opcode v. unfold small, hash_of, MAX_SCRIPT_ELEMENT_SIZE. repeat case_match; cbn -[firstn]; rewrite length_firstn; lia.
Qed.
#[export] Instance checker : BaseSignatureChecker :=
  {| CheckSig sig key _ _ := bool_decide (sig = key); CheckLockTime _ := true; CheckSequence _ := true |}.
Definition low_s (_ : valtype) : bool := true.
End Toy.

Lemma evaluation_keeps_limits_witness :
  @EvalScript Toy.hashes Toy.checker Toy.low_s 0 SCRIPT_V2 [[7]] [OP_DUP; OP_HASH160] = Ok [7 :: repeat 0 19; [7]] /\ Forall small [7 :: repeat 0 19; [7]].
Proof.
  destruct (@evaluation_keeps_limits _ Toy.hashes_small Toy.checker Toy.low_s 0 SCRIPT_V2 [OP_DUP; OP_HASH160] [[7]]) as [_ K].
  - apply List.Forall_cons; [vm_compute; discriminate|apply List.Forall_nil].
  - vm_compute. discriminate.
  - split; [vm_compute; reflexivity|]. apply K. vm_compute. reflexivity.
Defined.

Lemma pushed_values_evaluate_witness : @EvalScript Toy.hashes Toy.checker Toy.low_s SCRIPT_VERIFY_MINIMALDATA SCRIPT_V1 [] (PushAll [[1; 2; 3]; []; [5]]) = Ok [[5]; []; [1; 2; 3]].
Proof.
  destruct (@pushed_values_evaluate Toy.hashes Toy.checker Toy.low_s SCRIPT_VERIFY_MINIMALDATA SCRIPT_V1 [[1; 2; 3]; []; [5]]) as [E _]; [| | |exact E].
  - repeat (apply Forall_cons; split); try apply List.Forall_nil; try (split; [vm_compute; discriminate|discriminate]).
  - vm_compute. discriminate.
  - vm_compute. discriminate.
Defined.
