(* ===== verification/StandardScripts.v ===== *)
(** * StandardScripts: what the standard forms of scripts demand

    [VerifyScript] on the forms that outputs use: a key hash, a script hash, several
    keys, and locks. The theorems say which spends are accepted; the signature checker
    is arbitrary unless it is the one of [SigCheck]. *)

From stdpp Require Import list.
From S2P Require Import Prelude ArithUint256 Serialize Compressor Transaction Script TxCheck Interpreter SigCheck InterpreterSpec.

(** ** Definitions *)

Definition key_hash_script (h : list Z) : list Z := [OP_DUP; OP_HASH160; 20] ++ h ++ [OP_EQUALVERIFY; OP_CHECKSIG].
Definition script_hash_script (h : list Z) : list Z := [OP_HASH160; 20] ++ h ++ [OP_EQUAL].

(** The values that a spend provides, in the script or beside it. *)
Definition provides (scriptSig : list Z) (witness values : list valtype) : Prop :=
  (scriptSig = PushAll values \/ (scriptSig = [] /\ witness = values)).
Definition ordinary_size (v : valtype) : Prop := (2 <= length v <= 520)%nat.

(** Each signature is accepted by a key of its own, in the order of the keys. *)
Inductive matched (ok : valtype -> valtype -> bool) : list valtype -> list valtype -> Prop :=
| matched_nil keys : matched ok [] keys
| matched_take sig sigs key keys : ok sig key = true -> matched ok sigs keys -> matched ok (sig :: sigs) (key :: keys)
| matched_skip sigs key keys : matched ok sigs keys -> matched ok sigs (key :: keys).

(** The encodings are as the flags demand. *)
Definition encodings_ok CheckLowS flags ver (sigs keys : list valtype) : Prop :=
  Forall (fun sig => match sigversion ver with SIGVERSION_BASE => CheckSignatureEncoding CheckLowS sig flags | SIGVERSION_SEGSIG => Ok tt end = Ok tt) sigs /\
  Forall (fun key => CheckPubKeyEncoding key flags = Ok tt) keys.

Section Eval.
Context `{ScriptHashes} `{BaseSignatureChecker}.
Variable CheckLowS : valtype -> bool.
Variable flags : Z.
Variable ver : ScriptVersion.
Abbreviation eval := (eval_all CheckLowS flags ver).

Lemma fits_stack_small m : Z.of_nat (length (stack m)) + Z.of_nat (length (altstack m)) <= MAX_STACK_SIZE -> fits_stack m = true.
Proof. intros L. unfold fits_stack. by rewrite Z.gtb_ltb, (proj2 (Z.ltb_ge _ _)). Qed.

Lemma ordinary_pushable v : ordinary_size v -> pushable flags v.
Proof. intros L. split; [unfold small, MAX_SCRIPT_ELEMENT_SIZE, ordinary_size in *; lia|]. intros _ ->. cbn in L. unfold ordinary_size in L. cbn in L. lia. Qed.

Lemma push_value_long v : (2 <= length v)%nat -> push_value v = push_data v.
Proof. intros L. unfold push_value. destruct v as [|a [|b v]]; cbn in L; try lia. done. Qed.

(** One instruction on the main stack, outside of conditionals. *)
Lemma eval_op op rest code s n r : (op <=? OP_PUSHDATA4) = false -> is_disabled op = false -> (op >? OP_16) = true -> n < MAX_OPS_PER_SCRIPT ->
  execute CheckLowS flags ver true op (mkMachine rest code s [] [] (n + 1)) = (let! s' := r in Ok (mkMachine rest code s' [] [] (n + 1))) ->
  (forall s', r = Ok s' -> Z.of_nat (length s') <= MAX_STACK_SIZE) ->
  eval (mkMachine (op :: rest) code s [] [] n) = (let! s' := r in eval (mkMachine rest code s' [] [] (n + 1))).
Proof.
  intros O D G N X F. rewrite eval_all_step by done. rewrite (eval_step_op _ _ _ _ op rest) by done. unfold fetched. cbn [pbegincodehash stack altstack vfExec nOpCount].
  rewrite G, X. destruct r as [s'|]; [|done]. cbn [res_bind]. rewrite fits_stack_small; [done|]. cbn [stack altstack length]. specialize (F s' eq_refl). lia.
Qed.

(** A push of an ordinary value. *)
Lemma eval_data v rest code s n : ordinary_size v -> Z.of_nat (length s) < MAX_STACK_SIZE -> n < MAX_OPS_PER_SCRIPT ->
  eval (mkMachine (push_data v ++ rest) code s [] [] n) = eval (mkMachine rest code (v :: s) [] [] n).
Proof.
  intros L F N. rewrite <- push_value_long by apply L. rewrite eval_all_step by (destruct v; [cbn in L; unfold ordinary_size in L; cbn in L; lia|by unfold push_value, push_data; repeat case_match]).
  rewrite (eval_step_push _ _ _ _ v rest); [done|done|by apply ordinary_pushable| |done]. split; [cbn; lia|done].
Qed.

Lemma op_checksig_length op code key sig s s' : op_checksig CheckLowS flags ver op code (key :: sig :: s) = Ok s' -> (length s' <= S (length s))%nat.
Proof.
  unfold op_checksig. destruct (check_one _ _ _ _ _ _) as [b|]; [|done]. cbn [res_bind]. destruct (_ || _ || _); [|done].
  destruct (op =? OP_CHECKSIGVERIFY); [destruct b; [|done]|]; intros [= <-]; cbn; lia.
Qed.

Lemma eval_key_hash h key sig s : length h = 20%nat -> (length s < 990)%nat ->
  EvalScript CheckLowS flags ver (key :: sig :: s) (key_hash_script h) =
  (guard! bool_decide (Hash160 key = h) or SCRIPT_ERR_EQUALVERIFY in op_checksig CheckLowS flags ver OP_CHECKSIG (key_hash_script h) (key :: sig :: s)).
Proof.
  intros Lh Ls. rewrite EvalScript_all by (unfold key_hash_script, MAX_SCRIPT_SIZE; rewrite !length_app; cbn; lia).
  remember (key_hash_script h) as code eqn:Ec. rewrite Ec at 1. unfold key_hash_script. cbn [app].
  assert (Lk : Z.of_nat (length (key :: sig :: s)) <= 992) by (cbn; lia).
  rewrite (eval_op OP_DUP _ _ _ _ (Ok (key :: key :: sig :: s))); [|done..|intros s' [= <-]; cbn in *; unfold MAX_STACK_SIZE; lia]. cbn [res_bind].
  rewrite (eval_op OP_HASH160 _ _ _ _ (Ok (Hash160 key :: key :: sig :: s))); [|done..|intros s' [= <-]; cbn in *; unfold MAX_STACK_SIZE; lia]. cbn [res_bind].
  change (20 :: h ++ [OP_EQUALVERIFY; OP_CHECKSIG]) with ([20] ++ h ++ [OP_EQUALVERIFY; OP_CHECKSIG]).
  assert (Ep : [20] ++ h = push_data h) by (unfold push_data; by rewrite Lh). rewrite app_assoc, Ep.
  rewrite eval_data; [|unfold ordinary_size; lia|cbn in *; unfold MAX_STACK_SIZE; lia|done].
  rewrite (eval_op OP_EQUALVERIFY _ _ _ _ (guard! bool_decide (Hash160 key = h) or SCRIPT_ERR_EQUALVERIFY in Ok (key :: sig :: s)));
    [|done..|intros s' E; destruct (bool_decide _); [injection E as <-; unfold MAX_STACK_SIZE; lia|done]].
  destruct (bool_decide (Hash160 key = h)); [|done]. cbn [res_bind].
  rewrite (eval_op OP_CHECKSIG _ _ _ _ (op_checksig CheckLowS flags ver OP_CHECKSIG code (key :: sig :: s))); [|done..|].
  - destruct (op_checksig _ _ _ _ _ _) as [s'|]; [|done]. cbn [res_bind]. by rewrite eval_all_end.
  - intros s' E. apply op_checksig_length in E. unfold MAX_STACK_SIZE. lia.
Qed.

Lemma eval_script_hash h x s : length h = 20%nat -> (length s < 990)%nat ->
  EvalScript CheckLowS flags ver (x :: s) (script_hash_script h) = Ok (vchBool (bool_decide (Hash160 x = h)) :: s).
Proof.
  intros Lh Ls. rewrite EvalScript_all by (unfold script_hash_script, MAX_SCRIPT_SIZE; rewrite !length_app; cbn; lia).
  set (code := script_hash_script h) at 2. unfold script_hash_script. cbn [app]. cbn [length] in *.
  rewrite (eval_op OP_HASH160 _ _ _ _ (Ok (Hash160 x :: s))); [|done..|intros s' [= <-]; cbn in *; unfold MAX_STACK_SIZE; lia]. cbn [res_bind].
  change (20 :: h ++ [OP_EQUAL]) with ([20] ++ h ++ [OP_EQUAL]).
  assert (Ep : [20] ++ h = push_data h) by (unfold push_data; by rewrite Lh). rewrite app_assoc, Ep.
  rewrite eval_data; [|unfold ordinary_size; lia|cbn in *; unfold MAX_STACK_SIZE; lia|done].
  rewrite (eval_op OP_EQUAL _ _ _ _ (Ok (vchBool (bool_decide (Hash160 x = h)) :: s))); [|done..|intros s' [= <-]; cbn in *; unfold MAX_STACK_SIZE; lia].
  cbn [res_bind]. by rewrite eval_all_end.
Qed.

Lemma eval_script_hash_empty h : length h = 20%nat -> EvalScript CheckLowS flags ver [] (script_hash_script h) = invalid_stack.
Proof.
  intros Lh. rewrite EvalScript_all by (unfold script_hash_script, MAX_SCRIPT_SIZE; rewrite !length_app; cbn; lia).
  set (code := script_hash_script h) at 2. unfold script_hash_script. cbn [app].
  rewrite (eval_op OP_HASH160 _ _ _ _ invalid_stack); [|done..]. done.
Qed.

(** *** The two scripts *)

Lemma IsPushOnly_loop_all vs : Forall small vs -> forall f, (length (PushAll vs) <= f)%nat -> IsPushOnly_loop f (PushAll vs) = true.
Proof.
  induction 1 as [|v vs S _ IH]; intros f L; [by destruct f|]. cbn [PushAll flat_map] in *. fold (PushAll vs) in *. rewrite length_app in L.
  assert (D : Z.of_nat (length v) < 2 ^ 32) by (unfold small, MAX_SCRIPT_ELEMENT_SIZE in S; lia).
  unfold push_value in *. destruct (length v =? 0)%nat eqn:E0.
  - cbn [length] in L. change [OP_0] with (push_data []). rewrite IsPushOnly_push; [|done|rewrite length_app; change (length (push_data [])) with 1%nat; lia].
    apply IH. lia.
  - destruct ((length v =? 1)%nat && _ && _) eqn:Eb.
    + zbool. cbn [length] in L. destruct f as [|f]; [lia|]. cbn [app IsPushOnly_loop GetOp2]. unfold OP_PUSHDATA4, OP_1, OP_16.
      rewrite (proj2 (Z.leb_gt _ 78)), Z.gtb_ltb, (proj2 (Z.ltb_ge 96 _)) by lia. apply IH. lia.
    + assert (1 <= length (push_data v))%nat by (unfold push_data; repeat case_match; cbn; lia).
      rewrite IsPushOnly_push; [|done|rewrite length_app; lia]. apply IH. lia.
Qed.
Lemma IsPushOnly_all vs : Forall small vs -> IsPushOnly (PushAll vs) = true.
Proof. intros F. by apply IsPushOnly_loop_all. Qed.

Lemma length_push_data v : ordinary_size v -> (length (push_data v) <= length v + 3)%nat.
Proof. intros L. unfold ordinary_size, push_data in *. rewrite !length_app. repeat case_match; zbool; cbn; rewrite ?length_le_bytes; lia. Qed.

Lemma provided_pushes scriptSig witness values : provides scriptSig witness values -> Forall ordinary_size values -> values <> [] -> (length values <= 10)%nat ->
  run_script CheckLowS flags ver [] (if (length scriptSig =? 0)%nat then PushAll witness else scriptSig) = Ok (rev values) /\ IsPushOnly scriptSig = true.
Proof.
  intros P F N L. assert (F1 : Forall (pushable flags) values) by (apply (Forall_impl _ _ _ F); intros; by apply ordinary_pushable).
  assert (F2 : Forall small values) by (apply (Forall_impl _ _ _ F1); by intros v []).
  assert (L2 : forall vs, Forall ordinary_size vs -> (length (PushAll vs) <= 523 * length vs)%nat).
  { induction 1 as [|v vs S _ IH]; [done|]. cbn [PushAll flat_map length]. fold (PushAll vs). rewrite length_app, push_value_long by apply S.
    pose proof (length_push_data v S). unfold ordinary_size in S. lia. }
  assert (E : EvalScript CheckLowS flags ver [] (PushAll values) = Ok (rev values)).
  { rewrite EvalScript_all by (unfold MAX_SCRIPT_SIZE; specialize (L2 values F); lia).
    rewrite (eval_all_pushes CheckLowS flags ver values _ []); [|by rewrite app_nil_r|done|cbn; unfold MAX_STACK_SIZE; lia|done|done].
    rewrite eval_all_end by done. cbn [res_bind vfExec stack]. by rewrite app_nil_r. }
  unfold run_script. destruct P as [->|[-> ->]]; [|cbn [length Nat.eqb]; by rewrite E].
  destruct values as [|v vs]; [done|]. apply Forall_cons in F as [S F]. split; [|by apply IsPushOnly_all].
  assert ((length (PushAll (v :: vs)) =? 0)%nat = false) as ->; [|by rewrite E].
  apply Nat.eqb_neq. cbn [PushAll flat_map]. rewrite length_app, push_value_long by apply S.
  unfold ordinary_size, push_data in *. rewrite length_app. lia.
Qed.

(** The conclusion of [VerifyScript] on the stack that is left. *)
Lemma clean_spend (s : list valtype) : (verify flags SCRIPT_VERIFY_CLEANSTACK = true -> verify flags SCRIPT_VERIFY_P2SH = true) ->
  (if verify flags SCRIPT_VERIFY_CLEANSTACK then
     guard! verify flags SCRIPT_VERIFY_P2SH or verify_assertion in guard! (length s =? 1)%nat or script_error SCRIPT_ERR_CLEANSTACK in Ok tt
   else Ok tt) = Ok tt <-> (verify flags SCRIPT_VERIFY_CLEANSTACK = true -> length s = 1%nat).
Proof.
  intros C. destruct (verify flags SCRIPT_VERIFY_CLEANSTACK); [|done]. rewrite C by done. destruct (length s =? 1)%nat eqn:E.
  - apply Nat.eqb_eq in E. by split.
  - apply Nat.eqb_neq in E. split; [done|]. intros X. by rewrite X in E.
Qed.

Lemma key_hash_not_script_hash h : length h = 20%nat -> IsPayToScriptHash (key_hash_script h) = false.
Proof. intros L. unfold IsPayToScriptHash, key_hash_script. rewrite !length_app, L. done. Qed.
Lemma script_hash_recognised h : length h = 20%nat -> IsPayToScriptHash (script_hash_script h) = true.
Proof.
  intros L. unfold IsPayToScriptHash, script_hash_script, byte_at. rewrite !length_app, L. cbn [length Nat.add Nat.eqb app nth].
  assert (E : nth 20 (h ++ [OP_EQUAL]) 0 = OP_EQUAL) by (rewrite <- L; apply nth_middle).
  change (nth 22 (OP_HASH160 :: 20 :: h ++ [OP_EQUAL]) 0) with (nth 20 (h ++ [OP_EQUAL]) 0). rewrite E. done.
Qed.

Lemma op_checksig_true op code key sig s : (op =? OP_CHECKSIGVERIFY) = false -> forall s', op_checksig CheckLowS flags ver op code (key :: sig :: s) = Ok s' ->
  exists b, s' = vchBool b :: s /\ check_one CheckLowS flags ver (script_code ver code [sig]) sig key = Ok b.
Proof.
  intros O s' E. unfold op_checksig in E. destruct (check_one _ _ _ _ _ _) as [b|]; [|done]. cbn [res_bind] in E. destruct (_ || _ || _); [|done].
  rewrite O in E. injection E as <-. by exists b.
Qed.
Lemma op_checksig_accept op code key sig s : (op =? OP_CHECKSIGVERIFY) = false -> check_one CheckLowS flags ver (script_code ver code [sig]) sig key = Ok true ->
  op_checksig CheckLowS flags ver op code (key :: sig :: s) = Ok (vchTrue :: s).
Proof. intros O E. unfold op_checksig. rewrite E. cbn [res_bind orb]. by rewrite O. Qed.
End Eval.

(** ** Lemmas: several keys *)

Lemma matched_length ok sigs keys : matched ok sigs keys -> (length sigs <= length keys)%nat.
Proof. induction 1; cbn; lia. Qed.
Lemma matched_tail ok sig sigs keys : matched ok (sig :: sigs) keys -> matched ok sigs keys.
Proof.
  remember (sig :: sigs) as l eqn:E. intros M. revert sig sigs E. induction M as [keys|sig' sigs' key keys O M IH|sigs' key keys M IH]; intros sig sigs E; [done| |].
  - injection E as -> ->. by apply matched_skip.
  - apply matched_skip. by apply (IH sig).
Qed.

Section Multisig.
Context `{ScriptHashes} `{BaseSignatureChecker}.
Variable CheckLowS : valtype -> bool.
Variable flags : Z.
Variable ver : ScriptVersion.

Lemma check_one_encoded code sig key sigs keys : encodings_ok CheckLowS flags ver (sig :: sigs) (key :: keys) ->
  check_one CheckLowS flags ver code sig key = Ok (CheckSig sig key code (sigversion ver)).
Proof. intros [E1%Forall_inv E2%Forall_inv]. unfold check_one. by rewrite E1, E2. Qed.

(** Taking the first key that accepts the next signature finds a match if there is one. *)
Lemma multisig_loop_spec code keys : forall sigs, (length sigs <= length keys)%nat -> encodings_ok CheckLowS flags ver sigs keys ->
  exists b, multisig_loop CheckLowS flags ver code sigs keys = Ok b /\ (b = true <-> matched (fun sig key => CheckSig sig key code (sigversion ver)) sigs keys).
Proof.
  induction keys as [|key keys IH]; intros [|sig sigs] L O; try (cbn in L; lia).
  - exists true. split; [done|]. split; [constructor|done].
  - exists true. split; [done|]. split; [constructor|done].
  - cbn [multisig_loop]. rewrite (check_one_encoded code sig key sigs keys O). cbn [res_bind]. destruct O as [O1 O2].
    pose proof (Forall_inv_tail O1) as O1'. apply Forall_inv_tail in O2.
    destruct (CheckSig sig key code (sigversion ver)) eqn:Ec.
    + cbn [length] in L. rewrite (proj2 (Nat.ltb_ge _ _)) by lia. destruct (IH sigs) as (b & E & R); [lia|by split|].
      exists b. split; [done|]. rewrite R. split; intros M; [by apply matched_take|]. inversion M; subst; [done|]. by apply (matched_tail _ sig).
    + destruct (length keys <? length (sig :: sigs))%nat eqn:El.
      * apply Nat.ltb_lt in El. exists false. split; [done|]. split; [done|]. intros M. inversion M as [|? ? ? ? X|? ? ? M']; subst; [congruence|].
        apply matched_length in M'. lia.
      * apply Nat.ltb_ge in El. destruct (IH (sig :: sigs)) as (b & E & R); [done|by split|].
        exists b. split; [done|]. rewrite R. split; intros M; [by apply matched_skip|]. by inversion M as [|? ? ? ? X|]; subst; [congruence|].
Qed.

Lemma script_num_count n : 0 <= n <= 20 -> script_num flags (CScriptNum_serialize n) 4 = Ok n /\ CScriptNum_getint n = n.
Proof.
  intros Hn. unfold script_num. generalize (fRequireMinimal flags) as b. intros b. destruct n as [|p|p]; [by destruct b| |lia].
  do 5 (destruct p as [p|p|]; try lia; try by destruct b).
Qed.

(** The arguments of [OP_CHECKMULTISIG], top first. *)
Definition multisig_stack (keys sigs s : list valtype) : list valtype :=
  CScriptNum_serialize (Z.of_nat (length keys)) :: keys ++ CScriptNum_serialize (Z.of_nat (length sigs)) :: sigs ++ s.
End Multisig.

(** ** Lemmas: locks and assertions *)

Lemma top_true_error s e : top_true s = Err e -> e = script_error SCRIPT_ERR_EVAL_FALSE.
Proof. destruct s as [|x s]; cbn; [by intros [= <-]|]. destruct (CastToBool x); [done|]. by intros [= <-]. Qed.
Lemma IsPayToScriptHash_inv script : IsPayToScriptHash script = true -> exists h, script = script_hash_script h /\ length h = 20%nat.
Proof.
  unfold IsPayToScriptHash. intros E. zbool. do 2 (destruct script as [|? script]; [done|]). cbn [byte_at nth length Nat.eqb] in *.
  exists (removelast script). assert (N : script <> []) by by intros ->. destruct (exists_last N) as (h & x & ->). rewrite removelast_last.
  match goal with X : (length _ =? 21)%nat = true |- _ => apply Nat.eqb_eq in X; rewrite length_app in X; cbn in X; assert (L : length h = 20%nat) by lia end.
  split; [|done]. unfold byte_at in *. cbn [nth] in *. match goal with X : nth 20 _ _ = OP_EQUAL |- _ => rewrite <- L, nth_middle in X; subst end.
  done.
Qed.

Section Locks.
Context `{ScriptHashes} `{BaseSignatureChecker}.
Variable CheckLowS : valtype -> bool.
Variable flags : Z.
Variable ver : ScriptVersion.

Lemma eval_step_data_inv m m' v op rest : GetOp2 (pc m) = Some (op, v, rest) -> op <= OP_PUSHDATA4 -> forallb id (vfExec m) = true ->
  eval_step CheckLowS flags ver m = Ok m' -> pc m' = rest /\ vfExec m' = vfExec m /\ stack m' = v :: stack m /\ nOpCount m' = nOpCount m.
Proof.
  intros E O X. unfold eval_step. rewrite E, X, (proj2 (Z.leb_le op OP_PUSHDATA4)), (Z.gtb_ltb op), (proj2 (Z.ltb_ge _ op)) by (unfold OP_PUSHDATA4, OP_16 in *; lia). cbn [andb].
  destruct (negb _); [|done]. destruct (_ || _); [|done]. destruct (negb _); [|done]. destruct (_ || _); [|done]. cbn [res_bind].
  destruct (negb _); [|done]. by intros [= <-].
Qed.

(** A script that pushes a value and then fails at an instruction that sees it. *)
Lemma lock_fails v op rest stack0 : Z.of_nat (length v) < 2 ^ 32 -> (op <=? OP_PUSHDATA4) = false -> is_disabled op = false ->
  (forall m s, stack m = v :: s -> exists e, execute CheckLowS flags ver true op m = Err e) ->
  exists e, EvalScript CheckLowS flags ver stack0 (push_data v ++ op :: rest) = Err e.
Proof.
  intros L O D F. destruct (Z.leb_spec (Z.of_nat (length (push_data v ++ op :: rest))) MAX_SCRIPT_SIZE) as [Ls|Ls].
  2:{ unfold EvalScript. rewrite Z.gtb_ltb, (proj2 (Z.ltb_lt _ _)) by done. by eexists. }
  rewrite EvalScript_all by done. destruct (GetOp2_push_opcode v (op :: rest) L) as [G B].
  set (m0 := mkMachine _ _ _ _ _ _). rewrite eval_all_step by (cbn; unfold push_data; repeat case_match; done).
  destruct (eval_step CheckLowS flags ver m0) as [m1|e] eqn:E1; [|by eexists].
  destruct (eval_step_data_inv m0 m1 v _ (op :: rest) G (proj2 B) eq_refl E1) as (P1 & X1 & S1 & N1). cbn [res_bind].
  rewrite eval_all_step by (by rewrite P1). rewrite (eval_step_op CheckLowS flags ver m1 op rest P1 O D); [|by rewrite X1|by rewrite N1].
  destruct (F (fetched m1 op rest) (stack m0)) as [e ->]; [done|]. by eexists.
Qed.

Lemma verify_script_fails scriptSig scriptPubKey witness e0 : (forall stack0, exists e, EvalScript CheckLowS flags ver stack0 scriptPubKey = Err e) ->
  VerifyScript CheckLowS flags ver scriptSig scriptPubKey witness <> Ok e0.
Proof.
  intros F. unfold VerifyScript, run_script. destruct (_ || _); [|done].
  destruct (EvalScript _ _ _ [] _) as [s|]; [|done]. cbn [res_bind]. by destruct (F s) as [e ->].
Qed.
End Locks.

(** ** Properties *)

(** C8: A spend of a key hash, with a signature and a key, is accepted exactly when the key
    has the hash, the encodings are as the flags demand, and the checker accepts the
    signature for the script, which before segregated signatures is the script without
    copies of the signature. *)
Theorem key_hash_spend_accepted_iff `{ScriptHashes} `{BaseSignatureChecker} CheckLowS flags ver scriptSig witness h sig key :
  length h = 20%nat -> ordinary_size sig -> ordinary_size key -> provides scriptSig witness [sig; key] ->
  (verify flags SCRIPT_VERIFY_CLEANSTACK = true -> verify flags SCRIPT_VERIFY_P2SH = true) ->
  VerifyScript CheckLowS flags ver scriptSig (key_hash_script h) witness = Ok tt <->
  Hash160 key = h /\ check_one CheckLowS flags ver (script_code ver (key_hash_script h) [sig]) sig key = Ok true.
Proof.
  intros Lh Ls Lk P C. destruct (provided_pushes CheckLowS flags ver scriptSig witness [sig; key] P) as [E I]; [repeat (apply Forall_cons; split); done|done|cbn; lia|].
  unfold VerifyScript. rewrite I, orb_true_r, E. cbn [res_bind rev app]. unfold run_script. rewrite eval_key_hash; [|done|cbn; lia].
  rewrite key_hash_not_script_hash, andb_false_r by done. destruct (bool_decide_reflect (Hash160 key = h)) as [Eh|Nh]; [|by split; [|intros [? _]]].
  split.
  - destruct (op_checksig _ _ _ _ _ _) as [s'|] eqn:Ec; [|done]. cbn [res_bind]. destruct (op_checksig_true _ _ _ OP_CHECKSIG _ key sig [] eq_refl s' Ec) as (b & -> & Eb).
    intros X. split; [done|]. rewrite Eb. f_equal. by destruct b.
  - intros [_ Ec]. rewrite op_checksig_accept by done. exact (proj2 (clean_spend flags [vchTrue] C) (fun _ => eq_refl)).
Qed.

(** C9: A spend of a script hash is accepted exactly when the spending script only pushes
    (or is empty, with the values beside it), the value it leaves on top has the hash, and
    that value, run as a script on the rest, leaves a true value, alone if the stack has to
    be clean. *)
Theorem script_hash_spend_accepted_iff `{ScriptHashes} `{BaseSignatureChecker} CheckLowS flags ver scriptSig witness h stack0 :
  length h = 20%nat -> verify flags SCRIPT_VERIFY_P2SH = true ->
  run_script CheckLowS flags ver [] (if (length scriptSig =? 0)%nat then PushAll witness else scriptSig) = Ok stack0 -> (length stack0 < 990)%nat ->
  VerifyScript CheckLowS flags ver scriptSig (script_hash_script h) witness = Ok tt <->
   IsPushOnly scriptSig = true /\ exists redeem s top s', stack0 = redeem :: s /\ Hash160 redeem = h /\
     EvalScript CheckLowS flags ver s redeem = Ok (top :: s') /\ CastToBool top = true /\ (verify flags SCRIPT_VERIFY_CLEANSTACK = true -> s' = []).
Proof.
  intros Lh V E L. unfold VerifyScript. rewrite E. cbn [res_bind]. rewrite script_hash_recognised, V by done. cbn [andb].
  destruct stack0 as [|redeem s].
  { unfold run_script. rewrite eval_script_hash_empty by done. cbn [res_bind]. destruct (_ || _); (split; [done|]);
    intros (_ & ? & ? & ? & ? & ? & _); done. }
  unfold run_script. rewrite eval_script_hash by (done || (cbn in L; lia)). cbn [res_bind top_true].
  destruct (IsPushOnly scriptSig).
  2:{ destruct (_ || _); [|by split; [|intros [? _]]]. destruct (bool_decide _); cbn; by split; [|intros [? _]]. }
  rewrite orb_true_r. destruct (bool_decide_reflect (Hash160 redeem = h)) as [Eh|Nh].
  2:{ cbn. split; [done|]. intros (_ & r & s2 & top & s' & [= <- <-] & Eh & _). done. }
  cbn [vchBool]. change (CastToBool vchTrue) with true. cbn [res_bind].
  destruct (EvalScript CheckLowS flags ver s redeem) as [[|top s']|e] eqn:Er; cbn [res_bind top_true].
  - split; [done|]. intros (_ & r & s2 & t & s3 & [= <- <-] & _ & Er' & _). congruence.
  - destruct (CastToBool top) eqn:Et; cbn [res_bind].
    + pose proof (clean_spend flags (top :: s') (fun _ => V)) as K. rewrite V in K. rewrite K. split.
      * intros X. split; [done|]. exists redeem, s, top, s'. split_and!; try done. intros C. apply length_zero_iff_nil. specialize (X C). cbn in X. lia.
      * intros (_ & r & s2 & t & s3 & [= <- <-] & _ & Er' & _ & X) C. rewrite Er in Er'. injection Er' as <- <-. by rewrite X.
    + split; [done|]. intros (_ & r & s2 & t & s3 & [= <- <-] & _ & Er' & Et' & _). congruence.
  - split; [done|]. intros (_ & r & s2 & t & s3 & [= <- <-] & _ & Er' & _). congruence.
Qed.

(** C23: [OP_CHECKMULTISIG] answers true exactly when each signature is accepted by a key of its
    own, in the order of the keys, although it tries the keys only once and in order; it takes
    its arguments from the stack, one more than it uses before segregated signatures, and
    counts the keys as operations. *)
Theorem multisig_is_ordered_match `{ScriptHashes} `{BaseSignatureChecker} CheckLowS flags ver code keys sigs dummy s n :
  (length sigs <= length keys <= 20)%nat -> n + Z.of_nat (length keys) <= MAX_OPS_PER_SCRIPT -> encodings_ok CheckLowS flags ver sigs keys ->
  length dummy = match ver with SCRIPT_V1 => 1%nat | SCRIPT_V2 => 0%nat end ->
  exists b, (b = true <-> matched (fun sig key => CheckSig sig key (script_code ver code sigs) (sigversion ver)) sigs keys) /\
    op_checkmultisig CheckLowS flags ver OP_CHECKMULTISIG code (multisig_stack keys sigs (dummy ++ s)) n =
      (if b || negb (verify flags SCRIPT_VERIFY_NULLFAIL) || forallb (fun sig => length sig =? 0)%nat sigs
       then Ok (vchBool b :: s, n + Z.of_nat (length keys)) else Err SCRIPT_ERR_SIG_NULLFAIL).
Proof.
  intros L N O D. destruct (multisig_loop_spec CheckLowS flags ver (script_code ver code sigs) keys sigs ltac:(lia) O) as (b & E & R).
  exists b. split; [done|]. unfold op_checkmultisig, multisig_stack.
  destruct (script_num_count flags (Z.of_nat (length keys))) as [-> G1]; [lia|]. cbn [res_bind]. rewrite G1.
  rewrite (proj2 (Z.leb_le 0 _)), (proj2 (Z.leb_le _ MAX_PUBKEYS_PER_MULTISIG)), (proj2 (Z.leb_le _ MAX_OPS_PER_SCRIPT)) by (unfold MAX_PUBKEYS_PER_MULTISIG; lia).
  cbn [andb]. rewrite Nat2Z.id, take_app_length, drop_app_length.
  destruct (script_num_count flags (Z.of_nat (length sigs))) as [-> G2]; [lia|]. cbn [res_bind]. rewrite G2.
  rewrite (proj2 (Z.leb_le 0 _)), (proj2 (Z.leb_le _ (Z.of_nat (length keys)))) by lia. cbn [andb].
  rewrite (proj2 (Z.leb_le _ (Z.of_nat (length (sigs ++ dummy ++ s))))) by (rewrite !length_app, D; destruct ver; cbn; lia).
  rewrite Nat2Z.id, take_app_length, E. cbn [res_bind].
  replace (Z.to_nat _) with (length (sigs ++ dummy)) by (rewrite length_app, D; destruct ver; cbn; lia).
  by rewrite app_assoc, drop_app_length.
Qed.

(** A defect of the source: an output whose script starts with an absolute lock can never be spent once the opcode
    has its meaning, and neither can one with a relative lock, except for an old script whose
    lock has the disable bit: [CheckLockTime] and [CheckSequence] accept nothing, since they
    demand that the lock is of both kinds at once. The comments of the source and the
    transactions of its tests ask for the opposite. *)
Theorem locked_output_is_unspendable `{ScriptHashes} `{Secp256k1} (c : TransactionSignatureChecker) CheckLowS flags ver scriptSig witness lock rest :
  Z.of_nat (length lock) < 2 ^ 32 ->
  let VerifyTx := @VerifyScript _ (transaction_checker c) CheckLowS flags ver in
  (verify flags SCRIPT_VERIFY_CHECKLOCKTIMEVERIFY = true ->
   VerifyTx scriptSig (push_data lock ++ OP_CHECKLOCKTIMEVERIFY :: rest) witness <> Ok tt) /\
  (verify flags SCRIPT_VERIFY_CHECKSEQUENCEVERIFY = true ->
   (ver = SCRIPT_V1 -> forall n, script_num flags lock 5 = Ok n -> Z.land n SEQUENCE_LOCKTIME_DISABLE_FLAG = 0) ->
   VerifyTx scriptSig (push_data lock ++ OP_CHECKSEQUENCEVERIFY :: rest) witness <> Ok tt).
Proof.
  intros L VerifyTx. split.
  - intros V. apply verify_script_fails. intros stack0. apply lock_fails; [done..|]. intros m s E.
    cbn -[op_checklocktimeverify]. unfold op_checklocktimeverify. rewrite V, E. cbn [negb].
    destruct (script_num _ lock 5) as [n|e]; [|by eexists]. cbn [res_bind]. destruct (negb _); [|by eexists].
    cbn [CheckLockTime transaction_checker]. rewrite CheckLockTime_never. by eexists.
  - intros V D. apply verify_script_fails. intros stack0. apply lock_fails; [done..|]. intros m s E.
    cbn -[op_checksequenceverify]. unfold op_checksequenceverify. rewrite V, E. cbn [negb].
    destruct (script_num _ lock 5) as [n|e] eqn:En; [|by eexists]. cbn [res_bind]. destruct (negb _); [|by eexists].
    cbn [CheckSequence transaction_checker]. rewrite CheckSequence_never.
    destruct ver; [rewrite (D eq_refl n eq_refl)|]; by eexists.
Qed.

(** Verification ends without a failed assertion when a clean stack is only asked for
    together with script hashes: the spending script of a script hash has left a value,
    or the script itself would have failed. *)
Theorem verification_never_asserts `{ScriptHashes} `{BaseSignatureChecker} CheckLowS flags ver scriptSig scriptPubKey witness :
  (verify flags SCRIPT_VERIFY_CLEANSTACK = true -> verify flags SCRIPT_VERIFY_P2SH = true) ->
  VerifyScript CheckLowS flags ver scriptSig scriptPubKey witness <> Err verify_assertion.
Proof.
  intros C. unfold VerifyScript, run_script. destruct (_ || _); [|done]. destruct (EvalScript _ _ _ [] _) as [s0|e] eqn:E0; [|done]. cbn [res_bind].
  destruct (EvalScript _ _ _ s0 scriptPubKey) as [s1|e] eqn:E1; [|done]. cbn [res_bind].
  destruct (top_true s1) as [|e] eqn:Et; [|by rewrite (top_true_error s1 e Et)]. cbn [res_bind].
  assert (X : forall s : list valtype, (if verify flags SCRIPT_VERIFY_CLEANSTACK then guard! verify flags SCRIPT_VERIFY_P2SH or verify_assertion in
      guard! (length s =? 1)%nat or script_error SCRIPT_ERR_CLEANSTACK in Ok tt else Ok tt) <> Err verify_assertion).
  { intros s. destruct (verify flags SCRIPT_VERIFY_CLEANSTACK); [|done]. rewrite C by done. by destruct (length s =? 1)%nat. }
  destruct (_ && IsPayToScriptHash scriptPubKey) eqn:Ep; [|apply X]. apply andb_true_iff in Ep as [_ Ep].
  destruct (IsPushOnly scriptSig); [|done]. destruct s0 as [|x s0].
  - destruct (IsPayToScriptHash_inv scriptPubKey Ep) as (h & -> & Lh). by rewrite eval_script_hash_empty in E1.
  - cbn [res_bind]. destruct (EvalScript _ _ _ s0 x) as [s2|e] eqn:E2; [|done]. cbn [res_bind].
    destruct (top_true s2) as [|e] eqn:Et2; [apply X|]. by rewrite (top_true_error s2 e Et2).
Qed.

(** ** Witnesses *)

Module Sample.
Definition key : valtype := repeat 2 33.
Definition sig : valtype := repeat 3 9.
Definition h : list Z := repeat 2 20.
Definition flags : Z := SCRIPT_VERIFY_P2SH + SCRIPT_VERIFY_CLEANSTACK.
Definition redeem : list Z := [OP_1; OP_1].
Definition redeem_hash : list Z := redeem ++ repeat 0 18.
#[export] Instance curve : Secp256k1 := {|
  point := unit; signature := unit; recoverable := unit; ec_pubkey_parse _ := None; ec_pubkey_serialize _ _ := []; signature_parse_compact _ := None;
  invalid_signature := tt; signature_normalize s := (s, false); ecdsa_verify _ _ _ := false; recoverable_parse_compact _ _ := None; ecdsa_recover _ _ := None |}.
Definition spend : CTransaction := mkTx 5 [mkTxIn 0 [] COutPoint_default 0 []] [] 500000100 0 0.
Definition spend_checker : TransactionSignatureChecker := mkChecker (blob_null 20) spend 0 1000 None.
End Sample.
#[local] Existing Instances InterpreterSpec.Toy.hashes InterpreterSpec.Toy.checker Sample.curve.

Lemma key_hash_spend_accepted_iff_witness :
  VerifyScript Toy.low_s Sample.flags SCRIPT_V2 [] (key_hash_script Sample.h) [Sample.key; Sample.key] = Ok tt /\
  VerifyScript Toy.low_s Sample.flags SCRIPT_V2 [] (key_hash_script Sample.h) [Sample.sig; Sample.key] <> Ok tt.
Proof.
  assert (O : forall n, (2 <= n <= 520)%nat -> forall b, ordinary_size (repeat b n)) by (intros n L b; unfold ordinary_size; by rewrite repeat_length).
  pose proof (key_hash_spend_accepted_iff Toy.low_s Sample.flags SCRIPT_V2 [] [Sample.key; Sample.key] Sample.h Sample.key Sample.key eq_refl
    (O 33%nat ltac:(lia) 2) (O 33%nat ltac:(lia) 2) (or_intror (conj eq_refl eq_refl)) (fun _ => eq_refl)) as I1.
  pose proof (key_hash_spend_accepted_iff Toy.low_s Sample.flags SCRIPT_V2 [] [Sample.sig; Sample.key] Sample.h Sample.sig Sample.key eq_refl
    (O 9%nat ltac:(lia) 3) (O 33%nat ltac:(lia) 2) (or_intror (conj eq_refl eq_refl)) (fun _ => eq_refl)) as I2.
  split; [apply I1; split; vm_compute; reflexivity|]. intros E. apply (proj1 I2) in E. destruct E as [_ E]. vm_compute in E. discriminate.
Defined.

Lemma script_hash_spend_accepted_iff_witness :
  VerifyScript Toy.low_s SCRIPT_VERIFY_P2SH SCRIPT_V1 (PushAll [Sample.redeem]) (script_hash_script Sample.redeem_hash) [] = Ok tt.
Proof.
  apply (script_hash_spend_accepted_iff Toy.low_s SCRIPT_VERIFY_P2SH SCRIPT_V1 _ [] Sample.redeem_hash [Sample.redeem]);
    [reflexivity|reflexivity|vm_compute; reflexivity|cbn; lia|].
  split; [reflexivity|]. exists Sample.redeem, [], [1], [[1]]. split_and!; [reflexivity|reflexivity|vm_compute; reflexivity|reflexivity|discriminate].
Defined.

Lemma multisig_is_ordered_match_witness : exists b,
  op_checkmultisig Toy.low_s 0 SCRIPT_V1 OP_CHECKMULTISIG [] (multisig_stack [[1]; [2]; [3]] [[1]; [3]] ([[]] ++ [[9]])) 0 = Ok ([vchBool b; [9]], 3) /\ b = true.
Proof.
  destruct (multisig_is_ordered_match Toy.low_s 0 SCRIPT_V1 [] [[1]; [2]; [3]] [[1]; [3]] [[]] [[9]] 0) as (b & R & E); [cbn; lia|vm_compute; discriminate| |reflexivity|].
  - split; repeat constructor.
  - exists b. rewrite E, orb_true_r. cbn [orb]. split; [reflexivity|]. apply R. repeat first [apply matched_nil | apply matched_take; [reflexivity|] | apply matched_skip].
Defined.

Lemma locked_output_is_unspendable_witness :
  @VerifyScript _ (transaction_checker Sample.spend_checker) Toy.low_s SCRIPT_VERIFY_CHECKLOCKTIMEVERIFY SCRIPT_V2
    [] (push_data (CScriptNum_serialize 500000000) ++ [OP_CHECKLOCKTIMEVERIFY]) [] <> Ok tt.
Proof.
  assert (L : Z.of_nat (length (CScriptNum_serialize 500000000)) < 2 ^ 32) by (vm_compute; reflexivity).
  destruct (locked_output_is_unspendable Sample.spend_checker Toy.low_s SCRIPT_VERIFY_CHECKLOCKTIMEVERIFY SCRIPT_V2 [] [] (CScriptNum_serialize 500000000) [] L) as [K _].
  apply K. reflexivity.
Defined.

Lemma verification_never_asserts_witness : VerifyScript Toy.low_s Sample.flags SCRIPT_V1 [] (script_hash_script Sample.h) [] <> Err verify_assertion.
Proof. apply verification_never_asserts. intros _. reflexivity. Defined.
