(* ===== verification/Standard.v ===== *)
(** * Standard: the standard forms of outputs, in [src/src/script/standard.cpp]

    The recogniser of script templates, the destinations of an output and the scripts
    of a destination. *)

From stdpp Require Import list.
From S2P Require Import Prelude ArithUint256 Serialize Compressor Transaction Script TxCheck Interpreter SigCheck StandardScripts.

(** ** Definitions *)

Inductive txnouttype :=
| TX_NONSTANDARD | TX_PUBKEY | TX_PUBKEYHASH | TX_SCRIPTHASH | TX_MULTISIG | TX_NULL_DATA
| TX_STANDARD_PUBKEY_HASH | TX_STANDARD_WITNESS.
#[export] Instance txnouttype_eq_dec : EqDecision txnouttype.
Proof. solve_decision. Defined.

Inductive CTxDestination :=
| CNoDestination
| CKeyID (h : list Z)
| CScriptID (h : list Z)
| CPoW2WitnessDestination (spendingKey witnessKey : list Z) (from until fails nonce : Z).

(** *** The recogniser *)

Definition OP_SMALLINTEGER : Z := 0xfa.
Definition OP_PUBKEYS : Z := 0xfb.
Definition OP_PUBKEYHASH : Z := 0xfd.
Definition OP_PUBKEY : Z := 0xfe.

Definition mTemplates : list (txnouttype * list Z) :=
  [(TX_PUBKEY, [OP_PUBKEY; OP_CHECKSIG]);
   (TX_PUBKEYHASH, [OP_DUP; OP_HASH160; OP_PUBKEYHASH; OP_EQUALVERIFY; OP_CHECKSIG]);
   (TX_MULTISIG, [OP_SMALLINTEGER; OP_PUBKEYS; OP_SMALLINTEGER; OP_CHECKMULTISIG])].

Definition key_size (vch : list Z) : bool := (33 <=? length vch)%nat && (length vch <=? 65)%nat.
(** The loop at [OP_PUBKEYS]: the keys, and where it stops; a failed read leaves an invalid
    opcode. Every turn reads an instruction, so the length of the script is enough fuel. *)
Fixpoint take_keys (fuel : nat) (opcode1 : Z) (vch1 pc1 : list Z) : list valtype * (Z * list Z * list Z) :=
  match fuel with
  | O => ([], (opcode1, vch1, pc1))
  | S f =>
      if key_size vch1 then
        match GetOp2 pc1 with
        | None => ([vch1], (OP_INVALIDOPCODE, [], pc1))
        | Some (op, v, pc) => let '(keys, stop) := take_keys f op v pc in (vch1 :: keys, stop)
        end
      else ([], (opcode1, vch1, pc1))
  end.
(** One instruction against one opcode of the template; [None] ends the comparison. *)
Definition match_opcode (opcode2 opcode1 : Z) (vch1 vch2 : list Z) : option (list valtype) :=
  if opcode2 =? OP_PUBKEY then if key_size vch1 then Some [vch1] else None
  else if opcode2 =? OP_PUBKEYHASH then if (length vch1 =? 20)%nat then Some [vch1] else None
  else if opcode2 =? OP_SMALLINTEGER then
    if (opcode1 =? OP_0) || ((opcode1 >=? OP_1) && (opcode1 <=? OP_16))
    then match DecodeOP_N opcode1 with Some n => Some [[n]] | None => None end
    else None
  else if negb (opcode1 =? opcode2) || negb (bool_decide (vch1 = vch2)) then None
  else Some [].
Fixpoint match_loop (fuel : nat) (pc1 pc2 : list Z) (sols : list valtype) : option (list valtype) :=
  match pc1, pc2 with
  | [], [] => Some sols
  | _, _ =>
      match fuel with
      | O => None
      | S f =>
          match GetOp2 pc1, GetOp2 pc2 with
          | Some (opcode1, vch1, pc1), Some (opcode2, vch2, pc2) =>
              if opcode2 =? OP_PUBKEYS then
                let '(keys, (opcode1, vch1, pc1)) := take_keys (S (length pc1)) opcode1 vch1 pc1 in
                match GetOp2 pc2 with
                | None => None
                | Some (opcode2, vch2, pc2) =>
                    match match_opcode opcode2 opcode1 vch1 vch2 with
                    | Some s => match_loop f pc1 pc2 (sols ++ keys ++ s)
                    | None => None
                    end
                end
              else
                match match_opcode opcode2 opcode1 vch1 vch2 with
                | Some s => match_loop f pc1 pc2 (sols ++ s)
                | None => None
                end
          | _, _ => None
          end
      end
  end.
Definition multisig_ok (sols : list valtype) : bool :=
  let m := byte_at (hd [] sols) 0 in
  let n := byte_at (List.last sols []) 0 in
  negb ((m <? 1) || (n <? 1) || (m >? n) || negb (Z.of_nat (length sols) - 2 =? n)).
(** The verdict, the type and the solutions. *)
Fixpoint scan_templates (script1 : list Z) (templates : list (txnouttype * list Z)) : bool * txnouttype * list valtype :=
  match templates with
  | [] => (false, TX_NONSTANDARD, [])
  | (typ, script2) :: rest =>
      match match_loop (S (length script1)) script1 script2 [] with
      | Some sols => if bool_decide (typ = TX_MULTISIG) && negb (multisig_ok sols) then (false, typ, sols) else (true, typ, sols)
      | None => scan_templates script1 rest
      end
  end.
Definition Solver (scriptPubKey : list Z) : bool * txnouttype * list valtype :=
  if IsPayToScriptHash scriptPubKey then (true, TX_SCRIPTHASH, [slice scriptPubKey 2 20])
  else if (1 <=? length scriptPubKey)%nat && (byte_at scriptPubKey 0 =? OP_RETURN) && IsPushOnly (skipn 1 scriptPubKey) then (true, TX_NULL_DATA, [])
  else scan_templates scriptPubKey mTemplates.

(** *** Destinations *)

Section Destinations.
Context `{ScriptHashes}.
(** What the constructor from two keys leaves in the action nonce, which it does not set. *)
Variable unset : Z.

Definition ExtractDestination_script (scriptPubKey : list Z) : option CTxDestination :=
  match Solver scriptPubKey with
  | (true, TX_PUBKEY, key :: _) => let pubKey := CPubKey_Set key in if CPubKey_IsValid pubKey then Some (CKeyID (CPubKey_GetID pubKey)) else None
  | (true, TX_PUBKEYHASH, h :: _) => Some (CKeyID h)
  | (true, TX_SCRIPTHASH, h :: _) => Some (CScriptID h)
  | _ => None
  end.
(** An output of an unknown type has no script to read. *)
Definition ExtractDestination (out : CTxOut) : option CTxDestination :=
  match output out with
  | PoW2WitnessOutput w => Some (CPoW2WitnessDestination (spendingKeyID w) (witnessKeyID w) 0 0 0 unset)
  | StandardKeyHashOutput keyID => Some (CKeyID keyID)
  | ScriptLegacyOutput scriptPubKey => ExtractDestination_script scriptPubKey
  | UnknownOutput _ => None
  end.

(** The type, the destinations and the number of signatures; [None] is failure. *)
Definition ExtractDestinations_script (scriptPubKey : list Z) : option (txnouttype * list CTxDestination * Z) :=
  match Solver scriptPubKey with
  | (false, _, _) | (true, TX_NULL_DATA, _) => None
  | (true, TX_MULTISIG, sols) =>
      let keys := List.filter CPubKey_IsValid (CPubKey_Set <$> removelast (tl sols)) in
      match keys with
      | [] => None
      | _ => Some (TX_MULTISIG, (fun k => CKeyID (CPubKey_GetID k)) <$> keys, byte_at (hd [] sols) 0)
      end
  | (true, typ, _) => match ExtractDestination_script scriptPubKey with Some address => Some (typ, [address], 1) | None => None end
  end.
Definition ExtractDestinations (out : CTxOut) : option (txnouttype * list CTxDestination * Z) :=
  match output out with
  | PoW2WitnessOutput w => Some (TX_STANDARD_WITNESS, [CPoW2WitnessDestination (spendingKeyID w) (witnessKeyID w) 0 0 0 unset], 1)
  | StandardKeyHashOutput keyID => Some (TX_STANDARD_PUBKEY_HASH, [CKeyID keyID], 1)
  | ScriptLegacyOutput scriptPubKey => ExtractDestinations_script scriptPubKey
  | UnknownOutput _ => None
  end.

(** *** Scripts of destinations *)

Definition GetScriptForDestination (dest : CTxDestination) : list Z :=
  match dest with
  | CNoDestination => []
  | CKeyID keyID => [OP_DUP; OP_HASH160] ++ push_data keyID ++ [OP_EQUALVERIFY; OP_CHECKSIG]
  | CScriptID scriptID => [OP_HASH160] ++ push_data scriptID ++ [OP_EQUAL]
  | CPoW2WitnessDestination s w from until fails nonce =>
      [OP_0; 72] ++ s ++ w ++ CScriptUInt64_bytes from ++ CScriptUInt64_bytes until ++ CScriptUInt64_bytes fails ++ CScriptUInt64_bytes nonce
  end.
Definition GetScriptForRawPubKey (pubKey : list Z) : list Z := push_data pubKey ++ [OP_CHECKSIG].
(** [None]: a number that is not a small integer, an assertion. *)
Definition GetScriptForMultisig (nRequired : Z) (keys : list (list Z)) : option (list Z) :=
  match EncodeOP_N nRequired, EncodeOP_N (Z.of_nat (length keys)) with
  | Some m, Some n => Some ([m] ++ flat_map push_data keys ++ [n; OP_CHECKMULTISIG])
  | _, _ => None
  end.
Definition GetScriptForWitness (redeemscript : list Z) : list Z :=
  match Solver redeemscript with
  | (true, TX_PUBKEY, key :: _) => OP_0 :: push_data (Hash160 key)
  | (true, TX_PUBKEYHASH, h :: _) => OP_0 :: push_data h
  | _ => OP_0 :: push_data (SHA256 redeemscript)
  end.
End Destinations.

(** ** Specification: the forms as lists of instructions *)

(** A script, or a part of it, as the instructions it decodes to. *)
Inductive decodes_to : list Z -> list (Z * list Z) -> list Z -> Prop :=
| decodes_nil pc : decodes_to pc [] pc
| decodes_op pc op v pc' l pc'' : GetOp2 pc = Some (op, v, pc') -> decodes_to pc' l pc'' -> decodes_to pc ((op, v) :: l) pc''.
Abbreviation decodes script l := (decodes_to script l []).

Definition all_keys (l : list (Z * list Z)) : Prop := Forall (fun x => key_size (snd x) = true) l.
Inductive template_form : list (Z * list Z) -> txnouttype -> list valtype -> Prop :=
| pubkey_form op key : key_size key = true -> template_form [(op, key); (OP_CHECKSIG, [])] TX_PUBKEY [key]
| key_hash_form op h : length h = 20%nat ->
    template_form [(OP_DUP, []); (OP_HASH160, []); (op, h); (OP_EQUALVERIFY, []); (OP_CHECKSIG, [])] TX_PUBKEYHASH [h]
| multisig_form opm m keys opn n : DecodeOP_N opm = Some m -> all_keys keys -> DecodeOP_N opn = Some n -> 1 <= m <= n -> n = Z.of_nat (length keys) ->
    template_form ((opm, []) :: keys ++ [(opn, []); (OP_CHECKMULTISIG, [])]) TX_MULTISIG ([m] :: (snd <$> keys) ++ [[n]]).

(** ** Lemmas *)

Lemma decodes_to_app pc l pc' l' pc'' : decodes_to pc l pc' -> decodes_to pc' l' pc'' -> decodes_to pc (l ++ l') pc''.
Proof. induction 1 as [|pc op v pc1 l pc2 G _ IH]; [done|]. intros D. cbn [app]. eapply decodes_op; [done|auto]. Qed.
Lemma decodes_to_app_inv l l' pc pc'' : decodes_to pc (l ++ l') pc'' -> exists pc', decodes_to pc l pc' /\ decodes_to pc' l' pc''.
Proof.
  revert pc; induction l as [|[op v] l IH]; intros pc D; [exists pc; split; [constructor|done]|]. cbn in D. inversion D as [|? ? ? pc1 ? ? G D']; subst.
  destruct (IH _ D') as (pc' & D1 & D2). exists pc'. split; [by eapply decodes_op|done].
Qed.
Lemma decodes_length pc l pc' : decodes_to pc l pc' -> (length l + length pc' <= length pc)%nat.
Proof. induction 1 as [|pc op v pc1 l pc2 G _ IH]; [cbn; lia|]. apply GetOp2_consumes in G. cbn. lia. Qed.
Lemma GetOp2_plain pc op v pc' : GetOp2 pc = Some (op, v, pc') -> OP_PUSHDATA4 < op \/ op = 0 -> v = [].
Proof.
  destruct pc as [|b pc]; [done|]. cbn [GetOp2]. destruct (b <=? OP_PUSHDATA4) eqn:E; zbool.
  - destruct (b <? OP_PUSHDATA1) eqn:E1; zbool.
    + destruct (_ <? b); [done|]. intros [= <- <- <-] [Hb|Hb]; [lia|by subst].
    + intros H [Hb|Hb]; unfold OP_PUSHDATA1 in *; repeat case_match; simplify_eq; lia.
  - by intros [= <- <- <-].
Qed.
Lemma small_op op n : DecodeOP_N op = Some n -> OP_PUSHDATA4 < op \/ op = 0.
Proof. unfold DecodeOP_N, OP_0, OP_1, OP_16, OP_PUSHDATA4. destruct (op =? 0) eqn:E; zbool; [auto|]. destruct (_ && _) eqn:F; [|done]. zbool. lia. Qed.

(** The comparison with a template. *)
Lemma match_done f pc1 sols r : match_loop f pc1 [] sols = Some r <-> pc1 = [] /\ r = sols.
Proof.
  destruct pc1 as [|b pc1]; [destruct f; cbn [match_loop]; naive_solver|]. split; [|by intros [? _]].
  destruct f as [|f]; cbn [match_loop]; [done|]. change (GetOp2 []) with (@None (Z * list Z * list Z)). by destruct (GetOp2 (b :: pc1)) as [[[? ?] ?]|].
Qed.
Lemma match_step f pc1 op2 pc2 sols r : OP_PUSHDATA4 < op2 -> op2 <> OP_PUBKEYS ->
  match_loop (S f) pc1 (op2 :: pc2) sols = Some r <->
  exists op v pc s, GetOp2 pc1 = Some (op, v, pc) /\ match_opcode op2 op v [] = Some s /\ match_loop f pc pc2 (sols ++ s) = Some r.
Proof.
  intros L N. assert (G : GetOp2 (op2 :: pc2) = Some (op2, [], pc2)) by (cbn; by rewrite (proj2 (Z.leb_gt _ _)) by done).
  assert (E : match_loop (S f) pc1 (op2 :: pc2) sols = match GetOp2 pc1 with
    | Some (op, v, pc) => match match_opcode op2 op v [] with Some s => match_loop f pc pc2 (sols ++ s) | None => None end | None => None end).
  { cbn [match_loop]. rewrite G, (proj2 (Z.eqb_neq _ _)) by done. by destruct pc1. }
  rewrite E. split.
  - destruct (GetOp2 pc1) as [[[op v] pc]|]; [|done]. destruct (match_opcode op2 op v []) as [s|] eqn:M; [|done]. intros R. by exists op, v, pc, s.
  - intros (op & v & pc & s & -> & -> & R). done.
Qed.
Lemma match_plain op2 op v s : OP_PUSHDATA4 < op2 -> op2 <> OP_PUBKEY -> op2 <> OP_PUBKEYHASH -> op2 <> OP_SMALLINTEGER ->
  match_opcode op2 op v [] = Some s <-> op = op2 /\ v = [] /\ s = [].
Proof.
  intros _ N1 N2 N3. unfold match_opcode. rewrite !(proj2 (Z.eqb_neq op2 _)) by done. destruct (op =? op2) eqn:E; zbool; cbn [negb orb].
  - destruct (bool_decide (v = [])) eqn:B; cbn [negb]; [apply bool_decide_eq_true in B|apply bool_decide_eq_false in B]; naive_solver.
  - naive_solver.
Qed.
Lemma match_small op v s : match_opcode OP_SMALLINTEGER op v [] = Some s <-> exists n, DecodeOP_N op = Some n /\ s = [[n]].
Proof.
  unfold match_opcode. change (OP_SMALLINTEGER =? OP_PUBKEY) with false. change (OP_SMALLINTEGER =? OP_PUBKEYHASH) with false. change (OP_SMALLINTEGER =? OP_SMALLINTEGER) with true. cbv iota.
  unfold DecodeOP_N. destruct (op =? OP_0); cbn [orb]; [naive_solver|]. destruct (_ && _); naive_solver.
Qed.

(** The loop over keys. *)
Lemma take_keys_sound f : forall pc0 op v pc keys op' v' pc', GetOp2 pc0 = Some (op, v, pc) -> (length pc < f)%nat ->
  take_keys f op v pc = (keys, (op', v', pc')) ->
  op' = OP_INVALIDOPCODE \/ exists l, all_keys l /\ keys = snd <$> l /\ decodes_to pc0 (l ++ [(op', v')]) pc'.
Proof.
  induction f as [|f IH]; intros pc0 op v pc keys op' v' pc' G L; [lia|]. cbn [take_keys]. destruct (key_size v) eqn:K.
  - destruct (GetOp2 pc) as [[[op1 v1] pc1]|] eqn:G1; [|intros [= <- <- <- <-]; by left].
    destruct (take_keys f op1 v1 pc1) as [ks [[op2 v2] pc2]] eqn:T. intros [= <- <- <- <-]. pose proof (GetOp2_consumes _ _ _ _ G1).
    destruct (IH pc op1 v1 pc1 ks op2 v2 pc2 G1 ltac:(lia) T) as [I|(l & Hl & -> & D)]; [by left|]. right. exists ((op, v) :: l).
    split_and!; [by constructor|done|]. cbn [app]. by eapply decodes_op.
  - intros [= <- <- <- <-]. right. exists []. split_and!; [constructor|done|]. eapply decodes_op; [done|constructor].
Qed.
Lemma take_keys_complete l : forall f pc0 op v pc op' v' pc', GetOp2 pc0 = Some (op, v, pc) -> (length l < f)%nat ->
  decodes_to pc0 (l ++ [(op', v')]) pc' -> all_keys l -> key_size v' = false -> take_keys f op v pc = (snd <$> l, (op', v', pc')).
Proof.
  induction l as [|[opl vl] l IH]; intros [|f] pc0 op v pc op' v' pc' G L D K N; cbn in L; try lia; cbn [app] in D; inversion D as [|? ? ? pc1 ? ? G' D']; subst;
    rewrite G in G'; injection G' as -> -> ->; cbn [take_keys].
  - rewrite N. by inversion D'.
  - inversion K as [|? ? K1 K2]; subst. cbn in K1. rewrite K1.
    assert (X : exists op1 v1 pc2, GetOp2 pc1 = Some (op1, v1, pc2)) by (destruct l as [|[o w] l]; cbn in D'; inversion D'; subst; eauto).
    destruct X as (op1 & v1 & pc2 & G1). rewrite G1, (IH f pc1 op1 v1 pc2 op' v' pc' G1) by (done || lia). done.
Qed.

(** *** The three templates *)

Lemma pubkey_template script sols : match_loop (S (length script)) script [OP_PUBKEY; OP_CHECKSIG] [] = Some sols <->
  exists l, decodes script l /\ template_form l TX_PUBKEY sols.
Proof.
  split.
  - intros (op & v & pc & s & G & M & R)%match_step; [|done..]. unfold match_opcode in M. change (OP_PUBKEY =? OP_PUBKEY) with true in M. cbv iota in M.
    destruct (key_size v) eqn:K; [|done]. injection M as <-. destruct (length script) as [|f] eqn:L; [by destruct script|].
    apply match_step in R as (op1 & v1 & pc1 & s1 & G1 & M1 & R); [|done..]. apply match_plain in M1 as (-> & -> & ->); [|done..].
    apply match_done in R as [-> ->]. exists [(op, v); (OP_CHECKSIG, [])]. split; [do 2 (eapply decodes_op; [done|]); constructor|by constructor].
  - intros (l & D & T). inversion T as [op key K| |]; subst. pose proof (decodes_length _ _ _ D) as L. cbn in L. destruct (length script) as [|[|f]]; [lia..|].
    inversion D as [|? ? ? pc1 ? ? G1 D1]; subst. inversion D1 as [|? ? ? pc2 ? ? G2 D2]; subst. inversion D2; subst.
    apply match_step; [done..|]. do 4 eexists. split_and!; [done|unfold match_opcode; change (OP_PUBKEY =? OP_PUBKEY) with true; cbv iota; by rewrite K|].
    apply match_step; [done..|]. do 4 eexists. split_and!; [done|by apply match_plain|]. by apply match_done.
Qed.

Lemma key_hash_template script sols :
  match_loop (S (length script)) script [OP_DUP; OP_HASH160; OP_PUBKEYHASH; OP_EQUALVERIFY; OP_CHECKSIG] [] = Some sols <->
  exists l, decodes script l /\ template_form l TX_PUBKEYHASH sols.
Proof.
  split.
  - generalize (length script). intros f (op & v & pc & s & G & M & R)%match_step; [|done..]. apply match_plain in M as (-> & -> & ->); [|done..].
    destruct f as [|f]; [by destruct pc|]. apply match_step in R as (op1 & v1 & pc1 & s1 & G1 & M1 & R); [|done..]. apply match_plain in M1 as (-> & -> & ->); [|done..].
    destruct f as [|f]; [by destruct pc1|]. apply match_step in R as (op2 & v2 & pc2 & s2 & G2 & M2 & R); [|done..].
    unfold match_opcode in M2. change (OP_PUBKEYHASH =? OP_PUBKEY) with false in M2. change (OP_PUBKEYHASH =? OP_PUBKEYHASH) with true in M2. cbv iota in M2.
    destruct (length v2 =? 20)%nat eqn:K; [|done]. injection M2 as <-. apply Nat.eqb_eq in K.
    destruct f as [|f]; [by destruct pc2|]. apply match_step in R as (op3 & v3 & pc3 & s3 & G3 & M3 & R); [|done..]. apply match_plain in M3 as (-> & -> & ->); [|done..].
    destruct f as [|f]; [by destruct pc3|]. apply match_step in R as (op4 & v4 & pc4 & s4 & G4 & M4 & R); [|done..]. apply match_plain in M4 as (-> & -> & ->); [|done..].
    apply match_done in R as [-> ->]. eexists. split; [do 5 (eapply decodes_op; [done|]); constructor|by constructor].
  - intros (l & D & T). inversion T as [|op h K|]; subst. pose proof (decodes_length _ _ _ D) as L. cbn in L.
    inversion D as [|? ? ? pc1 ? ? G1 D1]; subst. inversion D1 as [|? ? ? pc2 ? ? G2 D2]; subst. inversion D2 as [|? ? ? pc3 ? ? G3 D3]; subst.
    inversion D3 as [|? ? ? pc4 ? ? G4 D4]; subst. inversion D4 as [|? ? ? pc5 ? ? G5 D5]; subst. inversion D5; subst.
    destruct (length script) as [|[|[|[|[|f]]]]]; [lia..|].
    do 2 (apply match_step; [done..|]; do 4 eexists; split_and!; [done|by apply match_plain|]).
    apply match_step; [done..|]. do 4 eexists. split_and!; [done|unfold match_opcode; change (OP_PUBKEYHASH =? OP_PUBKEY) with false; change (OP_PUBKEYHASH =? OP_PUBKEYHASH) with true; cbv iota|].
    { apply Nat.eqb_eq in K. by rewrite K. }
    do 2 (apply match_step; [done..|]; do 4 eexists; split_and!; [done|by apply match_plain|]). by apply match_done.
Qed.

Lemma match_keys f pc1 op2 pc2 sols r : OP_PUSHDATA4 < op2 ->
  match_loop (S f) pc1 (OP_PUBKEYS :: op2 :: pc2) sols = Some r <->
  exists op v pc keys op' v' pc' s, GetOp2 pc1 = Some (op, v, pc) /\ take_keys (S (length pc)) op v pc = (keys, (op', v', pc')) /\
    match_opcode op2 op' v' [] = Some s /\ match_loop f pc' pc2 (sols ++ keys ++ s) = Some r.
Proof.
  intros L. assert (G : GetOp2 (op2 :: pc2) = Some (op2, [], pc2)) by (cbn; by rewrite (proj2 (Z.leb_gt _ _)) by done).
  assert (E : match_loop (S f) pc1 (OP_PUBKEYS :: op2 :: pc2) sols = match GetOp2 pc1 with
    | Some (op, v, pc) => let '(keys, (op', v', pc')) := take_keys (S (length pc)) op v pc in
        match match_opcode op2 op' v' [] with Some s => match_loop f pc' pc2 (sols ++ keys ++ s) | None => None end
    | None => None end).
  { cbn [match_loop]. change (GetOp2 (OP_PUBKEYS :: op2 :: pc2)) with (Some (OP_PUBKEYS, @nil Z, op2 :: pc2)). change (OP_PUBKEYS =? OP_PUBKEYS) with true.
    cbv beta iota. rewrite G. by destruct pc1. }
  rewrite E. split.
  - destruct (GetOp2 pc1) as [[[op v] pc]|]; [|done]. destruct (take_keys _ op v pc) as [keys [[op' v'] pc']] eqn:T.
    destruct (match_opcode op2 op' v' []) as [s|] eqn:M; [|done]. intros R. by exists op, v, pc, keys, op', v', pc', s.
  - intros (op & v & pc & keys & op' & v' & pc' & s & -> & -> & -> & R). done.
Qed.

Lemma multisig_template script sols : match_loop (S (length script)) script [OP_SMALLINTEGER; OP_PUBKEYS; OP_SMALLINTEGER; OP_CHECKMULTISIG] [] = Some sols <->
  exists opm m keys opn n, decodes script ((opm, []) :: keys ++ [(opn, []); (OP_CHECKMULTISIG, [])]) /\ all_keys keys /\
    DecodeOP_N opm = Some m /\ DecodeOP_N opn = Some n /\ sols = [m] :: (snd <$> keys) ++ [[n]].
Proof.
  split.
  - generalize (length script). intros f (opm & vm & pc & s & G & M & R)%match_step; [|done..]. apply match_small in M as (m & Dm & ->).
    destruct f as [|f]; [by destruct pc|]. apply match_keys in R as (op & v & pc1 & ks & opn & vn & pc2 & s1 & G1 & T & M1 & R); [|done].
    apply match_small in M1 as (n & Dn & ->). apply (take_keys_sound _ pc) in T; [|done|lia]. destruct T as [->|(l & K & -> & D)]; [by vm_compute in Dn|].
    destruct f as [|f]; [by destruct pc2|]. apply match_step in R as (op3 & v3 & pc3 & s3 & G3 & M3 & R); [|done..]. apply match_plain in M3 as (-> & -> & ->); [|done..].
    apply match_done in R as [-> ->]. exists opm, m, l, opn, n. apply decodes_to_app_inv in D as (pc4 & D & D4).
    inversion D4 as [|? ? ? ? ? ? G4 D5]; subst. inversion D5; subst.
    assert (vm = []) as -> by (eapply GetOp2_plain; [done|by eapply small_op]). assert (vn = []) as -> by (eapply GetOp2_plain; [done|by eapply small_op]).
    split_and!; try done; [|by rewrite app_nil_r].
    eapply decodes_op; [done|]. eapply decodes_to_app; [done|]. eapply decodes_op; [done|]. eapply decodes_op; [done|constructor].
  - intros (opm & m & keys & opn & n & D & K & Dm & Dn & ->). pose proof (decodes_length _ _ _ D) as L. cbn in L. rewrite length_app in L. cbn in L.
    inversion D as [|? ? ? pc ? ? G D1]; subst. change (keys ++ [(opn, []); (OP_CHECKMULTISIG, [])]) with (keys ++ [(opn, [])] ++ [(OP_CHECKMULTISIG, [])]) in D1.
    rewrite app_assoc in D1. apply decodes_to_app_inv in D1 as (pc2 & D1 & D2). inversion D2 as [|? ? ? pc3 ? ? G3 D3]; subst. inversion D3; subst.
    destruct (length script) as [|[|[|f]]]; [lia..|]. apply match_step; [done..|]. do 4 eexists. split_and!; [done|apply match_small; by exists m|].
    apply match_keys; [done|]. assert (X : exists op v pc1, GetOp2 pc = Some (op, v, pc1)) by (destruct keys as [|[o w] l]; cbn in D1; inversion D1; subst; eauto).
    destruct X as (op & v & pc1 & G1). pose proof (decodes_length _ _ _ D1) as L1. rewrite length_app in L1. cbn in L1. pose proof (GetOp2_consumes _ _ _ _ G1).
    assert (Lk : (length keys < S (length pc1))%nat).
    { destruct keys as [|[o w] l]; cbn in *; [lia|]. inversion D1 as [|? ? ? pc4 ? ? G4 D4]; subst. rewrite G1 in G4. injection G4 as -> -> ->.
      apply decodes_length in D4. rewrite length_app in D4. cbn in D4. lia. }
    do 8 eexists. split_and!; [done|by apply (take_keys_complete keys _ pc)|apply match_small; by exists n|].
    apply match_step; [done..|]. do 4 eexists. split_and!; [done|by apply match_plain|]. apply match_done. split; [done|]. by rewrite !app_nil_r.
Qed.

(** *** The whole recogniser *)

Lemma decodes_det pc l l' : decodes pc l -> decodes pc l' -> l = l'.
Proof.
  revert pc l'; induction l as [|[op v] l IH]; intros pc l' D D'; inversion D as [|? ? ? pc1 ? ? G D1]; subst.
  - inversion D' as [|? ? ? pc1 ? ? G D1]; subst; [done|]. by cbn in G.
  - inversion D' as [|? op' v' pc2 l2 ? G' D2]; subst; [by cbn in G|]. rewrite G in G'. injection G' as <- <- <-. f_equal. by apply (IH pc1).
Qed.

(** What the first instruction of a form is. *)
Lemma form_first script l t sols : decodes script l -> template_form l t sols -> exists b pc, script = b :: pc /\ b <> OP_HASH160 /\ b <> OP_RETURN.
Proof.
  intros D T. destruct script as [|b pc]; [inversion D; subst; [inversion T|]; done|]. exists b, pc. split; [done|].
  assert (F : OP_PUSHDATA4 < b -> exists l', l = (b, []) :: l').
  { intros B. inversion D as [|? op v pc' l' ? G D']; subst. cbn [GetOp2] in G. rewrite (proj2 (Z.leb_gt _ _)) in G by done. injection G as <- <- <-. by exists l'. }
  assert (N : forall l' b', l = (b', []) :: l' -> b' = OP_HASH160 \/ b' = OP_RETURN -> False).
  { intros l' b' -> Hb. inversion T as [? ? K|? ? ?|opm m keys opn n Dm]; subst; [by vm_compute in K|destruct Hb as [Hb|Hb]; discriminate Hb|].
    destruct Hb as [-> | ->]; by vm_compute in Dm. }
  split; intros ->; (destruct F as [l' E]; [done|]); apply (N l' _ E); auto.
Qed.
Lemma multisig_ok_iff m keys n : DecodeOP_N (fst m) = Some (snd m) -> DecodeOP_N (fst n) = Some (snd n) ->
  multisig_ok ([snd m] :: (snd <$> keys : list valtype) ++ [[snd n]]) = true <-> 1 <= snd m <= snd n /\ snd n = Z.of_nat (length (keys : list (Z * list Z))).
Proof.
  intros _ _. unfold multisig_ok. cbn [hd]. rewrite app_comm_cons, List.last_last. unfold byte_at. cbn [nth]. cbn [app length].
  rewrite length_app, length_fmap. cbn [length]. rewrite negb_true_iff, !orb_false_iff, negb_false_iff, Z.eqb_eq, !Z.ltb_ge, Z.gtb_ltb, Z.ltb_ge. lia.
Qed.

Lemma multisig_form_inv opm m keys opn n sols : DecodeOP_N opm = Some m -> DecodeOP_N opn = Some n ->
  template_form ((opm, []) :: keys ++ [(opn, []); (OP_CHECKMULTISIG, [])]) TX_MULTISIG sols ->
  sols = [m] :: (snd <$> keys) ++ [[n]] /\ 1 <= m <= n /\ n = Z.of_nat (length keys).
Proof.
  intros Dm Dn T. inversion T as [| |opm' m' keys' opn' n' Dm' K' Dn' R' Hn']; subst.
  match goal with X : _ ++ _ = _ ++ _ |- _ => apply app_inj_2 in X as [-> X]; [|done]; injection X as -> end.
  rewrite Dm' in Dm. rewrite Dn' in Dn. by simplify_eq.
Qed.
Lemma scan_iff script t sols : scan_templates script mTemplates = (true, t, sols) <-> exists l, decodes script l /\ template_form l t sols.
Proof.
  unfold mTemplates. cbn [scan_templates].
  assert (Dj : forall l l' t t' s s', decodes script l -> decodes script l' -> template_form l t s -> template_form l' t' s' -> t = t').
  { intros l l' t1 t2 s1 s2 D D' T T'. rewrite (decodes_det _ _ _ D' D) in T'. inversion T as [? ? K|? ? K|? ? keys ? ? Dm ? Dn ? Hn]; subst; inversion T' as [? ? K'|? ? K'|? ? keys' ? ? Dm']; subst; try done.
    all: try (by vm_compute in Dm'); try (by vm_compute in Dm). all: try (destruct keys; cbn in *; [lia|]). all: try (destruct keys'; cbn in *; congruence). }
  destruct (match_loop _ script [OP_PUBKEY; OP_CHECKSIG] []) as [s1|] eqn:M1.
  - apply pubkey_template in M1 as (l1 & D1 & T1). cbn [bool_decide decide_rel andb]. rewrite bool_decide_eq_false_2 by done. cbn [andb]. split.
    + intros [= <- <-]. by exists l1.
    + intros (l & D & T). pose proof (Dj _ _ _ _ _ _ D1 D T1 T). subst t. rewrite (decodes_det _ _ _ D D1) in T. inversion T1; subst. inversion T; subst. done.
  - assert (N1 : forall l s, decodes script l -> template_form l TX_PUBKEY s -> False) by (intros l s D T; rewrite (proj2 (pubkey_template script s)) in M1; [done|by exists l]).
    destruct (match_loop _ script [OP_DUP; _; _; _; _] []) as [s2|] eqn:M2.
    + apply key_hash_template in M2 as (l1 & D1 & T1). rewrite bool_decide_eq_false_2 by done. cbn [andb]. split.
      * intros [= <- <-]. by exists l1.
      * intros (l & D & T). pose proof (Dj _ _ _ _ _ _ D1 D T1 T). subst t. rewrite (decodes_det _ _ _ D D1) in T. inversion T1; subst. inversion T; subst. done.
    + assert (N2 : forall l s, decodes script l -> template_form l TX_PUBKEYHASH s -> False) by (intros l s D T; rewrite (proj2 (key_hash_template script s)) in M2; [done|by exists l]).
      destruct (match_loop _ script [OP_SMALLINTEGER; _; _; _] []) as [s3|] eqn:M3.
      * apply multisig_template in M3 as (opm & m & keys & opn & n & D & K & Dm & Dn & ->). rewrite bool_decide_eq_true_2 by done. cbn [andb].
        pose proof (multisig_ok_iff (opm, m) keys (opn, n) Dm Dn) as X. cbn [fst snd] in X. destruct (multisig_ok _); cbn [negb]; split.
        -- intros [= <- <-]. eexists. split; [done|]. destruct (proj1 X eq_refl). by constructor.
        -- intros (l & D' & T). destruct t; try (inversion T; fail); try by (exfalso; eauto). rewrite (decodes_det _ _ _ D' D) in T.
           by destruct (multisig_form_inv _ _ _ _ _ _ Dm Dn T) as [-> _].
        -- done.
        -- intros (l & D' & T). destruct t; try (inversion T; fail); try by (exfalso; eauto). rewrite (decodes_det _ _ _ D' D) in T.
           destruct (multisig_form_inv _ _ _ _ _ _ Dm Dn T) as (_ & R & Hn). discriminate (proj2 X (conj R Hn)).
      * split; [done|]. intros (l & D & T). destruct t; try (inversion T; fail); try by (exfalso; eauto).
        inversion T as [| |opm m keys opn n Dm K Dn R Hn]; subst. erewrite (proj2 (multisig_template script _)) in M3; [done|].
        exists opm, m, keys, opn, (Z.of_nat (length keys)). done.
Qed.

(** Scripts that are built from pushes. *)
Lemma decodes_push b rest l : Z.of_nat (length b) < 2 ^ 32 -> decodes rest l -> exists op, decodes (push_data b ++ rest) ((op, b) :: l).
Proof. intros L D. destruct (GetOp2_push b rest L) as (op & G & _). exists op. by eapply decodes_op. Qed.
Lemma decodes_plain op rest l : OP_PUSHDATA4 < op \/ op = 0 -> decodes rest l -> decodes (op :: rest) ((op, []) :: l).
Proof.
  intros [L| ->] D; (eapply decodes_op; [|done]); [cbn [GetOp2]; by rewrite (proj2 (Z.leb_gt _ _)) by done|].
  change (GetOp2 (0 :: rest)) with (if Z.of_nat (length rest) <? 0 then None else Some (0, @nil Z, rest)). by rewrite (proj2 (Z.ltb_ge _ _)) by lia.
Qed.
Lemma decodes_pushes keys rest l : Forall (fun k => key_size k = true) keys -> decodes rest l ->
  exists ops, snd <$> ops = keys /\ all_keys ops /\ decodes (flat_map push_data keys ++ rest) (ops ++ l).
Proof.
  intros K D. induction K as [|k keys Hk _ IH]; [exists []; split_and!; [done|constructor|done]|]. destruct IH as (ops & <- & A & D'). cbn [flat_map]. rewrite <- app_assoc.
  assert (length k <= 65)%nat by (unfold key_size in Hk; apply andb_true_iff in Hk as [_ Hk%Nat.leb_le]; done).
  destruct (decodes_push k _ _ ltac:(lia) D') as (op & D2). exists ((op, k) :: ops). split_and!; [done|by constructor|done].
Qed.
Lemma EncodeOP_N_Some n op : EncodeOP_N n = Some op -> 0 <= n <= 16 /\ DecodeOP_N op = Some n.
Proof.
  unfold EncodeOP_N, DecodeOP_N, OP_0, OP_1, OP_16. destruct (_ && _) eqn:E; [|done]. zbool. intros [= <-]. split; [lia|].
  destruct (n =? 0) eqn:Z0; zbool; [by subst|]. rewrite (proj2 (Z.eqb_neq _ _)), !Z.geb_leb, !(proj2 (Z.leb_le _ _)) by lia. cbn [andb]. f_equal. lia.
Qed.

Lemma solver_iff script t sols : Solver script = (true, t, sols) <->
  (t = TX_SCRIPTHASH /\ exists h, length h = 20%nat /\ script = script_hash_script h /\ sols = [h]) \/
  (t = TX_NULL_DATA /\ sols = [] /\ exists data, script = OP_RETURN :: data /\ IsPushOnly data = true) \/
  (exists l, decodes script l /\ template_form l t sols).
Proof.
  assert (P : forall h, length h = 20%nat -> slice (script_hash_script h) 2 20 = h).
  { intros h L. unfold slice, script_hash_script. cbn [app skipn]. rewrite <- L. apply take_app_length. }
  unfold Solver. destruct (IsPayToScriptHash script) eqn:Ep.
  - destruct (IsPayToScriptHash_inv script Ep) as (h & -> & L). rewrite P by done. split.
    + intros [= <- <-]. left. split; [done|]. by exists h.
    + intros [(-> & h' & L' & E & ->)|[(-> & -> & d & E & _)|(l & D & T)]].
      * unfold script_hash_script in E. injection E as E. apply app_inj_2 in E as [-> _]; [done|done].
      * unfold script_hash_script in E. by injection E.
      * destruct (form_first _ _ _ _ D T) as (b & pc & E & N & _). injection E as <- _. done.
  - destruct (_ && _ && _) eqn:En.
    + zbool. destruct script as [|b data]; [cbn in *; lia|]. cbn [byte_at nth skipn] in *. subst b. split.
      * intros [= <- <-]. right. left. split_and!; [done|done|]. by exists data.
      * intros [(-> & h & L & E & ->)|[(-> & -> & _)|(l & D & T)]]; [done|done|]. destruct (form_first _ _ _ _ D T) as (b & pc & E & _ & N). injection E as <- _. done.
    + rewrite scan_iff. split; [auto|]. intros [(-> & h & L & -> & ->)|[(-> & -> & d & -> & Pd)|X]]; [by rewrite script_hash_recognised in Ep| |done].
      change (skipn 1 (OP_RETURN :: d)) with d in En. by rewrite Pd in En.
Qed.

(** *** The scripts that are made for destinations *)

Lemma solve_key_hash `{ScriptHashes} h : length h = 20%nat -> Solver (GetScriptForDestination (CKeyID h)) = (true, TX_PUBKEYHASH, [h]).
Proof.
  intros L. apply solver_iff. right. right. cbn [GetScriptForDestination app].
  destruct (decodes_push h [OP_EQUALVERIFY; OP_CHECKSIG] [(OP_EQUALVERIFY, []); (OP_CHECKSIG, [])]) as (op & D); [rewrite L; done|do 2 (apply decodes_plain; [by left|]); constructor|].
  eexists. split; [apply decodes_plain; [by left|]; apply decodes_plain; [by left|]; exact D|by constructor].
Qed.
Lemma solve_script_hash `{ScriptHashes} h : length h = 20%nat -> Solver (GetScriptForDestination (CScriptID h)) = (true, TX_SCRIPTHASH, [h]).
Proof.
  intros L. apply solver_iff. left. split; [done|]. exists h. split_and!; [done| |done]. cbn [GetScriptForDestination].
  assert (push_data h = 20 :: h) as -> by (unfold push_data; rewrite L; done). done.
Qed.
Lemma solve_raw_key key : key_size key = true -> Solver (GetScriptForRawPubKey key) = (true, TX_PUBKEY, [key]).
Proof.
  intros K. apply solver_iff. right. right. assert (L : Z.of_nat (length key) < 2 ^ 32) by (unfold key_size in K; apply andb_true_iff in K as [_ K%Nat.leb_le]; lia).
  destruct (decodes_push key [OP_CHECKSIG] [(OP_CHECKSIG, [])] L) as (op & D); [apply decodes_plain; [by left|constructor]|].
  eexists. split; [exact D|by constructor].
Qed.
Lemma solve_multisig m keys script : Forall (fun k => key_size k = true) keys -> 1 <= m <= Z.of_nat (length keys) -> GetScriptForMultisig m keys = Some script ->
  Solver script = (true, TX_MULTISIG, [m] :: keys ++ [[Z.of_nat (length keys)]]).
Proof.
  intros K M E. unfold GetScriptForMultisig in E. destruct (EncodeOP_N m) as [opm|] eqn:Em; [|done]. destruct (EncodeOP_N (Z.of_nat (length keys))) as [opn|] eqn:En; [|done]. injection E as <-.
  apply EncodeOP_N_Some in Em as [Rm Dm]. apply EncodeOP_N_Some in En as [Rn Dn].
  destruct (decodes_pushes keys [opn; OP_CHECKMULTISIG] [(opn, []); (OP_CHECKMULTISIG, [])]) as (ops & Eo & A & D); [done| |].
  { apply decodes_plain; [by eapply small_op|]. apply decodes_plain; [by left|constructor]. }
  assert (Lo : length ops = length keys) by (by rewrite <- Eo, length_fmap).
  replace (keys ++ [[Z.of_nat (length keys)]]) with ((snd <$> ops) ++ [[Z.of_nat (length keys)]]) by (by rewrite Eo). apply solver_iff.
  right. right. eexists. split; [apply decodes_plain; [by eapply small_op|exact D]|]. by constructor; try lia.
Qed.

(** ** Theorems *)

(** C27: The recogniser of standard scripts answers a type with its solutions exactly when
    the script is the script hash form, a data output, or decodes to the instructions of
    one of the templates, and the solutions are the keys, the hash and the numbers there. *)
Theorem solver_recognises_forms script t sols : Solver script = (true, t, sols) <->
  (t = TX_SCRIPTHASH /\ exists h, length h = 20%nat /\ script = script_hash_script h /\ sols = [h]) \/
  (t = TX_NULL_DATA /\ sols = [] /\ exists data, script = OP_RETURN :: data /\ IsPushOnly data = true) \/
  (exists l, decodes script l /\ template_form l t sols).
Proof. apply solver_iff. Qed.

(** C28: The scripts that are made for a destination or for keys are recognised as such and give
    back what they were made for: both functions that look for the destination of an output, by
    itself or with its type and the number of signatures, find the hash of a key, the hash of a script,
    and the hash of a whole key, each with one signature; a script for several keys gives its
    keys in order and the number of signatures it was made with, and has no single destination. Outputs
    without a script give the hash of their key, or for a witness output both keys, with nothing
    of its lock. A whole key is one that is read back as it is, by its size and first byte. *)
Theorem destinations_roundtrip `{ScriptHashes} unset value base h m key keys script w :
  length h = 20%nat -> Forall (fun k => key_size k = true /\ CPubKey_Set k = k) (key :: keys) ->
  1 <= m <= Z.of_nat (length keys) -> GetScriptForMultisig m keys = Some script ->
  let pays o typ d := ExtractDestination unset (mkTxOut value base o) = Some d /\ ExtractDestinations unset (mkTxOut value base o) = Some (typ, [d], 1) in
  pays (ScriptLegacyOutput (GetScriptForDestination (CKeyID h))) TX_PUBKEYHASH (CKeyID h) /\
  pays (ScriptLegacyOutput (GetScriptForDestination (CScriptID h))) TX_SCRIPTHASH (CScriptID h) /\
  pays (ScriptLegacyOutput (GetScriptForRawPubKey key)) TX_PUBKEY (CKeyID (CPubKey_GetID key)) /\
  pays (StandardKeyHashOutput h) TX_STANDARD_PUBKEY_HASH (CKeyID h) /\
  pays (PoW2WitnessOutput w) TX_STANDARD_WITNESS (CPoW2WitnessDestination (spendingKeyID w) (witnessKeyID w) 0 0 0 unset) /\
  ExtractDestination unset (mkTxOut value base (ScriptLegacyOutput script)) = None /\
  ExtractDestinations unset (mkTxOut value base (ScriptLegacyOutput script)) = Some (TX_MULTISIG, (fun k => CKeyID (CPubKey_GetID k)) <$> keys, m).
Proof.
  intros L K M E pays. apply Forall_cons_iff in K as [[Ks Kp] K].
  assert (V : forall k, key_size k = true -> CPubKey_IsValid k = true) by (intros k; unfold key_size, CPubKey_IsValid; by destruct (length k)).
  assert (P : forall s typ d, typ <> TX_NULL_DATA -> typ <> TX_MULTISIG -> (exists sols, Solver s = (true, typ, sols)) -> ExtractDestination_script s = Some d ->
    pays (ScriptLegacyOutput s) typ d).
  { intros s typ d N1 N2 [sols Es] Ed. unfold pays, ExtractDestination, ExtractDestinations, ExtractDestinations_script. cbn [output]. rewrite Es, Ed. by destruct typ. }
  assert (X : List.filter CPubKey_IsValid (CPubKey_Set <$> keys) = keys).
  { clear -K V. induction K as [|k keys [Ks Kp] _ IH]; [done|]. cbn. by rewrite Kp, (V k Ks), IH. }
  assert (Km : Forall (fun k => key_size k = true) keys) by (eapply Forall_impl; [exact K|by intros k [? _]]).
  split_and!; [apply P|apply P|apply P|done|done|..]; try done.
  1,3,5: eexists; (apply solve_key_hash || apply solve_script_hash || apply solve_raw_key); done.
  - unfold ExtractDestination_script. by rewrite solve_key_hash.
  - unfold ExtractDestination_script. by rewrite solve_script_hash.
  - unfold ExtractDestination_script. rewrite solve_raw_key, Kp by done. by rewrite V.
  - cbn. unfold ExtractDestination_script. by rewrite (solve_multisig m keys script).
  - cbn. unfold ExtractDestinations_script. rewrite (solve_multisig m keys script) by done. cbn [tl hd]. rewrite removelast_last, X. by destruct keys; [cbn in M; lia|].
Qed.

Definition sample_key (n : Z) : list Z := 2 :: repeat n 32.
#[local] Existing Instance InterpreterSpec.Toy.hashes.
Lemma destinations_roundtrip_witness : exists script, GetScriptForMultisig 1 [sample_key 5; sample_key 6] = Some script /\
  ExtractDestinations 9 (mkTxOut 7 7 (ScriptLegacyOutput (GetScriptForRawPubKey (sample_key 4)))) = Some (TX_PUBKEY, [CKeyID (CPubKey_GetID (sample_key 4))], 1) /\
  ExtractDestinations 9 (mkTxOut 7 7 (ScriptLegacyOutput script)) = Some (TX_MULTISIG, [CKeyID (CPubKey_GetID (sample_key 5)); CKeyID (CPubKey_GetID (sample_key 6))], 1).
Proof.
  assert (exists script, GetScriptForMultisig 1 [sample_key 5; sample_key 6] = Some script) as [script E] by (eexists; vm_compute; reflexivity).
  exists script. split; [exact E|].
  destruct (destinations_roundtrip 9 7 7 (repeat 1 20) 1 (sample_key 4) [sample_key 5; sample_key 6] script (mkWitnessDetails [] [] 0 0 0 0)) as (_ & _ & [_ R] & _ & _ & _ & X); [| | |exact E|exact (conj R X)].
  - reflexivity.
  - repeat constructor.
  - cbn. lia.
Defined.
