(* ===== verification/Policy.v ===== *)
(** * Policy: what a node relays, in [src/src/policy/policy.cpp]

    Standard outputs, transactions, inputs and signature data. These are the rules of a node,
    not of the chain; the sizes of the same file are in [Mempool]. *)

From stdpp Require Import list.
From S2P Require Import Prelude ArithUint256 Serialize Compressor Transaction Script WitnessUtil TxCheck Interpreter SigCheck StandardScripts Standard.

(** ** Definitions *)

Definition MAX_STANDARD_TX_WEIGHT : Z := 400000.
Definition MAX_P2SH_SIGOPS : Z := 15.
Definition TX_MAX_STANDARD_VERSION : Z := 5.
Definition MAX_STANDARD_SEGREGATED_SIGNATURE_STACK_ITEMS : Z := 100.
Definition MAX_STANDARD_SEGREGATED_SIGNATURE_STACK_ITEM_SIZE : Z := 80.

(** [None]: a failed assertion in the serialisation. *)
Definition GetTransactionWeight (tx : CTransaction) : option Z := (fun l => Z.of_nat (length l)) <$> SerializeTransaction true tx.

Definition GetDustThreshold (txout : CTxOut) (dustRelayFeeIn : Z) : Z := 0.
Definition IsDust (txout : CTxOut) (dustRelayFeeIn : Z) : bool := false.

Section Settings.
(** The settings of a node. *)
Variables fAcceptDatacarrier fIsBareMultisigStd : bool.
Variables nMaxDatacarrierBytes dustRelayFee : Z.

(** The verdict and the type of the script. *)
Definition IsStandard (scriptPubKey : list Z) : bool * txnouttype :=
  match Solver scriptPubKey with
  | (false, whichType, _) => (false, whichType)
  | (true, whichType, vSolutions) =>
      (match whichType with
       | TX_MULTISIG =>
           let m := byte_at (hd [] vSolutions) 0 in
           let n := byte_at (List.last vSolutions []) 0 in
           negb ((n <? 1) || (n >? 3)) && negb ((m <? 1) || (m >? n))
       | TX_NULL_DATA => negb (negb fAcceptDatacarrier || (Z.of_nat (length scriptPubKey) >? nMaxDatacarrierBytes))
       | TX_NONSTANDARD => false
       | _ => true
       end, whichType)
  end.

(** The reasons of [IsStandardTx]; [weight_failure] is a failed assertion. The reasons of
    extra flags, lock times, input types, input locks and output types are only written
    down: the function goes on, and they are not here. *)
Inductive nonstandard := ns_version | ns_tx_size | ns_scriptsig_size | ns_scriptsig_not_pushonly | ns_scriptpubkey | ns_bare_multisig | ns_dust | ns_multi_op_return | weight_failure.

Fixpoint standard_inputs (ins : list CTxIn) : res nonstandard unit :=
  match ins with
  | [] => Ok tt
  | i :: ins' =>
      guard! negb (Z.of_nat (length (scriptSig i)) >? 1650) or ns_scriptsig_size in
      guard! IsPushOnly (scriptSig i) or ns_scriptsig_not_pushonly in
      standard_inputs ins'
  end.
(** The type of the last script goes on to count for the outputs after it that have none. *)
Fixpoint standard_outputs (outs : list CTxOut) (whichType : txnouttype) (nDataOut : Z) : res nonstandard Z :=
  match outs with
  | [] => Ok nDataOut
  | o :: outs' =>
      let! whichType := match output o with
                        | ScriptLegacyOutput scriptPubKey => let '(ok, whichType) := IsStandard scriptPubKey in guard! ok or ns_scriptpubkey in Ok whichType
                        | _ => Ok whichType
                        end in
      if bool_decide (whichType = TX_NULL_DATA) then standard_outputs outs' whichType (u32 (nDataOut + 1))
      else
        guard! negb (bool_decide (whichType = TX_MULTISIG) && negb fIsBareMultisigStd) or ns_bare_multisig in
        guard! negb (IsDust o dustRelayFee) or ns_dust in
        standard_outputs outs' whichType nDataOut
  end.
(** [unset] is what the variable of the type happens to hold before the first script. *)
Definition IsStandardTx (unset : txnouttype) (tx : CTransaction) : res nonstandard unit :=
  guard! negb ((nVersion tx >? TX_MAX_STANDARD_VERSION) || (nVersion tx <? SEGSIG_ACTIVATION_VERSION)) or ns_version in
  match GetTransactionWeight tx with
  | None => Err weight_failure
  | Some weight =>
      guard! negb (u32 weight >=? MAX_STANDARD_TX_WEIGHT) or ns_tx_size in
      let! _ := standard_inputs (vin tx) in
      let! nDataOut := standard_outputs (vout tx) unset 0 in
      guard! negb (nDataOut >? 1) or ns_multi_op_return in
      Ok tt
  end.
End Settings.

Section Inputs.
Context `{SH : ScriptHashes} `{EC : Secp256k1}.
Variable inputs : COutPoint -> option Coin.

(** A redeem script has few signature operations; the script of the input runs without signatures. *)
Definition standard_redeem (old : bool) (i : CTxIn) : bool :=
  let run script version := @EvalScript _ base_checker CPubKey_CheckLowS 0 version [] script in
  match (if old then run (scriptSig i) SCRIPT_V1
         else if negb (length (scriptSig i) =? 0)%nat then Err SCRIPT_ERR_SIG_PUSHONLY
         else run (PushAll (segregatedSignatureData i)) SCRIPT_V2) with
  | Ok (top :: _) => negb (GetSigOpCount top true >? MAX_P2SH_SIGOPS)
  | _ => false
  end.
Definition AreInputsStandard (tx : CTransaction) : bool :=
  IsCoinBase tx ||
  forallb (fun i => match output (access_out inputs (prevout i)) with
                    | ScriptLegacyOutput prevScript =>
                        match Solver prevScript with
                        | (false, _, _) => false
                        | (true, TX_SCRIPTHASH, _) => standard_redeem (IsOldTransactionVersion (nVersion tx)) i
                        | _ => true
                        end
                    | _ => true
                    end) (vin tx).
End Inputs.

Definition IsSegregatedSignatureDataStandard (tx : CTransaction) : bool :=
  if IsOldTransactionVersion (nVersion tx) then negb (HasSegregatedSignatures tx)
  else forallb (fun i => negb (Z.of_nat (length (segregatedSignatureData i)) >? MAX_STANDARD_SEGREGATED_SIGNATURE_STACK_ITEMS) &&
                         forallb (fun item => negb (Z.of_nat (length item) >? MAX_STANDARD_SEGREGATED_SIGNATURE_STACK_ITEM_SIZE)) (segregatedSignatureData i)) (vin tx).

(** ** Lemmas *)

Section Outputs.
Variables fAcceptDatacarrier fIsBareMultisigStd : bool.
Variables nMaxDatacarrierBytes dustRelayFee : Z.
Abbreviation standard := (IsStandard fAcceptDatacarrier nMaxDatacarrierBytes).

Definition standard_output (o : CTxOut) : Prop := match output o with ScriptLegacyOutput s => fst (standard s) = true | _ => True end.
Definition data_output (o : CTxOut) : bool := match output o with ScriptLegacyOutput s => bool_decide (snd (standard s) = TX_NULL_DATA) | _ => false end.

Lemma standard_outputs_Ok outs : forall w n m, standard_outputs fAcceptDatacarrier fIsBareMultisigStd nMaxDatacarrierBytes dustRelayFee outs w n = Ok m ->
  0 <= n -> n + Z.of_nat (length outs) < 2 ^ 32 -> Forall standard_output outs /\ n + Z.of_nat (length (List.filter data_output outs)) <= m.
Proof.
  induction outs as [|o outs IH]; intros w n m E Hn Hl; cbn [standard_outputs length List.filter] in *; [injection E as <-; split; [constructor|lia]|].
  set (r := match output o with ScriptLegacyOutput _ => _ | _ => _ end) in E.
  assert (R : forall w', r = Ok w' -> standard_output o /\ (data_output o = true -> w' = TX_NULL_DATA)).
  { intros w'. unfold r, standard_output, data_output. destruct (output o) as [s| | |]; [|by intros [= ->]..].
    destruct (standard s) as [[] t]; [|done]. intros [= ->]. split; [done|]. intros B. by apply bool_decide_eq_true in B. }
  destruct r as [w'|]; [|done]. cbn [res_bind] in E. destruct (R w' eq_refl) as [S D]. case_bool_decide as Ew.
  - rewrite u32_small in E by lia. destruct (IH _ _ _ E ltac:(lia) ltac:(lia)) as [F L]. split; [by constructor|]. destruct (data_output o); cbn [length]; lia.
  - destruct (negb (_ && _)); [|done]. destruct (negb (IsDust _ _)); [|done]. destruct (IH _ _ _ E Hn ltac:(lia)) as [F L]. split; [by constructor|].
    destruct (data_output o); [by destruct (Ew (D eq_refl))|lia].
Qed.

(** A standard transaction has standard scripts, at most one of them with data, and is of the current version and below the limit of weight. *)
Lemma standard_tx_shape unset tx : IsStandardTx fAcceptDatacarrier fIsBareMultisigStd nMaxDatacarrierBytes dustRelayFee unset tx = Ok tt ->
  Z.of_nat (length (vout tx)) < 2 ^ 32 ->
  nVersion tx = 5 /\ Forall standard_output (vout tx) /\ (length (List.filter data_output (vout tx)) <= 1)%nat /\
  Forall (fun i => IsPushOnly (scriptSig i) = true /\ Z.of_nat (length (scriptSig i)) <= 1650) (vin tx).
Proof.
  unfold IsStandardTx, TX_MAX_STANDARD_VERSION, SEGSIG_ACTIVATION_VERSION. intros E L. destruct (_ || _) eqn:V; [done|]. cbn [negb] in E.
  destruct (GetTransactionWeight tx) as [weight|]; [|done]. destruct (_ >=? _); [done|]. cbn [negb] in E.
  destruct (standard_inputs (vin tx)) as [[]|] eqn:Ei; cbn [res_bind] in E; [|done].
  destruct (standard_outputs _ _ _ _ _ _ _) as [n|] eqn:Eo; cbn [res_bind] in E; [|done]. destruct (n >? 1) eqn:En; [done|]. zbool.
  destruct (standard_outputs_Ok _ _ _ _ Eo) as [F D]; [lia|lia|]. split_and!; [lia|done|lia|]. clear -Ei.
  induction (vin tx) as [|i ins IH]; cbn [standard_inputs] in *; [constructor|]. destruct (_ >? 1650) eqn:Es; [done|]. cbn [negb] in Ei.
  destruct (IsPushOnly (scriptSig i)) eqn:Ep; [|done]. zbool. constructor; [|by apply IH]. by split.
Qed.
End Outputs.

(** The type of a data output stays for the output after it, which is counted as data again:
    a transaction with one data output before a payment to a key is refused. *)
Lemma payment_after_data_refused :
  let pay := mkTxOut 5 0 (StandardKeyHashOutput (repeat 1 20)) in
  let data := mkTxOut 0 0 (ScriptLegacyOutput [OP_RETURN; 1; 7]) in
  let tx outs := mkTx 5 [mkTxIn 0 [] (COutPoint_ofHash (repeat 9 32) 0) 0 []] outs 0 0 0 in
  IsStandardTx true true 83 1000 TX_NONSTANDARD (tx [pay; data]) = Ok tt /\
  IsStandardTx true true 83 1000 TX_NONSTANDARD (tx [data; pay]) = Err ns_multi_op_return.
Proof. split; vm_compute; reflexivity. Qed.
