(* ===== verification/CheckInputs.v ===== *)
(** * CheckInputs: the inputs of a transaction against the coins, in [src/src/validation/validation.cpp]

    [CheckInputs] joins the checks of amounts and witness operations with the signatures:
    script checks, which may be put off to a queue, and the direct check of a signature
    for outputs that are a key hash or a witness output. *)

From stdpp Require Import list.
From S2P Require Import Prelude ArithUint256 Serialize Compressor Transaction Script ConsensusParams WitnessUtil TxCheck WitnessBundles Interpreter SigCheck StandardScripts Standard.

(** ** Definitions *)

Inductive SignType := Spend | Witness.

(** The flags of standard scripts that a block need not obey. *)
Definition STANDARD_SCRIPT_VERIFY_FLAGS : Z :=
  fold_left Z.lor [SCRIPT_VERIFY_DERSIG; SCRIPT_VERIFY_STRICTENC; SCRIPT_VERIFY_MINIMALDATA; SCRIPT_VERIFY_DISCOURAGE_UPGRADABLE_NOPS; SCRIPT_VERIFY_CLEANSTACK;
    SCRIPT_VERIFY_MINIMALIF; SCRIPT_VERIFY_NULLFAIL; SCRIPT_VERIFY_CHECKLOCKTIMEVERIFY; SCRIPT_VERIFY_CHECKSEQUENCEVERIFY; SCRIPT_VERIFY_LOW_S] SCRIPT_VERIFY_P2SH.
Definition STANDARD_NOT_MANDATORY_VERIFY_FLAGS : Z := Z.ldiff STANDARD_SCRIPT_VERIFY_FLAGS SCRIPT_VERIFY_P2SH.

(** The reasons of a failure; [inputs_failure] is a failed assertion. *)
Inductive inputs_reject :=
| inputs_rejected (r : reject) | invalid_stack_size | invalid_witness_prevout | signature_failed | unknown_transaction_type
| non_mandatory_script_verify_flag | mandatory_script_verify_flag_failed | inputs_failure.

Definition null_key_id : list Z := blob_null 20.
(** The keys that sign for a destination. *)
Definition signing_keys (type : SignType) (dest : CTxDestination) : list (list Z) :=
  match dest with
  | CKeyID keyId => [keyId]
  | CPoW2WitnessDestination s w _ _ _ _ => [match type with Witness => w | Spend => s end]
  | CScriptID _ | CNoDestination => []
  end.

Section CheckInputs.
Context `{ScriptHashes} `{Secp256k1}.

Definition ExtractSigningPubkeyFromTxOutput (txOut : CTxOut) (type : SignType) : list Z :=
  match output txOut with
  | ScriptLegacyOutput script =>
      match ExtractDestination_script script with
      | None => null_key_id
      | Some dest => match signing_keys type dest with [key] => key | _ => null_key_id end
      end
  | PoW2WitnessOutput w => match type with Spend => spendingKeyID w | Witness => witnessKeyID w end
  | StandardKeyHashOutput keyID => keyID
  | UnknownOutput _ => null_key_id
  end.

(** The letters of [pow2witness] and [keyhash]. *)
Definition GetScriptForNonScriptOutput (out : CTxOut) : list Z :=
  match output out with
  | PoW2WitnessOutput _ => [112; 111; 119; 50; 119; 105; 116; 110; 101; 115; 115]
  | StandardKeyHashOutput _ => [107; 101; 121; 104; 97; 115; 104]
  | _ => []
  end.

(** *** A check of a script *)

Record CScriptCheck := mkCheck {
  check_key : list Z;
  check_scriptPubKey : list Z;
  check_amount : Z;
  check_nIn : nat;
  check_flags : Z;
  check_version : ScriptVersion
}.

Section Transaction.
Variable tx : CTransaction.
(** The hashes of the transaction that were computed before. *)
Variable data : option PrecomputedTransactionData.

Definition tx_input (i : nat) : CTxIn := nth i (vin tx) CTxIn_default.
Definition run_check (c : CScriptCheck) : res verify_failure unit :=
  @VerifyScript _ (transaction_checker (mkChecker (check_key c) tx (check_nIn c) (check_amount c) data)) CPubKey_CheckLowS (check_flags c) (check_version c)
    (scriptSig (tx_input (check_nIn c))) (check_scriptPubKey c) (segregatedSignatureData (tx_input (check_nIn c))).
Definition check_passes (c : CScriptCheck) : bool := match run_check c with Ok _ => true | Err _ => false end.

(** *** A signature without a script *)

(** The keys that have to sign: the one of the coin, or of a witness operation with one or two signatures. *)
Definition required_keys (out : CTxOut) (txin : CTxIn) : res inputs_reject (list (list Z)) :=
  let witnessSigningKeyID := ExtractSigningPubkeyFromTxOutput out Witness in
  match output out with
  | StandardKeyHashOutput _ =>
      guard! (length (segregatedSignatureData txin) =? 1)%nat or invalid_stack_size in Ok [witnessSigningKeyID]
  | PoW2WitnessOutput _ =>
      if (length (segregatedSignatureData txin) =? 2)%nat then
        let spendSigningKeyID := ExtractSigningPubkeyFromTxOutput out Spend in
        guard! negb (blob_IsNull spendSigningKeyID) or invalid_witness_prevout in
        guard! negb (blob_IsNull witnessSigningKeyID) or invalid_witness_prevout in
        Ok [witnessSigningKeyID; spendSigningKeyID]
      else if (length (segregatedSignatureData txin) =? 1)%nat then
        guard! negb (blob_IsNull witnessSigningKeyID) or invalid_witness_prevout in
        Ok [witnessSigningKeyID]
      else Err invalid_stack_size
  | _ => Err unknown_transaction_type
  end.
Definition key_signed (out : CTxOut) (i : nat) (key sig : list Z) : bool :=
  Tx_CheckSig (mkChecker key tx i (nValue out) data) sig [] (GetScriptForNonScriptOutput out) SIGVERSION_SEGSIG.
(** The signatures are those of the keys, one for each. *)
Definition check_signatures (out : CTxOut) (i : nat) (txin : CTxIn) : res inputs_reject unit :=
  let! keys := required_keys out txin in
  guard! forallb (fun x => key_signed out i (fst x) (snd x)) (zip keys (segregatedSignatureData txin)) or signature_failed in Ok tt.

(** *** The value of the inputs *)

(** [GetValueIn] of a transaction that spends coins; the value of a missing coin is -1. *)
Fixpoint inputs_value (inputs : COutPoint -> option Coin) (ins : list CTxIn) : Z :=
  match ins with
  | [] => 0
  | i :: ins' =>
      let amount := match inputs (prevout i) with Some c => nValue (coin_out c) | None => -1 end in
      (if amount =? -1 then 0 else amount) + inputs_value inputs ins'
  end.

(** *** The loop over the inputs *)

Section Loop.
Variable inputs : COutPoint -> option Coin.
Variable flags : Z.
(** Script checks are put off to the caller's list. *)
Variable deferred : bool.

Definition script_check_for (out : CTxOut) (scriptPubKey : list Z) (i : nat) : CScriptCheck :=
  mkCheck (ExtractSigningPubkeyFromTxOutput out Witness) scriptPubKey (nValue out) i flags (if IsOldTransactionVersion (nVersion tx) then SCRIPT_V1 else SCRIPT_V2).
(** A check that is run at once; without the flags that are not mandatory it is tried again, for the reason. *)
Definition run_now (c : CScriptCheck) : res inputs_reject unit :=
  if check_passes c then Ok tt
  else if negb (Z.land flags STANDARD_NOT_MANDATORY_VERIFY_FLAGS =? 0)
          && check_passes (mkCheck (check_key c) (check_scriptPubKey c) (check_amount c) (check_nIn c) (Z.ldiff flags STANDARD_NOT_MANDATORY_VERIFY_FLAGS) SCRIPT_V1)
  then Err non_mandatory_script_verify_flag
  else Err mandatory_script_verify_flag_failed.

(** The checks that are put off. The signatures of a coin without a script end the loop: the source returns there. *)
Fixpoint check_scripts (ins : list CTxIn) (i : nat) : res inputs_reject (list CScriptCheck) :=
  match ins with
  | [] => Ok []
  | txin :: ins' =>
      if COutPoint_IsNull (prevout txin) && IsPoW2WitnessCoinBase tx then check_scripts ins' (S i)
      else
        match inputs (prevout txin) with
        | None => Err inputs_failure
        | Some coin =>
            match output (coin_out coin) with
            | ScriptLegacyOutput scriptPubKey =>
                let check := script_check_for (coin_out coin) scriptPubKey i in
                if deferred then let! checks := check_scripts ins' (S i) in Ok (check :: checks)
                else let! _ := run_now check in check_scripts ins' (S i)
            | _ => let! _ := check_signatures (coin_out coin) i txin in Ok []
            end
        end
  end.

(** [pWitnessBundles] is null where there is no bundle list; [fScriptChecks]: signatures are checked at all. *)
Definition CheckInputs (p : ChainParams) (fScriptChecks : bool) (nSpendHeight : Z) (pWitnessBundles : option (list CWitnessTxBundle))
    : res inputs_reject (list CScriptCheck) :=
  if negb (IsCoinBase tx) || IsPoW2WitnessCoinBase tx then
    match CheckTxInputs inputs p tx nSpendHeight (match pWitnessBundles with Some bundles => witness_penalty bundles | None => 0 end) with
    | Err r => Err (inputs_rejected r)
    | Ok _ => if fScriptChecks then check_scripts (vin tx) 0 else Ok []
    end
  else Ok [].
End Loop.
End Transaction.
End CheckInputs.

(** ** Specification *)

Section Spec.
Context `{ScriptHashes} `{Secp256k1}.
Variable tx : CTransaction.
Variable data : option PrecomputedTransactionData.
Variable inputs : COutPoint -> option Coin.
Variable flags : Z.

(** A signature that the key behind the identifier made for the input. *)
Definition signed_by (out : CTxOut) (i : nat) (key sig : list Z) : Prop :=
  exists hash pubkey, SignatureHash (GetScriptForNonScriptOutput out) tx i (List.last sig 0) (nValue out) SIGVERSION_SEGSIG data = Some hash /\
    CPubKey_RecoverCompact hash (removelast sig) = Some pubkey /\ CPubKey_IsValid pubkey = true /\
    CPubKey_GetID pubkey = if blob_IsNull key then CPubKey_GetID [] else key.
(** The owner of the coin agrees to the input. *)
Definition authorised (i : nat) (txin : CTxIn) : Prop :=
  exists coin, inputs (prevout txin) = Some coin /\
    match output (coin_out coin) with
    | ScriptLegacyOutput script => check_passes tx data (script_check_for tx flags (coin_out coin) script i) = true
    | StandardKeyHashOutput key => exists sig, segregatedSignatureData txin = [sig] /\ signed_by (coin_out coin) i key sig
    | PoW2WitnessOutput w =>
        (exists sig, segregatedSignatureData txin = [sig] /\ signed_by (coin_out coin) i (witnessKeyID w) sig) \/
        (exists sig sig', segregatedSignatureData txin = [sig; sig'] /\ signed_by (coin_out coin) i (witnessKeyID w) sig /\
           signed_by (coin_out coin) i (spendingKeyID w) sig')
    | UnknownOutput _ => False
    end.
Definition skipped_input (txin : CTxIn) : bool := COutPoint_IsNull (prevout txin) && IsPoW2WitnessCoinBase tx.
(** The coin has a script, or there is none to check. *)
Definition script_input (txin : CTxIn) : Prop :=
  skipped_input txin = true \/ exists coin script, inputs (prevout txin) = Some coin /\ output (coin_out coin) = ScriptLegacyOutput script.

(** ** Lemmas *)

Lemma key_signed_iff out i key sig : key_signed tx data out i key sig = true <-> sig <> [] /\ signed_by out i key sig.
Proof.
  unfold key_signed, signed_by, Tx_CheckSig. cbn [SigCheck.txTo SigCheck.nIn SigCheck.amount SigCheck.txdata signatureKeyID].
  change (CPubKey_Set []) with (@nil Z). destruct sig as [|b sig]; [split; [done|by intros [? _]]|].
  destruct (SignatureHash _ _ _ _ _ _ _) as [hash|]; [|split; [done|by intros (_ & h & k & E & _)]].
  destruct (CPubKey_RecoverCompact hash _) as [pubkey|] eqn:R; [|split; [done|intros (_ & h & k & [= <-] & E & _); by rewrite R in E]].
  split.
  - destruct (CPubKey_IsValid pubkey) eqn:V; [|done]. cbn [negb]. intros E. split; [done|]. exists hash, pubkey. split_and!; try done.
    destruct (blob_IsNull key); by apply bool_decide_eq_true in E.
  - intros (_ & h & k & [= <-] & E & V & Ek). rewrite R in E. injection E as <-. rewrite V. cbn [negb]. destruct (blob_IsNull key); by apply bool_decide_eq_true.
Qed.

Lemma signatures_authorise coin i txin : inputs (prevout txin) = Some coin ->
  (forall script, output (coin_out coin) <> ScriptLegacyOutput script) -> check_signatures tx data (coin_out coin) i txin = Ok tt -> authorised i txin.
Proof.
  intros Ec N E. exists coin. split; [done|]. unfold check_signatures, required_keys, ExtractSigningPubkeyFromTxOutput in E.
  destruct (output (coin_out coin)) as [s|w|k|t] eqn:O; [by destruct (N s)| | |done].
  - destruct (segregatedSignatureData txin) as [|s1 [|s2 [|s3 l]]]; cbn [length Nat.eqb] in E; try done.
    + destruct (negb (blob_IsNull (witnessKeyID w))) eqn:N1; [|done]. cbn [res_bind zip forallb fst snd andb] in E. destruct (key_signed _ _ _ _ _ s1) eqn:K; [|done].
      apply key_signed_iff in K as [_ K]. left. by exists s1.
    + destruct (negb (blob_IsNull (spendingKeyID w))) eqn:N2; [|done]. destruct (negb (blob_IsNull (witnessKeyID w))) eqn:N1; [|done].
      cbn [res_bind zip zip_with forallb fst snd andb] in E. destruct (key_signed _ _ _ _ _ s1) eqn:K1; [|done]. destruct (key_signed _ _ _ _ _ s2) eqn:K2; [|done].
      apply key_signed_iff in K1 as [_ K1]. apply key_signed_iff in K2 as [_ K2]. right. by exists s1, s2.
  - destruct (segregatedSignatureData txin) as [|s1 [|s2 l]]; cbn [length Nat.eqb] in E; try done.
    cbn [res_bind zip zip_with forallb fst snd andb] in E. destruct (key_signed _ _ _ _ _ s1) eqn:K; [|done]. apply key_signed_iff in K as [_ K]. by exists s1.
Qed.

Lemma check_scripts_authorise deferred : forall ins n checks, check_scripts tx data inputs flags deferred ins n = Ok checks ->
  Forall (fun c => check_passes tx data c = true) checks -> forall k txin, nth_error ins k = Some txin -> skipped_input txin = false ->
  (forall j txj, (j < k)%nat -> nth_error ins j = Some txj -> script_input txj) -> authorised (n + k) txin.
Proof.
  intros ins. induction ins as [|i0 ins IH]; intros n checks E P k txin Ek Sk F; [by destruct k|]. cbn [check_scripts] in E.
  assert (Next : forall checks', check_scripts tx data inputs flags deferred ins (S n) = Ok checks' -> Forall (fun c => check_passes tx data c = true) checks' ->
    forall k', k = S k' -> authorised (n + k) txin).
  { intros cs E' P' k' ->. rewrite Nat.add_succ_r, <- Nat.add_succ_l. apply (IH (S n) cs E' P' k' txin Ek Sk). intros j txj Lj Ej. apply (F (S j) txj); [lia|done]. }
  destruct (COutPoint_IsNull (prevout i0) && IsPoW2WitnessCoinBase tx) eqn:Sk0.
  { destruct k as [|k]; [injection Ek as ->; unfold skipped_input in Sk; congruence|]. by apply (Next checks E P k). }
  destruct (inputs (prevout i0)) as [coin|] eqn:Ec; [|done]. destruct (output (coin_out coin)) as [script|w|h|t] eqn:O.
  - set (c := script_check_for tx flags (coin_out coin) script n) in *. assert (X : check_passes tx data c = true /\ exists checks',
      check_scripts tx data inputs flags deferred ins (S n) = Ok checks' /\ Forall (fun c => check_passes tx data c = true) checks').
    { destruct deferred.
      - destruct (check_scripts _ _ _ _ _ _ _) as [cs|]; [|done]. injection E as <-. inversion P; subst. split; [done|]. by exists cs.
      - unfold run_now in E. destruct (check_passes tx data c) eqn:Ep; [|exfalso; revert E; destruct (negb _ && check_passes _ _ _); discriminate]. split; [done|]. by exists checks. }
    destruct X as (Ep & cs & E' & P'). destruct k as [|k]; [|by apply (Next cs E' P' k)]. injection Ek as ->. rewrite Nat.add_0_r. exists coin. split; [done|]. by rewrite O.
  - destruct k as [|k].
    + injection Ek as ->. rewrite Nat.add_0_r. destruct (check_signatures _ _ _ _ _) as [[]|] eqn:Es; [|done]. apply (signatures_authorise coin); [done| |done]. intros s Hs. by rewrite O in Hs.
    + destruct (F 0%nat i0 ltac:(lia) eq_refl) as [B|(c' & s & E1 & E2)]; [unfold skipped_input in B; congruence|]. rewrite Ec in E1. injection E1 as <-. by rewrite O in E2.
  - destruct k as [|k].
    + injection Ek as ->. rewrite Nat.add_0_r. destruct (check_signatures _ _ _ _ _) as [[]|] eqn:Es; [|done]. apply (signatures_authorise coin); [done| |done]. intros s Hs. by rewrite O in Hs.
    + destruct (F 0%nat i0 ltac:(lia) eq_refl) as [B|(c' & s & E1 & E2)]; [unfold skipped_input in B; congruence|]. rewrite Ec in E1. injection E1 as <-. by rewrite O in E2.
  - destruct (check_signatures _ _ _ _ _) as [[]|] eqn:Es; [|done]. unfold check_signatures, required_keys in Es. by rewrite O in Es.
Qed.
End Spec.

(** ** Theorems *)

(** C5: A transaction whose inputs are accepted, with the checks that were put off passing
    too, spends no more than the coins it takes, and each of its inputs up to the first
    whose coin has no script is authorised: the script accepts it, or the key of the coin
    signed, or the keys that a witness operation needs did. *)
Theorem accepted_inputs_authorised `{ScriptHashes} `{Secp256k1} tx data inputs flags deferred p h bundles checks :
  IsCoinBase tx = false \/ IsPoW2WitnessCoinBase tx = true -> CheckInputs tx data inputs flags deferred p true h bundles = Ok checks ->
  Forall (fun c => check_passes tx data c = true) checks ->
  CheckTxInputs inputs p tx h (match bundles with Some bs => witness_penalty bs | None => 0 end) = Ok tt /\
  forall i txin, nth_error (vin tx) i = Some txin -> skipped_input tx txin = false ->
    (forall j txj, (j < i)%nat -> nth_error (vin tx) j = Some txj -> script_input tx inputs txj) -> authorised tx data inputs flags i txin.
Proof.
  intros C E P. unfold CheckInputs in E. assert (B : negb (IsCoinBase tx) || IsPoW2WitnessCoinBase tx = true) by (destruct C as [-> | ->]; [done|by rewrite orb_true_r]).
  rewrite B in E. destruct (CheckTxInputs _ _ _ _ _) as [[]|] eqn:T; [|done]. split; [done|]. intros i txin Ei Sk F.
  by apply (check_scripts_authorise tx data inputs flags deferred (vin tx) 0 checks E P i).
Qed.

(** ** Examples *)

Module Rush.
(** A curve that recovers the same key from every signature; its identifier is [owner]. *)
Definition key : list Z := 2 :: repeat 8 32.
Definition owner : list Z := 2 :: repeat 8 19.
Definition stranger : list Z := repeat 77 20.
#[export] Instance curve : Secp256k1 := {|
  point := unit; signature := unit; recoverable := unit; ec_pubkey_parse _ := None; ec_pubkey_serialize _ _ := key; signature_parse_compact _ := None;
  invalid_signature := tt; signature_normalize s := (s, false); ecdsa_verify _ _ _ := false; recoverable_parse_compact _ _ := Some tt; ecdsa_recover _ _ := Some tt |}.
Definition outpoint (n : Z) : COutPoint := COutPoint_ofHash (repeat 9 32) n.
Definition sig : list Z := repeat 3 65 ++ [1].
(** The first coin belongs to [owner], the second to somebody else. *)
Definition coins (o : COutPoint) : option Coin :=
  if op_n o =? 0 then Some (mkCoin (mkTxOut 100 0 (StandardKeyHashOutput owner)) false true 5 1)
  else Some (mkCoin (mkTxOut 900000 0 (StandardKeyHashOutput stranger)) false true 5 1).
Definition tx (ins : list CTxIn) (v : Z) : CTransaction := mkTx 5 ins [mkTxOut v 0 (StandardKeyHashOutput owner)] 0 0 0.
Definition honest : CTransaction := tx [mkTxIn 0 [] (outpoint 0) 0 [sig]] 90.
Definition theft : CTransaction := tx [mkTxIn 0 [] (outpoint 0) 0 [sig]; mkTxIn 0 [] (outpoint 1) 0 []] 900000.
End Rush.
#[local] Existing Instances InterpreterSpec.Toy.hashes Rush.curve.

Lemma accepted_inputs_authorised_witness :
  CheckInputs Rush.honest None Rush.coins 0 false CMainParams true 1000 None = Ok [] /\ authorised Rush.honest None Rush.coins 0 0 (tx_input Rush.honest 0).
Proof.
  assert (E : CheckInputs Rush.honest None Rush.coins 0 false CMainParams true 1000 None = Ok []) by (vm_compute; reflexivity). split; [exact E|].
  destruct (accepted_inputs_authorised Rush.honest None Rush.coins 0 false CMainParams 1000 None [] (or_introl eq_refl) E (List.Forall_nil _)) as [_ K].
  apply (K 0%nat); [reflexivity|vm_compute; reflexivity|]. intros j txj L. lia.
Defined.

(** The loop ends at the first coin without a script: what comes after it is not looked at. *)
Lemma plain_coin_ends_checks `{ScriptHashes} `{Secp256k1} tx data inputs flags deferred txin rest rest' n coin :
  COutPoint_IsNull (prevout txin) = false -> inputs (prevout txin) = Some coin -> (forall script, output (coin_out coin) <> ScriptLegacyOutput script) ->
  check_scripts tx data inputs flags deferred (txin :: rest) n = check_scripts tx data inputs flags deferred (txin :: rest') n.
Proof. intros N E O. cbn [check_scripts]. rewrite N, E. cbn [andb]. destruct (output (coin_out coin)) as [s| | |]; [by destruct (O s)|done..]. Qed.

(** A transaction with a first input of its author takes the coin of a stranger without any
    signature, and is accepted. *)
Lemma later_inputs_unchecked :
  CheckInputs Rush.theft None Rush.coins 0 false CMainParams true 1000 None = Ok [] /\ ~ authorised Rush.theft None Rush.coins 0 1 (tx_input Rush.theft 1) /\
  coin_out <$> Rush.coins (prevout (tx_input Rush.theft 1)) = Some (mkTxOut 900000 0 (StandardKeyHashOutput Rush.stranger)).
Proof.
  split; [vm_compute; reflexivity|]. split; [|vm_compute; reflexivity]. intros (coin & E & A). vm_compute in E. injection E as <-. cbn [coin_out output] in A.
  destruct A as (sig & E & _). vm_compute in E. done.
Qed.
