(* ===== verification/BlockEffect.v ===== *)
(** * BlockEffect: when a block has an effect on the coins

    [CoinsBlock.block_applies] says what the transactions of a block do to a map of unspent
    outputs. Here: which facts of the transactions, besides the presence of the coins they
    spend, are enough for it. [ConnectBlock] finds the presence by itself. *)

From stdpp Require Import gmap.
From S2P Require Import Prelude Serialize Compressor Transaction TxCheck Coins CoinsRefine CoinsSpec CoinsBlock.

(** ** Definitions *)

Section Fits.
Context `{Placement}.
Implicit Type m : gmap COutPoint Coin.

(** The inputs have outpoints in range, and no two of them stand for one output. *)
Record tx_names (ins : list CTxIn) : Prop := {
  tn_range : forall i, i ∈ ins -> COutPoint_IsNull (prevout i) = false -> lookup_ok (prevout i);
  tn_once : forall a b i j k, ins !! a = Some i -> ins !! b = Some j -> COutPoint_IsNull (prevout i) = false -> COutPoint_IsNull (prevout j) = false ->
    target (prevout i) k -> target (prevout j) k -> a = b
}.
(** Outputs of known types, from number [n] on, have the places of the chain. *)
Definition outputs_placed (txid : list Z) (nHeight nTxIndex : Z) (coinbase segsig : bool) (n : Z) (outs : list CTxOut) : Prop :=
  forall j o, outs !! j = Some o -> CTxOut_eqb o o = true /\ placed (COutPoint_ofHash txid (n + Z.of_nat j)) (Coin_new o nHeight nTxIndex coinbase segsig).
Definition tx_places (nHeight nTxIndex : Z) (txid : list Z) (tx : CTransaction) : Prop :=
  Z.of_nat (length (vout tx)) < 2 ^ 31 /\ outputs_placed txid nHeight nTxIndex (IsCoinBase tx) (segsig_tx tx) 0 (vout tx).
(** No output of the transaction is there. *)
Definition tx_new m (txid : list Z) : Prop := forall n, m !! COutPoint_ofHash txid n = None.
Definition restorable_map m : Prop := forall k c, m !! k = Some c -> restorable c.

(** What a block at height [nHeight] whose transactions are numbered from [i] on brings
    along; the coins that it spends are not a part of this. *)
Record block_fits (nHeight i : Z) m (l : list (list Z * CTransaction)) : Prop := {
  bf_names : Forall (fun x => tx_names (vin (snd x))) l;
  bf_places : forall j x, l !! j = Some x -> tx_places nHeight (i + Z.of_nat j) (fst x) (snd x);
  bf_ids : NoDup l.*1;
  bf_new : Forall (fun x => tx_new m (fst x)) l
}.
(** The coins that the inputs stand for are there. *)
Definition inputs_there m (ins : list CTxIn) : Prop :=
  forall i, i ∈ ins -> COutPoint_IsNull (prevout i) = false -> exists k c, target (prevout i) k /\ m !! k = Some c.

(** ** Lemmas *)

Lemma tx_names_tail i ins : tx_names (i :: ins) -> tx_names ins.
Proof.
  intros [R O]. split; [intros j Hj; apply R; by right|]. intros a b x y k Ha Hb Nx Ny Tx Ty.
  by pose proof (O (S a) (S b) x y k Ha Hb Nx Ny Tx Ty) as [= ->].
Qed.

Lemma spends_there ins : forall m, tx_names ins -> inputs_there m ins -> restorable_map m -> exists us m1, spends m ins us m1.
Proof.
  induction ins as [|i ins IH]; intros m N T R; [by exists [], m; constructor|]. destruct (COutPoint_IsNull (prevout i)) eqn:En.
  - destruct (IH m (tx_names_tail _ _ N)) as (us & m1 & S); [intros j Hj; apply T; by right|done|]. exists us, m1. by constructor.
  - destruct (T i ltac:(left) En) as (k & c & Tk & E). destruct (IH (delete k m) (tx_names_tail _ _ N)) as (us & m1 & S).
    + intros j Hj Nj. destruct (T j ltac:(by right) Nj) as (k' & c' & T' & E'). exists k', c'. split; [done|].
      rewrite lookup_delete_ne; [done|]. intros <-. apply list_elem_of_lookup in Hj as [b Hb].
      by pose proof (tn_once _ N 0%nat (S b) i j k eq_refl Hb En Nj Tk T').
    + intros k' c' E'. apply lookup_delete_Some in E' as [_ E']. by apply (R k').
    + exists (mkUndo c (op_hash k) :: us), m1. apply (spends_coin _ _ _ k c); [done|by apply N; [left|]|done|done|by apply (R k)|done].
Qed.

Lemma creates_placed txid h x cb ss outs : forall n m, 0 <= n -> n + Z.of_nat (length outs) < 2 ^ 31 -> outputs_placed txid h x cb ss n outs ->
  Forall (fun o => 0 <= nValue o) outs -> (forall j, n <= j < n + Z.of_nat (length outs) -> m !! COutPoint_ofHash txid j = None) ->
  exists m', creates txid h x cb ss n m outs m'.
Proof.
  induction outs as [|o outs IH]; intros n m Hn Hl P F Fr; [by exists m; constructor|]. apply Forall_cons_iff in F as [Fo F]. cbn [length] in *.
  destruct (P 0%nat o eq_refl) as [Q Po]. replace (n + Z.of_nat 0) with n in Po by lia.
  assert (No : CTxOut_IsNull o = false) by (unfold CTxOut_IsNull; apply Z.eqb_neq; lia). assert (P' : outputs_placed txid h x cb ss (n + 1) outs).
  { intros j o' E. destruct (P (S j) o' E) as [? Pj]. split; [done|]. by replace (n + 1 + Z.of_nat j) with (n + Z.of_nat (S j)) by lia. }
  destruct (CTxOut_IsUnspendable o) eqn:U.
  - destruct (IH (n + 1) m ltac:(lia) ltac:(lia) P' F) as [m' C]; [intros j Hj; apply Fr; lia|]. exists m'. apply creates_skip; [done..|apply Fr; lia|done].
  - destruct (IH (n + 1) (<[COutPoint_ofHash txid n := Coin_new o h x cb ss]> m) ltac:(lia) ltac:(lia) P' F) as [m' C].
    + intros j Hj. rewrite lookup_insert_ne; [apply Fr; lia|]. intros [= E]. rewrite !(uwrap_small 31) in E by lia. lia.
    + exists m'. apply creates_coin; [done..|apply Fr; lia|done].
Qed.

Lemma creates_lookup txid h x cb ss i m outs m' : creates txid h x cb ss i m outs m' -> 0 < uwrap 30 (u32 h) ->
  forall k c, m' !! k = Some c -> m !! k = Some c \/ op_hash k = txid /\ restorable c.
Proof.
  induction 1 as [i m|i m o outs m' U N P F _ IH|i m o outs m' U N Q k0 c0 P F _ IH]; intros L k c E; [by left|by apply IH|].
  destruct (IH L k c E) as [E'|]; [|by right]. apply lookup_insert_Some in E' as [[<- <-]|[_ E']]; [|by left]. right. by split.
Qed.
Lemma spends_lookup m ins us m' : spends m ins us m' -> m' ⊆ m.
Proof. induction 1; [done|done|]. by etrans; [|apply delete_subseteq]. Qed.

(** A transaction whose coins are there applies, and what is there after it was there or is its own. *)
Lemma tx_applies m h x txid tx : 0 < uwrap 30 (u32 h) -> restorable_map m -> tx_names (vin tx) -> tx_places h x txid tx -> tx_new m txid ->
  Forall (fun o => 0 <= nValue o) (vout tx) -> (spends_inputs tx = true -> inputs_there m (vin tx)) ->
  exists us m', applies m txid tx h x us m' /\ restorable_map m' /\ forall id, id <> txid -> tx_new m id -> tx_new m' id.
Proof.
  intros L R N [Ln P] Fr F T.
  assert (X : exists us m1, (if spends_inputs tx then spends m (vin tx) us m1 else us = [] /\ m1 = m) /\ m1 ⊆ m).
  { destruct (spends_inputs tx); [|by exists [], m]. destruct (spends_there (vin tx) m N (T eq_refl) R) as (us & m1 & S). exists us, m1. split; [done|by apply (spends_lookup m (vin tx) us)]. }
  destruct X as (us & m1 & S & Sub). destruct (creates_placed txid h x (IsCoinBase tx) (segsig_tx tx) (vout tx) 0 m1 ltac:(lia) ltac:(lia) P F) as [m' C].
  { intros j _. eapply lookup_weaken_None; [apply Fr|done]. }
  exists us, m'. split; [by exists m1|]. pose proof (creates_lookup _ _ _ _ _ _ _ _ _ C L) as K. split.
  - intros k c E. destruct (K k c E) as [E'|[_ ?]]; [|done]. apply (R k). by eapply lookup_weaken.
  - intros id Hid Hn n. destruct (m' !! COutPoint_ofHash id n) as [c|] eqn:E; [|done]. destruct (K _ _ E) as [E'|[E' _]]; [|done].
    apply (lookup_weaken _ _ _ _ E') in Sub. by rewrite Hn in Sub.
Qed.

Lemma block_fits_tail h i m m' txid tx l : block_fits h i m ((txid, tx) :: l) -> (forall id, id <> txid -> tx_new m id -> tx_new m' id) ->
  block_fits h (i + 1) m' l.
Proof.
  intros [N P I W] K. apply Forall_cons_iff in N as [_ N]. apply Forall_cons_iff in W as [_ W]. rewrite fmap_cons, NoDup_cons in I. destruct I as [Ni I]. split; [done| |done|].
  - intros j x E. replace (i + 1 + Z.of_nat j) with (i + Z.of_nat (S j)) by lia. by apply P.
  - apply List.Forall_forall. intros x Hx. pose proof (proj1 (List.Forall_forall _ _) W x Hx) as Wx. apply K; [|done]. intros <-.
    apply Ni. apply list_elem_of_fmap. exists x. split; [done|]. by apply list_elem_of_In.
Qed.
End Fits.
