(* ===== verification/ConnectBlock.v ===== *)
(** * ConnectBlock: a block against the coins, in [src/src/validation/validation.cpp]

    [ConnectBlock]: the checks of [BlockCheck] again, the witness of the block, the loop over
    the transactions with their inputs, witness operations and fees, and the rewards. The
    coins are behind the class [CoinsStore], which the views of [Coins] implement. Writing
    undo data and the index of transactions to disk is left out, and so is the comparison of
    the witness delta, which the source switches off. *)

From stdpp Require Import gmap.
From S2P Require Import Prelude ArithUint256 Serialize Compressor Transaction Block Script ConsensusParams WitnessUtil Chain Merkle TxCheck BlockCheck WitnessBundles Coins CoinsRefine CoinsSpec CoinsBlock Interpreter SigCheck Standard CheckInputs BlockEffect.

(** ** Definitions *)

(** What [ConnectBlock] needs of a view of the coins: [AccessCoin], where [None] is a spent
    coin, the best block, and [UpdateCoins] with the undo data. Reading a coin fills the
    cache and changes nothing else, see [CoinsRefine]. *)
Class CoinsStore (St : Type) := {
  store_coin : St -> COutPoint -> option Coin;
  store_best : St -> uint256;
  store_set_best : St -> uint256 -> St;
  store_update : St -> uint256 -> CTransaction -> Z -> Z -> res coins_error (St * list CoinUndo)
}.
#[export] Instance views_store {V W : Type} `{CoinsView V} `{CoinsView W} `{MemoryUsage} : CoinsStore (ChainedView V W) := {|
  store_coin v o := match AccessCoin (view v) o with Ok (_, coin) => if Coin_IsSpent coin then None else Some coin | Err _ => None end;
  store_best v := snd (Cache_GetBestBlock (view v));
  store_set_best v h := mkChained (SetBestBlock (view v) h) (pChainedWitView v);
  store_update v txid tx nHeight nTxIndex := UpdateCoins v txid tx nHeight nTxIndex
|}.

(** [connect_failure]: an assertion, a null pointer, a sum out of range or a failed store. *)
Inductive connect_reject :=
| block_rejected (r : block_reject) | prevblock_unwitnessed | transaction_rejected (r : reject) | bad_txns_BIP30
| invalid_witness_signature | invalid_witness | bad_witness_coinbase | bad_txns_inputs_missingorspent | non_BIP68_final | too_many_sigops
| bundles_rejected (r : reject) | inputs_rejected_by (r : inputs_reject) | bad_witness_transactions | bad_witness_cb_amount | bad_cb_amount
| block_validation_failed | connect_failure.

Definition undefined_unless {A} (o : option A) : res connect_reject A := match o with Some a => Ok a | None => Err connect_failure end.
(** A signed sum that leaves its range is undefined. *)
Definition signed_sum (z : Z) : res connect_reject Z := if (- 2 ^ 63 <=? z) && (z <? 2 ^ 63) then Ok z else Err connect_failure.
(** The first of a list of checks that fails. *)
Fixpoint check_all_connect {A} (f : A -> res connect_reject unit) (l : list A) : res connect_reject unit :=
  match l with [] => Ok tt | a :: l' => let! _ := f a in check_all_connect f l' end.

Section Connect.
Context {St : Type} `{CS : CoinsStore St} `{SH : ScriptHashes} `{EC : Secp256k1}.
Variable p : ChainParams.
Variables BIP34Height BIP65Height BIP66Height : Z.
Variables BIP34Hash hashGenesisBlock : uint256.
(** The key of the first development subsidy that was checked, if any was: the source keeps it in a static. *)
Variable devSubsidyKey : option (list Z).
(** The block index: its records, versions, hashes, and the heights by hash. *)
Variable H : heap.
Variable versions : ptr -> Z * Z.
Variable index_hash : ptr -> option uint256.
Variable index_height : uint256 -> option Z.
(** The deployment of relative locks is active after a block: [VersionBits]. *)
Variable csv_active : option ptr -> bool.
(** The witness that [GetWitness] selects over a view for the block: [WitnessSelect]. *)
Variable selected_witness : St -> option CTxOut.
Variable SerializeHash : list Z -> uint256.
Variable Hash : uint256 -> uint256 -> uint256.
(** What [CheckBlock] reads: see [BlockCheck]. *)
Variable regtest : bool.
Variable powLimit : base_uint.
Variable activationDate : Z.
Variable sigma_valid : CBlockHeader -> bool.
Variable GetPoWHash : CBlockHeader -> base_uint.
Variable fSPV : bool.
Variable LastCheckPointHeight : Z.
(** The block that is assumed to be valid where the index has it, the best header, and the least work of a chain. *)
Variable assumed_valid : option ptr.
Variable best_header : ptr.
Variable nMinimumChainWork : base_uint.
(** The number of threads that take script checks off a queue. *)
Variable nScriptCheckThreads : Z.

Definition height_at (q : ptr) : Z := height_of H q.
Definition witnessed (b : CBlock) : bool := negb (bh_nVersionPoW2Witness (block_header b) =? 0).

(** *** Flags and script checks *)

Definition script_flags (pindex : ptr) (b : CBlockIndex) : Z :=
  let flags := if nTime b >=? 1349049600 then SCRIPT_VERIFY_P2SH else 0 in
  let flags := if nHeight b >=? BIP66Height then Z.lor flags SCRIPT_VERIFY_DERSIG else flags in
  let flags := if nHeight b >=? BIP65Height then Z.lor flags SCRIPT_VERIFY_CHECKLOCKTIMEVERIFY else flags in
  if csv_active (pprev b) then Z.lor flags SCRIPT_VERIFY_CHECKSEQUENCEVERIFY else flags.
Definition lock_flags (b : CBlockIndex) : Z := if csv_active (pprev b) then LOCKTIME_VERIFY_SEQUENCE else 0.

(** A block below one that is assumed to be valid has its scripts checked while the best
    header is less than two weeks of work above it. *)
Definition script_checks_needed (pindex : ptr) : option bool :=
  match assumed_valid with
  | None => Some true
  | Some a =>
      b ← H !! pindex; best ← H !! best_header;
      if bool_decide (GetAncestor H a (nHeight b) = Some pindex) && bool_decide (GetAncestor H best_header (nHeight b) = Some pindex)
         && bu_ge (nChainWork best) nMinimumChainWork
      then t ← GetBlockProofEquivalentTime (nChainWork best) (nChainWork b) (nBits best) (nPowTargetSpacing (consensus p)); Some (t <=? 60 * 60 * 24 * 7 * 2)
      else Some true
  end.

(** *** Overwritten outputs *)

Definition bip30_enforced (pindex : ptr) (b : CBlockIndex) : bool :=
  let pindexBIP34height := match pprev b with Some q => GetAncestor H q BIP34Height | None => Some pindex end in
  match pindexBIP34height with None => true | Some q => negb (bool_decide (index_hash q = Some BIP34Hash)) end.
Fixpoint no_outputs_yet (s : St) (txid : uint256) (outs : list CTxOut) (o : Z) : bool :=
  match outs with [] => true | _ :: outs' => bool_decide (store_coin s (COutPoint_ofHash txid o) = None) && no_outputs_yet s txid outs' (o + 1) end.

(** *** The witness of the block *)

Definition past_phase5 (nHeight : Z) : bool := u64 nHeight >? pow2Phase5FirstBlockHeight (consensus p).
Definition check_witness_signature (s : St) (b : CBlock) (nHeight : Z) (fVerifyWitness : bool) : res connect_reject unit :=
  if past_phase5 nHeight && witnessed b then
    let! hash := undefined_unless (GetHashPoW2 SerializeHash (block_header b)) in
    match CPubKey_RecoverCompact hash (witnessHeaderPoW2Sig (block_header b)) with
    | None => Err invalid_witness_signature
    | Some witnessPubKey =>
        if fVerifyWitness then
          match selected_witness s with
          | None => Err invalid_witness
          | Some out =>
              match output out with
              | PoW2WitnessOutput w => guard! bool_decide (witnessKeyID w = CPubKey_GetID witnessPubKey) or invalid_witness_signature in Ok tt
              | _ => Err invalid_witness_signature
              end
          end
        else Ok tt
    end
  else Ok tt.
(** The position of the first witness coinbase, 0 for a block without a witness. *)
Definition find_witness_coinbase (b : CBlock) (nHeight : Z) : res connect_reject nat :=
  if witnessed b then
    let i := first_witness_coinbase (skipn 1 (vtx b)) 1 in
    guard! (i =? 0)%nat || negb (past_phase5 nHeight) ||
           match vtx b !! i with Some (_, tx) => match vout tx with o :: _ => IsPow2WitnessOutput o | [] => false end | None => false end
      or bad_witness_coinbase in
    guard! negb ((nHeight >? 0) && (i =? 0)%nat) or bad_witness_coinbase in
    Ok i
  else Ok 0%nat.

(** *** The transactions *)

Record connect_state := mkConnect {
  cs_store : St;
  nFees : Z;
  nFeesPoW2Witness : Z;
  nSigOpsCost : Z;
  vtxundo : list (list CoinUndo);
  (** The checks on the queue, each with its transaction. *)
  cs_checks : list (CTransaction * option PrecomputedTransactionData * CScriptCheck);
  cs_bundles : list (list CWitnessTxBundle)
}.

(** The heights of the coins that are spent; a missing coin of a witness coinbase ends it. *)
Definition prev_heights (s : St) (tx : CTransaction) : option (list Z) :=
  mapM (fun i => if IsPoW2WitnessCoinBase tx && COutPoint_IsNull (prevout i) then Some 0 else coin_nHeight <$> store_coin s (prevout i)) (vin tx).
Definition check_inputs_present (s : St) (tx : CTransaction) (flags : Z) (pindex : ptr) : res connect_reject unit :=
  if IsPoW2WitnessCoinBase tx || negb (IsCoinBase tx) then
    guard! IsPoW2WitnessCoinBase tx || HaveInputs (store_coin s) tx or bad_txns_inputs_missingorspent in
    match prev_heights s tx with
    | None => Err bad_txns_inputs_missingorspent
    | Some heights =>
        let! final := undefined_unless (SequenceLocks H (fIsTestnet p) tx flags heights pindex) in
        guard! final or non_BIP68_final in Ok tt
    end
  else Ok tt.

Definition coin_for_bundles (s : St) (o : COutPoint) : option (CTxOut * Z * Z * Z) :=
  match store_coin s o with Some c => Some (coin_out c, coin_nHeight c, nTxIndex c, op_n o) | None => None end.
Definition spend_height (s : St) : option Z := h ← index_height (store_best s); Some (h + 1).
Definition build_bundles (s : St) (tx : CTransaction) (nHeight : Z) (txIndex : nat) : res connect_reject (list CWitnessTxBundle) :=
  if past_phase5 nHeight then
    let! h := undefined_unless (spend_height s) in
    guard! h =? nHeight or connect_failure in
    match BuildWitnessBundles p (coin_for_bundles s) tx h (Z.of_nat txIndex) with Ok bundles => Ok bundles | Err r => Err (bundles_rejected r) end
  else Ok [].

Definition connect_tx (nWitnessCoinbaseIndex : nat) (fScriptChecks queue : bool) (flags locks : Z) (pindex : ptr) (nHeight : Z)
    (txIndex : nat) (txid : uint256) (tx : CTransaction) (st : connect_state) : res connect_reject connect_state :=
  let s := cs_store st in
  let! _ := check_inputs_present s tx locks pindex in
  let cost := nSigOpsCost st + GetTransactionSigOpCost (store_coin s) tx (verify flags SCRIPT_VERIFY_P2SH) in
  guard! negb (cost >? MAX_BLOCK_SIGOPS_COST) or too_many_sigops in
  let! data := undefined_unless (PrecomputedTransactionData_new tx) in
  let! bundles := build_bundles s tx nHeight txIndex in
  let! fees :=
    if IsCoinBase tx then Ok (nFees st, nFeesPoW2Witness st, [])
    else
      let! value_out := undefined_unless (GetValueOut tx) in
      let! value_in := signed_sum (inputs_value (store_coin s) (vin tx)) in
      let later := negb (nWitnessCoinbaseIndex =? 0)%nat && (nWitnessCoinbaseIndex <? txIndex)%nat in
      let! fees := signed_sum (nFees st + (if later then 0 else value_in - value_out)) in
      let! witness_fees := signed_sum (nFeesPoW2Witness st + (if later then value_in - value_out else 0)) in
      let! h := undefined_unless (spend_height s) in
      match CheckInputs tx (Some data) (store_coin s) flags (negb (nScriptCheckThreads =? 0)) p fScriptChecks h (Some bundles) with
      | Err r => Err (inputs_rejected_by r)
      | Ok checks => Ok (fees, witness_fees, checks)
      end in
  let '(fees, witness_fees, checks) := fees in
  match store_update s txid tx nHeight (Z.of_nat txIndex) with
  | Err _ => Err connect_failure
  | Ok (s, undo) =>
      Ok (mkConnect s fees witness_fees cost (if (0 <? txIndex)%nat then vtxundo st ++ [undo] else vtxundo st)
            (cs_checks st ++ (if queue then (fun c => (tx, Some data, c)) <$> checks else [])) (cs_bundles st ++ [bundles]))
  end.
Fixpoint connect_loop (nWitnessCoinbaseIndex : nat) (fScriptChecks queue : bool) (flags locks : Z) (pindex : ptr) (nHeight : Z)
    (txIndex : nat) (l : list (uint256 * CTransaction)) (st : connect_state) : res connect_reject connect_state :=
  match l with
  | [] => Ok st
  | (txid, tx) :: l' =>
      let! st := connect_tx nWitnessCoinbaseIndex fScriptChecks queue flags locks pindex nHeight txIndex txid tx st in
      connect_loop nWitnessCoinbaseIndex fScriptChecks queue flags locks pindex nHeight (S txIndex) l' st
  end.

(** The queue runs its checks in any order; the answer is whether all passed. *)
Definition queue_passes (l : list (CTransaction * option PrecomputedTransactionData * CScriptCheck)) : bool :=
  forallb (fun x => let '(tx, data, c) := x in check_passes tx data c) l.

(** *** The rewards *)

Definition subsidy (nHeight : Z) : BlockSubsidy := GetBlockSubsidy p nHeight.
Definition witness_pays (b : CBlock) (nHeight : Z) : bool := witnessed b && negb (nHeight =? 0).
(** The subsidy the first coinbase may claim. *)
Definition coinbase_subsidy (pprev : option ptr) (nHeight : Z) : Z :=
  total (subsidy nHeight) - (if IsPow2Phase4Active p (height_at <$> pprev) then witness (subsidy nHeight) else 0).

Definition check_late_bundles (b : CBlock) (nHeight : Z) (nWitnessCoinbaseIndex : nat) (bundles : list (list CWitnessTxBundle)) : res connect_reject unit :=
  guard! negb ((u64 nHeight >? pow2WitnessSyncHeight (consensus p)) && negb (nWitnessCoinbaseIndex =? 0)%nat)
         || forallb (fun l => bool_decide (l = [])) (skipn (S nWitnessCoinbaseIndex) bundles) or bad_witness_transactions in
  Ok tt.
Fixpoint spent_value (undo : list CoinUndo) : Z :=
  match undo with [] => 0 | u :: undo' => let v := nValue (coin_out (undo_coin u)) in (if v >? 0 then v else 0) + spent_value undo' end.
Definition check_witness_reward (b : CBlock) (nHeight : Z) (nWitnessCoinbaseIndex : nat) (st : connect_state) : res connect_reject unit :=
  if witness_pays b nHeight then
    match vtxundo st !! (nWitnessCoinbaseIndex - 1)%nat, vtx b !! nWitnessCoinbaseIndex with
    | Some undo, Some (_, tx) =>
        let! nValIn := signed_sum (spent_value undo) in
        let! paid := undefined_unless (GetValueOut tx) in
        guard! negb (paid - nValIn >? witness (subsidy nHeight) + nFeesPoW2Witness st) or bad_witness_cb_amount in
        guard! (length (vin tx) =? 2)%nat or bad_witness_coinbase in
        let i := nth 0 (vin tx) CTxIn_default in
        guard! COutPoint_IsNull (prevout i) or bad_witness_coinbase in
        guard! GetSequence i (nVersion tx) =? 0 or bad_witness_coinbase in
        Ok tt
    | _, _ => Err connect_failure
    end
  else Ok tt.

Definition devSubsidyAddress1 : list Z :=
  [3; 174; 37; 141; 195; 70; 61; 232; 131; 233; 251; 218; 82; 57; 53; 63; 233; 220; 152; 128; 92; 241; 128; 0; 213; 166; 238; 170; 62; 212; 175; 204; 112].
Definition devSubsidyAddress2 : list Z :=
  [3; 240; 234; 69; 235; 127; 207; 87; 198; 240; 244; 127; 136; 0; 79; 213; 168; 38; 65; 114; 24; 144; 185; 230; 244; 174; 57; 46; 251; 133; 140; 226; 30].
(** The key a block is checked with: that of the first block that was checked. *)
Definition dev_key (nSubsidyDev : Z) : list Z :=
  match devSubsidyKey with
  | Some key => key
  | None => if nSubsidyDev >? 1000000 * COIN then devSubsidyAddress2 else devSubsidyAddress1
  end.
Definition check_dev_subsidy (segsig : bool) (outs : list CTxOut) (nSubsidyDev : Z) : res connect_reject unit :=
  if nSubsidyDev >? 0 then
    guard! negb segsig || (length outs =? 2)%nat or bad_cb_amount in
    match outs !! 1%nat with
    | None => Err connect_failure
    | Some o =>
        guard! match output o with
               | StandardKeyHashOutput keyID => bool_decide (keyID = CPubKey_GetID (dev_key nSubsidyDev))
               | ScriptLegacyOutput scriptPubKey => bool_decide (scriptPubKey = GetScriptForRawPubKey (dev_key nSubsidyDev))
               | _ => false
               end or bad_cb_amount in
        guard! nValue o =? nSubsidyDev or bad_cb_amount in
        Ok tt
    end
  else Ok tt.
Definition check_coinbase_reward (b : CBlock) (pindex : ptr) (pprev : option ptr) (nHeight : Z) (st : connect_state) : res connect_reject unit :=
  match vtx b with
  | [] => Err connect_failure
  | (_, tx) :: _ =>
      let! expectedBlockReward := signed_sum (nFees st + coinbase_subsidy pprev nHeight) in
      let! actualBlockReward := undefined_unless (GetValueOut tx) in
      guard! negb (actualBlockReward >? expectedBlockReward) or bad_cb_amount in
      let! _ := check_dev_subsidy (IsSegSigEnabled versions pprev) (vout tx) (dev (subsidy nHeight)) in
      guard! negb (IsSegSigEnabled versions (Some pindex) && (expectedBlockReward <? actualBlockReward)) or bad_cb_amount in
      Ok tt
  end.

(** *** The block *)

(** The block rests on a witnessed block. *)
Definition check_prev_witnessed (b : CBlockIndex) : res connect_reject unit :=
  if nHeight b >=? i64 (pow2Phase4FirstBlockHeight (consensus p)) + 2 then
    match pprev b with None => Err connect_failure | Some q => guard! negb (snd (versions q) =? 0) or prevblock_unwitnessed in Ok tt end
  else Ok tt.
(** The transactions of the first block are not connected, but for a lone coinbase of more than one output. *)
Definition connect_genesis (s : St) (b : CBlock) (pindex : ptr) (nHeight : Z) (fJustCheck : bool) : res connect_reject (St * list (list CoinUndo)) :=
  if fJustCheck then Ok (s, [])
  else
    let! hash := undefined_unless (index_hash pindex) in
    let s := store_set_best s hash in
    match vtx b with
    | [(txid, tx)] =>
        if (1 <? length (vout tx))%nat
        then match store_update s txid tx nHeight 0 with Ok (s, _) => Ok (s, []) | Err _ => Err connect_failure end
        else Ok (s, [])
    | _ => Ok (s, [])
    end.
(** The transactions in turn, the rewards, the checks on the queue, and the new best block. *)
Definition connect_transactions (s : St) (b : CBlock) (pindex : ptr) (bi : CBlockIndex) (fJustCheck fVerifyWitness fDoScriptChecks : bool)
    : res connect_reject (St * list (list CoinUndo)) :=
  let h := nHeight bi in
  let! _ := check_all_connect (fun x => match CheckTransactionContextual p (vout (snd x)) h with Ok _ => Ok tt | Err r => Err (transaction_rejected r) end) (vtx b) in
  let! fScriptChecks := undefined_unless (script_checks_needed pindex) in
  guard! negb (bip30_enforced pindex bi) || forallb (fun x => no_outputs_yet s (fst x) (vout (snd x)) 0) (vtx b) or bad_txns_BIP30 in
  let! _ := check_witness_signature s b h fVerifyWitness in
  let! nWitnessCoinbaseIndex := find_witness_coinbase b h in
  let queue := fDoScriptChecks && fScriptChecks && negb (nScriptCheckThreads =? 0) in
  let! st := connect_loop nWitnessCoinbaseIndex fScriptChecks queue (script_flags pindex bi) (lock_flags bi) pindex h 0 (vtx b)
               (mkConnect s 0 0 0 [] [] []) in
  let! _ := check_late_bundles b h nWitnessCoinbaseIndex (cs_bundles st) in
  let! _ := check_witness_reward b h nWitnessCoinbaseIndex st in
  let! _ := check_coinbase_reward b pindex (pprev bi) h st in
  guard! queue_passes (cs_checks st) or block_validation_failed in
  if fJustCheck then Ok (cs_store st, vtxundo st)
  else let! hash := undefined_unless (index_hash pindex) in Ok (store_set_best (cs_store st) hash, vtxundo st).
(** After the checks of the block; [bi] is the record of [pindex]. *)
Definition connect_checked (s : St) (b : CBlock) (pindex : ptr) (bi : CBlockIndex) (fJustCheck fVerifyWitness fDoScriptChecks : bool)
    : res connect_reject (St * list (list CoinUndo)) :=
  let! hashPrevBlock := undefined_unless (match pprev bi with None => Some null_hash | Some q => index_hash q end) in
  guard! bool_decide (hashPrevBlock = store_best s) or connect_failure in
  let! _ := check_prev_witnessed bi in
  let! hash := undefined_unless (GetHashPoW2 SerializeHash (block_header b)) in
  if bool_decide (hash = hashGenesisBlock) then connect_genesis s b pindex (nHeight bi) fJustCheck
  else connect_transactions s b pindex bi fJustCheck fVerifyWitness fDoScriptChecks.

(** The block with its marks, the cache of proofs of work, and the view with the undo data. *)
Definition ConnectBlock (s : St) (b : CBlock) (cache : LRUCache uint256 bool) (pindex : ptr) (fJustCheck fVerifyWitness fDoScriptChecks : bool)
    : CBlock * LRUCache uint256 bool * res connect_reject (St * list (list CoinUndo)) :=
  match H !! pindex with
  | None => (b, cache, Err connect_failure)
  | Some bi =>
      match ContextualCheckBlock p H versions BIP34Height csv_active b (pprev bi) true with
      | Err e => (b, cache, Err (block_rejected e))
      | Ok _ =>
          if match index_hash pindex with None => true | Some h => bool_decide (GetHashPoW2 SerializeHash (block_header b) = Some h) end then
            match CheckBlock SerializeHash Hash regtest powLimit activationDate sigma_valid GetPoWHash fSPV index_height LastCheckPointHeight
                    b cache (negb fJustCheck) (negb fJustCheck) false with
            | (b, cache, Err e) => (b, cache, Err (block_rejected e))
            | (b, cache, Ok _) => (b, cache, connect_checked s b pindex bi fJustCheck fVerifyWitness fDoScriptChecks)
            end
          else (b, cache, Err connect_failure)
      end
  end.
End Connect.


(** ** Specification: the money in the coins *)

(** What [ConnectBlock] needs to hold of a store: it stands for a map of coins. *)
Class CoinsStoreLaws (St : Type) `{CS : CoinsStore St} `{PL : Placement} := {
  holds : St -> gmap COutPoint Coin -> Prop;
  holds_coin s m o k c : holds s m -> lookup_ok o -> target o k -> m !! k = Some c -> store_coin s o = Some c;
  holds_seen s m o c : holds s m -> lookup_ok o -> store_coin s o = Some c -> exists k, target o k /\ m !! k = Some c;
  holds_update s m txid tx h x us m' : holds s m -> applies m txid tx h x us m' ->
    exists s', store_update s txid tx h x = Ok (s', us) /\ holds s' m';
  holds_best s m h : holds s m -> holds (store_set_best s h) m
}.

(** The value of all unspent outputs. *)
Definition supply (m : gmap COutPoint Coin) : Z := map_fold (fun _ c n => nValue (coin_out c) + n) 0 m.
Definition no_debt (m : gmap COutPoint Coin) : Prop := forall k c, m !! k = Some c -> 0 <= nValue (coin_out c).
(** What coinbases bring in, over transactions with their undo data. *)
Fixpoint minted (l : list (uint256 * CTransaction)) (us : list (list CoinUndo)) : Z :=
  match l, us with
  | (_, tx) :: l', u :: us' => (if IsCoinBase tx then value_sum (vout tx) - spent_value u else 0) + minted l' us'
  | _, _ => 0
  end.
(** No coinbase but the first transaction and, with a witness, the first witness coinbase after it. *)
Definition one_witness_coinbase (b : CBlock) : Prop :=
  forall i x, vtx b !! i = Some x -> IsCoinBase (snd x) = true -> i = 0%nat \/ (witnessed b = true /\ i = first_witness_coinbase (skipn 1 (vtx b)) 1).
(** What a block may add: the subsidy of its coinbase and, with a witness, that of the witness. *)
Definition block_issue (p : ChainParams) (H : heap) (b : CBlock) (bi : CBlockIndex) : Z :=
  coinbase_subsidy p H (pprev bi) (nHeight bi) + (if witnessed b then witness (GetBlockSubsidy p (nHeight bi)) else 0).

(** ** Lemmas *)

(** *** The views *)

#[export] Instance views_store_laws `{Placement} {V W} `{CoinsView V} `{!CoinsViewLaws V} `{CoinsView W} `{!CoinsViewLaws W} `{MemoryUsage} :
  CoinsStoreLaws (ChainedView V W).
Proof.
  refine {| holds := stands_for |}.
  - intros s m o k c (c0 & w & (-> & C & Cw & T) & <-) Ho Tk E. cbn [store_coin views_store view].
    destruct (AccessCoin_spec c0 o C Ho) as (c1 & coin & -> & C1 & E1 & Sn). destruct (Coin_IsSpent coin); cbn in Sn.
    + by rewrite (Sn k Tk) in E.
    + destruct Sn as (k' & T' & E'). rewrite (target_eq _ _ _ T' Tk), E in E'. congruence.
  - intros s m o c (c0 & w & (-> & C & Cw & T) & <-) Ho. cbn [store_coin views_store view].
    destruct (AccessCoin_spec c0 o C Ho) as (c1 & coin & -> & C1 & E1 & Sn). by destruct (Coin_IsSpent coin); [|intros [= <-]].
  - intros s m txid tx h x us m' S A. by apply (UpdateCoins_spec s m).
  - intros [c sib] m h S. by apply SetBestBlock_here.
Defined.

(** *** Sums *)

Lemma supply_insert m k c : m !! k = None -> supply (<[k := c]> m) = nValue (coin_out c) + supply m.
Proof. intros N. unfold supply. rewrite map_fold_insert_L; [done| |done]. intros. lia. Qed.
Lemma supply_delete m k c : m !! k = Some c -> supply m = nValue (coin_out c) + supply (delete k m).
Proof. intros E. rewrite <- (supply_insert (delete k m) k c) by apply lookup_delete_eq. by rewrite insert_delete_id. Qed.

Lemma spent_value_nonneg us : 0 <= spent_value us.
Proof. induction us as [|u us IH]; cbn [spent_value]; [lia|]. zcase; lia. Qed.
Lemma no_debt_delete m k : no_debt m -> no_debt (delete k m).
Proof. intros N k' c' E. apply lookup_delete_Some in E as [_ E]. eauto. Qed.

Lemma value_out_sum outs : Forall (fun o => 0 <= nValue o) outs -> forall acc v, GetValueOut_loop outs acc = Some v -> 0 <= acc <= MAX_MONEY -> v = acc + value_sum outs.
Proof.
  assert (HM : MAX_MONEY + MAX_MONEY < 2 ^ 63) by done.
  induction 1 as [|o outs Ho F IH]; intros acc v E R; cbn [GetValueOut_loop] in E; [injection E as <-; cbn; lia|].
  change (value_sum (o :: outs)) with (nValue o + value_sum outs). destruct (nValue o >? 0) eqn:E0; zbool; [|apply IH in E; lia].
  destruct (MoneyRange (nValue o)) eqn:E1; [|done]. apply MoneyRange_true in E1. rewrite i64_small in E by lia.
  destruct (MoneyRange (acc + nValue o)) eqn:E2; [|done]. apply MoneyRange_true in E2. apply IH in E; lia.
Qed.

Lemma value_sum_nonneg outs : Forall (fun o => 0 <= nValue o) outs -> 0 <= value_sum outs.
Proof. intros F. rewrite <- (value_positive_sum outs F). apply positive_sum_nonneg. Qed.

Lemma check_transaction_amounts tx : CheckTransaction tx true = Ok tt ->
  Forall (fun o => 0 <= nValue o) (vout tx) /\ (IsCoinBase tx = false -> Forall (fun i => COutPoint_IsNull (prevout i) = false) (vin tx)).
Proof.
  unfold CheckTransaction. intros E. repeat (case_bool_decide; cbn [negb] in E; [done|]).
  destruct (SerializeTransaction false tx); [|done]. destruct (_ >? _); cbn [negb] in E; [done|].
  destruct (check_outputs (vout tx) 0) as [[]|] eqn:Eo; cbn [res_bind] in E; [|done].
  apply check_outputs_spec in Eo; [|by split; [lia|vm_compute]]. split; [tauto|]. intros N. rewrite N in E.
  destruct (check_duplicates _ _); [|done]. destruct (forallb _ (vin tx)) eqn:F; [|done].
  apply List.Forall_forall. intros i Hi. apply (proj1 (forallb_forall _ _) F) in Hi. by apply negb_true_iff.
Qed.

(** *** The effect of a transaction on the money *)

Section Money.
Context {St : Type} `{CL : CoinsStoreLaws St}.
Implicit Types (m : gmap COutPoint Coin) (s : St).

Lemma spends_supply m ins us m' : spends m ins us m' -> no_debt m -> supply m = spent_value us + supply m' /\ no_debt m'.
Proof.
  induction 1 as [m|m i ins us m' N _ IH|m i ins k c us m' N Ho T E R _ IH]; intros D; cbn [spent_value undo_coin]; [by split|by apply IH|].
  destruct (IH (no_debt_delete m k D)) as [S D']. rewrite (supply_delete m k c E), S. pose proof (D k c E). split; [|done]. zcase; lia.
Qed.

Lemma spends_view_value s m0 : holds s m0 -> no_debt m0 -> forall m ins us m', spends m ins us m' -> m ⊆ m0 ->
  Forall (fun i => COutPoint_IsNull (prevout i) = false) ins -> inputs_value (store_coin s) ins = spent_value us.
Proof.
  intros Hs D. induction 1 as [m|m i ins us m' N _ IH|m i ins k c us m' N Ho T E R _ IH]; intros Sub F; [done| |].
  - apply Forall_inv in F. congruence.
  - pose proof (lookup_weaken _ _ _ _ E Sub) as E0. pose proof (D k c E0) as P. cbn [inputs_value spent_value undo_coin]. rewrite (holds_coin s m0 _ k c Hs Ho T E0).
    rewrite IH; [|by etrans; [apply delete_subseteq|]|by apply Forall_inv_tail in F]. rewrite (proj2 (Z.eqb_neq _ _)) by lia. zcase; lia.
Qed.

Lemma creates_supply txid h x cb ss i m outs m' : creates txid h x cb ss i m outs m' -> Forall (fun o => 0 <= nValue o) outs -> no_debt m ->
  supply m' <= supply m + value_sum outs /\ no_debt m'.
Proof.
  induction 1 as [i m|i m o outs m' U N P F _ IH|i m o outs m' U N Q k c P F _ IH]; intros Fo D.
  - change (value_sum []) with 0. split; [lia|done].
  - apply Forall_cons_iff in Fo as [Fo Fs]. change (value_sum (o :: outs)) with (nValue o + value_sum outs). destruct (IH Fs D). split; [lia|done].
  - apply Forall_cons_iff in Fo as [Fo Fs]. change (value_sum (o :: outs)) with (nValue o + value_sum outs). destruct (IH Fs) as [S D'].
    + intros k' c' E. apply lookup_insert_Some in E as [[_ <-]|[_ E]]; [done|eauto].
    + rewrite (supply_insert m k c F) in S. split; [cbn in S; lia|done].
Qed.

Lemma applies_supply m txid tx h x us m' : applies m txid tx h x us m' -> Forall (fun o => 0 <= nValue o) (vout tx) -> no_debt m ->
  supply m' + spent_value us <= supply m + value_sum (vout tx) /\ no_debt m'.
Proof.
  intros (m1 & Sp & Cr) F D. assert (X : supply m = spent_value us + supply m1 /\ no_debt m1).
  { destruct (spends_inputs tx); [by apply (spends_supply m (vin tx))|]. by destruct Sp as [-> ->]. }
  destruct X as [S1 D1]. destruct (creates_supply _ _ _ _ _ _ _ _ _ Cr F D1) as [S2 D2]. split; [lia|done].
Qed.

(** *** The loop *)

Section Loop.
Context `{SH : ScriptHashes} `{EC : Secp256k1}.
Variable p : ChainParams.
Variable H : heap.
Variable index_height : uint256 -> option Z.
Variables threads flags locks h : Z.
Variables fScriptChecks queue : bool.
Variable pindex : ptr.
Variable w : nat.
Abbreviation step := (connect_tx p H index_height threads w fScriptChecks queue flags locks pindex h).
Abbreviation steps := (connect_loop p H index_height threads w fScriptChecks queue flags locks pindex h).
(** The fees of a state, which are money that was spent and is not yet in a coin. *)
Definition fees (st : @connect_state St) : Z := nFees st + nFeesPoW2Witness st.

Lemma signed_sum_Ok z v : signed_sum z = Ok v -> v = z.
Proof. unfold signed_sum. destruct (_ && _); [|done]. by intros [= ->]. Qed.

Lemma connect_tx_effect i txid tx (st st' : @connect_state St) m us m' : step i txid tx st = Ok st' ->
  holds (cs_store st) m -> no_debt m -> applies m txid tx h (Z.of_nat i) us m' -> CheckTransaction tx true = Ok tt ->
  holds (cs_store st') m' /\ no_debt m' /\ vtxundo st' = vtxundo st ++ (if (0 <? i)%nat then [us] else []) /\
  supply m' + fees st' <= supply m + fees st + (if IsCoinBase tx then value_sum (vout tx) - spent_value us else 0) /\
  (w = 0%nat -> nFeesPoW2Witness st' = nFeesPoW2Witness st).
Proof.
  intros E Hs D A Ck. destruct (check_transaction_amounts tx Ck) as [Fo Fn]. destruct (applies_supply _ _ _ _ _ _ _ A Fo D) as [Ss D'].
  unfold connect_tx in E. destruct (check_inputs_present _ _ _ _ _ _) as [[]|]; cbn [res_bind] in E; [|done].
  destruct (_ >? MAX_BLOCK_SIGOPS_COST); cbn [negb] in E; [done|]. destruct (PrecomputedTransactionData_new tx) as [data|]; cbn [undefined_unless res_bind] in E; [|done].
  destruct (build_bundles _ _ _ _ _ _) as [bundles|]; cbn [res_bind] in E; [|done].
  match type of E with res_bind ?f _ = _ => destruct f as [[[f1 f2] checks]|] eqn:Ef; cbn [res_bind] in E; [|done] end.
  destruct (holds_update _ _ _ _ _ _ _ _ Hs A) as (s' & Eu & Hs'). rewrite Eu in E. injection E as <-. cbn [cs_store vtxundo nFees nFeesPoW2Witness]. unfold fees. cbn [nFees nFeesPoW2Witness].
  split; [done|]. split; [done|]. split; [by destruct (0 <? i)%nat; rewrite ?app_nil_r|].
  destruct (IsCoinBase tx) eqn:Ec; [injection Ef as <- <- _; split; [lia|done]|].
  destruct (GetValueOut tx) as [out|] eqn:Eo; cbn [undefined_unless res_bind] in Ef; [|done]. apply (value_out_sum _ Fo) in Eo; [|by split; [lia|vm_compute]].
  assert (Ev : inputs_value (store_coin (cs_store st)) (vin tx) = spent_value us).
  { destruct A as (m1 & Sp & _). unfold spends_inputs in Sp. rewrite Ec in Sp. by apply (spends_view_value _ m Hs D m (vin tx) us m1 Sp); [|apply Fn]. }
  rewrite Ev in Ef. destruct (signed_sum (spent_value us)) as [v|] eqn:E1; cbn [res_bind] in Ef; [|done]. apply signed_sum_Ok in E1 as ->.
  match type of Ef with res_bind (signed_sum ?z) _ = _ => destruct (signed_sum z) as [g1|] eqn:E1; cbn [res_bind] in Ef; [|done] end. apply signed_sum_Ok in E1.
  match type of Ef with res_bind (signed_sum ?z) _ = _ => destruct (signed_sum z) as [g2|] eqn:E2; cbn [res_bind] in Ef; [|done] end. apply signed_sum_Ok in E2.
  destruct (spend_height _ _) as [sh|]; cbn [undefined_unless res_bind] in Ef; [|done]. destruct (CheckInputs _ _ _ _ _ _ _ _ _); [|done]. injection Ef as <- <- _.
  destruct (negb (w =? 0)%nat && (w <? i)%nat) eqn:El; (split; [lia|]); intros ->; [done|lia].
Qed.

Lemma connect_loop_effect l : forall i (st st' : @connect_state St) m us m', steps i l st = Ok st' ->
  holds (cs_store st) m -> no_debt m -> block_applies h (Z.of_nat i) m l us m' -> Forall (fun x => CheckTransaction (snd x) true = Ok tt) l ->
  holds (cs_store st') m' /\ vtxundo st' = vtxundo st ++ (if (0 <? i)%nat then us else tail us) /\
  supply m' + fees st' <= supply m + fees st + minted l us /\ (w = 0%nat -> nFeesPoW2Witness st' = nFeesPoW2Witness st).
Proof.
  induction l as [|[txid tx] l IH]; intros i st st' m us m' E Hs D B F; cbn [connect_loop] in E; inversion B; subst.
  - injection E as <-. cbn [minted tail]. split; [done|]. split; [by destruct (0 <? i)%nat; rewrite app_nil_r|]. split; [lia|done].
  - apply Forall_cons_iff in F as [F Fs]. destruct (step i txid tx st) as [st1|] eqn:E1; cbn [res_bind] in E; [|done].
    destruct (connect_tx_effect _ _ _ _ _ _ _ _ E1 Hs D ltac:(eassumption) F) as (Hs1 & D1 & V1 & S1 & W1).
    replace (Z.of_nat i + 1) with (Z.of_nat (S i)) in * by lia.
    destruct (IH _ _ _ _ _ _ E Hs1 D1 ltac:(eassumption) Fs) as (Hs2 & V2 & S2 & W2). cbn [minted tail Nat.ltb] in *. split; [done|]. split.
    { rewrite V2, V1, <- app_assoc. by destruct (0 <? i)%nat. }
    split; [lia|]. intros Hw. by rewrite W2, W1.
Qed.

(** The loop finds by itself that the coins are there: what it connects has an effect. *)
Lemma step_inputs_there i txid tx (st st' : @connect_state St) m : step i txid tx st = Ok st' -> holds (cs_store st) m -> tx_names (vin tx) ->
  spends_inputs tx = true -> inputs_there m (vin tx).
Proof.
  intros E Hs N Sp j Hj Nj. unfold connect_tx in E. destruct (check_inputs_present _ _ _ _ _ _) as [[]|] eqn:Ei; cbn [res_bind] in E; [|done]. clear E.
  unfold check_inputs_present in Ei. unfold spends_inputs in Sp. rewrite orb_comm in Sp. rewrite Sp in Ei. destruct (_ || HaveInputs _ _); [|done].
  destruct (prev_heights _ _) as [hs|] eqn:Eh; [|done]. unfold prev_heights in Eh. apply mapM_Some in Eh.
  apply list_elem_of_lookup in Hj as [a Ha]. destruct (Forall2_lookup_l _ _ _ a j Eh Ha) as (z & _ & Ez). rewrite Nj, andb_false_r in Ez.
  destruct (store_coin (cs_store st) (prevout j)) as [c|] eqn:Ec; [|done].
  destruct (holds_seen (cs_store st) m (prevout j) c Hs) as (k & Tk & Ek); [apply N; [by eapply list_elem_of_lookup_2|done]|done|]. by exists k, c.
Qed.
Lemma connect_loop_applies l : forall i (st st' : @connect_state St) m, steps i l st = Ok st' -> 0 < uwrap 30 (u32 h) ->
  holds (cs_store st) m -> no_debt m -> restorable_map m -> block_fits h (Z.of_nat i) m l -> Forall (fun x => CheckTransaction (snd x) true = Ok tt) l ->
  exists us m', block_applies h (Z.of_nat i) m l us m'.
Proof.
  induction l as [|[txid tx] l IH]; intros i st st' m E L Hs D R B F; [by exists [], m; constructor|]. cbn [connect_loop] in E.
  apply Forall_cons_iff in F as [F Fs]. cbn [snd] in F. destruct (step i txid tx st) as [st1|] eqn:E1; cbn [res_bind] in E; [|done].
  pose proof B as [N P _ W]. apply Forall_inv in N, W. specialize (P 0%nat _ eq_refl). cbn [fst snd] in *. rewrite Z.add_0_r in P.
  destruct (tx_applies m h (Z.of_nat i) txid tx L R N P W (proj1 (check_transaction_amounts tx F))) as (us & m1 & A & R1 & K).
  { by apply (step_inputs_there i txid tx st st1). }
  destruct (connect_tx_effect _ _ _ _ _ _ _ _ E1 Hs D A F) as (Hs1 & D1 & _).
  pose proof (block_fits_tail _ _ _ _ _ _ _ B K) as B1. replace (Z.of_nat i + 1) with (Z.of_nat (S i)) in B1 by lia.
  destruct (IH (S i) st1 st' m1 E L Hs1 D1 R1 B1 Fs) as (uss & m2 & B2). exists (us :: uss), m2. apply (block_cons _ _ _ _ _ _ m1); [done|].
  by replace (Z.of_nat i + 1) with (Z.of_nat (S i)) by lia.
Qed.
End Loop.
End Money.

(** *** What coinbases bring in *)

Lemma minted_none l : forall us, Forall (fun x : uint256 * CTransaction => IsCoinBase (snd x) = false) l -> minted l us = 0.
Proof.
  induction l as [|[txid tx] l IH]; intros us F; [done|]. apply Forall_cons_iff in F as [F Fs]. cbn in F. cbn [minted]. destruct us; [done|].
  rewrite F, IH by done. lia.
Qed.
Lemma minted_one l : forall us j txid tx u, l !! j = Some (txid, tx) -> us !! j = Some u ->
  (forall i x, l !! i = Some x -> IsCoinBase (snd x) = true -> i = j) -> IsCoinBase tx = true -> minted l us = value_sum (vout tx) - spent_value u.
Proof.
  induction l as [|[txid' tx'] l IH]; intros us j txid tx u E Eu U C; [done|]. destruct us as [|u' us]; [done|]. destruct j as [|j]; cbn [minted].
  - injection E as -> ->. injection Eu as ->. rewrite C, minted_none; [lia|]. apply Forall_lookup. intros i x Ei.
    destruct (IsCoinBase (snd x)) eqn:Ex; [|done]. specialize (U (S i) x Ei Ex). lia.
  - cbn in E, Eu. rewrite (IH us j txid tx u E Eu); [| |done].
    + destruct (IsCoinBase tx') eqn:Ex; [|lia]. by specialize (U 0%nat (txid', tx') eq_refl Ex).
    + intros i x Ei Ex. specialize (U (S i) x Ei Ex). lia.
Qed.

Lemma first_index_found l : forall i, first_witness_coinbase l (S i) <> 0%nat ->
  (S i <= first_witness_coinbase l (S i))%nat /\ exists x, l !! (first_witness_coinbase l (S i) - S i)%nat = Some x /\ IsCoinBase (snd x) = true.
Proof.
  induction l as [|[txid tx] l IH]; intros i N; cbn [first_witness_coinbase] in *; [done|]. destruct (is_witness_coinbase tx) eqn:E.
  - split; [lia|]. rewrite Nat.sub_diag. exists (txid, tx). split; [done|]. by apply andb_true_iff in E as [E _].
  - destruct (IH (S i) N) as (L & x & Ex & Ec). split; [lia|]. exists x. split; [|done].
    replace (first_witness_coinbase l (S (S i)) - S i)%nat with (S (first_witness_coinbase l (S (S i)) - S (S i))) by lia. done.
Qed.

(** Without a witness only the first transaction brings anything in; with one, the witness coinbase does too. *)
Lemma minted_unwitnessed b x l us : vtx b = x :: l -> one_witness_coinbase b -> witnessed b = false -> minted l us = 0.
Proof.
  intros E O W. apply minted_none, Forall_lookup. intros i y Ei. destruct (IsCoinBase (snd y)) eqn:Ex; [|done].
  destruct (O (S i) y) as [|[Hw _]]; [by rewrite E|done|lia|congruence].
Qed.
Lemma minted_witnessed b x l us txid tx u : vtx b = x :: l -> one_witness_coinbase b -> let w := first_witness_coinbase l 1 in w <> 0%nat ->
  vtx b !! w = Some (txid, tx) -> us !! (w - 1)%nat = Some u -> minted l us = value_sum (vout tx) - spent_value u.
Proof.
  intros E O w N Ex Eu. destruct (first_index_found l 0 N) as (L & y & Ey & Ec). fold w in L, Ey. rewrite E in Ex.
  replace w with (S (w - 1)) in Ex by lia. change (l !! (w - 1)%nat = Some (txid, tx)) in Ex. rewrite Ex in Ey. injection Ey as <-.
  apply (minted_one l us (w - 1)%nat txid tx u Ex Eu); [|done]. intros i z Ei Ez.
  destruct (O (S i) z) as [|[_ Hi]]; [by rewrite E|done|lia|]. rewrite E in Hi. cbn [skipn] in Hi. fold w in Hi. change (S i = w) in Hi. lia.
Qed.

Lemma subsidy_witness_nonneg p h : 0 <= witness (GetBlockSubsidy p h).
Proof.
  unfold GetBlockSubsidy. cbv zeta. match goal with |- context [halving_table ?k] => destruct (halving_table k) as [[m w]|] eqn:E end;
    repeat match goal with |- context [if ?b then _ else _] => destruct b end;
    try (apply halving_table_nonneg in E); cbn [witness]; unfold COIN, MILLICENT; lia.
Qed.

(** *** The block *)

Section Theorems.
Context {St : Type} `{CL : CoinsStoreLaws St} `{SH : ScriptHashes} `{EC : Secp256k1}.
Variable p : ChainParams.
Variables BIP34Height BIP65Height BIP66Height : Z.
Variables BIP34Hash hashGenesisBlock : uint256.
Variable devSubsidyKey : option (list Z).
Variable H : heap.
Variable versions : ptr -> Z * Z.
Variable index_hash : ptr -> option uint256.
Variable index_height : uint256 -> option Z.
Variable csv_active : option ptr -> bool.
Variable selected_witness : St -> option CTxOut.
Variable SerializeHash : list Z -> uint256.
Variable Hash : uint256 -> uint256 -> uint256.
Variable regtest : bool.
Variable powLimit : base_uint.
Variable activationDate : Z.
Variable sigma_valid : CBlockHeader -> bool.
Variable GetPoWHash : CBlockHeader -> base_uint.
Variable fSPV : bool.
Variable LastCheckPointHeight : Z.
Variable assumed_valid : option ptr.
Variable best_header : ptr.
Variable nMinimumChainWork : base_uint.
Variable nScriptCheckThreads : Z.
Abbreviation transactions := (connect_transactions p BIP34Height BIP65Height BIP66Height BIP34Hash devSubsidyKey H versions index_hash index_height csv_active
  selected_witness SerializeHash assumed_valid best_header nMinimumChainWork nScriptCheckThreads).
Abbreviation connect := (ConnectBlock p BIP34Height BIP65Height BIP66Height BIP34Hash hashGenesisBlock devSubsidyKey H versions index_hash index_height csv_active
  selected_witness SerializeHash Hash regtest powLimit activationDate sigma_valid GetPoWHash fSPV LastCheckPointHeight assumed_valid best_header nMinimumChainWork
  nScriptCheckThreads).

Lemma find_witness_Ok b h w : find_witness_coinbase p b h = Ok w -> 0 < h ->
  if witnessed b then w = first_witness_coinbase (skipn 1 (vtx b)) 1 /\ w <> 0%nat else w = 0%nat.
Proof.
  unfold find_witness_coinbase. intros E L. destruct (witnessed b); [|by injection E as <-].
  destruct (_ || _ || _); [|done]. rewrite Z.gtb_ltb, (proj2 (Z.ltb_lt _ _)) in E by lia. cbn [andb] in E.
  destruct (_ =? 0)%nat eqn:Ew; [done|]. injection E as <-. split; [done|]. by apply Nat.eqb_neq.
Qed.

Lemma coinbase_reward_Ok b pindex prev h st txid tx l : check_coinbase_reward p devSubsidyKey H versions b pindex prev h st = Ok tt -> vtx b = (txid, tx) :: l ->
  Forall (fun o => 0 <= nValue o) (vout tx) -> value_sum (vout tx) <= @nFees St st + coinbase_subsidy p H prev h.
Proof.
  unfold check_coinbase_reward. intros E Eb F. rewrite Eb in E. destruct (signed_sum _) as [e|] eqn:Es; cbn [res_bind] in E; [|done]. apply signed_sum_Ok in Es as ->.
  destruct (GetValueOut tx) as [v|] eqn:Ev; cbn [undefined_unless res_bind] in E; [|done]. apply (value_out_sum _ F) in Ev; [|by split; [lia|vm_compute]].
  destruct (_ >? _) eqn:Eg; cbn [negb] in E; [done|]. zbool. lia.
Qed.

Lemma witness_reward_Ok b h w st : check_witness_reward p b h w st = Ok tt -> witnessed b = true -> 0 < h ->
  Forall (fun x => Forall (fun o => 0 <= nValue o) (vout (snd x))) (vtx b) ->
  exists undo txid tx, vtxundo st !! (w - 1)%nat = Some undo /\ vtx b !! w = Some (txid, tx) /\
    value_sum (vout tx) - spent_value undo <= witness (GetBlockSubsidy p h) + @nFeesPoW2Witness St st.
Proof.
  unfold check_witness_reward, witness_pays. intros E W L F. rewrite W, (proj2 (Z.eqb_neq _ _)) in E by lia. cbn [negb andb] in E.
  destruct (_ !! (w - 1)%nat) as [undo|]; [|done]. destruct (_ !! w) as [[txid tx]|] eqn:Ex; [|done]. exists undo, txid, tx. split; [done|]. split; [done|].
  destruct (signed_sum _) as [n|] eqn:Es; cbn [res_bind] in E; [|done]. apply signed_sum_Ok in Es as ->.
  destruct (GetValueOut tx) as [v|] eqn:Ev; cbn [undefined_unless res_bind] in E; [|done].
  apply (value_out_sum _ (proj1 (Forall_lookup _ _) F _ _ Ex)) in Ev; [|by split; [lia|vm_compute]].
  destruct (_ >? _) eqn:Eg; cbn [negb] in E; [done|]. zbool. cbn [snd] in Ev. unfold subsidy in *. lia.
Qed.

Lemma transactions_supply s m b pindex bi fJustCheck fVerifyWitness fDoScriptChecks s' undos :
  transactions s b pindex bi fJustCheck fVerifyWitness fDoScriptChecks = Ok (s', undos) ->
  holds s m -> no_debt m -> restorable_map m -> block_fits (nHeight bi) 0 m (vtx b) -> Forall (fun x => CheckTransaction (snd x) true = Ok tt) (vtx b) ->
  one_witness_coinbase b -> 0 < nHeight bi < 2 ^ 30 ->
  exists us m', block_applies (nHeight bi) 0 m (vtx b) us m' /\ holds s' m' /\ undos = tail us /\ supply m' <= supply m + block_issue p H b bi.
Proof.
  intros E Hs D R Fit F O [L L']. unfold connect_transactions in E. destruct (check_all_connect _ _) as [[]|]; cbn [res_bind] in E; [|done].
  destruct (script_checks_needed _ _ _ _ _ _) as [fScript|]; cbn [undefined_unless res_bind] in E; [|done]. destruct (_ || forallb _ _); [|done].
  destruct (check_witness_signature _ _ _ _ _ _) as [[]|]; cbn [res_bind] in E; [|done].
  destruct (find_witness_coinbase _ _ _) as [w|] eqn:Ew; cbn [res_bind] in E; [|done]. apply find_witness_Ok in Ew; [|done].
  destruct (connect_loop _ _ _ _ _ _ _ _ _ _ _ _ _ _) as [st|] eqn:El; cbn [res_bind] in E; [|done].
  destruct (connect_loop_applies _ _ _ _ _ _ _ _ _ _ _ _ _ _ _ m El) as (us & m' & B); [rewrite u32_small by lia; rewrite uwrap_small by lia; done|done..|].
  exists us, m'. split; [done|].
  destruct (connect_loop_effect _ _ _ _ _ _ _ _ _ _ _ _ _ _ _ m us m' El Hs D B F) as (Hst & Vu & Sup & Wf). cbn [vtxundo Nat.ltb app nFees nFeesPoW2Witness] in *.
  destruct (check_late_bundles _ _ _ _ _) as [[]|]; cbn [res_bind] in E; [|done].
  destruct (check_witness_reward _ _ _ _ _) as [[]|] eqn:Er; cbn [res_bind] in E; [|done].
  destruct (check_coinbase_reward _ _ _ _ _ _ _ _ _) as [[]|] eqn:Ec; cbn [res_bind] in E; [|done]. destruct (queue_passes _); [|done].
  assert (Fo : Forall (fun x => Forall (fun o => 0 <= nValue o) (vout (snd x))) (vtx b)).
  { eapply Forall_impl; [exact F|]. intros x Hx. by apply check_transaction_amounts. }
  assert (X : holds s' m' /\ undos = vtxundo st).
  { destruct fJustCheck; [by injection E as <- <-|]. destruct (index_hash pindex); cbn [undefined_unless res_bind] in E; [|done]. injection E as <- <-. split; [by apply holds_best|done]. }
  destruct X as [Hs' ->]. split; [done|]. split; [done|]. cbn [Nat.ltb Nat.leb] in Vu.
  destruct (vtx b) as [|[txid tx] l] eqn:Eb; [by unfold check_coinbase_reward in Ec; rewrite Eb in Ec|].
  pose proof (coinbase_reward_Ok _ _ _ _ _ _ _ _ Ec Eb (Forall_inv Fo)) as C. inversion B as [|? ? ? ? u ? ? us' ? _ _]; subst. cbn [minted tail] in *.
  unfold fees, block_issue in *. cbn [nFees nFeesPoW2Witness] in Sup. pose proof (spent_value_nonneg u) as Pu.
  assert (Cb : (if IsCoinBase tx then value_sum (vout tx) - spent_value u else 0) <= value_sum (vout tx)).
  { pose proof (value_sum_nonneg _ (Forall_inv Fo)) as Pv. cbn [snd] in Pv. destruct (IsCoinBase tx); lia. }
  destruct (witnessed b) eqn:W; [|rewrite (minted_unwitnessed b _ l us' Eb O W), (Wf Ew) in *; lia].
  destruct (witness_reward_Ok _ _ _ _ Er W L) as (undo & wid & wtx & Eu & Ex & Bound); [by rewrite Eb|]. rewrite Vu in Eu. destruct Ew as [-> Nw].
  rewrite (minted_witnessed b _ l us' wid wtx undo Eb O Nw Ex Eu) in Sup. lia.
Qed.

Lemma CheckBlock_same b cache j m a b' cache' :
  CheckBlock SerializeHash Hash regtest powLimit activationDate sigma_valid GetPoWHash fSPV index_height LastCheckPointHeight b cache j m a = (b', cache', Ok tt) ->
  vtx b' = vtx b /\ block_header b' = block_header b /\ (fChecked b = false -> Forall (fun x => CheckTransaction (snd x) true = Ok tt) (vtx b)).
Proof.
  intros E. destruct (fChecked b) eqn:Fc; [unfold CheckBlock in E; rewrite Fc in E; by injection E as <- _|].
  eapply check_Ok in E as (E & Ev & Eh); [|done]. split; [done|]. split; [done|]. intros _. unfold check_contents in E.
  destruct (check_size b) as [[]|]; [|done]. cbn [res_bind] in E. destruct (check_coinbases b) as [[]|]; [|done]. cbn [res_bind] in E.
  destruct (if m then _ else _) as [[]|]; [|done]. cbn [res_bind] in E. destruct (check_transactions b) as [[]|] eqn:Et; [|done]. clear E.
  unfold check_transactions in Et. clear Ev Eh. revert Et. induction (vtx b) as [|x l IH]; cbn [check_all]; [constructor|]. destruct (CheckTransaction (snd x) true) as [[]|] eqn:Ex; [|done].
  intros Et. constructor; [done|]. by apply IH.
Qed.

(** C4: A block adds no more money than its subsidy. [ConnectBlock] runs at a height above 0 and below 2^30, not on the genesis block, on a view that stands for coins with positive heights, no negative values or unspendable outputs. The block's
    transactions have distinct identifiers without outputs there; the outputs are of known types at
    their places; outpoints are in range; no transaction names a coin twice, by hash and by
    position ([one_coin_counts_twice] connects such a block); no coinbase but the first transaction and,
    with a witness, the first witness coinbase (else [extra_coinbase_connects]); if marked
    as checked, the transactions pass [CheckTransaction]. If it is connected, every coin it spends was there or was made
    by it before, the view stands for the coins after it, the undo data are those of all but the first, and the value of all coins grew by at most the subsidy of the height, less what the miner
    is not paid and more what the witness is paid: from phase 4 on, the subsidy. *)
Theorem connected_block_issues_subsidy s m b cache pindex bi fJustCheck fVerifyWitness fDoScriptChecks b' cache' s' undos :
  connect s b cache pindex fJustCheck fVerifyWitness fDoScriptChecks = (b', cache', Ok (s', undos)) ->
  H !! pindex = Some bi -> 0 < nHeight bi < 2 ^ 30 -> GetHashPoW2 SerializeHash (block_header b) <> Some hashGenesisBlock ->
  holds s m -> no_debt m -> restorable_map m -> block_fits (nHeight bi) 0 m (vtx b) -> one_witness_coinbase b ->
  (fChecked b = true -> Forall (fun x => CheckTransaction (snd x) true = Ok tt) (vtx b)) ->
  exists us m', block_applies (nHeight bi) 0 m (vtx b) us m' /\ holds s' m' /\ undos = tail us /\ supply m' <= supply m + block_issue p H b bi /\
  (IsPow2Phase4Active p (height_of H <$> pprev bi) = true -> supply m' <= supply m + total (GetBlockSubsidy p (nHeight bi))).
Proof.
  intros E Ep L G Hs D R Fit O Fc. unfold ConnectBlock in E. rewrite Ep in E. destruct (ContextualCheckBlock _ _ _ _ _ _ _ _) as [[]|]; [|done].
  destruct (match index_hash pindex with Some _ => _ | None => _ end); [|done].
  destruct (CheckBlock _ _ _ _ _ _ _ _ _ _ _ _ _ _ _) as [[b1 cache1] [[]|]] eqn:Eb; [|done]. apply CheckBlock_same in Eb as (Ev & Eh & Ck).
  injection E as <- <- E. unfold connect_checked in E. destruct (undefined_unless (match pprev bi with Some _ => _ | None => _ end)); cbn [res_bind] in E; [|done].
  destruct (bool_decide _); [|done]. destruct (check_prev_witnessed _ _ _) as [[]|]; cbn [res_bind] in E; [|done].
  rewrite Eh in E. destruct (GetHashPoW2 _ _) as [hash|]; cbn [undefined_unless res_bind] in E; [|done]. rewrite bool_decide_eq_false_2 in E by congruence.
  assert (W : witnessed b1 = witnessed b) by (unfold witnessed; by rewrite Eh). assert (O1 : one_witness_coinbase b1) by (unfold one_witness_coinbase; by rewrite Ev, W).
  assert (F : Forall (fun x => CheckTransaction (snd x) true = Ok tt) (vtx b)) by (destruct (fChecked b); auto).
  rewrite <- Ev in Fit, F. destruct (transactions_supply _ _ _ _ _ _ _ _ _ _ E Hs D R Fit F O1 L) as (us & m' & B & R1 & R2 & R3).
  unfold block_issue in *. rewrite W in R3. rewrite Ev in B. exists us, m'. split_and!; [done..|]. intros P4. unfold coinbase_subsidy, subsidy in R3.
  change (height_at H <$> pprev bi) with (height_of H <$> pprev bi) in R3. rewrite P4 in R3. pose proof (subsidy_witness_nonneg p (nHeight bi)).
  destruct (witnessed b); lia.
Qed.
End Theorems.

(** ** Examples *)

Module DemoConnect.
Import CoinsSpec.Sample BlockSample.
#[export] Existing Instances placement memory InterpreterSpec.Toy.hashes Rush.curve.
(** A block at height 20 on a block at height 19; the best header is a lot of work above it. *)
Definition record (h : Z) (prev : option ptr) (work : Z) : CBlockIndex := mkIndex h prev None 100 0 0x207fffff 0 (of_u64 work).
Definition index_at (h : Z) : heap :=
  <[1%positive := record (h - 1) None 1]> (<[2%positive := record h (Some 1%positive) 3]> (<[3%positive := record (h + 1) (Some 2%positive) 100000]> ∅)).
Definition minting_at (h v : Z) : CTransaction := mkTx 5 [DemoBlock.null_in h] [out v] 0 0 0.
Definition index : heap := index_at 20.
Definition minting : Z -> CTransaction := minting_at 20.
Definition block_of (witnessed : Z) (vtx1 vtx2 : list (list Z * CTransaction)) : CBlock :=
  mkBlock (mkHeader witnessed (if witnessed =? 0 then 0 else 90) (if witnessed =? 0 then null_hash else fst (BlockMerkleRoot DemoBlock.node_hash vtx2))
             (repeat 1 65) [] 4 null_hash (fst (BlockMerkleRoot DemoBlock.node_hash vtx1)) 100 0x207fffff 0) (vtx1 ++ vtx2) false false.
Definition bytes_hash (l : list Z) : list Z := l.
(** The scripts are not run: the block is assumed to be valid. *)
Definition run_at (h : Z) (b : CBlock) : CBlock * LRUCache uint256 bool * res connect_reject (ChainedView CCoinsViewDB CCoinsViewDB * list (list CoinUndo)) :=
  ConnectBlock CMainParams 0 0 0 [] [1] None (index_at h) (fun _ => (1, 0)) (fun q => if bool_decide (q = 2%positive) then GetHashPoW2 bytes_hash (block_header b) else Some null_hash)
    (fun _ => Some (h - 1)) (fun _ => false) (fun _ => None) bytes_hash DemoBlock.node_hash true DemoBlock.pow_limit 1000 (fun _ => false) DemoBlock.work_hash false 0
    (Some 2%positive) 3%positive (of_u64 0) 0 CoinsSpec.Sample.views b DemoBlock.no_cache 2%positive false true true.
Definition run : CBlock -> CBlock * LRUCache uint256 bool * res connect_reject (ChainedView CCoinsViewDB CCoinsViewDB * list (list CoinUndo)) := run_at 20.
(** A payment of 400 from the coin of 500, and a coinbase that takes the fee. *)
Definition spending : CTransaction := mkTx 5 [mkTxIn 1 [] (key 10 3 0) SEQUENCE_FINAL []] [out 400] 0 0 0.
Definition honest : CBlock := block_of 0 [(txid 20 0, minting 150); (txid 20 1, spending)] [].
(** A coinbase of ten thousand coins between the first and that of the witness. *)
Definition witness_tx : CTransaction := mkTx 5 [DemoBlock.null_in 20; mkTxIn 0 [] (key 10 3 0) 0 [repeat 3 65; []]] [out 500] 0 0 0.
Definition generous : CBlock := block_of 4 [(txid 20 0, minting 50); (txid 20 1, minting (10000 * COIN))] [(txid 20 2, witness_tx)].

(** A payment of 1000 from the coin of 500, named by hash and by position. *)
Definition doubled : CTransaction := mkTx 5 [mkTxIn 1 [] (key 10 3 0) SEQUENCE_FINAL []; mkTxIn 1 [] by_position SEQUENCE_FINAL []] [out 1000] 0 0 0.
Definition doubling : CBlock := block_of 0 [(txid 200 0, minting_at 200 0); (txid 200 1, doubled)] [].

Lemma before_only k c : before !! k = Some c -> op_hash k = txid 10 3 /\ c = coin 10 3 500.
Proof.
  intros E. rewrite before_lookup in E. destruct (isHash k); [|done].
  unfold db in E. cbn [db_coins] in E. apply lookup_singleton_Some in E as [E <-]. by injection E as <-.
Qed.
Lemma honest_fits : block_fits 20 0 before (vtx honest).
Proof.
  split.
  - constructor; [|constructor; [|constructor]]; split.
    + intros i ->%list_elem_of_singleton [=].
    + intros [|a] b i j k [= <-] _ [=].
    + intros i ->%list_elem_of_singleton _. exact lookup_key.
    + by intros [|a] [|b] i j k [=] [=].
  - intros [|[|j]] x [= <-]; (split; [done|]); intros [|n] o [= <-]; (split; [done|]).
    + split_and!; [done|done..|vm_compute; reflexivity].
    + split_and!; [done|done..|vm_compute; reflexivity].
  - repeat constructor; [|set_solver]. intros Hin. apply list_elem_of_singleton in Hin. vm_compute in Hin. discriminate.
  - constructor; [|constructor; [|constructor]]; intros n; (destruct (before !! _) as [c|] eqn:E; [|done]); apply before_only in E as [E _]; vm_compute in E; discriminate.
Qed.
Lemma before_restorable : restorable_map before.
Proof. intros k c E. apply before_only in E as [_ ->]. done. Qed.
Lemma before_no_debt : no_debt before.
Proof. intros k c E. apply before_only in E as [_ ->]. done. Qed.
End DemoConnect.
#[local] Existing Instances CoinsSpec.Sample.placement CoinsSpec.Sample.memory InterpreterSpec.Toy.hashes Rush.curve.

Lemma connected_block_issues_subsidy_witness :
  exists s' us m', snd (DemoConnect.run DemoConnect.honest) = Ok (s', tail us) /\ block_applies 20 0 BlockSample.before (vtx DemoConnect.honest) us m' /\
    supply m' <= supply BlockSample.before + 1000 * COIN.
Proof.
  assert (R : exists x, snd (DemoConnect.run DemoConnect.honest) = Ok x) by (vm_compute; eexists; reflexivity). destruct R as [[s' undos] R].
  destruct (connected_block_issues_subsidy CMainParams 0 0 0 [] [1] None DemoConnect.index (fun _ => (1, 0))
    (fun q => if bool_decide (q = 2%positive) then GetHashPoW2 DemoConnect.bytes_hash (block_header DemoConnect.honest) else Some null_hash)
    (fun _ => Some 19) (fun _ => false) (fun _ => None) DemoConnect.bytes_hash DemoBlock.node_hash true DemoBlock.pow_limit 1000 (fun _ => false) DemoBlock.work_hash false 0
    (Some 2%positive) 3%positive (of_u64 0) 0 CoinsSpec.Sample.views BlockSample.before DemoConnect.honest DemoBlock.no_cache 2%positive
    (DemoConnect.record 20 (Some 1%positive) 3) false true true
    (fst (fst (DemoConnect.run DemoConnect.honest))) (snd (fst (DemoConnect.run DemoConnect.honest))) s' undos) as (us & m' & B & _ & E & S & _).
  - change (DemoConnect.run DemoConnect.honest = (fst (fst (DemoConnect.run DemoConnect.honest)), snd (fst (DemoConnect.run DemoConnect.honest)), Ok (s', undos))).
    rewrite <- R. by destruct (DemoConnect.run DemoConnect.honest) as [[? ?] ?].
  - reflexivity.
  - split; reflexivity.
  - vm_compute. discriminate.
  - exact BlockSample.views_before.
  - exact DemoConnect.before_no_debt.
  - exact DemoConnect.before_restorable.
  - exact DemoConnect.honest_fits.
  - intros i x E. destruct i as [|[|i]]; [by left| |done]. injection E as <-. vm_compute. discriminate.
  - intros E. vm_compute in E. discriminate E.
  - exists s', us, m'. rewrite <- E. split; [exact R|]. split; [exact B|exact S].
Defined.

(** A transaction that names one coin twice, by hash and by position, is connected with the
    coin counted twice: the source compares outpoints as they are written, and does not look whether
    the second spend found the coin. Out of all coins, worth 500, comes one of 1000. *)
Lemma one_coin_counts_twice :
  match snd (DemoConnect.run_at 200 DemoConnect.doubling) with Ok (s', _) => coin_out <$> store_coin s' (CoinsSpec.Sample.key 200 1 0) | Err _ => None end
    = Some (BlockSample.out 1000) /\ supply BlockSample.before = 500.
Proof. split; vm_compute; reflexivity. Qed.

(** A witnessed block with another coinbase before that of the witness is connected, and its
    ten thousand coins are paid out. *)
Lemma extra_coinbase_connects :
  match snd (DemoConnect.run DemoConnect.generous) with Ok (s', _) => coin_out <$> store_coin s' (CoinsSpec.Sample.key 20 1 0) | Err _ => None end
    = Some (BlockSample.out (10000 * COIN)) /\
  block_issue CMainParams DemoConnect.index DemoConnect.generous (DemoConnect.record 20 (Some 1%positive) 3) = 1000 * COIN.
Proof. split; vm_compute; reflexivity. Qed.
