(* ===== verification/SigEncoding.v ===== *)
(** * SigEncoding: strict and tolerant reading of signatures

    [IsValidSignatureEncoding] of the interpreter accepts exactly the strict encodings of
    two positive numbers, and the tolerant parser of [src/src/pubkey.cpp], which the
    interpreter hands them to, reads these numbers back. *)

From stdpp Require Import list.
From S2P Require Import Prelude ArithUint256 Serialize Compressor Transaction Script TxCheck Interpreter SigCheck.

(** ** Definitions *)

(** The shortest big-endian bytes of a positive number, with a zero byte where the first
    would have the sign bit; or a single zero. *)
Definition minimal_int (l : list Z) : Prop :=
  bytes_ok l /\ l <> [] /\ byte_at l 0 < 128 /\ ((1 < length l)%nat -> byte_at l 0 = 0 -> 128 <= byte_at l 1).
Definition strict_der (r s : list Z) (hashtype : Z) : list Z :=
  [0x30; 4 + Z.of_nat (length r) + Z.of_nat (length s); 2; Z.of_nat (length r)] ++ r ++ [2; Z.of_nat (length s)] ++ s ++ [hashtype].
(** The number that big-endian bytes stand for. *)
Definition be_val (l : list Z) : Z := le_val (rev l).

(** ** Lemmas *)

Lemma high_bit b : 0 <= b < 256 -> (Z.land b 0x80 =? 0) = (b <? 128).
Proof. intros Hb. change 0x80 with (2 ^ 7). rewrite (land_topbit 7) by lia. change (2 ^ 7) with 128. by destruct (b <? 128). Qed.

Lemma byte_at_range l i : bytes_ok l -> 0 <= byte_at l i < 256.
Proof.
  intros B. unfold byte_at. destruct (Nat.lt_ge_cases i (length l)) as [L|L]; [|rewrite nth_overflow by done; lia].
  by apply (proj1 (List.Forall_nth (fun b => 0 <= b < 256) l) B).
Qed.

Lemma byte_at_app_l (l l' : list Z) i : (i < length l)%nat -> byte_at (l ++ l') i = byte_at l i.
Proof. apply app_nth1. Qed.
Lemma byte_at_app_r (l l' : list Z) i : byte_at (l ++ l') (length l + i) = byte_at l' i.
Proof. unfold byte_at. rewrite app_nth2 by lia. f_equal. lia. Qed.
Lemma byte_at_skip l n i : byte_at (skipn n l) i = byte_at l (n + i).
Proof. apply nth_skipn. Qed.

Lemma length_strict_der r s ht : length (strict_der r s ht) = (length r + length s + 7)%nat.
Proof. unfold strict_der. rewrite !length_app. cbn [length]. lia. Qed.

(** The bytes that the check looks at. *)
Lemma strict_der_bytes r s ht : r <> [] -> s <> [] ->
  let at_ := byte_at (strict_der r s ht) in
  at_ 4%nat = byte_at r 0 /\ ((1 < length r)%nat -> at_ 5%nat = byte_at r 1) /\ at_ (length r + 4)%nat = 2 /\ at_ (length r + 5)%nat = Z.of_nat (length s) /\
  at_ (length r + 6)%nat = byte_at s 0 /\ ((1 < length s)%nat -> at_ (length r + 7)%nat = byte_at s 1).
Proof.
  intros Nr Ns at_. assert (Lr : (0 < length r)%nat) by (destruct r; [done|cbn; lia]). assert (Ls : (0 < length s)%nat) by (destruct s; [done|cbn; lia]).
  assert (H4 : forall i, at_ (4 + i)%nat = byte_at (r ++ [2; Z.of_nat (length s)] ++ s ++ [ht]) i) by (intros i; apply (byte_at_app_r [_; _; _; _])).
  assert (Hr : forall i, (i < length r)%nat -> at_ (4 + i)%nat = byte_at r i) by (intros i L; rewrite H4; by apply byte_at_app_l).
  assert (H6 : forall i, at_ (length r + (4 + i))%nat = byte_at ([2; Z.of_nat (length s)] ++ s ++ [ht]) i).
  { intros i. replace (length r + (4 + i))%nat with (4 + (length r + i))%nat by lia. rewrite H4. apply byte_at_app_r. }
  assert (Hs : forall i, (i < length s)%nat -> at_ (length r + (6 + i))%nat = byte_at s i).
  { intros i L. replace (6 + i)%nat with (4 + (2 + i))%nat by lia. rewrite H6. rewrite (byte_at_app_r [_; _]). by apply byte_at_app_l. }
  split_and!; [apply (Hr 0%nat); lia|intros L; by apply (Hr 1%nat)|apply (H6 0%nat)|apply (H6 1%nat)|apply (Hs 0%nat); lia|intros L; by apply (Hs 1%nat)].
Qed.

(** The form of a byte string with the lengths at their places. *)
Lemma strict_der_form sig r s ht : length sig = (length r + length s + 7)%nat ->
  (exists a0 a1 a2 a3 b1 b2, sig = [a0; a1; a2; a3] ++ r ++ [b1; b2] ++ s ++ [ht]) ->
  byte_at sig 0 = 0x30 -> byte_at sig 1 = 4 + Z.of_nat (length r) + Z.of_nat (length s) -> byte_at sig 2 = 2 -> byte_at sig 3 = Z.of_nat (length r) ->
  byte_at sig (length r + 4) = 2 -> byte_at sig (length r + 5) = Z.of_nat (length s) -> sig = strict_der r s ht.
Proof.
  intros L (a0 & a1 & a2 & a3 & b1 & b2 & ->) E0 E1 E2 E3 F1 F2. unfold strict_der.
  assert (H : forall i, byte_at ([a0; a1; a2; a3] ++ r ++ [b1; b2] ++ s ++ [ht]) (length r + (4 + i)) = byte_at ([b1; b2] ++ s ++ [ht]) i).
  { intros i. replace (length r + (4 + i))%nat with (4 + (length r + i))%nat by lia. rewrite (byte_at_app_r [_; _; _; _]). apply byte_at_app_r. }
  pose proof (H 0%nat) as H0. pose proof (H 1%nat) as H1. cbn [Nat.add] in H0, H1. rewrite H0 in F1. rewrite H1 in F2. unfold byte_at in *. cbn [app nth] in *. by subst.
Qed.

Lemma split_der (sig : list Z) lenR lenS : length sig = (lenR + lenS + 7)%nat ->
  exists r s ht, length r = lenR /\ length s = lenS /\ exists a0 a1 a2 a3 b1 b2, sig = [a0; a1; a2; a3] ++ r ++ [b1; b2] ++ s ++ [ht].
Proof.
  intros L. destruct sig as [|a0 [|a1 [|a2 [|a3 t]]]]; try (cbn in L; lia). cbn [length] in L.
  assert (Lt : length t = (lenR + lenS + 3)%nat) by lia. rewrite <- (firstn_skipn lenR t).
  assert (L2 : length (skipn lenR t) = (lenS + 3)%nat) by (rewrite length_skipn; lia). destruct (skipn lenR t) as [|b1 [|b2 u]]; try (cbn in L2; lia).
  assert (N : u <> []) by (intros ->; cbn in L2; lia). destruct (exists_last N) as (s & ht & ->). cbn [length] in L2. rewrite length_app in L2. cbn in L2.
  exists (firstn lenR t), s, ht. split_and!; [rewrite length_firstn; lia|lia|]. by exists a0, a1, a2, a3, b1, b2.
Qed.

Lemma strict_der_ok r s ht : bytes_ok (strict_der r s ht) -> bytes_ok r /\ bytes_ok s.
Proof. unfold strict_der, bytes_ok. rewrite !Forall_app. tauto. Qed.

Lemma minimal_int_check l : bytes_ok l -> l <> [] ->
  minimal_int l <-> negb (Z.land (byte_at l 0) 0x80 =? 0) = false /\
    ((Z.of_nat (length l) >? 1) && (byte_at l 0 =? 0) && (Z.land (byte_at l 1) 0x80 =? 0)) = false.
Proof.
  intros B N. pose proof (byte_at_range l 0 B). pose proof (byte_at_range l 1 B). rewrite !high_bit by done. unfold minimal_int. split.
  - intros (_ & _ & H1 & H2). rewrite (proj2 (Z.ltb_lt _ _)) by done. split; [done|]. rewrite Z.gtb_ltb.
    destruct (1 <? Z.of_nat (length l)) eqn:E1; [|done]. destruct (byte_at l 0 =? 0) eqn:E2; [|done]. zbool. cbn [andb]. apply Z.ltb_ge. apply H2; lia.
  - intros [H1 H2]. zbool. split_and!; try done. intros L E. rewrite E, Z.gtb_ltb, (proj2 (Z.ltb_lt _ _)) in H2 by lia. cbn [Z.eqb andb] in H2. zbool. lia.
Qed.

Lemma strict_is_valid r s ht : minimal_int r -> minimal_int s -> (length r + length s + 7 <= 73)%nat -> IsValidSignatureEncoding (strict_der r s ht) = true.
Proof.
  intros Mr Ms L. pose proof Mr as (Br & Nr & _). pose proof Ms as (Bs & Ns & _).
  apply minimal_int_check in Mr as [R1 R2]; [|done..]. apply minimal_int_check in Ms as [S1 S2]; [|done..].
  assert (Lr : (0 < length r)%nat) by (destruct r; [done|cbn; lia]). assert (Ls : (0 < length s)%nat) by (destruct s; [done|cbn; lia]).
  destruct (strict_der_bytes r s ht Nr Ns) as (E4 & E5 & F4 & F5 & F6 & F7).
  assert (E3 : byte_at (strict_der r s ht) 3 = Z.of_nat (length r)) by done.
  assert (E0 : byte_at (strict_der r s ht) 0 = 0x30) by done. assert (E2 : byte_at (strict_der r s ht) 2 = 2) by done.
  assert (E1 : byte_at (strict_der r s ht) 1 = 4 + Z.of_nat (length r) + Z.of_nat (length s)) by done.
  unfold IsValidSignatureEncoding. rewrite length_strict_der, E3. set (sig := strict_der r s ht) in *. clearbody sig.
  change (Z.to_nat 0) with 0%nat. change (Z.to_nat 1) with 1%nat. change (Z.to_nat 2) with 2%nat. change (Z.to_nat 4) with 4%nat. change (Z.to_nat 5) with 5%nat.
  replace (Z.to_nat (5 + Z.of_nat (length r))) with (length r + 5)%nat by lia. replace (Z.to_nat (Z.of_nat (length r) + 4)) with (length r + 4)%nat by lia.
  replace (Z.to_nat (Z.of_nat (length r) + 6)) with (length r + 6)%nat by lia. replace (Z.to_nat (Z.of_nat (length r) + 7)) with (length r + 7)%nat by lia.
  rewrite E0, E1, E2, E4, F4, F5, F6, R1, S1.
  rewrite (proj2 (Z.ltb_ge _ 9)), (Z.gtb_ltb _ 73), (proj2 (Z.ltb_ge 73 _)), (Z.geb_leb _ (Z.of_nat (length r + length s + 7))), (proj2 (Z.leb_gt _ (5 + Z.of_nat (length r)))) by lia.
  rewrite (proj2 (Z.eqb_eq (4 + _ + _) _)), (proj2 (Z.eqb_eq (Z.of_nat (length r) + _ + _) _)) by lia. cbn [Z.eqb Pos.eqb negb].
  rewrite !(proj2 (Z.eqb_neq (Z.of_nat _) 0)) by lia.
  assert ((Z.of_nat (length r) >? 1) && (byte_at r 0 =? 0) && (Z.land (byte_at sig 5) 128 =? 0) = false) as ->.
  { destruct (Z.of_nat (length r) >? 1) eqn:E; [|done]. rewrite E5 by (zbool; lia). exact R2. }
  assert ((Z.of_nat (length s) >? 1) && (byte_at s 0 =? 0) && (Z.land (byte_at sig (length r + 7)) 128 =? 0) = false) as ->; [|done].
  destruct (Z.of_nat (length s) >? 1) eqn:E; [|done]. rewrite F7 by (zbool; lia). exact S2.
Qed.

Lemma valid_is_strict sig : bytes_ok sig -> IsValidSignatureEncoding sig = true ->
  exists r s ht, minimal_int r /\ minimal_int s /\ sig = strict_der r s ht /\ (length r + length s + 7 <= 73)%nat.
Proof.
  intros B. unfold IsValidSignatureEncoding. pose proof (byte_at_range sig 3 B) as B3. set (lenR := byte_at sig 3) in *.
  destruct (_ <? 9) eqn:E9; [done|]. destruct (_ >? 73) eqn:E73; [done|]. destruct (negb (_ =? 0x30)) eqn:E0; [done|]. destruct (negb (_ =? _ - 3)) eqn:E1; [done|].
  destruct (5 + lenR >=? _) eqn:E5; [done|]. pose proof (byte_at_range sig (Z.to_nat (5 + lenR)) B) as BS. set (lenS := byte_at sig (Z.to_nat (5 + lenR))) in *.
  destruct (negb (lenR + lenS + 7 =? _)) eqn:EL; [done|]. destruct (negb (_ =? 2)) eqn:E2; [done|]. destruct (lenR =? 0) eqn:ER; [done|].
  destruct (negb (Z.land (byte_at sig (Z.to_nat 4)) _ =? 0)) eqn:R1; [done|]. destruct (_ && _ && _) eqn:R2; [done|].
  destruct (negb (byte_at sig (Z.to_nat (lenR + 4)) =? 2)) eqn:F4; [done|]. destruct (lenS =? 0) eqn:ES; [done|].
  destruct (negb (Z.land (byte_at sig (Z.to_nat (lenR + 6))) _ =? 0)) eqn:S1; [done|]. 
  destruct ((lenS >? 1) && _ && _) eqn:S2; [done|]. intros _.
  destruct (split_der sig (Z.to_nat lenR) (Z.to_nat lenS)) as (r & s & ht & Lr & Ls & Fm); [zbool; lia|].
  assert (Nr : r <> []) by (intros ->; cbn in Lr; zbool; lia). assert (Ns : s <> []) by (intros ->; cbn in Ls; zbool; lia).
  assert (E : sig = strict_der r s ht).
  { apply strict_der_form; [zbool; lia|done|..]; rewrite ?Lr, ?Ls, ?Z2Nat.id by lia; zbool; [done|..].
    - change (Z.to_nat 1) with 1%nat in *. lia.
    - done.
    - done.
    - rewrite <- F4. f_equal. lia.
    - unfold lenS. f_equal. lia. }
  exists r, s, ht. split_and!; [| |done|zbool; lia].
  - apply minimal_int_check; [by apply (strict_der_ok r s ht); rewrite <- E|done|].
    destruct (strict_der_bytes r s ht Nr Ns) as (E4 & E5' & _). rewrite <- E in E4, E5'.
    change (Z.to_nat 4) with 4%nat in *. change (Z.to_nat 5) with 5%nat in *. rewrite E4 in R1, R2. split; [exact R1|].
    replace (Z.of_nat (length r)) with lenR by lia. destruct (lenR >? 1) eqn:El; [|done]. rewrite <- E5' by (zbool; lia). exact R2.
  - apply minimal_int_check; [by apply (strict_der_ok r s ht); rewrite <- E|done|].
    destruct (strict_der_bytes r s ht Nr Ns) as (_ & _ & _ & _ & F6 & F7). rewrite <- E in F6, F7. rewrite Lr in F6, F7.
    replace (Z.to_nat (lenR + 6)) with (Z.to_nat lenR + 6)%nat in * by lia. replace (Z.to_nat (lenR + 7)) with (Z.to_nat lenR + 7)%nat in * by lia.
    rewrite F6 in S1, S2. split; [exact S1|].
    replace (Z.of_nat (length s)) with lenS by lia. destruct (lenS >? 1) eqn:El; [|done]. rewrite <- F7 by (zbool; lia). exact S2.
Qed.

(** *** The tolerant parser *)

Lemma der_integer_short (l rest : list Z) : Z.of_nat (length l) < 128 -> der_integer (2 :: Z.of_nat (length l) :: l ++ rest) = Some (l, rest).
Proof.
  intros L. cbn [der_integer Z.eqb Pos.eqb negb der_length]. rewrite high_bit, (proj2 (Z.ltb_lt _ _)) by lia.
  rewrite Z.gtb_ltb, (proj2 (Z.ltb_ge _ _)) by (rewrite length_app; lia). rewrite Nat2Z.id. by rewrite take_app_length, drop_app_length.
Qed.

Lemma parse_strict r s ht : Z.of_nat (length r) + Z.of_nat (length s) < 124 ->
  ecdsa_signature_parse_der_lax (removelast (strict_der r s ht)) =
  Some (match der_scalar r, der_scalar s with Some a, Some b => a ++ b | _, _ => repeat 0 64 end).
Proof.
  intros L. unfold strict_der. rewrite !app_assoc, removelast_last, <- !app_assoc. cbn [app ecdsa_signature_parse_der_lax Z.eqb Pos.eqb negb].
  rewrite high_bit, (proj2 (Z.ltb_lt _ _)) by lia. rewrite Z.gtb_ltb, (proj2 (Z.ltb_ge _ 0)) by lia. change (Z.to_nat 0) with 0%nat. cbn [drop].
  rewrite (der_integer_short r) by lia. pose proof (der_integer_short s [] ltac:(lia)) as E. rewrite app_nil_r in E. by rewrite E.
Qed.

Lemma le_val_zeros l n : le_val (l ++ repeat 0 n) = le_val l.
Proof. rewrite le_val_app. assert (E : le_val (repeat 0 n) = 0) by (induction n as [|n IH]; cbn [repeat le_val]; lia). rewrite E. lia. Qed.
Lemma be_val_drop_zeros l : be_val (drop_zeros l) = be_val l.
Proof.
  unfold be_val. induction l as [|b l IH]; [done|]. cbn [drop_zeros]. destruct (b =? 0) eqn:E; [|done]. zbool. subst.
  cbn [rev]. rewrite IH. symmetry. apply (le_val_zeros _ 1).
Qed.
Lemma rev_repeat0 n : rev (repeat 0 n) = repeat 0 n.
Proof. induction n as [|n IH]; [done|]. cbn [repeat rev]. rewrite IH. symmetry. apply repeat_cons. Qed.
Lemma drop_zeros_head l : match drop_zeros l with [] => True | b :: _ => b <> 0 end.
Proof. induction l as [|b l IH]; [done|]. cbn. destruct (b =? 0) eqn:E; [exact IH|]. by zbool. Qed.
Lemma drop_zeros_ok l : bytes_ok l -> bytes_ok (drop_zeros l).
Proof. induction 1 as [|b l ? ? IH]; [by constructor|]. cbn [drop_zeros]. destruct (b =? 0); [exact IH|]. by constructor. Qed.

(** The 32 bytes keep the number, and a number without such bytes does not fit. *)
Lemma der_scalar_spec l : bytes_ok l ->
  match der_scalar l with Some a => length a = 32%nat /\ be_val a = be_val l | None => 2 ^ 256 <= be_val l end.
Proof.
  intros B. unfold der_scalar. pose proof (drop_zeros_head l) as Hh. pose proof (drop_zeros_ok l B) as B'. rewrite <- (be_val_drop_zeros l).
  set (d := drop_zeros l) in *. clearbody d. destruct (32 <? length d)%nat eqn:E.
  - apply Nat.ltb_lt in E. destruct d as [|b d]; [cbn in E; lia|]. apply Forall_cons in B' as [Bb Bd]. unfold be_val. cbn [rev]. rewrite le_val_app.
    assert (R : bytes_ok (rev d)) by by apply Forall_rev. pose proof (le_val_fits _ R) as V. unfold fits in V.
    cbn [le_val length] in *. rewrite length_rev in *. assert (P : 2 ^ 256 <= 2 ^ (8 * Z.of_nat (length d))) by (apply Z.pow_le_mono_r; lia). nia.
  - apply Nat.ltb_ge in E. split; [rewrite length_app, repeat_length; lia|]. unfold be_val. rewrite rev_app_distr, rev_repeat0. apply le_val_zeros.
Qed.

(** ** Properties *)

(** C24: The check of signature encodings accepts a string of bytes exactly when it is the strict encoding of two
    numbers in their shortest form without sign, followed by a hash type, of at most 73
    bytes in all; everything else is refused. *)
Theorem valid_encoding_iff_strict sig : bytes_ok sig ->
  IsValidSignatureEncoding sig = true <->
  exists r s ht, minimal_int r /\ minimal_int s /\ sig = strict_der r s ht /\ (length r + length s + 7 <= 73)%nat.
Proof.
  intros B. split; [by apply valid_is_strict|]. intros (r & s & ht & Mr & Ms & -> & L). by apply strict_is_valid.
Qed.

(** A signature that passes the check of encodings is read by the tolerant parser as the
    two numbers it encodes, in 32 bytes each, or as the invalid signature of zeros when a
    number needs more: the tolerance of the parser does not change strict signatures. *)
Theorem strict_signature_parses sig : bytes_ok sig -> IsValidSignatureEncoding sig = true ->
  exists r s ht, sig = strict_der r s ht /\
    ((2 ^ 256 <= be_val r \/ 2 ^ 256 <= be_val s) /\ ecdsa_signature_parse_der_lax (removelast sig) = Some (repeat 0 64) \/
     exists a b, ecdsa_signature_parse_der_lax (removelast sig) = Some (a ++ b) /\ length a = 32%nat /\ length b = 32%nat /\
       be_val a = be_val r /\ be_val b = be_val s).
Proof.
  intros B V. destruct (valid_is_strict sig B V) as (r & s & ht & (Br & _) & (Bs & _) & -> & L). exists r, s, ht. split; [done|].
  rewrite parse_strict by lia. pose proof (der_scalar_spec r Br) as R. pose proof (der_scalar_spec s Bs) as S.
  destruct (der_scalar r) as [a|]; [|by left; split; [left|]]. destruct (der_scalar s) as [b|]; [|by left; split; [right|]].
  right. exists a, b. destruct R, S. by split_and!.
Qed.

(** ** Witnesses *)

Definition sample_signature : list Z := [0x30; 7; 2; 1; 5; 2; 2; 0; 0x80; 1].
Lemma sample_signature_ok : bytes_ok sample_signature.
Proof. repeat constructor; discriminate. Qed.

Lemma valid_encoding_iff_strict_witness : exists r s ht, sample_signature = strict_der r s ht /\ minimal_int s.
Proof.
  destruct (proj1 (valid_encoding_iff_strict sample_signature sample_signature_ok)) as (r & s & ht & _ & M & E & _); [reflexivity|]. exists r, s, ht. by split.
Defined.

Lemma strict_signature_parses_witness : exists r s ht, sample_signature = strict_der r s ht.
Proof.
  destruct (strict_signature_parses sample_signature sample_signature_ok) as (r & s & ht & E & _); [reflexivity|]. by exists r, s, ht.
Defined.
