(* ===== verification/Hashers.v ===== *)
(** * Streaming hash functions

    The four hash classes of crypto/ (sha1.cpp, ripemd160.cpp, sha256.cpp,
    sha512.cpp) keep a state, a buffer and a count of bytes, and have the same
    [Write] and [Finalize]. They are the functions of this file at an instance of
    [HashFunction], which has what differs: the sizes, the initial state, the
    [Transform] of a block and the order of bytes. The theorem on them is proved
    from [HashLaws]. *)

From S2P Require Import Prelude Serialize.

(** ** Definitions *)

(** *** Bytes of words, crypto/common.h *)

Definition ReadBE32 (ptr : list Z) : Z := le_val (rev (firstn 4 ptr)).
Definition ReadBE64 (ptr : list Z) : Z := le_val (rev (firstn 8 ptr)).
Definition ReadLE64 (ptr : list Z) : Z := le_val (firstn 8 ptr).
Definition WriteBE32 (x : Z) : list Z := rev (le_bytes 4 x).
Definition WriteBE64 (x : Z) : list Z := rev (le_bytes 8 x).
Definition WriteLE64 (x : Z) : list Z := le_bytes 8 x.

(** [memcpy] into a buffer at an offset. *)
Definition memcpy (dest : list Z) (offset : nat) (data : list Z) : list Z :=
  firstn offset dest ++ data ++ skipn (offset + length data) dest.

(** *** Unrolled rounds

    The transforms unroll their rounds over [n] variables and rotate the names from
    line to line instead of moving the values: the variable that has role [j] (0 for
    [a]) in line [i], and the values in the order of their roles. *)

Definition role (n i j : nat) : nat := (j + (n - 1) * i) mod n.
Definition working (n i : nat) (v : list Z) : list Z := map (fun j => nth (role n i j) v 0) (seq 0 n).

(** The schedule of the message words: sixteen, and [n] more that [next] computes from those before. *)
Fixpoint extend (next : list Z -> Z) (n : nat) (M : list Z) : list Z :=
  match n with O => M | S n => let W := extend next n M in W ++ [next W] end.

(** The sixteen message variables hold the last sixteen of the words before [i]. *)
Definition window (W : list Z) (i : nat) (ws : list Z) : Prop :=
  length ws = 16%nat /\ forall t, (t < i)%nat -> (i <= t + 16)%nat -> nth (t mod 16) ws 0 = nth t W 0.

(** *** Hashers *)

(** What the classes do not share. [padbase] is the constant of [Finalize] that the
    fill level of the buffer is subtracted from, [sizedesc] the bytes of the number of bits. *)
Class HashFunction := {
  blocksize : nat;
  Initialize : list Z;
  Transform : list Z -> list Z -> list Z;
  padbase : nat;
  sizedesc : Z -> list Z;
  write_state : list Z -> list Z
}.

Record hasher := mkHasher { s : list Z; buf : list Z; bytes : Z }.

Section Hasher.
Context `{HashFunction}.

(** The constructor does not initialise the buffer: its content is an argument. *)
Definition hasher_new (garbage : list Z) : hasher := mkHasher Initialize garbage 0.
Definition bufsize_of (h : hasher) : nat := Z.to_nat (bytes h mod Z.of_nat blocksize).

(** The loop over the blocks that need not be copied; there are at most as many as bytes. *)
Fixpoint full_chunks (fuel : nat) (h : hasher) (data : list Z) : hasher * list Z :=
  match fuel with
  | O => (h, data)
  | S f =>
      if (blocksize <=? length data)%nat then
        full_chunks f (mkHasher (Transform (s h) (firstn blocksize data)) (buf h) (u64 (bytes h + Z.of_nat blocksize))) (skipn blocksize data)
      else (h, data)
  end.
(** The first part of [Write]: the buffer is filled and processed if the data suffice. *)
Definition fill_buffer (h : hasher) (data : list Z) : hasher * list Z * nat :=
  let bufsize := bufsize_of h in
  if negb (bufsize =? 0)%nat && (blocksize <=? bufsize + length data)%nat then
    let b := memcpy (buf h) bufsize (firstn (blocksize - bufsize) data) in
    (mkHasher (Transform (s h) b) b (u64 (bytes h + Z.of_nat (blocksize - bufsize))), skipn (blocksize - bufsize) data, O)
  else (h, data, bufsize).
Definition keep_rest (h : hasher) (data : list Z) (bufsize : nat) : hasher :=
  if (0 <? length data)%nat then mkHasher (s h) (memcpy (buf h) bufsize data) (u64 (bytes h + Z.of_nat (length data))) else h.
Definition Write (h : hasher) (data : list Z) : hasher :=
  let '(h, data, bufsize) := fill_buffer h data in
  let (h, data) := full_chunks (length data) h data in
  keep_rest h data bufsize.

Definition pad : list Z := 0x80 :: repeat 0 (blocksize - 1).
Definition Finalize (h : hasher) : list Z :=
  let sizedesc := sizedesc (u64 (Z.shiftl (bytes h) 3)) in
  let h := Write h (firstn (1 + (padbase - bufsize_of h) mod blocksize) pad) in
  let h := Write h sizedesc in
  write_state (s h).
Definition Reset (h : hasher) : hasher := mkHasher Initialize (buf h) 0.

(** *** The specification: padding to full blocks, and a fold over the blocks *)

Fixpoint compress_all (n : nat) (st : list Z) (msg : list Z) : list Z :=
  match n with O => st | S n => compress_all n (Transform st (firstn blocksize msg)) (skipn blocksize msg) end.
(** A one bit, the fewest zeros that fill a block, and the number of bits, counted in 64 bits as in
    the source; the standard of SHA-512 counts in 128 bits, which differs from 2^61 bytes on. *)
Definition padding (msg : list Z) : list Z :=
  let size := sizedesc (u64 (8 * Z.of_nat (length msg))) in
  0x80 :: repeat 0 (Z.to_nat ((- Z.of_nat (length msg + 1 + length size)) mod Z.of_nat blocksize)) ++ size.
Definition digest (msg : list Z) : list Z :=
  let p := msg ++ padding msg in write_state (compress_all (length p / blocksize) Initialize p).
End Hasher.

(** What the streaming theorem needs of a hash function. *)
Class HashLaws (F : HashFunction) := {
  blocksize_pow : exists k, (k <= 32)%nat /\ blocksize = (2 ^ k)%nat;
  sizedesc_length : forall n m, length (sizedesc n) = length (sizedesc m);
  padbase_eq : forall n, (padbase + 1 + length (sizedesc n) = 2 * blocksize)%nat;
  sizedesc_fits : forall n, (length (sizedesc n) < blocksize)%nat
}.

(** ** Lemmas *)

Lemma nth_insert_eq {A} j x (l : list A) d : (j < length l)%nat -> nth j (<[j:=x]> l) d = x.
Proof. intros L. apply nth_lookup_Some. by apply list_lookup_insert_eq. Qed.
Lemma nth_insert_ne {A} j k x (l : list A) d : j <> k -> nth k (<[j:=x]> l) d = nth k l d.
Proof. intros N. by rewrite !nth_lookup, list_lookup_insert_ne. Qed.
Lemma nth_lookup_Some' (l : list Z) k : (k < length l)%nat -> l !! k = Some (nth k l 0).
Proof. intros L. rewrite nth_lookup. by destruct (lookup_lt_is_Some_2 l k L) as [x ->]. Qed.

Lemma role_small n i j : (0 < n)%nat -> (role n i j < n)%nat.
Proof. intros P. apply Nat.mod_upper_bound. lia. Qed.
Lemma role_inj n i j k : (j < n)%nat -> (k < n)%nat -> role n i j = role n i k -> j = k.
Proof.
  unfold role. intros Hj Hk E. pose proof (Nat.div_mod_eq (j + (n - 1) * i) n) as D1. pose proof (Nat.div_mod_eq (k + (n - 1) * i) n) as D2.
  rewrite E in D1. set (q1 := ((j + (n - 1) * i) / n)%nat) in *. set (q2 := ((k + (n - 1) * i) / n)%nat) in *.
  assert (q1 = q2 \/ (q1 + 1 <= q2)%nat \/ (q2 + 1 <= q1)%nat) as [|[|]] by lia; [subst q1; lia|nia..].
Qed.
Lemma role_next n i j : (S j < n)%nat -> role n (S i) (S j) = role n i j.
Proof. intros L. unfold role. rewrite <- (Nat.Div0.mod_add (j + (n - 1) * i) 1 n). f_equal. nia. Qed.
Lemma role_next_0 n i : role n (S i) 0 = role n i (n - 1).
Proof. unfold role. f_equal. lia. Qed.
Lemma role_cycle n m j : (j < n)%nat -> role n (n * m) j = j.
Proof.
  intros L. unfold role. replace (j + (n - 1) * (n * m))%nat with (j + (n - 1) * m * n)%nat by nia. rewrite Nat.Div0.mod_add. by apply Nat.mod_small.
Qed.
Lemma working_length n i v : length (working n i v) = n.
Proof. unfold working. by rewrite length_map, length_seq. Qed.
Lemma nth_working n i v j : (j < n)%nat -> nth j (working n i v) 0 = nth (role n i j) v 0.
Proof. intros L. apply nth_lookup_Some. unfold working. by rewrite list_lookup_fmap, lookup_seq_lt. Qed.
Lemma nth_firstn_lt {A} (l : list A) n j d : (j < n)%nat -> nth j (firstn n l) d = nth j l d.
Proof. intros L. by rewrite !nth_lookup, lookup_take_lt. Qed.
Lemma nth_ext_length (l l' : list Z) n : length l = n -> length l' = n -> (forall j, (j < n)%nat -> nth j l 0 = nth j l' 0) -> l = l'.
Proof.
  intros L L' E. apply list_eq. intros j. destruct (Nat.lt_ge_cases j n) as [Lj|Lj].
  - rewrite !nth_lookup_Some' by lia. by rewrite E.
  - by rewrite !lookup_ge_None_2 by lia.
Qed.
(** A line that assigns the variables with the roles [p] and [q], in the order of the next line. *)
Lemma working_assign n i v p q x y : length v = n -> (p < n)%nat -> (q < n)%nat -> p <> q ->
  working n (S i) (<[role n i p := x]> (<[role n i q := y]> v)) =
  let l := <[p := x]> (<[q := y]> (working n i v)) in nth (n - 1) l 0 :: firstn (n - 1) l.
Proof.
  intros L P Q N. cbv zeta. set (v' := <[role n i p := x]> _). set (l := <[p := x]> _).
  assert (Ll : length l = n) by (unfold l; by rewrite !length_insert, working_length).
  assert (R : forall j, (j < n)%nat -> nth (role n i j) v' 0 = nth j l 0).
  { intros j Hj. unfold v', l. destruct (Nat.eq_dec j p) as [->|Np].
    { rewrite !nth_insert_eq; [done|by rewrite length_insert, working_length|rewrite length_insert, L; apply role_small; lia]. }
    rewrite (nth_insert_ne (role n i p)), (nth_insert_ne p) by first [congruence | intros E%role_inj; [congruence|lia|lia]]. destruct (Nat.eq_dec j q) as [->|Nq].
    { rewrite !nth_insert_eq; [done|by rewrite working_length|rewrite L; apply role_small; lia]. }
    rewrite (nth_insert_ne (role n i q)), (nth_insert_ne q) by first [congruence | intros E%role_inj; [congruence|lia|lia]]. by rewrite nth_working. }
  apply (nth_ext_length _ _ n); [apply working_length|cbn [length]; rewrite length_firstn; lia|].
  intros j Hj. rewrite nth_working by done. destruct j as [|j]; cbn [nth].
  - rewrite role_next_0. apply R. lia.
  - rewrite role_next, nth_firstn_lt by lia. apply R. lia.
Qed.

Lemma extend_length next n M : length (extend next n M) = (length M + n)%nat.
Proof. induction n as [|n IH]; cbn [extend]; [lia|]. rewrite length_app, IH. cbn. lia. Qed.
Lemma extend_Forall (P : Z -> Prop) next n M : (forall W, Forall P W -> P (next W)) -> Forall P M -> Forall P (extend next n M).
Proof. intros N F. induction n as [|n IH]; cbn [extend]; [done|]. apply Forall_app. split; [done|]. apply Forall_singleton. auto. Qed.
Lemma extend_first next n M t : (t < length M)%nat -> nth t (extend next n M) 0 = nth t M 0.
Proof. intros L. induction n as [|n IH]; [done|]. cbn [extend]. rewrite app_nth1; [done|]. rewrite extend_length. lia. Qed.
Lemma extend_step next n M t : (length M <= t < length M + n)%nat -> nth t (extend next n M) 0 = next (firstn t (extend next n M)).
Proof.
  induction n as [|n IH]; intros L; [lia|]. cbn [extend]. pose proof (extend_length next n M) as E. destruct (Nat.eq_dec t (length M + n)%nat) as [->|Ne].
  - rewrite app_nth2 by lia. rewrite E, Nat.sub_diag, firstn_app, firstn_all2, E, Nat.sub_diag, app_nil_r by lia. done.
  - rewrite app_nth1, firstn_app by lia. replace (t - length (extend next n M))%nat with O by lia. rewrite app_nil_r. apply IH. lia.
Qed.
(** Reading [k] words back. *)
Lemma back_firstn (W : list Z) t k : (t <= length W)%nat -> (0 < k <= t)%nat -> nth (length (firstn t W) - k) (firstn t W) 0 = nth (t - k) W 0.
Proof. intros L Lk. rewrite length_firstn, Nat.min_l, nth_firstn_lt by lia. done. Qed.

Lemma window_0 W : window W 0 (repeat 0 16).
Proof. split; [done|]. intros. lia. Qed.
Lemma window_step W i ws : window W i ws -> window W (S i) (<[(i mod 16)%nat := nth i W 0]> ws).
Proof.
  intros (L & H). pose proof (Nat.mod_upper_bound i 16 ltac:(lia)). split; [by rewrite length_insert|]. intros t L1 L2.
  destruct (Nat.eq_dec t i) as [->|Ne]; [apply nth_insert_eq; lia|]. rewrite nth_insert_ne; [apply H; lia|].
  pose proof (Nat.div_mod_eq t 16). pose proof (Nat.div_mod_eq i 16). intros E. lia.
Qed.
Lemma window_read W i ws k j : window W i ws -> (k + j = 16)%nat -> (0 < k <= i)%nat -> nth ((i + j) mod 16) ws 0 = nth (i - k) W 0.
Proof.
  intros (L & H) E Lk. rewrite <- (H (i - k)%nat) by lia. f_equal. rewrite <- (Nat.Div0.mod_add (i - k) 1 16). f_equal. lia.
Qed.
Lemma working_cycle n m v : length v = n -> working n (n * m) v = v.
Proof.
  intros L. apply list_eq. intros j. unfold working. rewrite list_lookup_fmap. destruct (Nat.lt_ge_cases j n) as [Lj|Lj].
  - rewrite lookup_seq_lt by done. cbn. rewrite role_cycle by done. symmetry. apply nth_lookup_Some'. lia.
  - rewrite lookup_seq_ge, lookup_ge_None_2 by lia. done.
Qed.

Lemma memcpy_length b off d : (off + length d <= length b)%nat -> length (memcpy b off d) = length b.
Proof. intros L. unfold memcpy. rewrite !length_app, length_firstn, length_skipn. lia. Qed.
Lemma memcpy_firstn b off d : (off + length d <= length b)%nat -> firstn (off + length d) (memcpy b off d) = firstn off b ++ d.
Proof.
  intros L. unfold memcpy. rewrite app_assoc, firstn_app, length_app, length_firstn.
  replace (_ - _)%nat with O by lia. rewrite firstn_O, app_nil_r, firstn_all2; [done|]. rewrite length_app, length_firstn. lia.
Qed.

Lemma firstn_repeat {A} (x : A) k n : firstn k (repeat x n) = repeat x (Nat.min k n).
Proof. revert n. induction k as [|k IH]; intros [|n]; cbn; [done..|]. by rewrite IH. Qed.

Section Laws.
Context `{L : HashLaws}.

Lemma blocksize_pos : (0 < blocksize)%nat.
Proof. destruct blocksize_pow as (k & _ & ->). apply Nat.neq_0_lt_0, Nat.pow_nonzero. lia. Qed.
#[local] Hint Resolve blocksize_pos : core.

Lemma u64_mod_block n : u64 n mod Z.of_nat blocksize = n mod Z.of_nat blocksize.
Proof.
  destruct blocksize_pow as (k & Lk & ->). unfold u64, uwrap. rewrite Nat2Z.inj_pow.
  apply Z.mod_mod_divide. exists (2 ^ (64 - Z.of_nat k)). change (Z.of_nat 2) with 2. rewrite <- Z.pow_add_r by lia. f_equal. lia.
Qed.

Lemma compress_all_add a b st m : compress_all (a + b) st m = compress_all b (compress_all a st m) (skipn (a * blocksize) m).
Proof.
  revert st m. induction a as [|a IH]; intros st m; [done|]. cbn [compress_all Nat.add Nat.mul]. rewrite IH. by rewrite skipn_skipn, Nat.add_comm.
Qed.
Lemma compress_all_app n st m d : (n * blocksize <= length m)%nat -> compress_all n st (m ++ d) = compress_all n st m.
Proof.
  revert st m. induction n as [|n IH]; intros st m Le; [done|]. cbn [compress_all Nat.mul] in *.
  rewrite firstn_app, skipn_app. replace (_ - _)%nat with O by lia. rewrite firstn_O, app_nil_r, skipn_O. apply IH. rewrite length_skipn. lia.
Qed.

(** The hasher has taken in the message: the state is that of its full blocks, the buffer has the rest. *)
Definition absorbed (h : hasher) (msg : list Z) : Prop :=
  s h = compress_all (length msg / blocksize) Initialize msg /\
  length (buf h) = blocksize /\
  firstn (length msg mod blocksize) (buf h) = skipn (length msg / blocksize * blocksize) msg /\
  bytes h = u64 (Z.of_nat (length msg)).

Lemma new_absorbed garbage : length garbage = blocksize -> absorbed (hasher_new garbage) [].
Proof. intros G. unfold absorbed. cbn [length]. rewrite Nat.Div0.div_0_l, Nat.Div0.mod_0_l. done. Qed.

Lemma absorbed_bufsize h msg : absorbed h msg -> bufsize_of h = (length msg mod blocksize)%nat.
Proof. intros (_ & _ & _ & E). unfold bufsize_of. by rewrite E, u64_mod_block, <- Nat2Z.inj_mod, Nat2Z.id. Qed.

(** A message cut at a full block. *)
Lemma absorbed_block h m d st : absorbed h m -> length (buf st) = blocksize -> (length m mod blocksize + length d = blocksize)%nat ->
  s st = Transform (s h) (skipn (length m / blocksize * blocksize) m ++ d) -> bytes st = u64 (bytes h + Z.of_nat (length d)) ->
  absorbed st (m ++ d) /\ (length (m ++ d) mod blocksize = 0)%nat.
Proof.
  intros (Es & Lb & Eb & En) Lb' Ld Es' En'. pose proof blocksize_pos as B.
  pose proof (Nat.div_mod_eq (length m) blocksize) as D. set (q := (length m / blocksize)%nat) in *. set (r := (length m mod blocksize)%nat) in *.
  assert (Lmd : length (m ++ d) = ((q + 1) * blocksize)%nat) by (rewrite length_app; lia).
  assert (Q : (length (m ++ d) / blocksize)%nat = (q + 1)%nat) by (rewrite Lmd; apply Nat.div_mul; lia).
  assert (R : (length (m ++ d) mod blocksize = 0)%nat) by (rewrite Lmd; apply Nat.Div0.mod_mul). split; [|done].
  unfold absorbed. rewrite Q, R, firstn_O. split_and!; [|done|by rewrite <- Lmd, skipn_all|].
  - rewrite Es', compress_all_add, compress_all_app by lia. rewrite <- Es. cbn [compress_all]. rewrite skipn_app.
    replace (q * blocksize - length m)%nat with O by lia. rewrite skipn_O, firstn_all2; [done|]. rewrite length_app, length_skipn. lia.
  - rewrite En', En, length_app, Nat2Z.inj_add. unfold u64, uwrap. by rewrite Zplus_mod_idemp_l.
Qed.

Lemma fill_buffer_absorbed h m d h' d' b : absorbed h m -> fill_buffer h d = (h', d', b) ->
  exists d0, d = d0 ++ d' /\ absorbed h' (m ++ d0) /\ b = (length (m ++ d0) mod blocksize)%nat /\ (b = 0%nat \/ (b + length d' < blocksize)%nat).
Proof.
  intros A E. unfold fill_buffer in E. rewrite (absorbed_bufsize h m A) in E. pose proof blocksize_pos as B.
  pose proof (Nat.mod_upper_bound (length m) blocksize ltac:(lia)) as U. set (r := (length m mod blocksize)%nat) in *.
  destruct (Nat.eqb_spec r 0) as [R|R]; cbn [negb andb] in E.
  - injection E as <- <- <-. exists []. rewrite app_nil_r. split_and!; auto.
  - destruct (Nat.leb_spec blocksize (r + length d)) as [G|G]; injection E as <- <- <-.
    + exists (firstn (blocksize - r) d). rewrite firstn_skipn. destruct A as (Es & Lb & Eb & En).
      assert (Lf : length (firstn (blocksize - r) d) = (blocksize - r)%nat) by (rewrite length_firstn; lia).
      destruct (absorbed_block h m (firstn (blocksize - r) d) (mkHasher (Transform (s h) (memcpy (buf h) r (firstn (blocksize - r) d)))
        (memcpy (buf h) r (firstn (blocksize - r) d)) (u64 (bytes h + Z.of_nat (blocksize - r))))) as [A' M].
      * by split_and!.
      * cbn [buf]. rewrite memcpy_length; lia.
      * fold r. lia.
      * cbn [s]. rewrite <- Eb. fold r. f_equal. pose proof (memcpy_firstn (buf h) r (firstn (blocksize - r) d) ltac:(lia)) as P.
        rewrite firstn_all2 in P; [done|]. rewrite memcpy_length; lia.
      * cbn [bytes]. by rewrite Lf.
      * split_and!; [done|done|done|by left].
    + exists []. rewrite app_nil_r. split_and!; [done|done|done|by right].
Qed.

Lemma full_chunks_short f h d : (length d < blocksize)%nat -> full_chunks f h d = (h, d).
Proof. intros Sh. destruct f; cbn [full_chunks]; [done|]. by rewrite (proj2 (Nat.leb_gt _ _)). Qed.
Lemma full_chunks_absorbed f h m d h' d' : absorbed h m -> (length m mod blocksize = 0)%nat -> (length d <= f)%nat -> full_chunks f h d = (h', d') ->
  exists d0, d = d0 ++ d' /\ absorbed h' (m ++ d0) /\ (length (m ++ d0) mod blocksize = 0)%nat /\ (length d' < blocksize)%nat.
Proof.
  revert h m d. induction f as [|f IH]; intros h m d A M Lf E; cbn [full_chunks] in E; pose proof blocksize_pos as B.
  - injection E as <- <-. exists []. rewrite app_nil_r. split_and!; [done|done|done|lia].
  - destruct (Nat.leb_spec blocksize (length d)) as [G|G].
    2:{ injection E as <- <-. exists []. rewrite app_nil_r. by split_and!. }
    assert (Lb : length (firstn blocksize d) = blocksize) by (rewrite length_firstn; lia).
    destruct (absorbed_block h m (firstn blocksize d) (mkHasher (Transform (s h) (firstn blocksize d)) (buf h) (u64 (bytes h + Z.of_nat blocksize)))) as [A' M'];
      [done|apply A|lia| |cbn [bytes]; by rewrite Lb|].
    { cbn [s]. pose proof (Nat.div_mod_eq (length m) blocksize) as D. rewrite M in D.
      replace (length m / blocksize * blocksize)%nat with (length m) by lia. by rewrite skipn_all. }
    destruct (IH _ (m ++ firstn blocksize d) (skipn blocksize d) A' M' ltac:(rewrite length_skipn; lia) E) as (d0 & Ed & A'' & M'' & S'').
    exists (firstn blocksize d ++ d0). rewrite <- app_assoc in A'', M''. split_and!; try done. by rewrite <- app_assoc, <- Ed, firstn_skipn.
Qed.

Lemma keep_rest_absorbed h m d : absorbed h m -> (length m mod blocksize + length d < blocksize)%nat ->
  absorbed (keep_rest h d (length m mod blocksize)) (m ++ d).
Proof.
  intros A Lt. unfold keep_rest. destruct (Nat.ltb_spec 0 (length d)) as [P|P].
  2:{ destruct d; [|cbn in P; lia]. by rewrite app_nil_r. }
  destruct A as (Es & Lb & Eb & En). pose proof (Nat.div_mod_eq (length m) blocksize) as D. set (q := (length m / blocksize)%nat) in *. set (r := (length m mod blocksize)%nat) in *.
  assert (Q : (length (m ++ d) / blocksize = q)%nat /\ (length (m ++ d) mod blocksize = r + length d)%nat).
  { apply Nat.div_mod_unique with (b := blocksize); [apply Nat.mod_upper_bound; lia|lia|].
    rewrite <- Nat.div_mod_eq, length_app. lia. }
  destruct Q as [Q R]. unfold absorbed. rewrite Q, R. cbn [s buf bytes]. split_and!.
  - by rewrite Es, compress_all_app by lia.
  - rewrite memcpy_length; lia.
  - rewrite memcpy_firstn by lia. rewrite Eb, skipn_app. by replace (q * blocksize - length m)%nat with O by lia.
  - rewrite En, length_app, Nat2Z.inj_add. unfold u64, uwrap. by rewrite Zplus_mod_idemp_l.
Qed.

Lemma Write_absorbed h m d : absorbed h m -> absorbed (Write h d) (m ++ d).
Proof.
  intros A. unfold Write. destruct (fill_buffer h d) as [[h1 d1] b] eqn:E1.
  destruct (fill_buffer_absorbed h m d h1 d1 b A E1) as (d0 & -> & A1 & -> & C). rewrite app_assoc.
  destruct (full_chunks (length d1) h1 d1) as [h2 d2] eqn:E2. destruct C as [Z0|Sh].
  - destruct (full_chunks_absorbed (length d1) h1 _ d1 h2 d2 A1 Z0 ltac:(lia) E2) as (d3 & -> & A2 & Z2 & Sh). rewrite app_assoc, Z0, <- Z2.
    apply keep_rest_absorbed; [done|lia].
  - rewrite full_chunks_short in E2 by lia. injection E2 as <- <-. by apply keep_rest_absorbed.
Qed.
#[local] Hint Resolve Write_absorbed : core.

Lemma writes_absorbed chunks : forall h m, absorbed h m -> absorbed (fold_left Write chunks h) (m ++ concat chunks).
Proof.
  induction chunks as [|c l IH]; intros h m A; cbn [fold_left concat]; [by rewrite app_nil_r|]. rewrite app_assoc. auto.
Qed.

Lemma padding_shape msg : let n := u64 (8 * Z.of_nat (length msg)) in
  padding msg = firstn (1 + (padbase - length msg mod blocksize) mod blocksize) pad ++ sizedesc n.
Proof.
  intros n. pose proof blocksize_pos as B. unfold padding, pad. fold n. rewrite app_comm_cons. f_equal. cbn [Nat.add firstn]. f_equal.
  pose proof (padbase_eq n) as P. pose proof (sizedesc_fits n) as Sf. pose proof (Nat.div_mod_eq (length msg) blocksize) as D.
  pose proof (Nat.mod_upper_bound (length msg) blocksize ltac:(lia)) as U.
  set (k := ((padbase - length msg mod blocksize) mod blocksize)%nat).
  assert (Lk : (k < blocksize)%nat) by (apply Nat.mod_upper_bound; lia).
  assert (K : Z.of_nat k = (- Z.of_nat (length msg + 1 + length (sizedesc n))) mod Z.of_nat blocksize).
  { unfold k. rewrite Nat2Z.inj_mod, Nat2Z.inj_sub by lia.
    replace (- Z.of_nat (length msg + 1 + length (sizedesc n))) with (Z.of_nat padbase - Z.of_nat (length msg mod blocksize) + (- (2 + Z.of_nat (length msg / blocksize))) * Z.of_nat blocksize) by nia.
    by rewrite Z.mod_add by lia. }
  rewrite <- K, Nat2Z.id. clear K. rewrite firstn_repeat. f_equal. cbn [Nat.add] in *. lia.
Qed.

Lemma Finalize_absorbed h msg : absorbed h msg -> Finalize h = digest msg.
Proof.
  intros A. unfold Finalize, digest. pose proof (absorbed_bufsize h msg A) as Eb. rewrite Eb.
  assert (En : u64 (Z.shiftl (bytes h) 3) = u64 (8 * Z.of_nat (length msg))).
  { destruct A as (_ & _ & _ & ->). rewrite shiftl_mul by lia. change (2 ^ 3) with 8. unfold u64, uwrap. rewrite Zmult_mod_idemp_l. f_equal. lia. }
  rewrite En, (padding_shape msg). pose proof (Write_absorbed h msg (firstn (1 + (padbase - length msg mod blocksize) mod blocksize) pad) A) as A1.
  pose proof (Write_absorbed _ _ (sizedesc (u64 (8 * Z.of_nat (length msg)))) A1) as A2. rewrite <- app_assoc in A2. by destruct A2 as (-> & _).
Qed.

Lemma hash_stream garbage chunks : length garbage = blocksize -> Finalize (fold_left Write chunks (hasher_new garbage)) = digest (concat chunks).
Proof. intros G. apply Finalize_absorbed. apply (writes_absorbed chunks (hasher_new garbage) []). by apply new_absorbed. Qed.

(** All full blocks at once. *)
Lemma full_chunks_blocks f : forall h d, (length d <= f)%nat -> full_chunks f h d =
  if (blocksize <=? length d)%nat then
    let n := (length d / blocksize)%nat in (mkHasher (compress_all n (s h) d) (buf h) (u64 (bytes h + Z.of_nat (blocksize * n))), skipn (blocksize * n) d)
  else (h, d).
Proof.
  pose proof blocksize_pos as B. induction f as [|f IH]; intros h d Lf; cbn [full_chunks].
  - by rewrite (proj2 (Nat.leb_gt _ _)) by lia.
  - destruct (Nat.leb_spec blocksize (length d)) as [G|G]; [|done]. rewrite IH by (rewrite length_skipn; lia). rewrite length_skipn.
    assert (Q : (length d / blocksize = S ((length d - blocksize) / blocksize))%nat).
    { replace (length d) with (length d - blocksize + 1 * blocksize)%nat at 1 by lia. rewrite Nat.div_add by lia. lia. }
    cbv zeta. rewrite Q. cbn [compress_all s buf bytes]. destruct (Nat.leb_spec blocksize (length d - blocksize)) as [G'|G'].
    + rewrite skipn_skipn. f_equal; [f_equal|f_equal; lia]. unfold u64, uwrap. rewrite Zplus_mod_idemp_l. f_equal. lia.
    + rewrite Nat.div_small by lia. cbn [compress_all]. by rewrite Nat.mul_1_r.
Qed.
End Laws.

(** Two hash functions that agree on the states and blocks that occur have the same digests. *)
Lemma compress_all_ext (F G : HashFunction) (P : list Z -> Prop) n : forall st msg,
  blocksize (HashFunction := F) = blocksize (HashFunction := G) ->
  (forall st b, P st -> length b = blocksize (HashFunction := F) -> bytes_ok b ->
    Transform (HashFunction := F) st b = Transform (HashFunction := G) st b /\ P (Transform (HashFunction := F) st b)) ->
  P st -> bytes_ok msg -> (n * blocksize (HashFunction := F) <= length msg)%nat ->
  compress_all (H := F) n st msg = compress_all (H := G) n st msg.
Proof.
  induction n as [|n IH]; intros st msg Eb T Ps Ok_ L; [done|]. cbn [compress_all Nat.mul] in *. rewrite <- Eb.
  assert (Of : bytes_ok (firstn (blocksize (HashFunction := F)) msg)) by (apply Forall_take, Ok_).
  destruct (T st (firstn (blocksize (HashFunction := F)) msg) Ps ltac:(rewrite length_firstn; lia) Of) as [<- Ps'].
  apply IH; [done|done|done|by apply Forall_drop|rewrite length_skipn; lia].
Qed.

Lemma digest_ext (F G : HashFunction) (P : list Z -> Prop) msg (B : nat) :
  blocksize (HashFunction := F) = B -> blocksize (HashFunction := G) = B -> (0 < B)%nat ->
  (forall n, sizedesc (HashFunction := F) n = sizedesc (HashFunction := G) n) ->
  (forall st, write_state (HashFunction := F) st = write_state (HashFunction := G) st) ->
  Initialize (HashFunction := F) = Initialize (HashFunction := G) -> P (Initialize (HashFunction := F)) ->
  (forall st b, P st -> length b = B -> bytes_ok b ->
    Transform (HashFunction := F) st b = Transform (HashFunction := G) st b /\ P (Transform (HashFunction := F) st b)) ->
  bytes_ok msg -> (forall n, bytes_ok (sizedesc (HashFunction := F) n)) -> digest (H := F) msg = digest (H := G) msg.
Proof.
  intros BF BG Bp Es Ew Ei Pi T Om Os. unfold digest.
  assert (Ep : padding (H := F) msg = padding (H := G) msg) by (unfold padding; by rewrite BF, BG, !Es).
  rewrite Ew, <- Ei, <- Ep, BF, BG. f_equal. apply (compress_all_ext F G P).
  - by rewrite BF, BG.
  - intros st b Ps Lb Ob. apply T; [done|by rewrite Lb|done].
  - done.
  - apply Forall_app. split; [done|]. unfold padding. apply Forall_cons. split; [lia|]. apply Forall_app. split; [|apply Os].
    apply Forall_forall. intros x I%list_elem_of_In%repeat_spec. subst. lia.
  - rewrite BF. pose proof (Nat.div_mod_eq (length (msg ++ padding (H := F) msg)) B). lia.
Qed.
