(* ===== verification/Sha2.v ===== *)
(** * SHA-256 and SHA-512

    crypto/sha256.cpp (the portable [Transform]; the variants for processors with
    special instructions are tested against it at start) and crypto/sha512.cpp.
    The two differ in the width of words, rotations and constants, so the rounds
    are a section over these. The source unrolls them over eight variables whose
    roles rotate and sixteen message words that are overwritten; the reference at
    the end of the definitions is the standard's: eight working variables that
    are shifted, and a message schedule of all words. *)

From Stdlib Require Import ZifyNat.
From S2P Require Import Prelude Serialize Hashers.

(** ** Definitions *)

Definition Ch (x y z : Z) : Z := Z.lxor z (Z.land x (Z.lxor y z)).
Definition Maj (x y z : Z) : Z := Z.lor (Z.land x y) (Z.land z (Z.lor x y)).

Section Rounds.
(** The width of words, and the source's four functions of a word. *)
Variable width : Z.
Variables Sigma0 Sigma1 sigma0 sigma1 : Z -> Z.
Variable K : list Z.
Variable ReadWord : list Z -> Z.

(** [Round]: the variables with the roles of [d] and [h] are assigned. *)
Definition Round (i : nat) (v : list Z) (k : Z) : list Z :=
  let x j := nth (role 8 i j) v 0 in
  let t1 := uwrap width (x 7%nat + Sigma1 (x 4%nat) + Ch (x 4%nat) (x 5%nat) (x 6%nat) + k) in
  let t2 := uwrap width (Sigma0 (x 0%nat) + Maj (x 0%nat) (x 1%nat) (x 2%nat)) in
  <[role 8 i 7 := uwrap width (t1 + t2)]> (<[role 8 i 3 := uwrap width (x 3%nat + t1)]> v).

(** The word that line [i] computes: read from the chunk, or [w += ...] on four of the sixteen. *)
Definition next_word (chunk ws : list Z) (i : nat) : Z :=
  if (i <? 16)%nat then ReadWord (skipn (i * Z.to_nat (width / 8)) chunk)
  else
    let w j := nth ((i + j) mod 16) ws 0 in
    uwrap width (w 0%nat + sigma1 (w 14%nat) + w 9%nat + sigma0 (w 1%nat)).

Definition line (chunk : list Z) (x : list Z * list Z) (i : nat) : list Z * list Z :=
  let '(v, ws) := x in
  let wi := next_word chunk ws i in
  (Round i v (uwrap width (nth i K 0 + wi)), <[(i mod 16)%nat := wi]> ws).

(** One block. *)
Definition block_transform (s chunk : list Z) : list Z :=
  let '(v, _) := fold_left (line chunk) (seq 0 (length K)) (s, repeat 0 16) in
  zip_with (fun s v => uwrap width (s + v)) s v.
End Rounds.

(** *** SHA-256 *)

(** [x >> r | x << l]. *)
Definition rot32 (x r l : Z) : Z := Z.lor (Z.shiftr x r) (u32 (Z.shiftl x l)).
Definition sha256_Sigma0 (x : Z) : Z := Z.lxor (Z.lxor (rot32 x 2 30) (rot32 x 13 19)) (rot32 x 22 10).
Definition sha256_Sigma1 (x : Z) : Z := Z.lxor (Z.lxor (rot32 x 6 26) (rot32 x 11 21)) (rot32 x 25 7).
Definition sha256_sigma0 (x : Z) : Z := Z.lxor (Z.lxor (rot32 x 7 25) (rot32 x 18 14)) (Z.shiftr x 3).
Definition sha256_sigma1 (x : Z) : Z := Z.lxor (Z.lxor (rot32 x 17 15) (rot32 x 19 13)) (Z.shiftr x 10).
(** In rows of eight rounds: after a row the variables have their names again. *)
Definition sha256_K : list Z := concat
  [[0x428a2f98; 0x71374491; 0xb5c0fbcf; 0xe9b5dba5; 0x3956c25b; 0x59f111f1; 0x923f82a4; 0xab1c5ed5];
   [0xd807aa98; 0x12835b01; 0x243185be; 0x550c7dc3; 0x72be5d74; 0x80deb1fe; 0x9bdc06a7; 0xc19bf174];
   [0xe49b69c1; 0xefbe4786; 0x0fc19dc6; 0x240ca1cc; 0x2de92c6f; 0x4a7484aa; 0x5cb0a9dc; 0x76f988da];
   [0x983e5152; 0xa831c66d; 0xb00327c8; 0xbf597fc7; 0xc6e00bf3; 0xd5a79147; 0x06ca6351; 0x14292967];
   [0x27b70a85; 0x2e1b2138; 0x4d2c6dfc; 0x53380d13; 0x650a7354; 0x766a0abb; 0x81c2c92e; 0x92722c85];
   [0xa2bfe8a1; 0xa81a664b; 0xc24b8b70; 0xc76c51a3; 0xd192e819; 0xd6990624; 0xf40e3585; 0x106aa070];
   [0x19a4c116; 0x1e376c08; 0x2748774c; 0x34b0bcb5; 0x391c0cb3; 0x4ed8aa4a; 0x5b9cca4f; 0x682e6ff3];
   [0x748f82ee; 0x78a5636f; 0x84c87814; 0x8cc70208; 0x90befffa; 0xa4506ceb; 0xbef9a3f7; 0xc67178f2]].
Definition sha256_Initialize : list Z :=
  [0x6a09e667; 0xbb67ae85; 0x3c6ef372; 0xa54ff53a; 0x510e527f; 0x9b05688c; 0x1f83d9ab; 0x5be0cd19].

Definition sha256_block (s chunk : list Z) : list Z :=
  block_transform 32 sha256_Sigma0 sha256_Sigma1 sha256_sigma0 sha256_sigma1 sha256_K ReadBE32 s chunk.
Fixpoint sha256_Transform (s chunk : list Z) (blocks : nat) {struct blocks} : list Z :=
  match blocks with O => s | S n => sha256_Transform (sha256_block s chunk) (skipn 64 chunk) n end.

#[export] Instance SHA256_function : HashFunction := {|
  blocksize := 64; Initialize := sha256_Initialize; Transform s chunk := sha256_Transform s chunk 1;
  padbase := 119; sizedesc := WriteBE64; write_state := flat_map WriteBE32 |}.

(** [CSHA256] passes all full blocks of the data to [Transform] at once. *)
Definition CSHA256_new (garbage : list Z) : hasher := hasher_new (H := SHA256_function) garbage.
Definition CSHA256_Write (h : hasher) (data : list Z) : hasher :=
  let '(h, data, bufsize) := fill_buffer (H := SHA256_function) h data in
  let '(h, data) :=
    if (64 <=? length data)%nat then
      let blocks := (length data / 64)%nat in
      (mkHasher (sha256_Transform (s h) data blocks) (buf h) (u64 (bytes h + Z.of_nat (64 * blocks))), skipn (64 * blocks) data)
    else (h, data) in
  keep_rest h data bufsize.
Definition CSHA256_Finalize (h : hasher) : list Z :=
  let sizedesc := WriteBE64 (u64 (Z.shiftl (bytes h) 3)) in
  let h := CSHA256_Write h (firstn (1 + (119 - Z.to_nat (bytes h mod 64)) mod 64) (0x80 :: repeat 0 63)) in
  let h := CSHA256_Write h sizedesc in
  flat_map WriteBE32 (s h).
Definition CSHA256_Reset (h : hasher) : hasher := Reset (H := SHA256_function) h.

(** *** SHA-512 *)

Definition rot64 (x r l : Z) : Z := Z.lor (Z.shiftr x r) (u64 (Z.shiftl x l)).
Definition sha512_Sigma0 (x : Z) : Z := Z.lxor (Z.lxor (rot64 x 28 36) (rot64 x 34 30)) (rot64 x 39 25).
Definition sha512_Sigma1 (x : Z) : Z := Z.lxor (Z.lxor (rot64 x 14 50) (rot64 x 18 46)) (rot64 x 41 23).
Definition sha512_sigma0 (x : Z) : Z := Z.lxor (Z.lxor (rot64 x 1 63) (rot64 x 8 56)) (Z.shiftr x 7).
Definition sha512_sigma1 (x : Z) : Z := Z.lxor (Z.lxor (rot64 x 19 45) (rot64 x 61 3)) (Z.shiftr x 6).
Definition sha512_K : list Z :=
  [0x428a2f98d728ae22; 0x7137449123ef65cd; 0xb5c0fbcfec4d3b2f; 0xe9b5dba58189dbbc;
   0x3956c25bf348b538; 0x59f111f1b605d019; 0x923f82a4af194f9b; 0xab1c5ed5da6d8118;
   0xd807aa98a3030242; 0x12835b0145706fbe; 0x243185be4ee4b28c; 0x550c7dc3d5ffb4e2;
   0x72be5d74f27b896f; 0x80deb1fe3b1696b1; 0x9bdc06a725c71235; 0xc19bf174cf692694;
   0xe49b69c19ef14ad2; 0xefbe4786384f25e3; 0x0fc19dc68b8cd5b5; 0x240ca1cc77ac9c65;
   0x2de92c6f592b0275; 0x4a7484aa6ea6e483; 0x5cb0a9dcbd41fbd4; 0x76f988da831153b5;
   0x983e5152ee66dfab; 0xa831c66d2db43210; 0xb00327c898fb213f; 0xbf597fc7beef0ee4;
   0xc6e00bf33da88fc2; 0xd5a79147930aa725; 0x06ca6351e003826f; 0x142929670a0e6e70;
   0x27b70a8546d22ffc; 0x2e1b21385c26c926; 0x4d2c6dfc5ac42aed; 0x53380d139d95b3df;
   0x650a73548baf63de; 0x766a0abb3c77b2a8; 0x81c2c92e47edaee6; 0x92722c851482353b;
   0xa2bfe8a14cf10364; 0xa81a664bbc423001; 0xc24b8b70d0f89791; 0xc76c51a30654be30;
   0xd192e819d6ef5218; 0xd69906245565a910; 0xf40e35855771202a; 0x106aa07032bbd1b8;
   0x19a4c116b8d2d0c8; 0x1e376c085141ab53; 0x2748774cdf8eeb99; 0x34b0bcb5e19b48a8;
   0x391c0cb3c5c95a63; 0x4ed8aa4ae3418acb; 0x5b9cca4f7763e373; 0x682e6ff3d6b2b8a3;
   0x748f82ee5defb2fc; 0x78a5636f43172f60; 0x84c87814a1f0ab72; 0x8cc702081a6439ec;
   0x90befffa23631e28; 0xa4506cebde82bde9; 0xbef9a3f7b2c67915; 0xc67178f2e372532b;
   0xca273eceea26619c; 0xd186b8c721c0c207; 0xeada7dd6cde0eb1e; 0xf57d4f7fee6ed178;
   0x06f067aa72176fba; 0x0a637dc5a2c898a6; 0x113f9804bef90dae; 0x1b710b35131c471b;
   0x28db77f523047d84; 0x32caab7b40c72493; 0x3c9ebe0a15c9bebc; 0x431d67c49c100d4c;
   0x4cc5d4becb3e42b6; 0x597f299cfc657e2a; 0x5fcb6fab3ad6faec; 0x6c44198c4a475817].
Definition sha512_Initialize : list Z :=
  [0x6a09e667f3bcc908; 0xbb67ae8584caa73b; 0x3c6ef372fe94f82b; 0xa54ff53a5f1d36f1;
   0x510e527fade682d1; 0x9b05688c2b3e6c1f; 0x1f83d9abfb41bd6b; 0x5be0cd19137e2179].
Definition sha512_Transform (s chunk : list Z) : list Z :=
  block_transform 64 sha512_Sigma0 sha512_Sigma1 sha512_sigma0 sha512_sigma1 sha512_K ReadBE64 s chunk.

(** The number of bits takes sixteen bytes, of which the first eight are zero. *)
#[export] Instance SHA512_function : HashFunction := {|
  blocksize := 128; Initialize := sha512_Initialize; Transform := sha512_Transform;
  padbase := 239; sizedesc n := repeat 0 8 ++ WriteBE64 n; write_state := flat_map WriteBE64 |}.
Definition CSHA512_new (garbage : list Z) : hasher := hasher_new (H := SHA512_function) garbage.
Definition CSHA512_Write (h : hasher) (data : list Z) : hasher := Write (H := SHA512_function) h data.
Definition CSHA512_Finalize (h : hasher) : list Z := Finalize (H := SHA512_function) h.
Definition CSHA512_Reset (h : hasher) : hasher := Reset (H := SHA512_function) h.

(** *** The standard *)

Section Standard.
Variable width : Z.
Definition ROTR (n x : Z) : Z := x / 2 ^ n + (x mod 2 ^ n) * 2 ^ (width - n).
Definition SHR (n x : Z) : Z := x / 2 ^ n.
Definition CH (x y z : Z) : Z := Z.lxor (Z.land x y) (Z.land (Z.lnot x) z).
Definition MAJ (x y z : Z) : Z := Z.lxor (Z.lxor (Z.land x y) (Z.land x z)) (Z.land y z).
(** The amounts of the three rotations of the capital functions, and of the two rotations and the shift of the others. *)
Record amounts := mkAmounts { big0 : Z * Z * Z; big1 : Z * Z * Z; small0 : Z * Z * Z; small1 : Z * Z * Z }.
Definition SUM (n : Z * Z * Z) (x : Z) : Z := let '(a, b, c) := n in Z.lxor (Z.lxor (ROTR a x) (ROTR b x)) (ROTR c x).
Definition SMALL (n : Z * Z * Z) (x : Z) : Z := let '(a, b, c) := n in Z.lxor (Z.lxor (ROTR a x) (ROTR b x)) (SHR c x).
Variable N : amounts.
Variable K : list Z.

(** The message schedule, from the sixteen words of the block. *)
Definition next_scheduled (W : list Z) : Z :=
  let W_ k := nth (length W - k) W 0 in
  (SMALL (small1 N) (W_ 2%nat) + W_ 7%nat + SMALL (small0 N) (W_ 15%nat) + W_ 16%nat) mod 2 ^ width.
Definition schedule (n : nat) (M : list Z) : list Z := extend next_scheduled n M.
Definition standard_round (v : list Z) (kw : Z * Z) : list Z :=
  match v with
  | [a; b; c; d; e; f; g; h] =>
      let T1 := h + SUM (big1 N) e + CH e f g + fst kw + snd kw in
      let T2 := SUM (big0 N) a + MAJ a b c in
      [(T1 + T2) mod 2 ^ width; a; b; c; (d + T1) mod 2 ^ width; e; f; g]
  | _ => v
  end.
Definition standard_compression (s M : list Z) : list Z :=
  zip_with (fun h v => (h + v) mod 2 ^ width) s (fold_left standard_round (zip K (schedule (length K - 16) M)) s).
End Standard.

Definition big_endian_words (bytes_per_word : nat) (chunk : list Z) : list Z :=
  map (fun t => le_val (rev (firstn bytes_per_word (skipn (t * bytes_per_word) chunk)))) (seq 0 16).
Definition sha256_amounts : amounts := mkAmounts (2, 13, 22) (6, 11, 25) (7, 18, 3) (17, 19, 10).
Definition sha512_amounts : amounts := mkAmounts (28, 34, 39) (14, 18, 41) (1, 8, 7) (19, 61, 6).

(** The constants: the fractional parts of the cube and square roots of the first
    primes, [w] bits of them. *)
Definition is_prime (p : Z) : bool := (1 <? p) && forallb (fun d => negb (p mod Z.of_nat d =? 0)) (seq 2 (Z.to_nat p - 2)).
Definition primes (n : nat) : list Z := firstn n (filter is_prime (map Z.of_nat (seq 0 420))).
Fixpoint cube_root (bits : nat) (acc x : Z) : Z :=
  match bits with
  | O => acc
  | S n => let c := acc + 2 ^ Z.of_nat n in cube_root n (if c ^ 3 <=? x then c else acc) x
  end.
Definition cube_fractions (w : Z) (n : nat) : list Z := map (fun p => cube_root 80 0 (p * 2 ^ (3 * w)) mod 2 ^ w) (primes n).
Definition square_fractions (w : Z) (n : nat) : list Z := map (fun p => Z.sqrt (p * 2 ^ (2 * w)) mod 2 ^ w) (primes n).

Definition SHA256_standard : HashFunction := {|
  blocksize := 64; Initialize := square_fractions 32 8;
  Transform st block := standard_compression 32 sha256_amounts (cube_fractions 32 64) st (big_endian_words 4 block);
  padbase := 119; sizedesc := WriteBE64; write_state := flat_map WriteBE32 |}.
Definition SHA512_standard : HashFunction := {|
  blocksize := 128; Initialize := square_fractions 64 8;
  Transform st block := standard_compression 64 sha512_amounts (cube_fractions 64 80) st (big_endian_words 8 block);
  padbase := 239; sizedesc n := repeat 0 8 ++ WriteBE64 n; write_state := flat_map WriteBE64 |}.

(** ** Lemmas *)

Lemma Ch_CH x y z : Ch x y z = CH x y z.
Proof.
  unfold Ch, CH. apply Z.bits_inj'. intros n Hn. rewrite !Z.lxor_spec, !Z.land_spec, Z.lnot_spec, Z.lxor_spec by done.
  by destruct (Z.testbit x n), (Z.testbit y n), (Z.testbit z n).
Qed.
Lemma Maj_MAJ x y z : Maj x y z = MAJ x y z.
Proof.
  unfold Maj, MAJ. apply Z.bits_inj'. intros n Hn. rewrite !Z.lor_spec, !Z.lxor_spec, !Z.land_spec, Z.lor_spec.
  by destruct (Z.testbit x n), (Z.testbit y n), (Z.testbit z n).
Qed.
Lemma rotate_ROTR w n x : 0 < n < w -> 0 <= x < 2 ^ w -> Z.lor (Z.shiftr x n) (uwrap w (Z.shiftl x (w - n))) = ROTR w n x.
Proof.
  intros Hn Hx. unfold ROTR, uwrap. rewrite shiftr_div, shiftl_mul by lia.
  assert (E : 2 ^ w = 2 ^ n * 2 ^ (w - n)) by (rewrite <- Z.pow_add_r by lia; f_equal; lia).
  rewrite E, Z.mul_mod_distr_r by (apply Z.pow_nonzero; lia). apply lor_disjoint; [lia|].
  split; [apply Z.div_pos; lia|]. apply Z.div_lt_upper_bound; lia.
Qed.

#[local] Hint Resolve role_small : core.
Ltac nat_mods := zify; Z.div_mod_to_equations; lia.

Section Equivalence.
Variable width : Z.
Hypothesis width_pos : 0 < width.
Variables Sigma0 Sigma1 sigma0 sigma1 : Z -> Z.
Variable N : amounts.
Variable K : list Z.
Variable ReadWord : list Z -> Z.
Let word (x : Z) : Prop := 0 <= x < 2 ^ width.
Hypothesis Sigma0_eq : forall x, word x -> Sigma0 x = SUM width (big0 N) x.
Hypothesis Sigma1_eq : forall x, word x -> Sigma1 x = SUM width (big1 N) x.
Hypothesis sigma0_eq : forall x, word x -> sigma0 x = SMALL width (small0 N) x.
Hypothesis sigma1_eq : forall x, word x -> sigma1 x = SMALL width (small1 N) x.

Lemma uwrap_word x : word (uwrap width x).
Proof. apply uwrap_range. lia. Qed.
#[local] Hint Resolve uwrap_word : core.
Lemma nth_word l j : Forall word l -> word (nth j l 0).
Proof.
  clear ReadWord. intros F. destruct (Nat.lt_ge_cases j (length l)) as [L|L].
  - by apply List.Forall_nth.
  - rewrite nth_overflow by done. split; [lia|]. by apply Z.pow_pos_nonneg; lia.
Qed.
#[local] Hint Resolve nth_word : core.

Lemma Round_standard i v k w : length v = 8%nat -> Forall word v ->
  working 8 (S i) (Round width Sigma0 Sigma1 i v (uwrap width (k + w))) = standard_round width N (working 8 i v) (k, w) /\
  length (Round width Sigma0 Sigma1 i v (uwrap width (k + w))) = 8%nat /\ Forall word (Round width Sigma0 Sigma1 i v (uwrap width (k + w))).
Proof.
  intros L F. unfold Round. cbv beta zeta. set (t1 := uwrap width (nth (role 8 i 7) v 0 + _ + _ + _)). set (t2 := uwrap width (Sigma0 _ + _)).
  split; [|split].
  2:{ by rewrite !length_insert. }
  2:{ apply Forall_insert; [apply Forall_insert; [done|]|]; apply uwrap_word. }
  rewrite working_assign by (done || lia). set (x j := nth (role 8 i j) v 0).
  change (working 8 i v) with [x 0%nat; x 1%nat; x 2%nat; x 3%nat; x 4%nat; x 5%nat; x 6%nat; x 7%nat]. cbn [insert list_insert nth firstn Nat.sub standard_round fst snd].
  assert (T1 : t1 = (x 7%nat + SUM width (big1 N) (x 4%nat) + CH (x 4%nat) (x 5%nat) (x 6%nat) + k + w) mod 2 ^ width).
  { unfold t1. rewrite Sigma1_eq, Ch_CH by (by apply nth_word). unfold uwrap. rewrite Zplus_mod_idemp_r. by rewrite !Z.add_assoc. }
  assert (T2 : t2 = (SUM width (big0 N) (x 0%nat) + MAJ (x 0%nat) (x 1%nat) (x 2%nat)) mod 2 ^ width).
  { unfold t2. by rewrite Sigma0_eq, Maj_MAJ by (by apply nth_word). }
  rewrite T1, T2. unfold uwrap. by rewrite !Zplus_mod_idemp_l, !Zplus_mod_idemp_r.
Qed.

(** *** The message schedule *)

Variable M : list Z.
Hypothesis M_length : length M = 16%nat.
Hypothesis M_words : Forall word M.

Lemma schedule_length n : length (schedule width N n M) = (16 + n)%nat.
Proof. unfold schedule. by rewrite extend_length, M_length. Qed.
Lemma schedule_words n : Forall word (schedule width N n M).
Proof. apply extend_Forall; [intros; apply uwrap_word|done]. Qed.
Lemma schedule_step n t : (16 <= t < 16 + n)%nat -> let W := schedule width N n M in
  nth t W 0 = uwrap width (SMALL width (small1 N) (nth (t - 2) W 0) + nth (t - 7) W 0 + SMALL width (small0 N) (nth (t - 15) W 0) + nth (t - 16) W 0).
Proof.
  intros L W. pose proof (schedule_length n) as E. fold W in E. change W with (extend (next_scheduled width N) n M) at 1. rewrite extend_step by lia.
  fold (schedule width N n M). fold W. unfold next_scheduled. cbv zeta. by rewrite !back_firstn by lia.
Qed.

(** *** The lines of the rounds *)

Variable chunk : list Z.
Hypothesis chunk_words : forall i, (i < 16)%nat -> ReadWord (skipn (i * Z.to_nat (width / 8)) chunk) = nth i M 0.
Variable n : nat.
Let W := schedule width N n M.

Lemma next_word_schedule i ws : (i < 16 + n)%nat -> window W i ws ->
  next_word width sigma0 sigma1 ReadWord chunk ws i = nth i W 0.
Proof.
  intros Li Hw. unfold next_word. destruct (Nat.ltb_spec i 16) as [L|L].
  - rewrite chunk_words by done. unfold W, schedule. by rewrite extend_first by lia.
  - unfold W. rewrite (schedule_step n i) by lia. fold W. replace (nth (i - 16) W 0) with (nth ((i + 0) mod 16) ws 0) by (apply window_read with (k := 16%nat); [done|lia..]).
    rewrite (window_read W i ws 2 14), (window_read W i ws 7 9), (window_read W i ws 15 1) by (done || lia).
    rewrite sigma0_eq, sigma1_eq by (apply nth_word, schedule_words). f_equal. lia.
Qed.

Variable st : list Z.
Hypothesis st_length : length st = 8%nat.
Hypothesis st_words : Forall word st.
Hypothesis K_length : length K = (16 + n)%nat.

Lemma lines_standard i : (i <= 16 + n)%nat ->
  let '(v, ws) := fold_left (line width Sigma0 Sigma1 sigma0 sigma1 K ReadWord chunk) (seq 0 i) (st, repeat 0 16) in
  working 8 i v = fold_left (standard_round width N) (firstn i (zip K W)) st /\ length v = 8%nat /\ Forall word v /\ window W i ws.
Proof.
  induction i as [|i IH]; intros L.
  - cbn [seq fold_left firstn]. split; [by apply (working_cycle 8 0)|]. split; [done|]. split; [done|apply window_0].
  - rewrite seq_S, fold_left_app. cbn [Nat.add].
    destruct (fold_left _ (seq 0 i) _) as [v ws] eqn:E. destruct IH as (R & Lv & Fv & Hw); [lia|]. cbn [fold_left line].
    rewrite (next_word_schedule i ws ltac:(lia) Hw). pose proof (window_step W i ws Hw) as Hw'.
    destruct (Round_standard i v (nth i K 0) (nth i W 0) Lv Fv) as (R' & L' & F'). split; [|by split; [|split]]. rewrite R'.
    assert (Lz : length (zip K W) = (16 + n)%nat) by (rewrite length_zip_with, K_length; unfold W; rewrite schedule_length; lia).
    assert (Ez : zip K W !! i = Some (nth i K 0, nth i W 0)).
    { apply lookup_zip_Some. unfold W. split; apply nth_lookup_Some'. 1: rewrite K_length; lia. rewrite schedule_length. lia. }
    rewrite (take_S_r _ _ _ Ez), fold_left_app. cbn [fold_left]. by rewrite <- R.
Qed.

Lemma block_transform_standard m : (16 + n = 8 * m)%nat ->
  block_transform width Sigma0 Sigma1 sigma0 sigma1 K ReadWord st chunk = standard_compression width N K st M /\
  length (block_transform width Sigma0 Sigma1 sigma0 sigma1 K ReadWord st chunk) = 8%nat /\
  Forall word (block_transform width Sigma0 Sigma1 sigma0 sigma1 K ReadWord st chunk).
Proof.
  intros Em. unfold block_transform, standard_compression. pose proof (lines_standard (16 + n) ltac:(lia)) as R. rewrite K_length.
  destruct (fold_left _ (seq 0 (16 + n)) _) as [v ws]. destruct R as (R & Lv & Fv & _).
  rewrite firstn_all2 in R by (rewrite length_zip_with, K_length; lia). replace (16 + n - 16)%nat with n by lia. fold W. rewrite <- R.
  rewrite Em, (working_cycle 8 m v Lv). split_and!; [done|by rewrite length_zip_with, st_length, Lv|].
  apply Forall_lookup_2. intros k x. rewrite lookup_zip_with_Some. intros (a & b & -> & _). apply uwrap_word.
Qed.
End Equivalence.

(** *** Constants and blocks *)

Lemma cube_root_spec bits : forall acc x, 0 <= acc -> acc ^ 3 <= x < (acc + 2 ^ Z.of_nat bits) ^ 3 ->
  let r := cube_root bits acc x in r ^ 3 <= x < (r + 1) ^ 3.
Proof.
  induction bits as [|n IH]; intros acc x A B; [done|]. cbn [cube_root].
  assert (E : 2 ^ Z.of_nat (S n) = 2 ^ Z.of_nat n + 2 ^ Z.of_nat n) by (rewrite Nat2Z.inj_succ, Z.pow_succ_r; lia).
  rewrite E in B. pose proof (Z.pow_pos_nonneg 2 (Z.of_nat n) ltac:(lia) ltac:(lia)) as P.
  destruct (Z.leb_spec ((acc + 2 ^ Z.of_nat n) ^ 3) x); apply IH; [lia| |lia|lia]. split; [lia|]. rewrite <- Z.add_assoc. apply B.
Qed.
Lemma constants_standard : sha256_K = cube_fractions 32 64 /\ sha256_Initialize = square_fractions 32 8 /\
  sha512_K = cube_fractions 64 80 /\ sha512_Initialize = square_fractions 64 8.
Proof. split_and!; vm_compute; reflexivity. Qed.

Lemma words_length k b : length (big_endian_words k b) = 16%nat.
Proof. unfold big_endian_words. by rewrite length_map, length_seq. Qed.
Lemma nth_words k b i : (i < 16)%nat -> nth i (big_endian_words k b) 0 = le_val (rev (firstn k (skipn (i * k) b))).
Proof.
  intros L. unfold big_endian_words. apply nth_lookup_Some. rewrite list_lookup_fmap, lookup_seq_lt by done. done.
Qed.
Lemma le_val_rev_fits k l : (length l <= k)%nat -> bytes_ok l -> 0 <= le_val (rev l) < 2 ^ (8 * Z.of_nat k).
Proof.
  intros L B. assert (B' : bytes_ok (rev l)) by by apply Forall_rev. pose proof (le_val_fits (rev l) B') as [F1 F2]. rewrite length_rev in F2.
  split; [done|]. eapply Z.lt_le_trans; [exact F2|]. apply Z.pow_le_mono_r; lia.
Qed.
Lemma words_ok k b : bytes_ok b -> Forall (fun x => 0 <= x < 2 ^ (8 * Z.of_nat k)) (big_endian_words k b).
Proof.
  intros B. apply Forall_fmap, Forall_true. intros t. apply le_val_rev_fits; [apply firstn_le_length|]. by apply Forall_take, Forall_drop.
Qed.

Lemma sha256_words_eq x : 0 <= x < 2 ^ 32 ->
  sha256_Sigma0 x = SUM 32 (big0 sha256_amounts) x /\ sha256_Sigma1 x = SUM 32 (big1 sha256_amounts) x /\
  sha256_sigma0 x = SMALL 32 (small0 sha256_amounts) x /\ sha256_sigma1 x = SMALL 32 (small1 sha256_amounts) x.
Proof.
  intros Hx. unfold sha256_Sigma0, sha256_Sigma1, sha256_sigma0, sha256_sigma1, rot32, u32. cbn [big0 big1 small0 small1 sha256_amounts SUM SMALL].
  rewrite <- !(rotate_ROTR 32) by lia. unfold SHR. by rewrite !(shiftr_div _ x) by lia.
Qed.
Lemma sha512_words_eq x : 0 <= x < 2 ^ 64 ->
  sha512_Sigma0 x = SUM 64 (big0 sha512_amounts) x /\ sha512_Sigma1 x = SUM 64 (big1 sha512_amounts) x /\
  sha512_sigma0 x = SMALL 64 (small0 sha512_amounts) x /\ sha512_sigma1 x = SMALL 64 (small1 sha512_amounts) x.
Proof.
  intros Hx. unfold sha512_Sigma0, sha512_Sigma1, sha512_sigma0, sha512_sigma1, rot64, u64. cbn [big0 big1 small0 small1 sha512_amounts SUM SMALL].
  rewrite <- !(rotate_ROTR 64) by lia. unfold SHR. by rewrite !(shiftr_div _ x) by lia.
Qed.

(** A state of eight words. *)
Definition state_ok (width : Z) (st : list Z) : Prop := length st = 8%nat /\ Forall (fun x => 0 <= x < 2 ^ width) st.

Lemma sha256_block_standard st b : state_ok 32 st -> bytes_ok b ->
  sha256_block st b = Transform (HashFunction := SHA256_standard) st b /\ state_ok 32 (sha256_block st b).
Proof.
  intros [L F] B. unfold sha256_block, state_ok. cbn [Transform SHA256_standard]. destruct constants_standard as (<- & _).
  destruct (block_transform_standard 32 ltac:(lia) sha256_Sigma0 sha256_Sigma1 sha256_sigma0 sha256_sigma1 sha256_amounts sha256_K ReadBE32
    ltac:(intros; by apply sha256_words_eq) ltac:(intros; by apply sha256_words_eq) ltac:(intros; by apply sha256_words_eq) ltac:(intros; by apply sha256_words_eq)
    (big_endian_words 4 b) (words_length 4 b) (words_ok 4 b B) b ltac:(intros i Hi; by rewrite nth_words) 48%nat st L F eq_refl 8%nat eq_refl) as (E & L' & F').
  split; [exact E|split; [exact L'|exact F']].
Qed.
Lemma sha512_block_standard st b : state_ok 64 st -> bytes_ok b ->
  sha512_Transform st b = Transform (HashFunction := SHA512_standard) st b /\ state_ok 64 (sha512_Transform st b).
Proof.
  intros [L F] B. unfold sha512_Transform, state_ok. cbn [Transform SHA512_standard]. destruct constants_standard as (_ & _ & <- & _).
  assert (S0 : forall x, 0 <= x < 2 ^ 64 -> sha512_Sigma0 x = SUM 64 (big0 sha512_amounts) x) by (intros x Hx; apply (sha512_words_eq x Hx)).
  assert (S1 : forall x, 0 <= x < 2 ^ 64 -> sha512_Sigma1 x = SUM 64 (big1 sha512_amounts) x) by (intros x Hx; apply (sha512_words_eq x Hx)).
  assert (s0 : forall x, 0 <= x < 2 ^ 64 -> sha512_sigma0 x = SMALL 64 (small0 sha512_amounts) x) by (intros x Hx; apply (sha512_words_eq x Hx)).
  assert (s1 : forall x, 0 <= x < 2 ^ 64 -> sha512_sigma1 x = SMALL 64 (small1 sha512_amounts) x) by (intros x Hx; apply (sha512_words_eq x Hx)).
  assert (R : forall i, (i < 16)%nat -> ReadBE64 (skipn (i * Z.to_nat (64 / 8)) b) = nth i (big_endian_words 8 b) 0) by (intros i Hi; by rewrite nth_words).
  pose proof (block_transform_standard 64 ltac:(lia) _ _ _ _ sha512_amounts sha512_K ReadBE64 S0 S1 s0 s1 (big_endian_words 8 b) (words_length 8 b) (words_ok 8 b B) b R 64%nat st L F eq_refl 10%nat eq_refl) as (E & L' & F').
  split; [exact E|split; [exact L'|exact F']].
Qed.

(** *** Streams *)

#[export] Instance SHA256_laws : HashLaws SHA256_function.
Proof. constructor; [by exists 6%nat; split; [lia|]|by intros|by intros|intros; cbn; lia]. Qed.
#[export] Instance SHA512_laws : HashLaws SHA512_function.
Proof. constructor; [by exists 7%nat; split; [lia|]|by intros|by intros|intros; cbn; lia]. Qed.

Lemma fold_left_ext_in {A B} (f g : A -> B -> A) l : forall a, (forall a b, b ∈ l -> f a b = g a b) -> fold_left f l a = fold_left g l a.
Proof.
  induction l as [|b l IH]; intros a E; [done|]. cbn [fold_left]. rewrite E by left. apply IH. intros a' b' I. apply E. by right.
Qed.
(** A block is its first 64 bytes. *)
Lemma sha256_block_firstn st chunk : sha256_block st (firstn 64 chunk) = sha256_block st chunk.
Proof.
  unfold sha256_block, block_transform. erewrite fold_left_ext_in; [done|]. intros [v ws] i _. unfold line, next_word.
  destruct (Nat.ltb_spec i 16) as [L|L]; [|done]. change (Z.to_nat (32 / 8)) with 4%nat. unfold ReadBE32.
  by rewrite skipn_firstn_comm, firstn_firstn, Nat.min_l by lia.
Qed.
Lemma sha256_Transform_blocks n : forall st chunk, sha256_Transform st chunk n = compress_all (H := SHA256_function) n st chunk.
Proof.
  induction n as [|n IH]; intros st chunk; [done|]. cbn [sha256_Transform compress_all]. rewrite IH.
  cbn [Transform SHA256_function blocksize sha256_Transform]. by rewrite sha256_block_firstn.
Qed.
Lemma CSHA256_Write_eq h d : CSHA256_Write h d = Write (H := SHA256_function) h d.
Proof.
  unfold CSHA256_Write, Write. destruct (fill_buffer h d) as [[h1 d1] b]. rewrite full_chunks_blocks by done.
  cbn [blocksize SHA256_function]. destruct (64 <=? length d1)%nat; [|done]. by rewrite sha256_Transform_blocks.
Qed.
Lemma CSHA256_Finalize_eq h : CSHA256_Finalize h = Finalize (H := SHA256_function) h.
Proof. unfold CSHA256_Finalize. rewrite !CSHA256_Write_eq. done. Qed.

Lemma WriteBE_ok n x : bytes_ok (rev (le_bytes n x)).
Proof. apply Forall_rev, le_bytes_ok. Qed.
Lemma words_state w l : length l = 8%nat -> forallb (fun x => (0 <=? x) && (x <? 2 ^ w)) l = true -> state_ok w l.
Proof. intros L F. split; [done|]. apply Forall_forall. intros x I%list_elem_of_In. apply (proj1 (forallb_forall _ _) F) in I. zbool. lia. Qed.
Ltac project := cbn [blocksize sizedesc write_state Initialize SHA256_function SHA256_standard SHA512_function SHA512_standard].
Lemma sha256_digest_standard msg : bytes_ok msg -> digest (H := SHA256_function) msg = digest (H := SHA256_standard) msg.
Proof.
  intros B. apply (digest_ext SHA256_function SHA256_standard (state_ok 32) msg 64); project;
    [reflexivity|reflexivity|lia|reflexivity|reflexivity|apply constants_standard|by apply words_state| |exact B|].
  - intros st b Ps _ Ob. apply (sha256_block_standard st b Ps Ob).
  - intros n. apply WriteBE_ok.
Qed.
Lemma sha512_digest_standard msg : bytes_ok msg -> digest (H := SHA512_function) msg = digest (H := SHA512_standard) msg.
Proof.
  intros B. apply (digest_ext SHA512_function SHA512_standard (state_ok 64) msg 128); project;
    [reflexivity|reflexivity|lia|reflexivity|reflexivity|apply constants_standard|by apply words_state| |exact B|].
  - intros st b Ps _ Ob. apply (sha512_block_standard st b Ps Ob).
  - intros n. apply Forall_app. split; [|apply WriteBE_ok]. by repeat (apply Forall_cons; split; [lia|]).
Qed.

(** ** Properties *)

(** C22: However a message is cut into pieces, writing them to [CSHA256] or [CSHA512] gives
    the digest that FIPS 180-4 defines for the whole message: the unrolled rounds over
    rotating variables and sixteen overwritten words compute the shifted working variables
    and the full schedule, the buffer loses nothing, the padding is the shortest, and the
    constants are the roots of the first primes. *)
Theorem sha2_streams_standard garbage garbage' (chunks : list (list Z)) :
  length garbage = 64%nat -> length garbage' = 128%nat -> Forall bytes_ok chunks ->
  CSHA256_Finalize (fold_left CSHA256_Write chunks (CSHA256_new garbage)) = digest (H := SHA256_standard) (concat chunks) /\
  CSHA512_Finalize (fold_left CSHA512_Write chunks (CSHA512_new garbage')) = digest (H := SHA512_standard) (concat chunks).
Proof.
  intros G G' B. assert (Bc : bytes_ok (concat chunks)) by (by apply Forall_concat). split.
  - rewrite <- sha256_digest_standard, <- (hash_stream (F := SHA256_function) garbage chunks G), CSHA256_Finalize_eq by done. f_equal.
    apply fold_left_ext_in. intros h d _. apply CSHA256_Write_eq.
  - rewrite <- sha512_digest_standard by done. apply (hash_stream (F := SHA512_function) garbage' chunks G').
Qed.

(** ** Examples: the digest of "abc" *)

Example sha256_abc : CSHA256_Finalize (CSHA256_Write (CSHA256_new (repeat 0 64)) [97; 98; 99]) =
  flat_map WriteBE32 [0xba7816bf; 0x8f01cfea; 0x414140de; 0x5dae2223; 0xb00361a3; 0x96177a9c; 0xb410ff61; 0xf20015ad].
Proof. vm_compute. reflexivity. Qed.
Example sha512_abc : CSHA512_Finalize (CSHA512_Write (CSHA512_new (repeat 0 128)) [97; 98; 99]) =
  flat_map WriteBE64 [0xddaf35a193617aba; 0xcc417349ae204131; 0x12e6fa4e89a97ea2; 0x0a9eeee64b55d39a;
                      0x2192992a274fc1a8; 0x36ba3c23a3feebbd; 0x454d4423643ce80e; 0x2a9ac94fa54ca49f].
Proof. vm_compute. reflexivity. Qed.

(** ** Witness *)

Lemma sha2_streams_standard_witness :
  digest (H := SHA256_standard) [97; 98; 99] =
    flat_map WriteBE32 [0xba7816bf; 0x8f01cfea; 0x414140de; 0x5dae2223; 0xb00361a3; 0x96177a9c; 0xb410ff61; 0xf20015ad] /\
  digest (H := SHA512_standard) [97; 98; 99] =
    flat_map WriteBE64 [0xddaf35a193617aba; 0xcc417349ae204131; 0x12e6fa4e89a97ea2; 0x0a9eeee64b55d39a;
                        0x2192992a274fc1a8; 0x36ba3c23a3feebbd; 0x454d4423643ce80e; 0x2a9ac94fa54ca49f].
Proof.
  destruct (sha2_streams_standard (repeat 7 64) (repeat 9 128) [[97; 98]; []; [99]]) as [E1 E2]; [reflexivity|reflexivity| |].
  - apply List.Forall_forall. intros c I. cbn in I. destruct I as [<-|[<-|[<-|[]]]]; apply List.Forall_forall; cbn; lia.
  - change (concat [[97; 98]; []; [99]]) with [97; 98; 99] in E1, E2. rewrite <- E1, <- E2. split; vm_compute; reflexivity.
Defined.
