(* ===== verification/Ripemd.v ===== *)
(** * SHA-1 and RIPEMD-160

    crypto/sha1.cpp and crypto/ripemd160.cpp. As in [Sha2] the source unrolls the
    rounds over variables whose names rotate; the references are the rounds of the
    standards, which move the values. *)

From Stdlib Require Import ZifyNat.
From S2P Require Import Prelude Serialize ArithUint256 Hashers Sha2.

(** ** Definitions *)

(** *** SHA-1 *)

Definition sha1_f1 (b c d : Z) : Z := Z.lxor d (Z.land b (Z.lxor c d)).
Definition sha1_f2 (b c d : Z) : Z := Z.lxor (Z.lxor b c) d.
Definition sha1_f3 (b c d : Z) : Z := Z.lor (Z.land b c) (Z.land d (Z.lor b c)).
(** [x << l | x >> r]. *)
Definition rotl32 (x l r : Z) : Z := Z.lor (u32 (Z.shiftl x l)) (Z.shiftr x r).
Definition left_ (x : Z) : Z := rotl32 x 1 31.
Definition sha1_Initialize : list Z := [0x67452301; 0xEFCDAB89; 0x98BADCFE; 0x10325476; 0xC3D2E1F0].

(** The function and the constant of line [i]. *)
Definition sha1_f (i : nat) : Z -> Z -> Z -> Z :=
  if (i <? 20)%nat then sha1_f1 else if (i <? 40)%nat then sha1_f2 else if (i <? 60)%nat then sha1_f3 else sha1_f2.
Definition sha1_k (i : nat) : Z :=
  if (i <? 20)%nat then 0x5A827999 else if (i <? 40)%nat then 0x6ED9EBA1 else if (i <? 60)%nat then 0x8F1BBCDC else 0xCA62C1D6.

Definition sha1_Round (i : nat) (v : list Z) (w : Z) : list Z :=
  let x j := nth (role 5 i j) v 0 in
  let e := u32 (x 4%nat + rotl32 (x 0%nat) 5 27 + sha1_f i (x 1%nat) (x 2%nat) (x 3%nat) + sha1_k i + w) in
  <[role 5 i 1 := rotl32 (x 1%nat) 30 2]> (<[role 5 i 4 := e]> v).
Definition sha1_word (chunk ws : list Z) (i : nat) : Z :=
  if (i <? 16)%nat then ReadBE32 (skipn (4 * i) chunk)
  else let w j := nth ((i + j) mod 16) ws 0 in left_ (Z.lxor (Z.lxor (Z.lxor (w 0%nat) (w 13%nat)) (w 8%nat)) (w 2%nat)).
Definition sha1_line (chunk : list Z) (x : list Z * list Z) (i : nat) : list Z * list Z :=
  let '(v, ws) := x in let wi := sha1_word chunk ws i in (sha1_Round i v wi, <[(i mod 16)%nat := wi]> ws).
Definition sha1_Transform (s chunk : list Z) : list Z :=
  let '(v, _) := fold_left (sha1_line chunk) (seq 0 80) (s, repeat 0 16) in zip_with (fun s v => u32 (s + v)) s v.

#[export] Instance SHA1_function : HashFunction := {|
  blocksize := 64; Initialize := sha1_Initialize; Transform := sha1_Transform;
  padbase := 119; sizedesc := WriteBE64; write_state := flat_map WriteBE32 |}.
Definition CSHA1_new (garbage : list Z) : hasher := hasher_new (H := SHA1_function) garbage.
Definition CSHA1_Write (h : hasher) (data : list Z) : hasher := Write (H := SHA1_function) h data.
Definition CSHA1_Finalize (h : hasher) : list Z := Finalize (H := SHA1_function) h.
Definition CSHA1_Reset (h : hasher) : hasher := Reset (H := SHA1_function) h.

(** *** RIPEMD-160 *)

(** [~x] of a 32-bit word. *)
Definition not32 (x : Z) : Z := u32 (Z.lnot x).
Definition ripemd_f1 (x y z : Z) : Z := Z.lxor (Z.lxor x y) z.
Definition ripemd_f2 (x y z : Z) : Z := Z.lor (Z.land x y) (Z.land (not32 x) z).
Definition ripemd_f3 (x y z : Z) : Z := Z.lxor (Z.lor x (not32 y)) z.
Definition ripemd_f4 (x y z : Z) : Z := Z.lor (Z.land x z) (Z.land y (not32 z)).
Definition ripemd_f5 (x y z : Z) : Z := Z.lxor x (Z.lor y (not32 z)).
Definition rol (x i : Z) : Z := Z.lor (u32 (Z.shiftl x i)) (Z.shiftr x (32 - i)).

(** The functions and constants of [R11] to [R51] and of [R12] to [R52]. *)
Definition ripemd_R (right : bool) (group : nat) : (Z -> Z -> Z -> Z) * Z :=
  match right, group with
  | false, 0%nat => (ripemd_f1, 0) | false, 1%nat => (ripemd_f2, 0x5A827999) | false, 2%nat => (ripemd_f3, 0x6ED9EBA1)
  | false, 3%nat => (ripemd_f4, 0x8F1BBCDC) | false, _ => (ripemd_f5, 0xA953FD4E)
  | true, 0%nat => (ripemd_f5, 0x50A28BE6) | true, 1%nat => (ripemd_f4, 0x5C4DD124) | true, 2%nat => (ripemd_f3, 0x6D703EF3)
  | true, 3%nat => (ripemd_f2, 0x7A6D76E9) | true, _ => (ripemd_f1, 0)
  end.
(** The message word and the rotation of each line, on the two sides. *)
Definition ripemd_words (right : bool) : list nat :=
  if right then
    [5; 14; 7; 0; 9; 2; 11; 4; 13; 6; 15; 8; 1; 10; 3; 12;
     6; 11; 3; 7; 0; 13; 5; 10; 14; 15; 8; 12; 4; 9; 1; 2;
     15; 5; 1; 3; 7; 14; 6; 9; 11; 8; 12; 2; 10; 0; 4; 13;
     8; 6; 4; 1; 3; 11; 15; 0; 5; 12; 2; 13; 9; 7; 10; 14;
     12; 15; 10; 4; 1; 5; 8; 7; 6; 2; 13; 14; 0; 3; 9; 11]%nat
  else
    [0; 1; 2; 3; 4; 5; 6; 7; 8; 9; 10; 11; 12; 13; 14; 15;
     7; 4; 13; 1; 10; 6; 15; 3; 12; 0; 9; 5; 2; 14; 11; 8;
     3; 10; 14; 4; 9; 15; 8; 1; 2; 7; 0; 6; 13; 11; 5; 12;
     1; 9; 11; 10; 0; 8; 12; 4; 13; 3; 7; 15; 14; 5; 6; 2;
     4; 0; 5; 9; 7; 12; 2; 10; 14; 1; 3; 8; 11; 6; 15; 13]%nat.
Definition ripemd_shifts (right : bool) : list Z :=
  if right then
    [8; 9; 9; 11; 13; 15; 15; 5; 7; 7; 8; 11; 14; 14; 12; 6;
     9; 13; 15; 7; 12; 8; 9; 11; 7; 7; 12; 7; 6; 15; 13; 11;
     9; 7; 15; 11; 8; 6; 6; 14; 12; 13; 5; 14; 13; 13; 7; 5;
     15; 5; 8; 11; 14; 14; 6; 14; 6; 9; 12; 9; 12; 5; 15; 8;
     8; 5; 12; 9; 12; 5; 14; 6; 8; 13; 6; 5; 15; 13; 11; 11]
  else
    [11; 14; 15; 12; 5; 8; 7; 9; 11; 13; 14; 15; 6; 7; 9; 8;
     7; 6; 8; 13; 11; 9; 7; 15; 7; 12; 15; 9; 11; 7; 13; 12;
     11; 13; 6; 7; 14; 9; 13; 15; 14; 8; 13; 6; 5; 12; 7; 5;
     11; 12; 14; 15; 14; 15; 9; 8; 9; 14; 5; 6; 8; 6; 5; 12;
     9; 15; 5; 11; 6; 8; 13; 12; 5; 12; 13; 14; 11; 8; 5; 6].

(** [Round], on one side: the variables with the roles of [a] and [c] are assigned. *)
Definition ripemd_Round (right : bool) (ws : list Z) (v : list Z) (i : nat) : list Z :=
  let x j := nth (role 5 i j) v 0 in
  let '(f, k) := ripemd_R right (i / 16) in
  let a := u32 (rol (u32 (x 0%nat + f (x 1%nat) (x 2%nat) (x 3%nat) + nth (nth i (ripemd_words right) O) ws 0 + k)) (nth i (ripemd_shifts right) 0) + x 4%nat) in
  <[role 5 i 2 := rol (x 2%nat) 10]> (<[role 5 i 0 := a]> v).
Definition ripemd_Transform (s chunk : list Z) : list Z :=
  let ws := map (fun i => ReadLE32 (skipn (4 * i) chunk)) (seq 0 16) in
  let v1 := fold_left (ripemd_Round false ws) (seq 0 80) s in
  let v2 := fold_left (ripemd_Round true ws) (seq 0 80) s in
  map (fun i => u32 (nth ((i + 1) mod 5) s 0 + nth ((i + 2) mod 5) v1 0 + nth ((i + 3) mod 5) v2 0)) (seq 0 5).

#[export] Instance RIPEMD160_function : HashFunction := {|
  blocksize := 64; Initialize := sha1_Initialize; Transform := ripemd_Transform;
  padbase := 119; sizedesc := WriteLE64; write_state := flat_map WriteLE32 |}.
Definition CRIPEMD160_new (garbage : list Z) : hasher := hasher_new (H := RIPEMD160_function) garbage.
Definition CRIPEMD160_Write (h : hasher) (data : list Z) : hasher := Write (H := RIPEMD160_function) h data.
Definition CRIPEMD160_Finalize (h : hasher) : list Z := Finalize (H := RIPEMD160_function) h.
Definition CRIPEMD160_Reset (h : hasher) : hasher := Reset (H := RIPEMD160_function) h.

(** *** The standards *)

Definition ROTL (n x : Z) : Z := (x mod 2 ^ (32 - n)) * 2 ^ n + x / 2 ^ (32 - n).

(** FIPS 180-4, 6.1. *)
Definition PARITY (x y z : Z) : Z := Z.lxor (Z.lxor x y) z.
Definition sha1_standard_f (t : nat) : Z -> Z -> Z -> Z := nth (t / 20) [CH; PARITY; MAJ; PARITY] CH.
Definition sha1_standard_k (t : nat) : Z := nth (t / 20) [0x5A827999; 0x6ED9EBA1; 0x8F1BBCDC; 0xCA62C1D6] 0.
Definition sha1_next (W : list Z) : Z :=
  let W_ k := nth (length W - k) W 0 in ROTL 1 (Z.lxor (Z.lxor (Z.lxor (W_ 3%nat) (W_ 8%nat)) (W_ 14%nat)) (W_ 16%nat)).
Definition sha1_standard_round (W : list Z) (v : list Z) (t : nat) : list Z :=
  match v with
  | [a; b; c; d; e] => [(ROTL 5 a + sha1_standard_f t b c d + e + sha1_standard_k t + nth t W 0) mod 2 ^ 32; a; ROTL 30 b; c; d]
  | _ => v
  end.
Definition sha1_standard_compression (st block : list Z) : list Z :=
  zip_with (fun h v => (h + v) mod 2 ^ 32) st
    (fold_left (sha1_standard_round (extend sha1_next 64 (big_endian_words 4 block))) (seq 0 80) st).
Definition SHA1_standard : HashFunction := {|
  blocksize := 64; Initialize := sha1_Initialize; Transform := sha1_standard_compression;
  padbase := 119; sizedesc := WriteBE64; write_state := flat_map WriteBE32 |}.

(** The definition of RIPEMD-160: [rho] and [pi] order the words of a round. *)
Definition rho (i : nat) : nat := nth i [7; 4; 13; 1; 10; 6; 15; 3; 12; 0; 9; 5; 2; 14; 11; 8]%nat O.
Definition pi (i : nat) : nat := (9 * i + 5) mod 16.
Definition standard_word (right : bool) (j : nat) : nat :=
  Nat.iter (j / 16) rho (if right then pi (j mod 16) else j mod 16)%nat.
Definition standard_f (j : nat) (x y z : Z) : Z :=
  match (j / 16)%nat with
  | 0%nat => Z.lxor (Z.lxor x y) z
  | 1%nat => Z.lor (Z.land x y) (Z.land (not32 x) z)
  | 2%nat => Z.lxor (Z.lor x (not32 y)) z
  | 3%nat => Z.lor (Z.land x z) (Z.land y (not32 z))
  | _ => Z.lxor x (Z.lor y (not32 z))
  end.
Definition standard_k (right : bool) (j : nat) : Z :=
  nth (j / 16) (if right then [0x50A28BE6; 0x5C4DD124; 0x6D703EF3; 0x7A6D76E9; 0] else [0; 0x5A827999; 0x6ED9EBA1; 0x8F1BBCDC; 0xA953FD4E]) 0.
Definition ripemd_standard_round (right : bool) (X : list Z) (v : list Z) (j : nat) : list Z :=
  match v with
  | [A; B; C; D; E] =>
      let T := (ROTL (nth j (ripemd_shifts right) 0)
                 ((A + standard_f (if right then 79 - j else j) B C D + nth (standard_word right j) X 0 + standard_k right j) mod 2 ^ 32) + E) mod 2 ^ 32 in
      [E; T; B; ROTL 10 C; D]
  | _ => v
  end.
Definition ripemd_standard_compression (st block : list Z) : list Z :=
  let X := map (fun t => le_val (firstn 4 (skipn (4 * t) block))) (seq 0 16) in
  match st, fold_left (ripemd_standard_round false X) (seq 0 80) st, fold_left (ripemd_standard_round true X) (seq 0 80) st with
  | [h0; h1; h2; h3; h4], [A; B; C; D; E], [A'; B'; C'; D'; E'] =>
      [(h1 + C + D') mod 2 ^ 32; (h2 + D + E') mod 2 ^ 32; (h3 + E + A') mod 2 ^ 32; (h4 + A + B') mod 2 ^ 32; (h0 + B + C') mod 2 ^ 32]
  | _, _, _ => st
  end.
Definition RIPEMD160_standard : HashFunction := {|
  blocksize := 64; Initialize := sha1_Initialize; Transform := ripemd_standard_compression;
  padbase := 119; sizedesc := WriteLE64; write_state := flat_map (le_bytes 4) |}.

(** ** Lemmas *)

Lemma rotl32_ROTL n x : 0 < n < 32 -> 0 <= x < 2 ^ 32 -> rotl32 x n (32 - n) = ROTL n x.
Proof.
  intros Hn Hx. unfold rotl32. rewrite Z.lor_comm. replace n with (32 - (32 - n)) at 2 by lia. unfold u32. rewrite (rotate_ROTR 32) by lia.
  unfold ROTR, ROTL. replace (32 - (32 - n)) with n by lia. lia.
Qed.
Lemma rol_ROTL n x : 0 < n < 32 -> 0 <= x < 2 ^ 32 -> rol x n = ROTL n x.
Proof. intros. by apply rotl32_ROTL. Qed.
Lemma ROTL_range n x : 0 < n < 32 -> 0 <= x < 2 ^ 32 -> 0 <= ROTL n x < 2 ^ 32.
Proof.
  intros Hn Hx. unfold ROTL. assert (E : 2 ^ 32 = 2 ^ (32 - n) * 2 ^ n) by (rewrite <- Z.pow_add_r by lia; f_equal; lia).
  pose proof (Z.pow_pos_nonneg 2 n ltac:(lia) ltac:(lia)). pose proof (Z.pow_pos_nonneg 2 (32 - n) ltac:(lia) ltac:(lia)).
  pose proof (Z.mod_pos_bound x (2 ^ (32 - n)) ltac:(lia)). assert (x / 2 ^ (32 - n) < 2 ^ n) by (apply Z.div_lt_upper_bound; lia).
  pose proof (Z.div_pos x (2 ^ (32 - n)) ltac:(lia) ltac:(lia)). nia.
Qed.

Definition word (x : Z) : Prop := 0 <= x < 2 ^ 32.
Lemma u32_word x : word (u32 x).
Proof. apply u32_range. Qed.
Lemma lxor_word x y : word x -> word y -> word (Z.lxor x y).
Proof.
  intros [X0 X1] [Y0 Y1]. assert (N : 0 <= Z.lxor x y) by (apply Z.lxor_nonneg; lia). split; [done|]. apply bits_lt_pow2; [lia|done|].
  intros i Hi. by rewrite Z.lxor_spec, (testbit_above 32 x), (testbit_above 32 y) by done.
Qed.
Lemma nth_word32 l j : Forall word l -> word (nth j l 0).
Proof. intros F. by apply (nth_word 32). Qed.
#[local] Hint Resolve u32_word lxor_word nth_word32 : core.

(** *** SHA-1 *)

Section Sha1.
Variable chunk : list Z.
Hypothesis chunk_ok : bytes_ok chunk.
Let M := big_endian_words 4 chunk.
Let W := extend sha1_next 64 M.

Lemma sha1_next_word V : Forall word V -> word (sha1_next V).
Proof. intros F. apply ROTL_range; [lia|]. apply lxor_word; auto. Qed.
Lemma sha1_words_ok : length W = 80%nat /\ Forall word W.
Proof.
  split; [unfold W, M; by rewrite extend_length, words_length|]. apply extend_Forall; [apply sha1_next_word|]. by apply (words_ok 4).
Qed.
Lemma sha1_word_schedule i ws : (i < 80)%nat -> window W i ws -> sha1_word chunk ws i = nth i W 0.
Proof.
  destruct sha1_words_ok as [L F]. intros Li Hw. unfold sha1_word. destruct (Nat.ltb_spec i 16) as [G|G].
  - unfold W. rewrite extend_first by (unfold M; rewrite words_length; lia). unfold M. rewrite nth_words by done. by rewrite Nat.mul_comm.
  - replace (nth ((i + 0) mod 16) ws 0) with (nth (i - 16) W 0) by (symmetry; apply window_read; [done|lia..]).
    rewrite (window_read W i ws 3 13), (window_read W i ws 8 8), (window_read W i ws 14 2) by (done || lia).
    assert (E : nth i W 0 = sha1_next (firstn i W)) by (apply extend_step; unfold M; rewrite words_length; lia).
    rewrite E. unfold sha1_next. cbv zeta. rewrite !back_firstn by lia. unfold left_. rewrite (rotl32_ROTL 1) by (lia || (apply lxor_word; auto)).
    apply (f_equal (ROTL 1)), Z.bits_inj'. intros b Hb. rewrite !Z.lxor_spec.
    by destruct (Z.testbit (nth (i - 16) W 0) b), (Z.testbit (nth (i - 14) W 0) b), (Z.testbit (nth (i - 8) W 0) b), (Z.testbit (nth (i - 3) W 0) b).
Qed.

Lemma sha1_f_standard i b c d : (i < 80)%nat -> sha1_f i b c d = sha1_standard_f i b c d /\ sha1_k i = sha1_standard_k i.
Proof.
  intros L. unfold sha1_f, sha1_k, sha1_standard_f, sha1_standard_k.
  assert (D : (i / 20 = if (i <? 20)%nat then 0 else if (i <? 40)%nat then 1 else if (i <? 60)%nat then 2 else 3)%nat).
  { destruct (Nat.ltb_spec i 20); [nat_mods|]. destruct (Nat.ltb_spec i 40); [nat_mods|]. destruct (Nat.ltb_spec i 60); nat_mods. }
  rewrite D. destruct (i <? 20)%nat; [split; [apply Ch_CH|done]|]. destruct (i <? 40)%nat; [done|]. destruct (i <? 60)%nat; [split; [apply Maj_MAJ|done]|done].
Qed.
Lemma sha1_Round_standard i v : (i < 80)%nat -> length v = 5%nat -> Forall word v ->
  working 5 (S i) (sha1_Round i v (nth i W 0)) = sha1_standard_round W (working 5 i v) i /\
  length (sha1_Round i v (nth i W 0)) = 5%nat /\ Forall word (sha1_Round i v (nth i W 0)).
Proof.
  intros Li L F. unfold sha1_Round. cbv beta zeta. set (x j := nth (role 5 i j) v 0).
  assert (X : forall j, word (x j)) by (intros j; unfold x; auto). split; [|split].
  - rewrite working_assign by (done || lia). change (working 5 i v) with [x 0%nat; x 1%nat; x 2%nat; x 3%nat; x 4%nat].
    cbn [insert list_insert nth firstn Nat.sub sha1_standard_round].
    destruct (sha1_f_standard i (x 1%nat) (x 2%nat) (x 3%nat) Li) as [<- <-]. rewrite <- (rotl32_ROTL 5), <- (rotl32_ROTL 30) by (apply X || lia).
    change (32 - 5) with 27. change (32 - 30) with 2. unfold u32, uwrap. do 2 f_equal. unfold x. lia.
  - by rewrite !length_insert.
  - apply Forall_insert; [apply Forall_insert; [done|apply u32_word]|]. change 2 with (32 - 30) at 1. rewrite (rotl32_ROTL 30) by (apply (X 1%nat) || lia). apply ROTL_range; [lia|apply (X 1%nat)].
Qed.

Lemma sha1_lines_standard st i : length st = 5%nat -> Forall word st -> (i <= 80)%nat ->
  let '(v, ws) := fold_left (sha1_line chunk) (seq 0 i) (st, repeat 0 16) in
  working 5 i v = fold_left (sha1_standard_round W) (seq 0 i) st /\ length v = 5%nat /\ Forall word v /\ window W i ws.
Proof.
  intros Ls Fs. induction i as [|i IH]; intros Li.
  - cbn [seq fold_left]. split; [by apply (working_cycle 5 0)|]. split; [done|]. split; [done|apply window_0].
  - rewrite seq_S, !fold_left_app. cbn [Nat.add]. destruct (fold_left _ (seq 0 i) (st, _)) as [v ws]. destruct IH as (R & L & F & Hw); [lia|].
    cbn [fold_left sha1_line]. rewrite (sha1_word_schedule i ws ltac:(lia) Hw). rewrite <- R.
    destruct (sha1_Round_standard i v ltac:(lia) L F) as (R' & L' & F'). split; [done|]. split; [done|]. split; [done|by apply window_step].
Qed.
End Sha1.

(** A state of five words. *)
Definition five (st : list Z) : Prop := length st = 5%nat /\ Forall word st.

Lemma sha1_Transform_standard st b : five st -> bytes_ok b ->
  sha1_Transform st b = sha1_standard_compression st b /\ five (sha1_Transform st b).
Proof.
  intros [L F] B. unfold sha1_Transform, sha1_standard_compression. pose proof (sha1_lines_standard b B st 80 L F ltac:(lia)) as R.
  destruct (fold_left _ (seq 0 80) (st, _)) as [v ws]. destruct R as (R & Lv & Fv & _). rewrite <- R. change 80%nat with (5 * 16)%nat. rewrite (working_cycle 5 16 v Lv).
  split; [done|]. split; [by rewrite length_zip_with, L, Lv|].
  apply Forall_lookup_2. intros k x. rewrite lookup_zip_with_Some. intros (a & c & -> & _). apply u32_word.
Qed.

(** *** RIPEMD-160 *)

Definition ripemd_line_ok (right : bool) (i : nat) : bool :=
  (nth i (ripemd_words right) O =? standard_word right i)%nat && (0 <? nth i (ripemd_shifts right) 0) && (nth i (ripemd_shifts right) 0 <? 32).
Lemma ripemd_lines_ok right i : (i < 80)%nat -> nth i (ripemd_words right) O = standard_word right i /\ 0 < nth i (ripemd_shifts right) 0 < 32.
Proof.
  intros L. assert (A : forallb (ripemd_line_ok right) (seq 0 80) = true) by (destruct right; vm_compute; reflexivity).
  pose proof (proj1 (forallb_forall _ _) A i ltac:(apply in_seq; lia)) as K. unfold ripemd_line_ok in K.
  apply andb_true_iff in K as [[K1%Nat.eqb_eq K2]%andb_true_iff K3]. zbool. by split.
Qed.
Lemma ripemd_R_standard right i x y z : (i < 80)%nat ->
  fst (ripemd_R right (i / 16)) x y z = standard_f (if right then 79 - i else i) x y z /\ snd (ripemd_R right (i / 16)) = standard_k right i.
Proof.
  intros L. unfold standard_f, standard_k. assert (G : (i / 16 < 5)%nat) by (apply Nat.Div0.div_lt_upper_bound; lia).
  replace ((if right then 79 - i else i) / 16)%nat with (if right then 4 - i / 16 else i / 16)%nat by (destruct right; nat_mods).
  destruct right, (i / 16)%nat as [|[|[|[|[|g]]]]]; done || lia.
Qed.
Lemma ripemd_Round_standard right ws i v : (i < 80)%nat -> length v = 5%nat -> Forall word v ->
  working 5 (S i) (ripemd_Round right ws v i) = ripemd_standard_round right ws (working 5 i v) i /\
  length (ripemd_Round right ws v i) = 5%nat /\ Forall word (ripemd_Round right ws v i).
Proof.
  intros Li L F. unfold ripemd_Round. cbv beta zeta. set (x j := nth (role 5 i j) v 0).
  assert (X : forall j, word (x j)) by (intros j; unfold x; auto).
  destruct (ripemd_lines_ok right i Li) as [-> S_]. pose proof (ripemd_R_standard right i (x 1%nat) (x 2%nat) (x 3%nat) Li) as [Ef Ek].
  destruct (ripemd_R right (i / 16)) as [f k]. cbn [fst snd] in Ef, Ek. subst k. split; [|split].
  - rewrite working_assign by (done || lia). change (working 5 i v) with [x 0%nat; x 1%nat; x 2%nat; x 3%nat; x 4%nat].
    cbn [insert list_insert nth firstn Nat.sub ripemd_standard_round]. rewrite <- Ef, <- (rol_ROTL 10), <- (rol_ROTL (nth i _ 0)) by first [apply X | apply u32_word | lia].
    done.
  - by rewrite !length_insert.
  - apply Forall_insert; [apply Forall_insert; [done|apply u32_word]|]. rewrite (rol_ROTL 10) by (apply (X 2%nat) || lia). apply ROTL_range; [lia|apply (X 2%nat)].
Qed.
Lemma ripemd_lines_standard right ws st i : five st -> (i <= 80)%nat ->
  let v := fold_left (ripemd_Round right ws) (seq 0 i) st in
  working 5 i v = fold_left (ripemd_standard_round right ws) (seq 0 i) st /\ five v.
Proof.
  intros [Ls Fs]. induction i as [|i IH]; intros Li; cbv zeta.
  - split; [by apply (working_cycle 5 0)|done].
  - rewrite seq_S, !fold_left_app. cbn [Nat.add fold_left]. destruct IH as (R & L & F); [lia|]. rewrite <- R.
    destruct (ripemd_Round_standard right ws i _ ltac:(lia) L F) as (R' & L' & F'). done.
Qed.
Lemma ReadLE32_val l : (4 <= length l)%nat -> ReadLE32 l = le_val (firstn 4 l).
Proof. intros L. do 4 (destruct l as [|? l]; [cbn in L; lia|]). unfold ReadLE32. cbn [nth firstn le_val]. rewrite firstn_O. cbn [le_val]. ring. Qed.
Lemma ripemd_Transform_standard st b : five st -> length b = 64%nat ->
  ripemd_Transform st b = ripemd_standard_compression st b /\ five (ripemd_Transform st b).
Proof.
  intros H B. unfold ripemd_Transform, ripemd_standard_compression. cbv zeta.
  assert (EX : map (fun i => ReadLE32 (skipn (4 * i) b)) (seq 0 16) = map (fun t => le_val (firstn 4 (skipn (4 * t) b))) (seq 0 16)).
  { apply map_ext_in. intros i I%in_seq. apply ReadLE32_val. rewrite length_skipn. lia. }
  assert (Ls : length st = 5%nat) by apply H. destruct st as [|z [|z0 [|z1 [|z2 [|z3 [|? ?]]]]]]; try done. clear Ls.
  rewrite EX. clear EX. generalize (map (fun t => le_val (firstn 4 (skipn (4 * t) b))) (seq 0 16)) as X. intros X.
  destruct (ripemd_lines_standard false X _ 80 H ltac:(lia)) as (R1 & L1 & _). destruct (ripemd_lines_standard true X _ 80 H ltac:(lia)) as (R2 & L2 & _).
  change 80%nat with (5 * 16)%nat in R1 at 1. rewrite working_cycle in R1 by done. change 80%nat with (5 * 16)%nat in R2 at 1. rewrite working_cycle in R2 by done.
  rewrite R1 in L1 |- *. rewrite R2 in L2 |- *. clear R1 R2.
  generalize dependent (fold_left (ripemd_standard_round false X) (seq 0 80) [z; z0; z1; z2; z3]). intros v1 L1. generalize dependent (fold_left (ripemd_standard_round true X) (seq 0 80) [z; z0; z1; z2; z3]). intros v2 L2.
  do 5 (destruct v1 as [|? v1]; [done|]). do 5 (destruct v2 as [|? v2]; [done|]).
  destruct v1, v2; try done. split; [done|]. split; [done|]. apply Forall_map, Forall_true. intros i. apply u32_word.
Qed.

(** *** Streams *)

#[export] Instance SHA1_laws : HashLaws SHA1_function.
Proof. constructor; [by exists 6%nat; split; [lia|]|by intros|by intros|intros; cbn; lia]. Qed.
#[export] Instance RIPEMD160_laws : HashLaws RIPEMD160_function.
Proof. constructor; [by exists 6%nat; split; [lia|]|by intros|by intros|intros; cbn; lia]. Qed.
Lemma initial_five : five sha1_Initialize.
Proof. split; [done|]. by repeat (apply List.Forall_cons; [by split|]). Qed.
Ltac project1 := cbn [blocksize sizedesc write_state Initialize SHA1_function SHA1_standard RIPEMD160_function RIPEMD160_standard].
Lemma sha1_digest_standard msg : bytes_ok msg -> digest (H := SHA1_function) msg = digest (H := SHA1_standard) msg.
Proof.
  intros B. apply (digest_ext SHA1_function SHA1_standard five msg 64); project1;
    [reflexivity|reflexivity|lia|reflexivity|reflexivity|reflexivity|apply initial_five| |exact B|].
  - intros st b Ps _ Ob. by apply sha1_Transform_standard.
  - intros n. apply WriteBE_ok.
Qed.
Lemma ripemd_digest_standard msg : bytes_ok msg -> digest (H := RIPEMD160_function) msg = digest (H := RIPEMD160_standard) msg.
Proof.
  intros B. apply (digest_ext RIPEMD160_function RIPEMD160_standard five msg 64); project1;
    [reflexivity|reflexivity|lia|reflexivity| |reflexivity|apply initial_five| |exact B|].
  - intros st. apply flat_map_ext. intros x. unfold WriteLE32. cbn [le_bytes]. by rewrite !Z.shiftr_shiftr by lia.
  - intros st b Ps L Ob. by apply ripemd_Transform_standard.
  - intros n. apply le_bytes_ok.
Qed.

(** ** Properties *)

(** However a message is cut into pieces, writing them to [CSHA1] gives the digest of
    FIPS 180-4 for the whole message, and writing them to [CRIPEMD160] the digest of the
    definition of RIPEMD-160, whose words are ordered by two permutations that the source
    has as a table of lines. *)
Theorem sha1_ripemd_streams_standard garbage garbage' (chunks : list (list Z)) :
  length garbage = 64%nat -> length garbage' = 64%nat -> Forall bytes_ok chunks ->
  CSHA1_Finalize (fold_left CSHA1_Write chunks (CSHA1_new garbage)) = digest (H := SHA1_standard) (concat chunks) /\
  CRIPEMD160_Finalize (fold_left CRIPEMD160_Write chunks (CRIPEMD160_new garbage')) = digest (H := RIPEMD160_standard) (concat chunks).
Proof.
  intros G G' B. assert (Bc : bytes_ok (concat chunks)) by (by apply Forall_concat). split.
  - rewrite <- sha1_digest_standard by done. apply (hash_stream (F := SHA1_function) garbage chunks G).
  - rewrite <- ripemd_digest_standard by done. apply (hash_stream (F := RIPEMD160_function) garbage' chunks G').
Qed.

(** ** Examples and witnesses *)

Example sha1_abc : CSHA1_Finalize (CSHA1_Write (CSHA1_new (repeat 0 64)) [97; 98; 99]) =
  flat_map WriteBE32 [0xa9993e36; 0x4706816a; 0xba3e2571; 0x7850c26c; 0x9cd0d89d].
Proof. vm_compute. reflexivity. Qed.
Example ripemd_abc : CRIPEMD160_Finalize (CRIPEMD160_Write (CRIPEMD160_new (repeat 0 64)) [97; 98; 99]) =
  flat_map WriteBE32 [0x8eb208f7; 0xe05d987a; 0x9b044a8e; 0x98c6b087; 0xf15a0bfc].
Proof. vm_compute. reflexivity. Qed.

Lemma sha1_ripemd_streams_standard_witness :
  digest (H := SHA1_standard) [97; 98; 99] = flat_map WriteBE32 [0xa9993e36; 0x4706816a; 0xba3e2571; 0x7850c26c; 0x9cd0d89d] /\
  digest (H := RIPEMD160_standard) [97; 98; 99] = flat_map WriteBE32 [0x8eb208f7; 0xe05d987a; 0x9b044a8e; 0x98c6b087; 0xf15a0bfc].
Proof.
  destruct (sha1_ripemd_streams_standard (repeat 7 64) (repeat 9 64) [[97; 98]; []; [99]]) as [E1 E2]; [reflexivity|reflexivity| |].
  - apply List.Forall_forall. intros c I. cbn in I. destruct I as [<-|[<-|[<-|[]]]]; apply List.Forall_forall; cbn; lia.
  - change (concat [[97; 98]; []; [99]]) with [97; 98; 99] in E1, E2. rewrite <- E1, <- E2. split; vm_compute; reflexivity.
Defined.
