(* ===== verification/Hash.v ===== *)
(** * Composed hashes, keyed hashes and hash tables' hashes

    hash.h and hash.cpp: [CHash256], [CHash160], the hash writer, MurmurHash3 and
    SipHash; crypto/hmac_sha256.cpp and crypto/hmac_sha512.cpp. The hashers of
    [Sha2] and [Ripemd] are composed here into the [ScriptHashes] that the
    interpreter takes. A hasher that the source puts on the stack has an
    arbitrary buffer; it is the parameter [junk]. *)

From Stdlib Require Import ZifyNat.
From S2P Require Import Prelude Serialize ArithUint256 Compressor Transaction Script Interpreter InterpreterSpec Hashers Sha2 Ripemd.

(** ** Definitions *)

Section Composed.
Variable junk : list Z.

(** [Finalize] clears the state and the buffer. *)
Definition CSHA256_cleansed (h : hasher) : hasher := mkHasher (repeat 0 8) (repeat 0 64) (bytes h).

(** *** Double SHA-256, and RIPEMD-160 of SHA-256 *)

(** The objects have a [CSHA256] and nothing else. *)
Definition CHash256_new : hasher := CSHA256_new junk.
Definition CHash256_Write (sha : hasher) (data : list Z) : hasher := CSHA256_Write sha data.
Definition CHash256_Finalize (sha : hasher) : list Z :=
  let b := CSHA256_Finalize sha in CSHA256_Finalize (CSHA256_Write (CSHA256_Reset (CSHA256_cleansed sha)) b).
Definition CHash256_Reset (sha : hasher) : hasher := CSHA256_Reset sha.
Definition CHash160_new : hasher := CSHA256_new junk.
Definition CHash160_Write (sha : hasher) (data : list Z) : hasher := CSHA256_Write sha data.
Definition CHash160_Finalize (sha : hasher) : list Z :=
  let b := CSHA256_Finalize sha in CRIPEMD160_Finalize (CRIPEMD160_Write (CRIPEMD160_new junk) b).
Definition CHash160_Reset (sha : hasher) : hasher := CSHA256_Reset sha.

(** [Hash] of one, two and three ranges; an empty range is written as no bytes of a blank one. *)
Definition Hash_ (p1 : list Z) : list Z := CHash256_Finalize (CHash256_Write CHash256_new p1).
Definition Hash_2 (p1 p2 : list Z) : list Z := CHash256_Finalize (CHash256_Write (CHash256_Write CHash256_new p1) p2).
Definition Hash_3 (p1 p2 p3 : list Z) : list Z :=
  CHash256_Finalize (CHash256_Write (CHash256_Write (CHash256_Write CHash256_new p1) p2) p3).
Definition Hash160_ (p : list Z) : list Z := CHash160_Finalize (CHash160_Write CHash160_new p).

(** [CHashWriter]: the writes of a serialisation, and [GetHash]. *)
Definition CHashWriter_write (ctx : hasher) (pch : list Z) : hasher := CHash256_Write ctx pch.
Definition CHashWriter_GetHash (ctx : hasher) : list Z := CHash256_Finalize ctx.

(** *** HMAC *)

Definition xor_bytes (mask : Z) (l : list Z) : list Z := map (fun b => Z.lxor b mask) l.

Record hmac := mkHmac { outer : hasher; inner : hasher }.
Definition CHMAC_SHA256_new (key : list Z) : hmac :=
  let rkey := if (length key <=? 64)%nat then key ++ repeat 0 (64 - length key)
              else CSHA256_Finalize (CSHA256_Write (CSHA256_new junk) key) ++ repeat 0 32 in
  let rkey := xor_bytes 0x5c rkey in
  let outer := CSHA256_Write (CSHA256_new junk) rkey in
  let rkey := xor_bytes (Z.lxor 0x5c 0x36) rkey in
  mkHmac outer (CSHA256_Write (CSHA256_new junk) rkey).
Definition CHMAC_SHA256_Write (h : hmac) (data : list Z) : hmac := mkHmac (outer h) (CSHA256_Write (inner h) data).
Definition CHMAC_SHA256_Finalize (h : hmac) : list Z := CSHA256_Finalize (CSHA256_Write (outer h) (CSHA256_Finalize (inner h))).

Variable junk128 : list Z.
Definition CHMAC_SHA512_new (key : list Z) : hmac :=
  let rkey := if (length key <=? 128)%nat then key ++ repeat 0 (128 - length key)
              else CSHA512_Finalize (CSHA512_Write (CSHA512_new junk128) key) ++ repeat 0 64 in
  let rkey := xor_bytes 0x5c rkey in
  let outer := CSHA512_Write (CSHA512_new junk128) rkey in
  let rkey := xor_bytes (Z.lxor 0x5c 0x36) rkey in
  mkHmac outer (CSHA512_Write (CSHA512_new junk128) rkey).
Definition CHMAC_SHA512_Write (h : hmac) (data : list Z) : hmac := mkHmac (outer h) (CSHA512_Write (inner h) data).
Definition CHMAC_SHA512_Finalize (h : hmac) : list Z := CSHA512_Finalize (CSHA512_Write (outer h) (CSHA512_Finalize (inner h))).

(** [nChild] most significant byte first. *)
Definition BIP32Hash (chainCode : list Z) (nChild header : Z) (data : list Z) : list Z :=
  let num := [Z.land (Z.shiftr nChild 24) 0xFF; Z.land (Z.shiftr nChild 16) 0xFF; Z.land (Z.shiftr nChild 8) 0xFF; Z.land (Z.shiftr nChild 0) 0xFF] in
  CHMAC_SHA512_Finalize (CHMAC_SHA512_Write (CHMAC_SHA512_Write (CHMAC_SHA512_Write (CHMAC_SHA512_new chainCode) [header]) data) num).
End Composed.

(** *** MurmurHash3 *)

Definition ROTL32 (x r : Z) : Z := Z.lor (u32 (Z.shiftl x r)) (Z.shiftr x (32 - r)).
Definition murmur_c1 : Z := 0xcc9e2d51.
Definition murmur_c2 : Z := 0x1b873593.
Definition murmur_k1 (k1 : Z) : Z := u32 (ROTL32 (u32 (k1 * murmur_c1)) 15 * murmur_c2).
(** The body, over the blocks of four bytes. *)
Definition murmur_block (h1 k1 : Z) : Z := u32 (ROTL32 (Z.lxor h1 (murmur_k1 k1)) 13 * 5 + 0xe6546b64).
Fixpoint murmur_body (nblocks : nat) (h1 : Z) (data : list Z) : Z :=
  match nblocks with O => h1 | S n => murmur_body n (murmur_block h1 (ReadLE32 data)) (skipn 4 data) end.
(** The tail: the cases of the [switch] fall through. *)
Definition murmur_tail (h1 : Z) (tail : list Z) (rest : Z) : Z :=
  let t i := nth i tail 0 in
  let k1 := 0 in
  let k1 := if rest =? 3 then Z.lxor k1 (Z.shiftl (t 2%nat) 16) else k1 in
  let k1 := if (rest =? 3) || (rest =? 2) then Z.lxor k1 (Z.shiftl (t 1%nat) 8) else k1 in
  if (rest =? 3) || (rest =? 2) || (rest =? 1) then Z.lxor h1 (murmur_k1 (Z.lxor k1 (t 0%nat))) else h1.
Definition murmur_final (h1 size : Z) : Z :=
  let h1 := Z.lxor h1 (u32 size) in
  let h1 := u32 (Z.lxor h1 (Z.shiftr h1 16) * 0x85ebca6b) in
  let h1 := u32 (Z.lxor h1 (Z.shiftr h1 13) * 0xc2b2ae35) in
  Z.lxor h1 (Z.shiftr h1 16).
Definition MurmurHash3 (nHashSeed : Z) (vDataToHash : list Z) : Z :=
  let size := length vDataToHash in
  let h1 := nHashSeed in
  let h1 :=
    if (0 <? size)%nat then
      let nblocks := (size / 4)%nat in
      murmur_tail (murmur_body nblocks h1 vDataToHash) (skipn (nblocks * 4) vDataToHash) (Z.land (Z.of_nat size) 3)
    else h1 in
  murmur_final h1 (Z.of_nat size).

(** *** SipHash *)

Definition ROTL64 (x b : Z) : Z := Z.lor (u64 (Z.shiftl x b)) (Z.shiftr x (64 - b)).
Record sip_state := mkSipState { v0 : Z; v1 : Z; v2 : Z; v3 : Z }.
Definition SIPROUND (v : sip_state) : sip_state :=
  let '(mkSipState v0 v1 v2 v3) := v in
  let v0 := u64 (v0 + v1) in let v1 := ROTL64 v1 13 in let v1 := Z.lxor v1 v0 in
  let v0 := ROTL64 v0 32 in
  let v2 := u64 (v2 + v3) in let v3 := ROTL64 v3 16 in let v3 := Z.lxor v3 v2 in
  let v0 := u64 (v0 + v3) in let v3 := ROTL64 v3 21 in let v3 := Z.lxor v3 v0 in
  let v2 := u64 (v2 + v1) in let v1 := ROTL64 v1 17 in let v1 := Z.lxor v1 v2 in
  let v2 := ROTL64 v2 32 in
  mkSipState v0 v1 v2 v3.
(** [v3 ^= d; SIPROUND; SIPROUND; v0 ^= d]. *)
Definition sip_absorb (v : sip_state) (d : Z) : sip_state :=
  let v := mkSipState (v0 v) (v1 v) (v2 v) (Z.lxor (v3 v) d) in
  let v := SIPROUND (SIPROUND v) in
  mkSipState (Z.lxor (v0 v) d) (v1 v) (v2 v) (v3 v).
Definition sip_finish (v : sip_state) : Z :=
  let v := mkSipState (v0 v) (v1 v) (Z.lxor (v2 v) 0xFF) (v3 v) in
  let v := SIPROUND (SIPROUND (SIPROUND (SIPROUND v))) in
  Z.lxor (Z.lxor (Z.lxor (v0 v) (v1 v)) (v2 v)) (v3 v).
Definition sip_init (k0 k1 : Z) : sip_state :=
  mkSipState (Z.lxor 0x736f6d6570736575 k0) (Z.lxor 0x646f72616e646f6d k1) (Z.lxor 0x6c7967656e657261 k0) (Z.lxor 0x7465646279746573 k1).

(** [count] is an [int]: fewer than [2^31] bytes are written. *)
Record CSipHasher := mkSip { sip_v : sip_state; sip_tmp : Z; sip_count : Z }.
Definition CSipHasher_new (k0 k1 : Z) : CSipHasher := mkSip (sip_init k0 k1) 0 0.
(** [Write(uint64_t)]; [None] is a failed assertion. *)
Definition CSipHasher_Write64 (h : CSipHasher) (data : Z) : option CSipHasher :=
  if sip_count h mod 8 =? 0 then Some (mkSip (sip_absorb (sip_v h) data) (sip_tmp h) (sip_count h + 8)) else None.
Definition CSipHasher_byte (h : CSipHasher) (b : Z) : CSipHasher :=
  let t := Z.lor (sip_tmp h) (u64 (Z.shiftl b (8 * (sip_count h mod 8)))) in
  let c := sip_count h + 1 in
  if Z.land c 7 =? 0 then mkSip (sip_absorb (sip_v h) t) 0 c else mkSip (sip_v h) t c.
Definition CSipHasher_Write (h : CSipHasher) (data : list Z) : CSipHasher := fold_left CSipHasher_byte data h.
Definition CSipHasher_Finalize (h : CSipHasher) : Z :=
  let t := Z.lor (sip_tmp h) (u64 (Z.shiftl (sip_count h) 56)) in
  sip_finish (sip_absorb (sip_v h) t).

Definition GetUint64 (val : list Z) (pos : nat) : Z :=
  let ptr i := nth (pos * 8 + i) val 0 in
  fold_left (fun x i => Z.lor x (Z.shiftl (ptr i) (8 * Z.of_nat i))) (seq 1 7) (ptr 0%nat).
(** The specialised forms for a [uint256], without and with a 32-bit integer behind it. *)
Definition SipHashUint256 (k0 k1 : Z) (val : list Z) : Z :=
  let v := sip_init k0 k1 in
  let v := sip_absorb v (GetUint64 val 0) in
  let v := sip_absorb v (GetUint64 val 1) in
  let v := sip_absorb v (GetUint64 val 2) in
  let v := sip_absorb v (GetUint64 val 3) in
  sip_finish (sip_absorb v (Z.shiftl 4 59)).
Definition SipHashUint256Extra (k0 k1 : Z) (val : list Z) (extra : Z) : Z :=
  let v := sip_init k0 k1 in
  let v := sip_absorb v (GetUint64 val 0) in
  let v := sip_absorb v (GetUint64 val 1) in
  let v := sip_absorb v (GetUint64 val 2) in
  let v := sip_absorb v (GetUint64 val 3) in
  sip_finish (sip_absorb v (Z.lor (Z.shiftl 36 56) extra)).

(** *** Reference definitions *)

Definition sha256 (m : list Z) : list Z := digest (H := SHA256_standard) m.
Definition sha512 (m : list Z) : list Z := digest (H := SHA512_standard) m.
Definition ripemd160 (m : list Z) : list Z := digest (H := RIPEMD160_standard) m.
(** RFC 2104, for a hash with blocks of [B] bytes. *)
Definition HMAC (H : list Z -> list Z) (B : nat) (key msg : list Z) : list Z :=
  let k := if (B <? length key)%nat then H key else key in
  let k0 := k ++ repeat 0 (B - length k) in
  H (xor_bytes 0x5c k0 ++ H (xor_bytes 0x36 k0 ++ msg)).

(** ** Lemmas *)

(** *** Digests *)

Lemma flat_map_bytes_ok {A} (f : A -> list Z) l : (forall x, bytes_ok (f x)) -> bytes_ok (flat_map f l).
Proof. intros F. induction l as [|x l IH]; cbn; [by apply List.Forall_nil|]. apply Forall_app. split; [apply F|exact IH]. Qed.
Lemma digest_bytes_ok (F : HashFunction) m : (forall st, bytes_ok (write_state (HashFunction := F) st)) -> bytes_ok (digest (H := F) m).
Proof. intros W. apply W. Qed.
Lemma sha256_bytes_ok m : bytes_ok (sha256 m).
Proof. apply digest_bytes_ok. intros st. apply flat_map_bytes_ok. intros x. apply WriteBE_ok. Qed.
Lemma sha512_bytes_ok m : bytes_ok (sha512 m).
Proof. apply digest_bytes_ok. intros st. apply flat_map_bytes_ok. intros x. apply WriteBE_ok. Qed.

Lemma line_length width S0 S1 s0 s1 K R chunk l : forall v ws, length (fst (fold_left (line width S0 S1 s0 s1 K R chunk) l (v, ws))) = length v.
Proof. induction l as [|i l IH]; intros v ws; [done|]. cbn [fold_left line]. rewrite IH. unfold Round. by rewrite !length_insert. Qed.
Lemma block_transform_length width S0 S1 s0 s1 K R st chunk : length (block_transform width S0 S1 s0 s1 K R st chunk) = length st.
Proof.
  unfold block_transform. pose proof (line_length width S0 S1 s0 s1 K R chunk (seq 0 (length K)) st (repeat 0 16)) as E.
  destruct (fold_left _ _ _) as [v ws]. cbn [fst] in E. rewrite length_zip_with. lia.
Qed.
Lemma sha1_Transform_length st chunk : length (sha1_Transform st chunk) = length st.
Proof.
  unfold sha1_Transform. assert (E : forall l v ws, length (fst (fold_left (sha1_line chunk) l (v, ws))) = length v).
  { induction l as [|i l IH]; intros v ws; [done|]. cbn [fold_left sha1_line]. rewrite IH. unfold sha1_Round. by rewrite !length_insert. }
  specialize (E (seq 0 80) st (repeat 0 16)). destruct (fold_left _ _ _) as [v ws]. cbn [fst] in E. rewrite length_zip_with. lia.
Qed.
Lemma flat_map_length_const {A} (f : A -> list Z) k l : (forall x, length (f x) = k) -> length (flat_map f l) = (length l * k)%nat.
Proof. intros F. induction l as [|x l IH]; cbn; [done|]. by rewrite length_app, F, IH. Qed.

Section StateLength.
Context (F : HashFunction) (n : nat).
Hypothesis T : forall st b, length st = n -> length (Transform (HashFunction := F) st b) = n.
Lemma full_chunks_length f : forall h d, length (s h) = n -> length (s (fst (full_chunks (H := F) f h d))) = n.
Proof. induction f as [|f IH]; intros h d L; cbn [full_chunks]; [done|]. destruct (_ <=? _)%nat; [|done]. apply IH. by apply T. Qed.
Lemma Write_length h d : length (s h) = n -> length (s (Write (H := F) h d)) = n.
Proof.
  intros L. unfold Write. destruct (fill_buffer (H := F) h d) as [[h1 d1] b] eqn:E.
  assert (L1 : length (s h1) = n) by (unfold fill_buffer in E; destruct (_ && _); injection E as <- <- <-; [by apply T|done]).
  pose proof (full_chunks_length (length d1) h1 d1 L1) as L2. destruct (full_chunks _ h1 d1) as [h2 d2]. unfold keep_rest. by destruct (_ <? _)%nat.
Qed.
Lemma digest_length m : length (Initialize (HashFunction := F)) = n -> length (compress_all (H := F) (length (m ++ padding (H := F) m) / blocksize (HashFunction := F)) (Initialize (HashFunction := F)) (m ++ padding (H := F) m)) = n.
Proof.
  generalize (m ++ padding (H := F) m) as p. intros p. generalize (length p / blocksize (HashFunction := F))%nat as k. intros k.
  generalize (Initialize (HashFunction := F)) as st. revert p. induction k as [|k IH]; intros p st L; [done|]. apply IH. by apply T.
Qed.
End StateLength.

Lemma sha256_length m : bytes_ok m -> length (sha256 m) = 32%nat.
Proof.
  intros B. unfold sha256. rewrite <- sha256_digest_standard by done. unfold digest. cbn [write_state SHA256_function].
  rewrite (flat_map_length_const WriteBE32 4) by done. rewrite (digest_length SHA256_function 8); [done| |done].
  intros st b L. cbn [Transform SHA256_function sha256_Transform]. unfold sha256_block. by rewrite block_transform_length.
Qed.
Lemma sha512_length m : bytes_ok m -> length (sha512 m) = 64%nat.
Proof.
  intros B. unfold sha512. rewrite <- sha512_digest_standard by done. unfold digest. cbn [write_state SHA512_function].
  rewrite (flat_map_length_const WriteBE64 8) by done. rewrite (digest_length SHA512_function 8); [done| |done].
  intros st b L. cbn [Transform SHA512_function]. unfold sha512_Transform. by rewrite block_transform_length.
Qed.

(** *** Hashers that have taken in a message *)

(** A [CSHA256] from any buffer of 64 bytes that was given a message. *)
Lemma sha256_of_absorbed h m : absorbed (F := SHA256_function) h m -> bytes_ok m -> CSHA256_Finalize h = sha256 m.
Proof. intros A B. rewrite CSHA256_Finalize_eq, (Finalize_absorbed (F := SHA256_function) h m A). by apply sha256_digest_standard. Qed.
Lemma sha512_of_absorbed h m : absorbed (F := SHA512_function) h m -> bytes_ok m -> CSHA512_Finalize h = sha512 m.
Proof. intros A B. unfold CSHA512_Finalize. rewrite (Finalize_absorbed (F := SHA512_function) h m A). by apply sha512_digest_standard. Qed.
Lemma sha256_absorb h m d : absorbed (F := SHA256_function) h m -> absorbed (F := SHA256_function) (CSHA256_Write h d) (m ++ d).
Proof. intros A. rewrite CSHA256_Write_eq. by apply (Write_absorbed (F := SHA256_function)). Qed.
Lemma sha256_absorb_all chunks h m : absorbed (F := SHA256_function) h m -> absorbed (F := SHA256_function) (fold_left CSHA256_Write chunks h) (m ++ concat chunks).
Proof.
  intros A. rewrite (fold_left_ext_in _ (Write (H := SHA256_function))) by (intros; apply CSHA256_Write_eq). by apply (writes_absorbed (F := SHA256_function)).
Qed.
Lemma sha256_fresh junk : length junk = 64%nat -> absorbed (F := SHA256_function) (CSHA256_new junk) [].
Proof. apply (new_absorbed (F := SHA256_function)). Qed.
Lemma sha512_fresh junk : length junk = 128%nat -> absorbed (F := SHA512_function) (CSHA512_new junk) [].
Proof. apply (new_absorbed (F := SHA512_function)). Qed.
Lemma ripemd_of junk m : length junk = 64%nat -> bytes_ok m -> CRIPEMD160_Finalize (CRIPEMD160_Write (CRIPEMD160_new junk) m) = ripemd160 m.
Proof.
  intros J B. unfold ripemd160. rewrite <- ripemd_digest_standard by done.
  pose proof (hash_stream (F := RIPEMD160_function) junk [m] J) as E. cbn [fold_left concat] in E. by rewrite app_nil_r in E.
Qed.

(** *** Composed hashes *)

Lemma xor_bytes_xor a b l : xor_bytes b (xor_bytes a l) = xor_bytes (Z.lxor a b) l.
Proof. unfold xor_bytes. rewrite map_map. apply map_ext. intros x. apply Z.lxor_assoc. Qed.
Lemma lxor_byte a b : 0 <= a < 256 -> 0 <= b < 256 -> 0 <= Z.lxor a b < 256.
Proof.
  intros A B. assert (N : 0 <= Z.lxor a b) by (apply Z.lxor_nonneg; lia). split; [done|]. apply (bits_lt_pow2 8); [lia|done|].
  intros i Hi. by rewrite Z.lxor_spec, (testbit_above 8 a), (testbit_above 8 b) by (done || lia).
Qed.
Lemma xor_bytes_ok mask l : 0 <= mask < 256 -> bytes_ok l -> bytes_ok (xor_bytes mask l).
Proof. intros M B. apply Forall_map. eapply List.Forall_impl; [|exact B]. intros b Hb. by apply lxor_byte. Qed.
Lemma zeros_ok n : bytes_ok (repeat 0 n).
Proof. apply Forall_forall. intros x I%list_elem_of_In%repeat_spec. subst. lia. Qed.
Lemma bytes_app a b : bytes_ok a -> bytes_ok b -> bytes_ok (a ++ b).
Proof. intros A B. apply Forall_app. by split. Qed.
#[local] Hint Resolve sha256_bytes_ok sha512_bytes_ok xor_bytes_ok zeros_ok bytes_app : core.

Lemma CHash256_absorbed h m : absorbed (F := SHA256_function) h m -> bytes_ok m -> CHash256_Finalize h = sha256 (sha256 m).
Proof.
  intros A B. unfold CHash256_Finalize. rewrite (sha256_of_absorbed h m A B). apply sha256_of_absorbed; [|auto].
  apply (sha256_absorb _ [] (sha256 m)). by apply (new_absorbed (F := SHA256_function) (repeat 0 64)).
Qed.
Lemma CHash160_absorbed junk h m : length junk = 64%nat -> absorbed (F := SHA256_function) h m -> bytes_ok m -> CHash160_Finalize junk h = ripemd160 (sha256 m).
Proof. intros J A B. unfold CHash160_Finalize. rewrite (sha256_of_absorbed h m A B). apply ripemd_of; auto. Qed.

Section Hmac.
Variable key : list Z.
Hypothesis key_ok : bytes_ok key.
Lemma hmac_key_ok (H : list Z -> list Z) B : (forall m, bytes_ok (H m)) ->
  bytes_ok ((if (B <? length key)%nat then H key else key) ++ repeat 0 (B - length (if (B <? length key)%nat then H key else key))).
Proof. intros Hb. apply bytes_app; [by destruct (_ <? _)%nat|apply zeros_ok]. Qed.

(** The inner hasher has taken in the masked key. *)
Lemma hmac_chunks (W : hasher -> list Z -> hasher) (Wr : hmac -> list Z -> hmac) chunks :
  (forall h d, Wr h d = mkHmac (outer h) (W (inner h) d)) -> forall h, fold_left Wr chunks h = mkHmac (outer h) (fold_left W chunks (inner h)).
Proof. intros E. induction chunks as [|c l IH]; intros h; [by destruct h|]. cbn [fold_left]. by rewrite IH, E. Qed.

Lemma hmac256_correct junk chunks : length junk = 64%nat -> Forall bytes_ok chunks ->
  CHMAC_SHA256_Finalize (fold_left CHMAC_SHA256_Write chunks (CHMAC_SHA256_new junk key)) = HMAC sha256 64 key (concat chunks).
Proof.
  intros J B. rewrite (hmac_chunks CSHA256_Write) by done. unfold CHMAC_SHA256_Finalize, CHMAC_SHA256_new, HMAC. cbn [outer inner]. rewrite xor_bytes_xor.
  change (Z.lxor 0x5c (Z.lxor 0x5c 0x36)) with 0x36. pose proof (hmac_key_ok sha256 64 sha256_bytes_ok) as Kb.
  assert (Ek : (if (length key <=? 64)%nat then key ++ repeat 0 (64 - length key) else CSHA256_Finalize (CSHA256_Write (CSHA256_new junk) key) ++ repeat 0 32) =
    (if (64 <? length key)%nat then sha256 key else key) ++ repeat 0 (64 - length (if (64 <? length key)%nat then sha256 key else key))).
  { rewrite Nat.ltb_antisym. destruct (length key <=? 64)%nat; cbn [negb]; [done|]. rewrite sha256_length by done.
    by rewrite (sha256_of_absorbed _ key (sha256_absorb _ [] key (sha256_fresh junk J)) key_ok). }
  rewrite Ek. set (k0 := _ ++ repeat 0 _) in *. assert (Bm : bytes_ok (concat chunks)) by by apply Forall_concat.
  assert (I : CSHA256_Finalize (fold_left CSHA256_Write chunks (CSHA256_Write (CSHA256_new junk) (xor_bytes 0x36 k0))) = sha256 (xor_bytes 0x36 k0 ++ concat chunks)).
  { apply sha256_of_absorbed; [apply (sha256_absorb_all chunks _ (xor_bytes 0x36 k0)), (sha256_absorb _ [] _ (sha256_fresh junk J))|].
    apply bytes_app; [apply xor_bytes_ok; [lia|done]|done]. }
  rewrite I. apply sha256_of_absorbed; [apply sha256_absorb, (sha256_absorb _ [] _ (sha256_fresh junk J))|].
  apply bytes_app; [apply xor_bytes_ok; [lia|done]|apply sha256_bytes_ok].
Qed.
Lemma sha512_absorb h m d : absorbed (F := SHA512_function) h m -> absorbed (F := SHA512_function) (CSHA512_Write h d) (m ++ d).
Proof. apply (Write_absorbed (F := SHA512_function)). Qed.
Lemma hmac512_correct junk chunks : length junk = 128%nat -> Forall bytes_ok chunks ->
  CHMAC_SHA512_Finalize (fold_left CHMAC_SHA512_Write chunks (CHMAC_SHA512_new junk key)) = HMAC sha512 128 key (concat chunks).
Proof.
  intros J B. rewrite (hmac_chunks CSHA512_Write) by done. unfold CHMAC_SHA512_Finalize, CHMAC_SHA512_new, HMAC. cbn [outer inner]. rewrite xor_bytes_xor.
  change (Z.lxor 0x5c (Z.lxor 0x5c 0x36)) with 0x36. pose proof (hmac_key_ok sha512 128 sha512_bytes_ok) as Kb.
  assert (Ek : (if (length key <=? 128)%nat then key ++ repeat 0 (128 - length key) else CSHA512_Finalize (CSHA512_Write (CSHA512_new junk) key) ++ repeat 0 64) =
    (if (128 <? length key)%nat then sha512 key else key) ++ repeat 0 (128 - length (if (128 <? length key)%nat then sha512 key else key))).
  { rewrite Nat.ltb_antisym. destruct (length key <=? 128)%nat; cbn [negb]; [done|]. rewrite sha512_length by done.
    by rewrite (sha512_of_absorbed _ key (sha512_absorb _ [] key (sha512_fresh junk J)) key_ok). }
  rewrite Ek. set (k0 := _ ++ repeat 0 _) in *. assert (Bm : bytes_ok (concat chunks)) by by apply Forall_concat.
  assert (I : CSHA512_Finalize (fold_left CSHA512_Write chunks (CSHA512_Write (CSHA512_new junk) (xor_bytes 0x36 k0))) = sha512 (xor_bytes 0x36 k0 ++ concat chunks)).
  { apply sha512_of_absorbed; [apply (writes_absorbed (F := SHA512_function) chunks _ (xor_bytes 0x36 k0)), (sha512_absorb _ [] _ (sha512_fresh junk J))|].
    apply bytes_app; [apply xor_bytes_ok; [lia|done]|done]. }
  rewrite I. apply sha512_of_absorbed; [apply sha512_absorb, (sha512_absorb _ [] _ (sha512_fresh junk J))|].
  apply bytes_app; [apply xor_bytes_ok; [lia|done]|apply sha512_bytes_ok].
Qed.
End Hmac.

(** *** The hashes of the interpreter *)

(** The five hashes that scripts use. *)
Definition crypto_hashes (junk : list Z) : ScriptHashes := {|
  RIPEMD160 v := CRIPEMD160_Finalize (CRIPEMD160_Write (CRIPEMD160_new junk) v);
  SHA1 v := CSHA1_Finalize (CSHA1_Write (CSHA1_new junk) v);
  SHA256 v := CSHA256_Finalize (CSHA256_Write (CSHA256_new junk) v);
  Hash160 v := Hash160_ junk v;
  Hash256 v := Hash_ junk v |}.

Lemma CSHA256_length h d : length (s h) = 8%nat -> length (s (CSHA256_Write h d)) = 8%nat.
Proof.
  intros L. rewrite CSHA256_Write_eq. apply (Write_length SHA256_function); [|done]. intros st b E.
  cbn [Transform SHA256_function sha256_Transform]. unfold sha256_block. by rewrite block_transform_length.
Qed.
Lemma CSHA256_Finalize_length h : length (s h) = 8%nat -> length (CSHA256_Finalize h) = 32%nat.
Proof. intros L. unfold CSHA256_Finalize. rewrite (flat_map_length_const WriteBE32 4) by done. rewrite CSHA256_length; [done|]. by apply CSHA256_length. Qed.
Lemma Finalize_length (F : HashFunction) n k h : (forall st b, length st = n -> length (Transform (HashFunction := F) st b) = n) ->
  (forall st, length (write_state (HashFunction := F) st) = (length st * k)%nat) -> length (s h) = n -> length (Finalize (H := F) h) = (n * k)%nat.
Proof. intros T W L. unfold Finalize. rewrite W. rewrite (Write_length F n T); [done|]. by apply Write_length. Qed.
Lemma ripemd_length st b : length st = 5%nat -> length (Transform (HashFunction := RIPEMD160_function) st b) = 5%nat.
Proof. intros _. cbn [Transform RIPEMD160_function]. unfold ripemd_Transform. by rewrite length_map, length_seq. Qed.
Lemma ripemd_digest_length junk v : length (CRIPEMD160_Finalize (CRIPEMD160_Write (CRIPEMD160_new junk) v)) = 20%nat.
Proof.
  apply (Finalize_length RIPEMD160_function 5 4); [apply ripemd_length|intros st; by apply flat_map_length_const|].
  apply Write_length; [apply ripemd_length|done].
Qed.

(** They fit on the stack, whatever the buffers were. *)
Lemma crypto_hashes_small junk : @SmallHashes (crypto_hashes junk).
Proof.
  constructor. intros opcode v. unfold small, hash_of, MAX_SCRIPT_ELEMENT_SIZE. cbn [RIPEMD160 SHA1 SHA256 Hash160 Hash256 crypto_hashes].
  repeat case_match.
  - by rewrite ripemd_digest_length.
  - unfold CSHA1_Finalize. rewrite (Finalize_length SHA1_function 5 4); [done| |intros st; by apply flat_map_length_const|].
    + intros st b L. cbn [Transform SHA1_function]. by rewrite sha1_Transform_length.
    + apply Write_length; [|done]. intros st b L. cbn [Transform SHA1_function]. by rewrite sha1_Transform_length.
  - rewrite CSHA256_Finalize_length; [done|]. by apply CSHA256_length.
  - unfold Hash160_, CHash160_Finalize. by rewrite ripemd_digest_length.
  - unfold Hash_, CHash256_Finalize. rewrite CSHA256_Finalize_length; [done|]. by apply CSHA256_length.
Qed.

(** *** SipHash *)

Lemma lor_next_byte p b : bytes_ok p -> 0 <= b < 256 -> (length p < 8)%nat ->
  Z.lor (le_val p) (u64 (Z.shiftl b (8 * Z.of_nat (length p)))) = le_val (p ++ [b]).
Proof.
  intros Bp Hb L. rewrite shiftl_mul by lia. rewrite u64_small.
  2:{ split; [lia|]. apply Z.lt_le_trans with (2 ^ 8 * 2 ^ (8 * Z.of_nat (length p))); [apply Z.mul_lt_mono_pos_r; lia|]. rewrite <- Z.pow_add_r by lia. apply Z.pow_le_mono_r; lia. }
  rewrite lor_disjoint by (try apply le_val_fits; done || lia). rewrite le_val_app. cbn [le_val]. lia.
Qed.
Lemma sip_byte_partial v p c b : bytes_ok p -> 0 <= b < 256 -> (length p < 7)%nat -> c mod 8 = Z.of_nat (length p) ->
  CSipHasher_byte (mkSip v (le_val p) c) b = mkSip v (le_val (p ++ [b])) (c + 1).
Proof.
  intros Bp Hb L C. unfold CSipHasher_byte. cbn [sip_v sip_tmp sip_count]. rewrite C, lor_next_byte by (done || lia).
  change 7 with (2 ^ 3 - 1). rewrite land_mask by lia. change (2 ^ 3) with 8. rewrite <- Zplus_mod_idemp_l, C, Z.mod_small by lia.
  by rewrite (proj2 (Z.eqb_neq _ 0)) by lia.
Qed.
Lemma sip_byte_full v p c b : bytes_ok p -> 0 <= b < 256 -> length p = 7%nat -> c mod 8 = 7 ->
  CSipHasher_byte (mkSip v (le_val p) c) b = mkSip (sip_absorb v (le_val (p ++ [b]))) 0 (c + 1).
Proof.
  intros Bp Hb L C. unfold CSipHasher_byte. cbn [sip_v sip_tmp sip_count]. pose proof (lor_next_byte p b Bp Hb ltac:(lia)) as T. rewrite L in T. rewrite C. change (Z.of_nat 7) with 7 in T. rewrite T.
  change 7 with (2 ^ 3 - 1). rewrite land_mask by lia. change (2 ^ 3) with 8. by rewrite <- Zplus_mod_idemp_l, C.
Qed.
Lemma sip_word_step l : forall p v c, (length p + length l = 8)%nat -> l <> [] -> bytes_ok p -> bytes_ok l -> c mod 8 = Z.of_nat (length p) ->
  CSipHasher_Write (mkSip v (le_val p) c) l = mkSip (sip_absorb v (le_val (p ++ l))) 0 (c + Z.of_nat (length l)).
Proof.
  induction l as [|b l IH]; intros p v c L N Bp Bl C; [done|]. apply Forall_cons in Bl as [Hb Bl]. unfold CSipHasher_Write. cbn [fold_left]. fold (CSipHasher_Write (CSipHasher_byte (mkSip v (le_val p) c) b) l).
  cbn [length] in L. destruct l as [|b' l'].
  - cbn [length] in L. rewrite sip_byte_full by (done || lia). done.
  - cbn [length] in L. rewrite sip_byte_partial by (done || lia).
    rewrite IH; [by rewrite <- app_assoc; f_equal; cbn [length]; lia|rewrite length_app; cbn; lia|done|apply bytes_app; [done|by apply List.Forall_cons]|done|].
    rewrite <- Zplus_mod_idemp_l, C, Z.mod_small by lia. rewrite length_app. cbn. lia.
Qed.
Lemma sip_word h l : sip_tmp h = 0 -> sip_count h mod 8 = 0 -> length l = 8%nat -> bytes_ok l ->
  CSipHasher_Write64 h (le_val l) = Some (CSipHasher_Write h l) /\
  CSipHasher_Write h l = mkSip (sip_absorb (sip_v h) (le_val l)) 0 (sip_count h + 8).
Proof.
  intros T C L B. destruct h as [v t c]. cbn in T, C. subst t. assert (E : CSipHasher_Write (mkSip v 0 c) l = mkSip (sip_absorb v (le_val l)) 0 (c + 8)).
  { pose proof (sip_word_step l [] v c L) as E. rewrite L in E. apply E; [by intros ->|by apply List.Forall_nil|done|done]. }
  split; [|done]. unfold CSipHasher_Write64. cbn [sip_count sip_v sip_tmp]. by rewrite C, E.
Qed.
Lemma or_bytes_le_val w k : forall n, (n + k <= length w)%nat -> bytes_ok w ->
  fold_left (fun x i => Z.lor x (Z.shiftl (nth i w 0) (8 * Z.of_nat i))) (seq n k) (le_val (firstn n w)) = le_val (firstn (n + k) w).
Proof.
  induction k as [|k IH]; intros n L B; [by rewrite Nat.add_0_r|]. cbn [seq fold_left].
  assert (E : firstn (S n) w = firstn n w ++ [nth n w 0]) by (apply take_S_r, nth_lookup_Some'; lia).
  assert (Bn : bytes_ok (firstn n w)) by by apply Forall_take. pose proof (le_val_fits _ Bn) as F. unfold fits in F. rewrite length_firstn, Nat.min_l in F by lia.
  assert (T : Z.lor (le_val (firstn n w)) (Z.shiftl (nth n w 0) (8 * Z.of_nat n)) = le_val (firstn (S n) w)).
  { rewrite E, le_val_app, length_firstn, Nat.min_l by lia. rewrite shiftl_mul, lor_disjoint by lia. cbn [le_val]. lia. }
  rewrite T, IH by (done || lia). f_equal. f_equal. lia.
Qed.
Lemma GetUint64_val val pos : (8 * pos + 8 <= length val)%nat -> bytes_ok val -> GetUint64 val pos = le_val (firstn 8 (skipn (8 * pos) val)).
Proof.
  intros L B. unfold GetUint64. assert (B' : bytes_ok (skipn (8 * pos) val)) by by apply Forall_drop.
  etransitivity; [|apply (or_bytes_le_val (skipn (8 * pos) val) 7 1); [rewrite length_skipn; lia|done]].
  rewrite (fold_left_ext_in _ (fun x i => Z.lor x (Z.shiftl (nth i (skipn (8 * pos) val) 0) (8 * Z.of_nat i)))).
  2:{ intros x i _. rewrite nth_skipn. by replace (pos * 8 + i)%nat with (8 * pos + i)%nat by lia. }
  f_equal. replace (pos * 8 + 0)%nat with (8 * pos)%nat by lia. destruct (skipn (8 * pos) val) as [|b l] eqn:E; [apply (f_equal length) in E; rewrite length_skipn in E; cbn in E; lia|].
  assert (N : nth (8 * pos) val 0 = b) by (rewrite <- (Nat.add_0_r (8 * pos)), <- nth_skipn, E; done). rewrite N. cbn [firstn]. rewrite firstn_O. cbn [le_val]. lia.
Qed.

(** Four words, from a hasher with no bytes left over. *)
Lemma sip_uint256 v c val : length val = 32%nat -> bytes_ok val -> c mod 8 = 0 -> let absorb v i := sip_absorb v (GetUint64 val i) in
  CSipHasher_Write (mkSip v 0 c) val = mkSip (absorb (absorb (absorb (absorb v 0%nat) 1%nat) 2%nat) 3%nat) 0 (c + 32).
Proof.
  intros L B C absorb. assert (S_ : forall k v c rest, c mod 8 = 0 -> (8 * k + 8 <= 32)%nat ->
    CSipHasher_Write (mkSip v 0 c) (firstn 8 (skipn (8 * k) val) ++ rest) = CSipHasher_Write (mkSip (absorb v k) 0 (c + 8)) rest).
  { intros k v' c' rest C' Hk. unfold CSipHasher_Write. rewrite fold_left_app. fold (CSipHasher_Write (mkSip v' 0 c') (firstn 8 (skipn (8 * k) val))).
    destruct (sip_word (mkSip v' 0 c') (firstn 8 (skipn (8 * k) val))) as [_ E]; [done|done|rewrite length_firstn, length_skipn; lia|by apply Forall_take, Forall_drop|].
    rewrite E. cbn [sip_v sip_count]. unfold absorb. by rewrite GetUint64_val by (done || lia). }
  assert (V : val = firstn 8 (skipn (8 * 0) val) ++ firstn 8 (skipn (8 * 1) val) ++ firstn 8 (skipn (8 * 2) val) ++ firstn 8 (skipn (8 * 3) val) ++ []).
  { assert (P : forall k, (8 * k + 8 <= 32)%nat -> firstn 8 (skipn (8 * k) val) ++ skipn (8 * S k) val = skipn (8 * k) val).
    { intros k Hk. replace (skipn (8 * S k) val) with (skipn 8 (skipn (8 * k) val)) by (rewrite skipn_skipn; f_equal; lia). apply firstn_skipn. }
    transitivity (skipn (8 * 0) val); [done|]. rewrite <- (P 0%nat) at 1 by lia. f_equal. rewrite <- (P 1%nat) at 1 by lia. f_equal. rewrite <- (P 2%nat) at 1 by lia. f_equal.
    rewrite <- (P 3%nat) at 1 by lia. f_equal. by rewrite skipn_all2 by lia. }
  assert (Cs : forall k, (c + 8 * k) mod 8 = 0) by (intros k; by rewrite Z.mul_comm, Z.mod_add by lia).
  rewrite V at 1. rewrite (S_ 0%nat) by (done || lia). rewrite (S_ 1%nat) by (apply (Cs 1) || lia).
  rewrite (S_ 2%nat) by (lia || (replace (c + 8 + 8) with (c + 8 * 2) by lia; apply Cs)).
  rewrite (S_ 3%nat) by (lia || (replace (c + 8 + 8 + 8) with (c + 8 * 3) by lia; apply Cs)).
  unfold CSipHasher_Write. cbn [fold_left]. f_equal. lia.
Qed.

(** Four bytes that do not fill a word. *)
Lemma sip_extra v c extra : 0 <= extra < 2 ^ 32 -> c mod 8 = 0 ->
  CSipHasher_Write (mkSip v 0 c) (le_bytes 4 extra) = mkSip v extra (c + 4).
Proof.
  intros E C. assert (S_ : forall l p c, (length p + length l < 8)%nat -> bytes_ok p -> bytes_ok l -> c mod 8 = Z.of_nat (length p) ->
    CSipHasher_Write (mkSip v (le_val p) c) l = mkSip v (le_val (p ++ l)) (c + Z.of_nat (length l))).
  { induction l as [|b l IH]; intros p c' L Bp Bl C'; [cbn; by rewrite app_nil_r, Z.add_0_r|]. apply Forall_cons in Bl as [Hb Bl]. cbn [length] in L.
    unfold CSipHasher_Write. cbn [fold_left]. fold (CSipHasher_Write (CSipHasher_byte (mkSip v (le_val p) c') b) l).
    rewrite (sip_byte_partial v p c' b) by (done || lia). rewrite IH; [|rewrite length_app; cbn; lia|by apply bytes_app; [|apply List.Forall_cons]|done|].
    - rewrite <- app_assoc. cbn [app length]. f_equal. lia.
    - rewrite <- Zplus_mod_idemp_l, C', Z.mod_small by lia. rewrite length_app. cbn. lia. }
  specialize (S_ (le_bytes 4 extra) [] c). rewrite length_le_bytes in S_. cbn [app le_val] in S_.
  rewrite S_; [|cbn; lia|by apply List.Forall_nil|apply le_bytes_ok|done]. by rewrite le_val_bytes.
Qed.
#[local] Opaque sip_absorb sip_finish.
Lemma sip_finalize_32 v : CSipHasher_Finalize (mkSip v 0 32) = sip_finish (sip_absorb v (Z.shiftl 4 59)).
Proof. unfold CSipHasher_Finalize. cbn [sip_tmp sip_count sip_v]. by replace (Z.lor 0 (u64 (Z.shiftl 32 56))) with (Z.shiftl 4 59). Qed.
Lemma sip_finalize_36 v extra : CSipHasher_Finalize (mkSip v extra (32 + 4)) = sip_finish (sip_absorb v (Z.lor (Z.shiftl 36 56) extra)).
Proof. unfold CSipHasher_Finalize. cbn [sip_tmp sip_count sip_v]. change (32 + 4) with 36. rewrite Z.lor_comm. by change (u64 (Z.shiftl 36 56)) with (Z.shiftl 36 56). Qed.
Lemma sip_words k0 k1 val : exists h1 h2 h3 h4,
  CSipHasher_Write64 (CSipHasher_new k0 k1) (GetUint64 val 0) = Some h1 /\ CSipHasher_Write64 h1 (GetUint64 val 1) = Some h2 /\
  CSipHasher_Write64 h2 (GetUint64 val 2) = Some h3 /\ CSipHasher_Write64 h3 (GetUint64 val 3) = Some h4 /\
  CSipHasher_Finalize h4 = SipHashUint256 k0 k1 val.
Proof. do 4 eexists. split; [exact eq_refl|]. split; [exact eq_refl|]. split; [exact eq_refl|]. split; [exact eq_refl|]. apply sip_finalize_32. Qed.

(** ** Properties *)

(** The composed hashes are what their names say, for a message in any pieces and
    whatever the uninitialised buffers hold: [CHash256] is SHA-256 twice, [CHash160] is
    RIPEMD-160 of SHA-256, and [CHMAC_SHA256] and [CHMAC_SHA512] are the HMAC of RFC 2104,
    also for keys longer than a block. *)
Theorem composed_hashes_correct junk junk128 key (chunks : list (list Z)) :
  length junk = 64%nat -> length junk128 = 128%nat -> bytes_ok key -> Forall bytes_ok chunks ->
  let m := concat chunks in
  CHash256_Finalize (fold_left CHash256_Write chunks (CHash256_new junk)) = sha256 (sha256 m) /\
  CHash160_Finalize junk (fold_left CHash160_Write chunks (CHash160_new junk)) = ripemd160 (sha256 m) /\
  CHMAC_SHA256_Finalize (fold_left CHMAC_SHA256_Write chunks (CHMAC_SHA256_new junk key)) = HMAC sha256 64 key m /\
  CHMAC_SHA512_Finalize (fold_left CHMAC_SHA512_Write chunks (CHMAC_SHA512_new junk128 key)) = HMAC sha512 128 key m.
Proof.
  intros J J' K B m. assert (Bm : bytes_ok m) by by apply Forall_concat. pose proof (sha256_absorb_all chunks _ [] (sha256_fresh junk J)) as A.
  split; [by apply CHash256_absorbed|]. split; [by apply (CHash160_absorbed junk)|]. split.
  - apply hmac256_correct; done.
  - apply hmac512_correct; done.
Qed.

(** The three ways to compute SipHash agree: writing the bytes of a 256-bit value,
    writing its four 64-bit words, and the specialised functions, with and without a
    32-bit integer behind the value. *)
Theorem siphash_forms_agree k0 k1 val extra : length val = 32%nat -> bytes_ok val -> 0 <= extra < 2 ^ 32 ->
  CSipHasher_Finalize (CSipHasher_Write (CSipHasher_new k0 k1) val) = SipHashUint256 k0 k1 val /\
  (exists h1 h2 h3 h4, CSipHasher_Write64 (CSipHasher_new k0 k1) (GetUint64 val 0) = Some h1 /\ CSipHasher_Write64 h1 (GetUint64 val 1) = Some h2 /\
    CSipHasher_Write64 h2 (GetUint64 val 2) = Some h3 /\ CSipHasher_Write64 h3 (GetUint64 val 3) = Some h4 /\
    CSipHasher_Finalize h4 = SipHashUint256 k0 k1 val) /\
  CSipHasher_Finalize (CSipHasher_Write (CSipHasher_Write (CSipHasher_new k0 k1) val) (le_bytes 4 extra)) = SipHashUint256Extra k0 k1 val extra.
Proof.
  intros L B E. pose proof (sip_uint256 (sip_init k0 k1) 0 val L B eq_refl) as U. cbv zeta in U. cbn [Z.add] in U.
  assert (F : CSipHasher_Finalize (CSipHasher_Write (CSipHasher_new k0 k1) val) = SipHashUint256 k0 k1 val) by (unfold CSipHasher_new; rewrite U; apply sip_finalize_32).
  split; [exact F|]. split; [apply sip_words|]. unfold CSipHasher_new. rewrite U. unfold CSipHasher_Write.
  change (fold_left CSipHasher_byte (le_bytes 4 extra) ?h) with (CSipHasher_Write h (le_bytes 4 extra)).
  rewrite sip_extra by done. apply sip_finalize_36.
Qed.

(** ** Examples: the source's own test vectors *)

Example murmur_vectors : map (fun '(seed, data) => MurmurHash3 seed data)
  [(0, []); (0xFBA4C795, []); (0xffffffff, []); (0, [0]); (0xFBA4C795, [0]); (0, [0xff]); (0, [0; 0x11]); (0, [0; 0x11; 0x22]);
   (0, [0; 0x11; 0x22; 0x33]); (0, [0; 0x11; 0x22; 0x33; 0x44]); (0, [0; 0x11; 0x22; 0x33; 0x44; 0x55; 0x66]); (0, [0; 0x11; 0x22; 0x33; 0x44; 0x55; 0x66; 0x77; 0x88])] =
  [0; 0x6a396f08; 0x81f16f39; 0x514e28b7; 0xea3f0b17; 0xfd6cf10d; 0x16c6b7ab; 0x8eb51c3d; 0xb4471bf8; 0xe2301fa8; 0xb074502c; 0xb4698def].
Proof. vm_compute. reflexivity. Qed.

Example siphash_vectors :
  CSipHasher_Finalize (CSipHasher_new 0x0706050403020100 0x0F0E0D0C0B0A0908) = 0x726fdb47dd0e0e31 /\
  CSipHasher_Finalize (CSipHasher_Write (CSipHasher_new 0x0706050403020100 0x0F0E0D0C0B0A0908) [0]) = 0x74f839c593dc67fd /\
  SipHashUint256 0x0706050403020100 0x0F0E0D0C0B0A0908 (map Z.of_nat (seq 0 32)) = 0x7127512f72f27cce.
Proof. vm_compute. auto. Qed.
Example composed_vectors :
  Hash160_ (repeat 0 64) [] = flat_map WriteBE32 [0xb472a266; 0xd0bd89c1; 0x3706a413; 0x2ccfb16f; 0x7c3b9fcb] /\
  Hash_2 (repeat 0 64) [] [] = flat_map WriteBE32 [0x5df6e0e2; 0x761359d3; 0x0a827505; 0x8e299fcc; 0x03815345; 0x45f55cf4; 0x3e41983f; 0x5d4c9456] /\
  CHMAC_SHA256_Finalize (CHMAC_SHA256_Write (CHMAC_SHA256_new (repeat 0 64) [74; 101; 102; 101])
    [119; 104; 97; 116; 32; 100; 111; 32; 121; 97; 32; 119; 97; 110; 116; 32; 102; 111; 114; 32; 110; 111; 116; 104; 105; 110; 103; 63]) =
    flat_map WriteBE32 [0x5bdcc146; 0xbf60754e; 0x6a042426; 0x089575c7; 0x5a003f08; 0x9d273983; 0x9dec58b9; 0x64ec3843].
Proof. vm_compute. auto. Qed.
(** A script that compares a real key hash. *)
Example key_hash_script_evaluates :
  @EvalScript (crypto_hashes (repeat 0 64)) base_checker (fun _ => true) 0 SCRIPT_V1 [[]]
    ([OP_DUP; OP_HASH160; 20] ++ flat_map WriteBE32 [0xb472a266; 0xd0bd89c1; 0x3706a413; 0x2ccfb16f; 0x7c3b9fcb] ++ [OP_EQUAL]) = Ok [[1]; []].
Proof. vm_compute. reflexivity. Qed.

(** ** Witnesses *)

Lemma composed_hashes_correct_witness :
  CHash160_Finalize (repeat 7 64) (fold_left CHash160_Write [[1; 2]; []; [3]] (CHash160_new (repeat 7 64))) = ripemd160 (sha256 [1; 2; 3]) /\
  CHMAC_SHA512_Finalize (fold_left CHMAC_SHA512_Write [[1; 2]; []; [3]] (CHMAC_SHA512_new (repeat 9 128) [5])) = HMAC sha512 128 [5] [1; 2; 3].
Proof.
  destruct (composed_hashes_correct (repeat 7 64) (repeat 9 128) [5] [[1; 2]; []; [3]]) as (_ & H & _ & M); [reflexivity|reflexivity| | |].
  - apply List.Forall_forall. cbn. lia.
  - apply List.Forall_forall. intros c I. cbn in I. destruct I as [<-|[<-|[<-|[]]]]; apply List.Forall_forall; cbn; lia.
  - split; [exact H|exact M].
Defined.
Lemma siphash_forms_agree_witness :
  CSipHasher_Finalize (CSipHasher_Write (CSipHasher_Write (CSipHasher_new 1 2) (map Z.of_nat (seq 0 32))) [9; 0; 0; 0]) =
  SipHashUint256Extra 1 2 (map Z.of_nat (seq 0 32)) 9.
Proof.
  destruct (siphash_forms_agree 1 2 (map Z.of_nat (seq 0 32)) 9) as (_ & _ & E); [reflexivity| |lia|exact E].
  apply List.Forall_forall. intros x I. cbn in I. repeat destruct I as [<-|I]; lia || contradiction.
Defined.
