(* ===== verification/Bloom.v ===== *)
(** * Bloom filters

    bloom.{h,cpp}: the filter that light clients send, and the rolling filter that
    remembers the most recent insertions. The constructors compute their sizes with
    floating point logarithms; the sizes are arguments here. A [uint256] key is the
    vector of its bytes, as in the source. *)

From S2P Require Import Prelude Serialize ArithUint256 Script Hashers Hash.

(** ** Definitions *)

Definition MAX_BLOOM_FILTER_SIZE : Z := 36000.
Definition MAX_HASH_FUNCS : Z := 50.

(** *** The filter *)

Record CBloomFilter := mkBloom {
  vData : list Z;
  isFull : bool;
  isEmpty : bool;
  nHashFuncs : Z;
  nTweak : Z;
  nFlags : Z
}.
(** The constructor, for the size and the number of functions that it computes. *)
Definition CBloomFilter_new (size : nat) (funcs tweak flags : Z) : CBloomFilter := mkBloom (repeat 0 size) false true funcs tweak flags.
Definition CBloomFilter_default : CBloomFilter := mkBloom [] true false 0 0 0.

Section Filter.
Variable f : CBloomFilter.

Definition bloom_Hash (nHashNum : Z) (vDataToHash : list Z) : Z :=
  MurmurHash3 (u32 (nHashNum * 0xFBA4C795 + nTweak f)) vDataToHash mod (Z.of_nat (length (vData f)) * 8).
(** [vData[nIndex >> 3] |= (1 << (7 & nIndex))]. *)
Definition set_bit_at (v : list Z) (nIndex : Z) : list Z :=
  let i := Z.to_nat (Z.shiftr nIndex 3) in <[i := Z.lor (nth i v 0) (Z.shiftl 1 (Z.land 7 nIndex))]> v.
Definition get_bit_at (v : list Z) (nIndex : Z) : bool :=
  negb (Z.land (nth (Z.to_nat (Z.shiftr nIndex 3)) v 0) (Z.shiftl 1 (Z.land 7 nIndex)) =? 0).
Definition hash_nums : list Z := map Z.of_nat (seq 0 (Z.to_nat (nHashFuncs f))).

(** The size of the vector does not change, so the indices can be computed first. *)
Definition bloom_insert (vKey : list Z) : CBloomFilter :=
  if isFull f then f
  else mkBloom (fold_left (fun v i => set_bit_at v (bloom_Hash i vKey)) hash_nums (vData f)) (isFull f) false (nHashFuncs f) (nTweak f) (nFlags f).
Definition bloom_contains (vKey : list Z) : bool :=
  if isFull f then true
  else if isEmpty f then false
  else forallb (fun i => get_bit_at (vData f) (bloom_Hash i vKey)) hash_nums.
Definition bloom_clear : CBloomFilter := mkBloom (repeat 0 (length (vData f))) false true (nHashFuncs f) (nTweak f) (nFlags f).
Definition bloom_reset (nNewTweak : Z) : CBloomFilter := mkBloom (repeat 0 (length (vData f))) false true (nHashFuncs f) nNewTweak (nFlags f).
Definition IsWithinSizeConstraints : bool := (Z.of_nat (length (vData f)) <=? MAX_BLOOM_FILTER_SIZE) && (nHashFuncs f <=? MAX_HASH_FUNCS).
Definition UpdateEmptyFull : CBloomFilter :=
  mkBloom (vData f) (forallb (fun b => b =? 0xff) (vData f)) (forallb (fun b => b =? 0) (vData f)) (nHashFuncs f) (nTweak f) (nFlags f).

Definition Bloom_Serialize : list Z :=
  Serialize_bytes (vData f) ++ ser_writedata32 (nHashFuncs f) ++ ser_writedata32 (nTweak f) ++ ser_writedata8 (nFlags f).
End Filter.
(** Into a default filter: the two marks are not part of the message. *)
Definition Bloom_Unserialize : reader CBloomFilter :=
  v <~ Unserialize_bytes ;;; n <~ ser_readdata32 ;;; t <~ ser_readdata32 ;;; fl <~ ser_readdata8 ;;;
  rd_ret (mkBloom v (isFull CBloomFilter_default) (isEmpty CBloomFilter_default) n t fl).

(** *** The rolling filter *)

Record CRollingBloomFilter := mkRolling {
  nEntriesPerGeneration : Z;
  nEntriesThisGeneration : Z;
  nGeneration : Z;
  data : list Z;
  rTweak : Z;
  rHashFuncs : Z
}.
(** The constructor, for the number of words and of functions that it computes, and a random number. *)
Definition CRollingBloomFilter_new (nElements : Z) (words funcs tweak : Z) : CRollingBloomFilter :=
  mkRolling ((nElements + 1) / 2) 0 1 (repeat 0 (Z.to_nat words)) tweak funcs.

Definition RollingBloomHash (nHashNum nTweak : Z) (vDataToHash : list Z) : Z := MurmurHash3 (u32 (nHashNum * 0xFBA4C795 + nTweak)) vDataToHash.

(** The entries of the generation with these masks are wiped. *)
Fixpoint wipe (nGenerationMask1 nGenerationMask2 : Z) (data : list Z) : list Z :=
  match data with
  | p1 :: p2 :: rest =>
      let mask := Z.lor (Z.lxor p1 nGenerationMask1) (Z.lxor p2 nGenerationMask2) in
      Z.land p1 mask :: Z.land p2 mask :: wipe nGenerationMask1 nGenerationMask2 rest
  | _ => data
  end.
Definition next_generation (f : CRollingBloomFilter) : CRollingBloomFilter :=
  if nEntriesThisGeneration f =? nEntriesPerGeneration f then
    let g := nGeneration f + 1 in
    let g := if g =? 4 then 1 else g in
    let m1 := u64 (0 - Z.land g 1) in
    let m2 := u64 (0 - Z.shiftr g 1) in
    mkRolling (nEntriesPerGeneration f) 0 g (wipe m1 m2 (data f)) (rTweak f) (rHashFuncs f)
  else f.
(** One bit of an entry. *)
Definition put_bit (v : list Z) (i bit b : Z) : list Z :=
  let i := Z.to_nat i in <[i := Z.lor (Z.land (nth i v 0) (Z.lnot (Z.shiftl 1 bit))) (Z.shiftl b bit)]> v.
Definition put_entry (g : Z) (v : list Z) (h : Z) : list Z :=
  let bit := Z.land h 0x3F in
  let pos := Z.shiftr h 6 mod Z.of_nat (length v) in
  let v := put_bit v (Z.land pos (Z.lnot 1)) bit (Z.land g 1) in
  put_bit v (Z.lor pos 1) bit (Z.shiftr g 1).
Definition rolling_hashes (f : CRollingBloomFilter) (vKey : list Z) : list Z :=
  map (fun n => RollingBloomHash (Z.of_nat n) (rTweak f) vKey) (seq 0 (Z.to_nat (rHashFuncs f))).
Definition rolling_insert (f : CRollingBloomFilter) (vKey : list Z) : CRollingBloomFilter :=
  let f := next_generation f in
  mkRolling (nEntriesPerGeneration f) (nEntriesThisGeneration f + 1) (nGeneration f)
    (fold_left (put_entry (nGeneration f)) (rolling_hashes f vKey) (data f)) (rTweak f) (rHashFuncs f).
Definition rolling_contains (f : CRollingBloomFilter) (vKey : list Z) : bool :=
  forallb (fun h =>
    let bit := Z.land h 0x3F in
    let pos := Z.shiftr h 6 mod Z.of_nat (length (data f)) in
    let word i := nth (Z.to_nat i) (data f) 0 in
    negb (Z.land (Z.shiftr (Z.lor (word (Z.land pos (Z.lnot 1))) (word (Z.lor pos 1))) bit) 1 =? 0)) (rolling_hashes f vKey).
Definition rolling_reset (f : CRollingBloomFilter) (tweak : Z) : CRollingBloomFilter :=
  mkRolling (nEntriesPerGeneration f) 0 1 (map (fun _ => 0) (data f)) tweak (rHashFuncs f).

(** ** Lemmas: the filter *)

Lemma lxor_u32 x y : is_u32 x -> is_u32 y -> is_u32 (Z.lxor x y).
Proof.
  intros [X0 X1] [Y0 Y1]. assert (N : 0 <= Z.lxor x y) by (apply Z.lxor_nonneg; lia). split; [done|]. apply bits_lt_pow2; [lia|done|].
  intros i Hi. by rewrite Z.lxor_spec, (testbit_above 32 x), (testbit_above 32 y) by done.
Qed.
Lemma MurmurHash3_range seed v : is_u32 (MurmurHash3 seed v).
Proof.
  unfold MurmurHash3, murmur_final. cbv zeta. match goal with |- is_u32 (Z.lxor (u32 ?a) _) => pose proof (u32_range a) end.
  apply lxor_u32; [done|]. rewrite shiftr_div by lia. unfold is_u32. split; [apply Z.div_pos; lia|]. apply Z.div_lt_upper_bound; lia.
Qed.
Lemma land_7 j : Z.land 7 j = j mod 8.
Proof. rewrite Z.land_comm. exact (land_mask 3 j ltac:(lia)). Qed.
(** A bit of a vector of words of [w] bits. *)
Definition bit_of (w : Z) (v : list Z) (j : Z) : bool := Z.testbit (nth (Z.to_nat (j / w)) v 0) (j mod w).

Lemma get_bit_correct v j : 0 <= j -> get_bit_at v j = bit_of 8 v j.
Proof.
  intros J. unfold get_bit_at, bit_of. rewrite shiftr_div, land_7 by lia. change (2 ^ 3) with 8.
  rewrite Z.shiftl_1_l, land_pow2 by (apply Z.mod_pos_bound; lia). by rewrite negb_involutive.
Qed.
Lemma set_bit_correct v j k : 0 <= j < 8 * Z.of_nat (length v) -> 0 <= k ->
  length (set_bit_at v j) = length v /\ bit_of 8 (set_bit_at v j) k = (k =? j) || bit_of 8 v k.
Proof.
  intros J K. unfold set_bit_at, bit_of. rewrite shiftr_div, land_7 by lia.
  change (2 ^ 3) with 8. rewrite length_insert. split; [done|].
  destruct (Z.eq_dec (k / 8) (j / 8)) as [E|E].
  - rewrite E, nth_insert_eq by (zdm; lia). rewrite Z.shiftl_1_l, Z.lor_spec, Z.pow2_bits_eqb by (apply Z.mod_pos_bound; lia).
    rewrite orb_comm. f_equal. destruct (Z.eqb_spec (j mod 8) (k mod 8)), (Z.eqb_spec k j); (done || zdm; lia).
  - rewrite nth_insert_ne by (intros X; apply Z2Nat.inj in X; zdm; lia). destruct (Z.eqb_spec k j); [by subst|done].
Qed.

(** [ks] set the bit [j]. *)
Definition bloom_hit (f : CBloomFilter) (ks : list (list Z)) (j : Z) : Prop :=
  exists k i, In k ks /\ In i (hash_nums f) /\ bloom_Hash f i k = j.
(** Same size, functions and tweak: the same indices. *)
Definition same_shape (f g : CBloomFilter) : Prop :=
  length (vData f) = length (vData g) /\ nHashFuncs f = nHashFuncs g /\ nTweak f = nTweak g /\ nFlags f = nFlags g.

Lemma same_shape_Hash f g : same_shape f g -> hash_nums f = hash_nums g /\ forall i k, bloom_Hash f i k = bloom_Hash g i k.
Proof. intros (L & N & T & _). unfold hash_nums, bloom_Hash. rewrite L, N, T. done. Qed.
Lemma bloom_Hash_range f i k : vData f <> [] -> 0 <= bloom_Hash f i k < 8 * Z.of_nat (length (vData f)).
Proof.
  intros N. unfold bloom_Hash. assert (0 < Z.of_nat (length (vData f))) by (destruct (vData f); [done|simpl; lia]).
  rewrite (Z.mul_comm 8). apply Z.mod_pos_bound. lia.
Qed.
Lemma set_bits_correct js : forall v k, Forall (fun j => 0 <= j < 8 * Z.of_nat (length v)) js -> 0 <= k ->
  let v' := fold_left set_bit_at js v in length v' = length v /\ (bit_of 8 v' k = true <-> In k js \/ bit_of 8 v k = true).
Proof.
  induction js as [|j js IH]; intros v k J K; simpl; [split; [done|tauto]|]. apply Forall_cons in J as [J Js].
  destruct (set_bit_correct v j k J K) as [L B]. destruct (IH (set_bit_at v j) k) as [L' B']; [by rewrite L|done|].
  rewrite L', L. split; [done|]. rewrite B', B. rewrite orb_true_iff, Z.eqb_eq. assert (j = k <-> k = j) by (split; congruence). tauto.
Qed.
(** What a filter that is not reset goes through: an insertion, a refresh of its marks,
    a message and the refresh that [filterload] makes. *)
Inductive bloom_op := Bloom_add (vKey : list Z) | Bloom_refresh | Bloom_reload.
Definition bloom_step (f : CBloomFilter) (op : bloom_op) : option CBloomFilter :=
  match op with
  | Bloom_add k => Some (bloom_insert f k)
  | Bloom_refresh => Some (UpdateEmptyFull f)
  | Bloom_reload =>
      match Bloom_Unserialize (Bloom_Serialize f) with
      | Some (f, []) => if IsWithinSizeConstraints f then Some (UpdateEmptyFull f) else None
      | _ => None
      end
  end.
Fixpoint bloom_run (f : CBloomFilter) (ops : list bloom_op) : option CBloomFilter :=
  match ops with [] => Some f | op :: ops => f ← bloom_step f op; bloom_run f ops end.
Definition bloom_keys (ops : list bloom_op) : list (list Z) := flat_map (fun op => match op with Bloom_add k => [k] | _ => [] end) ops.

Definition bloom_ok (f : CBloomFilter) : Prop :=
  vData f <> [] /\ Z.of_nat (length (vData f)) <= MAX_BLOOM_FILTER_SIZE /\ 0 < nHashFuncs f <= MAX_HASH_FUNCS /\ is_u32 (nTweak f) /\ is_u8 (nFlags f).
(** The filter holds exactly the bits of [ks], and its marks are right. *)
Definition bloom_holds (f0 f : CBloomFilter) (ks : list (list Z)) : Prop :=
  same_shape f0 f /\ bloom_ok f /\
  (forall j, 0 <= j < 8 * Z.of_nat (length (vData f0)) -> (bit_of 8 (vData f) j = true <-> bloom_hit f0 ks j)) /\
  (isFull f = true -> forall j, 0 <= j < 8 * Z.of_nat (length (vData f0)) -> bit_of 8 (vData f) j = true) /\
  (isEmpty f = true -> ks = []).

Lemma hash_nums_nonempty f : 0 < nHashFuncs f -> In 0 (hash_nums f).
Proof. intros P. unfold hash_nums. apply in_map_iff. exists 0%nat. split; [done|]. apply in_seq. lia. Qed.
Lemma bloom_hit_app f ks k j : bloom_hit f (ks ++ [k]) j <-> bloom_hit f ks j \/ In j (map (fun i => bloom_Hash f i k) (hash_nums f)).
Proof.
  unfold bloom_hit. rewrite in_map_iff. split.
  - intros (k' & i & [K|[<-|[]]]%in_app_iff & I & J); [left|right]; eauto.
  - intros [(k' & i & K & I & J)|(i & J & I)]; [exists k', i|exists k, i]; rewrite in_app_iff; simpl; auto.
Qed.
Lemma fold_left_map {A B C} (g : A -> C -> A) (h : B -> C) l : forall a, fold_left (fun a b => g a (h b)) l a = fold_left g (map h l) a.
Proof. induction l; intros; simpl; auto. Qed.

Lemma insert_holds f0 f ks k : bloom_holds f0 f ks -> bloom_holds f0 (bloom_insert f k) (ks ++ [k]).
Proof.
  intros (S & K & B & Fu & Em). unfold bloom_insert. destruct (isFull f) eqn:E.
  - specialize (Fu eq_refl). split; [done|split; [done|split; [|split; [done|]]]].
    + intros j Hj. rewrite bloom_hit_app, <- (B j Hj). rewrite (Fu j Hj). tauto.
    + intros X. assert (P : 0 <= 0 < 8 * Z.of_nat (length (vData f0))).
      { rewrite (proj1 S). destruct K as [K _]. destruct (vData f); [done|simpl; lia]. }
      rewrite (Em X) in B. by destruct (proj1 (B 0 P) (Fu 0 P)) as (? & ? & [] & _).
  - rewrite (fold_left_map set_bit_at (fun i => bloom_Hash f i k)).
    set (js := map _ _). assert (J : Forall (fun j => 0 <= j < 8 * Z.of_nat (length (vData f))) js).
    { apply List.Forall_forall. intros j (i & <- & _)%in_map_iff. apply bloom_Hash_range, K. }
    assert (Q : forall j, 0 <= j -> _) by (intros j; exact (set_bits_correct js (vData f) j J)). cbv zeta in Q.
    destruct (Q 0 ltac:(lia)) as [L _]. unfold bloom_holds, same_shape, bloom_ok. cbn [vData isFull isEmpty nHashFuncs nTweak nFlags]. rewrite L.
    destruct (same_shape_Hash _ _ S) as [HN HH].
    split; [exact S|]. split; [|split; [|done]].
    + destruct K as (K1 & K2). split; [|done]. intros X. apply (f_equal length) in X. rewrite L in X. by destruct (vData f).
    + intros j Hj. rewrite (proj2 (Q j ltac:(lia))), bloom_hit_app, (B j Hj), HN.
      rewrite (map_ext _ _ (fun i => HH i k)). unfold js. tauto.
Qed.

Lemma bit_of_nth v w j : 0 < w -> 0 <= j < w * Z.of_nat (length v) -> exists x, In x v /\ bit_of w v j = Z.testbit x (j mod w).
Proof.
  intros W J. exists (nth (Z.to_nat (j / w)) v 0). split; [|done]. apply nth_In. apply Nat2Z.inj_lt. rewrite Z2Nat.id by (apply Z.div_pos; lia).
  apply Z.div_lt_upper_bound; lia.
Qed.
Lemma refresh_holds f0 f ks : bloom_holds f0 f ks -> bloom_holds f0 (UpdateEmptyFull f) ks.
Proof.
  intros (S & K & B & _). destruct (same_shape_Hash _ _ S) as [HN _]. unfold bloom_holds, UpdateEmptyFull, same_shape, bloom_ok.
  cbn [vData isFull isEmpty nHashFuncs nTweak nFlags]. split; [exact S|split; [exact K|split; [exact B|split]]]; rewrite (proj1 S) in *.
  - intros X j Hj. destruct (bit_of_nth (vData f) 8 j ltac:(lia) ltac:(lia)) as (x & I & ->). rewrite forallb_forall in X. apply X, Z.eqb_eq in I.
    subst x. change 0xff with (Z.ones 8). apply Z.ones_spec_low. apply Z.mod_pos_bound. lia.
  - intros X. destruct ks as [|k ks]; [done|exfalso]. pose proof (bloom_Hash_range f 0 k (proj1 K)) as R.
    assert (Hb : bit_of 8 (vData f) (bloom_Hash f 0 k) = true).
    { apply (B _ R). exists k, 0. split; [left; done|]. split; [rewrite HN; apply hash_nums_nonempty, K|]. apply (proj2 (same_shape_Hash _ _ S)). }
    destruct (bit_of_nth (vData f) 8 _ ltac:(lia) R) as (x & I & E). rewrite E in Hb. rewrite forallb_forall in X. apply X, Z.eqb_eq in I.
    subst x. by rewrite Z.bits_0 in Hb.
Qed.
(** The message carries everything but the marks. *)
Lemma Bloom_Unserialize_roundtrip f s : bloom_ok f ->
  Bloom_Unserialize (Bloom_Serialize f ++ s) = Some (mkBloom (vData f) true false (nHashFuncs f) (nTweak f) (nFlags f), s).
Proof.
  intros (_ & L & N & T & F). unfold MAX_BLOOM_FILTER_SIZE, MAX_HASH_FUNCS in *. unfold Bloom_Unserialize, Bloom_Serialize. rewrite <- !app_assoc.
  rewrite (rd_bind_rt Serialize_bytes Unserialize_bytes _) by (unfold MAX_SIZE; lia).
  rewrite (rd_bind_rt ser_writedata32 ser_readdata32 _) by (unfold is_u32; lia).
  rewrite (rd_bind_rt ser_writedata32 ser_readdata32 _) by done.
  by rewrite (rd_bind_rt ser_writedata8 ser_readdata8 _) by done.
Qed.
Lemma bloom_step_holds f0 f op ks : bloom_holds f0 f ks -> exists f', bloom_step f op = Some f' /\ bloom_holds f0 f' (ks ++ bloom_keys [op]).
Proof.
  intros I. destruct op as [k| |]; simpl; rewrite ?app_nil_r.
  - eexists. split; [done|]. by apply insert_holds.
  - eexists. split; [done|]. by apply refresh_holds.
  - pose proof I as (S & K & B & _). rewrite <- (app_nil_r (Bloom_Serialize f)), Bloom_Unserialize_roundtrip by done.
    unfold IsWithinSizeConstraints. cbn [vData nHashFuncs]. destruct K as (K1 & K2 & K3 & K4).
    rewrite (proj2 (Z.leb_le _ _) K2), (proj2 (Z.leb_le _ _) (proj2 K3)). eexists. split; [done|]. by apply refresh_holds in I.
Qed.
Lemma bloom_run_holds f0 ops : forall f ks, bloom_holds f0 f ks -> exists f', bloom_run f ops = Some f' /\ bloom_holds f0 f' (ks ++ bloom_keys ops).
Proof.
  induction ops as [|op ops IH]; intros f ks I; simpl; [exists f; by rewrite app_nil_r|].
  destruct (bloom_step_holds f0 f op ks I) as (f' & -> & I'). destruct (IH f' _ I') as (f'' & R & I''). exists f''. split; [exact R|].
  rewrite <- app_assoc in I''. by destruct op.
Qed.
Lemma bloom_new_holds size funcs tweak flags : let f := CBloomFilter_new size funcs tweak flags in bloom_ok f -> bloom_holds f f [].
Proof.
  intros f K. split; [done|split; [done|split; [|done]]]. intros j Hj. split; [|intros (? & ? & [] & _)].
  destruct (bit_of_nth (vData f) 8 j ltac:(lia) Hj) as (x & I & ->). simpl in I. apply repeat_spec in I. subst x. by rewrite Z.bits_0.
Qed.

(** A key is contained exactly when every bit that it selects was set by an inserted key. *)
Definition bloom_matches (f : CBloomFilter) (ks : list (list Z)) (k : list Z) : Prop :=
  forall i, In i (hash_nums f) -> bloom_hit f ks (bloom_Hash f i k).

Lemma contains_holds f0 f ks k : bloom_holds f0 f ks -> (bloom_contains f k = true <-> bloom_matches f0 ks k).
Proof.
  intros (S & K & B & Fu & Em). destruct (same_shape_Hash _ _ S) as [HN HH]. assert (K' : vData f0 <> []).
  { destruct K as [K _]. destruct S as [S _]. intros X. rewrite X in S. by destruct (vData f). }
  assert (G : forall i, get_bit_at (vData f) (bloom_Hash f i k) = true <-> bloom_hit f0 ks (bloom_Hash f0 i k)).
  { intros i. pose proof (bloom_Hash_range f0 i k K'). rewrite <- HH, get_bit_correct by lia. by apply B. }
  unfold bloom_contains, bloom_matches. destruct (isFull f) eqn:E; [|destruct (isEmpty f) eqn:E'].
  - split; [|done]. intros _ i I. pose proof (bloom_Hash_range f0 i k K') as R. by apply (B _ R), Fu.
  - rewrite (Em eq_refl). split; [done|]. intros X.
    by destruct (X 0 ltac:(rewrite HN; apply hash_nums_nonempty, K)) as (? & ? & [] & _).
  - rewrite forallb_forall, HN. split; intros X i I; apply G, X, I.
Qed.

(** C37: A filter with some data and at least one hash function, tweak and flags in their widths, has no false negatives, and no other positives than those of its
    hash functions: after insertions, refreshes of the marks and reloads from a
    message, in any order, a key is contained exactly when each bit that it selects
    is one that an inserted key selects. In particular each inserted key is. Without hash
    functions this fails: [refresh_without_functions] loses an inserted key. *)
Theorem bloom_filter_exact size funcs tweak flags ops :
  let f := CBloomFilter_new size funcs tweak flags in bloom_ok f ->
  exists f', bloom_run f ops = Some f' /\
    (forall k, bloom_contains f' k = true <-> bloom_matches f (bloom_keys ops) k) /\
    (forall k, In k (bloom_keys ops) -> bloom_contains f' k = true).
Proof.
  intros f K. destruct (bloom_run_holds f ops f [] (bloom_new_holds _ _ _ _ K)) as (f' & R & H). exists f'.
  split; [exact R|]. split; intros k; [exact (contains_holds _ _ _ k H)|].
  intros I. apply (contains_holds _ _ _ k H). intros i Hi. exists k, i. done.
Qed.
Lemma bloom_filter_exact_witness :
  let f := CBloomFilter_new 3 5 0 1 in let ops := [Bloom_add [0x99; 0x10]; Bloom_reload; Bloom_refresh; Bloom_add [0xb5; 0xa2; 0x78]] in
  bloom_ok f /\ exists f', bloom_run f ops = Some f' /\
    (forall k, bloom_contains f' k = true <-> bloom_matches f (bloom_keys ops) k) /\
    (forall k, In k (bloom_keys ops) -> bloom_contains f' k = true).
Proof.
  cbv zeta. assert (K : bloom_ok (CBloomFilter_new 3 5 0 1)) by (split; [done|unfold MAX_BLOOM_FILTER_SIZE, MAX_HASH_FUNCS, is_u32, is_u8; simpl; lia]).
  split; [exact K|]. exact (bloom_filter_exact 3 5 0 1 [Bloom_add [0x99; 0x10]; Bloom_reload; Bloom_refresh; Bloom_add [0xb5; 0xa2; 0x78]] K).
Defined.
(** Without hash functions the refresh takes a filter with insertions for an empty one. *)
Example refresh_without_functions :
  let f := bloom_insert (CBloomFilter_new 3 0 0 0) [1] in bloom_contains f [1] = true /\ bloom_contains (UpdateEmptyFull f) [1] = false.
Proof. vm_compute. auto. Qed.
(** The vector of bloom_tests.cpp: three keys in a filter of three bytes and five functions. *)
Example bloom_vector :
  let f := fold_left bloom_insert [ [0x99; 0x10; 0x8a; 0xd8; 0xed; 0x9b; 0xb6; 0x27; 0x4d; 0x39; 0x80; 0xba; 0xb5; 0xa8; 0x5c; 0x04; 0x8f; 0x09; 0x50; 0xc8];
    [0xb5; 0xa2; 0xc7; 0x86; 0xd9; 0xef; 0x46; 0x58; 0x28; 0x7c; 0xed; 0x59; 0x14; 0xb3; 0x7a; 0x1b; 0x4a; 0xa3; 0x2e; 0xee];
    [0xb9; 0x30; 0x06; 0x70; 0xb4; 0xc5; 0x36; 0x6e; 0x95; 0xb2; 0x69; 0x9e; 0x8b; 0x18; 0xbc; 0x75; 0xe5; 0xf7; 0x29; 0xc5] ] (CBloomFilter_new 3 5 0 1) in
  Bloom_Serialize f = [0x03; 0x61; 0x4e; 0x9b; 0x05; 0; 0; 0; 0; 0; 0; 0; 0x01].
Proof. vm_compute. reflexivity. Qed.

(** ** Lemmas: the rolling filter *)

(** The two bits of a slot, and the bits of a generation number. *)
Definition slot (v : list Z) (p : nat) (k : Z) : bool * bool := (Z.testbit (nth (2 * p) v 0) k, Z.testbit (nth (2 * p + 1) v 0) k).
Definition gen_bits (g : Z) : bool * bool := (Z.testbit g 0, Z.testbit g 1).
Definition generation (g : Z) : Prop := g = 1 \/ g = 2 \/ g = 3.
(** The generation before [g]; the one before that is the next one. *)
Definition prev_gen (g : Z) : Z := if g =? 1 then 3 else g - 1.
Definition next_gen (g : Z) : Z := if g + 1 =? 4 then 1 else g + 1.
(** The slot of a hash, among [n] words. *)
Definition loc_pair (n h : Z) : nat := Z.to_nat (Z.shiftr h 6 mod n / 2).
Definition loc_bit (h : Z) : Z := h mod 64.

Lemma gen_cycle g : generation g ->
  generation (next_gen g) /\ generation (prev_gen g) /\ prev_gen (next_gen g) = g /\ prev_gen (prev_gen g) = next_gen g /\
  gen_bits (next_gen g) <> gen_bits g /\ gen_bits (next_gen g) <> gen_bits (prev_gen g) /\ gen_bits g <> (false, false).
Proof. unfold generation. intros [-> | [-> | ->]]; cbv; repeat split; (auto || discriminate). Qed.
Lemma mask_bit b k : (b = 0 \/ b = 1) -> 0 <= k < 64 -> Z.testbit (u64 (0 - b)) k = Z.testbit b 0.
Proof. intros [-> | ->] K; [apply Z.bits_0|]. change (u64 (0 - 1)) with (Z.ones 64). by rewrite Z.ones_spec_low. Qed.
Lemma gen_masks g k : generation g -> 0 <= k < 64 ->
  Z.testbit (u64 (0 - Z.land g 1)) k = fst (gen_bits g) /\ Z.testbit (u64 (0 - Z.shiftr g 1)) k = snd (gen_bits g).
Proof. intros G K. destruct G as [-> | [-> | ->]]; rewrite !mask_bit by (cbv; auto); done. Qed.

Lemma pair_ind (P : list Z -> Prop) : P [] -> (forall x, P [x]) -> (forall x y l, P l -> P (x :: y :: l)) -> forall l, P l.
Proof. intros P0 P1 P2. fix IH 1. intros [|x [|y l]]; [exact P0|apply P1|apply P2, IH]. Qed.
Lemma slot_cons x y l p k : slot (x :: y :: l) (S p) k = slot l p k.
Proof. unfold slot. replace (2 * S p)%nat with (S (S (2 * p))) by lia. done. Qed.
Lemma wipe_length m1 m2 v : length (wipe m1 m2 v) = length v.
Proof. induction v as [|x|x y l IH] using pair_ind; simpl; lia. Qed.
Lemma wipe_slot g v p k : generation g -> 0 <= k < 64 -> (2 * p + 1 < length v)%nat ->
  slot (wipe (u64 (0 - Z.land g 1)) (u64 (0 - Z.shiftr g 1)) v) p k = if bool_decide (slot v p k = gen_bits g) then (false, false) else slot v p k.
Proof.
  intros G K. revert p. induction v as [|x|x y l IH] using pair_ind; intros p L; simpl in L; [lia..|].
  simpl wipe. destruct p as [|p]; [|rewrite !slot_cons; apply IH; lia].
  unfold slot. simpl. rewrite !Z.land_spec, !Z.lor_spec, !Z.lxor_spec. destruct (gen_masks g k G K) as [-> ->].
  destruct (gen_bits g) as [[] []], (Z.testbit x k), (Z.testbit y k); reflexivity.
Qed.

Lemma put_bit_correct v i bit b j k : 0 <= i < Z.of_nat (length v) -> 0 <= bit -> 0 <= k -> (b = 0 \/ b = 1) ->
  Z.testbit (nth j (put_bit v i bit b) 0) k = if decide (j = Z.to_nat i /\ k = bit) then Z.testbit b 0 else Z.testbit (nth j v 0) k.
Proof.
  intros I Hb K B. unfold put_bit. destruct (decide (j = Z.to_nat i)) as [->|N].
  - rewrite nth_insert_eq by lia. rewrite Z.lor_spec, Z.land_spec, Z.lnot_spec by done.
    rewrite !Z.shiftl_spec by done. destruct (decide (k = bit)) as [->|N].
    + rewrite decide_True by done. rewrite Z.sub_diag. simpl. by rewrite andb_false_r.
    + rewrite decide_False by tauto. destruct (Z.ltb_spec k bit).
      * rewrite (Z.testbit_neg_r 1), (Z.testbit_neg_r b) by lia. simpl. by rewrite andb_true_r, orb_false_r.
      * rewrite (testbit_above 1 1), (testbit_above 1 b) by (destruct B as [-> | ->]; lia). simpl. by rewrite andb_true_r, orb_false_r.
  - rewrite nth_insert_ne by done. by rewrite decide_False by tauto.
Qed.

Lemma loc_words n h : 0 <= h -> 0 < n -> Z.even n = true -> let pos := Z.shiftr h 6 mod n in
  Z.to_nat (Z.land pos (Z.lnot 1)) = (2 * loc_pair n h)%nat /\ Z.to_nat (Z.lor pos 1) = (2 * loc_pair n h + 1)%nat /\
  0 <= Z.land pos (Z.lnot 1) < n /\ 0 <= Z.lor pos 1 < n /\ (2 * loc_pair n h + 1 < Z.to_nat n)%nat.
Proof.
  intros H N E pos. assert (P : 0 <= pos < n) by (apply Z.mod_pos_bound; lia). apply Z.even_spec in E as [m M].
  assert (A : Z.land pos (Z.lnot 1) = 2 * (pos / 2)).
  { change (Z.land pos (Z.lnot 1)) with (Z.land pos (Z.lnot (Z.ones 1))). rewrite <- Z.ldiff_land, Z.ldiff_ones_r by lia.
    rewrite shiftr_div, shiftl_mul by lia. lia. }
  assert (B : Z.lor pos 1 = 2 * (pos / 2) + 1).
  { apply Z.bits_inj'. intros i Hi. rewrite Z.lor_spec. destruct (Z.eq_dec i 0) as [->|Ni].
    - rewrite Z.testbit_odd_0. simpl. by rewrite orb_true_r.
    - replace i with (Z.succ (i - 1)) by lia. rewrite Z.testbit_odd_succ by lia.
      rewrite Z.div2_bits by lia.
      assert (Q : Z.testbit 1 (Z.succ (i - 1)) = false) by (apply (testbit_above 1); lia). by rewrite Q, orb_false_r. }
  unfold loc_pair. fold pos. rewrite A, B. zdm. lia.
Qed.
Lemma put_entry_length g v h : length (put_entry g v h) = length v.
Proof. unfold put_entry, put_bit. by rewrite !length_insert. Qed.
Lemma loc_bit_range h : 0 <= loc_bit h < 64.
Proof. apply Z.mod_pos_bound. lia. Qed.
Lemma land_63 h : Z.land h 0x3F = loc_bit h.
Proof. exact (land_mask 6 h ltac:(lia)). Qed.
Lemma put_entry_slot g v h p k : generation g -> 0 <= h -> (0 < length v)%nat -> Z.even (Z.of_nat (length v)) = true -> 0 <= k ->
  slot (put_entry g v h) p k = if decide (p = loc_pair (Z.of_nat (length v)) h /\ k = loc_bit h) then gen_bits g else slot v p k.
Proof.
  intros G H L E K. destruct (loc_words (Z.of_nat (length v)) h H ltac:(lia) E) as (W0 & W1 & R0 & R1 & _).
  pose proof (loc_bit_range h) as Hb. unfold put_entry. rewrite land_63.
  assert (B : (Z.land g 1 = 0 \/ Z.land g 1 = 1) /\ (Z.shiftr g 1 = 0 \/ Z.shiftr g 1 = 1)) by (destruct G as [-> | [-> | ->]]; cbv; auto).
  assert (GB : gen_bits g = (Z.testbit (Z.land g 1) 0, Z.testbit (Z.shiftr g 1) 0)) by (destruct G as [-> | [-> | ->]]; done).
  unfold slot. rewrite !(put_bit_correct (put_bit _ _ _ _)) by (unfold put_bit; rewrite ?length_insert; (lia || tauto)).
  rewrite !put_bit_correct by (lia || tauto). rewrite W0, W1, GB.
  destruct (decide (p = loc_pair (Z.of_nat (length v)) h /\ k = loc_bit h)) as [[-> ->]|N].
  - rewrite (decide_False (P := (2 * _)%nat = (2 * _ + 1)%nat /\ _)) by lia. rewrite !decide_True by lia. done.
  - rewrite !decide_False by lia. done.
Qed.

(** One of [ks] sets the slot. The words, the functions and the tweak do not change between resets. *)
Definition slot_hit (f : CRollingBloomFilter) (ks : list (list Z)) (p : nat) (k : Z) : bool :=
  existsb (fun key => existsb (fun h => (loc_pair (Z.of_nat (length (data f))) h =? p)%nat && (loc_bit h =? k)) (rolling_hashes f key)) ks.
Definition rolling_ok (f : CRollingBloomFilter) : Prop :=
  0 < nEntriesPerGeneration f /\ (0 < length (data f))%nat /\ Z.even (Z.of_nat (length (data f))) = true.
Definition same_rolling (f g : CRollingBloomFilter) : Prop :=
  nEntriesPerGeneration f = nEntriesPerGeneration g /\ length (data f) = length (data g) /\ rTweak f = rTweak g /\ rHashFuncs f = rHashFuncs g.
(** The generation of a slot is that of the last keys that set it. *)
Definition slot_generation (f : CRollingBloomFilter) (g : Z) (cur p1 p2 : list (list Z)) (p : nat) (k : Z) : bool * bool :=
  if slot_hit f cur p k then gen_bits g
  else if slot_hit f p1 p k then gen_bits (prev_gen g)
  else if slot_hit f p2 p k then gen_bits (next_gen g)
  else (false, false).
Definition slots_hold (f0 f : CRollingBloomFilter) (cur p1 p2 : list (list Z)) : Prop :=
  forall p k, (2 * p + 1 < length (data f0))%nat -> 0 <= k < 64 -> slot (data f) p k = slot_generation f0 (nGeneration f) cur p1 p2 p k.
Definition rolling_holds (f0 f : CRollingBloomFilter) (ks : list (list Z)) : Prop :=
  same_rolling f0 f /\ generation (nGeneration f) /\
  exists older p2 p1 cur, ks = older ++ p2 ++ p1 ++ cur /\ slots_hold f0 f cur p1 p2 /\
    nEntriesThisGeneration f = Z.of_nat (length cur) /\ nEntriesThisGeneration f <= nEntriesPerGeneration f /\
    (ks = [] <-> cur = []) /\
    (Z.of_nat (length p1) = nEntriesPerGeneration f \/ p1 = [] /\ p2 = [] /\ older = []) /\
    (Z.of_nat (length p2) = nEntriesPerGeneration f \/ p2 = [] /\ older = []).

Lemma same_rolling_hashes f g key : same_rolling f g -> rolling_hashes f key = rolling_hashes g key.
Proof. intros (_ & _ & T & N). unfold rolling_hashes. by rewrite T, N. Qed.
Lemma rolling_hashes_range f key h : In h (rolling_hashes f key) -> 0 <= h.
Proof. intros (n & <- & _)%in_map_iff. pose proof (MurmurHash3_range (u32 (Z.of_nat n * 0xFBA4C795 + rTweak f)) key) as [R _]. exact R. Qed.
Lemma slot_hit_app f a b p k : slot_hit f (a ++ b) p k = slot_hit f a p k || slot_hit f b p k.
Proof. apply existsb_app. Qed.

Lemma wipe_holds f0 f cur p1 p2 : generation (nGeneration f) -> same_rolling f0 f -> slots_hold f0 f cur p1 p2 ->
  nEntriesThisGeneration f = nEntriesPerGeneration f ->
  let f' := next_generation f in
  same_rolling f0 f' /\ nGeneration f' = next_gen (nGeneration f) /\ nEntriesThisGeneration f' = 0 /\ slots_hold f0 f' [] cur p1.
Proof.
  intros G S H E f'. unfold f', next_generation, slots_hold. rewrite (proj2 (Z.eqb_eq _ _) E).
  destruct (gen_cycle _ G) as (G' & _ & P1 & P2 & N1 & N2 & _). cbn -[wipe]. fold (next_gen (nGeneration f)).
  split; [|split; [done|split; [done|]]].
  - destruct S as (S1 & S2 & S3). unfold same_rolling. cbn -[wipe]. by rewrite wipe_length.
  - intros p k L K. rewrite wipe_slot by (done || by rewrite <- (proj1 (proj2 S))). rewrite (H p k L K). unfold slot_generation.
    rewrite P1. assert (P3 : next_gen (next_gen (nGeneration f)) = prev_gen (nGeneration f)).
    { clear -G. destruct G as [-> | [-> | ->]]; done. }
    rewrite P3. simpl. destruct (slot_hit f0 cur p k); [by rewrite bool_decide_false|].
    destruct (slot_hit f0 p1 p k); [by rewrite bool_decide_false|].
    destruct (slot_hit f0 p2 p k); [by rewrite bool_decide_true|].
    rewrite bool_decide_false; [done|]. clear -G'. intros X. destruct G' as [X' | [X' | X']]; rewrite X' in X; done.
Qed.

Lemma put_entries_slot g n hs : forall v p k, generation g -> (forall h, In h hs -> 0 <= h) -> n = Z.of_nat (length v) -> 0 < n -> Z.even n = true -> 0 <= k ->
  let v' := fold_left (put_entry g) hs v in
  length v' = length v /\
  slot v' p k = if existsb (fun h => (loc_pair n h =? p)%nat && (loc_bit h =? k)) hs then gen_bits g else slot v p k.
Proof.
  induction hs as [|h hs IH]; intros v p k G H L N E K; [done|]. simpl. subst n.
  destruct (IH (put_entry g v h) p k G (fun h I => H h (or_intror I))) as [L' S']; rewrite ?put_entry_length; try done.
  split; [by rewrite L', put_entry_length|]. rewrite S', put_entry_slot by (done || lia || apply H; by left).
  destruct (Nat.eqb_spec (loc_pair (Z.of_nat (length v)) h) p), (Z.eqb_spec (loc_bit h) k); simpl;
    [rewrite decide_True by done; by destruct (existsb _ hs)|rewrite decide_False by (intros []; congruence); done..].
Qed.
Lemma put_key_holds f0 f cur p1 p2 key : rolling_ok f0 -> generation (nGeneration f) -> same_rolling f0 f -> slots_hold f0 f cur p1 p2 ->
  let f' := mkRolling (nEntriesPerGeneration f) (nEntriesThisGeneration f + 1) (nGeneration f)
    (fold_left (put_entry (nGeneration f)) (rolling_hashes f key) (data f)) (rTweak f) (rHashFuncs f) in
  same_rolling f0 f' /\ slots_hold f0 f' (cur ++ [key]) p1 p2.
Proof.
  intros (_ & D & E) G S H f'. pose proof (proj1 (proj2 S)) as L.
  assert (Q : forall p k, 0 <= k -> _) by (intros p k;
    exact (put_entries_slot (nGeneration f) _ (rolling_hashes f key) (data f) p k G (rolling_hashes_range f key) eq_refl ltac:(lia) ltac:(by rewrite <- L))).
  cbv zeta in Q. split.
  - destruct S as (S1 & S2 & S3). split; [exact S1|split; [|exact S3]]. simpl. by rewrite (proj1 (Q O 0 ltac:(lia))).
  - intros p k Lp K. simpl. rewrite (proj2 (Q p k ltac:(lia))), (H p k Lp K). unfold slot_generation. rewrite slot_hit_app.
    assert (X : slot_hit f0 [key] p k = existsb (fun h => (loc_pair (Z.of_nat (length (data f))) h =? p)%nat && (loc_bit h =? k)) (rolling_hashes f key)).
    { unfold slot_hit. simpl. by rewrite orb_false_r, L, (same_rolling_hashes _ _ key S). }
    rewrite X. by destruct (existsb _ (rolling_hashes f key)), (slot_hit f0 cur p k).
Qed.
Lemma rolling_insert_holds f0 f ks key : rolling_ok f0 -> rolling_holds f0 f ks -> rolling_holds f0 (rolling_insert f key) (ks ++ [key]).
Proof.
  intros K (S & G & older & p2 & p1 & cur & -> & H & T & B & C & F1 & F2). unfold rolling_insert.
  destruct (Z.eq_dec (nEntriesThisGeneration f) (nEntriesPerGeneration f)) as [E|E].
  - destruct (wipe_holds f0 f cur p1 p2 G S H E) as (S' & G' & T' & H'). pose proof (proj1 (gen_cycle _ G)) as G1. rewrite <- G' in G1.
    destruct (put_key_holds f0 _ [] cur p1 key K G1 S' H') as [S2 H2]. split; [exact S2|split; [exact G1|]].
    exists (older ++ p2), p1, cur, [key]. cbn [nEntriesThisGeneration nEntriesPerGeneration]. rewrite T'. rewrite <- (proj1 S') in *. destruct K as [K _].
    split; [by rewrite <- !app_assoc|]. split; [exact H2|]. rewrite <- (proj1 S) in *. simpl.
    split; [done|split; [lia|split; [split; intros X; [by destruct (older ++ p2 ++ p1 ++ cur)|done]|split; [left; lia|]]]].
    destruct F1 as [F1|(-> & -> & ->)]; [by left|by right].
  - assert (N : next_generation f = f) by (unfold next_generation; by destruct (Z.eqb_spec (nEntriesThisGeneration f) (nEntriesPerGeneration f))). rewrite N.
    destruct (put_key_holds f0 f cur p1 p2 key K G S H) as [S2 H2]. split; [exact S2|split; [exact G|]].
    exists older, p2, p1, (cur ++ [key]). cbn [nEntriesThisGeneration nEntriesPerGeneration]. rewrite <- !app_assoc. split; [done|]. split; [exact H2|].
    rewrite length_app. simpl. split; [lia|split; [lia|split; [|done]]]. split; intros X; apply (f_equal length) in X; rewrite !length_app in X; simpl in X; lia.
Qed.
Lemma rolling_inserts_hold f0 keys : forall f ks, rolling_ok f0 -> rolling_holds f0 f ks -> rolling_holds f0 (fold_left rolling_insert keys f) (ks ++ keys).
Proof.
  induction keys as [|key keys IH]; intros f ks K H; simpl; [by rewrite app_nil_r|].
  specialize (IH _ _ K (rolling_insert_holds f0 f ks key K H)). by rewrite <- app_assoc in IH.
Qed.
Lemma nth_cleared (l : list Z) i : nth i (map (fun _ => 0) l) 0 = 0.
Proof. revert i. induction l; intros []; simpl; auto. Qed.
Lemma rolling_reset_holds f tweak : rolling_ok f -> rolling_ok (rolling_reset f tweak) /\ rolling_holds (rolling_reset f tweak) (rolling_reset f tweak) [].
Proof.
  intros K. pose proof K as (K1 & K2 & K3). unfold rolling_ok, rolling_holds, rolling_reset. simpl. rewrite length_map. split; [done|].
  split; [done|split; [by left|]]. exists [], [], [], []. split; [done|]. split.
  2: { simpl. split; [done|split; [lia|split; [done|split; right; auto]]]. }
  intros p k L Hk. unfold slot_generation, slot. simpl. by rewrite !nth_cleared, Z.bits_0.
Qed.

(** The test of one hash: its slot is not of generation 0. *)
Definition rolling_window (f : CRollingBloomFilter) (ks : list (list Z)) : list (list Z) :=
  skipn (length ks - Z.to_nat (2 * nEntriesPerGeneration f + nEntriesThisGeneration f)) ks.
Lemma slot_test v h : 0 <= h -> (0 < length v)%nat -> Z.even (Z.of_nat (length v)) = true ->
  let pos := Z.shiftr h 6 mod Z.of_nat (length v) in
  negb (Z.land (Z.shiftr (Z.lor (nth (Z.to_nat (Z.land pos (Z.lnot 1))) v 0) (nth (Z.to_nat (Z.lor pos 1)) v 0)) (Z.land h 0x3F)) 1 =? 0) =
  negb (bool_decide (slot v (loc_pair (Z.of_nat (length v)) h) (loc_bit h) = (false, false))).
Proof.
  intros H L E pos. destruct (loc_words (Z.of_nat (length v)) h H ltac:(lia) E) as (W0 & W1 & _). fold pos in W0, W1. rewrite W0, W1, land_63.
  pose proof (loc_bit_range h). rewrite (land_pow2 _ 0) by lia. rewrite Z.shiftr_spec, Z.lor_spec by lia. simpl. unfold slot.
  by destruct (Z.testbit _ _), (Z.testbit _ _).
Qed.
Lemma slot_generation_hit f g cur p1 p2 p k : generation g ->
  negb (bool_decide (slot_generation f g cur p1 p2 p k = (false, false))) = slot_hit f (p2 ++ p1 ++ cur) p k.
Proof.
  intros G. destruct (gen_cycle g G) as (G1 & G2 & _ & _ & _ & _ & N). destruct (gen_cycle _ G1) as (_ & _ & _ & _ & _ & _ & N1).
  destruct (gen_cycle _ G2) as (_ & _ & _ & _ & _ & _ & N2). rewrite !slot_hit_app. unfold slot_generation.
  destruct (slot_hit f cur p k); [rewrite bool_decide_false by done; by rewrite !orb_true_r|].
  destruct (slot_hit f p1 p k); [rewrite bool_decide_false by done; by rewrite orb_true_r|].
  destruct (slot_hit f p2 p k); [by rewrite bool_decide_false|]. by rewrite bool_decide_true.
Qed.
(** The keys that the filter still answers for: two full generations and the current one. *)
Definition rolling_matches (f0 : CRollingBloomFilter) (ks : list (list Z)) (key : list Z) : Prop :=
  forall h, In h (rolling_hashes f0 key) -> slot_hit f0 ks (loc_pair (Z.of_nat (length (data f0))) h) (loc_bit h) = true.
Lemma rolling_contains_holds f0 f ks key : rolling_ok f0 -> rolling_holds f0 f ks ->
  (rolling_contains f key = true <-> rolling_matches f0 (rolling_window f ks) key).
Proof.
  intros (K1 & K2 & K3) (S & G & older & p2 & p1 & cur & -> & H & T & B & C & F1 & F2). pose proof (proj1 (proj2 S)) as L.
  assert (Wd : rolling_window f (older ++ p2 ++ p1 ++ cur) = p2 ++ p1 ++ cur).
  { unfold rolling_window. rewrite !length_app.
    replace (_ - _)%nat with (length older) by (destruct F1 as [F1|(-> & -> & ->)]; [destruct F2 as [F2|(-> & ->)]|]; simpl; lia).
    by rewrite skipn_app, skipn_all, Nat.sub_diag. }
  rewrite Wd. unfold rolling_contains, rolling_matches. cbv zeta. rewrite forallb_forall, <- (same_rolling_hashes f0 f key S), L.
  assert (Q : forall h, In h (rolling_hashes f0 key) -> _) by (intros h I; exact (slot_test (data f) h (rolling_hashes_range f0 key h I) ltac:(lia) ltac:(by rewrite <- L))).
  assert (R : forall h, In h (rolling_hashes f0 key) -> negb (bool_decide (slot (data f) (loc_pair (Z.of_nat (length (data f))) h) (loc_bit h) = (false, false)))
    = slot_hit f0 (p2 ++ p1 ++ cur) (loc_pair (Z.of_nat (length (data f))) h) (loc_bit h)).
  { intros h I. destruct (loc_words (Z.of_nat (length (data f0))) h (rolling_hashes_range f0 key h I) ltac:(lia) K3) as (_ & _ & _ & _ & P).
    rewrite L in P. rewrite (H _ (loc_bit h)) by (apply loc_bit_range || lia). by apply slot_generation_hit. }
  split; intros X h I; specialize (X h I); [rewrite <- R by done; rewrite <- Q by done|rewrite (Q h I), R by done]; exact X.
Qed.
Lemma slot_hit_member f0 ks key : In key ks -> rolling_matches f0 ks key.
Proof.
  intros I h Hh. apply existsb_exists. exists key. split; [done|]. apply existsb_exists. exists h. split; [done|].
  by rewrite Nat.eqb_refl, Z.eqb_refl.
Qed.

(** The rolling filter remembers exactly its last insertions: after a reset and any
    insertions, a key is contained exactly when each of its slots was set by one of the
    last [2 * E + t] keys, where [E] is the number of entries per generation and [t],
    from 1 to [E], that of the current one. So each of the last [2 * E + 1] keys is
    contained, and a key leaves no trace after [3 * E] others. *)
Theorem rolling_filter_exact f tweak ks : rolling_ok f ->
  let f0 := rolling_reset f tweak in let f' := fold_left rolling_insert ks f0 in
  (forall key, rolling_contains f' key = true <-> rolling_matches f0 (rolling_window f' ks) key) /\
  nEntriesPerGeneration f' = nEntriesPerGeneration f /\ nEntriesThisGeneration f' <= nEntriesPerGeneration f /\
  (ks <> [] -> 1 <= nEntriesThisGeneration f') /\
  (forall older recent key, ks = older ++ recent -> Z.of_nat (length recent) <= 2 * nEntriesPerGeneration f + 1 -> In key recent -> rolling_contains f' key = true).
Proof.
  intros K f0 f'. destruct (rolling_reset_holds f tweak K) as [K0 H0].
  pose proof (rolling_inserts_hold f0 ks f0 [] K0 H0) as H. fold f' in H. simpl in H.
  assert (X : forall key, rolling_contains f' key = true <-> rolling_matches f0 (rolling_window f' ks) key) by (intros key; by apply rolling_contains_holds).
  destruct H as (S & _ & old & p2 & p1 & cur & Hks & _ & T & B & C & _). pose proof (proj1 S) as N. simpl in N.
  assert (T1 : ks <> [] -> 1 <= nEntriesThisGeneration f').
  { intros Y. destruct cur; [destruct Y; by apply C|]. simpl in T. lia. }
  split; [exact X|split; [done|split; [lia|split; [exact T1|]]]].
  intros older recent key -> R I. apply X, slot_hit_member. unfold rolling_window. rewrite skipn_app. apply in_app_iff. right.
  assert (Y : older ++ recent <> []) by (destruct older; [by destruct recent|done]). specialize (T1 Y). rewrite length_app.
  replace (_ - _ - _)%nat with O by lia. done.
Qed.
Lemma rolling_filter_exact_witness :
  let f := CRollingBloomFilter_new 2 4 3 7 in let ks := [[1]; [2]; [3]; [4]; [5]] in
  rolling_ok f /\
  let f0 := rolling_reset f 9 in let f' := fold_left rolling_insert ks f0 in
  (forall key, rolling_contains f' key = true <-> rolling_matches f0 (rolling_window f' ks) key) /\
  nEntriesPerGeneration f' = nEntriesPerGeneration f /\ nEntriesThisGeneration f' <= nEntriesPerGeneration f /\
  (ks <> [] -> 1 <= nEntriesThisGeneration f') /\
  (forall older recent key, ks = older ++ recent -> Z.of_nat (length recent) <= 2 * nEntriesPerGeneration f + 1 -> In key recent -> rolling_contains f' key = true).
Proof.
  cbv zeta. assert (K : rolling_ok (CRollingBloomFilter_new 2 4 3 7)) by (split; [done|split; [simpl; lia|done]]).
  split; [exact K|]. exact (rolling_filter_exact (CRollingBloomFilter_new 2 4 3 7) 9 [[1]; [2]; [3]; [4]; [5]] K).
Defined.
Example rolling_vector :
  let f := fold_left rolling_insert [[1]; [2]; [3]; [4]; [5]] (rolling_reset (CRollingBloomFilter_new 2 4 3 7) 9) in
  map (rolling_contains f) [[1]; [2]; [3]; [4]; [5]] = [false; false; true; true; true].
Proof. vm_compute. reflexivity. Qed.
