(* ===== verification/Mempool.v ===== *)
(** * The memory pool

    txmempool.{h,cpp} with policy/feerate.{h,cpp}, policy/rbf.cpp and the transaction
    size of policy/policy.cpp: the entries with the statistics of their ancestors and
    descendants, the links between them, the index of the spent outpoints, and every
    operation that adds, removes or updates entries. An iterator is the hash of its
    entry; a set of iterators is ordered by hash. Fees, sizes and counts keep their
    width. The fee estimator, the signals and the lock are left out. *)

From stdpp Require Import gmap sorting.
From S2P Require Import Prelude ArithUint256 Serialize Compressor Transaction WitnessUtil TxCheck Coins.

(** ** Definitions *)

Abbreviation uint256 := (list Z).
Abbreviation setEntries := (gset (list Z)).

(** A failed assertion, the use of an iterator that is not valid, or a loop that does not end. *)
Inductive pool_error := assertion_failed | stale_iterator | no_fuel.

(** What the pool takes from a transaction: the hashes that it caches and the memory
    that it uses; [set_node] is the memory of a node of a set, and [nBytesPerSigOp] a setting. *)
Class PoolEnv := {
  GetHash : CTransaction -> uint256;
  GetWitnessHash : CTransaction -> uint256;
  RecursiveDynamicUsage : CTransaction -> Z;
  set_node : Z;
  nBytesPerSigOp : Z
}.

Definition double_of (z : Z) : Z :=
  let a := Z.abs z in
  if a <? 2 ^ 53 then z
  else
    let e := Z.log2 a - 52 in
    let q := Z.shiftr a e in
    let r := a - Z.shiftl q e in
    let half := Z.shiftl 1 (e - 1) in
    let q := if (half <? r) || ((r =? half) && Z.odd q) then q + 1 else q in
    Z.sgn z * Z.shiftl q e.
(** [CFeeRate]: satoshis per 1000 bytes; the size is at most [2^63 - 1]. *)
Definition CFeeRate_of (nFeePaid nBytes : Z) : res pool_error Z :=
  if nBytes <=? INT64_MAX then Ok (if 0 <? nBytes then Z.quot (i64 (nFeePaid * 1000)) nBytes else 0) else Err assertion_failed.
Definition GetFee (nSatoshisPerK nBytes : Z) : res pool_error Z :=
  if nBytes <=? INT64_MAX then
    let nFee := Z.quot (i64 (nSatoshisPerK * nBytes)) 1000 in
    Ok (if (nFee =? 0) && negb (nBytes =? 0)
        then if 0 <? nSatoshisPerK then 1 else if nSatoshisPerK <? 0 then -1 else nFee
        else nFee)
  else Err assertion_failed.
Definition GetFeePerK (nSatoshisPerK : Z) : res pool_error Z := GetFee nSatoshisPerK 1000.

(** *** Entries *)

Record LockPoints := mkLockPoints { lp_height : Z; lp_time : Z; maxInputBlock : option nat }.

Record CTxMemPoolEntry := mkPoolEntry {
  e_tx : CTransaction;
  nFee : Z;
  nTxWeight : Z;
  nUsageSize : Z;
  nTime : Z;
  entryHeight : Z;
  spendCoinbaseCount : Z;
  sigOpCost : Z;
  feeDelta : Z;
  lockPoints : LockPoints;
  nCountWithDescendants : Z;
  nSizeWithDescendants : Z;
  nModFeesWithDescendants : Z;
  nCountWithAncestors : Z;
  nSizeWithAncestors : Z;
  nModFeesWithAncestors : Z;
  nSigOpCostWithAncestors : Z;
  vTxHashesIdx : Z
}.

Section Entry.
Context {Env : PoolEnv}.

Definition GetVirtualTransactionSize (nWeight nSigOpCost : Z) : Z := Z.max nWeight (i64 (nSigOpCost * nBytesPerSigOp)).
Definition GetVirtualTransactionSizeDiscounted (nWeight numCoinbaseInputs nSigOpCost : Z) : Z :=
  let coinbaseInputsToDiscount := if numCoinbaseInputs >? 2 then numCoinbaseInputs - 2 else numCoinbaseInputs in
  let weightDiscount := u64 (60 * coinbaseInputsToDiscount) in
  let sigOpCostDiscount := u64 (1 * coinbaseInputsToDiscount) in
  let discountedWeight := if u64 nWeight >? weightDiscount then u64 nWeight - weightDiscount else u64 nWeight in
  let discountedSigOps := if u64 nSigOpCost >? sigOpCostDiscount then u64 nSigOpCost - sigOpCostDiscount else u64 nSigOpCost in
  i64 (Z.max discountedWeight (u64 (discountedSigOps * nBytesPerSigOp))).

Definition GetTxSize (e : CTxMemPoolEntry) : Z := u64 (GetVirtualTransactionSize (i64 (nTxWeight e)) (sigOpCost e)).
Definition GetTxSizeDiscounted (e : CTxMemPoolEntry) : Z :=
  u64 (GetVirtualTransactionSizeDiscounted (i64 (nTxWeight e)) (spendCoinbaseCount e) (sigOpCost e)).
Definition GetModifiedFee (e : CTxMemPoolEntry) : Z := i64 (nFee e + feeDelta e).
Definition GetSpendsCoinbase (e : CTxMemPoolEntry) : bool := spendCoinbaseCount e >? 0.

Definition GetTotalSize (tx : CTransaction) : Z := match SerializeTransaction true tx with Some b => u32 (Z.of_nat (length b)) | None => 0 end.
Definition CTxMemPoolEntry_new (tx : CTransaction) (fee time height coinbases sigops : Z) (lp : LockPoints) : CTxMemPoolEntry :=
  let weight := GetTotalSize tx in
  let sz := u64 (GetVirtualTransactionSize (i64 weight) sigops) in
  mkPoolEntry tx fee weight (RecursiveDynamicUsage tx) time height coinbases sigops 0 lp 1 sz fee 1 sz fee sigops 0.

Definition UpdateFeeDelta (newFeeDelta : Z) (e : CTxMemPoolEntry) : CTxMemPoolEntry :=
  mkPoolEntry (e_tx e) (nFee e) (nTxWeight e) (nUsageSize e) (nTime e) (entryHeight e) (spendCoinbaseCount e) (sigOpCost e) newFeeDelta (lockPoints e)
    (nCountWithDescendants e) (nSizeWithDescendants e) (i64 (nModFeesWithDescendants e + i64 (newFeeDelta - feeDelta e)))
    (nCountWithAncestors e) (nSizeWithAncestors e) (i64 (nModFeesWithAncestors e + i64 (newFeeDelta - feeDelta e))) (nSigOpCostWithAncestors e) (vTxHashesIdx e).
Definition UpdateLockPoints (lp : LockPoints) (e : CTxMemPoolEntry) : CTxMemPoolEntry :=
  mkPoolEntry (e_tx e) (nFee e) (nTxWeight e) (nUsageSize e) (nTime e) (entryHeight e) (spendCoinbaseCount e) (sigOpCost e) (feeDelta e) lp
    (nCountWithDescendants e) (nSizeWithDescendants e) (nModFeesWithDescendants e)
    (nCountWithAncestors e) (nSizeWithAncestors e) (nModFeesWithAncestors e) (nSigOpCostWithAncestors e) (vTxHashesIdx e).
Definition with_idx (i : Z) (e : CTxMemPoolEntry) : CTxMemPoolEntry :=
  mkPoolEntry (e_tx e) (nFee e) (nTxWeight e) (nUsageSize e) (nTime e) (entryHeight e) (spendCoinbaseCount e) (sigOpCost e) (feeDelta e) (lockPoints e)
    (nCountWithDescendants e) (nSizeWithDescendants e) (nModFeesWithDescendants e)
    (nCountWithAncestors e) (nSizeWithAncestors e) (nModFeesWithAncestors e) (nSigOpCostWithAncestors e) i.

Definition UpdateDescendantState (modifySize modifyFee modifyCount : Z) (e : CTxMemPoolEntry) : res pool_error CTxMemPoolEntry :=
  let sz := u64 (nSizeWithDescendants e + modifySize) in
  let cnt := u64 (nCountWithDescendants e + modifyCount) in
  if (0 <? i64 sz) && (0 <? i64 cnt) then
    Ok (mkPoolEntry (e_tx e) (nFee e) (nTxWeight e) (nUsageSize e) (nTime e) (entryHeight e) (spendCoinbaseCount e) (sigOpCost e) (feeDelta e) (lockPoints e)
      cnt sz (i64 (nModFeesWithDescendants e + modifyFee))
      (nCountWithAncestors e) (nSizeWithAncestors e) (nModFeesWithAncestors e) (nSigOpCostWithAncestors e) (vTxHashesIdx e))
  else Err assertion_failed.
(** The number of signature operations is passed as an [int]. *)
Definition UpdateAncestorState (modifySize modifyFee modifyCount modifySigOps : Z) (e : CTxMemPoolEntry) : res pool_error CTxMemPoolEntry :=
  let sz := u64 (nSizeWithAncestors e + modifySize) in
  let cnt := u64 (nCountWithAncestors e + modifyCount) in
  let sig := i64 (nSigOpCostWithAncestors e + i32 modifySigOps) in
  if (0 <? i64 sz) && (0 <? i64 cnt) && (0 <=? i32 sig) then
    Ok (mkPoolEntry (e_tx e) (nFee e) (nTxWeight e) (nUsageSize e) (nTime e) (entryHeight e) (spendCoinbaseCount e) (sigOpCost e) (feeDelta e) (lockPoints e)
      (nCountWithDescendants e) (nSizeWithDescendants e) (nModFeesWithDescendants e)
      cnt sz (i64 (nModFeesWithAncestors e + modifyFee)) sig (vTxHashesIdx e))
  else Err assertion_failed.

(** *** The orders of the pool *)

Definition UseDescendantScore (a : CTxMemPoolEntry) : bool :=
  let f1 := double_of (double_of (GetModifiedFee a) * double_of (nSizeWithDescendants a)) in
  let f2 := double_of (double_of (nModFeesWithDescendants a) * double_of (GetTxSize a)) in
  f1 <? f2.
Definition CompareTxMemPoolEntryByDescendantScore (a b : CTxMemPoolEntry) : bool :=
  let fee e := double_of (if UseDescendantScore e then nModFeesWithDescendants e else GetModifiedFee e) in
  let sz e := double_of (if UseDescendantScore e then nSizeWithDescendants e else GetTxSize e) in
  let f1 := double_of (fee a * sz b) in
  let f2 := double_of (sz a * fee b) in
  if f1 =? f2 then nTime a >=? nTime b else f1 <? f2.
Definition CompareTxMemPoolEntryByScore (a b : CTxMemPoolEntry) : bool :=
  let f1 := double_of (double_of (GetModifiedFee a) * double_of (GetTxSize b)) in
  let f2 := double_of (double_of (GetModifiedFee b) * double_of (GetTxSize a)) in
  if f1 =? f2 then blob_Compare (GetHash (e_tx b)) (GetHash (e_tx a)) <? 0 else f1 >? f2.
Definition CompareTxMemPoolEntryByAncestorFee (a b : CTxMemPoolEntry) : bool :=
  let f1 := double_of (double_of (nModFeesWithAncestors a) * double_of (nSizeWithAncestors b)) in
  let f2 := double_of (double_of (nSizeWithAncestors a) * double_of (nModFeesWithAncestors b)) in
  if f1 =? f2 then blob_Compare (GetHash (e_tx a)) (GetHash (e_tx b)) <? 0 else f1 >? f2.
Definition DepthAndScoreComparator (a b : CTxMemPoolEntry) : bool :=
  if nCountWithAncestors a =? nCountWithAncestors b then CompareTxMemPoolEntryByScore a b else nCountWithAncestors a <? nCountWithAncestors b.
End Entry.

(** *** The pool *)

Record TxLinks := mkLinks { parents : setEntries; children : setEntries }.
Definition no_links : TxLinks := mkLinks ∅ ∅.

Record CTxMemPool := mkPool {
  mapTx : gmap uint256 CTxMemPoolEntry;
  mapLinks : gmap uint256 TxLinks;
  mapNextTx : gmap COutPoint uint256;
  mapDeltas : gmap uint256 Z;
  vTxHashes : list (uint256 * uint256);
  totalTxSize : Z;
  cachedInnerUsage : Z;
  nTransactionsUpdated : Z;
  lastRollingFeeUpdate : Z;
  blockSinceLastRollingFeeBump : bool;
  rollingMinimumFeeRate : Z
}.
Definition with_mapTx (p : CTxMemPool) m : CTxMemPool :=
  mkPool m (mapLinks p) (mapNextTx p) (mapDeltas p) (vTxHashes p) (totalTxSize p) (cachedInnerUsage p) (nTransactionsUpdated p)
    (lastRollingFeeUpdate p) (blockSinceLastRollingFeeBump p) (rollingMinimumFeeRate p).
Definition with_links (p : CTxMemPool) l usage : CTxMemPool :=
  mkPool (mapTx p) l (mapNextTx p) (mapDeltas p) (vTxHashes p) (totalTxSize p) usage (nTransactionsUpdated p)
    (lastRollingFeeUpdate p) (blockSinceLastRollingFeeBump p) (rollingMinimumFeeRate p).
Definition with_deltas (p : CTxMemPool) d : CTxMemPool :=
  mkPool (mapTx p) (mapLinks p) (mapNextTx p) d (vTxHashes p) (totalTxSize p) (cachedInnerUsage p) (nTransactionsUpdated p)
    (lastRollingFeeUpdate p) (blockSinceLastRollingFeeBump p) (rollingMinimumFeeRate p).
Definition with_updated (p : CTxMemPool) n : CTxMemPool :=
  mkPool (mapTx p) (mapLinks p) (mapNextTx p) (mapDeltas p) (vTxHashes p) (totalTxSize p) (cachedInnerUsage p) n
    (lastRollingFeeUpdate p) (blockSinceLastRollingFeeBump p) (rollingMinimumFeeRate p).
Definition with_rolling (p : CTxMemPool) time bump rate : CTxMemPool :=
  mkPool (mapTx p) (mapLinks p) (mapNextTx p) (mapDeltas p) (vTxHashes p) (totalTxSize p) (cachedInnerUsage p) (nTransactionsUpdated p)
    time bump rate.

(** [mapTx.modify]. *)
Definition modify (p : CTxMemPool) (h : uint256) (f : CTxMemPoolEntry -> res pool_error CTxMemPoolEntry) : res pool_error CTxMemPool :=
  match mapTx p !! h with
  | Some e => let! e' := f e in Ok (with_mapTx p (<[h := e']> (mapTx p)))
  | None => Err stale_iterator
  end.
(** The entry that an iterator points to. *)
Definition entry_at (p : CTxMemPool) (h : uint256) : res pool_error CTxMemPoolEntry :=
  match mapTx p !! h with Some e => Ok e | None => Err stale_iterator end.
Fixpoint for_each {S A} (l : list A) (f : S -> A -> res pool_error S) (s : S) : res pool_error S :=
  match l with [] => Ok s | x :: l => let! s := f s x in for_each l f s end.
(** Sets are walked in the order of the hashes. *)
Definition hash_le (a b : uint256) : Prop := blob_Compare a b <= 0.
#[export] Instance hash_le_dec a b : Decision (hash_le a b).
Proof. unfold hash_le. apply _. Defined.
Definition in_order (s : setEntries) : list uint256 := merge_sort hash_le (elements s).

Definition exists_ (p : CTxMemPool) (h : uint256) : bool := bool_decide (is_Some (mapTx p !! h)).
Definition GetMemPoolParents (p : CTxMemPool) (h : uint256) : res pool_error setEntries :=
  match mapLinks p !! h with Some l => Ok (parents l) | None => Err assertion_failed end.
Definition GetMemPoolChildren (p : CTxMemPool) (h : uint256) : res pool_error setEntries :=
  match mapLinks p !! h with Some l => Ok (children l) | None => Err assertion_failed end.

Section Pool.
Context {Env : PoolEnv}.

(** [mapLinks[entry]] makes the links when there are none. *)
Definition links_of (p : CTxMemPool) (h : uint256) : TxLinks := default no_links (mapLinks p !! h).
Definition UpdateChild (p : CTxMemPool) (entry child : uint256) (add : bool) : CTxMemPool :=
  let l := links_of p entry in
  let c' := if add then {[child]} ∪ children l else children l ∖ {[child]} in
  with_links p (<[entry := mkLinks (parents l) c']> (mapLinks p))
    (if bool_decide (c' = children l) then cachedInnerUsage p else u64 (cachedInnerUsage p + (if add then set_node else - set_node))).
Definition UpdateParent (p : CTxMemPool) (entry parent : uint256) (add : bool) : CTxMemPool :=
  let l := links_of p entry in
  let c' := if add then {[parent]} ∪ parents l else parents l ∖ {[parent]} in
  with_links p (<[entry := mkLinks c' (children l)]> (mapLinks p))
    (if bool_decide (c' = parents l) then cachedInnerUsage p else u64 (cachedInnerUsage p + (if add then set_node else - set_node))).

(** *** Ancestors and descendants *)

Inductive limit_error :=
| too_many_parents
| descendant_size_limit (h : uint256)
| too_many_descendants (h : uint256)
| ancestor_size_limit
| too_many_ancestors.

Fixpoint find_parents (p : CTxMemPool) (limitAncestorCount : Z) (ins : list CTxIn) (parentHashes : setEntries) : limit_error + setEntries :=
  match ins with
  | [] => inr parentHashes
  | i :: ins =>
      if isHash (prevout i) && exists_ p (op_hash (prevout i)) then
        let parentHashes := {[op_hash (prevout i)]} ∪ parentHashes in
        if Z.of_nat (size parentHashes) + 1 >? limitAncestorCount then inl too_many_parents
        else find_parents p limitAncestorCount ins parentHashes
      else find_parents p limitAncestorCount ins parentHashes
  end.
Fixpoint scan_parents (setAncestors : setEntries) (limitAncestorCount : Z) (l : list uint256) (parentHashes : setEntries) : option setEntries :=
  match l with
  | [] => Some parentHashes
  | phash :: l =>
      let parentHashes := if bool_decide (phash ∈ setAncestors) then parentHashes else {[phash]} ∪ parentHashes in
      if Z.of_nat (size parentHashes) + Z.of_nat (size setAncestors) + 1 >? limitAncestorCount then None
      else scan_parents setAncestors limitAncestorCount l parentHashes
  end.
Section Limits.
Variable p : CTxMemPool.
Variable entry : CTxMemPoolEntry.
Variables limitAncestorCount limitAncestorSize limitDescendantCount limitDescendantSize : Z.

Fixpoint ancestors_loop (fuel : nat) (totalSizeWithAncestors : Z) (parentHashes setAncestors : setEntries) : res pool_error (limit_error + setEntries) :=
  match in_order parentHashes with
  | [] => Ok (inr setAncestors)
  | stageit :: _ =>
      match fuel with
      | O => Err no_fuel
      | S fuel =>
          let setAncestors := {[stageit]} ∪ setAncestors in
          let parentHashes := parentHashes ∖ {[stageit]} in
          let! stage := entry_at p stageit in
          let totalSizeWithAncestors := u64 (totalSizeWithAncestors + GetTxSize stage) in
          if u64 (nSizeWithDescendants stage + GetTxSize entry) >? limitDescendantSize then Ok (inl (descendant_size_limit stageit))
          else if u64 (nCountWithDescendants stage + 1) >? limitDescendantCount then Ok (inl (too_many_descendants stageit))
          else if totalSizeWithAncestors >? limitAncestorSize then Ok (inl ancestor_size_limit)
          else
            let! setMemPoolParents := GetMemPoolParents p stageit in
            match scan_parents setAncestors limitAncestorCount (in_order setMemPoolParents) parentHashes with
            | None => Ok (inl too_many_ancestors)
            | Some parentHashes => ancestors_loop fuel totalSizeWithAncestors parentHashes setAncestors
            end
      end
  end.
(** Each round adds an entry with links to the set. *)
Definition CalculateMemPoolAncestors (fSearchForParents : bool) : res pool_error (limit_error + setEntries) :=
  let! parentHashes :=
    (if fSearchForParents then Ok (find_parents p limitAncestorCount (vin (e_tx entry)) ∅)
     else let! ps := GetMemPoolParents p (GetHash (e_tx entry)) in Ok (inr ps)) in
  match parentHashes with
  | inl e => Ok (inl e)
  | inr parentHashes => ancestors_loop (S (size (mapLinks p))) (GetTxSize entry) parentHashes ∅
  end.
End Limits.
Definition nNoLimit : Z := UINT64_MAX.
(** Without limits: the callers ignore the result, which is true for fewer than [2^64 - 1] entries. *)
Definition all_ancestors (p : CTxMemPool) (entry : CTxMemPoolEntry) (search : bool) : res pool_error setEntries :=
  let! r := CalculateMemPoolAncestors p entry nNoLimit nNoLimit nNoLimit nNoLimit search in
  match r with inr s => Ok s | inl _ => Err assertion_failed end.

Fixpoint descendants_loop (p : CTxMemPool) (fuel : nat) (stage setDescendants : setEntries) : res pool_error setEntries :=
  match in_order stage with
  | [] => Ok setDescendants
  | it :: _ =>
      match fuel with
      | O => Err no_fuel
      | S fuel =>
          let setDescendants := {[it]} ∪ setDescendants in
          let stage := stage ∖ {[it]} in
          let! setChildren := GetMemPoolChildren p it in
          descendants_loop p fuel (stage ∪ (setChildren ∖ setDescendants)) setDescendants
      end
  end.
Definition CalculateDescendants (p : CTxMemPool) (entryit : uint256) (setDescendants : setEntries) : res pool_error setEntries :=
  descendants_loop p (S (size (mapLinks p))) (if bool_decide (entryit ∈ setDescendants) then ∅ else {[entryit]}) setDescendants.

(** *** Adding *)

Definition GetTxHash (position_hash : COutPoint -> option uint256) (o : COutPoint) : option uint256 :=
  if isHash o then Some (op_hash o) else position_hash o.

Definition UpdateAncestorsOf (add : bool) (it : uint256) (setAncestors : setEntries) (p : CTxMemPool) : res pool_error CTxMemPool :=
  let! parentIters := GetMemPoolParents p it in
  let p := fold_left (fun p piter => UpdateChild p piter it add) (in_order parentIters) p in
  let! e := entry_at p it in
  let updateCount := if add then 1 else -1 in
  let updateSize := i64 (u64 (updateCount * GetTxSize e)) in
  let updateFee := i64 (updateCount * GetModifiedFee e) in
  for_each (in_order setAncestors) (fun p ancestorIt => modify p ancestorIt (UpdateDescendantState updateSize updateFee updateCount)) p.

Record sums := mkSums { s_size : Z; s_fee : Z; s_sigops : Z }.
Definition add_entry (s : sums) (e : CTxMemPoolEntry) : sums :=
  mkSums (i64 (s_size s + GetTxSize e)) (i64 (s_fee s + GetModifiedFee e)) (i64 (s_sigops s + sigOpCost e)).
Definition UpdateEntryForAncestors (it : uint256) (setAncestors : setEntries) (p : CTxMemPool) : res pool_error CTxMemPool :=
  let! s := for_each (in_order setAncestors) (fun s h => let! e := entry_at p h in Ok (add_entry s e)) (mkSums 0 0 0) in
  modify p it (UpdateAncestorState (s_size s) (s_fee s) (Z.of_nat (size setAncestors)) (s_sigops s)).

(** [mapTx.insert] and [mapNextTx.insert] do nothing when the key is there. *)
Definition insert_new {K A} `{Countable K} (k : K) (a : A) (m : gmap K A) : gmap K A :=
  match m !! k with Some _ => m | None => <[k := a]> m end.
Definition spend_inputs (ins : list CTxIn) (h : uint256) (m : gmap COutPoint uint256) : gmap COutPoint uint256 :=
  fold_left (fun m i => insert_new (outpoint_key (prevout i)) h m) ins m.
Definition parent_hashes (position_hash : COutPoint -> option uint256) (ins : list CTxIn) : setEntries :=
  list_to_set (omap (fun i => GetTxHash position_hash (prevout i)) ins).
Definition addUnchecked (position_hash : COutPoint -> option uint256) (hash_ : uint256) (entry : CTxMemPoolEntry) (setAncestors : setEntries)
    (p : CTxMemPool) : res pool_error CTxMemPool :=
  let newit := GetHash (e_tx entry) in
  let p := mkPool (insert_new newit entry (mapTx p)) (insert_new newit no_links (mapLinks p)) (mapNextTx p) (mapDeltas p) (vTxHashes p)
    (totalTxSize p) (cachedInnerUsage p) (nTransactionsUpdated p) (lastRollingFeeUpdate p) (blockSinceLastRollingFeeBump p) (rollingMinimumFeeRate p) in
  let! p := (match mapDeltas p !! hash_ with
             | Some delta => if negb (delta =? 0) then modify p newit (fun e => Ok (UpdateFeeDelta delta e)) else Ok p
             | None => Ok p
             end) in
  let! e := entry_at p newit in
  let p := mkPool (mapTx p) (mapLinks p) (spend_inputs (vin (e_tx e)) newit (mapNextTx p)) (mapDeltas p) (vTxHashes p)
    (totalTxSize p) (u64 (cachedInnerUsage p + nUsageSize entry)) (nTransactionsUpdated p)
    (lastRollingFeeUpdate p) (blockSinceLastRollingFeeBump p) (rollingMinimumFeeRate p) in
  let p := fold_left (fun p phash => if exists_ p phash then UpdateParent p newit phash true else p)
    (in_order (parent_hashes position_hash (vin (e_tx e)))) p in
  let! p := UpdateAncestorsOf true newit setAncestors p in
  let! p := UpdateEntryForAncestors newit setAncestors p in
  let hashes := vTxHashes p ++ [(GetWitnessHash (e_tx e), newit)] in
  let p := mkPool (mapTx p) (mapLinks p) (mapNextTx p) (mapDeltas p) hashes
    (u64 (totalTxSize p + GetTxSize entry)) (cachedInnerUsage p) (u32 (nTransactionsUpdated p + 1))
    (lastRollingFeeUpdate p) (blockSinceLastRollingFeeBump p) (rollingMinimumFeeRate p) in
  modify p newit (fun e => Ok (with_idx (Z.of_nat (length hashes) - 1) e)).
(** The form that searches the ancestors itself. *)
Definition addUnchecked_search (position_hash : COutPoint -> option uint256) (hash_ : uint256) (entry : CTxMemPoolEntry) (p : CTxMemPool) : res pool_error CTxMemPool :=
  let! setAncestors := all_ancestors p entry true in
  addUnchecked position_hash hash_ entry setAncestors p.

(** *** Removing *)

Definition UpdateChildrenForRemoval (it : uint256) (p : CTxMemPool) : res pool_error CTxMemPool :=
  let! setMemPoolChildren := GetMemPoolChildren p it in
  Ok (fold_left (fun p updateIt => UpdateParent p updateIt it false) (in_order setMemPoolChildren) p).

(** The statistics of the descendants of one removed entry. *)
Definition leave_descendants (p : CTxMemPool) (removeIt : uint256) : res pool_error CTxMemPool :=
  let! setDescendants := CalculateDescendants p removeIt ∅ in
  let! e := entry_at p removeIt in
  let modifySize := i64 (- i64 (GetTxSize e)) in
  let modifyFee := i64 (- GetModifiedFee e) in
  let modifySigOps := i32 (- sigOpCost e) in
  for_each (in_order (setDescendants ∖ {[removeIt]})) (fun p dit => modify p dit (UpdateAncestorState modifySize modifyFee (-1) modifySigOps)) p.
Definition leave_ancestors (p : CTxMemPool) (removeIt : uint256) : res pool_error CTxMemPool :=
  let! entry := entry_at p removeIt in
  let! setAncestors := all_ancestors p entry false in
  UpdateAncestorsOf false removeIt setAncestors p.
Definition UpdateForRemoveFromMempool (entriesToRemove : setEntries) (updateDescendants : bool) (p : CTxMemPool) : res pool_error CTxMemPool :=
  let! p := (if updateDescendants then for_each (in_order entriesToRemove) leave_descendants p else Ok p) in
  let! p := for_each (in_order entriesToRemove) leave_ancestors p in
  for_each (in_order entriesToRemove) (fun p removeIt => UpdateChildrenForRemoval removeIt p) p.

(** The last witness hash takes the place of the removed one. *)
Definition swap_delete (p : CTxMemPool) (it : uint256) : res pool_error CTxMemPool :=
  let! e := entry_at p it in
  let v := vTxHashes p in
  let idx := vTxHashesIdx e in
  let with_hashes p v := mkPool (mapTx p) (mapLinks p) (mapNextTx p) (mapDeltas p) v (totalTxSize p) (cachedInnerUsage p) (nTransactionsUpdated p)
    (lastRollingFeeUpdate p) (blockSinceLastRollingFeeBump p) (rollingMinimumFeeRate p) in
  if (1 <? length v)%nat then
    match head (rev v) with
    | Some b => let! p := modify p (snd b) (fun e => Ok (with_idx idx e)) in Ok (with_hashes p (removelast (<[Z.to_nat idx := b]> v)))
    | None => Err stale_iterator
    end
  else Ok (with_hashes p []).
Definition removeUnchecked (p : CTxMemPool) (it : uint256) : res pool_error CTxMemPool :=
  let! e := entry_at p it in
  let p := mkPool (mapTx p) (mapLinks p) (fold_left (fun m i => delete (outpoint_key (prevout i)) m) (vin (e_tx e)) (mapNextTx p)) (mapDeltas p) (vTxHashes p)
    (totalTxSize p) (cachedInnerUsage p) (nTransactionsUpdated p) (lastRollingFeeUpdate p) (blockSinceLastRollingFeeBump p) (rollingMinimumFeeRate p) in
  let! p := swap_delete p it in
  let l := links_of p it in
  Ok (mkPool (delete it (mapTx p)) (delete it (mapLinks p)) (mapNextTx p) (mapDeltas p) (vTxHashes p)
    (u64 (totalTxSize p - GetTxSize e))
    (u64 (u64 (cachedInnerUsage p - nUsageSize e) - (set_node * Z.of_nat (size (parents l)) + set_node * Z.of_nat (size (children l)))))
    (u32 (nTransactionsUpdated p + 1)) (lastRollingFeeUpdate p) (blockSinceLastRollingFeeBump p) (rollingMinimumFeeRate p)).
Definition RemoveStaged (stage : setEntries) (updateDescendants : bool) (p : CTxMemPool) : res pool_error CTxMemPool :=
  let! p := UpdateForRemoveFromMempool stage updateDescendants p in
  for_each (in_order stage) removeUnchecked p.

Definition all_descendants (p : CTxMemPool) (l : list uint256) : res pool_error setEntries :=
  for_each l (fun s it => CalculateDescendants p it s) ∅.
(** The pool's spenders of the outputs of a transaction that is not in the pool. *)
Fixpoint output_spenders (p : CTxMemPool) (h : uint256) (outs : list CTxOut) (i : Z) : res pool_error setEntries :=
  match outs with
  | [] => Ok ∅
  | _ :: outs =>
      let! s := output_spenders p h outs (i + 1) in
      match mapNextTx p !! outpoint_key (COutPoint_ofHash h i) with
      | None => Ok s
      | Some next => if exists_ p next then Ok ({[next]} ∪ s) else Err assertion_failed
      end
  end.
Definition removeRecursive (origTx : CTransaction) (p : CTxMemPool) : res pool_error CTxMemPool :=
  let h := GetHash origTx in
  let! txToRemove := (if exists_ p h then Ok {[h]} else output_spenders p h (vout origTx) 0) in
  let! setAllRemoves := all_descendants p (in_order txToRemove) in
  RemoveStaged setAllRemoves false p.
Definition ClearPrioritisation (h : uint256) (p : CTxMemPool) : CTxMemPool := with_deltas p (delete h (mapDeltas p)).
Definition remove_conflict (tx : CTransaction) (p : CTxMemPool) (txin : CTxIn) : res pool_error CTxMemPool :=
  match mapNextTx p !! outpoint_key (prevout txin) with
  | Some h =>
      let! e := entry_at p h in
      if bool_decide (GetHash (e_tx e) = GetHash tx) then Ok p
      else removeRecursive (e_tx e) (ClearPrioritisation (GetHash (e_tx e)) p)
  | None => Ok p
  end.
Definition removeConflicts (tx : CTransaction) (p : CTxMemPool) : res pool_error CTxMemPool := for_each (vin tx) (remove_conflict tx) p.
Definition remove_mined (p : CTxMemPool) (tx : CTransaction) : res pool_error CTxMemPool :=
  let! p := (if exists_ p (GetHash tx) then RemoveStaged {[GetHash tx]} true p else Ok p) in
  let! p := removeConflicts tx p in
  Ok (ClearPrioritisation (GetHash tx) p).
Definition removeForBlock (vtx : list CTransaction) (now : Z) (p : CTxMemPool) : res pool_error CTxMemPool :=
  let! p := for_each vtx remove_mined p in
  Ok (with_rolling p now true (rollingMinimumFeeRate p)).
End Pool.

(** *** Further operations *)

Section Operations.
Context {Env : PoolEnv}.

(** An index whose entries tie is in one of their orders. *)
Definition first_by (lt : CTxMemPoolEntry -> CTxMemPoolEntry -> bool) (m : gmap uint256 CTxMemPoolEntry) : option uint256 :=
  match map_to_list m with
  | [] => None
  | x :: l => Some (fst (fold_left (fun best y => if lt (snd y) (snd best) then y else best) l x))
  end.
(** The first entry of the index by descendant score. *)
Definition lowest_score (p : CTxMemPool) : option uint256 := first_by CompareTxMemPoolEntryByDescendantScore (mapTx p).

Definition isSpent (p : CTxMemPool) (o : COutPoint) : bool := bool_decide (is_Some (mapNextTx p !! outpoint_key o)).
Definition exists_outpoint (p : CTxMemPool) (o : COutPoint) : bool :=
  isHash o && match mapTx p !! op_hash o with Some e => op_n o <? Z.of_nat (length (vout (e_tx e))) | None => false end.
Definition HasNoInputsOf (p : CTxMemPool) (tx : CTransaction) : bool :=
  forallb (fun i => negb (isHash (prevout i) && exists_ p (op_hash (prevout i)))) (vin tx).
Definition TransactionWithinChainLimit (p : CTxMemPool) (txid : uint256) (chainLimit : Z) : bool :=
  match mapTx p !! txid with
  | None => true
  | Some e => (nCountWithAncestors e <? chainLimit) && (nCountWithDescendants e <? chainLimit)
  end.
Definition CompareDepthAndScore (p : CTxMemPool) (hasha hashb : uint256) : bool :=
  match mapTx p !! hasha with
  | None => false
  | Some a => match mapTx p !! hashb with None => true | Some b => DepthAndScoreComparator a b end
  end.
(** [std::sort], whose result is one of the orders when entries tie. *)
Definition depth_before (a b : uint256 * CTxMemPoolEntry) : Prop := DepthAndScoreComparator (snd b) (snd a) = false.
#[export] Instance depth_before_dec a b : Decision (depth_before a b).
Proof. unfold depth_before. apply _. Defined.
Definition GetSortedDepthAndScore (p : CTxMemPool) : list (uint256 * CTxMemPoolEntry) := merge_sort depth_before (map_to_list (mapTx p)).
Definition queryHashes (p : CTxMemPool) : list uint256 := map (fun it => GetHash (e_tx (snd it))) (GetSortedDepthAndScore p).
Record TxMempoolInfo := mkInfo { info_tx : CTransaction; info_nTime : Z; info_feeRate : Z; info_nFeeDelta : Z }.
Definition GetInfo (e : CTxMemPoolEntry) : res pool_error TxMempoolInfo :=
  let! r := CFeeRate_of (nFee e) (GetTxSize e) in Ok (mkInfo (e_tx e) (nTime e) r (i64 (GetModifiedFee e - nFee e))).
Definition infoAll (p : CTxMemPool) : res pool_error (list TxMempoolInfo) :=
  for_each (GetSortedDepthAndScore p) (fun ret it => let! i := GetInfo (snd it) in Ok (ret ++ [i])) [].
Definition get_ (p : CTxMemPool) (h : uint256) : option CTransaction := e_tx <$> mapTx p !! h.
Definition ApplyDelta (p : CTxMemPool) (h : uint256) (nFeeDelta : Z) : Z :=
  match mapDeltas p !! h with Some delta => i64 (nFeeDelta + delta) | None => nFeeDelta end.
Definition GetTransactionsUpdated (p : CTxMemPool) : Z := nTransactionsUpdated p.
Definition AddTransactionsUpdated (n : Z) (p : CTxMemPool) : CTxMemPool := with_updated p (u32 (nTransactionsUpdated p + n)).
(** The witness hashes keep their old entries. *)
Definition clear_ (now : Z) (p : CTxMemPool) : CTxMemPool :=
  mkPool ∅ ∅ ∅ (mapDeltas p) (vTxHashes p) 0 0 (u32 (nTransactionsUpdated p + 1)) now false 0.
Definition CTxMemPool_new (now : Z) : CTxMemPool := clear_ now (mkPool ∅ ∅ ∅ ∅ [] 0 0 0 0 false 0).

Definition PrioritiseTransaction (h : uint256) (nFeeDelta : Z) (p : CTxMemPool) : res pool_error CTxMemPool :=
  let delta := i64 (default 0 (mapDeltas p !! h) + nFeeDelta) in
  let p := with_deltas p (<[h := delta]> (mapDeltas p)) in
  if exists_ p h then
    let! p := modify p h (fun e => Ok (UpdateFeeDelta delta e)) in
    let! e := entry_at p h in
    let! setAncestors := all_ancestors p e false in
    let! p := for_each (in_order setAncestors) (fun p a => modify p a (UpdateDescendantState 0 nFeeDelta 0)) p in
    let! setDescendants := CalculateDescendants p h ∅ in
    let! p := for_each (in_order (setDescendants ∖ {[h]})) (fun p d => modify p d (UpdateAncestorState 0 nFeeDelta 0 0)) p in
    Ok (with_updated p (u32 (nTransactionsUpdated p + 1)))
  else Ok p.

(** The number of removed entries, and their hashes. *)
Definition Expire (time : Z) (p : CTxMemPool) : res pool_error (CTxMemPool * list uint256) :=
  let toremove := dom (filter (fun '(_, e) => nTime e < time) (mapTx p)) in
  let! stage := all_descendants p (in_order toremove) in
  let! p := RemoveStaged stage false p in
  Ok (p, in_order stage).

Section Trim.
(** The memory that the containers use, and the setting for the fee increment. *)
Variable DynamicMemoryUsage : CTxMemPool -> Z.
Variable incrementalRelayFee : Z.

Definition trackPackageRemoved (rate : Z) (p : CTxMemPool) : res pool_error CTxMemPool :=
  let! r := GetFeePerK rate in
  Ok (if double_of r >? rollingMinimumFeeRate p then with_rolling p (lastRollingFeeUpdate p) false (double_of r) else p).
Definition no_spends_remaining (p : CTxMemPool) (txn : list CTransaction) : list COutPoint :=
  flat_map (fun tx => omap (fun i =>
    let o := prevout i in
    if isHash o && exists_ p (op_hash o) then None
    else if isSpent p o then None else Some o) (vin tx)) txn.
(** One round removes the entry with the lowest score and its descendants. *)
Definition trim_once (it : uint256) (p : CTxMemPool) : res pool_error (CTxMemPool * list COutPoint) :=
  let! e := entry_at p it in
  let! removed := CFeeRate_of (nModFeesWithDescendants e) (nSizeWithDescendants e) in
  let removed := i64 (removed + incrementalRelayFee) in
  let! p := trackPackageRemoved removed p in
  let! stage := CalculateDescendants p it ∅ in
  let! txn := for_each (in_order stage) (fun l h => let! e := entry_at p h in Ok (l ++ [e_tx e])) [] in
  let! p := RemoveStaged stage false p in
  Ok (p, no_spends_remaining p txn).
Fixpoint trim_loop (fuel : nat) (sizelimit : Z) (p : CTxMemPool) (pvNoSpendsRemaining : list COutPoint) : res pool_error (CTxMemPool * list COutPoint) :=
  match lowest_score p with
  | None => Ok (p, pvNoSpendsRemaining)
  | Some it =>
      if DynamicMemoryUsage p >? sizelimit then
        match fuel with
        | O => Err no_fuel
        | S fuel => let! r := trim_once it p in trim_loop fuel sizelimit (fst r) (pvNoSpendsRemaining ++ snd r)
        end
      else Ok (p, pvNoSpendsRemaining)
  end.
Definition TrimToSize (sizelimit : Z) (p : CTxMemPool) : res pool_error (CTxMemPool * list COutPoint) := trim_loop (size (mapTx p)) sizelimit p [].
End Trim.

(** *** Reorganisations *)

(** [CheckFinalTx] and [CheckSequenceLocks] of an entry, with its new lock points when the
    old ones are not valid, and [AccessCoin], which look at the chain. *)
Definition immature_input (p : CTxMemPool) (position_hash : COutPoint -> option uint256) (AccessCoin : COutPoint -> Coin) (nMemPoolHeight maturity : Z)
    (i : CTxIn) : bool :=
  match GetTxHash position_hash (prevout i) with
  | None => false
  | Some h =>
      if exists_ p h then false
      else let coin := AccessCoin (prevout i) in
           Coin_IsSpent coin || (fCoinBase coin && (nMemPoolHeight - coin_nHeight coin <? maturity))
  end.
Definition removeForReorg (locks : CTxMemPoolEntry -> bool * option LockPoints) (position_hash : COutPoint -> option uint256) (AccessCoin : COutPoint -> Coin)
    (nMemPoolHeight maturity : Z) (p : CTxMemPool) : res pool_error CTxMemPool :=
  let bad e := negb (fst (locks e)) || (GetSpendsCoinbase e && existsb (immature_input p position_hash AccessCoin nMemPoolHeight maturity) (vin (e_tx e))) in
  let txToRemove := dom (filter (fun '(_, e) => bad e) (mapTx p)) in
  let p := with_mapTx p ((fun e => match snd (locks e) with Some lp => UpdateLockPoints lp e | None => e end) <$> mapTx p) in
  let! setAllRemoves := all_descendants p (in_order txToRemove) in
  RemoveStaged setAllRemoves false p.

(** The descendants of an entry that are not accounted for; [cachedDescendants] has those
    of the entries that were updated before. *)
Fixpoint collect_descendants (p : CTxMemPool) (cache : gmap uint256 setEntries) (fuel : nat) (stageEntries setAllDescendants : setEntries) : res pool_error setEntries :=
  match in_order stageEntries with
  | [] => Ok setAllDescendants
  | cit :: _ =>
      match fuel with
      | O => Err no_fuel
      | S fuel =>
          let setAllDescendants := {[cit]} ∪ setAllDescendants in
          let stageEntries := stageEntries ∖ {[cit]} in
          let! setChildren := GetMemPoolChildren p cit in
          let '(stageEntries, setAllDescendants) :=
            fold_left (fun '(stage, all) childEntry =>
              match cache !! childEntry with
              | Some s => (stage, all ∪ s)
              | None => if bool_decide (childEntry ∈ all) then (stage, all) else ({[childEntry]} ∪ stage, all)
              end) (in_order setChildren) (stageEntries, setAllDescendants) in
          collect_descendants p cache fuel stageEntries setAllDescendants
      end
  end.
Record descendant_update := mkUpdate { du_pool : CTxMemPool; du_cache : gmap uint256 setEntries; du_sums : sums; du_count : Z }.
Definition update_descendant (updateIt : uint256) (setExclude : setEntries) (s : descendant_update) (cit : uint256) : res pool_error descendant_update :=
  let p := du_pool s in
  let! c := entry_at p cit in
  if bool_decide (GetHash (e_tx c) ∈ setExclude) then Ok s
  else
    let! u := entry_at p updateIt in
    let! p := modify p cit (UpdateAncestorState (i64 (GetTxSize u)) (GetModifiedFee u) 1 (sigOpCost u)) in
    Ok (mkUpdate p (<[updateIt := {[cit]} ∪ default ∅ (du_cache s !! updateIt)]> (du_cache s)) (add_entry (du_sums s) c) (du_count s + 1)).
Definition UpdateForDescendants (updateIt : uint256) (setExclude : setEntries) (p : CTxMemPool) (cachedDescendants : gmap uint256 setEntries)
    : res pool_error (CTxMemPool * gmap uint256 setEntries) :=
  let! stageEntries := GetMemPoolChildren p updateIt in
  let! setAllDescendants := collect_descendants p cachedDescendants (S (size (mapLinks p))) stageEntries ∅ in
  let! s := for_each (in_order setAllDescendants) (update_descendant updateIt setExclude) (mkUpdate p cachedDescendants (mkSums 0 0 0) 0) in
  let! p := modify (du_pool s) updateIt (UpdateDescendantState (s_size (du_sums s)) (s_fee (du_sums s)) (du_count s)) in
  Ok (p, du_cache s).
(** The spenders of the outputs of [h]: the entries of the index from the outpoint [(h, 0)] on. *)
Definition spenders_of (p : CTxMemPool) (h : uint256) : setEntries :=
  list_to_set (omap (fun '(o, c) => if isHash o && bool_decide (op_hash o = h) then Some c else None) (map_to_list (mapNextTx p))).
Definition update_from_block (setAlreadyIncluded : setEntries) (s : CTxMemPool * gmap uint256 setEntries) (h : uint256)
    : res pool_error (CTxMemPool * gmap uint256 setEntries) :=
  let '(p, cache) := s in
  if exists_ p h then
    let! p := for_each (in_order (spenders_of p h)) (fun p childHash =>
      if exists_ p childHash then
        Ok (if bool_decide (childHash ∈ setAlreadyIncluded) then p else UpdateParent (UpdateChild p h childHash true) childHash h true)
      else Err assertion_failed) p in
    UpdateForDescendants h setAlreadyIncluded p cache
  else Ok s.
Definition UpdateTransactionsFromBlock (vHashesToUpdate : list uint256) (p : CTxMemPool) : res pool_error CTxMemPool :=
  let! s := for_each (rev vHashesToUpdate) (update_from_block (list_to_set vHashesToUpdate)) (p, ∅) in
  Ok (fst s).

(** *** The consistency check *)

Section CheckPool.
Variable position_hash : COutPoint -> option uint256.
(** [pcoins->HaveCoin], and [CTxOut::IsNull]. *)
Variable HaveCoin : COutPoint -> bool.
Variable IsNull : CTxOut -> bool.

(** The parents that the inputs name, with the assertions on the inputs. *)
Fixpoint check_inputs (p : CTxMemPool) (h : uint256) (ins : list CTxIn) (setParentCheck : setEntries) : option setEntries :=
  match ins with
  | [] => Some setParentCheck
  | i :: ins =>
      let o := prevout i in
      let it2 := txHash ← GetTxHash position_hash o; e2 ← mapTx p !! txHash; Some (txHash, e2) in
      setParentCheck ←
        match it2 with
        | Some (h2, e2) => if match vout (e_tx e2) !! Z.to_nat (op_n o) with Some out => negb (IsNull out) | None => false end then Some ({[h2]} ∪ setParentCheck) else None
        | None => if HaveCoin o then Some setParentCheck else None
        end;
      if bool_decide (mapNextTx p !! outpoint_key o = Some h) then check_inputs p h ins setParentCheck else None
  end.
(** The assertions on one entry: its inputs, its links and its statistics. *)
Definition check_entry (p : CTxMemPool) (h : uint256) (e : CTxMemPoolEntry) : bool :=
  match mapLinks p !! h, check_inputs p h (vin (e_tx e)) ∅ with
  | Some links, Some setParentCheck =>
      bool_decide (setParentCheck = parents links) &&
      match all_ancestors p e true with
      | Ok setAncestors =>
          match for_each (in_order setAncestors) (fun s a => let! ea := entry_at p a in
            Ok (mkSums (u64 (s_size s + GetTxSize ea)) (i64 (s_fee s + GetModifiedFee ea)) (i64 (s_sigops s + sigOpCost ea)))) (mkSums (GetTxSize e) (GetModifiedFee e) (sigOpCost e)) with
          | Ok s =>
              (nCountWithAncestors e =? Z.of_nat (size setAncestors) + 1) && (nSizeWithAncestors e =? s_size s) &&
              (nSigOpCostWithAncestors e =? s_sigops s) && (nModFeesWithAncestors e =? s_fee s)
          | Err _ => false
          end
      | Err _ => false
      end &&
      let setChildrenCheck := spenders_of p (GetHash (e_tx e)) in
      bool_decide (set_Forall (fun c => is_Some (mapTx p !! c)) setChildrenCheck) && bool_decide (setChildrenCheck = children links) &&
      (u64 (fold_right (fun c acc => match mapTx p !! c with Some ec => GetTxSize ec + acc | None => acc end) 0 (in_order setChildrenCheck) + GetTxSize e) <=? nSizeWithDescendants e)
  | _, _ => false
  end.
(** The totals. *)
Definition check_totals (p : CTxMemPool) : bool :=
  let checkTotal := map_fold (fun _ e acc => u64 (acc + GetTxSize e)) 0 (mapTx p) in
  let innerUsage := map_fold (fun h e acc => u64 (acc + (nUsageSize e +
    match mapLinks p !! h with Some l => set_node * Z.of_nat (size (parents l)) + set_node * Z.of_nat (size (children l)) | None => 0 end))) 0 (mapTx p) in
  bool_decide (map_Forall (fun _ h => is_Some (mapTx p !! h)) (mapNextTx p)) && (totalTxSize p =? checkTotal) && (innerUsage =? cachedInnerUsage p).
Definition check_pool (p : CTxMemPool) : bool := bool_decide (map_Forall (fun h e => check_entry p h e = true) (mapTx p)) && check_totals p.
End CheckPool.

(** *** Replacement *)

Inductive RBFTransactionState := RBF_TRANSACTIONSTATE_UNKNOWN | RBF_TRANSACTIONSTATE_REPLACEABLE_BIP125 | RBF_TRANSACTIONSTATE_FINAL.
Definition SignalsOptInRBF (tx : CTransaction) : bool :=
  if negb (IsOldTransactionVersion (nVersion tx)) then existsb (fun i => FlagIsSet i OptInRBF) (vin tx)
  else existsb (fun i => GetSequence i (nVersion tx) <? UINT32_MAX - 1) (vin tx).
Definition IsRBFOptIn (tx : CTransaction) (p : CTxMemPool) : res pool_error RBFTransactionState :=
  if SignalsOptInRBF tx then Ok RBF_TRANSACTIONSTATE_REPLACEABLE_BIP125
  else match mapTx p !! GetHash tx with
       | None => Ok RBF_TRANSACTIONSTATE_UNKNOWN
       | Some entry =>
           let! setAncestors := all_ancestors p entry false in
           let! l := for_each (in_order setAncestors) (fun l h => let! e := entry_at p h in Ok (SignalsOptInRBF (e_tx e) :: l)) [] in
           Ok (if existsb id l then RBF_TRANSACTIONSTATE_REPLACEABLE_BIP125 else RBF_TRANSACTIONSTATE_FINAL)
       end.

(** *** Transactions of disconnected blocks *)

(** In the order of insertion; a transaction whose hash is there is not added again, but its memory is counted. *)
Record DisconnectedBlockTransactions := mkDisconnected { queuedTx : list CTransaction; queuedUsage : Z }.
Definition queued (d : DisconnectedBlockTransactions) (h : uint256) : bool := existsb (fun tx => bool_decide (GetHash tx = h)) (queuedTx d).
Definition addTransaction (d : DisconnectedBlockTransactions) (tx : CTransaction) : DisconnectedBlockTransactions :=
  mkDisconnected (if queued d (GetHash tx) then queuedTx d else queuedTx d ++ [tx]) (u64 (queuedUsage d + RecursiveDynamicUsage tx)).
Definition queue_remove (d : DisconnectedBlockTransactions) (h : uint256) : DisconnectedBlockTransactions :=
  match List.find (fun tx => bool_decide (GetHash tx = h)) (queuedTx d) with
  | Some q => mkDisconnected (List.filter (fun tx => negb (bool_decide (GetHash tx = h))) (queuedTx d)) (u64 (queuedUsage d - RecursiveDynamicUsage q))
  | None => d
  end.
Definition Disconnected_removeForBlock (d : DisconnectedBlockTransactions) (vtx : list CTransaction) : DisconnectedBlockTransactions :=
  match queuedTx d with [] => d | _ => fold_left (fun d tx => queue_remove d (GetHash tx)) vtx d end.
Definition removeEntry (d : DisconnectedBlockTransactions) (entry : CTransaction) : DisconnectedBlockTransactions := queue_remove d (GetHash entry).
Definition Disconnected_clear : DisconnectedBlockTransactions := mkDisconnected [] 0.
End Operations.
