(* ===== verification/MempoolGraph.v ===== *)
(** * The walks of the memory pool

    Sums over sets of entries, loops that update entries, and the walks over the links:
    [CalculateDescendants] gives what is reachable through children,
    [CalculateMemPoolAncestors] what is reachable through parents, and its limits are
    exact. *)

From stdpp Require Import gmap sorting relations.
From S2P Require Import Prelude ArithUint256 Serialize Compressor Transaction WitnessUtil TxCheck Coins Mempool.

(** ** Sets in order *)

Lemma in_order_Permutation s : in_order s ≡ₚ elements s.
Proof. apply merge_sort_Permutation. Qed.
Lemma elem_of_in_order h s : h ∈ in_order s <-> h ∈ s.
Proof. by rewrite in_order_Permutation, elem_of_elements. Qed.
Lemma NoDup_in_order s : NoDup (in_order s).
Proof. rewrite in_order_Permutation. apply NoDup_elements. Qed.
Lemma length_in_order s : length (in_order s) = size s.
Proof. by rewrite in_order_Permutation. Qed.
Lemma in_order_nil s : in_order s = [] <-> s = ∅.
Proof.
  split; intros E; [|subst s].
  - apply elem_of_equiv_empty_L. intros x X%elem_of_in_order. rewrite E in X. by apply not_elem_of_nil in X.
  - apply Permutation_nil_r. by rewrite in_order_Permutation, elements_empty.
Qed.
Lemma in_order_head s h l : in_order s = h :: l -> h ∈ s.
Proof. intros E. apply elem_of_in_order. rewrite E. left. Qed.
Lemma in_order_singleton h : in_order {[h]} = [h].
Proof. apply Permutation_length_1_inv. rewrite in_order_Permutation. by rewrite elements_singleton. Qed.
Lemma list_to_set_in_order (s : setEntries) : list_to_set (in_order s) = s.
Proof. apply set_eq. intros x. by rewrite elem_of_list_to_set, elem_of_in_order. Qed.

(** A decision on the listed elements is one on the set. *)
Ltac by_order h s := pose proof (elem_of_in_order h s); destruct (decide (h ∈ in_order s)), (decide (h ∈ s)); (done || tauto).
(** The cases that are left after a walk over a set. *)
Ltac split_order h s := let X := fresh "In" in destruct (decide (h ∈ in_order s)) as [X|X]; rewrite elem_of_in_order in X.

(** ** Sums over sets *)

Definition sum_list (f : uint256 -> Z) (l : list uint256) : Z := foldr (fun h acc => f h + acc) 0 l.
Definition sum_of (f : uint256 -> Z) (s : setEntries) : Z := sum_list f (elements s).

Lemma sum_list_perm f l l' : l ≡ₚ l' -> sum_list f l = sum_list f l'.
Proof. induction 1; simpl; lia. Qed.
Lemma sum_of_in_order f s : sum_list f (in_order s) = sum_of f s.
Proof. apply sum_list_perm, in_order_Permutation. Qed.
Lemma sum_list_ext f g l : (forall h, h ∈ l -> f h = g h) -> sum_list f l = sum_list g l.
Proof. induction l as [|h l IH]; intros E; [done|]. simpl. rewrite E, IH; [done|set_solver..]. Qed.
Lemma sum_of_ext f g s : (forall h, h ∈ s -> f h = g h) -> sum_of f s = sum_of g s.
Proof. intros E. apply sum_list_ext. intros h Hh%elem_of_elements. by apply E. Qed.
Lemma sum_of_empty f : sum_of f ∅ = 0.
Proof. unfold sum_of. by rewrite elements_empty. Qed.
Lemma sum_of_insert f h s : h ∉ s -> sum_of f ({[h]} ∪ s) = f h + sum_of f s.
Proof. intros N. unfold sum_of. by rewrite (sum_list_perm _ _ _ (elements_union_singleton s h N)). Qed.
Lemma sum_of_singleton f h : sum_of f {[h]} = f h.
Proof. unfold sum_of. rewrite elements_singleton. simpl. lia. Qed.
Lemma sum_of_remove f h s : h ∈ s -> sum_of f (s ∖ {[h]}) = sum_of f s - f h.
Proof. intros I. pose proof (sum_of_insert f h (s ∖ {[h]})) as E. rewrite <- union_difference_L in E by set_solver. rewrite E by set_solver. lia. Qed.
Lemma sum_of_union f s t : s ## t -> sum_of f (s ∪ t) = sum_of f s + sum_of f t.
Proof.
  induction s as [|h s N IH] using set_ind_L; intros D; [by rewrite sum_of_empty, union_empty_l_L|].
  rewrite <- union_assoc_L, !sum_of_insert by set_solver. rewrite IH by set_solver. lia.
Qed.
Lemma sum_of_difference f s t : sum_of f (s ∖ t) = sum_of f s - sum_of f (s ∩ t).
Proof.
  assert (E : s = (s ∖ t) ∪ (s ∩ t)) by (apply set_eq; intros x; destruct (decide (x ∈ t)); set_solver).
  pose proof (sum_of_union f (s ∖ t) (s ∩ t) ltac:(set_solver)) as U. rewrite <- E in U. lia.
Qed.
Lemma sum_of_nonneg f s : (forall h, h ∈ s -> 0 <= f h) -> 0 <= sum_of f s.
Proof.
  induction s as [|h s N IH] using set_ind_L; intros P; [by rewrite sum_of_empty|]. rewrite sum_of_insert by done.
  specialize (P h ltac:(set_solver)) as P1. specialize (IH ltac:(set_solver)). lia.
Qed.
Lemma sum_of_subset f s t : s ⊆ t -> (forall h, h ∈ t -> 0 <= f h) -> sum_of f s <= sum_of f t.
Proof.
  intros S P. rewrite (union_difference_L s t S), sum_of_union by set_solver.
  pose proof (sum_of_nonneg f (t ∖ s) ltac:(set_solver)). lia.
Qed.
Lemma sum_of_member f h s : h ∈ s -> (forall x, x ∈ s -> 0 <= f x) -> f h <= sum_of f s.
Proof. intros I P. rewrite <- (sum_of_singleton f h). apply sum_of_subset; [set_solver|done]. Qed.
Lemma sum_of_const c s : sum_of (fun _ => c) s = c * Z.of_nat (size s).
Proof.
  induction s as [|h s N IH] using set_ind_L; [rewrite sum_of_empty, size_empty; lia|].
  rewrite sum_of_insert, size_union, size_singleton by set_solver. lia.
Qed.

(** ** Loops *)

Lemma for_each_app {S A} (l k : list A) (f : S -> A -> res pool_error S) s : for_each (l ++ k) f s = let! s := for_each l f s in for_each k f s.
Proof. revert s. induction l as [|x l IH]; intros s; [done|]. simpl. destruct (f s x); [apply IH|done]. Qed.
(** An invariant of a loop over a list without duplicates, with what is left to do. *)
Lemma for_each_inv {S A} (P : list A -> S -> Prop) (l : list A) (f : S -> A -> res pool_error S) s :
  P l s -> (forall x l s, P (x :: l) s -> exists s', f s x = Ok s' /\ P l s') -> exists s', for_each l f s = Ok s' /\ P [] s'.
Proof.
  intros H Step. revert s H. induction l as [|x l IH]; intros s H; simpl; [by eauto|].
  destruct (Step _ _ _ H) as (s' & -> & H'). by apply IH.
Qed.

(** Every listed entry is updated once. *)
Lemma modify_each (f : uint256 -> CTxMemPoolEntry -> res pool_error CTxMemPoolEntry) (g : uint256 -> CTxMemPoolEntry -> CTxMemPoolEntry) l p :
  NoDup l -> (forall h, h ∈ l -> exists e, mapTx p !! h = Some e /\ f h e = Ok (g h e)) ->
  exists m, for_each l (fun p h => modify p h (f h)) p = Ok (with_mapTx p m) /\
    forall h, m !! h = if decide (h ∈ l) then g h <$> mapTx p !! h else mapTx p !! h.
Proof.
  revert p. induction l as [|x l IH]; intros p N H; cbn [for_each].
  - exists (mapTx p). split; [by destruct p|]. intros h. rewrite decide_False; [done|]. apply not_elem_of_nil.
  - apply NoDup_cons in N as [Nx N]. destruct (H x ltac:(left)) as (e & Ee & Fe). unfold modify at 1. rewrite Ee, Fe. cbn [res_bind].
    destruct (IH (with_mapTx p (<[x := g x e]> (mapTx p))) N) as (m & Hm & Lm).
    { intros h Hh. destruct (H h ltac:(by right)) as (e' & Ee' & Fe'). exists e'. simpl. rewrite lookup_insert_ne; [done|]. by intros ->. }
    exists m. split; [rewrite Hm; by destruct p|]. intros h. rewrite Lm. cbn [mapTx with_mapTx]. destruct (decide (h = x)) as [->|Nh].
    + rewrite lookup_insert_eq, Ee. rewrite decide_False by done. by rewrite decide_True by left.
    + rewrite lookup_insert_ne by done. destruct (decide (h ∈ l)) as [I|I]; [rewrite decide_True by (by right); done|].
      rewrite decide_False; [done|]. rewrite elem_of_cons. tauto.
Qed.

(** ** Reachability *)

Definition parent (p : CTxMemPool) (x y : uint256) : Prop := exists l, mapLinks p !! x = Some l /\ y ∈ parents l.
Definition child (p : CTxMemPool) (x y : uint256) : Prop := exists l, mapLinks p !! x = Some l /\ y ∈ children l.
Definition linked (p : CTxMemPool) : Prop :=
  forall x l, mapLinks p !! x = Some l -> parents l ⊆ dom (mapLinks p) /\ children l ⊆ dom (mapLinks p).

Lemma tc_first {A} (R : relation A) x y : tc R x y -> exists w, R x w /\ rtc R w y.
Proof. intros [? ? ?|? w ? ? ?]; [eexists; split; [done|apply rtc_refl]|]. exists w. split; [done|by apply tc_rtc]. Qed.
(** A set that contains what its members lead to, or leaves it to [stage]. *)
Lemma rtc_leaves (R : uint256 -> uint256 -> Prop) (done_ stage : setEntries) :
  (forall y z, y ∈ done_ -> R y z -> z ∈ done_ \/ z ∈ stage) -> forall y z, rtc R y z -> y ∈ done_ -> z ∈ done_ \/ exists s, s ∈ stage /\ rtc R s z.
Proof.
  intros C y z H. induction H as [y|y w z Hyw Hwz IH]; intros Y; [by left|].
  destruct (C y w Y Hyw) as [W|W]; [by apply IH|right; eauto].
Qed.
(** One round of a walk: [it] moves from the stage to the set, its successors to the stage. *)
Lemma walk_step (R : uint256 -> uint256 -> Prop) (next done_ stage : setEntries) it :
  it ∈ stage -> stage ## done_ -> (forall z, R it z <-> z ∈ next) -> (forall y z, y ∈ done_ -> R y z -> z ∈ done_ \/ z ∈ stage) ->
  let done' := {[it]} ∪ done_ in let stage' := (stage ∖ {[it]}) ∪ (next ∖ done') in
  stage' ## done' /\ (forall y z, y ∈ done' -> R y z -> z ∈ done' \/ z ∈ stage') /\
  forall z, (z ∈ done' \/ exists s, s ∈ stage' /\ rtc R s z) <-> (z ∈ done_ \/ exists s, s ∈ stage /\ rtc R s z).
Proof.
  intros I D N C done' stage'. assert (C' : forall y z, y ∈ done' -> R y z -> z ∈ done' \/ z ∈ stage').
  { intros y z Hy Hyz. destruct (decide (z ∈ done')); [by left|right]. apply elem_of_union in Hy as [->%elem_of_singleton|Hy].
    - apply N in Hyz. set_solver.
    - destruct (C y z Hy Hyz); set_solver. }
  split; [set_solver|split; [exact C'|]]. intros z. split.
  - intros [Z|(s & S & Hs)].
    + apply elem_of_union in Z as [->%elem_of_singleton|Z]; [right; exists it; split; [done|apply rtc_refl]|by left].
    + apply elem_of_union in S as [S|S]; [right; exists s; set_solver|].
      right. exists it. split; [done|]. apply elem_of_difference in S as [S _]. apply rtc_l with s; [by apply N|done].
  - intros [Z|(s & S & Hs)]; [set_solver|]. destruct (decide (s = it)) as [->|Ns]; [|right; exists s; set_solver].
    apply (rtc_leaves R done' stage' C' it z Hs). set_solver.
Qed.

Section Walk.
Context {Env : PoolEnv}.
Variable p : CTxMemPool.
Hypothesis links_ok : linked p.

Lemma descendants_loop_spec fuel : forall stage done_,
  stage ⊆ dom (mapLinks p) -> done_ ⊆ dom (mapLinks p) -> stage ## done_ ->
  (forall y z, y ∈ done_ -> child p y z -> z ∈ done_ \/ z ∈ stage) -> (size (mapLinks p) < fuel + size done_)%nat ->
  exists D, descendants_loop p fuel stage done_ = Ok D /\ D ⊆ dom (mapLinks p) /\ forall z, z ∈ D <-> z ∈ done_ \/ exists s, s ∈ stage /\ rtc (child p) s z.
Proof.
  induction fuel as [|fuel IH]; intros stage done_ S D0 Dj C F.
  { exfalso. pose proof (subseteq_size _ _ D0) as L. rewrite size_dom in L. lia. }
  simpl. destruct (in_order stage) as [|it rest] eqn:E.
  - apply in_order_nil in E as ->. exists done_. split; [done|split; [done|]]. intros z. split; [by left|]. intros [Z|(s & X & _)]; [done|set_solver].
  - apply in_order_head in E. assert (It : it ∈ dom (mapLinks p)) by set_solver. apply elem_of_dom in It as [l Hl].
    unfold GetMemPoolChildren. rewrite Hl. simpl. destruct (links_ok it l Hl) as [_ Lc].
    destruct (walk_step (child p) (children l) done_ stage it E Dj) as (Dj' & C' & Eq).
    { intros z. split; [intros (l' & E' & Z); congruence|]. exists l. done. } { exact C. }
    assert (It' : it ∈ dom (mapLinks p)) by set_solver.
    destruct (IH (stage ∖ {[it]} ∪ children l ∖ ({[it]} ∪ done_)) ({[it]} ∪ done_)) as (D & HD & SD & QD); [set_solver|set_solver|done|done| |].
    { rewrite size_union by set_solver. rewrite size_singleton. lia. }
    exists D. split; [done|split; [done|]]. intros z. by rewrite QD, Eq.
Qed.
(** The set grows by the entry and everything that spends it, directly or not. *)
Lemma CalculateDescendants_spec it done_ : it ∈ dom (mapLinks p) -> done_ ⊆ dom (mapLinks p) -> (forall y z, y ∈ done_ -> child p y z -> z ∈ done_) ->
  exists D, CalculateDescendants p it done_ = Ok D /\ D ⊆ dom (mapLinks p) /\ forall z, z ∈ D <-> z ∈ done_ \/ rtc (child p) it z.
Proof.
  intros I S C. unfold CalculateDescendants. set (stage := if bool_decide _ then _ else _).
  assert (St : forall s, s ∈ stage <-> s = it /\ it ∉ done_) by (intros s; unfold stage; case_bool_decide; set_solver).
  destruct (descendants_loop_spec (Datatypes.S (size (mapLinks p))) stage done_) as (D & HD & SD & Q); [intros s; rewrite St; by intros [-> _]|done| | |lia|].
  { intros s X Y. apply St in X as [-> X]. done. } { intros y z Y Z. left. by apply (C y). }
  exists D. split; [done|split; [done|]]. intros z. rewrite Q. split; intros [Z|Z]; try by left.
  - destruct Z as (s & [-> _]%St & Z). by right.
  - destruct (decide (it ∈ done_)) as [J|J]; [|right; exists it; by rewrite St].
    destruct (rtc_leaves (child p) done_ ∅ ltac:(intros y w Y W; left; by apply (C y)) it z Z J) as [X|(s & X & _)]; [by left|set_solver].
Qed.
Lemma all_descendants_spec l : (forall x, x ∈ l -> x ∈ dom (mapLinks p)) ->
  exists D, all_descendants p l = Ok D /\ D ⊆ dom (mapLinks p) /\ forall z, z ∈ D <-> exists x, x ∈ l /\ rtc (child p) x z.
Proof.
  intros I. unfold all_descendants.
  assert (G : forall l done_, (forall x, x ∈ l -> x ∈ dom (mapLinks p)) -> done_ ⊆ dom (mapLinks p) -> (forall y z, y ∈ done_ -> child p y z -> z ∈ done_) ->
    exists D, for_each l (fun s it => CalculateDescendants p it s) done_ = Ok D /\ D ⊆ dom (mapLinks p) /\
      forall z, z ∈ D <-> z ∈ done_ \/ exists x, x ∈ l /\ rtc (child p) x z).
  { clear I l. induction l as [|x l IH]; intros done_ I S C; simpl.
    - exists done_. split; [done|split; [done|]]. intros z. split; [by left|]. intros [Z|(x & X & _)]; [done|by apply not_elem_of_nil in X].
    - destruct (CalculateDescendants_spec x done_ (I x ltac:(left)) S C) as (D & -> & SD & Q). simpl.
      destruct (IH D) as (D' & HD' & SD' & Q'); [set_solver|done| |].
      { intros y z Y Z. apply Q in Y. apply Q. destruct Y as [Y|Y]; [left; by apply (C y)|right]. by apply rtc_r with y. }
      exists D'. split; [done|split; [done|]]. intros z. rewrite Q', Q. split.
      + intros [[Z|Z]|(y & Y & Z)]; [by left|right; exists x; split; [left|done]|right; exists y; split; [by right|done]].
      + intros [Z|(y & Y & Z)]; [by left; left|]. apply elem_of_cons in Y as [->|Y]; [by left; right|right; eauto]. }
  destruct (G l ∅ I) as (D & HD & SD & Q); [set_solver|set_solver|]. exists D. split; [done|split; [done|]].
  intros z. rewrite Q. split; [intros [X|X]; [set_solver|done]|by right].
Qed.
End Walk.

(** ** Ancestors and limits *)

(** What a finite set of entries leads to. *)
Lemma reach_exists (R : uint256 -> uint256 -> Prop) (D : setEntries) n : (forall x, x ∈ D -> exists next : setEntries, next ⊆ D /\ forall z, R x z <-> z ∈ next) ->
  forall stage done_ : setEntries, stage ⊆ D -> done_ ⊆ D -> stage ## done_ -> (forall y z, y ∈ done_ -> R y z -> z ∈ done_ \/ z ∈ stage) -> (size D < n + size done_)%nat ->
  exists A : setEntries, A ⊆ D /\ forall z, z ∈ A <-> z ∈ done_ \/ exists s, s ∈ stage /\ rtc R s z.
Proof.
  intros Next. induction n as [|n IH]; intros stage done_ S D0 Dj C F.
  { pose proof (subseteq_size _ _ D0). lia. }
  destruct (set_choose_or_empty stage) as [[it E]|E].
  - destruct (Next it ltac:(set_solver)) as (next & SN & HN).
    destruct (walk_step R next done_ stage it E Dj HN C) as (Dj' & C' & Eq).
    destruct (IH (stage ∖ {[it]} ∪ next ∖ ({[it]} ∪ done_)) ({[it]} ∪ done_)) as (A & SA & QA); [set_solver|set_solver|done|done| |].
    { rewrite size_union by set_solver. rewrite size_singleton. lia. }
    exists A. split; [done|]. intros z. by rewrite QA, Eq.
  - exists done_. split; [done|]. intros z. split; [by left|]. intros [Z|(s & X & _)]; [done|set_solver].
Qed.
Lemma ancestors_exist (p : CTxMemPool) (stage : setEntries) : linked p -> stage ⊆ dom (mapLinks p) ->
  exists A : setEntries, A ⊆ dom (mapLinks p) /\ forall z, z ∈ A <-> exists s, s ∈ stage /\ rtc (parent p) s z.
Proof.
  intros K S. destruct (reach_exists (parent p) (dom (mapLinks p)) (Datatypes.S (size (dom (mapLinks p))))) with (stage := stage) (done_ := ∅ : setEntries) as (A & SA & Q).
  - intros x [l Hl]%elem_of_dom. exists (parents l). split; [by apply (K x l)|]. intros z. split; [intros (l' & E' & Z); congruence|exists l; done].
  - done.
  - set_solver.
  - set_solver.
  - set_solver.
  - lia.
  - exists A. split; [done|]. intros z. rewrite Q. set_solver.
Qed.

Section Limits.
Context {Env : PoolEnv}.
Variable p : CTxMemPool.
Variable entry : CTxMemPoolEntry.
Variables limitAncestorCount limitAncestorSize limitDescendantCount limitDescendantSize : Z.
Hypothesis links_ok : linked p.
Hypothesis links_in : dom (mapLinks p) ⊆ dom (mapTx p).

Definition entry_size (p : CTxMemPool) (h : uint256) : Z := match mapTx p !! h with Some e => GetTxSize e | None => 0 end.
Hypothesis no_overflow : GetTxSize entry + sum_of (entry_size p) (dom (mapLinks p)) < 2 ^ 64.

(** An ancestor stays within its limits when the entry joins its descendants. *)
Definition ancestor_ok (a : uint256) : Prop :=
  forall e, mapTx p !! a = Some e ->
    u64 (nSizeWithDescendants e + GetTxSize entry) <= limitDescendantSize /\ u64 (nCountWithDescendants e + 1) <= limitDescendantCount.
Definition within_limits (A : setEntries) : Prop :=
  A = ∅ \/ (Z.of_nat (size A) + 1 <= limitAncestorCount /\ GetTxSize entry + sum_of (entry_size p) A <= limitAncestorSize /\ forall a, a ∈ A -> ancestor_ok a).

Lemma entry_size_nonneg h : 0 <= entry_size p h.
Proof. unfold entry_size. destruct (mapTx p !! h) as [e|]; [apply u64_range|lia]. Qed.
Lemma partial_size (A : setEntries) : A ⊆ dom (mapLinks p) -> 0 <= sum_of (entry_size p) A /\ GetTxSize entry + sum_of (entry_size p) A < 2 ^ 64.
Proof.
  intros S. split; [apply sum_of_nonneg; intros; apply entry_size_nonneg|].
  pose proof (sum_of_subset (entry_size p) A (dom (mapLinks p)) S (fun h _ => entry_size_nonneg h)). lia.
Qed.

Lemma no_more (stage done_ next : setEntries) : next = ∅ -> stage ∪ next ∖ done_ = stage.
Proof. intros ->. set_solver. Qed.
Lemma scan_parents_spec (done_ : setEntries) l : forall ps, ps ## done_ ->
  match scan_parents done_ limitAncestorCount l ps with
  | Some ps' => ps' = ps ∪ (list_to_set l ∖ done_) /\ (l = [] \/ Z.of_nat (size ps') + Z.of_nat (size done_) + 1 <= limitAncestorCount)
  | None => limitAncestorCount < Z.of_nat (size (ps ∪ (list_to_set l ∖ done_))) + Z.of_nat (size done_) + 1
  end.
Proof.
  induction l as [|h l IH]; intros ps D; simpl; [split; [set_solver|by left]|].
  set (ps1 := if bool_decide (h ∈ done_) then ps else {[h]} ∪ ps).
  assert (E : ps1 ∪ (list_to_set l ∖ done_) = ps ∪ (({[h]} ∪ list_to_set l) ∖ done_)) by (unfold ps1; case_bool_decide; set_solver).
  assert (D1 : ps1 ## done_) by (unfold ps1; case_bool_decide; set_solver).
  destruct (Z.gtb_spec (Z.of_nat (size ps1) + Z.of_nat (size done_) + 1) limitAncestorCount) as [G|G].
  - rewrite <- E. pose proof (subseteq_size ps1 (ps1 ∪ list_to_set l ∖ done_) ltac:(set_solver)). lia.
  - specialize (IH ps1 D1). destruct (scan_parents done_ limitAncestorCount l ps1) as [ps'|]; rewrite <- E; [|done].
    destruct IH as [-> [->|B]]; split; try done; right; [|done].
    rewrite (no_more ps1 done_ (list_to_set [])) by done. exact G.
Qed.

Lemma ancestors_loop_spec (A : setEntries) fuel : A ⊆ dom (mapLinks p) -> forall (stage done_ : setEntries) total,
  stage ⊆ dom (mapLinks p) -> done_ ⊆ dom (mapLinks p) -> stage ## done_ ->
  (forall y z, y ∈ done_ -> parent p y z -> z ∈ done_ \/ z ∈ stage) -> (size (mapLinks p) < fuel + size done_)%nat ->
  (forall z, z ∈ A <-> z ∈ done_ \/ exists s, s ∈ stage /\ rtc (parent p) s z) ->
  total = GetTxSize entry + sum_of (entry_size p) done_ -> (done_ = ∅ \/ total <= limitAncestorSize) -> (forall a, a ∈ done_ -> ancestor_ok a) ->
  (stage ∪ done_ = ∅ \/ Z.of_nat (size stage) + Z.of_nat (size done_) + 1 <= limitAncestorCount) ->
  let r := ancestors_loop p entry limitAncestorCount limitAncestorSize limitDescendantCount limitDescendantSize fuel total stage done_ in
  (r = Ok (inr A) /\ within_limits A) \/ (exists e, r = Ok (inl e) /\ ~ within_limits A).
Proof.
  intros SA. induction fuel as [|fuel IH]; intros stage done_ total S D0 Dj C F Q T B1 B2 B3.
  { exfalso. pose proof (subseteq_size _ _ D0) as L. rewrite size_dom in L. lia. }
  cbn [ancestors_loop]. destruct (in_order stage) as [|it rest] eqn:E.
  - apply in_order_nil in E as ->. assert (A = done_) as ->. { apply set_eq. intros z. rewrite Q. set_solver. }
    left. split; [done|]. destruct (decide (done_ = ∅)) as [->|N]; [by left|right].
    destruct B1 as [B1|B1]; [done|]. destruct B3 as [B3|B3]; [set_solver|]. rewrite size_empty in B3. split; [lia|split; [lia|done]].
  - apply in_order_head in E. assert (It : it ∈ dom (mapLinks p)) by set_solver. assert (ItA : it ∈ A). { apply Q. right. exists it. split; [done|apply rtc_refl]. }
    assert (NE : A <> ∅) by set_solver. pose proof (links_in it It) as Ie. apply elem_of_dom in Ie as [e He]. apply elem_of_dom in It as [l Hl].
    unfold entry_at, GetMemPoolParents. rewrite He, Hl. cbn [res_bind].
    destruct (links_ok it l Hl) as [Lp _].
    destruct (walk_step (parent p) (parents l) done_ stage it E Dj) as (Dj' & C' & Eq).
    { intros z. split; [intros (l' & E' & Z); congruence|exists l; done]. } { exact C. }
    assert (D1 : {[it]} ∪ done_ ⊆ A). { intros z Z. apply Q, Eq. by left. }
    assert (T' : u64 (total + GetTxSize e) = GetTxSize entry + sum_of (entry_size p) ({[it]} ∪ done_)).
    { pose proof (partial_size ({[it]} ∪ done_) ltac:(set_solver)) as [P0 P1]. pose proof (u64_range (GetVirtualTransactionSize (i64 (nTxWeight entry)) (sigOpCost entry))) as P2.
      fold (GetTxSize entry) in P2. assert (Es : entry_size p it = GetTxSize e) by (unfold entry_size; by rewrite He).
      rewrite sum_of_insert, Es in * by set_solver. rewrite u64_small; lia. }
    rewrite T'. assert (V : forall e0, ~ ancestor_ok it \/ limitAncestorSize < GetTxSize entry + sum_of (entry_size p) A \/ limitAncestorCount < Z.of_nat (size A) + 1 ->
      exists e1, Ok (inl e0) = Ok (E := pool_error) (A := limit_error + setEntries) (inl e1) /\ ~ within_limits A).
    { intros e0 X. exists e0. split; [done|]. intros [Y|(Y1 & Y2 & Y3)]; [done|]. destruct X as [X|[X|X]]; [apply X, Y3, ItA|lia|lia]. }
    repeat match goal with |- context [if ?a >? ?b then _ else _] => let G := fresh "G" in destruct (Z.gtb_spec a b) as [G|G] end; [right; apply V..|].
    + left. intros X. destruct (X e He). lia.
    + left. intros X. destruct (X e He). lia.
    + right. left. pose proof (sum_of_subset (entry_size p) _ _ D1 (fun h _ => entry_size_nonneg h)). lia.
    + pose proof (scan_parents_spec ({[it]} ∪ done_) (in_order (parents l)) (stage ∖ {[it]}) ltac:(set_solver)) as Sc.
      rewrite list_to_set_in_order in Sc. destruct (scan_parents _ _ _ _) as [ps'|].
      * destruct Sc as [-> Bd]. apply IH; try done; [set_solver|set_solver| | |by right| |].
        -- rewrite size_union by set_solver. rewrite size_singleton. lia.
        -- intros z. by rewrite Q, Eq.
        -- intros a [->%elem_of_singleton|Ia]%elem_of_union; [|by apply B2]. intros e' He'. rewrite He in He'. injection He' as <-. lia.
        -- right. destruct Bd as [Bd|Bd]; [|lia]. apply in_order_nil in Bd. rewrite (no_more _ _ (parents l)) by done.
           destruct B3 as [B3|B3]; [set_solver|]. rewrite size_difference, size_union, size_singleton by set_solver. pose proof (subseteq_size {[it]} stage ltac:(set_solver)) as Y. rewrite size_singleton in Y. lia.
      * right. apply V. right. right. assert (SS : (stage ∖ {[it]} ∪ parents l ∖ ({[it]} ∪ done_)) ∪ ({[it]} ∪ done_) ⊆ A).
        { intros z [Z|Z]%elem_of_union; [|by apply D1]. apply Q, Eq. right. exists z. split; [done|apply rtc_refl]. }
        apply subseteq_size in SS. rewrite size_union in SS by set_solver. lia.
Qed.
End Limits.

(** *** From the entry *)

Definition input_hashes (ins : list CTxIn) : setEntries :=
  list_to_set (omap (fun i => if isHash (prevout i) then Some (op_hash (prevout i)) else None) ins).
(** The transactions of the pool that it spends by their hashes. *)
Definition pool_parents (p : CTxMemPool) (ins : list CTxIn) : setEntries := input_hashes ins ∩ dom (mapTx p).

Lemma elem_of_input_hashes h ins : h ∈ input_hashes ins <-> exists i, i ∈ ins /\ isHash (prevout i) = true /\ op_hash (prevout i) = h.
Proof.
  unfold input_hashes. rewrite elem_of_list_to_set, list_elem_of_omap. split.
  - intros (i & I & E). exists i. destruct (isHash (prevout i)); [|done]. injection E as E. done.
  - intros (i & I & E & <-). exists i. by rewrite E.
Qed.
Lemma find_parents_spec p limit ins : forall acc,
  match find_parents p limit ins acc with
  | inr ps => ps = acc ∪ pool_parents p ins /\ (ps = acc \/ Z.of_nat (size ps) + 1 <= limit)
  | inl _ => limit < Z.of_nat (size (acc ∪ pool_parents p ins)) + 1 /\ acc ∪ pool_parents p ins <> ∅
  end.
Proof.
  unfold pool_parents. induction ins as [|i ins IH]; intros acc; simpl; [split; [set_solver|by left]|].
  unfold input_hashes in *. cbn [omap list_omap]. unfold exists_. destruct (isHash (prevout i)); cbn [andb list_to_set].
  2: { exact (IH acc). }
  set (h := op_hash (prevout i)). case_bool_decide as X; [apply elem_of_dom in X|rewrite <- elem_of_dom in X].
  - replace (acc ∪ ({[h]} ∪ list_to_set (omap _ ins)) ∩ dom (mapTx p)) with ({[h]} ∪ acc ∪ list_to_set (omap (fun i => if isHash (prevout i) then Some (op_hash (prevout i)) else None) ins) ∩ dom (mapTx p)) by set_solver.
    specialize (IH ({[h]} ∪ acc)). destruct (Z.gtb_spec (Z.of_nat (size ({[h]} ∪ acc)) + 1) limit) as [G|G].
    + pose proof (subseteq_size ({[h]} ∪ acc) ({[h]} ∪ acc ∪ list_to_set (omap (fun i => if isHash (prevout i) then Some (op_hash (prevout i)) else None) ins) ∩ dom (mapTx p)) ltac:(set_solver)). split; [lia|set_solver].
    + destruct (find_parents p limit ins ({[h]} ∪ acc)) as [e|ps]; [done|]. destruct IH as [IH Bd]. split; [done|]. right. destruct Bd as [->|Bd]; lia.
  - replace (acc ∪ ({[h]} ∪ list_to_set (omap _ ins)) ∩ dom (mapTx p)) with (acc ∪ list_to_set (omap (fun i => if isHash (prevout i) then Some (op_hash (prevout i)) else None) ins) ∩ dom (mapTx p)) by set_solver.
    exact (IH acc).
Qed.

Section Search.
Context {Env : PoolEnv}.
Variable p : CTxMemPool.
Hypothesis links_ok : linked p.
Hypothesis same_dom : dom (mapLinks p) = dom (mapTx p).

(** The entries that [stage] leads to through parents. *)
Definition ancestors_from (stage A : setEntries) : Prop := forall z, z ∈ A <-> exists s, s ∈ stage /\ rtc (parent p) s z.

Lemma ancestors_loop_start (entry : CTxMemPoolEntry) (limC limS limDC limDS : Z) (stage A : setEntries) :
  GetTxSize entry + sum_of (entry_size p) (dom (mapTx p)) < 2 ^ 64 -> stage ⊆ dom (mapTx p) -> ancestors_from stage A -> A ⊆ dom (mapTx p) ->
  (stage = ∅ \/ Z.of_nat (size stage) + 1 <= limC) ->
  let r := ancestors_loop p entry limC limS limDC limDS (Datatypes.S (size (mapLinks p))) (GetTxSize entry) stage ∅ in
  (r = Ok (inr A) /\ within_limits p entry limC limS limDC limDS A) \/ (exists e, r = Ok (inl e) /\ ~ within_limits p entry limC limS limDC limDS A).
Proof.
  intros O S Q SA B. rewrite <- same_dom in *. apply ancestors_loop_spec; try done.
  - by rewrite <- same_dom.
  - rewrite size_empty. lia.
  - intros z. rewrite (Q z). split; [by right|]. intros [X|X]; [by apply not_elem_of_empty in X|done].
  - rewrite sum_of_empty. lia.
  - by left.
  - rewrite size_empty, union_empty_r_L. destruct B; [by left|right; lia].
Qed.
Lemma CalculateMemPoolAncestors_spec (entry : CTxMemPoolEntry) (limC limS limDC limDS : Z) :
  GetTxSize entry + sum_of (entry_size p) (dom (mapTx p)) < 2 ^ 64 ->
  exists A, ancestors_from (pool_parents p (vin (e_tx entry))) A /\ A ⊆ dom (mapTx p) /\
    let r := CalculateMemPoolAncestors p entry limC limS limDC limDS true in
    (r = Ok (inr A) /\ within_limits p entry limC limS limDC limDS A) \/ (exists e, r = Ok (inl e) /\ ~ within_limits p entry limC limS limDC limDS A).
Proof.
  intros O. destruct (ancestors_exist p (pool_parents p (vin (e_tx entry)))) as (A & SA & Q); [done|rewrite same_dom; unfold pool_parents; set_solver|].
  rewrite same_dom in SA. exists A. split; [exact Q|split; [exact SA|]]. unfold CalculateMemPoolAncestors. cbn [res_bind].
  pose proof (find_parents_spec p limC (vin (e_tx entry)) ∅) as F. rewrite union_empty_l_L in F. destruct (find_parents _ _ _ _) as [e|ps].
  - right. exists e. split; [done|]. assert (SP : pool_parents p (vin (e_tx entry)) ⊆ A). { intros z Z. apply Q. exists z. split; [done|apply rtc_refl]. }
    destruct F as [F NE]. intros [E|(X & _)]; [|apply subseteq_size in SP; lia]. subst A. set_solver.
  - destruct F as [-> B]. apply ancestors_loop_start; try done. unfold pool_parents; set_solver.
Qed.
(** Without limits the walk is complete. *)
Lemma within_no_limits (entry : CTxMemPoolEntry) (A : setEntries) :
  GetTxSize entry + sum_of (entry_size p) (dom (mapTx p)) < 2 ^ 64 -> Z.of_nat (size (mapTx p)) < 2 ^ 63 -> A ⊆ dom (mapTx p) ->
  within_limits p entry nNoLimit nNoLimit nNoLimit nNoLimit A.
Proof.
  intros O N SA. right. unfold nNoLimit, UINT64_MAX. pose proof (subseteq_size _ _ SA) as L. rewrite size_dom in L.
  pose proof (sum_of_subset (entry_size p) _ _ SA (fun h _ => entry_size_nonneg p h)). split; [lia|split; [lia|]].
  intros a _ e _. split; pose proof u64_range as R; [specialize (R (nSizeWithDescendants e + GetTxSize entry))|specialize (R (nCountWithDescendants e + 1))]; lia.
Qed.
Lemma all_ancestors_spec (entry : CTxMemPoolEntry) (search : bool) (stage : setEntries) :
  GetTxSize entry + sum_of (entry_size p) (dom (mapTx p)) < 2 ^ 64 -> Z.of_nat (size (mapTx p)) < 2 ^ 63 ->
  (if search then stage = pool_parents p (vin (e_tx entry)) else exists l, mapLinks p !! GetHash (e_tx entry) = Some l /\ parents l = stage) ->
  exists A, all_ancestors p entry search = Ok A /\ ancestors_from stage A /\ A ⊆ dom (mapTx p).
Proof.
  intros O N E. unfold all_ancestors. destruct search.
  - subst stage. destruct (CalculateMemPoolAncestors_spec entry nNoLimit nNoLimit nNoLimit nNoLimit O) as (A & Q & SA & [[-> _]|(e & _ & X)]).
    + by exists A.
    + destruct X. by apply within_no_limits.
  - destruct E as (l & Hl & El). destruct (links_ok _ _ Hl) as [Lp _]. rewrite El in Lp. unfold CalculateMemPoolAncestors, GetMemPoolParents. rewrite Hl. cbn [res_bind]. rewrite El.
    destruct (ancestors_exist p stage links_ok Lp) as (A & SA & Q). rewrite same_dom in *.
    destruct (ancestors_loop_start entry nNoLimit nNoLimit nNoLimit nNoLimit stage A O Lp Q SA) as [[-> _]|(e & _ & X)].
    + right. apply subseteq_size in Lp. rewrite size_dom in Lp. unfold nNoLimit, UINT64_MAX. lia.
    + by exists A.
    + destruct X. by apply within_no_limits.
Qed.
End Search.
