(* ===== verification/MempoolInvariant.v ===== *)
(** * The invariant of the memory pool

    A pool is consistent when its links are the spends between its entries, the index
    of spent outpoints is that of its inputs, the statistics of every entry are those
    of its ancestors and descendants, and the totals and the list of witness hashes
    agree with the entries: what [CTxMemPool::check] asserts. Here is the invariant
    with the lemmas on single updates; [MempoolSpec] has the operations. *)

From stdpp Require Import gmap sorting relations.
From S2P Require Import Prelude ArithUint256 Serialize Compressor Transaction WitnessUtil TxCheck Coins Mempool MempoolGraph.

(** ** Entries *)

Definition set_desc (cnt sz fee : Z) (e : CTxMemPoolEntry) : CTxMemPoolEntry :=
  mkPoolEntry (e_tx e) (nFee e) (nTxWeight e) (nUsageSize e) (nTime e) (entryHeight e) (spendCoinbaseCount e) (sigOpCost e) (feeDelta e) (lockPoints e)
    cnt sz fee (nCountWithAncestors e) (nSizeWithAncestors e) (nModFeesWithAncestors e) (nSigOpCostWithAncestors e) (vTxHashesIdx e).
Definition set_anc (cnt sz fee sig : Z) (e : CTxMemPoolEntry) : CTxMemPoolEntry :=
  mkPoolEntry (e_tx e) (nFee e) (nTxWeight e) (nUsageSize e) (nTime e) (entryHeight e) (spendCoinbaseCount e) (sigOpCost e) (feeDelta e) (lockPoints e)
    (nCountWithDescendants e) (nSizeWithDescendants e) (nModFeesWithDescendants e) cnt sz fee sig (vTxHashesIdx e).

Lemma i64_mod x : i64 x mod 2 ^ 64 = x mod 2 ^ 64.
Proof. unfold i64, swrap. change (64 - 1) with 63. zdm. lia. Qed.
Lemma i64_eq_mod x y : x mod 2 ^ 64 = y mod 2 ^ 64 -> i64 x = i64 y.
Proof. intros E. unfold i64, swrap. change (64 - 1) with 63. rewrite (Z.add_mod x), (Z.add_mod y), E by lia. done. Qed.
Lemma u64_mod x : u64 x mod 2 ^ 64 = x mod 2 ^ 64.
Proof. unfold u64, uwrap. by rewrite Z.mod_mod by lia. Qed.
Lemma i64_add_l x y : i64 (i64 x + y) = i64 (x + y).
Proof. apply i64_eq_mod. rewrite Z.add_mod, i64_mod, <- Z.add_mod by lia. done. Qed.
Lemma i64_add_r x y : i64 (x + i64 y) = i64 (x + y).
Proof. by rewrite Z.add_comm, i64_add_l, Z.add_comm. Qed.
Lemma i64_u64 x : i64 (u64 x) = i64 x.
Proof. apply i64_eq_mod, u64_mod. Qed.
Lemma u64_add_l x y : u64 (u64 x + y) = u64 (x + y).
Proof. unfold u64, uwrap. by rewrite Z.add_mod_idemp_l by lia. Qed.
Lemma u64_sub_l x y : u64 (u64 x - y) = u64 (x - y).
Proof. exact (u64_add_l x (- y)). Qed.

Section Entries.
Context {Env : PoolEnv}.

(** An update whose results stay in range does not fail, and is exact. *)
Lemma UpdateDescendantState_exact m f c e : 0 < nSizeWithDescendants e + m < 2 ^ 63 -> 0 < nCountWithDescendants e + c < 2 ^ 63 ->
  UpdateDescendantState m f c e = Ok (set_desc (nCountWithDescendants e + c) (nSizeWithDescendants e + m) (i64 (nModFeesWithDescendants e + f)) e).
Proof.
  intros S C. unfold UpdateDescendantState. rewrite !u64_small, !i64_small by lia. by rewrite !(proj2 (Z.ltb_lt _ _)) by lia.
Qed.
Lemma UpdateAncestorState_exact m f c g e : 0 < nSizeWithAncestors e + m < 2 ^ 63 -> 0 < nCountWithAncestors e + c < 2 ^ 63 ->
  - 2 ^ 31 < g < 2 ^ 31 -> 0 <= nSigOpCostWithAncestors e + g < 2 ^ 31 ->
  UpdateAncestorState m f c g e =
  Ok (set_anc (nCountWithAncestors e + c) (nSizeWithAncestors e + m) (i64 (nModFeesWithAncestors e + f)) (nSigOpCostWithAncestors e + g) e).
Proof.
  intros S C G1 G2. unfold UpdateAncestorState. rewrite !u64_small by lia. rewrite (i32_small g) by lia. rewrite !i64_small by lia.
  rewrite i32_small by lia. rewrite !(proj2 (Z.ltb_lt _ _)), (proj2 (Z.leb_le _ _)) by lia. done.
Qed.

(** What an entry counts for in the statistics of others. *)
Definition entry_fee (p : CTxMemPool) (h : uint256) : Z := match mapTx p !! h with Some e => GetModifiedFee e | None => 0 end.
Definition entry_sigops (p : CTxMemPool) (h : uint256) : Z := match mapTx p !! h with Some e => sigOpCost e | None => 0 end.
Definition entry_usage (p : CTxMemPool) (h : uint256) : Z :=
  match mapTx p !! h with Some e => nUsageSize e | None => 0 end +
  match mapLinks p !! h with Some l => set_node * Z.of_nat (size (parents l)) + set_node * Z.of_nat (size (children l)) | None => 0 end.

(** ** The invariant *)

(** The links are the spends by hash between the entries. *)
Record links_consistent (p : CTxMemPool) : Prop := {
  lc_dom : dom (mapLinks p) = dom (mapTx p);
  lc_parents : forall h e l, mapTx p !! h = Some e -> mapLinks p !! h = Some l -> parents l = pool_parents p (vin (e_tx e));
  lc_children : forall x y, child p x y <-> parent p y x;
  lc_acyclic : forall h, ~ tc (parent p) h h
}.

(** An entry with its ancestors, and with its descendants. *)
Definition with_ancestors (p : CTxMemPool) (h : uint256) (P : setEntries) : Prop := forall z, z ∈ P <-> rtc (parent p) h z.
Definition with_descendants (p : CTxMemPool) (h : uint256) (P : setEntries) : Prop := forall z, z ∈ P <-> rtc (parent p) z h.
Definition anc_stats (p : CTxMemPool) (P : setEntries) (e : CTxMemPoolEntry) : Prop :=
  nCountWithAncestors e = Z.of_nat (size P) /\ nSizeWithAncestors e = sum_of (entry_size p) P /\
  nModFeesWithAncestors e = i64 (sum_of (entry_fee p) P) /\ nSigOpCostWithAncestors e = sum_of (entry_sigops p) P.
Definition desc_stats (p : CTxMemPool) (P : setEntries) (e : CTxMemPoolEntry) : Prop :=
  nCountWithDescendants e = Z.of_nat (size P) /\ nSizeWithDescendants e = sum_of (entry_size p) P /\
  nModFeesWithDescendants e = i64 (sum_of (entry_fee p) P).
Definition stats_consistent (p : CTxMemPool) : Prop :=
  forall h e, mapTx p !! h = Some e -> (forall P, with_ancestors p h P -> anc_stats p P e) /\ (forall P, with_descendants p h P -> desc_stats p P e).

(** The indexes and the totals. *)
Record books_consistent (p : CTxMemPool) : Prop := {
  bc_hash : forall h e, mapTx p !! h = Some e -> GetHash (e_tx e) = h;
  bc_dom : dom (mapLinks p) = dom (mapTx p);
  bc_next : forall o h, mapNextTx p !! o = Some h <-> exists e i, mapTx p !! h = Some e /\ i ∈ vin (e_tx e) /\ outpoint_key (prevout i) = o;
  bc_size : totalTxSize p = u64 (sum_of (entry_size p) (dom (mapTx p)));
  bc_usage : cachedInnerUsage p = u64 (sum_of (entry_usage p) (dom (mapTx p)));
  bc_back : forall i w h, vTxHashes p !! i = Some (w, h) -> exists e, mapTx p !! h = Some e /\ vTxHashesIdx e = Z.of_nat i;
  bc_idx : forall h e, mapTx p !! h = Some e -> 0 <= vTxHashesIdx e /\ vTxHashes p !! Z.to_nat (vTxHashesIdx e) = Some (GetWitnessHash (e_tx e), h)
}.
(** No overflow: far beyond the limits on the size of a pool. *)
Record pool_small (p : CTxMemPool) : Prop := {
  sm_size : sum_of (entry_size p) (dom (mapTx p)) < 2 ^ 63;
  sm_sigops : sum_of (entry_sigops p) (dom (mapTx p)) < 2 ^ 31;
  sm_count : Z.of_nat (size (mapTx p)) < 2 ^ 63;
  sm_entry : forall h e, mapTx p !! h = Some e -> 0 < GetTxSize e /\ 0 <= sigOpCost e
}.
Record pool_ok (p : CTxMemPool) : Prop := {
  pk_links : links_consistent p;
  pk_stats : stats_consistent p;
  pk_books : books_consistent p;
  pk_small : pool_small p
}.

Lemma parent_dom p x y : links_consistent p -> parent p x y -> x ∈ dom (mapTx p) /\ y ∈ dom (mapTx p).
Proof.
  intros K (l & Hl & Y). assert (X : x ∈ dom (mapTx p)) by (rewrite <- (lc_dom p K); by apply elem_of_dom_2 in Hl). split; [done|].
  apply elem_of_dom in X as [e He]. rewrite (lc_parents p K x e l He Hl) in Y. unfold pool_parents in Y. set_solver.
Qed.
Lemma links_linked p : links_consistent p -> linked p.
Proof.
  intros K x l Hl. rewrite (lc_dom p K). split; intros y Y.
  - apply (parent_dom p x y K). by exists l.
  - apply (parent_dom p y x K). apply (lc_children p K). by exists l.
Qed.
Lemma rtc_parent_dom p x y : links_consistent p -> rtc (parent p) x y -> (x ∈ dom (mapTx p) <-> y ∈ dom (mapTx p)).
Proof. intros K H. induction H as [|x y z X _ IH]; [done|]. rewrite <- IH. pose proof (parent_dom p x y K X). tauto. Qed.
Lemma rtc_child_parent p x y : links_consistent p -> (rtc (child p) x y <-> rtc (parent p) y x).
Proof.
  intros K. split; intros H.
  - induction H as [|x y z X _ IH]; [apply rtc_refl|]. apply rtc_r with y; [done|]. by apply (lc_children p K).
  - induction H as [|x y z X _ IH]; [apply rtc_refl|]. apply rtc_r with y; [done|]. by apply (lc_children p K).
Qed.
Lemma rtc_parent_antisym p x y : links_consistent p -> rtc (parent p) x y -> rtc (parent p) y x -> x = y.
Proof.
  intros K X Y. apply rtc_tc in X as [X|X]; [done|]. exfalso. apply (lc_acyclic p K x). by apply tc_rtc_r with y.
Qed.

(** ** Updates of the links *)

Definition usage_ok (p : CTxMemPool) : Prop := cachedInnerUsage p = u64 (sum_of (entry_usage p) (dom (mapTx p))).
Definition put (add : bool) (c : uint256) (s : setEntries) : setEntries := if add then {[c]} ∪ s else s ∖ {[c]}.
Lemma put_size add c s : Z.of_nat (size (put add c s)) = Z.of_nat (size s) + if bool_decide (put add c s = s) then 0 else if add then 1 else -1.
Proof.
  unfold put. destruct add; case_bool_decide as E; try (rewrite E; lia).
  - destruct (decide (c ∈ s)); [destruct E; set_solver|]. rewrite size_union, size_singleton by set_solver. lia.
  - destruct (decide (c ∈ s)); [|destruct E; set_solver]. rewrite size_difference, size_singleton by set_solver.
    pose proof (subseteq_size {[c]} s ltac:(set_solver)) as L. rewrite size_singleton in L. lia.
Qed.
(** Replacing the links of one entry. *)
Lemma relink_usage p h l l' u : usage_ok p -> h ∈ dom (mapTx p) -> mapLinks p !! h = Some l ->
  u64 u = u64 (cachedInnerUsage p + set_node * (Z.of_nat (size (parents l')) + Z.of_nat (size (children l')) - Z.of_nat (size (parents l)) - Z.of_nat (size (children l)))) ->
  u64 u = u64 (sum_of (entry_usage (with_links p (<[h := l']> (mapLinks p)) (u64 u))) (dom (mapTx p))).
Proof.
  intros U D Hl E. set (q := with_links p (<[h := l']> (mapLinks p)) (u64 u)).
  rewrite E, U, u64_add_l. f_equal. pose proof (sum_of_remove (entry_usage p) h _ D) as R1. pose proof (sum_of_remove (entry_usage q) h _ D) as R2.
  rewrite (sum_of_ext (entry_usage q) (entry_usage p) (dom (mapTx p) ∖ {[h]})) in R2.
  - unfold entry_usage at 3 in R1. unfold entry_usage at 3 in R2. cbn [q mapTx mapLinks with_links] in R2. rewrite lookup_insert_eq in R2. rewrite Hl in R1. lia.
  - intros y Y. unfold entry_usage. cbn [q mapTx mapLinks with_links]. rewrite lookup_insert_ne; [done|]. set_solver.
Qed.
Lemma UpdateChild_usage p h c add l : usage_ok p -> h ∈ dom (mapTx p) -> mapLinks p !! h = Some l ->
  usage_ok (UpdateChild p h c add) /\ mapLinks (UpdateChild p h c add) = <[h := mkLinks (parents l) (put add c (children l))]> (mapLinks p).
Proof.
  intros U D Hl. unfold UpdateChild, links_of. rewrite Hl. change (default no_links (Some l)) with l. fold (put add c (children l)). split; [|done].
  pose proof (put_size add c (children l)) as S. unfold usage_ok. cbn [cachedInnerUsage mapTx with_links].
  assert (N : u64 (cachedInnerUsage p) = cachedInnerUsage p) by (rewrite U; unfold u64, uwrap; by rewrite Z.mod_mod by lia).
  case_bool_decide.
  - rewrite <- N. apply (relink_usage p h l); try done. cbn [parents children]. f_equal. lia.
  - apply (relink_usage p h l); try done. cbn [parents children]. f_equal. destruct add; lia.
Qed.
Lemma UpdateParent_usage p h c add l : usage_ok p -> h ∈ dom (mapTx p) -> mapLinks p !! h = Some l ->
  usage_ok (UpdateParent p h c add) /\ mapLinks (UpdateParent p h c add) = <[h := mkLinks (put add c (parents l)) (children l)]> (mapLinks p).
Proof.
  intros U D Hl. unfold UpdateParent, links_of. rewrite Hl. change (default no_links (Some l)) with l. fold (put add c (parents l)). split; [|done].
  pose proof (put_size add c (parents l)) as S. unfold usage_ok. cbn [cachedInnerUsage mapTx with_links].
  assert (N : u64 (cachedInnerUsage p) = cachedInnerUsage p) by (rewrite U; unfold u64, uwrap; by rewrite Z.mod_mod by lia).
  case_bool_decide.
  - rewrite <- N. apply (relink_usage p h l); try done. cbn [parents children]. f_equal. lia.
  - apply (relink_usage p h l); try done. cbn [parents children]. f_equal. destruct add; lia.
Qed.

(** A loop that replaces the links of each listed entry. *)
Definition relinks (upd : CTxMemPool -> uint256 -> CTxMemPool) (F : TxLinks -> TxLinks) : Prop :=
  forall p h l, usage_ok p -> h ∈ dom (mapTx p) -> mapLinks p !! h = Some l ->
    usage_ok (upd p h) /\ mapLinks (upd p h) = <[h := F l]> (mapLinks p) /\ upd p h = with_links p (mapLinks (upd p h)) (cachedInnerUsage (upd p h)).
Lemma UpdateChild_relinks c add : relinks (fun p h => UpdateChild p h c add) (fun l => mkLinks (parents l) (put add c (children l))).
Proof. intros p h l U D Hl. destruct (UpdateChild_usage p h c add l U D Hl). done. Qed.
Lemma UpdateParent_relinks c add : relinks (fun p h => UpdateParent p h c add) (fun l => mkLinks (put add c (parents l)) (children l)).
Proof. intros p h l U D Hl. destruct (UpdateParent_usage p h c add l U D Hl). done. Qed.
Lemma fold_relinks upd F l : relinks upd F -> forall p, NoDup l -> (forall h, h ∈ l -> h ∈ dom (mapTx p) /\ h ∈ dom (mapLinks p)) -> usage_ok p ->
  let q := fold_left upd l p in
  usage_ok q /\ q = with_links p (mapLinks q) (cachedInnerUsage q) /\
  forall h, mapLinks q !! h = if decide (h ∈ l) then F <$> mapLinks p !! h else mapLinks p !! h.
Proof.
  intros R. induction l as [|x l IH]; intros p N D U q.
  - split; [done|]. split; [by destruct p|]. intros h. rewrite decide_False by apply not_elem_of_nil. done.
  - apply NoDup_cons in N as [Nx N]. destruct (D x ltac:(left)) as [Dx [k Hk]%elem_of_dom]. destruct (R p x k U Dx Hk) as (U1 & L1 & E1).
    assert (M1 : mapTx (upd p x) = mapTx p) by (rewrite E1; done).
    destruct (IH (upd p x) N) as (U2 & E2 & L2).
    { intros h Hh. rewrite M1, L1, dom_insert_L. destruct (D h ltac:(by right)). set_solver. } { done. }
    unfold q. cbn [fold_left]. split; [done|]. split; [rewrite E2; rewrite E1 at 1; done|].
    intros h. rewrite L2, L1. destruct (decide (h = x)) as [->|Nh].
    + rewrite lookup_insert_eq, decide_False by done. rewrite decide_True by left. by rewrite Hk.
    + rewrite lookup_insert_ne by done. destruct (decide (h ∈ l)); [rewrite decide_True by (by right); done|].
      rewrite decide_False; [done|]. rewrite elem_of_cons. tauto.
Qed.
(** The parents of a new entry. *)
Lemma fold_new_parents x l : forall p k, usage_ok p -> x ∈ dom (mapTx p) -> mapLinks p !! x = Some k ->
  let q := fold_left (fun p phash => if exists_ p phash then UpdateParent p x phash true else p) l p in
  usage_ok q /\ q = with_links p (mapLinks q) (cachedInnerUsage q) /\
  mapLinks q = <[x := mkLinks (parents k ∪ (list_to_set l ∩ dom (mapTx p))) (children k)]> (mapLinks p).
Proof.
  induction l as [|y l IH]; intros p k U D Hk; cbn [fold_left].
  - split; [done|split; [by destruct p|]]. rewrite insert_id; [done|]. rewrite Hk. f_equal. destruct k as [ps cs]. cbn. f_equal. set_solver.
  - destruct (exists_ p y) eqn:X; [apply bool_decide_eq_true in X|apply bool_decide_eq_false in X].
    + destruct (UpdateParent_usage p x y true k U D Hk) as [U1 L1]. cbn [put] in L1.
      destruct (IH (UpdateParent p x y true) (mkLinks ({[y]} ∪ parents k) (children k))) as (U2 & E2 & L2); [done|done|by rewrite L1, lookup_insert_eq|].
      split; [done|]. split; [rewrite E2; done|]. rewrite L2, L1, insert_insert_eq. apply elem_of_dom in X. cbn [parents children mapTx UpdateParent with_links].
      f_equal. f_equal. apply set_eq. intros z. rewrite list_to_set_cons. set_solver.
    + destruct (IH p k U D Hk) as (U2 & E2 & L2). split; [done|split; [done|]]. rewrite L2. rewrite <- elem_of_dom in X. f_equal. f_equal.
      apply set_eq. intros z. rewrite list_to_set_cons. set_solver.
Qed.
End Entries.
