(* ===== verification/MempoolAdd.v ===== *)
(** * Adding an entry to the memory pool

    [addUnchecked] of a transaction without conflicts and without children in the pool
    succeeds and keeps the invariant. *)

From stdpp Require Import gmap sorting relations.
From S2P Require Import Prelude ArithUint256 Serialize Compressor Transaction WitnessUtil TxCheck Coins Mempool MempoolGraph MempoolInvariant.

Section Facts.
Context {Env : PoolEnv}.

(** ** Statistics of a consistent pool *)

Lemma entry_size_at p h e : mapTx p !! h = Some e -> entry_size p h = GetTxSize e.
Proof. unfold entry_size. by intros ->. Qed.
Lemma entry_fee_at p h e : mapTx p !! h = Some e -> entry_fee p h = GetModifiedFee e.
Proof. unfold entry_fee. by intros ->. Qed.
Lemma entry_sigops_at p h e : mapTx p !! h = Some e -> entry_sigops p h = sigOpCost e.
Proof. unfold entry_sigops. by intros ->. Qed.
Lemma with_ancestors_exists p h : links_consistent p -> h ∈ dom (mapTx p) -> exists P, with_ancestors p h P /\ P ⊆ dom (mapTx p).
Proof.
  intros K D. destruct (ancestors_exist p {[h]} (links_linked p K)) as (P & SP & Q); [rewrite (lc_dom p K); set_solver|].
  rewrite (lc_dom p K) in SP. exists P. split; [|done]. intros z. rewrite Q. split; [intros (s & ->%elem_of_singleton & X); done|].
  intros X. exists h. set_solver.
Qed.
Lemma with_descendants_exists p h : links_consistent p -> h ∈ dom (mapTx p) -> exists P, with_descendants p h P /\ P ⊆ dom (mapTx p).
Proof.
  intros K D. destruct (CalculateDescendants_spec p (links_linked p K) h ∅) as (P & _ & SP & Q); [by rewrite (lc_dom p K)|set_solver|set_solver|].
  rewrite (lc_dom p K) in SP. exists P. split; [|done]. intros z. rewrite Q, rtc_child_parent by done. set_solver.
Qed.
Lemma entry_sigops_nonneg p : pool_small p -> forall h, 0 <= entry_sigops p h.
Proof. intros S h. unfold entry_sigops. destruct (mapTx p !! h) as [e|] eqn:E; [by apply (sm_entry p S h e)|lia]. Qed.
Lemma set_bounds p P h : pool_small p -> P ⊆ dom (mapTx p) -> h ∈ P ->
  0 < sum_of (entry_size p) P <= sum_of (entry_size p) (dom (mapTx p)) /\ 0 < Z.of_nat (size P) <= Z.of_nat (size (mapTx p)) /\
  0 <= sum_of (entry_sigops p) P <= sum_of (entry_sigops p) (dom (mapTx p)).
Proof.
  intros S SP I. assert (Hd : h ∈ dom (mapTx p)) by set_solver. apply elem_of_dom in Hd as [e He].
  pose proof (sum_of_member (entry_size p) h P I (fun x _ => entry_size_nonneg p x)) as M. rewrite (entry_size_at p h e He) in M.
  pose proof (proj1 (sm_entry p S h e He)). pose proof (sum_of_subset (entry_size p) _ _ SP (fun x _ => entry_size_nonneg p x)).
  pose proof (sum_of_subset (entry_sigops p) _ _ SP (fun x _ => entry_sigops_nonneg p S x)).
  pose proof (sum_of_nonneg (entry_sigops p) P (fun x _ => entry_sigops_nonneg p S x)).
  pose proof (subseteq_size _ _ SP) as L. rewrite size_dom in L. assert (size P <> 0%nat) by (intros Z; apply size_empty_inv in Z; set_solver). lia.
Qed.
Lemma stats_bounds p h e : pool_ok p -> mapTx p !! h = Some e ->
  0 < nSizeWithDescendants e <= sum_of (entry_size p) (dom (mapTx p)) /\ 0 < nCountWithDescendants e <= Z.of_nat (size (mapTx p)) /\
  0 < nSizeWithAncestors e <= sum_of (entry_size p) (dom (mapTx p)) /\ 0 < nCountWithAncestors e <= Z.of_nat (size (mapTx p)) /\
  0 <= nSigOpCostWithAncestors e <= sum_of (entry_sigops p) (dom (mapTx p)).
Proof.
  intros [K St _ S] He. pose proof (elem_of_dom_2 _ _ _ He) as D. destruct (St h e He) as [SA SD].
  destruct (with_ancestors_exists p h K D) as (A & HA & SA'). destruct (with_descendants_exists p h K D) as (B & HB & SB').
  destruct (SA A HA) as (-> & -> & _ & ->). destruct (SD B HB) as (-> & -> & _).
  pose proof (set_bounds p A h S SA' ltac:(apply HA, rtc_refl)). pose proof (set_bounds p B h S SB' ltac:(apply HB, rtc_refl)). lia.
Qed.

(** The sums of [UpdateEntryForAncestors]. *)
Lemma i64_idemp x : i64 (i64 x) = i64 x.
Proof. apply i64_eq_mod, i64_mod. Qed.
Lemma for_each_sums p l : (forall h, h ∈ l -> h ∈ dom (mapTx p)) -> forall a b c, i64 a = a -> i64 b = b -> i64 c = c ->
  for_each l (fun s h => let! e := entry_at p h in Ok (add_entry s e)) (mkSums a b c) =
  Ok (mkSums (i64 (a + sum_list (entry_size p) l)) (i64 (b + sum_list (entry_fee p) l)) (i64 (c + sum_list (entry_sigops p) l))).
Proof.
  induction l as [|h l IH]; intros D a b c Ha Hb Hc; cbn [for_each sum_list foldr]; [by rewrite !Z.add_0_r, Ha, Hb, Hc|].
  pose proof (D h ltac:(left)) as X. apply elem_of_dom in X as [e He]. assert (Ea : entry_at p h = Ok e) by (unfold entry_at; by rewrite He). rewrite Ea. cbn [res_bind]. change (add_entry (mkSums a b c) e) with (mkSums (i64 (a + GetTxSize e)) (i64 (b + GetModifiedFee e)) (i64 (c + sigOpCost e))).
  rewrite IH by (rewrite ?i64_idemp; done || (intros y Y; apply D; by right)). unfold sum_list. rewrite !i64_add_l.
   by rewrite (entry_size_at p h e He), (entry_fee_at p h e He), (entry_sigops_at p h e He), !Z.add_assoc.
Qed.
End Facts.

Lemma spend_inputs_lookup h o k ins : forall m : gmap COutPoint uint256,
  (forall i, i ∈ ins -> m !! outpoint_key (prevout i) = None \/ m !! outpoint_key (prevout i) = Some h) ->
  (spend_inputs ins h m !! o = Some k <-> m !! o = Some k \/ (k = h /\ exists i, i ∈ ins /\ outpoint_key (prevout i) = o)).
Proof.
  unfold spend_inputs. induction ins as [|i ins IH]; intros m N; cbn [fold_left].
  - split; [by left|]. intros [?|(_ & i & I & _)]; [done|]. by apply not_elem_of_nil in I.
  - set (m' := insert_new _ _ _). assert (L : forall o', m' !! o' = if decide (o' = outpoint_key (prevout i)) then Some h else m !! o').
    { intros o'. unfold m', insert_new. destruct (N i ltac:(left)) as [E|E]; rewrite E.
      - destruct (decide _) as [->|Ne]; [by rewrite lookup_insert_eq|by rewrite lookup_insert_ne].
      - by destruct (decide _) as [->|Ne]. }
    rewrite IH. 2: { intros j J. rewrite L. destruct (decide _); [by right|]. apply N. by right. }
    rewrite L. split.
    + intros [X|(-> & j & J & E)]; [|right; split; [done|]; exists j; split; [by right|done]].
      destruct (decide _) as [->|Ne]; [|by left]. injection X as <-. right. split; [done|]. exists i. split; [left|done].
    + intros [X|(-> & j & J & E)].
      * left. destruct (decide _) as [->|Ne]; [|done]. destruct (N i ltac:(left)) as [E|E]; rewrite E in X; [done|exact X].
      * apply elem_of_cons in J as [->|J]; [left; rewrite decide_True by done; done|right; eauto].
Qed.

(** ** The new pool *)

Section Added.
Context {Env : PoolEnv}.
Variables p p' : CTxMemPool.
Variable x : uint256.
Variable ex : CTxMemPoolEntry.
Variables ps A : setEntries.
Hypothesis p_ok : pool_ok p.
Hypothesis x_new : x ∉ dom (mapTx p).
Hypothesis ps_pool : ps = pool_parents p (vin (e_tx ex)).
Hypothesis x_not_parent : forall h e, mapTx p !! h = Some e -> x ∉ input_hashes (vin (e_tx e)).
Hypothesis x_not_own : x ∉ input_hashes (vin (e_tx ex)).
Hypothesis A_ancestors : ancestors_from p ps A.
(** The state after the operation. *)
Hypothesis tx' : forall h, mapTx p' !! h =
  if decide (h = x) then Some ex
  else if decide (h ∈ A) then (fun e => set_desc (nCountWithDescendants e + 1) (nSizeWithDescendants e + GetTxSize ex) (i64 (nModFeesWithDescendants e + GetModifiedFee ex)) e) <$> mapTx p !! h
  else mapTx p !! h.
Hypothesis links' : forall h, mapLinks p' !! h =
  if decide (h = x) then Some (mkLinks ps ∅)
  else if decide (h ∈ ps) then (fun l => mkLinks (parents l) ({[x]} ∪ children l)) <$> mapLinks p !! h
  else mapLinks p !! h.

Lemma ps_dom : ps ⊆ dom (mapTx p).
Proof. rewrite ps_pool. unfold pool_parents. set_solver. Qed.
Lemma A_dom : A ⊆ dom (mapTx p).
Proof. intros z Z. apply A_ancestors in Z as (s & S & R). apply (rtc_parent_dom p s z (pk_links p p_ok) R). by apply ps_dom. Qed.
Lemma x_not_A : x ∉ A.
Proof. intros X. apply x_new. by apply A_dom. Qed.
Lemma dom_tx' : dom (mapTx p') = {[x]} ∪ dom (mapTx p).
Proof.
  apply set_eq. intros h. rewrite elem_of_union, elem_of_singleton, !elem_of_dom, tx'. destruct (decide (h = x)) as [->|N]; [split; eauto|].
  destruct (decide (h ∈ A)); rewrite ?fmap_is_Some; tauto.
Qed.
Lemma parent_new h z : parent p' h z <-> (h = x /\ z ∈ ps) \/ (h <> x /\ parent p h z).
Proof.
  unfold parent. rewrite links'. destruct (decide (h = x)) as [->|N].
  - split; [intros (l & [= <-] & Z); by left|]. intros [[_ Z]|[? _]]; [|done]. by exists (mkLinks ps ∅).
  - destruct (decide (h ∈ ps)).
    + split; [intros (l & E & Z); right; split; [done|]|intros [[? _]|[_ (l & E & Z)]]; [done|]].
      * apply fmap_Some in E as (l0 & E0 & ->). by exists l0.
      * rewrite E. eexists. split; [done|]. done.
    + split; [intros H; by right|]. intros [[? _]|[_ H]]; [done|exact H].
Qed.
Lemma child_new h z : child p' h z <-> (z = x /\ h ∈ ps) \/ (h <> x /\ child p h z).
Proof.
  unfold child. rewrite links'. assert (Nx : x ∉ ps) by (intros X; apply x_new; by apply ps_dom). destruct (decide (h = x)) as [->|N].
  - split; [intros (l & [= <-] & Z); set_solver|]. intros [[-> Z]|[? _]]; done.
  - destruct (decide (h ∈ ps)) as [I|I].
    + split.
      * intros (l & E & Z). apply fmap_Some in E as (l0 & E0 & ->). cbn [children] in Z. apply elem_of_union in Z as [->%elem_of_singleton|Z]; [by left|right].
        split; [done|]. by exists l0.
      * assert (D : h ∈ dom (mapLinks p)) by (rewrite (lc_dom p (pk_links p p_ok)); by apply ps_dom). apply elem_of_dom in D as [l0 E0]. rewrite E0. intros H.
        eexists. split; [done|]. cbn [children]. destruct H as [[-> _]|[_ (l & E & Z)]]; [set_solver|]. injection E as <-. set_solver.
    + split; [intros H; by right|]. intros [[_ ?]|[_ H]]; [done|exact H].
Qed.
Lemma rtc_parent_old h z : h <> x -> (rtc (parent p') h z <-> rtc (parent p) h z).
Proof.
  intros N. pose proof (pk_links p p_ok) as K. split; intros H.
  - induction H as [h|h w z X _ IH]; [apply rtc_refl|]. apply parent_new in X as [[? _]|[_ X]]; [done|]. apply rtc_l with w; [done|].
    apply IH. intros ->. apply x_new. apply (parent_dom p h x K X).
  - induction H as [h|h w z X _ IH]; [apply rtc_refl|]. apply rtc_l with w; [apply parent_new; by right|].
    apply IH. intros ->. apply x_new. apply (parent_dom p h x K X).
Qed.
Lemma rtc_parent_x z : rtc (parent p') x z <-> z = x \/ z ∈ A.
Proof.
  split.
  - intros H. apply rtc_inv in H as [<-|(w & X & H)]; [by left|right]. apply parent_new in X as [[_ W]|[? _]]; [|done].
    apply A_ancestors. exists w. split; [done|]. apply rtc_parent_old; [|done]. intros ->. apply x_new. by apply ps_dom.
  - intros [->|Z]; [apply rtc_refl|]. apply A_ancestors in Z as (w & W & H). apply rtc_l with w; [apply parent_new; by left|].
    apply rtc_parent_old; [|done]. intros ->. apply x_new. by apply ps_dom.
Qed.
Lemma entry_old h : h <> x -> entry_size p' h = entry_size p h /\ entry_fee p' h = entry_fee p h /\ entry_sigops p' h = entry_sigops p h.
Proof.
  intros N. unfold entry_size, entry_fee, entry_sigops. rewrite tx', decide_False by done. destruct (decide (h ∈ A)); [|done].
  by destruct (mapTx p !! h).
Qed.
Lemma entry_x : entry_size p' x = GetTxSize ex /\ entry_fee p' x = GetModifiedFee ex /\ entry_sigops p' x = sigOpCost ex.
Proof. unfold entry_size, entry_fee, entry_sigops. by rewrite tx', decide_True by done. Qed.
Lemma sums_old (S : setEntries) : x ∉ S -> sum_of (entry_size p') S = sum_of (entry_size p) S /\ sum_of (entry_fee p') S = sum_of (entry_fee p) S /\
  sum_of (entry_sigops p') S = sum_of (entry_sigops p) S.
Proof. intros N. repeat split; apply sum_of_ext; intros h Hh; apply entry_old; intros ->; done. Qed.

Lemma added_links : links_consistent p'.
Proof.
  pose proof (pk_links p p_ok) as K. split.
  - rewrite dom_tx'. apply set_eq. intros h. rewrite elem_of_union, elem_of_singleton, <- (lc_dom p K), !elem_of_dom, links'.
    destruct (decide (h = x)) as [->|N]; [split; eauto|]. destruct (decide (h ∈ ps)); rewrite ?fmap_is_Some; tauto.
  - intros h e l He Hl. unfold pool_parents. rewrite dom_tx'. rewrite tx' in He. rewrite links' in Hl. destruct (decide (h = x)) as [->|N].
    + injection He as <-. injection Hl as <-. cbn [parents]. rewrite ps_pool. unfold pool_parents. set_solver.
    + assert (Hp : exists e0 l0, mapTx p !! h = Some e0 /\ mapLinks p !! h = Some l0 /\ e_tx e = e_tx e0 /\ parents l = parents l0).
      { destruct (decide (h ∈ A)) as [IA|IA]; [apply fmap_Some in He as (e0 & E0 & ->)|]; (destruct (decide (h ∈ ps)) as [IP|IP]; [apply fmap_Some in Hl as (l0 & L0 & ->)|]); eauto 10. }
      destruct Hp as (e0 & l0 & E0 & L0 & -> & ->). rewrite (lc_parents p K h e0 l0 E0 L0). unfold pool_parents. pose proof (x_not_parent h e0 E0). set_solver.
  - intros y z. rewrite child_new, parent_new. rewrite (lc_children p K y z). split.
    + intros [[-> H]|[N H]]; [left; done|]. right. split; [|done]. intros ->. apply x_new. apply (parent_dom p x y K H).
    + intros [[-> H]|[N H]]; [left; done|]. right. split; [|done]. intros ->. apply x_new. apply (parent_dom p z x K H).
  - intros h H. apply tc_first in H as (w & X & R). apply parent_new in X. destruct X as [[-> W]|[N X]].
    + assert (Nw : w <> x) by (intros ->; apply x_new; by apply ps_dom). apply rtc_parent_old in R; [|done].
      apply x_new. apply (rtc_parent_dom p w x K R). by apply ps_dom.
    + assert (Nw : w <> x) by (intros ->; apply x_new; apply (parent_dom p h x K X)). apply rtc_parent_old in R; [|done].
      apply (lc_acyclic p K h). apply tc_rtc_r with w; [|done]. by apply tc_once.
Qed.

(** The statistics of the new entry. *)
Hypothesis x_anc : nCountWithAncestors ex = 1 + Z.of_nat (size A) /\ nSizeWithAncestors ex = GetTxSize ex + sum_of (entry_size p) A /\
  nModFeesWithAncestors ex = i64 (GetModifiedFee ex + sum_of (entry_fee p) A) /\ nSigOpCostWithAncestors ex = sigOpCost ex + sum_of (entry_sigops p) A.
Hypothesis x_desc : nCountWithDescendants ex = 1 /\ nSizeWithDescendants ex = GetTxSize ex /\ nModFeesWithDescendants ex = i64 (GetModifiedFee ex).

Lemma rtc_to_x z : rtc (parent p') z x -> z = x.
Proof.
  intros H. destruct (decide (z = x)) as [|N]; [done|]. apply rtc_parent_old in H; [|done]. pose proof (pk_links p p_ok) as K.
  apply rtc_inv in H as [H|(w & X & H)]; [done|]. exfalso. apply x_new. apply (rtc_parent_dom p w x K H). apply (parent_dom p z w K X).
Qed.
Lemma added_stats : stats_consistent p'.
Proof.
  pose proof (pk_links p p_ok) as K. destruct entry_x as (X1 & X2 & X3). intros h e He. rewrite tx' in He. destruct (decide (h = x)) as [->|N].
  - injection He as <-. split; intros P HP.
    + assert (P = {[x]} ∪ A) as -> by (apply set_eq; intros z; rewrite (HP z), rtc_parent_x; set_solver).
      destruct x_anc as (Q1 & Q2 & Q3 & Q4). destruct (sums_old A x_not_A) as (S1 & S2 & S3). unfold anc_stats.
      rewrite size_union, size_singleton, !sum_of_insert, X1, X2, X3, S1, S2, S3 by (pose proof x_not_A; set_solver). rewrite Q1. split; [lia|done].
    + assert (P = {[x]}) as -> by (apply set_eq; intros z; rewrite (HP z), elem_of_singleton; split; [apply rtc_to_x|intros ->; apply rtc_refl]).
      unfold desc_stats. rewrite size_singleton, !sum_of_singleton, X1, X2. exact x_desc.
  - assert (Hp : exists e0, mapTx p !! h = Some e0 /\ nCountWithAncestors e = nCountWithAncestors e0 /\ nSizeWithAncestors e = nSizeWithAncestors e0 /\
      nModFeesWithAncestors e = nModFeesWithAncestors e0 /\ nSigOpCostWithAncestors e = nSigOpCostWithAncestors e0).
    { destruct (decide (h ∈ A)) as [I|I]; [apply fmap_Some in He as (e0 & E0 & ->)|]; eauto 10. }
    destruct Hp as (e0 & E0 & Y1 & Y2 & Y3 & Y4). destruct (pk_stats p p_ok h e0 E0) as [SA SD]. pose proof (elem_of_dom_2 _ _ _ E0) as D. split; intros P HP.
    + assert (HP0 : with_ancestors p h P) by (intros z; rewrite (HP z); by apply rtc_parent_old).
      assert (Nx : x ∉ P) by (intros Z; apply HP0 in Z; apply x_new; by apply (rtc_parent_dom p h x K Z)).
      destruct (sums_old P Nx) as (S1 & S2 & S3). unfold anc_stats. rewrite Y1, Y2, Y3, Y4, S1, S2, S3. exact (SA P HP0).
    + assert (HP0 : with_descendants p h (P ∖ {[x]})).
      { intros z. rewrite elem_of_difference, elem_of_singleton, (HP z). destruct (decide (z = x)) as [->|Nz].
        - split; [tauto|]. intros Z. exfalso. apply x_new. by apply (rtc_parent_dom p x h K Z).
        - rewrite rtc_parent_old by done. tauto. }
      destruct (sums_old (P ∖ {[x]})) as (S1 & S2 & _); [set_solver|]. destruct (SD _ HP0) as (D1 & D2 & D3).
      assert (Hx : x ∈ P <-> h ∈ A) by (rewrite (HP x), rtc_parent_x; tauto). unfold desc_stats. destruct (decide (h ∈ A)) as [I|I].
      * apply Hx in I. assert (EP : P = {[x]} ∪ P ∖ {[x]}) by (by apply union_difference_singleton_L).
        rewrite E0 in He. injection He as <-. cbn [set_desc nCountWithDescendants nSizeWithDescendants nModFeesWithDescendants].
        rewrite EP, size_union, size_singleton, !sum_of_insert, X1, X2, S1, S2, D1, D2, D3 by set_solver.
        split; [lia|split; [lia|]]. rewrite i64_add_l. f_equal. lia.
      * assert (Nx : P ∖ {[x]} = P) by set_solver. rewrite Nx in *. rewrite E0 in He. injection He as <-. rewrite S1, S2. done.
Qed.
Hypothesis x_small : 0 < GetTxSize ex /\ 0 <= sigOpCost ex /\ GetTxSize ex + sum_of (entry_size p) (dom (mapTx p)) < 2 ^ 63 /\
  sigOpCost ex + sum_of (entry_sigops p) (dom (mapTx p)) < 2 ^ 31 /\ Z.of_nat (size (mapTx p)) + 1 < 2 ^ 63.
Lemma added_small : pool_small p'.
Proof.
  destruct x_small as (Z1 & Z2 & Z3 & Z4 & Z5). destruct (sums_old _ x_new) as (S1 & _ & S3). destruct entry_x as (X1 & _ & X3). split.
  - rewrite dom_tx', sum_of_insert, S1, X1 by done. done.
  - rewrite dom_tx', sum_of_insert, S3, X3 by done. done.
  - rewrite <- (size_dom (mapTx p')), dom_tx', size_union, size_singleton, size_dom by set_solver. lia.
  - intros h e He. rewrite tx' in He. destruct (decide (h = x)); [by injection He as <-|]. destruct (decide (h ∈ A)).
    + apply fmap_Some in He as (e1 & E1 & ->). exact (sm_entry p (pk_small p p_ok) h e1 E1).
    + exact (sm_entry p (pk_small p p_ok) h e He).
Qed.

Hypothesis x_hash : GetHash (e_tx ex) = x.
Hypothesis no_conflict : forall i, i ∈ vin (e_tx ex) -> mapNextTx p !! outpoint_key (prevout i) = None.
Hypothesis next' : mapNextTx p' = spend_inputs (vin (e_tx ex)) x (mapNextTx p).
Hypothesis size' : totalTxSize p' = u64 (totalTxSize p + GetTxSize ex).
Hypothesis usage' : usage_ok p'.
Hypothesis hashes' : vTxHashes p' = vTxHashes p ++ [(GetWitnessHash (e_tx ex), x)].
Hypothesis x_idx : vTxHashesIdx ex = Z.of_nat (length (vTxHashes p)).

Lemma old_entry h e : mapTx p' !! h = Some e -> h <> x -> exists e0, mapTx p !! h = Some e0 /\ e_tx e = e_tx e0 /\ vTxHashesIdx e = vTxHashesIdx e0.
Proof.
  intros He N. rewrite tx', decide_False in He by done. destruct (decide (h ∈ A)) as [I|I]; [|by exists e].
  apply fmap_Some in He as (e0 & E0 & ->). by exists e0.
Qed.
Lemma kept_entry h e0 : mapTx p !! h = Some e0 -> exists e, mapTx p' !! h = Some e /\ e_tx e = e_tx e0.
Proof.
  intros E. assert (N : h <> x) by (intros ->; apply x_new; by apply elem_of_dom_2 in E). rewrite tx', decide_False by done.
  destruct (decide (h ∈ A)) as [I|I]; rewrite E; [|by exists e0]. cbn [fmap option_fmap option_map]. by eexists.
Qed.
Lemma added_books : books_consistent p'.
Proof.
  pose proof (pk_books p p_ok) as B. split; try done.
  - intros h e He. destruct (decide (h = x)) as [->|N].
    + rewrite tx', decide_True in He by done. by injection He as <-.
    + destruct (old_entry h e He N) as (e0 & E0 & -> & _). by apply (bc_hash p B).
  - apply (lc_dom p' added_links).
  - intros o h. rewrite next', spend_inputs_lookup by (intros; left; by apply no_conflict). rewrite (bc_next p B). split.
    + intros [(e & i & He & I & E)|(-> & i & I & E)].
      * destruct (kept_entry h e He) as (e' & E' & Et). exists e', i. by rewrite Et.
      * exists ex, i. rewrite tx', decide_True by done. done.
    + intros (e & i & He & I & E). destruct (decide (h = x)) as [->|N].
      * right. split; [done|]. rewrite tx', decide_True in He by done. injection He as <-. eauto.
      * left. destruct (old_entry h e He N) as (e0 & E0 & Et & _). exists e0, i. by rewrite <- Et.
  - rewrite size', (bc_size p B), u64_add_l, dom_tx', sum_of_insert by done. f_equal. destruct entry_x as (-> & _). rewrite (proj1 (sums_old _ x_new)). lia.
  - intros i w h. rewrite hashes'. intros Hi. apply lookup_app_Some in Hi as [Hi|[Li Hi]].
    + destruct (bc_back p B i w h Hi) as (e0 & E0 & <-). assert (N : h <> x) by (intros ->; apply x_new; by apply elem_of_dom_2 in E0).
      rewrite tx', decide_False by done. destruct (decide (h ∈ A)) as [I|I]; rewrite E0; eexists; done.
    + apply list_lookup_singleton_Some in Hi as [Hi [= <- <-]]. exists ex. rewrite tx', decide_True, x_idx by done. split; [done|]. lia.
  - intros h e He. rewrite hashes'. destruct (decide (h = x)) as [->|N].
    + rewrite tx', decide_True in He by done. injection He as <-. rewrite x_idx, Nat2Z.id. split; [lia|]. by rewrite list_lookup_middle.
    + destruct (old_entry h e He N) as (e0 & E0 & -> & ->). destruct (bc_idx p B h e0 E0) as [P L]. split; [done|]. by apply lookup_app_l_Some.
Qed.
Lemma added_ok : pool_ok p'.
Proof. split; [apply added_links|apply added_stats|apply added_books|apply added_small]. Qed.
End Added.

(** ** The operation *)

Section Add.
Context {Env : PoolEnv}.

(** What the constructor makes. *)
Definition fresh_entry (e : CTxMemPoolEntry) : Prop :=
  feeDelta e = 0 /\ i64 (nFee e) = nFee e /\
  nCountWithDescendants e = 1 /\ nSizeWithDescendants e = GetTxSize e /\ nModFeesWithDescendants e = nFee e /\
  nCountWithAncestors e = 1 /\ nSizeWithAncestors e = GetTxSize e /\ nModFeesWithAncestors e = nFee e /\ nSigOpCostWithAncestors e = sigOpCost e.
Lemma new_entry_fresh tx fee time height cb sigops lp : - 2 ^ 63 <= fee < 2 ^ 63 -> fresh_entry (CTxMemPoolEntry_new tx fee time height cb sigops lp).
Proof. intros F. split; [done|]. split; [by apply i64_small|]. done. Qed.

(** What the callers check: the transaction is not there and has no children and no conflicts. *)
Record addable (position_hash : COutPoint -> option uint256) (e : CTxMemPoolEntry) (p : CTxMemPool) : Prop := {
  ad_fresh : fresh_entry e;
  ad_new : GetHash (e_tx e) ∉ dom (mapTx p);
  ad_children : forall h e', mapTx p !! h = Some e' -> GetHash (e_tx e) ∉ input_hashes (vin (e_tx e'));
  ad_own : GetHash (e_tx e) ∉ input_hashes (vin (e_tx e));
  ad_conflicts : forall i, i ∈ vin (e_tx e) -> mapNextTx p !! outpoint_key (prevout i) = None;
  ad_positions : forall i h, i ∈ vin (e_tx e) -> isHash (prevout i) = false -> position_hash (prevout i) = Some h -> h ∉ dom (mapTx p) /\ h <> GetHash (e_tx e);
  ad_small : 0 < GetTxSize e /\ 0 <= sigOpCost e /\ GetTxSize e + sum_of (entry_size p) (dom (mapTx p)) < 2 ^ 63 /\
    sigOpCost e + sum_of (entry_sigops p) (dom (mapTx p)) < 2 ^ 31 /\ Z.of_nat (size (mapTx p)) + 1 < 2 ^ 63
}.
Definition with_delta (p : CTxMemPool) (h : uint256) (e : CTxMemPoolEntry) : CTxMemPoolEntry :=
  match mapDeltas p !! h with Some delta => if negb (delta =? 0) then UpdateFeeDelta delta e else e | None => e end.
Lemma with_delta_stats p h e : fresh_entry e -> let e1 := with_delta p h e in
  e_tx e1 = e_tx e /\ GetTxSize e1 = GetTxSize e /\ sigOpCost e1 = sigOpCost e /\ nUsageSize e1 = nUsageSize e /\
  nCountWithDescendants e1 = 1 /\ nSizeWithDescendants e1 = GetTxSize e /\ nModFeesWithDescendants e1 = GetModifiedFee e1 /\
  nCountWithAncestors e1 = 1 /\ nSizeWithAncestors e1 = GetTxSize e /\ nModFeesWithAncestors e1 = GetModifiedFee e1 /\ nSigOpCostWithAncestors e1 = sigOpCost e.
Proof.
  intros (F0 & F1 & F2 & F3 & F4 & F5 & F6 & F7 & F8). cbv zeta. unfold with_delta, GetModifiedFee.
  assert (N : nFee e = i64 (nFee e + feeDelta e)) by (by rewrite F0, Z.add_0_r).
  destruct (mapDeltas p !! h) as [d|]; [destruct (negb (d =? 0))|]; cbn; repeat split; try done; try congruence.
  - by rewrite F0, F4, Z.sub_0_r, i64_add_r.
  - by rewrite F0, F7, Z.sub_0_r, i64_add_r.
Qed.
Lemma with_delta_fee p h e : fresh_entry e -> feeDelta (with_delta p h e) = default 0 (mapDeltas p !! h).
Proof.
  intros (F0 & _). unfold with_delta. destruct (mapDeltas p !! h) as [d|]; [|exact F0]. destruct (d =? 0) eqn:E; cbn; [lia|done].
Qed.
(** The new entry has the recorded change of its fee, and the others keep theirs. *)
Definition deltas_kept (p p' : CTxMemPool) (x : uint256) : Prop :=
  forall h e, mapTx p' !! h = Some e -> (h = x /\ feeDelta e = default 0 (mapDeltas p !! x)) \/ exists e1, mapTx p !! h = Some e1 /\ feeDelta e = feeDelta e1.
(** The parents by hash or by position that are in the pool are those by hash. *)
Lemma parent_hashes_pool ph e p : addable ph e p -> forall q, dom (mapTx q) = {[GetHash (e_tx e)]} ∪ dom (mapTx p) ->
  parent_hashes ph (vin (e_tx e)) ∩ dom (mapTx q) = pool_parents p (vin (e_tx e)).
Proof.
  intros Ad q D. rewrite D. unfold pool_parents. apply set_eq. intros h. rewrite !elem_of_intersection, elem_of_union, elem_of_singleton.
  unfold parent_hashes. rewrite elem_of_list_to_set, list_elem_of_omap, elem_of_input_hashes. split.
  - intros [(i & I & E) X]. unfold GetTxHash in E. destruct (isHash (prevout i)) eqn:Hi.
    + injection E as E. assert (N : h <> GetHash (e_tx e)). { intros ->. apply (ad_own _ _ _ Ad). apply elem_of_input_hashes. eauto. }
      destruct X as [X|X]; [done|]. eauto.
    + destruct (ad_positions _ _ _ Ad i h I Hi E) as [N1 N2]. tauto.
  - intros [(i & I & Hi & E) X]. split; [|by right]. exists i. unfold GetTxHash. rewrite Hi, E. done.
Qed.

Lemma new_links_usage p x e q : pool_ok p -> x ∉ dom (mapTx p) -> mapTx q = <[x := e]> (mapTx p) -> mapLinks q = <[x := no_links]> (mapLinks p) ->
  cachedInnerUsage q = u64 (cachedInnerUsage p + nUsageSize e) -> usage_ok q.
Proof.
  intros K N T L U. unfold usage_ok. rewrite U, T, dom_insert_L, sum_of_insert, (bc_usage p (pk_books p K)), u64_add_l by done. f_equal.
  rewrite (sum_of_ext (entry_usage q) (entry_usage p) (dom (mapTx p))).
  - unfold entry_usage at 2. rewrite T, L, !lookup_insert_eq. cbn [parents children no_links]. rewrite size_empty. lia.
  - intros h Hh. unfold entry_usage. rewrite T, L, !lookup_insert_ne by (intros ->; done). done.
Qed.

(** [UpdateAncestorsOf] for a new entry [x] with the parents [ps]. *)
Lemma add_to_ancestors (p q : CTxMemPool) (x : uint256) (e1 : CTxMemPoolEntry) (ps A : setEntries) : pool_ok p -> x ∉ dom (mapTx p) -> ps ⊆ dom (mapTx p) -> A ⊆ dom (mapTx p) ->
  mapTx q = <[x := e1]> (mapTx p) -> mapLinks q = <[x := mkLinks ps ∅]> (mapLinks p) -> usage_ok q ->
  0 < GetTxSize e1 -> GetTxSize e1 + sum_of (entry_size p) (dom (mapTx p)) < 2 ^ 63 -> Z.of_nat (size (mapTx p)) + 1 < 2 ^ 63 ->
  exists L u m, UpdateAncestorsOf true x A q = Ok (with_mapTx (with_links q L u) m) /\ usage_ok (with_links q L u) /\
    (forall h, L !! h = if decide (h ∈ ps) then (fun l => mkLinks (parents l) ({[x]} ∪ children l)) <$> mapLinks q !! h else mapLinks q !! h) /\
    (forall h, m !! h = if decide (h ∈ A)
      then (fun e => set_desc (nCountWithDescendants e + 1) (nSizeWithDescendants e + GetTxSize e1) (i64 (nModFeesWithDescendants e + GetModifiedFee e1)) e) <$> mapTx q !! h
      else mapTx q !! h).
Proof.
  intros K N Sp SA T L U P1 P2 P3. unfold UpdateAncestorsOf, GetMemPoolParents. rewrite L, lookup_insert_eq. cbn [res_bind parents].
  destruct (fold_relinks _ _ (in_order ps) (UpdateChild_relinks x true) q) as (U2 & E2 & L2); [apply NoDup_in_order| |done|].
  { intros h Hh%elem_of_in_order. rewrite T, L, !dom_insert_L, (lc_dom p (pk_links p K)). set_solver. }
  set (q2 := fold_left _ _ _) in *. assert (T2 : mapTx q2 = <[x := e1]> (mapTx p)) by (rewrite E2; done).
  unfold entry_at at 1. rewrite T2, lookup_insert_eq. cbn [res_bind].
  assert (Sz : i64 (u64 (1 * GetTxSize e1)) = GetTxSize e1).
  { pose proof (sum_of_nonneg (entry_size p) (dom (mapTx p)) (fun h _ => entry_size_nonneg p h)). rewrite i64_u64, Z.mul_1_l. apply i64_small. lia. }
  assert (Sf : i64 (1 * GetModifiedFee e1) = GetModifiedFee e1) by (rewrite Z.mul_1_l; apply i64_idemp). rewrite Sz, Sf.
  destruct (modify_each (fun _ => UpdateDescendantState (GetTxSize e1) (GetModifiedFee e1) 1)
    (fun _ e => set_desc (nCountWithDescendants e + 1) (nSizeWithDescendants e + GetTxSize e1) (i64 (nModFeesWithDescendants e + GetModifiedFee e1)) e)
    (in_order A) q2 (NoDup_in_order A)) as (m & Hm & Lm).
  { intros h Hh%elem_of_in_order. assert (Nh : h <> x) by set_solver. assert (D : h ∈ dom (mapTx p)) by set_solver. apply elem_of_dom in D as [e He].
    exists e. rewrite T2, lookup_insert_ne by done. split; [done|]. pose proof (stats_bounds p h e K He). apply UpdateDescendantState_exact; lia. }
  exists (mapLinks q2), (cachedInnerUsage q2), m. rewrite Hm, <- E2. split; [done|split; [done|split]].
  - intros h. rewrite L2, <- L. by_order h ps.
  - intros h. rewrite Lm, T2, T. by_order h A.
Qed.

Lemma addUnchecked_ok (p : CTxMemPool) (ph : COutPoint -> option uint256) (e0 : CTxMemPoolEntry) (A : setEntries) : pool_ok p -> addable ph e0 p -> ancestors_from p (pool_parents p (vin (e_tx e0))) A ->
  exists p' e', addUnchecked ph (GetHash (e_tx e0)) e0 A p = Ok p' /\ pool_ok p' /\ mapDeltas p' = mapDeltas p /\
    mapTx p' !! GetHash (e_tx e0) = Some e' /\ e_tx e' = e_tx e0 /\ dom (mapTx p') = {[GetHash (e_tx e0)]} ∪ dom (mapTx p) /\ deltas_kept p p' (GetHash (e_tx e0)).
Proof.
  intros K Ad HA. set (x := GetHash (e_tx e0)). set (e1 := with_delta p x e0). set (ps := pool_parents p (vin (e_tx e0))) in *.
  pose proof (with_delta_stats p x e0 (ad_fresh _ _ _ Ad)) as W. cbv zeta in W. fold e1 in W. destruct W as (W1 & W2 & W3 & W4 & W5 & W6 & W7 & W8 & W9 & W10 & W11).
  pose proof (ad_new _ _ _ Ad) as N. fold x in N. destruct (ad_small _ _ _ Ad) as (Z1 & Z2 & Z3 & Z4 & Z5).
  assert (NT : mapTx p !! x = None) by (by apply not_elem_of_dom). assert (NL : mapLinks p !! x = None) by (apply not_elem_of_dom; by rewrite (lc_dom p (pk_links p K))).
  set (q := mkPool (<[x := e1]> (mapTx p)) (<[x := no_links]> (mapLinks p)) (spend_inputs (vin (e_tx e0)) x (mapNextTx p)) (mapDeltas p) (vTxHashes p)
    (totalTxSize p) (u64 (cachedInnerUsage p + nUsageSize e0)) (nTransactionsUpdated p) (lastRollingFeeUpdate p) (blockSinceLastRollingFeeBump p) (rollingMinimumFeeRate p)).
  assert (Uq : usage_ok q) by (apply (new_links_usage p x e1); (done || by rewrite W4)).
  assert (Sp : ps ⊆ dom (mapTx p)) by (unfold ps, pool_parents; set_solver).
  assert (SA : A ⊆ dom (mapTx p)). { intros z Z. apply HA in Z as (s & S & R). apply (rtc_parent_dom p s z (pk_links p K) R). by apply Sp. }
  (* the parents *)
  destruct (fold_new_parents x (in_order (parent_hashes ph (vin (e_tx e0)))) q no_links Uq) as (U1 & E1 & L1); [cbn [q mapTx]; rewrite dom_insert_L; set_solver|cbn [q mapLinks]; by rewrite lookup_insert_eq|].
  set (q1 := fold_left _ _ _) in *. rewrite list_to_set_in_order, (parent_hashes_pool ph e0 p Ad) in L1 by (cbn [q mapTx]; by rewrite dom_insert_L).
  cbn [parents children no_links q mapLinks] in L1. rewrite union_empty_l_L, insert_insert_eq in L1. fold ps in L1.
  assert (T1 : mapTx q1 = <[x := e1]> (mapTx p)) by (rewrite E1; done).
  destruct (add_to_ancestors p q1 x e1 ps A K N Sp SA T1 L1 U1) as (L & u & m & H2 & U2 & HL & Hm); [lia..|].
  set (q3 := with_mapTx (with_links q1 L u) m) in *.
  (* the statistics of the entry *)
  assert (NA : x ∉ A) by set_solver. assert (Mx : m !! x = Some e1) by (rewrite Hm, decide_False, T1, lookup_insert_eq by done; done).
  assert (Mo : forall h, h ∈ A -> entry_size q3 h = entry_size p h /\ entry_fee q3 h = entry_fee p h /\ entry_sigops q3 h = entry_sigops p h).
  { intros h I. assert (Nh : h <> x) by (intros ->; done). unfold entry_size, entry_fee, entry_sigops. cbn [q3 mapTx with_mapTx].
    rewrite Hm, decide_True, T1, lookup_insert_ne by done. by destruct (mapTx p !! h). }
  assert (B : forall f : CTxMemPool -> uint256 -> Z, (forall h, h ∈ A -> f q3 h = f p h) -> sum_list (f q3) (in_order A) = sum_of (f p) A).
  { intros f E. rewrite sum_of_in_order. by apply sum_of_ext. }
  assert (Sums : for_each (in_order A) (fun s h => let! e := entry_at q3 h in Ok (add_entry s e)) (mkSums 0 0 0) =
    Ok (mkSums (i64 (sum_of (entry_size p) A)) (i64 (sum_of (entry_fee p) A)) (i64 (sum_of (entry_sigops p) A)))).
  { rewrite for_each_sums; [|intros h Hh%elem_of_in_order|done..].
    - rewrite (B entry_size), (B entry_fee), (B entry_sigops) by apply Mo. done.
    - cbn [q3 mapTx with_mapTx]. apply elem_of_dom. rewrite Hm, decide_True, T1, lookup_insert_ne by (set_solver || done).
      rewrite fmap_is_Some. apply elem_of_dom. set_solver. }
  pose proof (sum_of_subset (entry_size p) _ _ SA (fun h _ => entry_size_nonneg p h)) as Y1. pose proof (sum_of_nonneg (entry_size p) A (fun h _ => entry_size_nonneg p h)) as Y2.
  pose proof (sum_of_subset (entry_sigops p) _ _ SA (fun h _ => entry_sigops_nonneg p (pk_small p K) h)) as Y3.
  pose proof (sum_of_nonneg (entry_sigops p) A (fun h _ => entry_sigops_nonneg p (pk_small p K) h)) as Y4. pose proof (subseteq_size _ _ SA) as Y5. rewrite size_dom in Y5.
  set (e2 := set_anc (1 + Z.of_nat (size A)) (GetTxSize e0 + sum_of (entry_size p) A) (i64 (GetModifiedFee e1 + sum_of (entry_fee p) A)) (sigOpCost e0 + sum_of (entry_sigops p) A) e1).
  assert (H3 : UpdateEntryForAncestors x A q3 = Ok (with_mapTx q3 (<[x := e2]> m))).
  { unfold UpdateEntryForAncestors. rewrite Sums. cbn [res_bind s_size s_fee s_sigops]. unfold modify. cbn [q3 mapTx with_mapTx]. rewrite Mx.
    rewrite !(i64_small (sum_of (entry_size p) A)), !(i64_small (sum_of (entry_sigops p) A)) by lia.
    rewrite UpdateAncestorState_exact by (rewrite ?W8, ?W9, ?W11; lia). cbn [res_bind]. unfold e2. by rewrite W8, W9, W10, W11, i64_add_r. }
  set (idx := Z.of_nat (length (vTxHashes p ++ [(GetWitnessHash (e_tx e0), x)])) - 1). set (e3 := with_idx idx e2).
  set (p1 := mkPool (<[x := e0]> (mapTx p)) (<[x := no_links]> (mapLinks p)) (mapNextTx p) (mapDeltas p) (vTxHashes p) (totalTxSize p) (cachedInnerUsage p)
    (nTransactionsUpdated p) (lastRollingFeeUpdate p) (blockSinceLastRollingFeeBump p) (rollingMinimumFeeRate p)).
  assert (H0 : (match mapDeltas p1 !! x with
             | Some delta => if negb (delta =? 0) then modify p1 x (fun e => Ok (UpdateFeeDelta delta e)) else Ok p1
             | None => Ok p1
             end) = Ok (with_mapTx p1 (<[x := e1]> (mapTx p)))).
  { unfold e1, with_delta. cbn [p1 mapDeltas]. destruct (mapDeltas p !! x) as [d|]; [destruct (negb (d =? 0))|]; try done.
    unfold modify. cbn [p1 mapTx]. rewrite lookup_insert_eq. cbn [res_bind]. by rewrite insert_insert_eq. }
  set (p4 := mkPool (<[x := e3]> m) L (spend_inputs (vin (e_tx e0)) x (mapNextTx p)) (mapDeltas p) (vTxHashes p ++ [(GetWitnessHash (e_tx e0), x)])
    (u64 (totalTxSize p + GetTxSize e0)) u (u32 (nTransactionsUpdated p + 1)) (lastRollingFeeUpdate p) (blockSinceLastRollingFeeBump p) (rollingMinimumFeeRate p)).
  assert (H4 : addUnchecked ph x e0 A p = Ok p4).
  { unfold addUnchecked. cbv zeta. fold x. unfold insert_new. rewrite NT, NL. fold p1. rewrite H0. cbn [res_bind]. unfold entry_at at 1. cbn [mapTx with_mapTx].
    rewrite lookup_insert_eq. cbn [res_bind]. rewrite W1. cbn [p1 mapLinks mapNextTx mapDeltas vTxHashes totalTxSize cachedInnerUsage nTransactionsUpdated lastRollingFeeUpdate blockSinceLastRollingFeeBump rollingMinimumFeeRate with_mapTx].
    fold q. fold q1. rewrite H2. cbn [res_bind]. rewrite H3. cbn [res_bind]. unfold modify. cbn [mapTx with_mapTx]. rewrite lookup_insert_eq. cbn [res_bind].
    unfold p4, e3, idx. cbn [q3 with_mapTx with_links mapTx mapLinks mapNextTx mapDeltas vTxHashes totalTxSize cachedInnerUsage nTransactionsUpdated lastRollingFeeUpdate blockSinceLastRollingFeeBump rollingMinimumFeeRate].
    rewrite E1. cbn [with_links q mapNextTx mapDeltas vTxHashes totalTxSize nTransactionsUpdated lastRollingFeeUpdate blockSinceLastRollingFeeBump rollingMinimumFeeRate].
    rewrite insert_insert_eq. done. }
  assert (Ix : idx = Z.of_nat (length (vTxHashes p))) by (unfold idx; rewrite length_app; simpl; lia).
  assert (G1 : GetTxSize e3 = GetTxSize e0) by exact W2. assert (G2 : GetModifiedFee e3 = GetModifiedFee e1) by done.
  assert (X3 : e_tx e3 = e_tx e0) by exact W1. assert (U4 : usage_ok p4).
  { unfold usage_ok in *. cbn [p4 cachedInnerUsage with_links mapTx] in *. rewrite U2. f_equal. rewrite T1.
    assert (D4 : dom (<[x := e3]> m) = dom (<[x := e1]> (mapTx p))).
    { apply set_eq. intros h. rewrite !elem_of_dom. destruct (decide (h = x)) as [->|Nh]; [rewrite !lookup_insert_eq; split; eauto|].
      rewrite !lookup_insert_ne by done. rewrite Hm, T1. destruct (decide (h ∈ A)); rewrite ?fmap_is_Some, lookup_insert_ne by done; done. }
    rewrite D4. apply sum_of_ext. intros h _. unfold entry_usage. cbn [mapTx mapLinks with_links p4]. rewrite T1. f_equal. destruct (decide (h = x)) as [->|Nh].
    - by rewrite !lookup_insert_eq.
    - rewrite !lookup_insert_ne by done. rewrite Hm, T1. destruct (decide (h ∈ A)); rewrite lookup_insert_ne by done; [by destruct (mapTx p !! h)|done]. }
  assert (F1 : forall h, mapTx p4 !! h = if decide (h = x) then Some e3
    else if decide (h ∈ A) then (fun e => set_desc (nCountWithDescendants e + 1) (nSizeWithDescendants e + GetTxSize e3) (i64 (nModFeesWithDescendants e + GetModifiedFee e3)) e) <$> mapTx p !! h
    else mapTx p !! h).
  { intros h. cbn [p4 mapTx]. destruct (decide (h = x)) as [->|Nh]; [by rewrite lookup_insert_eq|]. rewrite lookup_insert_ne, Hm, T1 by done.
    destruct (decide (h ∈ A)); rewrite lookup_insert_ne by done; done. }
  assert (F2 : forall h, mapLinks p4 !! h = if decide (h = x) then Some (mkLinks ps ∅)
    else if decide (h ∈ ps) then (fun l => mkLinks (parents l) ({[x]} ∪ children l)) <$> mapLinks p !! h else mapLinks p !! h).
  { intros h. cbn [p4 mapLinks]. rewrite HL, L1. destruct (decide (h = x)) as [->|Nh].
    - rewrite decide_False by set_solver. by rewrite lookup_insert_eq.
    - by rewrite !lookup_insert_ne by done. }
  exists p4, e3. split; [exact H4|]. split; [|split; [done|split; [cbn [p4 mapTx]; by rewrite lookup_insert_eq|split; [exact W1|split; [by apply (dom_tx' p p4 x e3 A)|]]]]].
  2: { intros h e He. rewrite F1 in He. destruct (decide (h = x)) as [->|Nh].
    - injection He as <-. left. split; [done|]. exact (with_delta_fee p x e0 (ad_fresh _ _ _ Ad)).
    - right. destruct (decide (h ∈ A)); [|by exists e]. apply fmap_Some in He as (eh & Eh & ->). by exists eh. }
  assert (G3 : sigOpCost e3 = sigOpCost e0) by exact W3. rewrite G1, G2 in F1.
  apply (added_ok p p4 x e3 ps A); rewrite ?G1, ?G2, ?G3, ?X3; try done.
  - intros h e He. exact (ad_children _ _ _ Ad h e He).
  - exact (ad_own _ _ _ Ad).
  - unfold e3, e2. cbn [with_idx set_anc nCountWithDescendants nSizeWithDescendants nModFeesWithDescendants]. rewrite W5, W6, W7. split; [done|split; [done|]].
    unfold GetModifiedFee. by rewrite i64_idemp.
  - exact (ad_conflicts _ _ _ Ad).
Qed.

Lemma addUnchecked_search_ok (p : CTxMemPool) (ph : COutPoint -> option uint256) (e0 : CTxMemPoolEntry) : pool_ok p -> addable ph e0 p ->
  exists p' e', addUnchecked_search ph (GetHash (e_tx e0)) e0 p = Ok p' /\ pool_ok p' /\ mapDeltas p' = mapDeltas p /\
    mapTx p' !! GetHash (e_tx e0) = Some e' /\ e_tx e' = e_tx e0 /\ dom (mapTx p') = {[GetHash (e_tx e0)]} ∪ dom (mapTx p) /\ deltas_kept p p' (GetHash (e_tx e0)).
Proof.
  intros K Ad. destruct (ad_small _ _ _ Ad) as (Z1 & Z2 & Z3 & Z4 & Z5).
  destruct (all_ancestors_spec p (links_linked p (pk_links p K)) (lc_dom p (pk_links p K)) e0 true (pool_parents p (vin (e_tx e0)))) as (A & HA & QA & _); [lia|lia|done|].
  unfold addUnchecked_search. rewrite HA. cbn [res_bind]. by apply addUnchecked_ok.
Qed.
End Add.
