(* ===== verification/MempoolRemove.v ===== *)
(** * Removing entries from the memory pool

    [RemoveStaged] keeps the invariant: of a set with all its descendants, and of one
    entry without ancestors whose descendants stay, as for a mined transaction. *)

From stdpp Require Import gmap sorting relations.
From S2P Require Import Prelude ArithUint256 Serialize Compressor Transaction WitnessUtil TxCheck Coins Mempool MempoolGraph MempoolInvariant MempoolAdd.

Section Remove.
Context {Env : PoolEnv}.

(** ** The indexes *)

Lemma delete_inputs_spec o ins : forall m : gmap COutPoint uint256,
  fold_left (fun m i => delete (outpoint_key (prevout i)) m) ins m !! o =
  if bool_decide (o ∈ map (fun i => outpoint_key (prevout i)) ins) then None else m !! o.
Proof.
  induction ins as [|i ins IH]; intros m; cbn [fold_left map]; [by rewrite bool_decide_false by apply not_elem_of_nil|].
  rewrite IH. destruct (decide (o = outpoint_key (prevout i))) as [->|N].
  - rewrite lookup_delete_eq. rewrite (bool_decide_true (_ ∈ _ :: _)) by left. by case_bool_decide.
  - rewrite lookup_delete_ne by done. by rewrite (bool_decide_ext (o ∈ _ :: _) (o ∈ map (fun i => outpoint_key (prevout i)) ins)) by (rewrite elem_of_cons; tauto).
Qed.

(** The place of a removed hash is taken by the last one. *)
Lemma last_place {A} (v : list A) (i : nat) b : (1 < length v)%nat -> (i < length v)%nat -> head (rev v) = Some b ->
  v !! (length v - 1)%nat = Some b /\
  forall j, removelast (<[i := b]> v) !! j = if decide (j < length v - 1)%nat then if decide (j = i) then Some b else v !! j else None.
Proof.
  intros L Li Hb. assert (E : exists w, v = w ++ [b]).
  { exists (rev (tail (rev v))). rewrite <- (rev_involutive v) at 1. destruct (rev v) as [|c w]; [done|]. injection Hb as ->. done. }
  split; [destruct E as [w ->]; rewrite length_app; simpl; replace (length w + 1 - 1)%nat with (length w) by lia; by apply list_lookup_middle|].
  intros j. assert (R : removelast (<[i := b]> v) = take (length v - 1) (<[i := b]> v)).
  { rewrite removelast_firstn_len, length_insert. by replace (Nat.pred (length v)) with (length v - 1)%nat by lia. }
  rewrite R. destruct (decide (j < length v - 1)%nat) as [J|J]; [|apply lookup_take_ge; lia].
  rewrite lookup_take_lt by done. destruct (decide (j = i)) as [->|N]; [by apply list_lookup_insert_eq|by apply list_lookup_insert_ne].
Qed.

(** An entry without its place in the list of hashes. *)
Definition core (e : CTxMemPoolEntry) : CTxMemPoolEntry := with_idx 0 e.
(** After the removal of [S], up to the places. *)
Definition entries_left (p p' : CTxMemPool) (S : setEntries) : Prop :=
  (forall h, core <$> mapTx p' !! h = if decide (h ∈ S) then None else core <$> mapTx p !! h) /\
  (forall h, mapLinks p' !! h = if decide (h ∈ S) then None else mapLinks p !! h) /\ mapDeltas p' = mapDeltas p.

Lemma core_lookup (m m' : gmap uint256 CTxMemPoolEntry) h e : core <$> m !! h = core <$> m' !! h -> m !! h = Some e ->
  exists e', m' !! h = Some e' /\ core e = core e'.
Proof. intros E H. rewrite H in E. destruct (m' !! h) as [e'|]; [|done]. exists e'. split; [done|]. by apply (inj Some) in E. Qed.
Lemma core_stats e e' : core e = core e' -> e_tx e = e_tx e' /\ GetTxSize e = GetTxSize e' /\ nUsageSize e = nUsageSize e'.
Proof. intros E. split; [exact (f_equal e_tx E)|split; [exact (f_equal GetTxSize E)|exact (f_equal nUsageSize E)]]. Qed.

Definition places_ok (p : CTxMemPool) : Prop :=
  (forall h e, mapTx p !! h = Some e -> 0 <= vTxHashesIdx e /\ vTxHashes p !! Z.to_nat (vTxHashesIdx e) = Some (GetWitnessHash (e_tx e), h)) /\
  (forall i w h, vTxHashes p !! i = Some (w, h) -> exists e, mapTx p !! h = Some e /\ vTxHashesIdx e = Z.of_nat i).
(** The list of hashes after one removal. *)
Lemma swap_delete_ok (p : CTxMemPool) (it : uint256) (e : CTxMemPoolEntry) : places_ok p -> mapTx p !! it = Some e ->
  exists m v, swap_delete p it = Ok (mkPool m (mapLinks p) (mapNextTx p) (mapDeltas p) v (totalTxSize p) (cachedInnerUsage p) (nTransactionsUpdated p)
      (lastRollingFeeUpdate p) (blockSinceLastRollingFeeBump p) (rollingMinimumFeeRate p)) /\
    (forall h, core <$> m !! h = core <$> mapTx p !! h) /\
    (forall h e, h <> it -> m !! h = Some e -> 0 <= vTxHashesIdx e /\ v !! Z.to_nat (vTxHashesIdx e) = Some (GetWitnessHash (e_tx e), h)) /\
    (forall i w h, v !! i = Some (w, h) -> h <> it /\ exists e, m !! h = Some e /\ vTxHashesIdx e = Z.of_nat i).
Proof.
  intros B He. destruct (proj1 B it e He) as [P Li]. pose proof (lookup_lt_Some _ _ _ Li) as Lt. unfold swap_delete, entry_at. rewrite He. cbn [res_bind].
  destruct (Nat.ltb_spec 1 (length (vTxHashes p))) as [G|G].
  - destruct (head (rev (vTxHashes p))) as [[wb hb]|] eqn:Hb.
    2: { destruct (rev (vTxHashes p)) eqn:R; [|done]. apply (f_equal length) in R. rewrite length_rev in R. simpl in R. lia. }
    destruct (last_place (vTxHashes p) (Z.to_nat (vTxHashesIdx e)) (wb, hb) G Lt Hb) as [Lb Lv]. set (n := (length (vTxHashes p) - 1)%nat) in *.
    destruct (proj2 B n wb hb Lb) as (eb & Eb & Ib). assert (Wb : wb = GetWitnessHash (e_tx eb)).
    { destruct (proj1 B hb eb Eb) as [_ X]. rewrite Ib, Nat2Z.id, Lb in X. by injection X. }
    unfold modify. cbn [snd]. rewrite Eb. cbn [res_bind]. eexists _, _. split; [reflexivity|]. cbn [mapTx with_mapTx]. split; [|split].
    + intros h. destruct (decide (h = hb)) as [->|N]; [by rewrite lookup_insert_eq, Eb|by rewrite lookup_insert_ne].
    + intros h e1 N H. rewrite Lv. destruct (decide (h = hb)) as [->|Nb].
      * rewrite lookup_insert_eq in H. injection H as <-. cbn [with_idx vTxHashesIdx e_tx]. split; [done|].
        assert (Z.to_nat (vTxHashesIdx e) <> n). { intros X. rewrite X, Lb in Li. injection Li as _ X1. done. }
        rewrite decide_True by lia. by rewrite decide_True, Wb by done.
      * rewrite lookup_insert_ne in H by done. destruct (proj1 B h e1 H) as [P1 L1]. split; [done|]. pose proof (lookup_lt_Some _ _ _ L1) as Lt1.
        assert (Z.to_nat (vTxHashesIdx e1) <> n). { intros X. rewrite X, Lb in L1. injection L1 as _ X1. done. }
        assert (Z.to_nat (vTxHashesIdx e1) <> Z.to_nat (vTxHashesIdx e)). { intros X. rewrite X, Li in L1. injection L1 as _ X1. done. }
        rewrite decide_True by lia. by rewrite decide_False by done.
    + intros i w h H. rewrite Lv in H. destruct (decide (i < n)%nat) as [I|I]; [|done]. destruct (decide (i = Z.to_nat (vTxHashesIdx e))) as [->|Ni].
      * injection H as <- <-. split.
        -- intros ->. rewrite He in Eb. injection Eb as <-. rewrite Ib, Nat2Z.id in I. lia.
        -- rewrite lookup_insert_eq. eexists. split; [done|]. cbn [with_idx vTxHashesIdx]. lia.
      * destruct (proj2 B i w h H) as (e1 & E1 & I1). split.
        -- intros ->. rewrite He in E1. injection E1 as <-. rewrite I1, Nat2Z.id in Ni. done.
        -- destruct (decide (h = hb)) as [->|Nb]; [|rewrite lookup_insert_ne by done; eauto]. rewrite Eb in E1. injection E1 as <-. lia.
  - assert (Only : forall h e1, mapTx p !! h = Some e1 -> h = it).
    { intros h e1 H. destruct (proj1 B h e1 H) as [P1 L1]. pose proof (lookup_lt_Some _ _ _ L1) as Lt1.
      replace (Z.to_nat (vTxHashesIdx e1)) with (Z.to_nat (vTxHashesIdx e)) in L1 by lia. rewrite Li in L1. by injection L1. }
    eexists _, _. split; [reflexivity|]. split; [done|]. split; [intros h e1 N H; by apply Only in H|]. intros i w h H. by rewrite lookup_nil in H.
Qed.

Lemma removeUnchecked_ok (p : CTxMemPool) (it : uint256) : books_consistent p -> it ∈ dom (mapTx p) ->
  exists p', removeUnchecked p it = Ok p' /\ books_consistent p' /\ entries_left p p' {[it]}.
Proof.
  intros B D. apply elem_of_dom in D as [e He]. unfold removeUnchecked, entry_at. rewrite He. cbn [res_bind].
  match goal with |- context [swap_delete ?q it] => set (p1 := q) end.
  destruct (swap_delete_ok p1 it e) as (m & v & Sw & Co & Ix & Bk); [split; [exact (bc_idx p B)|exact (bc_back p B)]|exact He|]. cbn [p1 mapTx] in Co.
  rewrite Sw. cbn [res_bind mapTx mapLinks mapNextTx mapDeltas vTxHashes totalTxSize cachedInnerUsage nTransactionsUpdated lastRollingFeeUpdate blockSinceLastRollingFeeBump rollingMinimumFeeRate p1].
  eexists. split; [reflexivity|]. assert (It : it ∈ dom (mapTx p)) by (by apply elem_of_dom_2 in He).
  assert (Dm : dom (delete it m) = dom (mapTx p) ∖ {[it]}).
  { apply set_eq. intros h. rewrite dom_delete_L, !elem_of_difference, !elem_of_dom, elem_of_singleton. specialize (Co h).
    destruct (m !! h), (mapTx p !! h); (done || (split; intros [[? X] Y]; [..]; try done; split; eauto)). }
  assert (Old : forall h e1, delete it m !! h = Some e1 -> h <> it /\ exists e0, mapTx p !! h = Some e0 /\ e_tx e1 = e_tx e0 /\ GetTxSize e1 = GetTxSize e0 /\ nUsageSize e1 = nUsageSize e0).
  { intros h e1 H. apply lookup_delete_Some in H as [N H]. split; [done|]. destruct (core_lookup m (mapTx p) h e1 (Co h) H) as (e0 & E0 & C).
    exists e0. split; [done|]. by apply core_stats. }
  assert (Sz : forall h, h ∈ dom (mapTx p) ∖ {[it]} -> exists e0 e1, mapTx p !! h = Some e0 /\ delete it m !! h = Some e1 /\ GetTxSize e1 = GetTxSize e0 /\ nUsageSize e1 = nUsageSize e0).
  { intros h Hh. rewrite <- Dm in Hh. apply elem_of_dom in Hh as [e1 E1]. destruct (Old h e1 E1) as (_ & e0 & E0 & _ & X1 & X2). eauto 10. }
  split.
  - split; cbn [mapTx mapLinks mapNextTx vTxHashes totalTxSize cachedInnerUsage].
    + intros h e1 H. destruct (Old h e1 H) as (_ & e0 & E0 & -> & _). by apply (bc_hash p B).
    + by rewrite dom_delete_L, Dm, (bc_dom p B).
    + intros o h. rewrite delete_inputs_spec. case_bool_decide as I.
      * split; [done|]. intros (e1 & i & H & J & E). exfalso. destruct (Old h e1 H) as (N & e0 & E0 & Et & _). apply N.
        apply list_elem_of_fmap in I as (j & Ej & Ij). assert (X : mapNextTx p !! o = Some h) by (apply (bc_next p B); exists e0, i; by rewrite <- Et).
        assert (Y : mapNextTx p !! o = Some it) by (apply (bc_next p B); exists e, j; done). congruence.
      * rewrite (bc_next p B). split; intros (e1 & i & H & J & E).
        -- assert (N : h <> it). { intros ->. rewrite He in H. injection H as <-. apply I. apply list_elem_of_fmap. by exists i. }
           destruct (core_lookup (mapTx p) m h e1 (eq_sym (Co h)) H) as (e2 & E2 & C). exists e2, i. rewrite lookup_delete_ne by done.
           destruct (core_stats _ _ C) as (<- & _). done.
        -- destruct (Old h e1 H) as (N & e0 & E0 & Et & _). exists e0, i. by rewrite <- Et.
    + rewrite Dm, (bc_size p B), u64_sub_l. f_equal. rewrite <- (entry_size_at p it e He). rewrite <- sum_of_remove by done. apply sum_of_ext.
      intros h Hh. destruct (Sz h Hh) as (e0 & e1 & E0 & E1 & X & _). unfold entry_size. cbn [mapTx]. by rewrite E0, E1.
    + unfold links_of. cbn [mapLinks]. assert (Dl : it ∈ dom (mapLinks p)) by (by rewrite (bc_dom p B)). apply elem_of_dom in Dl as [l Hl].
      rewrite Hl. change (default no_links (Some l)) with l. rewrite Dm, (bc_usage p B). rewrite u64_sub_l, <- Z.sub_add_distr, u64_sub_l. f_equal.
      assert (Eu : entry_usage p it = nUsageSize e + (set_node * Z.of_nat (size (parents l)) + set_node * Z.of_nat (size (children l)))) by (unfold entry_usage; by rewrite He, Hl).
      rewrite <- Eu, <- sum_of_remove by done. apply sum_of_ext.
      intros h Hh. destruct (Sz h Hh) as (e0 & e1 & E0 & E1 & _ & X). unfold entry_usage. cbn [mapTx mapLinks]. rewrite E0, E1, X, lookup_delete_ne by set_solver. done.
    + intros i w h H. destruct (Bk i w h H) as (N & e1 & E1 & I1). exists e1. by rewrite lookup_delete_ne.
    + intros h e1 H. apply lookup_delete_Some in H as [N H]. by apply Ix.
  - split; [|split; [|done]]; cbn [mapTx mapLinks]; intros h.
    + destruct (decide (h ∈ {[it]})) as [I|I]; [apply elem_of_singleton in I as ->; by rewrite lookup_delete_eq|]. rewrite lookup_delete_ne by set_solver. apply Co.
    + destruct (decide (h ∈ {[it]})) as [I|I]; [apply elem_of_singleton in I as ->; by rewrite lookup_delete_eq|]. by rewrite lookup_delete_ne by set_solver.
Qed.

Lemma entries_left_trans (p q r : CTxMemPool) (S T : setEntries) : entries_left p q S -> entries_left q r T -> entries_left p r (S ∪ T).
Proof.
  intros (A1 & A2 & A3) (B1 & B2 & B3). split; [|split; [|congruence]]; intros h; [rewrite B1, A1|rewrite B2, A2];
    destruct (decide (h ∈ S)), (decide (h ∈ T)), (decide (h ∈ S ∪ T)); (done || set_solver).
Qed.
Lemma entries_left_dom (p q : CTxMemPool) (S : setEntries) : entries_left p q S -> dom (mapTx q) = dom (mapTx p) ∖ S.
Proof.
  intros (A1 & _). apply set_eq. intros h. rewrite elem_of_difference, !elem_of_dom. specialize (A1 h).
  destruct (decide (h ∈ S)), (mapTx q !! h), (mapTx p !! h); try done; (split; [intros [? ?]|intros [[? ?] ?]]; try done; split; eauto).
Qed.
Lemma remove_all_ok l : forall p : CTxMemPool, NoDup l -> books_consistent p -> (forall h, h ∈ l -> h ∈ dom (mapTx p)) ->
  exists p', for_each l removeUnchecked p = Ok p' /\ books_consistent p' /\ entries_left p p' (list_to_set l).
Proof.
  induction l as [|x l IH]; intros p N B D; cbn [for_each list_to_set].
  - exists p. split; [done|split; [done|]]. split; [|split; [|done]]; intros h; rewrite decide_False by set_solver; done.
  - apply NoDup_cons in N as [Nx N]. destruct (removeUnchecked_ok p x B (D x ltac:(left))) as (p1 & -> & B1 & E1). cbn [res_bind].
    destruct (IH p1 N B1) as (p2 & H2 & B2 & E2).
    { intros h Hh. rewrite (entries_left_dom _ _ _ E1). apply elem_of_difference. split; [apply D; by right|]. intros ->%elem_of_singleton. done. }
    exists p2. split; [exact H2|split; [exact B2|]]. change ({[x]} ∪ list_to_set l) with (({[x]} : setEntries) ∪ list_to_set l). by apply (entries_left_trans _ p1).
Qed.
End Remove.

(** ** The links and the statistics of what is left *)

(** The pool before the removal, and the same pool with its links and statistics prepared. *)
Section Left.
Context {Env : PoolEnv}.
Variables p q p' : CTxMemPool.
Variable S : setEntries.
Hypothesis p_ok : pool_ok p.
Hypothesis gone : entries_left q p' S.
Hypothesis books' : books_consistent p'.
(** The entries of [q] differ from those of [p] in their statistics only. *)
Definition same_static (e e' : CTxMemPoolEntry) : Prop :=
  e_tx e = e_tx e' /\ GetTxSize e = GetTxSize e' /\ GetModifiedFee e = GetModifiedFee e' /\ sigOpCost e = sigOpCost e' /\ nTime e = nTime e' /\ feeDelta e = feeDelta e'.
Hypothesis q_static : forall h e, mapTx q !! h = Some e -> exists e0, mapTx p !! h = Some e0 /\ same_static e e0.
Hypothesis q_dom : dom (mapTx q) = dom (mapTx p).

Lemma left_dom : dom (mapTx p') = dom (mapTx p) ∖ S.
Proof. by rewrite (entries_left_dom _ _ _ gone), q_dom. Qed.
Lemma core_static e e' : core e = core e' -> same_static e e'.
Proof. intros E. split; [exact (f_equal e_tx E)|split; [exact (f_equal GetTxSize E)|split; [exact (f_equal GetModifiedFee E)|split; [exact (f_equal sigOpCost E)|split; [exact (f_equal nTime E)|exact (f_equal feeDelta E)]]]]]. Qed.
Lemma left_entry h e : mapTx p' !! h = Some e -> h ∉ S /\ exists e0 e1, mapTx p !! h = Some e0 /\ mapTx q !! h = Some e1 /\ core e = core e1 /\ same_static e e0.
Proof.
  intros H. assert (N : h ∉ S) by (apply elem_of_dom_2 in H; rewrite left_dom in H; set_solver). split; [done|].
  pose proof (proj1 gone h) as L. rewrite decide_False in L by done. destruct (core_lookup _ _ h e L H) as (e1 & E1 & C).
  destruct (q_static h e1 E1) as (e0 & E0 & S0). exists e0, e1. split; [done|split; [done|split; [done|]]].
  unfold same_static in *. destruct (core_static _ _ C) as (-> & -> & -> & -> & -> & ->). done.
Qed.
Lemma left_lookup h : h ∉ S -> h ∈ dom (mapTx p) -> exists e e0, mapTx p' !! h = Some e /\ mapTx p !! h = Some e0 /\ same_static e e0.
Proof.
  intros N D. assert (D' : h ∈ dom (mapTx p')) by (rewrite left_dom; set_solver). apply elem_of_dom in D' as [e He].
  destruct (left_entry h e He) as (_ & e0 & e1 & E0 & _ & _ & X). eauto.
Qed.
Lemma left_sums (P : setEntries) : P ⊆ dom (mapTx p) -> P ## S ->
  sum_of (entry_size p') P = sum_of (entry_size p) P /\ sum_of (entry_fee p') P = sum_of (entry_fee p) P /\ sum_of (entry_sigops p') P = sum_of (entry_sigops p) P.
Proof.
  intros SP D. repeat split; apply sum_of_ext; intros h Hh; (destruct (left_lookup h) as (e & e0 & E & E0 & (_ & X1 & X2 & X3 & _)); [set_solver..|]).
  - by rewrite (entry_size_at _ _ _ E), (entry_size_at _ _ _ E0).
  - by rewrite (entry_fee_at _ _ _ E), (entry_fee_at _ _ _ E0).
  - by rewrite (entry_sigops_at _ _ _ E), (entry_sigops_at _ _ _ E0).
Qed.
Lemma left_small : pool_small p'.
Proof.
  pose proof (pk_small p p_ok) as Sm. destruct (left_sums (dom (mapTx p) ∖ S)) as (S1 & _ & S3); [set_solver..|]. split.
  - rewrite left_dom, S1. pose proof (sm_size p Sm). pose proof (sum_of_subset (entry_size p) (dom (mapTx p) ∖ S) (dom (mapTx p)) ltac:(set_solver) (fun h _ => entry_size_nonneg p h)). lia.
  - rewrite left_dom, S3. pose proof (sm_sigops p Sm). pose proof (sum_of_subset (entry_sigops p) (dom (mapTx p) ∖ S) (dom (mapTx p)) ltac:(set_solver) (fun h _ => entry_sigops_nonneg p Sm h)). lia.
  - pose proof (sm_count p Sm). pose proof (subseteq_size (dom (mapTx p')) (dom (mapTx p)) ltac:(rewrite left_dom; set_solver)) as L. rewrite !size_dom in L. lia.
  - intros h e He. destruct (left_entry h e He) as (_ & e0 & e1 & E0 & _ & _ & (_ & -> & _ & -> & _)). exact (sm_entry p Sm h e0 E0).
Qed.

(** *** With all descendants *)

Section Closed.
Hypothesis S_dom : S ⊆ dom (mapTx p).
Hypothesis closed : forall y z, y ∈ S -> child p y z -> z ∈ S.
Hypothesis q_links : forall h, mapLinks q !! h = (fun l => mkLinks (parents l) (children l ∖ S)) <$> mapLinks p !! h.
Definition same_anc (e e' : CTxMemPoolEntry) : Prop :=
  nCountWithAncestors e = nCountWithAncestors e' /\ nSizeWithAncestors e = nSizeWithAncestors e' /\
  nModFeesWithAncestors e = nModFeesWithAncestors e' /\ nSigOpCostWithAncestors e = nSigOpCostWithAncestors e'.
Hypothesis q_stats : forall h e e0, mapTx q !! h = Some e -> mapTx p !! h = Some e0 ->
  same_anc e e0 /\ forall P, with_descendants p h P -> desc_stats p (P ∖ (S ∖ {[h]})) e.

Lemma parent_left y z : parent p y z -> y ∉ S -> z ∉ S.
Proof. intros H N Z. apply N. apply (closed z y Z). by apply (lc_children p (pk_links p p_ok)). Qed.
Lemma parent_closed y z : parent p' y z <-> y ∉ S /\ parent p y z.
Proof.
  unfold parent. rewrite (proj1 (proj2 gone) y), q_links. destruct (decide (y ∈ S)) as [I|I].
  - split; [intros (l & ? & _); done|tauto].
  - split; [intros (l & E & Z)|intros (_ & l & E & Z)].
    + apply fmap_Some in E as (l0 & E0 & ->). split; [done|]. by exists l0.
    + rewrite E. by eexists.
Qed.
Lemma child_closed y z : child p' y z <-> y ∉ S /\ child p y z /\ z ∉ S.
Proof.
  unfold child. rewrite (proj1 (proj2 gone) y), q_links. destruct (decide (y ∈ S)) as [I|I].
  - split; [intros (l & ? & _); done|tauto].
  - split; [intros (l & E & Z)|intros (_ & (l & E & Z) & N)].
    + apply fmap_Some in E as (l0 & E0 & ->). cbn [children] in Z. apply elem_of_difference in Z as [Z N]. split; [done|split; [by exists l0|done]].
    + rewrite E. eexists. split; [done|]. cbn [children]. set_solver.
Qed.
Lemma rtc_closed y z : y ∉ S -> (rtc (parent p') y z <-> rtc (parent p) y z) /\ (rtc (parent p) y z -> z ∉ S).
Proof.
  intros N. split; [split; intros H|intros H; revert N; induction H as [y|y w z X _ IH]; intros N; [done|]; apply IH; by apply (parent_left y)].
  - induction H as [y|y w z X _ IH]; [apply rtc_refl|]. apply parent_closed in X as [_ X]. apply rtc_l with w; [done|]. apply IH. by apply (parent_left y).
  - revert N. induction H as [y|y w z X _ IH]; intros N; [apply rtc_refl|]. apply rtc_l with w; [by apply parent_closed|]. apply IH. by apply (parent_left y).
Qed.
Lemma closed_links : links_consistent p'.
Proof.
  pose proof (pk_links p p_ok) as K. split.
  - exact (bc_dom p' books').
  - intros h e l He Hl. destruct (left_entry h e He) as (N & e0 & e1 & E0 & _ & _ & (Et & _)).
    rewrite (proj1 (proj2 gone) h), decide_False, q_links in Hl by done. apply fmap_Some in Hl as (l0 & L0 & ->). cbn [parents]. rewrite Et.
    rewrite (lc_parents p K h e0 l0 E0 L0). unfold pool_parents. rewrite left_dom. apply set_eq. intros z. rewrite !elem_of_intersection, elem_of_difference.
    split; [|tauto]. intros [Z1 Z2]. split; [done|split; [done|]]. apply (parent_left h); [|done]. exists l0. split; [done|]. rewrite (lc_parents p K h e0 l0 E0 L0). unfold pool_parents. set_solver.
  - intros y z. rewrite child_closed, parent_closed, (lc_children p K). split; [tauto|]. intros [N H]. split; [by apply (parent_left z)|done].
  - intros h H. apply (lc_acyclic p K h). revert H. generalize h at 2 4. intros z H. induction H as [y z X|y w z X _ IH].
    + apply tc_once. by apply parent_closed in X as [_ X].
    + apply parent_closed in X as [_ X]. by apply tc_l with w.
Qed.
Lemma closed_stats : stats_consistent p'.
Proof.
  pose proof (pk_links p p_ok) as K. intros h e He. destruct (left_entry h e He) as (N & e0 & e1 & E0 & E1 & C & _).
  destruct (q_stats h e1 e0 E1 E0) as [(A1 & A2 & A3 & A4) HD]. destruct (pk_stats p p_ok h e0 E0) as [SA _]. pose proof (elem_of_dom_2 _ _ _ E0) as D. split; intros P HP.
  - assert (HP0 : with_ancestors p h P) by (intros z; rewrite (HP z); by apply rtc_closed).
    destruct (left_sums P) as (S1 & S2 & S3).
    { intros z Z%HP0. by apply (rtc_parent_dom p h z K Z). } { intros z Z Zs. apply HP0 in Z. by apply (rtc_closed h z N) in Z. }
    unfold anc_stats. rewrite S1, S2, S3. destruct (SA P HP0) as (B1 & B2 & B3 & B4).
    rewrite (f_equal nCountWithAncestors C : nCountWithAncestors e = nCountWithAncestors e1), (f_equal nSizeWithAncestors C : nSizeWithAncestors e = nSizeWithAncestors e1),
      (f_equal nModFeesWithAncestors C : nModFeesWithAncestors e = nModFeesWithAncestors e1), (f_equal nSigOpCostWithAncestors C : nSigOpCostWithAncestors e = nSigOpCostWithAncestors e1).
    rewrite A1, A2, A3, A4. done.
  - destruct (with_descendants_exists p h K D) as (P0 & HP0 & SP0). assert (P = P0 ∖ (S ∖ {[h]})) as ->.
    { apply set_eq. intros z. rewrite (HP z), elem_of_difference, elem_of_difference, elem_of_singleton, (HP0 z). destruct (decide (z ∈ S)) as [Z|Z].
      - split; [|intros [_ X]; destruct X; split; [done|]; intros ->; done]. intros H. apply rtc_inv in H as [->|(w & X & _)]; [done|]. by apply parent_closed in X as [X _].
      - rewrite (proj1 (rtc_closed z h Z)). tauto. }
    destruct (left_sums (P0 ∖ (S ∖ {[h]}))) as (S1 & S2 & _); [set_solver| |].
    { intros z Z Zs. destruct (decide (z = h)) as [->|]; [done|set_solver]. }
    unfold desc_stats. rewrite S1, S2. destruct (HD P0 HP0) as (B1 & B2 & B3).
    rewrite (f_equal nCountWithDescendants C : nCountWithDescendants e = nCountWithDescendants e1), (f_equal nSizeWithDescendants C : nSizeWithDescendants e = nSizeWithDescendants e1),
      (f_equal nModFeesWithDescendants C : nModFeesWithDescendants e = nModFeesWithDescendants e1). done.
Qed.
Lemma closed_ok : pool_ok p'.
Proof. split; [apply closed_links|apply closed_stats|exact books'|exact left_small]. Qed.
End Closed.

(** *** Without ancestors *)

Section Mined.
Variable x : uint256.
Hypothesis S_x : S = {[x]}.
Hypothesis no_parent : forall z, ~ parent p x z.
Hypothesis q_links : forall h, h <> x -> mapLinks q !! h = (fun l => mkLinks (parents l ∖ {[x]}) (children l)) <$> mapLinks p !! h.
Definition same_desc (e e' : CTxMemPoolEntry) : Prop :=
  nCountWithDescendants e = nCountWithDescendants e' /\ nSizeWithDescendants e = nSizeWithDescendants e' /\ nModFeesWithDescendants e = nModFeesWithDescendants e'.
Hypothesis q_stats : forall h e e0, h <> x -> mapTx q !! h = Some e -> mapTx p !! h = Some e0 ->
  same_desc e e0 /\ forall P, with_ancestors p h P -> anc_stats p (P ∖ {[x]}) e.

Lemma not_x h : h ∉ S <-> h <> x.
Proof. rewrite S_x. by rewrite elem_of_singleton. Qed.
Lemma parent_mined y z : parent p' y z <-> y <> x /\ parent p y z /\ z <> x.
Proof.
  unfold parent. rewrite (proj1 (proj2 gone) y). destruct (decide (y ∈ S)) as [I|I].
  - rewrite S_x in I. apply elem_of_singleton in I. split; [intros (l & ? & _); done|tauto].
  - apply not_x in I. rewrite q_links by done. split; [intros (l & E & Z)|intros (_ & (l & E & Z) & N)].
    + apply fmap_Some in E as (l0 & E0 & ->). cbn [parents] in Z. apply elem_of_difference in Z as [Z N]. split; [done|split; [by exists l0|]]. intros ->. by apply N, elem_of_singleton.
    + rewrite E. eexists. split; [done|]. cbn [parents]. apply elem_of_difference. split; [done|]. by intros ->%elem_of_singleton.
Qed.
Lemma child_mined y z : child p' y z <-> y <> x /\ child p y z.
Proof.
  unfold child. rewrite (proj1 (proj2 gone) y). destruct (decide (y ∈ S)) as [I|I].
  - rewrite S_x in I. apply elem_of_singleton in I. split; [intros (l & ? & _); done|tauto].
  - apply not_x in I. rewrite q_links by done. split; [intros (l & E & Z)|intros (_ & l & E & Z)].
    + apply fmap_Some in E as (l0 & E0 & ->). split; [done|by exists l0].
    + rewrite E. by eexists.
Qed.
Lemma rtc_from_x z : rtc (parent p) x z -> z = x.
Proof. intros H. apply rtc_inv in H as [H|(w & X & _)]; [done|]. by destruct (no_parent w). Qed.
Lemma rtc_mined y z : y <> x -> (rtc (parent p') y z <-> rtc (parent p) y z /\ z <> x).
Proof.
  intros N. split.
  - intros H. induction H as [y|y w z X _ IH]; [split; [apply rtc_refl|done]|]. apply parent_mined in X as (_ & X & Nw).
    destruct (IH Nw). split; [by apply rtc_l with w|done].
  - intros [H Nz]. induction H as [y|y w z X H IH]; [apply rtc_refl|]. assert (Nw : w <> x) by (intros ->; by apply Nz, rtc_from_x).
    apply rtc_l with w; [by apply parent_mined|]. by apply IH.
Qed.
Lemma mined_links : links_consistent p'.
Proof.
  pose proof (pk_links p p_ok) as K. split.
  - exact (bc_dom p' books').
  - intros h e l He Hl. destruct (left_entry h e He) as (N & e0 & e1 & E0 & _ & _ & (Et & _)).
    rewrite (proj1 (proj2 gone) h), decide_False, q_links in Hl by (done || by apply not_x). apply fmap_Some in Hl as (l0 & L0 & ->). cbn [parents]. rewrite Et.
    rewrite (lc_parents p K h e0 l0 E0 L0). unfold pool_parents. rewrite left_dom, S_x. apply set_eq. intros z. rewrite elem_of_difference, !elem_of_intersection, elem_of_difference. tauto.
  - intros y z. rewrite child_mined, parent_mined, (lc_children p K). split; [|tauto]. intros [N H]. split; [|done]. intros ->. by apply (no_parent y).
  - intros h H. apply (lc_acyclic p K h). revert H. generalize h at 2 4. intros z H. induction H as [y z X|y w z X _ IH].
    + apply tc_once. by apply parent_mined in X as (_ & X & _).
    + apply parent_mined in X as (_ & X & _). by apply tc_l with w.
Qed.
Lemma mined_stats : stats_consistent p'.
Proof.
  pose proof (pk_links p p_ok) as K. intros h e He. destruct (left_entry h e He) as (N & e0 & e1 & E0 & E1 & C & _). apply not_x in N.
  destruct (q_stats h e1 e0 N E1 E0) as [(A1 & A2 & A3) HA]. destruct (pk_stats p p_ok h e0 E0) as [_ SD]. pose proof (elem_of_dom_2 _ _ _ E0) as D. split; intros P HP.
  - destruct (with_ancestors_exists p h K D) as (P0 & HP0 & SP0). assert (P = P0 ∖ {[x]}) as ->.
    { apply set_eq. intros z. rewrite (HP z), elem_of_difference, elem_of_singleton, (HP0 z). by apply rtc_mined. }
    destruct (left_sums (P0 ∖ {[x]})) as (S1 & S2 & S3); [set_solver|rewrite S_x; set_solver|].
    unfold anc_stats. rewrite S1, S2, S3. destruct (HA P0 HP0) as (B1 & B2 & B3 & B4).
    rewrite (f_equal nCountWithAncestors C : nCountWithAncestors e = nCountWithAncestors e1), (f_equal nSizeWithAncestors C : nSizeWithAncestors e = nSizeWithAncestors e1),
      (f_equal nModFeesWithAncestors C : nModFeesWithAncestors e = nModFeesWithAncestors e1), (f_equal nSigOpCostWithAncestors C : nSigOpCostWithAncestors e = nSigOpCostWithAncestors e1). done.
  - assert (HP0 : with_descendants p h P).
    { intros z. rewrite (HP z). destruct (decide (z = x)) as [->|Nz].
      - split; intros H; exfalso; [|by apply N, rtc_from_x]. apply rtc_inv in H as [H|(w & X & _)]; [done|]. by apply parent_mined in X as [X _].
      - rewrite rtc_mined by done. tauto. }
    destruct (left_sums P) as (S1 & S2 & _).
    { intros z Z%HP0. apply (rtc_parent_dom p z h K Z). done. } { intros z Z Zs. rewrite S_x in Zs. apply elem_of_singleton in Zs as ->. apply HP0, rtc_from_x in Z. done. }
    unfold desc_stats. rewrite S1, S2. destruct (SD P HP0) as (B1 & B2 & B3).
    rewrite (f_equal nCountWithDescendants C : nCountWithDescendants e = nCountWithDescendants e1), (f_equal nSizeWithDescendants C : nSizeWithDescendants e = nSizeWithDescendants e1),
      (f_equal nModFeesWithDescendants C : nModFeesWithDescendants e = nModFeesWithDescendants e1), A1, A2, A3. done.
Qed.
Lemma mined_ok : pool_ok p'.
Proof. split; [apply mined_links|apply mined_stats|exact books'|exact left_small]. Qed.
End Mined.
End Left.

(** ** Pools with the same indexes *)

Lemma books_kept {Env : PoolEnv} (p q : CTxMemPool) : books_consistent p ->
  (forall h e, mapTx q !! h = Some e -> exists e0, mapTx p !! h = Some e0 /\ e_tx e = e_tx e0 /\ vTxHashesIdx e = vTxHashesIdx e0 /\ GetTxSize e = GetTxSize e0) ->
  dom (mapTx q) = dom (mapTx p) -> dom (mapLinks q) = dom (mapTx q) -> usage_ok q ->
  mapNextTx q = mapNextTx p -> vTxHashes q = vTxHashes p -> totalTxSize q = totalTxSize p -> books_consistent q.
Proof.
  intros B F D L U N V T.
  assert (G : forall h e0, mapTx p !! h = Some e0 -> exists e, mapTx q !! h = Some e /\ e_tx e = e_tx e0 /\ vTxHashesIdx e = vTxHashesIdx e0).
  { intros h e0 E0. assert (Dh : h ∈ dom (mapTx q)) by (rewrite D; by apply elem_of_dom_2 in E0). apply elem_of_dom in Dh as [e He].
    destruct (F h e He) as (e1 & E1 & X1 & X2 & _). rewrite E0 in E1. injection E1 as <-. by exists e. }
  split; try done.
  - intros h e He. destruct (F h e He) as (e0 & E0 & -> & _). by apply (bc_hash p B).
  - intros o h. rewrite N, (bc_next p B). split; intros (e & i & He & X).
    + destruct (G h e He) as (e' & E' & Et & _). exists e', i. by rewrite Et.
    + destruct (F h e He) as (e' & E' & Et & _). exists e', i. by rewrite <- Et.
  - rewrite T, (bc_size p B), D. f_equal. apply sum_of_ext. intros h Hh. rewrite <- D in Hh. apply elem_of_dom in Hh as [e He].
    destruct (F h e He) as (e0 & E0 & _ & _ & Z). by rewrite (entry_size_at _ _ _ He), (entry_size_at _ _ _ E0).
  - rewrite V. intros i w h H. destruct (bc_back p B i w h H) as (e & He & I). destruct (G h e He) as (e' & E' & _ & I'). exists e'. by rewrite I'.
  - intros h e He. destruct (F h e He) as (e0 & E0 & -> & -> & _). rewrite V. by apply (bc_idx p B).
Qed.

(** ** The walk over the ancestors *)

Section Walked.
Context {Env : PoolEnv}.
Variable p : CTxMemPool.
Hypothesis p_ok : pool_ok p.

(** The pool after the entries [R] left the statistics and the links of their ancestors. *)
Record walked (R : setEntries) (q : CTxMemPool) : Prop := {
  wk_rest : q = with_mapTx (with_links p (mapLinks q) (cachedInnerUsage q)) (mapTx q);
  wk_usage : usage_ok q;
  wk_links : forall h, mapLinks q !! h = (fun l => mkLinks (parents l) (children l ∖ R)) <$> mapLinks p !! h;
  wk_dom : dom (mapTx q) = dom (mapTx p);
  wk_stats : forall h e, mapTx q !! h = Some e -> exists e0, mapTx p !! h = Some e0 /\
    e = set_desc (nCountWithDescendants e) (nSizeWithDescendants e) (nModFeesWithDescendants e) e0 /\
    forall P, with_descendants p h P -> desc_stats p (P ∖ (R ∖ {[h]})) e
}.
Lemma set_desc_static c s f e e0 : e = set_desc c s f e0 -> same_static e e0.
Proof. intros ->. done. Qed.

Lemma walked_start : walked ∅ p.
Proof.
  split; try done.
  - by destruct p.
  - exact (bc_usage p (pk_books p p_ok)).
  - intros h. destruct (mapLinks p !! h) as [[ps cs]|]; [|done]. cbn. by rewrite difference_empty_L.
  - intros h e He. exists e. split; [done|]. split; [by destruct e|]. intros P HP. replace (P ∖ (∅ ∖ {[h]})) with P by set_solver.
    by apply (pk_stats p p_ok h e He).
Qed.
Lemma walked_parent R q y z : walked R q -> (parent q y z <-> parent p y z).
Proof.
  intros W. unfold parent. rewrite (wk_links R q W). split; intros (l & E & Z).
  - apply fmap_Some in E as (l0 & E0 & ->). by exists l0.
  - rewrite E. by eexists.
Qed.
Lemma walked_rtc R q y z : walked R q -> (rtc (parent q) y z <-> rtc (parent p) y z).
Proof. intros W. split; intros H; (induction H as [y|y w z X _ IH]; [apply rtc_refl|apply rtc_l with w; [by apply (walked_parent R q y w W)|done]]). Qed.
Lemma walked_links_dom R q : walked R q -> dom (mapLinks q) = dom (mapTx q).
Proof.
  intros W. rewrite (wk_dom R q W), <- (lc_dom p (pk_links p p_ok)). apply set_eq. intros h. by rewrite !elem_of_dom, (wk_links R q W), fmap_is_Some.
Qed.
Lemma walked_linked R q : walked R q -> linked q.
Proof.
  intros W x l Hl. rewrite (wk_links R q W) in Hl. apply fmap_Some in Hl as (l0 & L0 & ->). cbn [parents children].
  destruct (links_linked p (pk_links p p_ok) x l0 L0) as [A B]. rewrite (walked_links_dom R q W), (wk_dom R q W), <- (lc_dom p (pk_links p p_ok)). set_solver.
Qed.
Lemma walked_static R q h : walked R q -> entry_size q h = entry_size p h /\ entry_fee q h = entry_fee p h.
Proof.
  intros W. unfold entry_size, entry_fee. destruct (mapTx q !! h) as [e|] eqn:E.
  - destruct (wk_stats R q W h e E) as (e0 & -> & X & _). destruct (set_desc_static _ _ _ _ _ X) as (_ & -> & -> & _). done.
  - apply not_elem_of_dom in E. rewrite (wk_dom R q W) in E. apply not_elem_of_dom in E. by rewrite E.
Qed.
Lemma walked_sums R q : walked R q -> sum_of (entry_size q) (dom (mapTx q)) = sum_of (entry_size p) (dom (mapTx p)) /\ size (mapTx q) = size (mapTx p).
Proof.
  intros W. rewrite (wk_dom R q W). split; [apply sum_of_ext; intros; by apply (walked_static R q)|]. by rewrite <- !size_dom, (wk_dom R q W).
Qed.
Lemma walked_books R q : walked R q -> books_consistent q.
Proof.
  intros W. apply (books_kept p q (pk_books p p_ok)); try (by rewrite (wk_rest R q W)).
  - intros h e He. destruct (wk_stats R q W h e He) as (e0 & E0 & X & _). exists e0. by rewrite X.
  - exact (wk_dom R q W).
  - by apply walked_links_dom with R.
  - exact (wk_usage R q W).
Qed.

Lemma tc_ancestors (r z : uint256) (l : TxLinks) : mapLinks p !! r = Some l -> ((exists s, s ∈ parents l /\ rtc (parent p) s z) <-> tc (parent p) r z).
Proof.
  intros L. split.
  - intros (s & I & H). apply rtc_tc in H as [->|H]; [apply tc_once; by exists l|]. apply tc_l with s; [by exists l|done].
  - intros (w & (l' & E & W) & H)%tc_first. rewrite L in E. injection E as <-. by exists w.
Qed.
(** One entry more. *)
Lemma remove_one_desc (P R : setEntries) (h r : uint256) : r ∉ R -> h <> r -> r ∈ P -> P ∖ (({[r]} ∪ R) ∖ {[h]}) = (P ∖ (R ∖ {[h]})) ∖ {[r]} /\ r ∈ P ∖ (R ∖ {[h]}).
Proof. intros N Nh I. split; [apply set_eq; intros z|]; set_solver. Qed.
Lemma remove_other_desc (P R : setEntries) (h r : uint256) : r ∉ P \/ h = r -> P ∖ (({[r]} ∪ R) ∖ {[h]}) = P ∖ (R ∖ {[h]}).
Proof. intros [N| ->]; apply set_eq; intros z; set_solver. Qed.

Lemma walked_step (R : setEntries) q r : walked R q -> r ∉ R -> r ∈ dom (mapTx p) -> exists q', leave_ancestors q r = Ok q' /\ walked ({[r]} ∪ R) q'.
Proof.
  intros W N D. pose proof (pk_links p p_ok) as K. pose proof (pk_small p p_ok) as Sm. pose proof (walked_books R q W) as B.
  assert (Dq : r ∈ dom (mapTx q)) by (by rewrite (wk_dom R q W)). apply elem_of_dom in Dq as [e He].
  assert (Dl : r ∈ dom (mapLinks p)) by (by rewrite (lc_dom p K)). apply elem_of_dom in Dl as [l Hl].
  destruct (walked_sums R q W) as [Wz Wn]. pose proof (sm_size p Sm) as Z1. pose proof (sm_count p Sm) as Z2.
  assert (Zr : 0 < GetTxSize e <= sum_of (entry_size p) (dom (mapTx p))).
  { rewrite <- (entry_size_at q r e He), (proj1 (walked_static R q r W)). pose proof (sum_of_member (entry_size p) r _ D (fun x _ => entry_size_nonneg p x)).
    apply elem_of_dom in D as [e0 E0]. pose proof (proj1 (sm_entry p Sm r e0 E0)). rewrite (entry_size_at p r e0 E0) in *. lia. }
  assert (Lq : mapLinks q !! r = Some (mkLinks (parents l) (children l ∖ R))) by (by rewrite (wk_links R q W), Hl).
  unfold leave_ancestors, entry_at. rewrite He. cbn [res_bind].
  destruct (all_ancestors_spec q (walked_linked R q W) (walked_links_dom R q W) e false (parents l)) as (A & HA & QA & SA); [rewrite Wz; lia|rewrite Wn; lia| |].
  { exists (mkLinks (parents l) (children l ∖ R)). rewrite (bc_hash q B r e He). done. }
  assert (A_tc : forall z, z ∈ A <-> tc (parent p) r z).
  { intros z. rewrite (QA z), <- (tc_ancestors r z l Hl). split; intros (s & I & H); exists s; (split; [done|]); by apply (walked_rtc R q s z W). }
  rewrite HA. cbn [res_bind]. unfold UpdateAncestorsOf, GetMemPoolParents. rewrite Lq. cbn [res_bind parents].
  assert (Dp : forall h, h ∈ parents l -> h ∈ dom (mapTx q)) by (intros h I; rewrite (wk_dom R q W); apply (parent_dom p r h K); by exists l).
  destruct (fold_relinks _ _ (in_order (parents l)) (UpdateChild_relinks r false) q) as (U2 & E2 & L2); [apply NoDup_in_order| |exact (wk_usage R q W)|].
  { intros h Hh%elem_of_in_order. rewrite (walked_links_dom R q W). split; by apply Dp. }
  set (q2 := fold_left _ _ _) in *. assert (T2 : mapTx q2 = mapTx q) by (rewrite E2; done). unfold entry_at at 1. rewrite T2, He. cbn [res_bind].
  assert (Sz : i64 (u64 (-1 * GetTxSize e)) = - GetTxSize e) by (rewrite i64_u64, i64_small; lia). rewrite Sz.
  set (g := fun (_ : uint256) ea => set_desc (nCountWithDescendants ea + -1) (nSizeWithDescendants ea + - GetTxSize e) (i64 (nModFeesWithDescendants ea + i64 (-1 * GetModifiedFee e))) ea).
  assert (Nr : forall a, a ∈ A -> a <> r) by (intros a I ->; by apply (lc_acyclic p K r), A_tc).
  destruct (modify_each (fun _ => UpdateDescendantState (- GetTxSize e) (i64 (-1 * GetModifiedFee e)) (-1)) g (in_order A) q2 (NoDup_in_order A)) as (m & Hm & Lm).
  { intros a Ia%elem_of_in_order. rewrite T2. pose proof (SA a Ia) as Da. pose proof Da as Da'. apply elem_of_dom in Da as [ea Ea]. exists ea. split; [done|].
    destruct (wk_stats R q W a ea Ea) as (e0 & E0 & _ & St). rewrite (wk_dom R q W) in Da'. destruct (with_descendants_exists p a K Da') as (P & HP & SP).
    destruct (St P HP) as (C1 & C2 & _). assert (Ir : r ∈ P) by (apply HP, tc_rtc, A_tc, Ia). assert (Iaa : a ∈ P) by (apply HP, rtc_refl).
    destruct (remove_one_desc P R a r N (Nr a Ia) Ir) as [_ I2]. set (Q := P ∖ (R ∖ {[a]})) in *.
    pose proof (sum_of_remove (entry_size p) r Q I2) as R1.
    assert (Er : entry_size p r = GetTxSize e) by (rewrite <- (proj1 (walked_static R q r W)); by apply entry_size_at).
    assert (SQ : Q ∖ {[r]} ⊆ dom (mapTx p)) by set_solver. assert (Ia2 : a ∈ Q ∖ {[r]}) by (unfold Q; pose proof (Nr a Ia); set_solver).
    pose proof (set_bounds p (Q ∖ {[r]}) a Sm SQ Ia2) as (Y1 & Y2 & _). rewrite size_difference, size_singleton in Y2 by set_solver.
    apply UpdateDescendantState_exact; lia. }
  rewrite Hm. eexists. split; [reflexivity|].
  assert (Lm' : forall h, m !! h = if decide (h ∈ A) then g h <$> mapTx q !! h else mapTx q !! h) by (intros h; rewrite Lm, T2; by_order h A).
  assert (Dm : dom m = dom (mapTx q)).
  { apply set_eq. intros h. rewrite !elem_of_dom, Lm'. destruct (decide (h ∈ A)); by rewrite ?fmap_is_Some. }
  assert (Uz : forall h, entry_usage (with_mapTx q2 m) h = entry_usage q2 h).
  { intros h. unfold entry_usage. cbn [mapTx mapLinks with_mapTx]. rewrite Lm', T2. destruct (decide (h ∈ A)); [by destruct (mapTx q !! h)|done]. }
  split.
  - rewrite E2, (wk_rest R q W). done.
  - unfold usage_ok. cbn [cachedInnerUsage mapTx with_mapTx]. rewrite U2, Dm, T2. f_equal. apply sum_of_ext. intros h _. symmetry. apply Uz.
  - intros h. cbn [mapLinks with_mapTx]. rewrite L2, (wk_links R q W).
    assert (X : forall l0, mapLinks p !! h = Some l0 -> (h ∈ parents l <-> r ∈ children l0)).
    { intros l0 L0. pose proof (lc_children p K h r) as C. split; intros I.
      - assert (Cp : child p h r) by (apply C; by exists l). destruct Cp as (l1 & L1 & I1). rewrite L0 in L1. by injection L1 as <-.
      - assert (Pp : parent p r h) by (apply C; by exists l0). destruct Pp as (l1 & L1 & I1). rewrite Hl in L1. by injection L1 as <-. }
    destruct (mapLinks p !! h) as [l0|] eqn:L0; [|by destruct (decide _)]. specialize (X l0 eq_refl). pose proof (elem_of_in_order h (parents l)) as O.
    destruct (decide (h ∈ in_order (parents l))) as [I|I]; cbn; f_equal; f_equal; unfold put; set_solver.
  - cbn [mapTx with_mapTx]. by rewrite Dm, (wk_dom R q W).
  - cbn [mapTx with_mapTx]. intros h eh Heh. rewrite Lm' in Heh. destruct (decide (h ∈ A)) as [Ia|Ia].
    + apply fmap_Some in Heh as (e1 & E1 & ->). destruct (wk_stats R q W h e1 E1) as (e0 & E0 & Es & St). exists e0. split; [done|]. split; [unfold g; rewrite Es; done|].
      intros P HP. destruct (St P HP) as (C1 & C2 & C3). assert (Ir : r ∈ P) by (apply HP, tc_rtc, A_tc, Ia).
      destruct (remove_one_desc P R h r N (Nr h Ia) Ir) as [-> I2]. assert (Er : entry_size p r = GetTxSize e) by (rewrite <- (proj1 (walked_static R q r W)); by apply entry_size_at).
      assert (Ef : entry_fee p r = GetModifiedFee e) by (rewrite <- (proj2 (walked_static R q r W)); by apply entry_fee_at).
      unfold desc_stats, g. cbn [set_desc nCountWithDescendants nSizeWithDescendants nModFeesWithDescendants]. rewrite C1, C2, C3, !sum_of_remove, Er, Ef by done.
      assert (SQ : {[r]} ⊆ P ∖ (R ∖ {[h]})) by (by apply singleton_subseteq_l).
      rewrite (size_difference _ _ SQ), size_singleton. pose proof (subseteq_size _ _ SQ) as Y. rewrite size_singleton in Y.
      split; [lia|split; [lia|]]. rewrite i64_add_l, i64_add_r. f_equal; lia.
    + destruct (wk_stats R q W h eh Heh) as (e0 & E0 & Es & St). exists e0. split; [done|split; [done|]]. intros P HP. rewrite remove_other_desc; [by apply St|].
      destruct (decide (h = r)) as [|Nh]; [by right|left]. intros Ir. apply HP, rtc_tc in Ir as [->|Ir]; [done|]. by apply Ia, A_tc.
Qed.
Lemma walked_all l : forall R q, walked R q -> NoDup l -> (forall h, h ∈ l -> h ∉ R /\ h ∈ dom (mapTx p)) ->
  exists q', for_each l leave_ancestors q = Ok q' /\ walked (list_to_set l ∪ R) q'.
Proof.
  induction l as [|r l IH]; intros R q W N D; cbn [for_each list_to_set]; [exists q; split; [done|]; by rewrite union_empty_l_L|].
  apply NoDup_cons in N as [Nr N]. destruct (D r ltac:(left)) as [D1 D2]. destruct (walked_step R q r W D1 D2) as (q1 & -> & W1). cbn [res_bind].
  destruct (IH _ q1 W1 N) as (q' & H & W').
  { intros h Hh. destruct (D h ltac:(by right)) as [D3 D4]. split; [|done]. intros [->%elem_of_singleton|]%elem_of_union; done. }
  exists q'. split; [exact H|]. replace ({[r]} ∪ list_to_set l ∪ R) with (list_to_set l ∪ ({[r]} ∪ R)) by set_solver. done.
Qed.

(** Nothing is left to unlink from the children when they are all removed. *)
Lemma no_children_left (S : setEntries) q l : (forall y z, y ∈ S -> child p y z -> z ∈ S) -> walked S q -> (forall h, h ∈ l -> h ∈ S /\ h ∈ dom (mapTx p)) ->
  for_each l (fun q it => UpdateChildrenForRemoval it q) q = Ok q.
Proof.
  intros C W. induction l as [|r l IH]; intros D; [done|]. cbn [for_each]. destruct (D r ltac:(left)) as [Rs Rd].
  assert (Dl : r ∈ dom (mapLinks p)) by (by rewrite (lc_dom p (pk_links p p_ok))). apply elem_of_dom in Dl as [l0 Hl].
  unfold UpdateChildrenForRemoval, GetMemPoolChildren at 1. rewrite (wk_links S q W), Hl. cbn [fmap option_fmap option_map res_bind children].
  assert (E : children l0 ∖ S = ∅). { apply set_eq. intros z. rewrite elem_of_difference. split; [|set_solver]. intros [Z Nz]. destruct Nz. apply (C r z Rs). by exists l0. }
  rewrite E. replace (in_order ∅) with (@nil uint256) by (symmetry; by apply in_order_nil). cbn [fold_left]. apply IH. intros h Hh. apply D. by right.
Qed.

(** A set with all its descendants is removed. *)
Lemma RemoveStaged_closed (S : setEntries) : S ⊆ dom (mapTx p) -> (forall y z, y ∈ S -> child p y z -> z ∈ S) ->
  exists p', RemoveStaged S false p = Ok p' /\ pool_ok p' /\ dom (mapTx p') = dom (mapTx p) ∖ S /\ mapDeltas p' = mapDeltas p /\
    forall h e, mapTx p' !! h = Some e -> exists e0, mapTx p !! h = Some e0 /\ same_static e e0.
Proof.
  intros SD C. destruct (walked_all (in_order S) ∅ p walked_start (NoDup_in_order S)) as (q & Hq & W).
  { intros h Hh%elem_of_in_order. set_solver. }
  rewrite list_to_set_in_order, union_empty_r_L in W. pose proof (walked_books S q W) as B.
  destruct (remove_all_ok (in_order S) q (NoDup_in_order S) B) as (p' & Hp & B' & E').
  { intros h Hh%elem_of_in_order. rewrite (wk_dom S q W). set_solver. }
  rewrite list_to_set_in_order in E'. exists p'.
  assert (Stat : forall h e, mapTx q !! h = Some e -> exists e0, mapTx p !! h = Some e0 /\ same_static e e0).
  { intros h e He. destruct (wk_stats S q W h e He) as (e0 & E0 & X & _). exists e0. split; [done|]. by apply set_desc_static in X. }
  split; [|split; [|split; [|split]]].
  - unfold RemoveStaged, UpdateForRemoveFromMempool. cbn [res_bind]. rewrite Hq. cbn [res_bind].
    rewrite (no_children_left S q) by (done || (intros h Hh%elem_of_in_order; set_solver)). exact Hp.
  - apply (closed_ok p q p' S p_ok E' B' Stat (wk_dom S q W) SD C (wk_links S q W)). intros h e e0 He E0.
    destruct (wk_stats S q W h e He) as (e1 & E1 & X & St). rewrite E0 in E1. injection E1 as <-. split; [rewrite X; done|done].
  - by rewrite (entries_left_dom _ _ _ E'), (wk_dom S q W).
  - rewrite (proj2 (proj2 E')), (wk_rest S q W). done.
  - intros h e He. destruct (left_entry p q p' S p_ok E' B' Stat (wk_dom S q W) h e He) as (_ & e0 & e1 & E0 & _ & _ & X). eauto.
Qed.
End Walked.

(** ** A mined transaction *)

Section Mine.
Context {Env : PoolEnv}.
Variable p : CTxMemPool.
Hypothesis p_ok : pool_ok p.
Variable x : uint256.
Hypothesis x_in : x ∈ dom (mapTx p).
Hypothesis no_parent : forall z, ~ parent p x z.

Definition leave_one (e ed : CTxMemPoolEntry) : CTxMemPoolEntry :=
  set_anc (nCountWithAncestors ed + -1) (nSizeWithAncestors ed + - GetTxSize e) (i64 (nModFeesWithAncestors ed + i64 (- GetModifiedFee e))) (nSigOpCostWithAncestors ed + - sigOpCost e) ed.

Lemma leave_descendants_ok e : mapTx p !! x = Some e ->
  exists (D : setEntries) m, leave_descendants p x = Ok (with_mapTx p m) /\ (forall z, z ∈ D <-> rtc (parent p) z x /\ z <> x) /\
    forall h, m !! h = if decide (h ∈ D) then leave_one e <$> mapTx p !! h else mapTx p !! h.
Proof.
  intros He. pose proof (pk_links p p_ok) as K. pose proof (pk_small p p_ok) as Sm. unfold leave_descendants.
  destruct (CalculateDescendants_spec p (links_linked p K) x ∅) as (D & -> & SD & Q); [by rewrite (lc_dom p K)|set_solver|set_solver|]. cbn [res_bind].
  unfold entry_at. rewrite He. cbn [res_bind]. rewrite (lc_dom p K) in SD.
  assert (D_spec : forall z, z ∈ D ∖ {[x]} <-> rtc (parent p) z x /\ z <> x).
  { intros z. rewrite elem_of_difference, elem_of_singleton, (Q z), rtc_child_parent by done. set_solver. }
  destruct (stats_bounds p x e p_ok He) as (_ & _ & _ & _ & Y). destruct (sm_entry p Sm x e He) as [Y1 Y2]. pose proof (sm_size p Sm) as Z1. pose proof (sm_sigops p Sm) as Z2. pose proof (sm_count p Sm) as Z3.
  pose proof (sum_of_member (entry_size p) x _ x_in (fun h _ => entry_size_nonneg p h)) as M1. rewrite (entry_size_at p x e He) in M1.
  pose proof (sum_of_member (entry_sigops p) x _ x_in (fun h _ => entry_sigops_nonneg p Sm h)) as M2. rewrite (entry_sigops_at p x e He) in M2.
  assert (X1 : i64 (- i64 (GetTxSize e)) = - GetTxSize e) by (rewrite (i64_small (GetTxSize e)), i64_small; lia). assert (X2 : i32 (- sigOpCost e) = - sigOpCost e) by (rewrite i32_small; lia). rewrite X1, X2.
  destruct (modify_each (fun _ => UpdateAncestorState (- GetTxSize e) (i64 (- GetModifiedFee e)) (-1) (- sigOpCost e)) (fun _ => leave_one e) (in_order (D ∖ {[x]})) p (NoDup_in_order _)) as (m & Hm & Lm).
  { intros h Hh%elem_of_in_order. assert (Hd : h ∈ dom (mapTx p)) by set_solver. apply D_spec in Hh as [Hr Hn]. destruct (with_ancestors_exists p h K Hd) as (P & HP & SP).
    apply elem_of_dom in Hd as [ed Hed]. exists ed. split; [done|]. destruct (pk_stats p p_ok h ed Hed) as [SA _]. destruct (SA P HP) as (C1 & C2 & _ & C4).
    assert (Ix : x ∈ P) by (by apply HP). assert (Ih : h ∈ P ∖ {[x]}) by (apply elem_of_difference; split; [apply HP, rtc_refl|by intros ->%elem_of_singleton]).
    pose proof (set_bounds p (P ∖ {[x]}) h Sm ltac:(set_solver) Ih) as (B1 & B2 & B3). rewrite !sum_of_remove in B1, B3 by done. rewrite (entry_size_at p x e He) in B1. rewrite (entry_sigops_at p x e He) in B3.
    assert (SQ : {[x]} ⊆ P) by (by apply singleton_subseteq_l). rewrite (size_difference _ _ SQ), size_singleton in B2.
    apply UpdateAncestorState_exact; lia. }
  exists (D ∖ {[x]}), m. split; [exact Hm|split; [exact D_spec|]]. intros h. rewrite Lm. by_order h (D ∖ {[x]}).
Qed.

Lemma leave_no_ancestors q e : mapLinks q = mapLinks p -> dom (mapTx q) = dom (mapTx p) -> mapTx q !! x = Some e -> GetHash (e_tx e) = x ->
  sum_of (entry_size q) (dom (mapTx q)) < 2 ^ 63 -> GetTxSize e < 2 ^ 63 -> leave_ancestors q x = Ok q.
Proof.
  intros L D He Hh Z1 Z2. pose proof (pk_links p p_ok) as K. assert (Dl : x ∈ dom (mapLinks p)) by (by rewrite (lc_dom p K)). apply elem_of_dom in Dl as [l Hl].
  assert (Pl : parents l = ∅). { apply elem_of_equiv_empty_L. intros z Z. apply (no_parent z). by exists l. }
  assert (Lq : linked q). { intros y k Hk. rewrite L in *. exact (links_linked p K y k Hk). }
  unfold leave_ancestors, entry_at. rewrite He. cbn [res_bind].
  destruct (all_ancestors_spec q Lq ltac:(rewrite L, D; apply (lc_dom p K)) e false ∅) as (A & -> & QA & _); [lia| |exists l; rewrite L, Hh; done|].
  { pose proof (sm_count p (pk_small p p_ok)). rewrite <- size_dom, D, size_dom. done. }
  assert (A = ∅) as -> by (apply elem_of_equiv_empty_L; intros z Z; apply QA in Z as (s & S & _); set_solver).
  cbn [res_bind]. unfold UpdateAncestorsOf, GetMemPoolParents. rewrite L, Hl. cbn [res_bind]. rewrite Pl.
  replace (in_order ∅) with (@nil uint256) by (symmetry; by apply in_order_nil). cbn [fold_left for_each]. unfold entry_at. by rewrite He.
Qed.

Lemma RemoveStaged_mined :
  exists p', RemoveStaged {[x]} true p = Ok p' /\ pool_ok p' /\ dom (mapTx p') = dom (mapTx p) ∖ {[x]} /\ mapDeltas p' = mapDeltas p /\
    forall h e, mapTx p' !! h = Some e -> exists e0, mapTx p !! h = Some e0 /\ same_static e e0.
Proof.
  pose proof (pk_links p p_ok) as K. pose proof (pk_books p p_ok) as B. pose proof (pk_small p p_ok) as Sm. pose proof x_in as Xi. apply elem_of_dom in Xi as [e He].
  destruct (leave_descendants_ok e He) as (D & m & H0 & QD & Lm). assert (Nx : x ∉ D) by (intros X; apply QD in X as [_ X]; done).
  set (q := with_mapTx p m) in *. assert (Mx : mapTx q !! x = Some e) by (cbn [q mapTx with_mapTx]; by rewrite Lm, decide_False).
  assert (F : forall h eh, mapTx q !! h = Some eh -> exists e0, mapTx p !! h = Some e0 /\ same_static eh e0 /\ nUsageSize eh = nUsageSize e0 /\ vTxHashesIdx eh = vTxHashesIdx e0).
  { intros h eh. cbn [q mapTx with_mapTx]. rewrite Lm. destruct (decide (h ∈ D)) as [I|I]; [intros (e0 & E0 & ->)%fmap_Some; by exists e0|intros H; by exists eh]. }
  assert (Dq : dom (mapTx q) = dom (mapTx p)).
  { apply set_eq. intros h. cbn [q mapTx with_mapTx]. rewrite !elem_of_dom, Lm. destruct (decide (h ∈ D)); by rewrite ?fmap_is_Some. }
  assert (Zq : forall h, entry_size q h = entry_size p h).
  { intros h. unfold entry_size. cbn [q mapTx with_mapTx]. rewrite Lm. destruct (decide (h ∈ D)); [by destruct (mapTx p !! h)|done]. }
  assert (Uq : usage_ok q).
  { unfold usage_ok. rewrite Dq. cbn [q cachedInnerUsage with_mapTx]. rewrite (bc_usage p B). f_equal. apply sum_of_ext. intros h _. unfold entry_usage.
    cbn [q mapTx mapLinks with_mapTx]. rewrite Lm. destruct (decide (h ∈ D)); [by destruct (mapTx p !! h)|done]. }
  assert (Dl : x ∈ dom (mapLinks p)) by (by rewrite (lc_dom p K)). apply elem_of_dom in Dl as [l Hl].
  assert (H1 : leave_ancestors q x = Ok q).
  { pose proof (sm_size p Sm). pose proof (sum_of_member (entry_size p) x _ x_in (fun h _ => entry_size_nonneg p h)) as M1. rewrite (entry_size_at p x e He) in M1.
    apply (leave_no_ancestors q e); try done; [by apply (bc_hash p B)| |lia]. rewrite Dq. by rewrite (sum_of_ext (entry_size q) (entry_size p)). }
  destruct (fold_relinks _ _ (in_order (children l)) (UpdateParent_relinks x false) q (NoDup_in_order _)) as (U2 & E2 & L2); [|done|].
  { intros h Hh%elem_of_in_order. cbn [q mapLinks with_mapTx]. rewrite Dq, (lc_dom p K). assert (P : parent p h x) by (apply (lc_children p K); by exists l).
    by destruct (parent_dom p h x K P). }
  set (q2 := fold_left _ _ _) in *. assert (T2 : mapTx q2 = mapTx q) by (by rewrite E2).
  assert (L3 : forall h, mapLinks q2 !! h = (fun l => mkLinks (parents l ∖ {[x]}) (children l)) <$> mapLinks p !! h).
  { intros h. rewrite L2. cbn [q mapLinks with_mapTx]. pose proof (elem_of_in_order h (children l)) as O. destruct (mapLinks p !! h) as [l0|] eqn:L0; [|by destruct (decide _)].
    destruct (decide (h ∈ in_order (children l))) as [I|I]; [done|]. cbn. f_equal. destruct l0 as [ps cs]. cbn. f_equal. apply set_eq. intros z. rewrite elem_of_difference, elem_of_singleton.
    split; [|tauto]. intros Z. split; [done|]. intros ->. apply I, O. assert (P : child p x h) by (apply (lc_children p K); by exists (mkLinks ps cs)).
    destruct P as (l1 & L1 & I1). rewrite Hl in L1. by injection L1 as <-. }
  assert (B2 : books_consistent q2).
  { apply (books_kept p q2 B); try (by rewrite E2).
    - intros h eh. rewrite T2. intros Hh. destruct (F h eh Hh) as (e0 & E0 & (X1 & X2 & _) & _ & X3). by exists e0.
    - rewrite T2, Dq, <- (lc_dom p K). apply set_eq. intros h. by rewrite !elem_of_dom, L3, fmap_is_Some.
    - exact U2. }
  destruct (removeUnchecked_ok q2 x B2) as (p' & H3 & B3 & E3); [by rewrite T2, Dq|]. exists p'.
  assert (St : forall h e, mapTx q2 !! h = Some e -> exists e0, mapTx p !! h = Some e0 /\ same_static e e0).
  { intros h eh. rewrite T2. intros Hh. destruct (F h eh Hh) as (e0 & E0 & X & _). by exists e0. }
  assert (D2 : dom (mapTx q2) = dom (mapTx p)) by (by rewrite T2).
  split; [|split; [|split; [|split]]].
  - unfold RemoveStaged, UpdateForRemoveFromMempool. rewrite in_order_singleton. cbn [for_each]. rewrite H0. cbn [res_bind]. fold q. rewrite H1. cbn [res_bind].
    unfold UpdateChildrenForRemoval, GetMemPoolChildren. cbn [q mapLinks with_mapTx]. rewrite Hl. cbn [res_bind]. fold q. fold q2. rewrite H3. done.
  - apply (mined_ok p q2 p' {[x]} p_ok E3 B3 St D2 x eq_refl no_parent); [intros h _; apply L3|]. intros h eh e0 Nh. rewrite T2. cbn [q mapTx with_mapTx]. rewrite Lm. intros Hh E0.
    destruct (decide (h ∈ D)) as [I|I]; rewrite E0 in Hh; injection Hh as <-; (split; [done|]); intros P HP; destruct (pk_stats p p_ok h e0 E0) as [SA _]; destruct (SA P HP) as (C1 & C2 & C3 & C4).
    + assert (Ix : x ∈ P) by (apply HP; by apply QD in I as [I _]). assert (SQ : {[x]} ⊆ P) by (by apply singleton_subseteq_l).
      unfold anc_stats, leave_one. cbn [set_anc nCountWithAncestors nSizeWithAncestors nModFeesWithAncestors nSigOpCostWithAncestors].
      rewrite C1, C2, C3, C4, (size_difference _ _ SQ), size_singleton, !sum_of_remove, (entry_size_at p x e He), (entry_fee_at p x e He), (entry_sigops_at p x e He) by done.
      pose proof (subseteq_size _ _ SQ) as Y. rewrite size_singleton in Y. split; [lia|split; [done|split; [|done]]]. rewrite i64_add_l, i64_add_r. f_equal; lia.
    + replace (P ∖ {[x]}) with P; [done|]. apply set_eq. intros z. rewrite elem_of_difference, elem_of_singleton. split; [|tauto]. intros Z. split; [done|]. intros ->.
      apply I, QD. split; [by apply HP|done].
  - by rewrite (entries_left_dom _ _ _ E3), D2.
  - rewrite (proj2 (proj2 E3)), E2. done.
  - intros h eh Hh. destruct (left_entry p q2 p' {[x]} p_ok E3 B3 St D2 h eh Hh) as (_ & e0 & e1 & E0 & _ & _ & X). eauto.
Qed.
End Mine.
