(* ===== verification/MempoolSpec.v ===== *)
(** * What the memory pool promises

    Every operation that the node performs keeps the invariant of [MempoolInvariant]
    and fails no assertion; the limits of [CalculateMemPoolAncestors] are exact; a
    removal takes the descendants and nothing else; after a block nothing in the pool
    spends what the block spent, when both refer to the output in the same way. *)

From stdpp Require Import gmap sorting relations.
From S2P Require Import Prelude ArithUint256 Serialize Compressor Transaction WitnessUtil TxCheck Coins Mempool MempoolGraph MempoolInvariant MempoolAdd MempoolRemove.

(** ** Removal *)

Section Removal.
Context {Env : PoolEnv}.

Lemma closed_under_child (p : CTxMemPool) (D : setEntries) (l : list uint256) : (forall z, z ∈ D <-> exists x, x ∈ l /\ rtc (child p) x z) ->
  forall y z, y ∈ D -> child p y z -> z ∈ D.
Proof. intros Q y z Y Z. apply Q in Y as (x & X & H). apply Q. exists x. split; [done|]. by apply rtc_r with y. Qed.

(** What a removal leaves. *)
Definition removed (p p' : CTxMemPool) (S : setEntries) : Prop :=
  pool_ok p' /\ dom (mapTx p') = dom (mapTx p) ∖ S /\ mapDeltas p' = mapDeltas p /\
  forall h e, mapTx p' !! h = Some e -> exists e0, mapTx p !! h = Some e0 /\ same_static e e0.

Lemma remove_descendants (p : CTxMemPool) (l : list uint256) : pool_ok p -> (forall x, x ∈ l -> x ∈ dom (mapTx p)) ->
  exists D p', all_descendants p l = Ok D /\ RemoveStaged D false p = Ok p' /\ removed p p' D /\ forall z, z ∈ D <-> exists x, x ∈ l /\ rtc (child p) x z.
Proof.
  intros K L. pose proof (pk_links p K) as Kl. destruct (all_descendants_spec p (links_linked p Kl) l) as (D & HD & SD & Q); [by rewrite (lc_dom p Kl)|].
  rewrite (lc_dom p Kl) in SD. destruct (RemoveStaged_closed p K D SD (closed_under_child p D l Q)) as (p' & H & R). exists D, p'. done.
Qed.

(** The spenders of the outputs of [h] from the [i]th on. *)
Lemma output_spenders_spec (p : CTxMemPool) (h : uint256) outs : pool_ok p -> forall i, exists s, output_spenders p h outs i = Ok s /\ s ⊆ dom (mapTx p) /\
  forall z, z ∈ s <-> exists j, i <= j < i + Z.of_nat (length outs) /\ mapNextTx p !! outpoint_key (COutPoint_ofHash h j) = Some z.
Proof.
  intros K. induction outs as [|o outs IH]; intros i; cbn [output_spenders length].
  - exists ∅. split; [done|split; [set_solver|]]. intros z. split; [set_solver|]. intros (j & J & _). lia.
  - destruct (IH (i + 1)) as (s & -> & Ss & Q). cbn [res_bind]. destruct (mapNextTx p !! outpoint_key (COutPoint_ofHash h i)) as [next|] eqn:E.
    + assert (D : next ∈ dom (mapTx p)) by (apply (bc_next p (pk_books p K)) in E as (e & ? & He & _); by apply elem_of_dom_2 in He).
      unfold exists_. rewrite bool_decide_true by (by apply elem_of_dom). exists ({[next]} ∪ s). split; [done|split; [set_solver|]].
      intros z. rewrite elem_of_union, elem_of_singleton, Q. split.
      * intros [->|(j & J & H)]; [exists i; split; [lia|done]|exists j; split; [lia|done]].
      * intros (j & J & H). destruct (Z.eq_dec j i) as [->|N]; [left; congruence|right; exists j; split; [lia|done]].
    + exists s. split; [done|split; [done|]]. intros z. rewrite Q. split; intros (j & J & H); exists j; [split; [lia|done]|].
      split; [|done]. destruct (Z.eq_dec j i) as [->|N]; [congruence|lia].
Qed.
(** The roots of a recursive removal: the transaction, or the spenders of its outputs when it is not in the pool. *)
Definition removal_roots (p : CTxMemPool) (tx : CTransaction) (z : uint256) : Prop :=
  if exists_ p (GetHash tx) then z = GetHash tx
  else exists j, 0 <= j < Z.of_nat (length (vout tx)) /\ mapNextTx p !! outpoint_key (COutPoint_ofHash (GetHash tx) j) = Some z.
Lemma removeRecursive_ok (p : CTxMemPool) (tx : CTransaction) : pool_ok p ->
  exists D p', removeRecursive tx p = Ok p' /\ removed p p' D /\ forall z, z ∈ D <-> exists x, removal_roots p tx x /\ rtc (child p) x z.
Proof.
  intros K. unfold removeRecursive. assert (R : exists s, (if exists_ p (GetHash tx) then Ok {[GetHash tx]} else output_spenders p (GetHash tx) (vout tx) 0) = Ok s /\
    s ⊆ dom (mapTx p) /\ forall z, z ∈ s <-> removal_roots p tx z).
  { unfold removal_roots. destruct (exists_ p (GetHash tx)) eqn:E.
    - apply bool_decide_eq_true in E. exists {[GetHash tx]}. split; [done|split; [|set_solver]]. apply singleton_subseteq_l. by apply elem_of_dom.
    - destruct (output_spenders_spec p (GetHash tx) (vout tx) K 0) as (s & Hs & Ss & Q). by exists s. }
  destruct R as (s & -> & Ss & Qs). cbn [res_bind]. destruct (remove_descendants p (in_order s) K) as (D & p' & -> & H & R & Q).
  { intros x X%elem_of_in_order. by apply Ss. }
  exists D, p'. split; [exact H|split; [exact R|]]. intros z. rewrite Q. split; intros (x & X & Hx); exists x; (split; [|done]); [apply Qs; by apply elem_of_in_order|apply elem_of_in_order; by apply Qs].
Qed.
End Removal.

(** ** Blocks *)

Section Blocks.
Context {Env : PoolEnv}.

(** The recorded change of the fee of an entry is the one in force. *)
Definition deltas_ok (p : CTxMemPool) : Prop := forall h e, mapTx p !! h = Some e -> feeDelta e = default 0 (mapDeltas p !! h).
Definition pool_inv (p : CTxMemPool) : Prop := pool_ok p /\ deltas_ok p.

(** Changes to what the invariant does not mention. *)
Lemma pool_ok_rest (p : CTxMemPool) d n t b r : pool_ok p ->
  pool_ok (mkPool (mapTx p) (mapLinks p) (mapNextTx p) d (vTxHashes p) (totalTxSize p) (cachedInnerUsage p) n t b r).
Proof. intros [[L1 L2 L3 L4] S [B1 B2 B3 B4 B5 B6 B7] [Z1 Z2 Z3 Z4]]. split; [by split|exact S|by split|by split]. Qed.

(** The entries of [p'] are entries of [p]. *)
Definition shrinks (p p' : CTxMemPool) : Prop := forall h e, mapTx p' !! h = Some e -> exists e0, mapTx p !! h = Some e0 /\ same_static e e0.
Lemma shrinks_refl p : shrinks p p.
Proof. intros h e He. by exists e. Qed.
Lemma shrinks_trans p q r : shrinks p q -> shrinks q r -> shrinks p r.
Proof.
  intros A B h e He. destruct (B h e He) as (e1 & E1 & S1). destruct (A h e1 E1) as (e0 & E0 & S0). exists e0. split; [done|].
  unfold same_static in *. destruct S1 as (-> & -> & -> & -> & -> & ->). done.
Qed.
Lemma shrinks_dom p q : shrinks p q -> dom (mapTx q) ⊆ dom (mapTx p).
Proof. intros A h [e He]%elem_of_dom. destruct (A h e He) as (e0 & E0 & _). by apply elem_of_dom_2 in E0. Qed.
Lemma shrinks_next p q o h : pool_ok p -> pool_ok q -> shrinks p q -> mapNextTx q !! o = Some h -> mapNextTx p !! o = Some h.
Proof.
  intros K Kq S H. apply (bc_next q (pk_books q Kq)) in H as (e & i & He & I & E). destruct (S h e He) as (e0 & E0 & (Et & _)).
  apply (bc_next p (pk_books p K)). exists e0, i. by rewrite <- Et.
Qed.
Lemma shrinks_child (p q : CTxMemPool) x y : pool_ok p -> pool_ok q -> shrinks p q -> child q x y -> child p x y.
Proof.
  intros K Kq S H. apply (lc_children p (pk_links p K)). apply (lc_children q (pk_links q Kq)) in H.
  destruct (parent_dom q y x (pk_links q Kq) H) as [Dy Dx]. apply elem_of_dom in Dy as [e He]. destruct H as (l & Hl & X).
  rewrite (lc_parents q (pk_links q Kq) y e l He Hl) in X. destruct (S y e He) as (e0 & E0 & (Et & _)).
  assert (L : is_Some (mapLinks p !! y)) by (apply elem_of_dom; rewrite (lc_dom p (pk_links p K)); by apply elem_of_dom_2 in E0). destruct L as [l0 L].
  exists l0. split; [done|]. rewrite (lc_parents p (pk_links p K) y e0 l0 E0 L), <- Et. unfold pool_parents in *. apply elem_of_intersection in X as [X _].
  apply elem_of_intersection. split; [done|]. by apply (shrinks_dom p q S).
Qed.
Lemma shrinks_rtc (p q : CTxMemPool) x y : pool_ok p -> pool_ok q -> shrinks p q -> rtc (child q) x y -> rtc (child p) x y.
Proof. intros K Kq S H. induction H as [|a b c R _ IH]; [apply rtc_refl|]. apply rtc_l with b; [|done]. by apply (shrinks_child p q). Qed.
(** The entries that leave with a spend of one of the inputs. *)
Definition conflicting (p : CTxMemPool) (tx : CTransaction) (ins : list CTxIn) (z : uint256) : Prop :=
  exists i x, i ∈ ins /\ mapNextTx p !! outpoint_key (prevout i) = Some x /\ x <> GetHash tx /\ rtc (child p) x z.
Lemma conflicting_shrinks (p q : CTxMemPool) tx ins z : pool_ok p -> pool_ok q -> shrinks p q -> conflicting q tx ins z -> conflicting p tx ins z.
Proof.
  intros K Kq S (i & x & I & N & X & R). exists i, x. split; [done|split; [by apply (shrinks_next p q)|split; [done|by apply (shrinks_rtc p q)]]].
Qed.
Lemma removed_shrinks p q S : removed p q S -> shrinks p q.
Proof. intros (_ & _ & _ & H). exact H. Qed.
Lemma removed_deltas p q S : removed p q S -> deltas_ok p -> deltas_ok q.
Proof.
  intros (_ & _ & D & H) I h e He. destruct (H h e He) as (e0 & E0 & (_ & _ & _ & _ & _ & Ef)). rewrite D, Ef. by apply I.
Qed.

Lemma remove_conflict_ok (p : CTxMemPool) tx i : pool_inv p ->
  exists p', remove_conflict tx p i = Ok p' /\ pool_inv p' /\ shrinks p p' /\ (forall h, mapNextTx p' !! outpoint_key (prevout i) = Some h -> h = GetHash tx) /\
    forall z, z ∈ dom (mapTx p) -> z ∈ dom (mapTx p') \/ conflicting p tx [i] z.
Proof.
  intros [K I]. unfold remove_conflict. destruct (mapNextTx p !! outpoint_key (prevout i)) as [h|] eqn:E.
  2: { exists p. split; [done|split; [done|split; [apply shrinks_refl|split; [|by left]]]]. intros h X. congruence. }
  pose proof (proj1 (bc_next p (pk_books p K) _ _) E) as (e & j & He & J & Ej). unfold entry_at. rewrite He. cbn [res_bind].
  pose proof (bc_hash p (pk_books p K) h e He) as Hh. rewrite Hh. case_bool_decide as X.
  { exists p. split; [done|split; [done|split; [apply shrinks_refl|split; [|by left]]]]. intros h' X'. congruence. }
  set (q := ClearPrioritisation h p). assert (Kq : pool_ok q) by (by apply pool_ok_rest).
  destruct (removeRecursive_ok q (e_tx e) Kq) as (D & p' & H & R & Q). exists p'. split; [exact H|]. pose proof (removed_shrinks _ _ _ R) as S. destruct R as (K' & D' & M & _).
  assert (Nh : h ∉ dom (mapTx p')).
  { rewrite D'. assert (Hd : h ∈ D); [|set_solver]. apply Q. exists h. split; [|apply rtc_refl]. unfold removal_roots, exists_. rewrite Hh.
    cbn [q mapTx ClearPrioritisation with_deltas]. by rewrite bool_decide_true by (by exists e). }
  split; [split; [done|]|split; [done|split]].
  - intros k ek Hk. destruct (S k ek Hk) as (e0 & E0 & (_ & _ & _ & _ & _ & ->)). rewrite M. cbn [q mapDeltas ClearPrioritisation with_deltas].
    rewrite lookup_delete_ne; [by apply I|]. intros ->. apply Nh. by apply elem_of_dom_2 in Hk.
  - intros h' H'. pose proof (shrinks_next q p' _ h' Kq K' S H') as Y. cbn [q mapNextTx ClearPrioritisation with_deltas] in Y. rewrite E in Y. injection Y as <-.
    destruct Nh. apply (bc_next p' (pk_books p' K')) in H' as (? & ? & He' & _). by apply elem_of_dom_2 in He'.
  - intros z Z. rewrite D'. destruct (decide (z ∈ D)) as [Jd|Jd]; [right|left; set_solver]. apply Q in Jd as (x & Hx & Rx). unfold removal_roots, exists_ in Hx. rewrite Hh in Hx.
    cbn [q mapTx ClearPrioritisation with_deltas] in Hx. rewrite bool_decide_true in Hx by (by exists e). subst x. exists i, h. split; [left|done].
Qed.
Lemma removeConflicts_ok tx ins : forall p : CTxMemPool, pool_inv p ->
  exists p', for_each ins (remove_conflict tx) p = Ok p' /\ pool_inv p' /\ shrinks p p' /\
    (forall i h, i ∈ ins -> mapNextTx p' !! outpoint_key (prevout i) = Some h -> h = GetHash tx) /\
    forall z, z ∈ dom (mapTx p) -> z ∈ dom (mapTx p') \/ conflicting p tx ins z.
Proof.
  induction ins as [|i ins IH]; intros p I; cbn [for_each].
  - exists p. split; [done|split; [done|split; [apply shrinks_refl|split; [|by left]]]]. intros i h X. by apply not_elem_of_nil in X.
  - destruct (remove_conflict_ok p tx i I) as (p1 & -> & I1 & S1 & N1 & C1). cbn [res_bind]. destruct (IH p1 I1) as (p2 & H & I2 & S2 & N2 & C2).
    exists p2. split; [exact H|split; [done|split; [by apply shrinks_trans with p1|split]]].
    2: { intros z Z. destruct (C1 z Z) as [Z1|(j & x & J & X)]; [|right; exists j, x; split; [apply list_elem_of_singleton in J as ->; left|done]].
      destruct (C2 z Z1) as [Z2|X]; [by left|right]. apply (conflicting_shrinks p p1) in X as (j & x & J & X); [|apply I|apply I1|done]. exists j, x. split; [by right|done]. }
    intros j h J Hj. apply elem_of_cons in J as [->|J]; [|by apply (N2 j)].
    apply N1. by apply (shrinks_next p1 p2 _ h (proj1 I1) (proj1 I2) S2).
Qed.

(** Nothing of [tx] is left in the pool: not the transaction, and no spend of its inputs. *)
Definition settled (p : CTxMemPool) (tx : CTransaction) : Prop :=
  GetHash tx ∉ dom (mapTx p) /\ forall i, i ∈ vin tx -> mapNextTx p !! outpoint_key (prevout i) = None.
Lemma settled_shrinks p q tx : pool_ok p -> pool_ok q -> shrinks p q -> settled p tx -> settled q tx.
Proof.
  intros K Kq S [A B]. split; [intros X; apply A; by apply (shrinks_dom p q S)|]. intros i I. destruct (mapNextTx q !! _) as [h|] eqn:E; [|done].
  apply (shrinks_next p q _ h K Kq S) in E. by rewrite B in E.
Qed.
Lemma remove_mined_ok (p : CTxMemPool) tx : pool_inv p ->
  (forall e, mapTx p !! GetHash tx = Some e -> e_tx e = tx /\ pool_parents p (vin tx) = ∅) ->
  exists p', remove_mined p tx = Ok p' /\ pool_inv p' /\ shrinks p p' /\ settled p' tx /\
    forall z, z ∈ dom (mapTx p) -> z ∈ dom (mapTx p') \/ z = GetHash tx \/ conflicting p tx (vin tx) z.
Proof.
  intros [K I] Rd. unfold remove_mined.
  assert (H1 : exists p1, (if exists_ p (GetHash tx) then RemoveStaged {[GetHash tx]} true p else Ok p) = Ok p1 /\ pool_inv p1 /\ shrinks p p1 /\ GetHash tx ∉ dom (mapTx p1) /\
      forall z, z ∈ dom (mapTx p) -> z ∈ dom (mapTx p1) \/ z = GetHash tx).
  { destruct (exists_ p (GetHash tx)) eqn:E.
    - apply bool_decide_eq_true in E as [e He]. destruct (Rd e He) as [Et Ep].
      destruct (RemoveStaged_mined p K (GetHash tx)) as (p1 & H & R); [by apply elem_of_dom_2 in He| |].
      + intros z (l & Hl & Z). rewrite (lc_parents p (pk_links p K) _ e l He Hl), Et, Ep in Z. set_solver.
      + exists p1. split; [exact H|]. destruct R as (K1 & D1 & M1 & S1). split; [split; [done|]|split; [exact S1|rewrite D1; split; [set_solver|]]].
        2: { intros z Z. destruct (decide (z = GetHash tx)) as [->|N]; [by right|left]. set_solver. }
        by apply (removed_deltas p p1 {[GetHash tx]}).
    - apply bool_decide_eq_false in E. exists p. split; [done|split; [done|split; [apply shrinks_refl|split; [by rewrite elem_of_dom|by left]]]]. }
  destruct H1 as (p1 & -> & I1 & S1 & N1 & C1). cbn [res_bind]. unfold removeConflicts. destruct (removeConflicts_ok tx (vin tx) p1 I1) as (p2 & -> & I2 & S2 & N2 & C2). cbn [res_bind].
  exists (ClearPrioritisation (GetHash tx) p2). assert (Nd : GetHash tx ∉ dom (mapTx p2)) by (intros X; apply N1; by apply (shrinks_dom p1 p2 S2)).
  split; [done|split; [|split; [by apply shrinks_trans with p1|split; [split; [exact Nd|]|]]]].
  3: { intros z Z. destruct (C1 z Z) as [Z1|Z1]; [|by right; left]. destruct (C2 z Z1) as [Z2|X]; [by left|right; right]. by apply (conflicting_shrinks p p1); [|apply I1|..]. }
  - split; [apply pool_ok_rest, I2|]. intros h e He. cbn [mapDeltas ClearPrioritisation with_deltas mapTx] in *. rewrite lookup_delete_ne; [by apply I2|].
    intros <-. apply Nd. by apply elem_of_dom_2 in He.
  - intros i Ii. cbn [mapNextTx ClearPrioritisation with_deltas]. destruct (mapNextTx p2 !! _) as [h|] eqn:E; [|done]. pose proof (N2 i h Ii E) as ->.
    apply (bc_next p2 (pk_books p2 (proj1 I2))) in E as (e & ? & He & _). destruct Nd. by apply elem_of_dom_2 in He.
Qed.

(** A block in which every transaction comes after those that it spends. *)
Definition block_ready (p : CTxMemPool) (vtx : list CTransaction) : Prop :=
  forall pre tx post, vtx = pre ++ tx :: post -> forall e, mapTx p !! GetHash tx = Some e ->
    e_tx e = tx /\ forall h, h ∈ input_hashes (vin tx) -> h ∈ dom (mapTx p) -> exists t, t ∈ pre /\ GetHash t = h.
Lemma removeForBlock_ok (p : CTxMemPool) vtx now : pool_inv p -> block_ready p vtx ->
  exists p', removeForBlock vtx now p = Ok p' /\ pool_inv p' /\ shrinks p p' /\ (forall tx, tx ∈ vtx -> settled p' tx) /\
    forall z, z ∈ dom (mapTx p) -> z ∈ dom (mapTx p') \/ exists tx, tx ∈ vtx /\ (z = GetHash tx \/ conflicting p tx (vin tx) z).
Proof.
  intros I Rd. unfold removeForBlock.
  assert (G : forall post pre q, vtx = pre ++ post -> pool_inv q -> shrinks p q -> (forall tx, tx ∈ pre -> settled q tx) ->
    (forall z, z ∈ dom (mapTx p) -> z ∈ dom (mapTx q) \/ exists tx, tx ∈ vtx /\ (z = GetHash tx \/ conflicting p tx (vin tx) z)) ->
    exists p', for_each post remove_mined q = Ok p' /\ pool_inv p' /\ shrinks p p' /\ (forall tx, tx ∈ vtx -> settled p' tx) /\
      forall z, z ∈ dom (mapTx p) -> z ∈ dom (mapTx p') \/ exists tx, tx ∈ vtx /\ (z = GetHash tx \/ conflicting p tx (vin tx) z)).
  { induction post as [|tx post IH]; intros pre q E Iq Sq Dn Kp; cbn [for_each].
    - exists q. rewrite app_nil_r in E. subst pre. done.
    - destruct (remove_mined_ok q tx Iq) as (q1 & -> & I1 & S1 & N1 & C1).
      { intros e He. destruct (Sq _ e He) as (e0 & E0 & (Et & _)). destruct (Rd pre tx post E e0 E0) as [Ex Ph]. split; [congruence|].
        apply elem_of_equiv_empty_L. intros h Hh. unfold pool_parents in Hh. apply elem_of_intersection in Hh as [H1 H2]. destruct (Ph h H1 ltac:(by apply (shrinks_dom p q Sq))) as (t & T & Th).
        destruct (Dn t T) as [X _]. by rewrite Th in X. }
      cbn [res_bind]. apply (IH (pre ++ [tx])); [by rewrite <- app_assoc|done|by apply shrinks_trans with q|..].
      2: { intros z Z. destruct (Kp z Z) as [Z1|X]; [|by right]. destruct (C1 z Z1) as [Z2|X]; [by left|right]. exists tx. split; [rewrite E; apply elem_of_app; right; left|].
        destruct X as [X|X]; [by left|right]. apply (conflicting_shrinks p q); [apply I|apply Iq|done|done]. }
      intros t [T|T]%elem_of_app; [apply (settled_shrinks q q1 t (proj1 Iq) (proj1 I1) S1); by apply Dn|]. apply list_elem_of_singleton in T as ->. exact N1. }
  destruct (G vtx [] p eq_refl I (shrinks_refl p)) as (p' & -> & I' & S' & D' & C'); [intros tx X; by apply not_elem_of_nil in X|by left|]. cbn [res_bind].
  eexists. split; [reflexivity|]. split; [split; [apply pool_ok_rest, I'|exact (proj2 I')]|split; [exact S'|split; [exact D'|exact C']]].
Qed.
End Blocks.

(** ** Changes of fees *)

Section Fees.
Context {Env : PoolEnv}.

Definition with_fees (delta : Z) (lp : LockPoints) (fd fa : Z) (e : CTxMemPoolEntry) : CTxMemPoolEntry :=
  mkPoolEntry (e_tx e) (nFee e) (nTxWeight e) (nUsageSize e) (nTime e) (entryHeight e) (spendCoinbaseCount e) (sigOpCost e) delta lp
    (nCountWithDescendants e) (nSizeWithDescendants e) fd (nCountWithAncestors e) (nSizeWithAncestors e) fa (nSigOpCostWithAncestors e) (vTxHashesIdx e).
(** The entries of [m] are those of [p] with other fees and lock points. *)
Definition refeed (p : CTxMemPool) (m : gmap uint256 CTxMemPoolEntry) : Prop :=
  forall h, match mapTx p !! h with
            | Some e => exists d lp fd fa, m !! h = Some (with_fees d lp fd fa e)
            | None => m !! h = None
            end.
Section Refeed.
Variable p : CTxMemPool.
Variable m : gmap uint256 CTxMemPoolEntry.
Hypothesis p_ok : pool_ok p.
Hypothesis same : refeed p m.
Let p' := with_mapTx p m.
Lemma refeed_at h e : m !! h = Some e -> exists e0 d lp fd fa, mapTx p !! h = Some e0 /\ e = with_fees d lp fd fa e0.
Proof.
  intros He. specialize (same h). destruct (mapTx p !! h) as [e0|]; [|congruence]. destruct same as (d & lp & fd & fa & E). exists e0, d, lp, fd, fa. split; [done|congruence].
Qed.
Lemma refeed_to h e : mapTx p !! h = Some e -> exists d lp fd fa, m !! h = Some (with_fees d lp fd fa e).
Proof. intros He. specialize (same h). by rewrite He in same. Qed.
Lemma refeed_dom : dom m = dom (mapTx p).
Proof.
  apply set_eq. intros h. rewrite !elem_of_dom. split; intros [e He].
  - apply refeed_at in He as (e0 & ? & ? & ? & ? & E & _). by exists e0.
  - destruct (refeed_to h e He) as (? & ? & ? & ? & E). by eexists.
Qed.
Lemma refeed_size (P : setEntries) : sum_of (entry_size p') P = sum_of (entry_size p) P /\ sum_of (entry_sigops p') P = sum_of (entry_sigops p) P.
Proof.
  split; apply sum_of_ext; intros h _; unfold entry_size, entry_sigops, p'; cbn [mapTx with_mapTx]; specialize (same h);
    destruct (mapTx p !! h) as [e|]; [destruct same as (? & ? & ? & ? & ->)|rewrite same|destruct same as (? & ? & ? & ? & ->)|rewrite same]; done.
Qed.
Lemma refeed_links : links_consistent p'.
Proof.
  destruct (pk_links p p_ok) as [L1 L2 L3 L4]. split; try done.
  - unfold p'. cbn [mapLinks mapTx with_mapTx]. by rewrite refeed_dom.
  - intros h e l He Hl. apply refeed_at in He as (e0 & ? & ? & ? & ? & E & ->). unfold pool_parents. cbn [p' mapTx with_mapTx]. rewrite refeed_dom. exact (L2 h e0 l E Hl).
Qed.
Lemma refeed_books : books_consistent p'.
Proof.
  destruct (pk_books p p_ok) as [B1 B2 B3 B4 B5 B6 B7]. split.
  - intros h e He. apply refeed_at in He as (e0 & ? & ? & ? & ? & E & ->). exact (B1 h e0 E).
  - cbn [p' mapLinks mapTx with_mapTx]. by rewrite refeed_dom.
  - intros o h. cbn [p' mapNextTx with_mapTx mapTx]. rewrite B3. split; intros (e & i & He & I & E).
    + destruct (refeed_to h e He) as (? & ? & ? & ? & E'). eexists _, i. split; [exact E'|]. done.
    + apply refeed_at in He as (e0 & ? & ? & ? & ? & E' & ->). by exists e0, i.
  - cbn [p' totalTxSize mapTx with_mapTx]. rewrite refeed_dom, B4. f_equal. symmetry. apply refeed_size.
  - cbn [p' cachedInnerUsage mapTx with_mapTx]. rewrite refeed_dom, B5. f_equal. apply sum_of_ext. intros h _. unfold entry_usage. cbn [p' mapTx mapLinks with_mapTx].
    specialize (same h). destruct (mapTx p !! h) as [e|]; [destruct same as (? & ? & ? & ? & ->); done|by rewrite same].
  - intros i w h E. destruct (B6 i w h E) as (e & He & X). destruct (refeed_to h e He) as (? & ? & ? & ? & E'). eexists. split; [exact E'|exact X].
  - intros h e He. apply refeed_at in He as (e0 & ? & ? & ? & ? & E & ->). exact (B7 h e0 E).
Qed.
Lemma refeed_small : pool_small p'.
Proof.
  destruct (pk_small p p_ok) as [Z1 Z2 Z3 Z4]. destruct (refeed_size (dom (mapTx p))) as [R1 R2]. split.
  - cbn [p' mapTx with_mapTx]. by rewrite refeed_dom, R1.
  - cbn [p' mapTx with_mapTx]. by rewrite refeed_dom, R2.
  - cbn [p' mapTx with_mapTx]. by rewrite <- size_dom, refeed_dom, size_dom.
  - intros h e He. apply refeed_at in He as (e0 & ? & ? & ? & ? & E & ->). exact (Z4 h e0 E).
Qed.
(** The invariant is left to check for the fees of the ancestors and of the descendants. *)
Lemma refeed_ok : (forall h e, m !! h = Some e ->
    (forall P, with_ancestors p h P -> nModFeesWithAncestors e = i64 (sum_of (entry_fee p') P)) /\
    (forall P, with_descendants p h P -> nModFeesWithDescendants e = i64 (sum_of (entry_fee p') P))) -> pool_ok p'.
Proof.
  intros F. split; [apply refeed_links| |apply refeed_books|apply refeed_small]. intros h e He. destruct (F h e He) as [FA FD].
  apply refeed_at in He as (e0 & ? & ? & ? & ? & E & ->). destruct (pk_stats p p_ok h e0 E) as [SA SD]. split; intros P HP; destruct (refeed_size P) as [R1 R2].
  - destruct (SA P HP) as (A1 & A2 & _ & A4). split; [exact A1|split; [by rewrite R1|split; [exact (FA P HP)|by rewrite R2]]].
  - destruct (SD P HP) as (A1 & A2 & _). split; [exact A1|split; [by rewrite R1|exact (FD P HP)]].
Qed.
End Refeed.

(** *** Lock points *)

Lemma update_locks_ok (p : CTxMemPool) (f : CTxMemPoolEntry -> option LockPoints) : pool_ok p ->
  pool_ok (with_mapTx p ((fun e => match f e with Some lp => UpdateLockPoints lp e | None => e end) <$> mapTx p)).
Proof.
  intros K. set (g := fun e => _). assert (G : forall e, exists lp, g e = with_fees (feeDelta e) lp (nModFeesWithDescendants e) (nModFeesWithAncestors e) e).
  { intros e. unfold g. destruct (f e) as [lp|]; [by exists lp|]. exists (lockPoints e). by destruct e. }
  apply refeed_ok; [done| |].
  - intros h. rewrite lookup_fmap. destruct (mapTx p !! h) as [e|]; [|done]. destruct (G e) as [lp Hg]. cbn. rewrite Hg. by repeat eexists.
  - intros h e He. rewrite lookup_fmap in He. apply fmap_Some in He as (e0 & E0 & ->). destruct (G e0) as [lp Hg]. rewrite Hg. cbn [with_fees nModFeesWithAncestors nModFeesWithDescendants].
    assert (X : forall P, sum_of (entry_fee (with_mapTx p (g <$> mapTx p))) P = sum_of (entry_fee p) P).
    { intros P. apply sum_of_ext. intros z _. unfold entry_fee. cbn [mapTx with_mapTx]. rewrite lookup_fmap. destruct (mapTx p !! z) as [ez|]; [|done].
      destruct (G ez) as [lz Hz]. cbn. by rewrite Hz. }
    destruct (pk_stats p K h e0 E0) as [SA SD]. split; intros P HP; rewrite X; [apply (SA P HP)|apply (SD P HP)].
Qed.

(** *** Prioritisation *)

Section Prioritise.
Variable p : CTxMemPool.
Variable h : uint256.
Variable e : CTxMemPoolEntry.
Variable d : Z.
Variables A D : setEntries.
Hypothesis p_ok : pool_ok p.
Hypothesis at_h : mapTx p !! h = Some e.
Let delta := i64 (feeDelta e + d).
(** The fees after the operation: [A] are the ancestors, and [D] the descendants with the entry. *)
Definition bumped (z : uint256) (ez : CTxMemPoolEntry) : CTxMemPoolEntry :=
  with_fees (if decide (z = h) then delta else feeDelta ez) (lockPoints ez)
    (if decide (z = h \/ z ∈ A) then i64 (nModFeesWithDescendants ez + d) else nModFeesWithDescendants ez)
    (if decide (z ∈ D) then i64 (nModFeesWithAncestors ez + d) else nModFeesWithAncestors ez) ez.
Hypothesis ancestors_A : forall z, z ∈ A <-> tc (parent p) h z.
Hypothesis descendants_D : forall z, z ∈ D <-> rtc (child p) h z.
Variable m : gmap uint256 CTxMemPoolEntry.
Hypothesis m_bumped : forall z, m !! z = bumped z <$> mapTx p !! z.

Lemma bump_fee : i64 (nFee e + delta) mod 2 ^ 64 = (GetModifiedFee e + d) mod 2 ^ 64.
Proof.
  unfold delta, GetModifiedFee. rewrite i64_mod. rewrite (Z.add_mod (nFee e)), i64_mod, <- Z.add_mod by lia.
  rewrite (Z.add_mod (i64 _)), i64_mod, <- Z.add_mod by lia. f_equal. lia.
Qed.
Lemma bump_sum (P : setEntries) : i64 (sum_of (entry_fee (with_mapTx p m)) P) = i64 (sum_of (entry_fee p) P + if decide (h ∈ P) then d else 0).
Proof.
  assert (F : forall z, z <> h -> entry_fee (with_mapTx p m) z = entry_fee p z).
  { intros z N. unfold entry_fee. cbn [mapTx with_mapTx]. rewrite m_bumped. destruct (mapTx p !! z) as [ez|]; [|done]. cbn.
    unfold bumped, GetModifiedFee. cbn [nFee feeDelta with_fees]. by rewrite decide_False. }
  destruct (decide (h ∈ P)) as [I|I]; [|rewrite Z.add_0_r; f_equal; apply sum_of_ext; intros z Z; apply F; by intros ->].
  pose proof (sum_of_remove (entry_fee p) h P I) as R1. pose proof (sum_of_remove (entry_fee (with_mapTx p m)) h P I) as R2.
  rewrite (sum_of_ext (entry_fee (with_mapTx p m)) (entry_fee p) (P ∖ {[h]})) in R2 by (intros z Z; apply F; set_solver).
  assert (Fh : entry_fee (with_mapTx p m) h = i64 (nFee e + delta)).
  { unfold entry_fee. cbn [mapTx with_mapTx]. rewrite m_bumped, at_h. cbn. unfold bumped, GetModifiedFee. cbn [nFee feeDelta with_fees]. by rewrite decide_True. }
  rewrite (entry_fee_at p h e at_h) in R1. rewrite Fh in R2. apply i64_eq_mod. pose proof bump_fee as B.
  replace (sum_of (entry_fee (with_mapTx p m)) P) with (i64 (nFee e + delta) + (sum_of (entry_fee p) P - GetModifiedFee e)) by lia.
  rewrite Z.add_mod, B, <- Z.add_mod by lia. f_equal. lia.
Qed.
Lemma bumped_ok : pool_ok (with_mapTx p m).
Proof.
  pose proof (pk_links p p_ok) as K. apply refeed_ok; [done| |].
  - intros z. rewrite m_bumped. destruct (mapTx p !! z) as [ez|]; [|done]. by repeat eexists.
  - intros z ez Hz. rewrite m_bumped in Hz. apply fmap_Some in Hz as (e0 & E0 & ->). destruct (pk_stats p p_ok z e0 E0) as [SA SD]. split; intros P HP; rewrite bump_sum; cbn.
    + destruct (SA P HP) as (_ & _ & -> & _). assert (X : h ∈ P <-> z ∈ D). { rewrite (HP h), descendants_D. symmetry. by apply rtc_child_parent. }
      destruct (decide (z ∈ D)), (decide (h ∈ P)); try tauto; [by rewrite i64_add_l|by rewrite Z.add_0_r].
    + destruct (SD P HP) as (_ & _ & ->). assert (X : h ∈ P <-> z = h \/ z ∈ A).
      { rewrite (HP h), ancestors_A. split; [intros R; apply rtc_tc in R as [->|R]; [by left|by right]|]. intros [-> |R]; [apply rtc_refl|by apply tc_rtc]. }
      destruct (decide (z = h \/ z ∈ A)), (decide (h ∈ P)); try tauto; [by rewrite i64_add_l|by rewrite Z.add_0_r].
Qed.
End Prioritise.

Lemma UpdateFeeDelta_bump e d : UpdateFeeDelta (i64 (feeDelta e + d)) e =
  with_fees (i64 (feeDelta e + d)) (lockPoints e) (i64 (nModFeesWithDescendants e + d)) (i64 (nModFeesWithAncestors e + d)) e.
Proof.
  assert (G : forall f, i64 (f + i64 (i64 (feeDelta e + d) - feeDelta e)) = i64 (f + d)).
  { intros f. rewrite i64_add_r. apply i64_eq_mod. rewrite Z.add_mod, (Zminus_mod (i64 _)), i64_mod, <- Zminus_mod, <- Z.add_mod by lia. f_equal. lia. }
  unfold UpdateFeeDelta, with_fees. by rewrite !G.
Qed.
Lemma tc_parent_of (p : CTxMemPool) (h : uint256) (l : TxLinks) : mapLinks p !! h = Some l -> forall z, (exists s, s ∈ parents l /\ rtc (parent p) s z) <-> tc (parent p) h z.
Proof.
  intros Hl z. split.
  - intros (s & S & R). apply tc_rtc_r with s; [|done]. apply tc_once. by exists l.
  - intros T. apply tc_first in T as (w & (l' & El & W) & R). exists w. split; [congruence|done].
Qed.
Lemma PrioritiseTransaction_ok (p : CTxMemPool) (h : uint256) (d : Z) : pool_inv p ->
  exists p', PrioritiseTransaction h d p = Ok p' /\ pool_inv p' /\ refeed p (mapTx p') /\ mapDeltas p' = <[h := i64 (default 0 (mapDeltas p !! h) + d)]> (mapDeltas p).
Proof.
  intros [K I]. set (delta := i64 (default 0 (mapDeltas p !! h) + d)). set (p1 := with_deltas p (<[h := delta]> (mapDeltas p))).
  assert (K1 : pool_ok p1) by (by apply pool_ok_rest). unfold PrioritiseTransaction. fold delta. fold p1. unfold exists_. case_bool_decide as Ex.
  2: { exists p1. split; [done|split; [split; [done|]|split; [|done]]].
    - intros z e He. cbn [p1 mapDeltas with_deltas]. rewrite lookup_insert_ne; [by apply I|]. intros ->. apply Ex. by exists e.
    - intros z. cbn [p1 mapTx with_deltas]. destruct (mapTx p !! z) as [e|]; [|done]. exists (feeDelta e), (lockPoints e), (nModFeesWithDescendants e), (nModFeesWithAncestors e). by destruct e. }
  destruct Ex as [e He]. cbn [p1 mapTx with_deltas] in He. pose proof (I h e He) as Ie. pose proof (pk_links p1 K1) as L1.
  assert (Hl : is_Some (mapLinks p1 !! h)) by (apply elem_of_dom; rewrite (lc_dom p1 L1); by apply elem_of_dom_2 in He). destruct Hl as [l Hl].
  unfold modify at 1. change (mapTx p1) with (mapTx p). rewrite He. cbn [res_bind]. set (e1 := UpdateFeeDelta delta e). set (m1 := <[h := e1]> (mapTx p)). set (p2 := with_mapTx p1 m1).
  assert (D2 : dom m1 = dom (mapTx p)) by (unfold m1; rewrite dom_insert_L; apply elem_of_dom_2 in He; set_solver).
  assert (E2 : entry_at p2 h = Ok e1) by (unfold entry_at; cbn [p2 mapTx with_mapTx]; unfold m1; by rewrite lookup_insert_eq). rewrite E2. cbn [res_bind].
  assert (LK : linked p2) by exact (links_linked p1 L1). assert (LD : dom (mapLinks p2) = dom (mapTx p2)) by (cbn [p2 mapTx with_mapTx]; rewrite D2; exact (lc_dom p1 L1)).
  assert (Sz : sum_of (entry_size p2) (dom (mapTx p2)) = sum_of (entry_size p) (dom (mapTx p))).
  { cbn [p2 mapTx with_mapTx]. rewrite D2. apply sum_of_ext. intros z _. unfold entry_size. cbn [p2 mapTx with_mapTx]. unfold m1. destruct (decide (z = h)) as [->|N]; [by rewrite lookup_insert_eq, He|by rewrite lookup_insert_ne]. }
  pose proof (pk_small p K) as [Z1 Z2 Z3 Z4]. destruct (Z4 h e He) as [Z5 Z6].
  destruct (all_ancestors_spec p2 LK LD e1 false (parents l)) as (A & HA & QA & SA).
  { rewrite Sz. change (GetTxSize e1) with (GetTxSize e). pose proof (u64_range (GetVirtualTransactionSize (i64 (nTxWeight e)) (sigOpCost e))).
    pose proof (sum_of_member (entry_size p) h _ (elem_of_dom_2 _ _ _ He) (fun x _ => entry_size_nonneg p x)) as M. rewrite (entry_size_at p h e He) in M. lia. }
  { rewrite <- size_dom. cbn [p2 mapTx with_mapTx]. by rewrite D2, size_dom. }
  { exists l. split; [|done]. change (mapLinks p2) with (mapLinks p1). change (e_tx e1) with (e_tx e). by rewrite (bc_hash p (pk_books p K) h e He). }
  rewrite HA. cbn [res_bind]. cbn [p2 mapTx with_mapTx] in SA. rewrite D2 in SA.
  assert (QA' : forall z, z ∈ A <-> tc (parent p) h z) by (intros z; rewrite (QA z); exact (tc_parent_of p h l Hl z)).
  assert (NA : h ∉ A) by (intros X; apply QA' in X; by apply (lc_acyclic p (pk_links p K) h)).
  destruct (modify_each (fun _ => UpdateDescendantState 0 d 0) (fun _ e => set_desc (nCountWithDescendants e + 0) (nSizeWithDescendants e + 0) (i64 (nModFeesWithDescendants e + d)) e)
    (in_order A) p2 (NoDup_in_order A)) as (m2 & H2 & M2).
  { intros z Z%elem_of_in_order. assert (Zd : z ∈ dom (mapTx p)) by set_solver. apply elem_of_dom in Zd as [ez Ez]. exists ez. cbn [p2 mapTx with_mapTx]. unfold m1.
    rewrite lookup_insert_ne by (by intros ->). split; [done|]. pose proof (stats_bounds p z ez K Ez). apply UpdateDescendantState_exact; lia. }
  rewrite H2. cbn [res_bind]. set (p3 := with_mapTx p2 m2). destruct (CalculateDescendants_spec p3 LK h ∅) as (D & HD & SD & QD).
  { change (mapLinks p3) with (mapLinks p1). rewrite (lc_dom p1 L1). by apply elem_of_dom_2 in He. } { set_solver. } { set_solver. }
  rewrite HD. cbn [res_bind]. change (mapLinks p3) with (mapLinks p1) in SD. rewrite (lc_dom p1 L1) in SD. change (mapTx p1) with (mapTx p) in SD.
  assert (QD' : forall z, z ∈ D <-> rtc (child p) h z) by (intros z; rewrite QD; split; [intros [X|X]; [by apply not_elem_of_empty in X|exact X]|by right]).
  assert (L2 : forall z ez, mapTx p !! z = Some ez -> z <> h -> exists fd, m2 !! z = Some (with_fees (feeDelta ez) (lockPoints ez) fd (nModFeesWithAncestors ez) ez) /\
    fd = if decide (z ∈ A) then i64 (nModFeesWithDescendants ez + d) else nModFeesWithDescendants ez).
  { intros z ez Ez N. rewrite M2. cbn [p2 mapTx with_mapTx]. unfold m1. rewrite lookup_insert_ne, Ez by done. eexists. split; [|reflexivity]. split_order z A.
    - rewrite (decide_True (P := z ∈ A)) by done. cbn. unfold set_desc, with_fees. by rewrite !Z.add_0_r.
    - rewrite (decide_False (P := z ∈ A)) by done. by destruct ez. }
  destruct (modify_each (fun _ => UpdateAncestorState 0 d 0 0) (fun _ e => set_anc (nCountWithAncestors e + 0) (nSizeWithAncestors e + 0) (i64 (nModFeesWithAncestors e + d)) (nSigOpCostWithAncestors e + 0) e)
    (in_order (D ∖ {[h]})) p3 (NoDup_in_order _)) as (m3 & H3 & M3).
  { intros z Z%elem_of_in_order. assert (Zd : z ∈ dom (mapTx p)) by set_solver. apply elem_of_dom in Zd as [ez Ez]. destruct (L2 z ez Ez ltac:(set_solver)) as (fd & Fd & _).
    eexists. split; [exact Fd|]. pose proof (stats_bounds p z ez K Ez). apply UpdateAncestorState_exact; cbn; lia. }
  rewrite H3. cbn [res_bind]. eexists. split; [reflexivity|].
  assert (M : forall z, m3 !! z = bumped h e d A D z <$> mapTx p !! z).
  { intros z. rewrite M3. change (mapTx p3) with m2. destruct (decide (z = h)) as [->|N].
    - split_order h (D ∖ {[h]}); [set_solver|]. rewrite M2. split_order h A; [done|]. cbn [p2 mapTx with_mapTx]. unfold m1. rewrite lookup_insert_eq, He. cbn. f_equal.
      unfold e1, delta, bumped. rewrite <- Ie, UpdateFeeDelta_bump. rewrite !(decide_True (P := h = h)) by done. rewrite (decide_True (P := h = h \/ h ∈ A)) by (by left).
      rewrite (decide_True (P := h ∈ D)) by (apply QD'; apply rtc_refl). done.
    - destruct (mapTx p !! z) as [ez|] eqn:Ez.
      + destruct (L2 z ez Ez N) as (fd & -> & Hfd). cbn [fmap option_fmap option_map]. unfold bumped. rewrite (decide_False (P := z = h)) by done.
        assert (X : (if decide (z = h \/ z ∈ A) then i64 (nModFeesWithDescendants ez + d) else nModFeesWithDescendants ez) = fd).
        { rewrite Hfd. destruct (decide (z ∈ A)); [rewrite decide_True by (by right); done|rewrite decide_False by (by intros [X | X]); done]. }
        rewrite X. split_order z (D ∖ {[h]}).
        * rewrite (decide_True (P := z ∈ D)) by set_solver. cbn. unfold set_anc, with_fees. cbn. by rewrite !Z.add_0_r.
        * rewrite (decide_False (P := z ∈ D)) by set_solver. done.
      + assert (Zn : z ∉ dom (mapTx p)) by (by apply not_elem_of_dom). split_order z (D ∖ {[h]}); [set_solver|]. rewrite M2. split_order z A; [set_solver|].
        cbn [p2 mapTx with_mapTx]. unfold m1. by rewrite lookup_insert_ne. }
  assert (R : refeed p m3) by (intros z; rewrite M; destruct (mapTx p !! z); [by repeat eexists|done]).
  assert (KB : pool_ok (with_mapTx p m3)) by exact (bumped_ok p h e d A D K He QA' QD' m3 M).
  split; [split|split; [exact R|done]].
  - exact (pool_ok_rest (with_mapTx p m3) _ _ _ _ _ KB).
  - intros z ez Hz. cbn [with_updated with_mapTx mapTx mapDeltas p3 p2 p1 with_deltas] in *. rewrite M in Hz. apply fmap_Some in Hz as (e0 & E0 & ->). cbn. destruct (decide (z = h)) as [->|N].
    + rewrite lookup_insert_eq. rewrite Ie. done.
    + rewrite lookup_insert_ne by done. by apply I.
Qed.
End Fees.
