(* ===== verification/MempoolOps.v ===== *)
(** * The operations of the memory pool, together

    Expiry, trimming, reorganisations and sequences of operations; the claims on the
    pool with concrete runs. *)

From stdpp Require Import gmap sorting relations.
From S2P Require Import Prelude ArithUint256 Serialize Compressor Transaction WitnessUtil TxCheck Coins Mempool MempoolGraph MempoolInvariant MempoolAdd MempoolRemove MempoolSpec.

Section Ops.
Context {Env : PoolEnv}.

(** ** Removing a set with its descendants *)

(** What is left when the entries that [bad] names go, with all that spend them. *)
Definition swept (p p' : CTxMemPool) (bad : uint256 -> Prop) : Prop :=
  shrinks p p' /\ forall h, h ∈ dom (mapTx p') <-> h ∈ dom (mapTx p) /\ ~ exists x, bad x /\ rtc (child p) x h.
Lemma sweep_ok (p : CTxMemPool) (S : setEntries) : pool_inv p -> S ⊆ dom (mapTx p) ->
  exists D p', all_descendants p (in_order S) = Ok D /\ RemoveStaged D false p = Ok p' /\ pool_inv p' /\ swept p p' (fun x => x ∈ S).
Proof.
  intros [K I] SS. destruct (remove_descendants p (in_order S) K) as (D & p' & HD & H & R & Q); [intros x X%elem_of_in_order; by apply SS|].
  exists D, p'. split; [done|split; [done|]]. pose proof (removed_deltas p p' D R I) as I'. pose proof (removed_shrinks p p' D R) as Sh. destruct R as (K' & Dm & _).
  split; [done|split; [exact Sh|]]. intros h. rewrite Dm, elem_of_difference, Q. split; intros [X Y]; (split; [done|]); intros (x & Hx & Rx); apply Y; exists x; (split; [|done]).
  - by apply elem_of_in_order.
  - by apply elem_of_in_order in Hx.
Qed.
Lemma elem_of_dom_filter (P : CTxMemPoolEntry -> Prop) `{forall e, Decision (P e)} (m : gmap uint256 CTxMemPoolEntry) (h : uint256) :
  h ∈ dom (filter (fun '(_, e) => P e) m) <-> exists e, m !! h = Some e /\ P e.
Proof.
  rewrite elem_of_dom. split.
  - intros [e He]. apply map_lookup_filter_Some in He as [E X]. by exists e.
  - intros (e & E & X). exists e. by apply map_lookup_filter_Some.
Qed.
Lemma swept_ext (p p' : CTxMemPool) (B B' : uint256 -> Prop) : swept p p' B -> (forall x, B x <-> B' x) -> swept p p' B'.
Proof. intros [S Q] E. split; [done|]. intros h. rewrite Q. setoid_rewrite E. done. Qed.
Lemma Expire_ok (p : CTxMemPool) (time : Z) : pool_inv p ->
  exists p' l, Expire time p = Ok (p', l) /\ pool_inv p' /\ swept p p' (fun x => exists e, mapTx p !! x = Some e /\ nTime e < time).
Proof.
  intros I. unfold Expire. set (S := dom _). destruct (sweep_ok p S I) as (D & p' & -> & H & I' & Sh & Q).
  { intros h Hh. apply (elem_of_dom_filter (fun e => nTime e < time)) in Hh as (e & He & _). by apply elem_of_dom_2 in He. }
  cbn [res_bind]. rewrite H. cbn [res_bind]. exists p', (in_order D). split; [done|split; [done|]].
  apply (swept_ext p p' (fun x => x ∈ S)); [by split|]. intros x. apply (elem_of_dom_filter (fun e => nTime e < time)).
Qed.

(** ** Reorganisations *)

Section Reorg.
Variable locks : CTxMemPoolEntry -> bool * option LockPoints.
Variable position_hash : COutPoint -> option uint256.
Variable AccessCoin : COutPoint -> Coin.
Variables nMemPoolHeight maturity : Z.

Definition stale_entry (p : CTxMemPool) (e : CTxMemPoolEntry) : bool :=
  negb (fst (locks e)) || (GetSpendsCoinbase e && existsb (immature_input p position_hash AccessCoin nMemPoolHeight maturity) (vin (e_tx e))).
Definition relock (e : CTxMemPoolEntry) : CTxMemPoolEntry := match snd (locks e) with Some lp => UpdateLockPoints lp e | None => e end.
Definition stale_set (p : CTxMemPool) : setEntries := dom (filter (fun '(_, e) => stale_entry p e) (mapTx p)).
Lemma removeForReorg_eq (p : CTxMemPool) : removeForReorg locks position_hash AccessCoin nMemPoolHeight maturity p =
  let q := with_mapTx p (relock <$> mapTx p) in let! D := all_descendants q (in_order (stale_set p)) in RemoveStaged D false q.
Proof. reflexivity. Qed.
Lemma elem_of_stale_set (p : CTxMemPool) x : x ∈ stale_set p <-> exists e, mapTx p !! x = Some e /\ stale_entry p e = true.
Proof. unfold stale_set. rewrite (elem_of_dom_filter (fun e => stale_entry p e)). by setoid_rewrite Is_true_true. Qed.
Lemma relock_ok (p : CTxMemPool) : pool_inv p -> let q := with_mapTx p (relock <$> mapTx p) in pool_inv q /\ shrinks p q /\ dom (mapTx q) = dom (mapTx p).
Proof.
  intros [K I]. cbv zeta. assert (G : forall e, same_static (relock e) e) by (intros e; unfold relock; destruct (snd (locks e)); done).
  assert (Sq : shrinks p (with_mapTx p (relock <$> mapTx p))).
  { intros h e He. cbn [mapTx with_mapTx] in He. rewrite lookup_fmap in He. apply fmap_Some in He as (e0 & E0 & ->). exists e0. split; [done|apply G]. }
  split; [split|split; [exact Sq|cbn [mapTx with_mapTx]; by rewrite dom_fmap_L]].
  - exact (update_locks_ok p (fun e => snd (locks e)) K).
  - intros h e He. destruct (Sq h e He) as (e0 & E0 & (_ & _ & _ & _ & _ & ->)). by apply I.
Qed.
Lemma removeForReorg_ok (p : CTxMemPool) : pool_inv p ->
  exists p', removeForReorg locks position_hash AccessCoin nMemPoolHeight maturity p = Ok p' /\ pool_inv p' /\
    swept p p' (fun x => exists e, mapTx p !! x = Some e /\ stale_entry p e = true).
Proof.
  intros I. destruct (relock_ok p I) as (Iq & Sq & Dq). rewrite removeForReorg_eq. cbv zeta. set (q := with_mapTx p (relock <$> mapTx p)) in *. assert (C : child q = child p) by reflexivity. clearbody q.
  assert (SS : stale_set p ⊆ dom (mapTx q)). { intros h Hh. apply elem_of_stale_set in Hh as (e & He & _). rewrite Dq. by apply elem_of_dom_2 in He. }
  destruct (sweep_ok q (stale_set p) Iq SS) as (D & p' & -> & H & I' & Sh & Q). cbn [res_bind]. exists p'. split; [exact H|split; [done|split; [by apply shrinks_trans with q|]]].
  intros h. rewrite Q, Dq, C. setoid_rewrite elem_of_stale_set. done.
Qed.
End Reorg.

(** ** Trimming *)

Lemma fold_pick {A} (f : A -> A -> A) (l : list A) : (forall b y, f b y = b \/ f b y = y) -> forall b, fold_left f l b ∈ b :: l.
Proof.
  intros F. induction l as [|y l IH]; intros b; cbn [fold_left]; [left|]. specialize (IH (f b y)). apply elem_of_cons in IH as [IH|IH]; [|by right; right].
  rewrite IH. destruct (F b y) as [-> | ->]; [left|right; left].
Qed.
Lemma first_by_in (lt : CTxMemPoolEntry -> CTxMemPoolEntry -> bool) (m : gmap uint256 CTxMemPoolEntry) : match first_by lt m with Some h => is_Some (m !! h) | None => m = ∅ end.
Proof.
  unfold first_by. pose proof (map_to_list_empty_iff m) as Em. pose proof (fun h e => elem_of_map_to_list m h e) as El.
  destruct (map_to_list m) as [|x l]; [by apply Em|]. set (f := fun b y => _).
  pose proof (fold_pick f l (fun b y => match lt (snd y) (snd b) as t return (if t then y else b) = b \/ (if t then y else b) = y with true => or_intror eq_refl | false => or_introl eq_refl end) x) as P.
  destruct (fold_left f l x) as [h e]. exists e. by apply El.
Qed.
Lemma lowest_score_in (p : CTxMemPool) : match lowest_score p with Some h => h ∈ dom (mapTx p) | None => mapTx p = ∅ end.
Proof. pose proof (first_by_in CompareTxMemPoolEntryByDescendantScore (mapTx p)) as F. unfold lowest_score. destruct (first_by _ _); [by apply elem_of_dom|exact F]. Qed.
Section Trim.
Variable DynamicMemoryUsage : CTxMemPool -> Z.
Variable incrementalRelayFee : Z.

Lemma pool_inv_rolling (p : CTxMemPool) t b r : pool_inv p -> pool_inv (with_rolling p t b r).
Proof. intros [K I]. split; [by apply pool_ok_rest|exact I]. Qed.
Lemma trackPackageRemoved_ok (p : CTxMemPool) rate : pool_inv p -> exists p', trackPackageRemoved rate p = Ok p' /\ pool_inv p' /\ mapTx p' = mapTx p /\ mapLinks p' = mapLinks p /\ mapNextTx p' = mapNextTx p.
Proof.
  intros I. unfold trackPackageRemoved, GetFeePerK, GetFee. rewrite (proj2 (Z.leb_le _ _)) by (unfold INT64_MAX; lia). cbn [res_bind].
  eexists. split; [reflexivity|]. destruct (_ >? _); [split; [by apply pool_inv_rolling|done]|done].
Qed.
(** The pool spends none of the reported outputs and has none of their transactions. *)
Definition unspent_report (p : CTxMemPool) (l : list COutPoint) : Prop :=
  forall o, o ∈ l -> mapNextTx p !! outpoint_key o = None /\ (isHash o = true -> op_hash o ∉ dom (mapTx p)).
Lemma no_spends_remaining_ok (p : CTxMemPool) txn : unspent_report p (no_spends_remaining p txn).
Proof.
  intros o O. apply list_elem_of_In, in_flat_map in O as (tx & _ & O). apply list_elem_of_In, list_elem_of_omap in O as (i & _ & O). cbv zeta in O.
  destruct (isHash (prevout i) && exists_ p (op_hash (prevout i))) eqn:E; cbn [negb] in O; [done|]. destruct (isSpent p (prevout i)) eqn:F; [done|]. injection O as <-.
  apply bool_decide_eq_false in F. split; [by apply eq_None_not_Some|]. intros H. rewrite H in E. cbn in E. apply bool_decide_eq_false in E. by rewrite elem_of_dom.
Qed.
Lemma unspent_report_shrinks (p q : CTxMemPool) l : pool_ok p -> pool_ok q -> shrinks p q -> unspent_report p l -> unspent_report q l.
Proof.
  intros K Kq S U o O. destruct (U o O) as [A B]. split; [|intros H X; by apply (B H), (shrinks_dom p q S)].
  destruct (mapNextTx q !! outpoint_key o) as [h|] eqn:E; [|done]. apply (shrinks_next p q _ h K Kq S) in E. congruence.
Qed.
Lemma trim_once_ok (p : CTxMemPool) (it : uint256) : pool_inv p -> it ∈ dom (mapTx p) ->
  exists p' l, trim_once incrementalRelayFee it p = Ok (p', l) /\ pool_inv p' /\ shrinks p p' /\ it ∉ dom (mapTx p') /\ unspent_report p' l.
Proof.
  intros I It. pose proof It as X. apply elem_of_dom in X as [e He]. unfold trim_once. unfold entry_at at 1. rewrite He. cbn [res_bind]. unfold CFeeRate_of.
  pose proof (stats_bounds p it e (proj1 I) He) as B. pose proof (sm_size p (pk_small p (proj1 I))). rewrite (proj2 (Z.leb_le _ _)) by (unfold INT64_MAX; lia). cbn [res_bind].
  destruct (trackPackageRemoved_ok p (i64 ((if 0 <? nSizeWithDescendants e then Z.quot (i64 (nModFeesWithDescendants e * 1000)) (nSizeWithDescendants e) else 0) + incrementalRelayFee)) I) as (p1 & -> & I1 & T1 & L1 & N1).
  cbn [res_bind]. pose proof (proj1 I1) as K1. destruct (CalculateDescendants_spec p1 (links_linked p1 (pk_links p1 K1)) it ∅) as (D & -> & SD & QD); [by rewrite (lc_dom p1 (pk_links p1 K1)), T1|set_solver|set_solver|].
  cbn [res_bind]. rewrite (lc_dom p1 (pk_links p1 K1)) in SD.
  assert (Tx : forall l acc, (forall h, h ∈ l -> h ∈ dom (mapTx p1)) -> exists txn, for_each l (fun (l : list CTransaction) h => let! e := entry_at p1 h in Ok (l ++ [e_tx e])) acc = Ok txn).
  { clear. induction l as [|h l IH]; intros acc L; cbn [for_each]; [by eexists|]. pose proof (L h ltac:(left)) as X. apply elem_of_dom in X as [e He]. unfold entry_at at 1. rewrite He. cbn [res_bind].
    apply IH. intros z Z. apply L. by right. }
  destruct (Tx (in_order D) []) as (txn & Htx); [intros h Hh%elem_of_in_order; by apply SD|]. rewrite Htx. cbn [res_bind].
  assert (Q : forall z, z ∈ D <-> exists x, x ∈ [it] /\ rtc (child p1) x z).
  { intros z. rewrite QD. split; [intros [Z|Z]; [by apply not_elem_of_empty in Z|exists it; split; [left|done]]|]. intros (x & ->%list_elem_of_singleton & Z). by right. }
  destruct (RemoveStaged_closed p1 K1 D SD (closed_under_child p1 D [it] Q)) as (p' & H' & R). rewrite H'. cbn [res_bind]. exists p', (no_spends_remaining p' txn). split; [done|].
  assert (R' : removed p1 p' D) by exact R. split; [split; [apply R|exact (removed_deltas p1 p' D R' (proj2 I1))]|]. split; [|split; [|apply no_spends_remaining_ok]].
  - intros h eh Hh. destruct (removed_shrinks p1 p' D R' h eh Hh) as (e0 & E0 & St). exists e0. by rewrite <- T1.
  - destruct R as (_ & -> & _). intros [_ N]%elem_of_difference. apply N, Q. exists it. split; [left|apply rtc_refl].
Qed.
Lemma trim_loop_ok limit fuel : forall (p : CTxMemPool) acc, pool_inv p -> (size (mapTx p) <= fuel)%nat -> unspent_report p acc ->
  exists p' l, trim_loop DynamicMemoryUsage incrementalRelayFee fuel limit p acc = Ok (p', l) /\ pool_inv p' /\ shrinks p p' /\
    (DynamicMemoryUsage p' <= limit \/ mapTx p' = ∅) /\ unspent_report p' l.
Proof.
  induction fuel as [|fuel IH]; intros p acc I F U; cbn [trim_loop]; pose proof (lowest_score_in p) as L; destruct (lowest_score p) as [it|].
  - exfalso. rewrite <- size_dom in F. assert (E : size (dom (mapTx p)) = 0%nat) by lia. apply size_empty_inv in E. by apply (E it) in L.
  - exists p, acc. split; [done|split; [done|split; [apply shrinks_refl|split; [by right|done]]]].
  - destruct (DynamicMemoryUsage p >? limit) eqn:C.
    + destruct (trim_once_ok p it I L) as (p1 & l1 & -> & I1 & S1 & N1 & U1). cbn [res_bind fst snd].
      destruct (IH p1 (acc ++ l1) I1) as (p2 & l & H & I2 & S2 & D2 & U2).
      * assert (Sub : dom (mapTx p1) ⊂ dom (mapTx p)) by (split; [by apply shrinks_dom|intros X; by apply N1, X]).
        apply subset_size in Sub. rewrite !size_dom in Sub. lia.
      * intros o [O|O]%elem_of_app; [by apply (unspent_report_shrinks p p1 acc (proj1 I) (proj1 I1) S1 U)|by apply U1].
      * exists p2, l. split; [exact H|]. split; [done|split; [by apply shrinks_trans with p1|done]].
    + exists p, acc. split; [done|split; [done|split; [apply shrinks_refl|split; [left; lia|done]]]].
  - exists p, acc. split; [done|split; [done|split; [apply shrinks_refl|split; [by right|done]]]].
Qed.
Lemma TrimToSize_ok (p : CTxMemPool) limit : pool_inv p ->
  exists p' l, TrimToSize DynamicMemoryUsage incrementalRelayFee limit p = Ok (p', l) /\ pool_inv p' /\ shrinks p p' /\
    (DynamicMemoryUsage p' <= limit \/ mapTx p' = ∅) /\ unspent_report p' l.
Proof. intros I. unfold TrimToSize. apply trim_loop_ok; [done|lia|]. intros o O. by apply not_elem_of_nil in O. Qed.
End Trim.
End Ops.
