(* ===== verification/MempoolCheck.v ===== *)
(** * The pool's own consistency check

    A pool that satisfies the invariant passes the assertions of [CTxMemPool::check] on
    links, statistics and totals, and [queryHashes] lists parents before children. *)

From stdpp Require Import gmap sorting relations.
From S2P Require Import Prelude ArithUint256 Serialize Compressor Transaction WitnessUtil TxCheck Coins Mempool MempoolGraph MempoolInvariant MempoolAdd MempoolRemove MempoolSpec MempoolOps.

Section Order.
Context {Env : PoolEnv}.

(** ** The order of the listings *)

Lemma parent_count (p : CTxMemPool) (x y : uint256) ex ey : pool_ok p -> parent p x y -> mapTx p !! x = Some ex -> mapTx p !! y = Some ey ->
  nCountWithAncestors ey < nCountWithAncestors ex.
Proof.
  intros K R Ex Ey. pose proof (pk_links p K) as L. destruct (parent_dom p x y L R) as [Dx Dy].
  destruct (with_ancestors_exists p x L Dx) as (X & HX & _). destruct (with_ancestors_exists p y L Dy) as (Y & HY & _).
  destruct (pk_stats p K x ex Ex) as [SX _]. destruct (pk_stats p K y ey Ey) as [SY _]. destruct (SX X HX) as [-> _]. destruct (SY Y HY) as [-> _].
  apply Nat2Z.inj_lt, subset_size. split.
  - intros z Z. apply HX. apply HY in Z. by apply rtc_l with y.
  - intros S. assert (Xx : x ∈ Y) by (apply S, HX, rtc_refl). apply HY in Xx. apply (lc_acyclic p L x). by apply tc_rtc_r with y; [apply tc_once|].
Qed.
Lemma double_product_comm a b : double_of (a * b) = double_of (b * a).
Proof. by rewrite Z.mul_comm. Qed.
Lemma blob_Compare_total a b : 0 <= blob_Compare a b \/ 0 <= blob_Compare b a.
Proof. revert b. induction a as [|x a IH]; intros [|y b]; cbn [blob_Compare]; try lia. specialize (IH b). destruct (x <? y) eqn:E, (y <? x) eqn:F, (x >? y) eqn:G, (y >? x) eqn:H; lia. Qed.
#[local] Instance depth_before_total : Total depth_before.
Proof.
  intros [x a] [y b]. unfold depth_before, DepthAndScoreComparator, CompareTxMemPoolEntryByScore. cbn [snd].
  rewrite (Z.eqb_sym (nCountWithAncestors a)). destruct (Z.eqb_spec (nCountWithAncestors b) (nCountWithAncestors a)) as [E|E]; [|destruct (Z.ltb_spec (nCountWithAncestors b) (nCountWithAncestors a)); [right|left]; lia].
  set (f := double_of (double_of (GetModifiedFee b) * _)). set (g := double_of (double_of (GetModifiedFee a) * _)).
  rewrite (Z.eqb_sym g). destruct (Z.eqb_spec f g) as [->|N].
  - destruct (blob_Compare_total (GetHash (e_tx a)) (GetHash (e_tx b))); [left|right]; lia.
  - destruct (Z.gtb_spec f g); [right|left]; lia.
Qed.
Lemma depth_before_count a b : depth_before a b -> nCountWithAncestors (snd a) <= nCountWithAncestors (snd b).
Proof.
  unfold depth_before, DepthAndScoreComparator. destruct (Z.eqb_spec (nCountWithAncestors (snd b)) (nCountWithAncestors (snd a))) as [->|N]; [lia|]. lia.
Qed.
Lemma Sorted_weaken {A} (R S : relation A) l : (forall a b, R a b -> S a b) -> Sorted R l -> Sorted S l.
Proof. intros H. induction 1 as [|x l _ IH Hd]; constructor; [done|]. destruct Hd; constructor. by apply H. Qed.
Lemma sorted_counts (p : CTxMemPool) : StronglySorted (fun a b => nCountWithAncestors (snd a) <= nCountWithAncestors (snd b)) (GetSortedDepthAndScore p).
Proof.
  apply Sorted_StronglySorted; [intros a b c; lia|]. apply (Sorted_weaken depth_before); [exact depth_before_count|]. apply Sorted_merge_sort. apply _.
Qed.
Lemma sorted_at (p : CTxMemPool) i h e : GetSortedDepthAndScore p !! i = Some (h, e) -> mapTx p !! h = Some e.
Proof.
  intros E. apply list_elem_of_lookup_2 in E. unfold GetSortedDepthAndScore in E. rewrite merge_sort_Permutation in E. by apply elem_of_map_to_list in E.
Qed.
Lemma queryHashes_at (p : CTxMemPool) : pool_ok p -> queryHashes p = (GetSortedDepthAndScore p).*1.
Proof.
  intros K. unfold queryHashes. apply list_eq. intros i. change (map ?f ?l) with (f <$> l). rewrite !list_lookup_fmap.
  destruct (GetSortedDepthAndScore p !! i) as [[h e]|] eqn:E; [|done]. cbn. f_equal. apply (bc_hash p (pk_books p K)). by apply (sorted_at p i).
Qed.
Lemma queryHashes_Permutation (p : CTxMemPool) : pool_ok p -> queryHashes p ≡ₚ elements (dom (mapTx p)).
Proof.
  intros K. rewrite (queryHashes_at p K). unfold GetSortedDepthAndScore. rewrite merge_sort_Permutation. symmetry.
  apply NoDup_Permutation; [apply NoDup_elements|apply NoDup_fst_map_to_list|]. intros h. rewrite elem_of_elements, elem_of_dom, list_elem_of_fmap. split.
  - intros [e He]. exists (h, e). split; [done|]. by apply elem_of_map_to_list.
  - intros ([h' e] & -> & He). exists e. by apply elem_of_map_to_list.
Qed.
Lemma queryHashes_order (p : CTxMemPool) i j x y : pool_ok p -> queryHashes p !! i = Some x -> queryHashes p !! j = Some y -> parent p x y -> (j < i)%nat.
Proof.
  intros K X Y R. rewrite (queryHashes_at p K), list_lookup_fmap in X, Y. apply fmap_Some in X as ([x' ex] & X & ->). apply fmap_Some in Y as ([y' ey] & Y & ->). cbn in R.
  pose proof (parent_count p x' y' ex ey K R (sorted_at p i x' ex X) (sorted_at p j y' ey Y)) as C.
  destruct (Nat.lt_trichotomy i j) as [L|[->|L]]; [exfalso|exfalso|done].
  - pose proof (sorted_counts p) as S. rewrite <- (take_drop (Datatypes.S i) (GetSortedDepthAndScore p)) in S.
    apply (StronglySorted_app_1_elem_of _ _ _ (x', ex) (y', ey)) in S; [cbn in S; lia| |].
    + apply list_elem_of_lookup. exists i. by rewrite lookup_take_lt by lia.
    + apply list_elem_of_lookup. exists (j - Datatypes.S i)%nat. rewrite lookup_drop. by replace (Datatypes.S i + (j - Datatypes.S i))%nat with j by lia.
  - assert (E : (x', ex) = (y', ey)) by congruence. injection E as -> ->. lia.
Qed.
End Order.

(** ** The assertions *)

Section Check.
Context {Env : PoolEnv}.
Variable position_hash : COutPoint -> option uint256.
Variable HaveCoin : COutPoint -> bool.
Variable IsNull : CTxOut -> bool.

(** Every input spends an output of an entry, by hash, or an available coin. *)
Definition inputs_available (p : CTxMemPool) : Prop :=
  forall h e i, mapTx p !! h = Some e -> i ∈ vin (e_tx e) ->
    match txHash ← GetTxHash position_hash (prevout i); mapTx p !! txHash with
    | Some e2 => isHash (prevout i) = true /\ exists out, vout (e_tx e2) !! Z.to_nat (op_n (prevout i)) = Some out /\ IsNull out = false
    | None => HaveCoin (prevout i) = true
    end.
Lemma spender_key (p : CTxMemPool) : pool_ok p -> forall h z, z ∈ spenders_of p h <-> exists e, mapTx p !! z = Some e /\ h ∈ input_hashes (vin (e_tx e)).
Proof.
  intros K h z. unfold spenders_of. rewrite elem_of_list_to_set, list_elem_of_omap. split.
  - intros ([o c] & O & E). apply elem_of_map_to_list in O. destruct (isHash o) eqn:Ho; [|done]. cbn in E. case_bool_decide as Eh; [|done]. injection E as ->.
    apply (bc_next p (pk_books p K)) in O as (e & i & He & I & Eo). exists e. split; [done|]. apply elem_of_input_hashes. exists i. split; [done|].
    unfold outpoint_key in Eo. destruct (isHash (prevout i)) eqn:Hi; [by subst o|]. subst o. done.
  - intros (e & He & I). apply elem_of_input_hashes in I as (i & I & Hi & Eh). exists (prevout i, z). split.
    + apply elem_of_map_to_list. apply (bc_next p (pk_books p K)). exists e, i. split; [done|split; [done|]]. unfold outpoint_key. by rewrite Hi.
    + rewrite Hi. cbn. by rewrite bool_decide_true.
Qed.
Lemma spenders_are_children (p : CTxMemPool) h l : pool_ok p -> mapLinks p !! h = Some l -> spenders_of p h = children l.
Proof.
  intros K Hl. pose proof (pk_links p K) as L. assert (Hd : h ∈ dom (mapTx p)) by (rewrite <- (lc_dom p L); by apply elem_of_dom_2 in Hl).
  apply set_eq. intros z. rewrite (spender_key p K h z). transitivity (parent p z h).
  - split.
    + intros (e & He & I). assert (Lz : is_Some (mapLinks p !! z)) by (apply elem_of_dom; rewrite (lc_dom p L); by apply elem_of_dom_2 in He). destruct Lz as [lz Hz].
      exists lz. split; [done|]. rewrite (lc_parents p L z e lz He Hz). unfold pool_parents. by apply elem_of_intersection.
    + intros (lz & Hz & I). assert (Ez : is_Some (mapTx p !! z)) by (apply elem_of_dom; rewrite <- (lc_dom p L); by apply elem_of_dom_2 in Hz). destruct Ez as [e He].
      exists e. split; [done|]. rewrite (lc_parents p L z e lz He Hz) in I. unfold pool_parents in I. by apply elem_of_intersection in I as [I _].
  - rewrite <- (lc_children p L h z). split; [intros (l' & E & I); congruence|by exists l].
Qed.
Lemma check_inputs_ok (p : CTxMemPool) h e : pool_ok p -> inputs_available p -> mapTx p !! h = Some e -> forall ins acc, (forall i, i ∈ ins -> i ∈ vin (e_tx e)) ->
  check_inputs position_hash HaveCoin IsNull p h ins acc = Some (acc ∪ pool_parents p ins).
Proof.
  intros K Av He. assert (Un : forall i ins, pool_parents p (i :: ins) = (if isHash (prevout i) && exists_ p (op_hash (prevout i)) then {[op_hash (prevout i)]} else ∅) ∪ pool_parents p ins).
  { intros i ins. apply set_eq. intros z. unfold pool_parents. rewrite elem_of_union, !elem_of_intersection, !elem_of_input_hashes. unfold exists_.
    destruct (isHash (prevout i)) eqn:Hi; cbn [andb]; [case_bool_decide as D|].
    - rewrite elem_of_singleton. split.
      + intros [(j & [->|J]%elem_of_cons & Hj & Ej) Z]; [by left|right]. split; [by exists j|done].
      + intros [->|[(j & J & X) Z]]; [split; [exists i; split; [left|done]|by apply elem_of_dom]|]. split; [exists j; split; [by right|done]|done].
    - split; [intros [(j & [->|J]%elem_of_cons & Hj & Ej) Z]; [destruct D; subst z; by apply elem_of_dom|right; split; [by exists j|done]]|].
      intros [X|[(j & J & X) Z]]; [by apply not_elem_of_empty in X|]. split; [exists j; split; [by right|done]|done].
    - split; [intros [(j & [->|J]%elem_of_cons & Hj & Ej) Z]; [congruence|right; split; [by exists j|done]]|].
      intros [X|[(j & J & X) Z]]; [by apply not_elem_of_empty in X|]. split; [exists j; split; [by right|done]|done]. }
  induction ins as [|i ins IH]; intros acc Sub; cbn [check_inputs].
  - f_equal. apply set_eq. intros z. unfold pool_parents. rewrite elem_of_union, elem_of_intersection, elem_of_input_hashes. split; [by left|]. intros [X|[(j & J & _) _]]; [done|by apply not_elem_of_nil in J].
  - pose proof (Av h e i He (Sub i ltac:(left))) as A. rewrite Un. unfold exists_.
    assert (Nx : mapNextTx p !! outpoint_key (prevout i) = Some h) by (apply (bc_next p (pk_books p K)); exists e, i; split; [done|split; [apply Sub; left|done]]).
    unfold GetTxHash in *. destruct (isHash (prevout i)) eqn:Hi; cbn [mbind option_bind andb] in *.
    + destruct (mapTx p !! op_hash (prevout i)) as [e2|] eqn:E2; cbn [mbind option_bind].
      * destruct A as (_ & out & -> & ->). cbn [negb mbind option_bind]. rewrite bool_decide_true by done. rewrite IH by (intros j J; apply Sub; by right).
        rewrite (bool_decide_true (is_Some _)) by (by exists e2). f_equal. set_solver.
      * rewrite A. cbn [mbind option_bind]. rewrite bool_decide_true by done. rewrite IH by (intros j J; apply Sub; by right). rewrite bool_decide_false by (intros [x X]; congruence). f_equal. set_solver.
    + destruct (position_hash (prevout i)) as [h2|]; cbn [mbind option_bind] in *; [destruct (mapTx p !! h2) as [e2|]; [by destruct A|]|]; cbn [mbind option_bind]; rewrite A; cbn [mbind option_bind];
        rewrite bool_decide_true by done; rewrite IH by (intros j J; apply Sub; by right); f_equal; set_solver.
Qed.

Lemma check_sums (p : CTxMemPool) l : (forall h, h ∈ l -> h ∈ dom (mapTx p)) -> forall a b c, u64 a = a -> i64 b = b -> i64 c = c ->
  for_each l (fun s h => let! ea := entry_at p h in
    Ok (mkSums (u64 (s_size s + GetTxSize ea)) (i64 (s_fee s + GetModifiedFee ea)) (i64 (s_sigops s + sigOpCost ea)))) (mkSums a b c) =
  Ok (mkSums (u64 (a + sum_list (entry_size p) l)) (i64 (b + sum_list (entry_fee p) l)) (i64 (c + sum_list (entry_sigops p) l))).
Proof.
  induction l as [|h l IH]; intros D a b c Ha Hb Hc; cbn [for_each sum_list foldr]; [by rewrite !Z.add_0_r, Ha, Hb, Hc|].
  pose proof (D h ltac:(left)) as X. apply elem_of_dom in X as [e He]. unfold entry_at at 1. rewrite He. cbn [res_bind s_size s_fee s_sigops].
  assert (Uu : forall x, u64 (u64 x) = u64 x) by (intros x; apply u64_small, u64_range).
  rewrite IH by (rewrite ?i64_idemp, ?Uu; done || (intros y Y; apply D; by right)). unfold sum_list. rewrite u64_add_l, !i64_add_l.
  by rewrite (entry_size_at p h e He), (entry_fee_at p h e He), (entry_sigops_at p h e He), !Z.add_assoc.
Qed.
Lemma fold_sizes (p : CTxMemPool) l : fold_right (fun c acc => match mapTx p !! c with Some ec => GetTxSize ec + acc | None => acc end) 0 l = sum_list (entry_size p) l.
Proof. induction l as [|c l IH]; [done|]. change (sum_list (entry_size p) (c :: l)) with (entry_size p c + sum_list (entry_size p) l). rewrite <- IH. cbn. unfold entry_size. by destruct (mapTx p !! c). Qed.
(** The children with the entry are among the descendants. *)
Lemma children_size (p : CTxMemPool) h e l : pool_ok p -> mapTx p !! h = Some e -> mapLinks p !! h = Some l ->
  sum_of (entry_size p) (children l) + GetTxSize e <= nSizeWithDescendants e.
Proof.
  intros K He Hl. pose proof (pk_links p K) as L. destruct (with_descendants_exists p h L ltac:(by apply elem_of_dom_2 in He)) as (P & HP & _).
  destruct (proj2 (pk_stats p K h e He) P HP) as (_ & -> & _). rewrite <- (entry_size_at p h e He).
  assert (Nh : h ∉ children l). { intros X. apply (lc_acyclic p L h), tc_once, (lc_children p L). by exists l. }
  rewrite Z.add_comm, <- sum_of_insert by done. apply sum_of_subset; [|intros; apply entry_size_nonneg]. intros z [->%elem_of_singleton|Z]%elem_of_union; apply HP; [apply rtc_refl|].
  apply rtc_once, (lc_children p L). by exists l.
Qed.
Lemma check_entry_ok (p : CTxMemPool) h e : pool_ok p -> inputs_available p -> mapTx p !! h = Some e -> check_entry position_hash HaveCoin IsNull p h e = true.
Proof.
  intros K Av He. pose proof (pk_links p K) as L. pose proof (elem_of_dom_2 _ _ _ He) as Hd. assert (Hl : is_Some (mapLinks p !! h)) by (apply elem_of_dom; by rewrite (lc_dom p L)). destruct Hl as [l Hl].
  unfold check_entry. rewrite Hl, (check_inputs_ok p h e K Av He) by done. rewrite union_empty_l_L, <- (lc_parents p L h e l He Hl), bool_decide_true by done. cbn [andb].
  pose proof (pk_small p K) as [Z1 Z2 Z3 Z4]. destruct (Z4 h e He) as [Z5 Z6].
  pose proof (sum_of_member (entry_size p) h _ Hd (fun x _ => entry_size_nonneg p x)) as M. rewrite (entry_size_at p h e He) in M.
  destruct (all_ancestors_spec p (links_linked p L) (lc_dom p L) e true (pool_parents p (vin (e_tx e)))) as (A & -> & QA & SA); [lia|lia|done|].
  rewrite <- (lc_parents p L h e l He Hl) in QA. assert (QA' : forall z, z ∈ A <-> tc (parent p) h z) by (intros z; rewrite (QA z); exact (tc_parent_of p h l Hl z)).
  assert (Nh : h ∉ A) by (intros X; apply QA' in X; by apply (lc_acyclic p L h)).
  assert (WA : with_ancestors p h ({[h]} ∪ A)).
  { intros z. rewrite elem_of_union, elem_of_singleton, QA'. split; [intros [->|T]; [apply rtc_refl|by apply tc_rtc]|]. intros R. apply rtc_tc in R as [->|R]; [by left|by right]. }
  destruct (proj1 (pk_stats p K h e He) _ WA) as (C1 & C2 & C3 & C4). destruct (set_bounds p ({[h]} ∪ A) h (pk_small p K)) as (B1 & _ & B3); [set_solver|set_solver|].
  rewrite size_union, size_singleton in C1 by set_solver. rewrite sum_of_insert in C2, C3, C4, B1, B3 by done.
  rewrite (entry_size_at p h e He) in C2, B1. rewrite (entry_fee_at p h e He) in C3. rewrite (entry_sigops_at p h e He) in C4, B3.
  pose proof (sum_of_nonneg (entry_sigops p) A (fun x _ => entry_sigops_nonneg p (pk_small p K) x)).
  rewrite check_sums; [|intros z Z%elem_of_in_order; by apply SA|apply u64_small, u64_range|unfold GetModifiedFee; apply i64_idemp|apply i64_small; lia].
  rewrite !sum_of_in_order. cbn [s_size s_fee s_sigops]. rewrite (u64_small (GetTxSize e + _)), (i64_small (sigOpCost e + _)) by lia.
  rewrite C1, C2, C3, C4. rewrite !(proj2 (Z.eqb_eq _ _)) by lia. cbn [andb]. rewrite (bc_hash p (pk_books p K) h e He), (spenders_are_children p h l K Hl).
  rewrite !bool_decide_true; [|done|].
  - cbn [andb]. rewrite fold_sizes, sum_of_in_order. pose proof (children_size p h e l K He Hl) as S. pose proof (sum_of_nonneg (entry_size p) (children l) (fun x _ => entry_size_nonneg p x)).
    pose proof (stats_bounds p h e K He). rewrite u64_small by lia. lia.
  - intros z Z. assert (Pz : parent p z h) by (apply (lc_children p L); by exists l). apply elem_of_dom, (parent_dom p z h L Pz).
Qed.
Lemma fold_total (f : uint256 -> CTxMemPoolEntry -> Z) (m : gmap uint256 CTxMemPoolEntry) :
  map_fold (fun h e acc => u64 (acc + f h e)) 0 m = u64 (sum_of (fun h => match m !! h with Some e => f h e | None => 0 end) (dom m)).
Proof.
  apply (map_fold_weak_ind (fun r m => r = u64 (sum_of (fun h => match m !! h with Some e => f h e | None => 0 end) (dom m)))); [done|].
  intros h e m' r N ->. rewrite dom_insert_L, sum_of_insert by (by apply not_elem_of_dom). rewrite lookup_insert_eq, u64_add_l. f_equal. rewrite Z.add_comm. f_equal.
  apply sum_of_ext. intros z Z. rewrite lookup_insert_ne; [done|]. intros <-. by apply not_elem_of_dom in N.
Qed.
Lemma check_totals_ok (p : CTxMemPool) : pool_ok p -> check_totals p = true.
Proof.
  intros K. unfold check_totals. rewrite (fold_total (fun _ e => GetTxSize e)). 
  rewrite (fold_total (fun h e => nUsageSize e + match mapLinks p !! h with Some l => set_node * Z.of_nat (size (parents l)) + set_node * Z.of_nat (size (children l)) | None => 0 end)).
  assert (U : u64 (sum_of (fun h => match mapTx p !! h with Some e => nUsageSize e + match mapLinks p !! h with Some l => set_node * Z.of_nat (size (parents l)) + set_node * Z.of_nat (size (children l)) | None => 0 end | None => 0 end) (dom (mapTx p))) = cachedInnerUsage p).
  { rewrite (bc_usage p (pk_books p K)). f_equal. apply sum_of_ext. intros h Hd. apply elem_of_dom in Hd as [e He]. unfold entry_usage. by rewrite He. }
  rewrite U, Z.eqb_refl, andb_true_r. apply andb_true_iff. split.
  - apply bool_decide_eq_true. intros o h E. apply (bc_next p (pk_books p K)) in E as (e & ? & He & _). by exists e.
  - apply Z.eqb_eq. exact (bc_size p (pk_books p K)).
Qed.
Lemma check_pool_ok (p : CTxMemPool) : pool_ok p -> inputs_available p -> check_pool position_hash HaveCoin IsNull p = true.
Proof.
  intros K Av. unfold check_pool. apply andb_true_iff. split; [|by apply check_totals_ok]. apply bool_decide_eq_true. intros h e He. by apply check_entry_ok.
Qed.
End Check.
