(* ===== verification/MempoolClaims.v ===== *)
(** * The claims on the memory pool

    Sequences of operations from a new pool keep it consistent, and the behaviour of the
    single operations, with concrete runs. *)

From stdpp Require Import gmap sorting relations.
From S2P Require Import Prelude ArithUint256 Serialize Compressor Transaction WitnessUtil TxCheck Coins Mempool MempoolGraph MempoolInvariant MempoolAdd MempoolRemove MempoolSpec MempoolOps MempoolCheck.

(** ** Sequences of operations *)

Inductive pool_op :=
| OpAdd (position_hash : COutPoint -> option uint256) (entry : CTxMemPoolEntry)
| OpPrioritise (h : uint256) (delta : Z)
| OpRemove (tx : CTransaction)
| OpBlock (vtx : list CTransaction) (now : Z)
| OpReorg (locks : CTxMemPoolEntry -> bool * option LockPoints) (position_hash : COutPoint -> option uint256) (AccessCoin : COutPoint -> Coin) (height maturity : Z)
| OpExpire (time : Z)
| OpTrim (usage : CTxMemPool -> Z) (relay limit : Z).

#[export] Instance CTxIn_eq_dec : EqDecision CTxIn.
Proof. solve_decision. Defined.
#[export] Instance witness_details_eq_dec : EqDecision CTxOutPoW2Witness.
Proof. solve_decision. Defined.
#[export] Instance txout_output_eq_dec : EqDecision txout_output.
Proof. solve_decision. Defined.
#[export] Instance CTxOut_eq_dec : EqDecision CTxOut.
Proof. solve_decision. Defined.
#[export] Instance CTransaction_eq_dec : EqDecision CTransaction.
Proof. solve_decision. Defined.

Section Runs.
Context {Env : PoolEnv}.

Definition run_op (p : CTxMemPool) (op : pool_op) : res pool_error CTxMemPool :=
  match op with
  | OpAdd ph e => addUnchecked_search ph (GetHash (e_tx e)) e p
  | OpPrioritise h d => PrioritiseTransaction h d p
  | OpRemove tx => removeRecursive tx p
  | OpBlock vtx now => removeForBlock vtx now p
  | OpReorg locks ph ac height maturity => removeForReorg locks ph ac height maturity p
  | OpExpire time => let! r := Expire time p in Ok (fst r)
  | OpTrim usage relay limit => let! r := TrimToSize usage relay limit p in Ok (fst r)
  end.
(** What the callers check before they add, and the order of a block. *)
Definition op_ready (p : CTxMemPool) (op : pool_op) : Prop :=
  match op with OpAdd ph e => addable ph e p | OpBlock vtx _ => block_ready p vtx | _ => True end.
Fixpoint run_ready (p : CTxMemPool) (ops : list pool_op) : Prop :=
  match ops with
  | [] => True
  | op :: ops => op_ready p op /\ forall p', run_op p op = Ok p' -> run_ready p' ops
  end.

Lemma new_pool_inv now : pool_inv (CTxMemPool_new now).
Proof.
  assert (N : forall (h : uint256) (e : CTxMemPoolEntry), mapTx (CTxMemPool_new now) !! h = Some e -> False) by (intros h e; cbn; by rewrite lookup_empty).
  assert (Nl : forall (h : uint256) (l : TxLinks), mapLinks (CTxMemPool_new now) !! h = Some l -> False) by (intros h l; cbn; by rewrite lookup_empty).
  split; [split|intros h e H; by apply N in H].
  - split; [done|intros h e l H; by apply N in H|intros x y; split; intros (l & H & _); by apply Nl in H|].
    intros h T. apply tc_first in T as (w & (l & H & _) & _). by apply Nl in H.
  - intros h e H. by apply N in H.
  - split; [intros h e H; by apply N in H|done|intros o h; cbn; rewrite lookup_empty; split; [done|intros (e & i & H & _); by apply N in H]|done|done|intros i w h H; done|intros h e H; by apply N in H].
  - split; [done|done|done|intros h e H; by apply N in H].
Qed.
Lemma addable_inv (p : CTxMemPool) ph e : pool_inv p -> addable ph e p ->
  exists p', addUnchecked_search ph (GetHash (e_tx e)) e p = Ok p' /\ pool_inv p' /\ dom (mapTx p') = {[GetHash (e_tx e)]} ∪ dom (mapTx p).
Proof.
  intros [K I] Ad. destruct (addUnchecked_search_ok p ph e K Ad) as (p' & e' & H & K' & Dl & _ & _ & Dm & Dk). exists p'. split; [done|split; [split; [done|]|done]].
  intros h eh Hh. rewrite Dl. destruct (Dk h eh Hh) as [[-> ->]|(e1 & E1 & ->)]; [done|by apply I].
Qed.
Lemma run_op_ok (p : CTxMemPool) op : pool_inv p -> op_ready p op -> exists p', run_op p op = Ok p' /\ pool_inv p'.
Proof.
  intros I R. destruct op as [ph e|h d|tx|vtx now|locks ph ac height maturity|time|usage relay limit]; cbn [run_op].
  - destruct (addable_inv p ph e I R) as (p' & H & I' & _). by exists p'.
  - destruct (PrioritiseTransaction_ok p h d I) as (p' & H & I' & _). by exists p'.
  - destruct (removeRecursive_ok p tx (proj1 I)) as (D & p' & H & Rm & _). exists p'. split; [done|]. split; [apply Rm|exact (removed_deltas p p' D Rm (proj2 I))].
  - destruct (removeForBlock_ok p vtx now I R) as (p' & H & I' & _). by exists p'.
  - destruct (removeForReorg_ok locks ph ac height maturity p I) as (p' & H & I' & _). by exists p'.
  - destruct (Expire_ok p time I) as (p' & l & -> & I' & _). by exists p'.
  - destruct (TrimToSize_ok usage relay p limit I) as (p' & l & -> & I' & _). by exists p'.
Qed.

(** ** Readiness is decidable *)

Definition addable_b (ph : COutPoint -> option uint256) (e : CTxMemPoolEntry) (p : CTxMemPool) : bool :=
  bool_decide (feeDelta e = 0 /\ i64 (nFee e) = nFee e /\
    nCountWithDescendants e = 1 /\ nSizeWithDescendants e = GetTxSize e /\ nModFeesWithDescendants e = nFee e /\
    nCountWithAncestors e = 1 /\ nSizeWithAncestors e = GetTxSize e /\ nModFeesWithAncestors e = nFee e /\ nSigOpCostWithAncestors e = sigOpCost e) &&
  bool_decide (GetHash (e_tx e) ∉ dom (mapTx p)) &&
  bool_decide (map_Forall (fun _ e' => GetHash (e_tx e) ∉ input_hashes (vin (e_tx e'))) (mapTx p)) &&
  bool_decide (GetHash (e_tx e) ∉ input_hashes (vin (e_tx e))) &&
  bool_decide (Forall (fun i => mapNextTx p !! outpoint_key (prevout i) = None) (vin (e_tx e))) &&
  forallb (fun i => isHash (prevout i) || match ph (prevout i) with Some h => bool_decide (h ∉ dom (mapTx p) /\ h <> GetHash (e_tx e)) | None => true end) (vin (e_tx e)) &&
  bool_decide (0 < GetTxSize e /\ 0 <= sigOpCost e /\ GetTxSize e + sum_of (entry_size p) (dom (mapTx p)) < 2 ^ 63 /\
    sigOpCost e + sum_of (entry_sigops p) (dom (mapTx p)) < 2 ^ 31 /\ Z.of_nat (size (mapTx p)) + 1 < 2 ^ 63).
Lemma addable_b_ok ph e (p : CTxMemPool) : addable_b ph e p = true -> addable ph e p.
Proof.
  unfold addable_b. rewrite !andb_true_iff, !bool_decide_eq_true. intros [[[[[[F N] C] O] X] P] S]. split; try done.
  - by rewrite Forall_forall in X.
  - intros i h I Hi E. rewrite forallb_forall in P. specialize (P i (proj1 (list_elem_of_In _ i) I)). rewrite Hi, E in P. by apply bool_decide_eq_true in P.
Qed.
Fixpoint block_ready_b (p : CTxMemPool) (pre vtx : list CTransaction) : bool :=
  match vtx with
  | [] => true
  | tx :: vtx =>
      match mapTx p !! GetHash tx with
      | Some e => bool_decide (e_tx e = tx) && bool_decide (set_Forall (fun h => h ∈ dom (mapTx p) -> Exists (fun t => GetHash t = h) pre) (input_hashes (vin tx)))
      | None => true
      end && block_ready_b p (pre ++ [tx]) vtx
  end.
Lemma block_ready_b_ok (p : CTxMemPool) vtx : block_ready_b p [] vtx = true -> block_ready p vtx.
Proof.
  assert (G : forall vtx pre, block_ready_b p pre vtx = true -> forall mid tx post, vtx = mid ++ tx :: post -> forall e, mapTx p !! GetHash tx = Some e ->
    e_tx e = tx /\ forall h, h ∈ input_hashes (vin tx) -> h ∈ dom (mapTx p) -> exists t, t ∈ pre ++ mid /\ GetHash t = h).
  { clear vtx. induction vtx as [|x vtx IH]; intros pre H mid tx post E e He; [by destruct mid|]. cbn [block_ready_b] in H. apply andb_true_iff in H as [H1 H2].
    destruct mid as [|y mid]; injection E as -> E.
    - rewrite He in H1. apply andb_true_iff in H1 as [H1%bool_decide_eq_true H3%bool_decide_eq_true]. split; [done|]. intros h I D. rewrite app_nil_r.
      specialize (H3 h I D). apply Exists_exists in H3 as (t & T & Ht). by exists t.
    - destruct (IH (pre ++ [y]) H2 mid tx post E e He) as [A B]. split; [done|]. intros h I D. destruct (B h I D) as (t & T & Ht). exists t. by rewrite <- app_assoc in T. }
  intros H pre tx post E e He. exact (G vtx [] H pre tx post E e He).
Qed.
Fixpoint run_ready_b (p : CTxMemPool) (ops : list pool_op) : bool :=
  match ops with
  | [] => true
  | op :: ops =>
      match op with OpAdd ph e => addable_b ph e p | OpBlock vtx _ => block_ready_b p [] vtx | _ => true end &&
      match run_op p op with Ok p' => run_ready_b p' ops | Err _ => true end
  end.
Lemma run_ready_b_ok ops : forall p, run_ready_b p ops = true -> run_ready p ops.
Proof.
  induction ops as [|op ops IH]; intros p H; [done|]. cbn [run_ready_b] in H. apply andb_true_iff in H as [H1 H2]. cbn [run_ready]. split.
  - destruct op; cbn [op_ready]; try done; [by apply addable_b_ok|by apply block_ready_b_ok].
  - intros p' E. rewrite E in H2. by apply IH.
Qed.
End Runs.

(** ** Claims *)

(** A node of the tests: a transaction has its lock time for its hash. *)
Definition demo_env : PoolEnv := {|
  GetHash tx := [nLockTime tx]; GetWitnessHash tx := [nLockTime tx; 1]; RecursiveDynamicUsage tx := 100; set_node := 40; nBytesPerSigOp := 20
|}.
Definition demo_in (h n : Z) : CTxIn := mkTxIn 0 [] (COutPoint_ofHash [h] n) SEQUENCE_FINAL [].
Definition demo_tx (id : Z) (ins : list CTxIn) (outs : nat) : CTransaction := mkTx 1 ins (repeat (mkTxOut 5 5 (ScriptLegacyOutput [])) outs) id 0 0.
Definition demo_entry (tx : CTransaction) (fee time : Z) : CTxMemPoolEntry := @CTxMemPoolEntry_new demo_env tx fee time 7 0 4 (mkLockPoints 0 0 None).
Definition no_position (o : COutPoint) : option uint256 := None.
Definition tx_a : CTransaction := demo_tx 10 [demo_in 1 0] 2.
Definition tx_b : CTransaction := demo_tx 20 [demo_in 10 0; demo_in 2 0] 1.
Definition tx_c : CTransaction := demo_tx 30 [demo_in 20 0; demo_in 10 1] 1.
Definition tx_d : CTransaction := demo_tx 40 [demo_in 2 0] 1.
Definition demo_adds : list pool_op :=
  [OpAdd no_position (demo_entry tx_a 1000 50); OpAdd no_position (demo_entry tx_b 500 60); OpAdd no_position (demo_entry tx_c 2000 70)].
Definition pool_of (ops : list pool_op) : CTxMemPool := match @for_each CTxMemPool pool_op ops (@run_op demo_env) (CTxMemPool_new 0) with Ok p => p | Err _ => CTxMemPool_new 0 end.
Definition demo_pool : CTxMemPool := Eval vm_compute in pool_of demo_adds.
Definition tx_p : CTransaction := demo_tx 50 [mkTxIn 0 [] (COutPoint_ofPosition 5 3 0) SEQUENCE_FINAL []] 1.
(** The transaction [1] of which [tx_a] spends an output is the fourth one of block 5. *)
Definition demo_position (o : COutPoint) : option uint256 := if bool_decide (o = COutPoint_ofPosition 5 3 (op_n o)) then Some [1] else None.

Lemma Ok_inj {A} (a b : A) : Ok (E := pool_error) a = Ok b -> a = b.
Proof. by injection 1. Qed.
Lemma run_ops_inv {Env : PoolEnv} ops : forall p : CTxMemPool, pool_inv p -> run_ready p ops -> forall p', for_each ops run_op p = Ok p' -> pool_inv p'.
Proof.
  induction ops as [|op ops IH]; intros p I R p' H; cbn [for_each] in H; [by injection H as <-|]. destruct R as [R1 R2].
  destruct (run_op_ok p op I R1) as (p1 & E & I1). rewrite E in H. exact (IH p1 I1 (R2 p1 E) p' H).
Qed.
Lemma demo_pool_inv : @pool_inv demo_env demo_pool.
Proof.
  apply (@run_ops_inv demo_env demo_adds (CTxMemPool_new 0)); [apply new_pool_inv|apply run_ready_b_ok; vm_compute; reflexivity|vm_compute; reflexivity].
Qed.
(** The limits, by the statistics of a consistent pool. *)
Lemma within_limits_stats {Env : PoolEnv} (p : CTxMemPool) (entry : CTxMemPoolEntry) (limC limS limDC limDS : Z) (A : setEntries) : pool_ok p ->
  GetTxSize entry + sum_of (entry_size p) (dom (mapTx p)) < 2 ^ 63 -> A ⊆ dom (mapTx p) ->
  within_limits p entry limC limS limDC limDS A <-> A = ∅ \/
      (Z.of_nat (size A) + 1 <= limC /\ GetTxSize entry + sum_of (entry_size p) A <= limS /\
       forall a D, a ∈ A -> with_descendants p a D -> Z.of_nat (size D) + 1 <= limDC /\ sum_of (entry_size p) D + GetTxSize entry <= limDS).
Proof.
  intros K B SA. unfold within_limits. assert (E : forall a e, a ∈ A -> mapTx p !! a = Some e ->
    u64 (nSizeWithDescendants e + GetTxSize entry) = nSizeWithDescendants e + GetTxSize entry /\ u64 (nCountWithDescendants e + 1) = nCountWithDescendants e + 1).
  { intros a e Ia He. pose proof (stats_bounds p a e K He) as X. pose proof (sm_count p (pk_small p K)).
    pose proof (u64_range (GetVirtualTransactionSize (i64 (nTxWeight entry)) (sigOpCost entry))). change (u64 (GetVirtualTransactionSize (i64 (nTxWeight entry)) (sigOpCost entry))) with (GetTxSize entry) in *.
    split; apply u64_small; lia. }
  split; (intros [->|(X & Y & Z)]; [by left|right; split; [done|split; [done|]]]).
  - intros a D Ia HD. pose proof (SA a Ia) as Hd. apply elem_of_dom in Hd as [e He]. destruct (Z a Ia e He) as [Z1 Z2]. destruct (E a e Ia He) as [E1 E2]. rewrite E1 in Z1. rewrite E2 in Z2.
    destruct (proj2 (pk_stats p K a e He) D HD) as (C1 & C2 & _). lia.
  - intros a Ia e He. destruct (E a e Ia He) as [-> ->]. destruct (with_descendants_exists p a (pk_links p K) (SA a Ia)) as (D & HD & _).
    destruct (Z a D Ia HD) as [Z1 Z2]. destruct (proj2 (pk_stats p K a e He) D HD) as (C1 & C2 & _). lia.
Qed.

(** C11: from a consistent pool, every sequence of operations succeeds, without a failed assertion,
    an invalid iterator or an endless loop, and leaves a consistent pool: the links are the spends
    between the entries and have no cycle, the index of the spent outputs is that of the inputs, the
    statistics of each entry are those of its ancestors and of its descendants, the totals, the memory
    and the list of the witness hashes agree with the entries, and the recorded fee changes are in
    force. What is added is new, without conflicts or children, as its callers check; a block
    has a transaction after those that it spends. *)
Theorem mempool_operations_consistent {Env : PoolEnv} (p : CTxMemPool) (ops : list pool_op) : pool_inv p -> run_ready p ops ->
  exists p', for_each ops run_op p = Ok p' /\ pool_inv p'.
Proof.
  revert p. induction ops as [|op ops IH]; intros p I R; cbn [for_each]; [by exists p|]. destruct R as [R1 R2].
  destruct (run_op_ok p op I R1) as (p1 & E & I1). rewrite E. cbn [res_bind]. apply IH; [done|by apply R2].
Qed.
Lemma mempool_operations_consistent_witness :
  exists p', @for_each CTxMemPool pool_op (demo_adds ++ [OpPrioritise [20] 300; OpBlock [tx_a] 9; OpExpire 55; OpTrim (fun p => Z.of_nat (size (mapTx p))) 1 1]) (@run_op demo_env) (CTxMemPool_new 0) = Ok p' /\ @pool_inv demo_env p'.
Proof. apply mempool_operations_consistent; [apply new_pool_inv|apply run_ready_b_ok; vm_compute; reflexivity]. Defined.

(** C12: [CalculateMemPoolAncestors] finds exactly the entries that a new transaction descends from, and
    fails exactly when its limits are exceeded: the number and the size of the ancestors with the
    transaction, and the number and the size of the descendants of every ancestor with the transaction;
    a transaction without parents in the pool has no limits. *)
Theorem ancestor_limits_exact {Env : PoolEnv} (p : CTxMemPool) (entry : CTxMemPoolEntry) (limC limS limDC limDS : Z) : pool_inv p ->
  GetTxSize entry + sum_of (entry_size p) (dom (mapTx p)) < 2 ^ 63 ->
  exists A, (forall z, z ∈ A <-> exists s, s ∈ pool_parents p (vin (e_tx entry)) /\ rtc (parent p) s z) /\
    let within := A = ∅ \/
      (Z.of_nat (size A) + 1 <= limC /\ GetTxSize entry + sum_of (entry_size p) A <= limS /\
       forall a D, a ∈ A -> with_descendants p a D -> Z.of_nat (size D) + 1 <= limDC /\ sum_of (entry_size p) D + GetTxSize entry <= limDS) in
    (within /\ CalculateMemPoolAncestors p entry limC limS limDC limDS true = Ok (inr A)) \/
    (~ within /\ exists e, CalculateMemPoolAncestors p entry limC limS limDC limDS true = Ok (inl e)).
Proof.
  intros [K _] B. pose proof (pk_links p K) as L.
  assert (B' : GetTxSize entry + sum_of (entry_size p) (dom (mapTx p)) < 2 ^ 64) by lia.
  destruct (CalculateMemPoolAncestors_spec p (links_linked p L) (lc_dom p L) entry limC limS limDC limDS B') as (A & Q & SA & R).
  exists A. split; [exact Q|]. cbv zeta in *. pose proof (within_limits_stats p entry limC limS limDC limDS A K B SA) as W.
  destruct R as [[H X]|(e & H & X)]; [left|right]; (split; [by rewrite <- W|]); [done|by exists e].
Qed.
Lemma ancestor_limits_exact_witness :
  @CalculateMemPoolAncestors demo_env demo_pool (demo_entry (demo_tx 60 [demo_in 30 0] 1) 1 1) 4 320 4 320 true = Ok (inr {[ [10]; [20]; [30] ]}) /\
  @CalculateMemPoolAncestors demo_env demo_pool (demo_entry (demo_tx 60 [demo_in 30 0] 1) 1 1) 3 320 4 320 true = Ok (inl too_many_ancestors) /\
  exists A : setEntries, forall z, z ∈ A <-> exists s, s ∈ pool_parents demo_pool [demo_in 30 0] /\ rtc (parent demo_pool) s z.
Proof.
  split; [vm_compute; reflexivity|split; [vm_compute; reflexivity|]].
  destruct (@ancestor_limits_exact demo_env demo_pool (demo_entry (demo_tx 60 [demo_in 30 0] 1) 1 1) 4 320 4 320) as (A & Q & _); [|vm_compute; reflexivity|by exists A].
  exact demo_pool_inv.
Defined.

(** [removeRecursive] removes a transaction with everything in the pool that spends it, directly
    or not, and nothing else; of a transaction that is not in the pool, the spenders of its outputs;
    the pool stays consistent. *)
Theorem removal_takes_descendants {Env : PoolEnv} (p : CTxMemPool) (tx : CTransaction) : pool_inv p ->
  exists p', removeRecursive tx p = Ok p' /\ pool_inv p' /\ shrinks p p' /\
    forall z, z ∈ dom (mapTx p') <-> z ∈ dom (mapTx p) /\ ~ exists x, removal_roots p tx x /\ rtc (child p) x z.
Proof.
  intros [K I]. destruct (removeRecursive_ok p tx K) as (D & p' & H & R & Q). exists p'. split; [done|split; [split; [apply R|exact (removed_deltas p p' D R I)]|split; [exact (removed_shrinks p p' D R)|]]].
  intros z. rewrite (proj1 (proj2 R)), elem_of_difference, Q. done.
Qed.
Lemma removal_takes_descendants_witness : exists p', @removeRecursive demo_env tx_b demo_pool = Ok p' /\ mapTx p' !! [10] <> None /\ mapTx p' !! [30] = None.
Proof.
  destruct (@removal_takes_descendants demo_env demo_pool tx_b demo_pool_inv) as (p' & H & _ & _ & _). exists p'. split; [exact H|].
  assert (E : @removeRecursive demo_env tx_b demo_pool = Ok (pool_of (demo_adds ++ [OpRemove tx_b]))) by (vm_compute; reflexivity).
  rewrite E in H. rewrite <- (Ok_inj _ _ H). split; vm_compute; [discriminate|reflexivity].
Defined.

(** C15: after a block, the pool has none of its transactions and no spend of an output that they spend,
    where both refer to the output in the same way; what else leaves the pool descends from such a
    spend, and the pool stays consistent. *)
Theorem block_settles_pool {Env : PoolEnv} (p : CTxMemPool) (vtx : list CTransaction) (now : Z) : pool_inv p -> block_ready p vtx ->
  exists p', removeForBlock vtx now p = Ok p' /\ pool_inv p' /\ shrinks p p' /\
    (forall tx, tx ∈ vtx -> GetHash tx ∉ dom (mapTx p') /\
      forall h e i j, mapTx p' !! h = Some e -> i ∈ vin (e_tx e) -> j ∈ vin tx -> outpoint_key (prevout i) <> outpoint_key (prevout j)) /\
    forall z, z ∈ dom (mapTx p) -> z ∉ dom (mapTx p') -> exists tx, tx ∈ vtx /\ (z = GetHash tx \/ conflicting p tx (vin tx) z).
Proof.
  intros I R. destruct (removeForBlock_ok p vtx now I R) as (p' & H & I' & S & D & C). exists p'. split; [done|split; [done|split; [done|split]]].
  - intros tx T. destruct (D tx T) as [A B]. split; [done|]. intros h e i j He Ii Ij E. specialize (B j Ij).
    assert (X : mapNextTx p' !! outpoint_key (prevout j) = Some h); [|congruence]. apply (bc_next p' (pk_books p' (proj1 I'))). by exists e, i.
  - intros z Z N. by destruct (C z Z).
Qed.
Lemma block_settles_pool_witness : exists p', @removeForBlock demo_env [tx_a; tx_d] 9 demo_pool = Ok p' /\ mapTx p' = ∅.
Proof.
  destruct (@block_settles_pool demo_env demo_pool [tx_a; tx_d] 9 demo_pool_inv) as (p' & H & _); [apply block_ready_b_ok; vm_compute; reflexivity|]. exists p'. split; [exact H|].
  assert (E : @removeForBlock demo_env [tx_a; tx_d] 9 demo_pool = Ok (pool_of (demo_adds ++ [OpBlock [tx_a; tx_d] 9]))) by (vm_compute; reflexivity).
  rewrite E in H. rewrite <- (Ok_inj _ _ H). vm_compute. reflexivity.
Defined.

(** a spend by position of the output that a block spends by hash stays in the pool, with all its
    descendants: the index of the spent outputs tells the two apart. *)
Theorem block_keeps_conflict_by_position :
  GetTxHash demo_position (COutPoint_ofPosition 5 3 0) = GetTxHash demo_position (COutPoint_ofHash [1] 0) /\
  exists p p', @for_each CTxMemPool pool_op [OpAdd demo_position (demo_entry tx_p 1000 50)] (@run_op demo_env) (CTxMemPool_new 0) = Ok p /\
    @removeForBlock demo_env [tx_a] 9 p = Ok p' /\ mapTx p' !! [50] <> None.
Proof.
  split; [vm_compute; reflexivity|]. eexists _, _. split; [vm_compute; reflexivity|]. split; [vm_compute; reflexivity|]. vm_compute. discriminate.
Qed.

(** [TrimToSize] ends: it removes whole packages until the memory is within the limit or the pool is
    empty, leaves a consistent pool, and reports only outputs that the pool neither spends nor makes. *)
Theorem trim_reaches_limit {Env : PoolEnv} (usage : CTxMemPool -> Z) (relay limit : Z) (p : CTxMemPool) : pool_inv p ->
  exists p' l, TrimToSize usage relay limit p = Ok (p', l) /\ pool_inv p' /\ shrinks p p' /\ (usage p' <= limit \/ mapTx p' = ∅) /\
    forall o, o ∈ l -> (forall h e i, mapTx p' !! h = Some e -> i ∈ vin (e_tx e) -> outpoint_key (prevout i) <> outpoint_key o) /\ (isHash o = true -> op_hash o ∉ dom (mapTx p')).
Proof.
  intros I. destruct (TrimToSize_ok usage relay p limit I) as (p' & l & H & I' & S & D & U). exists p', l. split; [done|split; [done|split; [done|split; [done|]]]].
  intros o O. destruct (U o O) as [A B]. split; [|done]. intros h e i He Ii E.
  assert (X : mapNextTx p' !! outpoint_key o = Some h); [|congruence]. apply (bc_next p' (pk_books p' (proj1 I'))). by exists e, i.
Qed.
Lemma trim_reaches_limit_witness : exists p' l, @TrimToSize demo_env (fun p => Z.of_nat (size (mapTx p))) 1 2 demo_pool = Ok (p', l) /\ Z.of_nat (size (mapTx p')) <= 2.
Proof.
  destruct (@trim_reaches_limit demo_env (fun p => Z.of_nat (size (mapTx p))) 1 2 demo_pool demo_pool_inv) as (p' & l & H & _ & _ & [D | D] & _); exists p', l; (split; [exact H|]); [exact D|].
  rewrite D. vm_compute. discriminate.
Defined.

Definition inputs_available_b (position_hash : COutPoint -> option uint256) (HaveCoin : COutPoint -> bool) (IsNull : CTxOut -> bool) (p : CTxMemPool) : bool :=
  bool_decide (map_Forall (fun _ e => forallb (fun i =>
    match txHash ← GetTxHash position_hash (prevout i); mapTx p !! txHash with
    | Some e2 => isHash (prevout i) && match vout (e_tx e2) !! Z.to_nat (op_n (prevout i)) with Some out => negb (IsNull out) | None => false end
    | None => HaveCoin (prevout i)
    end) (vin (e_tx e)) = true) (mapTx p)).
Lemma inputs_available_b_ok ph HaveCoin IsNull (p : CTxMemPool) : inputs_available_b ph HaveCoin IsNull p = true -> inputs_available ph HaveCoin IsNull p.
Proof.
  intros H%bool_decide_eq_true h e i He I. specialize (H h e He). rewrite forallb_forall in H. specialize (H i (proj1 (list_elem_of_In _ i) I)).
  destruct (GetTxHash ph (prevout i)) as [t|]; cbn [mbind option_bind] in *; [|done]. destruct (mapTx p !! t) as [e2|]; [|done].
  apply andb_true_iff in H as [H1 H2]. split; [done|]. destruct (vout (e_tx e2) !! _) as [out|]; [|done]. exists out. split; [done|]. by apply negb_true_iff.
Qed.
(** a consistent pool whose inputs are available passes the assertions that [check] makes on the
    inputs, the links, the statistics, the index of the spent outputs and the totals. *)
Theorem consistent_pool_passes_check {Env : PoolEnv} (position_hash : COutPoint -> option uint256) (HaveCoin : COutPoint -> bool) (IsNull : CTxOut -> bool) (p : CTxMemPool) :
  pool_inv p -> inputs_available position_hash HaveCoin IsNull p -> check_pool position_hash HaveCoin IsNull p = true.
Proof. intros [K _] A. by apply check_pool_ok. Qed.
Definition demo_coins (o : COutPoint) : bool := isHash o && bool_decide (op_hash o = [1] \/ op_hash o = [2]).
Lemma consistent_pool_passes_check_witness : @check_pool demo_env no_position demo_coins (fun o => nValue o =? -1) demo_pool = true.
Proof. apply consistent_pool_passes_check; [exact demo_pool_inv|apply inputs_available_b_ok; vm_compute; reflexivity]. Defined.

(** [queryHashes] lists every entry of a consistent pool once, and every transaction after
    all those in the pool that it spends, whatever the fees. *)
Theorem listing_is_topological {Env : PoolEnv} (p : CTxMemPool) : pool_inv p ->
  queryHashes p ≡ₚ elements (dom (mapTx p)) /\
  forall i j x y, queryHashes p !! i = Some x -> queryHashes p !! j = Some y -> parent p x y -> (j < i)%nat.
Proof. intros [K _]. split; [by apply queryHashes_Permutation|]. intros i j x y. by apply queryHashes_order. Qed.
Lemma listing_is_topological_witness : @queryHashes demo_env demo_pool = [ [10]; [20]; [30] ] /\ @queryHashes demo_env demo_pool ≡ₚ elements (dom (mapTx demo_pool)).
Proof. split; [vm_compute; reflexivity|]. exact (proj1 (@listing_is_topological demo_env demo_pool demo_pool_inv)). Defined.

(** After [clear] the list of the witness hashes still has its entries. *)
Example clear_leaves_witness_hashes : vTxHashes (clear_ 0 demo_pool) = vTxHashes demo_pool /\ mapTx (clear_ 0 demo_pool) = ∅ /\ length (vTxHashes demo_pool) = 3%nat.
Proof. split; [reflexivity|split; vm_compute; reflexivity]. Qed.
