(* ===== verification/MempoolAccept.v ===== *)
(** * MempoolAccept: acceptance to the memory pool, in [src/src/validation/validation_mempool.cpp]

    [AcceptToMemoryPoolWorker]: the checks of a loose transaction, its locks, fees,
    ancestors and replacements, its scripts, and the entry in the pool. It joins [TxCheck],
    [Policy], [WitnessBundles], [CheckInputs] and [Mempool]. *)

From stdpp Require Import gmap sorting relations.
From S2P Require Import Prelude ArithUint256 Serialize Compressor Transaction Script ConsensusParams WitnessUtil Chain TxCheck Block BlockCheck WitnessBundles Interpreter SigCheck StandardScripts Standard Policy CheckInputs Coins Mempool MempoolGraph MempoolInvariant MempoolAdd MempoolRemove MempoolSpec MempoolOps MempoolClaims.

(** ** Definitions *)

Definition LOCKTIME_MEDIAN_TIME_PAST : Z := 2.
Definition STANDARD_LOCKTIME_VERIFY_FLAGS : Z := Z.lor LOCKTIME_VERIFY_SEQUENCE LOCKTIME_MEDIAN_TIME_PAST.
Definition MAX_STANDARD_TX_SIGOPS_COST : Z := MAX_BLOCK_SIGOPS_COST / 5.
Definition maxDescendantsToVisit : Z := 100.

(** [accept_failure]: an assertion, a null pointer, or a sum out of range. *)
Inductive accept_reject :=
| not_valid (r : reject) | loose_coinbase | non_segsig_after_active | segsig_before_active | not_standard (r : nonstandard) | not_final | already_in_mempool
| mempool_conflict | already_known | missing_inputs | not_sequence_final | nonstandard_sigdata | nonstandard_inputs | too_many_tx_sigops
| mempool_min_fee | min_relay_fee | absurdly_high_fee | too_long_mempool_chain | spends_conflicting_tx
| insufficient_fee | too_many_replacements | replacement_adds_unconfirmed | wrong_bundles (r : reject) | wrong_inputs (r : inputs_reject) | mempool_full
| accept_failure.

Definition of_option {A} (o : option A) : res accept_reject A := match o with Some a => Ok a | None => Err accept_failure end.
Definition of_pool {A} (r : res pool_error A) : res accept_reject A := match r with Ok a => Ok a | Err _ => Err accept_failure end.
Definition of_check (r : res reject unit) : res accept_reject unit := match r with Ok _ => Ok tt | Err e => Err (not_valid e) end.
Definition in_range (z : Z) : res accept_reject Z := if (- 2 ^ 63 <=? z) && (z <? 2 ^ 63) then Ok z else Err accept_failure.

(** The settings of a node; fee rates are per 1000 bytes. *)
Record settings := mkSettings {
  fRequireStandard : bool;
  fAcceptDatacarrier : bool;
  fIsBareMultisigStd : bool;
  nMaxDatacarrierBytes : Z;
  dustRelayFee : Z;
  fEnableReplacement : bool;
  minRelayTxFee : Z;
  incrementalRelayFee : Z;
  limit_ancestors : Z * Z;
  limit_descendants : Z * Z;
  scriptVerifyFlags : Z;
  maxmempool : Z;
  mempoolexpiry : Z
}.

Section Accept.
Context {Env : PoolEnv} `{SH : ScriptHashes} `{EC : Secp256k1}.
Variable p : ChainParams.
Variable cfg : settings.
(** The block index with the versions of its blocks, and the tip of the active chain. *)
Variable H : heap.
Variable versions : ptr -> Z * Z.
Variable tip : ptr.
(** The unspent coins at the tip, and the hash of the transaction at a position. *)
Variable tip_coin : COutPoint -> option Coin.
Variable position_hash : COutPoint -> option uint256.
(** What the variable of the output type holds before it is set, see [Policy]. *)
Variable unset : txnouttype.
(** The clock. *)
Variable now : Z.
(** [GetMinFee], which lets the minimum fee decay with [pow] and notes it in the pool, and the memory that the pool uses. *)
Variable GetMinFee : Z -> CTxMemPool -> CTxMemPool * Z.
Variable DynamicMemoryUsage : CTxMemPool -> Z.

(** *** The coins of the pool and of the tip *)

Definition pool_coin (pool : CTxMemPool) (o : COutPoint) : option Coin :=
  match (if isHash o then mapTx pool !! op_hash o else None) with
  | Some e => (fun out => Coin_new out MEMPOOL_HEIGHT MEMPOOL_INDEX false (negb (IsOldTransactionVersion (nVersion (e_tx e))))) <$> vout (e_tx e) !! Z.to_nat (op_n o)
  | None => tip_coin o
  end.

(** *** Locks *)

(** The chain is given by its tip; negative flags count as none. *)
Definition CheckFinalTx (tx : CTransaction) (chain_tip : ptr) (flags : Z) : bool :=
  let flags := Z.max flags 0 in
  IsFinalTx tx (height_of H chain_tip + 1) (if negb (Z.land flags LOCKTIME_MEDIAN_TIME_PAST =? 0) then GetMedianTimePast H (fIsTestnet p) chain_tip else now).

(** The next block, as [CheckSequenceLocks] makes it up on the stack. *)
Definition next_index : ptr := fresh (dom H).
Definition next_heap : heap := <[next_index := mkIndex (height_of H tip + 1) (Some tip) None 0 0 0 0 (of_u64 0)]> H.
Definition lock_heights (pool : CTxMemPool) (ins : list CTxIn) : option (list Z) :=
  mapM (fun i => (fun c => if coin_nHeight c =? MEMPOOL_HEIGHT then height_of H tip + 1 else coin_nHeight c) <$> pool_coin pool (prevout i)) ins.
(** The verdict and the lock points, which are those given when [existing] has some; [None] is a null pointer. *)
Definition CheckSequenceLocks (pool : CTxMemPool) (tx : CTransaction) (flags : Z) (existing : option LockPoints) : option (bool * option LockPoints) :=
  match existing with
  | Some lp => b ← EvaluateSequenceLocks next_heap (fIsTestnet p) next_index (lp_height lp, lp_time lp); Some (b, Some lp)
  | None =>
      match lock_heights pool (vin tx) with
      | None => Some (false, None)
      | Some prevheights =>
          '(prevheights, lockPair) ← CalculateSequenceLocks next_heap (fIsTestnet p) tx flags prevheights next_index;
          b ← EvaluateSequenceLocks next_heap (fIsTestnet p) next_index lockPair;
          let maxInputHeight := fold_left (fun m h => if h =? height_of H tip + 1 then m else Z.max m h) prevheights 0 in
          Some (b, Some (mkLockPoints (fst lockPair) (snd lockPair) (Pos.to_nat <$> GetAncestor H tip maxInputHeight)))
      end
  end.

(** *** Before the coins *)

Definition loose_checks (tx : CTransaction) (chain_tip : ptr) (partial : bool) : res accept_reject unit :=
  let! _ := of_check (CheckTransaction tx true) in
  let! _ := of_check (CheckTransactionContextual p (vout tx) (height_of H chain_tip)) in
  guard! negb (IsCoinBase tx) or loose_coinbase in
  let segsigEnabled := IsSegSigEnabled versions (prev_of H chain_tip) in
  guard! negb (segsigEnabled && negb (HasSegregatedSignatures tx)) or non_segsig_after_active in
  guard! negb (negb segsigEnabled && HasSegregatedSignatures tx) or segsig_before_active in
  let! _ := if negb partial && fRequireStandard cfg
            then match IsStandardTx (fAcceptDatacarrier cfg) (fIsBareMultisigStd cfg) (nMaxDatacarrierBytes cfg) (dustRelayFee cfg) unset tx with
                 | Ok _ => Ok tt | Err r => Err (not_standard r)
                 end
            else Ok tt in
  guard! CheckFinalTx tx chain_tip STANDARD_LOCKTIME_VERIFY_FLAGS or not_final in
  Ok tt.

(** A conflicting transaction can be replaced if it says so; the source looks at the version of the new one. *)
Definition replaceable (tx other : CTransaction) : bool :=
  fEnableReplacement cfg &&
  (if IsOldTransactionVersion (nVersion tx) then existsb (fun i => GetSequence i (nVersion other) <? UINT32_MAX - 1) (vin other)
   else existsb (fun i => FlagIsSet i OptInRBF) (vin other)).
Fixpoint find_conflicts (pool : CTxMemPool) (tx : CTransaction) (ins : list CTxIn) (setConflicts : setEntries) : res accept_reject setEntries :=
  match ins with
  | [] => Ok setConflicts
  | i :: ins' =>
      match mapNextTx pool !! outpoint_key (prevout i) with
      | None => find_conflicts pool tx ins' setConflicts
      | Some h =>
          if bool_decide (h ∈ setConflicts) then find_conflicts pool tx ins' setConflicts
          else
            let! e := of_pool (entry_at pool h) in
            guard! replaceable tx (e_tx e) or mempool_conflict in
            find_conflicts pool tx ins' ({[h]} ∪ setConflicts)
      end
  end.

(** *** Coins, locks and fees *)

(** What is known of a transaction: its entry, fee with deltas, and size for fees. *)
Record candidate := mkCandidate { c_entry : CTxMemPoolEntry; c_modified : Z; c_size : Z }.

Definition coin_checks (pool : CTxMemPool) (tx : CTransaction) (nAcceptTime : Z) : res accept_reject candidate :=
  let view := pool_coin pool in
  guard! forallb (fun n => bool_decide (view (COutPoint_ofHash (GetHash tx) (Z.of_nat n)) = None)) (seq 0 (length (vout tx))) or already_known in
  guard! forallb (fun i => bool_decide (view (prevout i) <> None)) (vin tx) or missing_inputs in
  let! nValueIn := in_range (inputs_value view (vin tx)) in
  let! locks := of_option (CheckSequenceLocks pool tx STANDARD_LOCKTIME_VERIFY_FLAGS None) in
  match locks with
  | (true, Some lp) =>
      guard! negb (fRequireStandard cfg) || negb (HasSegregatedSignatures tx) || IsSegregatedSignatureDataStandard tx or nonstandard_sigdata in
      guard! negb (fRequireStandard cfg) || AreInputsStandard view tx or nonstandard_inputs in
      let nSigOpsCost := GetTransactionSigOpCost view tx true in
      let! nValueOut := of_option (GetValueOut tx) in
      let! nFees := in_range (nValueIn - nValueOut) in
      let nModifiedFees := ApplyDelta pool (GetHash tx) nFees in
      let spendsCoinbaseCount := Z.of_nat (length (List.filter (fun i => match view (prevout i) with Some c => fCoinBase c | None => false end) (vin tx))) in
      let entry := CTxMemPoolEntry_new tx nFees nAcceptTime (height_of H tip) spendsCoinbaseCount nSigOpsCost lp in
      guard! negb (nSigOpsCost >? MAX_STANDARD_TX_SIGOPS_COST) or too_many_tx_sigops in
      Ok (mkCandidate entry nModifiedFees (u32 (GetTxSizeDiscounted entry)))
  | _ => Err not_sequence_final
  end.

(** *** Replacement *)

Definition parents_of (ins : list CTxIn) : setEntries := list_to_set (omap (fun i => GetTxHash position_hash (prevout i)) ins).
(** The entries to replace, the transactions they spend, and the number of their descendants. *)
Record replaced := mkReplaced { setIterConflicting : setEntries; setConflictsParents : setEntries; nConflictingCount : Z }.
Definition visit_conflict (pool : CTxMemPool) (newFeeRate : Z) (s : replaced) (h : uint256) : res accept_reject replaced :=
  match mapTx pool !! h with
  | None => Ok s
  | Some e =>
      let! oldFeeRate := of_pool (CFeeRate_of (GetModifiedFee e) (GetTxSize e)) in
      guard! negb (newFeeRate <=? oldFeeRate) or insufficient_fee in
      Ok (mkReplaced ({[h]} ∪ setIterConflicting s) (parents_of (vin (e_tx e)) ∪ setConflictsParents s) (u64 (nConflictingCount s + nCountWithDescendants e)))
  end.
Fixpoint visit_conflicts (pool : CTxMemPool) (newFeeRate : Z) (l : list uint256) (s : replaced) : res accept_reject replaced :=
  match l with [] => Ok s | h :: l' => let! s := visit_conflict pool newFeeRate s h in visit_conflicts pool newFeeRate l' s end.
Definition conflicting_fees (pool : CTxMemPool) (s : setEntries) : Z :=
  fold_left (fun n h => match mapTx pool !! h with Some e => i64 (n + GetModifiedFee e) | None => n end) (in_order s) 0.
Definition unconfirmed_input (pool : CTxMemPool) (parents : setEntries) (i : CTxIn) : bool :=
  match GetTxHash position_hash (prevout i) with
  | Some h => negb (bool_decide (h ∈ parents)) && exists_ pool h
  | None => false
  end.
(** The entries that leave for the new transaction. *)
Definition replace_checks (pool : CTxMemPool) (tx : CTransaction) (c : candidate) (setConflicts : setEntries) : res accept_reject setEntries :=
  if bool_decide (setConflicts = ∅) then Ok ∅
  else
    let! newFeeRate := of_pool (CFeeRate_of (c_modified c) (c_size c)) in
    let! s := visit_conflicts pool newFeeRate (in_order setConflicts) (mkReplaced ∅ ∅ 0) in
    guard! nConflictingCount s <=? maxDescendantsToVisit or too_many_replacements in
    let! allConflicting := of_pool (all_descendants pool (in_order (setIterConflicting s))) in
    guard! negb (existsb (unconfirmed_input pool (setConflictsParents s)) (vin tx)) or replacement_adds_unconfirmed in
    let nConflictingFees := conflicting_fees pool allConflicting in
    guard! negb (c_modified c <? nConflictingFees) or insufficient_fee in
    let! nDeltaFees := in_range (c_modified c - nConflictingFees) in
    let! fee := of_pool (GetFee (incrementalRelayFee cfg) (c_size c)) in
    guard! negb (nDeltaFees <? fee) or insufficient_fee in
    Ok allConflicting.

Definition fee_checks (pool : CTxMemPool) (minimum : Z) (c : candidate) (fLimitFree : bool) (nAbsurdFee : Z) : res accept_reject unit :=
  let! mempoolRejectFee := of_pool (GetFee minimum (c_size c)) in
  guard! negb ((mempoolRejectFee >? 0) && (c_modified c <? mempoolRejectFee)) or mempool_min_fee in
  let! relay := of_pool (GetFee (minRelayTxFee cfg) (c_size c)) in
  guard! negb (fLimitFree && (c_modified c <? relay)) or min_relay_fee in
  guard! negb (negb (nAbsurdFee =? 0) && (nFee (c_entry c) >? nAbsurdFee)) or absurdly_high_fee in
  Ok tt.
(** The ancestors of the new entry, none of which it replaces. *)
Definition ancestor_checks (pool : CTxMemPool) (c : candidate) (setConflicts : setEntries) : res accept_reject setEntries :=
  let! r := of_pool (CalculateMemPoolAncestors pool (c_entry c) (fst (limit_ancestors cfg)) (u64 (snd (limit_ancestors cfg) * 1000))
                       (fst (limit_descendants cfg)) (u64 (snd (limit_descendants cfg) * 1000)) true) in
  match r with
  | inl _ => Err too_long_mempool_chain
  | inr setAncestors => guard! bool_decide (setAncestors ∩ setConflicts = ∅) or spends_conflicting_tx in Ok setAncestors
  end.

(** *** Scripts *)

Definition bundle_coin (pool : CTxMemPool) (o : COutPoint) : option (CTxOut * Z * Z * Z) :=
  match pool_coin pool o with Some c => Some (coin_out c, coin_nHeight c, nTxIndex c, op_n o) | None => None end.
(** Both runs of [CheckInputs]: with the flags of the node, and with the mandatory ones and no bundles. *)
Definition script_checks (pool : CTxMemPool) (tx : CTransaction) : res accept_reject unit :=
  let nSpendHeight := height_of H tip + 1 in
  match BuildWitnessBundles p (bundle_coin pool) tx nSpendHeight 0 with
  | Err r => Err (wrong_bundles r)
  | Ok bundles =>
      let! txdata := of_option (PrecomputedTransactionData_new tx) in
      let check flags bundles := match CheckInputs tx (Some txdata) (pool_coin pool) flags false p true nSpendHeight bundles with Ok _ => Ok tt | Err r => Err (wrong_inputs r) end in
      let! _ := check (scriptVerifyFlags cfg) (Some bundles) in
      check SCRIPT_VERIFY_P2SH None
  end.

(** *** The pool *)

Definition LimitMempoolSize (pool : CTxMemPool) : res accept_reject CTxMemPool :=
  let! r := of_pool (Expire (now - mempoolexpiry cfg) pool) in
  let! r := of_pool (TrimToSize DynamicMemoryUsage (incrementalRelayFee cfg) (maxmempool cfg) (fst r)) in
  Ok (fst r).
(** The pool after, whether or not the transaction is in it. *)
Definition store_entry (pool : CTxMemPool) (c : candidate) (setAncestors allConflicting : setEntries) (fOverrideMempoolLimit : bool) : res accept_reject CTxMemPool :=
  let! pool := of_pool (RemoveStaged allConflicting false pool) in
  let! pool := of_pool (addUnchecked position_hash (GetHash (e_tx (c_entry c))) (c_entry c) setAncestors pool) in
  if fOverrideMempoolLimit then Ok pool else LimitMempoolSize pool.

(** While headers are ahead of the blocks only the headers are checked against: the entry then has no fee. *)
Definition accept_partial (pool : CTxMemPool) (tx : CTransaction) (nAcceptTime : Z) (chain_tip : ptr) : res accept_reject CTxMemPool :=
  of_pool (addUnchecked_search position_hash (GetHash tx) (CTxMemPoolEntry_new tx 0 nAcceptTime (height_of H chain_tip) 0 0 (mkLockPoints 0 0 None)) pool).

(** All checks that look at the coins, for the pool that [GetMinFee] leaves. *)
Definition accept_checks (pool : CTxMemPool) (minimum : Z) (tx : CTransaction) (c : candidate) (setConflicts : setEntries) (fLimitFree : bool) (nAbsurdFee : Z)
    : res accept_reject (setEntries * setEntries) :=
  let! _ := fee_checks pool minimum c fLimitFree nAbsurdFee in
  let! setAncestors := ancestor_checks pool c setConflicts in
  let! allConflicting := replace_checks pool tx c setConflicts in
  let! _ := script_checks pool tx in
  Ok (setAncestors, allConflicting).

(** The pool after, and the verdict. [partial] is the tip of the partial chain when only that can be checked. *)
Definition AcceptToMemoryPoolWorker (pool : CTxMemPool) (tx : CTransaction) (fLimitFree : bool) (nAcceptTime : Z) (fOverrideMempoolLimit : bool) (nAbsurdFee : Z)
    (partial : option ptr) : CTxMemPool * res accept_reject unit :=
  let chain_tip := default tip partial in
  match (let! _ := loose_checks tx chain_tip (bool_decide (is_Some partial)) in
         guard! negb (exists_ pool (GetHash tx)) or already_in_mempool in
         find_conflicts pool tx (vin tx) ∅) with
  | Err r => (pool, Err r)
  | Ok setConflicts =>
      match partial with
      | Some chain_tip => match accept_partial pool tx nAcceptTime chain_tip with Ok pool => (pool, Ok tt) | Err r => (pool, Err r) end
      | None =>
          match coin_checks pool tx nAcceptTime with
          | Err r => (pool, Err r)
          | Ok c =>
              let '(pool, minimum) := GetMinFee (maxmempool cfg) pool in
              match accept_checks pool minimum tx c setConflicts fLimitFree nAbsurdFee with
              | Err r => (pool, Err r)
              | Ok (setAncestors, allConflicting) =>
                  match store_entry pool c setAncestors allConflicting fOverrideMempoolLimit with
                  | Err r => (pool, Err r)
                  | Ok pool => (pool, if fOverrideMempoolLimit || exists_ pool (GetHash tx) then Ok tt else Err mempool_full)
                  end
              end
          end
      end
  end.

(** *** Reorganisations and expiry *)

Definition TestLockPointValidity (lp : LockPoints) : bool :=
  match maxInputBlock lp with
  | None => true
  | Some n => let q := Pos.of_nat n in bool_decide (GetAncestor H tip (height_of H q) = Some q)
  end.
(** The verdict on the locks of an entry at the new tip, and its new lock points. *)
Definition entry_locks (pool : CTxMemPool) (e : CTxMemPoolEntry) : bool * option LockPoints :=
  let lp := lockPoints e in
  let validLP := TestLockPointValidity lp in
  let changed lp' := if validLP then None else Some lp' in
  if negb (CheckFinalTx (e_tx e) tip STANDARD_LOCKTIME_VERIFY_FLAGS) then (false, changed lp)
  else match CheckSequenceLocks pool (e_tx e) STANDARD_LOCKTIME_VERIFY_FLAGS (if validLP then Some lp else None) with
       | Some (b, lp') => (b, changed (default lp lp'))
       | None => (false, changed lp)
       end.
(** One transaction of a disconnected block; the hashes are those that came back. *)
Definition resurrect (fAddToMempool : bool) (partial : option ptr) (s : CTxMemPool * list uint256) (tx : CTransaction) : res accept_reject (CTxMemPool * list uint256) :=
  let '(pool, vHashUpdate) := s in
  let '(pool, accepted) :=
    if negb fAddToMempool || IsCoinBase tx then (pool, false)
    else match AcceptToMemoryPoolWorker pool tx false now true 0 partial with (pool, Ok _) => (pool, true) | (pool, Err _) => (pool, false) end in
  if negb accepted then let! pool := of_pool (removeRecursive tx pool) in Ok (pool, vHashUpdate)
  else Ok (pool, if exists_ pool (GetHash tx) then vHashUpdate ++ [GetHash tx] else vHashUpdate).
Fixpoint resurrect_all (fAddToMempool : bool) (partial : option ptr) (l : list CTransaction) (s : CTxMemPool * list uint256) : res accept_reject (CTxMemPool * list uint256) :=
  match l with [] => Ok s | tx :: l' => let! s := resurrect fAddToMempool partial s tx in resurrect_all fAddToMempool partial l' s end.
(** The pool and the emptied queue. *)
Definition UpdateMempoolForReorg (disconnectpool : DisconnectedBlockTransactions) (fAddToMempool : bool) (partial : option ptr) (pool : CTxMemPool)
    : res accept_reject (CTxMemPool * DisconnectedBlockTransactions) :=
  let! s := resurrect_all fAddToMempool partial (rev (queuedTx disconnectpool)) (pool, []) in
  let! pool := of_pool (UpdateTransactionsFromBlock (snd s) (fst s)) in
  let! pool := of_pool (removeForReorg (entry_locks pool) position_hash (fun o => default Coin_default (tip_coin o)) (height_of H tip + 1) (COINBASE_MATURITY p) pool) in
  let! pool := LimitMempoolSize pool in
  Ok (pool, Disconnected_clear).

Definition EmptyMempool (pool : CTxMemPool) : res accept_reject CTxMemPool :=
  let! r := of_pool (Expire INT64_MAX pool) in
  let! r := of_pool (TrimToSize DynamicMemoryUsage (incrementalRelayFee cfg) (maxmempool cfg) (fst r)) in
  Ok (fst r).
(** The blocks that could have taken an old transaction; the condition looks at [block], the loop moves another pointer. *)
Fixpoint recent_blocks (n : nat) (block_time propagationTime : Z) : Z :=
  match n with O => 0 | S n' => if block_time >=? propagationTime then 1 + recent_blocks n' block_time propagationTime else 0 end.
Definition ExpireMempoolForPartialSync (vtx : list CTransaction) (block : ptr) (pool : CTxMemPool) : res accept_reject CTxMemPool :=
  match H !! block with
  | None => Err accept_failure
  | Some b =>
      let expireTime := now - 3600 in
      if Chain.nTime b <? expireTime then Ok pool
      else
        let! pool := of_pool (removeForBlock vtx now pool) in
        if recent_blocks 3 (Chain.nTime b) (expireTime + 60) >=? 3 then let! r := of_pool (Expire expireTime pool) in Ok (fst r) else Ok pool
  end.
End Accept.

(** ** Lemmas *)

(** *** A removal and what is left *)

Section Removal.
Context {Env : PoolEnv}.
Implicit Types (pool : CTxMemPool) (S A : setEntries).

Lemma removed_lookup pool pool1 S y : pool_ok pool -> removed pool pool1 S -> y ∈ dom (mapTx pool) -> y ∉ S ->
  exists e e0, mapTx pool1 !! y = Some e /\ mapTx pool !! y = Some e0 /\ e_tx e = e_tx e0.
Proof.
  intros K (K1 & D & _ & Sh) Y N. assert (Y1 : y ∈ dom (mapTx pool1)) by (rewrite D; set_solver). apply elem_of_dom in Y1 as [e E].
  destruct (Sh y e E) as (e0 & E0 & (Et & _)). by exists e, e0.
Qed.
Lemma removed_parent pool pool1 S y z : pool_ok pool -> removed pool pool1 S -> y ∉ S -> z ∉ S -> parent pool y z -> parent pool1 y z.
Proof.
  intros K R Ny Nz Hp. destruct (parent_dom pool y z (pk_links pool K) Hp) as [Dy Dz]. destruct (removed_lookup pool pool1 S y K R Dy Ny) as (e & e0 & E & E0 & Et).
  destruct Hp as (l & Hl & Z). rewrite (lc_parents pool (pk_links pool K) y e0 l E0 Hl) in Z. pose proof (proj1 R) as K1.
  assert (L : is_Some (mapLinks pool1 !! y)) by (apply elem_of_dom; rewrite (lc_dom pool1 (pk_links pool1 K1)); by apply elem_of_dom_2 in E). destruct L as [l1 L].
  exists l1. split; [done|]. rewrite (lc_parents pool1 (pk_links pool1 K1) y e l1 E L), Et. unfold pool_parents in *. destruct R as (_ & D & _). rewrite D. set_solver.
Qed.
Lemma removed_ancestors pool pool1 S ins A : pool_ok pool -> removed pool pool1 S -> A ## S -> ancestors_from pool (pool_parents pool ins) A ->
  ancestors_from pool1 (pool_parents pool1 ins) A.
Proof.
  intros K R Dj Q z. pose proof (removed_shrinks _ _ _ R) as Sh. pose proof (proj1 R) as K1. rewrite (Q z). split; intros (s & Hs & P).
  - assert (IA : forall w, rtc (parent pool) s w -> w ∈ A) by (intros w W; apply Q; by exists s).
    exists s. split.
    + unfold pool_parents in *. destruct R as (_ & D & _). rewrite D. pose proof (IA s ltac:(apply rtc_refl)). set_solver.
    + clear Hs Q. induction P as [s|s w z X P IH]; [apply rtc_refl|]. apply rtc_l with w.
      * apply (removed_parent pool pool1 S); [done..| | |done]; [pose proof (IA s (rtc_refl _ _)); set_solver|pose proof (IA w (rtc_once _ _ X)); set_solver].
      * apply IH. intros v V. apply IA. by apply rtc_l with w.
  - exists s. split; [unfold pool_parents in *; pose proof (shrinks_dom _ _ Sh); set_solver|].
    apply (rtc_child_parent pool z s (pk_links pool K)). apply (shrinks_rtc pool pool1); [done..|]. by apply (rtc_child_parent pool1 z s (pk_links pool1 K1)).
Qed.
Lemma removed_sums pool pool1 S : pool_ok pool -> removed pool pool1 S ->
  sum_of (entry_size pool1) (dom (mapTx pool1)) <= sum_of (entry_size pool) (dom (mapTx pool)) /\
  sum_of (entry_sigops pool1) (dom (mapTx pool1)) <= sum_of (entry_sigops pool) (dom (mapTx pool)) /\ (size (mapTx pool1) <= size (mapTx pool))%nat.
Proof.
  intros K R. pose proof (removed_shrinks _ _ _ R) as Sh. pose proof (shrinks_dom _ _ Sh) as Sub.
  assert (X : forall h, h ∈ dom (mapTx pool1) -> entry_size pool1 h = entry_size pool h /\ entry_sigops pool1 h = entry_sigops pool h).
  { intros h [e E]%elem_of_dom. destruct (Sh h e E) as (e0 & E0 & (_ & Es & _ & Eg & _)). unfold entry_size, entry_sigops. by rewrite E, E0. }
  rewrite (sum_of_ext (entry_size pool1) (entry_size pool)), (sum_of_ext (entry_sigops pool1) (entry_sigops pool)) by (intros h Hh; by apply X). split_and!.
  - apply sum_of_subset; [done|]. intros h _. apply entry_size_nonneg.
  - apply sum_of_subset; [done|]. intros h _. by apply entry_sigops_nonneg, pk_small.
  - rewrite <- !size_dom. by apply subseteq_size.
Qed.
End Removal.

(** *** Conflicts *)

Section Conflicts.
Context {Env : PoolEnv}.
Variable cfg : settings.
Variable position_hash : COutPoint -> option uint256.
Implicit Types (pool : CTxMemPool) (s : setEntries).

(** The entry that spends one of the inputs already. *)
Definition conflict (pool : CTxMemPool) (tx : CTransaction) (h : uint256) : Prop :=
  exists i, i ∈ vin tx /\ mapNextTx pool !! outpoint_key (prevout i) = Some h.

Lemma find_conflicts_Ok pool tx ins : forall s s', find_conflicts cfg pool tx ins s = Ok s' ->
  forall h, h ∈ s' <-> h ∈ s \/ exists i, i ∈ ins /\ mapNextTx pool !! outpoint_key (prevout i) = Some h.
Proof.
  induction ins as [|i ins IH]; intros s s' E h; cbn [find_conflicts] in E.
  - injection E as <-. split; [by left|]. intros [X|(i & I & _)]; [done|by apply not_elem_of_nil in I].
  - assert (G : forall x, mapNextTx pool !! outpoint_key (prevout i) = x ->
      (exists j, j ∈ i :: ins /\ mapNextTx pool !! outpoint_key (prevout j) = Some h) <-> x = Some h \/ exists j, j ∈ ins /\ mapNextTx pool !! outpoint_key (prevout j) = Some h).
    { intros x <-. split; [intros (j & [->|J]%elem_of_cons & X); [by left|right; by exists j]|intros [X|(j & J & X)]; [exists i; split; [left|done]|exists j; split; [by right|done]]]. }
    rewrite (G _ eq_refl). destruct (mapNextTx pool !! _) as [x|] eqn:N.
    + case_bool_decide as B.
      * rewrite (IH _ _ E h). split; [tauto|]. intros [X|[[= ->]|X]]; tauto.
      * destruct (entry_at pool x) as [e|]; cbn [of_pool res_bind] in E; [|done]. destruct (replaceable cfg tx (e_tx e)); [|done].
        rewrite (IH _ _ E h), elem_of_union, elem_of_singleton. split; [intros [[->|X]|X]; tauto|intros [X|[[= ->]|X]]; tauto].
    + rewrite (IH _ _ E h). split; [tauto|]. intros [X|[X|X]]; [tauto|done|tauto].
Qed.

Lemma visit_conflicts_Ok pool rate l : forall (s s' : replaced), visit_conflicts position_hash pool rate l s = Ok s' ->
  forall h, h ∈ setIterConflicting s' <-> h ∈ setIterConflicting s \/ (h ∈ l /\ h ∈ dom (mapTx pool)).
Proof.
  induction l as [|x l IH]; intros s s' E h; cbn [visit_conflicts] in E.
  - injection E as <-. split; [by left|]. intros [X|[X _]]; [done|by apply not_elem_of_nil in X].
  - unfold visit_conflict in E. destruct (mapTx pool !! x) as [e|] eqn:Ex; cbn [res_bind] in E.
    + destruct (of_pool _) as [old|]; cbn [res_bind] in E; [|done]. destruct (negb _); cbn [res_bind] in E; [|done].
      rewrite (IH _ _ E h). cbn [setIterConflicting]. rewrite elem_of_union, elem_of_singleton, elem_of_cons. apply elem_of_dom_2 in Ex. split; [intros [[->|X]|X]|intros [X|[[->|X] Y]]]; tauto.
    + rewrite (IH _ _ E h), elem_of_cons. apply not_elem_of_dom in Ex. split; [tauto|]. intros [X|[[->|X] Y]]; tauto.
Qed.

Lemma conflicting_fees_sum pool s : s ⊆ dom (mapTx pool) -> conflicting_fees pool s = i64 (sum_of (entry_fee pool) s).
Proof.
  intros Sub. unfold conflicting_fees. rewrite <- sum_of_in_order. assert (Sl : forall h, h ∈ in_order s -> h ∈ dom (mapTx pool)) by (intros h Hh%elem_of_in_order; by apply Sub).
  assert (G : forall l n, (forall h, h ∈ l -> h ∈ dom (mapTx pool)) -> i64 n = n ->
    fold_left (fun n h => match mapTx pool !! h with Some e => i64 (n + GetModifiedFee e) | None => n end) l n = i64 (n + sum_list (entry_fee pool) l)).
  { induction l as [|h l IH]; intros n L N; cbn [fold_left sum_list foldr]; [by rewrite Z.add_0_r|].
    assert (Hh : h ∈ dom (mapTx pool)) by (apply L; left). apply elem_of_dom in Hh as [e E]. rewrite E, IH; [|intros x X; apply L; by right|by apply i64_idemp].
    rewrite i64_add_l. f_equal. rewrite (entry_fee_at pool h e E). fold (sum_list (entry_fee pool) l). lia. }
  rewrite G; [by rewrite Z.add_0_l|done|done].
Qed.

Lemma replace_checks_Ok pool tx c conflicts S : pool_ok pool -> replace_checks cfg position_hash pool tx c conflicts = Ok S -> conflicts ⊆ dom (mapTx pool) ->
  (forall z, z ∈ S <-> exists x, x ∈ conflicts /\ rtc (child pool) x z) /\ (exists pool1, RemoveStaged S false pool = Ok pool1 /\ removed pool pool1 S) /\
  (S <> ∅ -> exists fee, GetFee (incrementalRelayFee cfg) (c_size c) = Ok fee /\ i64 (sum_of (entry_fee pool) S) + fee <= c_modified c).
Proof.
  intros K E Sub. unfold replace_checks in E. assert (G : exists l, (forall h, h ∈ l <-> h ∈ conflicts) /\ all_descendants pool l = Ok S /\
    (S <> ∅ -> exists fee, GetFee (incrementalRelayFee cfg) (c_size c) = Ok fee /\ conflicting_fees pool S + fee <= c_modified c)).
  { case_bool_decide as B.
    - injection E as <-. exists []. subst conflicts. split; [|done]. intros h. split; [by intros ?%not_elem_of_nil|set_solver].
    - destruct (of_pool _) as [rate|]; cbn [res_bind] in E; [|done]. destruct (visit_conflicts _ _ _ _ _) as [s|] eqn:V; cbn [res_bind] in E; [|done].
      destruct (_ <=? maxDescendantsToVisit); [|done]. destruct (all_descendants pool _) as [D|] eqn:Ed; cbn [of_pool res_bind] in E; [|done].
      destruct (negb (existsb _ _)); [|done]. destruct (_ <? _) eqn:F1; cbn [negb] in E; [done|].
      destruct (in_range _) as [nd|] eqn:Er; cbn [res_bind] in E; [|done]. unfold in_range in Er. destruct (_ && _); [|done]. injection Er as <-.
      destruct (GetFee _ _) as [fee|]; cbn [of_pool res_bind] in E; [|done]. destruct (_ <? fee) eqn:F2; cbn [negb] in E; [done|]. injection E as <-.
      exists (in_order (setIterConflicting s)). split; [|split; [done|intros _; exists fee; split; [done|zbool; lia]]].
      intros h. rewrite elem_of_in_order, (visit_conflicts_Ok _ _ _ _ _ V h). cbn [setIterConflicting]. rewrite elem_of_in_order. set_solver. }
  destruct G as (l & L & Hd & F). destruct (remove_descendants pool l K) as (D & pool1 & Hd' & Hr & R & Q); [intros x X; by apply Sub, L|].
  rewrite Hd in Hd'. injection Hd' as <-. split_and!.
  - intros z. rewrite Q. by setoid_rewrite L.
  - by exists pool1.
  - intros N. destruct (F N) as (fee & Ef & Le). exists fee. split; [done|]. rewrite <- conflicting_fees_sum; [done|].
    intros z Z. apply Q in Z as (x & X & P). apply L, Sub in X. apply (rtc_parent_dom pool z x (pk_links pool K)); [|done]. by apply rtc_child_parent; [apply pk_links|].
Qed.
End Conflicts.

(** ** Specification *)

Section Joining.
Context {Env : PoolEnv} `{SH : ScriptHashes} `{EC : Secp256k1}.
Variable p : ChainParams.
Variable cfg : settings.
Variable H : heap.
Variable versions : ptr -> Z * Z.
Variable tip : ptr.
Variable tip_coin : COutPoint -> option Coin.
Variable position_hash : COutPoint -> option uint256.
Variable unset : txnouttype.
Variable now : Z.
Variable GetMinFee : Z -> CTxMemPool -> CTxMemPool * Z.
Variable DynamicMemoryUsage : CTxMemPool -> Z.
Abbreviation accept := (AcceptToMemoryPoolWorker p cfg H versions tip tip_coin position_hash unset now GetMinFee DynamicMemoryUsage).
Abbreviation coins_ok := (coin_checks p cfg H tip tip_coin).

(** What the checks take for granted: no entry spends the new transaction, no input by position
    is an output of the pool, and the sums of the pool with the new entry stay in range. *)
Record joinable (pool : CTxMemPool) (tx : CTransaction) (nAcceptTime : Z) : Prop := {
  jn_children : forall h e, mapTx pool !! h = Some e -> GetHash tx ∉ input_hashes (vin (e_tx e));
  jn_own : GetHash tx ∉ input_hashes (vin tx);
  jn_positions : forall i h, i ∈ vin tx -> isHash (prevout i) = false -> position_hash (prevout i) = Some h -> h ∉ dom (mapTx pool) /\ h <> GetHash tx;
  jn_small : forall c, coins_ok pool tx nAcceptTime = Ok c -> 0 < GetTxSize (c_entry c) /\ 0 <= sigOpCost (c_entry c) /\
    GetTxSize (c_entry c) + sum_of (entry_size pool) (dom (mapTx pool)) < 2 ^ 63 /\ sigOpCost (c_entry c) + sum_of (entry_sigops pool) (dom (mapTx pool)) < 2 ^ 31 /\
    Z.of_nat (size (mapTx pool)) + 1 < 2 ^ 63
}.
(** The decay of the minimum fee changes nothing but its own numbers. *)
Definition only_decays : Prop := forall limit pool, exists t b r, fst (GetMinFee limit pool) = with_rolling pool t b r.

(** ** Lemmas on acceptance *)

Lemma coins_ok_entry pool tx t c : coins_ok pool tx t = Ok c -> e_tx (c_entry c) = tx /\ fresh_entry (c_entry c).
Proof.
  unfold coin_checks. intros E. destruct (forallb _ _); [|done]. destruct (forallb _ _); [|done].
  destruct (in_range _) as [v|]; cbn [res_bind] in E; [|done]. destruct (of_option _) as [[[] [lp|]]|]; cbn [res_bind] in E; try done.
  destruct (_ || _ || _); [|done]. destruct (_ || _); [|done]. destruct (of_option _) as [o|]; cbn [res_bind] in E; [|done].
  destruct (in_range (v - o)) as [fee|] eqn:F; cbn [res_bind] in E; [|done]. destruct (_ >? _); [done|]. injection E as <-. split; [done|].
  apply new_entry_fresh. unfold in_range in F. destruct (_ && _) eqn:B; [|done]. injection F as <-. zbool. lia.
Qed.

Lemma conflicts_leave (pool pool1 : CTxMemPool) (tx : CTransaction) (S conflicts : setEntries) : pool_ok pool -> removed pool pool1 S -> (forall h, h ∈ conflicts <-> conflict pool tx h) ->
  (forall z, z ∈ S <-> exists x, x ∈ conflicts /\ rtc (child pool) x z) -> forall i, i ∈ vin tx -> mapNextTx pool1 !! outpoint_key (prevout i) = None.
Proof.
  intros K R C Q i I. destruct (mapNextTx pool1 !! _) as [h|] eqn:N; [|done]. pose proof (removed_shrinks _ _ _ R) as Sh. destruct R as (K1 & D & _).
  pose proof (shrinks_next pool pool1 _ _ K K1 Sh N) as N0. assert (X : h ∈ S) by (apply Q; exists h; split; [apply C; by exists i|apply rtc_refl]).
  apply (bc_next pool1 (pk_books pool1 K1)) in N as (e & j & E & _). apply elem_of_dom_2 in E. rewrite D in E. set_solver.
Qed.

Lemma joins (pool pool1 : CTxMemPool) (tx : CTransaction) (t : Z) (c : candidate) (S : setEntries) : pool_ok pool -> removed pool pool1 S -> joinable pool tx t -> coins_ok pool tx t = Ok c -> GetHash tx ∉ dom (mapTx pool) ->
  (forall i, i ∈ vin tx -> mapNextTx pool1 !! outpoint_key (prevout i) = None) -> addable position_hash (c_entry c) pool1.
Proof.
  intros K R [J1 J2 J3 J4] Ec N Nc. destruct (coins_ok_entry _ _ _ _ Ec) as [Et Fr]. destruct (J4 c Ec) as (P1 & P2 & P3 & P4 & P5).
  pose proof (removed_shrinks _ _ _ R) as Sh. pose proof (shrinks_dom _ _ Sh) as Sub. destruct (removed_sums pool pool1 S K R) as (S1 & S2 & S3). split; rewrite ?Et; try done.
  - intros X. apply N. by apply Sub.
  - intros h e E. destruct (Sh h e E) as (e0 & E0 & (-> & _)). by apply (J1 h e0).
  - intros i h I Hp E. destruct (J3 i h I Hp E) as [X Y]. split; [|done]. intros Z. apply X. by apply Sub.
  - split_and!; lia.
Qed.

(** The entry joins what the replaced entries leave. *)
Lemma store_entry_ok (pool : CTxMemPool) (tx : CTransaction) (t : Z) (c : candidate) (conflicts A S : setEntries) (over : bool) (pool' : CTxMemPool) : pool_inv pool -> joinable pool tx t -> coins_ok pool tx t = Ok c -> GetHash tx ∉ dom (mapTx pool) ->
  (forall h, h ∈ conflicts <-> conflict pool tx h) -> ancestors_from pool (pool_parents pool (vin tx)) A -> A ∩ conflicts = ∅ ->
  (forall z, z ∈ S <-> exists x, x ∈ conflicts /\ rtc (child pool) x z) -> (exists pool1, RemoveStaged S false pool = Ok pool1 /\ removed pool pool1 S) ->
  store_entry cfg position_hash now DynamicMemoryUsage pool c A S over = Ok pool' ->
  pool_inv pool' /\ (over = true -> GetHash tx ∈ dom (mapTx pool')) /\ (forall e, mapTx pool' !! GetHash tx = Some e -> e_tx e = tx) /\
  (forall h, h ∈ dom (mapTx pool') -> h = GetHash tx \/ (h ∈ dom (mapTx pool) /\ h ∉ S)).
Proof.
  intros [K I] J Ec N C QA Dj QS (pool1 & Hr & R) E. destruct (coins_ok_entry _ _ _ _ Ec) as [Et _]. unfold store_entry in E. rewrite Hr in E. cbn [of_pool res_bind] in E.
  assert (Ad : addable position_hash (c_entry c) pool1) by (apply (joins pool pool1 tx t c S); [done..|]; by apply (conflicts_leave pool pool1 tx S conflicts)).
  assert (DjS : A ## S).
  { intros z Za Zs. apply QS in Zs as (x & X & P). apply (rtc_child_parent pool x z (pk_links pool K)) in P. apply QA in Za as (s & Hs & P0).
    assert (X' : x ∈ A) by (apply QA; exists s; split; [done|by trans z]). set_solver. }
  destruct (addUnchecked_ok pool1 position_hash (c_entry c) A (proj1 R) Ad) as (pool2 & e & Ha & K2 & D2 & He & Ee & Dm & Dk).
  { rewrite Et. by apply (removed_ancestors pool pool1 S). }
  rewrite Ha in E. cbn [of_pool res_bind] in E. rewrite Et in *.
  assert (I2 : pool_inv pool2).
  { split; [done|]. intros h eh Hh. rewrite D2. destruct (Dk h eh Hh) as [[-> ->]|(e1 & E1 & ->)]; [done|]. exact (removed_deltas pool pool1 S R I h e1 E1). }
  assert (G : shrinks pool2 pool' -> (forall e, mapTx pool' !! GetHash tx = Some e -> e_tx e = tx) /\ (forall h, h ∈ dom (mapTx pool') -> h = GetHash tx \/ (h ∈ dom (mapTx pool) /\ h ∉ S))).
  { intros Sh. split.
    - intros e' E'. destruct (Sh _ _ E') as (e0 & E0 & (-> & _)). rewrite He in E0. injection E0 as <-. done.
    - intros h Hh. apply (shrinks_dom _ _ Sh) in Hh. rewrite Dm in Hh. destruct R as (_ & D & _). rewrite D in Hh. set_solver. }
  destruct over.
  - injection E as <-. split; [done|]. split; [intros _; rewrite Dm; set_solver|]. apply G, shrinks_refl.
  - unfold LimitMempoolSize in E. destruct (Expire_ok pool2 (now - mempoolexpiry cfg) I2) as (pool3 & l & Hx & I3 & Sh3 & _). rewrite Hx in E. cbn [of_pool res_bind fst] in E.
    destruct (TrimToSize_ok DynamicMemoryUsage (incrementalRelayFee cfg) pool3 (maxmempool cfg) I3) as (pool4 & l4 & Ht & I4 & Sh4 & _). rewrite Ht in E. cbn [of_pool res_bind fst] in E.
    injection E as <-. split; [done|]. split; [done|]. apply G. by apply (shrinks_trans pool2 pool3).
Qed.

Lemma ancestor_checks_Ok (pool : CTxMemPool) (tx : CTransaction) (t : Z) (c : candidate) (conflicts A : setEntries) : pool_inv pool -> joinable pool tx t -> coins_ok pool tx t = Ok c ->
  ancestor_checks cfg pool c conflicts = Ok A -> ancestors_from pool (pool_parents pool (vin tx)) A /\ A ∩ conflicts = ∅.
Proof.
  intros [K I] J Ec E. destruct (coins_ok_entry _ _ _ _ Ec) as [Et _]. destruct (jn_small _ _ _ J c Ec) as (_ & _ & B & _). unfold ancestor_checks in E.
  pose proof (pk_links pool K) as L.
  assert (B' : GetTxSize (c_entry c) + sum_of (entry_size pool) (dom (mapTx pool)) < 2 ^ 64) by (clear -B; lia).
  destruct (CalculateMemPoolAncestors_spec pool (links_linked pool L) (lc_dom pool L) (c_entry c) (fst (limit_ancestors cfg)) (u64 (snd (limit_ancestors cfg) * 1000))
    (fst (limit_descendants cfg)) (u64 (snd (limit_descendants cfg) * 1000)) B') as (A' & Q & _ & R). rewrite Et in Q.
  destruct R as [[Hr _]|(e & Hr & _)]; rewrite Hr in E; cbn [of_pool res_bind] in E; [|done]. destruct (bool_decide _) eqn:Dj; [|done]. injection E as <-.
  split; [done|]. by apply bool_decide_eq_true in Dj.
Qed.

(** C6: A transaction accepted against the coins joins the pool (while only headers are checked a
    conflict stays: [partial_keeps_conflict]). The pool is consistent; neither an entry nor the transaction itself spends it, as one may
    after a reorganisation; no outpoint by position stands for an output of the pool or of it;
    its size is positive, its cost not negative, sums stay in range; [GetMinFee] only changes
    the decaying fee. Then the pool is
    consistent, has the transaction as the spender of its inputs as they are written, and else only entries
    from before, without those that spend an outpoint of the transaction, written in the same way, and their descendants. For
    those the transaction pays, in fees with deltas, as much as they did together and the
    relay fee of its own size. Its coins are there, it passes [CheckTransaction], and both runs of [CheckInputs]
    accept it, which says of its inputs what [accepted_inputs_authorised] does. *)
Theorem accepted_transaction_joins_pool (pool : CTxMemPool) (tx : CTransaction) (fLimitFree : bool) (t : Z) (over : bool) (nAbsurdFee : Z) (pool' : CTxMemPool) :
  only_decays -> pool_inv pool -> joinable pool tx t ->
  accept pool tx fLimitFree t over nAbsurdFee None = (pool', Ok tt) ->
  exists (c : candidate) (S : setEntries), coins_ok pool tx t = Ok c /\
    (forall z, z ∈ S <-> exists x, conflict pool tx x /\ rtc (child pool) x z) /\
    pool_inv pool' /\ (exists e, mapTx pool' !! GetHash tx = Some e /\ e_tx e = tx) /\
    (forall i, i ∈ vin tx -> mapNextTx pool' !! outpoint_key (prevout i) = Some (GetHash tx)) /\
    (forall h, h ∈ dom (mapTx pool') -> h = GetHash tx \/ (h ∈ dom (mapTx pool) /\ h ∉ S)) /\
    (S <> ∅ -> exists fee, GetFee (incrementalRelayFee cfg) (c_size c) = Ok fee /\ i64 (sum_of (entry_fee pool) S) + fee <= c_modified c) /\
    CheckTransaction tx true = Ok tt /\ script_checks p cfg H tip tip_coin pool tx = Ok tt.
Proof.
  intros Dec Ip J E. unfold AcceptToMemoryPoolWorker in E. cbn [default] in E.
  match type of E with match ?m with _ => _ end = _ => destruct m as [conflicts|] eqn:E0; [|done] end.
  destruct (loose_checks _ _ _ _ _ _ _ _ _) as [[]|] eqn:El; cbn [res_bind] in E0; [|done].
  destruct (exists_ pool (GetHash tx)) eqn:Ex; cbn [negb] in E0; [done|]. apply bool_decide_eq_false in Ex.
  assert (N : GetHash tx ∉ dom (mapTx pool)) by (by rewrite elem_of_dom).
  assert (C : forall h, h ∈ conflicts <-> conflict pool tx h) by (intros h; rewrite (find_conflicts_Ok _ _ _ _ _ _ E0 h); unfold conflict; set_solver).
  destruct (coin_checks _ _ _ _ _ _ _ _) as [c|] eqn:Ec; [|done]. destruct (GetMinFee _ _) as [rolled minimum] eqn:Em.
  destruct (Dec (maxmempool cfg) pool) as (t0 & b0 & r0 & Er). rewrite Em in Er. cbn [fst] in Er. subst rolled. set (rolled := with_rolling pool t0 b0 r0) in *.
  pose proof (pool_inv_rolling pool t0 b0 r0 Ip) as Ir. change (pool_inv rolled) in Ir.
  assert (Jr : joinable rolled tx t) by (destruct J; by split).
  destruct (accept_checks _ _ _ _ _ _ _ _ _ _ _ _ _) as [[A S]|] eqn:Ea; [|done]. unfold accept_checks in Ea.
  destruct (fee_checks _ _ _ _ _ _) as [[]|]; cbn [res_bind] in Ea; [|done]. destruct (ancestor_checks _ _ _ _) as [A'|] eqn:EA; cbn [res_bind] in Ea; [|done].
  destruct (replace_checks _ _ _ _ _ _) as [S'|] eqn:ES; cbn [res_bind] in Ea; [|done]. destruct (script_checks _ _ _ _ _ _ _) as [[]|] eqn:Esc; cbn [res_bind] in Ea; [|done].
  injection Ea as -> ->. destruct (ancestor_checks_Ok rolled tx t c conflicts A Ir Jr Ec EA) as [QA Dj].
  assert (Sub : conflicts ⊆ dom (mapTx rolled)).
  { intros h Hh. apply C in Hh as (i & _ & Hi). apply (bc_next pool (pk_books pool (proj1 Ip))) in Hi as (e & _ & He & _). by apply elem_of_dom_2 in He. }
  destruct (replace_checks_Ok _ _ _ _ _ _ _ (proj1 Ir) ES Sub) as (QS & Rm & Fee).
  destruct (store_entry _ _ _ _ _ _ _ _ _) as [stored|] eqn:Est; [|done]. injection E as -> E.
  destruct (store_entry_ok rolled tx t c conflicts A S over pool' Ir Jr Ec N C QA Dj QS Rm Est) as (I' & Ov & Tx & Old).
  assert (D' : GetHash tx ∈ dom (mapTx pool')).
  { destruct over; [by apply Ov|]. cbn [orb] in E. destruct (exists_ pool' (GetHash tx)) eqn:X; [|done]. apply bool_decide_eq_true in X. by apply elem_of_dom. }
  apply elem_of_dom in D' as [e He]. exists c, S. split_and!; try done.
  - intros z. rewrite QS. by setoid_rewrite C.
  - exists e. split; [done|]. by apply Tx.
  - intros i Hi. apply (bc_next pool' (pk_books pool' (proj1 I'))). exists e, i. rewrite (Tx e He). done.
  - unfold loose_checks in El. destruct (CheckTransaction tx true) as [[]|]; done.
Qed.
End Joining.

(** ** Examples *)

Module DemoAccept.
#[export] Existing Instances demo_env InterpreterSpec.Toy.hashes Rush.curve.
(** A coin that anybody can spend, and two transactions that do; the first one can be replaced. *)
Definition free : Coin := mkCoin (mkTxOut 1000000 1000000 (ScriptLegacyOutput [OP_1])) false false 5 1.
Definition coins (o : COutPoint) : option Coin := if bool_decide (op_hash o = [3]) then Some free else None.
Definition spend (id sequence value : Z) : CTransaction :=
  mkTx 1 [mkTxIn 0 [] (COutPoint_ofHash [3] 0) sequence []] [mkTxOut value value (ScriptLegacyOutput [OP_1])] id 0 0.
Definition first_tx : CTransaction := spend 60 0 990000.
Definition second_tx : CTransaction := spend 70 0 900000.
Definition index : heap := <[1%positive := mkIndex 1000 None None 5000 0 0 0 (of_u64 1)]> ∅.
Definition node : settings := mkSettings false true true 83 1000 true 1000 1000 (25, 101) (25, 101) 1 300 1000.
Definition rolling (_ : Z) (pool : CTxMemPool) : CTxMemPool * Z := (pool, rollingMinimumFeeRate pool).
Definition usage (pool : CTxMemPool) : Z := Z.of_nat (size (mapTx pool)).
Definition accept_tx (pool : CTxMemPool) (tx : CTransaction) : CTxMemPool * res accept_reject unit :=
  AcceptToMemoryPoolWorker CMainParams node index (fun _ => (1, 0)) 1%positive coins no_position TX_NONSTANDARD 100 rolling usage pool tx true 50 false 0 None.
(** The pool with the first one. *)
Definition first_op : pool_op := OpAdd no_position (CTxMemPoolEntry_new first_tx 10000 50 1000 0 0 (mkLockPoints (-1) (-1) None)).
Definition pool : CTxMemPool := Eval vm_compute in pool_of [first_op].
Lemma pool_consistent : pool_inv pool.
Proof. apply (run_ops_inv [first_op] (CTxMemPool_new 0)); [apply new_pool_inv|apply run_ready_b_ok; vm_compute; reflexivity|vm_compute; reflexivity]. Qed.
Lemma second_joinable : joinable CMainParams node index 1%positive coins no_position pool second_tx 50.
Proof.
  split.
  - assert (B : bool_decide (map_Forall (fun _ e' => GetHash second_tx ∉ input_hashes (vin (e_tx e'))) (mapTx pool)) = true) by (vm_compute; reflexivity).
    apply bool_decide_eq_true in B. intros h e E. exact (B h e E).
  - intros (i & I & _ & E)%elem_of_input_hashes. apply list_elem_of_singleton in I as ->. vm_compute in E. discriminate.
  - intros i h _ _ E. discriminate E.
  - intros c E. vm_compute in E. injection E as <-. split_and!; vm_compute; (reflexivity || discriminate).
Qed.
Lemma rolling_decays : only_decays rolling.
Proof. intros limit [m1 m2 m3 m4 m5 m6 m7 m8 t b r]. by exists t, b, r. Qed.
End DemoAccept.
#[local] Existing Instances demo_env InterpreterSpec.Toy.hashes Rush.curve.

Lemma accepted_transaction_joins_pool_witness : exists pool' (c : candidate) (S : setEntries) fee, DemoAccept.accept_tx DemoAccept.pool DemoAccept.second_tx = (pool', Ok tt) /\ pool_inv pool' /\
  (forall h, h ∈ dom (mapTx pool') -> h = [70]) /\ [60] ∈ S /\ i64 (sum_of (entry_fee DemoAccept.pool) S) + fee <= c_modified c.
Proof.
  assert (E : snd (DemoAccept.accept_tx DemoAccept.pool DemoAccept.second_tx) = Ok tt) by (vm_compute; reflexivity).
  destruct (DemoAccept.accept_tx DemoAccept.pool DemoAccept.second_tx) as [pool' r] eqn:Ea. cbn [snd] in E. subst r.
  destruct (accepted_transaction_joins_pool CMainParams DemoAccept.node DemoAccept.index (fun _ => (1, 0)) 1%positive DemoAccept.coins no_position TX_NONSTANDARD 100
    DemoAccept.rolling DemoAccept.usage DemoAccept.pool DemoAccept.second_tx true 50 false 0 pool'
    DemoAccept.rolling_decays DemoAccept.pool_consistent DemoAccept.second_joinable Ea) as (c & S & Ec & Q & I & _ & _ & Old & Fee & _).
  assert (Cf : [60] ∈ S). { apply Q. exists [60]. split; [|apply rtc_refl]. eexists. split; [left|vm_compute; reflexivity]. }
  assert (B : bool_decide (map_Forall (fun h _ => h = [60]) (mapTx DemoAccept.pool)) = true) by (vm_compute; reflexivity). apply bool_decide_eq_true in B.
  destruct Fee as (fee & _ & Le); [intros ->; by apply not_elem_of_empty in Cf|]. exists pool', c, S, fee. split; [reflexivity|]. split; [exact I|]. split; [|split; [exact Cf|exact Le]].
  intros h Hh. destruct (Old h Hh) as [->|[Hd N]]; [reflexivity|]. apply elem_of_dom in Hd as [e He]. destruct N. rewrite (B h e He). exact Cf.
Defined.

(** Only the headers being ahead, a replacement is added beside the transaction that it replaces:
    the output is spent twice in the pool, and its index names the first one only. *)
Lemma partial_keeps_conflict :
  let r := AcceptToMemoryPoolWorker CMainParams DemoAccept.node DemoAccept.index (fun _ => (1, 0)) 1%positive DemoAccept.coins no_position TX_NONSTANDARD 100
             DemoAccept.rolling DemoAccept.usage DemoAccept.pool DemoAccept.second_tx true 50 false 0 (Some 1%positive) in
  snd r = Ok tt /\ mapTx (fst r) !! [60] <> None /\ mapTx (fst r) !! [70] <> None /\ mapNextTx (fst r) !! outpoint_key (COutPoint_ofHash [3] 0) = Some [60].
Proof. split_and!; vm_compute; congruence. Qed.
